(* ===== verification/_CoqProject ===== *)
-Q . S2P
Prelude.v
FileSystem.v
JobState.v
RemoteUpid.v
SectionConfig.v
Resource.v
Views.v
Search.v
ResourceList.v
ResourceStatus.v
ParallelFetcher.v
TaskItems.v
TaskCache.v
TaskArchive.v
TaskJournal.v
TaskRotate.v
TaskUpdate.v
RefreshTask.v
TaskList.v
NamespacedCache.v
RemoteCache.v
SubscriptionKeys.v
SubscriptionPool.v
SubscriptionPlan.v
SubscriptionInvariant.v
SubscriptionGuards.v
SubscriptionAssign.v
SubscriptionApply.v
RemoteData.v
RemotesConfig.v
JsonValue.v
StorageSync.v
BackupJobs.v
BackupSync.v
BackupConverge.v
MultiClient.v
AutoInstallConfig.v
AutoInstaller.v
AutoInstallSpec.v
AutoInstallHook.v
RemoteUpdates.v
CephRegistry.v
CephConfig.v
CephSweep.v
CephSpec.v
CephText.v
CephProperties.v
CephStatus.v
SdnClient.v
SdnSpec.v
SdnTransactions.v
SdnList.v
MetricRrd.v
MetricCollection.v
MetricProperties.v
MetricState.v
RrdData.v
RrdSpec.v
TopEntities.v
TopProperties.v
PveGuests.v
GuestMigration.v
GuestSpec.v
GuestProperties.v
ApiRouter.v
ApiPve.v
ApiPbs.v
ApiConfig.v
ApiMain.v
ApiTree.v
PdmClient.v
ClientContract.v
Realms.v
RealmProperties.v
AccessUsers.v
AccessProperties.v
AccessDemo.v
