(* ===== verification/Prelude.v ===== *)
(** * Verification of the Proxmox Datacenter Manager

    The Datacenter Manager (PDM) manages many Proxmox VE and Proxmox Backup
    Server installations ("remotes") from one place.  Two daemons
    ([server/src/bin]) serve an HTTP API ([server/src/api]) and run background
    tasks; the configuration is kept in section-config files
    ([lib/pdm-config]); what the remotes report is kept in caches on disk; and
    [lib/pdm-api-types] holds the data types shared with the clients and the web
    interface.  This library models the parts of it that keep state or decide on
    it, and proves what makes them correct.

    ** The parts and the files that model them

    - Remote task cache, [server/src/remote_tasks/task_cache.rs].  Tasks of all
      remotes are written to a journal, merged into a row of archive files
      (rotated, the older ones compressed), and running tasks are kept in an
      active file; a state file holds, per remote and node, the time up to which
      tasks were fetched.
      [FileSystem]: files, with lists of I/O faults that cover failing system
      calls, writes that are torn between two bytes, read errors in the middle of a
      file, and crashes.
      [TaskItems]: items, state, iterators.
      [TaskCache]: every operation of [TaskCache], [WritableTaskCache] and
      [ReadableTaskCache], one definition per method under the method's name.
      [TaskArchive]: the archive as an abstract multiset of tasks and the
      functional specification of merging.
      [TaskJournal]: merging the journal is complete, ordered, crash safe, and
      repeatable after a crash, if files can be read to their end; whatever can be
      read, it invents no task.
      [TaskRotate]: rotation forgets only the oldest tasks and keeps the bound on
      files; compression is crash safe.
      [TaskUpdate]: [update] loses no task at any crash point, and what it does to
      running tasks and cut-off times.  Examples in these files show the tasks that
      are lost after a torn write or a read error.
    - Task identifiers, [lib/pdm-api-types/src/remote_upid.rs] (and [RemoteType] of
      [remotes.rs]): [RemoteUpid], with the parse/print round trip.
    - Namespaced cache, [server/src/namespaced_cache.rs]: [NamespacedCache].  The
      file-level operations refine a map from namespace and key to a time-stamped
      value.
    - Remote mapping cache, [server/src/remote_cache/]: [RemoteCache].  Which hosts
      of a remote are reachable, when to try again, which node answers under which
      host name; and the process-wide copy validated by a generation counter, as a
      step relation over several processes, which may die between any two steps.
    - Subscription keys, [lib/pdm-api-types/src/subscription.rs]:
      [SubscriptionKeys].
    - Subscription key pool, [server/src/api/subscriptions/mod.rs]:
      [SubscriptionPool] (handlers that edit the pool) and [SubscriptionPlan] (node
      status, automatic assignment, pending changes and the worker that applies
      them); [SubscriptionInvariant], [SubscriptionGuards], [SubscriptionAssign] and
      [SubscriptionApply] hold the theorems.
    - Refreshing the task cache, [server/src/remote_tasks/refresh_task.rs] and
      [server/src/parallel_fetcher.rs].  [ParallelFetcher]: the futures that ask
      all nodes of all remotes within two limits on connections, as a transition
      system; it terminates under every schedule, never deadlocks, and keeps the
      limits.  [RefreshTask]: the timer tick (rotate, apply the journal, poll
      tracked tasks, fetch, update) as a computation that may fail at any point (a
      request that panics leaves its remote, or its node, without an answer);
      it composes the theorems of the task cache.
    - Listing and tracking remote tasks, [server/src/remote_tasks/mod.rs] and
      [server/src/api/remotes/tasks.rs]: [TaskList].
    - Resources, [lib/pdm-api-types/src/resource.rs]: [Resource], with the mapping
      of what remotes report ([server/src/api/resources.rs]).
    - Views, [lib/pdm-api-types/src/views.rs], [server/src/views/mod.rs] and
      [server/src/api/config/views.rs]: [Views].  Filter rules and their text,
      what a view includes, and the handlers that edit views.
    - Search expressions, [lib/pdm-search/src/lib.rs]: [Search].
    - Resource API, [server/src/api/resources.rs]: [ResourceList] (who is listed
      what, and that the shortcuts taken do not change the answer),
      [ResourceStatus] (the counters of the dashboard), and [RemoteData] (the
      cached resources, subscription states and locations of remotes on top of
      [server/src/api_cache.rs] and [server/src/location_cache.rs]).
    - Connections to remotes, [server/src/connection.rs]: [MultiClient].  Which node
      of a remote a request goes to, how it fails over to other nodes, and the marks
      it leaves in the remote mapping cache, with other requests moving the shared
      position at the same time.
    - Remote configuration, [lib/pdm-config/src/remotes.rs] and
      [server/src/api/remotes/mod.rs]: [RemotesConfig].  The configuration file and
      the shadow file with the secrets, which survive a crash between the two
      writes, and the handlers that add, change and remove remotes.
    - Unified backup jobs, [server/src/backup_jobs.rs] and
      [server/src/api/backup_jobs.rs].  [BackupJobs]: the job configuration, the
      guests a job selects, following migrated guests.  [BackupSync]: what is sent
      to the remotes to create, update, remove, compare and run the derived jobs.
      [BackupConverge]: a synchronized job is reported as synchronized, and removing
      a job leaves nothing of it behind.
    - PBS storages on PVE remotes, [server/src/api/pbs/storage_sync.rs]:
      [StorageSync].  [JsonValue] has the JSON values and the requests to remotes it
      shares with the backup jobs.
    - State files of local jobs, [server/src/jobstate.rs], with the daily log rotation
      ([server/src/bin/proxmox-datacenter-api/tasks/logrotate.rs]): [JobState].
    - Automated installation, [server/src/api/auto_installer/mod.rs] and
      [lib/pdm-config/src/auto_install.rs].  [AutoInstallConfig]: the prepared
      answers, tokens and installations and the files that keep them.
      [AutoInstaller]: the handlers, one definition per method.  [AutoInstallSpec]:
      the invariant of the prepared answers and the request of an installer.
      [AutoInstallHook]: tokens, the installations that are recorded and the
      hook they call when done.  Templates, globs and JSON pointers are parameters.
    - Updates of remotes, [server/src/remote_updates.rs] and
      [server/src/api/remotes/updates.rs]: [RemoteUpdates].  The cached summary of
      the updates of all nodes, which the nodes' answers enter one by one under the
      lock of the cache and a last pass cleans up; who sees which part of it.
    - Ceph clusters, [lib/pdm-config/src/ceph.rs], [server/src/ceph/] and
      [server/src/api/ceph/clusters.rs].  [CephRegistry]: the registry file,
      detecting clusters on the remotes, removing a remote, access checks.
      [CephConfig]: what is written can be read back.  [CephSweep]: the effect of a
      sweep on the registry as data.  [CephSpec]: the invariant of the registry, on
      disk and under faults.  [CephProperties]: the theorems, whatever call fails
      and whatever runs meanwhile.  [CephStatus]: the cached status of a cluster and
      the handlers.  [CephText]: a text format for concrete runs.  Removing a remote
      in [RemotesConfig] calls into this part.
    - SDN transactions, [server/src/sdn_client.rs] and [server/src/api/sdn/].
      [SdnClient]: the SDN configuration of several remotes is locked, changed on all
      of them, then applied or rolled back, and the tasks that reload it are awaited.
      [SdnSpec]: what each step does to the remotes.  [SdnTransactions]: a change
      happens everywhere or nowhere.  [SdnList]: the listings, on [ParallelFetcher].
    - Metrics, [server/src/metric_collection/].  [MetricRrd]: what is stored in the
      round-robin databases, which are a parameter.  [MetricCollection]: the state of
      the collection, its task with ticks and control messages.  [MetricProperties]:
      no datapoint that is reported in order is missed.  [MetricState]: the statuses of remotes, restarts.
      [RrdData] and [RrdSpec]: reading data points ([server/src/api/rrd_common.rs] and
      the types of data points).  [TopEntities] and [TopProperties]: the entities with
      the highest load.
    - Guests of PVE remotes, [server/src/api/pve/qemu.rs], [lxc.rs] and [mod.rs].
      [PveGuests]: the handlers that act on guests, on top of the tracking of tasks
      in [TaskList].  [GuestMigration]: migration to another remote, with the shutdown
      and the restart of containers.  [GuestSpec]: what a migration requests.
      [GuestProperties]: the theorems.
    - API tree, [server/src/api/].  [ApiRouter]: methods, permissions and routers.
      [ApiPve], [ApiPbs], [ApiConfig], [ApiMain]: those of every source file, one module
      each.  [ApiTree]: every endpoint is reached, its permission is about the object
      that the request names; the list of all requests that the declared permissions
      leave to an auditor.
    - Client library, [lib/pdm-client/src/lib.rs].  [PdmClient]: the request that each
      method sends.  [ClientContract]: the API tree accepts these requests.
    - Login realms, [lib/pdm-config/src/domains.rs], [server/src/auth/ldap.rs],
      [server/src/api/config/access/] and [server/src/api/access/domains.rs].
      [Realms]: the configuration of realms of all types, the bind passwords, the
      handlers.  [RealmProperties]: at most one realm is the default, requests leave the
      other realms alone, and the outcome of an update under I/O faults.
    - Users, [server/src/api/access/users.rs] with [lookup_authenticator] of
      [server/src/auth/mod.rs].  [AccessUsers]: the handlers over an interface to the
      access control crates.  [AccessProperties]: what updating and deleting a user
      changes, whatever call fails, and who is listed.  [AccessDemo]: concrete runs.
    - [SectionConfig]: what the handlers use of the configuration crates.

    ** How the code is represented

    Fallible code returns [result]; [?] is the bind of that monad.  Code that does
    I/O is a computation over a [world] (files and the faults to come) that returns
    the new world with its result, so that the effects of a failed operation are
    visible.  The faults to come are lists that are quantified over: one element for
    each system call, with one call for each byte that is appended to a file, and one
    for each line that is read.  A theorem that needs files to be readable to their
    end says so ([World m fl] has no read faults).  Machine integers are [Z]; where a width matters the wrap-around or
    saturation is written out.  Strings are byte strings.  A [HashMap] is a [gmap].
    A critical section under a lock is one step; what happens between two critical
    sections of one request is arbitrary.  Code outside the repository (serde_json,
    zstd, section-config, the API schemas of [proxmox_schema], remotes themselves)
    is a parameter, with its documented behaviour as the laws of a class; each class
    of laws has an instance that the witnesses use.

    ** Termination and fuel

    Definitions recurse on data (the iterators are lists of what they yield), so
    they are total.  Fuel appears in three places of [ParallelFetcher]: a run of
    the fetcher is bounded by [total_work], which every step decreases
    ([fetch_nodes_terminates] shows that the run is finished by then); the binary
    search by the length of the list; and [join_order] by the number of futures.
    A request of [MultiClient] gets one step more than the remote has nodes, and
    [request_terminates] shows that it has ended by then.  [JsonValue] trims a
    string by its length.  [poll_task] of [SdnClient] and [wait_for_pve_task] of
    [GuestMigration] wait for a remote task, which may never end: fuel bounds the
    number of questions, a wait that does not end has no result, and
    [sdn_workers_return] shows that there is one if the tasks end.

    ** What is not modelled

    The command line tools and the web interface ([cli], [ui], [lib/pdm-ui-shared]); what
    the other handlers do under
    [server/src/api/pve], [server/src/api/pbs] and [server/src/api/nodes], which
    forward a request to a remote or to a crate (their interface is in the API tree);
    the HTTP clients, TLS checks and logins of [server/src/connection.rs] and the daemons ([server/src/bin]), which
    are network and process I/O; the files of the round-robin databases, the
    access control lists, tickets and second factors, and notifications.  They are listed, with the reason,
    beside the modelled parts in the manifest of the development. *)

From stdpp Require Export base gmap strings list sorting.
From Stdlib Require Export ZArith Lia Ascii.
From Stdlib Require Import DecimalString DecimalZ DecimalFacts.

#[global] Set Default Goal Selector "!".
#[global] Open Scope Z_scope.
#[global] Arguments String.append !_ _ / : simpl nomatch.
#[global] Arguments String.eqb : simpl never.
#[global] Arguments Ascii.eqb : simpl never.

Create HintDb pdm discriminated.

(** ** Fallible code

    Rust's [Result<A, E>]; [?] is [mbind], so the notation [x ← c; k] reads as
    [let x = c?; k]. *)

Inductive result (E A : Type) : Type :=
| Ok (a : A)
| Err (e : E).
Arguments Ok {E A} a.
Arguments Err {E A} e.

#[export] Instance result_ret E : MRet (result E) := λ A a, Ok a.
#[export] Instance result_bind E : MBind (result E) := λ A B f r,
  match r with Ok a => f a | Err e => Err e end.
#[export] Instance result_fmap E : FMap (result E) := λ A B f r,
  match r with Ok a => Ok (f a) | Err e => Err e end.

Definition ok_or {E A} (o : option A) (e : E) : result E A :=
  match o with Some a => Ok a | None => Err e end.

Definition result_ok {E A} (r : result E A) : option A :=
  match r with Ok a => Some a | Err _ => None end.

(** An early return: [if b { return Err(e) }]. *)
Definition bail_if {E} (b : bool) (e : E) : result E unit :=
  if b then Err e else Ok tt.

Section result_lemmas.
Context {E A B : Type}.
Implicit Types (r : result E A) (k : A → result E B).

Lemma bind_Ok_inv r k b : r ≫= k = Ok b → ∃ a, r = Ok a ∧ k a = Ok b.
Proof. destruct r as [a|e]; [by exists a|done]. Qed.

Lemma ok_or_Ok (o : option A) (e : E) a : ok_or o e = Ok a ↔ o = Some a.
Proof. destruct o; naive_solver. Qed.

Lemma bail_if_Ok (b : bool) (e : E) u : bail_if b e = Ok u ↔ b = false.
Proof. destruct b, u; naive_solver. Qed.
End result_lemmas.

(** Run a handler symbolically: peel off every [?] and every early return of a
    hypothesis that says the handler succeeded. *)
Ltac run_ok H :=
  repeat lazymatch type of H with
  | (_ ≫= _) = Ok _ =>
      let a := fresh "v" in let H1 := fresh "Hrun" in
      apply bind_Ok_inv in H as (a & H1 & H);
      lazymatch type of H1 with
      | bail_if _ _ = Ok _ => apply bail_if_Ok in H1; clear a || idtac
      | ok_or _ _ = Ok _ => apply ok_or_Ok in H1
      | _ => idtac
      end
  end.

(** ** Comparators

    Rust's [Ordering]-valued comparison functions, with the laws [sort_by]
    asks for (a total order on some key of the elements). *)

Class TotalCmp {A} (cmp : A → A → comparison) : Prop := {
  cmp_antisym x y : cmp y x = CompOpp (cmp x y);
  cmp_le_trans x y z : cmp x y ≠ Gt → cmp y z ≠ Gt → cmp x z ≠ Gt;
}.
#[global] Arguments cmp_antisym {A} cmp {_} x y.
#[global] Arguments cmp_le_trans {A} cmp {_} x y z.

Definition cle {A} (cmp : A → A → comparison) (x y : A) : Prop := cmp x y ≠ Gt.
Definition clt {A} (cmp : A → A → comparison) (x y : A) : Prop := cmp x y = Lt.

(** [Ordering::then], comparison on a key, and the reversed comparison. *)
Definition cmp_then (c1 c2 : comparison) : comparison :=
  match c1 with Eq => c2 | _ => c1 end.
Definition cmp_lex {A} (f g : A → A → comparison) (x y : A) : comparison :=
  cmp_then (f x y) (g x y).
Definition cmp_on {A K} (key : A → K) (cmp : K → K → comparison) (x y : A) : comparison :=
  cmp (key x) (key y).
Definition cmp_flip {A} (cmp : A → A → comparison) (x y : A) : comparison := cmp y x.
Definition bool_compare (a b : bool) : comparison :=
  match a, b with
  | false, true => Lt | true, false => Gt | _, _ => Eq
  end.

#[global] Typeclasses Opaque cmp_lex cmp_on cmp_flip.

Section cmp_lemmas.
Context {A} (cmp : A → A → comparison) `{!TotalCmp cmp}.

Lemma cmp_refl x : cmp x x = Eq.
Proof. pose proof (cmp_antisym cmp x x) as H. by destruct (cmp x x). Qed.

Lemma cmp_Gt_Lt x y : cmp x y = Gt ↔ cmp y x = Lt.
Proof. rewrite (cmp_antisym cmp x y). destruct (cmp x y); naive_solver. Qed.

Lemma cmp_total x y : cle cmp x y ∨ cle cmp y x.
Proof. unfold cle. rewrite (cmp_antisym cmp x y). destruct (cmp x y); naive_solver. Qed.

Lemma clt_cle x y : clt cmp x y → cle cmp x y.
Proof. unfold clt, cle. congruence. Qed.

Lemma cle_lt_trans x y z : cle cmp x y → clt cmp y z → clt cmp x z.
Proof.
  unfold cle, clt. intros Hxy Hyz.
  destruct (cmp x z) eqn:Hxz; [|done|].
  - exfalso. apply (cmp_le_trans cmp z x y); [|done|].
    + rewrite (cmp_antisym cmp x z), Hxz. done.
    + by apply cmp_Gt_Lt.
  - exfalso. apply (cmp_le_trans cmp x y z); [done|congruence|done].
Qed.

Lemma clt_le_trans x y z : clt cmp x y → cle cmp y z → clt cmp x z.
Proof.
  unfold cle, clt. intros Hxy Hyz.
  destruct (cmp x z) eqn:Hxz; [|done|].
  - exfalso. apply (cmp_le_trans cmp y z x); [done| |].
    + rewrite (cmp_antisym cmp x z), Hxz. done.
    + by apply cmp_Gt_Lt.
  - exfalso. apply (cmp_le_trans cmp x y z); [congruence|done|done].
Qed.

Lemma clt_trans x y z : clt cmp x y → clt cmp y z → clt cmp x z.
Proof. intros ? ?. eapply clt_le_trans; [done|]. by apply clt_cle. Qed.

Lemma clt_irrefl x : ¬ clt cmp x x.
Proof. unfold clt. by rewrite cmp_refl. Qed.

Lemma cmp_Eq_l x y z : cmp x y = Eq → cmp x z = cmp y z.
Proof.
  intros Hxy. assert (cmp y x = Eq) as Hyx by (by rewrite (cmp_antisym cmp x y), Hxy).
  assert (cle cmp x y) by (unfold cle; congruence).
  assert (cle cmp y x) by (unfold cle; congruence).
  destruct (cmp y z) eqn:Hyz.
  - destruct (cmp x z) eqn:Hxz; [done| |].
    + assert (clt cmp y z) as Hc by (eapply cle_lt_trans; done).
      unfold clt in Hc. congruence.
    + apply cmp_Gt_Lt in Hxz.
      assert (clt cmp z y) as Hc by (eapply clt_le_trans; done).
      apply cmp_Gt_Lt in Hc. congruence.
  - by apply (cle_lt_trans x y z).
  - apply cmp_Gt_Lt. apply cmp_Gt_Lt in Hyz. by apply (clt_le_trans z y x).
Qed.

Lemma cmp_Eq_r x y z : cmp x y = Eq → cmp z x = cmp z y.
Proof.
  intros H. rewrite (cmp_antisym cmp x z), (cmp_antisym cmp y z). by rewrite (cmp_Eq_l x y z).
Qed.

#[export] Instance cle_trans : Transitive (cle cmp).
Proof. intros x y z. exact (cmp_le_trans cmp x y z). Qed.
#[export] Instance clt_transitive : Transitive (clt cmp).
Proof. intros x y z. exact (clt_trans x y z). Qed.
End cmp_lemmas.

#[export] Instance cmp_on_total {A K} (key : A → K) cmp `{!TotalCmp cmp} :
  TotalCmp (cmp_on key cmp).
Proof.
  split; unfold cmp_on.
  - intros x y. apply cmp_antisym, _.
  - intros x y z. exact (cmp_le_trans cmp (key x) (key y) (key z)).
Qed.

#[export] Instance cmp_flip_total {A} (cmp : A → A → comparison) `{!TotalCmp cmp} :
  TotalCmp (cmp_flip cmp).
Proof.
  split; unfold cmp_flip.
  - intros x y. apply cmp_antisym, _.
  - intros x y z ? ?. by apply (cmp_le_trans cmp z y x).
Qed.

#[export] Instance cmp_lex_total {A} (f g : A → A → comparison) `{!TotalCmp f, !TotalCmp g} :
  TotalCmp (cmp_lex f g).
Proof.
  split; unfold cmp_lex, cmp_then.
  - intros x y. rewrite (cmp_antisym f x y), (cmp_antisym g x y).
    by destruct (f x y).
  - intros x y z Hxy Hyz.
    destruct (f x y) eqn:E1; [|clear Hxy|done].
    + rewrite (cmp_Eq_l f x y z E1). destruct (f y z); [|done|done].
      by apply (cmp_le_trans g x y z).
    + destruct (f y z) eqn:E2; [| |done].
      * rewrite <-(cmp_Eq_r f y z x E2), E1. done.
      * assert (f x z = Lt) as ->; [|done]. by apply (clt_trans f x y z).
Qed.

#[export] Instance Z_compare_total : TotalCmp Z.compare.
Proof.
  split; intros x y.
  - apply Z.compare_antisym.
  - intros z. exact (Z.le_trans x y z).
Qed.

#[export] Instance bool_compare_total : TotalCmp bool_compare.
Proof. split; [intros [] []|intros [] [] []]; simpl; naive_solver. Qed.

(** [str::cmp] compares byte by byte: the Standard Library's [String.compare]. *)
#[export] Instance N_compare_total : TotalCmp N.compare.
Proof.
  split; intros x y.
  - apply N.compare_antisym.
  - intros z. exact (N.le_trans x y z).
Qed.

#[export] Instance string_compare_total : TotalCmp String.compare.
Proof.
  assert (TotalCmp Ascii.compare) as HA by
    exact (cmp_on_total Ascii.N_of_ascii N.compare).
  split.
  - induction x as [|a x IH]; intros [|b y]; simpl; [done..|].
    rewrite (cmp_antisym Ascii.compare a b), (IH y). by destruct (Ascii.compare a b).
  - induction x as [|a x IH]; intros [|b y] [|c z]; simpl; try done.
    intros H1 H2.
    destruct (Ascii.compare a b) eqn:E1; [|clear H1|done].
    + rewrite (cmp_Eq_l Ascii.compare a b c E1).
      destruct (Ascii.compare b c); [|done|done]. by eapply IH.
    + destruct (Ascii.compare b c) eqn:E2; [| |done].
      * rewrite <-(cmp_Eq_r Ascii.compare b c a E2), E1. done.
      * assert (Ascii.compare a c = Lt) as ->; [|done].
        by apply (clt_trans Ascii.compare a b c).
Qed.

Lemma string_compare_Eq s t : String.compare s t = Eq ↔ s = t.
Proof. split; [apply String.compare_eq_iff|intros ->; by apply cmp_refl, _]. Qed.

(** ** Sorting and deduplication of vectors *)

Section sorting.
Context {A : Type} (cmp : A → A → comparison).

Fixpoint sort_insert (x : A) (l : list A) : list A :=
  match l with
  | [] => [x]
  | y :: l' =>
      match cmp x y with
      | Gt => y :: sort_insert x l'
      | _ => x :: l
      end
  end.

(** [Vec::sort_by]: a stable sort (elements that compare equal keep their
    relative order, since each element goes in front of its equals). *)
Definition sort_by (l : list A) : list A := foldr sort_insert [] l.

Lemma sort_insert_perm x l : sort_insert x l ≡ₚ x :: l.
Proof.
  induction l as [|y l IH]; simpl; [done|].
  destruct (cmp x y); [done..|]. rewrite IH. apply Permutation_swap.
Qed.

Lemma sort_by_perm l : sort_by l ≡ₚ l.
Proof. induction l as [|x l IH]; simpl; [done|]. by rewrite sort_insert_perm, IH. Qed.

Lemma elem_of_sort_by x l : x ∈ sort_by l ↔ x ∈ l.
Proof. by rewrite sort_by_perm. Qed.

Lemma length_sort_by l : length (sort_by l) = length l.
Proof. apply Permutation_length, sort_by_perm. Qed.

Context `{!TotalCmp cmp}.

Lemma sort_insert_sorted x l :
  StronglySorted (cle cmp) l → StronglySorted (cle cmp) (sort_insert x l).
Proof.
  induction 1 as [|y l Hl IH Hy]; simpl; [by repeat constructor|].
  destruct (cmp x y) eqn:E.
  3: { constructor; [done|]. rewrite sort_insert_perm. constructor; [|done].
       unfold cle. apply cmp_Gt_Lt in E; [|done]. congruence. }
  all: constructor; [by constructor|]; constructor; [unfold cle; congruence|].
  all: eapply Forall_impl; [done|]; intros z Hz; eapply (cle_trans cmp); [|exact Hz].
  all: unfold cle; congruence.
Qed.

Lemma sort_by_sorted l : StronglySorted (cle cmp) (sort_by l).
Proof. induction l; simpl; [constructor|]. by apply sort_insert_sorted. Qed.

(** Sorting a sorted vector changes nothing. *)
Lemma sort_by_id l : StronglySorted (cle cmp) l → sort_by l = l.
Proof.
  induction 1 as [|x l Hl IH Hx]; simpl; [done|]. rewrite IH.
  destruct Hx as [|y l Hy]; simpl; [done|]. unfold cle in Hy. by destruct (cmp x y).
Qed.
End sorting.

Lemma StronglySorted_mono {A} (R S : relation A) l :
  (∀ x y, R x y → S x y) → StronglySorted R l → StronglySorted S l.
Proof.
  intros HRS. induction 1 as [|x l Hl IH Hx]; constructor; [done|].
  eapply Forall_impl; [exact Hx|auto].
Qed.

Section dedup.
Context {A : Type} (same : A → A → bool).

(** [Vec::dedup_by]: drop an element that is the [same] as the last one kept. *)
Fixpoint dedup_from (last : A) (l : list A) : list A :=
  match l with
  | [] => []
  | x :: l' => if same last x then dedup_from last l' else x :: dedup_from x l'
  end.
Definition dedup_by (l : list A) : list A :=
  match l with [] => [] | x :: l' => x :: dedup_from x l' end.

Lemma dedup_from_sublist x l : dedup_from x l `sublist_of` l.
Proof.
  revert x. induction l as [|y l IH]; intros x; simpl; [done|].
  destruct (same x y); [by apply sublist_cons|by apply sublist_skip].
Qed.

Lemma dedup_by_sublist l : dedup_by l `sublist_of` l.
Proof. destruct l; simpl; [done|]. apply sublist_skip, dedup_from_sublist. Qed.

Lemma dedup_from_kept x l y :
  (∀ a, same a a = true) → y ∈ l → same x y = true ∨ ∃ z, z ∈ dedup_from x l ∧ same z y = true.
Proof.
  intros Hrefl. revert x. induction l as [|z l IH]; intros x; [set_solver|].
  intros Hy. apply elem_of_cons in Hy as [->|Hy]; simpl.
  - destruct (same x z) eqn:E; [by left|]. right. exists z. split; [left|done].
  - destruct (same x z) eqn:E; [by apply IH|].
    right. destruct (IH z Hy) as [?|(w&?&?)].
    + exists z. split; [left|done].
    + exists w. split; [by right|done].
Qed.

Lemma dedup_by_kept l y :
  (∀ a, same a a = true) → y ∈ l → ∃ z, z ∈ dedup_by l ∧ same z y = true.
Proof.
  intros Hrefl. destruct l as [|x l]; [set_solver|]. intros [->|Hy]%elem_of_cons.
  - exists x. split; [left|apply Hrefl].
  - simpl. destruct (dedup_from_kept x l y Hrefl Hy) as [?|(z&?&?)].
    + exists x. split; [left|done].
    + exists z. split; [by right|done].
Qed.
End dedup.

Lemma StronglySorted_sublist {A} (R : relation A) l k :
  l `sublist_of` k → StronglySorted R k → StronglySorted R l.
Proof.
  induction 1 as [|x l k Hs IH|x l k Hs IH]; [done| |].
  - intros [Hx Hk]%StronglySorted_cons. apply StronglySorted_cons. split; [|by apply IH].
    apply Forall_forall. intros y Hy. rewrite Forall_forall in Hx. apply Hx.
    by eapply elem_of_sublist.
  - intros [Hx Hk]%StronglySorted_cons. by apply IH.
Qed.

(** ** Strings

    A Rust [&str] is the byte string of its UTF-8 encoding. *)

Fixpoint char_in (c : Ascii.ascii) (s : string) : bool :=
  match s with
  | EmptyString => false
  | String a s' => Ascii.eqb c a || char_in c s'
  end.

Fixpoint strip_prefix (p s : string) : option string :=
  match p, s with
  | EmptyString, _ => Some s
  | String a p', String b s' => if Ascii.eqb a b then strip_prefix p' s' else None
  | _, EmptyString => None
  end.

Definition starts_with (p s : string) : bool :=
  match strip_prefix p s with Some _ => true | None => false end.

Fixpoint strip_suffix (suf s : string) : option string :=
  if String.eqb s suf then Some ""%string else
  match s with
  | EmptyString => None
  | String a s' => String a <$> strip_suffix suf s'
  end.

(** [str::split_once] on a one-byte separator: the split at its first occurrence. *)
Fixpoint split_once (c : Ascii.ascii) (s : string) : option (string * string) :=
  match s with
  | EmptyString => None
  | String a s' =>
      if Ascii.eqb c a then Some (""%string, s')
      else '(p, q) ← split_once c s'; Some (String a p, q)
  end.

(** [str::contains] with a string needle. *)
Fixpoint str_contains (needle s : string) : bool :=
  starts_with needle s ||
  match s with EmptyString => false | String _ s' => str_contains needle s' end.

Lemma str_length_app s t : String.length (s +:+ t) = (String.length s + String.length t)%nat.
Proof. induction s; simpl; auto. Qed.

(** [Vec<String>::join]. *)
Fixpoint str_join (sep : string) (l : list string) : string :=
  match l with
  | [] => ""
  | [s] => s
  | s :: l' => s +:+ sep +:+ str_join sep l'
  end.

Section strings.
Implicit Types (s t p q : string) (c a : Ascii.ascii).

Lemma char_in_app c s t : char_in c (s +:+ t) = char_in c s || char_in c t.
Proof. induction s as [|a s IH]; simpl; [done|]. by rewrite IH, orb_assoc. Qed.

Lemma str_app_assoc s t p : (s +:+ t) +:+ p = s +:+ (t +:+ p).
Proof. induction s; simpl; congruence. Qed.

Lemma str_app_nil_r s : s +:+ "" = s.
Proof. induction s; simpl; congruence. Qed.

Lemma str_app_inj_l s t p : s +:+ t = s +:+ p → t = p.
Proof. induction s; simpl; naive_solver. Qed.

Lemma strip_prefix_app p s : strip_prefix p (p +:+ s) = Some s.
Proof. induction p as [|a p IH]; simpl; [by destruct s|]. by rewrite Ascii.eqb_refl. Qed.

Lemma strip_prefix_Some p s t : strip_prefix p s = Some t ↔ s = p +:+ t.
Proof.
  split; [|intros ->; apply strip_prefix_app].
  revert s. induction p as [|a p IH]; intros [|b s]; simpl; try naive_solver.
  destruct (Ascii.eqb_spec a b) as [->|]; [|done]. intros ?. f_equal. auto.
Qed.

Lemma strip_suffix_app s t : strip_suffix t (s +:+ t) = Some s.
Proof.
  induction s as [|a s IH]; simpl.
  - destruct t as [|b t]; simpl; by rewrite ?String.eqb_refl.
  - destruct (String.eqb_spec (String a (s +:+ t)) t) as [Heq|]; [|by rewrite IH].
    exfalso. apply (f_equal String.length) in Heq. simpl in Heq.
    assert (∀ u v, String.length (u +:+ v) = (String.length u + String.length v)%nat) as Hl.
    { induction u; simpl; auto. }
    rewrite Hl in Heq. lia.
Qed.

Lemma strip_suffix_Some s t p : strip_suffix t s = Some p → s = p +:+ t.
Proof.
  revert p. induction s as [|a s IH]; intros p; simpl.
  - destruct (String.eqb_spec "" t) as [<-|]; naive_solver.
  - destruct (String.eqb_spec (String a s) t) as [<-|]; [naive_solver|].
    destruct (strip_suffix t s); simpl; intros; simplify_eq/=. f_equal. auto.
Qed.

Lemma split_once_app c p q :
  char_in c p = false → split_once c (p +:+ String c q) = Some (p, q).
Proof.
  induction p as [|a p IH]; simpl.
  - by rewrite Ascii.eqb_refl.
  - intros [-> Hp]%orb_false_iff. by rewrite IH.
Qed.

Lemma split_once_Some c s p q :
  split_once c s = Some (p, q) → s = p +:+ String c q ∧ char_in c p = false.
Proof.
  revert p. induction s as [|a s IH]; intros p; simpl; [done|].
  destruct (Ascii.eqb_spec c a) as [->|Hne]; [by intros ?; simplify_eq/=|].
  destruct (split_once c s) as [[p' q']|] eqn:E; simpl; [|done].
  intros ?; simplify_eq/=. destruct (IH p') as [-> ->]; [done|].
  split; [done|]. by rewrite (proj2 (Ascii.eqb_neq _ _) Hne).
Qed.

Lemma split_once_None c s : split_once c s = None ↔ char_in c s = false.
Proof.
  induction s as [|a s IH]; simpl; [done|].
  destruct (Ascii.eqb c a); simpl; [done|].
  destruct (split_once c s) as [[]|]; simpl; naive_solver.
Qed.
End strings.

(** Every byte of a string satisfies a test. *)
Fixpoint str_forall (P : ascii → bool) (s : string) : bool :=
  match s with EmptyString => true | String a s' => P a && str_forall P s' end.

Lemma str_forall_not_in P c s : str_forall P s = true → P c = false → char_in c s = false.
Proof.
  intros Hs Hc. induction s as [|a s IH]; simpl in *; [done|].
  apply andb_true_iff in Hs as [Ha Hs]. rewrite IH by done.
  destruct (Ascii.eqb_spec c a) as [->|]; [congruence|done].
Qed.

Lemma str_forall_app P s t : str_forall P (s +:+ t) = str_forall P s && str_forall P t.
Proof. induction s as [|a s IH]; simpl; [done|]. by rewrite IH, andb_assoc. Qed.

(** ** Machine integers *)

Definition in_i64 (z : Z) : bool := (- 2 ^ 63 <=? z) && (z <? 2 ^ 63).
Definition in_u64 (z : Z) : bool := (0 <=? z) && (z <? 2 ^ 64).
Definition i64_MAX : Z := 2 ^ 63 - 1.
Definition i64_MIN : Z := - 2 ^ 63.
Definition u64_MAX : Z := 2 ^ 64 - 1.

(** [z as u32] for an [i64] value, and [z as i64] for a [u64] value. *)
Definition as_u32 (z : Z) : Z := z mod 2 ^ 32.
Definition as_i64 (z : Z) : Z := (z + 2 ^ 63) mod 2 ^ 64 - 2 ^ 63.

Definition i64_saturating_sub (a b : Z) : Z := Z.max i64_MIN (Z.min i64_MAX (a - b)).

Lemma as_i64_small z : 0 ≤ z < 2 ^ 63 → as_i64 z = z.
Proof. intros ?. unfold as_i64. rewrite Z.mod_small; lia. Qed.

(** Decimal printing ([Display] for integers) and [str::parse::<i64>]: an
    optional sign, at least one digit, and a value in range. *)
Definition show_Z (z : Z) : string := NilZero.string_of_int (Z.to_int z).

Definition parse_Z (s : string) : option Z :=
  match s with
  | String "+"%char s' => Z.of_uint <$> NilZero.uint_of_string s'
  | _ => Z.of_int <$> NilZero.int_of_string s
  end.

Definition parse_i64 (s : string) : option Z :=
  z ← parse_Z s; if in_i64 z then Some z else None.

Lemma Z_to_int_not_nil z : Z.to_int z ≠ Decimal.Pos Decimal.Nil ∧ Z.to_int z ≠ Decimal.Neg Decimal.Nil.
Proof.
  split; intros H; apply (f_equal Z.of_int) in H as H'; rewrite DecimalZ.of_to in H'; simpl in H'; subst; done.
Qed.

Lemma show_nonneg_no_minus z : 0 ≤ z → starts_with "-" (show_Z z) = false.
Proof.
  intros Hz. unfold show_Z, NilZero.string_of_int. destruct z as [|p|p]; [done| |lia].
  simpl. unfold starts_with. destruct (Pos.to_uint p); done.
Qed.

Lemma parse_show_Z z : parse_Z (show_Z z) = Some z.
Proof.
  unfold parse_Z, show_Z. destruct (Z_to_int_not_nil z) as [H1 H2].
  pose proof (NilZero.isi (Z.to_int z) H1 H2) as Hi.
  assert (Z.of_int <$> NilZero.int_of_string (NilZero.string_of_int (Z.to_int z)) = Some z) as Hok.
  { rewrite Hi. simpl. by rewrite DecimalZ.of_to. }
  destruct (NilZero.string_of_int (Z.to_int z)) as [|a s] eqn:E; [done|].
  destruct (Ascii.eqb_spec a "+"%char) as [->|Hne]; [|by destruct a as [[] [] [] [] [] [] [] []]].
  exfalso. destruct (Z.to_int z) as [u|u]; destruct u; simpl in E; discriminate.
Qed.

Lemma parse_show_i64 z : in_i64 z = true → parse_i64 (show_Z z) = Some z.
Proof. intros H. unfold parse_i64. rewrite parse_show_Z. simpl. by rewrite H. Qed.

(** A printed integer has only digits and a sign. *)
Definition int_char (a : ascii) : bool :=
  let n := Ascii.N_of_ascii a in
  ((48 <=? n)%N && (n <=? 57)%N) || Ascii.eqb a "-".

Lemma show_Z_chars z : str_forall int_char (show_Z z) = true.
Proof.
  assert (∀ u, str_forall int_char (NilEmpty.string_of_uint u) = true) as Hu.
  { induction u; simpl; try rewrite IHu; done. }
  unfold show_Z, NilZero.string_of_int, NilZero.string_of_uint.
  destruct (Z.to_int z) as [[]|[]]; simpl; rewrite ?Hu; done.
Qed.

(** A text for every encodable value, for concrete runs: the bits of its
    encoding. *)
Fixpoint bits (p : positive) : string :=
  match p with xH => "" | xO p => String "0" (bits p) | xI p => String "1" (bits p) end.
Fixpoint of_bits (s : string) : positive :=
  match s with EmptyString => xH | String a s => if Ascii.eqb a "0" then xO (of_bits s) else xI (of_bits s) end.
Lemma of_bits_bits p : of_bits (bits p) = p.
Proof. induction p; simpl; congruence. Qed.
