(* ===== verification/FileSystem.v ===== *)
(** * Files, I/O faults and external regular expressions

    The components keep their state in files.  A [world] holds the content of
    the files (a path maps to the bytes of the file) and the list of faults
    the environment will inject: every primitive consumes one element, [true]
    makes it fail without an effect.  Since the list is arbitrary it covers a
    single failing system call as well as a crash, after which nothing reaches
    the disk any more (an unbounded run of [true]).  A third list has the faults of
    reading on in a file that could be opened, one element for every line that is
    read; [World] is a world in which all files can be read to their end.

    The primitives model what the code uses of [std::fs] and the atomic
    [replace_file] of [proxmox_sys] (write a temporary file, then rename). *)

From S2P Require Import Prelude.

Inductive error : Type :=
| ENotFound            (** [ErrorKind::NotFound] *)
| EIo                  (** any other I/O error *)
| EInvalid             (** undecodable data *)
| EMsg (msg : string). (** [bail!] / [format_err!] *)

#[export] Instance error_eq_dec : EqDecision error.
Proof. solve_decision. Defined.

Record world : Type := mkWorld {
  files : gmap string string;
  faults : list bool;
  read_faults : list bool;
}.
Abbreviation World m fl := (mkWorld m fl []).

Definition io (A : Type) : Type := world → result error A * world.

#[export] Instance io_ret : MRet io := λ A a w, (Ok a, w).
#[export] Instance io_bind : MBind io := λ A B k m w,
  match m w with
  | (Ok a, w') => k a w'
  | (Err e, w') => (Err e, w')
  end.

Definition io_fail {A} (e : error) : io A := λ w, (Err e, w).

(** [match c { Err(err) => log::error!(..), .. }]: carry on whatever happened. *)
Definition io_try {A} (m : io A) : io (result error A) := λ w,
  let '(r, w') := m w in (Ok r, w').

Definition io_lift {A} (r : result error A) : io A := λ w, (r, w).

(** A [for] loop whose body may return early with an error. *)
Fixpoint io_for {A} (f : A → io unit) (l : list A) : io unit :=
  match l with
  | [] => mret tt
  | x :: l' => _ ← f x; io_for f l'
  end.

Definition prim {A} (f : gmap string string → result error A * gmap string string) : io A :=
  λ w,
  match faults w with
  | true :: fs => (Err EIo, mkWorld (files w) fs (read_faults w))
  | false :: fs => let '(r, m) := f (files w) in (r, mkWorld m fs (read_faults w))
  | [] => let '(r, m) := f (files w) in (r, mkWorld m [] (read_faults w))
  end.

(** [File::open] followed by reading: [None] stands for [NotFound]. *)
Definition fs_open (name : string) : io (option string) :=
  prim (λ m, (Ok (m !! name), m)).
Definition fs_read_dir : io (list string) :=
  prim (λ m, (Ok ((map_to_list m).*1), m)).
(** Atomic replacement of a file. *)
Definition fs_replace (name data : string) : io unit :=
  prim (λ m, (Ok tt, <[name := data]> m)).
(** [OpenOptions::new().append(true).create(true).open(..)] *)
Definition fs_open_append (name : string) : io unit :=
  prim (λ m, (Ok tt, match m !! name with Some _ => m | None => <[name := ""%string]> m end)).
(** Writing to an unbuffered file: a fault leaves the bytes before it behind. *)
Definition fs_append_byte (name : string) (a : Ascii.ascii) : io unit :=
  prim (λ m, (Ok tt, alter (λ old, old +:+ String a EmptyString) name m)).
Definition fs_append (name data : string) : io unit :=
  io_for (fs_append_byte name) (String.list_ascii_of_string data).
(** Whether reading the next line fails. *)
Definition fs_read_fails : io bool :=
  λ w, (Ok (default false (head (read_faults w))), mkWorld (files w) (faults w) (tail (read_faults w))).
(** [OpenOptions::new().write(true).truncate(true).open(..)] *)
Definition fs_truncate (name : string) : io unit :=
  prim (λ m, match m !! name with
             | Some _ => (Ok tt, <[name := ""%string]> m)
             | None => (Err ENotFound, m)
             end).
Definition fs_remove (name : string) : io unit :=
  prim (λ m, match m !! name with
             | Some _ => (Ok tt, delete name m)
             | None => (Err ENotFound, m)
             end).
(** [metadata().size()] *)
Definition fs_size (name : string) : io Z :=
  prim (λ m, match m !! name with
             | Some b => (Ok (Z.of_nat (String.length b)), m)
             | None => (Err ENotFound, m)
             end).
(** A step that only may fail: [sync_all], creating a temporary file. *)
Definition fs_sync : io unit := prim (λ m, (Ok tt, m)).

(** ** Reasoning about runs *)

Lemma io_bind_run {A B} (m : io A) (k : A → io B) w :
  (m ≫= k) w = match m w with (Ok a, w') => k a w' | (Err e, w') => (Err e, w') end.
Proof. done. Qed.

Lemma prim_quiet {A} f m : @prim A f (World m []) = let '(r, m') := f m in (r, World m' []).
Proof. done. Qed.

(** What every primitive preserves, every composition preserves: the Hoare
    triple of a relation between the files before and after. *)
Definition io_rel {A} (R : relation (gmap string string)) (c : io A) : Prop :=
  ∀ w, R (files w) (files (c w).2).

Section io_rel.
Context (R : relation (gmap string string)) `{!PreOrder R}.

Lemma io_rel_ret {A} (a : A) : io_rel R (mret a).
Proof. intros w. simpl. reflexivity. Qed.
Lemma io_rel_fail {A} e : io_rel R (@io_fail A e).
Proof. intros w. simpl. reflexivity. Qed.
Lemma io_rel_lift {A} (r : result error A) : io_rel R (io_lift r).
Proof. intros w. simpl. reflexivity. Qed.
Lemma io_rel_bind {A B} (m : io A) (k : A → io B) :
  io_rel R m → (∀ a, io_rel R (k a)) → io_rel R (m ≫= k).
Proof.
  intros Hm Hk w. specialize (Hm w). rewrite io_bind_run.
  destruct (m w) as [[a|e] w'] eqn:E; simpl in *; [|done].
  etrans; [exact Hm|apply Hk].
Qed.
Lemma io_rel_try {A} (m : io A) : io_rel R m → io_rel R (io_try m).
Proof. intros Hm w. specialize (Hm w). unfold io_try. by destruct (m w). Qed.
Lemma io_rel_for {A} (f : A → io unit) l : (∀ x, io_rel R (f x)) → io_rel R (io_for f l).
Proof.
  intros Hf. induction l as [|x l IH]; simpl; [apply io_rel_ret|].
  apply io_rel_bind; [done|]. intros _. done.
Qed.
Lemma io_rel_prim {A} (f : gmap string string → result error A * gmap string string) :
  (∀ m, R m (f m).2) → io_rel R (prim f).
Proof.
  intros Hf w. unfold prim. destruct (faults w) as [|[] fs]; simpl.
  - specialize (Hf (files w)). by destruct (f (files w)).
  - reflexivity.
  - specialize (Hf (files w)). by destruct (f (files w)).
Qed.
End io_rel.

(** Computations that only look at the files. *)
Lemma io_rel_read {A} (R : relation (gmap string string)) `{!Reflexive R}
    (f : gmap string string → result error A) :
  io_rel R (prim (λ m, (f m, m))).
Proof. intros w. unfold prim. by destruct (faults w) as [|[] fs]; simpl. Qed.

Section readonly.
Context (R : relation (gmap string string)) `{!Reflexive R}.
Lemma fs_open_readonly name : io_rel R (fs_open name).
Proof. by apply io_rel_read. Qed.
Lemma fs_read_dir_readonly : io_rel R fs_read_dir.
Proof. by apply io_rel_read. Qed.
Lemma fs_sync_readonly : io_rel R fs_sync.
Proof. by apply io_rel_read. Qed.
Lemma fs_size_readonly name : io_rel R (fs_size name).
Proof.
  intros w. unfold fs_size, prim.
  destruct (faults w) as [|[] fs]; simpl; [| |]; by try destruct (files w !! name).
Qed.
End readonly.

#[export] Hint Resolve fs_open_readonly fs_read_dir_readonly fs_sync_readonly fs_size_readonly : pdm.

(** Hoare triples over the files, for every list of faults: [Q] describes a
    successful run, [E] what is on disk after a failed one. *)
Definition triple {A} (P : gmap string string → Prop) (c : io A)
    (Q : A → gmap string string → Prop) (E : gmap string string → Prop) : Prop :=
  ∀ w, P (files w) →
  match c w with
  | (Ok a, w') => Q a (files w')
  | (Err _, w') => E (files w')
  end.

Section triple.
Implicit Types (P E : gmap string string → Prop).

Lemma triple_ret {A} P (a : A) Q E : (∀ m, P m → Q a m) → triple P (mret a) Q E.
Proof. intros HQ w HP. by apply HQ. Qed.

Lemma triple_lift {A} P (r : result error A) Q E :
  (∀ m, P m → match r with Ok a => Q a m | Err _ => E m end) → triple P (io_lift r) Q E.
Proof. intros HQ w HP. specialize (HQ _ HP). unfold io_lift. by destruct r. Qed.

Lemma triple_bind {A B} P (m : io A) (k : A → io B) R Q E :
  triple P m R E → (∀ a, triple (R a) (k a) Q E) → triple P (m ≫= k) Q E.
Proof.
  intros Hm Hk w HP. specialize (Hm w HP). rewrite io_bind_run.
  destruct (m w) as [[a|e] w'] eqn:Heq; [|done]. by apply Hk.
Qed.

Lemma triple_prim {A} P (f : gmap string string → result error A * gmap string string) Q E :
  (∀ m, P m → E m) →
  (∀ m, P m → match f m with (Ok a, m') => Q a m' | (Err _, m') => E m' end) →
  triple P (prim f) Q E.
Proof.
  intros HE HQ w HP. unfold prim. destruct (faults w) as [|[] fs]; simpl; [|by apply HE|].
  all: specialize (HQ _ HP); by destruct (f (files w)) as [[a|e] m'].
Qed.

Lemma triple_conseq {A} P P' (c : io A) Q Q' E E' :
  triple P' c Q' E' → (∀ m, P m → P' m) → (∀ a m, Q' a m → Q a m) → (∀ m, E' m → E m) →
  triple P c Q E.
Proof.
  intros Hc HP HQ HE w Hw. specialize (Hc w (HP _ Hw)).
  destruct (c w) as [[a|e] w']; auto.
Qed.

Lemma triple_try {A} P (c : io A) Q E Q' :
  triple P c Q E → (∀ a m, Q a m → Q' (Ok a) m) → (∀ e m, E m → Q' (Err e) m) →
  triple P (io_try c) Q' E.
Proof.
  intros Hc HQ HE w Hw. specialize (Hc w Hw). unfold io_try.
  destruct (c w) as [[a|e] w']; auto.
Qed.

Lemma triple_pure {A} P (φ : Prop) (c : io A) Q E :
  (φ → triple P c Q E) → triple (λ m, P m ∧ φ) c Q E.
Proof. intros Hc w [HP Hφ]. by apply Hc. Qed.

(** A triple may be proved for each starting state on its own. *)
Lemma triple_from {A} P (c : io A) Q E :
  (∀ m1, P m1 → triple (λ m, m = m1) c Q E) → triple P c Q E.
Proof. intros Hc w Hw. by apply (Hc (files w)). Qed.

(** A step that only reads: the files stay what they were. *)
Lemma triple_sync m0 :
  triple (λ m, m = m0) fs_sync (λ _ m, m = m0) (λ m, m = m0).
Proof. by apply triple_prim. Qed.
Lemma triple_open m0 name :
  triple (λ m, m = m0) (fs_open name) (λ o m, m = m0 ∧ o = m0 !! name) (λ m, m = m0).
Proof. apply triple_prim; [done|]. by intros m ->. Qed.
Lemma triple_replace m0 name data :
  triple (λ m, m = m0) (fs_replace name data) (λ _ m, m = <[name := data]> m0) (λ m, m = m0).
Proof. apply triple_prim; [done|]. by intros m ->. Qed.
End triple.

(** ** Triples for runs in which files can be read to their end

    The same rules, for the computations that read line by line. *)

Module Readable.
Definition triple {A} (P : gmap string string → Prop) (c : io A)
    (Q : A → gmap string string → Prop) (E : gmap string string → Prop) : Prop :=
  ∀ w, P (files w) → read_faults w = [] →
  match c w with
  | (Ok a, w') => Q a (files w') ∧ read_faults w' = []
  | (Err _, w') => E (files w') ∧ read_faults w' = []
  end.

Section triple.
Implicit Types (P E : gmap string string → Prop).

Lemma readable_ret {A} P (a : A) Q E : (∀ m, P m → Q a m) → triple P (mret a) Q E.
Proof. intros HQ w HP Hr. split; [by apply HQ|done]. Qed.

Lemma readable_lift {A} P (r : result error A) Q E :
  (∀ m, P m → match r with Ok a => Q a m | Err _ => E m end) → triple P (io_lift r) Q E.
Proof. intros HQ w HP Hr. specialize (HQ _ HP). unfold io_lift. by destruct r. Qed.

Lemma readable_bind {A B} P (m : io A) (k : A → io B) R Q E :
  triple P m R E → (∀ a, triple (R a) (k a) Q E) → triple P (m ≫= k) Q E.
Proof.
  intros Hm Hk w HP Hr. specialize (Hm w HP Hr). rewrite io_bind_run.
  destruct (m w) as [[a|e] w'] eqn:Heq; [|done]. destruct Hm. by apply Hk.
Qed.

Lemma readable_prim {A} P (f : gmap string string → result error A * gmap string string) Q E :
  (∀ m, P m → E m) →
  (∀ m, P m → match f m with (Ok a, m') => Q a m' | (Err _, m') => E m' end) →
  triple P (prim f) Q E.
Proof.
  intros HE HQ w HP Hr. unfold prim. destruct (faults w) as [|[] fs]; simpl; [|split; [by apply HE|done]|].
  all: specialize (HQ _ HP); by destruct (f (files w)) as [[a|e] m'].
Qed.

Lemma readable_conseq {A} P P' (c : io A) Q Q' E E' :
  triple P' c Q' E' → (∀ m, P m → P' m) → (∀ a m, Q' a m → Q a m) → (∀ m, E' m → E m) →
  triple P c Q E.
Proof.
  intros Hc HP HQ HE w Hw Hr. specialize (Hc w (HP _ Hw) Hr).
  destruct (c w) as [[a|e] w']; (split; [|apply Hc]); naive_solver.
Qed.

Lemma readable_try {A} P (c : io A) Q E Q' :
  triple P c Q E → (∀ a m, Q a m → Q' (Ok a) m) → (∀ e m, E m → Q' (Err e) m) →
  triple P (io_try c) Q' E.
Proof.
  intros Hc HQ HE w Hw Hr. specialize (Hc w Hw Hr). unfold io_try.
  destruct (c w) as [[a|e] w']; (split; [|apply Hc]); naive_solver.
Qed.

Lemma readable_pure {A} P (φ : Prop) (c : io A) Q E :
  (φ → triple P c Q E) → triple (λ m, P m ∧ φ) c Q E.
Proof. intros Hc w [HP Hφ]. by apply Hc. Qed.

Lemma readable_from {A} P (c : io A) Q E :
  (∀ m1, P m1 → triple (λ m, m = m1) c Q E) → triple P c Q E.
Proof. intros Hc w Hw. by apply (Hc (files w)). Qed.

Lemma readable_for {A} P (f : A → io unit) l E :
  (∀ x, triple P (f x) (λ _, P) E) → triple P (io_for f l) (λ _, P) E.
Proof. intros Hf. induction l as [|x l IH]; [by apply readable_ret|]. eapply readable_bind; [apply Hf|]. by intros ?. Qed.

Lemma readable_sync m0 :
  triple (λ m, m = m0) fs_sync (λ _ m, m = m0) (λ m, m = m0).
Proof. by apply readable_prim. Qed.
Lemma readable_open m0 name :
  triple (λ m, m = m0) (fs_open name) (λ o m, m = m0 ∧ o = m0 !! name) (λ m, m = m0).
Proof. apply readable_prim; [done|]. by intros m ->. Qed.
Lemma readable_replace m0 name data :
  triple (λ m, m = m0) (fs_replace name data) (λ _ m, m = <[name := data]> m0) (λ m, m = m0).
Proof. apply readable_prim; [done|]. by intros m ->. Qed.
Lemma triple_read_fails P E : triple P fs_read_fails (λ b m, P m ∧ b = false) E.
Proof. intros w HP Hr. unfold fs_read_fails. by rewrite Hr. Qed.
End triple.

Ltac tstep H :=
  eapply readable_bind; [apply H|]; intros ?; try (apply readable_pure; intros ->).
End Readable.

(** Without faults the computation succeeds (and keeps the world quiet). *)
Definition quiet {A} (P : gmap string string → Prop) (c : io A) (Q : A → gmap string string → Prop)
    : Prop :=
  ∀ m, P m → ∃ a m', c (World m []) = (Ok a, World m' []) ∧ Q a m'.

Section quiet.
Implicit Types (P : gmap string string → Prop).

Lemma quiet_ret {A} P (a : A) Q : (∀ m, P m → Q a m) → quiet P (mret a) Q.
Proof. intros HQ m HP. exists a, m. split; [done|auto]. Qed.

Lemma quiet_bind {A B} P (c : io A) (k : A → io B) R Q :
  quiet P c R → (∀ a, quiet (R a) (k a) Q) → quiet P (c ≫= k) Q.
Proof.
  intros Hc Hk m HP. destruct (Hc m HP) as (a&m'&Heq&HR).
  destruct (Hk a m' HR) as (b&m''&Heq'&HQ). exists b, m''. by rewrite io_bind_run, Heq.
Qed.

Lemma quiet_prim {A} P (f : gmap string string → result error A * gmap string string) Q :
  (∀ m, P m → ∃ a m', f m = (Ok a, m') ∧ Q a m') → quiet P (prim f) Q.
Proof.
  intros Hf m HP. destruct (Hf m HP) as (a&m'&Heq&HQ). exists a, m'.
  by rewrite prim_quiet, Heq.
Qed.

Lemma quiet_conseq {A} P P' (c : io A) Q Q' :
  quiet P' c Q' → (∀ m, P m → P' m) → (∀ a m, Q' a m → Q a m) → quiet P c Q.
Proof. intros Hc HP HQ m Hm. destruct (Hc m (HP m Hm)) as (a&m'&Heq&?). eauto. Qed.

(** What a triple says of a quiet run that succeeds. *)
Lemma quiet_triple {A} P (c : io A) Q Q' E :
  quiet P c Q → triple P c Q' E → quiet P c (λ a m, Q a m ∧ Q' a m).
Proof.
  intros Hc Ht m HP. destruct (Hc m HP) as (a&m'&Heq&HQ). exists a, m'. split; [done|].
  split; [done|]. specialize (Ht (World m []) HP). by rewrite Heq in Ht.
Qed.

Lemma quiet_readable {A} P (c : io A) Q Q' E :
  quiet P c Q → Readable.triple P c Q' E → quiet P c (λ a m, Q a m ∧ Q' a m).
Proof.
  intros Hc Ht m HP. destruct (Hc m HP) as (a&m'&Heq&HQ). exists a, m'. split; [done|].
  split; [done|]. specialize (Ht (World m []) HP eq_refl). by rewrite Heq in Ht; destruct Ht.
Qed.

Lemma quiet_try {A} P (c : io A) Q :
  quiet P c Q → quiet P (io_try c) (λ r m, ∃ a, r = Ok a ∧ Q a m).
Proof.
  intros Hc m HP. destruct (Hc m HP) as (a&m'&Heq&HQ). exists (Ok a), m'.
  unfold io_try. rewrite Heq. eauto.
Qed.

Lemma quiet_from {A} P (c : io A) Q :
  (∀ m1, P m1 → quiet (λ m, m = m1) c Q) → quiet P c Q.
Proof. intros Hc m HP. by apply (Hc m HP). Qed.

Lemma quiet_open P name : quiet P (fs_open name) (λ o m, P m ∧ o = m !! name).
Proof. apply quiet_prim. intros m HP. exists (m !! name), m. done. Qed.
Lemma quiet_sync P : quiet P fs_sync (λ _ m, P m).
Proof. apply quiet_prim. intros m HP. by exists tt, m. Qed.
Lemma quiet_replace P name data Q :
  (∀ m, P m → Q tt (<[name := data]> m)) → quiet P (fs_replace name data) Q.
Proof. intros HQ. apply quiet_prim. intros m HP. exists tt, (<[name := data]> m). auto. Qed.
End quiet.

(** Take the next step of a computation with the given triple, turning what it
    says about the returned value into equations. *)
Ltac tstep H :=
  eapply triple_bind; [apply H|]; intros ?; try (apply triple_pure; intros ->).

(** ** Reading a file line by line

    [BufRead::lines] over a byte stream.  A stream is the bytes that could be
    read and whether reading then failed (a truncated or damaged zstd frame).
    Each line is [Ok] when its bytes are valid UTF-8; the line break ["\n"] or
    ["\r\n"] is removed; a last line without a line break still counts. *)

Definition byte_between (lo hi : Z) (a : Ascii.ascii) : bool :=
  let n := Z.of_N (Ascii.N_of_ascii a) in (lo <=? n) && (n <=? hi).

(** [core::str::from_utf8]: the well-formed sequences of the Unicode standard. *)
Fixpoint utf8_valid (s : string) : bool :=
  match s with
  | EmptyString => true
  | String a s1 =>
      if byte_between 0x00 0x7F a then utf8_valid s1 else
      match s1 with
      | EmptyString => false
      | String b s2 =>
          if byte_between 0xC2 0xDF a then byte_between 0x80 0xBF b && utf8_valid s2 else
          match s2 with
          | EmptyString => false
          | String c s3 =>
              if byte_between 0xE0 0xE0 a then
                byte_between 0xA0 0xBF b && byte_between 0x80 0xBF c && utf8_valid s3
              else if byte_between 0xE1 0xEC a || byte_between 0xEE 0xEF a then
                byte_between 0x80 0xBF b && byte_between 0x80 0xBF c && utf8_valid s3
              else if byte_between 0xED 0xED a then
                byte_between 0x80 0x9F b && byte_between 0x80 0xBF c && utf8_valid s3
              else
              match s3 with
              | EmptyString => false
              | String d s4 =>
                  (byte_between 0xF0 0xF0 a && byte_between 0x90 0xBF b
                   || byte_between 0xF1 0xF3 a && byte_between 0x80 0xBF b
                   || byte_between 0xF4 0xF4 a && byte_between 0x80 0x8F b)
                  && byte_between 0x80 0xBF c && byte_between 0x80 0xBF d && utf8_valid s4
              end
          end
      end
  end.

Definition newline : Ascii.ascii := Ascii.ascii_of_N 10.
Definition carriage_return : Ascii.ascii := Ascii.ascii_of_N 13.
Definition nl : string := String newline EmptyString.

Definition strip_cr (s : string) : string :=
  default s (strip_suffix (String carriage_return EmptyString) s).

Definition check_line (s : string) : result error string :=
  if utf8_valid s then Ok s else Err EInvalid.

(** [acc] holds the bytes of the line read so far. *)
Fixpoint lines_from (acc b : string) (failed : bool) : list (result error string) :=
  match b with
  | EmptyString =>
      (if String.eqb acc "" || failed then [] else [check_line acc])
      ++ (if failed then [Err EIo] else [])
  | String a b' =>
      if Ascii.eqb a newline then check_line (strip_cr acc) :: lines_from "" b' failed
      else lines_from (acc +:+ String a EmptyString) b' failed
  end.

Definition buf_lines (stream : string * bool) : list (result error string) :=
  lines_from "" stream.1 stream.2.

(** A string that occupies exactly one line when a line break is appended. *)
Definition one_line (s : string) : bool :=
  negb (char_in newline s) && negb (char_in carriage_return s) && utf8_valid s.

Lemma lines_from_prefix acc s b failed :
  char_in newline s = false →
  lines_from acc (s +:+ String newline b) failed =
  check_line (strip_cr (acc +:+ s)) :: lines_from "" b failed.
Proof.
  revert acc. induction s as [|a s IH]; intros acc; simpl.
  - intros _. by rewrite str_app_nil_r.
  - intros [Ha Hs]%orb_false_iff. rewrite Ascii.eqb_sym, Ha, IH by done.
    by rewrite str_app_assoc.
Qed.

Lemma strip_cr_id s : char_in carriage_return s = false → strip_cr s = s.
Proof.
  intros H. unfold strip_cr. destruct (strip_suffix _ s) as [p|] eqn:E; [|done].
  apply strip_suffix_Some in E. subst. rewrite char_in_app in H. simpl in H.
  rewrite orb_true_r in H. done.
Qed.

Lemma lines_from_cons s b failed :
  one_line s = true → lines_from "" (s +:+ nl +:+ b) failed = Ok s :: lines_from "" b failed.
Proof.
  unfold one_line. intros [[H1%negb_true_iff H2%negb_true_iff]%andb_true_iff H3]%andb_true_iff.
  change (nl +:+ b) with (String newline b). rewrite lines_from_prefix by done.
  unfold check_line. simpl. by rewrite strip_cr_id, H3.
Qed.
