(* ===== verification/JobState.v ===== *)
(** * State files of local jobs

    Model of [server/src/jobstate.rs] and of the daily log rotation that uses it
    ([server/src/bin/proxmox-datacenter-api/tasks/logrotate.rs]).

    A job keeps its last run in a file, which is replaced atomically.  Not under
    [src/], hence parameters: the JSON text of a state, the UPIDs and task states of
    the local task system, whether a worker is still active, and calendar events.
    The lock of a job is a file that is created if it is missing; a fault of that
    step stands for a lock that is held by somebody else. *)

From S2P Require Import Prelude FileSystem.

Class LocalTasks := {
  Upid : Type;
  upid_parse : string → option Upid;
  upid_starttime : Upid → Z;
  TaskState : Type;
  task_endtime : TaskState → Z;
  task_state_to_string : TaskState → string;
  task_unknown : Z → TaskState;
}.

(** What is known about a local task at some moment: [worker_is_active_local] and
    [upid_read_status]. *)
Record workers `{LocalTasks} : Type := mkWorkers {
  worker_is_active_local : Upid → bool;
  upid_read_status : Upid → option TaskState;
}.

Class CalendarEvents := {
  CalendarEvent : Type;
  parse_calendar_event : string → option CalendarEvent;
  compute_next_event : CalendarEvent → Z → result error (option Z);
}.
(** The next event is later. *)
Class CalendarLaws `{CalendarEvents} : Prop :=
  next_event_later e last next : compute_next_event e last = Ok (Some next) → last < next.

Section types.
Context `{LocalTasks}.

Inductive JobState : Type :=
| Created (time : Z)
| Started (upid : string)
| Finished (upid : string) (state : TaskState) (updated : option Z).

(** The serde encoding of a state. *)
Class JobStateText := {
  job_state_to_json : JobState → result error string;
  job_state_from_json : string → result error JobState;
}.
Class JobStateTextLaws `{JobStateText} : Prop := {
  job_state_json_roundtrip s text : job_state_to_json s = Ok text → job_state_from_json text = Ok s;
  job_state_json_total s : is_Some (result_ok (job_state_to_json s));
}.

Record Job : Type := mkLocalJob { job_type : string; job_name : string; job_state : JobState }.
Definition set_job_state (s : JobState) (j : Job) : Job := mkLocalJob (job_type j) (job_name j) s.
End types.

Definition JOB_STATE_BASEDIR : string := "/var/lib/proxmox-datacenter-manager/jobstates".
Definition state_path (jobtype jobname : string) : string :=
  JOB_STATE_BASEDIR +:+ "/" +:+ jobtype +:+ "-" +:+ jobname +:+ ".json".
(** [set_extension("lck")] *)
Definition lock_path (jobtype jobname : string) : string :=
  JOB_STATE_BASEDIR +:+ "/" +:+ jobtype +:+ "-" +:+ jobname +:+ ".lck".

Section jobs.
Context `{JobStateText}.

Definition get_lock (jobtype jobname : string) : io unit := fs_open_append (lock_path jobtype jobname).

(** [remove_file], where a missing file is fine. *)
Definition remove_existing (path : string) : io unit := λ w,
  match fs_remove path w with
  | (Err ENotFound, w') => (Ok tt, w')
  | r => r
  end.

Definition remove_state_file (jobtype jobname : string) : io unit :=
  _ ← get_lock jobtype jobname;
  _ ← remove_existing (state_path jobtype jobname);
  remove_existing (lock_path jobtype jobname).

Definition job_new (now : Z) (jobtype jobname : string) : io Job :=
  _ ← get_lock jobtype jobname;
  mret (mkLocalJob jobtype jobname (Created now)).

Definition write_job_state (job : Job) : io unit :=
  serialized ← io_lift (job_state_to_json (job_state job));
  fs_replace (state_path (job_type job) (job_name job)) serialized.

Definition create_state_file (now : Z) (jobtype jobname : string) : io unit :=
  job ← job_new now jobtype jobname; write_job_state job.

Definition parse_upid_of (upid : string) : result error Upid :=
  ok_or (upid_parse upid) (EMsg "error parsing upid").

(** [JobState::load]: a started job whose worker is gone has finished. *)
Definition load_state (wk : workers) (state : JobState) : result error JobState :=
  match state with
  | Started upid =>
      parsed ← parse_upid_of upid;
      Ok (if worker_is_active_local wk parsed then Started upid
          else Finished upid (default (task_unknown (upid_starttime parsed)) (upid_read_status wk parsed)) None)
  | other => Ok other
  end.
Definition load (wk : workers) (now : Z) (jobtype jobname : string) : io JobState :=
  content ← fs_open (state_path jobtype jobname);
  match content with
  | Some text => state ← io_lift (job_state_from_json text); io_lift (load_state wk state)
  | None => mret (Created (now - 30))
  end.

Definition update_job_last_run_time (wk : workers) (now : Z) (jobtype jobname : string) : io unit := λ w,
  match job_new now jobtype jobname w with
  | (Err _, w') => (Ok tt, w')
  | (Ok job, w') =>
      (state ← load wk now jobtype jobname;
       match state with
       | Created _ => write_job_state (set_job_state (Created now) job)
       | Started _ => mret tt
       | Finished upid state _ => write_job_state (set_job_state (Finished upid state (Some now)) job)
       end) w'
  end.

Definition run_time_of (state : JobState) : result error Z :=
  match state with
  | Created time => Ok time
  | Finished _ _ (Some time) => Ok time
  | Started upid | Finished upid _ None =>
      parsed ← parse_upid_of upid; Ok (upid_starttime parsed)
  end.
Definition last_run_time (wk : workers) (now : Z) (jobtype jobname : string) : io Z :=
  state ← load wk now jobtype jobname; io_lift (run_time_of state).

(** [Job::start] and [Job::finish] change the job and write its state. *)
Definition start (upid : string) (job : Job) : io Job :=
  match job_state job with
  | Started _ => io_fail (EMsg "cannot start job that is started!")
  | _ => let job := set_job_state (Started upid) job in _ ← write_job_state job; mret job
  end.

Definition finish (state : TaskState) (job : Job) : io Job :=
  upid ← io_lift (match job_state job with
                  | Created _ => Err (EMsg "cannot finish when not started")
                  | Started upid | Finished upid _ _ => Ok upid
                  end);
  let job := set_job_state (Finished upid state None) job in
  _ ← write_job_state job; mret job.

Record JobScheduleStatus : Type := mkSchedule {
  js_next_run : option Z;
  js_last_run_state : option string;
  js_last_run_upid : option string;
  js_last_run_endtime : option Z;
}.

(** UPID, end time and state of the last run, and the time the next run counts
    from. *)
Definition last_run (state : JobState) : result error (option string * option Z * option string * Z) :=
  match state with
  | Created time => Ok (None, None, None, time)
  | Started upid => parsed ← parse_upid_of upid; Ok (Some upid, None, None, upid_starttime parsed)
  | Finished upid state updated =>
      Ok (Some upid, Some (task_endtime state), Some (task_state_to_string state), default (task_endtime state) updated)
  end.

Definition compute_schedule_status `{CalendarEvents} (state : JobState) (schedule : option string)
    : result error JobScheduleStatus :=
  match last_run state with
  | Err e => Err e
  | Ok (upid, endtime, text, last) =>
      let next_run :=
        match schedule with
        | Some schedule =>
            match parse_calendar_event schedule with
            | Some event => default None (result_ok (compute_next_event event last))
            | None => None
            end
        | None => None
        end in
      Ok (mkSchedule next_run text upid endtime)
  end.

(** ** The daily log rotation *)

Section rotate.
Context `{CalendarEvents}.

Definition check_schedule (wk : workers) (now : Z) (worker_type event_str id : string) : io bool := λ w,
  match parse_calendar_event event_str with
  | None => (Ok false, w)
  | Some event =>
      match last_run_time wk now worker_type id w with
      | (Err _, w') => (Ok false, w')
      | (Ok last, w') =>
          (Ok (match compute_next_event event last with Ok (Some next) => next <=? now | _ => false end), w')
      end
  end.

(** The worker: [upid] is its UPID and [result] the state of the rotation itself.
    An error of [finish] is only printed. *)
Definition rotate_worker (upid : string) (result : TaskState) (job : Job) : io unit :=
  job ← start upid job;
  _ ← io_try (finish result job);
  mret tt.

Definition worker_type : string := "logrotate".
Definition job_id : string := "access-log_and_task-archive".

(** [matches!(JobState::load(..), Ok(JobState::Created { .. }))] *)
Definition never_ran (wk : workers) (now : Z) : io bool :=
  r ← io_try (load wk now worker_type job_id);
  mret (match r with Ok (Created _) => true | _ => false end).

Definition run_rotation (now : Z) (upid : string) (result : TaskState) : io unit :=
  j ← io_try (job_new now worker_type job_id);
  match j with
  | Err _ => mret tt
  | Ok job => _ ← io_try (rotate_worker upid result job); mret tt
  end.

Definition schedule_task_log_rotate (wk : workers) (now : Z) (upid : string) (result : TaskState) : io unit :=
  due ← check_schedule wk now worker_type "00:00" job_id;
  run ← (match due with true => mret true | false => never_ran wk now end);
  match run with true => run_rotation now upid result | false => mret tt end.
End rotate.
End jobs.

(** ** What is on disk *)

Section lemmas.
Context `{JobStateText}.

Definition state_on_disk (jobtype jobname : string) (m : gmap string string) : option (result error JobState) :=
  job_state_from_json <$> m !! state_path jobtype jobname.

Lemma state_path_inj t n t' n' :
  char_in "-" t = false → char_in "-" t' = false → state_path t n = state_path t' n' → t = t' ∧ n = n'.
Proof.
  intros Ht Ht' Heq. unfold state_path in Heq. apply str_app_inj_l, str_app_inj_l in Heq.
  apply (f_equal (split_once "-")) in Heq.
  change (t +:+ "-" +:+ n +:+ ".json") with (t +:+ String "-" (n +:+ ".json")) in Heq.
  change (t' +:+ "-" +:+ n' +:+ ".json") with (t' +:+ String "-" (n' +:+ ".json")) in Heq.
  rewrite !split_once_app in Heq by done. injection Heq as -> Hn. split; [done|].
  apply (f_equal (strip_suffix ".json")) in Hn. rewrite !strip_suffix_app in Hn. by injection Hn.
Qed.

Lemma state_lock_ne t n t' n' : state_path t n ≠ lock_path t' n'.
Proof.
  unfold state_path, lock_path. intros Heq.
  assert (∀ s, strip_suffix "n" (s +:+ ".json") = Some (s +:+ ".jso")) as H1.
  { intros s. change ".json" with (".jso" +:+ "n"). rewrite <-str_app_assoc. apply strip_suffix_app. }
  assert (∀ s, strip_suffix "k" (s +:+ ".lck") = Some (s +:+ ".lc")) as H2.
  { intros s. change ".lck" with (".lc" +:+ "k"). rewrite <-str_app_assoc. apply strip_suffix_app. }
  rewrite <-!str_app_assoc in Heq.
  set (a := ((((JOB_STATE_BASEDIR +:+ "/") +:+ t) +:+ "-") +:+ n)) in Heq.
  set (b := ((((JOB_STATE_BASEDIR +:+ "/") +:+ t') +:+ "-") +:+ n')) in Heq.
  pose proof (H1 a) as Ha%strip_suffix_Some. pose proof (H2 b) as Hb%strip_suffix_Some.
  rewrite Ha, Hb in Heq. revert Heq. generalize (a +:+ ".jso") (b +:+ ".lc"). clear. intros x.
  induction x as [|c x IH]; intros [|d y]; simpl; [done|..].
  - intros [= _ Hy]. by destruct y.
  - intros [= _ Hx]. by destruct x.
  - intros [= _ Hxy]. by apply (IH y).
Qed.

Lemma triple_write_state m0 (job : Job) `{!JobStateTextLaws} :
  triple (λ m, m = m0) (write_job_state job)
    (λ _ m, ∃ text, m = <[state_path (job_type job) (job_name job) := text]> m0 ∧ job_state_from_json text = Ok (job_state job))
    (λ m, m = m0).
Proof.
  unfold write_job_state. eapply (triple_bind _ _ _ (λ text m, m = m0 ∧ job_state_to_json (job_state job) = Ok text)).
  - apply triple_lift. intros m ->. by destruct (job_state_to_json _).
  - intros text. apply triple_prim; [by intros m [-> _]|]. intros m [-> Ht]. exists text. split; [done|].
    by apply job_state_json_roundtrip.
Qed.

(** Only the two files of the job may differ. *)
Definition others_same (jobtype jobname : string) (m0 m : gmap string string) : Prop :=
  ∀ path, path ≠ state_path jobtype jobname → path ≠ lock_path jobtype jobname → m !! path = m0 !! path.

Context `{!JobStateTextLaws}.

(** A job whose files are those of [m0], except that its state is one of [l]. *)
Definition job_files (jobtype jobname : string) (m0 : gmap string string) (l : list (option (result error JobState)))
    (m : gmap string string) : Prop :=
  others_same jobtype jobname m0 m ∧ state_on_disk jobtype jobname m ∈ l.

Lemma triple_job_new now t n m0 l :
  triple (job_files t n m0 l) (job_new now t n)
    (λ job m, job = mkLocalJob t n (Created now) ∧ job_files t n m0 l m) (job_files t n m0 l).
Proof.
  unfold job_new. eapply (triple_bind _ _ _ (λ _ m, job_files t n m0 l m)).
  - apply triple_prim; [done|]. intros m [Ho Hs]. destruct (m !! lock_path t n) eqn:Hl; [done|]. split.
    + intros path Hp1 Hp2. rewrite lookup_insert_ne by done. by apply Ho.
    + unfold state_on_disk. rewrite lookup_insert_ne; [done|]. apply not_eq_sym, state_lock_ne.
  - intros _. by apply triple_ret.
Qed.

Lemma triple_write_job t n s m0 l :
  triple (job_files t n m0 l) (write_job_state (mkLocalJob t n s))
    (λ _ m, job_files t n m0 [Some (Ok s)] m) (job_files t n m0 l).
Proof.
  apply triple_from. intros m1 Hm1. eapply triple_conseq; [exact (triple_write_state m1 (mkLocalJob t n s))|done|..].
  - intros u m (text&->&Ht). simpl in *. destruct Hm1 as [Ho _]. split.
    + intros path Hp1 Hp2. rewrite lookup_insert_ne by done. by apply Ho.
    + unfold state_on_disk. rewrite lookup_insert_eq. simpl. rewrite Ht. left.
  - intros m ->. done.
Qed.

Lemma job_files_mono t n m0 l l' m : (∀ x, x ∈ l → x ∈ l') → job_files t n m0 l m → job_files t n m0 l' m.
Proof. intros Hl [? ?]. split; auto. Qed.

Lemma triple_worker upid result t n now m0 l :
  let l' := l ++ [Some (Ok (Started upid)); Some (Ok (Finished upid result None))] in
  triple (job_files t n m0 l) (rotate_worker upid result (mkLocalJob t n (Created now)))
    (λ _ m, job_files t n m0 l' m) (λ m, job_files t n m0 l' m).
Proof.
  intros l'.
  assert (∀ x, x ∈ l → x ∈ l') as Hl by (intros x ?; apply elem_of_app; by left).
  assert (∀ x, x ∈ [Some (Ok (Started upid))] → x ∈ l') as Hst.
  { intros x ->%list_elem_of_singleton. apply elem_of_app. right. left. }
  assert (∀ x, x ∈ [Some (Ok (Finished upid result None))] → x ∈ l') as Hfi.
  { intros x ->%list_elem_of_singleton. apply elem_of_app. right. right. left. }
  unfold rotate_worker, start. cbn [job_state set_job_state job_type job_name].
  eapply (triple_bind _ _ _ (λ job m, job = mkLocalJob t n (Started upid) ∧ job_files t n m0 [Some (Ok (Started upid))] m)).
  { eapply triple_bind; [eapply triple_conseq; [apply triple_write_job|done|done|]|].
    - intros m. by apply job_files_mono.
    - intros u. by apply triple_ret. }
  intros job w [-> Hw]. rewrite io_bind_run. unfold io_try, finish.
  cbn [job_state]. rewrite io_bind_run. unfold io_lift. cbn [set_job_state job_type job_name].
  pose proof (triple_write_job t n (Finished upid result None) m0 [Some (Ok (Started upid))] w Hw) as Ht.
  rewrite io_bind_run. destruct (write_job_state _ w) as [[u|e] w'].
  - exact (job_files_mono _ _ _ _ _ _ Hfi Ht).
  - exact (job_files_mono _ _ _ _ _ _ Hst Ht).
Qed.

Lemma triple_read {A} (c : io A) m0 : io_rel eq c → triple (λ m, m = m0) c (λ _ m, m = m0) (λ m, m = m0).
Proof. intros Hc w <-. specialize (Hc w). destruct (c w) as [[] w']; simpl in *; by rewrite Hc. Qed.

Lemma load_readonly wk now t n : io_rel eq (load wk now t n).
Proof.
  unfold load. apply io_rel_bind; [apply _|apply fs_open_readonly, _|].
  intros [text|]; [|apply io_rel_ret, _]. apply io_rel_bind; [apply _|apply io_rel_lift, _|]. intros s. apply io_rel_lift, _.
Qed.

Lemma check_schedule_readonly `{CalendarEvents} wk now t e n : io_rel eq (check_schedule wk now t e n).
Proof.
  intros w. unfold check_schedule. destruct (parse_calendar_event _); [|done].
  assert (io_rel eq (last_run_time wk now t n)) as Hl.
  { unfold last_run_time. apply io_rel_bind; [apply _|apply load_readonly|]. intros s. apply io_rel_lift, _. }
  specialize (Hl w). by destruct (last_run_time wk now t n w) as [[]].
Qed.

Lemma triple_schedule `{CalendarEvents} wk now upid result m0 :
  let l := [state_on_disk worker_type job_id m0; Some (Ok (Started upid)); Some (Ok (Finished upid result None))] in
  triple (λ m, m = m0) (schedule_task_log_rotate wk now upid result)
    (λ _ m, job_files worker_type job_id m0 l m) (job_files worker_type job_id m0 l).
Proof.
  intros l. assert (job_files worker_type job_id m0 l m0) as Hm0 by (split; [done|left]).
  assert (∀ A (c : io A), io_rel eq c → triple (λ m, m = m0) c (λ _ m, m = m0) (job_files worker_type job_id m0 l)) as Hread.
  { intros A c Hc. eapply triple_conseq; [exact (triple_read c m0 Hc)|done|done|]. by intros m ->. }
  unfold schedule_task_log_rotate. eapply triple_bind; [apply Hread, check_schedule_readonly|]. intros due.
  eapply (triple_bind _ _ _ (λ _ m, m = m0)).
  { destruct due; [by apply triple_ret|]. apply Hread. unfold never_ran.
    apply io_rel_bind; [apply _|apply io_rel_try, load_readonly|]. intros r. apply io_rel_ret, _. }
  intros [|]; [|apply triple_ret; by intros m ->].
  set (old := [state_on_disk worker_type job_id m0]).
  assert (∀ m, job_files worker_type job_id m0 old m → job_files worker_type job_id m0 l m) as Hold.
  { intros m. apply job_files_mono. intros x ->%list_elem_of_singleton. left. }
  unfold run_rotation.
  eapply (triple_bind _ _ _ (λ r m, match r with Ok job => job = mkLocalJob worker_type job_id (Created now) | Err _ => True end ∧
                                    job_files worker_type job_id m0 old m)).
  { intros w Hw. assert (job_files worker_type job_id m0 old (files w)) as Hm by (rewrite Hw; split; [done|left]).
    pose proof (triple_job_new now worker_type job_id m0 old w Hm) as Ht. unfold io_try.
    by destruct (job_new now worker_type job_id w) as [[job|e] w']. }
  intros [job|e]; [|apply triple_ret; intros m [_ Hm]; by apply Hold].
  apply triple_from. intros m1 [-> Hm1].
  eapply (triple_bind _ _ _ (λ _ m, job_files worker_type job_id m0 l m)); [|intros r; by apply triple_ret].
  intros w Hw. rewrite <-Hw in Hm1. pose proof (triple_worker upid result worker_type job_id now m0 old w Hm1) as Ht. unfold io_try.
  by destruct (rotate_worker _ _ _ w) as [[u|e] w'].
Qed.

(** ** Runs without faults *)

(** The state that is loaded from disk. *)
Definition loaded (wk : workers) (now : Z) (t n : string) (m : gmap string string) : result error JobState :=
  match m !! state_path t n with
  | Some text => match job_state_from_json text with Ok s => load_state wk s | Err e => Err e end
  | None => Ok (Created (now - 30))
  end.

Lemma load_quiet wk now t n m : load wk now t n (World m []) = (loaded wk now t n m, World m []).
Proof.
  unfold load, loaded. rewrite io_bind_run. unfold fs_open. rewrite prim_quiet. destruct (m !! state_path t n); [|done].
  rewrite io_bind_run. unfold io_lift. by destruct (job_state_from_json _).
Qed.

(** When the rotation is due: it never ran, or the event after its last run has
    passed. *)
Definition log_rotation_due `{CalendarEvents} (wk : workers) (now : Z) (m : gmap string string) : bool :=
  match loaded wk now worker_type job_id m with
  | Ok (Created _) => true
  | Ok s =>
      match parse_calendar_event "00:00", run_time_of s with
      | Some event, Ok last =>
          match compute_next_event event last with Ok (Some next) => next <=? now | _ => false end
      | _, _ => false
      end
  | Err _ => false
  end.

Lemma write_state_quiet t n s m :
  ∃ text, write_job_state (mkLocalJob t n s) (World m []) = (Ok tt, World (<[state_path t n := text]> m) []) ∧
          job_state_from_json text = Ok s.
Proof.
  destruct (job_state_json_total s) as [text Ht]. destruct (job_state_to_json s) as [text'|] eqn:Hs; simplify_eq/=.
  exists text. split; [|by apply job_state_json_roundtrip]. unfold write_job_state. rewrite io_bind_run. simpl.
  unfold io_lift. by rewrite Hs.
Qed.

Lemma start_quiet upid t n now m :
  ∃ text, start upid (mkLocalJob t n (Created now)) (World m []) =
          (Ok (mkLocalJob t n (Started upid)), World (<[state_path t n := text]> m) []).
Proof.
  destruct (write_state_quiet t n (Started upid) m) as (text&Hw&_). exists text.
  unfold start. cbn [job_state]. change (set_job_state (Started upid) (mkLocalJob t n (Created now))) with (mkLocalJob t n (Started upid)).
  cbv zeta. by rewrite io_bind_run, Hw.
Qed.

Lemma finish_quiet upid result t n m :
  ∃ text, finish result (mkLocalJob t n (Started upid)) (World m []) =
          (Ok (mkLocalJob t n (Finished upid result None)), World (<[state_path t n := text]> m) []) ∧
          job_state_from_json text = Ok (Finished upid result None).
Proof.
  destruct (write_state_quiet t n (Finished upid result None) m) as (text&Hw&Ht). exists text. split; [|done].
  unfold finish. cbn [job_state]. rewrite io_bind_run. unfold io_lift.
  change (set_job_state (Finished upid result None) (mkLocalJob t n (Started upid))) with (mkLocalJob t n (Finished upid result None)).
  cbv zeta. by rewrite io_bind_run, Hw.
Qed.

Lemma worker_quiet upid result now m :
  ∃ m', rotate_worker upid result (mkLocalJob worker_type job_id (Created now)) (World m []) = (Ok tt, World m' []) ∧
        state_on_disk worker_type job_id m' = Some (Ok (Finished upid result None)).
Proof.
  destruct (start_quiet upid worker_type job_id now m) as (t1&Hs1).
  destruct (finish_quiet upid result worker_type job_id (<[state_path worker_type job_id := t1]> m)) as (t2&Hs2&Ht2).
  unfold rotate_worker. rewrite io_bind_run, Hs1, io_bind_run. unfold io_try. rewrite Hs2.
  eexists. split; [done|]. unfold state_on_disk. rewrite lookup_insert_eq. simpl. by rewrite Ht2.
Qed.

Lemma lock_quiet now m :
  ∃ m', job_new now worker_type job_id (World m []) = (Ok (mkLocalJob worker_type job_id (Created now)), World m' []) ∧
        state_on_disk worker_type job_id m' = state_on_disk worker_type job_id m.
Proof.
  unfold job_new, get_lock, fs_open_append. rewrite io_bind_run, prim_quiet.
  destruct (m !! lock_path worker_type job_id).
  - by exists m.
  - eexists. split; [done|]. unfold state_on_disk. by rewrite lookup_insert_ne.
Qed.

Lemma run_rotation_quiet now upid result m :
  ∃ m', run_rotation now upid result (World m []) = (Ok tt, World m' []) ∧
        state_on_disk worker_type job_id m' = Some (Ok (Finished upid result None)).
Proof.
  destruct (lock_quiet now m) as (m1&Hlock&_). destruct (worker_quiet upid result now m1) as (m2&Hw&Hs).
  exists m2. split; [|done]. unfold run_rotation. rewrite io_bind_run. unfold io_try at 1. rewrite Hlock.
  rewrite io_bind_run. unfold io_try. by rewrite Hw.
Qed.

Lemma check_schedule_quiet `{CalendarEvents} wk now m :
  check_schedule wk now worker_type "00:00" job_id (World m []) =
  (Ok (match parse_calendar_event "00:00", loaded wk now worker_type job_id m with
       | Some event, Ok s =>
           match run_time_of s with
           | Ok last => match compute_next_event event last with Ok (Some next) => next <=? now | _ => false end
           | Err _ => false
           end
       | _, _ => false
       end), World m []).
Proof.
  unfold check_schedule, last_run_time. destruct (parse_calendar_event _); [|done].
  rewrite io_bind_run, load_quiet. destruct (loaded _ _ _ _ m) as [s|]; [|done]. unfold io_lift.
  by destruct (run_time_of s).
Qed.

Lemma schedule_quiet `{CalendarEvents} wk now upid result m :
  ∃ m', schedule_task_log_rotate wk now upid result (World m []) = (Ok tt, World m' []) ∧
    if log_rotation_due wk now m then state_on_disk worker_type job_id m' = Some (Ok (Finished upid result None)) else m' = m.
Proof.
  unfold schedule_task_log_rotate. rewrite io_bind_run, check_schedule_quiet, io_bind_run.
  assert (Hrun : ∀ run : bool,
    ∃ m', (match run with true => run_rotation now upid result | false => mret tt end) (World m []) = (Ok tt, World m' []) ∧
          if run then state_on_disk worker_type job_id m' = Some (Ok (Finished upid result None)) else m' = m).
  { intros [|]; [|by exists m]. apply run_rotation_quiet. }
  unfold never_ran. set (due := match parse_calendar_event "00:00" with Some _ => _ | None => _ end).
  assert (log_rotation_due wk now m =
    (due || match loaded wk now worker_type job_id m with Ok (Created _) => true | _ => false end)) as ->.
  { unfold log_rotation_due, due. destruct (loaded _ _ _ _ m) as [[]|]; destruct (parse_calendar_event _); simpl;
      rewrite ?orb_true_r, ?orb_false_r; done. }
  destruct due; cbn [orb].
  - destruct (Hrun true) as (m'&Hr&Hs). exists m'. split; [exact Hr|done].
  - rewrite io_bind_run. unfold io_try at 1. rewrite load_quiet. cbn [mret io_ret].
    destruct (Hrun match loaded wk now worker_type job_id m with Ok (Created _) => true | _ => false end) as (m'&Hr&Hs).
    exists m'. split; [|exact Hs]. by destruct (loaded _ _ _ _ m) as [[]|].
Qed.
End lemmas.

(** Whatever fails or crashes while the rotation runs, its state file is never
    torn: it holds what it held before, that the worker started, or how it
    finished; and the files of other jobs are untouched. *)
Theorem log_rotate_crash_safe `{JobStateTextLaws} `{CalendarEvents} (wk : workers) (now : Z) (upid : string)
    (result : TaskState) (w : world) :
  let w' := (schedule_task_log_rotate wk now upid result w).2 in
  state_on_disk worker_type job_id (files w') ∈
    [state_on_disk worker_type job_id (files w); Some (Ok (Started upid)); Some (Ok (Finished upid result None))] ∧
  others_same worker_type job_id (files w) (files w').
Proof.
  intros w'. pose proof (triple_schedule wk now upid result (files w) w eq_refl) as Ht. unfold w'.
  destruct (schedule_task_log_rotate wk now upid result w) as [[u|e] w1]; by destruct Ht.
Qed.

(** The rotation runs when it never ran before or when the event after its
    last run has passed, and records how it ended; otherwise nothing changes.  In
    particular it runs once per event: after a run, a call before the event that
    follows the start of that run does nothing. *)
Theorem log_rotate_schedule `{JobStateTextLaws} `{CalendarEvents} (wk : workers) (now : Z) (upid : string)
    (result : TaskState) (m : gmap string string) :
  ∃ m', schedule_task_log_rotate wk now upid result (World m []) = (Ok tt, World m' []) ∧
    (log_rotation_due wk now m = false → m' = m) ∧
    (log_rotation_due wk now m = true →
       state_on_disk worker_type job_id m' = Some (Ok (Finished upid result None)) ∧
       ∀ wk2 now2 upid2 result2 parsed event next,
         upid_parse upid = Some parsed → parse_calendar_event "00:00" = Some event →
         compute_next_event event (upid_starttime parsed) = Ok (Some next) → now2 < next →
         schedule_task_log_rotate wk2 now2 upid2 result2 (World m' []) = (Ok tt, World m' [])).
Proof.
  destruct (schedule_quiet wk now upid result m) as (m'&Hrun&Hs). exists m'. split; [done|].
  destruct (log_rotation_due wk now m); split; [done| |done|done]. intros _. split; [done|].
  intros wk2 now2 upid2 result2 parsed event next Hp He Hn Hlt.
  destruct (schedule_quiet wk2 now2 upid2 result2 m') as (m2&Hrun2&Hs2).
  assert (log_rotation_due wk2 now2 m' = false) as Hdue; [|rewrite Hdue in Hs2; by subst m2].
  unfold log_rotation_due, loaded. unfold state_on_disk in Hs. destruct (m' !! state_path worker_type job_id); [|done].
  injection Hs as Hs. rewrite Hs. cbn [load_state]. rewrite He. unfold run_time_of, parse_upid_of. rewrite Hp. cbn.
  rewrite Hn. lia.
Qed.

Module JobDemo.
(** UPIDs and task states are times. *)
#[local] Instance tasks : LocalTasks := {|
  Upid := Z; upid_parse := parse_Z; upid_starttime u := u;
  TaskState := Z; task_endtime s := s; task_state_to_string _ := "OK"%string; task_unknown t := t;
|}.

Definition of_state (s : JobState) : Z + string + string * Z * option Z :=
  match s with Created t => inl (inl t) | Started u => inl (inr u) | Finished u s t => inr (u, s : Z, t) end.
Definition to_state (x : Z + string + string * Z * option Z) : JobState :=
  match x with inl (inl t) => Created t | inl (inr u) => Started u | inr (u, s, t) => Finished u (s : Z) t end.
#[local] Instance text : JobStateText := {|
  job_state_to_json s := Ok (bits (encode (of_state s)));
  job_state_from_json s := ok_or (to_state <$> decode (of_bits s)) EInvalid;
|}.
#[local] Instance text_laws : JobStateTextLaws.
Proof.
  split.
  - intros s t [= <-]. simpl. rewrite of_bits_bits, decode_encode. simpl. by destruct s.
  - intros s. by eexists.
Qed.

(** An event every 100 seconds. *)
#[local] Instance events : CalendarEvents := {|
  CalendarEvent := Z; parse_calendar_event _ := Some 100; compute_next_event e last := Ok (Some ((last / e + 1) * e));
|}.

Definition idle : workers := mkWorkers _ (λ _, false) (λ _, None).

(** The second write of the state fails: the worker has started. *)
Lemma log_rotate_crash_safe_witness :
  others_same worker_type job_id ∅
    (files (schedule_task_log_rotate idle 150 "151" 160 (World ∅ [false; false; false; true])).2).
Proof. exact (proj2 (log_rotate_crash_safe idle 150 "151" 160 (World ∅ [false; false; false; true]))). Defined.

Lemma log_rotate_schedule_witness :
  ∃ m', schedule_task_log_rotate idle 150 "151" 160 (World ∅ []) = (Ok tt, World m' []) ∧
        schedule_task_log_rotate idle 199 "199" 199 (World m' []) = (Ok tt, World m' []).
Proof.
  destruct (log_rotate_schedule idle 150 "151" 160 ∅) as (m'&Hrun&_&Hdue).
  exists m'. split; [exact Hrun|].
  refine (proj2 (Hdue _) idle 199 "199"%string 199 151 100 200 _ _ _ _); reflexivity.
Defined.
End JobDemo.
