(* ===== verification/RemoteUpid.v ===== *)
(** * Remote types and remote UPIDs

    Model of [lib/pdm-api-types/src/remote_upid.rs] and of [RemoteType] in
    [lib/pdm-api-types/src/remotes.rs]: the identifier of a task on a remote,
    its textual form and the parser that reads it back.

    Not under [src/], hence parameters: the regular expression [SAFE_ID_REGEX]
    of [proxmox_schema] (class [SafeIdRegex]) and the parsers of the native
    PVE and PBS UPIDs (class [NativeUpids]). *)

From S2P Require Import Prelude FileSystem.

Module RemoteType.
Inductive t : Type := Pve | Pbs.

#[global] Instance eq_dec : EqDecision t.
Proof. solve_decision. Defined.

#[global] Instance countable : Countable t.
Proof.
  refine (inj_countable' (λ ty, match ty with Pve => true | Pbs => false end)
            (λ b : bool, if b then Pve else Pbs) _).
  by intros [].
Defined.

Definition default_port (ty : t) : Z :=
  match ty with Pve => 8006 | Pbs => 8007 end.

(** [serde(rename_all = "lowercase")] with the derived [Display]/[FromStr]. *)
Definition to_string (ty : t) : string :=
  match ty with Pve => "pve" | Pbs => "pbs" end.
Definition from_str (s : string) : result error t :=
  if String.eqb s "pve" then Ok Pve
  else if String.eqb s "pbs" then Ok Pbs
  else Err EInvalid.
End RemoteType.

(** [proxmox_schema::api_types::SAFE_ID_REGEX]: a letter, digit or underscore
    followed by letters, digits, underscores, dots and dashes. *)
Class SafeIdRegex := SAFE_ID_REGEX : string → bool.

Definition safe_id_char (a : ascii) : bool :=
  byte_between 48 57 a || byte_between 65 90 a || byte_between 97 122 a
  || Ascii.eqb a "_" || Ascii.eqb a "." || Ascii.eqb a "-".

Class SafeIdLaws `{SafeIdRegex} : Prop := {
  safe_id_chars s : SAFE_ID_REGEX s = true → str_forall safe_id_char s = true;
  safe_id_nonempty s : SAFE_ID_REGEX s = true → s ≠ ""%string;
}.

(** An implementation of the documented expression, for concrete runs. *)
Definition safe_id_regex_impl : SafeIdRegex := λ s,
  match s with
  | EmptyString => false
  | String a s' =>
      negb (Ascii.eqb a ".") && negb (Ascii.eqb a "-") && safe_id_char a && str_forall safe_id_char s'
  end.

Lemma safe_id_impl_laws : @SafeIdLaws safe_id_regex_impl.
Proof.
  split; intros [|a s]; unfold SAFE_ID_REGEX, safe_id_regex_impl; simpl; try done.
  rewrite !andb_true_iff. tauto.
Qed.

Lemma safe_id_no_char `{SafeIdLaws} c s :
  SAFE_ID_REGEX s = true → safe_id_char c = false → char_in c s = false.
Proof. intros Hs. apply str_forall_not_in. by apply safe_id_chars. Qed.

(** The native UPID types of [pve_api_types] and [pbs_api_types]. *)
Class NativeUpids := {
  PveUpid : Type;
  PbsUpid : Type;
  pve_parse : string → option PveUpid;
  pbs_parse : string → option PbsUpid;
  pve_node : PveUpid → string;
  pbs_node : PbsUpid → string;
}.

Record RemoteUpid : Type := mkRemoteUpid {
  ru_remote : string;
  ru_remote_type : RemoteType.t;
  ru_upid : string;
}.

#[export] Instance RemoteUpid_eq_dec : EqDecision RemoteUpid.
Proof. solve_decision. Defined.

#[export] Instance RemoteUpid_countable : Countable RemoteUpid.
Proof.
  refine (inj_countable' (λ u, (ru_remote u, ru_remote_type u, ru_upid u))
            (λ '(r, ty, s), mkRemoteUpid r ty s) _).
  by intros [].
Defined.

Section remote_upid.
Context `{SafeIdRegex, NativeUpids}.

Inductive NativeUpid : Type :=
| NativePve (u : PveUpid)
| NativePbs (u : PbsUpid).

Definition native_node (n : NativeUpid) : string :=
  match n with NativePve u => pve_node u | NativePbs u => pbs_node u end.

Definition native_upid (u : RemoteUpid) : result error NativeUpid :=
  match ru_remote_type u with
  | RemoteType.Pve => n ← ok_or (pve_parse (ru_upid u)) EInvalid; Ok (NativePve n)
  | RemoteType.Pbs => n ← ok_or (pbs_parse (ru_upid u)) EInvalid; Ok (NativePbs n)
  end.

Definition pve_upid (u : RemoteUpid) : result error PveUpid :=
  n ← native_upid u;
  match n with
  | NativePve p => Ok p
  | NativePbs _ => Err (EMsg "got a PBS UPID when expecting a PVE UPID")
  end.

Definition pbs_upid (u : RemoteUpid) : result error PbsUpid :=
  n ← native_upid u;
  match n with
  | NativePve _ => Err (EMsg "got a PVE UPID when expecting a PBS UPID")
  | NativePbs p => Ok p
  end.

Definition deduce_type (raw_upid : string) : result error RemoteType.t :=
  if pve_parse raw_upid is Some _ then Ok RemoteType.Pve
  else if pbs_parse raw_upid is Some _ then Ok RemoteType.Pbs
  else Err (EMsg ("invalid upid: " +:+ raw_upid)).

(** [TryFrom<(String, String)>] and its two borrowing variants. *)
Definition try_from_pair (remote upid : string) : result error RemoteUpid :=
  if negb (SAFE_ID_REGEX remote) then Err (EMsg "bad remote id in remote upid") else
  ty ← deduce_type upid;
  Ok (mkRemoteUpid remote ty upid).

(** [TryFrom<(&str, &str, &str)>]. *)
Definition try_from_triple (ty remote upid : string) : result error RemoteUpid :=
  if negb (SAFE_ID_REGEX remote) then Err (EMsg "bad remote id in remote upid") else
  ty ← RemoteType.from_str ty;
  Ok (mkRemoteUpid remote ty upid).

Definition remote_upid_from_str (s : string) : result error RemoteUpid :=
  match split_once "!" s with
  | None => Err (EMsg "missing '!' separator in remote upid")
  | Some (remote_and_type, upid) =>
      match split_once ":" remote_and_type with
      | Some (ty, remote) => try_from_triple ty remote upid
      | None => try_from_pair remote_and_type upid
      end
  end.

(** [Display]: ["{}:{}!{}"]. *)
Definition remote_upid_to_string (u : RemoteUpid) : string :=
  RemoteType.to_string (ru_remote_type u) +:+ ":" +:+ ru_remote u +:+ "!" +:+ ru_upid u.

Section laws.
Context `{!SafeIdLaws}.

Lemma safe_id_no_sep r :
  SAFE_ID_REGEX r = true → char_in "!" r = false ∧ char_in ":" r = false.
Proof. intros Hr. split; by apply safe_id_no_char. Qed.

Lemma remote_upid_parse_print (u : RemoteUpid) :
  SAFE_ID_REGEX (ru_remote u) = true →
  remote_upid_from_str (remote_upid_to_string u) = Ok u.
Proof.
  intros Hr. destruct (safe_id_no_sep _ Hr) as [Hbang Hcol].
  destruct u as [r ty s]. simpl in *.
  assert (remote_upid_to_string (mkRemoteUpid r ty s) =
          (RemoteType.to_string ty +:+ String ":" r) +:+ String "!" s) as -> by by destruct ty.
  unfold remote_upid_from_str.
  rewrite split_once_app by (rewrite char_in_app; simpl; rewrite Hbang; by destruct ty).
  rewrite split_once_app by by destruct ty.
  unfold try_from_triple. rewrite Hr. by destruct ty.
Qed.

(** Whatever the parser accepts has a safe remote id, and a string in the
    new format is reproduced verbatim by printing the parsed UPID. *)
Lemma remote_upid_from_str_safe s u :
  remote_upid_from_str s = Ok u → SAFE_ID_REGEX (ru_remote u) = true.
Proof.
  unfold remote_upid_from_str, try_from_triple, try_from_pair.
  destruct (split_once "!" s) as [[rt up]|]; [|done].
  destruct (split_once ":" rt) as [[ty r]|].
  - destruct (SAFE_ID_REGEX r) eqn:E; simpl; [|done]. intros Hs. run_ok Hs. by simplify_eq/=.
  - destruct (SAFE_ID_REGEX rt) eqn:E; simpl; [|done]. intros Hs. run_ok Hs. by simplify_eq/=.
Qed.
End laws.

(** The string form determines a UPID with a safe remote id. *)
Lemma remote_upid_to_string_inj `{!SafeIdLaws} u v :
  SAFE_ID_REGEX (ru_remote u) = true → SAFE_ID_REGEX (ru_remote v) = true →
  remote_upid_to_string u = remote_upid_to_string v → u = v.
Proof.
  intros Hu Hv Heq. apply (f_equal remote_upid_from_str) in Heq.
  rewrite !remote_upid_parse_print in Heq by done. congruence.
Qed.
End remote_upid.

(** Concrete parsers for examples: a UPID is ["UPID:<node>:<rest>"] for PVE
    and ["UPID+<node>:<rest>"] for PBS. *)
Definition demo_upids : NativeUpids := {|
  PveUpid := string; PbsUpid := string;
  pve_parse s := '(n, _) ← (strip_prefix "UPID:" s ≫= split_once ":"); Some n;
  pbs_parse s := '(n, _) ← (strip_prefix "UPID+" s ≫= split_once ":"); Some n;
  pve_node n := n; pbs_node n := n;
|}.

(** Printing a remote UPID and parsing it back gives the same UPID
    exactly when the remote id is one the code accepts; and two UPIDs with
    accepted remote ids have the same textual form only if they are equal. *)
Theorem remote_upid_roundtrip `{SafeIdLaws, NativeUpids} (u v : RemoteUpid) :
  SAFE_ID_REGEX (ru_remote u) = true →
  remote_upid_from_str (remote_upid_to_string u) = Ok u ∧
  (remote_upid_from_str (remote_upid_to_string v) = Ok v ↔ SAFE_ID_REGEX (ru_remote v) = true) ∧
  (SAFE_ID_REGEX (ru_remote v) = true →
   remote_upid_to_string u = remote_upid_to_string v → u = v).
Proof.
  intros Hu. split; [by apply remote_upid_parse_print|]. split.
  - split; [apply remote_upid_from_str_safe|apply remote_upid_parse_print].
  - by apply remote_upid_to_string_inj.
Qed.

Lemma remote_upid_roundtrip_witness :
  let u := mkRemoteUpid "abc" RemoteType.Pbs "UPID+n1:0001" in
  @remote_upid_from_str safe_id_regex_impl demo_upids (remote_upid_to_string u) = Ok u.
Proof.
  intros u.
  refine (proj1 (@remote_upid_roundtrip safe_id_regex_impl safe_id_impl_laws demo_upids u u _)).
  reflexivity.
Defined.
