(* ===== verification/SectionConfig.v ===== *)
(** * Configuration files and API errors

    What the handlers of the API use of crates that are not under [src/]: the
    typed section configuration of [proxmox_section_config], the digest of a
    configuration file that a client sends back to detect concurrent changes
    ([proxmox_config_digest]), and the errors of [proxmox_router]. *)

From S2P Require Import Prelude.

(** [SectionConfigData<E>]: an ordered map; [sc_insert] also stands for the
    previous entry it returns ([sc_get] before), [sc_modify] for writing through
    [get_mut]. *)
Class SectionConfigData (C E : Type) := {
  sc_get : C → string → option E;
  sc_insert : C → string → E → C;
  sc_modify : C → string → (E → E) → C;
  sc_remove : C → string → C;
  sc_iter : C → list (string * E);
}.

Class SectionConfigLaws (C E : Type) `{SectionConfigData C E} : Prop := {
  sc_get_insert c k e k' : sc_get (sc_insert c k e) k' = if decide (k = k') then Some e else sc_get c k';
  sc_get_modify c k f k' : sc_get (sc_modify c k f) k' = if decide (k = k') then f <$> sc_get c k else sc_get c k';
  sc_get_remove c k k' : sc_get (sc_remove c k) k' = if decide (k = k') then None else sc_get c k';
  sc_iter_get c k e : (k, e) ∈ sc_iter c ↔ sc_get c k = Some e;
  sc_iter_NoDup c : NoDup (sc_iter c).*1;
}.

(** [ConfigDigest] of a configuration file. *)
Class ConfigDigests (C : Type) := {
  digest : Type;
  digest_dec : EqDecision digest;
  config_digest : C → digest;
}.
#[export] Existing Instance digest_dec.

Inductive api_error : Type :=
| NOT_FOUND (msg : string)
| CONFLICT (msg : string)
| BAD_REQUEST (msg : string)
| PERMISSION_DENIED (remote : string)
| DETECTED_MODIFICATION
| OTHER (msg : string)
| PANIC.

(** [ConfigDigest::detect_modification] *)
Definition detect_modification `{ConfigDigests C} (current : digest) (expected : option digest) : result api_error unit :=
  match expected with
  | Some d => bail_if (negb (bool_decide (d = current))) DETECTED_MODIFICATION
  | None => Ok tt
  end.


(** Section configurations as finite maps, for concrete runs. *)
Section gmap_config.
Context {E : Type}.

Definition gmap_config : SectionConfigData (gmap string E) E :=
  {| sc_get c k := c !! k; sc_insert c k e := <[k:=e]> c; sc_modify c k f := alter f k c;
     sc_remove c k := delete k c; sc_iter := map_to_list |}.

Lemma gmap_config_laws : @SectionConfigLaws (gmap string E) E gmap_config.
Proof.
  split; unfold sc_get, sc_insert, sc_modify, sc_remove, sc_iter, gmap_config.
  - intros c k e k'. by apply lookup_insert.
  - intros c k f k'. destruct (decide (k = k')) as [<-|]; [by apply lookup_alter_eq|by apply lookup_alter_ne].
  - intros c k k'. by apply lookup_delete.
  - intros. apply elem_of_map_to_list.
  - intros. apply NoDup_fst_map_to_list.
Qed.

Definition gmap_digests `{EqDecision E} : ConfigDigests (gmap string E) :=
  {| digest := gmap string E; digest_dec := _; config_digest c := c |}.
End gmap_config.
