(* ===== verification/Resource.v ===== *)
(** * Resources of remotes

    Model of [lib/pdm-api-types/src/resource.rs] and of the functions of
    [server/src/api/resources.rs] that turn what a remote reports into the
    resources of the Datacenter Manager.

    An [f64] is a [spec_float], the Standard Library's specification of IEEE 754
    numbers, at the precision and exponent range of [binary64]; a [u64] is a [Z].
    The reports of the remotes ([ClusterResource] of [pve_api_types];
    [NodeStatus], [DataStoreStatusListItem] and [DataStoreConfig] of
    [pbs_api_types]) are records of the fields the code reads.

    Not under [src/], hence parameters: the names of [ClusterResourceNetworkType]
    and the parser of a datastore's backend property. *)

From Stdlib Require Import SpecFloat.
From S2P Require Import Prelude FileSystem RemoteUpid.

(** ** Numbers *)

Definition f64 : Type := spec_float.
Definition f64_zero : f64 := S754_zero false.
Definition f64_add : f64 → f64 → f64 := SFadd 53 1024.
Definition f64_mul : f64 → f64 → f64 := SFmul 53 1024.
Definition f64_div : f64 → f64 → f64 := SFdiv 53 1024.
(** [a > b]; false if one of them is not a number. *)
Definition f64_gt (a b : f64) : bool := SFltb b a.
(** [z as f64], rounded to nearest even. *)
Definition f64_of_u64 (z : Z) : f64 := binary_normalize 53 1024 z 0 false.

#[export] Instance spec_float_eq_dec : EqDecision spec_float.
Proof. solve_decision. Defined.

(** Arithmetic of [u64] in a release build, and [z as u64]. *)
Definition as_u64 (z : Z) : Z := z mod 2 ^ 64.
Definition u64_add (a b : Z) : Z := as_u64 (a + b).
Definition u64_sub (a b : Z) : Z := as_u64 (a - b).

(** ** Resource types *)

Module ResourceType.
Inductive t : Type := PveStorage | PveQemu | PveLxc | PveNetwork | PbsDatastore | Node.

#[global] Instance eq_dec : EqDecision t.
Proof. solve_decision. Defined.

Definition as_str (ty : t) : string :=
  match ty with
  | PveStorage => "storage"
  | PveQemu => "qemu"
  | PveLxc => "lxc"
  | PveNetwork => "network"
  | PbsDatastore => "datastore"
  | Node => "node"
  end.

Definition from_str (s : string) : result error t :=
  if String.eqb s "storage" then Ok PveStorage
  else if String.eqb s "qemu" then Ok PveQemu
  else if String.eqb s "lxc" then Ok PveLxc
  else if String.eqb s "network" then Ok PveNetwork
  else if String.eqb s "datastore" then Ok PbsDatastore
  else if String.eqb s "node" then Ok Node
  else Err (EMsg "invalid resource type").

Lemma from_as_str ty : from_str (as_str ty) = Ok ty.
Proof. by destruct ty. Qed.
End ResourceType.

Module SdnStatus.
Inductive t : Type := Available | Error | Pending | Unknown.

#[global] Instance eq_dec : EqDecision t.
Proof. solve_decision. Defined.

Definition from_str (s : string) : t :=
  if String.eqb s "ok" || String.eqb s "available" then Available
  else if String.eqb s "pending" then Pending
  else if String.eqb s "error" then Error
  else Unknown.

Definition as_str (s : t) : string :=
  match s with
  | Available => "available"
  | Error => "error"
  | Pending => "pending"
  | Unknown => "unknown"
  end.

Lemma sdn_from_as_str s : from_str (as_str s) = s.
Proof. by destruct s. Qed.
End SdnStatus.

(** ** Resources *)

(** [PveQemuResource] and [PveLxcResource] have the same fields. *)
Record GuestResource : Type := mkGuest {
  gr_cpu : f64;
  gr_maxcpu : f64;
  gr_disk : Z;
  gr_maxdisk : Z;
  gr_id : string;
  gr_maxmem : Z;
  gr_mem : Z;
  gr_name : string;
  gr_node : string;
  gr_pool : string;
  gr_status : string;
  gr_tags : list string;
  gr_template : bool;
  gr_uptime : Z;
  gr_vmid : Z;
}.
Definition PveQemuResource : Type := GuestResource.
Definition PveLxcResource : Type := GuestResource.

Record PveNodeResource : Type := mkPveNode {
  nr_cgroup_mode : Z;
  nr_cpu : f64;
  nr_maxcpu : f64;
  nr_id : string;
  nr_maxmem : Z;
  nr_mem : Z;
  nr_node : string;
  nr_uptime : Z;
  nr_status : string;
  nr_level : string;
}.

Record PveStorageResource : Type := mkPveStorage {
  sr_disk : Z;
  sr_maxdisk : Z;
  sr_id : string;
  sr_storage : string;
  sr_node : string;
  sr_status : string;
  sr_shared : bool;
}.

Record NetworkZoneResource : Type := mkZone {
  zr_id : string;
  zr_node : string;
  zr_network : string;
  zr_status : SdnStatus.t;
  zr_zone_type : string;
  zr_legacy : bool;
}.

Record NetworkFabricResource : Type := mkFabric {
  fr_id : string;
  fr_node : string;
  fr_network : string;
  fr_status : SdnStatus.t;
  fr_protocol : string;
}.

Inductive PveNetworkResource : Type :=
| Fabric (r : NetworkFabricResource)
| Zone (r : NetworkZoneResource).

Record PbsNodeResource : Type := mkPbsNode {
  pn_cpu : f64;
  pn_maxcpu : f64;
  pn_id : string;
  pn_mem : Z;
  pn_maxmem : Z;
  pn_name : string;
  pn_uptime : Z;
}.

Record PbsDatastoreResource : Type := mkDatastore {
  dr_id : string;
  dr_maxdisk : Z;
  dr_disk : Z;
  dr_name : string;
  dr_usage : f64;
  dr_maintenance : option string;
  dr_backing_device : option string;
  dr_backend_type : option string;
}.

Inductive Resource : Type :=
| PveStorage (r : PveStorageResource)
| PveQemu (r : PveQemuResource)
| PveLxc (r : PveLxcResource)
| PveNode (r : PveNodeResource)
| PveNetwork (r : PveNetworkResource)
| PbsNode (r : PbsNodeResource)
| PbsDatastore (r : PbsDatastoreResource).

(** [ClusterResourceNetworkType] of [pve_api_types] and the names of its variants. *)
Inductive ClusterResourceNetworkType : Type :=
| NetFabric
| NetZone
| NetUnknownEnumValue (variant : string).

Class NetworkTypeNames := network_type_as_str : ClusterResourceNetworkType → string.

Definition PveNetworkResource_id (r : PveNetworkResource) : string :=
  match r with Zone z => zr_id z | Fabric f => fr_id f end.
Definition PveNetworkResource_name (r : PveNetworkResource) : string :=
  match r with Zone z => zr_network z | Fabric f => fr_network f end.
Definition PveNetworkResource_node (r : PveNetworkResource) : string :=
  match r with Zone z => zr_node z | Fabric f => fr_node f end.
Definition PveNetworkResource_status (r : PveNetworkResource) : string :=
  match r with
  | Zone z => SdnStatus.as_str (zr_status z)
  | Fabric f => SdnStatus.as_str (fr_status f)
  end.
Definition network_type (r : PveNetworkResource) : ClusterResourceNetworkType :=
  match r with Zone _ => NetZone | Fabric _ => NetFabric end.

(** The double nearest to 0.80. *)
Definition PBS_DATASTORE_HIGH_USAGE_THRESHOLD : f64 :=
  S754_finite false 7205759403792794 (-53).

(** [Resource::id]: the local id. *)
Definition id `{NetworkTypeNames} (r : Resource) : string :=
  match r with
  | PveStorage r => "storage/" +:+ sr_node r +:+ "/" +:+ sr_storage r
  | PveQemu r => "qemu/" +:+ show_Z (gr_vmid r)
  | PveLxc r => "lxc/" +:+ show_Z (gr_vmid r)
  | PveNode r => "node/" +:+ nr_node r
  | PveNetwork r =>
      let plain := "network/" +:+ PveNetworkResource_node r +:+ "/"
                     +:+ network_type_as_str (network_type r) +:+ "/" +:+ PveNetworkResource_name r in
      match r with
      | Zone z =>
          if zr_legacy z then "sdn/" +:+ PveNetworkResource_node r +:+ "/" +:+ PveNetworkResource_name r
          else plain
      | Fabric _ => plain
      end
  | PbsNode r => "node/" +:+ pn_name r
  | PbsDatastore r => dr_name r
  end.

Definition global_id (r : Resource) : string :=
  match r with
  | PveStorage r => sr_id r
  | PveQemu r => gr_id r
  | PveLxc r => gr_id r
  | PveNode r => nr_id r
  | PveNetwork r => PveNetworkResource_id r
  | PbsNode r => pn_id r
  | PbsDatastore r => dr_id r
  end.

Definition name (r : Resource) : string :=
  match r with
  | PveStorage r => sr_storage r
  | PveQemu r => gr_name r
  | PveLxc r => gr_name r
  | PveNode r => nr_node r
  | PveNetwork r => PveNetworkResource_name r
  | PbsNode r => pn_name r
  | PbsDatastore r => dr_name r
  end.

Definition resource_type (r : Resource) : ResourceType.t :=
  match r with
  | PveStorage _ => ResourceType.PveStorage
  | PveQemu _ => ResourceType.PveQemu
  | PveLxc _ => ResourceType.PveLxc
  | PveNetwork _ => ResourceType.PveNetwork
  | PveNode _ | PbsNode _ => ResourceType.Node
  | PbsDatastore _ => ResourceType.PbsDatastore
  end.

Definition status (r : Resource) : string :=
  match r with
  | PveStorage r => sr_status r
  | PveQemu r => gr_status r
  | PveLxc r => gr_status r
  | PveNode r => nr_status r
  | PveNetwork r => PveNetworkResource_status r
  | PbsNode r => if 0 <? pn_uptime r then "online" else "offline"
  | PbsDatastore r =>
      match dr_maintenance r with None => "online" | Some _ => "under-maintenance" end
  end.

Definition properties (r : Resource) : string :=
  match r with
  | PbsDatastore r =>
      str_join "," (
        (match dr_backend_type r with Some ty => [ty] | None => [] end) ++
        (match dr_backing_device r with Some _ => ["removable"%string] | None => [] end) ++
        (if f64_gt (dr_usage r) PBS_DATASTORE_HIGH_USAGE_THRESHOLD
         then ["high-usage"%string] else []))
  | _ => ""
  end.

(** ** What remotes report *)

Inductive ClusterResourceType : Type :=
| CrNode | CrLxc | CrQemu | CrStorage | CrSdn | CrNetwork | CrOther.

Record ClusterResource : Type := mkClusterResource {
  cr_ty : ClusterResourceType;
  cr_id : string;
  cr_cgroup_mode : option Z;
  cr_cpu : option f64;
  cr_maxcpu : option f64;
  cr_disk : option Z;
  cr_maxdisk : option Z;
  cr_mem : option Z;
  cr_maxmem : option Z;
  cr_uptime : option Z;
  cr_vmid : option Z;
  cr_name : option string;
  cr_node : option string;
  cr_pool : option string;
  cr_status : option string;
  cr_level : option string;
  cr_tags : option string;
  cr_template : option bool;
  cr_storage : option string;
  cr_shared : option bool;
  cr_sdn : option string;
  cr_zone_type : option string;
  cr_network_type : option ClusterResourceNetworkType;
  cr_network : option string;
  cr_protocol : option string;
}.

(** [str::split] with a set of separator characters: the pieces between them,
    empty ones included. *)
Fixpoint str_split (sep : ascii → bool) (s : string) : list string :=
  match s with
  | EmptyString => [""%string]
  | String a s' =>
      let rest := str_split sep s' in
      if sep a then ""%string :: rest
      else match rest with
           | w :: rest' => String a w :: rest'
           | [] => [String a ""]
           end
  end.

(** The tag list of a guest, as written in both guest mappings. *)
Definition tag_separator (a : ascii) : bool :=
  Ascii.eqb a ";" || Ascii.eqb a "," || Ascii.eqb a " ".
Definition split_tags (tags : option string) : list string :=
  match tags with
  | Some tags => filter (λ s, s ≠ ""%string) (str_split tag_separator tags)
  | None => []
  end.

Definition map_pve_node (remote : string) (r : ClusterResource) : option PveNodeResource :=
  match cr_ty r with
  | CrNode => Some {|
      nr_cgroup_mode := default 0 (cr_cgroup_mode r);
      nr_cpu := default f64_zero (cr_cpu r);
      nr_maxcpu := default f64_zero (cr_maxcpu r);
      nr_id := "remote/" +:+ remote +:+ "/node/" +:+ default ""%string (cr_node r);
      nr_mem := default 0 (cr_mem r);
      nr_maxmem := as_u64 (default 0 (cr_maxmem r));
      nr_node := default ""%string (cr_node r);
      nr_uptime := as_u64 (default 0 (cr_uptime r));
      nr_status := default ""%string (cr_status r);
      nr_level := default ""%string (cr_level r);
    |}
  | _ => None
  end.

(** The common body of [map_pve_lxc] and [map_pve_qemu]. *)
Definition map_guest (remote : string) (r : ClusterResource) : GuestResource := {|
  gr_cpu := default f64_zero (cr_cpu r);
  gr_maxcpu := default f64_zero (cr_maxcpu r);
  gr_disk := default 0 (cr_disk r);
  gr_maxdisk := default 0 (cr_maxdisk r);
  gr_id := "remote/" +:+ remote +:+ "/guest/" +:+ show_Z (default 0 (cr_vmid r));
  gr_mem := default 0 (cr_mem r);
  gr_maxmem := as_u64 (default 0 (cr_maxmem r));
  gr_name := default ""%string (cr_name r);
  gr_node := default ""%string (cr_node r);
  gr_pool := default ""%string (cr_pool r);
  gr_status := default ""%string (cr_status r);
  gr_tags := split_tags (cr_tags r);
  gr_template := default false (cr_template r);
  gr_uptime := as_u64 (default 0 (cr_uptime r));
  gr_vmid := default 0 (cr_vmid r);
|}.
Definition map_pve_lxc (remote : string) (r : ClusterResource) : option PveLxcResource :=
  match cr_ty r with CrLxc => Some (map_guest remote r) | _ => None end.
Definition map_pve_qemu (remote : string) (r : ClusterResource) : option PveQemuResource :=
  match cr_ty r with CrQemu => Some (map_guest remote r) | _ => None end.

Definition map_pve_storage (remote : string) (r : ClusterResource) : option PveStorageResource :=
  match cr_ty r with
  | CrStorage => Some {|
      sr_disk := default 0 (cr_disk r);
      sr_maxdisk := default 0 (cr_maxdisk r);
      sr_id := "remote/" +:+ remote +:+ "/" +:+ cr_id r;
      sr_storage := default ""%string (cr_storage r);
      sr_node := default ""%string (cr_node r);
      sr_status := default ""%string (cr_status r);
      sr_shared := default false (cr_shared r);
    |}
  | _ => None
  end.

Definition map_pve_sdn (remote : string) (r : ClusterResource) : option PveNetworkResource :=
  match cr_ty r with
  | CrSdn => Some (Zone {|
      zr_id := "remote/" +:+ remote +:+ "/sdn/" +:+ cr_id r;
      zr_network := default ""%string (cr_sdn r);
      zr_node := default ""%string (cr_node r);
      zr_zone_type := default ""%string (cr_zone_type r);
      zr_status := SdnStatus.from_str (default ""%string (cr_status r));
      zr_legacy := true;
    |})
  | _ => None
  end.

Definition map_pve_network (remote : string) (r : ClusterResource) : option PveNetworkResource :=
  match cr_ty r with
  | CrNetwork =>
      network_type ← cr_network_type r;
      let id := "remote/" +:+ remote +:+ "/" +:+ cr_id r in
      let node := default ""%string (cr_node r) in
      let network := default ""%string (cr_network r) in
      let status := SdnStatus.from_str (default ""%string (cr_status r)) in
      match network_type with
      | NetFabric => Some (Fabric {|
          fr_id := id; fr_network := network; fr_node := node; fr_status := status;
          fr_protocol := default ""%string (cr_protocol r) |})
      | NetZone => Some (Zone {|
          zr_id := id; zr_network := network; zr_node := node; zr_status := status;
          zr_zone_type := default ""%string (cr_zone_type r); zr_legacy := false |})
      | NetUnknownEnumValue _ => None
      end
  | _ => None
  end.

Definition map_pve_resource (remote : string) (r : ClusterResource) : option Resource :=
  match cr_ty r with
  | CrNode => PveNode <$> map_pve_node remote r
  | CrLxc => PveLxc <$> map_pve_lxc remote r
  | CrQemu => PveQemu <$> map_pve_qemu remote r
  | CrStorage => PveStorage <$> map_pve_storage remote r
  | CrSdn => PveNetwork <$> map_pve_sdn remote r
  | CrNetwork => PveNetwork <$> map_pve_network remote r
  | CrOther => None
  end.

Record NodeStatus : Type := mkNodeStatus {
  ns_cpu : f64;
  ns_cpus : Z;
  ns_memory_used : Z;
  ns_memory_total : Z;
  ns_uptime : Z;
}.

Definition map_pbs_node_status (remote : string) (st : NodeStatus) : Resource :=
  PbsNode {|
    pn_cpu := ns_cpu st;
    pn_maxcpu := f64_of_u64 (ns_cpus st);
    pn_id := "remote/" +:+ remote +:+ "/node/localhost";
    pn_name := "localhost";
    pn_mem := ns_memory_used st;
    pn_maxmem := ns_memory_total st;
    pn_uptime := ns_uptime st;
  |}.

Record DataStoreStatusListItem : Type := mkStoreStatus {
  si_store : string;
  si_total : option Z;
  si_used : option Z;
}.
Record DataStoreConfig : Type := mkStoreConfig {
  sc_name : string;
  sc_backend : option string;
  sc_maintenance_mode : option string;
  sc_backing_device : option string;
}.

(** Parsing a backend property gives its type, if it names one; [None] is a
    property that does not parse. *)
Class DatastoreBackends := {
  DatastoreBackendType : Type;
  parse_backend : string → option (option DatastoreBackendType);
  is_S3 : DatastoreBackendType → bool;
  S3_to_string : string;
}.

Section pbs.
Context `{DatastoreBackends}.

Definition map_backend_type (cfg : DataStoreConfig) : option string :=
  match sc_backend cfg with
  | None => None
  | Some store_backend =>
      match parse_backend store_backend with
      | Some (Some ty) => if is_S3 ty then Some S3_to_string else None
      | Some None => None
      | None => Some "unknown"%string
      end
  end.

Definition store_usage (st : DataStoreStatusListItem) : f64 :=
  let maxdisk := default 0 (si_total st) in
  let disk := default 0 (si_used st) in
  if 0 <? maxdisk then f64_div (f64_of_u64 disk) (f64_of_u64 maxdisk) else f64_zero.

Definition map_pbs_datastore_status (remote : string) (st : DataStoreStatusListItem)
    (datastore_map : gmap string DataStoreConfig) : Resource :=
  let cfg := datastore_map !! si_store st in
  PbsDatastore {|
    dr_id := "remote/" +:+ remote +:+ "/datastore/" +:+ si_store st;
    dr_name := si_store st;
    dr_maxdisk := default 0 (si_total st);
    dr_disk := default 0 (si_used st);
    dr_usage := store_usage st;
    dr_maintenance := cfg ≫= sc_maintenance_mode;
    dr_backing_device := cfg ≫= sc_backing_device;
    dr_backend_type := cfg ≫= map_backend_type;
  |}.

(** The answers of a remote to the requests of [fetch_remote_resource]; a
    request is only sent when those before it were answered. *)
Record remote_answers : Type := mkAnswers {
  ra_make_client : result error unit;
  ra_cluster_resources : result error (list ClusterResource);
  ra_node_status : result error NodeStatus;
  ra_list_datastores : result error (list DataStoreConfig);
  ra_datastore_usage : result error (list DataStoreStatusListItem);
}.

(** [collect] into a [HashMap]: the last entry of a name wins. *)
Definition collect_stores (l : list DataStoreConfig) : gmap string DataStoreConfig :=
  foldl (λ m store, <[sc_name store := store]> m) ∅ l.

Definition fetch_remote_resource (remote_name : string) (ty : RemoteType.t) (a : remote_answers) :
    result error (list Resource) :=
  match ty with
  | RemoteType.Pve =>
      _ ← ra_make_client a;
      cluster_resources ← ra_cluster_resources a;
      Ok (omap (M:=list) (map_pve_resource remote_name) cluster_resources)
  | RemoteType.Pbs =>
      _ ← ra_make_client a;
      status ← ra_node_status a;
      datastores ← ra_list_datastores a;
      usages ← ra_datastore_usage a;
      Ok (map_pbs_node_status remote_name status ::
          map (λ u, map_pbs_datastore_status remote_name u (collect_stores datastores)) usages)
  end.
End pbs.

(** ** Global ids name the remote they came from *)

Definition remote_prefix (remote : string) : string := "remote/" +:+ remote +:+ "/".

Lemma map_pve_resource_owned remote c r :
  map_pve_resource remote c = Some r → ∃ s, global_id r = remote_prefix remote +:+ s.
Proof.
  unfold map_pve_resource, map_pve_node, map_pve_lxc, map_pve_qemu, map_pve_storage,
    map_pve_sdn, map_pve_network.
  destruct (cr_ty c) eqn:Ety; simpl; try done.
  6: destruct (cr_network_type c) as [[]|]; simpl; try done.
  all: intros ?; simplify_eq/=; eexists; unfold remote_prefix; rewrite !str_app_assoc; reflexivity.
Qed.

Lemma remote_prefix_inj r1 r2 s1 s2 :
  char_in "/" r1 = false → char_in "/" r2 = false →
  remote_prefix r1 +:+ s1 = remote_prefix r2 +:+ s2 → r1 = r2.
Proof.
  unfold remote_prefix. rewrite !str_app_assoc. intros H1 H2 Heq%str_app_inj_l. simpl in Heq.
  apply (f_equal (split_once "/")) in Heq. rewrite !split_once_app in Heq by done. congruence.
Qed.

Section owned.
Context `{DatastoreBackends}.

Lemma fetch_remote_resource_owned remote ty a l r :
  fetch_remote_resource remote ty a = Ok l → r ∈ l →
  ∃ s, global_id r = remote_prefix remote +:+ s.
Proof.
  destruct ty; simpl; intros Hf Hr; run_ok Hf; simplify_eq/=.
  - apply list_elem_of_omap in Hr as (c & _ & Hc). by eapply map_pve_resource_owned.
  - apply elem_of_cons in Hr as [->|Hr].
    + exists "node/localhost"%string. unfold remote_prefix. simpl. by rewrite !str_app_assoc.
    + apply list_elem_of_fmap in Hr as (u & -> & _). eexists. unfold remote_prefix. simpl.
      rewrite !str_app_assoc. reflexivity.
Qed.

(** The resources of two different remotes never share a global id, whatever
    the remotes report: every id that is made for a resource starts with the name
    of its remote, and a remote id has no slash.  So a rule or a link that names a
    resource by its global id cannot reach a resource of another remote. *)
Theorem global_ids_disjoint `{SafeIdLaws} remote1 ty1 a1 l1 remote2 ty2 a2 l2 r1 r2 :
  SAFE_ID_REGEX remote1 = true → SAFE_ID_REGEX remote2 = true →
  fetch_remote_resource remote1 ty1 a1 = Ok l1 →
  fetch_remote_resource remote2 ty2 a2 = Ok l2 →
  remote1 ≠ remote2 → r1 ∈ l1 → r2 ∈ l2 → global_id r1 ≠ global_id r2.
Proof.
  intros Hs1 Hs2 Hf1 Hf2 Hne Hr1 Hr2 Heq. apply Hne.
  destruct (fetch_remote_resource_owned _ _ _ _ _ Hf1 Hr1) as [s1 E1].
  destruct (fetch_remote_resource_owned _ _ _ _ _ Hf2 Hr2) as [s2 E2].
  rewrite E1, E2 in Heq. eapply remote_prefix_inj; [..|exact Heq]; by apply safe_id_no_char.
Qed.
End owned.

Module ResourceDemo.
#[local] Existing Instance safe_id_regex_impl.

Definition backends : DatastoreBackends := {|
  DatastoreBackendType := bool;
  parse_backend s :=
    if String.eqb s "type=s3" then Some (Some true)
    else if String.eqb s "type=filesystem" then Some (Some false) else None;
  is_S3 b := b;
  S3_to_string := "s3";
|}.
#[local] Existing Instance backends.

Definition pbs_answers : remote_answers := {|
  ra_make_client := Ok tt;
  ra_cluster_resources := Err EIo;
  ra_node_status := Ok (mkNodeStatus f64_zero 8 1024 4096 77);
  ra_list_datastores := Ok [mkStoreConfig "main" (Some "type=s3"%string) None None];
  ra_datastore_usage := Ok [mkStoreStatus "main" (Some 1000) (Some 900)];
|}.

Definition of_remote (remote : string) : list Resource :=
  match fetch_remote_resource remote RemoteType.Pbs pbs_answers with Ok l => l | Err _ => [] end.

Example fetched_properties : map properties (of_remote "pbs1") = [""%string; "s3,high-usage"%string].
Proof. vm_compute. reflexivity. Qed.

Lemma global_ids_disjoint_witness :
  let node remote := map_pbs_node_status remote (mkNodeStatus f64_zero 8 1024 4096 77) in
  global_id (node "pbs1"%string) ≠ global_id (node "pbs2"%string).
Proof.
  intros node.
  refine (@global_ids_disjoint backends safe_id_regex_impl safe_id_impl_laws
    "pbs1" RemoteType.Pbs pbs_answers (of_remote "pbs1")
    "pbs2" RemoteType.Pbs pbs_answers (of_remote "pbs2") _ _ _ _ _ _ _ _ _).
  - reflexivity.
  - reflexivity.
  - vm_compute. reflexivity.
  - vm_compute. reflexivity.
  - discriminate.
  - left.
  - left.
Defined.
End ResourceDemo.
