(* ===== verification/Views.v ===== *)
(** * Views: filter rules, matching, configuration

    Model of [lib/pdm-api-types/src/views.rs] (rules and layouts),
    [server/src/views/mod.rs] (which resources, nodes and remotes a view shows)
    and [server/src/api/config/views.rs] (the handlers that edit views).

    A handler that edits views runs under the lock of the configuration; it maps
    the configuration it reads to the one it saves, or to an error, in which case
    nothing is saved.  The permission a route requires is checked before the
    handler runs and is not part of it.

    Not under [src/], hence parameters: [SAFE_ID_REGEX], the JSON parser of a
    layout, and the caller's privileges. *)

From Stdlib Require Import SpecFloat.
From S2P Require Import Prelude FileSystem RemoteUpid SectionConfig Resource.

(** ** Filter rules *)

Inductive StringMatcher : Type := Exact (s : string).
Definition matches (m : StringMatcher) (value : string) : bool :=
  match m with Exact matched_value => String.eqb value matched_value end.

Inductive FilterRule : Type :=
| RuleResourceType (ty : ResourceType.t)
| RuleResourcePool (m : StringMatcher)
| RuleResourceId (m : StringMatcher)
| RuleTag (m : StringMatcher)
| RuleRemote (m : StringMatcher).

#[export] Instance StringMatcher_eq_dec : EqDecision StringMatcher.
Proof. solve_decision. Defined.
#[export] Instance FilterRule_eq_dec : EqDecision FilterRule.
Proof. solve_decision. Defined.

(** [EnumMatcher::matches] *)
Definition enum_matches (ty ty' : ResourceType.t) : bool := bool_decide (ty = ty').

Section rules.
Context `{SafeIdRegex}.

(** [^SAFE_ID(\/SAFE_ID)+$]: a safe id has no slash, so the expression matches
    when the pieces between the slashes are safe ids and there is a slash. *)
Definition GLOBAL_RESOURCE_ID_REGEX (s : string) : bool :=
  let pieces := str_split (Ascii.eqb "/") s in
  (1 <? length pieces)%nat && forallb SAFE_ID_REGEX pieces.

(** The length bounds of a schema count characters; a string of the format has
    one byte per character. *)
Definition REMOTE_ID_SCHEMA (s : string) : bool :=
  (2 <=? String.length s)%nat && (String.length s <=? 32)%nat && SAFE_ID_REGEX s.

Definition parse_filter_rule (s : string) : result error FilterRule :=
  match split_once "=" s with
  | Some (ty, value) =>
      if String.eqb ty "resource-type" then
        ty ← ResourceType.from_str value; Ok (RuleResourceType ty)
      else if String.eqb ty "resource-pool" then
        _ ← bail_if (negb (SAFE_ID_REGEX value)) (EMsg ("invalid resource-pool value: " +:+ value));
        Ok (RuleResourcePool (Exact value))
      else if String.eqb ty "resource-id" then
        _ ← bail_if (negb (GLOBAL_RESOURCE_ID_REGEX value)) (EMsg ("invalid resource-id value: " +:+ value));
        Ok (RuleResourceId (Exact value))
      else if String.eqb ty "tag" then
        _ ← bail_if (negb (SAFE_ID_REGEX value)) (EMsg ("invalid tag value: " +:+ value));
        Ok (RuleTag (Exact value))
      else if String.eqb ty "remote" then
        _ ← (if negb (SAFE_ID_REGEX value)
             then bail_if (negb (REMOTE_ID_SCHEMA value)) EInvalid else Ok tt);
        Ok (RuleRemote (Exact value))
      else Err (EMsg ("invalid type: " +:+ ty))
  | None => Err (EMsg ("invalid filter rule: " +:+ s))
  end.

Definition filter_rule_from_str (s : string) : result error FilterRule :=
  match strip_prefix "exact:" s with
  | Some s' => parse_filter_rule s'
  | None => parse_filter_rule s
  end.

Definition filter_rule_to_string (r : FilterRule) : string :=
  match r with
  | RuleResourceType ty => "exact:resource-type=" +:+ ResourceType.as_str ty
  | RuleResourceId (Exact value) => "exact:resource-id=" +:+ value
  | RuleTag (Exact value) => "exact:tag=" +:+ value
  | RuleRemote (Exact value) => "exact:remote=" +:+ value
  | RuleResourcePool (Exact value) => "exact:resource-pool=" +:+ value
  end.

Definition verify_filter_rule (input : string) : result error unit :=
  _ ← filter_rule_from_str input; Ok tt.

(** The rules a parser can produce. *)
Definition rule_ok (r : FilterRule) : bool :=
  match r with
  | RuleResourceType _ => true
  | RuleResourceId (Exact value) => GLOBAL_RESOURCE_ID_REGEX value
  | RuleResourcePool (Exact value) | RuleTag (Exact value) | RuleRemote (Exact value) =>
      SAFE_ID_REGEX value
  end.

Lemma resource_type_from_str s ty :
  ResourceType.from_str s = Ok ty → s = ResourceType.as_str ty.
Proof.
  unfold ResourceType.from_str.
  repeat match goal with |- context [String.eqb s ?t] =>
    destruct (String.eqb_spec s t) as [->|]; [by intros [= <-]|] end.
  done.
Qed.

Lemma parse_filter_rule_print s r :
  parse_filter_rule s = Ok r → filter_rule_to_string r = "exact:" +:+ s ∧ rule_ok r = true.
Proof.
  unfold parse_filter_rule, REMOTE_ID_SCHEMA.
  destruct (split_once "=" s) as [[ty value]|] eqn:E; [|done].
  apply split_once_Some in E as [-> _].
  repeat match goal with |- context [String.eqb ty ?t] =>
    destruct (String.eqb_spec ty t) as [->|]; [intros Hp; run_ok Hp|] end; try done.
  - apply resource_type_from_str in Hrun as ->. by simplify_eq/=.
  - apply negb_false_iff in Hrun. by simplify_eq/=.
  - apply negb_false_iff in Hrun. by simplify_eq/=.
  - apply negb_false_iff in Hrun. by simplify_eq/=.
  - simplify_eq/=. destruct (SAFE_ID_REGEX value) eqn:Ev; [by rewrite ?Ev|].
    rewrite andb_false_r in Hrun. done.
Qed.

Lemma parse_filter_rule_exact r :
  rule_ok r = true → filter_rule_from_str (filter_rule_to_string r) = Ok r.
Proof.
  destruct r as [ty|[s]|[s]|[s]|[s]]; simpl; intros Hok;
    unfold filter_rule_from_str; simpl; unfold parse_filter_rule; simpl; rewrite ?Hok; try done.
  unfold parse_filter_rule. by destruct ty.
Qed.
End rules.

(** ** View configurations and layouts *)

Record ViewConfig : Type := mkView {
  vc_id : string;
  vc_include_all : option bool;
  vc_include : list FilterRule;
  vc_exclude : list FilterRule;
  vc_layout : string;
}.

#[export] Instance ViewConfig_eq_dec : EqDecision ViewConfig.
Proof. solve_decision. Defined.

Inductive NodeResourceType : Type := Cpu | Memory | Storage.
Inductive GuestType : Type := Qemu | Lxc.
Inductive LeaderboardType : Type := GuestCpu | NodeCpu | NodeMemory.
Inductive TaskSummaryGrouping : Type := Category | ByRemote.

(** [serde_json::Value] *)
Class Json := JsonValue : Type.

Section layouts.
Context `{Json}.

Inductive WidgetType : Type :=
| Nodes (remote_type : option RemoteType.t)
| Guests (guest_type : option GuestType)
| PbsDatastores
| Remotes (show_wizard : bool)
| Subscription
| Sdn
| Leaderboard (leaderboard_type : LeaderboardType)
| TaskSummary (grouping : TaskSummaryGrouping)
| ResourceTree
| NodeResourceGauge (resource : option NodeResourceType) (remote_type : option RemoteType.t)
| Map
| UnknownWidget (widget_type : string) (extra : gmap string JsonValue).

(** [flex] is an [f32]. *)
Record RowWidget : Type := mkRowWidget {
  rw_flex : option spec_float;
  rw_title : option string;
  rw_type : WidgetType;
}.

Inductive ViewLayout : Type := Rows (rows : list (list RowWidget)).
Record ViewTemplate : Type := mkTemplate {
  vt_description : string;
  vt_layout : ViewLayout;
}.

Definition is_unknown (w : RowWidget) : bool :=
  match rw_type w with UnknownWidget _ _ => true | _ => false end.
Definition has_unknown_widgets (l : ViewLayout) : bool :=
  match l with Rows rows => existsb (existsb is_unknown) rows end.
End layouts.

(** ** What a view shows *)

Record ResourceData : Type := mkResourceData {
  rd_resource_type : ResourceType.t;
  rd_tags : option (list string);
  rd_resource_pool : option string;
  rd_resource_id : string;
}.

(** [From<&Resource> for ResourceData] *)
Definition resource_data (value : Resource) : ResourceData :=
  match value with
  | PveQemu r | PveLxc r =>
      mkResourceData (resource_type value) (Some (gr_tags r)) (Some (gr_pool r)) (global_id value)
  | PveNode _ | PveNetwork _ | PbsNode _ | PbsDatastore _ | PveStorage _ =>
      mkResourceData (resource_type value) None None (global_id value)
  end.

(** One iteration of [check_rules]. *)
Definition check_rule (remote : string) (resource : ResourceData) (rule : FilterRule) : bool :=
  match rule with
  | RuleResourceType ty => enum_matches ty (rd_resource_type resource)
  | RuleResourcePool pool =>
      match rd_resource_pool resource with
      | Some resource_pool => matches pool resource_pool
      | None => false
      end
  | RuleResourceId resource_id => matches resource_id (rd_resource_id resource)
  | RuleTag tag =>
      match rd_tags resource with
      | Some resource_tags => existsb (matches tag) resource_tags
      | None => false
      end
  | RuleRemote included_remote => matches included_remote remote
  end.

Definition check_rules (rules : list FilterRule) (remote : string) (resource : ResourceData) : bool :=
  existsb (check_rule remote resource) rules.

Definition include_all (v : ViewConfig) : bool := default false (vc_include_all v).

Definition check_if_included (v : ViewConfig) (remote : string) (resource : ResourceData) : bool :=
  if include_all v then true else check_rules (vc_include v) remote resource.
Definition check_if_excluded (v : ViewConfig) (remote : string) (resource : ResourceData) : bool :=
  check_rules (vc_exclude v) remote resource.

Definition matches_remote_rule (remote : string) (rule : FilterRule) : bool :=
  match rule with RuleRemote r => matches r remote | _ => false end.

Definition resource_matches (v : ViewConfig) (remote : string) (resource : Resource) : bool :=
  let data := resource_data resource in
  check_if_included v remote data && negb (check_if_excluded v remote data).

(** The loop over the include rules, with its two early returns. *)
Fixpoint no_include_reaches (remote : string) (rules : list FilterRule) : bool :=
  match rules with
  | [] => true
  | RuleRemote r :: rules' => if matches r remote then false else no_include_reaches remote rules'
  | _ :: _ => false
  end.
Definition can_skip_remote (v : ViewConfig) (remote : string) : bool :=
  if existsb (matches_remote_rule remote) (vc_exclude v) then true
  else if include_all v then false
  else no_include_reaches remote (vc_include v).

Definition is_remote_explicitly_included (v : ViewConfig) (remote : string) : bool :=
  let included :=
    if include_all v then true else existsb (matches_remote_rule remote) (vc_include v) in
  let matches_exclude_remote := existsb (matches_remote_rule remote) (vc_exclude v) in
  included && negb matches_exclude_remote.

Definition node_data (remote node : string) : ResourceData :=
  mkResourceData ResourceType.Node None None ("remote/" +:+ remote +:+ "/node/" +:+ node).
Definition is_node_included (v : ViewConfig) (remote node : string) : bool :=
  let data := node_data remote node in
  check_if_included v remote data && negb (check_if_excluded v remote data).

Section matching.
Implicit Types (v : ViewConfig) (d : ResourceData) (rules : list FilterRule).

Lemma existsb_remote_rule remote d rules :
  existsb (matches_remote_rule remote) rules = true → check_rules rules remote d = true.
Proof.
  unfold check_rules. rewrite !existsb_exists. intros (r & Hr & Hm). exists r. split; [done|].
  by destruct r.
Qed.

Lemma no_include_reaches_spec remote d rules :
  no_include_reaches remote rules = true → check_rules rules remote d = false.
Proof.
  unfold check_rules.
  induction rules as [|[] rules IH]; simpl; try done. destruct (matches m remote); [done|apply IH].
Qed.

Lemma can_skip_remote_data v remote d :
  can_skip_remote v remote = true →
  check_if_included v remote d && negb (check_if_excluded v remote d) = false.
Proof.
  unfold can_skip_remote, check_if_included, check_if_excluded.
  destruct (existsb (matches_remote_rule remote) (vc_exclude v)) eqn:E.
  - intros _. rewrite (existsb_remote_rule remote d (vc_exclude v)) by done. by rewrite andb_false_r.
  - destruct (include_all v); [done|]. intros Hs. by rewrite no_include_reaches_spec.
Qed.

Lemma no_include_reaches_remote remote rules :
  no_include_reaches remote rules = true → existsb (matches_remote_rule remote) rules = false.
Proof.
  induction rules as [|[] rules IH]; simpl; try done. by destruct (matches m remote).
Qed.

Definition only_remote_rules rules : bool :=
  forallb (λ r, match r with RuleRemote _ => true | _ => false end) rules.

Lemma no_include_reaches_exact remote rules :
  only_remote_rules rules = true →
  no_include_reaches remote rules = negb (existsb (matches_remote_rule remote) rules).
Proof.
  induction rules as [|[] rules IH]; simpl; try done. by destruct (matches m remote); [|apply IH].
Qed.

Lemma can_skip_explicit v remote :
  can_skip_remote v remote = true → is_remote_explicitly_included v remote = false.
Proof.
  unfold can_skip_remote, is_remote_explicitly_included.
  destruct (existsb (matches_remote_rule remote) (vc_exclude v)); simpl; [by rewrite andb_false_r|].
  destruct (include_all v); [done|]. intros H. by rewrite no_include_reaches_remote.
Qed.

(** A remote that [can_skip_remote] allows to skip contributes nothing to the
    view: no resource of it matches, no node of it is included, and the remote is
    not explicitly included.  When all include rules are remote rules (or
    everything is included) the test is exact: a remote is skipped unless it is
    explicitly included. *)
Theorem can_skip_remote_sound v remote :
  (can_skip_remote v remote = true →
   (∀ r, resource_matches v remote r = false) ∧
   (∀ node, is_node_included v remote node = false) ∧
   is_remote_explicitly_included v remote = false) ∧
  (include_all v || only_remote_rules (vc_include v) = true →
   can_skip_remote v remote = negb (is_remote_explicitly_included v remote)).
Proof.
  split.
  - intros Hs. split_and!; [intros r|intros node|by apply can_skip_explicit];
      by apply can_skip_remote_data.
  - unfold can_skip_remote, is_remote_explicitly_included.
    destruct (existsb (matches_remote_rule remote) (vc_exclude v)); simpl;
      [by rewrite andb_false_r|].
    destruct (include_all v); simpl; [done|]. intros Hr.
    rewrite no_include_reaches_exact by done. by rewrite andb_true_r.
Qed.

(** The node check agrees with the check of the node's resource, for every node
    of a PVE remote. *)
Lemma is_node_included_pve v remote c n :
  map_pve_node remote c = Some n →
  is_node_included v remote (nr_node n) = resource_matches v remote (PveNode n).
Proof.
  unfold map_pve_node. destruct (cr_ty c); try done. intros [= <-]. done.
Qed.
End matching.

(** ** Editing views *)

Inductive DeletableProperty : Type := DelInclude | DelExclude | DelLayout | DelIncludeAll.

(** [ViewConfigUpdater], generated from [ViewConfig]; the id is not updatable. *)
Record ViewConfigUpdater : Type := mkUpdater {
  vu_include_all : option bool;
  vu_include : option (list FilterRule);
  vu_exclude : option (list FilterRule);
  vu_layout : option string;
}.

(** [serde_json::from_str::<ViewTemplate>], with the message of its error. *)
Class LayoutParser `{Json} := parse_template : string → result string ViewTemplate.

Section config.
Context {C : Type} `{SectionConfigData C ViewConfig} `{ConfigDigests C} `{LayoutParser} `{SafeIdRegex}.

Definition get_view (config : result error C) (view_id : string) : result error ViewConfig :=
  config ← config;
  ok_or (sc_get config view_id) (EMsg ("unknown view: " +:+ view_id)).

Definition get_optional_view (config : result error C) (view_id : option string) :
    result error (option ViewConfig) :=
  match view_id with
  | Some view_id => v ← get_view config view_id; Ok (Some v)
  | None => Ok None
  end.

(** [audit] is the check of [PRIV_RESOURCE_AUDIT] on an ACL path. *)
Definition get_views (audit : list string → bool) (config : C) : list ViewConfig * digest :=
  let top_level_allowed := audit ["view"%string] in
  (omap (M:=list) (λ '(view, value),
      if negb top_level_allowed && negb (audit ["view"%string; view]) then None else Some value)
    (sc_iter config), config_digest config).

Definition add_view (view : ViewConfig) (expected : option digest) (config : C) : result api_error C :=
  _ ← detect_modification (config_digest config) expected;
  _ ← (if String.eqb (vc_layout view) "" then Ok tt
       else match parse_template (vc_layout view) with
            | Ok t => bail_if (has_unknown_widgets (vt_layout t)) (BAD_REQUEST "layout: layout has unknown widgets")
            | Err err => Err (BAD_REQUEST ("layout: layout is not valid: '" +:+ err +:+ "'"))
            end);
  match sc_get config (vc_id view) with
  | Some _ => Err (BAD_REQUEST ("id: view '" +:+ vc_id view +:+ "' already exists."))
  | None => Ok (sc_insert config (vc_id view) view)
  end.

Definition delete_property (conf : ViewConfig) (p : DeletableProperty) : ViewConfig :=
  match p with
  | DelInclude => mkView (vc_id conf) (vc_include_all conf) [] (vc_exclude conf) (vc_layout conf)
  | DelExclude => mkView (vc_id conf) (vc_include_all conf) (vc_include conf) [] (vc_layout conf)
  | DelLayout => mkView (vc_id conf) (vc_include_all conf) (vc_include conf) (vc_exclude conf) ""
  | DelIncludeAll => mkView (vc_id conf) None (vc_include conf) (vc_exclude conf) (vc_layout conf)
  end.

Definition apply_updater (view : ViewConfigUpdater) (conf : ViewConfig) : ViewConfig :=
  mkView (vc_id conf)
    (match vu_include_all view with Some b => Some b | None => vc_include_all conf end)
    (default (vc_include conf) (vu_include view))
    (default (vc_exclude conf) (vu_exclude view))
    (default (vc_layout conf) (vu_layout view)).

Definition update_view (id : string) (view : ViewConfigUpdater) (delete : option (list DeletableProperty))
    (expected : option digest) (config : C) : result api_error C :=
  _ ← detect_modification (config_digest config) expected;
  conf ← ok_or (sc_get config id) (NOT_FOUND ("no such view '" +:+ id +:+ "'"));
  let conf := foldl delete_property conf (default [] delete) in
  _ ← (match vu_layout view with
       | Some layout =>
           if String.eqb layout "" then Ok tt
           else match parse_template layout with
                | Ok t => bail_if (has_unknown_widgets (vt_layout t)) (BAD_REQUEST "layout: layout has unknown widgets")
                | Err err => Err (BAD_REQUEST ("layout: layout is not valid: '" +:+ err +:+ "'"))
                end
       | None => Ok tt
       end);
  Ok (sc_modify config id (λ _, apply_updater view conf)).

Definition remove_view (id : string) (expected : option digest) (config : C) : result api_error C :=
  _ ← detect_modification (config_digest config) expected;
  match sc_get config id with
  | Some _ => Ok (sc_remove config id)
  | None => Err (NOT_FOUND ("view '" +:+ id +:+ "' does not exist."))
  end.

Definition read_view (id : string) (config : C) : result api_error (ViewConfig * digest) :=
  view ← ok_or (sc_get config id) (NOT_FOUND ("no such view '" +:+ id +:+ "'"));
  Ok (view, config_digest config).

(** A request, as it reaches its handler: filter rules were parsed. *)
Inductive view_request : Type :=
| ReqAdd (view : ViewConfig) (expected : option digest)
| ReqUpdate (id : string) (view : ViewConfigUpdater) (delete : option (list DeletableProperty))
    (expected : option digest)
| ReqRemove (id : string) (expected : option digest).

Definition rules_ok (l : list FilterRule) : bool := forallb rule_ok l.
Definition request_ok (q : view_request) : bool :=
  match q with
  | ReqAdd v _ => rules_ok (vc_include v) && rules_ok (vc_exclude v)
  | ReqUpdate _ u _ _ => rules_ok (default [] (vu_include u)) && rules_ok (default [] (vu_exclude u))
  | ReqRemove _ _ => true
  end.
Definition request_id (q : view_request) : string :=
  match q with ReqAdd v _ => vc_id v | ReqUpdate id _ _ _ => id | ReqRemove id _ => id end.

Definition handle (q : view_request) (config : C) : result api_error C :=
  match q with
  | ReqAdd v expected => add_view v expected config
  | ReqUpdate id u delete expected => update_view id u delete expected config
  | ReqRemove id expected => remove_view id expected config
  end.

(** A failed request saves nothing. *)
Inductive view_step (c : C) : C → Prop :=
| view_step_ok q c' : request_ok q = true → handle q c = Ok c' → view_step c c'
| view_step_err q e : handle q c = Err e → view_step c c.

(** A layout that is not empty parses, and all its widgets are of known types. *)
Definition known_widget (w : RowWidget) : Prop := ∀ ty extra, rw_type w ≠ UnknownWidget ty extra.
Definition layout_ok (layout : string) : Prop :=
  layout ≠ ""%string → ∃ t rows, parse_template layout = Ok t ∧ vt_layout t = Rows rows ∧
    ∀ row w, row ∈ rows → w ∈ row → known_widget w.

Lemma checked_layout layout :
  (if String.eqb layout "" then Ok tt
   else match parse_template layout with
        | Ok t => bail_if (has_unknown_widgets (vt_layout t)) (BAD_REQUEST "layout: layout has unknown widgets")
        | Err err => Err (BAD_REQUEST ("layout: layout is not valid: '" +:+ err +:+ "'"))
        end) = Ok tt → layout_ok layout.
Proof.
  intros Hc Hne. destruct (String.eqb_spec layout ""); [done|]. destruct (parse_template layout) as [t|err]; [|done].
  apply bail_if_Ok in Hc. destruct t as [d [rows]]. eexists _, rows. split_and!; [done..|].
  intros row w Hrow Hw ty extra Hty. apply not_true_iff_false in Hc. apply Hc. apply existsb_exists. exists row. split; [by apply list_elem_of_In|].
  apply existsb_exists. exists w. split; [by apply list_elem_of_In|]. unfold is_unknown. by rewrite Hty.
Qed.

Definition view_ok (id : string) (v : ViewConfig) : Prop :=
  vc_id v = id ∧ rules_ok (vc_include v) = true ∧ rules_ok (vc_exclude v) = true ∧ layout_ok (vc_layout v).
Definition views_ok (c : C) : Prop := ∀ id v, sc_get c id = Some v → view_ok id v.

Lemma delete_property_ok id v p : view_ok id v → view_ok id (delete_property v p).
Proof. intros (?&?&?&?). unfold view_ok. destruct p; simpl; split_and!; try done. intros []. done. Qed.

Lemma delete_properties_ok id v l : view_ok id v → view_ok id (foldl delete_property v l).
Proof. revert v. induction l as [|p l IH]; simpl; auto using delete_property_ok. Qed.

Lemma apply_updater_ok id u v :
  view_ok id v →
  rules_ok (default [] (vu_include u)) && rules_ok (default [] (vu_exclude u)) = true →
  (∀ layout, vu_layout u = Some layout → layout_ok layout) →
  view_ok id (apply_updater u v).
Proof.
  intros (?&?&?&?) [? ?]%andb_true_iff Hl. unfold view_ok.
  destruct u as [ia [i|] [x|] [l|]]; simpl in *; auto.
Qed.

Context `{!SectionConfigLaws C ViewConfig}.

Lemma handle_other q c c' id : handle q c = Ok c' → id ≠ request_id q → sc_get c' id = sc_get c id.
Proof.
  destruct q; simpl; unfold add_view, update_view, remove_view; intros Hh Hne; run_ok Hh;
    repeat case_match; simplify_eq/=;
    rewrite ?sc_get_insert, ?sc_get_modify, ?sc_get_remove; by rewrite decide_False by congruence.
Qed.

Lemma handle_ok q c c' : views_ok c → request_ok q = true → handle q c = Ok c' → views_ok c'.
Proof.
  intros Hc Hq Hh id v Hv. destruct (decide (id = request_id q)) as [->|Hne].
  2: { rewrite (handle_other q c c') in Hv by done. by apply Hc. }
  destruct q as [w ex|i u d ex|i ex]; simpl in *; unfold add_view, update_view, remove_view in Hh; run_ok Hh.
  - case_match; [done|]. simplify_eq/=. rewrite sc_get_insert, decide_True in Hv by done.
    simplify_eq/=. apply andb_true_iff in Hq as [? ?]. destruct v0, v1. split_and!; [done..|by apply checked_layout].
  - simplify_eq/=. rewrite sc_get_modify, decide_True in Hv by done.
    rewrite Hrun0 in Hv. simplify_eq/=. destruct v0, v2.
    apply apply_updater_ok; [by apply delete_properties_ok, Hc|done|]. intros layout Hlayout. rewrite Hlayout in *. by apply checked_layout.
  - case_match; [|done]. simplify_eq/=. rewrite sc_get_remove, decide_True in Hv by done. done.
Qed.
End config.

(** Filter rules survive being written to the configuration and read back:
    whatever text the parser accepts, the rule it yields prints as that text or as
    that text behind [exact:], and the printed form parses to the same rule. *)
Theorem filter_rule_roundtrip `{SafeIdRegex} s r :
  filter_rule_from_str s = Ok r →
  (filter_rule_to_string r = s ∨ filter_rule_to_string r = "exact:" +:+ s) ∧
  filter_rule_from_str (filter_rule_to_string r) = Ok r.
Proof.
  intros Hp. unfold filter_rule_from_str in Hp.
  destruct (strip_prefix "exact:" s) as [s'|] eqn:E.
  - apply strip_prefix_Some in E as ->. apply parse_filter_rule_print in Hp as [Hs Hok].
    split; [by left|by apply parse_filter_rule_exact].
  - apply parse_filter_rule_print in Hp as [Hs Hok].
    split; [by right|by apply parse_filter_rule_exact].
Qed.

(** C38: No sequence of requests corrupts the views: in every configuration that is
    reachable from a sound one, each view is stored under its own id; its filter rules can
    be written and read back; and its layout, unless it is empty, parses and all its
    widgets are of known types.  A sound configuration is one with these properties, such
    as the empty one.  The filter rules of the requests are those that the parser of the
    API accepts. *)
Theorem views_invariant {C : Type} `{SectionConfigLaws C ViewConfig} `{ConfigDigests C}
    `{LayoutParser} `{SafeIdRegex} (c c' : C) id v :
  rtc view_step c c' → views_ok c → sc_get c' id = Some v →
  vc_id v = id ∧ layout_ok (vc_layout v) ∧
  Forall (λ r, filter_rule_from_str (filter_rule_to_string r) = Ok r) (vc_include v ++ vc_exclude v).
Proof.
  intros Hsteps Hc Hv. assert (views_ok c') as Hc'.
  { clear Hv. induction Hsteps as [c|c c1 c2 Hstep Hsteps IH]; [done|]. apply IH.
    destruct Hstep as [q c1 Hq Hh|q e Hh]; [by eapply handle_ok|done]. }
  destruct (Hc' id v Hv) as (? & Hi & Hx & ?). split_and!; [done..|].
  apply Forall_forall. intros r Hr. apply parse_filter_rule_exact.
  unfold rules_ok in Hi, Hx. rewrite forallb_forall in Hi, Hx.
  apply elem_of_app in Hr as [Hr|Hr]; [apply Hi|apply Hx]; by apply list_elem_of_In.
Qed.

Module ViewDemo.
#[local] Existing Instance safe_id_regex_impl.

Definition unit_json : Json := unit.
#[local] Existing Instance unit_json.
Definition layouts : LayoutParser := λ s,
  if String.eqb s "rows" then Ok (mkTemplate "" (Rows [])) else Err "expected value"%string.
#[local] Existing Instance layouts.

Definition views : Type := gmap string ViewConfig.
#[local] Instance views_config : SectionConfigData views ViewConfig := gmap_config.
#[local] Instance views_laws : SectionConfigLaws views ViewConfig := gmap_config_laws.
#[local] Instance views_digests : ConfigDigests views := gmap_digests.

Definition prod : ViewConfig :=
  mkView "prod" None [RuleTag (Exact "prod"); RuleRemote (Exact "pve1")] [RuleRemote (Exact "pve2")] "rows".

Lemma can_skip_remote_sound_witness :
  can_skip_remote prod "pve2" = true ∧ is_node_included prod "pve2" "n1" = false.
Proof.
  split; [reflexivity|].
  refine (proj1 (proj2 (proj1 (can_skip_remote_sound prod "pve2") _)) "n1"%string). reflexivity.
Defined.

Lemma filter_rule_roundtrip_witness :
  filter_rule_from_str "exact:resource-id=remote/pve1/guest/100"
    = Ok (RuleResourceId (Exact "remote/pve1/guest/100")).
Proof.
  refine (proj2 (filter_rule_roundtrip "resource-id=remote/pve1/guest/100"
    (RuleResourceId (Exact "remote/pve1/guest/100")) _)).
  vm_compute. reflexivity.
Defined.

Definition updated : ViewConfig := mkView "prod" (Some true) [] [RuleRemote (Exact "pve2")] "rows".

Lemma views_invariant_witness :
  sc_get (C:=views) {["prod"%string := updated]} "prod" = Some updated ∧ vc_id updated = "prod"%string.
Proof.
  split; [vm_compute; reflexivity|].
  refine (proj1 (views_invariant (C:=views) ∅ {["prod"%string := updated]} "prod" updated _ _ _)).
  - eapply rtc_l.
    { eapply (view_step_ok _ (ReqAdd prod None)); [reflexivity|]. vm_compute. reflexivity. }
    eapply rtc_l; [|apply rtc_refl].
    eapply (view_step_ok _ (ReqUpdate "prod" (mkUpdater (Some true) None None None) (Some [DelInclude]) None)).
    + reflexivity.
    + vm_compute. reflexivity.
  - intros id v Hv. destruct (lookup_empty_Some (M:=gmap string) id v Hv).
  - vm_compute. reflexivity.
Defined.

(** A remote rule is only checked against the schema of remote ids when it is
    not a safe id, in which case the schema refuses it anyway: the length bounds
    of the schema never apply. *)
Theorem remote_rule_length_unchecked :
  filter_rule_from_str "remote=a" = Ok (RuleRemote (Exact "a")) ∧ REMOTE_ID_SCHEMA "a" = false.
Proof. split; vm_compute; reflexivity. Qed.

(** The node resource of a PBS remote is always called [localhost], while the
    tasks of the remote carry its host name. A view that includes the node
    resource by its id does not include the node of its tasks. *)
Theorem pbs_node_rule_misses_host_name (st : NodeStatus) :
  let v := mkView "v" None [RuleResourceId (Exact "remote/pbs1/node/localhost")] [] "" in
  resource_matches v "pbs1" (map_pbs_node_status "pbs1" st) = true ∧
  is_node_included v "pbs1" "backup-host" = false.
Proof. split; reflexivity. Qed.
End ViewDemo.
