(* ===== verification/Search.v ===== *)
(** * Search expressions

    Model of [lib/pdm-search/src/lib.rs]: a search is a list of required and of
    optional terms, written as words separated by white space.  The closure given
    to [matches] is a [FnMut]: it has a state, and it is called only as far as the
    short-circuiting iterators go, so the model passes the state through. *)

From S2P Require Import Prelude FileSystem RemoteUpid.

(** ** [str::split_whitespace]

    [ws_len s] is the length in bytes of the white-space character that [s] starts
    with, 0 if there is none.  The multi-byte cases are U+0085, U+00A0, U+1680,
    U+2000 to U+200A, U+2028, U+2029, U+202F, U+205F and U+3000. *)

Definition byte_is (n : Z) (a : ascii) : bool := byte_between n n a.

Definition ws1 (a : ascii) : bool := byte_between 9 13 a || byte_is 32 a.
Definition ws2 (a b : ascii) : bool := byte_is 194 a && (byte_is 133 b || byte_is 160 b).
Definition ws3 (a b c : ascii) : bool :=
  (byte_is 225 a && byte_is 154 b && byte_is 128 c) ||
  (byte_is 226 a && byte_is 128 b &&
     (byte_between 128 138 c || byte_is 168 c || byte_is 169 c || byte_is 175 c)) ||
  (byte_is 226 a && byte_is 129 b && byte_is 159 c) ||
  (byte_is 227 a && byte_is 128 b && byte_is 128 c).

Definition ws_len (s : string) : nat :=
  match s with
  | EmptyString => 0
  | String a s1 =>
      if ws1 a then 1 else
      match s1 with
      | EmptyString => 0
      | String b s2 =>
          if ws2 a b then 2 else
          match s2 with
          | EmptyString => 0
          | String c _ => if ws3 a b c then 3 else 0
          end
      end
  end.

Definition flush (cur : string) : list string :=
  if String.eqb cur "" then [] else [cur].

(** [skip] counts the bytes that are left of a white-space character. *)
Fixpoint split_ws (skip : nat) (cur s : string) : list string :=
  match s with
  | EmptyString => flush cur
  | String a s' =>
      match skip with
      | S k => split_ws k cur s'
      | O =>
          match ws_len s with
          | O => split_ws 0 (cur +:+ String a "") s'
          | S k => flush cur ++ split_ws k "" s'
          end
      end
  end.
Definition split_whitespace (s : string) : list string := split_ws 0 "" s.

(** ** Terms and searches *)

Record SearchTerm : Type := mkTerm {
  st_optional : bool;
  st_value : string;
  st_category : option string;
}.
Record Search : Type := mkSearch {
  required_terms : list SearchTerm;
  optional_terms : list SearchTerm;
}.

#[export] Instance SearchTerm_eq_dec : EqDecision SearchTerm.
Proof. solve_decision. Defined.

Definition term_new (term : string) : SearchTerm := mkTerm false term None.
Definition with_category (category : option string) (t : SearchTerm) : SearchTerm :=
  mkTerm (st_optional t) (st_value t) category.
Definition with_optional (optional : bool) (t : SearchTerm) : SearchTerm :=
  mkTerm optional (st_value t) (st_category t).
Definition is_optional (t : SearchTerm) : bool := st_optional t.

(** [impl From<S> for SearchTerm] *)
Definition term_from (value : string) : SearchTerm :=
  let '(term, optional) :=
    match strip_prefix "+" value with
    | Some rest => if String.eqb rest "" then (value, true) else (rest, false)
    | None => (value, true)
    end in
  let '(term, category) :=
    match split_once ":" term with
    | Some (category, new_term) =>
        if String.eqb category "" || String.eqb new_term "" then (term, None)
        else (new_term, Some category)
    | None => (term, None)
    end in
  with_category category (with_optional optional (term_new term)).

Definition term_to_string (t : SearchTerm) : string :=
  (if st_optional t then "" else "+") +:+
  (match st_category t with Some cat => cat +:+ ":" | None => "" end) +:+ st_value t.

(** [FromIterator]: [partition] on the [optional] flag. *)
Definition with_terms (terms : list SearchTerm) : Search :=
  mkSearch (filter (λ t, st_optional t = false) terms) (filter (λ t, st_optional t = true) terms).
Definition search_new : Search := with_terms [].
Definition search_from (value : string) : Search :=
  with_terms (map term_from (split_whitespace value)).

Definition is_empty (s : Search) : bool :=
  match required_terms s, optional_terms s with [], [] => true | _, _ => false end.

Definition add_term (t : SearchTerm) (s : Search) : Search :=
  if is_optional t then mkSearch (required_terms s) (optional_terms s ++ [t])
  else mkSearch (required_terms s ++ [t]) (optional_terms s).

Definition search_to_string (s : Search) : string :=
  str_join " " (map term_to_string (required_terms s ++ optional_terms s)).

(** [iter().map(f).any(|b| b == stop)]: call [f] until it answers [stop]. *)
Fixpoint any_until {S} (f : SearchTerm → S → bool * S) (stop : bool) (l : list SearchTerm) (st : S) :
    bool * S :=
  match l with
  | [] => (false, st)
  | t :: l' =>
      let '(b, st') := f t st in
      if Bool.eqb b stop then (true, st') else any_until f stop l' st'
  end.

Definition search_matches {S} (f : SearchTerm → S → bool * S) (s : Search) (st : S) : bool * S :=
  if is_empty s then (true, st) else
  let '(failed, st) := any_until f false (required_terms s) st in
  if failed then (false, st) else
  if bool_decide (optional_terms s = []) then (true, st) else
  (* [all(|f| !f)] is true if no answer was [true] *)
  any_until f true (optional_terms s) st.

(** A closure without state. *)
Definition matches_pure (f : SearchTerm → bool) (s : Search) : bool :=
  fst (search_matches (λ t u, (f t, u)) s tt).

Lemma any_until_pure f stop l :
  fst (any_until (λ t (u : unit), (f t, u)) stop l tt) = existsb (λ t, Bool.eqb (f t) stop) l.
Proof. induction l as [|t l IH]; simpl; [done|]. by destruct (Bool.eqb (f t) stop). Qed.

Lemma matches_pure_eq f s :
  matches_pure f s =
  forallb f (required_terms s) && (bool_decide (optional_terms s = []) || existsb f (optional_terms s)).
Proof.
  unfold matches_pure, search_matches.
  assert (∀ l, forallb f l = negb (existsb (λ t, Bool.eqb (f t) false) l)) as Hall.
  { induction l as [|t l IH]; simpl; [done|]. rewrite IH. by destruct (f t). }
  assert (∀ l, existsb f l = existsb (λ t, Bool.eqb (f t) true) l) as Hany.
  { induction l as [|t l IH]; simpl; [done|]. rewrite IH. by destruct (f t). }
  rewrite Hall, Hany. destruct s as [req opt]; unfold is_empty; simpl.
  pose proof (any_until_pure f false req) as Hr. pose proof (any_until_pure f true opt) as Ho.
  destruct (any_until _ false req tt) as [fb []]. destruct (any_until _ true opt tt) as [tb []].
  simpl in Hr, Ho. rewrite <-Hr, <-Ho.
  destruct req, opt, fb; simpl in *; by simplify_eq/=.
Qed.

(** ** Printing and parsing *)

Lemma term_print_parse w : term_to_string (term_from w) = w.
Proof.
  unfold term_from, term_to_string.
  destruct (strip_prefix "+" w) as [rest|] eqn:Ep.
  - apply strip_prefix_Some in Ep as ->. destruct (String.eqb_spec rest "") as [->|]; [done|].
    destruct (split_once ":" rest) as [[c v]|] eqn:Ec; [|done].
    apply split_once_Some in Ec as [-> _].
    destruct (String.eqb c "" || String.eqb v ""); simpl; [done|].
    by rewrite str_app_assoc.
  - destruct (split_once ":" w) as [[c v]|] eqn:Ec; [|done].
    apply split_once_Some in Ec as [-> _].
    destruct (String.eqb c "" || String.eqb v ""); simpl; [done|].
    by rewrite str_app_assoc.
Qed.

Section words.
Local Open Scope string_scope.

(** No position of the string starts a white-space character. *)
Fixpoint no_ws (s : string) : bool :=
  match s with
  | EmptyString => true
  | String _ s' => (ws_len s =? 0)%nat && no_ws s'
  end.
Definition word_ok (w : string) : Prop := w ≠ "" ∧ no_ws w = true.

Lemma ws_len_app t u : ws_len (t +:+ u) = 0%nat → ws_len t = 0%nat.
Proof.
  destruct t as [|a [|b [|c t]]]; simpl; [done|..].
  - by destruct (ws1 a).
  - destruct (ws1 a), (ws2 a b); done.
  - done.
Qed.

Lemma ws_len_space a t r :
  ws_len (String a t) = 0%nat → ws_len (String a t +:+ String " " r) = 0%nat.
Proof.
  destruct t as [|b [|c t]]; simpl; [..|done].
  - destruct (ws1 a); [done|]. intros _. unfold ws2. simpl. rewrite andb_false_r.
    destruct r as [|c r]; [done|]. unfold ws3. simpl. by rewrite !andb_false_r.
  - destruct (ws1 a); [done|]. destruct (ws2 a b); [done|]. intros _.
    unfold ws3. simpl. by rewrite !andb_false_r.
Qed.

Fixpoint free (cur s : string) : Prop :=
  match cur with
  | EmptyString => True
  | String a cur' => ws_len (cur +:+ s) = 0%nat ∧ free cur' s
  end.

Lemma free_no_ws cur s : free cur s → no_ws cur = true.
Proof.
  induction cur as [|a cur IH]; [done|]. intros [Hl Hf].
  apply ws_len_app in Hl. cbn [no_ws]. rewrite Hl. by apply IH.
Qed.

Lemma free_step cur a s :
  free cur (String a s) → ws_len (String a s) = 0%nat → free (cur +:+ String a "") s.
Proof.
  induction cur as [|b cur IH]; [done|]. intros [Hl Hf] Ha. split; [|by apply IH].
  cbn [String.append] in *. rewrite str_app_assoc. done.
Qed.

Lemma flush_words cur s : free cur s → Forall word_ok (flush cur).
Proof.
  unfold flush. intros Hf. destruct (String.eqb_spec cur ""); [constructor|].
  repeat constructor; [done|]. by eapply free_no_ws.
Qed.

Lemma split_ws_words skip cur s :
  (skip = 0%nat ∨ cur = "") → free cur s → Forall word_ok (split_ws skip cur s).
Proof.
  revert skip cur. induction s as [|a s IH]; intros skip cur Hskip Hf; cbn [split_ws].
  { by eapply flush_words. }
  destruct skip as [|k].
  - destruct (ws_len (String a s)) as [|k] eqn:E.
    + apply IH; [by left|]. by apply free_step.
    + apply Forall_app. split; [by eapply flush_words|]. apply IH; [by right|done].
  - destruct Hskip as [?| ->]; [done|]. apply IH; [by right|done].
Qed.

Lemma split_whitespace_words s : Forall word_ok (split_whitespace s).
Proof. apply split_ws_words; [by left|done]. Qed.

Lemma split_ws_word w cur s :
  no_ws w = true → (s = "" ∨ ∃ r, s = String " " r) →
  split_ws 0 cur (w +:+ s) = split_ws 0 (cur +:+ w) s.
Proof.
  revert cur. induction w as [|a w IH]; intros cur Hw Hs.
  { by rewrite str_app_nil_r. }
  cbn [no_ws] in Hw. apply andb_true_iff in Hw as [Ha%Nat.eqb_eq Hw].
  assert (ws_len (String a w +:+ s) = 0%nat) as Hl.
  { destruct Hs as [->|[r ->]]; [by rewrite str_app_nil_r|by apply ws_len_space]. }
  cbn [String.append split_ws] in *. rewrite Hl, IH by done. f_equal.
  by rewrite str_app_assoc.
Qed.

Lemma split_join l : Forall word_ok l → split_whitespace (str_join " " l) = l.
Proof.
  unfold split_whitespace. induction 1 as [|w l [Hne Hw] Hl IH]; [done|].
  assert (flush w = [w]) as Hflush.
  { unfold flush. by destruct (String.eqb_spec w ""). }
  destruct l as [|w' l].
  - cbn [str_join]. rewrite <-(str_app_nil_r w) at 1. rewrite split_ws_word by auto. done.
  - change (str_join " " (w :: w' :: l)) with (w +:+ String " " (str_join " " (w' :: l))).
    rewrite split_ws_word by eauto.
    cbn [split_ws String.append].
    change ((flush w ++ split_ws 0 "" (str_join " " (w' :: l)))%list = w :: w' :: l).
    by rewrite IH, Hflush.
Qed.
End words.

Lemma filter_map_pred {A B} (f : A → B) (P : B → Prop) `{!∀ x, Decision (P x)} (l : list A) :
  filter P (map f l) = map f (filter (λ x, P (f x)) l).
Proof.
  induction l as [|x l IH]; [done|]. cbn [map]. rewrite !filter_cons.
  destruct (decide (P (f x))); cbn [map]; by rewrite IH.
Qed.

Lemma filter_all {A} (P : A → Prop) `{!∀ x, Decision (P x)} (l : list A) : Forall P l → filter P l = l.
Proof. induction 1; [done|]. rewrite filter_cons_True by done. by f_equal. Qed.

Lemma filter_none {A} (P : A → Prop) `{!∀ x, Decision (P x)} (l : list A) :
  Forall (λ x, ¬ P x) l → filter P l = [].
Proof. induction 1; [done|]. by rewrite filter_cons_False by done. Qed.

(** Splitting an already partitioned list of terms gives its two parts back. *)
Lemma with_terms_parts s :
  Forall (λ t, st_optional t = false) (required_terms s) →
  Forall (λ t, st_optional t = true) (optional_terms s) →
  with_terms (required_terms s ++ optional_terms s) = s.
Proof.
  intros Hr Ho. destruct s as [req opt]; simpl in *. unfold with_terms.
  rewrite !filter_app, (filter_all _ req Hr), (filter_all _ opt Ho).
  rewrite (filter_none _ req), (filter_none _ opt), app_nil_r; [done|..].
  - eapply Forall_impl; [exact Ho|]. simpl. congruence.
  - eapply Forall_impl; [exact Hr|]. simpl. congruence.
Qed.

Lemma with_terms_perm l : required_terms (with_terms l) ++ optional_terms (with_terms l) ≡ₚ l.
Proof.
  induction l as [|t l IH]; [done|]. simpl in *. rewrite !filter_cons. destruct (st_optional t) eqn:E.
  - rewrite decide_False, decide_True by done. rewrite <-Permutation_middle. by f_equiv.
  - rewrite decide_True, decide_False by done. simpl. by f_equiv.
Qed.

(** The terms of a parsed search are the parsed words, some first. *)
Definition parsed (t : SearchTerm) : Prop := word_ok (term_to_string t) ∧ term_from (term_to_string t) = t.

Lemma search_from_parsed value :
  Forall parsed (required_terms (search_from value) ++ optional_terms (search_from value)).
Proof.
  assert (Forall parsed (map term_from (split_whitespace value))) as Hall.
  { apply Forall_map. eapply Forall_impl; [apply split_whitespace_words|].
    intros w Hw. unfold parsed. simpl. by rewrite term_print_parse. }
  rewrite Forall_forall in Hall |- *. intros t Ht. apply Hall. revert Ht. simpl.
  rewrite elem_of_app, !list_elem_of_filter. tauto.
Qed.

Lemma search_print_parse s :
  Forall (λ t, st_optional t = false) (required_terms s) →
  Forall (λ t, st_optional t = true) (optional_terms s) →
  Forall parsed (required_terms s ++ optional_terms s) →
  search_from (search_to_string s) = s.
Proof.
  intros Hr Ho Hp. unfold search_from, search_to_string.
  rewrite split_join by (apply Forall_map; eapply Forall_impl; [exact Hp|]; by intros t [? _]).
  etrans; [|exact (with_terms_parts s Hr Ho)]. f_equal. rewrite map_map.
  etrans; [|apply map_id]. apply map_ext_Forall. eapply Forall_impl; [exact Hp|]. by intros t [_ ?].
Qed.

(** A search written out and parsed again is the same search, for every text:
    words are split at any Unicode white space, a leading [+], a category and
    colons in odd places included.  The words of the text are kept verbatim, the
    required ones first. *)
Theorem search_roundtrip value :
  search_from (search_to_string (search_from value)) = search_from value ∧
  map term_to_string (required_terms (search_from value) ++ optional_terms (search_from value))
    ≡ₚ split_whitespace value.
Proof.
  split.
  - apply search_print_parse; [..|apply search_from_parsed]; simpl;
      apply Forall_forall; intros t Ht; by apply list_elem_of_filter in Ht as [? _].
  - simpl. etrans.
    { apply Permutation_map, with_terms_perm. }
    rewrite map_map. erewrite map_ext; [by rewrite map_id|]. apply term_print_parse.
Qed.

(** What a search means, for a closure without state: every required term matches
    and, if there are optional terms, at least one of them. *)
Lemma matches_pure_true (f : SearchTerm → bool) (s : Search) :
  matches_pure f s = true ↔
  (∀ t, t ∈ required_terms s → f t = true) ∧
  (optional_terms s = [] ∨ ∃ t, t ∈ optional_terms s ∧ f t = true).
Proof.
  rewrite matches_pure_eq, andb_true_iff, orb_true_iff, forallb_forall, existsb_exists, bool_decide_eq_true.
  setoid_rewrite <-list_elem_of_In. naive_solver.
Qed.
