(* ===== verification/ResourceList.v ===== *)
(** * Listing resources: privileges, views, search

    Model of the first half of [server/src/api/resources.rs]: the resources of all
    remotes a caller may see, filtered by a view and by a search.

    What a remote answers is the argument [fetch]: the result of
    [get_resources_for_remote] in the task that was spawned for the remote, with
    the text of its root cause if it failed.  The views are read twice by a
    request, hence the two arguments [views1] and [views2].  Loading the access
    configuration may fail, which only adds requests that end with an error.

    Not under [src/], hence parameters: the caller's privileges (record [user]),
    Unicode lower casing and [parse_boolean] of [proxmox_schema] (class [TextOps]),
    [SAFE_ID_REGEX] and the section configuration. *)

From S2P Require Import Prelude FileSystem RemoteUpid SectionConfig Resource Views Search.

(** ** Parameters *)

Class TextOps := {
  to_lowercase : string → string;
  parse_boolean : string → option bool;
}.

Definition ascii_lower_char (a : ascii) : bool := byte_between 97 122 a || Ascii.eqb a "-".

(** Lower case text stays as it is, and no character vanishes. *)
Class TextLaws `{TextOps} : Prop := {
  to_lowercase_id s : str_forall ascii_lower_char s = true → to_lowercase s = s;
  to_lowercase_nonempty s : s ≠ ""%string → to_lowercase s ≠ ""%string;
}.

(** [CachedUserInfo], for the user of a request. *)
Record user : Type := mkUser {
  lookup_privs : list string → Z;
  check_privs : list string → Z → result error unit;
  any_privs_below : list string → Z → result error bool;
}.

(** The fifth bit of [PRIVILEGES]. *)
Definition PRIV_RESOURCE_AUDIT : Z := Z.shiftl 1 4.

(** A configured remote, with the fields that are read here. *)
Record Remote : Type := mkRemote {
  rm_id : string;
  rm_ty : RemoteType.t;
}.

(** ** Matching search terms *)

Module MatchCategory.
Inductive t : Type :=
| Type_ | NetworkType | Name | Id | Status | Template | Remote | RemoteType | Property | View.

Definition from_str (s : string) : option t :=
  if String.eqb s "type" then Some Type_
  else if String.eqb s "network-type" then Some NetworkType
  else if String.eqb s "name" then Some Name
  else if String.eqb s "id" then Some Id
  else if String.eqb s "status" then Some Status
  else if String.eqb s "template" then Some Template
  else if String.eqb s "remote" then Some Remote
  else if String.eqb s "remote-type" then Some RemoteType
  else if String.eqb s "property" then Some Property
  else if String.eqb s "view" then Some View
  else None.
End MatchCategory.

Section search.
Context `{TextOps} `{NetworkTypeNames}.

Definition category_matches (c : MatchCategory.t) (value search_term : string) : bool :=
  match c with
  | MatchCategory.Type_ | MatchCategory.Status | MatchCategory.NetworkType =>
      starts_with (to_lowercase search_term) (to_lowercase value)
  | MatchCategory.Name | MatchCategory.Id | MatchCategory.Remote =>
      str_contains (to_lowercase search_term) (to_lowercase value)
  | MatchCategory.Template =>
      match parse_boolean value, parse_boolean search_term with
      | Some a, Some b => Bool.eqb a b
      | _, _ => false
      end
  | MatchCategory.RemoteType =>
      match RemoteType.from_str value, RemoteType.from_str search_term with
      | Ok a, Ok b => bool_decide (a = b)
      | _, _ => false
      end
  | MatchCategory.Property =>
      existsb (λ property, String.eqb property (to_lowercase search_term))
        (str_split (Ascii.eqb ",") (to_lowercase value))
  | MatchCategory.View => true
  end.

(** [term.category.as_deref().map(|c| c.parse())]; [Some None] is an invalid category. *)
Definition term_category (term : SearchTerm) : option (option MatchCategory.t) :=
  MatchCategory.from_str <$> st_category term.

Definition bool_to_string (b : bool) : string := if b then "true" else "false".

(** [None] if the term cannot be decided for a resource. *)
Definition resource_matches_search_term (remote_name : string) (resource : Resource)
    (term : SearchTerm) : option bool :=
  match term_category term with
  | Some (Some category) =>
      let m value := category_matches category value (st_value term) in
      match category with
      | MatchCategory.Type_ => Some (m (ResourceType.as_str (resource_type resource)))
      | MatchCategory.Name => Some (m (name resource))
      | MatchCategory.Id => Some (m (id resource))
      | MatchCategory.Status => Some (m (status resource))
      | MatchCategory.Property => Some (m (properties resource))
      | MatchCategory.Template =>
          match resource with
          | PveQemu g | PveLxc g => Some (m (bool_to_string (gr_template g)))
          | _ => Some false
          end
      | MatchCategory.Remote => Some (m remote_name)
      | MatchCategory.RemoteType => None
      | MatchCategory.NetworkType =>
          match resource with
          | PveNetwork n => Some (m (network_type_as_str (network_type n)))
          | _ => Some false
          end
      | MatchCategory.View => None
      end
  | Some None => Some false
  | None =>
      Some (category_matches MatchCategory.Name (name resource) (st_value term)
            || category_matches MatchCategory.Id (id resource) (st_value term))
  end.

Definition remote_matches_search_term (remote_name : string) (remote : Remote) (online : option bool)
    (term : SearchTerm) : bool :=
  match term_category term with
  | Some (Some category) =>
      let m value := category_matches category value (st_value term) in
      match category with
      | MatchCategory.Type_ => m "remote"%string
      | MatchCategory.Name | MatchCategory.Remote | MatchCategory.Id => m remote_name
      | MatchCategory.Status =>
          match online with
          | Some true => m "online"%string
          | Some false => m "offline"%string
          | None => true
          end
      | MatchCategory.Property => false
      | MatchCategory.Template => false
      | MatchCategory.RemoteType => m (RemoteType.to_string (rm_ty remote))
      | MatchCategory.NetworkType => false
      | MatchCategory.View => true
      end
  | Some None => false
  | None =>
      category_matches MatchCategory.Name remote_name (st_value term)
      || category_matches MatchCategory.Type_ "remote" (st_value term)
  end.

Definition remote_type_matches_search_term (remote_type : RemoteType.t) (term : SearchTerm) : bool :=
  match term_category term with
  | Some (Some MatchCategory.RemoteType) =>
      category_matches MatchCategory.RemoteType (RemoteType.to_string remote_type) (st_value term)
  | Some (Some _) => true
  | Some None => false
  | None => true
  end.

(** Does a term ask for the type "remote"? *)
Definition is_type_remote (term : SearchTerm) : bool :=
  match term_category term with
  | Some (Some MatchCategory.Type_) => category_matches MatchCategory.Type_ "remote" (st_value term)
  | _ => false
  end.

(** The closure of [is_remotes_only] over [is_required], [optional_matches] and
    [optional_terms]. *)
Definition count_term (term : SearchTerm) (st : bool * Z * Z) : bool * (bool * Z * Z) :=
  let '(is_required, optional_matches, optional_terms) := st in
  let optional_terms := if is_optional term then optional_terms + 1 else optional_terms in
  let '(is_required, optional_matches) :=
    if is_type_remote term then
      if negb (is_optional term) then (true, optional_matches)
      else (is_required, optional_matches + 1)
    else (is_required, optional_matches) in
  (negb (is_optional term), (is_required, optional_matches, optional_terms)).

Definition is_remotes_only (filters : Search) : bool :=
  let '(is_required, optional_matches, optional_terms) :=
    snd (search_matches count_term filters (false, 0, 0)) in
  is_required || ((0 <? optional_matches) && (optional_matches =? optional_terms)).

(** The closure that looks for a [view:] term. *)
Definition find_view_term (term : SearchTerm) (st : option string) : bool * option string :=
  (true,
   match st_category term with
   | Some c => if String.eqb c "view" then Some (st_value term) else st
   | None => st
   end).

Definition view_filter_from_search (filters : Search) : option string :=
  snd (search_matches find_view_term filters None).
End search.

(** ** The listing *)

Record RemoteWithResources : Type := mkRWR {
  rw_remote_name : string;
  rw_remote : Remote;
  rw_resources : list Resource;
  rw_error : option string;
}.

Record RemoteResources : Type := mkRemoteResources {
  rr_remote : string;
  rr_error : option string;
  rr_resources : list Resource;
}.
Definition into_remote_resources (v : RemoteWithResources) : RemoteResources :=
  mkRemoteResources (rw_remote_name v) (rw_error v) (rw_resources v).

Section listing.
Context `{TextOps} `{NetworkTypeNames} {C : Type} `{SectionConfigData C ViewConfig}.

(** What [get_resources_for_remote] returned in this request. *)
Variable fetch : Remote → result string (list Resource).

(** The closure given to [retain] in the task of a remote. *)
Definition keep_resource (resource_type_filter : option ResourceType.t) (filters : Search)
    (remote_name : string) (resource : Resource) : bool :=
  match resource_type_filter with
  | Some ty => bool_decide (resource_type resource = ty)
  | None => true
  end &&
  matches_pure (λ term, default true (resource_matches_search_term remote_name resource term)) filters.

(** The task of a remote. *)
Definition remote_task (remotes_only : bool) (resource_type_filter : option ResourceType.t)
    (filters : Search) (remote_name : string) (remote : Remote) : RemoteWithResources :=
  let '(resources, error) :=
    match fetch remote with
    | Ok resources => (resources, None)
    | Err error => ([], Some error)
    end in
  let resources :=
    if remotes_only then []
    else if bool_decide (is_Some resource_type_filter) || negb (is_empty filters) then
      List.filter (keep_resource resource_type_filter filters remote_name) resources
    else resources in
  mkRWR remote_name remote resources error.

(** The checks of the loop over the remotes, before a task is spawned. *)
Definition remote_wanted (opt_user : option user) (view : option ViewConfig) (filters : Search)
    (remotes_only : bool) (remote_name : string) (remote : Remote) : bool :=
  (match view with
   | Some view => negb (can_skip_remote view remote_name)
   | None =>
       match opt_user with
       | Some u =>
           negb (Z.land (lookup_privs u ["resource"%string; remote_name]) PRIV_RESOURCE_AUDIT =? 0)
       | None => true
       end
   end) &&
  matches_pure (remote_type_matches_search_term (rm_ty remote)) filters &&
  negb (remotes_only && negb (matches_pure (remote_matches_search_term remote_name remote None) filters)).

(** Whether the result of a task is kept. *)
Definition keep_remote (filters : Search) (r : RemoteWithResources) : bool :=
  is_empty filters ||
  negb (bool_decide (rw_resources r = [])) ||
  matches_pure
    (remote_matches_search_term (rw_remote_name r) (rw_remote r) (Some (bool_decide (rw_error r = None))))
    filters.

(** The final [retain_mut]. *)
Definition apply_view (view : ViewConfig) (r : RemoteWithResources) : option RemoteWithResources :=
  let resources := List.filter (resource_matches view (rw_remote_name r)) (rw_resources r) in
  if negb (bool_decide (resources = [])) ||
     (bool_decide (is_Some (rw_error r)) && is_remote_explicitly_included view (rw_remote_name r))
  then Some (mkRWR (rw_remote_name r) (rw_remote r) resources (rw_error r))
  else None.

(** The access check at the start; [Some] of the user, or [None] for a call from
    inside the server. [rpcenv] holds the user, or the error of finding him. *)
Definition check_access (rpcenv : option (result error user)) (view : option string) :
    result error (option user) :=
  match rpcenv with
  | None => Ok None
  | Some auth =>
      u ← auth;
      _ ← match view with
          | Some view => check_privs u ["view"%string; view] PRIV_RESOURCE_AUDIT
          | None =>
              any ← any_privs_below u ["resource"%string] PRIV_RESOURCE_AUDIT;
              bail_if (negb any) (EMsg "user has no access to resources")
          end;
      Ok (Some u)
  end.

Definition list_remotes (opt_user : option user) (resource_type_filter : option ResourceType.t)
    (view : option ViewConfig) (filters : Search) (remotes : list (string * Remote)) :
    list RemoteWithResources :=
  let remotes_only := is_remotes_only filters in
  let wanted := List.filter (λ '(n, r), remote_wanted opt_user view filters remotes_only n r) remotes in
  let tasks := map (λ '(n, r), remote_task remotes_only resource_type_filter filters n r) wanted in
  let remote_resources := List.filter (keep_remote filters) tasks in
  match view with
  | Some view => omap (M:=list) (apply_view view) remote_resources
  | None => remote_resources
  end.

Definition get_resources_impl (search : option string) (resource_type_filter : option ResourceType.t)
    (view : option string) (rpcenv : option (result error user))
    (remotes_config : result error (list (string * Remote))) (views1 views2 : result error C) :
    result error (list RemoteWithResources) :=
  opt_user ← check_access rpcenv view;
  remotes ← remotes_config;
  let filters := match search with Some s => search_from s | None => search_new end in
  view1 ← get_optional_view views1 view;
  view2 ← get_optional_view views2 (view_filter_from_search filters);
  let view := match view1 with Some v => Some v | None => view2 end in
  Ok (list_remotes opt_user resource_type_filter view filters remotes).

Definition get_resources (search : option string) (resource_type_filter : option ResourceType.t)
    (view : option string) (auth : result error user)
    (remotes_config : result error (list (string * Remote))) (views1 views2 : result error C) :
    result error (list RemoteResources) :=
  l ← get_resources_impl search resource_type_filter view (Some auth) remotes_config views1 views2;
  Ok (map into_remote_resources l).
End listing.

(** ** The shortcuts change nothing *)

(** A parsed search: terms are in the right part, and a term with a category has
    a value. *)
Definition term_wf (t : SearchTerm) : Prop := is_Some (st_category t) → st_value t ≠ ""%string.
Definition search_wf (s : Search) : Prop :=
  Forall (λ t, st_optional t = false ∧ term_wf t) (required_terms s) ∧
  Forall (λ t, st_optional t = true ∧ term_wf t) (optional_terms s).

Lemma term_from_wf w : term_wf (term_from w).
Proof.
  unfold term_from, term_wf.
  destruct (match strip_prefix "+" w with Some _ => _ | None => _ end) as [term o].
  destruct (split_once ":" term) as [[c v]|]; [|by intros [? ?]].
  destruct (String.eqb c ""); simpl; [by intros [? ?]|].
  destruct (String.eqb_spec v ""); simpl; [by intros [? ?]|done].
Qed.

Lemma search_from_wf s : search_wf (search_from s).
Proof.
  split; simpl; apply Forall_forall; intros t [Ho Ht]%list_elem_of_filter; (split; [done|]);
    apply list_elem_of_fmap in Ht as (w & -> & _); apply term_from_wf.
Qed.

Definition search_or_new (search : option string) : Search :=
  match search with Some s => search_from s | None => search_new end.

Lemma search_or_new_wf search : search_wf (search_or_new search).
Proof. destruct search; [apply search_from_wf|]. split; constructor. Qed.

Lemma matches_pure_mono f g s :
  (∀ t, f t = true → g t = true) → matches_pure f s = true → matches_pure g s = true.
Proof. rewrite !matches_pure_true. naive_solver. Qed.

Section shortcuts.
Context `{TextLaws} `{NetworkTypeNames}.

Lemma count_required l b m k :
  Forall (λ t, st_optional t = false ∧ term_wf t) l →
  any_until count_term false l (b, m, k) = (false, (b || existsb is_type_remote l, m, k)).
Proof.
  intros Hl. revert b. induction Hl as [|t l [Ho _] Hl IH]; intros b; simpl; [by rewrite orb_false_r|].
  unfold count_term at 1, is_optional. rewrite Ho. simpl.
  destruct (is_type_remote t); simpl; rewrite IH; [by rewrite orb_true_r|done].
Qed.

Lemma count_optional_term t b m k :
  st_optional t = true →
  count_term t (b, m, k) = (false, (b, if is_type_remote t then m + 1 else m, k + 1)).
Proof. intros Ho. unfold count_term, is_optional. rewrite Ho. by destruct (is_type_remote t). Qed.

Lemma count_optional l b m k :
  Forall (λ t, st_optional t = true ∧ term_wf t) l →
  any_until count_term true l (b, m, k) =
  (false, (b, m + Z.of_nat (length (List.filter is_type_remote l)), k + Z.of_nat (length l))).
Proof.
  intros Hl. revert m k. induction Hl as [|t l [Ho _] Hl IH]; intros m k.
  { simpl. by rewrite !Z.add_0_r. }
  cbn [any_until]. rewrite count_optional_term by done. cbn [Bool.eqb List.filter].
  destruct (is_type_remote t); rewrite IH; cbn [length]; repeat first [lia|f_equal].
Qed.

Lemma filter_length_all {A} (f : A → bool) l :
  (length (List.filter f l) ≤ length l)%nat ∧
  (length (List.filter f l) = length l → forallb f l = true).
Proof.
  induction l as [|x l [IHle IHeq]]; simpl; [done|].
  destruct (f x); simpl; [|split; lia]. split; [lia|]. intros ?. apply IHeq. lia.
Qed.

(** [is_remotes_only] is true when a required term, or every optional term (and
    there is one), asks for remotes. *)
Lemma is_remotes_only_inv s :
  search_wf s → is_remotes_only s = true →
  existsb is_type_remote (required_terms s) = true ∨
  (optional_terms s ≠ [] ∧ forallb is_type_remote (optional_terms s) = true).
Proof.
  intros [Hr Ho] Hro. unfold is_remotes_only, search_matches in Hro. revert Hro.
  destruct (is_empty s); [done|]. rewrite count_required by done. simpl.
  destruct (existsb is_type_remote (required_terms s)) eqn:E; [by left|]. intros Hro. right. revert Hro.
  case_bool_decide as Hne; [done|]. rewrite count_optional by done. simpl.
  intros [Hpos Heq]%andb_true_iff. split; [done|].
  apply filter_length_all. lia.
Qed.

Lemma starts_with_r (t s : string) :
  t ≠ ""%string → starts_with t "remote" = true → starts_with "r" s = false → starts_with t s = false.
Proof.
  unfold starts_with. destruct t as [|a t]; [done|]. intros _. simpl.
  destruct (Ascii.eqb_spec a "r") as [->|]; [|done]. intros _.
  destruct s as [|b s]; simpl; [done|]. destruct (Ascii.eqb "r" b); [|done]. by destruct s.
Qed.

Lemma type_remote_no_resource t remote r :
  term_wf t → is_type_remote t = true → resource_matches_search_term remote r t = Some false.
Proof.
  unfold is_type_remote, resource_matches_search_term, term_category. intros Hwf Ht.
  destruct (st_category t) as [c|] eqn:Ec; simpl in *; [|done].
  destruct (MatchCategory.from_str c) as [[]|]; try done. simpl in *. f_equal.
  assert (st_value t ≠ ""%string) as Hv by (apply Hwf; by eexists).
  apply to_lowercase_nonempty in Hv.
  rewrite (to_lowercase_id "remote") in Ht by done.
  rewrite (to_lowercase_id (ResourceType.as_str _)) by by destruct r.
  apply starts_with_r; [done..|]. by destruct r.
Qed.

Lemma remotes_only_no_resource s ty remote r :
  search_wf s → is_remotes_only s = true → keep_resource ty s remote r = false.
Proof.
  intros Hwf Hro. unfold keep_resource. apply andb_false_iff. right.
  apply not_true_is_false. rewrite matches_pure_true. intros [Hreq Hopt].
  destruct (is_remotes_only_inv s Hwf Hro) as [Hex|[Hne Hall]]; destruct Hwf as [Hwr Hwo].
  - apply existsb_exists in Hex as (t & Hin%list_elem_of_In & Ht).
    rewrite Forall_forall in Hwr. destruct (Hwr t Hin) as [_ Hwf].
    specialize (Hreq t Hin). by rewrite type_remote_no_resource in Hreq.
  - destruct Hopt as [?|(t & Hin & Hm)]; [done|].
    rewrite Forall_forall in Hwo. destruct (Hwo t Hin) as [_ Hwf].
    rewrite forallb_forall in Hall. specialize (Hall t (proj1 (list_elem_of_In _ _) Hin)).
    by rewrite type_remote_no_resource in Hm.
Qed.

Lemma remotes_only_not_empty s : is_remotes_only s = true → is_empty s = false.
Proof. unfold is_remotes_only, search_matches. by destruct (is_empty s). Qed.

(** The listing without its shortcuts: a remote is looked at when the caller may
    see it and its type fits the search; every resource is put through the
    search; and the view is applied to what is left. *)
Definition remote_allowed (opt_user : option user) (view : option ViewConfig) (remote_name : string) : bool :=
  match view, opt_user with
  | None, Some u => negb (Z.land (lookup_privs u ["resource"%string; remote_name]) PRIV_RESOURCE_AUDIT =? 0)
  | _, _ => true
  end.

Definition list_one (fetch : Remote → result string (list Resource)) opt_user ty view filters
    '(remote_name, remote) : option RemoteWithResources :=
  if negb (remote_allowed opt_user view remote_name &&
           matches_pure (remote_type_matches_search_term (rm_ty remote)) filters) then None else
  let r :=
    match fetch remote with
    | Ok resources =>
        mkRWR remote_name remote (List.filter (keep_resource ty filters remote_name) resources) None
    | Err error => mkRWR remote_name remote [] (Some error)
    end in
  if negb (keep_remote filters r) then None else
  match view with Some view => apply_view view r | None => Some r end.

Definition list_remotes_spec (fetch : Remote → result string (list Resource)) opt_user ty view filters
    (remotes : list (string * Remote)) : list RemoteWithResources :=
  omap (M:=list) (list_one fetch opt_user ty view filters) remotes.

Lemma apply_view_skipped view r :
  can_skip_remote view (rw_remote_name r) = true → apply_view view r = None.
Proof.
  intros Hs. unfold apply_view.
  assert (List.filter (resource_matches view (rw_remote_name r)) (rw_resources r) = []) as ->.
  { induction (rw_resources r) as [|x l IH]; simpl; [done|].
    unfold resource_matches at 1. by rewrite can_skip_remote_data. }
  rewrite can_skip_explicit by done. simpl. by rewrite andb_false_r.
Qed.

Lemma remote_matches_offline remote_name remote b t :
  remote_matches_search_term remote_name remote (Some b) t = true →
  remote_matches_search_term remote_name remote None t = true.
Proof.
  unfold remote_matches_search_term. by destruct (term_category t) as [[[]|]|].
Qed.

Lemma filter_keep_nothing ty s remote l :
  search_wf s → is_remotes_only s = true → List.filter (keep_resource ty s remote) l = [].
Proof.
  intros ? ?. induction l as [|x l IH]; simpl; [done|]. by rewrite remotes_only_no_resource.
Qed.

Lemma filter_keep_all ty s remote l :
  bool_decide (is_Some ty) || negb (is_empty s) = false → List.filter (keep_resource ty s remote) l = l.
Proof.
  intros [Ht He%negb_false_iff]%orb_false_iff. destruct ty; [done|].
  destruct s as [[|] [|]]; try done.
  induction l as [|x l IH]; simpl; [done|]. by f_equal.
Qed.

(** What the impl does for one remote. *)
Definition impl_one fetch opt_user ty view filters '(n, r) : option RemoteWithResources :=
  let ro := is_remotes_only filters in
  if remote_wanted opt_user view filters ro n r then
    let t := remote_task fetch ro ty filters n r in
    if keep_remote filters t then match view with Some v => apply_view v t | None => Some t end
    else None
  else None.

Lemma list_remotes_omap fetch opt_user ty view filters remotes :
  list_remotes fetch opt_user ty view filters remotes =
  omap (M:=list) (impl_one fetch opt_user ty view filters) remotes.
Proof.
  unfold list_remotes. induction remotes as [|[n r] l IH]; [by destruct view|].
  cbn [List.filter omap list_omap impl_one].
  destruct (remote_wanted _ _ _ _ n r); [|exact IH]. cbn [map List.filter].
  destruct (keep_remote filters _); [|exact IH].
  destruct view as [v|]; cbn [omap list_omap].
  - destruct (apply_view v _); by rewrite <-IH.
  - by rewrite <-IH.
Qed.

(** The result of a task when nothing is skipped. *)
Definition plain_task (fetch : Remote → result string (list Resource)) ty filters remote_name remote :
    RemoteWithResources :=
  match fetch remote with
  | Ok resources =>
      mkRWR remote_name remote (List.filter (keep_resource ty filters remote_name) resources) None
  | Err error => mkRWR remote_name remote [] (Some error)
  end.

Lemma remote_task_plain fetch ty filters n r :
  search_wf filters →
  remote_task fetch (is_remotes_only filters) ty filters n r = plain_task fetch ty filters n r.
Proof.
  intros Hwf. unfold remote_task, plain_task. destruct (fetch r) as [l|e].
  - destruct (is_remotes_only filters) eqn:E; [by rewrite filter_keep_nothing|].
    destruct (bool_decide (is_Some ty) || negb (is_empty filters)) eqn:Ef; [done|].
    by rewrite filter_keep_all.
  - destruct (is_remotes_only filters); [done|]. by destruct (_ || _).
Qed.

Lemma plain_task_name fetch ty filters n r : rw_remote_name (plain_task fetch ty filters n r) = n.
Proof. unfold plain_task. by destruct (fetch r). Qed.

Lemma keep_remote_unwanted fetch ty filters n r :
  search_wf filters → is_remotes_only filters = true →
  matches_pure (remote_matches_search_term n r None) filters = false →
  keep_remote filters (plain_task fetch ty filters n r) = false.
Proof.
  intros Hwf Hro Hm. unfold keep_remote. rewrite remotes_only_not_empty by done. simpl.
  assert (∀ b, matches_pure (remote_matches_search_term n r (Some b)) filters = false) as Hb.
  { intros b. apply not_true_is_false. intros Ht. rewrite <-not_true_iff_false in Hm. apply Hm.
    revert Ht. apply matches_pure_mono. intros t. apply remote_matches_offline. }
  unfold plain_task. destruct (fetch r); simpl; [rewrite filter_keep_nothing by done|]; simpl; by rewrite Hb.
Qed.

Lemma impl_one_spec fetch opt_user ty view filters x :
  search_wf filters →
  impl_one fetch opt_user ty view filters x = list_one fetch opt_user ty view filters x.
Proof.
  intros Hwf. destruct x as [n r]. unfold impl_one, list_one, remote_wanted, remote_allowed.
  rewrite remote_task_plain by done. fold (plain_task fetch ty filters n r).
  destruct (matches_pure (remote_type_matches_search_term (rm_ty r)) filters);
    [|by rewrite !andb_false_r].
  rewrite !andb_true_r.
  destruct (is_remotes_only filters && negb (matches_pure (remote_matches_search_term n r None) filters))
    eqn:Eskip; simpl.
  { apply andb_true_iff in Eskip as [Hro Hm%negb_true_iff].
    rewrite keep_remote_unwanted by done. rewrite !andb_false_r. simpl. by destruct (negb _). }
  rewrite andb_true_r. destruct view as [v|].
  - destruct (can_skip_remote v n) eqn:Es; simpl.
    + rewrite apply_view_skipped by by rewrite plain_task_name. by destruct (keep_remote _ _).
    + by destruct (keep_remote _ _).
  - destruct opt_user as [u|]; simpl.
    + destruct (_ =? 0); simpl; [done|]. by destruct (keep_remote _ _).
    + by destruct (keep_remote _ _).
Qed.

Lemma list_remotes_eq fetch opt_user ty view filters remotes :
  search_wf filters →
  list_remotes fetch opt_user ty view filters remotes =
  list_remotes_spec fetch opt_user ty view filters remotes.
Proof.
  intros Hwf. rewrite list_remotes_omap. unfold list_remotes_spec.
  induction remotes as [|x l IH]; [done|]. cbn [omap list_omap]. rewrite impl_one_spec by done.
  destruct (list_one _ _ _ _ _ x); [f_equal|]; exact IH.
Qed.
End shortcuts.

Section listing_claims.
Context `{TextLaws} `{NetworkTypeNames} {C : Type} `{SectionConfigData C ViewConfig}.
Implicit Types (fetch : Remote → result string (list Resource)) (u : user).

Lemma list_one_Some fetch opt_user ty view filters n r x :
  list_one fetch opt_user ty view filters (n, r) = Some x →
  rw_remote_name x = n ∧ rw_remote x = r ∧ remote_allowed opt_user view n = true ∧
  ∀ v, view = Some v →
    Forall (λ res, resource_matches v n res = true) (rw_resources x) ∧
    (rw_resources x ≠ [] ∨ is_Some (rw_error x) ∧ is_remote_explicitly_included v n = true).
Proof.
  cbn [list_one]. fold (plain_task fetch ty filters n r).
  destruct (remote_allowed opt_user view n) eqn:Ea; [|done].
  destruct (matches_pure _ filters); [|done]. cbn [andb negb].
  destruct (keep_remote _ _); [|done]. cbn [negb].
  assert (rw_remote (plain_task fetch ty filters n r) = r) as Hr by (unfold plain_task; by destruct (fetch r)).
  destruct view as [v|].
  - unfold apply_view. rewrite plain_task_name, Hr.
    destruct (negb _ || _) eqn:Ek; [|done]. intros [= <-]. simpl. split_and!; [done..|].
    intros ? [= <-]. split.
    + apply Forall_forall. intros res Hres%list_elem_of_In. by apply filter_In in Hres as [_ ?].
    + apply orb_true_iff in Ek as [Hn%negb_true_iff%bool_decide_eq_false|Hn]; [by left|right].
      apply andb_true_iff in Hn as [Hn%bool_decide_eq_true ?]. done.
  - intros [= <-]. rewrite plain_task_name, Hr. done.
Qed.

Lemma list_remotes_elem fetch opt_user ty view filters remotes x :
  search_wf filters → x ∈ list_remotes fetch opt_user ty view filters remotes →
  (rw_remote_name x, rw_remote x) ∈ remotes ∧ remote_allowed opt_user view (rw_remote_name x) = true ∧
  ∀ v, view = Some v →
    Forall (λ res, resource_matches v (rw_remote_name x) res = true) (rw_resources x) ∧
    (rw_resources x ≠ [] ∨
     is_Some (rw_error x) ∧ is_remote_explicitly_included v (rw_remote_name x) = true).
Proof.
  intros Hwf Hx. rewrite list_remotes_eq in Hx by done.
  apply list_elem_of_omap in Hx as ([n r] & Hin & Hx).
  apply list_one_Some in Hx as (-> & -> & ? & ?). done.
Qed.

(** The shortcuts of the listing are sound: skipping the remotes a view rules
    out, not looking at resources when the search can only match remotes, and
    skipping such remotes before they are queried give the same result, for every
    search text, as filtering everything every visible remote answers. *)
Theorem listing_shortcuts_sound fetch opt_user ty view search remotes :
  list_remotes fetch opt_user ty view (search_or_new search) remotes =
  list_remotes_spec fetch opt_user ty view (search_or_new search) remotes.
Proof. apply list_remotes_eq, search_or_new_wf. Qed.

(** C34: Who sees what: without a view, only remotes are listed for which the caller
    has the audit privilege (provided the search names no view).  With a view, the
    caller has the audit privilege on the view, every resource listed is one the
    view matches, and a remote without resources is listed only if it failed and
    the view includes it explicitly. *)
Theorem listing_access fetch search ty view u remotes (views1 views2 : result error C) l x :
  get_resources_impl fetch search ty view (Some (Ok u)) (Ok remotes) views1 views2 = Ok l →
  x ∈ l →
  (rw_remote_name x, rw_remote x) ∈ remotes ∧
  match view with
  | None =>
      view_filter_from_search (search_or_new search) = None →
      Z.land (lookup_privs u ["resource"%string; rw_remote_name x]) PRIV_RESOURCE_AUDIT ≠ 0
  | Some view_id =>
      check_privs u ["view"%string; view_id] PRIV_RESOURCE_AUDIT = Ok tt ∧
      ∃ v, get_view views1 view_id = Ok v ∧
        Forall (λ res, resource_matches v (rw_remote_name x) res = true) (rw_resources x) ∧
        (rw_resources x ≠ [] ∨
         is_Some (rw_error x) ∧ is_remote_explicitly_included v (rw_remote_name x) = true)
  end.
Proof.
  intros Hl Hx. unfold get_resources_impl in Hl. run_ok Hl. fold (search_or_new search) in *.
  simplify_eq/=. apply list_remotes_elem in Hx as (Hin & Hallowed & Hview); [|apply search_or_new_wf].
  split; [done|]. run_ok Hrun. simplify_eq/=. destruct view as [view_id|].
  - simpl in Hrun1. run_ok Hrun1. simplify_eq/=.
    match goal with Hp : check_privs _ _ _ = Ok ?w |- _ => destruct w end.
    split; [done|]. eexists. split; [done|]. by apply Hview.
  - simpl in Hrun1. simplify_eq/=. intros Hnone. rewrite Hnone in Hrun2. simpl in Hrun2. simplify_eq/=.
    by apply negb_true_iff, Z.eqb_neq in Hallowed.
Qed.
End listing_claims.

(** ** Concrete listings *)

Module ListingDemo.
(** Lower casing and booleans for ASCII text. *)
Definition ascii_to_lower (a : ascii) : ascii :=
  if byte_between 65 90 a then Ascii.ascii_of_N (Ascii.N_of_ascii a + 32) else a.
Fixpoint ascii_lowercase (s : string) : string :=
  match s with EmptyString => ""%string | String a s' => String (ascii_to_lower a) (ascii_lowercase s') end.
Definition text : TextOps := {|
  to_lowercase := ascii_lowercase;
  parse_boolean s :=
    if String.eqb s "true" then Some true else if String.eqb s "false" then Some false else None;
|}.
#[local] Existing Instance text.

#[local] Instance text_laws : TextLaws.
Proof.
  split.
  - intros s. induction s as [|a s IH]; cbn -[ascii_to_lower ascii_lower_char]; [done|].
    intros [Ha Hs]%andb_true_iff. f_equal; [|by apply IH].
    destruct a as [[] [] [] [] [] [] [] []]; vm_compute in Ha |- *; congruence.
  - by intros [|a s].
Qed.

Definition network_names : NetworkTypeNames := λ ty,
  match ty with NetFabric => "fabric" | NetZone => "zone" | NetUnknownEnumValue v => v end%string.
#[local] Existing Instance network_names.
#[local] Instance views_config : SectionConfigData (gmap string ViewConfig) ViewConfig := gmap_config.

Definition node (remote n : string) : Resource :=
  PveNode (mkPveNode 2 f64_zero f64_zero ("remote/" +:+ remote +:+ "/node/" +:+ n) 8 4 n 100 "online" "").

Definition remotes : list (string * Remote) :=
  [("open", mkRemote "open" RemoteType.Pve); ("secret", mkRemote "secret" RemoteType.Pve)]%string.
Definition fetch (r : Remote) : result string (list Resource) := Ok [node (rm_id r) "n1"].

(** A user who may audit the remote [open], and nothing else. *)
Definition denied : error := EMsg "permission check failed".
Definition guest : user := {|
  lookup_privs path :=
    if bool_decide (path = ["resource"; "open"]%string) then PRIV_RESOURCE_AUDIT else 0;
  check_privs path _ :=
    if bool_decide (path = ["resource"; "open"]%string) then Ok tt else Err denied;
  any_privs_below path _ := Ok (bool_decide (path = ["resource"]%string));
|}.

Definition all_view : ViewConfig := mkView "everything" (Some true) [] [] "".
Definition views : gmap string ViewConfig := {["everything"%string := all_view]}.

Definition listed (search : option string) (view : option string) : result error (list string) :=
  l ← get_resources_impl (C:=gmap string ViewConfig) fetch search None view (Some (Ok guest))
        (Ok remotes) (Ok views) (Ok views);
  Ok (map rw_remote_name l).

Lemma listing_access_witness :
  Z.land (lookup_privs guest ["resource"; "open"]%string) PRIV_RESOURCE_AUDIT ≠ 0.
Proof.
  refine (proj2 (listing_access (C:=gmap string ViewConfig) fetch None None None guest remotes
    (Ok views) (Ok views)
    [mkRWR "open" (mkRemote "open" RemoteType.Pve) [node "open" "n1"] None]
    (mkRWR "open" (mkRemote "open" RemoteType.Pve) [node "open" "n1"] None) _ _) _).
  - vm_compute. reflexivity.
  - left.
  - reflexivity.
Defined.

Lemma listing_shortcuts_sound_witness :
  map rw_remote_name (list_remotes_spec fetch None None (Some all_view) (search_or_new (Some "+type:re")) remotes)
    = [].
Proof.
  rewrite <-(listing_shortcuts_sound fetch None None (Some all_view) (Some "+type:re"%string) remotes).
  vm_compute. reflexivity.
Defined.

(** A view that is named in the search text replaces the check of the
    privileges for each remote, but the caller's privilege on that view is not
    checked: a caller who may audit one remote reads the resources of another one
    through a view he has no privilege for.  Without the search term he sees his
    remote only, and the same view given as a parameter is refused. *)
Theorem view_term_bypasses_privileges :
  listed None None = Ok ["open"%string] ∧
  listed None (Some "everything"%string) = Err denied ∧
  listed (Some "view:everything"%string) None = Ok ["open"; "secret"]%string.
Proof. split_and!; vm_compute; reflexivity. Qed.
End ListingDemo.

(** A view term that follows another optional term is not found (the closure
    that looks for it stops the search at the first optional term), and a term
    that cannot be decided for a resource counts as a match: a search for [foo]
    with an optional view or remote type behind it keeps every resource. *)
Theorem undecided_terms_keep_everything `{TextOps, NetworkTypeNames} remote r :
  view_filter_from_search (search_from "foo view:v") = None ∧
  keep_resource None (search_from "foo view:v") remote r = true ∧
  keep_resource None (search_from "foo remote-type:pbs") remote r = true.
Proof.
  split_and!; [reflexivity|..]; unfold keep_resource; cbn [andb]; apply matches_pure_true; split.
  all: try (right; eexists; split; [right; left|]; reflexivity).
  all: intros t Ht; vm_compute in Ht; by apply not_elem_of_nil in Ht.
Qed.
