(* ===== verification/ResourceStatus.v ===== *)
(** * Counting resources

    Model of [get_status] of [server/src/api/resources.rs]: the numbers behind the
    dashboard, accumulated over the listing of all resources.  Counters that go up
    by one are unbounded here (a [u64] does not overflow by counting); the sums of
    sizes are [u64] sums that wrap, as in a release build. *)

From S2P Require Import Prelude FileSystem RemoteUpid SectionConfig Resource Views Search ResourceList.

(** ** The result *)

Record GuestStatusCount : Type := mkGuestCount {
  gc_running : Z; gc_stopped : Z; gc_template : Z; gc_unknown : Z }.
Record NodeStatusCount : Type := mkNodeCount {
  nc_online : Z; nc_offline : Z; nc_unknown : Z }.
Record StorageStatusCount : Type := mkStorageCount {
  stc_available : Z; stc_unknown : Z }.
Record PbsDatastoreStatusCount : Type := mkDatastoreCount {
  dc_online : Z;
  dc_under_maintenance : option Z;
  dc_high_usage : option Z;
  dc_unknown : option Z;
  dc_removable : option Z;
  dc_s3_backend : option Z;
}.
Record SdnZoneCount : Type := mkZoneCount {
  zc_available : Z; zc_pending : Z; zc_error : Z; zc_unknown : Z }.
Record CpuStatistics : Type := mkCpu {
  cpu_used : f64; cpu_max : f64; cpu_allocated : option f64 }.
(** [MemoryStatus] and [StorageStatus] have the same fields. *)
Record SizeStatus : Type := mkSize { sz_total : Z; sz_used : Z; sz_avail : Z }.

Inductive RemoteStatus : Type := Good | Warning | Error | Unknown.
#[export] Instance RemoteStatus_eq_dec : EqDecision RemoteStatus.
Proof. solve_decision. Defined.

Record RemoteInfo : Type := mkRemoteInfo {
  ri_name : string; ri_ty : RemoteType.t; ri_messages : list string; ri_status : RemoteStatus }.
Record FailedRemote : Type := mkFailedRemote {
  fl_name : string; fl_error : string; fl_remote_type : RemoteType.t }.

(** The part of [ResourcesStatus] that the loop over the resources of a remote
    accumulates, with [pve_cpu_allocated]. *)
Record Counts : Type := mkCounts {
  pve_nodes : NodeStatusCount;
  qemu : GuestStatusCount;
  lxc : GuestStatusCount;
  storages : StorageStatusCount;
  sdn_zones : SdnZoneCount;
  pbs_nodes : NodeStatusCount;
  pbs_datastores : PbsDatastoreStatusCount;
  pve_cpu_stats : CpuStatistics;
  pbs_cpu_stats : CpuStatistics;
  pve_memory_stats : SizeStatus;
  pbs_memory_stats : SizeStatus;
  pve_storage_stats : SizeStatus;
  pbs_storage_stats : SizeStatus;
  pve_cpu_allocated : f64;
}.

Record ResourcesStatus : Type := mkResourcesStatus {
  rs_remotes : Z;
  rs_failed_remotes : Z;
  rs_counts : Counts;
  rs_failed_remotes_list : list FailedRemote;
  rs_remote_list : list RemoteInfo;
}.

Definition guests0 : GuestStatusCount := mkGuestCount 0 0 0 0.
Definition nodes0 : NodeStatusCount := mkNodeCount 0 0 0.
Definition size0 : SizeStatus := mkSize 0 0 0.
Definition cpu0 : CpuStatistics := mkCpu f64_zero f64_zero None.
Definition counts_default : Counts :=
  mkCounts nodes0 guests0 guests0 (mkStorageCount 0 0) (mkZoneCount 0 0 0 0) nodes0
    (mkDatastoreCount 0 None None None None None) cpu0 cpu0 size0 size0 size0 size0 f64_zero.
Definition status_default : ResourcesStatus := mkResourcesStatus 0 0 counts_default [] [].

(** ** Steps of the accumulation *)

(** [total += max; used += cur; avail += max - cur] *)
Definition add_size (max cur : Z) (s : SizeStatus) : SizeStatus :=
  mkSize (u64_add (sz_total s) max) (u64_add (sz_used s) cur) (u64_add (sz_avail s) (u64_sub max cur)).

(** [used += cpu * maxcpu; max += maxcpu] *)
Definition add_cpu (cpu maxcpu : f64) (s : CpuStatistics) : CpuStatistics :=
  mkCpu (f64_add (cpu_used s) (f64_mul cpu maxcpu)) (f64_add (cpu_max s) maxcpu) (cpu_allocated s).

(** [*x.get_or_insert_default() += 1] *)
Definition bump (x : option Z) : option Z := Some (default 0 x + 1).
Definition bump_if (b : bool) (x : option Z) : option Z := if b then bump x else x.

(** The match on a guest's status, and whether its cores count as allocated. *)
Definition count_guest (r : GuestResource) (c : GuestStatusCount) : GuestStatusCount * bool :=
  let '(mkGuestCount running stopped template unknown) := c in
  if gr_template r then (mkGuestCount running stopped (template + 1) unknown, false)
  else if String.eqb (gr_status r) "running" then (mkGuestCount (running + 1) stopped template unknown, true)
  else if String.eqb (gr_status r) "stopped" then (mkGuestCount running (stopped + 1) template unknown, false)
  else (mkGuestCount running stopped template (unknown + 1), false).

Definition allocate (running : bool) (maxcpu allocated : f64) : f64 :=
  if running then f64_add allocated maxcpu else allocated.

Definition count_pve_node (r : PveNodeResource) (c : NodeStatusCount) : NodeStatusCount :=
  if String.eqb (nr_status r) "online" then mkNodeCount (nc_online c + 1) (nc_offline c) (nc_unknown c)
  else if String.eqb (nr_status r) "offline" then
    mkNodeCount (nc_online c) (nc_offline c + 1) (nc_unknown c)
  else mkNodeCount (nc_online c) (nc_offline c) (nc_unknown c + 1).

Definition count_zone (s : SdnStatus.t) (c : SdnZoneCount) : SdnZoneCount :=
  let '(mkZoneCount available pending error unknown) := c in
  match s with
  | SdnStatus.Available => mkZoneCount (available + 1) pending error unknown
  | SdnStatus.Error => mkZoneCount available pending (error + 1) unknown
  | SdnStatus.Pending => mkZoneCount available (pending + 1) error unknown
  | SdnStatus.Unknown => mkZoneCount available pending error (unknown + 1)
  end.

Definition count_storage (r : PveStorageResource) (c : StorageStatusCount) : StorageStatusCount :=
  if String.eqb (sr_status r) "available" then mkStorageCount (stc_available c + 1) (stc_unknown c)
  else mkStorageCount (stc_available c) (stc_unknown c + 1).

Definition count_datastore (r : PbsDatastoreResource) (c : PbsDatastoreStatusCount) : PbsDatastoreStatusCount :=
  let maintained := bool_decide (is_Some (dr_maintenance r)) in
  {| dc_online := if maintained then dc_online c else dc_online c + 1;
     dc_under_maintenance := bump_if maintained (dc_under_maintenance c);
     dc_high_usage := bump_if (f64_gt (dr_usage r) PBS_DATASTORE_HIGH_USAGE_THRESHOLD) (dc_high_usage c);
     dc_removable := bump_if (bool_decide (is_Some (dr_backing_device r))) (dc_removable c);
     dc_s3_backend := bump_if (bool_decide (dr_backend_type r = Some "s3"%string)) (dc_s3_backend c);
     dc_unknown := bump_if (bool_decide (dr_backend_type r = Some "unknown"%string)) (dc_unknown c) |}.

(** Something about a resource that makes its remote's status a warning. *)
Definition resource_warning (r : Resource) : option string :=
  match r with
  | PveNode n =>
      if String.eqb (nr_status n) "offline" then Some ("Node '" +:+ nr_node n +:+ "' is offline") else None
  | PveNetwork (Zone z) =>
      match zr_status z with
      | SdnStatus.Error => Some ("SDN zone '" +:+ zr_network z +:+ "' has an error")
      | _ => None
      end
  | _ => None
  end.

(** The variables of the loop over the resources of one remote. *)
Record remote_loop : Type := mkLoop {
  lp_counts : Counts;
  lp_status : RemoteStatus;
  lp_messages : list string;
  lp_seen_storages : gset string;
}.

Definition count_one (c : Counts) (seen : gset string) (r : Resource) : Counts * gset string :=
  let '(mkCounts pn q l st z bn ds pc bc pm bm ps bs alloc) := c in
  match r with
  | PveStorage r =>
      let st := count_storage r st in
      if negb (sr_shared r) || bool_decide (sr_storage r ∉ seen) then
        (mkCounts pn q l st z bn ds pc bc pm bm (add_size (sr_maxdisk r) (sr_disk r) ps) bs alloc,
         {[sr_storage r]} ∪ seen)
      else (mkCounts pn q l st z bn ds pc bc pm bm ps bs alloc, seen)
  | PveQemu r =>
      let '(q, running) := count_guest r q in
      (mkCounts pn q l st z bn ds pc bc pm bm ps bs (allocate running (gr_maxcpu r) alloc), seen)
  | PveLxc r =>
      let '(l, running) := count_guest r l in
      (mkCounts pn q l st z bn ds pc bc pm bm ps bs (allocate running (gr_maxcpu r) alloc), seen)
  | PveNode r =>
      (mkCounts (count_pve_node r pn) q l st z bn ds (add_cpu (nr_cpu r) (nr_maxcpu r) pc) bc
         (add_size (nr_maxmem r) (nr_mem r) pm) bm ps bs alloc, seen)
  | PveNetwork (Zone zone) =>
      (mkCounts pn q l st (count_zone (zr_status zone) z) bn ds pc bc pm bm ps bs alloc, seen)
  | PveNetwork (Fabric _) => (c, seen)
  | PbsNode r =>
      (mkCounts pn q l st z (mkNodeCount (nc_online bn + 1) (nc_offline bn) (nc_unknown bn)) ds pc
         (add_cpu (pn_cpu r) (pn_maxcpu r) bc) pm (add_size (pn_maxmem r) (pn_mem r) bm) ps bs alloc, seen)
  | PbsDatastore r =>
      (mkCounts pn q l st z bn (count_datastore r ds) pc bc pm bm ps
         (add_size (dr_maxdisk r) (dr_disk r) bs) alloc, seen)
  end.

Definition loop_step (lp : remote_loop) (r : Resource) : remote_loop :=
  let '(counts, seen) := count_one (lp_counts lp) (lp_seen_storages lp) r in
  match resource_warning r with
  | Some msg =>
      mkLoop counts (if bool_decide (lp_status lp = Good) then Warning else lp_status lp)
        (lp_messages lp ++ [msg]) seen
  | None => mkLoop counts (lp_status lp) (lp_messages lp) seen
  end.

(** The body of the loop over the remotes. *)
Definition status_step (s : ResourcesStatus) (r : RemoteWithResources) : ResourcesStatus :=
  let '(remotes, failed, failed_list) :=
    match rw_error r with
    | Some err =>
        (rs_remotes s, rs_failed_remotes s + 1,
         rs_failed_remotes_list s ++ [mkFailedRemote (rw_remote_name r) err (rm_ty (rw_remote r))])
    | None => (rs_remotes s + 1, rs_failed_remotes s, rs_failed_remotes_list s)
    end in
  let remote_status := if rw_error r is Some _ then Error else Good in
  let remote_messages := match rw_error r with Some error => [error] | None => [] end in
  let lp := foldl loop_step (mkLoop (rs_counts s) remote_status remote_messages ∅) (rw_resources r) in
  mkResourcesStatus remotes failed (lp_counts lp) failed_list
    (rs_remote_list s ++
     [mkRemoteInfo (rw_remote_name r) (rm_ty (rw_remote r)) (lp_messages lp) (lp_status lp)]).

Definition set_allocated (s : ResourcesStatus) : ResourcesStatus :=
  let '(mkCounts pn q l st z bn ds pc bc pm bm ps bs alloc) := rs_counts s in
  mkResourcesStatus (rs_remotes s) (rs_failed_remotes s)
    (mkCounts pn q l st z bn ds (mkCpu (cpu_used pc) (cpu_max pc) (Some alloc)) bc pm bm ps bs alloc)
    (rs_failed_remotes_list s) (rs_remote_list s).

Definition status_of (l : list RemoteWithResources) : ResourcesStatus :=
  set_allocated (foldl status_step status_default l).

Definition get_status `{TextOps} `{NetworkTypeNames} {C} `{SectionConfigData C ViewConfig}
    (fetch : Remote → result string (list Resource)) (view : option string) (auth : result error user)
    (remotes_config : result error (list (string * Remote))) (views1 views2 : result error C) :
    result error ResourcesStatus :=
  remotes_with_resources ←
    get_resources_impl fetch None None view (Some auth) remotes_config views1 views2;
  Ok (status_of remotes_with_resources).

(** ** Every resource is counted once *)

(** A number that goes up by one with every resource of some kind. *)
Definition tallies (m : Counts → Z) (p : Resource → bool) : Prop :=
  ∀ c seen r, m (fst (count_one c seen r)) = m c + (if p r then 1 else 0).

Definition number (p : Resource → bool) (l : list Resource) : Z := Z.of_nat (length (List.filter p l)).

Definition all_resources (l : list RemoteWithResources) : list Resource := mjoin (map rw_resources l).

Lemma number_cons p r l : number p (r :: l) = (if p r then 1 else 0) + number p l.
Proof. unfold number. simpl. destruct (p r); simpl; lia. Qed.

Lemma number_app p l k : number p (l ++ k) = number p l + number p k.
Proof. unfold number. rewrite List.filter_app, length_app. lia. Qed.

Lemma loop_step_counts lp r :
  lp_counts (loop_step lp r) = fst (count_one (lp_counts lp) (lp_seen_storages lp) r).
Proof. unfold loop_step. destruct (count_one _ _ _). by destruct (resource_warning r). Qed.

Lemma status_step_counts s r :
  ∃ st msgs, rs_counts (status_step s r) =
    lp_counts (foldl loop_step (mkLoop (rs_counts s) st msgs ∅) (rw_resources r)).
Proof. unfold status_step. destruct (rw_error r); simpl; eauto. Qed.

(** A property of the counters that every resource keeps holds in the end. *)
Lemma status_of_invariant (P : Counts → Prop) l :
  (∀ c seen r, P c → P (fst (count_one c seen r))) → P counts_default →
  P (rs_counts (foldl status_step status_default l)).
Proof.
  intros Hstep H0. change counts_default with (rs_counts status_default) in H0.
  revert H0. generalize status_default. induction l as [|x l IH]; intros s Hs; simpl; [done|].
  apply IH. destruct (status_step_counts s x) as (st & msgs & ->).
  change (rs_counts s) with (lp_counts (mkLoop (rs_counts s) st msgs ∅)) in Hs.
  revert Hs. generalize (mkLoop (rs_counts s) st msgs ∅).
  induction (rw_resources x) as [|r rs IHr]; intros lp Hlp; simpl; [done|].
  apply IHr. rewrite loop_step_counts. by apply Hstep.
Qed.

Lemma tally_loop m p lp rs :
  tallies m p → m (lp_counts (foldl loop_step lp rs)) = m (lp_counts lp) + number p rs.
Proof.
  intros Ht. revert lp. induction rs as [|r rs IH]; intros lp; simpl.
  { unfold number. simpl. lia. }
  rewrite IH, loop_step_counts, Ht, number_cons. lia.
Qed.

Lemma tally_status m p l :
  tallies m p → m (rs_counts (foldl status_step status_default l)) = m counts_default + number p (all_resources l).
Proof.
  intros Ht. change counts_default with (rs_counts status_default). generalize status_default.
  induction l as [|x l IH]; intros s; simpl.
  { unfold number. simpl. lia. }
  rewrite IH. destruct (status_step_counts s x) as (st & msgs & ->).
  rewrite (tally_loop m p) by done. unfold all_resources. simpl. rewrite number_app. simpl. lia.
Qed.

Definition guest_total (c : GuestStatusCount) : Z := gc_running c + gc_stopped c + gc_template c + gc_unknown c.
Definition node_total (c : NodeStatusCount) : Z := nc_online c + nc_offline c + nc_unknown c.
Definition storage_total (c : StorageStatusCount) : Z := stc_available c + stc_unknown c.
Definition zone_total (c : SdnZoneCount) : Z := zc_available c + zc_pending c + zc_error c + zc_unknown c.
Definition datastore_total (c : PbsDatastoreStatusCount) : Z := dc_online c + default 0 (dc_under_maintenance c).

Definition is_storage (r : Resource) : bool := if r is PveStorage _ then true else false.
Definition is_qemu (r : Resource) : bool := if r is PveQemu _ then true else false.
Definition is_lxc (r : Resource) : bool := if r is PveLxc _ then true else false.
Definition is_pve_node (r : Resource) : bool := if r is PveNode _ then true else false.
Definition is_zone (r : Resource) : bool := if r is PveNetwork (Zone _) then true else false.
Definition is_pbs_node (r : Resource) : bool := if r is PbsNode _ then true else false.
Definition is_datastore (r : Resource) : bool := if r is PbsDatastore _ then true else false.

Lemma count_guest_total g c : guest_total (fst (count_guest g c)) = guest_total c + 1.
Proof.
  destruct c. unfold count_guest, guest_total.
  repeat case_match; simpl; lia.
Qed.

Ltac tally :=
  intros [pn q l st z bn ds pc bc pm bm ps bs alloc] seen r; destruct r as [?|g|g|?|[?|zz]|?|dd]; simpl;
  repeat match goal with
  | |- context [count_guest ?g ?c] =>
      let H := fresh in pose proof (count_guest_total g c) as H; destruct (count_guest g c); simpl in *
  | |- context [if negb (sr_shared ?x) || ?y then _ else _] => destruct (negb (sr_shared x) || y); simpl
  end; try lia.

Lemma tally_qemu : tallies (λ c, guest_total (qemu c)) is_qemu.
Proof. tally. Qed.
Lemma tally_lxc : tallies (λ c, guest_total (lxc c)) is_lxc.
Proof. tally. Qed.
Lemma tally_pve_nodes : tallies (λ c, node_total (pve_nodes c)) is_pve_node.
Proof. tally. unfold count_pve_node, node_total. repeat case_match; simpl; lia. Qed.
Lemma tally_pbs_nodes : tallies (λ c, node_total (pbs_nodes c)) is_pbs_node.
Proof. tally. unfold node_total. simpl. lia. Qed.
Lemma tally_storages : tallies (λ c, storage_total (storages c)) is_storage.
Proof. tally; unfold count_storage, storage_total; case_match; simpl; lia. Qed.
Lemma tally_zones : tallies (λ c, zone_total (sdn_zones c)) is_zone.
Proof. tally. unfold count_zone, zone_total. destruct z, (zr_status zz); simpl; lia. Qed.
Lemma tally_datastores : tallies (λ c, datastore_total (pbs_datastores c)) is_datastore.
Proof.
  tally. unfold datastore_total, count_datastore. simpl. case_bool_decide; simpl; [|lia].
  unfold bump. simpl. lia.
Qed.

Definition balanced (s : SizeStatus) : Prop := sz_total s = u64_add (sz_used s) (sz_avail s).

Lemma add_size_balanced max cur s : balanced s → balanced (add_size max cur s).
Proof.
  unfold balanced, add_size, u64_add, u64_sub, as_u64. simpl. intros ->.
  rewrite !Zplus_mod_idemp_l, Zplus_mod_idemp_r, Z.add_assoc, Zplus_mod_idemp_r. f_equal. lia.
Qed.

Definition sizes_balanced (c : Counts) : Prop :=
  balanced (pve_memory_stats c) ∧ balanced (pbs_memory_stats c) ∧
  balanced (pve_storage_stats c) ∧ balanced (pbs_storage_stats c).

Lemma count_one_balanced c seen r : sizes_balanced c → sizes_balanced (fst (count_one c seen r)).
Proof.
  destruct c. intros (?&?&?&?). destruct r as [?|g|g|?|[?|?]|?|?]; simpl in *;
    try destruct (_ || _); try destruct (count_guest g _);
    unfold sizes_balanced; simpl; split_and!; try apply add_size_balanced; done.
Qed.

(** What the dashboard says about one remote. *)
Definition remote_info (r : RemoteWithResources) : RemoteInfo :=
  let warnings := omap (M:=list) resource_warning (rw_resources r) in
  mkRemoteInfo (rw_remote_name r) (rm_ty (rw_remote r))
    (match rw_error r with Some error => error :: warnings | None => warnings end)
    (match rw_error r, warnings with Some _, _ => Error | None, [] => Good | None, _ => Warning end).

Definition worse (s : RemoteStatus) (warnings : list string) : RemoteStatus :=
  match warnings with [] => s | _ => if bool_decide (s = Good) then Warning else s end.

Lemma loop_messages lp rs :
  let lp' := foldl loop_step lp rs in
  lp_messages lp' = lp_messages lp ++ omap (M:=list) resource_warning rs ∧
  lp_status lp' = worse (lp_status lp) (omap (M:=list) resource_warning rs).
Proof.
  revert lp. induction rs as [|r rs IH]; intros lp; simpl; [by rewrite app_nil_r|].
  destruct (IH (loop_step lp r)) as [-> ->]. unfold loop_step.
  destruct (count_one _ _ r). destruct (resource_warning r) as [w|]; simpl; [|done].
  rewrite <-app_assoc. split; [done|].
  case_bool_decide; simpl; destruct (omap _ rs); simpl; repeat case_bool_decide; done.
Qed.

Lemma status_remote_list l : rs_remote_list (foldl status_step status_default l) = map remote_info l.
Proof.
  change (map remote_info l) with (rs_remote_list status_default ++ map remote_info l).
  generalize status_default. induction l as [|x l IH]; intros s; simpl; [by rewrite app_nil_r|].
  rewrite IH, cons_middle, app_assoc. f_equal. unfold status_step, remote_info.
  destruct (rw_error x); simpl;
    match goal with |- context [foldl loop_step ?lp ?rs] => destruct (loop_messages lp rs) as [-> ->] end;
    simpl; by destruct (omap _ _).
Qed.

Lemma status_failed l :
  let s := foldl status_step status_default l in
  let failed := List.filter (λ r, bool_decide (is_Some (rw_error r))) l in
  rs_failed_remotes s = Z.of_nat (length failed) ∧
  rs_remotes s = Z.of_nat (length l) - Z.of_nat (length failed) ∧
  map fl_name (rs_failed_remotes_list s) = map rw_remote_name failed.
Proof.
  cut (∀ s0, let s := foldl status_step s0 l in
    let failed := List.filter (λ r, bool_decide (is_Some (rw_error r))) l in
    rs_failed_remotes s = rs_failed_remotes s0 + Z.of_nat (length failed) ∧
    rs_remotes s = rs_remotes s0 + Z.of_nat (length l) - Z.of_nat (length failed) ∧
    map fl_name (rs_failed_remotes_list s) =
      map fl_name (rs_failed_remotes_list s0) ++ map rw_remote_name failed).
  { intros Hs. cbv zeta. destruct (Hs status_default) as (->&->&->). simpl. split_and!; [lia..|done]. }
  induction l as [|x l IH]; intros s0; cbn -[Z.of_nat].
  { rewrite app_nil_r. split_and!; [lia..|done]. }
  destruct (IH (status_step s0 x)) as (->&->&->). unfold status_step.
  destruct (rw_error x); simpl; [|split_and!; [lia..|done]].
  rewrite map_app, <-app_assoc. simpl. split_and!; [lia..|done].
Qed.

Lemma set_allocated_counts (P : Counts → Prop) s :
  (∀ pn q l st z bn ds pc pc' bc pm bm ps bs alloc,
     P (mkCounts pn q l st z bn ds pc bc pm bm ps bs alloc) →
     P (mkCounts pn q l st z bn ds pc' bc pm bm ps bs alloc)) →
  P (rs_counts s) → P (rs_counts (set_allocated s)).
Proof. unfold set_allocated. destruct s as [? ? [] ? ?]. simpl. eauto. Qed.

(** The status of the dashboard accounts for everything in the listing: every
    remote is counted either as reachable or as failed and the failed ones are
    listed by name; the states of the guests, nodes, storages, zones and
    datastores add up to the number of such resources; used and available sizes
    add up to the total (in [u64] arithmetic); and every remote is reported with
    its error and its warnings, as good exactly if there are none. *)
Theorem status_counts_complete l :
  let s := status_of l in
  let c := rs_counts s in
  let all := all_resources l in
  let failed := List.filter (λ r, bool_decide (is_Some (rw_error r))) l in
  (rs_failed_remotes s = Z.of_nat (length failed) ∧
   rs_remotes s = Z.of_nat (length l) - Z.of_nat (length failed) ∧
   map fl_name (rs_failed_remotes_list s) = map rw_remote_name failed) ∧
  (guest_total (qemu c) = number is_qemu all ∧ guest_total (lxc c) = number is_lxc all ∧
   node_total (pve_nodes c) = number is_pve_node all ∧
   node_total (pbs_nodes c) = number is_pbs_node all ∧
   storage_total (storages c) = number is_storage all ∧
   zone_total (sdn_zones c) = number is_zone all ∧
   datastore_total (pbs_datastores c) = number is_datastore all) ∧
  sizes_balanced c ∧
  rs_remote_list s = map remote_info l.
Proof.
  simpl. unfold status_of. split_and!.
  1-3: destruct (status_failed l) as (H1 & H2 & H3); unfold set_allocated; by destruct (rs_counts _).
  - apply set_allocated_counts; [done|]. exact (tally_status _ _ l tally_qemu).
  - apply set_allocated_counts; [done|]. exact (tally_status _ _ l tally_lxc).
  - apply set_allocated_counts; [done|]. exact (tally_status _ _ l tally_pve_nodes).
  - apply set_allocated_counts; [done|]. exact (tally_status _ _ l tally_pbs_nodes).
  - apply set_allocated_counts; [done|]. exact (tally_status _ _ l tally_storages).
  - apply set_allocated_counts; [done|]. exact (tally_status _ _ l tally_zones).
  - apply set_allocated_counts; [done|]. exact (tally_status _ _ l tally_datastores).
  - apply set_allocated_counts; [done|].
    apply (status_of_invariant sizes_balanced); [apply count_one_balanced|done].
  - rewrite <-status_remote_list. unfold set_allocated. by destruct (rs_counts _).
Qed.
