(* ===== verification/ParallelFetcher.v ===== *)
(** * Parallel requests to remotes

    Model of [server/src/parallel_fetcher.rs]: [ParallelFetcher] asks many nodes
    of many remotes at the same time, within a limit on all connections and one
    on the connections to the same remote.

    The tasks that are spawned are a transition system.  A state has the permits
    left in the total semaphore, the state of the future of every remote, and
    the responses in the order in which their futures completed; [steps] lists
    the successors of a state, one for each task that can make progress.  A run
    follows a schedule that picks among them; [fetch_all] bounds the number of
    steps by a measure that every step decreases, and a run that is not finished
    always has a step.

    The functions that talk to a remote are parameters.  They may panic ([None]),
    in which case the join set yields an error and the response is left out: the
    response of the node for a PVE remote, whose nodes have tasks of their own, and
    that of the remote for a PBS remote, whose request runs in the task of the
    remote. *)

From S2P Require Import Prelude FileSystem RemoteUpid ResourceList.

Definition DEFAULT_MAX_CONNECTIONS : nat := 20.
Definition DEFAULT_MAX_CONNECTIONS_PER_REMOTE : nat := 5.

(** ** Responses *)

Record NodeResponse (T : Type) : Type := mkNodeResponse {
  nresp_node_name : string;
  nresp_data : result error T;
}.
Arguments mkNodeResponse {T} _ _.
Arguments nresp_node_name {T} _.
Arguments nresp_data {T} _.

Record RemoteResponse (R : Type) : Type := mkResponse {
  resp_remote : string;
  resp_remote_type : RemoteType.t;
  resp_response : R;
}.
Arguments mkResponse {R} _ _ _.
Arguments resp_remote {R} _.
Arguments resp_remote_type {R} _.
Arguments resp_response {R} _.

(** [MultipleNodesResponse], the response of a remote with its nodes. *)
Definition MultipleNodesResponse (T : Type) : Type := result error (list (NodeResponse T)).

Definition compare_remote {R} : RemoteResponse R → RemoteResponse R → comparison :=
  cmp_on resp_remote String.compare.

#[export] Instance compare_remote_total {R} : TotalCmp (compare_remote (R := R)).
Proof. unfold compare_remote. apply _. Qed.

(** [FetcherResponse]: the responses sorted by remote. *)
Definition fetcher_response {R} (responses : list (RemoteResponse R)) : list (RemoteResponse R) :=
  sort_by compare_remote responses.

(** [slice::binary_search_by] of the standard library: [size] elements from
    [base] are left; the loop halves them ([fuel] is at least [size]). *)
Fixpoint binary_search_loop {A} (fuel : nat) (cmp : A → comparison) (l : list A)
    (base size : nat) : nat :=
  match fuel with
  | O => base
  | S fuel' =>
      if (size <=? 1)%nat then base
      else
        let half := (size / 2)%nat in
        let mid := (base + half)%nat in
        let base' := match cmp <$> l !! mid with
                     | Some Gt | None => base
                     | _ => mid
                     end in
        binary_search_loop fuel' cmp l base' (size - half)
  end.

Definition binary_search_by {A} (cmp : A → comparison) (l : list A) : option nat :=
  match l with
  | [] => None
  | _ =>
      let base := binary_search_loop (length l) cmp l 0 (length l) in
      match cmp <$> l !! base with
      | Some Eq => Some base
      | _ => None
      end
  end.

Definition get_remote_response {R} (responses : list (RemoteResponse R)) (remote : string)
    : option (RemoteResponse R) :=
  index ← binary_search_by (λ probe, String.compare (resp_remote probe) remote) responses;
  responses !! index.

(** ** The futures *)

Section fetcher.
Context {T : Type}.
(** [make_pve_client] and [list_nodes]; [func] with its context. *)
Context (list_nodes : Remote → option (result error (list string))).
Context (func : Remote → string → option (result error T)).
Context (max_connections max_connections_per_remote : nat).

(** Where the future of a remote ([fetch_remote]) is. *)
Inductive fetch_state : Type :=
| FWait                                 (** acquiring the first permit *)
| FListing                              (** asking for the nodes, with a permit *)
| FInline                               (** asking a PBS remote, with a permit *)
| FSpawn (permit : bool) (todo running : list string) (responses : list (NodeResponse T))
    (** in the loop over the nodes, or behind it when none is left; [permit] is
        the first permit, until it is taken *)
| FAcquired (node : string) (todo running : list string) (responses : list (NodeResponse T))
    (** has a permit for [node] and waits for one of the remote *)
| FDone.

(** What the future of a remote returns; [None] if it panicked. *)
Abbreviation outcome := (option (RemoteResponse (MultipleNodesResponse T))).

Definition response_of (r : Remote) (nodes : MultipleNodesResponse T) : outcome :=
  Some (mkResponse (rm_id r) (rm_ty r) nodes).

(** [fetch_node] *)
Definition fetch_node (r : Remote) (node : string) : option (NodeResponse T) :=
  mkNodeResponse node <$> func r node.

(** Every way to take one element out of a list. *)
Fixpoint picks {A} (l : list A) : list (A * list A) :=
  match l with
  | [] => []
  | x :: l' => (x, l') :: (prod_map id (cons x) <$> picks l')
  end.

(** A node answers (or its future panics): its permits are released. *)
Definition node_steps (r : Remote) (free : nat) (running : list string)
    (rebuild : list string → list (NodeResponse T) → fetch_state)
    (responses : list (NodeResponse T)) : list (nat * fetch_state * option outcome) :=
  (λ '(node, running'),
     (S free, rebuild running' (responses ++ option_list (fetch_node r node)), None)) <$> picks running.

(** The steps of the future of one remote and of the futures of its nodes:
    the free permits afterwards, its new state, and what it returned. *)
Definition remote_steps (r : Remote) (free : nat) (s : fetch_state)
    : list (nat * fetch_state * option outcome) :=
  match s with
  | FWait =>
      match free with
      | O => []
      | S free' =>
          match rm_ty r with
          | RemoteType.Pve => [(free', FListing, None)]
          | RemoteType.Pbs => [(free', FInline, None)]
          end
      end
  | FListing =>
      match list_nodes r with
      | None => [(S free, FDone, Some None)]
      | Some (Err e) => [(S free, FDone, Some (response_of r (Err e)))]
      | Some (Ok nodes) => [(free, FSpawn true nodes [] [], None)]
      end
  | FInline =>
      (** [fetch_node] is awaited here: its panic unwinds this future *)
      [(S free, FDone, Some (response ← fetch_node r "localhost"; response_of r (Ok [response])))]
  | FSpawn permit todo running responses =>
      node_steps r free running (λ running' rs, FSpawn permit todo running' rs) responses ++
      match todo with
      | node :: todo' =>
          if permit then [(free, FAcquired node todo' running responses, None)]
          else match free with
               | O => []
               | S free' => [(free', FAcquired node todo' running responses, None)]
               end
      | [] =>
          match running with
          | [] => [((if permit then S free else free), FDone, Some (response_of r (Ok responses)))]
          | _ => []
          end
      end
  | FAcquired node todo running responses =>
      node_steps r free running (λ running' rs, FAcquired node todo running' rs) responses ++
      (if (length running <? max_connections_per_remote)%nat
       then [(free, FSpawn false todo (running ++ [node]) responses, None)]
       else [])
  | FDone => []
  end.

Record fetcher_state : Type := mkFetcher {
  fs_free : nat;
  fs_remotes : list (Remote * fetch_state);
  fs_responses : list (RemoteResponse (MultipleNodesResponse T));
}.

(** The steps of all futures. *)
Fixpoint steps_in (free : nat) (done l : list (Remote * fetch_state))
    (responses : list (RemoteResponse (MultipleNodesResponse T))) : list fetcher_state :=
  match l with
  | [] => []
  | (r, s) :: l' =>
      ((λ '(free', s', o), mkFetcher free' (done ++ (r, s') :: l')
                             (responses ++ match o with Some o => option_list o | None => [] end))
         <$> remote_steps r free s)
      ++ steps_in free (done ++ [(r, s)]) l' responses
  end.

Definition steps (st : fetcher_state) : list fetcher_state :=
  steps_in (fs_free st) [] (fs_remotes st) (fs_responses st).

Definition fetcher_init (remotes : list Remote) : fetcher_state :=
  mkFetcher max_connections ((λ r, (r, FWait)) <$> remotes) [].

(** How many steps a future takes at most. *)
Definition node_count (r : Remote) : nat :=
  match rm_ty r, list_nodes r with
  | RemoteType.Pve, Some (Ok nodes) => length nodes
  | _, _ => 0
  end.

Definition work (r : Remote) (s : fetch_state) : nat :=
  match s with
  | FWait => 3 * node_count r + 3
  | FListing => 3 * node_count r + 2
  | FInline => 1
  | FSpawn _ todo running _ => 3 * length todo + length running + 1
  | FAcquired _ todo running _ => 3 * length todo + length running + 3
  | FDone => 0
  end.

Definition total_work (l : list (Remote * fetch_state)) : nat :=
  sum_list_with (λ '(r, s), work r s) l.

(** Follow a schedule until no step is left. *)
Fixpoint run_fetcher (fuel : nat) (schedule : list nat) (st : fetcher_state) : fetcher_state :=
  match fuel with
  | O => st
  | S fuel' =>
      let next := steps st in
      match next !! (default 0%nat (head schedule) `mod` length next)%nat with
      | Some st' => run_fetcher fuel' (tail schedule) st'
      | None => st
      end
  end.

Definition do_for_all_remote_nodes (schedule : list nat) (remotes : list Remote)
    : list (RemoteResponse (MultipleNodesResponse T)) :=
  let st := fetcher_init remotes in
  fetcher_response (fs_responses (run_fetcher (total_work (fs_remotes st)) schedule st)).

(** The order in which the futures of a join set complete. *)
Fixpoint join_order {A} (fuel : nat) (schedule : list nat) (l : list A) : list A :=
  match fuel with
  | O => []
  | S fuel' =>
      match picks l !! (default 0%nat (head schedule) `mod` length (picks l))%nat with
      | Some (x, l') => x :: join_order fuel' (tail schedule) l'
      | None => []
      end
  end.

(** [do_for_all_remotes]: one request for each remote; each future takes one
    permit for its request. *)
Definition do_for_all_remotes (schedule : list nat) (remotes : list Remote)
    : list (RemoteResponse (NodeResponse T)) :=
  fetcher_response
    (omap (M := list) (λ r, mkResponse (rm_id r) (rm_ty r) <$> fetch_node r "localhost")
       (join_order (length remotes) schedule remotes)).

(** ** Steps *)

Lemma elem_of_picks {A} (l : list A) x l' : (x, l') ∈ picks l → l ≡ₚ x :: l'.
Proof.
  induction l as [|y l IH] in l' |- *; simpl; [set_solver|].
  intros [[= -> ->]|([z k]&[= -> ->]&Hin)%list_elem_of_fmap]%elem_of_cons; [done|].
  rewrite (IH _ Hin). apply Permutation_swap.
Qed.

Lemma picks_nil {A} (l : list A) : picks l = [] → l = [].
Proof. by destruct l. Qed.

Lemma lookup_mod {A} (l : list A) n : l ≠ [] → is_Some (l !! (n `mod` length l)%nat).
Proof.
  intros Hne. apply lookup_lt_is_Some_2, Nat.mod_upper_bound. by destruct l.
Qed.

Lemma elem_of_steps_in free pre l rs st' :
  st' ∈ steps_in free pre l rs ↔
  ∃ l1 r s l2 free' s' o, l = l1 ++ (r, s) :: l2 ∧ (free', s', o) ∈ remote_steps r free s ∧
    st' = mkFetcher free' (pre ++ l1 ++ (r, s') :: l2)
            (rs ++ match o with Some o => option_list o | None => [] end).
Proof.
  induction l as [|[r s] l IH] in pre |- *; simpl.
  { split; [set_solver|]. intros ([]&?&?&?&?&?&?&?&_); simplify_list_eq. }
  rewrite elem_of_app, IH, list_elem_of_fmap. split.
  - intros [([[free' s'] o]&->&Hin)|(l1&r1&s1&l2&free'&s'&o&->&Hin&->)].
    + by exists [], r, s, l, free', s', o.
    + exists ((r, s) :: l1), r1, s1, l2, free', s', o. by rewrite <-app_assoc.
  - intros ([|[r0 s0] l1]&r1&s1&l2&free'&s'&o&Heq&Hin&->); simplify_list_eq.
    + left. by exists (free', s', o).
    + right. exists l1, r1, s1, l2, free', s', o. by rewrite <-app_assoc.
Qed.

Lemma elem_of_steps st st' :
  st' ∈ steps st ↔
  ∃ l1 r s l2 free' s' o, fs_remotes st = l1 ++ (r, s) :: l2 ∧
    (free', s', o) ∈ remote_steps r (fs_free st) s ∧
    st' = mkFetcher free' (l1 ++ (r, s') :: l2)
            (fs_responses st ++ match o with Some o => option_list o | None => [] end).
Proof. apply elem_of_steps_in. Qed.

(** ** The invariant *)

(** Permits of the total semaphore that a future and its nodes hold, and the
    requests they have in flight. *)
Definition held (s : fetch_state) : nat :=
  match s with
  | FWait | FDone => 0
  | FListing | FInline => 1
  | FSpawn permit _ running _ => (if permit then 1 else 0) + length running
  | FAcquired _ _ running _ => 1 + length running
  end.

Definition in_flight (s : fetch_state) : nat :=
  match s with
  | FWait | FDone => 0
  | FListing | FInline => 1
  | FSpawn _ _ running _ | FAcquired _ _ running _ => length running
  end.

(** The nodes of a remote: [None] if asking for them panics. *)
Definition nodes_of (r : Remote) : option (result error (list string)) :=
  match rm_ty r with
  | RemoteType.Pve => list_nodes r
  | RemoteType.Pbs => Some (Ok ["localhost"%string])
  end.

(** What the future of a remote is to return, up to the order of its nodes. *)
Definition answers (r : Remote) (o : outcome) : Prop :=
  match nodes_of r with
  | None => o = None
  | Some (Err e) => o = response_of r (Err e)
  | Some (Ok nodes) =>
      match rm_ty r with
      | RemoteType.Pve => ∃ rs, o = response_of r (Ok rs) ∧ rs ≡ₚ omap (M := list) (fetch_node r) nodes
      | RemoteType.Pbs =>
          o = match fetch_node r "localhost" with
              | Some response => response_of r (Ok [response])
              | None => None
              end
      end
  end.

Lemma answers_nodes r o nodes :
  answers r o → nodes_of r = Some (Ok nodes) →
  (∃ rs, o = response_of r (Ok rs) ∧ rs ≡ₚ omap (M := list) (fetch_node r) nodes) ∨
  (o = None ∧ omap (M := list) (fetch_node r) nodes = [] ∧ ∃ node, node ∈ nodes ∧ fetch_node r node = None).
Proof.
  unfold answers. intros Ha Hn. rewrite Hn in Ha. unfold nodes_of in Hn.
  destruct (rm_ty r); [by left|]. injection Hn as <-. simpl.
  destruct (fetch_node r "localhost") as [x|] eqn:Hf; subst o; [left; by exists [x]|right].
  split_and!; [done|done|]. exists "localhost"%string. split; [left|done].
Qed.

Definition asked (r : Remote) (open : list string) (rs : list (NodeResponse T)) : Prop :=
  rm_ty r = RemoteType.Pve ∧
  ∃ nodes finished, nodes_of r = Some (Ok nodes) ∧ nodes ≡ₚ open ++ finished ∧
    rs = omap (M := list) (fetch_node r) finished.

Definition remote_ok (r : Remote) (s : fetch_state) (o : option outcome) : Prop :=
  match s with
  | FDone => ∃ out, o = Some out ∧ answers r out
  | FWait => o = None
  | FListing => o = None ∧ rm_ty r = RemoteType.Pve
  | FInline => o = None ∧ rm_ty r = RemoteType.Pbs
  | FSpawn permit todo running rs =>
      o = None ∧ asked r (todo ++ running) rs ∧ (length running ≤ max_connections_per_remote)%nat
  | FAcquired node todo running rs =>
      o = None ∧ asked r (node :: todo ++ running) rs ∧ (length running ≤ max_connections_per_remote)%nat
  end.

Lemma asked_node r open open' node rs :
  open ≡ₚ node :: open' → asked r open rs → asked r open' (rs ++ option_list (fetch_node r node)).
Proof.
  intros Hp (Hty&nodes&finished&Hn&Hperm&->). split; [done|]. exists nodes, (finished ++ [node]). split; [done|]. split.
  - rewrite Hperm, Hp. solve_Permutation.
  - rewrite omap_app. simpl. by destruct (fetch_node r node).
Qed.

Lemma asked_perm r open open' rs : open ≡ₚ open' → asked r open rs → asked r open' rs.
Proof. intros Hp (?&nodes&fin&?&Hperm&?). split; [done|]. exists nodes, fin. split_and!; [done| |done]. by rewrite Hperm, Hp. Qed.

Lemma elem_of_node_steps r free running rebuild rs x :
  x ∈ node_steps r free running rebuild rs →
  ∃ node running', running ≡ₚ node :: running' ∧
    x = (S free, rebuild running' (rs ++ option_list (fetch_node r node)), None).
Proof.
  unfold node_steps. intros ([node running']&->&Hin%elem_of_picks)%list_elem_of_fmap. eauto.
Qed.

(** One step of the future of a remote: permits are conserved, the work left
    gets less, and the future stays on course. *)
Lemma remote_step_ok r free s free' s' o :
  (1 ≤ max_connections_per_remote)%nat →
  (free', s', o) ∈ remote_steps r free s → remote_ok r s None →
  remote_ok r s' o ∧ (free' + held s' = free + held s)%nat ∧ (work r s' < work r s)%nat.
Proof.
  intros Hmax Hin Hok. destruct s as [| | |permit todo running rs|node todo running rs|]; simpl in Hin.
  - destruct free as [|free0]; [set_solver|].
    unfold work, node_count. destruct (rm_ty r) eqn:Hty; apply list_elem_of_singleton in Hin; simplify_eq/=.
    + split; [done|split; lia].
    + split; [done|split; lia].
  - destruct Hok as [_ Hty]. simpl work at 2. unfold node_count. rewrite Hty.
    destruct (list_nodes r) as [[nodes|e]|] eqn:Hn; apply list_elem_of_singleton in Hin; simplify_eq/=.
    + split; [|split; lia]. split; [done|]. split; [|simpl; lia]. split; [done|]. exists nodes, [].
      unfold nodes_of. rewrite Hty. by rewrite !app_nil_r.
    + split; [|split; lia]. eexists. split; [done|]. unfold answers, nodes_of. by rewrite Hty, Hn.
    + split; [|split; lia]. eexists. split; [done|]. unfold answers, nodes_of. by rewrite Hty, Hn.
  - destruct Hok as [_ Hty]. apply list_elem_of_singleton in Hin; simplify_eq/=.
    split; [|split; lia]. eexists. split; [done|]. unfold answers, nodes_of. rewrite Hty.
    by destruct (fetch_node r "localhost").
  - destruct Hok as (_&Hasked&Hlen). apply elem_of_app in Hin as [Hin|Hin].
    { apply elem_of_node_steps in Hin as (node&running'&Hp&[= -> -> ->]).
      pose proof (Permutation_length Hp) as Hl. simpl in Hl.
      split; [|simpl; split; lia]. split; [done|]. split; [|lia].
      eapply asked_node; [|exact Hasked]. rewrite Hp. solve_Permutation. }
    destruct todo as [|node todo].
    { destruct running; [|set_solver]. apply list_elem_of_singleton in Hin.
      destruct Hasked as (Hty&nodes&fin&Hn&Hperm&->).
      assert (answers r (response_of r (Ok (omap (M := list) (fetch_node r) fin)))) as Ha.
      { unfold answers. rewrite Hn, Hty. eexists. split; [done|]. simpl in Hperm. by rewrite Hperm. }
      destruct permit; simplify_eq/=; (split; [by eexists|split; lia]). }
    destruct permit; [|destruct free as [|free0]; [set_solver|]];
      apply list_elem_of_singleton in Hin; simplify_eq/=; (split; [done|split; lia]).
  - destruct Hok as (_&Hasked&Hlen). apply elem_of_app in Hin as [Hin|Hin].
    { apply elem_of_node_steps in Hin as (node'&running'&Hp&[= -> -> ->]).
      pose proof (Permutation_length Hp) as Hl. simpl in Hl.
      split; [|simpl; split; lia]. split; [done|]. split; [|lia].
      eapply asked_node; [|exact Hasked]. rewrite Hp. solve_Permutation. }
    destruct (Nat.ltb_spec (length running) max_connections_per_remote); [|set_solver].
    apply list_elem_of_singleton in Hin; simplify_eq/=. rewrite length_app. simpl.
    split; [|split; lia]. split; [done|]. split; [|lia].
    eapply asked_perm; [|exact Hasked]. solve_Permutation.
  - set_solver.
Qed.

Definition total_held (l : list (Remote * fetch_state)) : nat := sum_list_with (λ x, held x.2) l.

Record fetcher_ok (remotes : list Remote) (st : fetcher_state) (outs : list (option outcome)) : Prop := {
  ok_remotes : (fs_remotes st).*1 = remotes;
  ok_futures : Forall2 (λ rs o, remote_ok rs.1 rs.2 o) (fs_remotes st) outs;
  ok_responses : fs_responses st ≡ₚ omap (M := list) (mjoin (M := option)) outs;
  ok_permits : (fs_free st + total_held (fs_remotes st) = max_connections)%nat;
}.

Lemma sum_list_with_middle {A} (f : A → nat) l1 x l2 :
  sum_list_with f (l1 ++ x :: l2) = (sum_list_with f l1 + f x + sum_list_with f l2)%nat.
Proof. rewrite sum_list_with_app. simpl. lia. Qed.

Context (Hlimit : (1 ≤ max_connections_per_remote)%nat).

Lemma fetcher_step_ok remotes st outs st' :
  fetcher_ok remotes st outs → st' ∈ steps st →
  (∃ outs', fetcher_ok remotes st' outs') ∧
  (total_work (fs_remotes st') < total_work (fs_remotes st))%nat.
Proof.
  intros [Hr Hf Hp Hh] (l1&r&s&l2&free'&s'&o&Heq&Hin&->)%elem_of_steps.
  rewrite Heq in *. apply Forall2_app_inv_l in Hf as (o1&o2'&Hf1&Hf2&->).
  apply Forall2_cons_inv_l in Hf2 as (o0&o2&Hok&Hf2&->). simpl in Hok.
  assert (o0 = None) as ->.
  { destruct s; simpl in *; [done|naive_solver..|set_solver]. }
  destruct (remote_step_ok _ _ _ _ _ _ Hlimit Hin Hok) as (Hok'&Hheld&Hwork). split.
  - exists (o1 ++ o :: o2). split; simpl.
    + rewrite <-Hr, !fmap_app. done.
    + apply Forall2_app; [done|]. by constructor.
    + rewrite Hp, !omap_app. simpl. destruct o as [[x|]|]; simpl; solve_Permutation.
    + unfold total_held in *. rewrite !sum_list_with_middle in *. simpl in *. lia.
  - unfold total_work. simpl. rewrite !sum_list_with_middle. lia.
Qed.

Lemma fetcher_init_ok remotes : fetcher_ok remotes (fetcher_init remotes) ((λ _, None) <$> remotes).
Proof.
  unfold fetcher_init. split; simpl.
  - rewrite <-list_fmap_compose. by apply list_fmap_id.
  - induction remotes; simpl; constructor; [done|]. done.
  - induction remotes; simpl; [done|]. done.
  - assert (total_held ((λ r, (r, FWait)) <$> remotes) = 0)%nat as ->; [|lia].
    unfold total_held. induction remotes; simpl; [done|]. done.
Qed.

(** Every state the futures can reach. *)
Inductive fetcher_reachable (remotes : list Remote) : fetcher_state → Prop :=
| reachable_init : fetcher_reachable remotes (fetcher_init remotes)
| reachable_step st st' :
    fetcher_reachable remotes st → st' ∈ steps st → fetcher_reachable remotes st'.

Lemma reachable_ok remotes st : fetcher_reachable remotes st → ∃ outs, fetcher_ok remotes st outs.
Proof.
  induction 1 as [|st st' _ (outs&IH) Hin]; [eexists; apply fetcher_init_ok|].
  by apply (fetcher_step_ok _ _ _ _ IH Hin).
Qed.

Context (Hmax : (1 ≤ max_connections)%nat).

(** A future that cannot make a step is done, or holds no permit and waits for
    one that is not there. *)
Lemma remote_stuck r free s o :
  remote_ok r s o → remote_steps r free s = [] → s ≠ FDone → free = 0%nat ∧ held s = 0%nat.
Proof.
  intros Hok Hs Hd.
  assert (∀ running rebuild rs k, node_steps r free running rebuild rs ++ k = [] → running = [] ∧ k = []) as Hnode.
  { intros running rebuild rs k [Hn Hk]%app_eq_nil. split; [|done].
    unfold node_steps in Hn. apply picks_nil. by apply fmap_nil_inv in Hn. }
  destruct s as [| | |permit todo running rs|node todo running rs|]; simpl in Hs.
  - destruct free; [done|]. by destruct (rm_ty r).
  - by destruct (list_nodes r) as [[]|].
  - done.
  - apply Hnode in Hs as [-> Hs]. destruct todo, permit, free; done.
  - apply Hnode in Hs as [-> Hs]. simpl in Hs.
    destruct (Nat.ltb_spec 0 max_connections_per_remote); [done|lia].
  - done.
Qed.

Lemma steps_in_nil free pre l rs :
  steps_in free pre l rs = [] → Forall (λ x, remote_steps x.1 free x.2 = []) l.
Proof.
  induction l as [|[r s] l IH] in pre |- *; simpl; [done|].
  intros [H1 H2]%app_eq_nil. constructor; [by apply fmap_nil_inv in H1|by eapply IH].
Qed.

(** No deadlock: without a step left every future has returned. *)
Lemma no_deadlock remotes st outs :
  fetcher_ok remotes st outs → steps st = [] → Forall (λ x, x.2 = FDone) (fs_remotes st).
Proof.
  intros [_ Hf _ Hh] Hs%steps_in_nil. apply Forall_forall. intros [r s] Hin. simpl.
  destruct (decide (fs_free st = 0%nat)) as [Hz|Hnz].
  - assert (total_held (fs_remotes st) = 0)%nat as H0; [|lia].
    clear Hh Hin. unfold total_held.
    induction Hf as [|[r0 s0] o0 l k Hok Hf IH]; [done|]. apply Forall_cons in Hs as [Hs0 Hs].
    simpl in *. rewrite IH by done. assert (held s0 = 0)%nat; [|lia].
    destruct s0 eqn:E; simpl; try done; eapply (remote_stuck r0 (fs_free st)) in Hs0; eauto; naive_solver.
  - apply list_elem_of_lookup_1 in Hin as [i Hi].
    destruct (Forall2_lookup_l _ _ _ _ _ Hf Hi) as (o&_&Hok). rewrite Forall_forall in Hs.
    apply list_elem_of_lookup_2, Hs in Hi. simpl in *.
    destruct s eqn:E; [..|done]; destruct (remote_stuck _ _ _ _ Hok Hi); done.
Qed.

Lemma run_fetcher_done remotes fuel : ∀ schedule st outs,
  fetcher_ok remotes st outs → (total_work (fs_remotes st) ≤ fuel)%nat →
  ∃ outs', fetcher_ok remotes (run_fetcher fuel schedule st) outs' ∧
           Forall (λ x, x.2 = FDone) (fs_remotes (run_fetcher fuel schedule st)).
Proof.
  induction fuel as [|fuel IH]; intros schedule st outs Hok Hle; simpl.
  - exists outs. split; [done|]. apply (no_deadlock remotes st outs Hok).
    destruct (steps st) as [|st' l] eqn:Hs; [done|].
    destruct (fetcher_step_ok _ _ _ st' Hok) as [_ Hlt]; [rewrite Hs; left|lia].
  - destruct (steps st !! _) as [st'|] eqn:Hs.
    + apply list_elem_of_lookup_2 in Hs. destruct (fetcher_step_ok _ _ _ _ Hok Hs) as [(outs'&Hok') Hlt].
      eapply IH; [exact Hok'|lia].
    + exists outs. split; [done|]. apply (no_deadlock remotes st outs Hok).
      destruct (decide (steps st = [])) as [|Hne]; [done|].
      destruct (lookup_mod _ (default 0%nat (head schedule)) Hne). congruence.
Qed.

Lemma all_done_outcomes remotes st outs :
  fetcher_ok remotes st outs → Forall (λ x, x.2 = FDone) (fs_remotes st) →
  ∃ os, Forall2 answers remotes os ∧ fs_responses st ≡ₚ omap (M := list) id os.
Proof.
  intros [<- Hf Hp _] Hd. setoid_rewrite Hp. clear Hp.
  induction Hf as [|[r s] o l k Hok Hf IH]; [by exists []|].
  apply Forall_cons in Hd as [Hs Hd]. simpl in Hs. subst s.
  destruct (IH Hd) as (os&Ha&Hperm). destruct Hok as (out&->&Hout).
  exists (out :: os). split; [by constructor|]. simpl. destruct out; simpl; [by apply Permutation_skip|exact Hperm].
Qed.

(** All futures return, whatever the schedule. *)
Lemma do_for_all_remote_nodes_outcomes schedule remotes :
  ∃ os, Forall2 answers remotes os ∧
    do_for_all_remote_nodes schedule remotes ≡ₚ omap (M := list) id os.
Proof.
  destruct (run_fetcher_done remotes (total_work (fs_remotes (fetcher_init remotes))) schedule _ _
              (fetcher_init_ok remotes) (le_n _)) as (outs&Hok&Hd).
  destruct (all_done_outcomes _ _ _ Hok Hd) as (os&Ha&Hp). exists os.
  split; [done|]. unfold do_for_all_remote_nodes, fetcher_response. by rewrite sort_by_perm.
Qed.
End fetcher.

(** ** Binary search *)

Section binary_search.
Context {A : Type} (cmp : A → comparison) (l : list A).
Lemma binary_search_by_spec i :
  binary_search_by cmp l = Some i → ∃ x, l !! i = Some x ∧ cmp x = Eq.
Proof.
  unfold binary_search_by. destruct l as [|x0 l0]; [done|].
  set (b := binary_search_loop _ _ _ _ _). destruct ((x0 :: l0) !! b) as [x|] eqn:Hx; simpl; [|done].
  destruct (cmp x) eqn:Hc; naive_solver.
Qed.

(** The elements are sorted: those that compare less come first. *)
Context (Hgt : ∀ i j x y, (i ≤ j)%nat → l !! i = Some x → l !! j = Some y → cmp x = Gt → cmp y = Gt).
Context (Hlt : ∀ i j x y, (i ≤ j)%nat → l !! i = Some x → l !! j = Some y → cmp y = Lt → cmp x = Lt).

Lemma binary_search_loop_spec fuel : ∀ base size,
  (size ≤ S fuel)%nat → (1 ≤ size)%nat → (base + size ≤ length l)%nat →
  (∀ j y, (base + size ≤ j)%nat → l !! j = Some y → cmp y = Gt) →
  (base = 0%nat ∨ ∃ x, l !! base = Some x ∧ cmp x ≠ Gt) →
  let b := binary_search_loop fuel cmp l base size in
  (b < length l)%nat ∧ (∀ j y, (b < j)%nat → l !! j = Some y → cmp y = Gt) ∧
  (b = 0%nat ∨ ∃ x, l !! b = Some x ∧ cmp x ≠ Gt).
Proof.
  induction fuel as [|fuel IH]; intros base size Hf H1 Hle Hright Hbase; cbn [binary_search_loop].
  { assert (size = 1%nat) as -> by lia. split; [lia|]. split; [|done]. intros j y Hj. apply Hright. lia. }
  destruct (Nat.leb_spec size 1) as [Hs|Hs].
  { assert (size = 1%nat) as -> by lia. split; [lia|]. split; [|done]. intros j y Hj. apply Hright. lia. }
  assert (1 ≤ size / 2)%nat as Hh1 by (apply (Nat.Div0.div_le_mono 2 size 2); lia).
  assert (size / 2 * 2 ≤ size)%nat as Hh2 by (rewrite Nat.mul_comm; apply Nat.Div0.mul_div_le).
  set (half := (size / 2)%nat) in *.
  destruct (l !! (base + half)%nat) as [x|] eqn:Hx; [|apply lookup_ge_None in Hx; lia]. cbn [fmap option_fmap option_map].
  destruct (cmp x) eqn:Hc.
  1, 2: apply IH; [lia|lia|lia| |right; exists x; split; [done|congruence]];
    intros j y Hj; apply Hright; lia.
  apply IH; [lia|lia|lia| |done]. intros j y Hj Hy. eapply (Hgt (base + half)%nat j); [lia|done..].
Qed.

Lemma binary_search_by_complete x : x ∈ l → cmp x = Eq → is_Some (binary_search_by cmp l).
Proof.
  intros [i Hi]%list_elem_of_lookup_1 Heq. pose proof (lookup_lt_Some _ _ _ Hi) as Hlen.
  destruct (binary_search_loop_spec (length l) 0 (length l)) as (Hb&Hr&Hbase);
    [lia|lia|lia|intros j y Hj Hy; apply lookup_lt_Some in Hy; lia|by left|].
  unfold binary_search_by. destruct l as [|x0 l0] eqn:El; [done|]. rewrite <-El in *.
  set (b := binary_search_loop (length l) cmp l 0 (length l)) in *.
  destruct (lookup_lt_is_Some_2 l b Hb) as [y Hy]. rewrite Hy. simpl.
  assert (i ≤ b)%nat as Hib.
  { destruct (decide (i ≤ b)%nat); [done|]. rewrite (Hr i x) in Heq; [done|lia|done]. }
  destruct (cmp y) eqn:Hc; [by eexists|..].
  - rewrite (Hlt i b x y) in Heq; done.
  - destruct Hbase as [Hz|(y'&Hy'&?)]; [|congruence].
    rewrite Hz in *. assert (i = 0%nat) as -> by lia. congruence.
Qed.
End binary_search.

Lemma StronglySorted_lookup_lt {A} (R : relation A) (l : list A) i j x y :
  StronglySorted R l → l !! i = Some x → l !! j = Some y → (i < j)%nat → R x y.
Proof.
  intros Hs. revert i j. induction Hs as [|z l Hs IH Hz]; intros i j Hx Hy Hij; [done|].
  destruct j as [|j]; [lia|]. destruct i as [|i]; simpl in *; simplify_eq.
  - rewrite Forall_forall in Hz. by apply Hz, list_elem_of_lookup_2 with j.
  - apply (IH i j); [done|done|lia].
Qed.

Lemma fetcher_response_search {R} (rs : list (RemoteResponse R)) (remote : string) :
  let cmp := λ probe : RemoteResponse R, String.compare (resp_remote probe) remote in
  let l := fetcher_response rs in
  (∀ i j x y, (i ≤ j)%nat → l !! i = Some x → l !! j = Some y → cmp x = Gt → cmp y = Gt) ∧
  (∀ i j x y, (i ≤ j)%nat → l !! i = Some x → l !! j = Some y → cmp y = Lt → cmp x = Lt).
Proof.
  intros cmp l.
  assert (∀ i j x y, (i ≤ j)%nat → l !! i = Some x → l !! j = Some y →
            cle String.compare (resp_remote x) (resp_remote y)) as Hle.
  { intros i j x y Hij Hx Hy. destruct (decide (i = j)) as [->|Hne].
    - simplify_eq. unfold cle. by rewrite cmp_refl by apply _.
    - assert (StronglySorted (cle compare_remote) l) as Hs by apply sort_by_sorted, _.
      apply (StronglySorted_lookup_lt _ _ i j x y Hs Hx Hy). lia. }
  unfold cmp. split.
  - intros i j x y Hij Hx Hy Hc. pose proof (Hle i j x y Hij Hx Hy) as Hxy.
    apply cmp_Gt_Lt in Hc; [|apply _]. apply cmp_Gt_Lt; [apply _|].
    by apply (clt_le_trans String.compare _ (resp_remote x)).
  - intros i j x y Hij Hx Hy Hc. pose proof (Hle i j x y Hij Hx Hy) as Hxy.
    by apply (cle_lt_trans String.compare _ (resp_remote y)).
Qed.

(** ** Properties *)

Section properties.
Context {T : Type} (list_nodes : Remote → option (result error (list string))).
Context (func : Remote → string → option (result error T)).
Context (max_connections max_per_remote : nat).

Abbreviation reachable := (fetcher_reachable list_nodes func max_connections max_per_remote).

(** C27: asking all nodes of all remotes in parallel terminates, whatever the
    order in which tasks are scheduled: every step leaves less work, there is no
    deadlock between the two semaphores (when no task can continue, all have
    returned), and the result, sorted by remote, has for each PVE remote one
    response with one entry for each of its nodes (the error, if the nodes could
    not be listed; nothing for a node whose request panicked), and for each PBS
    remote one response with its one entry.  A remote has no response if listing
    its nodes panicked, or, for a PBS remote, if its request did ([answers]).  Both
    limits on connections are at least one. *)
Theorem fetch_nodes_terminates (schedule : list nat) (remotes : list Remote) :
  (1 ≤ max_connections)%nat → (1 ≤ max_per_remote)%nat →
  (∀ st st', reachable remotes st → st' ∈ steps list_nodes func max_per_remote st →
     (total_work list_nodes (fs_remotes st') < total_work list_nodes (fs_remotes st))%nat) ∧
  (∀ st, reachable remotes st → steps list_nodes func max_per_remote st = [] →
     Forall (λ x, x.2 = FDone) (fs_remotes st)) ∧
  let result := do_for_all_remote_nodes list_nodes func max_connections max_per_remote schedule remotes in
  StronglySorted (cle compare_remote) result ∧
  ∃ os, Forall2 (answers list_nodes func) remotes os ∧ result ≡ₚ omap (M := list) id os.
Proof.
  intros H1 H2. split_and!.
  - intros st st' (outs&Hok)%reachable_ok Hin; [|done]. by apply (fetcher_step_ok _ _ _ _ H2 _ _ _ _ Hok Hin).
  - intros st (outs&Hok)%reachable_ok; [|done]. by apply (no_deadlock _ _ _ _ H2 H1 _ _ _ Hok).
  - split; [apply sort_by_sorted, _|].
    by apply (do_for_all_remote_nodes_outcomes list_nodes func max_connections max_per_remote H2 H1).
Qed.

(** The limits on connections hold in every state that the tasks can reach:
    never more than [max_connections] requests are in flight, and never more
    than [max_connections_per_remote] of them go to the same remote. *)
Theorem fetch_nodes_limits (remotes : list Remote) (st : fetcher_state (T := T)) :
  (1 ≤ max_connections)%nat → (1 ≤ max_per_remote)%nat → reachable remotes st →
  (sum_list_with (λ x, in_flight x.2) (fs_remotes st) ≤ max_connections)%nat ∧
  Forall (λ x, (in_flight x.2 ≤ max_per_remote)%nat) (fs_remotes st).
Proof.
  intros H1 H2 (outs&[_ Hf _ Hh])%reachable_ok; [|done]. split.
  - assert (sum_list_with (λ x, in_flight x.2) (fs_remotes st) ≤ total_held (fs_remotes st))%nat; [|lia].
    unfold total_held. clear. induction (fs_remotes st) as [|[r s] l IH]; simpl; [lia|].
    assert (in_flight s ≤ held s)%nat; [|lia]. destruct s as [| | |[] ? ? ?| |]; simpl; lia.
  - clear Hh. induction Hf as [|[r s] o l k Hok Hf IH]; constructor; [|done].
    destruct s; simpl in *; naive_solver lia.
Qed.

(** A schedule only permutes. *)
Lemma join_order_perm {A} (l : list A) sched : join_order (length l) sched l ≡ₚ l.
Proof.
  remember (length l) as n eqn:Hn. revert l sched Hn.
  induction n as [|n IH]; intros [|x l] sched Hn; [done|done|done|]. cbn [join_order].
  destruct (lookup_mod (picks (x :: l)) (default 0%nat (head sched))) as [[y k] Hp]; [done|].
  rewrite Hp. apply list_elem_of_lookup_2, elem_of_picks in Hp.
  pose proof (Permutation_length Hp) as Hl. simpl in Hn, Hl. rewrite (IH k) by lia. by rewrite Hp.
Qed.

(** One response for each remote that was asked (and did not panic). *)
Lemma do_for_all_remotes_perm (schedule : list nat) (remotes : list Remote) :
  do_for_all_remotes func schedule remotes ≡ₚ
  omap (M := list) (λ r, mkResponse (rm_id r) (rm_ty r) <$> fetch_node func r "localhost") remotes.
Proof.
  unfold do_for_all_remotes, fetcher_response. by rewrite sort_by_perm, join_order_perm.
Qed.

(** Looking up the response of a remote by binary search finds one exactly
    if there is one, however the responses came in; if no remote was asked twice
    it is the only one. *)
Theorem get_remote_response_spec {R} (responses : list (RemoteResponse R)) (remote : string) :
  match get_remote_response (fetcher_response responses) remote with
  | Some r => r ∈ responses ∧ resp_remote r = remote ∧
              (NoDup (resp_remote <$> responses) → ∀ r', r' ∈ responses → resp_remote r' = remote → r' = r)
  | None => remote ∉ resp_remote <$> responses
  end.
Proof.
  destruct (fetcher_response_search responses remote) as [Hgt Hlt].
  unfold get_remote_response.
  destruct (binary_search_by _ (fetcher_response responses)) as [i|] eqn:Hb; simpl.
  - apply binary_search_by_spec in Hb as (x&Hx&Heq). rewrite Hx.
    apply string_compare_Eq in Heq. apply list_elem_of_lookup_2 in Hx as Hin.
    unfold fetcher_response in Hin. rewrite elem_of_sort_by in Hin.
    split; [done|]. split; [done|]. intros Hnd r' Hin' Heq'.
    apply list_elem_of_lookup_1 in Hin as [a Ha]. apply list_elem_of_lookup_1 in Hin' as [b Hb].
    assert (a = b) as ->; [|congruence].
    eapply (NoDup_lookup _ _ _ remote Hnd); rewrite list_lookup_fmap, ?Ha, ?Hb; simpl; congruence.
  - intros (r&->&Hin)%list_elem_of_fmap.
    rewrite <-(elem_of_sort_by compare_remote) in Hin.
    destruct (binary_search_by_complete _ _ Hgt Hlt r Hin) as [i Hi]; [by apply string_compare_Eq|].
    congruence.
Qed.
End properties.

(** ** Witnesses *)

Module FetcherDemo.
Definition demo_remotes : list Remote :=
  [mkRemote "pve1" RemoteType.Pve; mkRemote "pbs1" RemoteType.Pbs; mkRemote "pve2" RemoteType.Pve;
   mkRemote "pbs2" RemoteType.Pbs].

Definition demo_nodes (r : Remote) : option (result error (list string)) :=
  if String.eqb (rm_id r) "pve1" then Some (Ok ["n1"; "n2"; "n3"]%string) else Some (Err EIo).

(** The requests to [n2] and to [pbs2] panic, the one to [n3] fails. *)
Definition demo_func (r : Remote) (node : string) : option (result error Z) :=
  if String.eqb node "n2" || String.eqb (rm_id r) "pbs2" then None else if String.eqb node "n3" then Some (Err EIo) else Some (Ok 1).

Definition demo_run (schedule : list nat) : list (RemoteResponse (MultipleNodesResponse Z)) :=
  do_for_all_remote_nodes demo_nodes demo_func 2 1 schedule demo_remotes.

Lemma fetch_nodes_terminates_witness :
  demo_run [2; 1; 4; 0; 1]%nat =
    [mkResponse "pbs1" RemoteType.Pbs (Ok [mkNodeResponse "localhost" (Ok 1)]);
     mkResponse "pve1" RemoteType.Pve (Ok [mkNodeResponse "n1" (Ok 1); mkNodeResponse "n3" (Err EIo)]);
     mkResponse "pve2" RemoteType.Pve (Err EIo)] ∧
  ∃ os, Forall2 (answers demo_nodes demo_func) demo_remotes os ∧
    demo_run [2; 1; 4; 0; 1]%nat ≡ₚ omap (M := list) id os.
Proof.
  split; [vm_compute; reflexivity|].
  apply (fetch_nodes_terminates demo_nodes demo_func 2 1 [2; 1; 4; 0; 1]%nat demo_remotes); lia.
Defined.

Lemma fetch_nodes_limits_witness :
  Forall (λ x, (in_flight x.2 ≤ 1)%nat)
    (fs_remotes (fetcher_init (T := Z) 2 demo_remotes)).
Proof.
  apply (fetch_nodes_limits demo_nodes demo_func 2 1 demo_remotes); [lia|lia|apply reachable_init].
Defined.
End FetcherDemo.
