(* ===== verification/TaskItems.v ===== *)
(** * Task cache: items, state file contents and iterators

    Model of the data types and iterators of
    [server/src/remote_tasks/task_cache.rs]: [TaskCacheItem], [State],
    [NodeFetchSuccessMap], [compare_tasks], [MergeTaskIterator],
    [ArchiveIterator] and [JournalIterator].  Iterators are the lists of the
    items they yield.

    Not under [src/], hence parameters (class [TaskCodec]): the JSON encoding
    of items and of the state ([serde_json]) and the zstd codec. *)

From S2P Require Import Prelude FileSystem RemoteUpid.

Record TaskCacheItem : Type := mkItem {
  item_upid : RemoteUpid;
  item_starttime : Z;
  item_status : option string;
  item_endtime : option Z;
}.

#[export] Instance TaskCacheItem_eq_dec : EqDecision TaskCacheItem.
Proof. solve_decision. Defined.

#[export] Instance TaskCacheItem_countable : Countable TaskCacheItem.
Proof.
  refine (inj_countable' (λ t, (item_upid t, item_starttime t, item_status t, item_endtime t))
            (λ '(u, s, st, e), mkItem u s st e) _).
  by intros [].
Defined.

(** ** The state file *)

Record NodeState : Type := mkNodeState { cutoff : Z }.
Record RemoteState : Type := mkRemoteState { node_state : gmap string NodeState }.
Record State : Type := mkState {
  remote_state : gmap string RemoteState;
  tracked_tasks : gset RemoteUpid;
}.

Definition default_state : State := mkState ∅ ∅.

Definition cutoff_timestamp (st : State) (remote_id node : string) : option Z :=
  rs ← remote_state st !! remote_id;
  cutoff <$> node_state rs !! node.

Definition state_add_tracked_task (st : State) (upid : RemoteUpid) : State :=
  mkState (remote_state st) ({[upid]} ∪ tracked_tasks st).

Definition state_remove_tracked_task (st : State) (upid : RemoteUpid) : State :=
  mkState (remote_state st) (tracked_tasks st ∖ {[upid]}).

Definition update_cutoff_timestamp (st : State) (remote_id node : string)
    (update_fn : option Z → Z) : State :=
  match remote_state st !! remote_id with
  | Some rs =>
      let ns := match node_state rs !! node with
                | Some n => mkNodeState (update_fn (Some (cutoff n)))
                | None => mkNodeState (update_fn None)
                end in
      mkState (<[remote_id := mkRemoteState (<[node := ns]> (node_state rs))]> (remote_state st))
              (tracked_tasks st)
  | None =>
      mkState (<[remote_id := mkRemoteState {[node := mkNodeState (update_fn None)]}]> (remote_state st))
              (tracked_tasks st)
  end.

(** ** Which nodes answered *)

Definition NodeFetchSuccessMap : Type := gmap (string * string) bool.

Definition set_node_success (m : gmap (string * string) bool) (remote node : string)
    : gmap (string * string) bool := <[(remote, node) := true]> m.

Definition node_successful (m : gmap (string * string) bool) (remote node : string) : bool :=
  match m !! (remote, node) with Some true => true | _ => false end.

(** [HashMap::extend]: the other map wins. *)
Definition merge_success (m other : gmap (string * string) bool) : gmap (string * string) bool :=
  other ∪ m.

(** ** The order of tasks *)

Definition upid_string (t : TaskCacheItem) : string := remote_upid_to_string (item_upid t).

Definition compare_tasks : TaskCacheItem → TaskCacheItem → comparison :=
  cmp_lex (cmp_on item_starttime Z.compare) (cmp_flip (cmp_on upid_string String.compare)).

Definition compare_tasks_reverse (a b : TaskCacheItem) : comparison := compare_tasks b a.

#[export] Instance compare_tasks_total : TotalCmp compare_tasks.
Proof. unfold compare_tasks. apply _. Qed.
#[export] Instance compare_tasks_reverse_total : TotalCmp compare_tasks_reverse.
Proof. exact (cmp_flip_total compare_tasks). Qed.

(** Two items describe the same task. *)
Definition same_task (a b : TaskCacheItem) : Prop :=
  item_starttime a = item_starttime b ∧ upid_string a = upid_string b.

Lemma compare_tasks_Eq a b : compare_tasks a b = Eq ↔ same_task a b.
Proof.
  unfold compare_tasks, cmp_lex, cmp_on, cmp_flip, cmp_then, same_task.
  destruct (Z.compare_spec (item_starttime a) (item_starttime b)) as [Heq|Hlt|Hlt].
  - rewrite string_compare_Eq. split; [by intros ->|by intros [_ ->]].
  - split; [done|]. intros []. lia.
  - split; [done|]. intros []. lia.
Qed.

#[export] Instance same_task_equiv : Equivalence same_task.
Proof. unfold same_task. split; [done|intros x y []; split; congruence|intros x y z [] []; split; congruence]. Qed.

#[export] Instance same_task_dec : RelDecision same_task.
Proof. unfold same_task. intros x y. apply _. Defined.

Lemma compare_tasks_starttime a b :
  compare_tasks a b ≠ Lt → item_starttime b ≤ item_starttime a.
Proof.
  unfold compare_tasks, cmp_lex, cmp_on, cmp_then.
  destruct (Z.compare_spec (item_starttime a) (item_starttime b)); [lia|done|lia].
Qed.

(** Most recent task first, ties by UPID, no task twice. *)
Abbreviation sorted_tasks := (StronglySorted (clt compare_tasks_reverse)).

Lemma compare_tasks_Gt a b : compare_tasks a b = Gt ↔ clt compare_tasks_reverse a b.
Proof. exact (cmp_Gt_Lt compare_tasks a b). Qed.

(** Whether a collection has an item for the task of [t]. *)
Definition has_task (t : TaskCacheItem) (l : list TaskCacheItem) : Prop :=
  ∃ t', t' ∈ l ∧ same_task t t'.

Lemma has_task_elem t l : t ∈ l → has_task t l.
Proof. intros ?. by exists t. Qed.
Lemma has_task_mono t l k : (∀ t', t' ∈ l → t' ∈ k) → has_task t l → has_task t k.
Proof. intros ? (t'&?&?). exists t'. auto. Qed.
Lemma has_task_app t l k : has_task t (l ++ k) ↔ has_task t l ∨ has_task t k.
Proof. unfold has_task. set_solver. Qed.
Lemma has_task_same t t' l : same_task t t' → has_task t l → has_task t' l.
Proof. intros Hs (u&?&?). exists u. split; [done|]. by rewrite <-Hs. Qed.
#[export] Hint Resolve has_task_elem : pdm.

(** ** Merging two iterators *)

(** [MergeTaskIterator::next], run to the end: the bigger head comes first, an
    item of the right iterator equal to the left head is consumed with it. *)
Fixpoint merge_iter (l : list TaskCacheItem) : list TaskCacheItem → list TaskCacheItem :=
  fix go (r : list TaskCacheItem) : list TaskCacheItem :=
  match l, r with
  | x :: l', y :: r' =>
      match compare_tasks x y with
      | Gt => x :: merge_iter l' r
      | Lt => y :: go r'
      | Eq => x :: merge_iter l' r'
      end
  | x :: l', [] => x :: merge_iter l' r
  | [], y :: r' => y :: go r'
  | [], [] => []
  end.

Section merge.
Implicit Types (l r : list TaskCacheItem) (x y t : TaskCacheItem).

Lemma merge_iter_nil_l r : merge_iter [] r = r.
Proof. induction r as [|y r IH]; simpl in *; [done|]. by rewrite IH. Qed.
Lemma merge_iter_nil_r l : merge_iter l [] = l.
Proof. induction l as [|x l IH]; simpl in *; [done|]. by rewrite IH. Qed.
Lemma merge_iter_cons x l y r :
  merge_iter (x :: l) (y :: r) =
  match compare_tasks x y with
  | Gt => x :: merge_iter l (y :: r)
  | Lt => y :: merge_iter (x :: l) r
  | Eq => x :: merge_iter l r
  end.
Proof. done. Qed.

(** Induction that follows the two iterators. *)
Lemma merge_iter_ind (P : list TaskCacheItem → list TaskCacheItem → list TaskCacheItem → Prop) :
  (∀ r, P [] r r) → (∀ l, P l [] l) →
  (∀ x l y r m, compare_tasks x y = Gt → P l (y :: r) m → P (x :: l) (y :: r) (x :: m)) →
  (∀ x l y r m, compare_tasks x y = Lt → P (x :: l) r m → P (x :: l) (y :: r) (y :: m)) →
  (∀ x l y r m, compare_tasks x y = Eq → P l r m → P (x :: l) (y :: r) (x :: m)) →
  ∀ l r, P l r (merge_iter l r).
Proof.
  intros H1 H2 H3 H4 H5. induction l as [|x l IHl]; intros r.
  { by rewrite merge_iter_nil_l. }
  induction r as [|y r IHr].
  { rewrite merge_iter_nil_r. apply H2. }
  rewrite merge_iter_cons. destruct (compare_tasks x y) eqn:E; auto.
Qed.

Lemma merge_iter_elem t l r : t ∈ merge_iter l r → t ∈ l ∨ t ∈ r.
Proof. apply (merge_iter_ind (λ l r m, t ∈ m → t ∈ l ∨ t ∈ r)); set_solver. Qed.

Lemma merge_iter_keeps_left t l r : t ∈ l → t ∈ merge_iter l r.
Proof. apply (merge_iter_ind (λ l r m, t ∈ l → t ∈ m)); set_solver. Qed.

Lemma merge_iter_keeps_right t l r : t ∈ r → has_task t (merge_iter l r).
Proof.
  apply (merge_iter_ind (λ l r m, t ∈ r → has_task t m)).
  - auto with pdm.
  - set_solver.
  - intros x l' y r' m _ IH (t'&?&?)%IH. exists t'. split; [by right|done].
  - intros x l' y r' m _ IH [->|(t'&?&?)%IH]%elem_of_cons.
    + apply has_task_elem. left.
    + exists t'. split; [by right|done].
  - intros x l' y r' m E IH [->|(t'&?&?)%IH]%elem_of_cons.
    + exists x. split; [left|]. symmetry. by apply compare_tasks_Eq.
    + exists t'. split; [by right|done].
Qed.

Lemma has_task_merge t l r : has_task t (merge_iter l r) ↔ has_task t l ∨ has_task t r.
Proof.
  split.
  - intros (t'&[?|?]%merge_iter_elem&?); [left|right]; by exists t'.
  - intros [(t'&Hin&Hs)|(t'&Hin&Hs)].
    + exists t'. split; [by apply merge_iter_keeps_left|done].
    + apply (has_task_same t'); [done|]. by apply merge_iter_keeps_right.
Qed.

(** Both the strict and the weak order are inherited by the merge. *)
Lemma merge_iter_sorted_gen (R : relation TaskCacheItem) l r :
  (∀ x y, clt compare_tasks_reverse x y → R x y) →
  (∀ x y t, cle compare_tasks_reverse x y → R y t → R x t) →
  StronglySorted R l → StronglySorted R r → StronglySorted R (merge_iter l r).
Proof.
  intros Hlt Hle.
  assert (∀ x m (P Q : list TaskCacheItem),
    (∀ t, t ∈ m → t ∈ P ∨ t ∈ Q) → Forall (R x) P → Forall (R x) Q → Forall (R x) m) as Hall.
  { intros x m P Q Hm. rewrite !Forall_forall. intros ? ? t [?|?]%Hm; auto. }
  assert (∀ x y k, cle compare_tasks_reverse x y → Forall (R y) k → Forall (R x) k) as Htrans.
  { intros x y k Hxy Hk. eapply Forall_impl; [exact Hk|]. intros t. by apply Hle. }
  induction l as [|x l IHl] in r |- *; [by rewrite merge_iter_nil_l|].
  induction r as [|y r IHr]; [by rewrite merge_iter_nil_r|].
  intros Hl Hr. pose proof Hl as [Hx Hl']%StronglySorted_cons.
  pose proof Hr as [Hy Hr']%StronglySorted_cons.
  rewrite merge_iter_cons. destruct (compare_tasks x y) eqn:E.
  - apply StronglySorted_cons. split; [|by apply IHl].
    apply (Hall _ _ l r); [intros t; apply merge_iter_elem|done|].
    apply (Htrans x y); [|done].
    unfold cle, compare_tasks_reverse. rewrite (cmp_antisym compare_tasks x y), E. done.
  - apply StronglySorted_cons. split; [|by apply IHr].
    assert (clt compare_tasks_reverse y x) as Hyx by done.
    apply (Hall _ _ (x :: l) r); [intros t; apply merge_iter_elem| |done].
    constructor; [auto|]. apply (Htrans y x); [|done]. unfold cle. by rewrite Hyx.
  - apply compare_tasks_Gt in E.
    apply StronglySorted_cons. split; [|by apply IHl].
    apply (Hall _ _ l (y :: r)); [intros t; apply merge_iter_elem|done|].
    constructor; [auto|]. apply (Htrans x y); [|done]. unfold cle. by rewrite E.
Qed.

Lemma merge_iter_sorted l r :
  sorted_tasks l → sorted_tasks r → sorted_tasks (merge_iter l r).
Proof. apply merge_iter_sorted_gen; [done|]. intros x y t. apply cle_lt_trans, _. Qed.

Lemma merge_iter_sorted_le l r :
  StronglySorted (cle compare_tasks_reverse) l → StronglySorted (cle compare_tasks_reverse) r →
  StronglySorted (cle compare_tasks_reverse) (merge_iter l r).
Proof.
  apply merge_iter_sorted_gen.
  - unfold clt, cle. intros x y ->. done.
  - intros x y t. by apply (cmp_le_trans compare_tasks_reverse x y t).
Qed.

(** Merging the same tasks in a second time changes nothing. *)
Lemma merge_iter_idem l r : merge_iter (merge_iter l r) r = merge_iter l r.
Proof.
  apply (merge_iter_ind (λ l r m, merge_iter m r = m)).
  - clear. induction r as [|y r IH]; [done|]. rewrite merge_iter_cons, cmp_refl by apply _.
    by rewrite IH.
  - intros k. apply merge_iter_nil_r.
  - intros x k y k' m E IH. by rewrite merge_iter_cons, E, IH.
  - intros x k y k' m _ IH. by rewrite merge_iter_cons, cmp_refl, IH by apply _.
  - intros x k y k' m E IH. by rewrite merge_iter_cons, E, IH.
Qed.
End merge.

(** Merging in tasks that are all known already changes nothing: adding the
    same task again does not duplicate it. *)
Lemma merge_iter_absorb l r :
  sorted_tasks l → sorted_tasks r → (∀ t, t ∈ r → has_task t l) → merge_iter l r = l.
Proof.
  revert r. induction l as [|x l IHl]; intros r Hl Hr Hin.
  { rewrite merge_iter_nil_l. destruct r as [|y r]; [done|].
    destruct (Hin y) as (?&?&?); [left|]. set_solver. }
  destruct r as [|y r]; [by rewrite merge_iter_nil_r|].
  apply StronglySorted_cons in Hl as [Hx Hl]. pose proof Hr as [Hy Hr']%StronglySorted_cons.
  rewrite Forall_forall in Hx, Hy.
  assert (∀ z, z ∈ r → has_task z l) as Htail.
  { intros z Hz. destruct (Hin z) as (t'&Ht'&Hs); [by right|].
    apply elem_of_cons in Ht' as [->|]; [|by exists t'].
    exfalso. apply Hy in Hz. apply compare_tasks_Gt in Hz.
    apply compare_tasks_Eq in Hs. rewrite (cmp_Eq_r compare_tasks z x y Hs) in Hz.
    destruct (Hin y) as (u&Hu&Hyu); [left|]. apply compare_tasks_Eq in Hyu.
    apply elem_of_cons in Hu as [->|Hu]; [congruence|].
    apply Hx, compare_tasks_Gt in Hu. rewrite <-(cmp_Eq_r compare_tasks y u x Hyu) in Hu.
    apply cmp_Gt_Lt in Hu; [|apply _]. congruence. }
  rewrite merge_iter_cons. destruct (compare_tasks x y) eqn:E.
  - by rewrite (IHl r).
  - exfalso. destruct (Hin y) as (u&Hu&Hyu); [left|]. apply compare_tasks_Eq in Hyu.
    rewrite (cmp_Eq_r compare_tasks y u x Hyu) in E.
    apply elem_of_cons in Hu as [->|Hu]; [by rewrite cmp_refl in E by apply _|].
    apply Hx, compare_tasks_Gt in Hu. congruence.
  - rewrite (IHl (y :: r)); [done|done|done|].
    intros z [->|Hz]%elem_of_cons; [|by apply Htail].
    destruct (Hin y) as (u&Hu&Hyu); [left|]. apply elem_of_cons in Hu as [->|]; [|by exists u].
    symmetry in Hyu. apply compare_tasks_Eq in Hyu. congruence.
Qed.

(** ** Encoding of files *)

Class TaskCodec := {
  json_of_item : TaskCacheItem → string;        (** [serde_json::to_writer] *)
  item_of_json : string → option TaskCacheItem;   (** [serde_json::from_str] *)
  json_of_state : State → string;
  state_of_json : string → option State;
  zstd_encode : string → string;
  zstd_decode : string → string * bool;   (** decoded bytes, then whether decoding failed *)
}.

Class TaskCodecLaws `{TaskCodec} : Prop := {
  item_json_roundtrip t : item_of_json (json_of_item t) = Some t;
  item_json_one_line t : one_line (json_of_item t) = true;
  state_json_roundtrip st : state_of_json (json_of_state st) = Some st;
  zstd_roundtrip b : zstd_decode (zstd_encode b) = (b, false);
}.

Section iterators.
Context `{TaskCodec}.

(** [ArchiveIterator]: one item per line; a line that cannot be decoded is
    an error item, a line that cannot be read is the last item. *)
Fixpoint read_items (ls : list (result error string)) : io (list (result error TaskCacheItem)) :=
  failed ← fs_read_fails;
  if (failed : bool) then mret [Err EIo] else
  match ls with
  | [] => mret []
  | Ok line :: ls' => items ← read_items ls'; mret (ok_or (item_of_json line) EInvalid :: items)
  | Err e :: _ => mret [Err e]
  end.
(** The items of a file all lines of which can be read. *)
Fixpoint archive_iterator (ls : list (result error string))
    : list (result error TaskCacheItem) :=
  match ls with
  | [] => []
  | Ok line :: ls' => ok_or (item_of_json line) EInvalid :: archive_iterator ls'
  | Err e :: _ => [Err e]
  end.

(** [filter_map] / [flat_map] that logs and drops errors. *)
Definition ok_items (l : list (result error TaskCacheItem)) : list TaskCacheItem :=
  omap result_ok l.
Definition has_err (l : list (result error TaskCacheItem)) : bool :=
  existsb (λ r, match r with Ok _ => false | Err _ => true end) l.

(** [tasks.sort_by(compare_tasks_reverse); tasks.dedup()]. *)
Definition sort_dedup (tasks : list TaskCacheItem) : list TaskCacheItem :=
  dedup_by (λ a b, bool_decide (a = b)) (sort_by compare_tasks_reverse tasks).

(** [JournalIterator::new], and what it yields if all lines can be read. *)
Definition read_journal (content : string) : io (list TaskCacheItem) :=
  items ← read_items (buf_lines (content, false));
  mret (sort_dedup (ok_items items)).
Definition journal_iterator (content : string) : list TaskCacheItem :=
  sort_dedup (ok_items (archive_iterator (buf_lines (content, false)))).

(** [ArchiveFileWriter::write_tasks]: each item as JSON and a line break. *)
Definition encode_items (tasks : list TaskCacheItem) : string :=
  foldr (λ t acc, json_of_item t +:+ nl +:+ acc) ""%string tasks.

Lemma elem_of_sort_dedup t l : t ∈ sort_dedup l ↔ t ∈ l.
Proof.
  unfold sort_dedup. split.
  - intros Hin. rewrite <-(elem_of_sort_by compare_tasks_reverse).
    eapply elem_of_sublist; [exact Hin|]. apply dedup_by_sublist.
  - rewrite <-(elem_of_sort_by compare_tasks_reverse). intros Hin.
    destruct (dedup_by_kept (λ a b : TaskCacheItem, bool_decide (a = b))
                (sort_by compare_tasks_reverse l) t) as (z&Hz&Heq);
      [by intros; apply bool_decide_true|exact Hin|].
    apply bool_decide_eq_true in Heq. by subst.
Qed.

Lemma sort_dedup_sorted l : StronglySorted (cle compare_tasks_reverse) (sort_dedup l).
Proof.
  eapply StronglySorted_sublist; [apply dedup_by_sublist|]. apply sort_by_sorted, _.
Qed.

Lemma elem_of_ok_items t l : t ∈ ok_items l ↔ Ok t ∈ l.
Proof.
  unfold ok_items. rewrite list_elem_of_omap. split.
  - intros ([]&?&?); simplify_eq/=. done.
  - intros ?. by exists (Ok t).
Qed.

Lemma ok_items_Ok l : ok_items (Ok <$> l) = l.
Proof. induction l as [|t l IH]; simpl; [done|]. f_equal. exact IH. Qed.
Lemma has_err_Ok l : has_err (Ok <$> l) = false.
Proof. by induction l. Qed.

(** *** Reading, completely or up to a fault *)

(** What was read when reading on failed after some of the lines. *)
Definition cut_at (k : nat) (l : list (result error TaskCacheItem)) : list (result error TaskCacheItem) :=
  take k l ++ [Err EIo].

Lemma read_items_spec ls w :
  ∃ items w', read_items ls w = (Ok items, w') ∧ files w' = files w ∧ faults w' = faults w ∧
    (items = archive_iterator ls ∨ ∃ k, items = cut_at k (archive_iterator ls)) ∧
    (read_faults w = [] → items = archive_iterator ls ∧ read_faults w' = []).
Proof.
  revert w. induction ls as [|[line|e] ls IH]; intros w; cbn [read_items archive_iterator];
    rewrite io_bind_run; cbn [fs_read_fails];
    (destruct (default false (head (read_faults w))) eqn:Hf;
      [eexists _, _; split_and!; [done|done|done|right; by exists 0%nat|by destruct (read_faults w)]|]).
  - eexists _, _. split_and!; [done|done|done|by left|]. intros Hr. by rewrite Hr.
  - rewrite io_bind_run.
    destruct (IH (mkWorld (files w) (faults w) (tail (read_faults w)))) as (items&w'&->&Hfi&Hfa&Hit&Hr).
    eexists _, w'. split_and!; [done|done|done| |].
    + destruct Hit as [->|[k ->]]; [by left|right; by exists (S k)].
    + intros Hn. cbn in Hr. rewrite Hn in Hr. by destruct (Hr eq_refl) as [-> ?].
  - eexists _, _. split_and!; [done|done|done|by left|]. intros Hr. by rewrite Hr.
Qed.
Lemma read_items_run ls m fl : read_items ls (World m fl) = (Ok (archive_iterator ls), World m fl).
Proof.
  destruct (read_items_spec ls (World m fl)) as (items&[m' fl' rf']&->&Hfi&Hfa&_&Hr).
  destruct (Hr eq_refl) as [-> Hrf]. cbn in *. by subst.
Qed.
Lemma read_items_readonly (R : relation (gmap string string)) `{!Reflexive R} ls : io_rel R (read_items ls).
Proof. intros w. destruct (read_items_spec ls w) as (items&w'&->&Hfi&_). cbn. by rewrite Hfi. Qed.
Lemma read_journal_readonly (R : relation (gmap string string)) `{!PreOrder R} content : io_rel R (read_journal content).
Proof. apply io_rel_bind; [done|apply read_items_readonly, _|]. intros items. apply io_rel_ret, _. Qed.
Lemma quiet_read_items P ls : quiet P (read_items ls) (λ items m, P m ∧ items = archive_iterator ls).
Proof. intros m HP. exists (archive_iterator ls), m. by rewrite read_items_run. Qed.
Lemma quiet_read_journal P content : quiet P (read_journal content) (λ l m, P m ∧ l = journal_iterator content).
Proof.
  eapply quiet_bind; [apply quiet_read_items|]. intros items. apply quiet_ret. by intros m [? ->].
Qed.
Lemma triple_read_items P ls E :
  Readable.triple P (read_items ls) (λ items m, P m ∧ items = archive_iterator ls) E.
Proof.
  intros w HP Hr. destruct (read_items_spec ls w) as (items&w'&->&Hfi&_&_&Hit).
  destruct (Hit Hr) as [-> ?]. by rewrite Hfi.
Qed.
Lemma triple_read_journal P content E :
  Readable.triple P (read_journal content) (λ l m, P m ∧ l = journal_iterator content) E.
Proof.
  eapply Readable.readable_bind; [apply triple_read_items|]. intros items. apply Readable.readable_ret. by intros m [? ->].
Qed.

Section laws.
Context `{!TaskCodecLaws}.

Lemma archive_iterator_encode_app tasks b failed :
  archive_iterator (lines_from "" (encode_items tasks +:+ b) failed) =
  (Ok <$> tasks) ++ archive_iterator (lines_from "" b failed).
Proof.
  induction tasks as [|t tasks IH]; [done|].
  change (encode_items (t :: tasks)) with (json_of_item t +:+ nl +:+ encode_items tasks).
  rewrite !str_app_assoc, lines_from_cons by apply item_json_one_line.
  simpl. rewrite item_json_roundtrip. simpl. by rewrite IH.
Qed.

(** What is written to an archive file is what is read back. *)
Lemma archive_iterator_encode tasks :
  archive_iterator (buf_lines (encode_items tasks, false)) = Ok <$> tasks.
Proof.
  unfold buf_lines. simpl. rewrite <-(str_app_nil_r (encode_items tasks)).
  rewrite archive_iterator_encode_app. simpl. by rewrite app_nil_r.
Qed.
End laws.
End iterators.

(** ** A concrete codec

    Shows that the laws of [TaskCodec] can hold, and runs the model in
    examples: items are numbered through stdpp's [Countable] and the number is
    written with the characters [0], [1] and [.]; a compressed file is marked
    by a leading [Z]. *)

#[export] Instance NodeState_eq_dec : EqDecision NodeState.
Proof. solve_decision. Defined.
#[export] Instance NodeState_countable : Countable NodeState.
Proof. refine (inj_countable' cutoff mkNodeState _). by intros []. Defined.
#[export] Instance RemoteState_eq_dec : EqDecision RemoteState.
Proof. solve_decision. Defined.
#[export] Instance RemoteState_countable : Countable RemoteState.
Proof. refine (inj_countable' node_state mkRemoteState _). by intros []. Defined.
#[export] Instance State_eq_dec : EqDecision State.
Proof. solve_decision. Defined.
#[export] Instance State_countable : Countable State.
Proof.
  refine (inj_countable' (λ st, (remote_state st, tracked_tasks st))
            (λ '(r, t), mkState r t) _).
  by intros [].
Defined.

Fixpoint bits_of_pos (p : positive) : string :=
  match p with
  | xH => "."
  | xO p' => String "0" (bits_of_pos p')
  | xI p' => String "1" (bits_of_pos p')
  end.

Fixpoint pos_of_bits (s : string) : option positive :=
  match s with
  | EmptyString => None
  | String a s' =>
      if Ascii.eqb a "." then (if String.eqb s' "" then Some xH else None)
      else if Ascii.eqb a "0" then xO <$> pos_of_bits s'
      else if Ascii.eqb a "1" then xI <$> pos_of_bits s'
      else None
  end.

Lemma pos_of_bits_of_pos p : pos_of_bits (bits_of_pos p) = Some p.
Proof. induction p as [p IH|p IH|]; cbn; rewrite ?IH; done. Qed.

Lemma bits_of_pos_one_line p : one_line (bits_of_pos p) = true.
Proof.
  unfold one_line. rewrite !andb_true_iff, !negb_true_iff.
  induction p as [p [[IH1 IH2] IH3]|p [[IH1 IH2] IH3]|]; [| |done].
  all: cbn [bits_of_pos char_in utf8_valid]; rewrite IH1, IH2, IH3; done.
Qed.

Definition demo_codec : TaskCodec := {|
  json_of_item t := bits_of_pos (encode t);
  item_of_json s := pos_of_bits s ≫= decode;
  json_of_state st := bits_of_pos (encode st);
  state_of_json s := pos_of_bits s ≫= decode;
  zstd_encode b := String "Z" b;
  zstd_decode s := match s with
                   | String a b => if Ascii.eqb a "Z" then (b, false) else (""%string, true)
                   | EmptyString => (""%string, true)
                   end;
|}.

Lemma demo_codec_laws : @TaskCodecLaws demo_codec.
Proof.
  split; cbn [item_of_json json_of_item state_of_json json_of_state demo_codec].
  - intros t. rewrite pos_of_bits_of_pos. apply decode_encode.
  - intros t. apply bits_of_pos_one_line.
  - intros st. rewrite pos_of_bits_of_pos. apply decode_encode.
  - done.
Qed.
