(* ===== verification/TaskCache.v ===== *)
(** * Task cache: files, journal, rotation

    Model of [TaskCache], [WritableTaskCache] and [ReadableTaskCache] of
    [server/src/remote_tasks/task_cache.rs].  The base directory is a map from
    file names to bytes ([FileSystem]); every operation of a locked cache is a
    computation over that map, with I/O faults, among them failing to read on in
    the middle of a file.  Holding the lock is what makes
    an operation run alone, so an operation is one step on the files.

    Timestamps are [i64], counts [u32]/[u64]; both are kept as [Z]. *)

From S2P Require Import Prelude FileSystem RemoteUpid TaskItems.

Definition ACTIVE_FILENAME : string := "active".
Definition ARCHIVE_FILENAME_PREFIX : string := "archive.".
Definition STATE_FILENAME : string := "state".
Definition WAL_FILENAME : string := "journal".
Definition ZSTD_EXTENSION_WITH_DOT : string := ".zst".

Record TaskCache : Type := mkTaskCache {
  journal_max_size : Z;
  max_files : Z;
  uncompressed_files : Z;
  rotate_after : Z;
}.

Record ArchiveFile : Type := mkArchiveFile {
  af_path : string;
  af_compressed : bool;
  af_starttime : Z;
}.

#[export] Instance ArchiveFile_eq_dec : EqDecision ArchiveFile.
Proof. solve_decision. Defined.

Inductive ArchiveFileState : Type := Valid | Corrupted.
Inductive GetTasks : Type := All | Active | Archived.

Definition archive_suffix (compressed : bool) : string :=
  if compressed then ZSTD_EXTENSION_WITH_DOT else "".

Definition archive_path (starttime : Z) (compressed : bool) : string :=
  ARCHIVE_FILENAME_PREFIX +:+ show_Z starttime +:+ archive_suffix compressed.

Definition parse_archive_filename (filename : string) : option ArchiveFile :=
  rest ← strip_prefix ARCHIVE_FILENAME_PREFIX filename;
  match strip_suffix ZSTD_EXTENSION_WITH_DOT rest with
  | Some starttime => s ← parse_i64 starttime; Some (mkArchiveFile filename true s)
  | None => s ← parse_i64 rest; Some (mkArchiveFile filename false s)
  end.

Definition active_file : ArchiveFile := mkArchiveFile ACTIVE_FILENAME false 0.

(** [ArchiveFile::set_compressed] replaces the file name. *)
Definition set_compressed (f : ArchiveFile) (compressed : bool) : ArchiveFile :=
  mkArchiveFile (archive_path (af_starttime f) compressed) compressed (af_starttime f).

(** Newest first; of two files with the same start time the compressed one first. *)
Definition compare_archive_files : ArchiveFile → ArchiveFile → comparison :=
  cmp_lex (cmp_flip (cmp_on af_starttime Z.compare))
          (cmp_flip (cmp_on af_compressed bool_compare)).

#[export] Instance compare_archive_files_total : TotalCmp compare_archive_files.
Proof. unfold compare_archive_files. apply _. Qed.

Definition same_starttime (a b : ArchiveFile) : bool := af_starttime a =? af_starttime b.

Definition archive_files_with_dupes : io (list ArchiveFile) :=
  names ← fs_read_dir;
  mret (sort_by compare_archive_files (omap parse_archive_filename names)).

Definition archive_files : io (list ArchiveFile) :=
  names ← archive_files_with_dupes;
  mret (dedup_by same_starttime names).

Section task_cache.
Context `{TaskCodec} (cache : TaskCache).

(** ** Reading and writing one archive file *)

Definition file_lines (f : ArchiveFile) (content : string) : list (result error string) :=
  buf_lines (if af_compressed f then zstd_decode content else (content, false)).
(** The items of a file all lines of which can be read. *)
Definition decode_file (f : ArchiveFile) (content : string)
    : list (result error TaskCacheItem) := archive_iterator (file_lines f content).

(** [ArchiveFile::iter], run to the end. *)
Definition archive_file_iter (f : ArchiveFile)
    : io (option (list (result error TaskCacheItem))) :=
  content ← fs_open (af_path f);
  match content with
  | None => mret None
  | Some content =>
      items ← read_items (file_lines f content);
      mret (Some items)
  end.

Record ArchiveFileWriter : Type := mkWriter {
  afw_archive_file : ArchiveFile;
  afw_buffer : string; (** what went to the temporary file *)
}.

Definition archive_file_writer (f : ArchiveFile) : io ArchiveFileWriter :=
  _ ← fs_sync; mret (mkWriter f "").

Definition write_tasks (w : ArchiveFileWriter) (tasks : list TaskCacheItem)
    : io ArchiveFileWriter :=
  _ ← fs_sync; mret (mkWriter (afw_archive_file w) (afw_buffer w +:+ encode_items tasks)).

Definition encode_file (compressed : bool) (b : string) : string :=
  if compressed then zstd_encode b else b.

(** Flush, fsync, then rename the temporary file over the archive file. *)
Definition commit (w : ArchiveFileWriter) : io unit :=
  _ ← fs_sync;
  fs_replace (af_path (afw_archive_file w))
             (encode_file (af_compressed (afw_archive_file w)) (afw_buffer w)).

Definition new_file (now : Z) (compress : bool) : io ArchiveFile :=
  let file := mkArchiveFile (archive_path now compress) compress now in
  writer ← archive_file_writer file;
  _ ← commit writer;
  mret file.

Definition init (now : Z) : io unit :=
  files ← archive_files;
  match files with
  | [] =>
      io_for (λ i, _ ← new_file (now - as_i64 (i * rotate_after cache))
                                (uncompressed_files cache <=? i); mret tt)
             (seqZ 0 (max_files cache))
  | _ => mret tt
  end.

(** ** The state file *)

Definition read_state : io State :=
  r ← io_try (fs_open STATE_FILENAME);
  mret match r with
       | Ok (Some content) => default default_state (state_of_json content)
       | Ok None => default_state
       | Err _ => default_state
       end.

Definition write_state (st : State) : io unit :=
  fs_replace STATE_FILENAME (json_of_state st).

Definition reset_cutoffs (reset_cutoff : Z) (st : State) : State :=
  mkState
    ((λ rs, mkRemoteState
              ((λ n, mkNodeState (Z.min (cutoff n) reset_cutoff)) <$> node_state rs))
     <$> remote_state st)
    (tracked_tasks st).

(** [iter().map(..starttime).min()] *)
Definition min_starttime (fs : list ArchiveFile) : option Z :=
  match fs with
  | [] => None
  | f :: fs' => Some (foldl (λ m g, Z.min m (af_starttime g)) (af_starttime f) fs')
  end.

Definition request_repair (corrupted : list ArchiveFile) : io unit :=
  match min_starttime corrupted with
  | Some reset_cutoff =>
      state ← read_state;
      write_state (reset_cutoffs reset_cutoff state)
  | None => mret tt
  end.

(** ** Merging tasks into the archive *)

Definition merge_single_archive_file (tasks : list TaskCacheItem) (file : ArchiveFile)
    : io ArchiveFileState :=
  match tasks with
  | [] => mret Valid
  | _ =>
      writer ← archive_file_writer file;
      it ← archive_file_iter file;
      items ← io_lift (ok_or it (EMsg "task archive file disappeared while merging tasks"));
      writer ← write_tasks writer (merge_iter (ok_items items) tasks);
      _ ← commit writer;
      mret (if has_err items then Corrupted else Valid)
  end.

(** The position of [merge_tasks_into_archive] in the list of files: the
    current file, the files after it, the tasks collected for the current
    file, and the corrupted files found so far. *)
Record merge_cursor : Type := mkCursor {
  mc_current : option ArchiveFile;
  mc_rest : list ArchiveFile;
  mc_tasks : list TaskCacheItem;
  mc_corrupted : list ArchiveFile;
}.

Definition finalize_file (current : ArchiveFile) (tasks : list TaskCacheItem)
    (corrupted : list ArchiveFile) : io (list ArchiveFile) :=
  st ← merge_single_archive_file tasks current;
  mret match st with Corrupted => corrupted ++ [current] | Valid => corrupted end.

(** The [while next.is_some()] loop. *)
Fixpoint skip_ahead (task : TaskCacheItem) (current : option ArchiveFile)
    (rest : list ArchiveFile) (tasks : list TaskCacheItem) (corrupted : list ArchiveFile)
    : io merge_cursor :=
  match rest with
  | [] => mret (mkCursor current rest tasks corrupted)
  | next :: rest' =>
      match current with
      | Some cur =>
          if af_starttime cur <=? item_starttime task
          then mret (mkCursor current rest tasks corrupted)
          else
            corrupted' ← finalize_file cur tasks corrupted;
            skip_ahead task (Some next) rest' [] corrupted'
      | None => skip_ahead task (Some next) rest' tasks corrupted
      end
  end.

Fixpoint merge_loop (tasks : list TaskCacheItem) (c : merge_cursor) : io merge_cursor :=
  match tasks with
  | [] => mret c
  | task :: tasks' =>
      c ← skip_ahead task (mc_current c) (mc_rest c) (mc_tasks c) (mc_corrupted c);
      let too_old := match mc_current c with
                     | Some current => item_starttime task <? af_starttime current
                     | None => false
                     end in
      merge_loop tasks'
        (if too_old then c
         else mkCursor (mc_current c) (mc_rest c) (mc_tasks c ++ [task]) (mc_corrupted c))
  end.

Definition merge_tasks_into_archive (tasks : list TaskCacheItem) : io (list ArchiveFile) :=
  files ← archive_files;
  c ← merge_loop tasks (mkCursor (head files) (tail files) [] []);
  match mc_current c with
  | Some current => finalize_file current (mc_tasks c) (mc_corrupted c)
  | None => mret (mc_corrupted c)
  end.

Definition apply_journal : io unit :=
  journal ← fs_open WAL_FILENAME;
  match journal with
  | None => mret tt
  | Some content =>
      tasks ← read_journal content;
      corrupted ← merge_tasks_into_archive tasks;
      _ ← fs_truncate WAL_FILENAME;
      match corrupted with
      | [] => mret tt
      | _ => request_repair corrupted
      end
  end.

Definition journal_size : io Z := fs_size WAL_FILENAME.

Definition apply_journal_if_too_large : io unit :=
  size ← journal_size;
  if journal_max_size cache <? size then apply_journal else mret tt.

(** ** Rotation *)

Definition compress_archive_file (file : ArchiveFile) : io ArchiveFileState :=
  let new_file := set_compressed file true in
  it ← archive_file_iter file;
  items ← io_lift (ok_or it (EMsg "task archive file disappeared while merging tasks"));
  writer ← archive_file_writer new_file;
  writer ← write_tasks writer (ok_items items);
  _ ← commit writer;
  _ ← fs_remove (af_path file);
  mret (if has_err items then Corrupted else Valid).

(** Keep the first file of every start time, delete the others (failing to
    delete one is only logged). *)
Fixpoint remove_dupes (seen : gset Z) (fs : list ArchiveFile) : io (list ArchiveFile) :=
  match fs with
  | [] => mret []
  | f :: fs' =>
      if bool_decide (af_starttime f ∈ seen) then
        _ ← io_try (fs_remove (af_path f));
        remove_dupes seen fs'
      else
        fs'' ← remove_dupes ({[af_starttime f]} ∪ seen) fs';
        mret (f :: fs'')
  end.

Definition start_new_file (now : Z) (fs : list ArchiveFile) : io (list ArchiveFile) :=
  f ← new_file now (uncompressed_files cache =? 0);
  _ ← apply_journal;
  mret (f :: fs).

Fixpoint compress_loop (fs : list ArchiveFile) : io (list ArchiveFile) :=
  match fs with
  | [] => mret []
  | f :: fs' =>
      if af_compressed f then compress_loop fs' else
      st ← compress_archive_file f;
      corrupted ← compress_loop fs';
      mret match st with Corrupted => f :: corrupted | Valid => corrupted end
  end.

(** [None => start_new_file(..)], [Some(bound) => if now > bound.starttime && ..] *)
Definition rotation_due (now : Z) (fs : list ArchiveFile) : bool :=
  match head fs with
  | Some bound => (af_starttime bound <? now)
                  && (as_i64 (rotate_after cache) <=? as_i64 (now - af_starttime bound))
  | None => true
  end.

Definition rotate (now : Z) : io bool :=
  with_dupes ← archive_files_with_dupes;
  fs ← remove_dupes ∅ with_dupes;
  let due := rotation_due now fs in
  fs ← (if due then start_new_file now fs else mret fs);
  let keep := Z.to_nat (max_files cache) in
  _ ← io_for (λ f, fs_remove (af_path f)) (reverse (drop keep fs));
  corrupted ← compress_loop (drop (Z.to_nat (uncompressed_files cache)) (take keep fs));
  _ ← (match corrupted with [] => mret tt | _ => request_repair corrupted end);
  mret due.

(** ** Reading tasks *)

(** [InnerTaskArchiveIterator] run to the end, on the files in the order in
    which they are popped: the items of all readable files and the corrupted
    files it records (the active file, with start time 0, is never recorded). *)
Fixpoint inner_task_archive_iterator (fs : list ArchiveFile)
    : io (list (result error TaskCacheItem) * list ArchiveFile) :=
  match fs with
  | [] => mret ([], [])
  | f :: fs' =>
      it ← io_try (archive_file_iter f);
      let items := match it with Ok (Some items) => items | _ => [] end in
      let bad := if af_starttime f =? 0 then []
                 else (λ _, f) <$> filter (λ r, has_err [r] = true) items in
      '(items', bad') ← inner_task_archive_iterator fs';
      mret (items ++ items', bad ++ bad')
  end.

(** [TaskArchiveIterator::new]; [fs] has the most recent file last. *)
Definition task_archive_iterator (journal : bool) (fs : list ArchiveFile)
    : io (list TaskCacheItem * list ArchiveFile) :=
  j ← (if journal then fs_open WAL_FILENAME else mret None);
  j ← (match j with Some content => tasks ← read_journal content; mret (Some tasks) | None => mret None end);
  '(items, bad) ← inner_task_archive_iterator (reverse fs);
  mret match j with
       | Some tasks => (merge_iter tasks (ok_items items), bad)
       | None => (ok_items items, bad)
       end.

Definition get_tasks_impl (mode : GetTasks) : io (list TaskCacheItem * list ArchiveFile) :=
  match mode with
  | All => fs ← archive_files; task_archive_iterator true (reverse fs ++ [active_file])
  | Active => task_archive_iterator false [active_file]
  | Archived => fs ← archive_files; task_archive_iterator true (reverse fs)
  end.

Definition get_tasks (mode : GetTasks) : io (list TaskCacheItem) :=
  '(tasks, _) ← get_tasks_impl mode; mret tasks.

(** ** Adding tasks *)

Definition write_active_tasks (tasks : list TaskCacheItem) : io unit :=
  writer ← archive_file_writer active_file;
  writer ← write_tasks writer tasks;
  commit writer.

Definition add_tracked_task (task : TaskCacheItem) : io unit :=
  state ← read_state;
  tasks ← get_tasks Active;
  let tasks := sort_by compare_tasks_reverse (tasks ++ [task]) in
  let state := state_add_tracked_task state (item_upid task) in
  _ ← write_active_tasks tasks;
  write_state state.

Section update.
Context `{NativeUpids}.

(** The node name under which the success map and the cutoffs know a task. *)
Definition cutoff_node (u : RemoteUpid) : option string :=
  match native_upid u with
  | Ok n => Some (match ru_remote_type u with
                  | RemoteType.Pve => native_node n
                  | RemoteType.Pbs => "localhost"%string
                  end)
  | Err _ => None
  end.

Definition raise_cutoff (success : gmap (string * string) bool) (node : string)
    (task : TaskCacheItem) (st : State) : State :=
  let remote := ru_remote (item_upid task) in
  if node_successful success remote node
  then update_cutoff_timestamp st remote node
         (λ existing, Z.max (default 0 existing) (item_starttime task))
  else st.

Definition lower_cutoff (success : gmap (string * string) bool) (node : string)
    (task : TaskCacheItem) (st : State) : State :=
  let remote := ru_remote (item_upid task) in
  if node_successful success remote node
  then update_cutoff_timestamp st remote node
         (λ existing, Z.min (default i64_MAX existing) (item_starttime task))
  else st.

(** The first loop of [write_tasks_to_journal]. *)
Fixpoint journal_finished (success : gmap (string * string) bool)
    (finished : list TaskCacheItem) (active : gmap RemoteUpid TaskCacheItem) (st : State)
    : io (gmap RemoteUpid TaskCacheItem * State) :=
  match finished with
  | [] => mret (active, st)
  | task :: finished' =>
      let active := delete (item_upid task) active in
      match cutoff_node (item_upid task) with
      | None => journal_finished success finished' active st
      | Some node =>
          let st := raise_cutoff success node task st in
          _ ← fs_append WAL_FILENAME (json_of_item task);
          _ ← fs_append WAL_FILENAME nl;
          journal_finished success finished' active st
      end
  end.

(** The second loop, over the tasks that are still running. *)
Definition lower_active_cutoffs (success : gmap (string * string) bool)
    (active : list TaskCacheItem) (st : State) : State :=
  foldl (λ st task, match cutoff_node (item_upid task) with
                    | Some node => lower_cutoff success node task st
                    | None => st
                    end) st active.

Definition write_tasks_to_journal (finished : list TaskCacheItem)
    (active : gmap RemoteUpid TaskCacheItem) (success : gmap (string * string) bool)
    (st : State) : io (gmap RemoteUpid TaskCacheItem * State) :=
  _ ← fs_open_append WAL_FILENAME;
  '(active, st) ← journal_finished success finished active st;
  let st := lower_active_cutoffs success ((map_to_list active).*2) st in
  _ ← fs_sync;
  mret (active, st).

Definition keep_active (drop_tracked : gset RemoteUpid) (tasks : list TaskCacheItem)
    : gmap RemoteUpid TaskCacheItem :=
  foldl (λ m task, if bool_decide (item_upid task ∈ drop_tracked) then m
                   else <[item_upid task := task]> m) ∅ tasks.

(** Sort the new tasks into running and finished ones. *)
Fixpoint split_new_tasks (new_tasks : list TaskCacheItem)
    (active : gmap RemoteUpid TaskCacheItem)
    : gmap RemoteUpid TaskCacheItem * list TaskCacheItem :=
  match new_tasks with
  | [] => (active, [])
  | task :: new_tasks' =>
      match item_endtime task with
      | None => split_new_tasks new_tasks' (<[item_upid task := task]> active)
      | Some _ =>
          let '(active, finished) := split_new_tasks new_tasks' active in
          (active, task :: finished)
      end
  end.

Definition drop_tracked_tasks (drop_tracked : gset RemoteUpid) (st : State) : State :=
  foldl state_remove_tracked_task st (elements drop_tracked).

(** [update] from [write_tasks_to_journal] on. *)
Definition store_update (finished : list TaskCacheItem)
    (active : gmap RemoteUpid TaskCacheItem) (success : gmap (string * string) bool)
    (state : State) : io unit :=
  '(active, state) ← write_tasks_to_journal finished active success state;
  _ ← write_active_tasks (sort_by compare_tasks_reverse ((map_to_list active).*2));
  _ ← write_state state;
  apply_journal_if_too_large.

Definition update (new_tasks : list TaskCacheItem) (success : gmap (string * string) bool)
    (drop_tracked : gset RemoteUpid) : io unit :=
  tasks ← get_tasks Active;
  let '(active, finished) := split_new_tasks new_tasks (keep_active drop_tracked tasks) in
  state ← read_state;
  let state := drop_tracked_tasks drop_tracked state in
  store_update finished active success state.
End update.
End task_cache.
