(* ===== verification/TaskArchive.v ===== *)
(** * Task cache: what the archive promises

    The archive as a set of tasks spread over files, the functional
    specification of merging tasks into it, and what merging, the journal and
    compression guarantee under arbitrary I/O faults and crashes. *)

From S2P Require Import Prelude FileSystem RemoteUpid TaskItems TaskCache.
Import Readable.

(** ** The list of archive files *)

Definition archive_names (m : gmap string string) : list ArchiveFile :=
  omap parse_archive_filename (map_to_list m).*1.

(** What [archive_files] returns. *)
Definition archive_list (m : gmap string string) : list ArchiveFile :=
  dedup_by same_starttime (sort_by compare_archive_files (archive_names m)).

Lemma archive_files_with_dupes_triple m0 :
  triple (λ m, m = m0) archive_files_with_dupes
    (λ fs m, m = m0 ∧ fs = sort_by compare_archive_files (archive_names m0)) (λ m, m = m0).
Proof.
  eapply readable_bind with (R := λ names m, m = m0 ∧ names = (map_to_list m0).*1).
  - apply readable_prim; [done|]. by intros m ->.
  - intros names. apply readable_ret. by intros m [-> ->].
Qed.

Lemma archive_files_triple m0 :
  triple (λ m, m = m0) archive_files (λ fs m, m = m0 ∧ fs = archive_list m0) (λ m, m = m0).
Proof.
  eapply readable_bind; [apply archive_files_with_dupes_triple|].
  intros fs. apply readable_ret. by intros m [-> ->].
Qed.

Lemma parse_archive_filename_path n f : parse_archive_filename n = Some f → af_path f = n.
Proof.
  unfold parse_archive_filename. destruct (strip_prefix _ n) as [r|]; simpl; [|done].
  destruct (strip_suffix _ r) as [s|].
  - destruct (parse_i64 s); simpl; intros; by simplify_eq/=.
  - destruct (parse_i64 r); simpl; intros; by simplify_eq/=.
Qed.

Lemma elem_of_archive_names f m :
  f ∈ archive_names m ↔ parse_archive_filename (af_path f) = Some f ∧ is_Some (m !! af_path f).
Proof.
  unfold archive_names. rewrite list_elem_of_omap. setoid_rewrite list_elem_of_fmap. split.
  - intros (n&((n'&c)&->&Hin)&Hp). simpl in *. apply elem_of_map_to_list in Hin.
    pose proof (parse_archive_filename_path _ _ Hp) as <-. by rewrite Hin.
  - intros [Hp [c Hc]]. exists (af_path f). split; [|done]. exists (af_path f, c).
    split; [done|]. by apply elem_of_map_to_list.
Qed.

Lemma NoDup_archive_names m : NoDup (archive_names m).
Proof.
  unfold archive_names. assert (NoDup (map_to_list m).*1) as Hnd by apply NoDup_fst_map_to_list.
  induction ((map_to_list m).*1) as [|n l IH]; [constructor|].
  apply NoDup_cons in Hnd as [Hn Hnd]. simpl.
  destruct (parse_archive_filename n) as [f|] eqn:Hp; [|by apply IH].
  apply NoDup_cons. split; [|by apply IH]. rewrite list_elem_of_omap. intros (n'&Hn'&Hp').
  apply parse_archive_filename_path in Hp, Hp'. congruence.
Qed.

Lemma archive_list_elem f m :
  f ∈ archive_list m → parse_archive_filename (af_path f) = Some f ∧ is_Some (m !! af_path f).
Proof.
  intros Hf. apply elem_of_archive_names.
  rewrite <-(elem_of_sort_by compare_archive_files).
  eapply elem_of_sublist; [exact Hf|apply dedup_by_sublist].
Qed.

(** Strictly newer first. *)
Abbreviation files_desc := (StronglySorted (λ f g : ArchiveFile, af_starttime g < af_starttime f)).

Lemma dedup_from_desc f l :
  StronglySorted (λ f g, af_starttime g ≤ af_starttime f) (f :: l) →
  files_desc (f :: dedup_from same_starttime f l).
Proof.
  revert f. induction l as [|g l IH]; intros f [Hf Hl]%StronglySorted_cons; simpl.
  { by repeat constructor. }
  unfold same_starttime at 1. pose proof Hl as [Hg Hl']%StronglySorted_cons.
  apply Forall_cons in Hf as [Hfg Hf].
  destruct (Z.eqb_spec (af_starttime f) (af_starttime g)) as [Heq|Hne].
  - apply IH. by apply StronglySorted_cons.
  - pose proof (IH g Hl) as Hs. pose proof Hs as [Hlt _]%StronglySorted_cons.
    apply StronglySorted_cons. split; [|done]. constructor; [lia|].
    eapply Forall_impl; [exact Hlt|]. simpl. lia.
Qed.

Lemma cle_newer f g : cle compare_archive_files f g → af_starttime g ≤ af_starttime f.
Proof.
  unfold cle, compare_archive_files, cmp_lex, cmp_flip, cmp_on, cmp_then.
  destruct (Z.compare_spec (af_starttime g) (af_starttime f)); [lia|lia|done].
Qed.

Lemma archive_list_desc m : files_desc (archive_list m).
Proof.
  unfold archive_list.
  assert (StronglySorted (λ f g, af_starttime g ≤ af_starttime f)
            (sort_by compare_archive_files (archive_names m))) as Hs.
  { eapply StronglySorted_mono; [apply cle_newer|]. apply sort_by_sorted, _. }
  destruct (sort_by _ _) as [|f l]; [constructor|]. by apply dedup_from_desc.
Qed.

Lemma archive_list_starttime_inj m f g :
  f ∈ archive_list m → g ∈ archive_list m → af_starttime f = af_starttime g → f = g.
Proof.
  intros Hf Hg Heq. pose proof (archive_list_desc m) as Hs.
  induction Hs as [|h l Hs IH Hh]; [set_solver|]. rewrite Forall_forall in Hh.
  apply elem_of_cons in Hf as [->|Hf], Hg as [->|Hg]; [done| | |auto].
  - apply Hh in Hg. lia.
  - apply Hh in Hf. lia.
Qed.

(** All archive files carry the name the code gives them. *)
Definition names_ok (m : gmap string string) : Prop :=
  ∀ f, f ∈ archive_names m → af_path f = archive_path (af_starttime f) (af_compressed f).

Lemma compare_archive_files_Eq f g :
  compare_archive_files f g = Eq → af_starttime f = af_starttime g ∧ af_compressed f = af_compressed g.
Proof.
  unfold compare_archive_files, cmp_lex, cmp_flip, cmp_on, cmp_then.
  destruct (Z.compare_spec (af_starttime g) (af_starttime f)) as [Heq| |]; [|done|done].
  by destruct (af_compressed f), (af_compressed g).
Qed.

(** The list depends only on which archive files exist. *)
Lemma archive_list_ext m m' :
  names_ok m → (∀ f, f ∈ archive_names m ↔ f ∈ archive_names m') →
  archive_list m = archive_list m'.
Proof.
  intros Hok Hiff. unfold archive_list. f_equal.
  apply (StronglySorted_unique_strong (cle compare_archive_files)).
  - intros f g Hf Hg Hfg Hgf. rewrite elem_of_sort_by in Hf, Hg. apply Hiff in Hg.
    destruct (compare_archive_files_Eq f g) as [H1 H2].
    { unfold cle in *. rewrite (cmp_antisym compare_archive_files f g) in Hgf.
      by destruct (compare_archive_files f g). }
    apply Hok in Hf as Hpf, Hg as Hpg. apply elem_of_archive_names in Hf as [Hf _], Hg as [Hg _].
    rewrite Hpf, H1, H2, <-Hpg in Hf. congruence.
  - apply sort_by_sorted, _.
  - apply sort_by_sorted, _.
  - rewrite !sort_by_perm. apply NoDup_Permutation; [apply NoDup_archive_names..|done].
Qed.

(** ** File names *)

Lemma show_Z_no_zst z : strip_suffix ZSTD_EXTENSION_WITH_DOT (show_Z z) = None.
Proof.
  destruct (strip_suffix _ _) as [p|] eqn:Hs; [|done]. exfalso.
  apply strip_suffix_Some in Hs. pose proof (show_Z_chars z) as Hc. rewrite Hs in Hc.
  rewrite str_forall_app in Hc. apply andb_true_iff in Hc as [_ Hc]. done.
Qed.

Lemma parse_archive_path s c :
  in_i64 s = true → parse_archive_filename (archive_path s c) = Some (mkArchiveFile (archive_path s c) c s).
Proof.
  intros Hs. unfold parse_archive_filename, archive_path.
  rewrite strip_prefix_app. cbn [mbind option_bind]. destruct c; cbn [archive_suffix].
  - rewrite strip_suffix_app, parse_show_i64 by done. done.
  - by rewrite str_app_nil_r, show_Z_no_zst, parse_show_i64 by done.
Qed.

Lemma archive_path_inj s c s' c' :
  in_i64 s = true → in_i64 s' = true → archive_path s c = archive_path s' c' → s = s' ∧ c = c'.
Proof.
  intros Hs Hs' Heq. pose proof (parse_archive_path s c Hs) as H1.
  rewrite Heq, parse_archive_path in H1 by done. by simplify_eq/=.
Qed.

(** ** Where a task belongs *)

(** The newest file whose lower bound the task does not precede. *)
Fixpoint target (fs : list ArchiveFile) (t : TaskCacheItem) : option ArchiveFile :=
  match fs with
  | [] => None
  | f :: fs' => if af_starttime f <=? item_starttime t then Some f else target fs' t
  end.

(** The tasks of [ts] that belong into [f]. *)
Definition tasks_for (fs : list ArchiveFile) (ts : list TaskCacheItem) (f : ArchiveFile)
    : list TaskCacheItem := filter (λ t, target fs t = Some f) ts.

Lemma target_Some fs t f : target fs t = Some f → f ∈ fs ∧ af_starttime f ≤ item_starttime t.
Proof.
  induction fs as [|g fs IH]; simpl; [done|].
  destruct (Z.leb_spec (af_starttime g) (item_starttime t)).
  - intros ?; simplify_eq/=. split; [left|done].
  - intros [??]%IH. split; [by right|done].
Qed.

(** A task that is not older than the oldest file has a place. *)
Lemma target_is_Some fs t :
  (∃ f, f ∈ fs ∧ af_starttime f ≤ item_starttime t) → is_Some (target fs t).
Proof.
  induction fs as [|g fs IH]; intros (f&Hf&Hle); [set_solver|]. simpl.
  destruct (Z.leb_spec (af_starttime g) (item_starttime t)); [done|].
  apply IH. exists f. apply elem_of_cons in Hf as [->|]; [lia|done].
Qed.

Lemma target_skip pre fs t :
  (∀ f, f ∈ pre → item_starttime t < af_starttime f) → target (pre ++ fs) t = target fs t.
Proof.
  induction pre as [|g pre IH]; intros Hpre; simpl; [done|].
  assert (item_starttime t < af_starttime g) by (apply Hpre; left).
  destruct (Z.leb_spec (af_starttime g) (item_starttime t)); [lia|].
  apply IH. intros f ?. apply Hpre. by right.
Qed.

Lemma tasks_for_app fs ts ts' f : tasks_for fs (ts ++ ts') f = tasks_for fs ts f ++ tasks_for fs ts' f.
Proof. apply filter_app. Qed.

Lemma tasks_for_none fs ts f :
  (∀ t, t ∈ ts → item_starttime t < af_starttime f) → tasks_for fs ts f = [].
Proof.
  intros Hlt. unfold tasks_for. apply elem_of_nil_inv. intros t [Ht Hin]%list_elem_of_filter.
  apply target_Some in Ht as [_ ?]. apply Hlt in Hin. lia.
Qed.

(** Youngest first, as [merge_tasks_into_archive] wants its tasks. *)
Abbreviation tasks_desc := (StronglySorted (λ t u : TaskCacheItem, item_starttime u ≤ item_starttime t)).

Lemma sorted_tasks_desc ts : StronglySorted (cle compare_tasks_reverse) ts → tasks_desc ts.
Proof.
  induction 1 as [|t ts Hs IH Ht]; constructor; [done|]. eapply Forall_impl; [exact Ht|].
  intros u. unfold cle, compare_tasks_reverse. intros Hu. apply compare_tasks_starttime.
  rewrite (cmp_antisym compare_tasks u t). by destruct (compare_tasks u t).
Qed.

(** ** Merging one file *)

Section merge.
Context `{TaskCodec}.
Implicit Types (m : gmap string string) (f : ArchiveFile) (ts : list TaskCacheItem).

Definition file_items (m : gmap string string) (f : ArchiveFile) : list TaskCacheItem :=
  default [] (ok_items ∘ decode_file f <$> m !! af_path f).

(** The effect of [merge_single_archive_file] on the files. *)
Definition apply_file (ts : list TaskCacheItem) (m : gmap string string) (f : ArchiveFile)
    : gmap string string :=
  match ts with
  | [] => m
  | _ => <[af_path f := encode_file (af_compressed f)
                          (encode_items (merge_iter (file_items m f) ts))]> m
  end.

Lemma archive_file_writer_triple m0 f :
  triple (λ m, m = m0) (archive_file_writer f) (λ w m, m = m0 ∧ w = mkWriter f "") (λ m, m = m0).
Proof. tstep readable_sync. by apply readable_ret. Qed.

Lemma archive_file_iter_triple m0 f :
  triple (λ m, m = m0) (archive_file_iter f)
    (λ it m, m = m0 ∧ it = decode_file f <$> m0 !! af_path f) (λ m, m = m0).
Proof.
  tstep readable_open. destruct (m0 !! af_path f) as [content|]; [|by apply readable_ret].
  eapply readable_bind; [apply triple_read_items|]. intros items. apply readable_pure. intros ->. by apply readable_ret.
Qed.

Lemma write_tasks_triple m0 w ts :
  triple (λ m, m = m0) (write_tasks w ts)
    (λ w' m, m = m0 ∧ w' = mkWriter (afw_archive_file w) (afw_buffer w +:+ encode_items ts))
    (λ m, m = m0).
Proof. tstep readable_sync. by apply readable_ret. Qed.

Lemma commit_triple m0 w :
  triple (λ m, m = m0) (commit w)
    (λ _ m, m = <[af_path (afw_archive_file w) :=
                    encode_file (af_compressed (afw_archive_file w)) (afw_buffer w)]> m0)
    (λ m, m = m0).
Proof. tstep readable_sync. apply readable_replace. Qed.

(** The items of a file that has to exist. *)
Lemma items_or_fail_triple m0 f msg :
  triple (λ m, m = m0) (io_lift (ok_or (decode_file f <$> m0 !! af_path f) (EMsg msg)))
    (λ items m, m = m0 ∧ Some items = decode_file f <$> m0 !! af_path f) (λ m, m = m0).
Proof. apply readable_lift. intros m ->. by destruct (decode_file f <$> _). Qed.

Lemma file_items_decode m f items :
  Some items = decode_file f <$> m !! af_path f → file_items m f = ok_items items.
Proof. unfold file_items. destruct (m !! af_path f); intros; by simplify_eq/=. Qed.

(** Merging into one file either fails and leaves the disk alone, or
    replaces exactly that file, atomically, by the merged tasks. *)
Lemma merge_single_triple m0 ts f :
  triple (λ m, m = m0) (merge_single_archive_file ts f)
    (λ _ m, m = apply_file ts m0 f) (λ m, m = m0).
Proof.
  unfold merge_single_archive_file, apply_file. destruct ts as [|t ts]; [by apply readable_ret|].
  tstep archive_file_writer_triple. tstep archive_file_iter_triple.
  eapply readable_bind; [apply items_or_fail_triple|]. intros items.
  apply readable_pure. intros Hitems%file_items_decode. rewrite <-Hitems.
  tstep write_tasks_triple. tstep commit_triple. by apply readable_ret.
Qed.

(** ** Merging into the whole archive *)

(** The specification: every file of [pre] receives the tasks that belong to it. *)
Definition merge_upto (fs : list ArchiveFile) (ts : list TaskCacheItem)
    (pre : list ArchiveFile) (m : gmap string string) : gmap string string :=
  foldl (λ m f, apply_file (tasks_for fs ts f) m f) m pre.

Lemma merge_upto_snoc fs ts pre f m :
  merge_upto fs ts (pre ++ [f]) m = apply_file (tasks_for fs ts f) (merge_upto fs ts pre m) f.
Proof. unfold merge_upto. by rewrite foldl_app. Qed.

Lemma merge_upto_idle fs ts pre post m :
  (∀ f, f ∈ post → tasks_for fs ts f = []) →
  merge_upto fs ts (pre ++ post) m = merge_upto fs ts pre m.
Proof.
  unfold merge_upto. rewrite foldl_app. generalize (foldl (λ m f, apply_file (tasks_for fs ts f) m f) m pre). clear m.
  induction post as [|f post IH]; intros m Hidle; simpl; [done|].
  rewrite (Hidle f) by left. apply IH. intros g ?. apply Hidle. by right.
Qed.

Section loop.
Context (fs : list ArchiveFile) (ts : list TaskCacheItem) (m0 : gmap string string).

(** Loop invariant: the files before the current one are finished, the
    current one has collected its tasks among those seen so far. *)
Record cursor_ok (done todo : list TaskCacheItem) (c : merge_cursor)
    (m : gmap string string) (pre : list ArchiveFile) (cur : ArchiveFile) : Prop := {
  co_ts : ts = done ++ todo;
  co_fs : fs = pre ++ cur :: mc_rest c;
  co_current : mc_current c = Some cur;
  co_tasks : mc_tasks c = tasks_for fs done cur;
  co_files : m = merge_upto fs ts pre m0;
  co_older : ∀ t f, t ∈ todo → f ∈ pre → item_starttime t < af_starttime f;
  co_done : ∀ t f, t ∈ done → target fs t = Some f → f ∉ mc_rest c;
}.

Definition merged_prefix (m : gmap string string) : Prop :=
  ∃ pre post, fs = pre ++ post ∧ m = merge_upto fs ts pre m0.

Lemma cursor_ok_prefix done todo c m pre cur :
  cursor_ok done todo c m pre cur → merged_prefix m.
Proof. intros []. by exists pre, (cur :: mc_rest c). Qed.

(** Finishing the current file hands over exactly the tasks that belong to
    it once no later task does. *)
Lemma finalize_file_triple done todo c m1 pre cur :
  cursor_ok done todo c m1 pre cur →
  (∀ t, t ∈ todo → item_starttime t < af_starttime cur) →
  triple (λ m, m = m1) (finalize_file cur (mc_tasks c) (mc_corrupted c))
    (λ _ m, m = merge_upto fs ts (pre ++ [cur]) m0) merged_prefix.
Proof.
  intros Hc Hlt. pose proof (cursor_ok_prefix _ _ _ _ _ _ Hc) as Hpre.
  destruct Hc as [Hts Hfs _ Htasks Hm _ _].
  assert (tasks_for fs ts cur = mc_tasks c) as Heq.
  { by rewrite Hts, tasks_for_app, (tasks_for_none _ todo), app_nil_r. }
  unfold finalize_file. eapply readable_bind.
  - eapply readable_conseq; [apply (merge_single_triple m1)|done|intros ? m Hq; exact Hq|].
    intros m ->. exact Hpre.
  - intros st. apply readable_ret. intros m ->. by rewrite merge_upto_snoc, Heq, Hm.
Qed.

Context (Hsorted : tasks_desc ts).

Lemma tasks_desc_todo done task todo t :
  ts = done ++ task :: todo → t ∈ task :: todo → item_starttime t ≤ item_starttime task.
Proof.
  intros -> [->|Hin]%elem_of_cons; [lia|].
  apply StronglySorted_app in Hsorted as (_&_&[Hall _]%StronglySorted_cons).
  rewrite Forall_forall in Hall. by apply Hall.
Qed.

Lemma skip_ahead_triple task done todo rest : ∀ pre cur tasks corrupted m1,
  cursor_ok done (task :: todo) (mkCursor (Some cur) rest tasks corrupted) m1 pre cur →
  triple (λ m, m = m1) (skip_ahead task (Some cur) rest tasks corrupted)
    (λ c m, ∃ pre' cur', cursor_ok done (task :: todo) c m pre' cur' ∧
                         (af_starttime cur' ≤ item_starttime task ∨ mc_rest c = []))
    merged_prefix.
Proof.
  induction rest as [|next rest IH]; intros pre cur tasks corrupted m1 Hc; simpl.
  { apply readable_ret. intros m ->. exists pre, cur. auto. }
  destruct (Z.leb_spec (af_starttime cur) (item_starttime task)) as [Hle|Hgt].
  { apply readable_ret. intros m ->. exists pre, cur. auto. }
  assert (∀ t, t ∈ task :: todo → item_starttime t < af_starttime cur) as Hlt.
  { intros t Ht. pose proof (tasks_desc_todo done task todo t (co_ts _ _ _ _ _ _ Hc) Ht). lia. }
  eapply readable_bind; [exact (finalize_file_triple _ _ _ _ _ _ Hc Hlt)|].
  intros corrupted'. apply (IH (pre ++ [cur])). destruct Hc as [Hts Hfs _ _ _ Hold Hdone].
  split; simpl in *; [done|by rewrite <-app_assoc|done| |done| |].
  - symmetry. apply elem_of_nil_inv. intros t [Ht Hin]%list_elem_of_filter.
    apply (Hdone t next); [done|done|left].
  - intros t f Ht [Hf| ->%list_elem_of_singleton]%elem_of_app; [by apply Hold|by apply Hlt].
  - intros t f Ht Hf Hin. apply (Hdone t f); [done|done|by right].
Qed.

Context (Hdesc : files_desc fs).

(** Taking the next task over into the current file, or dropping it. *)
Lemma cursor_ok_step done task todo c m pre cur :
  cursor_ok done (task :: todo) c m pre cur →
  af_starttime cur ≤ item_starttime task ∨ mc_rest c = [] →
  cursor_ok (done ++ [task]) todo
    (if item_starttime task <? af_starttime cur then c
     else mkCursor (mc_current c) (mc_rest c) (mc_tasks c ++ [task]) (mc_corrupted c))
    m pre cur.
Proof.
  intros [Hts Hfs Hcur Htasks Hm Hold Hdone] Hside.
  assert (∀ t f, t ∈ todo → f ∈ pre → item_starttime t < af_starttime f) as Hold'.
  { intros t f Ht. apply Hold. by right. }
  assert (target fs task = target (cur :: mc_rest c) task) as Htgt.
  { rewrite Hfs. apply target_skip. intros f. apply Hold. left. }
  simpl in Htgt. rewrite cons_middle, app_assoc in Hts.
  assert (∀ t f, t ∈ done ++ [task] → target fs t = Some f → f ∉ mc_rest c) as Hdone'.
  { intros t f [Ht| ->%list_elem_of_singleton]%elem_of_app; [by apply Hdone|].
    rewrite Htgt. destruct (Z.leb_spec (af_starttime cur) (item_starttime task)).
    - intros [= <-] Hin. rewrite Hfs in Hdesc.
      apply StronglySorted_app in Hdesc as (_&_&[Hall _]%StronglySorted_cons).
      rewrite Forall_forall in Hall. apply Hall in Hin. lia.
    - destruct Hside as [?| ->]; [lia|done]. }
  destruct (Z.leb_spec (af_starttime cur) (item_starttime task)) as [Hle|Hgt];
    destruct (Z.ltb_spec (item_starttime task) (af_starttime cur)); try lia; split; simpl; try done.
  - by rewrite tasks_for_app, Htasks; unfold tasks_for; rewrite (filter_cons_True _ task).
  - rewrite tasks_for_app, Htasks, (tasks_for_none _ [task]), app_nil_r; [done|].
    by intros t ->%list_elem_of_singleton.
Qed.

Lemma merge_loop_triple todo : ∀ done c m1 pre cur,
  cursor_ok done todo c m1 pre cur →
  triple (λ m, m = m1) (merge_loop todo c)
    (λ c m, ∃ pre cur, cursor_ok ts [] c m pre cur) merged_prefix.
Proof.
  induction todo as [|task todo IH]; intros done c m1 pre cur Hc; simpl.
  { apply readable_ret. intros m ->. exists pre, cur. pose proof (co_ts _ _ _ _ _ _ Hc) as Hts.
    rewrite app_nil_r in Hts. by rewrite <-Hts in Hc. }
  rewrite (co_current _ _ _ _ _ _ Hc). destruct c as [? rest tasks corr]. simpl in *.
  pose proof (co_current _ _ _ _ _ _ Hc) as Hcur. simpl in Hcur. subst.
  eapply readable_bind; [exact (skip_ahead_triple _ _ _ _ _ _ _ _ _ Hc)|]. intros c'.
  apply readable_from. intros m2 (pre'&cur'&Hc'&Hside).
  pose proof (cursor_ok_step _ _ _ _ _ _ _ Hc' Hside) as Hstep.
  rewrite (co_current _ _ _ _ _ _ Hc') in *. exact (IH _ _ _ _ _ Hstep).
Qed.
End loop.

(** Without any archive file there is nowhere to put a task. *)
Lemma merge_loop_nowhere_triple m0 ts : ∀ tasks corrupted,
  triple (λ m, m = m0) (merge_loop ts (mkCursor None [] tasks corrupted))
    (λ c m, m = m0 ∧ mc_current c = None) (λ m, m = m0).
Proof.
  induction ts as [|t ts IH]; intros tasks corrupted; simpl; [by apply readable_ret|].
  eapply readable_bind with (R := λ c m, m = m0 ∧ c = mkCursor None [] tasks corrupted).
  { by apply readable_ret. }
  intros c. apply readable_pure. intros ->. apply IH.
Qed.

(** Merging sorted tasks gives every file of the archive its tasks; a failure
    leaves a state in which some prefix of the files has got them. *)
Lemma merge_tasks_into_archive_triple m0 ts :
  tasks_desc ts →
  triple (λ m, m = m0) (merge_tasks_into_archive ts)
    (λ _ m, m = merge_upto (archive_list m0) ts (archive_list m0) m0)
    (merged_prefix (archive_list m0) ts m0).
Proof.
  intros Hts. unfold merge_tasks_into_archive.
  assert (∀ m, m = m0 → merged_prefix (archive_list m0) ts m0 m) as Hnone.
  { intros m ->. by exists [], (archive_list m0). }
  eapply readable_bind.
  { eapply readable_conseq; [apply (archive_files_triple m0)|done|intros ?? Hq; exact Hq|exact Hnone]. }
  intros fs. apply readable_pure. intros ->.
  pose proof (archive_list_desc m0) as Hdesc.
  destruct (archive_list m0) as [|cur rest] eqn:Hfs; simpl.
  - eapply readable_bind.
    { eapply readable_conseq; [apply (merge_loop_nowhere_triple m0)|done|intros ?? Hq; exact Hq|exact Hnone]. }
    intros c. apply readable_pure. intros ->. by apply readable_ret.
  - eapply readable_bind.
    { eapply (merge_loop_triple (cur :: rest) ts m0 Hts Hdesc ts [] _ m0 []). split; try done; set_solver. }
    intros c. apply readable_from. intros m1 (pre&cur'&Hc). rewrite (co_current _ _ _ _ _ _ _ _ _ Hc).
    eapply readable_conseq; [apply (finalize_file_triple _ _ _ _ _ _ _ _ _ Hc)|done| |done].
    + set_solver.
    + intros _ m ->. pose proof (co_fs _ _ _ _ _ _ _ _ _ Hc) as Heq.
      rewrite cons_middle, app_assoc in Heq. symmetry. fold (merge_upto (cur :: rest) ts (cur :: rest) m0).
      etransitivity; [apply (f_equal (λ l, merge_upto (cur :: rest) ts l m0) Heq)|].
      apply merge_upto_idle. intros f Hf.
      apply elem_of_nil_inv. intros t [Ht Hin]%list_elem_of_filter.
      by apply (co_done _ _ _ _ _ _ _ _ _ Hc t f).
Qed.
End merge.
