(* ===== verification/TaskJournal.v ===== *)
(** * Task cache: the journal

    What [apply_journal] does to the tasks a reader of the cache sees: merging
    puts every task into the file it belongs to, a crash at any point loses
    nothing, and running the operation again completes it, as long as the files can
    be read to their end; whatever can be read, no task is made up. *)

From S2P Require Import Prelude FileSystem RemoteUpid TaskItems TaskCache TaskArchive.
Import Readable.

Section journal.
Context `{TaskCodec} `{!TaskCodecLaws}.
Implicit Types (m : gmap string string) (f g : ArchiveFile) (ts : list TaskCacheItem).

(** ** The content of the files after a merge *)

Lemma decode_encode_file f l :
  decode_file f (encode_file (af_compressed f) (encode_items l)) = Ok <$> l.
Proof.
  unfold decode_file, file_lines, encode_file. destruct (af_compressed f).
  - by rewrite zstd_roundtrip, archive_iterator_encode.
  - apply archive_iterator_encode.
Qed.

Lemma file_items_written m f l :
  m !! af_path f = Some (encode_file (af_compressed f) (encode_items l)) → file_items m f = l.
Proof. unfold file_items. intros ->. simpl. by rewrite decode_encode_file, ok_items_Ok. Qed.

Lemma file_items_apply_same ts m f : file_items (apply_file ts m f) f = merge_iter (file_items m f) ts.
Proof.
  unfold apply_file. destruct ts as [|t ts]; [by rewrite merge_iter_nil_r|].
  apply file_items_written. apply lookup_insert_eq.
Qed.

Lemma lookup_apply_other ts m f p : p ≠ af_path f → apply_file ts m f !! p = m !! p.
Proof. intros. unfold apply_file. destruct ts; [done|]. by rewrite lookup_insert_ne. Qed.

Lemma lookup_merge_other fs ts pre m p :
  (∀ f, f ∈ pre → af_path f ≠ p) → merge_upto fs ts pre m !! p = m !! p.
Proof.
  unfold merge_upto. revert m. induction pre as [|f pre IH]; intros m Hp; simpl; [done|].
  rewrite IH by (intros g Hg; apply Hp; by right).
  apply lookup_apply_other. intros ->. by apply (Hp f); [left|].
Qed.

Lemma archive_list_path_inj m f g :
  f ∈ archive_list m → g ∈ archive_list m → af_path f = af_path g → f = g.
Proof. intros [Hf _]%archive_list_elem [Hg _]%archive_list_elem Heq. congruence. Qed.

Lemma archive_list_NoDup m : NoDup (archive_list m).
Proof.
  pose proof (archive_list_desc m) as Hs. induction Hs as [|f l Hs IH Hf]; constructor; [|done].
  intros Hin. rewrite Forall_forall in Hf. apply Hf in Hin. lia.
Qed.

Lemma file_items_merge m ts pre post f :
  archive_list m = pre ++ post →
  f ∈ archive_list m →
  file_items (merge_upto (archive_list m) ts pre m) f =
    if decide (f ∈ pre) then merge_iter (file_items m f) (tasks_for (archive_list m) ts f)
    else file_items m f.
Proof.
  revert post. induction pre as [|g pre IH] using rev_ind; intros post Heq Hf.
  { by rewrite decide_False by set_solver. }
  pose proof Heq as Heq'. rewrite <-app_assoc in Heq'. specialize (IH _ Heq' Hf).
  rewrite merge_upto_snoc. pose proof (archive_list_NoDup m) as Hnd.
  destruct (decide (f = g)) as [->|Hne].
  - rewrite file_items_apply_same, IH.
    rewrite Heq' in Hnd. apply NoDup_app in Hnd as (_&Hnd&_).
    rewrite decide_False by (intros Hg; apply (Hnd g Hg); left).
    by rewrite decide_True by set_solver.
  - assert (af_path f ≠ af_path g) as Hp.
    { intros ?. apply Hne. apply (archive_list_path_inj m); [done| |done]. rewrite Heq. set_solver. }
    unfold file_items in *. rewrite lookup_apply_other, IH by done.
    destruct (decide (f ∈ pre)), (decide (f ∈ pre ++ [g])); set_solver.
Qed.

Lemma archive_names_merge m ts pre post f :
  archive_list m = pre ++ post →
  f ∈ archive_names (merge_upto (archive_list m) ts pre m) ↔ f ∈ archive_names m.
Proof.
  intros Heq. rewrite !elem_of_archive_names.
  destruct (decide (af_path f ∈ af_path <$> pre)) as [(g&Hp&Hg)%list_elem_of_fmap|Hno].
  - assert (g ∈ archive_list m) as Hgl by (rewrite Heq; set_solver).
    rewrite Hp. pose proof (archive_list_elem g m Hgl) as [_ Hgm].
    split; intros [? _]; split; try done. clear Heq.
    unfold merge_upto. clear -Hgm. generalize (archive_list m) as fs. intros fs.
    revert m Hgm. induction pre as [|h pre IH]; intros m Hgm; simpl; [done|]. apply IH.
    unfold apply_file. destruct (tasks_for fs ts h); [done|]. apply lookup_insert_is_Some'. by right.
  - rewrite lookup_merge_other; [done|]. intros g Hg Hp. apply Hno. apply list_elem_of_fmap. by exists g.
Qed.

(** ** What a reader knows *)

Definition archive_items (m : gmap string string) : list TaskCacheItem :=
  concat (file_items m <$> archive_list m).
Definition journal_items (m : gmap string string) : list TaskCacheItem :=
  default [] (journal_iterator <$> m !! WAL_FILENAME).
(** What [get_tasks] returns for [GetTasks::Archived]. *)
Definition archived_view (m : gmap string string) : list TaskCacheItem :=
  match m !! WAL_FILENAME with
  | Some content => merge_iter (journal_iterator content) (archive_items m)
  | None => archive_items m
  end.
Definition known (m : gmap string string) (t : TaskCacheItem) : Prop :=
  has_task t (archived_view m).
(** The archive reaches back to the start of [t]. *)
Definition covered (m : gmap string string) (t : TaskCacheItem) : Prop :=
  ∃ f, f ∈ archive_list m ∧ af_starttime f ≤ item_starttime t.

Lemma has_task_archive m t :
  has_task t (archive_items m) ↔ ∃ f, f ∈ archive_list m ∧ has_task t (file_items m f).
Proof.
  unfold has_task, archive_items. setoid_rewrite list_elem_of_In.
  setoid_rewrite in_concat. setoid_rewrite <-list_elem_of_In. setoid_rewrite list_elem_of_fmap.
  split.
  - intros (t'&(l&(f&->&Hf)&Ht')&Hs). eauto.
  - intros (f&Hf&t'&Ht'&Hs). exists t'. split; [|done]. eauto.
Qed.

Lemma known_iff m t :
  known m t ↔ has_task t (journal_items m) ∨ has_task t (archive_items m).
Proof.
  unfold known, archived_view, journal_items. destruct (m !! WAL_FILENAME); simpl.
  - apply has_task_merge.
  - split; [by right|]. intros [(?&?&?)|]; [set_solver|done].
Qed.

(** Two states that differ at most in the files [ps]. *)
Definition agree_but (ps : list string) (m m' : gmap string string) : Prop :=
  ∀ p, p ∉ ps → m !! p = m' !! p.

Definition not_archive (p : string) : bool :=
  match parse_archive_filename p with Some _ => false | None => true end.

Lemma agree_names ps m m' f :
  agree_but ps m m' → forallb not_archive ps = true →
  f ∈ archive_names m ↔ f ∈ archive_names m'.
Proof.
  intros Hag Hps. rewrite !elem_of_archive_names.
  destruct (decide (af_path f ∈ ps)) as [Hin|Hin]; [|by rewrite (Hag _ Hin)].
  rewrite forallb_forall in Hps. apply list_elem_of_In, Hps in Hin. unfold not_archive in Hin.
  destruct (parse_archive_filename (af_path f)); [done|]. split; by intros [].
Qed.

Lemma agree_archive_list ps m m' :
  names_ok m → agree_but ps m m' → forallb not_archive ps = true →
  archive_list m = archive_list m' ∧ names_ok m'.
Proof.
  intros Hok Hag Hps. split.
  - apply archive_list_ext; [done|]. intros f. by eapply agree_names.
  - intros f Hf. apply Hok. by eapply agree_names.
Qed.

Lemma agree_file_items ps m m' f :
  agree_but ps m m' → forallb not_archive ps = true →
  parse_archive_filename (af_path f) = Some f → file_items m f = file_items m' f.
Proof.
  intros Hag Hps Hf. unfold file_items. rewrite (Hag (af_path f)); [done|].
  rewrite forallb_forall in Hps. intros Hin%list_elem_of_In%Hps.
  unfold not_archive in Hin. by rewrite Hf in Hin.
Qed.

Lemma agree_archive_items ps m m' :
  names_ok m → agree_but ps m m' → forallb not_archive ps = true →
  archive_items m = archive_items m'.
Proof.
  intros Hok Hag Hps. unfold archive_items.
  destruct (agree_archive_list ps m m' Hok Hag Hps) as [<- _]. f_equal.
  apply list_fmap_ext. intros i f Hf. apply list_elem_of_lookup_2, archive_list_elem in Hf as [Hf _].
  by eapply agree_file_items.
Qed.

Lemma merge_archive_list m ts pre post :
  names_ok m → archive_list m = pre ++ post →
  archive_list (merge_upto (archive_list m) ts pre m) = archive_list m ∧
  names_ok (merge_upto (archive_list m) ts pre m).
Proof.
  intros Hok Heq. split.
  - symmetry. apply archive_list_ext; [done|]. intros f. symmetry. by eapply archive_names_merge.
  - intros f Hf. apply Hok. by eapply archive_names_merge.
Qed.

Lemma journal_not_archive f m : f ∈ archive_list m → af_path f ≠ WAL_FILENAME.
Proof. intros [Hf _]%archive_list_elem Heq. rewrite Heq in Hf. done. Qed.

Lemma merge_journal m ts pre post :
  archive_list m = pre ++ post →
  merge_upto (archive_list m) ts pre m !! WAL_FILENAME = m !! WAL_FILENAME.
Proof.
  intros Heq. apply lookup_merge_other. intros f Hf. apply (journal_not_archive f m).
  rewrite Heq. set_solver.
Qed.

(** Merging adds tasks of [ts] only, and keeps all that were there. *)
Lemma has_task_merged m ts pre post t :
  names_ok m → archive_list m = pre ++ post →
  has_task t (archive_items (merge_upto (archive_list m) ts pre m)) ↔
  has_task t (archive_items m) ∨
  ∃ f, f ∈ pre ∧ has_task t (tasks_for (archive_list m) ts f).
Proof.
  intros Hok Heq. rewrite !has_task_archive.
  destruct (merge_archive_list m ts pre post Hok Heq) as [-> _]. split.
  - intros (f&Hf&Ht). rewrite (file_items_merge m ts pre post) in Ht by done.
    destruct (decide (f ∈ pre)); [|left; eauto].
    apply has_task_merge in Ht as [?|?]; [left|right]; eauto.
  - intros [(f&Hf&Ht)|(f&Hf&Ht)]; exists f.
    + split; [done|]. rewrite (file_items_merge m ts pre post) by done.
      destruct (decide (f ∈ pre)); [|done]. apply has_task_merge. by left.
    + assert (f ∈ archive_list m) by (rewrite Heq; set_solver). split; [done|].
      rewrite (file_items_merge m ts pre post), decide_True by done.
      apply has_task_merge. by right.
Qed.

(** ** Running [apply_journal] *)

Lemma read_state_triple m0 :
  triple (λ m, m = m0) read_state (λ _ m, m = m0) (λ _, False).
Proof.
  unfold read_state. eapply readable_bind with (R := λ _ m, m = m0).
  - intros w Hw Hr. unfold io_try, fs_open, prim. by destruct (faults w) as [|[] ?].
  - intros r. by apply readable_ret.
Qed.

Lemma request_repair_triple m0 corrupted :
  triple (λ m, m = m0) (request_repair corrupted)
    (λ _, agree_but [STATE_FILENAME] m0) (agree_but [STATE_FILENAME] m0).
Proof.
  assert (∀ m, m = m0 → agree_but [STATE_FILENAME] m0 m) as Hrefl by by intros m ->.
  unfold request_repair. destruct (min_starttime corrupted); [|by apply readable_ret].
  eapply readable_bind with (R := λ _ m, m = m0).
  - eapply readable_conseq; [apply (read_state_triple m0)|done|done|done].
  - intros st. eapply readable_conseq; [apply (readable_replace m0)|done| |exact Hrefl].
    intros _ m -> p Hp. rewrite lookup_insert_ne; [done|]. set_solver.
Qed.

(** The merge ran completely and the journal is empty. *)
Definition journal_applied (m m' : gmap string string) : Prop :=
  agree_but [STATE_FILENAME]
    (<[WAL_FILENAME := ""%string]>
       (merge_upto (archive_list m) (journal_items m) (archive_list m) m)) m'.

(** The states an interrupted run can leave behind. *)
Definition journal_run (m m' : gmap string string) : Prop :=
  merged_prefix (archive_list m) (journal_items m) m m' ∨ journal_applied m m'.

Lemma fs_truncate_triple m0 name :
  triple (λ m, m = m0) (fs_truncate name)
    (λ _ m, m = <[name := ""%string]> m0) (λ m, m = m0).
Proof. apply readable_prim; [done|]. intros m ->. by destruct (m0 !! name). Qed.

Lemma journal_tasks_desc content : tasks_desc (journal_iterator content).
Proof. apply sorted_tasks_desc, sort_dedup_sorted. Qed.

Lemma apply_journal_triple m0 :
  triple (λ m, m = m0) apply_journal
    (λ _ m, match m0 !! WAL_FILENAME with
            | Some _ => journal_applied m0 m
            | None => m = m0
            end) (journal_run m0).
Proof.
  assert (∀ m, m = m0 → journal_run m0 m) as Hnone.
  { intros m ->. left. by exists [], (archive_list m0). }
  unfold apply_journal. eapply readable_bind with (R := λ o m, m = m0 ∧ o = m0 !! WAL_FILENAME).
  { eapply readable_conseq; [apply (readable_open m0 WAL_FILENAME)|done|done|exact Hnone]. }
  intros o. apply readable_pure. intros ->.
  destruct (m0 !! WAL_FILENAME) as [content|] eqn:Hwal; [|by apply readable_ret].
  eapply readable_bind; [apply triple_read_journal|]. intros tasks. apply readable_pure. intros ->.
  assert (journal_items m0 = journal_iterator content) as Hj by (unfold journal_items; by rewrite Hwal).
  unfold journal_run, journal_applied in *. rewrite Hj in *.
  set (m1 := merge_upto (archive_list m0) (journal_iterator content) (archive_list m0) m0) in *.
  assert (merged_prefix (archive_list m0) (journal_iterator content) m0 m1) as Hall.
  { exists (archive_list m0), []. by rewrite app_nil_r. }
  eapply readable_bind with (R := λ _ m, m = m1).
  { eapply readable_conseq;
      [apply (merge_tasks_into_archive_triple m0), journal_tasks_desc|done|done|by left]. }
  intros corrupted. eapply readable_bind with (R := λ _ m, m = <[WAL_FILENAME := ""%string]> m1).
  { eapply readable_conseq; [apply (fs_truncate_triple m1)|done|done|]. intros m ->. by left. }
  intros _. destruct corrupted as [|c cs]; [apply readable_ret; by intros m ->|].
  eapply readable_conseq; [apply (request_repair_triple (<[WAL_FILENAME := ""%string]> m1) (c :: cs))|done|done|by right].
Qed.

(** Whatever state a run leaves behind, a task the archive reaches back to is
    known exactly if it was known before. *)
Lemma journal_run_known m m' t :
  names_ok m → journal_run m m' →
  names_ok m' ∧ archive_list m' = archive_list m ∧ (covered m t → known m' t ↔ known m t).
Proof.
  intros Hok [(pre&post&Heq&->)|Hag].
  - pose proof (merge_archive_list m (journal_items m) pre post Hok Heq) as [Hl Hn].
    split_and!; [done|done|]. intros _.
    rewrite !known_iff, (has_task_merged m _ pre post) by done.
    unfold journal_items at 1. rewrite (merge_journal m _ pre post) by done.
    split; [|tauto]. intros [?|[?|(f&Hf&t'&[_ Ht']%list_elem_of_filter&Hs)]];
      [by left|by right|left; by exists t'].
  - unfold journal_applied in Hag.
    set (m1 := merge_upto (archive_list m) (journal_items m) (archive_list m) m) in *.
    pose proof (merge_archive_list m (journal_items m) (archive_list m) [] Hok
                  (eq_sym (app_nil_r _))) as [Hl Hn]. fold m1 in Hl, Hn.
    assert (agree_but [STATE_FILENAME; WAL_FILENAME] m1 m') as Hag'.
    { intros p Hp. rewrite <-Hag by set_solver. rewrite lookup_insert_ne by set_solver. done. }
    pose proof (agree_archive_list _ _ _ Hn Hag' eq_refl) as [Hl' Hn'].
    split_and!; [done|congruence|]. intros Hcov. rewrite !known_iff.
    rewrite <-(agree_archive_items _ _ _ Hn Hag' eq_refl).
    unfold m1 at 1. rewrite (has_task_merged m _ (archive_list m) []) by (by rewrite ?app_nil_r).
    unfold journal_items at 1. rewrite <-Hag, lookup_insert_eq by set_solver. simpl. split.
    + intros [(?&?&?)|[?|(f&Hf&t'&[_ Ht']%list_elem_of_filter&Hs)]];
        [set_solver|by right|left; by exists t'].
    + intros [(t'&Ht'&Hs)|?]; [|tauto]. do 2 right.
      destruct (target_is_Some (archive_list m) t') as [f Hf].
      { destruct Hcov as (f&Hf&Hle). exists f. destruct Hs. split; [done|lia]. }
      exists f. split; [by apply target_Some in Hf as [? _]|].
      exists t'. split; [|done]. by apply list_elem_of_filter.
Qed.

(** ** Reading *)

Lemma ok_items_app l k : ok_items (l ++ k) = ok_items l ++ ok_items k.
Proof. apply omap_app. Qed.

Lemma archive_file_writer_quiet P f : quiet P (archive_file_writer f) (λ _, P).
Proof. eapply quiet_bind; [apply quiet_sync|]. intros u. by apply quiet_ret. Qed.
Lemma write_tasks_quiet P w ts : quiet P (write_tasks w ts) (λ _, P).
Proof. eapply quiet_bind; [apply quiet_sync|]. intros u. by apply quiet_ret. Qed.
Lemma archive_file_iter_quiet P f :
  quiet P (archive_file_iter f) (λ it m, P m ∧ it = decode_file f <$> m !! af_path f).
Proof.
  eapply quiet_bind; [apply quiet_open|]. intros [content|]; [|apply quiet_ret; by intros m [? <-]].
  eapply quiet_bind; [apply quiet_read_items|]. intros items. apply quiet_ret. by intros m [[? <-] ->].
Qed.

Lemma inner_task_archive_iterator_quiet fs m0 :
  quiet (λ m, m = m0) (inner_task_archive_iterator fs)
    (λ r m, m = m0 ∧ ok_items r.1 = concat (file_items m0 <$> fs)).
Proof.
  induction fs as [|f fs IH]; simpl; [by apply quiet_ret|].
  eapply quiet_bind.
  { apply quiet_try, (archive_file_iter_quiet (λ m, m = m0)). }
  intros it. apply quiet_from. intros m1 (a&->&->&->).
  eapply quiet_bind; [exact IH|]. intros [items bad]. apply quiet_ret. simpl.
  intros m [-> Hitems]. split; [done|]. rewrite ok_items_app, Hitems.
  unfold file_items at 2. by destruct (m0 !! af_path f).
Qed.

Lemma get_tasks_archived m : get_tasks Archived (World m []) = (Ok (archived_view m), World m []).
Proof.
  assert (quiet (λ m', m' = m) (get_tasks Archived) (λ r m', m' = m ∧ r = archived_view m)) as Hq;
    [|by destruct (Hq m eq_refl) as (r&m'&Heq&->&->)].
  unfold get_tasks, get_tasks_impl, task_archive_iterator, archived_view.
  eapply quiet_bind with (R := λ r m', m' = m ∧ r.1 = archived_view m);
    [|intros [l b]; apply quiet_ret; by intros ? [-> ?]].
  eapply quiet_bind with (R := λ fs m', m' = m ∧ fs = archive_list m).
  { intros m1 ->. by exists (archive_list m), m. }
  intros fs. apply quiet_from. intros m1 [-> ->].
  eapply quiet_bind; [apply quiet_open|]. intros o. apply quiet_from. intros m1 [-> ->].
  rewrite reverse_involutive.
  eapply quiet_bind with (R := λ j m', m' = m ∧ j = journal_iterator <$> m !! WAL_FILENAME).
  { destruct (m !! WAL_FILENAME) as [content|]; [|by apply quiet_ret].
    eapply quiet_bind; [apply quiet_read_journal|]. intros tasks. apply quiet_ret. by intros ? [-> ->]. }
  intros j. apply quiet_from. intros m1 [-> ->].
  eapply quiet_bind; [apply inner_task_archive_iterator_quiet|]. intros [items bad].
  apply quiet_ret. simpl. intros m1 [-> ->]. unfold archived_view, archive_items.
  by destruct (m !! WAL_FILENAME).
Qed.

(** ** A run without faults succeeds *)

Section total.
Context (fs : list ArchiveFile).

Definition all_exist (m : gmap string string) : Prop :=
  Forall (λ f, is_Some (m !! af_path f)) fs.

Lemma all_exist_insert m p d : all_exist m → all_exist (<[p := d]> m).
Proof.
  unfold all_exist. rewrite !Forall_forall. intros Hm f Hf.
  apply lookup_insert_is_Some'. right. by apply Hm.
Qed.

Lemma merge_single_quiet ts f :
  f ∈ fs → quiet all_exist (merge_single_archive_file ts f) (λ _, all_exist).
Proof.
  intros Hf. unfold merge_single_archive_file. destruct ts as [|t ts]; [by apply quiet_ret|].
  eapply quiet_bind; [apply archive_file_writer_quiet|]. intros w.
  eapply quiet_bind; [apply archive_file_iter_quiet|]. intros it.
  apply quiet_from. intros m1 [Hm1 ->].
  destruct (m1 !! af_path f) as [c|] eqn:Hc; simpl; [|].
  2: { unfold all_exist in Hm1. rewrite Forall_forall in Hm1. apply Hm1 in Hf. rewrite Hc in Hf.
       by destruct Hf. }
  eapply quiet_bind with (R := λ _ m, all_exist m); [intros m ->; by eexists _, m1|].
  intros items. eapply quiet_bind; [apply write_tasks_quiet|]. intros w'.
  eapply quiet_bind with (R := λ _ m, all_exist m); [|intros u; by apply quiet_ret].
  eapply quiet_bind; [apply (quiet_sync all_exist)|]. intros u.
  apply quiet_replace. intros m. apply all_exist_insert.
Qed.

Lemma finalize_file_quiet cur ts corrupted :
  cur ∈ fs → quiet all_exist (finalize_file cur ts corrupted) (λ _, all_exist).
Proof.
  intros Hcur. eapply quiet_bind; [by apply merge_single_quiet|]. intros st. by apply quiet_ret.
Qed.

(** The cursor stays on files of the archive. *)
Definition cursor_in (c : merge_cursor) : Prop :=
  (∀ f, mc_current c = Some f → f ∈ fs) ∧ (∀ f, f ∈ mc_rest c → f ∈ fs).

Lemma skip_ahead_quiet task rest : ∀ current tasks corrupted,
  cursor_in (mkCursor current rest tasks corrupted) →
  quiet all_exist (skip_ahead task current rest tasks corrupted)
    (λ c m, all_exist m ∧ cursor_in c).
Proof.
  induction rest as [|next rest IH]; intros current tasks corrupted Hc; simpl; [by apply quiet_ret|].
  destruct Hc as [Hcur Hrest]; simpl in *.
  assert (cursor_in (mkCursor (Some next) rest [] corrupted)) as Hnext.
  { split; simpl; [intros f [= <-]|intros f ?]; apply Hrest; [left|by right]. }
  destruct current as [cur|]; [|by apply IH].
  destruct (af_starttime cur <=? item_starttime task); [by apply quiet_ret|].
  eapply quiet_bind; [apply finalize_file_quiet; auto|]. intros corrupted'. by apply IH.
Qed.

Lemma merge_loop_quiet ts : ∀ c, cursor_in c →
  quiet all_exist (merge_loop ts c) (λ c m, all_exist m ∧ cursor_in c).
Proof.
  induction ts as [|t ts IH]; intros c Hc; simpl; [by apply quiet_ret|].
  eapply quiet_bind; [apply skip_ahead_quiet; by destruct c|].
  intros c'. apply quiet_from. intros m1 [Hm1 Hc'].
  eapply quiet_conseq; [apply IH|by intros m ->|done].
  destruct Hc' as [H1 H2]. destruct (mc_current c') as [f|] eqn:E; [destruct (_ <? _)|];
    (split; [|exact H2]); simpl; rewrite ?E; exact H1.
Qed.
End total.

Lemma merge_tasks_into_archive_quiet m0 ts :
  quiet (λ m, m = m0) (merge_tasks_into_archive ts) (λ _ _, True).
Proof.
  assert (all_exist (archive_list m0) m0) as Hex.
  { apply Forall_forall. intros f [_ ?]%archive_list_elem. done. }
  eapply quiet_bind with (R := λ fs m, m = m0 ∧ fs = archive_list m0).
  { intros m1 ->. by exists (archive_list m0), m0. }
  intros fs. apply quiet_from. intros m1 [-> ->].
  eapply quiet_bind.
  { eapply quiet_conseq; [apply (merge_loop_quiet (archive_list m0))|by intros m ->|done].
    destruct (archive_list m0) as [|f fs]; split; simpl; try done; try set_solver. }
  intros c. apply quiet_from. intros m1 [Hm1 [Hc _]].
  destruct (mc_current c) as [cur|]; [|by apply quiet_ret].
  eapply quiet_conseq; [by apply (finalize_file_quiet (archive_list m0)), Hc|by intros m ->|done].
Qed.

Definition state_of (m : gmap string string) : State :=
  match m !! STATE_FILENAME with
  | Some content => default default_state (state_of_json content)
  | None => default_state
  end.

Lemma read_state_quiet m0 : quiet (λ m, m = m0) read_state (λ st m, m = m0 ∧ st = state_of m0).
Proof.
  eapply quiet_bind; [eapply quiet_try, (quiet_open (λ m, m = m0))|]. intros r.
  apply quiet_ret. intros m (o&->&->&->). split; [done|]. unfold state_of.
  by destruct (m0 !! STATE_FILENAME).
Qed.

(** The files after the corrupted ones have been reported. *)
Definition repaired (corrupted : list ArchiveFile) (m : gmap string string) : gmap string string :=
  match min_starttime corrupted with
  | Some c => <[STATE_FILENAME := json_of_state (reset_cutoffs c (state_of m))]> m
  | None => m
  end.

Lemma request_repair_quiet m0 corrupted :
  quiet (λ m, m = m0) (request_repair corrupted) (λ _ m, m = repaired corrupted m0).
Proof.
  unfold request_repair, repaired. destruct (min_starttime corrupted); [|by apply quiet_ret].
  eapply quiet_bind; [apply read_state_quiet|]. intros st. apply quiet_replace. by intros m [-> ->].
Qed.

Lemma repaired_agree corrupted m : agree_but [STATE_FILENAME] m (repaired corrupted m).
Proof.
  intros p Hp. unfold repaired. destruct (min_starttime corrupted); [|done].
  rewrite lookup_insert_ne by set_solver. done.
Qed.

Lemma apply_journal_quiet_full m0 content :
  m0 !! WAL_FILENAME = Some content →
  quiet (λ m, m = m0) apply_journal
    (λ _ m, ∃ corrupted, m = repaired corrupted (<[WAL_FILENAME := ""%string]>
              (merge_upto (archive_list m0) (journal_items m0) (archive_list m0) m0))).
Proof.
  intros Hwal. eapply quiet_bind; [apply (quiet_open (λ m, m = m0))|]. intros o. apply quiet_from.
  intros m1 [-> ->]. rewrite Hwal.
  assert (journal_items m0 = journal_iterator content) as -> by (unfold journal_items; by rewrite Hwal).
  eapply quiet_bind; [apply quiet_read_journal|]. intros tasks. apply quiet_from. intros m1 [-> ->].
  eapply quiet_bind.
  { eapply quiet_readable; [apply merge_tasks_into_archive_quiet|].
    apply merge_tasks_into_archive_triple, journal_tasks_desc. }
  intros corrupted. apply quiet_from. intros m1 [_ ->].
  eapply quiet_bind with (R := λ _ m, m = <[WAL_FILENAME := ""%string]>
    (merge_upto (archive_list m0) (journal_iterator content) (archive_list m0) m0)).
  - apply quiet_prim. intros m ->. rewrite (merge_journal m0 _ _ []), Hwal by (by rewrite app_nil_r).
    eauto.
  - intros u. destruct corrupted as [|c cs].
    + apply quiet_ret. intros m ->. by exists [].
    + eapply quiet_conseq; [apply request_repair_quiet|intros m Hm; exact Hm|].
      intros a m ->. by exists (c :: cs).
Qed.

Lemma apply_journal_quiet m0 :
  quiet (λ m, m = m0) apply_journal
    (λ _ m, match m0 !! WAL_FILENAME with
            | Some _ => journal_applied m0 m
            | None => m = m0
            end).
Proof.
  destruct (m0 !! WAL_FILENAME) as [content|] eqn:Hwal.
  - eapply quiet_conseq; [by apply (apply_journal_quiet_full m0 content)|done|].
    intros a m [corrupted ->]. apply repaired_agree.
  - intros m ->. exists tt, m0. unfold apply_journal, fs_open.
    by rewrite io_bind_run, prim_quiet, Hwal.
Qed.

(** ** The files after a run *)

Definition journal_target_items (m : gmap string string) (f : ArchiveFile) : list TaskCacheItem :=
  merge_iter (file_items m f) (tasks_for (archive_list m) (journal_items m) f).

Lemma journal_applied_items m m' f :
  f ∈ archive_list m → journal_applied m m' → file_items m' f = journal_target_items m f.
Proof.
  intros Hf Hag. pose proof (archive_list_elem f m Hf) as [Hp _].
  assert (agree_but [STATE_FILENAME; WAL_FILENAME]
            (merge_upto (archive_list m) (journal_items m) (archive_list m) m) m') as Hag'.
  { intros p Hin. rewrite <-Hag, lookup_insert_ne by set_solver. done. }
  rewrite <-(agree_file_items _ _ _ f Hag' eq_refl Hp).
  rewrite (file_items_merge m _ _ []), decide_True by (by rewrite ?app_nil_r). done.
Qed.

Lemma apply_journal_quiet_items m f :
  f ∈ archive_list m →
  file_items (files (apply_journal (World m [])).2) f = journal_target_items m f.
Proof.
  intros Hf. destruct (apply_journal_quiet m m eq_refl) as (a&m'&->&HQ). simpl.
  destruct (m !! WAL_FILENAME) eqn:Hwal; [by apply journal_applied_items|]. subst.
  unfold journal_target_items, journal_items. rewrite Hwal. simpl. by rewrite merge_iter_nil_r.
Qed.

Lemma apply_journal_run_triple m : triple (λ m', m' = m) apply_journal (λ _, journal_run m) (journal_run m).
Proof.
  eapply readable_conseq; [apply (apply_journal_triple m)|done| |done]. simpl. intros ? m' Hm'.
  destruct (m !! WAL_FILENAME); [by right|]. subst. left. by exists [], (archive_list m).
Qed.
Lemma apply_journal_run m fl : journal_run m (files (apply_journal (World m fl)).2).
Proof.
  pose proof (apply_journal_triple m (World m fl) eq_refl eq_refl) as Ht.
  destruct (apply_journal (World m fl)) as [[a|e] w]; destruct Ht as [Ht _]; simpl; [|done].
  destruct (m !! WAL_FILENAME); [by right|]. left. exists [], (archive_list m). done.
Qed.

Lemma journal_run_items m m' f :
  f ∈ archive_list m → journal_run m m' →
  file_items m' f = file_items m f ∨ file_items m' f = journal_target_items m f.
Proof.
  intros Hf [(pre&post&Heq&->)|Hap]; [|by right; apply journal_applied_items].
  rewrite (file_items_merge m _ pre post) by done. destruct (decide (f ∈ pre)); [by right|by left].
Qed.

(** ** Files that can be read only in part

    The code logs an error while it reads on, and goes on with the lines it has
    got.  Then tasks may be lost, but none is made up. *)

Section no_new.
Context (m0 : gmap string string).

Definition no_new (m : gmap string string) : Prop :=
  (∀ f, f ∈ archive_names m ↔ f ∈ archive_names m0) ∧
  (∀ f t, f ∈ archive_list m0 → t ∈ file_items m f → t ∈ file_items m0 f ∨ t ∈ journal_items m0) ∧
  (∀ t, t ∈ journal_items m → t ∈ journal_items m0).

Lemma no_new_refl : no_new m0.
Proof. split_and!; [done|intros f t _ ?; by left|done]. Qed.

(** Writing a file of the archive that has no other tasks. *)
Lemma no_new_write f m l :
  f ∈ archive_list m0 → no_new m →
  (∀ t, t ∈ l → t ∈ file_items m0 f ∨ t ∈ journal_items m0) →
  no_new (<[af_path f := encode_file (af_compressed f) (encode_items l)]> m).
Proof.
  intros Hf (Hn&Hi&Hj) Hl. pose proof (archive_list_elem f m0 Hf) as [Hp Hex].
  assert (is_Some (m !! af_path f)) as Hm.
  { apply (elem_of_archive_names f), Hn, elem_of_archive_names. done. }
  split_and!.
  - intros g. rewrite <-Hn, !elem_of_archive_names, lookup_insert_is_Some'.
    split; [|tauto]. intros [? [Heq|?]]; (split; [done|]); [by rewrite <-Heq|done].
  - intros g t Hg Ht. destruct (decide (g = f)) as [->|Hne].
    + rewrite (file_items_written _ f l) in Ht by apply lookup_insert_eq. by apply Hl.
    + apply Hi; [done|]. unfold file_items in *. rewrite lookup_insert_ne in Ht; [done|].
      intros Heq. by apply Hne, (archive_list_path_inj m0).
  - unfold journal_items. rewrite lookup_insert_ne by by apply (journal_not_archive f m0). exact Hj.
Qed.

Lemma no_new_agree ps m m' :
  agree_but ps m m' → forallb not_archive ps = true →
  (∀ t, t ∈ journal_items m' → t ∈ journal_items m) → no_new m → no_new m'.
Proof.
  intros Hag Hps Hj' (Hn&Hi&Hj). split_and!; [|intros f t Hf|by auto].
  - intros f. rewrite <-Hn. symmetry. by eapply agree_names.
  - pose proof (archive_list_elem f m0 Hf) as [Hp _].
    rewrite <-(agree_file_items ps m m' f) by done. by apply Hi.
Qed.

Lemma read_items_any P ls :
  FileSystem.triple P (read_items ls)
    (λ items m, P m ∧ ∀ t, t ∈ ok_items items → t ∈ ok_items (archive_iterator ls)) P.
Proof.
  intros w HP. destruct (read_items_spec ls w) as (items&w'&->&->&_&Hit&_). split; [done|].
  intros t. destruct Hit as [->|[k ->]]; [done|]. rewrite !elem_of_ok_items.
  unfold cut_at. intros [Ht|?%list_elem_of_singleton]%elem_of_app; [|done].
  by apply elem_of_take in Ht as (i&Hi%list_elem_of_lookup_2&_).
Qed.

Lemma archive_file_iter_any f m1 :
  FileSystem.triple (λ m, m = m1) (archive_file_iter f)
    (λ it m, m = m1 ∧ ∀ items t, it = Some items → t ∈ ok_items items → t ∈ file_items m1 f)
    (λ m, m = m1).
Proof.
  eapply FileSystem.triple_bind; [apply (FileSystem.triple_open m1)|]. intros o.
  apply FileSystem.triple_pure. intros ->. destruct (m1 !! af_path f) as [content|] eqn:Hc.
  - eapply FileSystem.triple_bind; [apply read_items_any|]. intros items.
    apply FileSystem.triple_ret. intros m [-> Hit]. split; [done|]. intros ? t [= <-] Ht.
    unfold file_items. rewrite Hc. by apply Hit.
  - by apply FileSystem.triple_ret.
Qed.

Lemma merge_single_any ts f :
  f ∈ archive_list m0 → (∀ t, t ∈ ts → t ∈ journal_items m0) →
  FileSystem.triple no_new (merge_single_archive_file ts f) (λ _, no_new) no_new.
Proof.
  intros Hf Hts. destruct ts as [|t0 ts]; [by apply FileSystem.triple_ret|].
  unfold merge_single_archive_file. set (us := t0 :: ts) in *. apply FileSystem.triple_from.
  intros m1 Hm1. assert (∀ m, m = m1 → no_new m) as Hsame by by intros m ->.
  eapply FileSystem.triple_bind with (R := λ w m, m = m1 ∧ w = mkWriter f "").
  { eapply FileSystem.triple_bind with (R := λ _ m, m = m1); [|intros u; by apply FileSystem.triple_ret].
    by apply FileSystem.triple_prim. }
  intros w. apply FileSystem.triple_pure. intros ->.
  eapply FileSystem.triple_bind.
  { eapply FileSystem.triple_conseq; [apply (archive_file_iter_any f m1)|done|intros ?? Hq; exact Hq|done]. }
  intros it. apply FileSystem.triple_pure. intros Hit.
  eapply FileSystem.triple_bind with (R := λ items m, m = m1 ∧ ∀ t, t ∈ ok_items items → t ∈ file_items m1 f).
  { apply FileSystem.triple_lift. intros m ->. destruct it as [items|]; simpl; [|done].
    split; [done|]. intros t. by apply Hit. }
  intros items. apply FileSystem.triple_pure. intros Hitems.
  eapply FileSystem.triple_bind with (R := λ w m, m = m1 ∧ w = mkWriter f (encode_items (merge_iter (ok_items items) us))).
  { eapply FileSystem.triple_bind with (R := λ _ m, m = m1); [|intros u; by apply FileSystem.triple_ret].
    by apply FileSystem.triple_prim. }
  intros w. apply FileSystem.triple_pure. intros ->.
  eapply FileSystem.triple_bind with (R := λ _, no_new); [|intros u; by apply FileSystem.triple_ret].
  eapply FileSystem.triple_bind with (R := λ _ m, m = m1); [by apply FileSystem.triple_prim|]. intros u.
  apply FileSystem.triple_prim; [done|]. intros m ->. simpl. apply no_new_write; [done|done|].
  intros t [Ht|Ht]%merge_iter_elem; [|right; by apply Hts]. destruct Hm1 as (_&Hi&_). by apply Hi, Hitems.
Qed.

Definition cursor_known (c : merge_cursor) : Prop :=
  (∀ f, mc_current c = Some f → f ∈ archive_list m0) ∧ (∀ f, f ∈ mc_rest c → f ∈ archive_list m0) ∧
  (∀ t, t ∈ mc_tasks c → t ∈ journal_items m0).

Lemma finalize_file_any cur ts corrupted :
  cur ∈ archive_list m0 → (∀ t, t ∈ ts → t ∈ journal_items m0) →
  FileSystem.triple no_new (finalize_file cur ts corrupted) (λ _, no_new) no_new.
Proof.
  intros Hcur Hts. eapply FileSystem.triple_bind; [by apply merge_single_any|].
  intros st. by apply FileSystem.triple_ret.
Qed.

Lemma skip_ahead_any task rest : ∀ current tasks corrupted,
  cursor_known (mkCursor current rest tasks corrupted) →
  FileSystem.triple no_new (skip_ahead task current rest tasks corrupted)
    (λ c m, no_new m ∧ cursor_known c) no_new.
Proof.
  induction rest as [|next rest IH]; intros current tasks corrupted Hc; simpl;
    [by apply FileSystem.triple_ret|].
  destruct Hc as (Hcur&Hrest&Hts); simpl in *.
  assert (∀ ts, (∀ t, t ∈ ts → t ∈ journal_items m0) → ∀ corr, cursor_known (mkCursor (Some next) rest ts corr)) as Hnext.
  { intros us Hus corr. split_and!; simpl; [intros f [= <-]; apply Hrest; left|intros f ?; apply Hrest; by right|done]. }
  destruct current as [cur|]; [|by apply IH, Hnext].
  destruct (af_starttime cur <=? item_starttime task); [by apply FileSystem.triple_ret|].
  eapply FileSystem.triple_bind; [apply finalize_file_any; auto|]. intros corrupted'. apply IH, Hnext. set_solver.
Qed.

Lemma merge_loop_any ts : ∀ c, (∀ t, t ∈ ts → t ∈ journal_items m0) → cursor_known c →
  FileSystem.triple no_new (merge_loop ts c) (λ c m, no_new m ∧ cursor_known c) no_new.
Proof.
  induction ts as [|t ts IH]; intros c Hts Hc; simpl; [by apply FileSystem.triple_ret|].
  eapply FileSystem.triple_bind; [apply skip_ahead_any; by destruct c|].
  intros c'. apply FileSystem.triple_pure. intros Hc'.
  apply IH; [set_solver|]. destruct Hc' as (H1&H2&H3).
  destruct (mc_current c') as [f|] eqn:E; [destruct (_ <? _)|];
    (split_and!; simpl; rewrite ?E; [done|done|set_solver]).
Qed.

Lemma merge_tasks_into_archive_any ts :
  (∀ t, t ∈ ts → t ∈ journal_items m0) →
  FileSystem.triple (λ m, m = m0) (merge_tasks_into_archive ts) (λ _, no_new) no_new.
Proof.
  intros Hts. assert (∀ m, m = m0 → no_new m) as Hsame by (intros m ->; apply no_new_refl).
  eapply FileSystem.triple_bind with (R := λ fs m, no_new m ∧ fs = archive_list m0).
  { eapply FileSystem.triple_bind with (R := λ fs m, no_new m ∧ dedup_by same_starttime fs = archive_list m0);
      [|intros fs; apply FileSystem.triple_ret; by intros m [? ->]].
    eapply FileSystem.triple_bind with (R := λ ns m, m = m0 ∧ ns = (map_to_list m0).*1).
    - apply FileSystem.triple_prim; [done|]. by intros m ->.
    - intros ns. apply FileSystem.triple_ret. intros m [-> ->]. split; [apply no_new_refl|done]. }
  intros fs. apply FileSystem.triple_pure. intros ->.
  eapply FileSystem.triple_bind.
  { apply merge_loop_any; [done|]. destruct (archive_list m0) as [|f fs] eqn:E; split_and!; simpl; rewrite ?E; set_solver. }
  intros c. apply FileSystem.triple_pure. intros (Hcur&_&Ht).
  destruct (mc_current c) as [cur|]; [by apply finalize_file_any; auto|by apply FileSystem.triple_ret].
Qed.

Lemma request_repair_any corrupted :
  FileSystem.triple no_new (request_repair corrupted) (λ _, no_new) no_new.
Proof.
  unfold request_repair. destruct (min_starttime corrupted); [|by apply FileSystem.triple_ret].
  apply FileSystem.triple_bind with (R := λ _, no_new).
  - intros w Hw. unfold read_state, io_try, fs_open, prim, mbind, io_bind. by destruct (faults w) as [|[] ?].
  - intros st. apply FileSystem.triple_prim; [done|]. intros m Hm. simpl.
    apply (no_new_agree [STATE_FILENAME] m); [|done| |done].
    + intros p Hp. rewrite lookup_insert_ne by set_solver. done.
    + unfold journal_items. by rewrite lookup_insert_ne by done.
Qed.

Lemma read_journal_any content m1 :
  FileSystem.triple (λ m, m = m1) (read_journal content)
    (λ ts m, m = m1 ∧ ∀ t, t ∈ ts → t ∈ journal_iterator content) (λ m, m = m1).
Proof.
  eapply FileSystem.triple_bind; [apply read_items_any|]. intros items.
  apply FileSystem.triple_ret. intros m [-> Hit]. split; [done|]. intros t.
  unfold journal_iterator. rewrite !elem_of_sort_dedup. apply Hit.
Qed.

Lemma apply_journal_any :
  FileSystem.triple (λ m, m = m0) apply_journal (λ _, no_new) no_new.
Proof.
  assert (∀ m, m = m0 → no_new m) as Hsame by (intros m ->; apply no_new_refl).
  eapply FileSystem.triple_bind with (R := λ o m, m = m0 ∧ o = m0 !! WAL_FILENAME).
  { eapply FileSystem.triple_conseq; [apply (FileSystem.triple_open m0)|done|done|done]. }
  intros o. apply FileSystem.triple_pure. intros ->.
  destruct (m0 !! WAL_FILENAME) as [content|] eqn:Hwal; [|by apply FileSystem.triple_ret].
  eapply FileSystem.triple_bind.
  { eapply FileSystem.triple_conseq; [apply (read_journal_any content m0)|done|intros ?? Hq; exact Hq|done]. }
  intros ts. apply FileSystem.triple_pure. intros Hts.
  eapply FileSystem.triple_bind.
  { apply merge_tasks_into_archive_any. unfold journal_items. by rewrite Hwal. }
  intros corrupted. eapply FileSystem.triple_bind with (R := λ _, no_new).
  { apply FileSystem.triple_prim; [done|]. intros m Hm. simpl. destruct (m !! WAL_FILENAME); [|done].
    apply (no_new_agree [WAL_FILENAME] m); [|done| |done].
    - intros p Hp. rewrite lookup_insert_ne by set_solver. done.
    - unfold journal_items at 1. rewrite lookup_insert_eq. simpl. set_solver. }
  intros u. destruct corrupted; [by apply FileSystem.triple_ret|apply request_repair_any].
Qed.

Lemma no_new_known m t : names_ok m0 → no_new m → known m t → known m0 t.
Proof.
  intros Hok (Hn&Hi&Hj). assert (archive_list m0 = archive_list m) as Hl.
  { apply archive_list_ext; [done|]. intros f. symmetry. apply Hn. }
  rewrite !known_iff, !has_task_archive, <-Hl.
  intros [(t'&Ht'&Hs)|(f&Hf&t'&Ht'&Hs)]; [left; exists t'; auto|].
  destruct (Hi f t' Hf Ht') as [?|?]; [right; exists f; split; [done|]; by exists t'|left; by exists t'].
Qed.
End no_new.

Lemma apply_journal_no_new m fl rf : no_new m (files (apply_journal (mkWorld m fl rf)).2).
Proof.
  pose proof (apply_journal_any m (mkWorld m fl rf) eq_refl) as Ht.
  by destruct (apply_journal (mkWorld m fl rf)) as [[a|e] w].
Qed.

(** ** The order of the archive *)

(** Every file is sorted and holds only tasks of its own time span. *)
Definition archive_ok (m : gmap string string) : Prop :=
  names_ok m ∧
  ∀ f, f ∈ archive_list m →
    StronglySorted (cle compare_tasks_reverse) (file_items m f) ∧
    ∀ t, t ∈ file_items m f → target (archive_list m) t = Some f.

Lemma target_older fs f g pre post t :
  fs = pre ++ f :: post → files_desc fs → g ∈ post → target fs t = Some g →
  item_starttime t < af_starttime f.
Proof.
  intros -> Hdesc Hg. induction pre as [|h pre IH]; simpl in *.
  - destruct (Z.leb_spec (af_starttime f) (item_starttime t)); [|done].
    intros [= <-]. apply StronglySorted_cons in Hdesc as [Hall _].
    rewrite Forall_forall in Hall. apply Hall in Hg. lia.
  - apply StronglySorted_cons in Hdesc as [Hall Hdesc]. rewrite Forall_forall in Hall.
    destruct (Z.leb_spec (af_starttime h) (item_starttime t)); [|by apply IH].
    intros [= <-]. assert (h ∈ pre ++ f :: post) as Hin by set_solver. apply Hall in Hin. lia.
Qed.

Lemma starttime_lt_cle t u :
  item_starttime u < item_starttime t → cle compare_tasks_reverse t u.
Proof.
  intros Hlt. unfold cle, compare_tasks_reverse, compare_tasks, cmp_lex, cmp_on, cmp_then.
  destruct (Z.compare_spec (item_starttime u) (item_starttime t)); [lia|done|lia].
Qed.

Lemma archive_items_sorted m :
  archive_ok m → StronglySorted (cle compare_tasks_reverse) (archive_items m).
Proof.
  intros [_ Hok]. unfold archive_items. pose proof (archive_list_desc m) as Hdesc.
  assert (∀ pre fs, archive_list m = pre ++ fs →
    StronglySorted (cle compare_tasks_reverse) (concat (file_items m <$> fs))) as Hgen;
    [|by apply (Hgen [])].
  intros pre fs. revert pre. induction fs as [|f fs IH]; intros pre Heq; simpl; [constructor|].
  destruct (Hok f) as [Hs Ht]; [rewrite Heq; set_solver|].
  apply StronglySorted_app. split_and!; [|done|apply (IH (pre ++ [f])); by rewrite <-app_assoc].
  intros t u Hin Hu. apply starttime_lt_cle.
  apply list_elem_of_In, in_concat in Hu as (l&Hl%list_elem_of_In&Hu%list_elem_of_In).
  apply list_elem_of_fmap in Hl as (g&->&Hg).
  apply Ht, target_Some in Hin as [_ Hle].
  destruct (Hok g) as [_ Htg]; [rewrite Heq; set_solver|].
  pose proof (target_older _ f g pre fs u Heq Hdesc Hg (Htg u Hu)). lia.
Qed.

Lemma archived_view_sorted m :
  archive_ok m → StronglySorted (cle compare_tasks_reverse) (archived_view m).
Proof.
  intros Hok%archive_items_sorted. unfold archived_view.
  destruct (m !! WAL_FILENAME); [|done]. apply merge_iter_sorted_le; [|done].
  apply sort_dedup_sorted.
Qed.

Lemma journal_target_items_ok m f :
  archive_ok m → f ∈ archive_list m →
  StronglySorted (cle compare_tasks_reverse) (journal_target_items m f) ∧
  ∀ t, t ∈ journal_target_items m f → target (archive_list m) t = Some f.
Proof.
  intros [_ Hok] Hf. apply Hok in Hf as [Hs Ht]. split.
  - apply merge_iter_sorted_le; [done|].
    eapply StronglySorted_sublist; [apply sublist_filter|].
    unfold journal_items. destruct (m !! WAL_FILENAME); simpl; [apply sort_dedup_sorted|constructor].
  - intros t [?|[? _]%list_elem_of_filter]%merge_iter_elem; auto.
Qed.
End journal.

(** ** Properties *)

Section properties.
Context `{TaskCodec} `{!TaskCodecLaws}.

(** Merging tasks (youngest first) into the archive gives every file the
    tasks whose start time falls into its span, merged into what it held; when
    an I/O fault stops the merge, each file has either got all its tasks or is
    as before.  Files that are not archive files are never touched. *)
Theorem merge_tasks_into_archive_spec (m : gmap string string) (fl : list bool)
    (ts : list TaskCacheItem) :
  tasks_desc ts →
  let '(r, w') := merge_tasks_into_archive ts (World m fl) in
  (∀ f, f ∈ archive_list m →
     file_items (files w') f = merge_iter (file_items m f) (tasks_for (archive_list m) ts f) ∨
     (∃ e, r = Err e) ∧ file_items (files w') f = file_items m f) ∧
  (∀ p, not_archive p = true → files w' !! p = m !! p).
Proof.
  intros Hts. pose proof (merge_tasks_into_archive_triple m ts Hts (World m fl) eq_refl eq_refl) as Ht.
  assert (∀ pre post p, archive_list m = pre ++ post → not_archive p = true →
            merge_upto (archive_list m) ts pre m !! p = m !! p) as Hother.
  { intros pre post p Heq Hp. apply lookup_merge_other. intros f Hf <-.
    assert (f ∈ archive_list m) as [Hparse _]%archive_list_elem by (rewrite Heq; set_solver).
    unfold not_archive in Hp. by rewrite Hparse in Hp. }
  destruct (merge_tasks_into_archive ts (World m fl)) as [[a|e] w']; destruct Ht as [Ht _]; simpl in *.
  - rewrite Ht. split; [|intros p; apply (Hother _ []); by rewrite app_nil_r].
    intros f Hf. left. by rewrite (file_items_merge m ts _ []), decide_True by (by rewrite ?app_nil_r).
  - destruct Ht as (pre&post&Heq&->). split; [|intros p; by apply (Hother _ post)].
    intros f Hf. rewrite (file_items_merge m ts pre post) by done.
    destruct (decide (f ∈ pre)); [by left|right; eauto].
Qed.

(** C3: [apply_journal] is crash safe, in a directory whose archive files
    have the names the cache gives them ([names_ok]).  Whatever system calls
    fail and whatever lines cannot be read ([rf]), a task that is returned by
    [get_tasks] afterwards was returned before: nothing is made up.  If every file
    that could be opened can be read to its end ([rf = []]), a task that the archive
    reaches back to ([covered]) and that was returned before is returned afterwards:
    nothing is lost, wherever the operation stops.  (A journal that can be read only in
    part does lose tasks, [journal_read_error_loses_task].) *)
Theorem apply_journal_crash_safe (m : gmap string string) (fl rf : list bool) (t : TaskCacheItem) :
  names_ok m → covered m t →
  let m' := files (apply_journal (mkWorld m fl rf)).2 in
  ∃ l l', get_tasks Archived (World m []) = (Ok l, World m []) ∧
          get_tasks Archived (World m' []) = (Ok l', World m' []) ∧
          (has_task t l' → has_task t l) ∧
          (rf = [] → has_task t l → has_task t l').
Proof.
  intros Hok Hcov m'. exists (archived_view m), (archived_view m').
  rewrite !get_tasks_archived. split_and!; [done|done| |].
  - apply (no_new_known m m' t Hok), apply_journal_no_new.
  - intros ->. by apply (journal_run_known m m' t Hok (apply_journal_run m fl)).
Qed.

(** An interrupted [apply_journal] can simply be run again: every archive
    file then holds exactly what an uninterrupted run would have put there;
    no task is duplicated by the second attempt. *)
Theorem apply_journal_retry (m : gmap string string) (fl : list bool) (f : ArchiveFile) :
  names_ok m → f ∈ archive_list m →
  let m1 := files (apply_journal (World m fl)).2 in
  file_items (files (apply_journal (World m1 [])).2) f =
  file_items (files (apply_journal (World m [])).2) f.
Proof.
  intros Hok Hf m1. pose proof (apply_journal_run m fl) as Hrun. fold m1 in Hrun.
  pose proof (journal_run_known m m1 (mkItem (mkRemoteUpid "" RemoteType.Pve "") 0 None None) Hok Hrun)
    as (_&Hl&_).
  rewrite !apply_journal_quiet_items by (by rewrite ?Hl). unfold journal_target_items at 1.
  rewrite Hl. destruct Hrun as [(pre&post&Heq&Hm1)|Hap].
  - assert (journal_items m1 = journal_items m) as ->.
    { unfold journal_items. by rewrite Hm1, (merge_journal m _ pre post). }
    rewrite Hm1, (file_items_merge m _ pre post) by done.
    destruct (decide (f ∈ pre)); [|done]. apply merge_iter_idem.
  - rewrite (journal_applied_items m m1 f Hf Hap).
    assert (journal_items m1 = []) as ->; [|apply merge_iter_nil_r].
    unfold journal_items. by rewrite <-Hap, lookup_insert_eq by set_solver.
Qed.

(** C28: without faults [apply_journal] succeeds, leaves the journal empty and
    every task that the archive reaches back to is still known. *)
Theorem apply_journal_complete (m : gmap string string) (content : string) :
  names_ok m → m !! WAL_FILENAME = Some content →
  ∃ m', apply_journal (World m []) = (Ok tt, World m' []) ∧
        m' !! WAL_FILENAME = Some ""%string ∧
        ∀ t, covered m t → known m' t ↔ known m t.
Proof.
  intros Hok Hwal. destruct (apply_journal_quiet m m eq_refl) as ([]&m'&Heq&HQ).
  rewrite Hwal in HQ. exists m'. split_and!; [done| |].
  - by rewrite <-HQ, lookup_insert_eq by set_solver.
  - intros t. by apply (journal_run_known m m' t Hok (or_intror HQ)).
Qed.

(** The archive invariant (canonical file names, every file sorted and
    holding only tasks of its own time span) survives [apply_journal] under
    arbitrary faults, and it makes [get_tasks] return the tasks of the archive
    and the journal sorted by start time, most recent first. *)
Theorem apply_journal_order (m : gmap string string) (fl : list bool) :
  archive_ok m →
  let m' := files (apply_journal (World m fl)).2 in
  archive_ok m' ∧
  ∃ l, get_tasks Archived (World m' []) = (Ok l, World m' []) ∧
       StronglySorted (cle compare_tasks_reverse) l.
Proof.
  intros Hok m'. pose proof (apply_journal_run m fl) as Hrun. fold m' in Hrun.
  assert (archive_ok m') as Hok'.
  { pose proof Hok as [Hn Hfiles].
    pose proof (journal_run_known m m' (mkItem (mkRemoteUpid "" RemoteType.Pve "") 0 None None) Hn Hrun)
      as (Hn'&Hl&_).
    split; [done|]. rewrite Hl. intros f Hf.
    destruct (journal_run_items m m' f Hf Hrun) as [-> | ->]; [by apply Hfiles|].
    by apply journal_target_items_ok. }
  split; [done|]. exists (archived_view m'). rewrite get_tasks_archived.
  split; [done|]. by apply archived_view_sorted.
Qed.
End properties.

(** ** Witnesses *)

Definition names_okb (m : gmap string string) : bool :=
  forallb (λ f, String.eqb (af_path f) (archive_path (af_starttime f) (af_compressed f)))
    (archive_names m).

Lemma names_okb_ok m : names_okb m = true → names_ok m.
Proof.
  unfold names_okb. rewrite forallb_forall. intros Hall f Hf.
  apply String.eqb_eq, Hall. by apply list_elem_of_In.
Qed.

Module JournalDemo.
#[local] Existing Instance demo_codec.
#[local] Existing Instance demo_codec_laws.

Definition demo_task (upid : string) (start : Z) (status : option string) (endt : option Z)
    : TaskCacheItem :=
  mkItem (mkRemoteUpid "pve1" RemoteType.Pve upid) start status endt.
Definition demo_t1 : TaskCacheItem := demo_task "UPID:a:1" 120 (Some "OK"%string) (Some 130).
Definition demo_t2 : TaskCacheItem := demo_task "UPID:a:2" 40 (Some "OK"%string) (Some 50).
Definition demo_old : ArchiveFile := mkArchiveFile (archive_path 0 true) true 0.
Definition demo_new : ArchiveFile := mkArchiveFile (archive_path 100 false) false 100.

(** Two archive files, the older one compressed, and a journal of two tasks. *)
Definition demo_files : gmap string string :=
  <[WAL_FILENAME := encode_items [demo_t2; demo_t1]]>
  (<[af_path demo_old := encode_file true ""]> {[af_path demo_new := ""%string]}).

Lemma demo_names_ok : names_ok demo_files.
Proof. apply names_okb_ok. vm_compute. reflexivity. Qed.

Lemma demo_archive_list : archive_list demo_files = [demo_new; demo_old].
Proof. vm_compute. reflexivity. Qed.

Lemma demo_covered : covered demo_files demo_t2.
Proof. exists demo_old. rewrite demo_archive_list. split; [right; left|vm_compute; congruence]. Qed.

Lemma demo_archive_ok : archive_ok demo_files.
Proof.
  split; [apply demo_names_ok|]. rewrite demo_archive_list. intros f Hf.
  assert (file_items demo_files f = []) as ->; [|split; [constructor|set_solver]].
  apply elem_of_cons in Hf as [->|[->|Hf]%elem_of_cons]; [vm_compute; reflexivity..|set_solver].
Qed.

Lemma merge_tasks_into_archive_spec_witness :
  tasks_desc [demo_t1; demo_t2] ∧
  file_items (files (merge_tasks_into_archive [demo_t1; demo_t2] (World demo_files [])).2) demo_old
  = [demo_t2].
Proof.
  assert (tasks_desc [demo_t1; demo_t2]) as Hd.
  { repeat constructor. vm_compute. congruence. }
  split; [exact Hd|].
  pose proof (merge_tasks_into_archive_spec demo_files [] _ Hd) as Hspec.
  destruct (merge_tasks_into_archive [demo_t1; demo_t2] (World demo_files [])) as [r w'] eqn:E.
  destruct Hspec as [Hspec _]. destruct (Hspec demo_old) as [Ht|[[e Hr] _]].
  - rewrite demo_archive_list. right. left.
  - simpl. rewrite Ht. vm_compute. reflexivity.
  - exfalso. subst r. vm_compute in E. discriminate E.
Defined.

(** The fifth I/O step fails: the newest file is written, the older one is not. *)
Definition demo_faults : list bool := [false; false; false; false; true].

Lemma apply_journal_crash_safe_witness :
  names_ok demo_files ∧ covered demo_files demo_t2 ∧
  ∃ l l', get_tasks Archived (World demo_files []) = (Ok l, World demo_files []) ∧
    get_tasks Archived (World (files (apply_journal (World demo_files demo_faults)).2) []) =
      (Ok l', World (files (apply_journal (World demo_files demo_faults)).2) []) ∧
    (has_task demo_t2 l' ↔ has_task demo_t2 l).
Proof.
  split; [apply demo_names_ok|]. split; [apply demo_covered|].
  destruct (apply_journal_crash_safe demo_files demo_faults [] demo_t2) as (l&l'&H1&H2&H3&H4);
    [apply demo_names_ok|apply demo_covered|].
  exists l, l'. split; [exact H1|]. split; [exact H2|]. split; [exact H3|]. apply H4. reflexivity.
Defined.

(** Reading the second line of the journal fails: the error is only logged, the
    operation succeeds, and the task of that line is gone with the journal. *)
Theorem journal_read_error_loses_task :
  let m' := files (apply_journal (mkWorld demo_files [] [false; true])).2 in
  (apply_journal (mkWorld demo_files [] [false; true])).1 = Ok tt ∧
  archived_view demo_files = [demo_t1; demo_t2] ∧ archived_view m' = [demo_t2] ∧
  m' !! WAL_FILENAME = Some ""%string ∧ m' !! STATE_FILENAME = None.
Proof. vm_compute. split_and!; reflexivity. Qed.

Lemma apply_journal_retry_witness :
  demo_old ∈ archive_list demo_files ∧
  file_items (files (apply_journal
    (World (files (apply_journal (World demo_files demo_faults)).2) [])).2) demo_old = [demo_t2].
Proof.
  assert (demo_old ∈ archive_list demo_files) as Hin.
  { rewrite demo_archive_list. right. left. }
  split; [exact Hin|].
  rewrite (apply_journal_retry demo_files demo_faults demo_old demo_names_ok Hin).
  vm_compute. reflexivity.
Defined.

Lemma apply_journal_complete_witness :
  ∃ m', apply_journal (World demo_files []) = (Ok tt, World m' []) ∧
        m' !! WAL_FILENAME = Some ""%string ∧ (known m' demo_t2 ↔ known demo_files demo_t2).
Proof.
  destruct (apply_journal_complete demo_files (encode_items [demo_t2; demo_t1])) as (m'&H1&H2&H3).
  - apply demo_names_ok.
  - apply lookup_insert_eq.
  - exists m'. split; [exact H1|]. split; [exact H2|]. apply H3, demo_covered.
Defined.

Lemma apply_journal_order_witness :
  archive_ok demo_files ∧
  archive_ok (files (apply_journal (World demo_files demo_faults)).2).
Proof.
  split; [apply demo_archive_ok|].
  apply (apply_journal_order demo_files demo_faults), demo_archive_ok.
Defined.
End JournalDemo.
