(* ===== verification/TaskRotate.v ===== *)
(** * Task cache: rotation and compression

    [rotate] removes leftover duplicates, starts a new archive file, drops the
    oldest ones and compresses the older ones.  This file shows that a crash
    during compression leaves the archive readable as before, that rotation
    only forgets tasks which are older than the files that remain, and that it
    keeps the configured number of files.  The files are those that can be read to
    their end ([FileSystem.Readable]). *)

From S2P Require Import Prelude FileSystem RemoteUpid TaskItems TaskCache TaskArchive TaskJournal.
Import Readable.

(** ** Which file of a start time is used *)

Lemma dedup_from_first f l :
  StronglySorted (cle compare_archive_files) (f :: l) →
  ∀ h g, h ∈ f :: dedup_from same_starttime f l → g ∈ f :: l →
    af_starttime g = af_starttime h → cle compare_archive_files h g.
Proof.
  assert (∀ f l, StronglySorted (cle compare_archive_files) (f :: l) →
            files_desc (f :: dedup_from same_starttime f l)) as Hdesc.
  { intros f' l' Hs. apply dedup_from_desc. eapply StronglySorted_mono; [apply cle_newer|exact Hs]. }
  assert (∀ f l h, StronglySorted (cle compare_archive_files) (f :: l) →
            h ∈ dedup_from same_starttime f l → af_starttime h < af_starttime f) as Hlt.
  { intros f' l' h [Hall _]%Hdesc%StronglySorted_cons. rewrite Forall_forall in Hall. apply Hall. }
  revert f. induction l as [|k l IH]; intros f Hs h g Hh Hg Heq.
  { simpl in Hh. assert (h = f) as -> by set_solver. assert (g = f) as -> by set_solver.
    unfold cle. by rewrite cmp_refl by apply _. }
  pose proof Hs as [Hf Hs']%StronglySorted_cons. rewrite Forall_forall in Hf.
  apply elem_of_cons in Hh as [->|Hh].
  { apply elem_of_cons in Hg as [->|Hg]; [unfold cle; by rewrite cmp_refl by apply _|by apply Hf]. }
  assert (af_starttime h < af_starttime f) as Hhf by by eapply Hlt.
  simpl in Hh. unfold same_starttime at 1 in Hh.
  apply elem_of_cons in Hg as [->|Hg]; [lia|].
  destruct (Z.eqb_spec (af_starttime f) (af_starttime k)) as [Hfk|Hfk].
  - apply (IH f); [|by right| |done].
    + apply StronglySorted_cons. apply StronglySorted_cons in Hs' as [_ Hs']. split; [|done].
      apply Forall_forall. intros x Hx. apply Hf. by right.
    + apply elem_of_cons in Hg as [->|Hg]; [lia|by right].
  - by apply (IH k).
Qed.

Lemma compressed_first f g :
  af_starttime f = af_starttime g → cle compare_archive_files f g →
  af_compressed g = true → af_compressed f = true.
Proof.
  intros Heq. unfold cle, compare_archive_files, cmp_lex, cmp_flip, cmp_on, cmp_then.
  rewrite Heq, Z.compare_refl. by destruct (af_compressed f), (af_compressed g).
Qed.

(** Of a compressed and a plain file with the same start time the compressed
    one counts. *)
Lemma elem_of_archive_list m f :
  names_ok m →
  f ∈ archive_list m ↔
  f ∈ archive_names m ∧
  ∀ g, g ∈ archive_names m → af_starttime g = af_starttime f → af_compressed g = true →
       af_compressed f = true.
Proof.
  intros Hok.
  assert (StronglySorted (cle compare_archive_files)
            (sort_by compare_archive_files (archive_names m))) as Hs by apply sort_by_sorted, _.
  assert (∀ g, g ∈ archive_names m ↔ g ∈ sort_by compare_archive_files (archive_names m)) as Hin.
  { intros g. by rewrite elem_of_sort_by. }
  assert (∀ g h, g ∈ archive_list m → h ∈ archive_names m → af_starttime h = af_starttime g →
            cle compare_archive_files g h) as Hfirst.
  { intros g h. rewrite Hin. unfold archive_list.
    destruct (sort_by compare_archive_files (archive_names m)); [set_solver|]. by apply dedup_from_first. }
  assert (∀ g, g ∈ archive_list m → g ∈ archive_names m) as Hsub.
  { intros g Hg. apply elem_of_archive_names. by apply archive_list_elem. }
  split.
  - intros Hf. split; [by apply Hsub|]. intros g Hg Heq.
    apply compressed_first; [done|]. by apply Hfirst.
  - intros [Hf Hbest].
    destruct (dedup_by_kept same_starttime (sort_by compare_archive_files (archive_names m)) f)
      as (z&Hz&Hzf); [intros; apply Z.eqb_refl|by apply Hin|].
    apply Z.eqb_eq in Hzf. fold (archive_list m) in Hz. pose proof (Hsub z Hz) as Hzn.
    assert (af_compressed z = af_compressed f) as Hc.
    { specialize (Hbest z Hzn Hzf). specialize (Hfirst z f Hz Hf (eq_sym Hzf)).
      destruct (af_compressed z) eqn:Ez; [by rewrite Hbest|]. destruct (af_compressed f) eqn:Ef; [|done].
      by rewrite (compressed_first z f Hzf Hfirst Ef) in Ez. }
    assert (z = f) as <-; [|done].
    pose proof (Hok z Hzn) as Hp1. pose proof (Hok f Hf) as Hp2. rewrite Hzf, Hc, <-Hp2 in Hp1.
    apply elem_of_archive_names in Hzn as [H1 _], Hf as [H2 _]. congruence.
Qed.

(** ** How the list of files changes *)

Lemma files_desc_unique (l k : list ArchiveFile) :
  files_desc l → files_desc k → (∀ f, f ∈ l ↔ f ∈ k) → l = k.
Proof.
  intros Hl Hk Hiff.
  apply (StronglySorted_unique_strong (λ f g, af_starttime g < af_starttime f)); [|done|done|].
  - intros f g _ _ ??. lia.
  - assert (∀ l, files_desc l → NoDup l) as Hnd.
    { clear. induction 1 as [|f l Hs IH Hf]; constructor; [|done].
      intros Hin. rewrite Forall_forall in Hf. apply Hf in Hin. lia. }
    apply NoDup_Permutation; auto.
Qed.

(** At most one file for every start time. *)
Definition no_twins (m : gmap string string) : Prop :=
  ∀ f g, f ∈ archive_names m → g ∈ archive_names m → af_starttime f = af_starttime g → f = g.

Definition tidy (m : gmap string string) : Prop := names_ok m ∧ no_twins m.

Lemma elem_of_archive_list_tidy m f : tidy m → f ∈ archive_list m ↔ f ∈ archive_names m.
Proof.
  intros [Hok Hnt]. rewrite elem_of_archive_list by done. split; [tauto|]. intros Hf. split; [done|].
  intros g Hg Heq Hc. by rewrite <-(Hnt g f).
Qed.

Lemma parse_archive_filename_i64 n f : parse_archive_filename n = Some f → in_i64 (af_starttime f) = true.
Proof.
  assert (∀ s z, parse_i64 s = Some z → in_i64 z = true) as Hi.
  { intros s z. unfold parse_i64. destruct (parse_Z s) as [z'|]; simpl; [|done].
    destruct (in_i64 z') eqn:E; intros; simplify_eq/=; done. }
  unfold parse_archive_filename. destruct (strip_prefix _ n) as [r|]; simpl; [|done].
  destruct (strip_suffix _ r) as [s|].
  - destruct (parse_i64 s) eqn:E; simpl; intros; simplify_eq/=; by eapply Hi.
  - destruct (parse_i64 r) eqn:E; simpl; intros; simplify_eq/=; by eapply Hi.
Qed.

Lemma archive_names_i64 f m : f ∈ archive_names m → in_i64 (af_starttime f) = true.
Proof. intros [Hf _]%elem_of_archive_names. by eapply parse_archive_filename_i64. Qed.

(** A file with its canonical name. *)
Definition archive_file_at (s : Z) (c : bool) : ArchiveFile := mkArchiveFile (archive_path s c) c s.

Lemma elem_of_archive_names_insert m s c d f :
  in_i64 s = true →
  f ∈ archive_names (<[archive_path s c := d]> m) ↔ f = archive_file_at s c ∨ f ∈ archive_names m.
Proof.
  intros Hs. rewrite !elem_of_archive_names, lookup_insert_is_Some'. split.
  - intros [Hp [Heq|Hm]]; [left|by right]. rewrite <-Heq, parse_archive_path in Hp by done.
    by simplify_eq/=.
  - intros [-> |[Hp Hm]]; [|by auto]. simpl. split; [by apply parse_archive_path|by left].
Qed.

Lemma elem_of_archive_names_delete m g f :
  parse_archive_filename (af_path g) = Some g →
  f ∈ archive_names (delete (af_path g) m) ↔ f ≠ g ∧ f ∈ archive_names m.
Proof.
  intros Hg. rewrite !elem_of_archive_names, lookup_delete_is_Some. split.
  - intros (Hp&Hne&Hm). split_and!; [|done|done]. intros ->. done.
  - intros (Hne&Hp&Hm). split_and!; [done| |done]. intros Heq. congruence.
Qed.

Lemma names_ok_insert m s c d :
  in_i64 s = true → names_ok m → names_ok (<[archive_path s c := d]> m).
Proof.
  intros Hs Hok f [-> |Hf]%elem_of_archive_names_insert; [done|by apply Hok|done].
Qed.

Lemma names_ok_delete m g :
  parse_archive_filename (af_path g) = Some g → names_ok m → names_ok (delete (af_path g) m).
Proof. intros Hg Hok f [_ Hf]%elem_of_archive_names_delete; [by apply Hok|done]. Qed.

(** A new file that is newer than all others becomes the first. *)
Lemma archive_list_new m now c d :
  tidy m → in_i64 now = true → (∀ f, f ∈ archive_list m → af_starttime f < now) →
  tidy (<[archive_path now c := d]> m) ∧
  archive_list (<[archive_path now c := d]> m) = archive_file_at now c :: archive_list m.
Proof.
  intros Ht Hnow Hnew. setoid_rewrite elem_of_archive_list_tidy in Hnew; [|done].
  assert (tidy (<[archive_path now c := d]> m)) as Ht'.
  { destruct Ht as [Hok Hnt]. split; [by apply names_ok_insert|]. intros f g.
    rewrite !elem_of_archive_names_insert by done. intros [-> |Hf] [-> |Hg]; simpl; [done| | |by apply Hnt].
    - intros Heq. apply Hnew in Hg. lia.
    - intros Heq. apply Hnew in Hf. lia. }
  split; [done|]. apply files_desc_unique.
  - apply archive_list_desc.
  - apply StronglySorted_cons. split; [|apply archive_list_desc]. apply Forall_forall. intros f Hf.
    simpl. apply Hnew. by apply elem_of_archive_list_tidy.
  - intros f. rewrite elem_of_cons, !elem_of_archive_list_tidy by done.
    by apply elem_of_archive_names_insert.
Qed.

Lemma archive_list_delete m l f k :
  tidy m → archive_list m = l ++ f :: k →
  tidy (delete (af_path f) m) ∧ archive_list (delete (af_path f) m) = l ++ k.
Proof.
  intros Ht Heq. assert (f ∈ archive_list m) as Hf by (rewrite Heq; set_solver).
  pose proof (archive_list_elem f m Hf) as [Hp _].
  assert (tidy (delete (af_path f) m)) as Ht'.
  { destruct Ht as [Hok Hnt]. split; [by apply names_ok_delete|].
    intros a b [_ Ha]%elem_of_archive_names_delete [_ Hb]%elem_of_archive_names_delete; [|done|done].
    by apply Hnt. }
  split; [done|]. pose proof (archive_list_desc m) as Hd. pose proof (archive_list_NoDup m) as Hnd.
  rewrite Heq in Hd, Hnd. apply files_desc_unique; [apply archive_list_desc| |].
  - eapply StronglySorted_sublist; [|exact Hd]. apply sublist_app; [done|]. by apply sublist_cons.
  - intros g. rewrite elem_of_archive_list_tidy, elem_of_archive_names_delete by done.
    rewrite <-elem_of_archive_list_tidy, Heq by done.
    apply NoDup_app in Hnd as (_&Hl&[Hk _]%NoDup_cons). specialize (Hl f).
    split; [set_solver|]. intros Hg. split; [|set_solver].
    intros ->. apply elem_of_app in Hg as [Hg|Hg]; [by apply Hl in Hg; set_solver|done].
Qed.

Lemma files_desc_replace l f f' k :
  files_desc (l ++ f :: k) → af_starttime f' = af_starttime f → files_desc (l ++ f' :: k).
Proof.
  intros Hd Heq. apply StronglySorted_app in Hd as (Hlk&Hl&[Hf Hk]%StronglySorted_cons).
  apply StronglySorted_app. split_and!; [|done|].
  - intros a b Ha [->|Hb]%elem_of_cons; [rewrite Heq|]; apply Hlk; set_solver.
  - apply StronglySorted_cons. by rewrite Heq.
Qed.

(** A compressed copy takes over from the plain file, whether or not the plain
    file has been removed already. *)
Lemma archive_list_compress m l f k d :
  tidy m → archive_list m = l ++ f :: k → af_compressed f = false →
  let f' := set_compressed f true in
  let m1 := <[af_path f' := d]> m in
  let m2 := delete (af_path f) m1 in
  names_ok m1 ∧ archive_list m1 = l ++ f' :: k ∧ tidy m2 ∧ archive_list m2 = l ++ f' :: k.
Proof.
  intros Ht Heq Hc f' m1 m2. assert (f ∈ archive_list m) as Hf by (rewrite Heq; set_solver).
  pose proof (archive_list_elem f m Hf) as [Hp _]. pose proof Ht as [Hok Hnt].
  assert (f ∈ archive_names m) as Hfn by by apply elem_of_archive_list_tidy.
  assert (in_i64 (af_starttime f) = true) as Hi by by eapply archive_names_i64.
  assert (∀ g, g ∈ archive_names m1 ↔ g = f' ∨ g ∈ archive_names m) as Hn1.
  { intros g. by apply elem_of_archive_names_insert. }
  assert (∀ g, g ∈ archive_names m2 ↔ g ≠ f ∧ (g = f' ∨ g ∈ archive_names m)) as Hn2.
  { intros g. rewrite <-Hn1. by apply elem_of_archive_names_delete. }
  assert (∀ g, g ∈ archive_names m → af_starttime g = af_starttime f → g = f) as Hsame.
  { intros g Hg He. by apply Hnt. }
  assert (f' ≠ f) as Hne by (intros He; apply (f_equal af_compressed) in He; simpl in He; congruence).
  assert (names_ok m1) as Hok1 by by apply names_ok_insert.
  assert (tidy m2) as Ht2.
  { split; [by apply names_ok_delete|]. intros a b. rewrite !Hn2.
    intros [Ha [-> |Ha']] [Hb [-> |Hb']] He; [done| | |by apply Hnt].
    - by apply symmetry, Hsame in He.
    - by apply Hsame in He. }
  assert (files_desc (l ++ f' :: k)) as Hd.
  { apply (files_desc_replace l f); [|done]. rewrite <-Heq. apply archive_list_desc. }
  assert (∀ g, g ∈ l ++ f' :: k ↔ g ≠ f ∧ (g = f' ∨ g ∈ archive_names m)) as Hel.
  { intros g. rewrite <-(elem_of_archive_list_tidy m g), Heq by done.
    pose proof (archive_list_NoDup m) as Hnd. rewrite Heq in Hnd.
    apply NoDup_app in Hnd as (_&Hl&[Hk _]%NoDup_cons). specialize (Hl f).
    rewrite !elem_of_app, !elem_of_cons. split.
    - intros [Hg|[-> |Hg]]; [|by auto|]; (split; [intros ->|by auto]); [|done]. apply Hl in Hg. set_solver.
    - intros [? [-> |[?|[?|?]]]]; auto. done. }
  split_and!; [done| |done|].
  - apply files_desc_unique; [apply archive_list_desc|done|]. intros g.
    rewrite elem_of_archive_list, Hel by done. setoid_rewrite Hn1. split.
    + intros [Hg Hbest]. split; [|done]. intros ->.
      specialize (Hbest f' (or_introl eq_refl) eq_refl eq_refl). congruence.
    + intros [Hgf Hg]. split; [done|]. intros h [-> |Hh] He Hch.
      * destruct Hg as [-> |Hg]; [done|]. by apply symmetry, Hsame in He.
      * destruct Hg as [-> |Hg]; [done|]. by rewrite <-(Hnt h g).
  - apply files_desc_unique; [apply archive_list_desc|done|]. intros g.
    rewrite elem_of_archive_list_tidy, Hel by done. apply Hn2.
Qed.

(** ** Leftover duplicates *)

Lemma archive_list_delete_twin m f :
  names_ok m → f ∈ archive_names m → f ∉ archive_list m →
  names_ok (delete (af_path f) m) ∧ archive_list (delete (af_path f) m) = archive_list m.
Proof.
  intros Hok Hf Hno. pose proof (proj1 (elem_of_archive_names _ _) Hf) as [Hp _].
  assert (names_ok (delete (af_path f) m)) as Hok' by by apply names_ok_delete.
  assert (af_compressed f = false) as Hc.
  { destruct (af_compressed f) eqn:Hc; [|done]. exfalso. apply Hno. by apply elem_of_archive_list. }
  split; [done|]. apply files_desc_unique; [apply archive_list_desc..|]. intros g.
  rewrite !elem_of_archive_list by done.
  setoid_rewrite (elem_of_archive_names_delete m f); [|done..]. split.
  - intros [[Hgf Hg] Hbest]. split; [done|]. intros h Hh He Hch. apply (Hbest h); [|done|done].
    split; [congruence|done].
  - intros [Hg Hbest]. split.
    + split; [|done]. intros ->. apply Hno. by apply elem_of_archive_list.
    + intros h [_ Hh]. by apply Hbest.
Qed.

Fixpoint first_of_starts (seen : gset Z) (fs : list ArchiveFile) : list ArchiveFile :=
  match fs with
  | [] => []
  | f :: fs' => if bool_decide (af_starttime f ∈ seen) then first_of_starts seen fs'
                else f :: first_of_starts ({[af_starttime f]} ∪ seen) fs'
  end.

Lemma first_of_starts_dedup l : ∀ f seen,
  StronglySorted (λ f g, af_starttime g ≤ af_starttime f) (f :: l) →
  af_starttime f ∈ seen → (∀ s, s ∈ seen → af_starttime f ≤ s) →
  first_of_starts seen l = dedup_from same_starttime f l.
Proof.
  induction l as [|g l IH]; intros f seen Hs Hin Hge; simpl; [done|].
  pose proof Hs as [Hf Hs']%StronglySorted_cons. apply Forall_cons in Hf as [Hfg Hf].
  unfold same_starttime at 1. destruct (Z.eqb_spec (af_starttime f) (af_starttime g)) as [Heq|Hne].
  - rewrite bool_decide_true by (by rewrite <-Heq). apply IH; [|done|done].
    apply StronglySorted_cons. by apply StronglySorted_cons in Hs' as [_ ?].
  - rewrite bool_decide_false by (intros Hg; apply Hge in Hg; lia). f_equal.
    apply IH; [done|set_solver|]. intros s [->%elem_of_singleton|Hs2]%elem_of_union; [lia|].
    apply Hge in Hs2. lia.
Qed.

Lemma first_of_starts_archive_list m :
  first_of_starts ∅ (sort_by compare_archive_files (archive_names m)) = archive_list m.
Proof.
  unfold archive_list.
  assert (StronglySorted (λ f g, af_starttime g ≤ af_starttime f)
            (sort_by compare_archive_files (archive_names m))) as Hs.
  { eapply StronglySorted_mono; [apply cle_newer|]. apply sort_by_sorted, _. }
  destruct (sort_by _ _) as [|f l]; simpl; [done|].
  rewrite bool_decide_false by set_solver. f_equal. apply first_of_starts_dedup; [done|set_solver|].
  intros s Hin. assert (s = af_starttime f) as -> by set_solver. lia.
Qed.

Lemma first_of_starts_sublist fs : ∀ seen, first_of_starts seen fs `sublist_of` fs.
Proof.
  induction fs as [|f fs IH]; intros seen; simpl; [done|].
  case_bool_decide; [by apply sublist_cons|by apply sublist_skip].
Qed.

Lemma fs_remove_triple m0 name :
  triple (λ m, m = m0) (fs_remove name) (λ _ m, m = delete name m0) (λ m, m = m0).
Proof. apply readable_prim; [done|]. intros m ->. by destruct (m0 !! name). Qed.

(** ** The content of the archive *)

Section content.
Context `{TaskCodec} `{!TaskCodecLaws}.
Implicit Types (m : gmap string string) (f : ArchiveFile).

(** Start times and tasks, independent of how the files are stored. *)
Definition archive_content (m : gmap string string) : list (Z * list TaskCacheItem) :=
  (λ f, (af_starttime f, file_items m f)) <$> archive_list m.

Definition same_archive (m m' : gmap string string) : Prop :=
  archive_content m = archive_content m' ∧ m !! WAL_FILENAME = m' !! WAL_FILENAME.

Lemma archive_items_content m : archive_items m = concat (archive_content m).*2.
Proof. unfold archive_items, archive_content. by rewrite <-list_fmap_compose. Qed.

Lemma covered_content m t : covered m t ↔ ∃ s, s ∈ (archive_content m).*1 ∧ s ≤ item_starttime t.
Proof.
  unfold covered, archive_content. rewrite <-list_fmap_compose. setoid_rewrite list_elem_of_fmap.
  split; [intros (f&?&?); simpl; eauto|intros (s&(f&->&?)&?); eauto].
Qed.

Lemma same_archive_known m m' t : same_archive m m' → known m t ↔ known m' t.
Proof.
  intros [Hc Hj]. rewrite !known_iff, !archive_items_content, Hc.
  unfold journal_items. by rewrite Hj.
Qed.

Lemma same_archive_covered m m' t : same_archive m m' → covered m t ↔ covered m' t.
Proof. intros [Hc _]. by rewrite !covered_content, Hc. Qed.

Lemma file_items_other m m' f : m !! af_path f = m' !! af_path f → file_items m f = file_items m' f.
Proof. unfold file_items. by intros ->. Qed.

(** Losing a duplicate changes nothing. *)
Lemma delete_twin_same m f :
  names_ok m → f ∈ archive_names m → f ∉ archive_list m → same_archive m (delete (af_path f) m).
Proof.
  intros Hok Hf Hno. destruct (archive_list_delete_twin m f Hok Hf Hno) as [_ Hl].
  pose proof (proj1 (elem_of_archive_names _ _) Hf) as [Hp _]. split.
  - unfold archive_content. rewrite Hl. apply list_fmap_ext. intros i g Hg%list_elem_of_lookup_2.
    f_equal. apply file_items_other. rewrite lookup_delete_ne; [done|]. intros Heq.
    apply archive_list_elem in Hg as Hg'. destruct Hg' as [Hpg _]. congruence.
  - rewrite lookup_delete_ne; [done|]. intros Heq. rewrite Heq in Hp. done.
Qed.

(** [remove_dupes] returns the files in use and leaves their content alone,
    whichever deletions fail. *)
Lemma remove_dupes_triple m0 :
  names_ok m0 →
  triple (λ m, m = m0) (remove_dupes ∅ (sort_by compare_archive_files (archive_names m0)))
    (λ fs m, (names_ok m ∧ archive_list m = archive_list m0 ∧ same_archive m0 m ∧
              ∀ f, f ∈ archive_names m → f ∈ archive_names m0) ∧ fs = archive_list m0)
    (λ _, False).
Proof.
  intros Hok.
  set (I m := names_ok m ∧ archive_list m = archive_list m0 ∧ same_archive m0 m ∧
              ∀ f, f ∈ archive_names m → f ∈ archive_names m0).
  assert (∀ fs seen pre,
    archive_list m0 = pre ++ first_of_starts seen fs → (∀ f, f ∈ pre → f ∉ fs) → NoDup fs →
    triple (λ m, I m ∧ ∀ f, f ∈ fs → f ∈ archive_names m) (remove_dupes seen fs)
      (λ fs' m, I m ∧ fs' = first_of_starts seen fs) (λ _, False)) as Hgen.
  { induction fs as [|f fs IH]; intros seen pre Heq Hpre Hnd; simpl.
    { apply readable_ret. by intros m [? _]. }
    apply NoDup_cons in Hnd as [Hf Hnd]. simpl in Heq. case_bool_decide as Hseen.
    - assert (f ∉ archive_list m0) as Hno.
      { rewrite Heq. intros [Hin|Hin]%elem_of_app; [apply Hpre in Hin; set_solver|].
        apply Hf. eapply elem_of_sublist; [exact Hin|apply first_of_starts_sublist]. }
      eapply readable_bind; [|intros r; apply (IH seen pre); [done|set_solver|done]].
      apply readable_from. intros m1 [(H1&H2&H3&H4) Hin].
      eapply readable_conseq with (E' := λ m, False ∧ m = m1);
        [|intros m Hm; exact Hm|intros a m Hm; exact Hm|by intros m []].
      intros w Hw. simpl in Hw. subst m1. intros Hrf. pose proof (fs_remove_triple (files w) (af_path f) w eq_refl Hrf) as Ht.
      assert (f ∉ archive_list (files w)) as Hno1 by by rewrite H2.
      unfold io_try. destruct (fs_remove (af_path f) w) as [[u|e] w']; simpl; destruct Ht as [Ht Hrf']; rewrite Ht; (split; [|done]).
      + pose proof (archive_list_delete_twin _ f H1 (Hin f (list_elem_of_here _ _)) Hno1) as [Hok' Hl'].
        pose proof (delete_twin_same _ f H1 (Hin f (list_elem_of_here _ _)) Hno1) as [Hs1 Hs2].
        assert (parse_archive_filename (af_path f) = Some f) as Hp
          by by apply (elem_of_archive_names f (files w)), Hin, list_elem_of_here.
        split.
        { split_and!; [done|congruence|destruct H3; split; congruence|].
          intros g [_ Hg]%elem_of_archive_names_delete; [by apply H4|done]. }
        intros g Hg. apply elem_of_archive_names_delete; [done|].
        split; [set_solver|apply Hin; by right].
      + split; [done|]. intros g Hg. apply Hin. by right.
    - eapply readable_bind.
      { eapply readable_conseq; [apply (IH _ (pre ++ [f]))| |intros a m Hm; exact Hm|done].
        - by rewrite <-app_assoc.
        - intros g [Hg|Hg]%elem_of_app Hin; [apply (Hpre g Hg); by right|set_solver].
        - done.
        - intros m [HI Hin]. split; [done|]. intros g Hg. apply Hin. by right. }
      intros fs'. apply readable_ret. by intros m [? ->]. }
  eapply readable_conseq; [apply (Hgen _ ∅ [])| | |done].
  - by rewrite first_of_starts_archive_list.
  - set_solver.
  - rewrite sort_by_perm. apply NoDup_archive_names.
  - intros m ->. split; [done|]. intros f. by rewrite elem_of_sort_by.
  - intros fs m [HI ->]. split; [exact HI|apply first_of_starts_archive_list].
Qed.

(** Without faults no duplicate is left. *)
Lemma remove_dupes_gone fs : ∀ seen m,
  ∃ fs' m', remove_dupes seen fs (World m []) = (Ok fs', World m' []) ∧ m' ⊆ m ∧
    ∀ f, f ∈ fs → f ∈ fs' ∨ m' !! af_path f = None.
Proof.
  induction fs as [|f fs IH]; intros seen m; simpl.
  { exists [], m. split_and!; [done|done|set_solver]. }
  case_bool_decide.
  - destruct (IH seen (delete (af_path f) m)) as (fs'&m'&Hrun&Hsub&Hgone).
    exists fs', m'. split_and!.
    + rewrite io_bind_run. unfold io_try, fs_remove. rewrite prim_quiet.
      destruct (m !! af_path f) eqn:E; [exact Hrun|]. by rewrite delete_id in Hrun.
    + etrans; [exact Hsub|apply delete_subseteq].
    + intros g [->|Hg]%elem_of_cons; [right|by apply Hgone].
      apply eq_None_not_Some. intros [c Hc]. eapply lookup_weaken in Hc; [|exact Hsub].
      by rewrite lookup_delete_eq in Hc.
  - destruct (IH ({[af_starttime f]} ∪ seen) m) as (fs'&m'&Hrun&Hsub&Hgone).
    exists (f :: fs'), m'. split_and!; [by rewrite io_bind_run, Hrun|done|].
    intros g [->|Hg]%elem_of_cons; [left; left|]. destruct (Hgone g Hg); [left; by right|by right].
Qed.

Lemma remove_dupes_tidy m0 w :
  names_ok m0 → no_twins m0 ∨ faults w = [] → files w = m0 → read_faults w = [] →
  ∃ w', remove_dupes ∅ (sort_by compare_archive_files (archive_names m0)) w = (Ok (archive_list m0), w') ∧
    tidy (files w') ∧ archive_list (files w') = archive_list m0 ∧ same_archive m0 (files w') ∧
    read_faults w' = [].
Proof.
  intros Hok Htw Hw Hrf. pose proof (remove_dupes_triple m0 Hok w Hw Hrf) as Ht.
  destruct (remove_dupes ∅ _ w) as [[fs|e] w'] eqn:E; [|tauto].
  destruct Ht as [[(Hok'&Hl&Hs&Hsub) ->] Hrf']. exists w'. split_and!; [done|split; [done|]|done|done|done].
  intros f g Hf Hg Heq. destruct Htw as [Hnt|Hfl]; [apply Hnt; auto|].
  destruct w as [mw flw rw]. simpl in *. subst.
  destruct (remove_dupes_gone (sort_by compare_archive_files (archive_names m0)) ∅ m0)
    as (fs'&m'&Hrun&_&Hgone).
  rewrite Hrun in E. injection E as -> <-. simpl in *.
  assert (∀ h, h ∈ archive_names m' → h ∈ archive_list m0) as Hin.
  { intros h Hh. apply elem_of_archive_names in Hh as Hh'. destruct Hh' as [_ Hex].
    destruct (Hgone h) as [?|Hno]; [by apply elem_of_sort_by, Hsub|done|].
    rewrite Hno in Hex. by destruct Hex. }
  apply (archive_list_starttime_inj m0); auto.
Qed.

(** ** Compressing one file *)

Lemma content_compressed m l f f' k m' :
  archive_list m = l ++ f :: k → archive_list m' = l ++ f' :: k →
  af_starttime f' = af_starttime f → file_items m' f' = file_items m f →
  (∀ g, g ∈ l ++ k → file_items m' g = file_items m g) →
  archive_content m' = archive_content m.
Proof.
  intros Hl Hl' Hs Hi Hother. unfold archive_content. rewrite Hl, Hl', !fmap_app, !fmap_cons, Hs, Hi.
  f_equal; [|f_equal]; apply list_fmap_ext; intros i g Hg%list_elem_of_lookup_2;
    rewrite Hother by set_solver; done.
Qed.

(** The archive reads the same with the compressed copy beside the plain file
    and after the plain file is gone. *)
Lemma compress_same m0 l f k :
  tidy m0 → archive_list m0 = l ++ f :: k → af_compressed f = false →
  let f' := set_compressed f true in
  let m1 := <[af_path f' := encode_file true (encode_items (file_items m0 f))]> m0 in
  same_archive m0 m1 ∧ same_archive m0 (delete (af_path f) m1).
Proof.
  intros Ht Hl Hc f' m1.
  pose proof (archive_list_compress m0 l f k (encode_file true (encode_items (file_items m0 f)))
                Ht Hl Hc) as (Hok1&Hl1&Ht2&Hl2).
  fold f' m1 in Hok1, Hl1, Ht2, Hl2.
  assert (f ∈ archive_list m0) as Hf by (rewrite Hl; set_solver).
  assert (file_items m1 f' = file_items m0 f) as Hf1 by apply file_items_written, lookup_insert_eq.
  assert (parse_archive_filename (af_path f') = Some f') as Hp'.
  { apply (archive_list_elem f' m1). rewrite Hl1. set_solver. }
  assert (∀ g, g ∈ l ++ k → file_items m1 g = file_items m0 g) as Hother.
  { intros g Hg. apply file_items_other. unfold m1. rewrite lookup_insert_ne; [done|]. intros Heq.
    assert (g ∈ archive_list m0) as Hgl by (rewrite Hl; set_solver).
    assert (f' = g) as <-; [apply archive_list_elem in Hgl as [? _]; congruence|].
    assert (f = f') as Heq2 by by apply (archive_list_starttime_inj m0).
    apply (f_equal af_compressed) in Heq2. simpl in Heq2. congruence. }
  assert (same_archive m0 m1) as Hs1.
  { split; [symmetry; by eapply content_compressed|]. unfold m1. rewrite lookup_insert_ne; [done|].
    intros Heq. by rewrite Heq in Hp'. }
  assert (∀ g, g ∈ l ++ f' :: k → file_items (delete (af_path f) m1) g = file_items m1 g) as Hd.
  { intros g Hg. apply file_items_other. rewrite lookup_delete_ne; [done|]. intros Heq.
    rewrite <-Hl2 in Hg. apply archive_list_elem in Hg as [_ Hg].
    rewrite <-Heq, lookup_delete_eq in Hg. by destruct Hg. }
  split; [done|]. split.
  - symmetry. eapply content_compressed; [done|done|done|by rewrite Hd by set_solver|].
    intros g Hg. rewrite Hd by set_solver. by apply Hother.
  - rewrite lookup_delete_ne; [apply Hs1|]. intros Heq. apply archive_list_elem in Hf as [Hp _].
    by rewrite Heq in Hp.
Qed.

Lemma compress_archive_file_triple m0 l f k :
  tidy m0 → archive_list m0 = l ++ f :: k → af_compressed f = false →
  triple (λ m, m = m0) (compress_archive_file f)
    (λ _ m, tidy m ∧ archive_list m = l ++ set_compressed f true :: k ∧ same_archive m0 m)
    (λ m, names_ok m ∧ same_archive m0 m).
Proof.
  intros Ht Hl Hc. assert (∀ m, m = m0 → names_ok m ∧ same_archive m0 m) as Hsame.
  { intros m ->. destruct Ht. by split. }
  pose proof (compress_same m0 l f k Ht Hl Hc) as [Hs1 Hs2].
  eapply readable_bind with (R := λ it m, m = m0 ∧ it = decode_file f <$> m0 !! af_path f).
  { eapply readable_conseq; [apply (archive_file_iter_triple m0)|done|done|exact Hsame]. }
  intros it. apply readable_pure. intros ->.
  eapply readable_bind with (R := λ items m, m = m0 ∧ Some items = decode_file f <$> m0 !! af_path f).
  { eapply readable_conseq; [apply (items_or_fail_triple m0)|done|done|exact Hsame]. }
  intros items. apply readable_pure. intros Hitems%file_items_decode. rewrite Hitems in Hs1, Hs2.
  eapply readable_bind with (R := λ w m, m = m0 ∧ w = mkWriter (set_compressed f true) "").
  { eapply readable_conseq; [apply (archive_file_writer_triple m0)|done|done|exact Hsame]. }
  intros w. apply readable_pure. intros ->.
  eapply readable_bind with
    (R := λ w m, m = m0 ∧ w = mkWriter (set_compressed f true) (encode_items (ok_items items))).
  { eapply readable_conseq; [apply (write_tasks_triple m0)|done|done|exact Hsame]. }
  intros w. apply readable_pure. intros ->.
  set (d := encode_file true (encode_items (ok_items items))) in *.
  set (m1 := <[af_path (set_compressed f true) := d]> m0) in *.
  pose proof (archive_list_compress m0 l f k d Ht Hl Hc) as (Hok1&_&Ht2&Hl2).
  eapply readable_bind with (R := λ _ m, m = m1).
  { eapply readable_conseq; [apply (commit_triple m0)|done|done|exact Hsame]. }
  intros _. eapply readable_bind with (R := λ _ m, m = delete (af_path f) m1).
  { eapply readable_conseq; [apply (fs_remove_triple m1)|done|done|by intros m ->]. }
  intros _. apply readable_ret. by intros m ->.
Qed.
End content.

(** ** Rotation *)

(** The start time of the newest file that is not younger than [x]. *)
Fixpoint span_of (ss : list Z) (x : Z) : option Z :=
  match ss with
  | [] => None
  | s :: ss' => if s <=? x then Some s else span_of ss' x
  end.

Lemma span_of_target fs t : span_of (af_starttime <$> fs) (item_starttime t) = af_starttime <$> target fs t.
Proof. induction fs as [|f fs IH]; simpl; [done|]. by destruct (_ <=? _). Qed.

Lemma span_of_snoc ss s x s' :
  span_of (ss ++ [s]) x = Some s' → s' ≠ s → span_of ss x = Some s'.
Proof.
  induction ss as [|u ss IH]; simpl.
  - destruct (s <=? x); [|done]. intros; by simplify_eq/=.
  - by destruct (u <=? x).
Qed.

Lemma span_of_last ss s x u : span_of (ss ++ [s]) x = Some s → s ∉ ss → u ∈ ss → x < u.
Proof.
  induction ss as [|v ss IH]; simpl; [set_solver|]. intros Hs Hno.
  destruct (Z.leb_spec v x) as [Hle|Hlt]; [simplify_eq/=; set_solver|].
  intros [->|Hu]%elem_of_cons; [done|]. apply IH; [done|set_solver|done].
Qed.

Section rotate.
Context `{TaskCodec} `{!TaskCodecLaws} (now : Z).
Implicit Types (m : gmap string string) (f : ArchiveFile).

Definition starts (m : gmap string string) : list Z := af_starttime <$> archive_list m.

(** [t] is in the journal, or in the file of its time span. *)
Definition placed (m : gmap string string) (t : TaskCacheItem) : Prop :=
  has_task t (journal_items m) ∨
  ∃ s l, (s, l) ∈ archive_content m ∧ span_of (starts m) (item_starttime t) = Some s ∧ has_task t l.

(** Tasks from before [now] are forgotten only when they are older than every
    remaining file. *)
Definition forgets_old (m m' : gmap string string) : Prop :=
  ∀ t, item_starttime t < now → covered m' t → covered m t ∧ (placed m t → placed m' t).

Lemma forgets_old_refl m : forgets_old m m.
Proof. done. Qed.
Lemma forgets_old_trans m1 m2 m3 : forgets_old m1 m2 → forgets_old m2 m3 → forgets_old m1 m3.
Proof.
  intros H12 H23 t Ht Hc. destruct (H23 t Ht Hc) as [Hc2 Hk2].
  destruct (H12 t Ht Hc2) as [Hc1 Hk1]. auto.
Qed.

Lemma starts_content m : starts m = (archive_content m).*1.
Proof. unfold starts, archive_content. by rewrite <-list_fmap_compose. Qed.

Lemma same_archive_placed m m' t : same_archive m m' → placed m t → placed m' t.
Proof. intros [Hc Hj]. unfold placed, journal_items. by rewrite !starts_content, Hc, Hj. Qed.

Lemma same_archive_forgets m m' : same_archive m m' → forgets_old m m'.
Proof.
  intros Hs t _ Hc. split; [by apply (same_archive_covered m m')|]. by apply same_archive_placed.
Qed.

(** A task that is where it belongs is known; in a well-ordered archive every
    known task is where it belongs. *)
Lemma placed_known m t : placed m t → known m t.
Proof.
  rewrite known_iff, archive_items_content. intros [Hj|(s&l&Hin&_&t'&Ht'&Hs)]; [by left|right].
  exists t'. split; [|done]. rewrite list_elem_of_In, in_concat. setoid_rewrite <-list_elem_of_In.
  exists l. split; [|done]. apply list_elem_of_fmap. by exists (s, l).
Qed.

Lemma archive_ok_placed m t : archive_ok m → known m t → placed m t.
Proof.
  intros [_ Hok]. rewrite known_iff, has_task_archive. intros [Hj|(f&Hf&t'&Ht'&Hs)]; [by left|right].
  exists (af_starttime f), (file_items m f). split_and!; [|destruct (Hok f Hf) as [_ Htg]|by exists t'].
  - apply list_elem_of_fmap. by exists f.
  - unfold starts. rewrite span_of_target.
    assert (item_starttime t = item_starttime t') as Heq by by destruct Hs.
    specialize (Htg t' Ht'). assert (∀ fs, target fs t = target fs t') as ->; [|by rewrite Htg].
    intros fs. induction fs as [|g fs IH]; simpl; [done|]. by rewrite Heq, IH.
Qed.

(** The journal is as it was, or has been applied. *)
Definition journal_kept (m m' : gmap string string) : Prop :=
  m' !! WAL_FILENAME = m !! WAL_FILENAME ∨ m' !! WAL_FILENAME = Some ""%string.

Lemma journal_kept_trans m1 m2 m3 : journal_kept m1 m2 → journal_kept m2 m3 → journal_kept m1 m3.
Proof. unfold journal_kept. intros [] []; (left; congruence) || (right; congruence). Qed.

Lemma journal_run_kept m m' : journal_run m m' → journal_kept m m'.
Proof.
  intros [(pre&post&Heq&->)|Hap].
  - left. by apply (merge_journal m _ pre post).
  - right. rewrite <-Hap by set_solver. apply lookup_insert_eq.
Qed.

(** The state between two steps of a rotation that began in [m0]: [l] are the
    files there are. *)
Record stage (m0 : gmap string string) (l : list ArchiveFile) (m : gmap string string) : Prop := {
  st_tidy : tidy m;
  st_list : archive_list m = l;
  st_keep : forgets_old m0 m;
  st_journal : journal_kept m0 m;
}.

Lemma stage_new m0 l m c :
  stage m0 l m → in_i64 now = true → (∀ f, f ∈ l → af_starttime f < now) →
  stage m0 (archive_file_at now c :: l) (<[archive_path now c := encode_file c (encode_items [])]> m).
Proof.
  intros [Ht Hl Hk Hjk] Hi Hnew. subst l.
  set (m' := <[archive_path now c := encode_file c (encode_items [])]> m).
  destruct (archive_list_new m now c (encode_file c (encode_items [])) Ht Hi Hnew) as [Ht' Hl'].
  fold m' in Ht', Hl'.
  assert (archive_content m' = (now, []) :: archive_content m) as Hc.
  { unfold archive_content. rewrite Hl', fmap_cons. f_equal.
    - f_equal. apply file_items_written. apply lookup_insert_eq.
    - apply list_fmap_ext. intros i g Hg%list_elem_of_lookup_2. f_equal. apply file_items_other.
      unfold m'. rewrite lookup_insert_ne; [done|]. intros Heq. apply Hnew in Hg as Hlt.
      apply archive_list_elem in Hg as [Hp _]. rewrite <-Heq, parse_archive_path in Hp by done.
      simplify_eq/=. lia. }
  assert (m' !! WAL_FILENAME = m !! WAL_FILENAME) as Hj.
  { unfold m'. rewrite lookup_insert_ne; [done|]. intros Heq.
    pose proof (parse_archive_path now c Hi) as Hp. by rewrite Heq in Hp. }
  split; [done|done| |by eapply journal_kept_trans; [exact Hjk|left]].
  eapply forgets_old_trans; [exact Hk|]. intros t Hlt. rewrite !covered_content. unfold placed, journal_items.
  rewrite !starts_content, Hc, Hj.
  intros (s&[->|Hin]%elem_of_cons&Hle); [simpl in Hle; lia|]. split; [eauto|].
  intros [?|(s'&k&Hin'&Hsp&Hk')]; [by left|right]. exists s', k. split; [by right|]. split; [|done].
  simpl. destruct (Z.leb_spec now (item_starttime t)); [lia|done].
Qed.

Lemma journal_run_names m m' f :
  journal_run m m' → f ∈ archive_names m' ↔ f ∈ archive_names m.
Proof.
  intros [(pre&post&Heq&->)|Hap]; [by eapply archive_names_merge|].
  rewrite <-(archive_names_merge m (journal_items m) (archive_list m) [] f) by (by rewrite app_nil_r).
  symmetry. apply (agree_names [STATE_FILENAME; WAL_FILENAME]); [|done].
  intros p Hp. rewrite <-Hap, lookup_insert_ne by set_solver. done.
Qed.

(** Applying the journal moves tasks into the files where they belong. *)
Lemma journal_run_placed m m' t :
  names_ok m → journal_run m m' → covered m t → placed m t → placed m' t.
Proof.
  intros Hok Hrun Hcov. destruct (journal_run_known m m' t Hok Hrun) as (_&Hl'&_).
  unfold placed, archive_content, starts. rewrite Hl'.
  intros [(t'&Ht'&Hsame)|(s&l&(f&[= -> ->]&Hf)%list_elem_of_fmap&Hsp&t'&Ht'&Hsame)].
  - assert (item_starttime t' = item_starttime t) as Heq by by destruct Hsame.
    destruct Hrun as [(pre&post&Heq'&->)|Hap].
    { left. exists t'. split; [|done]. unfold journal_items at 1. by rewrite (merge_journal m _ pre post). }
    right. destruct (target_is_Some (archive_list m) t') as [f Hf].
    { destruct Hcov as (f&Hf&Hle). exists f. split; [done|lia]. }
    pose proof (target_Some _ _ _ Hf) as [Hfin _].
    exists (af_starttime f), (file_items m' f). split_and!.
    + apply list_elem_of_fmap. by exists f.
    + rewrite <-Heq, span_of_target. by rewrite Hf.
    + rewrite (journal_applied_items m m' f Hfin Hap). apply has_task_merge. right.
      exists t'. split; [by apply list_elem_of_filter|done].
  - right. exists (af_starttime f), (file_items m' f). split_and!; [apply list_elem_of_fmap; by exists f|done|].
    destruct (journal_run_items m m' f Hf Hrun) as [-> | ->]; [by exists t'|].
    apply has_task_merge. left. by exists t'.
Qed.

Lemma stage_journal m0 l m m' : stage m0 l m → journal_run m m' → stage m0 l m'.
Proof.
  intros [[Hok Hnt] Hl Hk Hjk] Hrun.
  destruct (journal_run_known m m' (mkItem (mkRemoteUpid "" RemoteType.Pve "") 0 None None) Hok Hrun)
    as (Hok'&Hl'&_).
  split.
  - split; [done|]. intros f g. rewrite !(journal_run_names m m') by done. apply Hnt.
  - congruence.
  - eapply forgets_old_trans; [exact Hk|]. intros t _ Hc.
    assert (covered m t) as Hc' by (unfold covered in *; by rewrite Hl' in Hc).
    split; [done|]. by apply journal_run_placed.
  - eapply journal_kept_trans; [exact Hjk|by apply journal_run_kept].
Qed.

Lemma stage_delete m0 l f m : stage m0 (l ++ [f]) m → stage m0 l (delete (af_path f) m).
Proof.
  intros [Ht Hl Hk Hjk]. destruct (archive_list_delete m l f [] Ht Hl) as [Ht' Hl'].
  rewrite app_nil_r in Hl'. set (m' := delete (af_path f) m) in *.
  assert (∀ g, g ∈ l → file_items m' g = file_items m g) as Hitems.
  { intros g Hg. apply file_items_other. unfold m'. rewrite lookup_delete_ne; [done|]. intros Heq.
    rewrite <-Hl' in Hg. apply archive_list_elem in Hg as [_ Hg]. unfold m' in Hg.
    rewrite <-Heq, lookup_delete_eq in Hg. by destruct Hg. }
  assert (archive_content m = archive_content m' ++ [(af_starttime f, file_items m f)]) as Hc.
  { unfold archive_content. rewrite Hl, Hl', fmap_app. f_equal. apply list_fmap_ext.
    intros i g Hg%list_elem_of_lookup_2. by rewrite Hitems. }
  assert (starts m = starts m' ++ [af_starttime f]) as Hst.
  { by rewrite !starts_content, Hc, fmap_app. }
  assert (af_starttime f ∉ starts m') as Hno.
  { unfold starts. rewrite Hl'. intros (g&Heq&Hg)%list_elem_of_fmap.
    pose proof (archive_list_NoDup m) as Hnd. rewrite Hl in Hnd.
    apply NoDup_app in Hnd as (_&Hnd&_). apply (Hnd g Hg).
    rewrite (archive_list_starttime_inj m f g); [left|rewrite Hl; set_solver..|done]. }
  assert (m' !! WAL_FILENAME = m !! WAL_FILENAME) as Hj.
  { unfold m'. rewrite lookup_delete_ne; [done|]. intros Heq.
    assert (f ∈ archive_list m) as [Hp _]%archive_list_elem by (rewrite Hl; set_solver).
    by rewrite Heq in Hp. }
  split; [done|done| |by eapply journal_kept_trans; [exact Hjk|left]].
  eapply forgets_old_trans; [exact Hk|]. intros t Hlt Hcov. rewrite covered_content in Hcov.
  destruct Hcov as (u&Hu&Hle). split.
  { apply covered_content. exists u. split; [|done]. rewrite Hc, fmap_app. set_solver. }
  unfold placed, journal_items. rewrite Hj, Hst, Hc. intros [?|(s&k&Hin&Hsp&Hk')]; [by left|right].
  rewrite <-starts_content in Hu. destruct (decide (s = af_starttime f)) as [->|Hne].
  { pose proof (span_of_last _ _ _ u Hsp Hno Hu). lia. }
  exists s, k. split_and!; [set_solver|by eapply span_of_snoc|done].
Qed.

Lemma stage_same m0 l l' m m' :
  stage m0 l m → tidy m' → archive_list m' = l' → same_archive m m' → stage m0 l' m'.
Proof.
  intros [Ht Hl Hk Hjk] Ht' Hl' Hsame. split; [done|done| |].
  - eapply forgets_old_trans; [exact Hk|]. by apply same_archive_forgets.
  - eapply journal_kept_trans; [exact Hjk|]. left. symmetry. by apply Hsame.
Qed.

Lemma remove_loop_triple m0 l k :
  triple (stage m0 (l ++ k)) (io_for (λ f, fs_remove (af_path f)) (reverse k))
    (λ _, stage m0 l) (forgets_old m0).
Proof.
  induction k as [|f k IH] using rev_ind; simpl.
  { apply readable_ret. by rewrite app_nil_r. }
  rewrite reverse_app, app_assoc. simpl. eapply readable_bind; [|intros u; exact IH].
  apply readable_from. intros m1 Hst.
  eapply readable_conseq; [apply (fs_remove_triple m1)|done| |].
  - intros _ m ->. by apply stage_delete.
  - intros m ->. by apply Hst.
Qed.

Definition all_compressed (l : list ArchiveFile) : Prop := Forall (λ f, af_compressed f = true) l.

Lemma compress_loop_triple m0 k : ∀ l,
  triple (stage m0 (l ++ k)) (compress_loop k)
    (λ _ m, ∃ k', stage m0 (l ++ k') m ∧ af_starttime <$> k' = af_starttime <$> k ∧ all_compressed k')
    (forgets_old m0).
Proof.
  induction k as [|f k IH]; intros l; simpl.
  { apply readable_ret. intros m Hm. exists []. split_and!; [done|done|constructor]. }
  assert (∀ f', af_compressed f' = true → af_starttime f' = af_starttime f → ∀ m,
    (∃ k', stage m0 ((l ++ [f']) ++ k') m ∧ af_starttime <$> k' = af_starttime <$> k ∧ all_compressed k') →
    ∃ k', stage m0 (l ++ k') m ∧ af_starttime <$> k' = af_starttime <$> f :: k ∧ all_compressed k') as Hcons.
  { intros f' Hc Heq m (k'&Hst&Hs&Hall). exists (f' :: k').
    rewrite <-app_assoc in Hst. split_and!; [done| |by constructor].
    rewrite !fmap_cons. by rewrite Heq, Hs. }
  destruct (af_compressed f) eqn:Hc.
  - rewrite cons_middle, app_assoc.
    eapply readable_conseq; [apply (IH (l ++ [f]))|done|intros a; by apply Hcons|done].
  - eapply readable_bind with (R := λ _, stage m0 ((l ++ [set_compressed f true]) ++ k)).
    + apply readable_from. intros m1 Hst. pose proof Hst as [Ht Hl Hk _].
      eapply readable_conseq; [apply (compress_archive_file_triple m1 l f k Ht Hl Hc)|done| |].
      * intros _ m (Ht'&Hl'&Hs). rewrite <-app_assoc. by eapply stage_same.
      * intros m [_ Hs]. eapply forgets_old_trans; [exact Hk|]. by apply same_archive_forgets.
    + intros st. eapply readable_bind with (R := λ _ m, _); [apply (IH (l ++ [set_compressed f true]))|].
      intros c. apply readable_ret. by apply Hcons.
Qed.

Context (cache : TaskCache).

(** The files after a rotation that started a new one, or did not. *)
Definition rotated (due : bool) (fs : list ArchiveFile) : list ArchiveFile :=
  if due then archive_file_at now (uncompressed_files cache =? 0) :: fs else fs.

Lemma start_new_file_triple m0 l :
  in_i64 now = true → (∀ f, f ∈ l → af_starttime f < now) →
  triple (stage m0 l) (start_new_file cache now l)
    (λ fs m, stage m0 (rotated true l) m ∧ fs = rotated true l) (forgets_old m0).
Proof.
  intros Hi Hnew. apply readable_from. intros m1 Hst.
  set (c := uncompressed_files cache =? 0).
  set (m2 := <[archive_path now c := encode_file c (encode_items [])]> m1).
  pose proof (stage_new m0 l m1 c Hst Hi Hnew) as Hst2. fold m2 in Hst2.
  assert (∀ m, m = m1 → forgets_old m0 m) as Hm1 by (intros m ->; apply Hst).
  eapply readable_bind with (R := λ f m, m = m2 ∧ f = archive_file_at now c).
  - eapply readable_bind with (R := λ w m, m = m1 ∧ w = mkWriter (archive_file_at now c) "").
    { eapply readable_conseq; [apply (archive_file_writer_triple m1)|done|done|exact Hm1]. }
    intros w. apply readable_pure. intros ->.
    eapply readable_bind with (R := λ _ m, m = m2); [|intros u; apply readable_ret; by intros m ->].
    eapply readable_conseq; [apply (commit_triple m1)|done|done|exact Hm1].
  - intros f. apply readable_pure. intros ->.
    eapply readable_bind with (R := λ _, stage m0 (rotated true l)).
    + eapply readable_conseq with (P' := λ m, m = m2) (Q' := λ _ m, journal_run m2 m) (E' := journal_run m2).
      * apply apply_journal_run_triple.
      * done.
      * intros _ m Hr. by apply (stage_journal _ _ m2).
      * intros m Hr. by apply (stage_journal _ _ m2 m Hst2).
    + intros u. by apply readable_ret.
Qed.

Lemma stage_repair m0 l m m' : stage m0 l m → agree_but [STATE_FILENAME] m m' → stage m0 l m'.
Proof.
  intros Hst Hag. pose proof Hst as [[Hok Hnt] Hl _ _].
  destruct (agree_archive_list _ _ _ Hok Hag eq_refl) as [Hl' Hok'].
  eapply stage_same; [exact Hst| |congruence|].
  - split; [done|]. intros f g Hf Hg. apply Hnt; by eapply agree_names.
  - split; [|apply Hag; set_solver]. unfold archive_content. rewrite <-Hl'.
    apply list_fmap_ext. intros i f Hf%list_elem_of_lookup_2. f_equal.
    apply archive_list_elem in Hf as [Hf _]. by eapply agree_file_items.
Qed.

(** What a completed rotation leaves: the newest [max_files] files, of which
    only the first [uncompressed_files] are not compressed. *)
Definition rotate_done (m0 : gmap string string) (due : bool) (m : gmap string string) : Prop :=
  let keep := take (Z.to_nat (max_files cache)) (rotated due (archive_list m0)) in
  let u := Z.to_nat (uncompressed_files cache) in
  ∃ k, stage m0 (take u keep ++ k) m ∧
       af_starttime <$> k = af_starttime <$> drop u keep ∧ all_compressed k.

(** [rotate] once the duplicates are gone. *)
Definition rotate_files (fs : list ArchiveFile) : io bool :=
  let due := rotation_due cache now fs in
  fs ← (if (due : bool) then start_new_file cache now fs else mret fs);
  let keep := Z.to_nat (max_files cache) in
  _ ← io_for (λ f, fs_remove (af_path f)) (reverse (drop keep fs));
  corrupted ← compress_loop (drop (Z.to_nat (uncompressed_files cache)) (take keep fs));
  _ ← (match corrupted with [] => mret tt | _ => request_repair corrupted end);
  mret due.

Lemma rotate_files_triple m0 :
  in_i64 now = true →
  triple (stage m0 (archive_list m0)) (rotate_files (archive_list m0)) (rotate_done m0) (forgets_old m0).
Proof.
  intros Hi. unfold rotate_files.
  set (due := rotation_due cache now (archive_list m0)).
  eapply readable_bind with
    (R := λ fs m, stage m0 (rotated due (archive_list m0)) m ∧ fs = rotated due (archive_list m0)).
  { destruct due eqn:Hdue; [|by apply readable_ret]. apply start_new_file_triple; [done|].
    intros f Hf. pose proof (archive_list_desc m0) as Hdesc. revert Hdue. unfold due, rotation_due.
    destruct (archive_list m0) as [|g fs]; [set_solver|]. simpl.
    intros [Hlt%Z.ltb_lt _]%andb_true_iff. apply StronglySorted_cons in Hdesc as [Hall _].
    rewrite Forall_forall in Hall. apply elem_of_cons in Hf as [->|Hf%Hall]; lia. }
  intros fs. apply readable_pure. intros ->. set (L := rotated due (archive_list m0)).
  set (keep := Z.to_nat (max_files cache)).
  eapply readable_bind with (R := λ _, stage m0 (take keep L)).
  { rewrite <-(take_drop keep L) at 1. apply remove_loop_triple. }
  intros _. set (u := Z.to_nat (uncompressed_files cache)).
  eapply readable_bind.
  { rewrite <-(take_drop u (take keep L)) at 1. apply compress_loop_triple. }
  intros corrupted. apply readable_from. intros m1 (k&Hst&Hk&Hall).
  eapply readable_bind with (R := λ _ m, stage m0 (take u (take keep L) ++ k) m).
  - destruct corrupted as [|c cs]; [by apply readable_ret; intros m ->|].
    eapply readable_conseq; [apply (request_repair_triple m1)|done| |].
    + intros a m Hag. by eapply stage_repair.
    + intros m Hag. by apply (stage_repair m0 _ m1 m Hst Hag).
  - intros v. apply readable_ret. intros m Hm. by exists k.
Qed.

Lemma rotate_run m0 w :
  names_ok m0 → no_twins m0 ∨ faults w = [] → in_i64 now = true → files w = m0 → read_faults w = [] →
  match rotate cache now w with
  | (Ok due, w') => rotate_done m0 due (files w') ∧ read_faults w' = []
  | (Err _, w') => forgets_old m0 (files w') ∧ read_faults w' = []
  end.
Proof.
  intros Hok Htw Hi Hw Hrf. change (rotate cache now) with
    (with_dupes ← archive_files_with_dupes; fs ← remove_dupes ∅ with_dupes; rotate_files fs).
  rewrite io_bind_run.
  assert (∀ w', files w' = m0 → forgets_old m0 (files w')) as Hsame by by intros w' ->.
  assert (archive_files_with_dupes w = (Err EIo, mkWorld m0 (tail (faults w)) []) ∨
          archive_files_with_dupes w =
            (Ok (sort_by compare_archive_files (archive_names m0)), mkWorld m0 (tail (faults w)) [])) as Hdir.
  { unfold archive_files_with_dupes, fs_read_dir, prim. rewrite io_bind_run, Hw, Hrf.
    destruct (faults w) as [|[] fl]; [by right|by left|by right]. }
  destruct Hdir as [-> | ->]; [split; [by apply Hsame|done]|]. rewrite io_bind_run.
  destruct (remove_dupes_tidy m0 (mkWorld m0 (tail (faults w)) [])) as (w1&->&Ht1&Hl1&Hs1&Hr1);
    [done|destruct Htw as [?| ->]; auto|done|done|].
  apply rotate_files_triple; [done| |done]. split; [done|done|by apply same_archive_forgets|].
  left. symmetry. by apply Hs1.
Qed.

Lemma rotate_triple m0 :
  tidy m0 → in_i64 now = true →
  triple (λ m, m = m0) (rotate cache now) (rotate_done m0) (forgets_old m0).
Proof.
  intros [Hok Hnt] Hi w Hw Hrf. pose proof (rotate_run m0 w Hok (or_introl Hnt) Hi Hw Hrf) as Hrun.
  by destruct (rotate cache now w) as [[due|e] w'].
Qed.
End rotate.

(** ** Properties *)

Section properties.
Context `{TaskCodec} `{!TaskCodecLaws}.

(** A crash anywhere during the compression of an archive file leaves the
    archive with the same files (start times) holding the same tasks: as long
    as both copies exist the compressed one is used, once. *)
Theorem compress_archive_file_crash_safe (m : gmap string string) (fl : list bool)
    (l k : list ArchiveFile) (f : ArchiveFile) :
  tidy m → archive_list m = l ++ f :: k → af_compressed f = false →
  let m' := files (compress_archive_file f (World m fl)).2 in
  archive_content m' = archive_content m ∧ archived_view m' = archived_view m.
Proof.
  intros Ht Hl Hc m'.
  pose proof (compress_archive_file_triple m l f k Ht Hl Hc (World m fl) eq_refl eq_refl) as Htr.
  assert (same_archive m m') as [Hcont Hj].
  { unfold m'. destruct (compress_archive_file f (World m fl)) as [[st|e] w]; simpl; destruct Htr as [Htr _]; apply Htr. }
  split; [done|]. unfold archived_view. by rewrite !archive_items_content, Hcont, Hj.
Qed.

(** C37: a completed rotation keeps at most [max_files] files, namely the
    newest ones (with the new file first when one was due), and all of them
    except the [uncompressed_files] newest are compressed.  It is stated for a
    directory whose archive files have the names the cache gives them
    ([names_ok]), for an [i64] time [now], and for files that can be read to their
    end.  Leftover duplicates (a plain and a compressed file of one start time) are
    removed if no system call fails; failing to delete one is only logged, so with
    faults ([fl]) the statement is for a directory without duplicates ([no_twins]). *)
Theorem rotate_bounds (cache : TaskCache) (now : Z) (m : gmap string string) (fl : list bool)
    (due : bool) (w : world) :
  names_ok m → no_twins m ∨ fl = [] → in_i64 now = true →
  rotate cache now (World m fl) = (Ok due, w) →
  starts (files w) =
    take (Z.to_nat (max_files cache)) (if due then now :: starts m else starts m) ∧
  (length (archive_list (files w)) ≤ Z.to_nat (max_files cache))%nat ∧
  all_compressed (drop (Z.to_nat (uncompressed_files cache)) (archive_list (files w))).
Proof.
  intros Hok Htw Hi Hrun.
  pose proof (rotate_run now cache m (World m fl) Hok Htw Hi eq_refl eq_refl) as Htr.
  rewrite Hrun in Htr. destruct Htr as [(k&[_ Hl _ _]&Hk&Hall) _].
  set (keep := take (Z.to_nat (max_files cache)) (rotated now cache due (archive_list m))) in *.
  assert (starts (files w) = af_starttime <$> keep) as Hst.
  { unfold starts. rewrite Hl, fmap_app, Hk, <-fmap_app. by rewrite take_drop. }
  split_and!.
  - rewrite Hst. unfold keep. rewrite fmap_take. f_equal. by destruct due.
  - rewrite <-(length_fmap af_starttime). fold (starts (files w)). rewrite Hst, length_fmap.
    unfold keep. rewrite length_take. lia.
  - rewrite Hl. unfold all_compressed. rewrite drop_app. apply Forall_app. split.
    + rewrite drop_ge; [constructor|]. rewrite length_take. lia.
    + by apply Forall_drop.
Qed.

(** C32: rotation only forgets old tasks.  Whatever system calls fail, a task
    that started before [now] and is not older than every file that is left after
    the rotation is still known, if before it was in the journal or in the file of
    its time span ([placed]).  It is stated for a directory whose archive files
    have the names the cache gives them ([names_ok]), without leftover duplicates
    unless no system call fails, for an [i64] time [now], and for files that can be
    read to their end.  A task in a file that is older than its time span
    is not [placed], and can be lost with that file: a late rotation leads to
    such files ([late_rotation_misorders]). *)
Theorem rotate_forgets_only_old (cache : TaskCache) (now : Z) (m : gmap string string)
    (fl : list bool) (t : TaskCacheItem) :
  names_ok m → no_twins m ∨ fl = [] → in_i64 now = true →
  let m' := files (rotate cache now (World m fl)).2 in
  item_starttime t < now → covered m' t → placed m t → known m' t.
Proof.
  intros Hok Htw Hi m' Hlt Hc Hk.
  pose proof (rotate_run now cache m (World m fl) Hok Htw Hi eq_refl eq_refl) as Htr.
  assert (forgets_old now m m') as Hf.
  { unfold m'. destruct (rotate cache now (World m fl)) as [[due|e] w]; simpl; [|apply Htr].
    destruct Htr as [(k&[_ _ Hf _]&_) _]. done. }
  apply placed_known. by apply Hf.
Qed.
End properties.

(** ** Witnesses *)

Definition no_twinsb (m : gmap string string) : bool :=
  forallb (λ f, forallb (λ g, negb (af_starttime f =? af_starttime g) || bool_decide (f = g))
                  (archive_names m)) (archive_names m).

Lemma no_twinsb_ok m : no_twinsb m = true → no_twins m.
Proof.
  unfold no_twinsb. rewrite forallb_forall. intros Hall f g Hf Hg Heq.
  apply list_elem_of_In, Hall in Hf. rewrite forallb_forall in Hf.
  apply list_elem_of_In, Hf in Hg. rewrite Heq, Z.eqb_refl in Hg. simpl in Hg.
  by apply bool_decide_eq_true in Hg.
Qed.

Module RotateDemo.
Import JournalDemo.
#[local] Existing Instance demo_codec.
#[local] Existing Instance demo_codec_laws.

Definition demo_cache : TaskCache := mkTaskCache 1000 2 1 50.

Lemma demo_tidy : tidy demo_files.
Proof. split; [apply demo_names_ok|]. apply no_twinsb_ok. vm_compute. reflexivity. Qed.

Lemma compress_archive_file_crash_safe_witness :
  archived_view (files (compress_archive_file demo_new (World demo_files [false; false; false; false; false; true])).2)
  = [demo_t1; demo_t2].
Proof.
  pose proof (compress_archive_file_crash_safe demo_files [false; false; false; false; false; true]
                [] [demo_old] demo_new demo_tidy demo_archive_list eq_refl) as [_ Heq].
  rewrite Heq. vm_compute. reflexivity.
Defined.

Lemma rotate_bounds_witness :
  starts (files (rotate demo_cache 200 (World demo_files [])).2) = [200; 100].
Proof.
  destruct (rotate demo_cache 200 (World demo_files [])) as [r w] eqn:E.
  assert (r = Ok true) as ->.
  { assert ((rotate demo_cache 200 (World demo_files [])).1 = Ok true) as Hr
      by (vm_compute; reflexivity).
    rewrite E in Hr. exact Hr. }
  destruct (rotate_bounds demo_cache 200 demo_files [] true w demo_names_ok (or_intror eq_refl) eq_refl E)
    as [Hs _].
  simpl. rewrite Hs. vm_compute. reflexivity.
Defined.

Lemma rotate_forgets_only_old_witness :
  known (files (rotate demo_cache 200 (World demo_files [])).2) demo_t1.
Proof.
  apply (rotate_forgets_only_old demo_cache 200 demo_files [] demo_t1 demo_names_ok (or_intror eq_refl) eq_refl).
  - vm_compute. reflexivity.
  - exists (archive_file_at 100 true). split; [|vm_compute; congruence].
    assert (archive_list (files (rotate demo_cache 200 (World demo_files [])).2)
            = [archive_file_at 200 false; archive_file_at 100 true]) as ->
      by (vm_compute; reflexivity).
    right. left.
  - left. exists demo_t1. split; [|done].
    assert (journal_items demo_files = [demo_t1; demo_t2]) as -> by (vm_compute; reflexivity). left.
Defined.
End RotateDemo.
