(* ===== verification/TaskUpdate.v ===== *)
(** * Task cache: adding tasks

    What [update] guarantees: finished tasks reach the journal before the state
    file (with the cut-off timestamps that decide what is fetched again) is
    replaced, running tasks are kept in the active file, and a cut-off never
    passes the start of a task that is still running. *)

From S2P Require Import Prelude FileSystem RemoteUpid TaskItems TaskCache TaskArchive TaskJournal.
Import Readable.

(** ** Steps that only read *)

(** Computations that do not read beyond what they have to. *)
Definition keeps_readable {A} (c : io A) : Prop := ∀ w, read_faults w = [] → read_faults (c w).2 = [].
Lemma keeps_readable_ret {A} (a : A) : keeps_readable (mret a).
Proof. intros w Hr. exact Hr. Qed.
Lemma keeps_readable_bind {A B} (c : io A) (k : A → io B) :
  keeps_readable c → (∀ a, keeps_readable (k a)) → keeps_readable (c ≫= k).
Proof.
  intros Hc Hk w Hr. rewrite io_bind_run. specialize (Hc w Hr). destruct (c w) as [[a|e] w']; [by apply Hk|done].
Qed.
Lemma keeps_readable_try {A} (c : io A) : keeps_readable c → keeps_readable (io_try c).
Proof. intros Hc w Hr. specialize (Hc w Hr). unfold io_try. by destruct (c w). Qed.
Lemma keeps_readable_prim {A} (f : gmap string string → result error A * gmap string string) : keeps_readable (prim f).
Proof. intros w Hr. unfold prim. destruct (faults w) as [|[] fs]; simpl; try done; by destruct (f (files w)). Qed.
Lemma keeps_readable_items `{TaskCodec} ls : keeps_readable (read_items ls).
Proof. intros w Hr. destruct (read_items_spec ls w) as (items&w'&->&_&_&_&Hrf). by apply Hrf. Qed.

Lemma triple_readonly {A} (c : io A) m0 :
  keeps_readable c → io_rel eq c → triple (λ m, m = m0) c (λ _ m, m = m0) (λ m, m = m0).
Proof.
  intros Hr Hc w Hw Hrf. specialize (Hc w). specialize (Hr w Hrf). simpl in Hw.
  destruct (c w) as [[a|e] w']; simpl in *; (split; [congruence|done]).
Qed.

Section update.
Context `{TaskCodec} `{!TaskCodecLaws} `{NativeUpids} (cache : TaskCache).
Implicit Types (m : gmap string string) (t : TaskCacheItem).

Lemma inner_task_archive_iterator_readonly fs : io_rel eq (inner_task_archive_iterator fs).
Proof.
  induction fs as [|f fs IH]; simpl; [apply io_rel_ret, _|].
  apply io_rel_bind; [apply _| |].
  - apply io_rel_try. apply io_rel_bind; [apply _|apply fs_open_readonly, _|].
    intros [content|]; [|apply io_rel_ret, _].
    apply io_rel_bind; [apply _|apply read_items_readonly, _|]. intros items. apply io_rel_ret, _.
  - intros it. apply io_rel_bind; [apply _|apply IH|]. intros [items bad]. apply io_rel_ret, _.
Qed.

Lemma get_tasks_active_readonly : io_rel eq (get_tasks Active).
Proof.
  apply io_rel_bind; [apply _| |intros [l b]; apply io_rel_ret, _].
  apply io_rel_bind; [apply _|apply io_rel_ret, _|]. intros j.
  apply io_rel_bind; [apply _| |].
  { destruct j; [|apply io_rel_ret, _].
    apply io_rel_bind; [apply _|apply read_journal_readonly, _|]. intros l. apply io_rel_ret, _. }
  intros j'. apply io_rel_bind; [apply _|apply inner_task_archive_iterator_readonly|].
  intros [items bad]. apply io_rel_ret, _.
Qed.

Lemma inner_task_archive_iterator_readable fs : keeps_readable (inner_task_archive_iterator fs).
Proof.
  induction fs as [|f fs IH]; [apply keeps_readable_ret|]. apply keeps_readable_bind.
  - apply keeps_readable_try, keeps_readable_bind; [apply keeps_readable_prim|].
    intros [content|]; [|apply keeps_readable_ret].
    apply keeps_readable_bind; [apply keeps_readable_items|]. intros items. apply keeps_readable_ret.
  - intros it. apply keeps_readable_bind; [apply IH|]. intros [items bad]. apply keeps_readable_ret.
Qed.
Lemma get_tasks_active_readable : keeps_readable (get_tasks Active).
Proof.
  apply keeps_readable_bind; [|intros [l b]; apply keeps_readable_ret].
  apply keeps_readable_bind; [apply keeps_readable_ret|]. intros j.
  apply keeps_readable_bind.
  { destruct j; [|apply keeps_readable_ret]. apply keeps_readable_bind; [|intros l; apply keeps_readable_ret].
    apply keeps_readable_bind; [apply keeps_readable_items|]. intros l. apply keeps_readable_ret. }
  intros j'. apply keeps_readable_bind; [apply inner_task_archive_iterator_readable|].
  intros [items bad]. apply keeps_readable_ret.
Qed.

(** ** The journal grows by the finished tasks *)

(** A journal as the code writes it: complete lines only. *)
Definition journal_wf (m : gmap string string) : Prop :=
  ∃ ts, default ""%string (m !! WAL_FILENAME) = encode_items ts.

(** Tasks whose UPID cannot be parsed are not stored. *)
Definition storable (t : TaskCacheItem) : Prop := is_Some (cutoff_node (item_upid t)).
#[export] Instance storable_dec t : Decision (storable t).
Proof. unfold storable. apply _. Defined.

Definition finished (t : TaskCacheItem) : Prop := is_Some (item_endtime t).
#[export] Instance finished_dec t : Decision (finished t).
Proof. unfold finished. apply _. Defined.

Lemma encode_items_app ts us : encode_items (ts ++ us) = encode_items ts +:+ encode_items us.
Proof.
  induction ts as [|t ts IH]; [done|]. simpl. rewrite IH. by rewrite !str_app_assoc.
Qed.

Lemma encode_items_cons t ts : encode_items (t :: ts) = json_of_item t +:+ nl +:+ encode_items ts.
Proof. done. Qed.

(** Appending anything to a well-formed journal keeps its items. *)
Lemma journal_iterator_keeps ts b t : t ∈ ts → t ∈ journal_iterator (encode_items ts +:+ b).
Proof.
  intros Ht. unfold journal_iterator, buf_lines. simpl.
  rewrite elem_of_sort_dedup, elem_of_ok_items, archive_iterator_encode_app.
  apply elem_of_app. left. apply list_elem_of_fmap. by exists t.
Qed.

Lemma journal_iterator_encode ts t : t ∈ journal_iterator (encode_items ts) ↔ t ∈ ts.
Proof.
  unfold journal_iterator. by rewrite elem_of_sort_dedup, archive_iterator_encode, ok_items_Ok.
Qed.

Lemma fs_append_triple m0 name c data :
  triple (λ m, m = <[name := c]> m0) (fs_append name data)
    (λ _ m, m = <[name := c +:+ data]> m0) (λ m, ∃ b, m = <[name := c +:+ b]> m0).
Proof.
  unfold fs_append. revert c. induction data as [|a data IH]; intros c; simpl.
  { apply readable_ret. intros m ->. by rewrite str_app_nil_r. }
  eapply readable_bind with (R := λ _ m, m = <[name := c +:+ String a ""]> m0).
  { apply readable_prim; [intros m ->; exists ""%string; by rewrite str_app_nil_r|].
    intros m ->. by rewrite alter_insert_eq. }
  intros _. eapply readable_conseq; [apply (IH (c +:+ String a ""))|done| |].
  - intros ? m ->. by rewrite str_app_assoc.
  - intros m [b ->]. exists (String a b). by rewrite str_app_assoc.
Qed.

Definition raise_cutoffs (success : gmap (string * string) bool) (l : list TaskCacheItem)
    (st : State) : State :=
  foldl (λ st t, match cutoff_node (item_upid t) with
                 | Some node => raise_cutoff success node t st
                 | None => st
                 end) st l.

Definition drop_finished (l : list TaskCacheItem) (active : gmap RemoteUpid TaskCacheItem)
    : gmap RemoteUpid TaskCacheItem :=
  foldl (λ a t, delete (item_upid t) a) active l.

Lemma journal_finished_triple m0 success l : ∀ c active st,
  triple (λ m, m = <[WAL_FILENAME := c]> m0) (journal_finished success l active st)
    (λ r m, m = <[WAL_FILENAME := c +:+ encode_items (filter storable l)]> m0 ∧
            r = (drop_finished l active, raise_cutoffs success l st))
    (λ m, ∃ b, m = <[WAL_FILENAME := c +:+ b]> m0).
Proof.
  induction l as [|t l IH]; intros c active st; simpl.
  { apply readable_ret. intros m ->. by rewrite str_app_nil_r. }
  rewrite filter_cons. destruct (cutoff_node (item_upid t)) as [node|] eqn:Hn.
  - rewrite decide_True by (unfold storable; by rewrite Hn).
    eapply readable_bind with (R := λ _ m, m = <[WAL_FILENAME := c +:+ json_of_item t]> m0).
    { eapply readable_conseq; [apply (fs_append_triple m0 WAL_FILENAME c)|done|done|done]. }
    intros _. eapply readable_bind with (R := λ _ m, m = <[WAL_FILENAME := (c +:+ json_of_item t) +:+ nl]> m0).
    { eapply readable_conseq;
        [apply (fs_append_triple m0 WAL_FILENAME (c +:+ json_of_item t))|done|done|].
      intros m [b ->]. eexists. by rewrite str_app_assoc. }
    intros _. eapply readable_conseq; [apply (IH ((c +:+ json_of_item t) +:+ nl))|done| |].
    + intros r m [-> ->]. by rewrite encode_items_cons, !str_app_assoc.
    + intros m [b ->]. exists (json_of_item t +:+ nl +:+ b). by rewrite !str_app_assoc.
  - rewrite decide_False by (unfold storable; rewrite Hn; by intros []). apply IH.
Qed.

Lemma write_tasks_to_journal_triple m0 l active success st :
  let c := default ""%string (m0 !! WAL_FILENAME) in
  triple (λ m, m = m0) (write_tasks_to_journal l active success st)
    (λ r m, m = <[WAL_FILENAME := c +:+ encode_items (filter storable l)]> m0 ∧
            r = (drop_finished l active,
                 lower_active_cutoffs success ((map_to_list (drop_finished l active)).*2)
                   (raise_cutoffs success l st)))
    (λ m, m = m0 ∨ ∃ b, m = <[WAL_FILENAME := c +:+ b]> m0).
Proof.
  intros c. eapply readable_bind with (R := λ _ m, m = <[WAL_FILENAME := c]> m0).
  { apply readable_prim; [by left|]. intros m ->. unfold c.
    destruct (m0 !! WAL_FILENAME) as [c0|] eqn:E; simpl; [|done]. by rewrite insert_id. }
  intros _. eapply readable_bind.
  { eapply readable_conseq; [apply (journal_finished_triple m0 success l c)|done|intros ?? Hq; exact Hq|by right]. }
  intros [a s]. apply readable_from. intros m1 [-> [= -> ->]].
  eapply readable_bind with (R := λ _ m, m = _); [|intros u; by apply readable_ret].
  eapply readable_conseq; [apply readable_sync|intros ? Hq; exact Hq|intros ?? Hq; exact Hq|].
  intros m ->. right. by eexists.
Qed.

(** ** The states an update goes through *)

Section store.
Context (m0 : gmap string string) (fin : list TaskCacheItem)
        (active : gmap RemoteUpid TaskCacheItem) (success : gmap (string * string) bool)
        (st : State).

Definition new_journal : string :=
  default ""%string (m0 !! WAL_FILENAME) +:+ encode_items (filter storable fin).
Definition new_active : list TaskCacheItem :=
  sort_by compare_tasks_reverse ((map_to_list (drop_finished fin active)).*2).
Definition new_state : State :=
  lower_active_cutoffs success ((map_to_list (drop_finished fin active)).*2)
    (raise_cutoffs success fin st).

Definition journaled : gmap string string := <[WAL_FILENAME := new_journal]> m0.
Definition activated : gmap string string :=
  <[ACTIVE_FILENAME := encode_items new_active]> journaled.
Definition stored : gmap string string :=
  <[STATE_FILENAME := json_of_state new_state]> activated.

(** Where a fault may stop it: before or within the journal, between the
    active file and the state file, or while the journal is applied. *)
Definition interrupted (m : gmap string string) : Prop :=
  m = m0 ∨ (∃ b, m = <[WAL_FILENAME := default ""%string (m0 !! WAL_FILENAME) +:+ b]> m0) ∨
  m = activated ∨ journal_run stored m.

Lemma write_active_tasks_triple m1 l :
  triple (λ m, m = m1) (write_active_tasks l)
    (λ _ m, m = <[ACTIVE_FILENAME := encode_items l]> m1) (λ m, m = m1).
Proof.
  unfold write_active_tasks. tstep archive_file_writer_triple. tstep write_tasks_triple.
  apply commit_triple.
Qed.

Lemma apply_journal_if_too_large_triple m1 :
  triple (λ m, m = m1) (apply_journal_if_too_large cache) (λ _, journal_run m1) (journal_run m1).
Proof.
  assert (∀ m, m = m1 → journal_run m1 m) as Hrefl.
  { intros m ->. left. by exists [], (archive_list m1). }
  eapply readable_bind with (R := λ _ m, m = m1).
  { eapply readable_conseq;
      [apply (triple_readonly _ m1); [apply keeps_readable_prim|apply fs_size_readonly, _]|done|done|exact Hrefl]. }
  intros size. destruct (_ <? size); [|by apply readable_ret].
  apply apply_journal_run_triple.
Qed.

Lemma store_update_triple :
  triple (λ m, m = m0) (store_update cache fin active success st)
    (λ _, journal_run stored) interrupted.
Proof.
  unfold store_update. eapply readable_bind.
  { eapply readable_conseq; [apply (write_tasks_to_journal_triple m0)|done|intros ?? Hq; exact Hq|].
    intros m [?|?]; [by left|by right; left]. }
  intros [a s]. apply readable_from. intros m1 [-> [= -> ->]]. fold new_journal journaled new_state.
  eapply readable_bind with (R := λ _ m, m = activated).
  { eapply readable_conseq; [apply (write_active_tasks_triple journaled)|done|done|].
    intros m ->. right; left. by eexists. }
  intros _. eapply readable_bind with (R := λ _ m, m = stored).
  { eapply readable_conseq; [apply (readable_replace activated)|done|done|].
    intros m ->. by right; right; left. }
  intros _. eapply readable_conseq; [apply (apply_journal_if_too_large_triple stored)|done|done|].
  intros m Hm. by do 3 right.
Qed.

Lemma stored_agree : agree_but [STATE_FILENAME; ACTIVE_FILENAME; WAL_FILENAME] m0 stored.
Proof.
  intros p Hp. unfold stored, activated, journaled. rewrite !lookup_insert_ne by set_solver. done.
Qed.

Lemma journaled_known ts t :
  default ""%string (m0 !! WAL_FILENAME) = encode_items ts → names_ok m0 →
  (t ∈ fin ∧ storable t) ∨ known m0 t → known stored t.
Proof.
  intros Hwf Hok.
  assert (∀ t', t' ∈ ts ++ filter storable fin → t' ∈ journal_items stored) as Hj.
  { intros t' Ht'. unfold journal_items, stored, activated, journaled.
    rewrite !lookup_insert_ne, lookup_insert_eq by done. simpl. unfold new_journal.
    by rewrite Hwf, <-encode_items_app, journal_iterator_encode. }
  rewrite !known_iff, <-(agree_archive_items _ _ _ Hok stored_agree eq_refl).
  intros [[Hin Hs]|[(t'&Ht'&Hsame)|Ha]]; [| |by right].
  - left. apply has_task_elem, Hj, elem_of_app. right. by apply list_elem_of_filter.
  - left. exists t'. split; [|done]. apply Hj, elem_of_app. left. unfold journal_items in Ht'.
    destruct (m0 !! WAL_FILENAME) as [c|]; simpl in *; [|set_solver].
    by rewrite Hwf, journal_iterator_encode in Ht'.
Qed.
End store.

Lemma agree_known ps m m' t :
  names_ok m → agree_but ps m m' → forallb not_archive ps = true → WAL_FILENAME ∉ ps →
  known m t ↔ known m' t.
Proof.
  intros Hok Hag Hps Hwal. rewrite !known_iff, (agree_archive_items _ _ _ Hok Hag Hps).
  unfold journal_items. by rewrite (Hag _ Hwal).
Qed.

Lemma agree_covered ps m m' t :
  names_ok m → agree_but ps m m' → forallb not_archive ps = true → covered m t ↔ covered m' t.
Proof.
  intros Hok Hag Hps. unfold covered. by destruct (agree_archive_list _ _ _ Hok Hag Hps) as [-> _].
Qed.

(** After the state file is replaced every finished task is known, and all
    that was known still is. *)
Lemma journal_run_stored m0 fin active success st m t :
  names_ok m0 → journal_wf m0 → journal_run (stored m0 fin active success st) m → covered m0 t →
  (t ∈ fin ∧ storable t) ∨ known m0 t → known m t.
Proof.
  intros Hok [ts Hwf] Hrun Hcov Ht. pose proof (stored_agree m0 fin active success st) as Hag.
  destruct (agree_archive_list _ _ _ Hok Hag eq_refl) as [_ Hok'].
  apply (journal_run_known _ m t Hok' Hrun); [by apply (agree_covered _ _ _ t Hok Hag eq_refl)|].
  by eapply journaled_known.
Qed.

Lemma interrupted_known m0 fin active success st m t :
  names_ok m0 → journal_wf m0 → interrupted m0 fin active success st m → covered m0 t →
  known m0 t → known m t.
Proof.
  intros Hok Hwf Hint Hcov Hk. destruct Hint as [->|[[b ->]|[->|Hrun]]]; [done| | |].
  - assert (agree_but [WAL_FILENAME] m0
              (<[WAL_FILENAME := default ""%string (m0 !! WAL_FILENAME) +:+ b]> m0)) as Hag.
    { intros p Hp. rewrite lookup_insert_ne by set_solver. done. }
    revert Hk. rewrite !known_iff, <-(agree_archive_items _ _ _ Hok Hag eq_refl).
    intros [(t'&Ht'&Hs)|Ha]; [left|by right]. exists t'. split; [|done].
    destruct Hwf as [ts Hwf]. unfold journal_items in *. rewrite lookup_insert_eq. simpl.
    rewrite Hwf. apply journal_iterator_keeps.
    destruct (m0 !! WAL_FILENAME); simpl in *; [|set_solver].
    by rewrite Hwf, journal_iterator_encode in Ht'.
  - assert (agree_but [STATE_FILENAME] (activated m0 fin active) (stored m0 fin active success st)) as Hag.
    { intros p Hp. unfold stored. rewrite lookup_insert_ne by set_solver. done. }
    assert (names_ok (activated m0 fin active)) as Hok1.
    { assert (agree_but [ACTIVE_FILENAME; WAL_FILENAME] m0 (activated m0 fin active)) as Hag1.
      { intros p Hp. unfold activated, journaled. rewrite !lookup_insert_ne by set_solver. done. }
      by apply (agree_archive_list _ _ _ Hok Hag1 eq_refl). }
    apply (agree_known _ _ _ t Hok1 Hag eq_refl); [set_solver|].
    destruct Hwf as [ts Hwf]. eapply journaled_known; [exact Hwf|done|by right].
  - eapply journal_run_stored; eauto.
Qed.

Lemma split_new_tasks_finished new : ∀ active,
  (split_new_tasks new active).2 = filter finished new.
Proof.
  induction new as [|t new IH]; intros active; simpl; [done|].
  rewrite filter_cons. destruct (item_endtime t) as [e|] eqn:He.
  - rewrite decide_True by (unfold finished; by rewrite He).
    specialize (IH active). destruct (split_new_tasks new active). simpl in *. by rewrite IH.
  - rewrite decide_False by (unfold finished; rewrite He; by intros []). apply IH.
Qed.

(** The whole operation: what was read from the active and the state file
    does not matter for the journal. *)
Lemma update_triple m0 new success dropped :
  triple (λ m, m = m0) (update cache new success dropped)
    (λ _ m, ∃ active st, journal_run (stored m0 (filter finished new) active success st) m)
    (λ m, ∃ active st, interrupted m0 (filter finished new) active success st m).
Proof.
  assert (∀ m, m = m0 → ∃ active st, interrupted m0 (filter finished new) active success st m) as Hnone.
  { intros m ->. exists ∅, default_state. by left. }
  eapply readable_bind with (R := λ _ m, m = m0).
  { eapply readable_conseq;
      [apply (triple_readonly _ m0); [apply get_tasks_active_readable|apply get_tasks_active_readonly]|done|done|exact Hnone]. }
  intros tasks. destruct (split_new_tasks _ _) as [active fin] eqn:Hs.
  pose proof (split_new_tasks_finished new (keep_active dropped tasks)) as Hfin.
  rewrite Hs in Hfin. simpl in Hfin. subst fin.
  eapply readable_bind with (R := λ _ m, m = m0).
  { eapply readable_conseq; [apply (read_state_triple m0)|done|done|done]. }
  intros st. eapply readable_conseq; [apply (store_update_triple m0)|done| |].
  - intros a m Hm. exists active, (drop_tracked_tasks dropped st). exact Hm.
  - intros m Hm. exists active, (drop_tracked_tasks dropped st). exact Hm.
Qed.
End update.

(** ** Cut-off timestamps *)

Section cutoffs.
Context `{NativeUpids}.
Implicit Types (st : State) (t : TaskCacheItem) (success : gmap (string * string) bool).

Lemma cutoff_update st r n f r' n' :
  cutoff_timestamp (update_cutoff_timestamp st r n f) r' n' =
  if decide (r = r' ∧ n = n') then Some (f (cutoff_timestamp st r n))
  else cutoff_timestamp st r' n'.
Proof.
  unfold update_cutoff_timestamp, cutoff_timestamp.
  destruct (remote_state st !! r) as [rs|] eqn:Hr; simpl;
    (destruct (decide (r = r')) as [<-|Hne];
      [rewrite lookup_insert_eq; simpl|
       rewrite lookup_insert_ne by done; rewrite decide_False by tauto; done]).
  - destruct (decide (n = n')) as [<-|Hn].
    + rewrite lookup_insert_eq, decide_True by done. simpl. by destruct (node_state rs !! n).
    + rewrite lookup_insert_ne, decide_False by tauto. by rewrite Hr.
  - destruct (decide (n = n')) as [<-|Hn].
    + by rewrite lookup_singleton_eq, decide_True.
    + rewrite lookup_singleton_ne, decide_False by tauto. by rewrite Hr.
Qed.

(** [t] runs on node [n] of remote [r], as far as cut-offs are concerned. *)
Definition on_node (t : TaskCacheItem) (r n : string) : Prop :=
  ru_remote (item_upid t) = r ∧ cutoff_node (item_upid t) = Some n.

Lemma raise_cutoffs_other success l st r n :
  node_successful success r n = false →
  cutoff_timestamp (raise_cutoffs success l st) r n = cutoff_timestamp st r n.
Proof.
  intros Hs. unfold raise_cutoffs. revert st. induction l as [|t l IH]; intros st; simpl; [done|].
  rewrite IH. destruct (cutoff_node (item_upid t)) as [node|]; [|done]. unfold raise_cutoff.
  destruct (node_successful success _ node) eqn:E; [|done].
  rewrite cutoff_update, decide_False; [done|]. intros [<- <-]. congruence.
Qed.

(** A cut-off is raised only to the start of a finished task of the node. *)
Lemma raise_cutoffs_bound success l st r n c :
  cutoff_timestamp (raise_cutoffs success l st) r n = Some c →
  c ≤ Z.max 0 (default 0 (cutoff_timestamp st r n)) ∨
  ∃ t, t ∈ l ∧ on_node t r n ∧ c ≤ item_starttime t.
Proof.
  unfold raise_cutoffs. revert st. induction l as [|t l IH]; intros st; simpl.
  { intros ->. simpl. left. lia. }
  intros Hc%IH. destruct Hc as [Hc|(t'&Hin&Hon&Hle)]; [|right; exists t'; set_solver].
  destruct (cutoff_node (item_upid t)) as [node|] eqn:Hn; [|by left]. unfold raise_cutoff in Hc.
  destruct (node_successful success _ node); [|by left]. rewrite cutoff_update in Hc.
  destruct (decide (ru_remote (item_upid t) = r ∧ node = n)) as [[<- <-]|]; [|by left].
  simpl in Hc. destruct (Z.le_gt_cases c (item_starttime t)).
  - right. exists t. split; [left|]. done.
  - left. lia.
Qed.

Lemma lower_step success t st r n :
  let st' := match cutoff_node (item_upid t) with
             | Some node => lower_cutoff success node t st
             | None => st
             end in
  (cutoff_timestamp st' r n = cutoff_timestamp st r n ∧ ¬ (on_node t r n ∧ node_successful success r n = true)) ∨
  (on_node t r n ∧ node_successful success r n = true ∧
   cutoff_timestamp st' r n =
     Some (Z.min (default i64_MAX (cutoff_timestamp st r n)) (item_starttime t))).
Proof.
  unfold on_node. destruct (cutoff_node (item_upid t)) as [node|] eqn:Hn; simpl; [|left; naive_solver].
  unfold lower_cutoff. destruct (node_successful success _ node) eqn:Hs.
  - rewrite cutoff_update. destruct (decide (ru_remote (item_upid t) = r ∧ node = n)) as [[<- <-]|Hne].
    + right. done.
    + left. split; [done|]. intros [[? [= ->]] _]. tauto.
  - left. split; [done|]. intros [[<- [= ->]] Hs']. congruence.
Qed.

Lemma lower_active_mono success l st r n c :
  cutoff_timestamp st r n = Some c →
  ∃ c', cutoff_timestamp (lower_active_cutoffs success l st) r n = Some c' ∧ c' ≤ c.
Proof.
  unfold lower_active_cutoffs. revert st c. induction l as [|t l IH]; intros st c Hc; simpl.
  { exists c. split; [done|lia]. }
  destruct (lower_step success t st r n) as [[Heq _]|(_&_&Heq)]; rewrite Hc in Heq.
  - by apply IH.
  - destruct (IH _ _ Heq) as (c'&Hc'&Hle). exists c'. split; [done|]. simpl in Hle. lia.
Qed.

Lemma lower_active_running success l st r n t :
  t ∈ l → on_node t r n → node_successful success r n = true →
  ∃ c, cutoff_timestamp (lower_active_cutoffs success l st) r n = Some c ∧ c ≤ item_starttime t.
Proof.
  unfold lower_active_cutoffs. revert st. induction l as [|u l IH]; intros st Hin Hon Hs; [set_solver|].
  simpl. apply elem_of_cons in Hin as [<-|Hin]; [|by apply IH].
  destruct (lower_step success t st r n) as [[_ Hno]|(_&_&Heq)]; [tauto|].
  destruct (lower_active_mono success l _ r n _ Heq) as (c&Hc&Hle). exists c. split; [done|lia].
Qed.

(** Lowering leaves the cut-off below its old value or at most at the start
    of a running task. *)
Lemma lower_active_bound success l st r n c :
  cutoff_timestamp (lower_active_cutoffs success l st) r n = Some c →
  (∃ c0, cutoff_timestamp st r n = Some c0 ∧ c ≤ c0) ∨
  (node_successful success r n = true ∧ ∃ t, t ∈ l ∧ on_node t r n ∧ c ≤ item_starttime t).
Proof.
  unfold lower_active_cutoffs. revert st. induction l as [|u l IH]; intros st; simpl.
  { intros ->. left. exists c. split; [done|lia]. }
  intros Hc%IH. destruct Hc as [(c0&Hc0&Hle)|(Hs&t&Hin&Hon&Hle)];
    [|right; split; [done|]; exists t; set_solver].
  destruct (lower_step success u st r n) as [[Heq _]|(Hon&Hs&Heq)]; rewrite Hc0 in Heq.
  - left. eauto.
  - right. split; [done|]. exists u. split; [left|]. split; [done|]. simplify_eq. lia.
Qed.

Lemma reset_cutoffs_le x st r n :
  cutoff_timestamp (reset_cutoffs x st) r n = (λ c, Z.min c x) <$> cutoff_timestamp st r n.
Proof.
  unfold cutoff_timestamp, reset_cutoffs. simpl. rewrite lookup_fmap.
  destruct (remote_state st !! r) as [rs|]; simpl; [|done]. rewrite lookup_fmap.
  by destruct (node_state rs !! n).
Qed.
End cutoffs.

(** ** The set of running tasks *)

Section running.
Context `{NativeUpids}.
Implicit Types (a : gmap RemoteUpid TaskCacheItem) (l : list TaskCacheItem).

(** Every task is stored under its own UPID. *)
Definition keyed (a : gmap RemoteUpid TaskCacheItem) : Prop :=
  ∀ u t, a !! u = Some t → item_upid t = u.

Lemma keyed_insert a t : keyed a → keyed (<[item_upid t := t]> a).
Proof. intros Ha u t' [[<- <-]|[? ?]]%lookup_insert_Some; [done|by apply Ha]. Qed.
Lemma keyed_delete a u : keyed a → keyed (delete u a).
Proof. intros Ha u' t' [? ?]%lookup_delete_Some. by apply Ha. Qed.

Lemma keep_active_spec dropped l :
  keyed (keep_active dropped l) ∧
  ∀ u, is_Some (keep_active dropped l !! u) ↔ (u ∉ dropped) ∧ ∃ t, t ∈ l ∧ item_upid t = u.
Proof.
  induction l as [|t l IH] using rev_ind; unfold keep_active in *; simpl.
  { split; [by intros u t|]. intros u. rewrite lookup_empty. split; [by intros []|set_solver]. }
  rewrite foldl_app. simpl. destruct IH as [IHk IH]. case_bool_decide as Hd.
  - split; [done|]. intros u. rewrite IH. set_solver.
  - split; [by apply keyed_insert|]. intros u. rewrite lookup_insert_is_Some', IH. set_solver.
Qed.

Lemma split_new_tasks_spec new : ∀ a,
  (keyed a → keyed (split_new_tasks new a).1) ∧
  ∀ u, is_Some ((split_new_tasks new a).1 !! u) ↔
       is_Some (a !! u) ∨ ∃ t, t ∈ new ∧ (¬ finished t) ∧ item_upid t = u.
Proof.
  induction new as [|t new IH]; intros a; simpl.
  { split; [done|]. set_solver. }
  destruct (item_endtime t) as [e|] eqn:He.
  - destruct (IH a) as [IHk IHl]. destruct (split_new_tasks new a) as [a' f] eqn:Ha. simpl in *.
    split; [done|]. intros u. rewrite IHl.
    assert (finished t) by (unfold finished; by rewrite He). set_solver.
  - destruct (IH (<[item_upid t := t]> a)) as [IHk IHl]. split.
    + intros Hk. by apply IHk, keyed_insert.
    + intros u. rewrite IHl, lookup_insert_is_Some'.
      assert (¬ finished t) by (unfold finished; rewrite He; by intros []). set_solver.
Qed.

Lemma drop_finished_spec l : ∀ a,
  (keyed a → keyed (drop_finished l a)) ∧
  ∀ u, is_Some (drop_finished l a !! u) ↔ is_Some (a !! u) ∧ ¬ (∃ t, t ∈ l ∧ item_upid t = u).
Proof.
  unfold drop_finished. induction l as [|t l IH]; intros a; simpl; [set_solver|].
  destruct (IH (delete (item_upid t) a)) as [IHk IHl]. split.
  - intros Hk. by apply IHk, keyed_delete.
  - intros u. rewrite IHl, lookup_delete_is_Some. set_solver.
Qed.

Lemma keyed_values a t : keyed a → t ∈ (map_to_list a).*2 ↔ a !! item_upid t = Some t.
Proof.
  intros Hk. rewrite list_elem_of_fmap. split.
  - intros ([u t']&->&Hin%elem_of_map_to_list). simpl. by rewrite (Hk u t' Hin).
  - intros Ht. exists (item_upid t, t). split; [done|]. by apply elem_of_map_to_list.
Qed.

Lemma keyed_NoDup a : keyed a → NoDup (item_upid <$> (map_to_list a).*2).
Proof.
  intros Hk. assert (item_upid <$> (map_to_list a).*2 = (map_to_list a).*1) as ->.
  { rewrite <-list_fmap_compose. apply list_fmap_ext. intros i [u t] Hi. simpl.
    apply list_elem_of_lookup_2, elem_of_map_to_list in Hi. by apply Hk. }
  apply NoDup_fst_map_to_list.
Qed.
End running.

(** ** An update without faults *)

Section quiet_update.
Context `{TaskCodec} `{!TaskCodecLaws} `{NativeUpids} (cache : TaskCache).
Implicit Types (m : gmap string string).

Definition active_items (m : gmap string string) : list TaskCacheItem := file_items m active_file.

Lemma get_tasks_active m0 :
  quiet (λ m, m = m0) (get_tasks Active) (λ l m, m = m0 ∧ l = active_items m0).
Proof.
  eapply quiet_bind with (R := λ r m, m = m0 ∧ r.1 = active_items m0);
    [|intros [l b]; apply quiet_ret; by intros ? [-> ?]].
  eapply quiet_bind with (R := λ j m, m = m0 ∧ j = None); [by apply quiet_ret|].
  intros j. apply quiet_from. intros m1 [-> ->].
  eapply quiet_bind with (R := λ j m, m = m0 ∧ j = None); [apply quiet_ret; naive_solver|].
  intros j. apply quiet_from. intros m1 [-> ->].
  eapply quiet_bind; [apply inner_task_archive_iterator_quiet|]. intros [items bad].
  apply quiet_ret. simpl. intros m1 [-> ->]. split; [done|]. by rewrite app_nil_r.
Qed.

(** Either the journal stays as it is, or it is merged into the archive. *)
Definition after_journal (s m : gmap string string) : Prop :=
  m = s ∨
  ∃ corrupted, m = repaired corrupted (<[WAL_FILENAME := ""%string]>
                     (merge_upto (archive_list s) (journal_items s) (archive_list s) s)).

Lemma merge_keeps s ts p :
  not_archive p = true → merge_upto (archive_list s) ts (archive_list s) s !! p = s !! p.
Proof.
  intros Hp. apply lookup_merge_other. intros f [Hf _]%archive_list_elem <-.
  unfold not_archive in Hp. by rewrite Hf in Hp.
Qed.

Lemma after_journal_active s m : after_journal s m → m !! ACTIVE_FILENAME = s !! ACTIVE_FILENAME.
Proof.
  intros [->|[c ->]]; [done|]. rewrite <-(repaired_agree c) by set_solver.
  rewrite lookup_insert_ne by done. by apply merge_keeps.
Qed.

Lemma after_journal_state s m :
  after_journal s m → state_of m = state_of s ∨ ∃ x, state_of m = reset_cutoffs x (state_of s).
Proof.
  intros [->|[c ->]]; [by left|]. set (m1 := <[WAL_FILENAME := ""%string]> _).
  assert (state_of m1 = state_of s) as Heq.
  { unfold state_of, m1. rewrite lookup_insert_ne by done. by rewrite merge_keeps. }
  unfold repaired. destruct (min_starttime c) as [x|]; [right|by left]. exists x. rewrite Heq.
  unfold state_of at 1. rewrite lookup_insert_eq. by rewrite state_json_roundtrip.
Qed.

Definition updated (m0 : gmap string string) (new : list TaskCacheItem)
    (success : gmap (string * string) bool) (dropped : gset RemoteUpid) : gmap string string :=
  stored m0 (filter finished new)
    (split_new_tasks new (keep_active dropped (active_items m0))).1 success
    (drop_tracked_tasks dropped (state_of m0)).

Lemma commit_quiet m0 w :
  quiet (λ m, m = m0) (commit w)
    (λ _ m, m = <[af_path (afw_archive_file w) :=
                    encode_file (af_compressed (afw_archive_file w)) (afw_buffer w)]> m0).
Proof. eapply quiet_bind; [apply quiet_sync|]. intros u. apply quiet_replace. by intros m ->. Qed.

Lemma write_active_tasks_quiet m0 l : quiet (λ m, m = m0) (write_active_tasks l) (λ _ _, True).
Proof.
  eapply quiet_bind; [apply archive_file_writer_quiet|]. intros w.
  eapply quiet_bind; [apply write_tasks_quiet|]. intros w'.
  eapply quiet_conseq; [apply commit_quiet|intros ? Hq; exact Hq|done].
Qed.

Lemma journal_finished_quiet P success l : ∀ active st,
  quiet P (journal_finished success l active st) (λ _ _, True).
Proof.
  assert (∀ P name data, quiet P (fs_append name data) (λ _ _, True)) as Happ.
  { intros P' name data. unfold fs_append. revert P'.
    induction (String.list_ascii_of_string data) as [|a l' IHl]; intros P'; [by apply (quiet_ret P' ())|]; simpl.
    eapply quiet_bind with (R := λ _ _, True); [|intros u; apply IHl]. apply quiet_prim. intros m _. by eexists tt, _. }
  revert P. induction l as [|t l IH]; intros P active st; simpl; [by apply quiet_ret|].
  destruct (cutoff_node (item_upid t)); [|apply IH].
  eapply quiet_bind; [apply Happ|]. intros u. eapply quiet_bind; [apply Happ|]. intros u'. apply IH.
Qed.

Lemma write_tasks_to_journal_quiet P l active success st :
  quiet P (write_tasks_to_journal l active success st) (λ _ _, True).
Proof.
  eapply quiet_bind with (R := λ _ _, True).
  { apply quiet_prim. intros m _. by eexists tt, _. }
  intros u. eapply quiet_bind; [apply journal_finished_quiet|]. intros [a s].
  eapply quiet_bind; [apply quiet_sync|]. intros u'. by apply quiet_ret.
Qed.

Lemma apply_journal_if_too_large_quiet s content :
  s !! WAL_FILENAME = Some content →
  quiet (λ m, m = s) (apply_journal_if_too_large cache) (λ _, after_journal s).
Proof.
  intros Hwal. eapply quiet_bind with (R := λ _ m, m = s).
  { apply quiet_prim. intros m ->. rewrite Hwal. eauto. }
  intros size. destruct (_ <? size); [|by apply quiet_ret; left].
  eapply quiet_conseq; [by apply (apply_journal_quiet_full s content)|done|]. by right.
Qed.

Lemma update_quiet m0 new success dropped :
  quiet (λ m, m = m0) (update cache new success dropped)
    (λ _, after_journal (updated m0 new success dropped)).
Proof.
  eapply quiet_bind; [apply get_tasks_active|]. intros tasks. apply quiet_from. intros m1 [-> ->].
  destruct (split_new_tasks _ _) as [active fin] eqn:Hs.
  pose proof (split_new_tasks_finished new (keep_active dropped (active_items m0))) as Hfin.
  rewrite Hs in Hfin. simpl in Hfin. subst fin.
  eapply quiet_bind; [apply read_state_quiet|]. intros st. apply quiet_from. intros m1 [-> ->].
  unfold updated. rewrite Hs. cbn [fst]. set (st := drop_tracked_tasks _ _).
  eapply quiet_bind.
  { eapply quiet_readable; [apply write_tasks_to_journal_quiet|apply (write_tasks_to_journal_triple m0)]. }
  intros [a s]. apply quiet_from. intros m1 (_&->&[= -> ->]).
  eapply quiet_bind.
  { eapply quiet_readable; [apply write_active_tasks_quiet|apply write_active_tasks_triple]. }
  intros u. apply quiet_from. intros m1 [_ ->].
  eapply quiet_bind with (R := λ _ m, m = stored m0 (filter finished new) active success st).
  { apply quiet_replace. by intros m ->. }
  intros u'. eapply apply_journal_if_too_large_quiet. unfold stored, activated, journaled.
  rewrite !lookup_insert_ne, lookup_insert_eq by done. done.
Qed.

Lemma updated_active m0 new success dropped m :
  after_journal (updated m0 new success dropped) m →
  active_items m = new_active (filter finished new)
                     (split_new_tasks new (keep_active dropped (active_items m0))).1.
Proof.
  intros Haj%after_journal_active. apply file_items_written. simpl. rewrite Haj.
  unfold updated, stored. rewrite lookup_insert_ne by done. apply lookup_insert_eq.
Qed.

Lemma drop_tracked_cutoff dropped st r n :
  cutoff_timestamp (drop_tracked_tasks dropped st) r n = cutoff_timestamp st r n.
Proof.
  unfold drop_tracked_tasks. revert st.
  induction (elements dropped) as [|u l IH]; intros st; simpl; [done|]. by rewrite IH.
Qed.

Lemma state_of_updated m0 new success dropped :
  state_of (updated m0 new success dropped) =
  new_state (filter finished new) (split_new_tasks new (keep_active dropped (active_items m0))).1 success
    (drop_tracked_tasks dropped (state_of m0)).
Proof. unfold state_of, updated, stored. rewrite lookup_insert_eq. by rewrite state_json_roundtrip. Qed.

(** Applying the journal behind an update only lowers cut-offs. *)
Lemma updated_cutoff m0 new success dropped m r n c :
  after_journal (updated m0 new success dropped) m → cutoff_timestamp (state_of m) r n = Some c →
  ∃ c1, c ≤ c1 ∧
    cutoff_timestamp
      (new_state (filter finished new) (split_new_tasks new (keep_active dropped (active_items m0))).1 success
         (drop_tracked_tasks dropped (state_of m0))) r n = Some c1.
Proof.
  intros Haj Hc. rewrite <-state_of_updated.
  destruct (after_journal_state _ _ Haj) as [Heq|[x Heq]]; rewrite Heq in Hc; [by exists c|].
  rewrite reset_cutoffs_le in Hc. destruct (cutoff_timestamp _ r n) as [c1|]; simplify_eq/=.
  exists c1. split; [lia|done].
Qed.

(** An update does not raise the cut-off of a node that was not fetched. *)
Lemma updated_cutoff_failed m0 new success dropped m r n c :
  after_journal (updated m0 new success dropped) m → cutoff_timestamp (state_of m) r n = Some c →
  node_successful success r n = false →
  ∃ c0, cutoff_timestamp (state_of m0) r n = Some c0 ∧ c ≤ c0.
Proof.
  intros Haj Hc Hf. destruct (updated_cutoff _ _ _ _ _ _ _ _ Haj Hc) as (c1&Hle1&Hc1).
  destruct (lower_active_bound _ _ _ _ _ _ Hc1) as [(c2&Hc2&Hle2)|(Hs&_)]; [|congruence].
  rewrite raise_cutoffs_other, drop_tracked_cutoff in Hc2 by done. exists c2. split; [done|lia].
Qed.

(** The tracked tasks after an update. *)
Lemma drop_tracked_tracked dropped st :
  tracked_tasks (drop_tracked_tasks dropped st) = tracked_tasks st ∖ dropped.
Proof.
  unfold drop_tracked_tasks. apply set_eq. intros u.
  assert (∀ l st, u ∈ tracked_tasks (foldl state_remove_tracked_task st l) ↔
                  u ∈ tracked_tasks st ∧ u ∉ l) as Hgen.
  { clear. induction l as [|v l IH]; intros st; simpl; [set_solver|]. rewrite IH. simpl. set_solver. }
  rewrite Hgen. set_solver.
Qed.

Lemma update_cutoff_tracked st r n f : tracked_tasks (update_cutoff_timestamp st r n f) = tracked_tasks st.
Proof. unfold update_cutoff_timestamp. by destruct (remote_state st !! r). Qed.

Lemma new_state_tracked fin active success st :
  tracked_tasks (new_state fin active success st) = tracked_tasks st.
Proof.
  unfold new_state, lower_active_cutoffs, raise_cutoffs.
  assert (∀ (f : State → TaskCacheItem → State) l st,
    (∀ st t, tracked_tasks (f st t) = tracked_tasks st) → tracked_tasks (foldl f st l) = tracked_tasks st) as Hfold.
  { clear. intros f l. induction l as [|t l IH]; intros st Hf; simpl; [done|]. by rewrite IH, Hf. }
  rewrite !Hfold; [done|..]; intros st0 t; destruct (cutoff_node _); try done;
    unfold raise_cutoff, lower_cutoff; destruct (node_successful _ _ _); by rewrite ?update_cutoff_tracked.
Qed.

Lemma updated_tracked m0 new success dropped m :
  after_journal (updated m0 new success dropped) m →
  tracked_tasks (state_of m) = tracked_tasks (state_of m0) ∖ dropped.
Proof.
  intros Haj. rewrite <-drop_tracked_tracked.
  destruct (after_journal_state _ _ Haj) as [->|[x ->]]; simpl; by rewrite state_of_updated, new_state_tracked.
Qed.
End quiet_update.

(** ** Properties *)

Lemma min_starttime_le (fs : list ArchiveFile) f :
  f ∈ fs → ∃ x, min_starttime fs = Some x ∧ x ≤ af_starttime f.
Proof.
  assert (∀ fs x, foldl (λ m g, Z.min m (af_starttime g)) x fs ≤ x ∧
            ∀ f, f ∈ fs → foldl (λ m g, Z.min m (af_starttime g)) x fs ≤ af_starttime f) as Hgen.
  { clear. induction fs as [|g fs IH]; intros x; simpl; [split; [lia|set_solver]|].
    destruct (IH (Z.min x (af_starttime g))) as [H1 H2]. split; [lia|].
    intros f [->|Hf]%elem_of_cons; [lia|by apply H2]. }
  destruct fs as [|g fs]; [set_solver|]. simpl. intros Hf. eexists. split; [done|].
  destruct (Hgen fs (af_starttime g)) as [H1 H2].
  apply elem_of_cons in Hf as [->|Hf]; [done|by apply H2].
Qed.

Section properties.
Context `{TaskCodec} `{!TaskCodecLaws} `{NativeUpids}.

(** Reporting corrupted archive files makes the tasks of their time span
    be fetched again: afterwards no node's cut-off lies after the start of any
    of them, no cut-off has been raised and none is missing, and the tracked
    tasks are unchanged. *)
Theorem request_repair_resets (m : gmap string string) (corrupted : list ArchiveFile)
    (f : ArchiveFile) :
  f ∈ corrupted →
  ∃ m', request_repair corrupted (World m []) = (Ok tt, World m' []) ∧
    tracked_tasks (state_of m') = tracked_tasks (state_of m) ∧
    ∀ r n, match cutoff_timestamp (state_of m) r n with
           | Some c => ∃ c', cutoff_timestamp (state_of m') r n = Some c' ∧
                             c' ≤ c ∧ c' ≤ af_starttime f
           | None => cutoff_timestamp (state_of m') r n = None
           end.
Proof.
  intros Hf. destruct (min_starttime_le corrupted f Hf) as (x&Hx&Hle).
  destruct (request_repair_quiet m corrupted m eq_refl) as ([]&m'&Hrun&->).
  exists (repaired corrupted m). split; [done|]. unfold repaired. rewrite Hx.
  assert (state_of (<[STATE_FILENAME := json_of_state (reset_cutoffs x (state_of m))]> m)
          = reset_cutoffs x (state_of m)) as ->.
  { unfold state_of at 1. rewrite lookup_insert_eq. by rewrite state_json_roundtrip. }
  split; [done|]. intros r n. rewrite reset_cutoffs_le.
  destruct (cutoff_timestamp (state_of m) r n) as [c|]; simpl; [|done].
  exists (Z.min c x). split; [done|lia].
Qed.

(** C1: crash consistency of [update], under these conditions: the journal
    holds complete records only ([journal_wf]), the archive files have the names
    the cache gives them ([names_ok]), the task is not older than the oldest
    archive file ([covered]), and a file that could be opened can be read to its end.
    Whatever other system calls fail from then on, and wherever a write is
    torn, no known task is lost; and if the state file has changed, or the
    update succeeded, then every finished task that was added and whose UPID
    parses ([storable]) is known: the cut-off timestamps are advanced only after
    the tasks are stored.  Without the conditions tasks can be lost:
    [torn_journal_loses_task] shows it for a journal that ends in a torn record, and
    [journal_read_error_loses_task] for a journal that can be read only in part. *)
Theorem update_crash_safe (cache : TaskCache) (m : gmap string string) (fl : list bool)
    (new : list TaskCacheItem) (success : gmap (string * string) bool) (dropped : gset RemoteUpid)
    (t : TaskCacheItem) :
  names_ok m → journal_wf m → covered m t →
  let '(r, w') := update cache new success dropped (World m fl) in
  (known m t → known (files w') t) ∧
  (t ∈ new → finished t → storable t →
   files w' !! STATE_FILENAME ≠ m !! STATE_FILENAME ∨ r = Ok tt → known (files w') t).
Proof.
  intros Hok Hwf Hcov.
  pose proof (update_triple cache m new success dropped (World m fl) eq_refl eq_refl) as Ht.
  assert (∀ t', t' ∈ new → finished t' → storable t' → t' ∈ filter finished new ∧ storable t') as Hfin.
  { intros t' ???. split; [|done]. by apply list_elem_of_filter. }
  destruct (update cache new success dropped (World m fl)) as [[[]|e] w'].
  - destruct Ht as [(active&st&Hrun) _]. split; [intros Hk|intros Hn1 Hn2 Hn3 _];
      (eapply journal_run_stored; [done|done|exact Hrun|done|auto]).
  - destruct Ht as [(active&st&Hint) _]. split; [by eapply interrupted_known|].
    intros Hn1 Hn2 Hn3 [Hne|?]; [|done]. destruct Hint as [Heq|[[b Heq]|[Heq|Hrun]]].
    + by rewrite Heq in Hne.
    + by rewrite Heq, lookup_insert_ne in Hne.
    + by rewrite Heq in Hne; unfold activated, journaled in Hne; rewrite !lookup_insert_ne in Hne.
    + eapply journal_run_stored; [done|done|exact Hrun|done|auto].
Qed.

(** An update without faults succeeds, and afterwards the active file
    lists exactly the running tasks, sorted and each once: those that were
    added as running or were running before and are not dropped, unless they
    were also reported as finished. *)
Theorem update_running_tasks (cache : TaskCache) (m : gmap string string)
    (new : list TaskCacheItem) (success : gmap (string * string) bool) (dropped : gset RemoteUpid) :
  ∃ m' l, update cache new success dropped (World m []) = (Ok tt, World m' []) ∧
    get_tasks Active (World m' []) = (Ok l, World m' []) ∧
    StronglySorted (cle compare_tasks_reverse) l ∧ NoDup (item_upid <$> l) ∧
    ∀ u, (∃ t, t ∈ l ∧ item_upid t = u) ↔
         (¬ ∃ t, t ∈ new ∧ finished t ∧ item_upid t = u) ∧
         ((∃ t, t ∈ new ∧ (¬ finished t) ∧ item_upid t = u) ∨
          (u ∉ dropped) ∧ ∃ t, t ∈ active_items m ∧ item_upid t = u).
Proof.
  destruct (update_quiet cache m new success dropped m eq_refl) as ([]&m'&Hrun&Haj).
  destruct (get_tasks_active m' m' eq_refl) as (l&m''&Hl&->&->).
  rewrite (updated_active _ _ _ _ _ Haj) in Hl. eexists m', _. split; [exact Hrun|]. split; [exact Hl|].
  destruct (keep_active_spec dropped (active_items m)) as [Hk0 H0'].
  destruct (split_new_tasks_spec new (keep_active dropped (active_items m))) as [Hk1 H1'].
  set (a1 := (split_new_tasks new _).1) in *.
  destruct (drop_finished_spec (filter finished new) a1) as [Hk2 H2'].
  set (a2 := drop_finished (filter finished new) a1) in *.
  assert (keyed a2) as Hk by auto. unfold new_active. fold a2. split_and!.
  - apply sort_by_sorted, _.
  - rewrite sort_by_perm. by apply keyed_NoDup.
  - intros u. setoid_rewrite elem_of_sort_by. setoid_rewrite keyed_values; [|done..].
    assert ((∃ t, a2 !! item_upid t = Some t ∧ item_upid t = u) ↔ is_Some (a2 !! u)) as ->.
    { split; [intros (t&?&<-); eauto|]. intros [t Ht]. exists t. by rewrite (Hk u t Ht). }
    rewrite H2', H1', H0'. setoid_rewrite list_elem_of_filter. split.
    + intros [[[? ?]|?] Hno]; (split; [intros (t&?&?&?); apply Hno; eauto|auto]).
    + intros [Hno [?|?]]; (split; [auto|intros (t&[? ?]&?); apply Hno; eauto]).
Qed.

(** How an update without faults moves the cut-off timestamps.  For every
    node, the new cut-off [c] is at most the old one or the start of a task of
    that node that was just seen; it does not rise for a node whose fetch
    failed; and for a fetched node it does not pass the start of any task that
    still runs there, so that running tasks are fetched again. *)
Theorem update_cutoffs (cache : TaskCache) (m : gmap string string)
    (new : list TaskCacheItem) (success : gmap (string * string) bool) (dropped : gset RemoteUpid) :
  ∃ m', update cache new success dropped (World m []) = (Ok tt, World m' []) ∧
    ∀ r n c, cutoff_timestamp (state_of m') r n = Some c →
      (c ≤ Z.max 0 (default 0 (cutoff_timestamp (state_of m) r n)) ∨
       ∃ t, t ∈ new ++ active_items m' ∧ on_node t r n ∧ c ≤ item_starttime t) ∧
      (node_successful success r n = false →
       ∃ c0, cutoff_timestamp (state_of m) r n = Some c0 ∧ c ≤ c0) ∧
      (∀ t, t ∈ active_items m' → on_node t r n → node_successful success r n = true →
       c ≤ item_starttime t).
Proof.
  destruct (update_quiet cache m new success dropped m eq_refl) as ([]&m'&Hrun&Haj).
  exists m'. split; [done|]. intros r n c Hc. pose proof (updated_active _ _ _ _ _ Haj) as Hact.
  set (a1 := (split_new_tasks new _).1) in *.
  set (st1 := drop_tracked_tasks dropped (state_of m)).
  assert (∀ t, t ∈ active_items m' ↔ t ∈ (map_to_list (drop_finished (filter finished new) a1)).*2) as Hel.
  { intros t. rewrite Hact. apply elem_of_sort_by. }
  assert (∀ r n, cutoff_timestamp st1 r n = cutoff_timestamp (state_of m) r n) as Hst1
    by apply drop_tracked_cutoff.
  destruct (updated_cutoff _ _ _ _ _ _ _ _ Haj Hc) as (c1&Hle1&Hc1). fold a1 st1 in Hc1.
  unfold new_state in Hc1. pose proof (lower_active_bound _ _ _ _ _ _ Hc1) as Hlow. split_and!.
  - destruct Hlow as [(c2&Hc2&Hle2)|(_&t&Hin&Hon&Hle2)].
    + destruct (raise_cutoffs_bound _ _ _ _ _ _ Hc2) as [Hb|(t&Ht&Hon&Hb)]; rewrite ?Hst1 in Hb.
      * left. lia.
      * right. exists t. apply list_elem_of_filter in Ht as [_ Ht]. split; [set_solver|]. split; [done|lia].
    + right. exists t. apply Hel in Hin. split; [set_solver|]. split; [done|lia].
  - intros Hf. by eapply updated_cutoff_failed.
  - intros t Hin%Hel Hon Hs.
    destruct (lower_active_running success _ (raise_cutoffs success (filter finished new) st1) r n t Hin Hon Hs)
      as (c2&Hc2&Hle2).
    rewrite Hc1 in Hc2. simplify_eq. lia.
Qed.
End properties.

(** ** Witnesses *)

Module UpdateDemo.
Import JournalDemo.
#[local] Existing Instance demo_codec.
#[local] Existing Instance demo_codec_laws.
#[local] Existing Instance demo_upids.

Definition demo_cache : TaskCache := mkTaskCache 1000000 2 1 50.
Definition demo_finished : TaskCacheItem := demo_task "UPID:a:3" 150 (Some "OK"%string) (Some 160).
Definition demo_success : gmap (string * string) bool := set_node_success ∅ "pve1" "a".

Lemma demo_journal_wf : journal_wf demo_files.
Proof. exists [demo_t2; demo_t1]. vm_compute. reflexivity. Qed.

Lemma update_crash_safe_witness :
  known (files (update demo_cache [demo_finished] demo_success ∅ (World demo_files [])).2) demo_finished.
Proof.
  assert (covered demo_files demo_finished) as Hcov.
  { exists demo_old. rewrite demo_archive_list. split; [right; left|vm_compute; congruence]. }
  pose proof (update_crash_safe demo_cache demo_files [] [demo_finished] demo_success ∅ demo_finished
                demo_names_ok demo_journal_wf Hcov) as Hu.
  destruct (update demo_cache [demo_finished] demo_success ∅ (World demo_files [])) as [r w] eqn:E.
  apply Hu.
  - left.
  - by exists 160.
  - by exists "a"%string.
  - right. assert ((update demo_cache [demo_finished] demo_success ∅ (World demo_files [])).1 = Ok tt) as Hr
      by (vm_compute; reflexivity).
    rewrite E in Hr. exact Hr.
Defined.

Lemma request_repair_resets_witness :
  ∃ m', request_repair [demo_old] (World demo_files []) = (Ok tt, World m' []) ∧
        tracked_tasks (state_of m') = tracked_tasks (state_of demo_files).
Proof.
  destruct (request_repair_resets demo_files [demo_old] demo_old) as (m'&H1&H2&_); [left|].
  exists m'. split; [exact H1|exact H2].
Defined.

Definition demo_running : TaskCacheItem := demo_task "UPID:a:5" 140 None None.

Lemma update_running_tasks_witness :
  ∃ m' l, update demo_cache [demo_running; demo_finished] demo_success ∅ (World demo_files []) = (Ok tt, World m' []) ∧
    get_tasks Active (World m' []) = (Ok l, World m' []) ∧ NoDup (item_upid <$> l).
Proof.
  destruct (update_running_tasks demo_cache demo_files [demo_running; demo_finished] demo_success ∅)
    as (m'&l&Hrun&Hget&_&Hnd&_).
  exists m', l. split; [exact Hrun|]. split; [exact Hget|exact Hnd].
Defined.

(** The finished task started later, but the cut-off stays at the running one. *)
Lemma update_cutoffs_witness :
  cutoff_timestamp (state_of (files (update demo_cache [demo_running; demo_finished] demo_success ∅
                                       (World demo_files [])).2)) "pve1" "a" = Some 140 ∧
  140 ≤ item_starttime demo_running.
Proof.
  assert (cutoff_timestamp (state_of (files (update demo_cache [demo_running; demo_finished] demo_success ∅
            (World demo_files [])).2)) "pve1" "a" = Some 140) as Hc by (vm_compute; reflexivity).
  split; [exact Hc|].
  destruct (update_cutoffs demo_cache demo_files [demo_running; demo_finished] demo_success ∅)
    as (m'&Hrun&Hcut).
  rewrite Hrun in Hc. destruct (Hcut _ _ _ Hc) as (_&_&Hle). apply Hle.
  - assert (active_items (files (update demo_cache [demo_running; demo_finished] demo_success ∅
              (World demo_files [])).2) = [demo_running]) as Ha by (vm_compute; reflexivity).
    rewrite Hrun in Ha. simpl files in Ha. rewrite Ha. left.
  - vm_compute. split; reflexivity.
  - vm_compute. reflexivity.
Defined.

(** [journal_wf] cannot be dropped from the crash consistency of
    [update].  When a crash cuts the journal between a record and its line
    break, the next update appends to the same line: it succeeds and advances
    the cut-off past the finished task it was given, but no reader finds that
    task any more. *)
Theorem torn_journal_loses_task :
  let torn_faults := repeat false (3 + String.length (json_of_item demo_finished)) ++ repeat true 10 in
  let m1 := files (update demo_cache [demo_finished] demo_success ∅
                     (World demo_files torn_faults)).2 in
  let lost := demo_task "UPID:a:4" 170 (Some "OK"%string) (Some 180) in
  let m2 := files (update demo_cache [lost] demo_success ∅ (World m1 [])).2 in
  (update demo_cache [lost] demo_success ∅ (World m1 [])).1 = Ok tt ∧
  cutoff_timestamp (state_of m2) "pve1" "a" = Some 170 ∧
  archived_view m2 = [demo_t1; demo_t2].
Proof. vm_compute. split; [reflexivity|split; reflexivity]. Qed.
End UpdateDemo.
