(* ===== verification/RefreshTask.v ===== *)
(** * The task that keeps the remote task cache up to date

    Model of [server/src/remote_tasks/refresh_task.rs] with the constants of
    [server/src/remote_tasks/mod.rs]: at every timer tick the cache is rotated
    and its journal applied if that is due, tracked tasks are polled, new tasks
    are fetched from the remotes, and all of it is written to the cache.

    A tick is a computation over the [TaskState] and the files that may fail at
    any point; what has happened to the two by then stays.  What comes from
    outside (the clock, the configuration, the answers of the remotes, the order
    in which parallel requests complete) is collected in a [tick_env].  While the
    requests to the remotes are under way other processes may use the cache
    ([te_other]). *)

From S2P Require Import Prelude FileSystem RemoteUpid SectionConfig ResourceList TaskItems TaskCache TaskArchive TaskJournal TaskRotate TaskUpdate ParallelFetcher.
Import Readable.

(** ** Constants *)

Definition JOURNAL_MAX_SIZE : Z := 5 * 1024 * 1024.
Definition ROTATE_AFTER : Z := 24 * 3600.
Definition KEEP_OLD_FILES : Z := 7.
Definition NUMBER_OF_UNCOMPRESSED_FILES : Z := 2.

(** [Duration::from_secs], in nanoseconds. *)
Definition from_secs (s : Z) : Z := s * 1000000000.

Definition TASK_FETCH_INTERVAL : Z := from_secs 600.
Definition POLL_ACTIVE_INTERVAL : Z := from_secs 30.
Definition CHECK_ROTATE_INTERVAL : Z := from_secs 3600.
Definition APPLY_JOURNAL_INTERVAL : Z := from_secs 3600.
Definition CONNECTIONS_PER_PVE_REMOTE : nat := 5.
Definition MAX_CONNECTIONS : nat := 20.
Definition MAX_TASKS_TO_FETCH : Z := 5000.

Definition get_cache : TaskCache :=
  mkTaskCache JOURNAL_MAX_SIZE KEEP_OLD_FILES NUMBER_OF_UNCOMPRESSED_FILES ROTATE_AFTER.

Definition align_timestamp (now interval : Z) : Z := now - now mod interval.

(** ** The state of the task *)

(** Instants are nanoseconds of a monotonic clock. *)
Record TaskState : Type := mkTaskState {
  last_rotate_check : Z;
  last_fetch : Z;
  last_journal_apply : Z;
  last_active_poll : Z;
}.

Definition reset_rotate_check (now : Z) (s : TaskState) : TaskState :=
  mkTaskState now (last_fetch s) (last_journal_apply s) (last_active_poll s).
Definition reset_fetch (now : Z) (s : TaskState) : TaskState :=
  mkTaskState (last_rotate_check s) now (last_journal_apply s) (last_active_poll s).
Definition reset_journal_apply (now : Z) (s : TaskState) : TaskState :=
  mkTaskState (last_rotate_check s) (last_fetch s) now (last_active_poll s).
Definition reset_active_poll (now : Z) (s : TaskState) : TaskState :=
  mkTaskState (last_rotate_check s) (last_fetch s) (last_journal_apply s) now.

(** [Instant::duration_since] saturates at zero. *)
Definition duration_since (now earlier : Z) : Z := Z.max 0 (now - earlier).

Definition is_due_for_rotate_check (now : Z) (s : TaskState) : bool :=
  CHECK_ROTATE_INTERVAL <? duration_since now (last_rotate_check s).
Definition is_due_for_fetch (now : Z) (s : TaskState) : bool :=
  TASK_FETCH_INTERVAL <? duration_since now (last_fetch s).
Definition is_due_for_journal_apply (now : Z) (s : TaskState) : bool :=
  APPLY_JOURNAL_INTERVAL <? duration_since now (last_journal_apply s).
Definition is_due_for_active_poll (now : Z) (s : TaskState) : bool :=
  POLL_ACTIVE_INTERVAL <? duration_since now (last_active_poll s).

Definition task_state_default (now : Z) : TaskState :=
  mkTaskState (now - CHECK_ROTATE_INTERVAL) (now - TASK_FETCH_INTERVAL)
    (now - APPLY_JOURNAL_INTERVAL) (now - POLL_ACTIVE_INTERVAL).

(** ** What comes from outside *)

(** The points at which a tick reads the monotonic clock. *)
Inductive tick_point : Type :=
| AtRotateCheck | AtRotateApplied | AtRotateReset | AtJournalCheck | AtJournalReset
| AtPollCheck | AtPollReset | AtFetchCheck | AtFetchReset.

(** [ListTasksResponse] of PVE and [TaskListItem] of PBS, the fields in use. *)
Record NativeTask : Type := mkNativeTask {
  nt_upid : string;
  nt_starttime : Z;
  nt_endtime : option Z;
  nt_status : option string;
}.

(** The parameters of the request for tasks. *)
Record ListTasks : Type := mkListTasks {
  lt_since : Z;
  lt_limit : Z;
}.

(** The remotes: [None] is a panic of the task that asks. *)
Record answers_env : Type := mkAnswers {
  list_nodes : Remote → option (result error (list string));
  (** [get_task_list] of a node of a PVE remote, and of a PBS remote *)
  pve_task_list : Remote → string → ListTasks → option (result error (list NativeTask));
  pbs_task_list : Remote → ListTasks → option (result error (list NativeTask));
  (** whether the status of a task has an [exitstatus] *)
  pve_task_status : Remote → string → string → option (result error bool);
  pbs_task_status : Remote → string → option (result error bool);
  schedule : list nat;
}.

(** ** Fetching *)

Definition map_pve_task (task : NativeTask) (remote : string) : TaskCacheItem :=
  let status := match nt_status task with
                | Some s => if String.eqb s "RUNNING" then None else Some s
                | None => None
                end in
  mkItem (mkRemoteUpid remote RemoteType.Pve (nt_upid task)) (nt_starttime task) status (nt_endtime task).

Definition map_pbs_task (task : NativeTask) (remote : string) : TaskCacheItem :=
  mkItem (mkRemoteUpid remote RemoteType.Pbs (nt_upid task)) (nt_starttime task) (nt_status task)
    (nt_endtime task).

Section refresh.
Context `{SafeIdRegex} `{NativeUpids}.

Section fetch.
Context (env : answers_env) (now : Z).

Definition fetch_since (context : State) (remote_id node : string) : Z :=
  default (now - KEEP_OLD_FILES * ROTATE_AFTER) (cutoff_timestamp context remote_id node).

Definition fetch_tasks_from_single_node (context : State) (remote : Remote) (node : string)
    : option (result error (list TaskCacheItem)) :=
  let params := mkListTasks (fetch_since context (rm_id remote) node) MAX_TASKS_TO_FETCH in
  match rm_ty remote with
  | RemoteType.Pve =>
      answer ← pve_task_list env remote node params;
      Some (fmap (M := result error) (map (λ t, map_pve_task t (rm_id remote))) answer)
  | RemoteType.Pbs =>
      answer ← pbs_task_list env remote params;
      Some (fmap (M := result error) (map (λ t, map_pbs_task t (rm_id remote))) answer)
  end.

(** The response of one node: its tasks, and that it answered. *)
Definition add_node_response (remote : string)
    (acc : list TaskCacheItem * gmap (string * string) bool)
    (node_response : NodeResponse (list TaskCacheItem))
    : list TaskCacheItem * gmap (string * string) bool :=
  match nresp_data node_response with
  | Ok data => (acc.1 ++ data, set_node_success acc.2 remote (nresp_node_name node_response))
  | Err _ => acc
  end.

Definition add_remote_response
    (acc : list TaskCacheItem * gmap (string * string) bool)
    (response : RemoteResponse (MultipleNodesResponse (list TaskCacheItem)))
    : list TaskCacheItem * gmap (string * string) bool :=
  match resp_response response with
  | Ok node_responses => foldl (add_node_response (resp_remote response)) acc node_responses
  | Err _ => acc
  end.

Definition fetch_remotes (remotes : list Remote) (cache_state : State)
    : list TaskCacheItem * gmap (string * string) bool :=
  foldl add_remote_response ([], ∅)
    (do_for_all_remote_nodes (list_nodes env) (fetch_tasks_from_single_node cache_state)
       MAX_CONNECTIONS CONNECTIONS_PER_PVE_REMOTE (schedule env) remotes).
End fetch.

(** ** Polling *)

Inductive PollResult : Type := Running | Finished | RequestError | RemoteGone.

#[export] Instance PollResult_eq_dec : EqDecision PollResult.
Proof. solve_decision. Defined.

(** [api::verify_upid] *)
Definition verify_upid (remote : string) (remote_type : RemoteType.t) (upid : RemoteUpid)
    : result error unit :=
  _ ← bail_if (negb (String.eqb (ru_remote upid) remote)) (EMsg "remote does not match remote in upid");
  bail_if (negb (bool_decide (ru_remote_type upid = remote_type)))
    (EMsg "upid does not belong to a remote of this type").

Section poll.
Context `{SectionConfigData C Remote} (env : answers_env).

(** [get_task_status] of [api/pve/tasks.rs] and [api/pbs/tasks.rs], without
    waiting; [connect_to_remote_by_id] finds the remote of the UPID. *)
Definition pve_get_task_status (remote : Remote) (upid : RemoteUpid) : option (result error bool) :=
  match (_ ← verify_upid (rm_id remote) RemoteType.Pve upid; pve_upid upid) with
  | Ok u => pve_task_status env remote (pve_node u) (ru_upid upid)
  | Err e => Some (Err e)
  end.

Definition pbs_get_task_status (remote : Remote) (upid : RemoteUpid) : option (result error bool) :=
  match verify_upid (rm_id remote) RemoteType.Pbs upid with
  | Ok _ => pbs_task_status env remote (ru_upid upid)
  | Err e => Some (Err e)
  end.

Definition poll_single_tracked_task (remote : Remote) (task : RemoteUpid) : option PollResult :=
  status ← match rm_ty remote with
           | RemoteType.Pve => pve_get_task_status remote task
           | RemoteType.Pbs => pbs_get_task_status remote task
           end;
  Some match status with
       | Ok exitstatus => if (exitstatus : bool) then Finished else Running
       | Err _ => RequestError
       end.

(** A task that panics makes the whole poll fail. *)
Definition poll_tracked_tasks (remote_config : C) (tracked_tasks : gset RemoteUpid)
    : result error (gmap RemoteUpid PollResult) :=
  foldr (λ task acc,
           results ← acc;
           match sc_get remote_config (ru_remote task) with
           | Some remote =>
               result ← ok_or (poll_single_tracked_task remote task) (EMsg "task panicked");
               Ok (<[task := result]> results)
           | None => Ok (<[task := RemoteGone]> results)
           end)
    (Ok ∅) (elements tracked_tasks).

(** ** Which remotes to ask *)

Definition get_all_remotes (remote_config : C) : list Remote := (sc_iter remote_config).*2.

Definition get_remotes_with_finished_tasks (remote_config : C)
    (poll_results : gmap RemoteUpid PollResult) : list Remote :=
  let with_finished : gset string :=
    list_to_set (omap (M := list) (λ '(upid, status),
                   if bool_decide (status = Finished) then Some (ru_remote upid) else None)
                   (map_to_list poll_results)) in
  omap (M := list) (λ '(name, remote), if bool_decide (name ∈ with_finished) then Some remote else None)
    (sc_iter remote_config).
End poll.

(** ** Updating the cache *)

Section cache.
Context `{TaskCodec}.

Definition drop_tracked (poll_results : gmap RemoteUpid PollResult) : gset RemoteUpid :=
  dom (filter (λ '(_, result), result ≠ Running) poll_results).

Definition update_task_cache (new_tasks : list TaskCacheItem)
    (update_state_for_remote : gmap (string * string) bool)
    (poll_results : gmap RemoteUpid PollResult) : io unit :=
  update get_cache new_tasks update_state_for_remote (drop_tracked poll_results).

Definition rotate_cache (now : Z) : io bool := rotate get_cache (align_timestamp now ROTATE_AFTER).

Definition init_cache (now : Z) : io unit := init get_cache (align_timestamp now ROTATE_AFTER).

Definition get_active_tasks : io (list RemoteUpid) :=
  tasks ← get_tasks Active; mret (item_upid <$> tasks).

Definition refresh_taskcache (env : answers_env) (now : Z) (remotes : list Remote) : io unit :=
  cache_state ← read_state;
  let '(all_tasks, success) := fetch_remotes env now remotes cache_state in
  match all_tasks with
  | [] => mret tt
  | _ => update_task_cache all_tasks success ∅
  end.
End cache.
End refresh.

(** ** Computations of a tick

    They change the [TaskState] and the files, also when they fail. *)

Definition tick (A : Type) : Type := TaskState → world → result error A * TaskState * world.

#[export] Instance tick_ret : MRet tick := λ A a s w, (Ok a, s, w).
#[export] Instance tick_bind : MBind tick := λ A B f c s w,
  match c s w with
  | (Ok a, s', w') => f a s' w'
  | (Err e, s', w') => (Err e, s', w')
  end.

Definition t_io {A} (c : io A) : tick A := λ s w, let '(r, w') := c w in (r, s, w').
Definition t_lift {A} (r : result error A) : tick A := λ s w, (r, s, w).
Definition t_get : tick TaskState := λ s w, (Ok s, s, w).
Definition t_modify (f : TaskState → TaskState) : tick unit := λ s w, (Ok tt, f s, w).

Record tick_env (C : Type) : Type := mkTickEnv {
  te_instant : tick_point → Z;         (** [Instant::now] *)
  te_epoch : Z;                        (** [epoch_i64] when rotating *)
  te_fetch_epoch : Z;                  (** [epoch_i64] when fetching *)
  te_config : result error C;          (** [pdm_config::remotes::config] *)
  te_answers : answers_env;
  te_other : io unit;                  (** other users of the cache *)
}.
Arguments te_instant {C} _ _.
Arguments te_epoch {C} _.
Arguments te_fetch_epoch {C} _.
Arguments te_config {C} _.
Arguments te_answers {C} _.
Arguments te_other {C} _ _.
Arguments mkTickEnv {C} _ _ _ _ _ _.

Section tick.
Context `{SafeIdRegex} `{NativeUpids} `{TaskCodec} `{SectionConfigData C Remote} (env : tick_env C).

(** Rotation, and the journal behind it. *)
Definition tick_rotate : tick unit :=
  task_state ← t_get;
  if is_due_for_rotate_check (te_instant env AtRotateCheck) task_state then
    rotated ← t_io (rotate_cache (te_epoch env));
    _ ← (if rotated : bool then t_modify (reset_journal_apply (te_instant env AtRotateApplied)) else mret tt);
    t_modify (reset_rotate_check (te_instant env AtRotateReset))
  else mret tt.

Definition tick_apply_journal : tick unit :=
  task_state ← t_get;
  if is_due_for_journal_apply (te_instant env AtJournalCheck) task_state then
    _ ← t_io apply_journal;
    t_modify (reset_journal_apply (te_instant env AtJournalReset))
  else mret tt.

Definition tick_poll (remote_config : C) (cache_state : State) : tick (gmap RemoteUpid PollResult) :=
  task_state ← t_get;
  if is_due_for_active_poll (te_instant env AtPollCheck) task_state then
    active_tasks ← t_io get_active_tasks;
    poll_results ← t_lift (poll_tracked_tasks (te_answers env) remote_config
                             (tracked_tasks cache_state ∪ list_to_set active_tasks));
    _ ← t_modify (reset_active_poll (te_instant env AtPollReset));
    mret poll_results
  else t_lift (poll_tracked_tasks (te_answers env) remote_config (tracked_tasks cache_state)).

Definition tick_remotes (remote_config : C) (poll_results : gmap RemoteUpid PollResult)
    : tick (list Remote) :=
  task_state ← t_get;
  if is_due_for_fetch (te_instant env AtFetchCheck) task_state then
    _ ← t_modify (reset_fetch (te_instant env AtFetchReset));
    mret (get_all_remotes remote_config)
  else mret (get_remotes_with_finished_tasks remote_config poll_results).

(** Whether a poll result asks for an update even if no task was fetched. *)
Definition needs_update (all_tasks : list TaskCacheItem)
    (poll_results : gmap RemoteUpid PollResult) : bool :=
  match all_tasks with [] => false | _ => true end ||
  existsb (λ '(_, result), bool_decide (result = RemoteGone) || bool_decide (result = RequestError))
    (map_to_list poll_results).

Definition handle_timer_tick : tick unit :=
  _ ← tick_rotate;
  _ ← tick_apply_journal;
  remote_config ← t_lift (te_config env);
  cache_state ← t_io read_state;
  poll_results ← tick_poll remote_config cache_state;
  remotes ← tick_remotes remote_config poll_results;
  let '(all_tasks, success) :=
    fetch_remotes (te_answers env) (te_fetch_epoch env) remotes cache_state in
  _ ← t_io (_ ← io_try (te_other env); mret tt);
  if needs_update all_tasks poll_results
  then t_io (update_task_cache all_tasks success poll_results)
  else mret tt.
End tick.

(** ** Hoare triples for ticks, for every list of faults and every [TaskState],
    for files that can be read to their end *)

Definition tick_triple {A} (P : gmap string string → Prop) (c : tick A)
    (Q : A → gmap string string → Prop) (E : gmap string string → Prop) : Prop :=
  ∀ s w, P (files w) → read_faults w = [] →
  match c s w with
  | (Ok a, _, w') => Q a (files w') ∧ read_faults w' = []
  | (Err _, _, w') => E (files w') ∧ read_faults w' = []
  end.

Section tick_triple.
Implicit Types (P E : gmap string string → Prop).

Lemma tick_ret_triple {A} P (a : A) Q E : (∀ m, P m → Q a m) → tick_triple P (mret a) Q E.
Proof. intros HQ s w HP Hr. split; [by apply HQ|done]. Qed.

Lemma tick_bind_triple {A B} P (c : tick A) (k : A → tick B) R Q E :
  tick_triple P c R E → (∀ a, tick_triple (R a) (k a) Q E) → tick_triple P (c ≫= k) Q E.
Proof.
  intros Hc Hk s w HP Hr. specialize (Hc s w HP Hr). unfold mbind, tick_bind.
  destruct (c s w) as [[[a|e] s'] w'] eqn:Heq; [|done]. destruct Hc. by apply Hk.
Qed.

Lemma tick_io_triple {A} P (c : io A) Q E : triple P c Q E → tick_triple P (t_io c) Q E.
Proof. intros Hc s w HP Hr. specialize (Hc w HP Hr). unfold t_io. by destruct (c w) as [[a|e] w']. Qed.

Lemma tick_lift_triple {A} P (r : result error A) Q E :
  (∀ a m, P m → Q a m) → (∀ m, P m → E m) → tick_triple P (t_lift r) Q E.
Proof. intros HQ HE s w HP Hr. unfold t_lift. destruct r; auto. Qed.

Lemma tick_get_triple P E : tick_triple P t_get (λ _, P) E.
Proof. intros s w HP Hr. done. Qed.

Lemma tick_modify_triple P f E : tick_triple P (t_modify f) (λ _, P) E.
Proof. intros s w HP Hr. done. Qed.

Lemma tick_conseq {A} P P' (c : tick A) Q Q' E E' :
  tick_triple P' c Q' E' → (∀ m, P m → P' m) → (∀ a m, Q' a m → Q a m) → (∀ m, E' m → E m) →
  tick_triple P c Q E.
Proof.
  intros Hc HP HQ HE s w Hw Hr. specialize (Hc s w (HP _ Hw) Hr).
  destruct (c s w) as [[[a|e] s'] w']; naive_solver.
Qed.

Lemma tick_readonly_triple {A} P (c : io A) :
  io_rel eq c → keeps_readable c → tick_triple P (t_io c) (λ _, P) P.
Proof.
  intros Hc Hk s w HP Hr. specialize (Hc w). specialize (Hk w Hr). unfold t_io.
  destruct (c w) as [[a|e] w']; simpl in *; (split; [congruence|done]).
Qed.
End tick_triple.

#[export] Instance agree_but_preorder ps : PreOrder (agree_but ps).
Proof. split; [done|]. intros m1 m2 m3 H12 H23 p Hp. by rewrite H12, H23. Qed.

(** Another user of the cache that adds tracked tasks or resets cut-offs. *)
Definition harmless (c : io unit) : Prop :=
  io_rel (agree_but [STATE_FILENAME; ACTIVE_FILENAME]) c ∧ keeps_readable c.

Section safety.
Context `{SafeIdRegex} `{NativeUpids} `{TaskCodec} `{!TaskCodecLaws} `{SectionConfigData C Remote}.
Context (env : tick_env C).

Lemma read_state_readonly : io_rel eq read_state.
Proof.
  apply io_rel_bind; [apply _|apply io_rel_try, fs_open_readonly, _|]. intros r. apply io_rel_ret, _.
Qed.

Lemma read_state_readable : keeps_readable read_state.
Proof.
  apply keeps_readable_bind; [apply keeps_readable_try, keeps_readable_prim|]. intros r. apply keeps_readable_ret.
Qed.
Lemma get_active_tasks_readable : keeps_readable get_active_tasks.
Proof. apply keeps_readable_bind; [apply get_tasks_active_readable|]. intros l. apply keeps_readable_ret. Qed.

Lemma get_active_tasks_readonly : io_rel eq get_active_tasks.
Proof.
  apply io_rel_bind; [apply _|apply get_tasks_active_readonly|]. intros l. apply io_rel_ret, _.
Qed.

Lemma tick_poll_readonly P config st : tick_triple P (tick_poll env config st) (λ _, P) P.
Proof.
  eapply tick_bind_triple; [apply tick_get_triple|]. intros s.
  destruct (is_due_for_active_poll _ s); [|by apply tick_lift_triple].
  eapply tick_bind_triple; [apply tick_readonly_triple; [apply get_active_tasks_readonly|apply get_active_tasks_readable]|]. intros active.
  eapply tick_bind_triple; [by apply tick_lift_triple with (Q := λ _, P)|]. intros results.
  eapply tick_bind_triple; [apply tick_modify_triple|]. intros u. by apply tick_ret_triple.
Qed.

Lemma tick_remotes_readonly P config results E :
  tick_triple P (tick_remotes env config results) (λ _, P) E.
Proof.
  eapply tick_bind_triple; [apply tick_get_triple|]. intros s.
  destruct (is_due_for_fetch _ s); [|by apply tick_ret_triple].
  eapply tick_bind_triple; [apply tick_modify_triple|]. intros u. by apply tick_ret_triple.
Qed.

Context (m0 : gmap string string).
Let now : Z := align_timestamp (te_epoch env) ROTATE_AFTER.
Context (Hok0 : names_ok m0) (Hwf0 : journal_wf m0) (Hnow : in_i64 now = true).
Context (Hother : harmless (te_other env)).

(** Between two operations of the tick. *)
Record mid (m : gmap string string) : Prop := {
  mid_names : names_ok m;
  mid_journal : journal_wf m;
  mid_keep : forgets_old now m0 m;
}.

Lemma journal_kept_wf m m' : journal_kept m m' → journal_wf m → journal_wf m'.
Proof.
  intros [Heq|Heq] [ts Hts]; unfold journal_wf; rewrite Heq; [by exists ts|]. by exists [].
Qed.

(** The first step, for the state the tick starts in. *)
Lemma tick_rotate_run s w :
  no_twins m0 ∨ faults w = [] → files w = m0 → read_faults w = [] →
  match tick_rotate env s w with
  | (Ok _, _, w') => mid (files w') ∧ read_faults w' = []
  | (Err _, _, w') => forgets_old now m0 (files w') ∧ read_faults w' = []
  end.
Proof.
  intros Htw Hw Hr. assert (mid m0) as Hm0 by (split; [apply Hok0|done|done]).
  unfold tick_rotate, mbind, tick_bind, t_get, t_io.
  destruct (is_due_for_rotate_check _ s); [|simpl; by rewrite Hw].
  pose proof (rotate_run now get_cache m0 w Hok0 Htw Hnow Hw Hr) as Hrun. unfold rotate_cache. fold now.
  destruct (rotate get_cache now w) as [[due|e] w']; [|done].
  destruct Hrun as [(k&[[Hn _] _ Hk Hj]&_) Hr'].
  assert (mid (files w')) by (split; [done|by eapply journal_kept_wf|done]). by destruct due.
Qed.

Lemma mid_journal_run m m' : mid m → journal_run m m' → mid m'.
Proof.
  intros [Hn Hj Hk] Hrun. split.
  - by apply (journal_run_known m m' (mkItem (mkRemoteUpid "" RemoteType.Pve "") 0 None None) Hn Hrun).
  - by eapply journal_kept_wf; [apply journal_run_kept|].
  - eapply forgets_old_trans; [exact Hk|]. intros t _ Hc.
    destruct (journal_run_known m m' t Hn Hrun) as (_&Hl&_).
    assert (covered m t) as Hc' by (unfold covered in *; by rewrite Hl in Hc).
    split; [done|]. by apply journal_run_placed.
Qed.

Lemma tick_apply_journal_triple :
  tick_triple mid (tick_apply_journal env) (λ _, mid) (forgets_old now m0).
Proof.
  eapply tick_bind_triple; [apply tick_get_triple|]. intros s.
  destruct (is_due_for_journal_apply _ s); [|by apply tick_ret_triple].
  eapply tick_bind_triple with (R := λ _, mid); [|intros u; apply tick_modify_triple].
  apply tick_io_triple, readable_from. intros m1 Hm1.
  eapply readable_conseq; [apply (apply_journal_run_triple m1)|done| |].
  - intros u m Hrun. by eapply mid_journal_run.
  - intros m Hrun. by eapply mid_keep, mid_journal_run.
Qed.

(** Files outside the archive and a growing journal. *)
Lemma placed_grow ps m m' t :
  names_ok m → agree_but ps m m' → forallb not_archive ps = true →
  (∀ t, t ∈ journal_items m → t ∈ journal_items m') → placed m t → placed m' t.
Proof.
  intros Hn Hag Hps Hj. destruct (agree_archive_list _ _ _ Hn Hag Hps) as [Hl _].
  assert (archive_content m = archive_content m') as Hc.
  { unfold archive_content. rewrite <-Hl. apply list_fmap_ext. intros i f Hf%list_elem_of_lookup_2. f_equal.
    apply archive_list_elem in Hf as [Hf _]. by eapply agree_file_items. }
  unfold placed. rewrite !starts_content, Hc. intros [Ht|?]; [left|by right]. by eapply has_task_mono.
Qed.

Lemma mid_other m m' : mid m → agree_but [STATE_FILENAME; ACTIVE_FILENAME] m m' → mid m'.
Proof.
  intros [Hn Hj Hk] Hag. split.
  - by apply (agree_archive_list _ _ _ Hn Hag eq_refl).
  - eapply journal_kept_wf; [|exact Hj]. left. symmetry. apply Hag. set_solver.
  - eapply forgets_old_trans; [exact Hk|]. intros t _ Hc.
    split; [by apply (agree_covered _ _ _ t Hn Hag eq_refl)|].
    apply (placed_grow _ _ _ t Hn Hag eq_refl). unfold journal_items. by rewrite (Hag WAL_FILENAME) by set_solver.
Qed.

(** An interrupted update leaves every task where it belongs. *)
Lemma update_placed m new success active st m' t :
  names_ok m → journal_wf m →
  interrupted m (filter finished new) active success st m' ∨
  journal_run (stored m (filter finished new) active success st) m' →
  covered m t → placed m t → placed m' t.
Proof.
  intros Hn Hj Hm' Hc Hp. set (S := stored m (filter finished new) active success st) in *.
  pose proof (stored_agree m (filter finished new) active success st) as Hag. fold S in Hag.
  destruct (agree_archive_list _ _ _ Hn Hag eq_refl) as [_ HnS].
  assert (∀ b, ∀ t, t ∈ journal_items m → t ∈ journal_iterator (default ""%string (m !! WAL_FILENAME) +:+ b)) as Hgrow.
  { intros b u Hu. destruct Hj as [ts Hts]. unfold journal_items in Hu. rewrite Hts. apply journal_iterator_keeps.
    destruct (m !! WAL_FILENAME); simpl in *; [|set_solver]. by rewrite Hts, journal_iterator_encode in Hu. }
  assert (journal_run S m' → placed m' t) as Hrun.
  { intros Hr. apply (journal_run_placed S m' t HnS Hr); [by apply (agree_covered _ _ _ t Hn Hag eq_refl)|].
    apply (placed_grow _ _ _ t Hn Hag eq_refl); [|done]. intros u Hu. unfold journal_items, S, stored, activated, journaled.
    rewrite !lookup_insert_ne, lookup_insert_eq by done. simpl. by apply Hgrow. }
  destruct Hm' as [[->|[[b ->]|[->|Hr]]]|Hr]; [done| | |auto..].
  - apply (placed_grow [WAL_FILENAME] m); [done|intros p ?; rewrite lookup_insert_ne by set_solver; done|done| |done].
    intros u Hu. unfold journal_items at 1. rewrite lookup_insert_eq. by apply Hgrow.
  - apply (placed_grow [ACTIVE_FILENAME; WAL_FILENAME] m); [done| |done| |done].
    + intros p ?. unfold activated, journaled. rewrite !lookup_insert_ne by set_solver. done.
    + intros u Hu. unfold journal_items at 1, activated, journaled.
      rewrite !lookup_insert_ne, lookup_insert_eq by done. by apply Hgrow.
Qed.

Lemma update_archive_list m new success active st m' :
  names_ok m → journal_wf m →
  interrupted m (filter finished new) active success st m' ∨
  journal_run (stored m (filter finished new) active success st) m' →
  archive_list m' = archive_list m.
Proof.
  intros Hn Hj Hm'. pose proof (stored_agree m (filter finished new) active success st) as Hag.
  destruct (agree_archive_list _ _ _ Hn Hag eq_refl) as [Hl Hn'].
  assert (∀ m', agree_but [ACTIVE_FILENAME; WAL_FILENAME] m m' → archive_list m' = archive_list m) as Hpart.
  { intros m1 Hag1. symmetry. by apply (agree_archive_list _ _ _ Hn Hag1 eq_refl). }
  assert (journal_run (stored m (filter finished new) active success st) m' →
          archive_list m' = archive_list m) as Hrun.
  { intros Hr. rewrite Hl.
    by apply (journal_run_known _ m' (mkItem (mkRemoteUpid "" RemoteType.Pve "") 0 None None) Hn' Hr). }
  destruct Hm' as [[->|[[b ->]|[->|Hr]]]|Hr]; [done| | |auto..].
  - apply Hpart. intros p Hp. rewrite lookup_insert_ne by set_solver. done.
  - apply Hpart. intros p Hp. unfold activated, journaled. rewrite !lookup_insert_ne by set_solver. done.
Qed.

(** An update keeps what is known and the files of the archive. *)
Lemma update_triple_mid new success dropped m1 :
  mid m1 →
  triple (λ m, m = m1) (update get_cache new success dropped)
    (λ _ m, forgets_old now m0 m ∧ archive_list m = archive_list m1 ∧
            ∀ t, covered m1 t → t ∈ new → finished t → storable t → known m t)
    (forgets_old now m0).
Proof.
  intros [Hn Hj Hk].
  assert (∀ m, (∃ active st, interrupted m1 (filter finished new) active success st m ∨
                 journal_run (stored m1 (filter finished new) active success st) m) →
    archive_list m = archive_list m1 ∧ forgets_old now m0 m) as Hgen.
  { intros m (active&st&Hm). pose proof (update_archive_list _ _ _ _ _ _ Hn Hj Hm) as Hl.
    split; [done|]. eapply forgets_old_trans; [exact Hk|]. intros t _ Hc.
    assert (covered m1 t) as Hc1 by (unfold covered in *; by rewrite Hl in Hc). split; [done|].
    by eapply update_placed. }
  eapply readable_conseq; [apply (update_triple get_cache m1)|done| |].
  - intros u m (active&st&Hm). destruct (Hgen m) as [Hl Hf]; [by eauto|]. split; [done|]. split; [done|].
    intros t Hc ???. eapply journal_run_stored; [done|done|exact Hm|done|]. left.
    split; [|done]. by apply list_elem_of_filter.
  - intros m (active&st&Hm). apply Hgen. eauto.
Qed.

Lemma mid_forgets m : mid m → forgets_old now m0 m.
Proof. apply mid_keep. Qed.

Lemma handle_timer_tick_run s w :
  no_twins m0 ∨ faults w = [] → files w = m0 → read_faults w = [] →
  forgets_old now m0 (files (handle_timer_tick env s w).2).
Proof.
  intros Htw Hw Hr. pose proof (tick_rotate_run s w Htw Hw Hr) as Hrot.
  unfold handle_timer_tick. unfold mbind at 1, tick_bind at 1.
  destruct (tick_rotate env s w) as [[[u1|e] s1] w1]; [|apply Hrot]. destruct Hrot as [Hm1 Hr1].
  match goal with |- forgets_old _ _ (files (?c s1 w1).2) =>
    assert (tick_triple mid c (λ _, forgets_old now m0) (forgets_old now m0)) as Ht end.
  2: { specialize (Ht s1 w1 Hm1 Hr1). match goal with |- context [?c s1 w1] => destruct (c s1 w1) as [[[u|e] s'] w'] end; apply Ht. }
  clear -Hother Hnow Hok0 Hwf0 H2.
  eapply tick_bind_triple; [apply tick_apply_journal_triple|]. intros u2.
  eapply tick_bind_triple with (R := λ _, mid); [apply tick_lift_triple; [done|exact mid_forgets]|]. intros config.
  eapply tick_bind_triple with (R := λ _, mid).
  { eapply tick_conseq; [apply tick_readonly_triple; [apply read_state_readonly|apply read_state_readable]|done|done|exact mid_forgets]. }
  intros st. eapply tick_bind_triple with (R := λ _, mid).
  { eapply tick_conseq; [apply tick_poll_readonly|done|done|exact mid_forgets]. }
  intros results. eapply tick_bind_triple; [apply tick_remotes_readonly|]. intros remotes.
  destruct (fetch_remotes _ _ _ _) as [tasks success].
  eapply tick_bind_triple with (R := λ _, mid).
  { apply tick_io_triple. intros w Hw Hr. destruct Hother as [Ho Hk]. specialize (Ho w). specialize (Hk w Hr).
    rewrite io_bind_run. unfold io_try.
    destruct (te_other env w) as [r w']. simpl in *. split; [by eapply mid_other|done]. }
  intros u3. destruct (needs_update _ _); [|apply tick_ret_triple, mid_forgets].
  apply tick_io_triple, readable_from. intros m1 Hm1.
  eapply readable_conseq; [apply (update_triple_mid tasks success (drop_tracked results) m1 Hm1)|done|by intros u m [] |done].
Qed.
End safety.

(** ** What is fetched *)

Section fetched.
Context `{SafeIdRegex} `{NativeUpids} (env : answers_env) (now : Z).

(** A response that has the tasks [data] of the node [n] of the remote [r]. *)
Definition has_answer (resps : list (RemoteResponse (MultipleNodesResponse (list TaskCacheItem))))
    (r n : string) (data : list TaskCacheItem) : Prop :=
  ∃ resp nrs, resp ∈ resps ∧ resp_remote resp = r ∧ resp_response resp = Ok nrs ∧
              mkNodeResponse n (Ok data) ∈ nrs.

Lemma node_successful_set m r n r' n' :
  node_successful (set_node_success m r n) r' n' = true ↔
  (r = r' ∧ n = n') ∨ node_successful m r' n' = true.
Proof.
  unfold node_successful, set_node_success.
  destruct (decide ((r, n) = (r', n'))) as [[= <- <-]|Hne].
  - rewrite lookup_insert_eq. tauto.
  - rewrite lookup_insert_ne by done. naive_solver.
Qed.

Lemma add_node_responses remote nrs : ∀ acc,
  let res := foldl (add_node_response remote) acc nrs in
  (∀ t, t ∈ res.1 ↔ t ∈ acc.1 ∨ ∃ n data, mkNodeResponse n (Ok data) ∈ nrs ∧ t ∈ data) ∧
  (∀ r n, node_successful res.2 r n = true ↔
     node_successful acc.2 r n = true ∨ r = remote ∧ ∃ data, mkNodeResponse n (Ok data) ∈ nrs).
Proof.
  induction nrs as [|[n0 [d0|e0]] nrs IH]; intros acc; simpl.
  - split; intros; set_solver.
  - destruct (IH (add_node_response remote acc (mkNodeResponse n0 (Ok d0)))) as [H1 H2].
    unfold add_node_response in *. simpl in *. split.
    + intros t. rewrite H1, elem_of_app. setoid_rewrite elem_of_cons. split.
      * intros [[?|?]|(n&data&?&?)]; [by left|right; exists n0, d0; auto|right; exists n, data; auto].
      * intros [?|(n&data&[[= -> ->]|?]&?)]; [by left; left|by left; right|right; eauto].
    + intros r n. rewrite H2, node_successful_set. setoid_rewrite elem_of_cons. split.
      * intros [[[-> ->]|?]|(->&data&?)]; [right; split; [done|]; exists d0; auto|by left|right; split; [done|]; eauto].
      * intros [?|(->&data&[[= -> ->]|?])]; [by left; right|left; left; done|right; eauto].
  - destruct (IH acc) as [H1 H2]. unfold add_node_response in *. simpl in *. split.
    + intros t. rewrite H1. setoid_rewrite elem_of_cons. naive_solver.
    + intros r n. rewrite H2. setoid_rewrite elem_of_cons. naive_solver.
Qed.

Lemma add_remote_responses resps : ∀ acc,
  let res := foldl add_remote_response acc resps in
  (∀ t, t ∈ res.1 ↔ t ∈ acc.1 ∨ ∃ r n data, has_answer resps r n data ∧ t ∈ data) ∧
  (∀ r n, node_successful res.2 r n = true ↔
     node_successful acc.2 r n = true ∨ ∃ data, has_answer resps r n data).
Proof.
  unfold has_answer. induction resps as [|[r0 ty0 [nrs0|e0]] resps IH]; intros acc; simpl.
  - split; intros; set_solver.
  - destruct (IH (foldl (add_node_response r0) acc nrs0)) as [H1 H2].
    destruct (add_node_responses r0 nrs0 acc) as [H3 H4]. unfold add_remote_response in *. simpl in *. split.
    + intros t. rewrite H1, H3. setoid_rewrite elem_of_cons. split.
      * intros [[?|(n&data&?&?)]|(r&n&data&(resp&nrs&?&?)&?)]; [by left|right..].
        -- exists r0, n, data. split; [|done]. exists (mkResponse r0 ty0 (Ok nrs0)), nrs0. auto.
        -- exists r, n, data. split; [|done]. exists resp, nrs. tauto.
      * intros [?|(r&n&data&(resp&nrs&[->|?]&?&Hr&?)&?)]; [by left; left| |].
        -- simplify_eq/=. left. right. eauto.
        -- right. exists r, n, data. split; [|done]. exists resp, nrs. tauto.
    + intros r n. rewrite H2, H4. setoid_rewrite elem_of_cons. split.
      * intros [[?|(->&data&?)]|(data&resp&nrs&?&?)]; [by left|right..].
        -- exists data, (mkResponse r0 ty0 (Ok nrs0)), nrs0. auto.
        -- exists data, resp, nrs. tauto.
      * intros [?|(data&resp&nrs&[->|?]&?&Hr&?)]; [by left; left| |].
        -- simplify_eq/=. left. right. eauto.
        -- right. exists data, resp, nrs. tauto.
  - destruct (IH acc) as [H1 H2]. unfold add_remote_response in *. simpl in *.
    assert (∀ r n data, (∃ resp nrs, resp ∈ mkResponse r0 ty0 (Err e0) :: resps ∧ resp_remote resp = r ∧
              resp_response resp = Ok nrs ∧ mkNodeResponse n (Ok data) ∈ nrs) ↔
            (∃ resp nrs, resp ∈ resps ∧ resp_remote resp = r ∧
              resp_response resp = Ok nrs ∧ mkNodeResponse n (Ok data) ∈ nrs)) as Heq.
    { intros r n data. split; intros (resp&nrs&Hin&?&Hr&?).
      - apply elem_of_cons in Hin as [->|Hin]; [done|]. exists resp, nrs. done.
      - exists resp, nrs. split; [by right|done]. }
    setoid_rewrite Heq. done.
Qed.

(** The node [n] of the remote [r] was asked for its tasks and sent [data]. *)
Definition answered (cache_state : State) (remotes : list Remote) (r n : string)
    (data : list TaskCacheItem) : Prop :=
  ∃ remote nodes, remote ∈ remotes ∧ rm_id remote = r ∧
    nodes_of (list_nodes env) remote = Some (Ok nodes) ∧ n ∈ nodes ∧
    fetch_tasks_from_single_node env now cache_state remote n = Some (Ok data).

Lemma has_answer_iff cache_state remotes r n data :
  has_answer (do_for_all_remote_nodes (list_nodes env) (fetch_tasks_from_single_node env now cache_state)
                MAX_CONNECTIONS CONNECTIONS_PER_PVE_REMOTE (schedule env) remotes) r n data ↔
  answered cache_state remotes r n data.
Proof.
  destruct (do_for_all_remote_nodes_outcomes (list_nodes env) (fetch_tasks_from_single_node env now cache_state)
              MAX_CONNECTIONS CONNECTIONS_PER_PVE_REMOTE ltac:(unfold CONNECTIONS_PER_PVE_REMOTE; lia)
              ltac:(unfold MAX_CONNECTIONS; lia) (schedule env) remotes) as (os&Ha&Hp).
  unfold has_answer, answered. setoid_rewrite Hp. setoid_rewrite list_elem_of_omap. split.
  - intros (resp&nrs&(o&Ho&Heq)&Hr&Hresp&Hin). unfold id in Heq. subst o.
    apply list_elem_of_lookup_1 in Ho as [i Ho]. destruct (Forall2_lookup_r _ _ _ _ _ Ha Ho) as (remote&Hrem&Hans).
    exists remote. destruct (nodes_of (list_nodes env) remote) as [[nodes|e]|] eqn:Hnodes;
      [|unfold answers, response_of in Hans; rewrite Hnodes in Hans; by simplify_eq/=..].
    destruct (answers_nodes _ _ _ _ _ Hans Hnodes) as [(rs&[= ->]&Hperm)|[? _]]; [|done].
    simplify_eq/=. exists nodes.
    rewrite Hperm, list_elem_of_omap in Hin. destruct Hin as (node&Hnode&Hf).
    unfold fetch_node in Hf. apply fmap_Some in Hf as (x&Hx&[= -> <-]).
    split; [by eapply list_elem_of_lookup_2|]. done.
  - intros (remote&nodes&Hrem&<-&Hnodes&Hn&Hf).
    apply list_elem_of_lookup_1 in Hrem as [i Hrem]. destruct (Forall2_lookup_l _ _ _ _ _ Ha Hrem) as (o&Ho&Hans).
    assert (mkNodeResponse n (Ok data) ∈
      omap (M := list) (fetch_node (fetch_tasks_from_single_node env now cache_state) remote) nodes) as Hel.
    { apply list_elem_of_omap. exists n. split; [done|]. unfold fetch_node. by rewrite Hf. }
    destruct (answers_nodes _ _ _ _ _ Hans Hnodes) as [(rs&->&Hperm)|(_&Hnil&_)]; [|rewrite Hnil in Hel; by apply not_elem_of_nil in Hel].
    exists (mkResponse (rm_id remote) (rm_ty remote) (Ok rs)), rs. split_and!; [|done|done|].
    + eexists. split; [by eapply list_elem_of_lookup_2|done].
    + by rewrite Hperm.
Qed.

Lemma fetch_remotes_answered cache_state remotes :
  (∀ t, t ∈ (fetch_remotes env now remotes cache_state).1 ↔
        ∃ r n data, answered cache_state remotes r n data ∧ t ∈ data) ∧
  (∀ r n, node_successful (fetch_remotes env now remotes cache_state).2 r n = true ↔
          ∃ data, answered cache_state remotes r n data).
Proof.
  unfold fetch_remotes.
  destruct (add_remote_responses (do_for_all_remote_nodes (list_nodes env)
    (fetch_tasks_from_single_node env now cache_state) MAX_CONNECTIONS CONNECTIONS_PER_PVE_REMOTE
    (schedule env) remotes) ([], ∅)) as [H1 H2].
  setoid_rewrite has_answer_iff in H1. setoid_rewrite has_answer_iff in H2. split.
  - intros t. rewrite H1. set_solver.
  - intros r n. rewrite H2. unfold node_successful. cbn [snd]. rewrite lookup_empty. naive_solver.
Qed.
End fetched.

(** ** Ticks without faults *)

Section quiet_tick.
Context `{SafeIdRegex} `{NativeUpids} `{TaskCodec} `{!TaskCodecLaws} `{SectionConfigData C Remote}.
Context (env : tick_env C).

Definition poll_result (config : C) (u : RemoteUpid) : option PollResult :=
  match sc_get config (ru_remote u) with
  | Some remote => poll_single_tracked_task (te_answers env) remote u
  | None => Some RemoteGone
  end.

Lemma poll_tracked_tasks_spec config tracked :
  (∀ u, u ∈ tracked → is_Some (poll_result config u)) →
  ∃ results, poll_tracked_tasks (te_answers env) config tracked = Ok results ∧
    ∀ u, results !! u = if decide (u ∈ tracked) then poll_result config u else None.
Proof.
  intros Hsome. unfold poll_tracked_tasks.
  match goal with |- context [foldr ?f (Ok ∅) _] => set (step := f) end.
  assert (∀ u, u ∈ elements tracked → is_Some (poll_result config u)) as Hel by set_solver.
  enough (∃ results, foldr step (Ok ∅) (elements tracked) = Ok results ∧
    ∀ u, results !! u = if decide (u ∈ elements tracked) then poll_result config u else None)
    as (results&Hr&Hl).
  { exists results. split; [exact Hr|]. intros u. rewrite Hl. by apply decide_ext; set_solver. }
  clear Hsome. induction (elements tracked) as [|v l IH].
  { exists ∅. split; [done|]. intros u. rewrite lookup_empty. by rewrite decide_False by set_solver. }
  destruct IH as (results&Hr&Hl); [intros; apply Hel; by right|]. cbn [foldr]. rewrite Hr.
  destruct (Hel v) as [res Hres]; [left|].
  exists (<[v := res]> results). split.
  - unfold step. simpl. unfold poll_result in Hres.
    destruct (sc_get config (ru_remote v)) as [remote|]; [by rewrite Hres|congruence].
  - intros u. destruct (decide (u = v)) as [->|Hne].
    + rewrite lookup_insert_eq, decide_True by set_solver. done.
    + rewrite lookup_insert_ne, Hl by done. apply decide_ext. set_solver.
Qed.

(** The tasks that are polled, and the remotes that are asked, in a tick. *)
Definition polled (s : TaskState) (m : gmap string string) : gset RemoteUpid :=
  if is_due_for_active_poll (te_instant env AtPollCheck) s
  then tracked_tasks (state_of m) ∪ list_to_set (item_upid <$> active_items m)
  else tracked_tasks (state_of m).

Definition asked_remotes (s : TaskState) (config : C) (results : gmap RemoteUpid PollResult) : list Remote :=
  if is_due_for_fetch (te_instant env AtFetchCheck) s then get_all_remotes config
  else get_remotes_with_finished_tasks config results.

Lemma drop_tracked_elem results u :
  u ∈ drop_tracked results ↔ ∃ r, results !! u = Some r ∧ r ≠ Running.
Proof.
  unfold drop_tracked. rewrite elem_of_dom. unfold is_Some.
  setoid_rewrite map_lookup_filter_Some. done.
Qed.

Lemma tick_poll_quiet config s m :
  (∀ u, u ∈ polled s m → is_Some (poll_result config u)) →
  ∃ results s', tick_poll env config (state_of m) s (World m []) = (Ok results, s', World m []) ∧
    last_fetch s' = last_fetch s ∧
    ∀ u, results !! u = if decide (u ∈ polled s m) then poll_result config u else None.
Proof.
  unfold polled, tick_poll. unfold mbind, tick_bind, t_get.
  destruct (is_due_for_active_poll _ s).
  - destruct (get_tasks_active m m eq_refl) as (l&m'&Hget&->&->).
    unfold t_io, get_active_tasks. rewrite io_bind_run, Hget. simpl. intros Hsome.
    destruct (poll_tracked_tasks_spec config _ Hsome) as (results&Hr&Hl). unfold t_lift. rewrite Hr.
    by eexists results, _.
  - intros Hsome. destruct (poll_tracked_tasks_spec config _ Hsome) as (results&Hr&Hl).
    unfold t_lift. rewrite Hr. by eexists results, _.
Qed.

Lemma tick_remotes_quiet config results s w :
  ∃ s', tick_remotes env config results s w = (Ok (asked_remotes s config results), s', w).
Proof.
  unfold tick_remotes, asked_remotes, mbind, tick_bind, t_get.
  destruct (is_due_for_fetch _ s); by eexists.
Qed.

Lemma asked_remotes_fetch s s' config results :
  last_fetch s' = last_fetch s → asked_remotes s' config results = asked_remotes s config results.
Proof. intros Heq. unfold asked_remotes, is_due_for_fetch. by rewrite Heq. Qed.

(** The whole tick when neither a rotation nor the journal is due. *)
Lemma tick_quiet s m config :
  is_due_for_rotate_check (te_instant env AtRotateCheck) s = false →
  is_due_for_journal_apply (te_instant env AtJournalCheck) s = false →
  te_config env = Ok config → te_other env = mret tt →
  (∀ u, u ∈ polled s m → is_Some (poll_result config u)) →
  ∃ s' m' results,
    handle_timer_tick env s (World m []) = (Ok tt, s', World m' []) ∧
    (∀ u, results !! u = if decide (u ∈ polled s m) then poll_result config u else None) ∧
    let '(tasks, success) := fetch_remotes (te_answers env) (te_fetch_epoch env)
                               (asked_remotes s config results) (state_of m) in
    if needs_update tasks results
    then after_journal (updated m tasks success (drop_tracked results)) m' ∧
         ∃ active st, journal_run (stored m (filter finished tasks) active success st) m'
    else m' = m.
Proof.
  intros Hrot Hjour Hconf Hoth Hsome.
  destruct (tick_poll_quiet config s m Hsome) as (results&s1&Hpoll&Hs1&Hres).
  destruct (tick_remotes_quiet config results s1 (World m [])) as (s2&Hrem).
  rewrite (asked_remotes_fetch s s1) in Hrem by done.
  unfold handle_timer_tick, mbind at 1 2 3 4 5 6 7, tick_bind.
  assert (tick_rotate env s (World m []) = (Ok tt, s, World m [])) as ->.
  { unfold tick_rotate, mbind, tick_bind, t_get. by rewrite Hrot. }
  assert (tick_apply_journal env s (World m []) = (Ok tt, s, World m [])) as ->.
  { unfold tick_apply_journal, mbind, tick_bind, t_get. by rewrite Hjour. }
  unfold t_lift at 1. rewrite Hconf. unfold t_io at 1.
  destruct (read_state_quiet m m eq_refl) as (st&m1&Hst&->&->). rewrite Hst, Hpoll, Hrem.
  destruct (fetch_remotes _ _ _ _) as [tasks success] eqn:Hf. rewrite Hoth. simpl.
  destruct (needs_update tasks results) eqn:Hnu.
  - pose proof (quiet_readable _ _ _ _ _ (update_quiet get_cache m tasks success (drop_tracked results))
                  (update_triple get_cache m tasks success (drop_tracked results))) as Hq.
    destruct (Hq m eq_refl) as ([]&m'&Hrun&Haj&Hj). exists s2, m', results.
    unfold t_io, update_task_cache. rewrite Hrun, Hf, Hnu. done.
  - exists s2, m, results. by rewrite Hf, Hnu.
Qed.
End quiet_tick.

(** ** Properties *)

Lemma align_timestamp_spec now interval :
  0 < interval →
  align_timestamp now interval ≤ now < align_timestamp now interval + interval ∧
  (interval | align_timestamp now interval).
Proof.
  intros Hi. unfold align_timestamp. pose proof (Z.mod_pos_bound now interval Hi).
  split; [lia|]. exists (now / interval). pose proof (Z.div_mod now interval). lia.
Qed.

Section properties.
Context `{SafeIdRegex} `{NativeUpids} `{TaskCodec} `{!TaskCodecLaws} `{SectionConfigData C Remote}.

(** Tracking a task that PDM has started, while a tick is under way. *)
Lemma add_tracked_task_harmless t : harmless (add_tracked_task t).
Proof.
  assert (∀ A (c : io A), io_rel eq c → io_rel (agree_but [STATE_FILENAME; ACTIVE_FILENAME]) c) as Hread.
  { intros A c Hc w. by rewrite (Hc w). }
  assert (∀ name data, name ∈ [STATE_FILENAME; ACTIVE_FILENAME] →
    io_rel (agree_but [STATE_FILENAME; ACTIVE_FILENAME]) (fs_replace name data)) as Hwrite.
  { intros name data Hin. apply io_rel_prim; [apply _|]. intros m p Hp. simpl.
    rewrite lookup_insert_ne; [done|]. by intros ->. }
  assert (∀ l, io_rel (agree_but [STATE_FILENAME; ACTIVE_FILENAME]) (write_active_tasks l)) as Hactive.
  { intros l [m fl rf] p Hp. unfold write_active_tasks, archive_file_writer, write_tasks, commit, fs_sync, fs_replace, prim.
    assert (ACTIVE_FILENAME ≠ p) by set_solver.
    destruct fl as [|[] [|[] [|[] [|[] fl]]]]; simpl; rewrite ?lookup_insert_ne by (intros Heq; by subst p); done. }
  split.
  - unfold add_tracked_task.
    repeat first
      [ apply Hread, read_state_readonly | apply Hread, get_tasks_active_readonly | apply Hactive
      | apply Hwrite; set_solver | apply io_rel_bind; [apply _| |intros ?] ].
  - unfold add_tracked_task, write_active_tasks, archive_file_writer, write_tasks, commit, write_state.
    repeat first
      [ apply read_state_readable | apply get_tasks_active_readable | apply keeps_readable_prim
      | apply keeps_readable_ret | apply keeps_readable_bind; [|intros ?] ].
Qed.

(** C2: a timer tick loses no task that is where it belongs.  Whatever the remotes answer, whichever
    system calls fail and at whatever point the tick stops (rotation, journal,
    poll, fetch, update, with other processes starting tracked tasks in between,
    [harmless]), a task that was in the journal or in the archive file of its
    time span ([placed]) is still known afterwards, unless it is older than every
    archive file that is left.  The conditions: the task started before today's
    alignment of the clock ([now], an [i64] time, where a rotation starts the new file); the
    journal holds complete records only ([journal_wf]); the archive files have the
    names the cache gives them ([names_ok]), without leftover duplicates unless no
    system call fails; and files that could be opened can be read to their end.
    A task that sits in a file older than its time span is not [placed];
    [late_rotation_misorders] shows how that comes about. *)
Theorem tick_never_loses (env : tick_env C) (s : TaskState) (m : gmap string string) (fl : list bool)
    (t : TaskCacheItem) :
  let now := align_timestamp (te_epoch env) ROTATE_AFTER in
  let m' := files (handle_timer_tick env s (World m fl)).2 in
  names_ok m → no_twins m ∨ fl = [] → journal_wf m → in_i64 now = true → harmless (te_other env) →
  item_starttime t < now → covered m' t → placed m t → known m' t.
Proof.
  intros now m' Hok Htw Hwf Hi Ho Hlt Hc Hk. apply placed_known.
  by apply (handle_timer_tick_run env m Hok Hwf Hi Ho s (World m fl) Htw eq_refl eq_refl).
Qed.

(** C26: what a tick without faults does, when neither a rotation nor applying
    the journal is due, the configuration can be read, every poll is answered and
    no other process uses the cache meanwhile: it succeeds; every
    finished task that a node sent, asked for its tasks since its cut-off, is known
    afterwards, if its UPID parses ([storable]) and the archive reaches back to it
    ([covered]); no known task that the archive reaches back to is lost; the
    cut-off of a node that did not answer is not raised, so that it is asked for
    the same tasks again; and the tasks that are no longer tracked are those whose
    poll said that they finished, failed, or belong to a remote that is gone.  The
    archive files have the names the cache gives them ([names_ok]) and the journal
    holds complete records ([journal_wf]). *)
Theorem tick_stores_fetched (env : tick_env C) (s : TaskState) (m : gmap string string) (config : C) :
  is_due_for_rotate_check (te_instant env AtRotateCheck) s = false →
  is_due_for_journal_apply (te_instant env AtJournalCheck) s = false →
  te_config env = Ok config → te_other env = mret tt →
  (∀ u, u ∈ polled env s m → is_Some (poll_result env config u)) →
  names_ok m → journal_wf m →
  ∃ s' m' results,
    handle_timer_tick env s (World m []) = (Ok tt, s', World m' []) ∧
    (∀ u, results !! u = if decide (u ∈ polled env s m) then poll_result env config u else None) ∧
    let answered := answered (te_answers env) (te_fetch_epoch env) (state_of m)
                      (asked_remotes env s config results) in
    (∀ r n data t, answered r n data → t ∈ data → finished t → storable t → covered m t → known m' t) ∧
    (∀ t, covered m t → known m t → known m' t) ∧
    (∀ r n c, (¬ ∃ data, answered r n data) → cutoff_timestamp (state_of m') r n = Some c →
       ∃ c0, cutoff_timestamp (state_of m) r n = Some c0 ∧ c ≤ c0) ∧
    (∀ u, u ∈ tracked_tasks (state_of m') → u ∈ tracked_tasks (state_of m)) ∧
    (∀ u, u ∈ tracked_tasks (state_of m) → u ∉ tracked_tasks (state_of m') →
       ∃ r, results !! u = Some r ∧ r ≠ Running).
Proof.
  intros Hrot Hjour Hconf Hoth Hsome Hn Hwf.
  destruct (tick_quiet env s m config Hrot Hjour Hconf Hoth Hsome) as (s'&m'&results&Hrun&Hres&Hf).
  destruct (fetch_remotes_answered (te_answers env) (te_fetch_epoch env) (state_of m)
              (asked_remotes env s config results)) as [Htasks Hsucc].
  destruct (fetch_remotes _ _ _ _) as [tasks success]. simpl in Htasks, Hsucc.
  exists s', m', results. split; [exact Hrun|]. split; [exact Hres|].
  destruct (needs_update tasks results) eqn:Hnu.
  - destruct Hf as (Haj&active&st&Hj). split_and!.
    + intros r n data t Ha Hin Hfin Hst Hc. eapply journal_run_stored; [done|done|exact Hj|done|]. left.
      split; [|done]. apply list_elem_of_filter. split; [done|]. apply Htasks. eauto.
    + intros t Hc Hk. eapply journal_run_stored; [done|done|exact Hj|done|by right].
    + intros r n c Hno Hc. eapply updated_cutoff_failed; [exact Haj|exact Hc|].
      apply not_true_iff_false. intros Hs. by apply Hno, Hsucc.
    + intros u. rewrite (updated_tracked _ _ _ _ _ Haj). set_solver.
    + intros u Hu. rewrite (updated_tracked _ _ _ _ _ Haj). intros Hnot.
      apply drop_tracked_elem. destruct (decide (u ∈ drop_tracked results)); [done|set_solver].
  - subst m'. assert (tasks = []) as ->.
    { unfold needs_update in Hnu. by destruct tasks. }
    split_and!; [|done| |done|done].
    + intros r n data t Ha Hin. assert (t ∈ []) as Habs by (apply Htasks; eauto). set_solver.
    + intros r n c _ Hc. exists c. split; [done|lia].
Qed.
End properties.

(** ** Witnesses *)

Module TickDemo.
Import JournalDemo RotateDemo.
#[local] Existing Instance demo_codec.
#[local] Existing Instance demo_codec_laws.
#[local] Existing Instance demo_upids.
#[local] Existing Instance safe_id_regex_impl.
#[local] Existing Instance gmap_config.

Definition demo_remote : Remote := mkRemote "pve1" RemoteType.Pve.
Definition demo_config : gmap string Remote := {[ "pve1"%string := demo_remote ]}.
Definition demo_new_task : TaskCacheItem := demo_task "UPID:a:9" 150 (Some "OK"%string) (Some 160).

(** Two nodes: [a] sends one finished task, [b] does not answer. *)
Definition demo_answers : answers_env :=
  mkAnswers (λ _, Some (Ok ["a"; "b"]%string))
    (λ _ node _, Some (if String.eqb node "a" then Ok [mkNativeTask "UPID:a:9" 150 (Some 160) (Some "OK"%string)]
                       else Err EIo))
    (λ _ _, None) (λ _ _ _, Some (Ok true)) (λ _ _, None) [1; 3; 2]%nat.

Definition demo_env (epoch : Z) : tick_env (gmap string Remote) :=
  mkTickEnv (λ _, from_secs 10000) epoch epoch (Ok demo_config) demo_answers (mret tt).

(** Everything is due. *)
Definition demo_due : TaskState := task_state_default (from_secs 9999).

Lemma tick_never_loses_witness :
  known (files (handle_timer_tick (demo_env 180000) demo_due (World demo_files [])).2) demo_t1.
Proof.
  apply (tick_never_loses (demo_env 180000) demo_due demo_files [] demo_t1 demo_names_ok (or_intror eq_refl)).
  - exists [demo_t2; demo_t1]. vm_compute. reflexivity.
  - vm_compute. reflexivity.
  - split; [intros w p Hp; reflexivity|intros w Hr; exact Hr].
  - vm_compute. reflexivity.
  - exists (archive_file_at 100 false). split; [|vm_compute; congruence].
    assert (archive_list (files (handle_timer_tick (demo_env 180000) demo_due (World demo_files [])).2)
            = [archive_file_at 172800 false; archive_file_at 100 false; demo_old]) as ->
      by (vm_compute; reflexivity).
    right. left.
  - left. exists demo_t1. split; [|done].
    assert (journal_items demo_files = [demo_t1; demo_t2]) as -> by (vm_compute; reflexivity). left.
Defined.

(** Only a fetch is due. *)
Definition demo_fetch_due : TaskState :=
  mkTaskState (from_secs 9999) (from_secs 9000) (from_secs 9999) (from_secs 9999).

Lemma tick_stores_fetched_witness :
  ∃ s' m', handle_timer_tick (demo_env 90000) demo_fetch_due (World demo_files []) = (Ok tt, s', World m' []) ∧
    known m' demo_new_task ∧ cutoff_timestamp (state_of m') "pve1" "b" = None.
Proof.
  destruct (tick_stores_fetched (demo_env 90000) demo_fetch_due demo_files demo_config)
    as (s'&m'&results&Hrun&Hres&Hnew&_&Hcut&_&_).
  - vm_compute. reflexivity.
  - vm_compute. reflexivity.
  - reflexivity.
  - reflexivity.
  - intros u Hu. exfalso. revert Hu. vm_compute. intros Hu. discriminate Hu.
  - apply demo_names_ok.
  - exists [demo_t2; demo_t1]. vm_compute. reflexivity.
  - exists s', m'. split; [exact Hrun|]. split.
    + apply (Hnew "pve1"%string "a"%string [demo_new_task]).
      * exists demo_remote, ["a"; "b"]%string. split; [vm_compute; left|].
        split; [reflexivity|]. split; [reflexivity|]. split; [left|vm_compute; reflexivity].
      * left.
      * by exists 160.
      * by exists "a"%string.
      * exists demo_old. rewrite demo_archive_list. split; [right; left|vm_compute; congruence].
    + destruct (cutoff_timestamp (state_of m') "pve1" "b") as [c|] eqn:Hc; [exfalso|reflexivity].
      destruct (Hcut "pve1"%string "b"%string c) as (c0&Hc0&_); [|exact Hc|].
      * intros (data&remote&nodes&Hr&_&_&_&Hf). vm_compute in Hr.
        apply list_elem_of_singleton in Hr. subst remote. vm_compute in Hf. discriminate Hf.
      * vm_compute in Hc0. discriminate Hc0.
Defined.

(** A rotation starts the new file at the aligned time, which may lie before
    tasks that have already been merged into the previous file.  Tasks that are
    added later then come out of order: the file of the later time span holds the
    task that started first. *)
Theorem late_rotation_misorders :
  let early := demo_task "UPID:a:7" 86500 (Some "OK"%string) (Some 86600) in
  let late := demo_task "UPID:a:8" 90000 (Some "OK"%string) (Some 90010) in
  let m := <[WAL_FILENAME := encode_items [late]]> {[archive_path 0 false := ""%string]} in
  let w1 := (apply_journal (World m [])).2 in
  let w2 := (rotate_cache 90100 w1).2 in
  let w3 := (update get_cache [early] ∅ ∅ w2).2 in
  let w4 := (apply_journal w3).2 in
  (get_tasks Archived w4).1 = Ok [early; late].
Proof. vm_compute. reflexivity. Qed.
End TickDemo.
