(* ===== verification/TaskList.v ===== *)
(** * Listing and tracking remote tasks

    Model of [get_tasks] and [track_running_*_task] of
    [server/src/remote_tasks/mod.rs] and of the handlers of
    [server/src/api/remotes/tasks.rs] on top of them, with the types
    [TaskStateType], [TaskListItem], [TaskFilters], [TaskCount] and
    [TaskStatistics] of [lib/pdm-api-types/src/lib.rs].

    Not under [src/], hence parameters: the fields and the textual form of the
    native UPIDs (class [UpidFields]) and [CachedUserInfo] (record [user]). *)

From S2P Require Import Prelude FileSystem RemoteUpid SectionConfig Resource Views ResourceList TaskItems TaskCache TaskArchive TaskJournal TaskRotate TaskUpdate ParallelFetcher RefreshTask.

Module TaskStateType.
Inductive t : Type := OK | Warning | Error | Unknown.

#[global] Instance eq_dec : EqDecision t.
Proof. solve_decision. Defined.

Definition new_from_str (status : string) : t :=
  if String.eqb status "unknown" || String.eqb status "" then Unknown
  else if String.eqb status "OK" then OK
  else if starts_with "WARNINGS: " status then Warning
  else Error.
End TaskStateType.

Record TaskListItem : Type := mkListItem {
  tl_upid : string;
  tl_node : string;
  tl_pid : Z;
  tl_pstart : Z;
  tl_starttime : Z;
  tl_worker_type : string;
  tl_worker_id : option string;
  tl_user : string;
  tl_endtime : option Z;
  tl_status : option string;
}.

Record TaskFilters : Type := mkFilters {
  tf_start : Z;
  tf_limit : Z;
  tf_errors : bool;
  tf_running : bool;
  tf_userfilter : option string;
  tf_since : option Z;
  tf_until : option Z;
  tf_typefilter : option string;
  tf_statusfilter : option (list TaskStateType.t);
}.

(** What the native UPIDs consist of besides the node, and how they are printed. *)
Record upid_fields : Type := mkFields {
  uf_pid : Z;
  uf_pstart : Z;
  uf_starttime : Z;
  uf_worker_type : string;
  uf_worker_id : option string;
  uf_auth_id : string;
}.

Class UpidFields `{NativeUpids} := {
  pve_fields : PveUpid → upid_fields;
  pbs_fields : PbsUpid → upid_fields;
  pve_to_string : PveUpid → string;
  pbs_to_string : PbsUpid → string;
}.

Class UpidPrintLaws `{UpidFields} : Prop := {
  pve_parse_print u : pve_parse (pve_to_string u) = Some u;
  pbs_parse_print u : pbs_parse (pbs_to_string u) = Some u;
  (** the two formats have different numbers of fields *)
  pve_parse_pbs u : pve_parse (pbs_to_string u) = None;
}.

(** ** Listing *)

Section listing.
Context `{SafeIdRegex} `{UpidFields} `{TaskCodec}.

Definition node_visible (view : option ViewConfig) (check_privs : string → bool) (remote node : string) : bool :=
  match view with
  | Some view => is_node_included view remote node
  | None => check_privs remote
  end.

(** The closure of [filter_map]. *)
Definition to_list_item (remote_filter : option string) (check_privs : string → bool)
    (view : option ViewConfig) (task : TaskCacheItem) : option TaskListItem :=
  let remote := ru_remote (item_upid task) in
  if match remote_filter with Some f => negb (String.eqb remote f) | None => false end then None else
  match native_upid (item_upid task) with
  | Ok (NativePve u) =>
      if negb (node_visible view check_privs remote (pve_node u)) then None else
      let f := pve_fields u in
      Some (mkListItem (remote_upid_to_string (item_upid task)) (pve_node u) (uf_pid f) (uf_pstart f)
              (uf_starttime f) (uf_worker_type f) None (uf_auth_id f) (item_endtime task) (item_status task))
  | Ok (NativePbs u) =>
      if negb (node_visible view check_privs remote (pbs_node u)) then None else
      let f := pbs_fields u in
      Some (mkListItem (remote_upid_to_string (item_upid task)) (pbs_node u) (uf_pid f) (uf_pstart f)
              (uf_starttime f) (uf_worker_type f) (uf_worker_id f) (uf_auth_id f) (item_endtime task)
              (item_status task))
  | Err _ => None
  end.

Definition status_matches (filters : TaskFilters) (status : option string) : bool :=
  match TaskStateType.new_from_str <$> status, tf_statusfilter filters with
  | Some state, statusfilter =>
      if bool_decide (state = TaskStateType.OK) && tf_errors filters then false
      else match statusfilter with
           | Some allowed => bool_decide (state ∈ allowed)
           | None => true
           end
  | None, Some _ => false
  | None, None => negb (tf_errors filters)
  end.

(** The closure of [filter]. *)
Definition filter_matches (filters : TaskFilters) (item : TaskListItem) : bool :=
  if tf_running filters && (if tl_endtime item is Some _ then true else false) then false else
  if (if tf_until filters is Some until then until <? tl_starttime item else false) then false else
  if (if tf_since filters is Some since then tl_starttime item <? since else false) then false else
  if (if tf_userfilter filters is Some needle then negb (str_contains needle (tl_user item)) else false)
  then false else
  if (if tf_typefilter filters is Some ty then negb (str_contains ty (tl_worker_type item)) else false)
  then false else
  status_matches filters (tl_status item).

(** [take(limit)], where 0 stands for [usize::MAX], more than any list has. *)
Definition take_limit {A} (limit : Z) (l : list A) : list A :=
  if limit =? 0 then l else take (Z.to_nat limit) l.

(** The items of a request, of the tasks in the cache. *)
Definition list_items (filters : TaskFilters) (remote_filter : option string) (check_privs : string → bool)
    (view : option ViewConfig) (tasks : list TaskCacheItem) : list TaskListItem :=
  take_limit (tf_limit filters)
    (drop (Z.to_nat (tf_start filters))
       (filter (λ item, filter_matches filters item = true)
          (omap (M := list) (to_list_item remote_filter check_privs view) tasks))).

(** [get_tasks].  The iterators are lazy: when [limit] items have been found no
    more files are read, and only the corrupted files noticed so far (the first
    [noticed]) are repaired. *)
Definition get_tasks (views : result error (option ViewConfig)) (filters : TaskFilters)
    (remote_filter : option string) (check_privs : string → bool) (noticed : nat) : io (list TaskListItem) :=
  view ← io_lift views;
  '(tasks, corrupted) ← get_tasks_impl (if tf_running filters then Active else All);
  let returned := list_items filters remote_filter check_privs view tasks in
  let corrupted :=
    if negb (tf_limit filters =? 0) && (tf_limit filters <=? Z.of_nat (length returned))
    then take noticed corrupted else corrupted in
  _ ← match corrupted with
      | [] => mret tt
      | _ => _ ← io_try (request_repair corrupted); mret tt
      end;
  mret returned.

(** ** The handlers *)

Section handlers.
Context {VC : Type} `{SectionConfigData VC ViewConfig} (views : result error VC).

Definition remote_audit (u : user) (remote_name : string) : bool :=
  match check_privs u ["resource"%string; remote_name] PRIV_RESOURCE_AUDIT with Ok _ => true | Err _ => false end.

Definition list_tasks (u : user) (filters : TaskFilters) (remote view : option string) (noticed : nat)
    : io (list TaskListItem) :=
  _ ← io_lift (match view with
               | Some view => check_privs u ["view"%string; view] PRIV_RESOURCE_AUDIT
               | None => Ok tt
               end);
  get_tasks (get_optional_view views view) filters remote (remote_audit u) noticed.

Record TaskCount : Type := mkTaskCount { tc_ok : Z; tc_warning : Z; tc_error : Z; tc_unknown : Z }.

Definition task_count_default : TaskCount := mkTaskCount 0 0 0 0.

Definition count_status (status : TaskStateType.t) (c : TaskCount) : TaskCount :=
  match status with
  | TaskStateType.OK => mkTaskCount (tc_ok c + 1) (tc_warning c) (tc_error c) (tc_unknown c)
  | TaskStateType.Warning => mkTaskCount (tc_ok c) (tc_warning c + 1) (tc_error c) (tc_unknown c)
  | TaskStateType.Error => mkTaskCount (tc_ok c) (tc_warning c) (tc_error c + 1) (tc_unknown c)
  | TaskStateType.Unknown => mkTaskCount (tc_ok c) (tc_warning c) (tc_error c) (tc_unknown c + 1)
  end.

(** [entry(key).or_default()], then one of its counters. *)
Definition count_entry (key : string) (status : TaskStateType.t) (m : gmap string TaskCount) : gmap string TaskCount :=
  <[key := count_status status (default task_count_default (m !! key))]> m.

Record TaskStatistics : Type := mkStatistics {
  by_type : gmap string TaskCount;
  by_remote : gmap string TaskCount;
}.

Definition count_task (s : TaskStatistics) (task : TaskListItem) : TaskStatistics :=
  match tl_status task with
  | None => s
  | Some status =>
      let status := TaskStateType.new_from_str status in
      let by_type := count_entry (tl_worker_type task) status (by_type s) in
      match remote_upid_from_str (tl_upid task) with
      | Ok upid => mkStatistics by_type (count_entry (ru_remote upid) status (by_remote s))
      | Err _ => mkStatistics by_type (by_remote s)
      end
  end.

Definition statistics_of (tasks : list TaskListItem) : TaskStatistics :=
  foldl count_task (mkStatistics ∅ ∅) tasks.

Definition task_statistics (u : user) (filters : TaskFilters) (remote view : option string) (noticed : nat)
    : io TaskStatistics :=
  tasks ← list_tasks u filters remote view noticed;
  mret (statistics_of tasks).
End handlers.

(** The seventh bit of [PRIVILEGES]. *)
Definition PRIV_RESOURCE_MODIFY : Z := Z.shiftl 1 6.

(** [refresh_remote_tasks], the remotes the worker is started with. *)
Section refresh.
Context {C : Type} `{SectionConfigData C Remote}.

Definition may_modify (u : user) (remote : string) : bool :=
  match check_privs u ["resource"%string; remote] PRIV_RESOURCE_MODIFY with Ok _ => true | Err _ => false end.

Fixpoint requested_remotes (u : user) (config : C) (remotes : list string) : result error (list Remote) :=
  match remotes with
  | [] => Ok []
  | remote :: remotes' =>
      _ ← bail_if (negb (may_modify u remote)) (EMsg "user has no access to this remote");
      r ← ok_or (sc_get config remote) (EMsg "remote does not exist");
      rs ← requested_remotes u config remotes';
      Ok (r :: rs)
  end.

Definition remotes_to_refresh (u : user) (config : C) (remotes : option (list string))
    : result error (list Remote) :=
  match remotes with
  | Some remotes => requested_remotes u config remotes
  | None =>
      any ← any_privs_below u ["resource"%string] PRIV_RESOURCE_MODIFY;
      _ ← bail_if (negb any) (EMsg "user has no access to resources");
      Ok (omap (M := list) (λ '(remote_name, remote), if may_modify u remote_name then Some remote else None)
            (sc_iter config))
  end.
End refresh.

(** ** Tracking *)

Definition track_running_pve_task (remote : string) (upid : PveUpid) : io RemoteUpid :=
  remote_upid ← io_lift (try_from_pair remote (pve_to_string upid));
  _ ← add_tracked_task (mkItem remote_upid (uf_starttime (pve_fields upid)) None None);
  mret remote_upid.

Definition track_running_pbs_task (remote : string) (upid : PbsUpid) : io RemoteUpid :=
  remote_upid ← io_lift (try_from_pair remote (pbs_to_string upid));
  _ ← add_tracked_task (mkItem remote_upid (uf_starttime (pbs_fields upid)) None None);
  mret remote_upid.
End listing.

(** ** Lemmas *)

Section lemmas.
Context `{SafeIdRegex} `{UpidFields} `{TaskCodec}.

Lemma take_limit_elem {A} limit (l : list A) x : x ∈ take_limit limit l → x ∈ l.
Proof. unfold take_limit. destruct (limit =? 0); [done|]. apply subseteq_take. Qed.

Lemma list_items_elem filters remote_filter privs view tasks item :
  item ∈ list_items filters remote_filter privs view tasks →
  filter_matches filters item = true ∧
  ∃ t, t ∈ tasks ∧ to_list_item remote_filter privs view t = Some item.
Proof.
  unfold list_items. intros Hin%take_limit_elem. apply subseteq_drop in Hin.
  apply list_elem_of_filter in Hin as [Hm Hin]. split; [done|]. by apply list_elem_of_omap in Hin.
Qed.

(** An item stands for a task on a node the caller may see. *)
Lemma to_list_item_visible remote_filter privs view t item :
  to_list_item remote_filter privs view t = Some item →
  node_visible view privs (ru_remote (item_upid t)) (tl_node item) = true ∧
  tl_upid item = remote_upid_to_string (item_upid t) ∧
  tl_endtime item = item_endtime t ∧ tl_status item = item_status t ∧
  (∀ f, remote_filter = Some f → ru_remote (item_upid t) = f).
Proof.
  unfold to_list_item.
  destruct (match remote_filter with Some _ => _ | None => _ end) eqn:Hf; [done|].
  assert (∀ f, remote_filter = Some f → ru_remote (item_upid t) = f) as Hremote.
  { intros f ->. apply negb_false_iff, String.eqb_eq in Hf. done. }
  destruct (native_upid (item_upid t)) as [[u|u]|e]; [..|done];
    destruct (node_visible _ _ _ _) eqn:Hv; simpl; intros [= <-]; simpl; done.
Qed.

Lemma get_tasks_impl_readonly mode : io_rel eq (get_tasks_impl mode).
Proof.
  assert (∀ j fs, io_rel eq (task_archive_iterator j fs)) as Hit.
  { intros j fs. apply io_rel_bind; [apply _| |intros c].
    - destruct j; [apply fs_open_readonly, _|apply io_rel_ret, _].
    - apply io_rel_bind; [apply _| |intros c'].
      { destruct c; [|apply io_rel_ret, _].
        apply io_rel_bind; [apply _|apply read_journal_readonly, _|]. intros l. apply io_rel_ret, _. }
      apply io_rel_bind; [apply _|apply inner_task_archive_iterator_readonly|].
      intros [items bad]. apply io_rel_ret, _. }
  assert (io_rel eq archive_files) as Hfiles.
  { apply io_rel_bind; [apply _| |intros c; apply io_rel_ret, _].
    apply io_rel_bind; [apply _|apply fs_read_dir_readonly, _|intros c; apply io_rel_ret, _]. }
  destruct mode; unfold get_tasks_impl; [|apply Hit|];
    (apply io_rel_bind; [apply _|apply Hfiles|intros fs; apply Hit]).
Qed.
End lemmas.

Lemma request_repair_rel `{TaskCodec} corrupted : io_rel (agree_but [STATE_FILENAME]) (request_repair corrupted).
Proof.
  unfold request_repair. destruct (min_starttime corrupted); [|apply io_rel_ret, _].
  apply io_rel_bind; [apply _| |intros st].
  - intros w. pose proof (read_state_readonly w) as Hr. by rewrite Hr.
  - apply io_rel_prim; [apply _|]. intros m p Hp. simpl. rewrite lookup_insert_ne by set_solver. done.
Qed.

(** Without faults the tasks of the cache depend on the files alone, and not on
    the state file. *)
Section quiet_listing.
Context `{SafeIdRegex} `{UpidFields} `{TaskCodec} `{!TaskCodecLaws}.

Definition row_items (m : gmap string string) (fs : list ArchiveFile) : list TaskCacheItem :=
  concat (file_items m <$> fs).
Definition with_journal (m : gmap string string) (items : list TaskCacheItem) : list TaskCacheItem :=
  match m !! WAL_FILENAME with Some c => merge_iter (journal_iterator c) items | None => items end.
Definition tasks_of (mode : GetTasks) (m : gmap string string) : list TaskCacheItem :=
  match mode with
  | All => with_journal m (row_items m (active_file :: archive_list m))
  | Active => row_items m [active_file]
  | Archived => with_journal m (row_items m (archive_list m))
  end.

Lemma task_archive_iterator_quiet (j : bool) fs m0 :
  quiet (λ m, m = m0) (task_archive_iterator j fs)
    (λ r m, m = m0 ∧ r.1 = (if j then with_journal m0 else (λ l, l)) (row_items m0 (reverse fs))).
Proof.
  eapply quiet_bind with (R := λ c m, m = m0 ∧ c = if j then m0 !! WAL_FILENAME else None).
  { destruct j; [|by apply quiet_ret].
    eapply quiet_conseq; [apply (quiet_open (λ m, m = m0))|done|]. by intros a m [-> ->]. }
  intros c. apply quiet_from. intros m1 [-> ->].
  eapply quiet_bind with (R := λ c m, m = m0 ∧ c = if j then journal_iterator <$> m0 !! WAL_FILENAME else None).
  { destruct j; [|by apply quiet_ret]. destruct (m0 !! WAL_FILENAME) as [content|]; [|by apply quiet_ret].
    eapply quiet_bind; [apply quiet_read_journal|]. intros tasks. apply quiet_ret. by intros ? [-> ->]. }
  intros c. apply quiet_from. intros m1 [-> ->].
  eapply quiet_bind; [apply (inner_task_archive_iterator_quiet (reverse fs) m0)|].
  intros [items bad]. apply quiet_ret. simpl. intros m [-> ->]. split; [done|].
  unfold with_journal, row_items. destruct j; [|done]. by destruct (m0 !! WAL_FILENAME).
Qed.

Lemma get_tasks_impl_quiet mode m0 :
  quiet (λ m, m = m0) (get_tasks_impl mode) (λ r m, m = m0 ∧ r.1 = tasks_of mode m0).
Proof.
  assert (quiet (λ m, m = m0) archive_files (λ fs m, m = m0 ∧ fs = archive_list m0)) as Hfiles.
  { intros m1 ->. by exists (archive_list m0), m0. }
  assert (∀ j fs l, reverse fs = l →
    quiet (λ m, m = m0) (task_archive_iterator j fs)
      (λ r m, m = m0 ∧ r.1 = (if j then with_journal m0 else (λ l, l)) (row_items m0 l))) as Hit.
  { intros j fs l <-. apply task_archive_iterator_quiet. }
  destruct mode; unfold get_tasks_impl.
  - eapply quiet_bind; [apply Hfiles|]. intros fs. apply quiet_from. intros m1 [-> ->].
    apply (Hit true). by rewrite reverse_app, reverse_involutive.
  - by apply (Hit false).
  - eapply quiet_bind; [apply Hfiles|]. intros fs. apply quiet_from. intros m1 [-> ->].
    apply (Hit true). by rewrite reverse_involutive.
Qed.

(** What is listed does not depend on the state file. *)
Lemma tasks_of_state mode m m' :
  names_ok m → agree_but [STATE_FILENAME] m m' → tasks_of mode m' = tasks_of mode m.
Proof.
  intros Hn Hag. destruct (agree_archive_list _ _ _ Hn Hag eq_refl) as [Hl _].
  assert (m' !! WAL_FILENAME = m !! WAL_FILENAME) as Hj by (symmetry; apply Hag; set_solver).
  assert (∀ fs, (∀ f, f ∈ fs → af_path f ≠ STATE_FILENAME) → row_items m' fs = row_items m fs) as Hrow.
  { intros fs Hfs. unfold row_items. f_equal. apply list_fmap_ext. intros i f Hf%list_elem_of_lookup_2.
    apply file_items_other. symmetry. apply Hag. intros Hin. apply (Hfs f Hf). set_solver. }
  assert (∀ f, f ∈ archive_list m → af_path f ≠ STATE_FILENAME) as Hpath.
  { intros f [Hp _]%archive_list_elem Heq. by rewrite Heq in Hp. }
  unfold tasks_of, with_journal. rewrite Hj, <-Hl. destruct mode; rewrite Hrow; try done.
  - intros f [->|Hf]%elem_of_cons; [done|by apply Hpath].
  - intros f ->%list_elem_of_singleton. done.
Qed.

Lemma get_tasks_quiet view filters remote_filter privs noticed m0 :
  quiet (λ m, m = m0) (get_tasks (Ok view) filters remote_filter privs noticed)
    (λ l m, agree_but [STATE_FILENAME] m0 m ∧
            l = list_items filters remote_filter privs view
                  (tasks_of (if tf_running filters then Active else All) m0)).
Proof.
  eapply quiet_bind with (R := λ v m, m = m0 ∧ v = view); [intros m ->; by exists view, m0|].
  intros v. apply quiet_from. intros m1 [-> ->].
  eapply quiet_bind; [apply get_tasks_impl_quiet|]. intros [tasks bad]. apply quiet_from.
  intros m1 [-> Ht]. simpl in Ht. subst tasks.
  cbv zeta. generalize (if negb (tf_limit filters =? 0) && (tf_limit filters <=? Z.of_nat (length
    (list_items filters remote_filter privs view (tasks_of (if tf_running filters then Active else All) m0))))
    then take noticed bad else bad) as corrupted. intros corrupted.
  eapply quiet_bind with (R := λ _ m, agree_but [STATE_FILENAME] m0 m); [|intros u; by apply quiet_ret].
  destruct corrupted as [|c cs]; [apply quiet_ret; by intros m ->|].
  eapply quiet_bind with (R := λ _ m, agree_but [STATE_FILENAME] m0 m); [|intros u; by apply quiet_ret].
  eapply quiet_conseq; [apply quiet_try, (request_repair_quiet m0)|done|].
  intros r m (u&_&->). apply repaired_agree.
Qed.
End quiet_listing.

Section tracking.
Context `{SafeIdRegex} `{UpidFields} `{TaskCodec} `{!TaskCodecLaws}.

(** The files after a task has been added to the tracked ones. *)
Definition with_tracked (t : TaskCacheItem) (m : gmap string string) : gmap string string :=
  <[STATE_FILENAME := json_of_state (state_add_tracked_task (state_of m) (item_upid t))]>
    (<[ACTIVE_FILENAME := encode_items (sort_by compare_tasks_reverse (active_items m ++ [t]))]> m).

Lemma add_tracked_task_quiet t m0 :
  quiet (λ m, m = m0) (add_tracked_task t) (λ _ m, m = with_tracked t m0).
Proof.
  unfold add_tracked_task, write_state.
  eapply quiet_bind; [apply (read_state_quiet m0)|]. intros st. apply quiet_from. intros m1 [-> ->].
  eapply quiet_bind; [apply (get_tasks_active m0)|]. intros tasks. apply quiet_from. intros m1 [-> ->].
  eapply quiet_bind.
  { eapply quiet_readable; [apply write_active_tasks_quiet|apply (write_active_tasks_triple m0)]. }
  intros u. apply quiet_from. intros m1 [_ ->]. apply quiet_replace. by intros m ->.
Qed.

Lemma with_tracked_spec t m :
  tracked_tasks (state_of (with_tracked t m)) = {[item_upid t]} ∪ tracked_tasks (state_of m) ∧
  active_items (with_tracked t m) = sort_by compare_tasks_reverse (active_items m ++ [t]) ∧
  agree_but [STATE_FILENAME; ACTIVE_FILENAME] m (with_tracked t m) ∧
  ∀ r n, cutoff_timestamp (state_of (with_tracked t m)) r n = cutoff_timestamp (state_of m) r n.
Proof.
  assert (state_of (with_tracked t m) = state_add_tracked_task (state_of m) (item_upid t)) as Hst.
  { unfold state_of at 1, with_tracked. rewrite lookup_insert_eq. by rewrite state_json_roundtrip. }
  rewrite Hst. split_and!; [done| | |done].
  - apply file_items_written. unfold with_tracked. rewrite lookup_insert_ne by done. apply lookup_insert_eq.
  - intros p Hp. unfold with_tracked. rewrite !lookup_insert_ne by set_solver. done.
Qed.
End tracking.

(** ** Properties *)

Section properties.
Context `{SafeIdRegex} `{UpidFields} `{TaskCodec} `{!TaskCodecLaws}.

(** A listing of remote tasks discloses only what its caller may see, and
    changes at most the state file (to have corrupted files repaired).  Each item
    is a task that matches the filters; if a view is given, the caller has the
    audit privilege on it and the view includes the node of the task; if none is
    given, the caller has the audit privilege on the remote of the task. *)
Theorem list_tasks_access {VC} `{SectionConfigData VC ViewConfig} (views : result error VC) (u : user)
    (filters : TaskFilters) (remote view : option string) (noticed : nat) (w w' : world)
    (l : list TaskListItem) :
  list_tasks views u filters remote view noticed w = (Ok l, w') →
  agree_but [STATE_FILENAME] (files w) (files w') ∧
  ∀ item, item ∈ l → filter_matches filters item = true ∧
    ∃ upid, tl_upid item = remote_upid_to_string upid ∧
      (∀ f, remote = Some f → ru_remote upid = f) ∧
      match view with
      | Some v => check_privs u ["view"%string; v] PRIV_RESOURCE_AUDIT = Ok tt ∧
                  ∃ config vc, views = Ok config ∧ sc_get config v = Some vc ∧
                    is_node_included vc (ru_remote upid) (tl_node item) = true
      | None => check_privs u ["resource"%string; ru_remote upid] PRIV_RESOURCE_AUDIT = Ok tt
      end.
Proof.
  unfold list_tasks. rewrite io_bind_run. unfold io_lift at 1.
  destruct (match view with Some _ => _ | None => _ end) as [[]|e] eqn:Hpriv; [|done].
  unfold get_tasks. rewrite io_bind_run. unfold io_lift.
  destruct (get_optional_view views view) as [vc|e] eqn:Hview; [|done].
  rewrite io_bind_run. set (mode := if tf_running filters then Active else All).
  pose proof (get_tasks_impl_readonly mode w) as Hro.
  destruct (get_tasks_impl mode w) as [[[tasks bad]|e] w1]; simpl in Hro; [|done].
  set (items := list_items filters remote (remote_audit u) vc tasks). cbv zeta.
  generalize (if negb (tf_limit filters =? 0) && (tf_limit filters <=? Z.of_nat (length items))
    then take noticed bad else bad) as corrupted. intros corrupted Hrun.
  assert (l = items ∧ agree_but [STATE_FILENAME] (files w1) (files w')) as [-> Hag].
  { rewrite io_bind_run in Hrun. destruct corrupted as [|c cs]; [by injection Hrun as <- <-|].
    rewrite io_bind_run in Hrun. unfold io_try in Hrun.
    pose proof (request_repair_rel (c :: cs) w1) as Htr.
    destruct (request_repair (c :: cs) w1) as [[a|e] w2]; injection Hrun as <- <-; done. }
  rewrite Hro. split; [done|]. intros item [Hm (t&_&Ht)]%list_items_elem. split; [done|].
  apply to_list_item_visible in Ht as (Hv&Hu&_&_&Hr). exists (item_upid t). split; [done|]. split; [done|].
  destruct view as [v|]; simpl in Hview.
  - destruct (get_view views v) as [vc'|] eqn:Hg; simplify_eq/=. split; [done|].
    unfold get_view in Hg. destruct views as [config|]; simpl in Hg; [|done].
    exists config, vc'. split; [done|]. split; [|done]. by apply ok_or_Ok in Hg.
  - simplify_eq/=. unfold remote_audit in Hv. by destruct (check_privs _ _ _) as [[]|].
Qed.

(** The request for a page of the same listing. *)
Definition page (filters : TaskFilters) (start limit : Z) : TaskFilters :=
  mkFilters start limit (tf_errors filters) (tf_running filters) (tf_userfilter filters)
    (tf_since filters) (tf_until filters) (tf_typefilter filters) (tf_statusfilter filters).

(** Consecutive pages of a listing fit together: asking for [a] items and
    then for the next [b] gives what asking for [a + b] items at once gives, even
    though each request may reset cut-offs because of corrupted files it noticed;
    and without a limit everything from [start] on is returned. *)
Theorem list_tasks_pages (view : option ViewConfig) (filters : TaskFilters)
    (remote_filter : option string) (privs : string → bool) (start a b : Z) (n1 n2 n3 : nat)
    (m : gmap string string) :
  names_ok m → 0 ≤ start → 0 < a → 0 < b →
  ∃ l1 l2 m1 m2 m3,
    get_tasks (Ok view) (page filters start a) remote_filter privs n1 (World m []) = (Ok l1, World m1 []) ∧
    get_tasks (Ok view) (page filters (start + a) b) remote_filter privs n2 (World m1 []) = (Ok l2, World m2 []) ∧
    get_tasks (Ok view) (page filters start (a + b)) remote_filter privs n3 (World m []) = (Ok (l1 ++ l2), World m3 []).
Proof.
  intros Hn Hs Ha Hb.
  destruct (get_tasks_quiet view (page filters start a) remote_filter privs n1 m m eq_refl)
    as (l1&m1&Hrun1&Hag1&->).
  destruct (get_tasks_quiet view (page filters (start + a) b) remote_filter privs n2 m1 m1 eq_refl)
    as (l2&m2&Hrun2&_&->).
  destruct (get_tasks_quiet view (page filters start (a + b)) remote_filter privs n3 m m eq_refl)
    as (l3&m3&Hrun3&_&Hl3).
  rewrite (tasks_of_state _ _ _ Hn Hag1) in Hrun2. simpl in *.
  set (tasks := tasks_of _ m) in *.
  eexists _, _, m1, m2, m3. split; [exact Hrun1|]. split; [exact Hrun2|]. rewrite Hrun3, Hl3.
  do 2 f_equal. unfold list_items, take_limit. cbn [page tf_limit tf_start].
  rewrite !(proj2 (Z.eqb_neq _ 0)) by lia. change (filter_matches (page filters start (a + b)))
    with (filter_matches filters). change (filter_matches (page filters start a)) with (filter_matches filters).
  change (filter_matches (page filters (start + a) b)) with (filter_matches filters).
  set (all := filter _ (omap _ tasks)). rewrite !Z2Nat.inj_add by lia.
  rewrite <-drop_drop, take_take_drop. done.
Qed.

(** How many of the items have the key [k] and the status [st]. *)
Definition tally (key : TaskListItem → option string) (k : string) (st : TaskStateType.t)
    (l : list TaskListItem) : Z :=
  Z.of_nat (length (filter (λ i, key i = Some k ∧ TaskStateType.new_from_str <$> tl_status i = Some st) l)).

Definition tallies (key : TaskListItem → option string) (k : string) (l : list TaskListItem) : TaskCount :=
  mkTaskCount (tally key k TaskStateType.OK l) (tally key k TaskStateType.Warning l)
    (tally key k TaskStateType.Error l) (tally key k TaskStateType.Unknown l).

Definition item_remote (i : TaskListItem) : option string :=
  ru_remote <$> result_ok (remote_upid_from_str (tl_upid i)).

Lemma tally_snoc key k st l i :
  tally key k st (l ++ [i]) =
  tally key k st l + if decide (key i = Some k ∧ TaskStateType.new_from_str <$> tl_status i = Some st) then 1 else 0.
Proof.
  unfold tally. rewrite filter_app, length_app, Nat2Z.inj_add. f_equal. rewrite filter_cons.
  by destruct (decide _).
Qed.

Lemma tallies_snoc key k l i st :
  TaskStateType.new_from_str <$> tl_status i = Some st →
  tallies key k (l ++ [i]) = if decide (key i = Some k) then count_status st (tallies key k l) else tallies key k l.
Proof.
  intros Hst. unfold tallies. rewrite !tally_snoc, Hst.
  destruct (decide (key i = Some k)) as [Hk|Hk].
  - destruct st; simpl; f_equal;
      (rewrite decide_True by done; lia) || (rewrite decide_False by (intros []; congruence); lia).
  - rewrite !decide_False by tauto. f_equal; lia.
Qed.

Lemma tallies_snoc_none key k l i : tl_status i = None → tallies key k (l ++ [i]) = tallies key k l.
Proof.
  intros Hst. unfold tallies. rewrite !tally_snoc, Hst. simpl.
  rewrite !decide_False by (intros []; congruence). f_equal; lia.
Qed.

Lemma count_entry_lookup k k' st (cm : gmap string TaskCount) :
  default task_count_default (count_entry k st cm !! k') =
  if decide (k = k') then count_status st (default task_count_default (cm !! k'))
  else default task_count_default (cm !! k').
Proof.
  unfold count_entry. destruct (decide (k = k')) as [->|Hne].
  - by rewrite lookup_insert_eq.
  - by rewrite lookup_insert_ne.
Qed.

(** The statistics count every listed task that has a status exactly once
    under its worker type and once under the remote of its UPID, by what its
    status says. *)
Theorem statistics_counts (l : list TaskListItem) (k : string) :
  default task_count_default (by_type (statistics_of l) !! k) = tallies (λ i, Some (tl_worker_type i)) k l ∧
  default task_count_default (by_remote (statistics_of l) !! k) = tallies item_remote k l.
Proof.
  unfold statistics_of. induction l as [|i l IH] using rev_ind; [done|].
  rewrite foldl_app. simpl. destruct IH as [IH1 IH2]. set (s := foldl count_task _ l) in *.
  unfold count_task. destruct (tl_status i) as [status|] eqn:Hs.
  2: { by rewrite !tallies_snoc_none. }
  assert (TaskStateType.new_from_str <$> tl_status i = Some (TaskStateType.new_from_str status)) as Hst
    by by rewrite Hs.
  rewrite !(tallies_snoc _ _ _ _ _ Hst), <-IH1, <-IH2.
  set (st := TaskStateType.new_from_str status).
  assert (default task_count_default (count_entry (tl_worker_type i) st (by_type s) !! k) =
    if decide (Some (tl_worker_type i) = Some k) then count_status st (default task_count_default (by_type s !! k))
    else default task_count_default (by_type s !! k)) as Hty.
  { rewrite count_entry_lookup. apply decide_ext. naive_solver. }
  unfold item_remote. destruct (remote_upid_from_str (tl_upid i)) as [upid|e]; simpl; (split; [exact Hty|]).
  - rewrite count_entry_lookup. apply decide_ext. naive_solver.
  - done.
Qed.

(** Tracking a task that was just started on a PVE remote: without faults it
    returns the UPID of the task on that remote; the task is then among the
    running ones, no task that was running is dropped, no cut-off moves, no task
    of the archive is touched, and the next timer tick polls it. *)
Theorem tracked_task_polled `{!UpidPrintLaws} {C} `{SectionConfigData C Remote} (remote : string)
    (upid : PveUpid) (m : gmap string string) (env : tick_env C) (s : TaskState) :
  SAFE_ID_REGEX remote = true →
  let u := mkRemoteUpid remote RemoteType.Pve (pve_to_string upid) in
  ∃ m', track_running_pve_task remote upid (World m []) = (Ok u, World m' []) ∧
    native_upid u = Ok (NativePve upid) ∧
    (∀ v, v ∈ item_upid <$> active_items m' ↔ v = u ∨ v ∈ item_upid <$> active_items m) ∧
    agree_but [STATE_FILENAME; ACTIVE_FILENAME] m m' ∧
    (∀ r n, cutoff_timestamp (state_of m') r n = cutoff_timestamp (state_of m) r n) ∧
    u ∈ polled env s m'.
Proof.
  intros Hsafe u. set (t := mkItem u (uf_starttime (pve_fields upid)) None None).
  exists (with_tracked t m). destruct (with_tracked_spec t m) as (Htr&Hact&Hag&Hcut). split_and!.
  - unfold track_running_pve_task. rewrite io_bind_run. unfold io_lift, try_from_pair, deduce_type.
    rewrite Hsafe, pve_parse_print. simpl. rewrite io_bind_run.
    change (mkItem _ _ _ _) with t.
    destruct (add_tracked_task_quiet t m m eq_refl) as ([]&m'&Hrun&->). by rewrite Hrun.
  - unfold native_upid. simpl. by rewrite pve_parse_print.
  - intros v. rewrite Hact, sort_by_perm, fmap_app, elem_of_app. simpl. rewrite list_elem_of_singleton. tauto.
  - done.
  - done.
  - unfold polled. destruct (is_due_for_active_poll _ s); rewrite Htr; set_solver.
Qed.

(** Refreshing fetches only from remotes that the caller may modify: all of those
    if none are named, else the named ones. *)
Lemma remotes_to_refresh_spec {C} `{SectionConfigLaws C Remote} (u : user) (config : C)
    (remotes : option (list string)) (l : list Remote) :
  remotes_to_refresh u config remotes = Ok l →
  ∀ r, r ∈ l ↔ ∃ name, sc_get config name = Some r ∧ may_modify u name = true ∧
                       (∀ names, remotes = Some names → name ∈ names).
Proof.
  destruct remotes as [names|]; simpl.
  - enough (∀ l, requested_remotes u config names = Ok l →
      ∀ r, r ∈ l ↔ ∃ name, sc_get config name = Some r ∧ may_modify u name = true ∧ name ∈ names) as Hgen.
    { intros Hl r. rewrite (Hgen l Hl r). naive_solver. }
    clear l. induction names as [|name names IH]; intros l Hl; simpl in Hl; [simplify_eq/=; set_solver|].
    run_ok Hl. simplify_eq/=. specialize (IH _ Hrun1). intros r.
    match goal with H : negb _ = false |- _ => apply negb_false_iff in H end.
    rewrite elem_of_cons, IH. setoid_rewrite elem_of_cons. naive_solver.
  - intros Hl. run_ok Hl. simplify_eq/=. intros r. rewrite list_elem_of_omap. split.
    + intros ([name r']&Hin&Hr). apply sc_iter_get in Hin. exists name.
      destruct (may_modify u name) eqn:Hm; simplify_eq. done.
    + intros (name&Hg&Hm&_). exists (name, r). rewrite Hm. split; [|done]. by apply sc_iter_get.
Qed.
End properties.

(** ** Witnesses *)

Module ListDemo.
Import JournalDemo RotateDemo TickDemo.
#[local] Existing Instance demo_codec.
#[local] Existing Instance demo_codec_laws.
#[local] Existing Instance safe_id_regex_impl.

(** UPIDs are their text behind the prefix, which is the node as well. *)
Definition text_upids : NativeUpids := {|
  PveUpid := string; PbsUpid := string;
  pve_parse s := strip_prefix "UPID:" s; pbs_parse s := strip_prefix "UPID+" s;
  pve_node n := n; pbs_node n := n;
|}.
#[local] Existing Instance text_upids.
Definition text_fields : UpidFields := {|
  pve_fields n := mkFields 1 2 3 "qmstart" None "root@pam";
  pbs_fields n := mkFields 1 2 3 "backup" None "root@pam";
  pve_to_string n := ("UPID:" +:+ n)%string; pbs_to_string n := ("UPID+" +:+ n)%string;
|}.
#[local] Existing Instance text_fields.
#[local] Instance text_laws : UpidPrintLaws.
Proof. split; done. Qed.

(** May audit [pve1] and nothing else. *)
Definition auditor : user :=
  mkUser (λ _, 0)
    (λ path _, if decide (path = ["resource"; "pve1"]%string) then Ok tt else Err (EMsg "permission check failed"))
    (λ _ _, Ok true).

Definition no_filters : TaskFilters := mkFilters 0 50 false false None None None None None.
Definition no_views : result error (gmap string ViewConfig) := Ok ∅.
#[local] Instance demo_views : SectionConfigData (gmap string ViewConfig) ViewConfig := gmap_config.
#[local] Instance demo_remotes : SectionConfigData (gmap string Remote) Remote := gmap_config.

Definition demo_list : list TaskListItem :=
  match (list_tasks no_views auditor no_filters None None 0 (World demo_files [])).1 with
  | Ok l => l
  | Err _ => []
  end.

Lemma list_tasks_access_witness :
  length demo_list = 2%nat ∧
  ∀ item, item ∈ demo_list → ∃ upid, tl_upid item = remote_upid_to_string upid ∧
    check_privs auditor ["resource"%string; ru_remote upid] PRIV_RESOURCE_AUDIT = Ok tt.
Proof.
  split; [vm_compute; reflexivity|]. intros item Hin.
  destruct (list_tasks no_views auditor no_filters None None 0 (World demo_files [])) as [r w'] eqn:E.
  unfold demo_list in Hin. rewrite E in Hin. destruct r as [l|e]; simpl in Hin.
  - destruct (list_tasks_access _ _ _ _ _ _ _ _ _ E) as [_ Hl].
    destruct (Hl item Hin) as (_&upid&Hu&_&Hp). exists upid. split; [exact Hu|exact Hp].
  - exfalso. vm_compute in E. discriminate E.
Defined.

Lemma list_tasks_pages_witness :
  ∃ l1 l2 m1 m2 m3,
    get_tasks (Ok None) (page no_filters 0 1) None (λ _, true) 0 (World demo_files []) = (Ok l1, World m1 []) ∧
    get_tasks (Ok None) (page no_filters (0 + 1) 5) None (λ _, true) 0 (World m1 []) = (Ok l2, World m2 []) ∧
    get_tasks (Ok None) (page no_filters 0 (1 + 5)) None (λ _, true) 0 (World demo_files []) =
      (Ok (l1 ++ l2), World m3 []).
Proof.
  apply (list_tasks_pages None no_filters None (λ _, true) 0 1 5 0 0 0 demo_files); [apply demo_names_ok|lia..].
Defined.

Definition demo_upid : @PveUpid text_upids := "n1"%string.

Lemma tracked_task_polled_witness :
  ∃ m', track_running_pve_task "pve1" demo_upid (World demo_files []) =
          (Ok (mkRemoteUpid "pve1" RemoteType.Pve "UPID:n1"), World m' []) ∧
        mkRemoteUpid "pve1" RemoteType.Pve "UPID:n1" ∈ polled (demo_env 5) demo_due m'.
Proof.
  destruct (tracked_task_polled "pve1" demo_upid demo_files (demo_env 5) demo_due)
    as (m'&Hrun&_&_&_&_&Hpoll); [reflexivity|].
  exists m'. split; [exact Hrun|exact Hpoll].
Defined.
End ListDemo.
