(* ===== verification/NamespacedCache.v ===== *)
(** * Namespaced cache

    Model of [server/src/namespaced_cache.rs]: values stored as JSON files
    [<namespace>/<key>.json] below a base directory, with a timestamp that
    decides on expiry.  File names are relative to the base directory.

    [CacheError] is represented in [error]: [Io] as [ENotFound]/[EIo], [Serde]
    as [EInvalid], [InvalidKey]/[InvalidNamespace] as [EMsg] of their messages.
    The current time ([proxmox_time::epoch_i64]) is an argument [now] of the
    operations that read the clock.  [open_file_locked] of [proxmox_sys] creates
    the lock file and may fail (time-out); a guard that was returned stands for
    the lock being held, so the operations on it run alone.  A closure given to
    [tokio::task::spawn_blocking] runs to its end on another thread; a
    [JoinError] would need a panic in it, and the closures here do not panic.

    Not under [src/], hence parameters: [SAFE_ID_REGEX] and the JSON encoding of
    an entry (class [EntryCodec]). *)

From S2P Require Import Prelude FileSystem RemoteUpid.

Record CacheEntry (T : Type) : Type := mkCacheEntry { entry_timestamp : Z; entry_value : T }.
Arguments mkCacheEntry {T}.
Arguments entry_timestamp {T}.
Arguments entry_value {T}.

(** [serde_json::to_vec] may refuse a value; what it writes can be read back. *)
Class EntryCodec (T : Type) := {
  entry_to_json : CacheEntry T → option string;
  entry_of_json : string → option (CacheEntry T);
}.

Class EntryCodecLaws (T : Type) `{EntryCodec T} : Prop := {
  entry_json_roundtrip e s : entry_to_json e = Some s → entry_of_json s = Some e;
  entry_json_utf8 e s : entry_to_json e = Some s → utf8_valid s = true;
}.

(** [now - self.timestamp] is an [i64] subtraction. *)
Definition is_expired {T} (e : CacheEntry T) (now max_age : Z) : bool :=
  if max_age =? 0 then true
  else let diff := as_i64 (now - entry_timestamp e) in (max_age <=? diff) || (diff <? 0).
#[global] Arguments is_expired : simpl never.

Definition get_path (namespace key : string) : string := namespace +:+ "/" +:+ key +:+ ".json".
Definition get_lockfile (namespace : string) : string := "." +:+ namespace +:+ ".lock".

(** [proxmox_sys::fs::file_read_optional_string] *)
Definition file_read_optional_string (path : string) : io (option string) :=
  content ← fs_open path;
  match content with
  | Some c => if utf8_valid c then mret (Some c) else io_fail EIo
  | None => mret None
  end.

(** The directory of the namespace is created on demand; directories are
    implicit in the model. *)
Definition create_path (namespace : string) : io unit := fs_sync.

(** [ReadableInner] and [WritableInner], without the lock handle and the
    create options. *)
Record ReadableInner : Type := mkReadable { ri_namespace : string }.
Record WritableInner : Type := mkWritable { wi_namespace : string }.

Section cache.
Context `{SafeIdRegex}.

Definition ensure_valid_key (key : string) : result error unit :=
  bail_if (negb (SAFE_ID_REGEX key)) (EMsg ("invalid key: '" +:+ key +:+ "'")).
Definition ensure_valid_namespace (namespace : string) : result error unit :=
  bail_if (negb (SAFE_ID_REGEX namespace)) (EMsg ("invalid namespace: '" +:+ namespace +:+ "'")).

Definition lock_namespace_impl_blocking (namespace : string) : io unit :=
  fs_open_append (get_lockfile namespace).
Definition lock_namespace_impl (namespace : string) : io unit :=
  fs_open_append (get_lockfile namespace).

Definition write_blocking (namespace : string) : io WritableInner :=
  _ ← io_lift (ensure_valid_namespace namespace);
  _ ← lock_namespace_impl_blocking namespace;
  mret (mkWritable namespace).
Definition write (namespace : string) : io WritableInner :=
  _ ← io_lift (ensure_valid_namespace namespace);
  _ ← lock_namespace_impl namespace;
  mret (mkWritable namespace).
Definition read_blocking (namespace : string) : io ReadableInner :=
  _ ← io_lift (ensure_valid_namespace namespace);
  _ ← lock_namespace_impl_blocking namespace;
  mret (mkReadable namespace).
Definition read (namespace : string) : io ReadableInner :=
  _ ← io_lift (ensure_valid_namespace namespace);
  _ ← lock_namespace_impl namespace;
  mret (mkReadable namespace).

Definition remove_impl (inner : WritableInner) (key : string) : io unit :=
  _ ← io_lift (ensure_valid_key key);
  let path := get_path (wi_namespace inner) key in
  r ← io_try (fs_remove path);
  match r with
  | Err ENotFound => mret tt
  | Err err => io_fail err
  | Ok _ => mret tt
  end.

Section value.
Context {T : Type} `{EntryCodec T}.

Definition get_from_path (now : Z) (path : string) (max_age : option Z)
    : io (option (CacheEntry T)) :=
  content ← file_read_optional_string path;
  match content with
  | Some content =>
      val ← io_lift (ok_or (entry_of_json content) EInvalid);
      match max_age with
      | Some max_age => mret (if is_expired val now max_age then None else Some val)
      | None => mret (Some val)
      end
  | None => mret None
  end.

Definition get_impl (now : Z) (namespace key : string) (max_age : option Z) : io (option T) :=
  _ ← io_lift (ensure_valid_key key);
  if bool_decide (max_age = Some 0) then mret None else
  r ← get_from_path now (get_path namespace key) max_age;
  mret (entry_value <$> r).

Definition set_at_path (inner : WritableInner) (path : string) (value : T) (timestamp : Z)
    : io unit :=
  _ ← create_path (wi_namespace inner);
  data ← io_lift (ok_or (entry_to_json (mkCacheEntry timestamp value)) EInvalid);
  fs_replace path data.

Definition set_impl (inner : WritableInner) (key : string) (value : T) (timestamp : Z) : io unit :=
  _ ← io_lift (ensure_valid_key key);
  set_at_path inner (get_path (wi_namespace inner) key) value timestamp.

Definition set_if_newer_impl (now : Z) (inner : WritableInner) (key : string) (value : T)
    (timestamp : Z) : io (option T) :=
  _ ← io_lift (ensure_valid_key key);
  let path := get_path (wi_namespace inner) key in
  existing ← io_try (get_from_path now path None);
  let override := _ ← set_at_path inner path value timestamp; mret None in
  match existing with
  | Ok (Some existing) =>
      if timestamp <? entry_timestamp existing then mret (Some (entry_value existing))
      else override
  | Ok None => override
  | Err EInvalid => override
  | Err err => io_fail err
  end.
End value.
End cache.

(** ** The four kinds of guards *)

Module BlockingReadableCacheNamespace.
Section ops.
Context `{SafeIdRegex} {T} `{EntryCodec T} (self : ReadableInner) (now : Z).
Definition get (key : string) : io (option T) := get_impl now (ri_namespace self) key None.
Definition get_with_max_age (key : string) (max_age : Z) : io (option T) :=
  get_impl now (ri_namespace self) key (Some max_age).
End ops.
End BlockingReadableCacheNamespace.

Module ReadableCacheNamespace.
Section ops.
Context `{SafeIdRegex} {T} `{EntryCodec T} (self : ReadableInner) (now : Z).
Definition get (key : string) : io (option T) := get_impl now (ri_namespace self) key None.
Definition get_with_max_age (key : string) (max_age : Z) : io (option T) :=
  get_impl now (ri_namespace self) key (Some max_age).
End ops.
End ReadableCacheNamespace.

Module BlockingWritableCacheNamespace.
Section ops.
Context `{SafeIdRegex} {T} `{EntryCodec T} (self : WritableInner) (now : Z).
Definition remove (key : string) : io unit := remove_impl self key.
Definition set (key : string) (value : T) : io unit := set_impl self key value now.
Definition set_if_newer (key : string) (value : T) : io (option T) :=
  set_if_newer_impl now self key value now.
Definition set_with_timestamp (key : string) (value : T) (timestamp : Z) : io unit :=
  set_impl self key value timestamp.
Definition set_if_newer_with_timestamp (key : string) (value : T) (timestamp : Z)
    : io (option T) := set_if_newer_impl now self key value timestamp.
Definition get (key : string) : io (option T) := get_impl now (wi_namespace self) key None.
Definition get_with_max_age (key : string) (max_age : Z) : io (option T) :=
  get_impl now (wi_namespace self) key (Some max_age).
End ops.
End BlockingWritableCacheNamespace.

Module WritableCacheNamespace.
Section ops.
Context `{SafeIdRegex} {T} `{EntryCodec T} (self : WritableInner) (now : Z).
Definition remove (key : string) : io unit := remove_impl self key.
Definition set (key : string) (value : T) : io unit := set_impl self key value now.
Definition set_if_newer (key : string) (value : T) : io (option T) :=
  set_if_newer_impl now self key value now.
Definition set_with_timestamp (key : string) (value : T) (timestamp : Z) : io unit :=
  set_impl self key value timestamp.
Definition set_if_newer_with_timestamp (key : string) (value : T) (timestamp : Z)
    : io (option T) := set_if_newer_impl now self key value timestamp.
Definition get (key : string) : io (option T) := get_impl now (wi_namespace self) key None.
Definition get_with_max_age (key : string) (max_age : Z) : io (option T) :=
  get_impl now (wi_namespace self) key (Some max_age).
End ops.
End WritableCacheNamespace.

(** ** Paths *)

Lemma get_path_inj `{SafeIdLaws} ns key ns' key' :
  SAFE_ID_REGEX ns = true → SAFE_ID_REGEX ns' = true →
  get_path ns key = get_path ns' key' → ns = ns' ∧ key = key'.
Proof.
  intros Hn Hn' Heq. unfold get_path in Heq.
  assert (∀ n k, SAFE_ID_REGEX n = true →
            split_once "/" (n +:+ "/" +:+ k +:+ ".json") = Some (n, k +:+ ".json")) as Hsplit.
  { intros n k Hs. apply (split_once_app "/" n). by apply safe_id_no_char. }
  pose proof (Hsplit ns key Hn) as H1. rewrite Heq, Hsplit in H1 by done. simplify_eq/=.
  split; [done|]. match goal with H : _ = _ |- _ => rename H into Hk end.
  pose proof (strip_suffix_app key ".json") as H2. rewrite <-Hk, strip_suffix_app in H2. congruence.
Qed.

(** ** The abstract cache

    A map from namespace and key to a timestamped value.  The operations below
    are what the files implement. *)

Section refinement.
Context {T : Type}.

Inductive cache_op : Type :=
| OpRemove (key : string)
| OpSet (key : string) (value : T) (timestamp : Z)
| OpSetIfNewer (key : string) (value : T) (timestamp : Z)
| OpGet (key : string) (max_age : option Z).

Definition op_key (op : cache_op) : string :=
  match op with OpRemove k | OpSet k _ _ | OpSetIfNewer k _ _ | OpGet k _ => k end.

Definition fresh (now : Z) (max_age : option Z) (e : CacheEntry T) : bool :=
  match max_age with Some a => negb (is_expired e now a) | None => true end.

(** What an operation on namespace [ns] at time [now] answers and does. *)
Definition abs_op (now : Z) (ns : string) (op : cache_op) (a : gmap (string * string) (CacheEntry T))
    : option T * gmap (string * string) (CacheEntry T) :=
  match op with
  | OpRemove k => (None, delete (ns, k) a)
  | OpSet k v ts => (None, <[(ns, k) := mkCacheEntry ts v]> a)
  | OpSetIfNewer k v ts =>
      match a !! (ns, k) with
      | Some e => if ts <? entry_timestamp e then (Some (entry_value e), a)
                  else (None, <[(ns, k) := mkCacheEntry ts v]> a)
      | None => (None, <[(ns, k) := mkCacheEntry ts v]> a)
      end
  | OpGet k max_age =>
      (match a !! (ns, k) with
       | Some e => if fresh now max_age e then Some (entry_value e) else None
       | None => None
       end, a)
  end.

Context `{SafeIdLaws} `{EntryCodec T, !EntryCodecLaws T}.

(** The same operation on the files, through a write guard. *)
Definition run_op (now : Z) (inner : WritableInner) (op : cache_op) : io (option T) :=
  match op with
  | OpRemove k => _ ← WritableCacheNamespace.remove inner k; mret None
  | OpSet k v ts => _ ← WritableCacheNamespace.set_with_timestamp inner k v ts; mret None
  | OpSetIfNewer k v ts => WritableCacheNamespace.set_if_newer_with_timestamp inner now k v ts
  | OpGet k None => WritableCacheNamespace.get inner now k
  | OpGet k (Some max_age) => WritableCacheNamespace.get_with_max_age inner now k max_age
  end.

(** The content of one file. *)
Definition stored (m : gmap string string) (path : string) (o : option (CacheEntry T)) : Prop :=
  match o with
  | Some e => ∃ s, entry_to_json e = Some s ∧ m !! path = Some s
  | None => m !! path = None
  end.

Definition represents (m : gmap string string) (a : gmap (string * string) (CacheEntry T)) : Prop :=
  ∀ ns key, SAFE_ID_REGEX ns = true → SAFE_ID_REGEX key = true →
    stored m (get_path ns key) (a !! (ns, key)).

Lemma represents_set m a ns key e s :
  represents m a → SAFE_ID_REGEX ns = true → SAFE_ID_REGEX key = true → entry_to_json e = Some s →
  represents (<[get_path ns key := s]> m) (<[(ns, key) := e]> a).
Proof.
  intros Hrep Hn Hk Hs ns' key' Hn' Hk'. unfold stored. destruct (decide ((ns, key) = (ns', key'))) as [[= <- <-]|Hne].
  - rewrite !lookup_insert_eq. eauto.
  - rewrite lookup_insert_ne by done. rewrite lookup_insert_ne; [by apply Hrep|].
    intros [-> ->]%get_path_inj; done.
Qed.

Lemma represents_remove m a ns key :
  represents m a → SAFE_ID_REGEX ns = true → SAFE_ID_REGEX key = true →
  represents (delete (get_path ns key) m) (delete (ns, key) a).
Proof.
  intros Hrep Hn Hk ns' key' Hn' Hk'. unfold stored. destruct (decide ((ns, key) = (ns', key'))) as [[= <- <-]|Hne].
  - by rewrite !lookup_delete_eq.
  - rewrite lookup_delete_ne by done. rewrite lookup_delete_ne; [by apply Hrep|].
    intros [-> ->]%get_path_inj; done.
Qed.

(** What a read at some time makes of a stored entry. *)
Definition read_entry (now : Z) (max_age : option Z) (o : option (CacheEntry T)) : option (CacheEntry T) :=
  match o with
  | Some e => if fresh now max_age e then Some e else None
  | None => None
  end.

Lemma get_from_path_stored m now path max_age o :
  stored m path o →
  get_from_path now path max_age (World m []) = (Ok (read_entry now max_age o), World m []).
Proof.
  intros Hst. unfold get_from_path, file_read_optional_string, fs_open.
  rewrite !io_bind_run, prim_quiet. cbv beta iota.
  destruct o as [e|]; [destruct Hst as (s&Hs&Hm)|]; cbn.
  2: { by rewrite Hst. }
  rewrite Hm, (entry_json_utf8 e s Hs). cbn. rewrite (entry_json_roundtrip e s Hs). cbn.
  unfold fresh. destruct max_age as [x|]; [|done]. rewrite io_bind_run. cbn.
  by destruct (is_expired e now x).
Qed.

(** Reading a represented file. *)
Lemma get_from_path_quiet m a now ns key max_age :
  represents m a → SAFE_ID_REGEX ns = true → SAFE_ID_REGEX key = true →
  get_from_path now (get_path ns key) max_age (World m []) =
  (Ok (match a !! (ns, key) with
       | Some e => if fresh now max_age e then Some e else None
       | None => None
       end), World m []).
Proof. intros Hrep Hn Hk. by apply get_from_path_stored, Hrep. Qed.

Lemma set_at_path_quiet m inner path v ts s :
  entry_to_json (mkCacheEntry ts v) = Some s →
  set_at_path inner path v ts (World m []) = (Ok tt, World (<[path := s]> m) []).
Proof. intros Hs. unfold set_at_path. rewrite io_bind_run. cbn. by rewrite Hs. Qed.

Lemma valid_key key : SAFE_ID_REGEX key = true → ensure_valid_key key = Ok tt.
Proof. intros Hk. unfold ensure_valid_key. by rewrite Hk. Qed.

Lemma bind_ensure_key {A} key (k : unit → io A) w :
  SAFE_ID_REGEX key = true → (io_lift (ensure_valid_key key) ≫= k) w = k tt w.
Proof. intros Hk. by rewrite valid_key. Qed.

(** One operation without faults does what the abstract one does. *)
Lemma run_op_quiet m a now ns op :
  (∀ e : CacheEntry T, is_Some (entry_to_json e)) →
  represents m a → SAFE_ID_REGEX ns = true → SAFE_ID_REGEX (op_key op) = true →
  ∃ m', run_op now (mkWritable ns) op (World m []) = (Ok (abs_op now ns op a).1, World m' []) ∧
        represents m' (abs_op now ns op a).2.
Proof.
  intros Hser Hrep Hn Hk. destruct op as [k|k v ts|k v ts|k max_age]; simpl in Hk.
  - exists (delete (get_path ns k) m). split; [|by apply represents_remove].
    unfold run_op, WritableCacheNamespace.remove, remove_impl.
    rewrite io_bind_run, bind_ensure_key by done. rewrite io_bind_run. unfold io_try, fs_remove.
    rewrite prim_quiet. cbn [wi_namespace].
    destruct (m !! get_path ns k) eqn:E; [done|]. by rewrite delete_id.
  - destruct (Hser (mkCacheEntry ts v)) as [s Hs]. exists (<[get_path ns k := s]> m).
    split; [|by apply represents_set].
    unfold run_op, WritableCacheNamespace.set_with_timestamp, set_impl.
    rewrite io_bind_run, bind_ensure_key by done. by rewrite (set_at_path_quiet _ _ _ _ _ s).
  - destruct (Hser (mkCacheEntry ts v)) as [s Hs].
    unfold run_op, WritableCacheNamespace.set_if_newer_with_timestamp, set_if_newer_impl.
    rewrite bind_ensure_key by done. rewrite io_bind_run. unfold io_try. cbn [wi_namespace].
    rewrite (get_from_path_quiet m a) by done.
    assert ((_ ← set_at_path (mkWritable ns) (get_path ns k) v ts; mret (@None T)) (World m []) =
            (Ok None, World (<[get_path ns k := s]> m) [])) as Hover.
    { by rewrite io_bind_run, (set_at_path_quiet _ _ _ _ _ s). }
    pose proof (represents_set m a ns k _ s Hrep Hn Hk Hs) as Hrep'. simpl.
    destruct (a !! (ns, k)) as [e|]; simpl; [destruct (ts <? entry_timestamp e); [by exists m|]|];
      (eexists; split; [exact Hover|done]).
  - exists m. split; [|done].
    assert (get_impl now ns k max_age (World m []) =
            (Ok (abs_op now ns (OpGet k max_age) a).1, World m [])) as Hget.
    { unfold get_impl. rewrite bind_ensure_key by done. case_bool_decide as Hz.
      - subst. simpl. destruct (a !! (ns, k)); done.
      - rewrite io_bind_run, (get_from_path_quiet m a) by done. simpl.
        destruct (a !! (ns, k)) as [e|]; [|done]. by destruct (fresh now max_age e). }
    destruct max_age; exact Hget.
Qed.

Lemma get_path_not_lockfile ns key ns' :
  SAFE_ID_REGEX ns' = true → get_path ns key ≠ get_lockfile ns'.
Proof.
  intros Hn Heq. apply (f_equal (char_in "/")) in Heq. revert Heq. unfold get_path, get_lockfile.
  rewrite !char_in_app, (safe_id_no_char "/" ns' Hn eq_refl). simpl. rewrite orb_true_r. done.
Qed.

Lemma get_impl_stored m now ns key max_age o :
  SAFE_ID_REGEX key = true → stored m (get_path ns key) o →
  get_impl now ns key max_age (World m []) =
  (Ok (entry_value <$> read_entry now max_age o), World m []).
Proof.
  intros Hk Hst. unfold get_impl. rewrite bind_ensure_key by done. case_bool_decide as Hz.
  - subst. destruct o as [e|]; [|done]. by unfold read_entry, fresh, is_expired.
  - by rewrite io_bind_run, (get_from_path_stored _ _ _ _ o).
Qed.

(** [set_if_newer] on one file: what it answers and what is stored after it. *)
Definition newer_entry (v : T) (ts : Z) (o : option (CacheEntry T)) : option T * option (CacheEntry T) :=
  match o with
  | Some e => if ts <? entry_timestamp e then (Some (entry_value e), Some e) else (None, Some (mkCacheEntry ts v))
  | None => (None, Some (mkCacheEntry ts v))
  end.

Lemma set_if_newer_stored m now ns key v ts o :
  is_Some (entry_to_json (mkCacheEntry ts v)) → SAFE_ID_REGEX key = true → stored m (get_path ns key) o →
  ∃ m', set_if_newer_impl now (mkWritable ns) key v ts (World m []) =
          (Ok (newer_entry v ts o).1, World m' []) ∧
        stored m' (get_path ns key) (newer_entry v ts o).2 ∧
        ∀ p, p ≠ get_path ns key → m' !! p = m !! p.
Proof.
  intros [s Hs] Hk Hst. unfold set_if_newer_impl. rewrite bind_ensure_key by done.
  rewrite io_bind_run. unfold io_try. cbn [wi_namespace]. rewrite (get_from_path_stored _ _ _ _ o) by done.
  assert ((_ ← set_at_path (mkWritable ns) (get_path ns key) v ts; mret (@None T)) (World m []) =
          (Ok None, World (<[get_path ns key := s]> m) [])) as Hover.
  { by rewrite io_bind_run, (set_at_path_quiet _ _ _ _ _ s). }
  assert (stored (<[get_path ns key := s]> m) (get_path ns key) (Some (mkCacheEntry ts v))) as Hnew.
  { exists s. by rewrite lookup_insert_eq. }
  destruct o as [e|]; simpl; [destruct (ts <? entry_timestamp e); [by exists m|]|];
    (eexists; split; [exact Hover|]; split; [done|]; intros p Hp; by rewrite lookup_insert_ne).
Qed.

Lemma read_run_quiet m ns :
  SAFE_ID_REGEX ns = true →
  ∃ m', read ns (World m []) = (Ok (mkReadable ns), World m' []) ∧
        ∀ p, p ≠ get_lockfile ns → m' !! p = m !! p.
Proof.
  intros Hn. unfold read, ensure_valid_namespace, lock_namespace_impl, fs_open_append. rewrite Hn.
  rewrite !io_bind_run. cbn [io_lift bail_if negb]. rewrite io_bind_run, prim_quiet.
  eexists. split; [reflexivity|]. intros p Hp. destruct (m !! get_lockfile ns); [done|].
  by rewrite lookup_insert_ne.
Qed.

Lemma write_run_quiet m ns :
  SAFE_ID_REGEX ns = true →
  ∃ m', write ns (World m []) = (Ok (mkWritable ns), World m' []) ∧
        ∀ p, p ≠ get_lockfile ns → m' !! p = m !! p.
Proof.
  intros Hn. unfold write, ensure_valid_namespace, lock_namespace_impl, fs_open_append. rewrite Hn.
  rewrite !io_bind_run. cbn [io_lift bail_if negb]. rewrite io_bind_run, prim_quiet.
  eexists. split; [reflexivity|]. intros p Hp. destruct (m !! get_lockfile ns); [done|].
  by rewrite lookup_insert_ne.
Qed.

Lemma stored_frame m m' path o : m' !! path = m !! path → stored m path o → stored m' path o.
Proof. intros Heq. unfold stored. by rewrite Heq. Qed.

(** Taking the lock creates at most the lock file. *)
Lemma write_quiet m a ns :
  represents m a → SAFE_ID_REGEX ns = true →
  ∃ m', write ns (World m []) = (Ok (mkWritable ns), World m' []) ∧ represents m' a.
Proof.
  intros Hrep Hn. unfold write, ensure_valid_namespace. rewrite Hn. simpl.
  unfold lock_namespace_impl, fs_open_append. rewrite !io_bind_run. cbn [io_lift bail_if negb].
  rewrite io_bind_run, prim_quiet. eexists. split; [reflexivity|]. intros ns' key' Hn' Hk'.
  specialize (Hrep ns' key' Hn' Hk'). unfold stored in *. pose proof (get_path_not_lockfile ns' key' ns Hn).
  destruct (m !! get_lockfile ns); [done|]. by rewrite lookup_insert_ne by done.
Qed.

(** A trace of operations, each under its own guard. *)
Fixpoint run_trace (trace : list (Z * string * cache_op)) (w : world)
    : list (result error (option T)) * world :=
  match trace with
  | [] => ([], w)
  | (now, ns, op) :: trace' =>
      let '(r, w) := (inner ← write ns; run_op now inner op) w in
      let '(rs, w) := run_trace trace' w in
      (r :: rs, w)
  end.

Fixpoint abs_trace (trace : list (Z * string * cache_op)) (a : gmap (string * string) (CacheEntry T))
    : list (option T) * gmap (string * string) (CacheEntry T) :=
  match trace with
  | [] => ([], a)
  | (now, ns, op) :: trace' =>
      let '(r, a) := abs_op now ns op a in
      let '(rs, a) := abs_trace trace' a in
      (r :: rs, a)
  end.

Definition valid_trace (trace : list (Z * string * cache_op)) : bool :=
  forallb (λ '(_, ns, op), SAFE_ID_REGEX ns && SAFE_ID_REGEX (op_key op)) trace.

Lemma run_trace_quiet trace : ∀ m a,
  (∀ e : CacheEntry T, is_Some (entry_to_json e)) → represents m a → valid_trace trace = true →
  ∃ m', run_trace trace (World m []) = (Ok <$> (abs_trace trace a).1, World m' []) ∧
        represents m' (abs_trace trace a).2.
Proof.
  induction trace as [|[[now ns] op] trace IH]; intros m a Hser Hrep Hv; simpl; [by exists m|].
  apply andb_true_iff in Hv as [[Hn Hk]%andb_true_iff Hv].
  destruct (write_quiet m a ns Hrep Hn) as (m1&Hw&Hrep1).
  destruct (run_op_quiet m1 a now ns op Hser Hrep1 Hn Hk) as (m2&Hop&Hrep2).
  rewrite io_bind_run, Hw, Hop. destruct (abs_op now ns op a) as [r a2]. simpl in *.
  destruct (IH m2 a2 Hser Hrep2 Hv) as (m3&Hrun&Hrep3). rewrite Hrun.
  destruct (abs_trace trace a2) as [rs a3]. simpl in *. by exists m3.
Qed.

(** ** Faults *)

Section faults.
Context (m0 : gmap string string).

Lemma ensure_key_triple {A} (k : io A) Q key :
  (SAFE_ID_REGEX key = true → triple (λ m, m = m0) k Q (λ m, m = m0)) →
  triple (λ m, m = m0) (_ ← io_lift (ensure_valid_key key); k) Q (λ m, m = m0).
Proof.
  intros Hk. eapply triple_bind with (R := λ _ m, m = m0 ∧ SAFE_ID_REGEX key = true).
  - apply triple_lift. intros m ->. unfold ensure_valid_key. by destruct (SAFE_ID_REGEX key).
  - intros u. apply triple_pure. apply Hk.
Qed.

(** Reading never writes; it answers with the entry of the file, and fails
    with a decoding error only if there is none. *)
Lemma get_from_path_run now path max_age w :
  files w = m0 →
  ∃ r w', get_from_path (T := T) now path max_age w = (r, w') ∧ files w' = m0 ∧
    match r with
    | Ok o => max_age = None → ∀ e c, m0 !! path = Some c → utf8_valid c = true →
                                      entry_of_json c = Some e → o = Some e
    | Err EInvalid => ∀ e c, m0 !! path = Some c → entry_of_json (T := T) c ≠ Some e
    | Err _ => True
    end.
Proof.
  intros Hw. unfold get_from_path, file_read_optional_string.
  assert (∃ r w', fs_open path w = (r, w') ∧ files w' = m0 ∧
            match r with Ok o => o = m0 !! path | Err e => e = EIo end) as (r&w'&Hrun&Hw'&Hr).
  { unfold fs_open, prim. destruct (faults w) as [|[] fs]; simpl; rewrite ?Hw; by eexists _, _. }
  rewrite !io_bind_run, Hrun. destruct r as [o|e]; [subst o|subst e; by eexists _, _].
  destruct (m0 !! path) as [c|]; [|by eexists _, _].
  destruct (utf8_valid c) eqn:Hu; [|by eexists _, _]. cbn [mret io_ret].
  rewrite io_bind_run. unfold io_lift. destruct (entry_of_json c) as [e|] eqn:He; simpl.
  - destruct max_age as [x|]; eexists _, _; (split; [reflexivity|]); (split; [done|]); [done|].
    intros _ e' c' [= <-] _ He'. congruence.
  - eexists _, _. split; [reflexivity|]. split; [done|]. intros e c' [= <-]. congruence.
Qed.

Lemma set_at_path_triple inner path v ts :
  triple (λ m, m = m0) (set_at_path inner path v ts)
    (λ _ m, ∃ s, entry_to_json (mkCacheEntry ts v) = Some s ∧ m = <[path := s]> m0) (λ m, m = m0).
Proof.
  tstep triple_sync.
  eapply triple_bind with (R := λ s m, m = m0 ∧ entry_to_json (mkCacheEntry ts v) = Some s).
  - apply triple_lift. intros m ->. by destruct (entry_to_json _).
  - intros d. apply triple_pure. intros Hd.
    eapply triple_conseq; [apply (triple_replace m0)|done| |done]. intros u m ->. eauto.
Qed.

Lemma set_if_newer_triple now ns key v ts :
  triple (λ m, m = m0) (set_if_newer_impl now (mkWritable ns) key v ts)
    (λ _ m, SAFE_ID_REGEX key = true ∧
       ((∃ s, entry_to_json (mkCacheEntry ts v) = Some s ∧ m = <[get_path ns key := s]> m0 ∧
              ∀ e c, m0 !! get_path ns key = Some c → utf8_valid c = true →
                     entry_of_json c = Some e → entry_timestamp e ≤ ts) ∨ m = m0))
    (λ m, m = m0).
Proof.
  apply ensure_key_triple. intros Hk. cbn [wi_namespace]. set (path := get_path ns key).
  assert (triple (λ m, m = m0) (_ ← set_at_path (mkWritable ns) path v ts; mret (@None T))
    (λ _ m, ∃ s, entry_to_json (mkCacheEntry ts v) = Some s ∧ m = <[path := s]> m0) (λ m, m = m0)) as Hover.
  { eapply triple_bind; [apply set_at_path_triple|]. intros u. by apply triple_ret. }
  intros w Hw. rewrite io_bind_run. unfold io_try.
  destruct (get_from_path_run now path None w Hw) as (r&w'&->&Hw'&Hr). specialize (Hover w' Hw').
  assert ((∀ e c, m0 !! path = Some c → utf8_valid c = true → entry_of_json (T := T) c = Some e →
            entry_timestamp e ≤ ts) →
    match (_ ← set_at_path (mkWritable ns) path v ts; mret (@None T)) w' with
    | (Ok _, w1) => SAFE_ID_REGEX key = true ∧
        ((∃ s, entry_to_json (mkCacheEntry ts v) = Some s ∧ files w1 = <[path := s]> m0 ∧
            ∀ e c, m0 !! path = Some c → utf8_valid c = true → entry_of_json c = Some e →
                   entry_timestamp e ≤ ts) ∨ files w1 = m0)
    | (Err _, w1) => files w1 = m0
    end) as Hdone.
  { intros Hold.
    destruct ((_ ← set_at_path (mkWritable ns) path v ts; mret (@None T)) w') as [[o|e] w1]; [|done]. destruct Hover as (s&Hs&Hf).
    split; [done|]. left. eauto. }
  destruct r as [[e|]|err].
  - destruct (Z.ltb_spec ts (entry_timestamp e)); [simpl; auto|]. apply Hdone.
    intros e' c Hc Hu He. specialize (Hr eq_refl e' c Hc Hu He). simplify_eq. lia.
  - apply Hdone. intros e' c Hc Hu He. by specialize (Hr eq_refl e' c Hc Hu He).
  - destruct err; try exact Hw'. apply Hdone. intros e' c Hc _ He. by specialize (Hr e' c Hc).
Qed.

(** A failing operation changes nothing; a successful one changes at most the
    file of its own key. *)
Lemma run_op_triple now ns op :
  triple (λ m, m = m0) (run_op now (mkWritable ns) op)
    (λ _ m, SAFE_ID_REGEX (op_key op) = true ∧
            ∀ p, p ≠ get_path ns (op_key op) → m !! p = m0 !! p)
    (λ m, m = m0).
Proof.
  assert (∀ k max_age, triple (λ m, m = m0) (get_impl (T := T) now ns k max_age)
            (λ _ m, SAFE_ID_REGEX k = true ∧ ∀ p, p ≠ get_path ns k → m !! p = m0 !! p)
            (λ m, m = m0)) as Hget.
  { intros k max_age. apply ensure_key_triple. intros Hk.
    case_bool_decide; [apply triple_ret; by intros m ->|].
    eapply triple_bind with (R := λ _ m, m = m0); [|intros r; apply triple_ret; by intros m ->].
    intros w Hw. destruct (get_from_path_run now (get_path ns k) max_age w Hw) as (r&w'&->&Hw'&_).
    by destruct r. }
  destruct op as [k|k v ts|k v ts|k [max_age|]]; try apply Hget; unfold run_op.
  - eapply triple_bind; [|intros u; by apply triple_ret; intros m Hm; exact Hm].
    apply ensure_key_triple. intros Hk. intros w Hw. rewrite io_bind_run. unfold io_try.
    assert (∃ r w', fs_remove (get_path ns k) w = (r, w') ∧
              match r with Ok _ => files w' = delete (get_path ns k) m0 | Err _ => files w' = m0 end)
      as (r&w'&Hrun&Hr).
    { unfold fs_remove, prim. destruct (faults w) as [|[] fs]; simpl; simpl in Hw; rewrite ?Hw;
        try destruct (m0 !! get_path ns k); by eexists _, _. }
    cbn [wi_namespace]. rewrite Hrun. destruct r as [u|[]]; simpl; rewrite ?Hr; try done.
    split; [done|]. intros p Hp. by rewrite lookup_delete_ne.
  - eapply triple_bind; [|intros u; by apply triple_ret; intros m Hm; exact Hm].
    apply ensure_key_triple. intros Hk.
    eapply triple_conseq; [apply set_at_path_triple|done| |done]. intros u m (s&_&->).
    split; [done|]. intros p Hp. by rewrite lookup_insert_ne.
  - eapply triple_conseq; [apply set_if_newer_triple|done| |done].
    intros u m [Hk [(s&_&->&_)| ->]]; (split; [done|]); [|done].
    intros p Hp. by rewrite lookup_insert_ne.
Qed.
End faults.
End refinement.
Arguments cache_op : clear implicits.

(** ** Properties *)

Section properties.
Context {T : Type} `{SafeIdLaws} `{EntryCodec T, !EntryCodecLaws T}.

(** C6: the cache directory implements a map from (namespace, key) to a
    timestamped value.  Every trace of operations with valid identifiers, each
    under its own write guard and without I/O faults, succeeds with the
    answers of the abstract map, and the files represent the resulting map. *)
Theorem cache_refines_map (trace : list (Z * string * cache_op T)) (m : gmap string string)
    (a : gmap (string * string) (CacheEntry T)) :
  (∀ e : CacheEntry T, is_Some (entry_to_json e)) → represents m a → valid_trace trace = true →
  ∃ m', run_trace trace (World m []) = (Ok <$> (abs_trace trace a).1, World m' []) ∧
        represents m' (abs_trace trace a).2.
Proof. apply run_trace_quiet. Qed.

(** Isolation and atomicity under arbitrary I/O faults.  An operation on
    one key never touches the entry of another key or namespace, an operation
    that fails leaves the cache as it was, and an invalid key always fails. *)
Theorem cache_op_isolated (m : gmap string string) (fl : list bool) (now : Z) (ns : string)
    (op : cache_op T) (ns' key' : string) :
  SAFE_ID_REGEX ns = true → SAFE_ID_REGEX ns' = true → (ns, op_key op) ≠ (ns', key') →
  let '(r, w') := run_op now (mkWritable ns) op (World m fl) in
  files w' !! get_path ns' key' = m !! get_path ns' key' ∧
  match r with
  | Ok _ => SAFE_ID_REGEX (op_key op) = true
  | Err _ => files w' = m
  end.
Proof.
  intros Hn Hn' Hne. pose proof (run_op_triple m now ns op (World m fl) eq_refl) as Ht.
  destruct (run_op now (mkWritable ns) op (World m fl)) as [[o|e] w']; [|by rewrite Ht].
  destruct Ht as [Hk Hother]. split; [|done]. apply Hother.
  intros [-> ->]%get_path_inj; done.
Qed.

(** [set_if_newer] never moves an entry back in time, whatever faults
    occur: a readable entry is kept or replaced by one that is not older. *)
Theorem set_if_newer_monotone (m : gmap string string) (fl : list bool) (now : Z) (ns key : string)
    (v : T) (ts : Z) (e : CacheEntry T) (c : string) :
  m !! get_path ns key = Some c → utf8_valid c = true → entry_of_json c = Some e →
  let m' := files (WritableCacheNamespace.set_if_newer_with_timestamp (mkWritable ns) now key v ts
                     (World m fl)).2 in
  ∃ e' c', m' !! get_path ns key = Some c' ∧ entry_of_json c' = Some e' ∧
           entry_timestamp e ≤ entry_timestamp e'.
Proof.
  intros Hc Hu He m'. pose proof (set_if_newer_triple m now ns key v ts (World m fl) eq_refl) as Ht.
  unfold m', WritableCacheNamespace.set_if_newer_with_timestamp.
  destruct (set_if_newer_impl now (mkWritable ns) key v ts (World m fl)) as [[o|err] w']; simpl.
  - destruct Ht as [_ [(s&Hs&->&Hle)| ->]]; [|eexists _, _; eauto with lia].
    exists (mkCacheEntry ts v), s. rewrite lookup_insert_eq.
    split; [done|]. split; [by apply entry_json_roundtrip|]. simpl. by eapply Hle.
  - rewrite Ht. exists e, c. split; [done|]. split; [done|lia].
Qed.

(** Expiry.  Reading a stored entry with a maximum age returns it exactly
    if the maximum age is not zero and the entry's age lies in [[0, max_age)];
    an entry from the future counts as expired. *)
Theorem get_with_max_age_expiry (m : gmap string string) (a : gmap (string * string) (CacheEntry T))
    (now : Z) (ns key : string) (max_age : Z) (e : CacheEntry T) :
  represents m a → SAFE_ID_REGEX ns = true → SAFE_ID_REGEX key = true →
  a !! (ns, key) = Some e → 0 ≤ now < 2 ^ 62 → 0 ≤ entry_timestamp e < 2 ^ 62 →
  ReadableCacheNamespace.get_with_max_age (mkReadable ns) now key max_age (World m []) =
  (Ok (if bool_decide (max_age ≠ 0 ∧ 0 ≤ now - entry_timestamp e < max_age)
       then Some (entry_value e) else None), World m []).
Proof.
  intros Hrep Hn Hk Ha Hnow Hts.
  unfold ReadableCacheNamespace.get_with_max_age, get_impl. rewrite bind_ensure_key by done.
  case_bool_decide as Hz.
  { simplify_eq. rewrite bool_decide_false by tauto. done. }
  cbn [ri_namespace]. rewrite io_bind_run, (get_from_path_quiet m a), Ha by done.
  assert (max_age ≠ 0) as Hz' by congruence.
  assert (as_i64 (now - entry_timestamp e) = now - entry_timestamp e) as Hdiff.
  { unfold as_i64. rewrite Z.mod_small by lia. lia. }
  unfold fresh, is_expired. rewrite (proj2 (Z.eqb_neq _ _) Hz'), Hdiff.
  destruct (Z.leb_spec max_age (now - entry_timestamp e)), (Z.ltb_spec (now - entry_timestamp e) 0);
    cbn; case_bool_decide; try lia; done.
Qed.
End properties.

(** ** Witnesses *)

(** Entries of a countable type, as the bits of their encoding. *)
Section countable_codec.
Context {T : Type} `{Countable T}.

Definition countable_codec : EntryCodec T := {|
  entry_to_json e := Some (bits (encode (entry_timestamp e, entry_value e)));
  entry_of_json s := '(t, v) ← decode (of_bits s); Some (mkCacheEntry t v);
|}.

Lemma bits_utf8 p : utf8_valid (bits p) = true.
Proof. by induction p. Qed.

Lemma countable_codec_laws : @EntryCodecLaws T countable_codec.
Proof.
  split; intros [t v] s [= <-]; [|apply bits_utf8].
  cbn [entry_of_json countable_codec entry_timestamp entry_value]. by rewrite of_bits_bits, decode_encode.
Qed.
End countable_codec.

Module CacheDemo.
#[local] Existing Instance safe_id_regex_impl.
#[local] Existing Instance safe_id_impl_laws.

(** Entries with a number as value: ["<timestamp>,<value>"]. *)
#[local] Instance demo_entry_codec : EntryCodec Z := {|
  entry_to_json e := Some (show_Z (entry_timestamp e) +:+ "," +:+ show_Z (entry_value e));
  entry_of_json s := '(t, v) ← split_once "," s; t ← parse_Z t; v ← parse_Z v; Some (mkCacheEntry t v);
|}.

Lemma show_Z_no_comma z : char_in "," (show_Z z) = false.
Proof. eapply str_forall_not_in; [apply show_Z_chars|reflexivity]. Qed.

Lemma int_chars_utf8 s : str_forall (λ a, int_char a || Ascii.eqb a ",") s = true → utf8_valid s = true.
Proof.
  induction s as [|a s IH]; [done|]. simpl. intros [Ha Hs]%andb_true_iff.
  assert (byte_between 0 127 a = true) as ->; [|by apply IH].
  clear -Ha. destruct a as [[] [] [] [] [] [] [] []]; vm_compute in Ha; try discriminate Ha; reflexivity.
Qed.

#[local] Instance demo_entry_laws : EntryCodecLaws Z.
Proof.
  split; intros [t v] s [= <-]; cbn [entry_timestamp entry_value].
  - cbn [entry_of_json demo_entry_codec]. rewrite (split_once_app ","%char) by apply show_Z_no_comma.
    simpl. by rewrite !parse_show_Z.
  - apply int_chars_utf8. rewrite !str_forall_app. rewrite !andb_true_iff.
    assert (∀ z, str_forall (λ a, int_char a || Ascii.eqb a ",") (show_Z z) = true) as Hz.
    { intros z. pose proof (show_Z_chars z) as Hc. induction (show_Z z) as [|a s IH]; [done|].
      simpl in *. apply andb_true_iff in Hc as [-> Hc]. by rewrite IH. }
    split; [apply Hz|]. simpl. by rewrite Hz.
Qed.

Definition demo_trace : list (Z * string * cache_op Z) :=
  [(10, "remote-a"%string, OpSet "val1" 1 10); (20, "remote-a"%string, OpSetIfNewer "val1" 2 5);
   (30, "remote-b"%string, OpGet "val1" None); (40, "remote-a"%string, OpGet "val1" (Some 31))].

Lemma cache_refines_map_witness :
  ∃ m', run_trace demo_trace (World ∅ []) = ([Ok None; Ok (Some 1); Ok None; Ok (Some 1)], World m' []).
Proof.
  destruct (cache_refines_map demo_trace ∅ ∅) as (m'&Hrun&_).
  - intros e. by eexists.
  - intros ns key _ _. reflexivity.
  - reflexivity.
  - exists m'. exact Hrun.
Defined.

Lemma cache_op_isolated_witness :
  files (run_op 0 (mkWritable "a") (OpSet "k" 7 1) (World {[get_path "b" "k" := "1,2"%string]} [])).2
    !! get_path "b" "k" = Some "1,2"%string.
Proof.
  pose proof (cache_op_isolated {[get_path "b" "k" := "1,2"%string]} [] 0 "a" (OpSet "k" 7 1) "b" "k"
                eq_refl eq_refl ltac:(discriminate)) as H.
  destruct (run_op 0 (mkWritable "a") (OpSet "k" 7 1) _) as [r w']. destruct H as [H _].
  simpl. rewrite H. reflexivity.
Defined.

Lemma set_if_newer_monotone_witness :
  ∃ e' c', files (WritableCacheNamespace.set_if_newer_with_timestamp (mkWritable "a") 0 "k" 9 5
                    (World {[get_path "a" "k" := "8,2"%string]} [])).2 !! get_path "a" "k" = Some c' ∧
           entry_of_json c' = Some e' ∧ 8 ≤ entry_timestamp e'.
Proof.
  apply (set_if_newer_monotone {[get_path "a" "k" := "8,2"%string]} [] 0 "a" "k" 9 5
           (mkCacheEntry 8 2) "8,2"); reflexivity.
Defined.

Lemma get_with_max_age_expiry_witness :
  ReadableCacheNamespace.get_with_max_age (mkReadable "a") 40 "k" 31
    (World {[get_path "a" "k" := "10,1"%string]} []) =
  (Ok (Some 1), World {[get_path "a" "k" := "10,1"%string]} []).
Proof.
  pose proof (get_with_max_age_expiry {[get_path "a" "k" := "10,1"%string]}
                {[("a"%string, "k"%string) := mkCacheEntry 10 1]} 40 "a" "k" 31 (mkCacheEntry 10 1)) as H.
  rewrite H.
  - reflexivity.
  - intros ns key Hn Hk. unfold stored.
    destruct (decide (("a"%string, "k"%string) = (ns, key))) as [Heq|Hne].
    + inversion Heq; subst. rewrite lookup_singleton_eq. exists "10,1"%string. split; reflexivity.
    + rewrite lookup_singleton_ne by exact Hne. rewrite lookup_singleton_ne; [reflexivity|].
      intros Heq. apply get_path_inj in Heq as [H1 H2]; [|reflexivity|exact Hn]. congruence.
  - reflexivity.
  - reflexivity.
  - reflexivity.
  - lia.
  - simpl. lia.
Defined.
End CacheDemo.
