(* ===== verification/RemoteCache.v ===== *)
(** * Remote mapping cache: reachability, back-off, node names

    Model of [server/src/remote_cache/mod.rs] and
    [server/src/remote_cache/back_off.rs].  The clock ([epoch_i64]) is an
    argument [time].  A [HashMap] is a [gmap]; where the code walks over the
    values of one, the model walks over [map_to_list], and no theorem depends on
    that order.  Log messages are left out; the notification that is sent when a
    host becomes unreachable is part of the result. *)

From S2P Require Import Prelude RemoteUpid.

(** ** Back-off of one host *)

Definition BACK_OFF_BASE_TIME_S : Z := 10.
Definition BACK_OFF_MAX_TIME_S : Z := 3 * 60.
Definition BACK_OFF_MIN_TIME_S : Z := 10 * 60.

Record BackOffState : Type := mkBackOff {
  back_off_doubling_count : Z; (** [u32] *)
  last_error : string;
  first_fail_time : Z;
  next_try : Z;
}.

Definition back_off_new (time : Z) (err : string) : BackOffState := mkBackOff 0 err time time.

(** [self.next_try.saturating_sub(current_time).max(0) as u64] *)
Definition time_to_next_try (b : BackOffState) (current_time : Z) : Z :=
  Z.max (i64_saturating_sub (next_try b) current_time) 0.

Definition retried (b : BackOffState) (time : Z) (err : string) : BackOffState * option Z :=
  let b := mkBackOff (back_off_doubling_count b) err (first_fail_time b) (next_try b) in
  if 0 <? time_to_next_try b time then (b, None)
  else if (back_off_doubling_count b =? 0) && (time - first_fail_time b <? BACK_OFF_MIN_TIME_S)
  then (b, None)
  else
    let back_off_time := Z.min (BACK_OFF_BASE_TIME_S * 2 ^ back_off_doubling_count b) BACK_OFF_MAX_TIME_S in
    let count := if back_off_time <? BACK_OFF_MAX_TIME_S then back_off_doubling_count b + 1
                 else back_off_doubling_count b in
    let next := time + back_off_time in
    (mkBackOff count (last_error b) (first_fail_time b) next, Some next).

(** ** Hosts and remotes *)

Inductive ConnectionState : Type :=
| Reachable
| Unreachable (err : string).

Record HostInfo : Type := mkHostInfo {
  hi_hostname : string;
  hi_node_name : option string;
  hi_back_off : option BackOffState;
}.

Definition host_info_new (hostname : string) : HostInfo := mkHostInfo hostname None None.
Definition host_node_name (h : HostInfo) : option string := hi_node_name h.
Definition host_is_up (h : HostInfo) : bool :=
  match hi_back_off h with None => true | Some _ => false end.

Definition host_set_reachable (time : Z) (h : HostInfo) (st : ConnectionState) : HostInfo * option Z :=
  match st with
  | Reachable => (mkHostInfo (hi_hostname h) (hi_node_name h) None, None)
  | Unreachable err =>
      match hi_back_off h with
      | Some b =>
          let '(b, next) := retried b time err in
          (mkHostInfo (hi_hostname h) (hi_node_name h) (Some b), next)
      | None => (mkHostInfo (hi_hostname h) (hi_node_name h) (Some (back_off_new time err)), None)
      end
  end.

Record RemoteMapping : Type := mkRemoteMapping {
  rm_ty : RemoteType.t;
  rm_hosts : gmap string HostInfo;
  rm_node_to_host : gmap string string;
}.

Definition remote_mapping_new (ty : RemoteType.t) : RemoteMapping := mkRemoteMapping ty ∅ ∅.

Definition mapping_set_node_name (r : RemoteMapping) (hostname : string) (node_name : option string)
    : RemoteMapping :=
  match rm_hosts r !! hostname with
  | None => r
  | Some info =>
      let n2h := match hi_node_name info with
                 | Some old => delete old (rm_node_to_host r)
                 | None => rm_node_to_host r
                 end in
      let info := mkHostInfo (hi_hostname info) node_name (hi_back_off info) in
      let n2h := match node_name with Some new => <[new := hostname]> n2h | None => n2h end in
      mkRemoteMapping (rm_ty r) (<[hostname := info]> (rm_hosts r)) n2h
  end.

Definition mapping_is_reachable (r : RemoteMapping) : bool :=
  if bool_decide (rm_hosts r = ∅) then true
  else existsb host_is_up (map_to_list (rm_hosts r)).*2.

Definition mapping_reset_back_off (time : Z) (r : RemoteMapping) : RemoteMapping :=
  mkRemoteMapping (rm_ty r) ((λ h, (host_set_reachable time h Reachable).1) <$> rm_hosts r)
    (rm_node_to_host r).

(** ** The cache *)

Record RemoteMappingCache : Type := mkCache {
  remotes : gmap string RemoteMapping;
  canary_remote : option string;
}.

Definition default_cache : RemoteMappingCache := mkCache ∅ None.

Section cache.
Implicit Types (c : RemoteMappingCache) (remote host node : string).

Definition node_name_to_hostname c remote node : option string :=
  r ← remotes c !! remote; rm_node_to_host r !! node.

Definition info_by_node_name c remote node : option HostInfo :=
  r ← remotes c !! remote; host ← rm_node_to_host r !! node; rm_hosts r !! host.

Definition info_by_hostname c remote host : option HostInfo :=
  r ← remotes c !! remote; rm_hosts r !! host.

(** Writing through [info_by_hostname_mut]. *)
Definition put_info c remote host (h : HostInfo) : RemoteMappingCache :=
  mkCache (alter (λ r, mkRemoteMapping (rm_ty r) (<[host := h]> (rm_hosts r)) (rm_node_to_host r))
                 remote (remotes c)) (canary_remote c).

Definition reset_all_back_off_states (time : Z) c : RemoteMappingCache :=
  mkCache (mapping_reset_back_off time <$> remotes c) None.

Definition canary_is_needed c : RemoteMappingCache * bool :=
  let check c := (c, negb (existsb mapping_is_reachable (map_to_list (remotes c)).*2)) in
  match canary_remote c with
  | Some canary => if bool_decide (is_Some (remotes c !! canary)) then (c, false)
                   else check (mkCache (remotes c) None)
  | None => check c
  end.

Definition set_or_reset_canary (time : Z) c remote (unreachable : bool) : RemoteMappingCache :=
  let c := if unreachable then
             let '(c, needed) := canary_is_needed c in
             if needed then mkCache (remotes c) (Some remote) else c
           else c in
  if negb unreachable && bool_decide (is_Some (canary_remote c))
  then reset_all_back_off_states time c else c.

Definition is_unreachable (st : ConnectionState) : bool :=
  match st with Unreachable _ => true | Reachable => false end.

(** The notification [notify_remote_unreachable(remote, hostname, error)]. *)
Definition mark_host_reachable (time : Z) c remote host (st : ConnectionState)
    : RemoteMappingCache * list (string * string * string) :=
  match info_by_hostname c remote host with
  | None => (c, [])
  | Some info =>
      let was_reachable := host_is_up info in
      let '(info, _) := host_set_reachable time info st in
      let notes := match was_reachable, st with
                   | true, Unreachable err => [(remote, host, err)]
                   | _, _ => []
                   end in
      (set_or_reset_canary time (put_info c remote host info) remote (is_unreachable st), notes)
  end.

Definition mark_node_reachable (time : Z) c remote node (st : ConnectionState) : RemoteMappingCache :=
  match (r ← remotes c !! remote; rm_node_to_host r !! node) with
  | None => c
  | Some host =>
      match info_by_hostname c remote host with
      | None => c
      | Some info =>
          let '(info, _) := host_set_reachable time info st in
          set_or_reset_canary time (put_info c remote host info) remote (is_unreachable st)
      end
  end.

Definition set_node_name c remote host (node_name : option string) : RemoteMappingCache :=
  match remotes c !! remote with
  | Some r => mkCache (<[remote := mapping_set_node_name r host node_name]> (remotes c)) (canary_remote c)
  | None => c
  end.

Definition host_is_reachable c remote host : bool :=
  match info_by_hostname c remote host with Some info => host_is_up info | None => true end.

Definition host_time_to_next_try c remote host (current_time : Z) : option (Z * string) :=
  if bool_decide (canary_remote c = Some remote) then None
  else
    info ← info_by_hostname c remote host;
    b ← hi_back_off info;
    Some (time_to_next_try b current_time, last_error b).

(** The loop of [remote_time_to_next_try]; [None] is the early return. *)
Fixpoint least_time (current_time : Z) (infos : list HostInfo) (time : Z) (err : string)
    : option (Z * string) :=
  match infos with
  | [] => Some (time, err)
  | info :: infos' =>
      match hi_back_off info with
      | Some b =>
          let node_time := time_to_next_try b current_time in
          if node_time <? time then least_time current_time infos' node_time (last_error b)
          else least_time current_time infos' time err
      | None => None
      end
  end.

Definition remote_time_to_next_try c remote (current_time : Z) : option (Z * string) :=
  if bool_decide (canary_remote c = Some remote) then None
  else
    r ← remotes c !! remote;
    '(time, err) ← least_time current_time (map_to_list (rm_hosts r)).*2 u64_MAX "";
    if time =? u64_MAX then None else Some (time, err).
End cache.

(** ** The process-wide copy

    [CURRENT_CACHE] holds a copy of the file with the generation it was loaded
    for; the generation counter lives in memory shared by all processes
    ([ConfigVersionCache]).  [None] is a version cache that cannot be opened. *)

Record CacheState : Type := mkCacheState { cs_cache : RemoteMappingCache; cs_generation : Z }.

(** The part of [CacheState::get] before loading. *)
Definition cache_state_hit (current : option CacheState) (version : option Z) : option CacheState :=
  match current, version with
  | Some cs, Some v => if cs_generation cs =? v then Some cs else None
  | _, _ => None
  end.

(** The part after [RemoteMappingCache::load]. *)
Definition cache_state_loaded (version : option Z) (data : RemoteMappingCache) : CacheState :=
  mkCacheState data (default 0 version).

(** [CacheState::update]: the new counter value and the new copy. *)
Definition cache_state_update (version : option Z) (cache : RemoteMappingCache)
    : option Z * CacheState :=
  match version with
  | Some v => (Some (v + 1), mkCacheState cache (v + 1))
  | None => (None, mkCacheState cache 0)
  end.

(** Several processes share the file, the counter and the lock file.  [get] is
    two steps under the mutex of [CURRENT_CACHE], reading the counter and loading
    the file; [write] takes the lock file and then clones what [get] returns; the
    caller changes the clone, and [save] is two steps, replacing the file and
    bumping the counter, of which only the second needs the mutex.  The counter
    may be unavailable ([None]) whenever it is read or bumped, loading may fail
    (the default cache is used), replacing the file may fail, and a process may die
    at any point. *)
Record proc : Type := mkProc {
  p_current : option CacheState;
  (** a [get] that has read the counter and will load; whether it is the one of
      [write] *)
  p_loading : option (bool * option Z);
}.

(** What the holder of the lock file has done. *)
Inductive write_state : Type :=
| WLocked                            (** will call [get] *)
| WHas (data : RemoteMappingCache)   (** has its clone of the cache *)
| WSaved (data : RemoteMappingCache). (** has replaced the file, and will bump the counter *)

Record shared : Type := mkShared {
  sh_file : RemoteMappingCache;
  sh_version : Z;
  sh_lock : option (nat * write_state);
  sh_procs : gmap nat proc;
  (** The rest is not part of the system, but records what happened: the changes
      that have been saved, oldest first; whether since the counter was last bumped,
      and whether ever, a change was saved without bumping the counter or a load
      failed. *)
  sh_log : list (RemoteMappingCache → RemoteMappingCache);
  sh_trouble : bool;
  sh_troubled : bool;
}.

(** The counter is read if it is available. *)
Definition reads_version (s : shared) (o : option Z) : Prop := o = Some (sh_version s) ∨ o = None.

Definition set_proc (p : nat) (x : proc) (s : shared) : shared :=
  mkShared (sh_file s) (sh_version s) (sh_lock s) (<[p := x]> (sh_procs s)) (sh_log s)
    (sh_trouble s) (sh_troubled s).
Definition set_lock (l : option (nat * write_state)) (s : shared) : shared :=
  mkShared (sh_file s) (sh_version s) l (sh_procs s) (sh_log s) (sh_trouble s) (sh_troubled s).
Definition add_trouble (b : bool) (s : shared) : shared :=
  mkShared (sh_file s) (sh_version s) (sh_lock s) (sh_procs s) (sh_log s)
    (b || sh_trouble s) (b || sh_troubled s).
Definition put_file (f : RemoteMappingCache → RemoteMappingCache) (data : RemoteMappingCache) (s : shared) : shared :=
  mkShared data (sh_version s) (sh_lock s) (sh_procs s) (sh_log s ++ [f]) (sh_trouble s) (sh_troubled s).
(** The counter after [CacheState::update]; a bump ends the trouble. *)
Definition bump (v : option Z) (s : shared) : shared :=
  mkShared (sh_file s) (default (sh_version s) v) (sh_lock s) (sh_procs s) (sh_log s)
    (bool_decide (v = None)) (bool_decide (v = None) || sh_troubled s).

(** What [RemoteMappingCache::load] returns. *)
Definition load (ok : bool) (s : shared) : RemoteMappingCache := if ok then sh_file s else default_cache.

(** The holder's own [get] returns [data]. *)
Definition got (w : bool) (p : nat) (data : RemoteMappingCache) (s : shared) : shared :=
  if w then set_lock (Some (p, WHas data)) s else s.

(** Whether a [get] of this kind may run in [p]: the one of [write] is called once, under the lock. *)
Definition may_get (w : bool) (p : nat) (s : shared) : Prop :=
  w = true → sh_lock s = Some (p, WLocked).

Inductive step : shared → shared → Prop :=
| step_hit s p cur cs o w :
    sh_procs s !! p = Some (mkProc cur None) → may_get w p s → reads_version s o →
    cache_state_hit cur o = Some cs →
    step s (got w p (cs_cache cs) s)
| step_miss s p cur o w :
    sh_procs s !! p = Some (mkProc cur None) → may_get w p s → reads_version s o →
    cache_state_hit cur o = None →
    step s (set_proc p (mkProc cur (Some (w, o))) s)
| step_load s p cur o w ok :
    sh_procs s !! p = Some (mkProc cur (Some (w, o))) →
    step s (got w p (load ok s) (set_proc p (mkProc (Some (cache_state_loaded o (load ok s))) None)
              (add_trouble (negb ok) s)))
| step_lock s p :
    sh_lock s = None → is_Some (sh_procs s !! p) →
    step s (set_lock (Some (p, WLocked)) s)
| step_save s p data f :
    sh_lock s = Some (p, WHas data) →
    step s (set_lock (Some (p, WSaved (f data))) (put_file f (f data) s))
| step_update s p cur data o v cs :
    sh_lock s = Some (p, WSaved data) →
    sh_procs s !! p = Some (mkProc cur None) → reads_version s o →
    cache_state_update o data = (v, cs) →
    step s (set_lock None (set_proc p (mkProc (Some cs) None) (bump v s)))
| step_drop s p data : (** without saving, or because saving failed *)
    sh_lock s = Some (p, WHas data) →
    step s (set_lock None s)
| step_die s p : (** and the process is started again *)
    is_Some (sh_procs s !! p) →
    step s (add_trouble (match sh_lock s with Some (q, WSaved _) => bool_decide (q = p) | _ => false end)
              (set_lock (match sh_lock s with Some (q, st) => if decide (q = p) then None else Some (q, st) | None => None end)
                (set_proc p (mkProc None None) s))).

Definition initial (file : RemoteMappingCache) (n : nat) : shared :=
  mkShared file 0 None (list_to_map ((λ p, (p, mkProc None None)) <$> seq 0 n)) [] false false.

Definition saving (s : shared) : bool :=
  match sh_lock s with Some (_, WSaved _) => true | _ => false end.

(** The file after the saved changes. *)
Definition replay (file : RemoteMappingCache) (s : shared) : RemoteMappingCache :=
  foldl (λ c f, f c) file (sh_log s).

Record coherent (file : RemoteMappingCache) (s : shared) : Prop := {
  co_version : 0 ≤ sh_version s;
  co_known : ∀ p x cs, sh_procs s !! p = Some x → p_current x = Some cs → cs_generation cs ≤ sh_version s;
  co_fresh : ∀ p x cs, sh_procs s !! p = Some x → p_current x = Some cs →
    cs_generation cs = sh_version s → cs_cache cs = sh_file s ∨ saving s = true ∨ sh_trouble s = true;
  co_loading : ∀ p x w v, sh_procs s !! p = Some x → p_loading x = Some (w, Some v) → v ≤ sh_version s;
  co_writer : ∀ p x o, sh_procs s !! p = Some x → p_loading x = Some (true, o) → sh_lock s = Some (p, WLocked);
  co_copy : ∀ p data, sh_lock s = Some (p, WHas data) → data = sh_file s ∨ sh_trouble s = true;
  co_saved : ∀ p data, sh_lock s = Some (p, WSaved data) → data = sh_file s;
  co_trouble : sh_trouble s = true → sh_troubled s = true;
  co_log : sh_file s = replay file s ∨ sh_troubled s = true;
}.

Lemma initial_coherent file n : coherent file (initial file n).
Proof.
  assert (∀ p x, sh_procs (initial file n) !! p = Some x → x = mkProc None None) as Hx.
  { intros p x Hp. simpl in Hp. apply elem_of_list_to_map_2 in Hp.
    apply list_elem_of_fmap in Hp as (q&[= -> ->]&_). done. }
  split; try done; try (intros p x; intros; by match goal with H : _ !! _ = Some _ |- _ => apply Hx in H as -> end).
  by left.
Qed.

Lemma set_lock_coherent file s l :
  coherent file s →
  (∀ p x o, sh_procs s !! p = Some x → p_loading x = Some (true, o) → l = Some (p, WLocked)) →
  (∀ p data, l = Some (p, WHas data) → data = sh_file s ∨ sh_trouble s = true) →
  (∀ p data, l ≠ Some (p, WSaved data)) → saving s = false ∨ sh_trouble s = true →
  coherent file (set_lock l s).
Proof.
  intros [Hv Hk Hf Hl Hw Hc Hs Ht Hlog] Hw' Hc' Hno Hsv. split; simpl; try done.
  - intros p x cs Hp Hx Hg. destruct (Hf p x cs Hp Hx Hg) as [?|[Hb|?]]; [by left| |by auto].
    destruct Hsv as [Hsv|?]; [congruence|by auto].
  - intros p data Hl'. by apply Hno in Hl'.
Qed.

Lemma set_proc_coherent file s p x :
  coherent file s →
  (∀ cs, p_current x = Some cs → cs_generation cs ≤ sh_version s) →
  (∀ cs, p_current x = Some cs → cs_generation cs = sh_version s →
     cs_cache cs = sh_file s ∨ saving s = true ∨ sh_trouble s = true) →
  (∀ w v, p_loading x = Some (w, Some v) → v ≤ sh_version s) →
  (∀ o, p_loading x = Some (true, o) → sh_lock s = Some (p, WLocked)) →
  coherent file (set_proc p x s).
Proof.
  intros [Hv Hk Hf Hl Hw Hc Hs Ht Hlog] Hk' Hf' Hl' Hw'.
  split; simpl; try done; intros q y; [intros cs|intros cs|intros w v|intros o];
    (intros [[<- <-]|[_ Hq]]%lookup_insert_Some; eauto).
Qed.

Lemma add_trouble_coherent file s b : coherent file s → coherent file (add_trouble b s).
Proof.
  intros [Hv Hk Hf Hl Hw Hc Hs Ht Hlog]. split; simpl; try done.
  - intros p x cs Hp Hx Hg. change (saving (add_trouble b s)) with (saving s).
    destruct (Hf p x cs Hp Hx Hg) as [?|[?| ->]]; [by auto|by auto|]. rewrite orb_true_r. auto.
  - intros p data Hd. destruct (Hc p data Hd) as [?| ->]; [by auto|]. rewrite orb_true_r. auto.
  - intros [->|Htr]%orb_true_iff; [done|]. rewrite (Ht Htr). apply orb_true_r.
  - destruct Hlog as [?| ->]; [by left|]. rewrite orb_true_r. auto.
Qed.

(** What a [get] does for [write]. *)
Lemma got_coherent file s w p data :
  coherent file s → (w = true → sh_lock s = Some (p, WLocked)) →
  (∀ x, sh_procs s !! p = Some x → ∀ o, p_loading x ≠ Some (true, o)) →
  (w = true → data = sh_file s ∨ sh_trouble s = true) → coherent file (got w p data s).
Proof.
  intros Hc Hw Hno Hd. destruct w; [|done]. specialize (Hw eq_refl). specialize (Hd eq_refl). simpl.
  apply set_lock_coherent; [done| |by intros ?? [= <- <-]|done|left; unfold saving; by rewrite Hw].
  intros q x o Hq Hx. pose proof (co_writer _ _ Hc q x o Hq Hx) as Hl. rewrite Hw in Hl. injection Hl as <-.
  by destruct (Hno x Hq o).
Qed.

(** The death of a process. *)
Lemma die_coherent file s p :
  coherent file s →
  coherent file (add_trouble (match sh_lock s with Some (q, WSaved _) => bool_decide (q = p) | _ => false end)
    (set_lock (match sh_lock s with Some (q, st) => if decide (q = p) then None else Some (q, st) | None => None end)
      (set_proc p (mkProc None None) s))).
Proof.
  intros Hc. destruct (sh_lock s) as [[q st]|] eqn:Hlock.
  - destruct (decide (q = p)) as [->|Hne].
    + destruct Hc as [Hv Hk Hf Hl Hw Hcp Hs Ht Hlog].
      assert (∀ r x o, <[p := mkProc None None]> (sh_procs s) !! r = Some x → p_loading x = Some (true, o) → False) as Hno.
      { intros r x o [[<- <-]|[Hr Hx]]%lookup_insert_Some; [done|]. intros Hld.
        pose proof (Hw r x o Hx Hld). congruence. }
      split; simpl; try done.
      * intros r x cs [[<- <-]|[_ Hq]]%lookup_insert_Some; [done|by apply (Hk r x)].
      * intros r x cs [[<- <-]|[_ Hq]]%lookup_insert_Some; [done|]. intros Hx Hg.
        destruct (Hf r x cs Hq Hx Hg) as [?|[Hsv| ->]]; [by left| |rewrite orb_true_r; by auto].
        unfold saving in Hsv. rewrite Hlock in Hsv. destruct st; try done. rewrite bool_decide_true by done. by auto.
      * intros r x w v [[<- <-]|[_ Hq]]%lookup_insert_Some; [done|by apply (Hl r x w)].
      * intros r x o Hr Hx. by destruct (Hno r x o Hr Hx).
      * intros [Hb|Htr]%orb_true_iff; [by rewrite Hb|rewrite (Ht Htr); apply orb_true_r].
      * destruct Hlog as [?| ->]; [by left|rewrite orb_true_r; by auto].
    + rewrite bool_decide_false by done.
      assert (add_trouble (match st with WSaved _ => false | _ => false end)
                (set_lock (Some (q, st)) (set_proc p (mkProc None None) s)) = set_proc p (mkProc None None) s) as ->.
      { unfold add_trouble, set_lock, set_proc. simpl. rewrite Hlock. by destruct st. }
      by apply set_proc_coherent.
  - assert (add_trouble false (set_lock None (set_proc p (mkProc None None) s)) = set_proc p (mkProc None None) s) as ->.
    { unfold add_trouble, set_lock, set_proc. simpl. by rewrite Hlock. }
    by apply set_proc_coherent.
Qed.

Lemma step_coherent file s s' : coherent file s → step s s' → coherent file s'.
Proof.
  intros Hc. destruct 1 as [s p cur cs o w Hp Hmay Ho Hhit|s p cur o w Hp Hmay Ho Hmiss|s p cur o w ok Hp
    |s p Hlock Hp|s p data f Hlock|s p cur data o v cs Hlock Hp Ho Hup|s p data Hlock|s p Hp].
  - apply got_coherent; [done|done|intros x; rewrite Hp; by intros [= <-]|]. intros ->.
    unfold cache_state_hit in Hhit. destruct cur as [cs'|], o as [v|]; try done.
    destruct (Z.eqb_spec (cs_generation cs') v) as [Hg|]; [|done]. injection Hhit as ->.
    destruct Ho as [[= ->]|]; [|done].
    destruct (co_fresh _ _ Hc p _ cs Hp eq_refl Hg) as [?|[Hsv|?]]; [by left| |by right].
    unfold saving in Hsv. by rewrite (Hmay eq_refl) in Hsv.
  - apply set_proc_coherent; simpl; [done| | | |].
    + intros cs Hcur. by apply (co_known _ _ Hc p (mkProc cur None) cs).
    + intros cs Hcur. by apply (co_fresh _ _ Hc p (mkProc cur None) cs).
    + intros w' v' [= -> ->]. destruct Ho as [[= ->]|]; [lia|done].
    + intros o' [= -> ->]. by apply Hmay.
  - assert (coherent file (set_proc p (mkProc (Some (cache_state_loaded o (load ok s))) None) (add_trouble (negb ok) s))) as Hc'.
    { apply set_proc_coherent; simpl; [by apply add_trouble_coherent| | |done|done].
      - intros cs [= <-]. simpl. destruct o as [v|]; simpl; [by apply (co_loading _ _ Hc p _ w v Hp)|apply Hc].
      - intros cs [= <-] _. destruct ok; [by left|by auto]. }
    apply got_coherent; [done| | |].
    + intros ->. simpl. by apply (co_writer _ _ Hc p _ o Hp).
    + simpl. intros x. rewrite lookup_insert_eq. by intros [= <-].
    + intros _. destruct ok; [by left|by right].
  - apply set_lock_coherent; [done| |done|done|left; unfold saving; by rewrite Hlock].
    intros q x o Hq Hx. pose proof (co_writer _ _ Hc q x o Hq Hx). congruence.
  - destruct Hc as [Hv Hk Hf Hl Hw Hcp Hs Ht Hlog].
    split; simpl; try done; [by auto| |by intros ?? [= _ <-]|].
    + intros q x o Hq Hx. pose proof (Hw q x o Hq Hx). congruence.
    + unfold replay in *. simpl. rewrite foldl_app. simpl.
      destruct (Hcp p data Hlock) as [->|?]; [|by auto]. destruct Hlog as [<-|?]; auto.
  - assert (coherent file (set_lock None (bump v s)) ∧
      (∀ cs', cs' = cs → cs_generation cs' ≤ sh_version (bump v s) ∧ cs_cache cs' = sh_file s)) as [Hc' Hcs].
    { destruct Hc as [Hv Hk Hf Hl Hw Hcp Hs Ht Hlog]. pose proof (Hs p data Hlock) as ->.
      destruct Ho as [-> | ->]; simpl in Hup; injection Hup as <- <-; (split; [|intros cs' ->; simpl; split; [lia|done]]).
      - split; simpl; try done; try lia.
        + intros q x cs Hq Hx. pose proof (Hk q x cs Hq Hx). lia.
        + intros q x cs Hq Hx Hg. pose proof (Hk q x cs Hq Hx). lia.
        + intros q x w v Hq Hx. pose proof (Hl q x w v Hq Hx). lia.
        + intros q x o Hq Hx. pose proof (Hw q x o Hq Hx). congruence.
      - split; simpl; try done; try by auto.
        intros q x o Hq Hx. pose proof (Hw q x o Hq Hx). congruence. }
    change (coherent file (set_proc p (mkProc (Some cs) None) (set_lock None (bump v s)))).
    apply set_proc_coherent; simpl; [done| | |done|done]; intros cs' [= <-]; destruct (Hcs cs eq_refl); auto.
  - apply set_lock_coherent; [done| |done|done|left; unfold saving; by rewrite Hlock].
    intros q x o Hq Hx. pose proof (co_writer _ _ Hc q x o Hq Hx). congruence.
  - by apply die_coherent.
Qed.

Lemma reachable_coherent file n s : rtc step (initial file n) s → coherent file s.
Proof.
  intros Hr. remember (initial file n) as s0 eqn:H0.
  assert (coherent file s0) as Hc by (rewrite H0; apply initial_coherent). clear H0.
  induction Hr as [|s s1 s2 Hstep Hr IH]; [done|]. apply IH. by eapply step_coherent.
Qed.

(** ** Lemmas on the back-off of one host *)

(** The delays in seconds: 10, 20, 40, 80, 160, then 180. *)
Definition back_off_delay (count : Z) : Z := Z.min (10 * 2 ^ count) 180.

Definition back_off_ok (b : BackOffState) : Prop := 0 ≤ back_off_doubling_count b ≤ 5.

Lemma retried_spec b time err :
  back_off_ok b →
  let '(b', r) := retried b time err in
  back_off_ok b' ∧ last_error b' = err ∧ first_fail_time b' = first_fail_time b ∧
  back_off_doubling_count b ≤ back_off_doubling_count b' ∧
  match r with
  | None => next_try b' = next_try b ∧ back_off_doubling_count b' = back_off_doubling_count b
  | Some n => n = next_try b' ∧ n = time + back_off_delay (back_off_doubling_count b) ∧
              time_to_next_try b time = 0 ∧
              (0 < back_off_doubling_count b ∨ BACK_OFF_MIN_TIME_S ≤ time - first_fail_time b)
  end.
Proof.
  intros Hok. unfold retried, back_off_ok, back_off_delay in *. destruct b as [k e t n].
  cbn [back_off_doubling_count last_error first_fail_time next_try] in *.
  destruct (Z.ltb_spec 0 (time_to_next_try (mkBackOff k err t n) time)) as [Hlt|Hge]; simpl.
  { split_and!; try done; lia. }
  destruct (Z.eqb_spec k 0) as [->|Hk0]; simpl.
  - destruct (Z.ltb_spec (time - t) BACK_OFF_MIN_TIME_S); simpl; split_and!; try done; try lia;
      unfold time_to_next_try in *; simpl in *; lia.
  - assert (k = 1 ∨ k = 2 ∨ k = 3 ∨ k = 4 ∨ k = 5) as Hcases by lia.
    destruct Hcases as [-> |[-> |[-> |[-> | ->]]]]; simpl; split_and!; try done; try lia;
      unfold time_to_next_try in *; simpl in *; lia.
Qed.

Definition run_retries (b : BackOffState) (l : list (Z * string)) : BackOffState :=
  foldl (λ b '(t, e), (retried b t e).1) b l.

Lemma run_retries_spec t0 e0 l :
  let b := run_retries (back_off_new t0 e0) l in
  back_off_ok b ∧ first_fail_time b = t0 ∧
  (∃ t, t ∈ t0 :: l.*1 ∧ next_try b ≤ t + BACK_OFF_MAX_TIME_S) ∧
  ((∀ t, t ∈ l.*1 → t - t0 < BACK_OFF_MIN_TIME_S) → next_try b = t0 ∧ back_off_doubling_count b = 0).
Proof.
  induction l as [|[t e] l IH] using rev_ind; simpl.
  { unfold run_retries, back_off_ok. simpl. split_and!; try done; [lia..|].
    exists t0. split; [left|]. unfold BACK_OFF_MAX_TIME_S. lia. }
  unfold run_retries in *. rewrite foldl_app. simpl.
  destruct IH as (Hok&Hf&(t1&Hin&Hle)&Hearly). set (b := foldl _ _ l) in *.
  pose proof (retried_spec b t e Hok) as Hspec. destruct (retried b t e) as [b' r]. simpl.
  destruct Hspec as (Hok'&_&Hf'&_&Hr). rewrite fmap_app. simpl. split_and!; [done|congruence| |].
  - destruct r as [n|].
    + destruct Hr as (Hn1&Hn2&_). exists t. split; [set_solver|]. rewrite <-Hn1, Hn2.
      unfold back_off_delay, BACK_OFF_MAX_TIME_S. lia.
    + destruct Hr as [-> _]. exists t1. split; [set_solver|done].
  - intros Hall. destruct Hearly as [Hn Hk].
    { intros t2 Ht2. apply Hall. set_solver. }
    destruct r as [n|].
    + destruct Hr as (_&_&_&[?|Hmin]); [lia|]. specialize (Hall t). rewrite Hf in Hmin.
      assert (t - t0 < BACK_OFF_MIN_TIME_S) by (apply Hall; set_solver). lia.
    + destruct Hr as [-> ->]. done.
Qed.

(** ** Lemmas on reachability and the canary *)

Definition all_unreachable (c : RemoteMappingCache) : Prop :=
  ∀ remote r, remotes c !! remote = Some r → mapping_is_reachable r = false.

(** A canary is only set while everything is unreachable. *)
Definition canary_ok (c : RemoteMappingCache) : Prop :=
  is_Some (canary_remote c) → all_unreachable c.

Lemma mapping_is_reachable_true r :
  mapping_is_reachable r = true ↔
  rm_hosts r = ∅ ∨ ∃ host h, rm_hosts r !! host = Some h ∧ host_is_up h = true.
Proof.
  unfold mapping_is_reachable. case_bool_decide as He; [tauto|]. rewrite existsb_exists. split.
  - intros (h&Hin%list_elem_of_In&Hup). right. apply list_elem_of_fmap in Hin as ([host h']&->&Hin).
    apply elem_of_map_to_list in Hin. eauto.
  - intros [?|(host&h&Hh&Hup)]; [done|]. exists h. split; [|done]. apply list_elem_of_In, list_elem_of_fmap.
    exists (host, h). split; [done|]. by apply elem_of_map_to_list.
Qed.

Lemma exists_reachable_true c :
  existsb mapping_is_reachable (map_to_list (remotes c)).*2 = true ↔
  ∃ remote r, remotes c !! remote = Some r ∧ mapping_is_reachable r = true.
Proof.
  rewrite existsb_exists. split.
  - intros (r&Hin%list_elem_of_In&Hup). apply list_elem_of_fmap in Hin as ([remote r']&->&Hin).
    apply elem_of_map_to_list in Hin. eauto.
  - intros (remote&r&Hr&Hup). exists r. split; [|done]. apply list_elem_of_In, list_elem_of_fmap.
    exists (remote, r). split; [done|]. by apply elem_of_map_to_list.
Qed.

Lemma canary_is_needed_spec c :
  let '(c', needed) := canary_is_needed c in
  remotes c' = remotes c ∧
  (needed = true → all_unreachable c) ∧
  (needed = false →
     (canary_remote c' = canary_remote c ∧ ∃ x, canary_remote c = Some x ∧ is_Some (remotes c !! x)) ∨
     (canary_remote c' = None ∧
      ∃ remote r, remotes c !! remote = Some r ∧ mapping_is_reachable r = true)).
Proof.
  assert (∀ c, let needed := negb (existsb mapping_is_reachable (map_to_list (remotes c)).*2) in
    (needed = true → all_unreachable c) ∧
    (needed = false → ∃ remote r, remotes c !! remote = Some r ∧ mapping_is_reachable r = true)) as Hcheck.
  { intros c'. simpl. split.
    - intros Hn%negb_true_iff remote r Hr. destruct (mapping_is_reachable r) eqn:Hup; [|done].
      assert (existsb mapping_is_reachable (map_to_list (remotes c')).*2 = true) as Ht
        by (apply exists_reachable_true; eauto).
      congruence.
    - intros Hn%negb_false_iff. by apply exists_reachable_true. }
  unfold canary_is_needed. destruct (canary_remote c) as [x|] eqn:Hx.
  - case_bool_decide as Hin; simpl.
    + split_and!; [done|done|]. intros _. left. split; [done|eauto].
    + destruct (Hcheck (mkCache (remotes c) None)) as [H1 H2]. simpl in *.
      split_and!; [done|exact H1|]. intros Hn%H2. right. done.
  - destruct (Hcheck c) as [H1 H2]. simpl in *. split_and!; [done|done|]. intros Hn%H2. right. done.
Qed.

Lemma reset_all_up time c remote host h :
  info_by_hostname (reset_all_back_off_states time c) remote host = Some h → hi_back_off h = None.
Proof.
  unfold info_by_hostname, reset_all_back_off_states. simpl. rewrite lookup_fmap.
  destruct (remotes c !! remote) as [r|]; simpl; [|done]. rewrite lookup_fmap.
  destruct (rm_hosts r !! host); simpl; [|done]. by intros [= <-].
Qed.

Lemma host_set_reachable_up time h st :
  host_is_up (host_set_reachable time h st).1 = negb (is_unreachable st).
Proof.
  unfold host_set_reachable, host_is_up. destruct st; simpl; [done|].
  destruct (hi_back_off h) as [b|]; [|done]. by destruct (retried b time err).
Qed.

Lemma put_info_lookup c remote host h remote' host' :
  is_Some (remotes c !! remote) →
  info_by_hostname (put_info c remote host h) remote' host' =
  if decide (remote' = remote ∧ host' = host) then Some h else info_by_hostname c remote' host'.
Proof.
  intros [r Hr]. unfold info_by_hostname, put_info. simpl.
  destruct (decide (remote' = remote)) as [->|Hne].
  - rewrite lookup_alter_eq, Hr. simpl. destruct (decide (host' = host)) as [->|Hh].
    + by rewrite lookup_insert_eq, decide_True.
    + rewrite lookup_insert_ne by done. by rewrite decide_False by tauto.
  - rewrite lookup_alter_ne by done. by rewrite decide_False by tauto.
Qed.

Lemma all_unreachable_infos c :
  all_unreachable c ↔
  ∀ remote r, remotes c !! remote = Some r → rm_hosts r ≠ ∅ ∧
    ∀ host h, info_by_hostname c remote host = Some h → host_is_up h = false.
Proof.
  unfold all_unreachable, info_by_hostname. split; intros Hall remote r Hr; specialize (Hall remote r Hr).
  - split.
    + intros He. assert (mapping_is_reachable r = true) by (apply mapping_is_reachable_true; by left).
      congruence.
    + intros host h. rewrite Hr. simpl. intros Hh. destruct (host_is_up h) eqn:Hup; [|done].
      assert (mapping_is_reachable r = true) by (apply mapping_is_reachable_true; eauto). congruence.
  - destruct Hall as [Hne Hall]. destruct (mapping_is_reachable r) eqn:Hup; [|done].
    apply mapping_is_reachable_true in Hup as [?|(host&h&Hh&Hup)]; [done|].
    specialize (Hall host h). rewrite Hr in Hall. simpl in Hall. rewrite (Hall Hh) in Hup. done.
Qed.

Lemma put_info_remotes c remote host h remote' :
  is_Some (remotes (put_info c remote host h) !! remote') ↔ is_Some (remotes c !! remote').
Proof.
  unfold put_info. simpl. destruct (decide (remote' = remote)) as [->|Hne].
  - rewrite lookup_alter_eq. apply fmap_is_Some.
  - by rewrite lookup_alter_ne.
Qed.

(** Marking another host unreachable leaves everything unreachable. *)
Lemma all_unreachable_put c remote host h :
  all_unreachable c → is_Some (remotes c !! remote) → host_is_up h = false →
  all_unreachable (put_info c remote host h).
Proof.
  intros Hall Hr Hdown. rewrite all_unreachable_infos in Hall. apply all_unreachable_infos.
  intros remote' r' Hr'. split.
  - unfold put_info in Hr'. simpl in Hr'. destruct (decide (remote' = remote)) as [->|Hne].
    + rewrite lookup_alter_eq in Hr'. destruct (remotes c !! remote); simplify_eq/=.
      apply insert_non_empty.
    + rewrite lookup_alter_ne in Hr' by done. by apply (Hall remote').
  - intros host' h'. rewrite put_info_lookup by done. destruct (decide _); [by intros [= <-]|].
    assert (is_Some (remotes c !! remote')) as [r Hrr] by (rewrite <-(put_info_remotes c remote host h); eauto).
    intros Hh. by apply (proj2 (Hall remote' r Hrr) host').
Qed.

Lemma least_time_up now infos time err h :
  h ∈ infos → hi_back_off h = None → least_time now infos time err = None.
Proof.
  revert time err. induction infos as [|i infos IH]; intros time err Hin Hup; [set_solver|]. simpl.
  apply elem_of_cons in Hin as [<-|Hin]; [by rewrite Hup|].
  destruct (hi_back_off i); [|done]. destruct (_ <? time); by apply IH.
Qed.

(** A reachable remote may be tried at any time. *)
Lemma reachable_may_try c remote r now :
  remotes c !! remote = Some r → mapping_is_reachable r = true → remote_time_to_next_try c remote now = None.
Proof.
  intros Hr Hup. unfold remote_time_to_next_try. case_bool_decide; [done|]. rewrite Hr. simpl.
  apply mapping_is_reachable_true in Hup as [He|(host&h&Hh&Hup)].
  - by rewrite He, map_to_list_empty.
  - rewrite (least_time_up now _ _ _ h); [done| |].
    + apply list_elem_of_fmap. exists (host, h). split; [done|]. by apply elem_of_map_to_list.
    + unfold host_is_up in Hup. by destruct (hi_back_off h).
Qed.

Lemma set_or_reset_canary_down time c remote :
  is_Some (remotes c !! remote) → canary_ok c →
  let c' := set_or_reset_canary time c remote true in
  remotes c' = remotes c ∧ canary_ok c' ∧
  ∃ x, is_Some (remotes c' !! x) ∧ ∀ now, remote_time_to_next_try c' x now = None.
Proof.
  intros Hr Hok. unfold set_or_reset_canary. simpl.
  pose proof (canary_is_needed_spec c) as Hspec. destruct (canary_is_needed c) as [c1 needed].
  destruct Hspec as (Hrem&Hneed&Hnot). destruct needed; simpl.
  - split_and!; [done| |].
    + intros _ x r. simpl. rewrite Hrem. by apply Hneed.
    + exists remote. split; [by rewrite Hrem|]. intros now. unfold remote_time_to_next_try. simpl.
      by rewrite bool_decide_true.
  - split_and!; [done| |].
    + intros Hs x r. rewrite Hrem. destruct (Hnot eq_refl) as [[Heq _]|[Heq _]]; rewrite Heq in Hs.
      * by apply Hok.
      * by destruct Hs.
    + destruct (Hnot eq_refl) as [[Heq (x&Hx&Hin)]|[Heq (x&r&Hx&Hup)]].
      * exists x. split; [by rewrite Hrem|]. intros now. unfold remote_time_to_next_try.
        by rewrite Heq, Hx, bool_decide_true.
      * exists x. split; [rewrite Hrem; eauto|]. intros now. eapply reachable_may_try; [|done].
        by rewrite Hrem.
Qed.

(** ** The least waiting time *)

Lemma time_to_next_try_bound b now : 0 ≤ time_to_next_try b now < u64_MAX.
Proof. unfold time_to_next_try, i64_saturating_sub, i64_MAX, i64_MIN, u64_MAX. lia. Qed.

Lemma least_time_Some now infos : ∀ time err t e,
  least_time now infos time err = Some (t, e) →
  t ≤ time ∧
  ((t, e) = (time, err) ∨
   ∃ h b, h ∈ infos ∧ hi_back_off h = Some b ∧ t = time_to_next_try b now ∧ e = last_error b) ∧
  ∀ h, h ∈ infos → ∃ b, hi_back_off h = Some b ∧ t ≤ time_to_next_try b now.
Proof.
  induction infos as [|i infos IH]; intros time err t e; simpl.
  { intros [= <- <-]. split_and!; [lia|by left|set_solver]. }
  destruct (hi_back_off i) as [b|] eqn:Hb; [|done].
  destruct (Z.ltb_spec (time_to_next_try b now) time) as [Hlt|Hge]; intros Ht%IH.
  - destruct Ht as (Hle&Hwho&Hall). split_and!; [lia| |].
    + destruct Hwho as [[= -> ->]|(h&b'&Hin&?&?&?)]; right; [exists i, b|exists h, b'];
        (split; [set_solver|done]).
    + intros h [->|Hh]%elem_of_cons; [exists b; split; [done|lia]|by apply Hall].
  - destruct Ht as (Hle&Hwho&Hall). split_and!; [lia| |].
    + destruct Hwho as [?|(h&b'&Hin&?&?&?)]; [by left|]. right. exists h, b'. split; [set_solver|done].
    + intros h [->|Hh]%elem_of_cons; [exists b; split; [done|lia]|by apply Hall].
Qed.

(** ** Node names *)

(** [node_to_host] only maps a node name to a host that has this node name. *)
Definition node_names_ok (r : RemoteMapping) : Prop :=
  ∀ node host, rm_node_to_host r !! node = Some host →
    ∃ h, rm_hosts r !! host = Some h ∧ hi_node_name h = Some node.

Lemma set_node_name_ok r host n : node_names_ok r → node_names_ok (mapping_set_node_name r host n).
Proof.
  intros Hok node host'. unfold mapping_set_node_name.
  destruct (rm_hosts r !! host) as [info|] eqn:Hi; [|by apply Hok]. simpl.
  set (n2h := match hi_node_name info with Some old => _ | None => _ end).
  assert (n2h !! node = Some host' → host' ≠ host ∧ rm_node_to_host r !! node = Some host') as Hold.
  { unfold n2h. intros Hn. destruct (hi_node_name info) as [old|] eqn:Ho.
    - apply lookup_delete_Some in Hn as [Hne Hn]. split; [|done]. intros ->.
      destruct (Hok _ _ Hn) as (h&Hh&Hname). rewrite Hi in Hh. congruence.
    - split; [|done]. intros ->. destruct (Hok _ _ Hn) as (h&Hh&Hname). rewrite Hi in Hh. congruence. }
  assert (n2h !! node = Some host' →
    ∃ h, <[host := mkHostInfo (hi_hostname info) n (hi_back_off info)]> (rm_hosts r) !! host' = Some h ∧
         hi_node_name h = Some node) as Hkeep.
  { intros [Hne Hn]%Hold. rewrite lookup_insert_ne by done. by apply Hok. }
  destruct n as [new|]; [|done]. intros [[<- <-]|[_ Hn]]%lookup_insert_Some; [|by apply Hkeep].
  rewrite lookup_insert_eq. eauto.
Qed.

(** ** Properties *)

(** Bounds of the back-off.  Starting from a first failure at [t0], after
    any list of further failures the exponent stays within [0, 5] (so that the
    [i64] power cannot overflow), the waiting time at any later moment is at
    most three minutes, and as long as all failures lie within the first ten
    minutes there is no waiting time at all. *)
Theorem back_off_bounds (t0 : Z) (e0 : string) (l : list (Z * string)) (now : Z) :
  in_i64 now = true → in_i64 t0 = true → (∀ t, t ∈ t0 :: l.*1 → t ≤ now) →
  let b := run_retries (back_off_new t0 e0) l in
  0 ≤ back_off_doubling_count b ≤ 5 ∧
  BACK_OFF_BASE_TIME_S * 2 ^ back_off_doubling_count b ≤ 320 ∧
  time_to_next_try b now ≤ BACK_OFF_MAX_TIME_S ∧
  ((∀ t, t ∈ l.*1 → t - t0 < BACK_OFF_MIN_TIME_S) → time_to_next_try b now = 0).
Proof.
  intros Hn Ht Hlate b. destruct (run_retries_spec t0 e0 l) as (Hok&_&(t&Hin&Hle)&Hearly).
  fold b in Hok, Hle, Hearly. pose proof (Hlate t Hin) as Htn.
  pose proof (Hlate t0 (list_elem_of_here _ _)) as Ht0.
  unfold in_i64 in *. apply andb_true_iff in Hn as [Hn1%Z.leb_le Hn2%Z.ltb_lt].
  apply andb_true_iff in Ht as [Ht1%Z.leb_le Ht2%Z.ltb_lt].
  unfold back_off_ok, BACK_OFF_BASE_TIME_S, BACK_OFF_MAX_TIME_S in *. split_and!; [lia|lia| | |].
  - pose proof (Z.pow_le_mono_r 2 (back_off_doubling_count b) 5). lia.
  - unfold time_to_next_try, i64_saturating_sub, i64_MAX, i64_MIN. lia.
  - intros [Hnext _]%Hearly. unfold time_to_next_try, i64_saturating_sub, i64_MAX, i64_MIN.
    rewrite Hnext. lia.
Qed.

(** The canary.  Marking a host keeps the invariant that a canary is only
    set while every remote is unreachable; when a host turns out reachable while
    a canary is set, every host of every remote is released from its back-off
    and the canary is dropped; after a host was marked unreachable there is
    always some remote that may be tried at once; and a notification is sent
    exactly when a host that was reachable becomes unreachable. *)
Theorem mark_host_canary (time : Z) (c : RemoteMappingCache) (remote host : string)
    (st : ConnectionState) (info : HostInfo) :
  canary_ok c → info_by_hostname c remote host = Some info →
  let '(c', notes) := mark_host_reachable time c remote host st in
  canary_ok c' ∧
  host_is_reachable c' remote host = negb (is_unreachable st) ∧
  notes = match st with
          | Unreachable err => if host_is_up info then [(remote, host, err)] else []
          | Reachable => []
          end ∧
  (st = Reachable → is_Some (canary_remote c) →
   canary_remote c' = None ∧ ∀ r h i, info_by_hostname c' r h = Some i → host_is_up i = true) ∧
  (st ≠ Reachable →
   ∃ x, is_Some (remotes c' !! x) ∧ ∀ now, remote_time_to_next_try c' x now = None).
Proof.
  intros Hok Hinfo. unfold mark_host_reachable. rewrite Hinfo.
  assert (is_Some (remotes c !! remote)) as Hr.
  { unfold info_by_hostname in Hinfo. destruct (remotes c !! remote); [eauto|done]. }
  pose proof (host_set_reachable_up time info st) as Hup.
  destruct (host_set_reachable time info st) as [info' nt]. simpl in Hup.
  set (c1 := put_info c remote host info').
  assert (is_Some (remotes c1 !! remote)) as Hr1 by by apply put_info_remotes.
  assert (info_by_hostname c1 remote host = Some info') as Hi1.
  { unfold c1. rewrite put_info_lookup by done. by rewrite decide_True. }
  assert (∀ c', remotes c' = remotes c1 → host_is_reachable c' remote host = negb (is_unreachable st)) as Hhost.
  { intros c' Heq. unfold host_is_reachable, info_by_hostname in *. rewrite Heq, Hi1. done. }
  destruct st as [|err]; simpl in *.
  - unfold set_or_reset_canary. simpl. change (canary_remote c1) with (canary_remote c).
    case_bool_decide as Hcan.
    + split_and!; [by intros []| |by destruct (host_is_up info)| |done].
      * unfold host_is_reachable.
        destruct (info_by_hostname (reset_all_back_off_states time c1) remote host) as [i|] eqn:Hi; [|done].
        apply reset_all_up in Hi. unfold host_is_up. by rewrite Hi.
      * intros _ _. split; [done|]. intros r h i Hi%reset_all_up. unfold host_is_up. by rewrite Hi.
    + split_and!; [intros Hs; by destruct Hcan|by apply Hhost|by destruct (host_is_up info)|done|done].
  - assert (canary_ok c1) as Hok1.
    { intros Hs. unfold c1. apply all_unreachable_put; [by apply Hok|done|done]. }
    destruct (set_or_reset_canary_down time c1 remote Hr1 Hok1) as (Hrem&Hok'&Htry).
    split_and!; [done|by apply Hhost|done|done|]. intros _. exact Htry.
Qed.

(** [remote_time_to_next_try] is the least waiting time of the remote's
    hosts: it answers [None] exactly if the remote is the canary, unknown or
    reachable, and otherwise the minimum over all hosts together with the error
    of a host that attains it. *)
Theorem remote_time_is_least (c : RemoteMappingCache) (remote : string) (now : Z) :
  match remote_time_to_next_try c remote now with
  | None => canary_remote c = Some remote ∨
            ∀ r, remotes c !! remote = Some r → mapping_is_reachable r = true
  | Some (t, e) =>
      canary_remote c ≠ Some remote ∧
      ∃ r, remotes c !! remote = Some r ∧
        (∃ host h b, rm_hosts r !! host = Some h ∧ hi_back_off h = Some b ∧
                     t = time_to_next_try b now ∧ e = last_error b) ∧
        ∀ host h, rm_hosts r !! host = Some h →
          ∃ b, hi_back_off h = Some b ∧ t ≤ time_to_next_try b now
  end.
Proof.
  assert (∀ r h, h ∈ (map_to_list (rm_hosts r)).*2 ↔ ∃ host, rm_hosts r !! host = Some h) as Hel.
  { intros r h. rewrite list_elem_of_fmap. split.
    - intros ([host h']&->&Hin%elem_of_map_to_list). eauto.
    - intros [host Hh]. exists (host, h). split; [done|]. by apply elem_of_map_to_list. }
  unfold remote_time_to_next_try. case_bool_decide as Hcan; [by left|].
  destruct (remotes c !! remote) as [r|] eqn:Hr; simpl; [|right; by intros].
  destruct (least_time now (map_to_list (rm_hosts r)).*2 u64_MAX "") as [[t e]|] eqn:Hl; simpl.
  - apply least_time_Some in Hl as (Hle&Hwho&Hall).
    destruct (Z.eqb_spec t u64_MAX) as [->|Hne].
    + right. intros r' [= <-]. apply mapping_is_reachable_true. left. apply map_empty. intros host.
      destruct (rm_hosts r !! host) as [h|] eqn:Hh; [|done]. destruct (Hall h) as (b&_&Hb).
      { apply Hel. eauto. }
      pose proof (time_to_next_try_bound b now). lia.
    + split; [done|]. exists r. split_and!; [done| |].
      * destruct Hwho as [[= -> _]|(h&b&[host Hh]%Hel&?&?&?)]; [done|]. by exists host, h, b.
      * intros host h Hh. apply Hall, Hel. eauto.
  - right. intros r' [= <-]. apply mapping_is_reachable_true.
    destruct (decide (rm_hosts r = ∅)) as [|Hne]; [by left|right].
    assert (∀ l time err, least_time now l time err = None → ∃ h, h ∈ l ∧ hi_back_off h = None) as Hnone.
    { clear. induction l as [|i l IH]; intros time err; simpl; [done|].
      destruct (hi_back_off i) as [b|] eqn:Hb; [|intros _; exists i; set_solver].
      destruct (_ <? time); intros (h&?&?)%IH; exists h; set_solver. }
    destruct (Hnone _ _ _ Hl) as (h&[host Hh]%Hel&Hup). exists host, h. split; [done|].
    unfold host_is_up. by rewrite Hup.
Qed.

(** Node names.  [set_node_name] keeps [node_to_host] sound (it only leads
    to a host that carries this node name), and after naming a known host, its
    node name leads to it. *)
Theorem set_node_name_sound (c : RemoteMappingCache) (remote host : string) (n : option string)
    (r : RemoteMapping) :
  remotes c !! remote = Some r → node_names_ok r →
  let c' := set_node_name c remote host n in
  (∃ r', remotes c' !! remote = Some r' ∧ node_names_ok r') ∧
  (∀ node, n = Some node → is_Some (rm_hosts r !! host) →
     node_name_to_hostname c' remote node = Some host ∧
     hi_node_name <$> info_by_node_name c' remote node = Some (Some node)).
Proof.
  intros Hr Hok c'. unfold c', set_node_name. rewrite Hr. split.
  - exists (mapping_set_node_name r host n). simpl. rewrite lookup_insert_eq.
    split; [done|by apply set_node_name_ok].
  - intros node -> [info Hi]. unfold node_name_to_hostname, info_by_node_name. simpl.
    rewrite lookup_insert_eq. simpl. unfold mapping_set_node_name. rewrite Hi. simpl.
    by rewrite !lookup_insert_eq; simpl; rewrite lookup_insert_eq.
Qed.

(** C7: coherence of the in-memory copies, and no lost update.  Whatever several
    processes do, also when they die at any point, in every reachable state:
    a process whose copy passes the generation test of [CacheState::get], while no
    save is half way through, has exactly the data of the file, and the holder of the
    lock works on the data of the file; and the file holds every change that was
    saved, applied in order to the file of the beginning.  The conditions are that
    since the counter was last bumped ([sh_trouble]), and for the last part ever
    ([sh_troubled]), no change was saved without bumping it (the process died in
    between, or the counter was not available) and no load of the file failed; without
    them an update can be lost ([death_loses_update]). *)
Theorem cache_state_coherent (file : RemoteMappingCache) (n : nat) (s : shared) :
  rtc step (initial file n) s →
  (sh_trouble s = false →
     (saving s = false → ∀ p x cs, sh_procs s !! p = Some x →
        cache_state_hit (p_current x) (Some (sh_version s)) = Some cs → cs_cache cs = sh_file s) ∧
     (∀ p data, sh_lock s = Some (p, WHas data) → data = sh_file s)) ∧
  (sh_troubled s = false → sh_file s = replay file s).
Proof.
  intros Hc%reachable_coherent. split; [intros Ht; split|].
  - intros Hsv p x cs Hp Hhit. unfold cache_state_hit in Hhit. destruct (p_current x) as [cs'|] eqn:Hx; [|done].
    destruct (Z.eqb_spec (cs_generation cs') (sh_version s)) as [Hg|]; [|done]. injection Hhit as <-.
    destruct (co_fresh _ _ Hc p x cs' Hp Hx Hg) as [?|[?|?]]; [done|congruence..].
  - intros p data Hl. destruct (co_copy _ _ Hc p data Hl) as [?|?]; [done|congruence].
  - intros Ht. destruct (co_log _ _ Hc) as [?|?]; [done|congruence].
Qed.

(** ** Witnesses *)

Module RemoteCacheDemo.
Lemma back_off_bounds_witness :
  time_to_next_try (run_retries (back_off_new 0 "down") [(700, "down"%string); (720, "down"%string)]) 720
  ≤ BACK_OFF_MAX_TIME_S.
Proof.
  apply (back_off_bounds 0 "down" [(700, "down"%string); (720, "down"%string)] 720).
  - reflexivity.
  - reflexivity.
  - simpl. intros t Ht. set_unfold. destruct Ht as [->|[->|[->|[]]]]; lia.
Defined.

Definition demo_cache : RemoteMappingCache :=
  mkCache {["pve"%string := mkRemoteMapping RemoteType.Pve
              {["h1"%string := host_info_new "h1"]} ∅]} None.

Lemma mark_host_canary_witness :
  canary_ok (mark_host_reachable 5 demo_cache "pve" "h1" (Unreachable "down")).1.
Proof.
  pose proof (mark_host_canary 5 demo_cache "pve" "h1" (Unreachable "down") (host_info_new "h1")) as H.
  destruct (mark_host_reachable 5 demo_cache "pve" "h1" (Unreachable "down")) as [c' notes].
  apply H.
  - intros [x Hx]. discriminate Hx.
  - reflexivity.
Defined.

Lemma set_node_name_sound_witness :
  node_name_to_hostname (set_node_name demo_cache "pve" "h1" (Some "node1"%string)) "pve" "node1"
  = Some "h1"%string.
Proof.
  apply (set_node_name_sound demo_cache "pve" "h1" (Some "node1"%string)
           (mkRemoteMapping RemoteType.Pve {["h1"%string := host_info_new "h1"]} ∅)).
  - reflexivity.
  - intros node host Hn. discriminate Hn.
  - reflexivity.
  - eexists. reflexivity.
Defined.

(** Two processes change the cache one after the other, the second from a stale copy
    that the generation test rejects. *)
Definition insert_new_remote (name : string) (c : RemoteMappingCache) : RemoteMappingCache :=
  mkCache (<[name := remote_mapping_new RemoteType.Pve]> (remotes c)) (canary_remote c).

Tactic Notation "do_step" uconstr(r) :=
  eapply rtc_l; [eapply r; first [reflexivity|by left|by intros ?|eexists; reflexivity]|].

Lemma demo_steps :
  ∃ s, rtc step (initial default_cache 2) s ∧ sh_troubled s = false ∧
       sh_log s = [insert_new_remote "a"; insert_new_remote "b"] ∧ sh_lock s = None ∧
       cache_state_hit (sh_procs s !! 1%nat ≫= p_current) (Some (sh_version s)) = Some (mkCacheState (sh_file s) 2).
Proof.
  eexists. split.
  - do_step (step_miss _ 1 None (Some 0) false). do_step (step_load _ 1 None (Some 0) false true).
    do_step (step_lock _ 0). do_step (step_miss _ 0 None (Some 0) true).
    do_step (step_load _ 0 None (Some 0) true true). do_step (step_save _ 0 default_cache (insert_new_remote "a")).
    do_step (step_update _ 0 (Some (mkCacheState default_cache 0)) (insert_new_remote "a" default_cache) (Some 0)).
    do_step (step_lock _ 1). do_step (step_miss _ 1 (Some (mkCacheState default_cache 0)) (Some 1) true).
    do_step (step_load _ 1 (Some (mkCacheState default_cache 0)) (Some 1) true true).
    do_step (step_save _ 1 (insert_new_remote "a" default_cache) (insert_new_remote "b")).
    do_step (step_update _ 1 (Some (mkCacheState (insert_new_remote "a" default_cache) 1))
               (insert_new_remote "b" (insert_new_remote "a" default_cache)) (Some 1)).
    apply rtc_refl.
  - split_and!; reflexivity.
Qed.

Lemma cache_state_coherent_witness :
  ∃ s, rtc step (initial default_cache 2) s ∧ sh_file s = insert_new_remote "b" (insert_new_remote "a" default_cache) ∧
       cs_cache (mkCacheState (sh_file s) 2) = sh_file s.
Proof.
  destruct demo_steps as (s&Hr&Ht&Hlog&Hlock&Hhit).
  destruct (cache_state_coherent default_cache 2 s Hr) as [Hco Hfile].
  exists s. split; [exact Hr|]. split; [|reflexivity].
  rewrite (Hfile Ht). unfold replay. rewrite Hlog. reflexivity.
Defined.

(** Process 0 dies after it replaced the file and before it bumps the counter; the
    copy of process 1 still passes the generation test, and its next save overwrites
    the change. *)
Theorem death_loses_update :
  ∃ s, rtc step (initial default_cache 2) s ∧ sh_log s = [insert_new_remote "a"; insert_new_remote "b"] ∧
       remotes (sh_file s) !! "a"%string = None.
Proof.
  eexists. split.
  - do_step (step_miss _ 1 None (Some 0) false). do_step (step_load _ 1 None (Some 0) false true).
    do_step (step_lock _ 0). do_step (step_miss _ 0 None (Some 0) true).
    do_step (step_load _ 0 None (Some 0) true true). do_step (step_save _ 0 default_cache (insert_new_remote "a")).
    do_step (step_die _ 0).
    do_step (step_lock _ 1).
    do_step (step_hit _ 1 (Some (mkCacheState default_cache 0)) (mkCacheState default_cache 0) (Some 0) true).
    do_step (step_save _ 1 default_cache (insert_new_remote "b")). apply rtc_refl.
  - split; reflexivity.
Qed.
End RemoteCacheDemo.
