(* ===== verification/SubscriptionKeys.v ===== *)
(** * Subscription keys: levels, product types, sockets

    Model of [lib/pdm-api-types/src/subscription.rs] (the parts with logic) and
    of [redact_key] of [server/src/api/subscriptions/mod.rs].  Strings are byte
    strings; [chars] cuts them into UTF-8 characters. *)

From S2P Require Import Prelude FileSystem RemoteUpid.

(** ** Subscription level *)

Module SubscriptionLevel.
Inductive t : Type := None | Unknown | Community | Basic | Standard | Premium.

#[global] Instance eq_dec : EqDecision t.
Proof. solve_decision. Defined.

(** The derived order: the position in the declaration. *)
Definition rank (l : t) : Z :=
  match l with None => 0 | Unknown => 1 | Community => 2 | Basic => 3 | Standard => 4 | Premium => 5 end.

Definition from_str (s : string) : t :=
  if existsb (String.eqb s) ["p"; "premium"; "Premium"]%string then Premium
  else if existsb (String.eqb s) ["s"; "standard"; "Standard"]%string then Standard
  else if existsb (String.eqb s) ["b"; "basic"; "Basic"]%string then Basic
  else if existsb (String.eqb s) ["c"; "community"; "Community"]%string then Community
  else if existsb (String.eqb s) [""; "none"; "None"]%string then None
  else Unknown.

Definition to_string (l : t) : string :=
  match l with
  | None => "None" | Unknown => "Unknown" | Community => "Community"
  | Basic => "Basic" | Standard => "Standard" | Premium => "Premium"
  end.

Fixpoint last_byte (s : string) : option ascii :=
  match s with
  | EmptyString => Datatypes.None
  | String a EmptyString => Some a
  | String _ s' => last_byte s'
  end.

(** [&key_type[key_type.len() - 1..]] panics when the last byte continues a
    multi-byte character; [None] stands for the panic. *)
Definition from_key (key : option string) : option t :=
  match key with
  | Datatypes.None => Some None
  | Some k =>
      if String.eqb k "" then Some None
      else
        let key_type := match split_once "-" k with Some (ty, _) => ty | Datatypes.None => ""%string end in
        match last_byte key_type with
        | Datatypes.None => Some Unknown
        | Some b => if byte_between 0x80 0xBF b then Datatypes.None
                    else Some (from_str (String b ""))
        end
  end.
End SubscriptionLevel.

(** ** Product type *)

Module ProductType.
Inductive t : Type := Pve | Pbs | Pmg | Pom.

#[global] Instance eq_dec : EqDecision t.
Proof. solve_decision. Defined.

Definition as_section_type (ty : t) : string :=
  match ty with Pve => "pve" | Pbs => "pbs" | Pmg => "pmg" | Pom => "pom" end.

Definition from_key (key : string) : option t :=
  '(prefix, _) ← split_once "-" key;
  if starts_with "pve" prefix then Some Pve
  else if starts_with "pbs" prefix then Some Pbs
  else if starts_with "pmg" prefix then Some Pmg
  else if starts_with "pom" prefix then Some Pom
  else None.

Definition matches_remote_type (ty : t) (r : RemoteType.t) : bool :=
  match ty, r with
  | Pve, RemoteType.Pve | Pbs, RemoteType.Pbs => true
  | _, _ => false
  end.
End ProductType.

(** ** The key format *)

Definition is_ascii_digit (a : ascii) : bool := byte_between 48 57 a.
Definition is_lower_hex (a : ascii) : bool := is_ascii_digit a || byte_between 97 102 a.
Definition is_level_char (a : ascii) : bool :=
  Ascii.eqb a "c" || Ascii.eqb a "b" || Ascii.eqb a "s" || Ascii.eqb a "p".

(** [take_while(is_ascii_digit)] and the rest. *)
Fixpoint span_digits (s : string) : string * string :=
  match s with
  | String a s' => if is_ascii_digit a then let '(d, r) := span_digits s' in (String a d, r) else (""%string, s)
  | EmptyString => (""%string, ""%string)
  end.

Definition level_and_secret (s : string) : bool :=
  match s with
  | String l (String dash secret) =>
      is_level_char l && Ascii.eqb dash "-" && str_forall is_lower_hex secret
      && (Nat.eqb (String.length secret) 10)
  | _ => false
  end.

(** [^(?:pve[0-9]+|pbs)[cbsp]-[0-9a-f]{10}$] *)
Definition PRODUCT_KEY_REGEX (s : string) : bool :=
  match strip_prefix "pve" s with
  | Some s' => let '(d, r) := span_digits s' in negb (String.eqb d "") && level_and_secret r
  | None => match strip_prefix "pbs" s with
            | Some r => level_and_secret r
            | None => false
            end
  end.

(** [SUBSCRIPTION_KEY_SCHEMA.parse_simple_value]: length bounds and the pattern. *)
Definition SUBSCRIPTION_KEY_SCHEMA (s : string) : bool :=
  Nat.leb 15 (String.length s) && Nat.leb (String.length s) 18 && PRODUCT_KEY_REGEX s.

(** ** Sockets *)

Definition digit_value (a : ascii) : Z := Z.of_N (Ascii.N_of_ascii a) - 48.

Fixpoint digits_value (acc : Z) (s : string) : Z :=
  match s with EmptyString => acc | String a s' => digits_value (10 * acc + digit_value a) s' end.

(** [str::parse::<u32>] on a string of ASCII digits. *)
Definition parse_u32 (digits : string) : option Z :=
  if String.eqb digits "" then None
  else let v := digits_value 0 digits in if v <? 2 ^ 32 then Some v else None.

Definition socket_count_from_key (key : string) : option Z :=
  '(prefix, _) ← split_once "-" key;
  after_pve ← strip_prefix "pve" prefix;
  parse_u32 (span_digits after_pve).1.

(** [Iterator::min_by_key]: the first of the least elements. *)
Fixpoint min_by_key {A} (f : A → Z) (best : option A) (l : list A) : option A :=
  match l with
  | [] => best
  | x :: l' =>
      match best with
      | None => min_by_key f (Some x) l'
      | Some b => min_by_key f (Some (if f x <? f b then x else b)) l'
      end
  end.

Definition with_sockets {K} (c : K * string) : option (K * Z) :=
  s ← socket_count_from_key c.2; Some (c.1, s).

Definition pick_best_pve_socket_key {K} (node_sockets : Z) (candidates : list (K * string)) : option K :=
  fst <$> min_by_key snd None
            (filter (λ c, (node_sockets <=? c.2) = true) (omap with_sockets candidates)).

(** ** Redaction *)

Definition is_continuation (a : ascii) : bool := byte_between 0x80 0xBF a.

(** The UTF-8 characters of a string, [cur] being the one read so far. *)
Fixpoint chars_from (cur s : string) : list string :=
  match s with
  | EmptyString => if String.eqb cur "" then [] else [cur]
  | String a s' =>
      if is_continuation a then chars_from (cur +:+ String a "") s'
      else (if String.eqb cur "" then [] else [cur]) ++ chars_from (String a "") s'
  end.
Definition chars (s : string) : list string := chars_from "" s.

Definition redact_key (key : string) : string :=
  match split_once "-" key with
  | None => "<malformed-key>"
  | Some (prefix, secret) =>
      match chars secret with
      | [] => prefix +:+ "-..."
      | first :: rest =>
          match last rest with
          | Some l => prefix +:+ "-" +:+ first +:+ "..." +:+ l
          | None => prefix +:+ "-" +:+ first +:+ "..."
          end
      end
  end.

(** ** Forward-compatibility helper [verify_serverid] *)

Record ServeridMismatch : Type := mkMismatch { sm_key : string; sm_expected : string; sm_actual : string }.

Definition verify_serverid (key : string) (entry_serverid remote_serverid : option string)
    : option ServeridMismatch :=
  match entry_serverid, remote_serverid with
  | Some expected, Some actual =>
      if String.eqb expected actual then None else Some (mkMismatch key expected actual)
  | _, _ => None
  end.

Example redact_1 : redact_key "pve4b-1234567890" = "pve4b-1...0"%string.
Proof. reflexivity. Qed.
Example sockets_1 : socket_count_from_key "pve4b-1234567890" = Some 4.
Proof. reflexivity. Qed.

(** ** Lemmas *)

Lemma min_by_key_spec {A} (f : A → Z) l : ∀ best,
  match min_by_key f best l with
  | Some x => (best = Some x ∨ x ∈ l) ∧ (∀ y, best = Some y → f x ≤ f y) ∧ ∀ y, y ∈ l → f x ≤ f y
  | None => best = None ∧ l = []
  end.
Proof.
  induction l as [|x l IH]; intros best; simpl.
  { destruct best as [b|]; [|done]. split_and!; [by left| |set_solver]. intros y [= <-]. lia. }
  destruct best as [b|].
  - specialize (IH (Some (if f x <? f b then x else b))).
    destruct (min_by_key f _ l) as [z|]; [|by destruct IH].
    destruct IH as (Hin&Hle&Hall). specialize (Hle _ eq_refl).
    destruct (Z.ltb_spec (f x) (f b)); (split_and!;
      [destruct Hin as [[= <-]|?]; [auto|]; right; set_solver
      |intros y [= <-]; lia|intros y [->|Hy]%elem_of_cons; [lia|by apply Hall]]).
  - specialize (IH (Some x)). destruct (min_by_key f _ l) as [z|]; [|by destruct IH].
    destruct IH as (Hin&Hle&Hall). split_and!; [right|done|].
    + destruct Hin as [[= <-]|?]; [left|by right].
    + intros y [->|Hy]%elem_of_cons; [by apply Hle|by apply Hall].
Qed.

(** What [pick_best_pve_socket_key] promises: a candidate that covers the node,
    with the least number of sockets, and none only if none covers it. *)
Lemma pick_best_spec {K} (n : Z) (l : list (K * string)) :
  match pick_best_pve_socket_key n l with
  | Some k => ∃ key s, (k, key) ∈ l ∧ socket_count_from_key key = Some s ∧ n ≤ s ∧
                ∀ k' key' s', (k', key') ∈ l → socket_count_from_key key' = Some s' → n ≤ s' → s ≤ s'
  | None => ∀ k' key' s', (k', key') ∈ l → socket_count_from_key key' = Some s' → s' < n
  end.
Proof.
  unfold pick_best_pve_socket_key.
  set (cands := filter (λ c, (n <=? c.2) = true) (omap with_sockets l)).
  assert (∀ k s, (k, s) ∈ cands ↔ n ≤ s ∧ ∃ key, (k, key) ∈ l ∧ socket_count_from_key key = Some s) as Hc.
  { intros k s. unfold cands. rewrite list_elem_of_filter, list_elem_of_omap. simpl. rewrite Z.leb_le.
    split.
    - intros [Hn ([k' key]&Hin&Hs)]. split; [done|]. unfold with_sockets in Hs. simpl in Hs.
      destruct (socket_count_from_key key) eqn:E; simplify_eq/=. eauto.
    - intros [Hn (key&Hin&Hs)]. split; [done|]. exists (k, key). split; [done|].
      unfold with_sockets. simpl. by rewrite Hs. }
  pose proof (min_by_key_spec snd cands None) as Hmin.
  destruct (min_by_key snd None cands) as [[k s]|]; simpl.
  - destruct Hmin as ([?|Hin]&_&Hall); [done|]. apply Hc in Hin as [Hn (key&Hin&Hs)].
    exists key, s. split_and!; [done|done|done|]. intros k' key' s' Hin' Hs' Hn'.
    apply (Hall (k', s')). apply Hc. eauto.
  - destruct Hmin as [_ He]. intros k' key' s' Hin Hs. destruct (Z.le_gt_cases n s') as [Hle|]; [|lia].
    assert ((k', s') ∈ cands) as Hbad by (apply Hc; eauto). rewrite He in Hbad. set_solver.
Qed.

Lemma span_digits_app s d r : span_digits s = (d, r) → s = d +:+ r ∧ str_forall is_ascii_digit d = true.
Proof.
  revert d r. induction s as [|a s IH]; intros d r; simpl; [by intros [= <- <-]|].
  destruct (is_ascii_digit a) eqn:Ha; [|by intros [= <- <-]].
  destruct (span_digits s) as [d' r']. intros [= <- <-]. destruct (IH d' r' eq_refl) as [-> Hd].
  split; [done|]. simpl. by rewrite Ha, Hd.
Qed.

Lemma span_digits_digits d r :
  str_forall is_ascii_digit d = true →
  match r with String a _ => is_ascii_digit a = false | EmptyString => True end →
  span_digits (d +:+ r) = (d, r).
Proof.
  intros Hd Hr. induction d as [|a d IH]; simpl.
  - destruct r; [done|]. simpl. by rewrite Hr.
  - simpl in Hd. apply andb_true_iff in Hd as [-> Hd]. by rewrite IH.
Qed.

(** The shape of a key that passes the pattern. *)
Lemma product_key_shape s :
  PRODUCT_KEY_REGEX s = true →
  ∃ prefix l secret, s = prefix +:+ String l (String "-" secret) ∧
    is_level_char l = true ∧ str_forall is_lower_hex secret = true ∧ String.length secret = 10%nat ∧
    (prefix = "pbs"%string ∨
     ∃ d, prefix = "pve" +:+ d ∧ d ≠ ""%string ∧ str_forall is_ascii_digit d = true).
Proof.
  assert (∀ r, level_and_secret r = true → ∃ l secret, r = String l (String "-" secret) ∧
            is_level_char l = true ∧ str_forall is_lower_hex secret = true ∧
            String.length secret = 10%nat) as Hls.
  { intros [|l [|dash secret]]; try done. unfold level_and_secret.
    intros [[[H1 H2%Ascii.eqb_eq]%andb_true_iff H3]%andb_true_iff H4%Nat.eqb_eq]%andb_true_iff.
    subst. by exists l, secret. }
  unfold PRODUCT_KEY_REGEX. destruct (strip_prefix "pve" s) as [s'|] eqn:Hpve.
  - apply strip_prefix_Some in Hpve as ->. destruct (span_digits s') as [d r] eqn:Hd.
    apply span_digits_app in Hd as [-> Hd].
    intros [Hne%negb_true_iff%String.eqb_neq (l&secret&->&?&?&?)%Hls]%andb_true_iff.
    exists ("pve" +:+ d), l, secret. rewrite str_app_assoc. split_and!; try done. right. eauto.
  - destruct (strip_prefix "pbs" s) as [r|] eqn:Hpbs; [|done].
    apply strip_prefix_Some in Hpbs as ->. intros (l&secret&->&?&?&?)%Hls.
    exists "pbs"%string, l, secret. split_and!; try done. by left.
Qed.

Lemma product_key_split prefix l secret :
  is_level_char l = true →
  prefix = "pbs"%string ∨ (∃ d, prefix = "pve" +:+ d ∧ d ≠ ""%string ∧ str_forall is_ascii_digit d = true) →
  split_once "-" (prefix +:+ String l (String "-" secret)) = Some (prefix +:+ String l "", secret).
Proof.
  intros Hl Hp. replace (prefix +:+ String l (String "-" secret))
    with ((prefix +:+ String l "") +:+ String "-" secret) by by rewrite str_app_assoc.
  apply split_once_app. rewrite char_in_app. apply orb_false_iff. split.
  - destruct Hp as [-> |(d&->&_&Hd)]; [done|]. rewrite char_in_app. simpl.
    by apply (str_forall_not_in is_ascii_digit).
  - unfold is_level_char in Hl. destruct (Ascii.eqb_spec l "-") as [->|Hne]; [done|]. simpl.
    rewrite orb_false_r. apply Ascii.eqb_neq. congruence.
Qed.

Lemma last_byte_snoc s a : SubscriptionLevel.last_byte (s +:+ String a "") = Some a.
Proof.
  induction s as [|b s IH]; [done|]. simpl. destruct (s +:+ String a "") eqn:E; [|exact IH].
  destruct s; discriminate.
Qed.

Lemma digits_value_bound d acc :
  0 ≤ acc → str_forall is_ascii_digit d = true →
  0 ≤ digits_value acc d < (acc + 1) * 10 ^ Z.of_nat (String.length d).
Proof.
  revert acc. induction d as [|a d IH]; intros acc Hacc Hd.
  { simpl. lia. }
  cbn [digits_value String.length]. simpl in Hd. apply andb_true_iff in Hd as [Ha Hd].
  unfold is_ascii_digit, byte_between in Ha. apply andb_true_iff in Ha as [H1%Z.leb_le H2%Z.leb_le].
  unfold digit_value. rewrite Nat2Z.inj_succ, Z.pow_succ_r by lia.
  set (v := Z.of_N (N_of_ascii a) - 48). assert (0 ≤ v ≤ 9) by (unfold v; lia).
  pose proof (IH (10 * acc + v) ltac:(lia) Hd) as IHd.
  assert (0 < 10 ^ Z.of_nat (String.length d)) by (apply Z.pow_pos_nonneg; lia). nia.
Qed.

(** ** Properties *)

(** every key that passes the schema is understood by the rest of the code:
    its product is PVE or PBS, its level is one of the four real levels (and
    computing it does not panic), a PVE key has a socket count, and the redacted
    form shows only the prefix and the first and last of the ten secret digits. *)
Theorem valid_key_understood (s : string) :
  SUBSCRIPTION_KEY_SCHEMA s = true →
  ∃ prefix secret, split_once "-" s = Some (prefix, secret) ∧ String.length secret = 10%nat ∧
    (∃ l, SubscriptionLevel.from_key (Some s) = Some l ∧
          SubscriptionLevel.rank SubscriptionLevel.Community ≤ SubscriptionLevel.rank l) ∧
    ((ProductType.from_key s = Some ProductType.Pve ∧ is_Some (socket_count_from_key s)) ∨
     (ProductType.from_key s = Some ProductType.Pbs ∧ socket_count_from_key s = None)) ∧
    ∃ first last, redact_key s = prefix +:+ "-" +:+ first +:+ "..." +:+ last ∧
                  String.length first = 1%nat ∧ String.length last = 1%nat.
Proof.
  unfold SUBSCRIPTION_KEY_SCHEMA.
  intros [[_ Hlen%Nat.leb_le]%andb_true_iff Hre]%andb_true_iff.
  apply product_key_shape in Hre as (prefix&l&secret&Hs&Hl&Hhex&H10&Hp).
  pose proof (product_key_split prefix l secret Hl Hp) as Hsplit. rewrite <-Hs in Hsplit.
  exists (prefix +:+ String l ""), secret. split_and!; [done|done| | |].
  - unfold SubscriptionLevel.from_key. destruct (String.eqb_spec s "") as [->|_].
    { exists SubscriptionLevel.None. destruct prefix; discriminate. }
    rewrite Hsplit, last_byte_snoc. unfold is_level_char in Hl.
    destruct (Ascii.eqb_spec l "c") as [->|]; [by eexists|].
    destruct (Ascii.eqb_spec l "b") as [->|]; [by eexists|].
    destruct (Ascii.eqb_spec l "s") as [->|]; [by eexists|].
    destruct (Ascii.eqb_spec l "p") as [->|]; [by eexists|done].
  - unfold ProductType.from_key, socket_count_from_key. rewrite Hsplit. cbn [mbind option_bind].
    destruct Hp as [-> |(d&->&Hne&Hd)]; [by right|left]. unfold starts_with.
    rewrite str_app_assoc, strip_prefix_app. cbn [mbind option_bind]. split; [done|].
    rewrite span_digits_digits; [|done|].
    + cbn [fst]. unfold parse_u32. destruct (String.eqb_spec d "") as [|_]; [done|].
      pose proof (digits_value_bound d 0 ltac:(lia) Hd) as [_ Hb].
      assert (Z.of_nat (String.length d) ≤ 4) as Hd4.
      { rewrite Hs, !str_length_app in Hlen. simpl in Hlen. lia. }
      pose proof (Z.pow_le_mono_r 10 _ _ ltac:(lia) Hd4).
      destruct (Z.ltb_spec (digits_value 0 d) (2 ^ 32)); [by eexists|]. lia.
    + unfold is_level_char in Hl. destruct (is_ascii_digit l) eqn:Hdig; [|done]. exfalso. clear -Hl Hdig.
      destruct l as [[] [] [] [] [] [] [] []]; vm_compute in Hl, Hdig; congruence.
  - unfold redact_key. rewrite Hsplit.
    assert (∀ s, str_forall is_lower_hex s = true → ∀ cur, String.length cur ≤ 1 →
      Forall (λ c, String.length c = 1%nat) (chars_from cur s) ∧
      length (chars_from cur s) = (String.length cur + String.length s)%nat)%nat as Hchars.
    { clear. induction s as [|a s IH]; intros Hs cur Hcur.
      - simpl. destruct cur as [|b [|]]; simpl in *; [split; [constructor|done]|split; [by repeat constructor|done]|lia].
      - simpl in Hs. apply andb_true_iff in Hs as [Ha Hs]. simpl.
        assert (is_continuation a = false) as ->.
        { clear -Ha. destruct a as [[] [] [] [] [] [] [] []]; vm_compute in Ha; try discriminate Ha; reflexivity. }
        destruct (IH Hs (String a "") ltac:(simpl; lia)) as [H1 H2].
        destruct cur as [|b [|]]; simpl in *; [split; [done|lia]|split; [by constructor|lia]|lia]. }
    destruct (Hchars secret Hhex ""%string ltac:(simpl; lia)) as [H1 H2]. unfold chars. simpl in H2.
    destruct (chars_from "" secret) as [|c cs]; [simpl in H2; lia|]. apply Forall_cons in H1 as [Hc Hcs].
    destruct (last cs) as [z|] eqn:Hz.
    + exists c, z. split_and!; [done|done|]. apply last_Some_elem_of in Hz. rewrite Forall_forall in Hcs. by apply Hcs.
    + apply last_None in Hz as ->. simpl in H2. lia.
Qed.

(** [pick_best_pve_socket_key] returns a candidate that covers the node's
    sockets and no covering candidate has fewer; it returns nothing only if no
    candidate covers the node. *)
Theorem pick_best_minimal {K} (n : Z) (l : list (K * string)) :
  match pick_best_pve_socket_key n l with
  | Some k => ∃ key s, (k, key) ∈ l ∧ socket_count_from_key key = Some s ∧ n ≤ s ∧
                ∀ k' key' s', (k', key') ∈ l → socket_count_from_key key' = Some s' → n ≤ s' → s ≤ s'
  | None => ∀ k' key' s', (k', key') ∈ l → socket_count_from_key key' = Some s' → s' < n
  end.
Proof. apply pick_best_spec. Qed.

(** a key whose product part ends in a multi-byte character makes
    [SubscriptionLevel::from_key] panic.  The key of a PBS node is passed to it
    as the remote reports it, without validation. *)
Theorem level_from_key_panics :
  SubscriptionLevel.from_key (Some ("pbs" +:+ String (Ascii.ascii_of_N 0xC3) (String (Ascii.ascii_of_N 0xA9) "-1"))) = None.
Proof. reflexivity. Qed.

Module KeyDemo.
Lemma valid_key_understood_witness :
  ProductType.from_key "pve4b-1234567890" = Some ProductType.Pve ∧
  is_Some (socket_count_from_key "pve4b-1234567890").
Proof.
  destruct (valid_key_understood "pve4b-1234567890" eq_refl) as (p&s&_&_&_&[H|[H _]]&_).
  - exact H.
  - discriminate H.
Defined.
End KeyDemo.
