(* ===== verification/SubscriptionPool.v ===== *)
(** * The subscription key pool

    Model of the handlers of [server/src/api/subscriptions/mod.rs] over the pool
    configuration of [lib/pdm-config/src/subscriptions.rs].

    A handler that changes the pool has two phases: it reads the configuration
    and queries remotes without the lock (the arguments [pre] and [pe] are what
    it saw then), and later re-reads the configuration under the lock and saves
    it.  The model of a handler maps the configuration found under the lock to
    the saved one, or to an error, in which case nothing is saved; what other
    requests did in between is that [pre] and the locked configuration differ.

    Not under [src/], hence parameters: the section configuration and its digest
    ([SectionConfig]), the node-status hash (SHA-256), the enum [SubscriptionStatus] of
    [proxmox_subscription], [NODE_SCHEMA], the user's privileges and the answers
    of remotes (record [env]).  Reading and locking the configuration files may
    fail in a request; that only adds requests that end with an error and change
    nothing.  The parameters of a request have passed their API schemas; nothing
    below relies on it. *)

From S2P Require Import Prelude FileSystem RemoteUpid SectionConfig SubscriptionKeys.

(** ** Parameters *)

(** [proxmox_subscription::SubscriptionStatus], of which the code uses two values. *)
Class SubscriptionStatusType := {
  sub_status : Type;
  sub_status_dec : EqDecision sub_status;
  sub_active : sub_status;
  sub_not_found : sub_status;
  sub_default : sub_status;
}.
#[export] Existing Instance sub_status_dec.

(** ** Data *)

Inductive SubscriptionKeySource : Type := Manual | Adopted.
#[export] Instance SubscriptionKeySource_eq_dec : EqDecision SubscriptionKeySource.
Proof. solve_decision. Defined.

Section data.
Context `{SubscriptionStatusType}.

Record SubscriptionKeyEntry : Type := mkEntry {
  se_key : string;
  se_product_type : ProductType.t;
  se_level : SubscriptionLevel.t;
  se_source : SubscriptionKeySource;
  se_remote : option string;
  se_node : option string;
  se_pending_clear : bool;
  se_serverid : option string;
  se_status : sub_status;
  se_next_due_date : option string;
  se_product_name : option string;
  se_check_time : option Z;
}.
#[export] Instance SubscriptionKeyEntry_eq_dec : EqDecision SubscriptionKeyEntry.
Proof. solve_decision. Defined.

Definition new_entry (key : string) (ty : ProductType.t) (level : SubscriptionLevel.t)
    (source : SubscriptionKeySource) (remote node : option string) : SubscriptionKeyEntry :=
  mkEntry key ty level source remote node false None sub_default None None None.

Definition set_level (l : SubscriptionLevel.t) (e : SubscriptionKeyEntry) : SubscriptionKeyEntry :=
  mkEntry (se_key e) (se_product_type e) l (se_source e) (se_remote e) (se_node e)
    (se_pending_clear e) (se_serverid e) (se_status e) (se_next_due_date e) (se_product_name e)
    (se_check_time e).

Definition set_binding (remote node : option string) (e : SubscriptionKeyEntry) : SubscriptionKeyEntry :=
  mkEntry (se_key e) (se_product_type e) (se_level e) (se_source e) remote node
    (se_pending_clear e) (se_serverid e) (se_status e) (se_next_due_date e) (se_product_name e)
    (se_check_time e).

Definition set_pending_clear (b : bool) (e : SubscriptionKeyEntry) : SubscriptionKeyEntry :=
  mkEntry (se_key e) (se_product_type e) (se_level e) (se_source e) (se_remote e) (se_node e)
    b (se_serverid e) (se_status e) (se_next_due_date e) (se_product_name e) (se_check_time e).

Definition unbind (e : SubscriptionKeyEntry) : SubscriptionKeyEntry :=
  set_pending_clear false (set_binding None None e).

Record NodeSubscriptionInfo : Type := mkInfo {
  ni_status : sub_status;
  ni_sockets : option Z;
  ni_key : option string;
  ni_level : SubscriptionLevel.t;
  ni_check_time : option Z;
  ni_next_due_date : option string;
}.

Record RemoteNodeStatus : Type := mkStatus {
  ns_remote : string;
  ns_ty : RemoteType.t;
  ns_node : string;
  ns_sockets : option Z;
  ns_status : sub_status;
  ns_level : SubscriptionLevel.t;
  ns_assigned_key : option string;
  ns_current_key : option string;
  ns_pending_clear : bool;
  ns_check_time : option Z;
  ns_next_due_date : option string;
}.

(** What a request sees of the outside at one moment. *)
Record env : Type := mkEnv {
  can_audit : string → bool;  (** [PRIV_RESOURCE_AUDIT] on [/resource/<remote>] *)
  can_modify : string → bool; (** [PRIV_RESOURCE_MODIFY] *)
  env_remotes : gmap string RemoteType.t;
  (** [get_subscription_info_for_remote] *)
  live_info : string → result string (gmap string (option NodeSubscriptionInfo));
  NODE_SCHEMA : string → bool;
}.
End data.

Record ProposedAssignment : Type := mkProposal {
  pa_key : string;
  pa_remote : string;
  pa_node : string;
  pa_key_sockets : option Z;
  pa_node_sockets : option Z;
}.

Record AddKeysResult : Type := mkAddResult { added : Z; deduplicated : Z }.
Record AdoptedEntry : Type := mkAdopted { ad_remote : string; ad_node : string; ad_key : string }.

Inductive PendingOp : Type := Push | Clear.
Record PendingEntry : Type := mkPending {
  pe_key : string; pe_remote : string; pe_node : string; pe_op : PendingOp;
}.

#[export] Instance PendingOp_eq_dec : EqDecision PendingOp.
Proof. solve_decision. Defined.
#[export] Instance ProposedAssignment_eq_dec : EqDecision ProposedAssignment.
Proof. solve_decision. Defined.

Definition key_not_found (key : string) : api_error :=
  NOT_FOUND ("key '" +:+ key +:+ "' not found in pool").

(** [CachedUserInfo::check_privs] on a remote. *)
Definition check_modify (allowed : string → bool) (remote : string) : result api_error unit :=
  bail_if (negb (allowed remote)) (PERMISSION_DENIED remote).

(** [SubscriptionLevel::from_key(Some(key))], which may panic. *)
Definition level_of (key : string) : result api_error SubscriptionLevel.t :=
  ok_or (SubscriptionLevel.from_key (Some key)) PANIC.

Section pool.
Context `{SubscriptionStatusType} {C : Type} `{SectionConfigData C SubscriptionKeyEntry}
        `{ConfigDigests C}.

Definition bound_to (remote node : string) (e : SubscriptionKeyEntry) : bool :=
  bool_decide (se_remote e = Some remote) && bool_decide (se_node e = Some node).

Definition find_bound (c : C) (remote node : string) : option (string * SubscriptionKeyEntry) :=
  find (λ '(_, e), bound_to remote node e) (sc_iter c).

(** [entry.remote.as_deref().zip(entry.node.as_deref())] *)
Definition binding (e : SubscriptionKeyEntry) : option (string * string) :=
  r ← se_remote e; n ← se_node e; Some (r, n).

(** ** Listing *)

Definition visible (pe : env) (e : SubscriptionKeyEntry) : bool :=
  match se_remote e with Some remote => can_audit pe remote | None => true end.

Fixpoint with_levels (l : list SubscriptionKeyEntry) : result api_error (list SubscriptionKeyEntry) :=
  match l with
  | [] => Ok []
  | e :: l' => level ← level_of (se_key e); l'' ← with_levels l'; Ok (set_level level e :: l'')
  end.

Definition list_keys (pe : env) (c : C) : result api_error (list SubscriptionKeyEntry) :=
  with_levels (filter (λ e, visible pe e = true) (sc_iter c).*2).

Definition get_key (pe : env) (c : C) (key : string) : result api_error SubscriptionKeyEntry :=
  entry ← ok_or (sc_get c key) (key_not_found key);
  _ ← bail_if (negb (visible pe entry)) (key_not_found key);
  level ← level_of (se_key entry);
  Ok (set_level level entry).

(** ** Adding *)

Fixpoint collect_entries (keys : list string) (seen : gset string)
    : result api_error (list SubscriptionKeyEntry * Z) :=
  match keys with
  | [] => Ok ([], 0)
  | key :: keys' =>
      if bool_decide (key ∈ seen) then
        '(entries, dup) ← collect_entries keys' seen;
        Ok (entries, dup + 1)
      else
        ty ← ok_or (ProductType.from_key key)
               (BAD_REQUEST ("unrecognised key format: " +:+ redact_key key));
        level ← level_of key;
        '(entries, dup) ← collect_entries keys' ({[key]} ∪ seen);
        Ok (new_entry key ty level Manual None None :: entries, dup)
  end.

Fixpoint insert_entries (entries : list SubscriptionKeyEntry) (c : C) : result api_error C :=
  match entries with
  | [] => Ok c
  | e :: entries' =>
      match sc_get c (se_key e) with
      | Some existing => Err (CONFLICT ("key '" +:+ se_key existing +:+ "' already exists in pool"))
      | None => insert_entries entries' (sc_insert c (se_key e) e)
      end
  end.

Definition add_keys (keys : list string) (expected : option digest) (c : C)
    : result api_error (C * AddKeysResult) :=
  _ ← bail_if (bool_decide (keys = [])) (BAD_REQUEST "no keys provided");
  '(entries, dup) ← collect_entries keys ∅;
  _ ← detect_modification (config_digest c) expected;
  c ← insert_entries entries c;
  Ok (c, mkAddResult (Z.of_nat (length entries)) dup).

(** ** The live check before a binding is dropped *)

(** Whether the node is known to run the key.  A remote that does not answer counts as one
    that does not run it, as in the code; [SubscriptionGuards] says what this means for
    [delete_key] and [clear_assignment]. *)
Definition is_live (pe : env) (key remote node : string) : bool :=
  match env_remotes pe !! remote with
  | None => false
  | Some _ =>
      match live_info pe remote with
      | Err _ => false
      | Ok live =>
          match live !! node with
          | Some (Some info) => bool_decide (ni_status info = sub_active) && bool_decide (ni_key info = Some key)
          | _ => false
          end
      end
  end.

Definition check_synced_assignment_for_unassign (pe : env) (key : string)
    (b : option (string * string)) : option (string * string) :=
  match b with
  | None => None
  | Some (remote, node) => if is_live pe key remote node then Some (remote, node) else None
  end.

Definition still_synced (synced_block : option (string * string)) (e : SubscriptionKeyEntry) : bool :=
  match synced_block with Some (r, n) => bound_to r n e | None => false end.

Definition is_bound (e : SubscriptionKeyEntry) : bool := bool_decide (is_Some (se_remote e)).

Definition check_modify_bound (allowed : string → bool) (e : SubscriptionKeyEntry)
    : result api_error unit :=
  match se_remote e with Some remote => check_modify allowed remote | None => Ok tt end.

Definition msg_live (key hint : string) : string :=
  "key '" +:+ key +:+ "' is currently bound to a remote node with a live active subscription; "
  +:+ "run Clear Key on the Node Subscription Status panel " +:+ hint.

(** The orphan guard of [delete_key] and [clear_assignment]. *)
Definition orphan_guard (key : string) (synced_block : option (string * string))
    (pre_had_binding raced : bool) (e : SubscriptionKeyEntry) : result api_error unit :=
  bail_if (still_synced synced_block e || (raced && is_bound e) || (negb pre_had_binding && is_bound e))
          (BAD_REQUEST (msg_live key "first")).

(** The clean-up of [delete_key] in the shadow file, which maps keys to signed
    blobs: skipped when the file cannot be read ([None]), and lost when it
    cannot be written. *)
Definition delete_shadow (shadow : option (gmap string string)) (saved : bool) (key : string)
    : option (gmap string string) :=
  match shadow with
  | Some s => if saved then Some (delete key s) else Some s
  | None => None
  end.

(** [le] are the privileges read again under the lock. *)
Definition delete_key (pe le : env) (pre : C) (key : string) (expected : option digest)
    (shadow : option (gmap string string)) (shadow_saved : bool) (c : C)
    : result api_error (C * option (gmap string string)) :=
  pre_entry ← ok_or (sc_get pre key) (key_not_found key);
  _ ← check_modify_bound (can_modify pe) pre_entry;
  let synced_block := check_synced_assignment_for_unassign pe key (binding pre_entry) in
  _ ← detect_modification (config_digest c) expected;
  entry ← ok_or (sc_get c key) (key_not_found key);
  _ ← check_modify_bound (can_modify le) entry;
  _ ← orphan_guard key synced_block (bool_decide (is_Some (binding pre_entry)))
        (negb (bool_decide (config_digest c = config_digest pre))) entry;
  Ok (sc_remove c key, delete_shadow shadow shadow_saved key).

Definition clear_assignment (pe le : env) (pre : C) (key : string) (expected : option digest) (c : C)
    : result api_error C :=
  let pre_entry := sc_get pre key in
  _ ← match pre_entry with Some e => check_modify_bound (can_modify pe) e | None => Ok tt end;
  let pre_binding := pre_entry ≫= binding in
  let synced_block := check_synced_assignment_for_unassign pe key pre_binding in
  _ ← detect_modification (config_digest c) expected;
  entry ← ok_or (sc_get c key) (key_not_found key);
  _ ← check_modify_bound (can_modify le) entry;
  _ ← orphan_guard key synced_block (bool_decide (is_Some pre_binding))
        (negb (bool_decide (config_digest c = config_digest pre))) entry;
  Ok (sc_modify c key unbind).

(** ** Assigning *)

Definition moves (remote node : string) (b : option (string * string)) : bool :=
  match b with
  | Some (r, n) => negb (String.eqb r remote) || negb (String.eqb n node)
  | None => false
  end.

Definition other_bound (c : C) (key remote node : string) : option (string * SubscriptionKeyEntry) :=
  find (λ '(_, e), negb (String.eqb (se_key e) key) && bound_to remote node e) (sc_iter c).

Definition set_assignment (pe le : env) (pre : C) (key remote node : string)
    (expected : option digest) (c : C) : result api_error C :=
  _ ← check_modify (can_modify pe) remote;
  let pre_binding := sc_get pre key ≫= binding in
  let rebind_moves_binding := moves remote node pre_binding in
  _ ← match pre_binding with
      | Some (prev_remote, _) =>
          if rebind_moves_binding then check_modify (can_modify pe) prev_remote else Ok tt
      | None => Ok tt
      end;
  let synced_block := if rebind_moves_binding
                      then check_synced_assignment_for_unassign pe key pre_binding else None in
  _ ← detect_modification (config_digest c) expected;
  stored_entry ← ok_or (sc_get c key) (key_not_found key);
  _ ← match se_remote stored_entry with
      | Some prev_remote => if String.eqb prev_remote remote then Ok tt
                            else check_modify (can_modify le) prev_remote
      | None => Ok tt
      end;
  let bound_post := is_bound stored_entry in
  let post_moves := moves remote node (binding stored_entry) in
  let raced := negb (bool_decide (config_digest c = config_digest pre)) in
  let pre_had_binding := bool_decide (is_Some pre_binding) in
  _ ← bail_if ((still_synced synced_block stored_entry && post_moves)
               || (raced && bound_post && post_moves)
               || (negb pre_had_binding && bound_post && post_moves)) (BAD_REQUEST (msg_live key "before rebinding"));
  ty ← ok_or (env_remotes le !! remote) (NOT_FOUND ("remote '" +:+ remote +:+ "' not found"));
  _ ← bail_if (negb (ProductType.matches_remote_type (se_product_type stored_entry) ty))
        (BAD_REQUEST ("key type '" +:+ ProductType.as_section_type (se_product_type stored_entry)
                      +:+ "' does not match remote type '" +:+ RemoteType.to_string ty +:+ "'"));
  _ ← match other_bound c key remote node with
      | Some (_, other) => Err (CONFLICT ("key '" +:+ se_key other +:+ "' is already assigned to " +:+ remote +:+ "/" +:+ node))
      | None => Ok tt
      end;
  Ok (sc_modify c key (λ e,
        let e := set_binding (Some remote) (Some node) e in
        if post_moves then set_pending_clear false e else e)).

(** ** Queueing and reverting a clear *)

Definition queue_clear (pe : env) (remote node : string) (expected : option digest) (c : C)
    : result api_error C :=
  _ ← check_modify (can_modify pe) remote;
  _ ← detect_modification (config_digest c) expected;
  '(id, entry) ← ok_or (find_bound c remote node) (BAD_REQUEST ("no pool-managed assignment on " +:+ remote +:+ "/" +:+ node
      +:+ "; run Adopt Key first to import a foreign subscription into the pool"));
  _ ← bail_if (se_pending_clear entry) (BAD_REQUEST ("clear already queued for " +:+ remote +:+ "/" +:+ node));
  Ok (sc_modify c id (set_pending_clear true)).

Definition revert_pending_clear (pe : env) (remote node : string) (expected : option digest) (c : C)
    : result api_error C :=
  _ ← check_modify (can_modify pe) remote;
  _ ← detect_modification (config_digest c) expected;
  '(id, entry) ← ok_or (find_bound c remote node) (BAD_REQUEST ("no pool-managed assignment on " +:+ remote +:+ "/" +:+ node));
  _ ← bail_if (negb (se_pending_clear entry)) (BAD_REQUEST ("no pending clear queued on " +:+ remote +:+ "/" +:+ node));
  Ok (sc_modify c id (set_pending_clear false)).

(** ** Adopting *)

(** Take over a live key for [(remote, node)]: bind an unbound entry of the
    pool or insert a new one. *)
Definition adopt_into (key remote node : string) (c : C) : result api_error C :=
  match sc_get c key with
  | Some existing =>
      if bool_decide (is_Some (se_remote existing)) || bool_decide (is_Some (se_node existing))
      then Err (CONFLICT ("key '" +:+ redact_key key +:+ "' is in the pool but bound elsewhere; resolve manually first"))
      else Ok (sc_modify c key (set_binding (Some remote) (Some node)))
  | None =>
      _ ← bail_if (negb (SUBSCRIPTION_KEY_SCHEMA key)) (BAD_REQUEST ("key '" +:+ redact_key key +:+ "' rejected"));
      ty ← ok_or (ProductType.from_key key) (BAD_REQUEST ("unrecognised key prefix: " +:+ redact_key key));
      level ← level_of key;
      Ok (sc_insert c key (new_entry key ty level Adopted (Some remote) (Some node)))
  end.

Definition adopt_key (pe : env) (pre : C) (remote node : string) (expected : option digest) (c : C)
    : result api_error C :=
  _ ← check_modify (can_modify pe) remote;
  _ ← ok_or (env_remotes pe !! remote) (NOT_FOUND ("remote '" +:+ remote +:+ "' not found"));
  live ← match live_info pe remote with
         | Ok live => Ok live
         | Err err => Err (BAD_REQUEST ("could not read subscription on " +:+ remote +:+ "/" +:+ node +:+ ": " +:+ err))
         end;
  key ← ok_or (info ← mjoin (live !! node); ni_key info) (NOT_FOUND ("no live subscription on " +:+ remote +:+ "/" +:+ node +:+ " to adopt"));
  _ ← detect_modification (config_digest c) expected;
  _ ← bail_if (negb (bool_decide (config_digest c = config_digest pre)))
        (CONFLICT ("pool config changed during live fetch; refresh and retry adopt of " +:+ remote +:+ "/" +:+ node));
  _ ← bail_if (bool_decide (is_Some (find_bound c remote node))) (BAD_REQUEST (remote +:+ "/" +:+ node +:+ " is already pool-managed; adopt only applies to foreign subscriptions"));
  adopt_into key remote node c.

(** One candidate of [adopt_all]; an error means that it is skipped. *)
Definition adopt_candidate (le : env) (n : RemoteNodeStatus) (c : C) : option (C * AdoptedEntry) :=
  match ns_current_key n with
  | None => None
  | Some current_key =>
      if bool_decide (is_Some (ns_assigned_key n)) then None
      else if negb (can_modify le (ns_remote n)) then None
      else if negb (NODE_SCHEMA le (ns_node n)) then None
      else if bool_decide (is_Some (find_bound c (ns_remote n) (ns_node n))) then None
      else match adopt_into current_key (ns_remote n) (ns_node n) c with
           | Ok c => Some (c, mkAdopted (ns_remote n) (ns_node n) current_key)
           | Err _ => None
           end
  end.

Fixpoint adopt_loop (le : env) (statuses : list RemoteNodeStatus) (c : C) : C * list AdoptedEntry :=
  match statuses with
  | [] => (c, [])
  | n :: statuses' =>
      match adopt_candidate le n c with
      | Some (c, a) => let '(c, l) := adopt_loop le statuses' c in (c, a :: l)
      | None => adopt_loop le statuses' c
      end
  end.

Definition adopt_all (le : env) (statuses : list RemoteNodeStatus) (expected : option digest) (c : C)
    : result api_error (C * list AdoptedEntry) :=
  _ ← detect_modification (config_digest c) expected;
  let '(c', adopted) := adopt_loop le statuses c in
  Ok (match adopted with [] => c | _ => c' end, adopted).
End pool.
