(* ===== verification/SubscriptionPlan.v ===== *)
(** * Node status, automatic assignment and pending changes

    Model of the second half of [server/src/api/subscriptions/mod.rs]: the node
    status view, the proposals of [auto_assign], their commit by [bulk_assign],
    and the pending changes that [apply_pending] pushes to the remotes and
    [clear_pending] discards. *)

From S2P Require Import Prelude FileSystem RemoteUpid SectionConfig SubscriptionKeys SubscriptionPool.

(** SHA-256 over the JSON of the fields that the proposals depend on. *)
Class StatusHash `{SubscriptionStatusType} := {
  status_hash : Type;
  status_hash_dec : EqDecision status_hash;
  hash_rows : list (string * string * sub_status * option Z * bool) → status_hash;
}.
#[export] Existing Instance status_hash_dec.

(** The API clients of the remotes: setting, deleting and re-checking the
    subscription of a node changes the state [W] of the remotes and may fail. *)
Class RemoteApi (W : Type) := {
  set_subscription : ProductType.t → string → string → string → W → result string unit * W;
  delete_subscription : ProductType.t → string → string → W → result string unit * W;
  update_subscription : ProductType.t → string → string → W → result string unit * W;
}.

Section plan.
Context `{SubscriptionStatusType} {C : Type} `{SectionConfigData C SubscriptionKeyEntry}
        `{ConfigDigests C}.

(** ** Node status *)

Definition compare_status : RemoteNodeStatus → RemoteNodeStatus → comparison :=
  cmp_lex (cmp_on ns_remote String.compare) (cmp_on ns_node String.compare).

(** The row of one node, [assigned] being its pool entry. *)
Definition status_row (remote : string) (ty : RemoteType.t) (node : string)
    (info : option NodeSubscriptionInfo) (assigned : option (string * SubscriptionKeyEntry))
    : RemoteNodeStatus :=
  let '(ak, pc) := match assigned with
                   | Some (_, e) => (Some (se_key e), se_pending_clear e)
                   | None => (None, false)
                   end in
  match info with
  | Some i => mkStatus remote ty node (ni_sockets i) (ni_status i) (ni_level i) ak (ni_key i) pc
                (ni_check_time i) (ni_next_due_date i)
  | None => mkStatus remote ty node None sub_not_found SubscriptionLevel.None ak None pc None None
  end.

(** The rows of one remote; a remote that cannot be queried has none. *)
Definition remote_rows (pe : env) (assigned : string → string → option (string * SubscriptionKeyEntry))
    (r : string * RemoteType.t) : list RemoteNodeStatus :=
  match live_info pe r.1 with
  | Err _ => []
  | Ok infos => (λ '(node, info), status_row r.1 r.2 node info (assigned r.1 node)) <$> map_to_list infos
  end.

Definition collect_node_status (pe : env) (c : C) : list RemoteNodeStatus :=
  let visible_remotes := filter (λ r, can_audit pe r.1 = true) (map_to_list (env_remotes pe)) in
  sort_by compare_status (visible_remotes ≫= remote_rows pe (find_bound c)).

(** The worker's view: all remotes, no join with the pool, not sorted. *)
Definition collect_status_uncached (pe : env) : list RemoteNodeStatus :=
  map_to_list (env_remotes pe) ≫= remote_rows pe (λ _ _, None).

(** ** Automatic assignment *)

Definition row_of_status (n : RemoteNodeStatus) : string * string * sub_status * option Z * bool :=
  (ns_remote n, ns_node n, ns_status n, ns_sockets n, bool_decide (is_Some (ns_assigned_key n))).

Definition compare_rows : string * string * sub_status * option Z * bool →
                          string * string * sub_status * option Z * bool → comparison :=
  cmp_lex (cmp_on (λ r, r.1.1.1.1) String.compare) (cmp_on (λ r, r.1.1.1.2) String.compare).

Definition hash_node_status `{!StatusHash} (statuses : list RemoteNodeStatus) : status_hash :=
  hash_rows (sort_by compare_rows (row_of_status <$> statuses)).

Definition is_target (n : RemoteNodeStatus) : bool :=
  bool_decide (ns_assigned_key n = None) && negb (bool_decide (ns_status n = sub_active)).

(** [sort_by_key(|n| Reverse(n.sockets.unwrap_or(0)))] *)
Definition compare_sockets (a b : RemoteNodeStatus) : comparison :=
  Z.compare (default 0 (ns_sockets b)) (default 0 (ns_sockets a)).

Definition candidates (c : C) (taken : gset string) (ty : RemoteType.t) : list (string * string) :=
  (λ '(id, e), (id, se_key e)) <$>
    filter (λ x : string * SubscriptionKeyEntry,
              bool_decide (se_remote x.2 = None) && negb (bool_decide (x.1 ∈ taken))
              && ProductType.matches_remote_type (se_product_type x.2) ty = true) (sc_iter c).

Definition best_key (c : C) (taken : gset string) (n : RemoteNodeStatus) : option string :=
  match ns_ty n with
  | RemoteType.Pve =>
      pick_best_pve_socket_key (as_u32 (default 1 (ns_sockets n))) (candidates c taken (ns_ty n))
  | RemoteType.Pbs => fst <$> head (candidates c taken (ns_ty n))
  end.

Fixpoint propose (c : C) (targets : list RemoteNodeStatus) (taken : gset string)
    : list ProposedAssignment :=
  match targets with
  | [] => []
  | n :: targets' =>
      match best_key c taken n with
      | Some key =>
          mkProposal key (ns_remote n) (ns_node n)
            (e ← sc_get c key; socket_count_from_key (se_key e)) (ns_sockets n)
          :: propose c targets' ({[key]} ∪ taken)
      | None => propose c targets' taken
      end
  end.

Definition compute_proposals (c : C) (statuses : list RemoteNodeStatus) : list ProposedAssignment :=
  propose c (sort_by compare_sockets (filter (λ n, is_target n = true) statuses)) ∅.

Record AutoAssignProposal `{!StatusHash} : Type := mkAuto {
  aa_assignments : list ProposedAssignment;
  aa_keys_digest : digest;
  aa_node_status_digest : status_hash;
}.

(** [pre] is the configuration that [collect_node_status] reads, [c] the one
    that the proposals are computed from. *)
Definition auto_assign `{!StatusHash} (pe : env) (pre c : C) : AutoAssignProposal :=
  let statuses := collect_node_status pe pre in
  mkAuto _ (compute_proposals c statuses) (config_digest c) (hash_node_status statuses).

(** One proposal of [bulk_assign]; [None] when it is skipped. *)
Definition assign_proposal (le : env) (p : ProposedAssignment) (c : C) : option C :=
  if negb (can_modify le (pa_remote p)) then None
  else if negb (NODE_SCHEMA le (pa_node p)) then None
  else
    ty ← env_remotes le !! pa_remote p;
    entry ← sc_get c (pa_key p);
    if negb (ProductType.matches_remote_type (se_product_type entry) ty) then None
    else match other_bound c (pa_key p) (pa_remote p) (pa_node p) with
         | Some _ => None
         | None =>
             if is_bound entry then None
             else Some (sc_modify c (pa_key p)
                          (λ e, set_pending_clear false (set_binding (Some (pa_remote p)) (Some (pa_node p)) e)))
         end.

Fixpoint assign_loop (le : env) (ps : list ProposedAssignment) (c : C) : C * list ProposedAssignment :=
  match ps with
  | [] => (c, [])
  | p :: ps' =>
      match assign_proposal le p c with
      | Some c => let '(c, l) := assign_loop le ps' c in (c, p :: l)
      | None => assign_loop le ps' c
      end
  end.

Definition bulk_assign `{!StatusHash} (pe le : env) (pre : C) (proposal : AutoAssignProposal) (c : C)
    : result api_error (C * list ProposedAssignment) :=
  let live_digest := hash_node_status (collect_node_status pe pre) in
  _ ← bail_if (negb (bool_decide (live_digest = aa_node_status_digest proposal)))
        (CONFLICT "node status changed since proposal; refresh and try again");
  _ ← detect_modification (config_digest c) (Some (aa_keys_digest proposal));
  let '(c', applied) := assign_loop le (aa_assignments proposal) c in
  Ok (match applied with [] => c | _ => c' end, applied).

(** ** Pending changes *)

Definition pending_of (pe : env) (statuses : list RemoteNodeStatus) (e : SubscriptionKeyEntry)
    : option PendingEntry :=
  remote ← se_remote e;
  node ← se_node e;
  if negb (can_modify pe remote) then None
  else if se_pending_clear e then Some (mkPending (se_key e) remote node Clear)
  else
    let is_pending := match find (λ n, String.eqb (ns_remote n) remote && String.eqb (ns_node n) node) statuses with
                      | Some n => negb (bool_decide (ns_current_key n = Some (se_key e)))
                      | None => true
                      end in
    if is_pending then Some (mkPending (se_key e) remote node Push) else None.

Definition compute_pending (pe : env) (statuses : list RemoteNodeStatus) (c : C) : list PendingEntry :=
  omap (pending_of pe statuses) (sc_iter c).*2.

Definition pool_assignment_still_valid (c : C) (p : PendingEntry) : bool :=
  match sc_get c (pe_key p) with
  | Some e => bound_to (pe_remote p) (pe_node p) e
  | None => false
  end.

(** Discarding one pending change under the lock. *)
Definition discard (p : PendingEntry) (e : SubscriptionKeyEntry) : SubscriptionKeyEntry :=
  match pe_op p with Clear => set_pending_clear false e | Push => unbind e end.

Fixpoint discard_loop (ps : list PendingEntry) (c : C) : C * Z :=
  match ps with
  | [] => (c, 0)
  | p :: ps' =>
      if pool_assignment_still_valid c p then
        let '(c, n) := discard_loop ps' (sc_modify c (pe_key p) (discard p)) in (c, n + 1)
      else discard_loop ps' c
  end.

(** [pre] and [mid] are the reads of the configuration before the lock (of the
    node status only the live keys are used, not the join with the pool). *)
Definition clear_pending (pe : env) (pre mid : C) (expected : option digest) (c : C)
    : result api_error (C * Z) :=
  _ ← detect_modification (config_digest pre) expected;
  let pending := compute_pending pe (collect_node_status pe mid) mid in
  match pending with
  | [] => Ok (c, 0)
  | _ =>
      _ ← detect_modification (config_digest c) expected;
      let '(c', cleared) := discard_loop pending c in
      Ok (if 0 <? cleared then c' else c, cleared)
  end.

(** Whether [apply_pending] starts the worker. *)
Definition apply_pending (pe : env) (c : C) (expected : option digest) : result api_error bool :=
  _ ← detect_modification (config_digest c) expected;
  Ok (negb (bool_decide (length (compute_pending pe (collect_node_status pe c) c) = 0%nat))).

(** ** The worker *)

Section worker.
Context {W : Type} `{RemoteApi W}.

Definition push_key_to_remote (remote key node : string) (w : W) : result string unit * W :=
  match ProductType.from_key key with
  | None => (Err ("unrecognised key format: " +:+ key), w)
  | Some ProductType.Pve => set_subscription ProductType.Pve remote node key w
  | Some ProductType.Pbs => set_subscription ProductType.Pbs remote node key w
  | Some ty => (Err ("PDM cannot push '" +:+ ProductType.as_section_type ty +:+ "' keys: no remote support yet"), w)
  end.

Definition delete_subscription_on_remote (remote : string) (ty : ProductType.t) (node : string) (w : W)
    : result string unit * W :=
  match ty with
  | ProductType.Pve | ProductType.Pbs => delete_subscription ty remote node w
  | _ => (Err ("PDM cannot clear '" +:+ ProductType.as_section_type ty +:+ "' keys: no remote support yet"), w)
  end.

Definition check_subscription_on_remote (remote : string) (ty : ProductType.t) (node : string) (w : W)
    : result string unit * W :=
  match ty with
  | ProductType.Pve | ProductType.Pbs => update_subscription ty remote node w
  | _ => (Err ("PDM cannot check '" +:+ ProductType.as_section_type ty +:+ "' keys: no remote support yet"), w)
  end.

(** The endpoint that triggers a check. *)
Definition check_subscription (pe : env) (remote node : string) (w : W) : result api_error unit * W :=
  if negb (can_modify pe remote) then (Err (PERMISSION_DENIED remote), w)
  else match env_remotes pe !! remote with
       | None => (Err (NOT_FOUND ("remote '" +:+ remote +:+ "' not found")), w)
       | Some ty =>
           let product := match ty with RemoteType.Pve => ProductType.Pve | RemoteType.Pbs => ProductType.Pbs end in
           let '(r, w) := check_subscription_on_remote remote product node w in
           (match r with Ok _ => Ok tt | Err e => Err (BAD_REQUEST ("check failed on " +:+ remote +:+ "/" +:+ node +:+ ": " +:+ e)) end, w)
       end.

(** Dropping the binding under the lock after a clear. *)
Definition drop_binding (p : PendingEntry) (c : C) : C :=
  match sc_get c (pe_key p) with
  | Some stored => if bound_to (pe_remote p) (pe_node p) stored then sc_modify c (pe_key p) unbind else c
  | None => c
  end.

Inductive outcome : Type := Skipped | Failed (msg : string) | Succeeded.

(** What may happen around one iteration of the worker: other requests change
    the pool before it and during its remote call, reading the pool fails, or
    updating it after a clear fails. *)
Record disturbance : Type := mkDisturbance {
  d_before : C → C;
  d_during : C → C;
  d_read_error : option string;
  d_update_error : option string;
}.
Definition calm : disturbance := mkDisturbance id id None None.

Definition at_node (p : PendingEntry) : string := pe_remote p +:+ "/" +:+ pe_node p.

(** One iteration of the worker's loop, on the pool [c] it has read. *)
Definition apply_one (remotes : gmap string RemoteType.t) (d : disturbance) (p : PendingEntry) (c : C) (w : W)
    : outcome * C * W :=
  if negb (pool_assignment_still_valid c p) then (Skipped, c, w)
  else
    let current_pending_clear := match sc_get c (pe_key p) with
                                 | Some e => se_pending_clear e
                                 | None => false
                                 end in
    let op_consistent := match pe_op p with
                         | Push => negb current_pending_clear
                         | Clear => current_pending_clear
                         end in
    if negb op_consistent then (Skipped, c, w)
    else
      match pe_op p with
      | Push =>
          match remotes !! pe_remote p with
          | None => (Failed (at_node p +:+ ": remote vanished"), c, w)
          | Some _ =>
              let '(r, w) := push_key_to_remote (pe_remote p) (pe_key p) (pe_node p) w in
              match r with
              | Ok _ => (Succeeded, d_during d c, w)
              | Err e => (Failed ("push to " +:+ at_node p +:+ ": " +:+ e), d_during d c, w)
              end
          end
      | Clear =>
          match ProductType.from_key (pe_key p) with
          | None => (Failed ("clear on " +:+ at_node p +:+ ": unrecognised key format"), c, w)
          | Some ty =>
              let '(r, w) := match remotes !! pe_remote p with
                             | Some _ => delete_subscription_on_remote (pe_remote p) ty (pe_node p) w
                             | None => (Ok tt, w)
                             end in
              match r with
              | Ok _ =>
                  match d_update_error d with
                  | Some e => (Failed ("clear on " +:+ at_node p +:+ ": pool update failed: " +:+ e), d_during d c, w)
                  | None => (Succeeded, drop_binding p (d_during d c), w)
                  end
              | Err e => (Failed ("clear on " +:+ at_node p +:+ ": " +:+ e), d_during d c, w)
              end
          end
      end.

(** An error instead of the outcomes when the worker gives up because the pool
    cannot be read.  After the end of [ds] nothing interferes. *)
Fixpoint apply_loop (remotes : gmap string RemoteType.t) (ds : list disturbance)
    (ps : list PendingEntry) (c : C) (w : W) : result string (list outcome) * C * W :=
  match ps with
  | [] => (Ok [], c, w)
  | p :: ps' =>
      let d := default calm (head ds) in
      let c := d_before d c in
      match d_read_error d with
      | Some e => (Err e, c, w)
      | None =>
          let '(o, c, w) := apply_one remotes d p c w in
          let '(os, c, w) := apply_loop remotes (tail ds) ps' c w in
          (cons o <$> os, c, w)
      end
  end.

Definition failures (os : list outcome) : list string :=
  omap (λ o, match o with Failed msg => Some msg | _ => None end) os.

Definition succeeded (os : list outcome) : Z :=
  Z.of_nat (length (filter (λ o, match o with Succeeded => true | _ => false end = true) os)).

Definition failure_summary (total : Z) (os : list outcome) : string :=
  let fs := failures os in
  let n := Z.of_nat (length fs) in
  "apply-pending: " +:+ show_Z (succeeded os) +:+ "/" +:+ show_Z total +:+ " succeeded, "
  +:+ show_Z n +:+ " failed: " +:+ str_join "; " (take 5 fs)
  +:+ (if 5 <? n then " (and " +:+ show_Z (n - 5) +:+ " more)" else "").

(** [run_apply_pending]: [pe] is what the worker sees when it starts. *)
Definition run_apply_pending (pe : env) (ds : list disturbance) (c : C) (w : W)
    : result api_error unit * C * W :=
  let pending := compute_pending pe (collect_status_uncached pe) c in
  let '(os, c, w) := apply_loop (env_remotes pe) ds pending c w in
  (match os with
   | Err e => Err (OTHER e)
   | Ok os =>
       match failures os with
       | [] => Ok tt
       | _ => Err (OTHER (failure_summary (Z.of_nat (length pending)) os))
       end
   end, c, w).
End worker.
End plan.
