(* ===== verification/SubscriptionInvariant.v ===== *)
(** * The key pool: invariants and guards

    The invariant of the pool, that every handler keeps it, that no handler
    drops a binding whose key was seen live, and that bindings on a remote change
    only for callers with the privilege for it. *)

From S2P Require Import Prelude FileSystem RemoteUpid SectionConfig SubscriptionKeys SubscriptionPool SubscriptionPlan.

Section invariant.
Context `{SubscriptionStatusType} {C : Type} `{SectionConfigData C SubscriptionKeyEntry}
        `{!SectionConfigLaws C SubscriptionKeyEntry} `{ConfigDigests C}.
Implicit Types (c : C) (e : SubscriptionKeyEntry) (k : string).

Record entry_ok (k : string) (e : SubscriptionKeyEntry) : Prop := {
  eo_key : se_key e = k;
  eo_product : ProductType.from_key k = Some (se_product_type e);
  eo_binding : is_Some (se_remote e) ↔ is_Some (se_node e);
  eo_clear : se_pending_clear e = true → is_Some (se_remote e);
}.

(** Entries are well formed and no node has two keys. *)
Record pool_ok (c : C) : Prop := {
  po_entry : ∀ k e, sc_get c k = Some e → entry_ok k e;
  po_unique : ∀ k k' e e' r n, sc_get c k = Some e → sc_get c k' = Some e' →
    bound_to r n e = true → bound_to r n e' = true → k = k';
}.

Lemma bound_to_true r n e : bound_to r n e = true ↔ se_remote e = Some r ∧ se_node e = Some n.
Proof. unfold bound_to. by rewrite andb_true_iff, !bool_decide_eq_true. Qed.

Lemma bound_to_binding r n e : bound_to r n e = true ↔ binding e = Some (r, n).
Proof.
  rewrite bound_to_true. unfold binding. destruct (se_remote e), (se_node e); simpl; naive_solver.
Qed.

Lemma find_bound_Some c r n k e :
  find_bound c r n = Some (k, e) → sc_get c k = Some e ∧ bound_to r n e = true.
Proof.
  unfold find_bound. intros Hf. apply find_some in Hf as [Hin Hb].
  split; [|done]. by apply sc_iter_get, list_elem_of_In.
Qed.

Lemma find_bound_None c r n k e :
  find_bound c r n = None → sc_get c k = Some e → bound_to r n e = false.
Proof.
  unfold find_bound. intros Hf Hk. pose proof (find_none _ _ Hf (k, e)) as Hn. simpl in Hn.
  apply Hn. by apply list_elem_of_In, sc_iter_get.
Qed.

Lemma other_bound_None c key r n k e :
  other_bound c key r n = None → sc_get c k = Some e → se_key e ≠ key → bound_to r n e = false.
Proof.
  unfold other_bound. intros Hf Hk Hne. pose proof (find_none _ _ Hf (k, e)) as Hn. simpl in Hn.
  assert (negb (String.eqb (se_key e) key) && bound_to r n e = false) as Hb.
  { apply Hn. by apply list_elem_of_In, sc_iter_get. }
  apply andb_false_iff in Hb as [Hb|Hb]; [|done].
  apply negb_false_iff, String.eqb_eq in Hb. done.
Qed.

(** Replacing one entry. *)
Lemma pool_ok_replace c c' k e' :
  pool_ok c → (∀ k', sc_get c' k' = if decide (k = k') then Some e' else sc_get c k') →
  entry_ok k e' →
  (∀ r n, bound_to r n e' = true → ∀ k2 e2, k2 ≠ k → sc_get c k2 = Some e2 → bound_to r n e2 = false) →
  pool_ok c'.
Proof.
  intros [He Hu] Hget Hok Hfree. split.
  - intros k' x. rewrite Hget. destruct (decide (k = k')) as [<-|]; [by intros [= <-]|by apply He].
  - intros k1 k2 x1 x2 r n. rewrite !Hget.
    destruct (decide (k = k1)) as [<-|N1], (decide (k = k2)) as [<-|N2]; [done| | |by apply Hu].
    + intros [= <-] Hx2 Hb1 Hb2. by rewrite (Hfree r n Hb1 k2 x2) in Hb2.
    + intros Hx1 [= <-] Hb1 Hb2. by rewrite (Hfree r n Hb2 k1 x1) in Hb1.
Qed.

Lemma pool_ok_modify c k f e :
  pool_ok c → sc_get c k = Some e → entry_ok k (f e) →
  (∀ r n, bound_to r n (f e) = true → ∀ k2 e2, k2 ≠ k → sc_get c k2 = Some e2 → bound_to r n e2 = false) →
  pool_ok (sc_modify c k f).
Proof.
  intros Hok He Hf Hfree. eapply pool_ok_replace; [exact Hok| |exact Hf|exact Hfree].
  intros k'. rewrite sc_get_modify, He. done.
Qed.

(** Changing only the flag keeps who is bound where. *)
Lemma pool_ok_flag c k e b :
  pool_ok c → sc_get c k = Some e → (b = true → is_Some (se_remote e)) →
  pool_ok (sc_modify c k (set_pending_clear b)).
Proof.
  intros Hok He Hb. pose proof (po_entry c Hok k e He) as [Ek Ep Eb _].
  eapply pool_ok_modify; [done|done|by split|]. intros r n Hr k2 e2 Hne He2.
  destruct (bound_to r n e2) eqn:Hb2; [|done]. exfalso. apply Hne.
  by apply (po_unique c Hok k2 k e2 e r n).
Qed.

Lemma pool_ok_unbind c k e : pool_ok c → sc_get c k = Some e → pool_ok (sc_modify c k unbind).
Proof.
  intros Hok He. pose proof (po_entry c Hok k e He) as [Ek Ep _ _].
  eapply pool_ok_modify; [done|done|split; simpl; [done|done|split; by intros []|done]|].
  intros r n [Hr _]%bound_to_true. done.
Qed.

Lemma pool_ok_remove c k : pool_ok c → pool_ok (sc_remove c k).
Proof.
  intros [He Hu]. split.
  - intros k' e. rewrite sc_get_remove. destruct (decide (k = k')); [done|by apply He].
  - intros k1 k2 e1 e2 r n. rewrite !sc_get_remove.
    destruct (decide (k = k1)), (decide (k = k2)); try done. by apply Hu.
Qed.

(** Binding an entry to a node that no other entry is bound to. *)
Lemma pool_ok_bind c k e f r n :
  pool_ok c → sc_get c k = Some e →
  se_key (f e) = se_key e → se_product_type (f e) = se_product_type e →
  se_remote (f e) = Some r → se_node (f e) = Some n →
  (∀ k2 e2, k2 ≠ k → sc_get c k2 = Some e2 → bound_to r n e2 = false) →
  pool_ok (sc_modify c k f).
Proof.
  intros Hok He Hk Hp Hr Hn Hfree. pose proof (po_entry c Hok k e He) as [Ek Ep _ _].
  eapply pool_ok_modify; [done|done| |].
  - split; [congruence|congruence|rewrite Hr, Hn; split; eauto|rewrite Hr; eauto].
  - intros r' n' [Hr' Hn']%bound_to_true. simplify_eq. exact Hfree.
Qed.

(** ** The handlers *)

Lemma collect_entries_spec keys : ∀ seen entries dup,
  collect_entries keys seen = Ok (entries, dup) →
  NoDup (se_key <$> entries) ∧
  (∀ k, k ∈ se_key <$> entries ↔ k ∈ keys ∧ k ∉ seen) ∧
  Forall (λ e, entry_ok (se_key e) e ∧ se_remote e = None ∧ se_source e = Manual) entries ∧
  Z.of_nat (length entries) + dup = Z.of_nat (length keys) ∧ 0 ≤ dup.
Proof.
  induction keys as [|key keys IH]; intros seen entries dup; simpl.
  { intros [= <- <-]. split_and!; [constructor|by split; [intros ?%elem_of_nil|intros [?%elem_of_nil _]]|constructor|done|lia]. }
  case_bool_decide as Hseen.
  - destruct (collect_entries keys seen) as [[es d]|] eqn:Hc; [|done]. simpl. intros [= <- <-].
    destruct (IH _ _ _ Hc) as (Hn&Hel&Hf&Hlen&Hd). split_and!; [done| |done|lia|lia].
    intros k. rewrite Hel, elem_of_cons. split; [tauto|]. intros [[->|?] ?]; tauto.
  - destruct (ProductType.from_key key) as [ty|] eqn:Hty; simpl; [|done].
    destruct (level_of key) as [lv|]; simpl; [|done].
    destruct (collect_entries keys ({[key]} ∪ seen)) as [[es d]|] eqn:Hc; simpl; [|done].
    intros [= <- <-]. destruct (IH _ _ _ Hc) as (Hn&Hel&Hf&Hlen&Hd). simpl. split_and!.
    + constructor; [|done]. rewrite Hel, not_elem_of_union, not_elem_of_singleton. tauto.
    + intros k. rewrite !elem_of_cons, Hel, not_elem_of_union, not_elem_of_singleton.
      destruct (decide (k = key)) as [->|]; tauto.
    + constructor; [|done]. split; [|done]. split; simpl; [done|done|split; by intros []|done].
    + lia.
    + lia.
Qed.

Lemma insert_entries_spec entries : ∀ c c',
  insert_entries entries c = Ok c' → NoDup (se_key <$> entries) →
  (∀ e, e ∈ entries → sc_get c (se_key e) = None) ∧
  ∀ k, sc_get c' k = match find (λ e, String.eqb (se_key e) k) entries with
                     | Some e => Some e
                     | None => sc_get c k
                     end.
Proof.
  induction entries as [|e es IH]; intros c c'; simpl.
  { intros [= <-] _. split; [set_solver|done]. }
  destruct (sc_get c (se_key e)) eqn:He; [done|]. intros Hins [Hnin Hnd]%NoDup_cons.
  destruct (IH _ _ Hins Hnd) as [Hfree Hget]. split.
  - intros x [->|Hx]%elem_of_cons; [done|]. specialize (Hfree x Hx). rewrite sc_get_insert in Hfree.
    destruct (decide (se_key e = se_key x)) as [Heq|]; [|done]. done.
  - intros k. rewrite Hget, sc_get_insert.
    destruct (String.eqb_spec (se_key e) k) as [<-|Hne].
    + destruct (find _ es) as [x|] eqn:Hx.
      * apply find_some in Hx as [Hin%list_elem_of_In Heq%String.eqb_eq]. exfalso. apply Hnin.
        rewrite <-Heq. apply list_elem_of_fmap. eauto.
      * by rewrite decide_True.
    + destruct (find _ es); [done|]. by rewrite decide_False.
Qed.

Lemma add_keys_ok keys expected c c' r :
  pool_ok c → add_keys keys expected c = Ok (c', r) → pool_ok c'.
Proof.
  intros Hok. unfold add_keys. destruct (bail_if _ _); simpl; [|done].
  destruct (collect_entries keys ∅) as [[es d]|] eqn:Hc; simpl; [|done].
  destruct (detect_modification _ expected); simpl; [|done].
  destruct (insert_entries es c) as [c1|] eqn:Hi; simpl; [|done]. intros [= <- _].
  destruct (collect_entries_spec _ _ _ _ Hc) as (Hn&_&Hf&_). clear Hc.
  revert c Hok Hi. induction es as [|e es IH]; intros c Hok; simpl; [by intros [= <-]|].
  destruct (sc_get c (se_key e)) eqn:He; [done|]. apply NoDup_cons in Hn as [_ Hn].
  apply Forall_cons in Hf as [[Heo [Hr _]] Hf]. apply IH; [done|done|].
  eapply pool_ok_replace; [exact Hok|intros k'; apply sc_get_insert|exact Heo|].
  intros r' n [Hr' _]%bound_to_true. congruence.
Qed.

Lemma delete_key_ok pe le pre key expected sh sv c c' sh' :
  pool_ok c → delete_key pe le pre key expected sh sv c = Ok (c', sh') → pool_ok c'.
Proof.
  intros Hok Hrun. unfold delete_key in Hrun. run_ok Hrun. injection Hrun as <- _.
  by apply pool_ok_remove.
Qed.

Lemma clear_assignment_ok pe le pre key expected c c' :
  pool_ok c → clear_assignment pe le pre key expected c = Ok c' → pool_ok c'.
Proof.
  intros Hok Hrun. unfold clear_assignment in Hrun. run_ok Hrun. injection Hrun as <-.
  by eapply pool_ok_unbind.
Qed.

Lemma set_assignment_ok pe le pre key remote node expected c c' :
  pool_ok c → set_assignment pe le pre key remote node expected c = Ok c' → pool_ok c'.
Proof.
  intros Hok Hrun. unfold set_assignment in Hrun. run_ok Hrun. injection Hrun as <-.
  match goal with H : sc_get c key = Some ?x |- _ => rename H into He; rename x into e end.
  destruct (other_bound c key remote node) as [[? ?]|] eqn:Hother; [done|].
  eapply (pool_ok_bind c key e _ remote node); [done|done|by destruct (moves remote node (binding e))..|].
  intros k2 e2 Hne He2. eapply other_bound_None; [done|done|].
  by rewrite (eo_key _ _ (po_entry c Hok k2 e2 He2)).
Qed.

Lemma queue_clear_ok pe remote node expected c c' :
  pool_ok c → queue_clear pe remote node expected c = Ok c' → pool_ok c'.
Proof.
  intros Hok Hrun. unfold queue_clear in Hrun. run_ok Hrun. destruct v1 as [id e].
  run_ok Hrun. injection Hrun as <-.
  match goal with H : find_bound _ _ _ = _ |- _ => apply find_bound_Some in H as [He Hb] end.
  apply bound_to_true in Hb as [Hr _]. eapply pool_ok_flag; [done|done|eauto].
Qed.

Lemma revert_pending_clear_ok pe remote node expected c c' :
  pool_ok c → revert_pending_clear pe remote node expected c = Ok c' → pool_ok c'.
Proof.
  intros Hok Hrun. unfold revert_pending_clear in Hrun. run_ok Hrun. destruct v1 as [id e].
  run_ok Hrun. injection Hrun as <-.
  match goal with H : find_bound _ _ _ = _ |- _ => apply find_bound_Some in H as [He Hb] end.
  eapply pool_ok_flag; [done|done|done].
Qed.

Lemma adopt_into_ok key remote node c c' :
  pool_ok c → find_bound c remote node = None → adopt_into key remote node c = Ok c' → pool_ok c'.
Proof.
  intros Hok Hfree Hrun. unfold adopt_into in Hrun.
  destruct (sc_get c key) as [e|] eqn:He.
  - destruct (_ || _); [done|]. injection Hrun as <-.
    eapply (pool_ok_bind c key e _ remote node); try done.
    intros k2 e2 _ He2. by eapply find_bound_None.
  - run_ok Hrun. injection Hrun as <-.
    eapply pool_ok_replace; [exact Hok|intros k'; apply sc_get_insert| |].
    + split; simpl; [done|done|split; eauto|done].
    + intros r n [[= <-] [= <-]]%bound_to_true k2 e2 _ He2. by eapply find_bound_None.
Qed.

Lemma adopt_key_ok pe pre remote node expected c c' :
  pool_ok c → adopt_key pe pre remote node expected c = Ok c' → pool_ok c'.
Proof.
  intros Hok Hrun. unfold adopt_key in Hrun. run_ok Hrun.
  match goal with H : bool_decide (is_Some _) = false |- _ =>
    apply bool_decide_eq_false, eq_None_not_Some in H end.
  by eapply adopt_into_ok.
Qed.

Lemma adopt_candidate_ok le n c c' a :
  pool_ok c → adopt_candidate le n c = Some (c', a) → pool_ok c'.
Proof.
  intros Hok. unfold adopt_candidate. destruct (ns_current_key n) as [key|]; [|done].
  case_bool_decide; [done|]. destruct (negb (can_modify le _)); [done|].
  destruct (negb (NODE_SCHEMA le _)); [done|].
  case_bool_decide as Hb; [done|]. apply eq_None_not_Some in Hb.
  destruct (adopt_into key _ _ c) eqn:Ha; [|done]. intros [= <- _]. by eapply adopt_into_ok.
Qed.

Lemma adopt_loop_ok le statuses : ∀ c, pool_ok c → pool_ok (adopt_loop le statuses c).1.
Proof.
  induction statuses as [|n statuses IH]; intros c Hok; simpl; [done|].
  destruct (adopt_candidate le n c) as [[c1 a]|] eqn:Ha; [|by apply IH].
  apply adopt_candidate_ok in Ha; [|done]. specialize (IH c1 Ha).
  by destruct (adopt_loop le statuses c1).
Qed.

Lemma adopt_all_ok le statuses expected c c' l :
  pool_ok c → adopt_all le statuses expected c = Ok (c', l) → pool_ok c'.
Proof.
  intros Hok Hrun. unfold adopt_all in Hrun. run_ok Hrun.
  pose proof (adopt_loop_ok le statuses c Hok) as Hl. destruct (adopt_loop le statuses c) as [c1 adopted].
  injection Hrun as <- _. by destruct adopted.
Qed.

Lemma assign_proposal_ok le p c c' : pool_ok c → assign_proposal le p c = Some c' → pool_ok c'.
Proof.
  intros Hok. unfold assign_proposal. destruct (negb (can_modify le _)); [done|].
  destruct (negb (NODE_SCHEMA le _)); [done|]. destruct (env_remotes le !! pa_remote p); simpl; [|done].
  destruct (sc_get c (pa_key p)) as [e|] eqn:He; simpl; [|done].
  destruct (negb (ProductType.matches_remote_type _ _)); [done|].
  destruct (other_bound _ _ _ _) as [|] eqn:Hother; [done|]. destruct (is_bound e); [done|].
  intros [= <-]. eapply (pool_ok_bind c (pa_key p) e _ (pa_remote p) (pa_node p)); try done.
  intros k2 e2 Hne He2. eapply other_bound_None; [done|done|].
  by rewrite (eo_key _ _ (po_entry c Hok k2 e2 He2)).
Qed.

Lemma assign_loop_ok le ps : ∀ c, pool_ok c → pool_ok (assign_loop le ps c).1.
Proof.
  induction ps as [|p ps IH]; intros c Hok; simpl; [done|].
  destruct (assign_proposal le p c) as [c1|] eqn:Ha; [|by apply IH].
  apply assign_proposal_ok in Ha; [|done]. specialize (IH c1 Ha). by destruct (assign_loop le ps c1).
Qed.

Lemma bulk_assign_ok `{!StatusHash} pe le pre proposal c c' l :
  pool_ok c → bulk_assign pe le pre proposal c = Ok (c', l) → pool_ok c'.
Proof.
  intros Hok Hrun. unfold bulk_assign in Hrun. run_ok Hrun.
  pose proof (assign_loop_ok le (aa_assignments proposal) c Hok) as Hl.
  destruct (assign_loop _ _ c) as [c1 applied]. injection Hrun as <- _. by destruct applied.
Qed.

Lemma discard_loop_ok ps : ∀ c, pool_ok c → pool_ok (discard_loop ps c).1.
Proof.
  induction ps as [|p ps IH]; intros c Hok; simpl; [done|].
  unfold pool_assignment_still_valid. destruct (sc_get c (pe_key p)) as [e|] eqn:He; [|by apply IH].
  destruct (bound_to _ _ e); [|by apply IH].
  assert (pool_ok (sc_modify c (pe_key p) (discard p))) as Hok1.
  { unfold discard. destruct (pe_op p); [by eapply pool_ok_unbind|by eapply pool_ok_flag]. }
  specialize (IH _ Hok1). by destruct (discard_loop ps _).
Qed.

Lemma clear_pending_ok pe pre mid expected c c' n :
  pool_ok c → clear_pending pe pre mid expected c = Ok (c', n) → pool_ok c'.
Proof.
  intros Hok Hrun. unfold clear_pending in Hrun. run_ok Hrun.
  destruct (compute_pending pe _ mid) as [|p ps]; [by injection Hrun as <- _|]. run_ok Hrun.
  pose proof (discard_loop_ok (p :: ps) c Hok) as Hl. destruct (discard_loop (p :: ps) c) as [c1 k].
  injection Hrun as <- _. by destruct (0 <? k).
Qed.

Lemma drop_binding_ok p c : pool_ok c → pool_ok (drop_binding p c).
Proof.
  intros Hok. unfold drop_binding. destruct (sc_get c (pe_key p)) as [e|] eqn:He; [|done].
  destruct (bound_to _ _ e); [|done]. by eapply pool_ok_unbind.
Qed.
End invariant.
