(* ===== verification/SubscriptionGuards.v ===== *)
(** * The key pool: steps, privileges and the orphan guard

    Every request that changes the pool as one step relation, with three
    properties of it: the invariant holds in every reachable pool, an entry on a
    remote changes only for a caller with the privilege for that remote, and a
    binding is not dropped while its key was seen live. *)

From S2P Require Import Prelude FileSystem RemoteUpid SectionConfig SubscriptionKeys SubscriptionPool SubscriptionPlan SubscriptionInvariant.

Section guards.
Context `{SubscriptionStatusType} {C : Type} `{SectionConfigData C SubscriptionKeyEntry}
        `{!SectionConfigLaws C SubscriptionKeyEntry} `{ConfigDigests C} `{!StatusHash}.
Implicit Types (c : C) (e : SubscriptionKeyEntry) (k : string).

(** ** Steps

    One request, or one clean-up of the worker: [pe] is what the caller sees
    before the lock is taken and [le] what is read again under it. *)
Inductive pool_step (pe le : env) (c : C) : C → Prop :=
| StepAddKeys keys expected c' r : add_keys keys expected c = Ok (c', r) → pool_step pe le c c'
| StepDeleteKey pre key expected shadow saved c' shadow' :
    delete_key pe le pre key expected shadow saved c = Ok (c', shadow') → pool_step pe le c c'
| StepSetAssignment pre key remote node expected c' :
    set_assignment pe le pre key remote node expected c = Ok c' → pool_step pe le c c'
| StepClearAssignment pre key expected c' :
    clear_assignment pe le pre key expected c = Ok c' → pool_step pe le c c'
| StepQueueClear remote node expected c' :
    queue_clear pe remote node expected c = Ok c' → pool_step pe le c c'
| StepRevertPendingClear remote node expected c' :
    revert_pending_clear pe remote node expected c = Ok c' → pool_step pe le c c'
| StepAdoptKey pre remote node expected c' :
    adopt_key pe pre remote node expected c = Ok c' → pool_step pe le c c'
| StepAdoptAll statuses expected c' l :
    adopt_all le statuses expected c = Ok (c', l) → pool_step pe le c c'
| StepBulkAssign pre proposal c' l :
    bulk_assign pe le pre proposal c = Ok (c', l) → pool_step pe le c c'
| StepClearPending pre mid expected c' n :
    clear_pending pe pre mid expected c = Ok (c', n) → pool_step pe le c c'
| StepWorkerClear statuses start p :
    p ∈ compute_pending pe statuses start → pe_op p = Clear → pool_step pe le c (drop_binding p c).

(** Requests of any number of callers, in the order in which they hold the lock. *)
Definition pool_steps : C → C → Prop := rtc (λ c c', ∃ pe le, pool_step pe le c c').

Lemma pool_step_ok pe le c c' : pool_ok c → pool_step pe le c c' → pool_ok c'.
Proof.
  intros Hok []; [by eapply add_keys_ok|by eapply delete_key_ok|by eapply set_assignment_ok
    |by eapply clear_assignment_ok|by eapply queue_clear_ok|by eapply revert_pending_clear_ok
    |by eapply adopt_key_ok|by eapply adopt_all_ok|by eapply bulk_assign_ok|by eapply clear_pending_ok
    |by apply drop_binding_ok].
Qed.

(** ** Changes confined to remotes *)

(** Every changed entry that is on some remote, before or after, is on an allowed one. *)
Definition confined (allowed : string → Prop) (c c' : C) : Prop :=
  ∀ k r, sc_get c k ≠ sc_get c' k →
    (sc_get c k ≫= se_remote = Some r ∨ sc_get c' k ≫= se_remote = Some r) → allowed r.

#[local] Instance confined_preorder allowed : PreOrder (confined allowed).
Proof.
  split.
  - intros c k r Hne. done.
  - intros c1 c2 c3 Hl Hr k r Hne Hat.
    destruct (decide (sc_get c1 k = sc_get c2 k)) as [E1|N1];
      destruct (decide (sc_get c2 k = sc_get c3 k)) as [E2|N2].
    + congruence.
    + apply (Hr k r N2). by rewrite <-E1.
    + apply (Hl k r N1). by rewrite E2.
    + destruct Hat; eauto.
Qed.

Lemma confined_at allowed c c' k :
  (∀ k', k ≠ k' → sc_get c' k' = sc_get c k') →
  (∀ r, sc_get c k ≫= se_remote = Some r ∨ sc_get c' k ≫= se_remote = Some r → allowed r) →
  confined allowed c c'.
Proof.
  intros Hsame Hat k' r Hne. destruct (decide (k = k')) as [<-|Hk]; [apply Hat|].
  by rewrite Hsame in Hne.
Qed.

Lemma confined_modify allowed c k e f :
  sc_get c k = Some e → (∀ r, se_remote e = Some r → allowed r) →
  (∀ r, se_remote (f e) = Some r → allowed r) → confined allowed c (sc_modify c k f).
Proof.
  intros He Hold Hnew. apply (confined_at _ _ _ k).
  - intros k' Hk. by rewrite sc_get_modify, decide_False.
  - intros r. rewrite sc_get_modify, decide_True, He by done. simpl. intros []; auto.
Qed.

Lemma check_modify_bound_Ok allowed e u r :
  check_modify_bound allowed e = Ok u → se_remote e = Some r → allowed r = true.
Proof.
  unfold check_modify_bound. intros Hc Hr. rewrite Hr in Hc. apply bail_if_Ok in Hc.
  by apply negb_false_iff.
Qed.

Section handlers.
Context (pe le : env).

Definition may_modify (r : string) : Prop := can_modify pe r = true ∨ can_modify le r = true.

Lemma add_keys_confined keys expected c c' r :
  add_keys keys expected c = Ok (c', r) → confined may_modify c c'.
Proof.
  unfold add_keys. intros Hrun. run_ok Hrun. 
  destruct v as [es d]. run_ok Hrun.
  injection Hrun as -> _. destruct (collect_entries_spec _ _ _ _ Hrun1) as (Hn&_&Hf&_).
  destruct (insert_entries_spec _ _ _ Hrun3 Hn) as [Hfree Hget]. intros k r'.
  rewrite Hget. destruct (find _ es) as [x|] eqn:Hx; [|done].
  apply find_some in Hx as [Hin%list_elem_of_In Heq%String.eqb_eq]. subst k.
  rewrite Forall_forall in Hf. destruct (Hf x Hin) as (_&Hr&_). rewrite (Hfree x Hin). simpl.
  rewrite Hr. by intros _ [].
Qed.

Lemma delete_key_confined pre key expected sh sv c c' sh' :
  delete_key pe le pre key expected sh sv c = Ok (c', sh') → confined may_modify c c'.
Proof.
  unfold delete_key. intros Hrun. run_ok Hrun. injection Hrun as <- _. apply (confined_at _ _ _ key).
  - intros k' Hk. by rewrite sc_get_remove, decide_False.
  - intros r. rewrite sc_get_remove, decide_True by done. rewrite Hrun3. simpl.
    intros [Hr|?]; [|done]. right. by eapply check_modify_bound_Ok.
Qed.

Lemma clear_assignment_confined pre key expected c c' :
  clear_assignment pe le pre key expected c = Ok c' → confined may_modify c c'.
Proof.
  unfold clear_assignment. intros Hrun. run_ok Hrun. injection Hrun as <-.
  eapply confined_modify; [done| |done]. intros r Hr. right. by eapply check_modify_bound_Ok.
Qed.

Lemma set_assignment_confined pre key remote node expected c c' :
  set_assignment pe le pre key remote node expected c = Ok c' → confined may_modify c c'.
Proof.
  unfold set_assignment. intros Hrun. run_ok Hrun. injection Hrun as <-.
  apply bail_if_Ok, negb_false_iff in Hrun0.
  eapply confined_modify; [exact Hrun3| |].
  - intros r Hr. rewrite Hr in Hrun4. destruct (String.eqb_spec r remote) as [Heq|]; [rewrite Heq; by left|].
    apply bail_if_Ok, negb_false_iff in Hrun4. by right.
  - intros r Hr. assert (Some remote = Some r) as [= <-]; [|by left].
    rewrite <-Hr. cbv beta zeta.
    destruct (moves remote node (binding v2)); reflexivity.
Qed.

Lemma queue_clear_confined remote node expected c c' :
  queue_clear pe remote node expected c = Ok c' → confined may_modify c c'.
Proof.
  unfold queue_clear. intros Hrun. run_ok Hrun. destruct v1 as [id e]. run_ok Hrun. injection Hrun as <-.
  apply bail_if_Ok, negb_false_iff in Hrun0. apply find_bound_Some in Hrun2 as [He Hb].
  apply bound_to_true in Hb as [Hr _].
  eapply confined_modify; [done|..]; intros r; simpl; rewrite Hr; intros [= <-]; by left.
Qed.

Lemma revert_pending_clear_confined remote node expected c c' :
  revert_pending_clear pe remote node expected c = Ok c' → confined may_modify c c'.
Proof.
  unfold revert_pending_clear. intros Hrun. run_ok Hrun. destruct v1 as [id e]. run_ok Hrun.
  injection Hrun as <-.
  apply bail_if_Ok, negb_false_iff in Hrun0. apply find_bound_Some in Hrun2 as [He Hb].
  apply bound_to_true in Hb as [Hr _].
  eapply confined_modify; [done|..]; intros r; simpl; rewrite Hr; intros [= <-]; by left.
Qed.

Lemma adopt_into_confined key remote node c c' :
  adopt_into key remote node c = Ok c' → may_modify remote → confined may_modify c c'.
Proof.
  unfold adopt_into. intros Hrun Hmay. destruct (sc_get c key) as [e|] eqn:He.
  - destruct (bool_decide (is_Some (se_remote e))) eqn:Hb; [done|]. simpl in Hrun.
    apply bool_decide_eq_false, eq_None_not_Some in Hb.
    destruct (bool_decide _); [done|]. injection Hrun as <-.
    eapply confined_modify; [done|..]; intros r; simpl; [by rewrite Hb|by intros [= <-]].
  - run_ok Hrun. injection Hrun as <-. apply (confined_at _ _ _ key).
    + intros k' Hk. by rewrite sc_get_insert, decide_False.
    + intros r. rewrite He, sc_get_insert, decide_True by done. simpl. intros [?|[= <-]]; done.
Qed.

Lemma adopt_key_confined pre remote node expected c c' :
  adopt_key pe pre remote node expected c = Ok c' → confined may_modify c c'.
Proof.
  unfold adopt_key. intros Hrun. run_ok Hrun. apply bail_if_Ok, negb_false_iff in Hrun0.
  eapply adopt_into_confined; [done|]. by left.
Qed.

Lemma adopt_loop_confined statuses : ∀ c, confined may_modify c (adopt_loop le statuses c).1.
Proof.
  induction statuses as [|n statuses IH]; intros c; simpl; [done|].
  destruct (adopt_candidate le n c) as [[c1 a]|] eqn:Ha; [|apply IH].
  transitivity c1; [|specialize (IH c1); by destruct (adopt_loop le statuses c1)].
  unfold adopt_candidate in Ha. destruct (ns_current_key n) as [key|]; [|done].
  case_bool_decide; [done|]. destruct (can_modify le (ns_remote n)) eqn:Hm; [|done].
  destruct (negb (NODE_SCHEMA le _)); [done|]. simpl in Ha. case_bool_decide; [done|].
  destruct (adopt_into key _ _ c) eqn:Hi; [|done]. injection Ha as <- _.
  eapply adopt_into_confined; [done|]. by right.
Qed.

Lemma adopt_all_confined statuses expected c c' l :
  adopt_all le statuses expected c = Ok (c', l) → confined may_modify c c'.
Proof.
  unfold adopt_all. intros Hrun. run_ok Hrun. pose proof (adopt_loop_confined statuses c) as Hl.
  destruct (adopt_loop le statuses c) as [c1 adopted]. injection Hrun as <- _. by destruct adopted.
Qed.

Lemma assign_loop_confined ps : ∀ c, confined may_modify c (assign_loop le ps c).1.
Proof.
  induction ps as [|p ps IH]; intros c; simpl; [done|].
  destruct (assign_proposal le p c) as [c1|] eqn:Ha; [|apply IH].
  transitivity c1; [|specialize (IH c1); by destruct (assign_loop le ps c1)].
  unfold assign_proposal in Ha. destruct (can_modify le (pa_remote p)) eqn:Hm; [|done].
  destruct (negb (NODE_SCHEMA le _)); [done|]. simpl in Ha.
  destruct (env_remotes le !! pa_remote p); simpl in Ha; [|done].
  destruct (sc_get c (pa_key p)) as [e|] eqn:He; simpl in Ha; [|done].
  destruct (negb _); [done|]. destruct (other_bound _ _ _ _); [done|].
  destruct (is_bound e) eqn:Hb; [done|]. injection Ha as <-.
  apply bool_decide_eq_false, eq_None_not_Some in Hb.
  eapply confined_modify; [done|..]; intros r; simpl; [by rewrite Hb|]. intros [= <-]. by right.
Qed.

Lemma bulk_assign_confined pre proposal c c' l :
  bulk_assign pe le pre proposal c = Ok (c', l) → confined may_modify c c'.
Proof.
  unfold bulk_assign. intros Hrun. run_ok Hrun.
  pose proof (assign_loop_confined (aa_assignments proposal) c) as Hl.
  destruct (assign_loop le _ c) as [c1 applied]. injection Hrun as <- _. by destruct applied.
Qed.

Lemma pending_of_spec statuses e p :
  pending_of pe statuses e = Some p →
  pe_key p = se_key e ∧ bound_to (pe_remote p) (pe_node p) e = true ∧
  can_modify pe (pe_remote p) = true ∧ (pe_op p = Clear ↔ se_pending_clear e = true).
Proof.
  unfold pending_of. destruct (se_remote e) as [r|] eqn:Hr, (se_node e) as [n|] eqn:Hn; try done. simpl.
  destruct (can_modify pe r) eqn:Hm; [|done]. simpl.
  destruct (se_pending_clear e); [|case_match; [|done]]; intros [= <-]; simpl;
    rewrite bound_to_true, Hr, Hn; naive_solver.
Qed.

Lemma compute_pending_modify statuses c p :
  p ∈ compute_pending pe statuses c → can_modify pe (pe_remote p) = true.
Proof. intros (e&_&He)%list_elem_of_omap. by apply pending_of_spec in He as (_&_&?&_). Qed.

Lemma still_valid_Some c p :
  pool_assignment_still_valid c p = true →
  ∃ e, sc_get c (pe_key p) = Some e ∧ se_remote e = Some (pe_remote p) ∧ se_node e = Some (pe_node p).
Proof.
  unfold pool_assignment_still_valid. destruct (sc_get c (pe_key p)) as [e|]; [|done].
  intros [Hr Hn]%bound_to_true. eauto.
Qed.

Lemma discard_loop_confined ps : ∀ c,
  Forall (λ p, can_modify pe (pe_remote p) = true) ps → confined may_modify c (discard_loop ps c).1.
Proof.
  induction ps as [|p ps IH]; intros c Hps; simpl; [done|]. apply Forall_cons in Hps as [Hp Hps].
  destruct (pool_assignment_still_valid c p) eqn:Hv; [|by apply IH].
  transitivity (sc_modify c (pe_key p) (discard p)).
  - apply still_valid_Some in Hv as (e&He&Hr&_).
    eapply confined_modify; [done|..]; intros r.
    + rewrite Hr. intros [= <-]. by left.
    + unfold discard. destruct (pe_op p); simpl; [done|]. rewrite Hr. intros [= <-]. by left.
  - specialize (IH (sc_modify c (pe_key p) (discard p)) Hps). by destruct (discard_loop ps _).
Qed.

Lemma clear_pending_confined pre mid expected c c' n :
  clear_pending pe pre mid expected c = Ok (c', n) → confined may_modify c c'.
Proof.
  unfold clear_pending. intros Hrun. run_ok Hrun.
  pose proof (discard_loop_confined (compute_pending pe (collect_node_status pe mid) mid) c) as Hl.
  destruct (compute_pending pe _ mid) as [|p ps] eqn:Hps; [by injection Hrun as <- _|]. run_ok Hrun.
  destruct (discard_loop (p :: ps) c) as [c1 k]. injection Hrun as <- _.
  destruct (0 <? k); [|done]. apply Hl. apply Forall_forall. intros q Hq.
  apply (compute_pending_modify (collect_node_status pe mid) mid). by rewrite Hps.
Qed.

Lemma drop_binding_confined p c : can_modify pe (pe_remote p) = true → confined may_modify c (drop_binding p c).
Proof.
  intros Hp. unfold drop_binding. destruct (sc_get c (pe_key p)) as [e|] eqn:He; [|done].
  destruct (bound_to _ _ e) eqn:Hb; [|done]. apply bound_to_true in Hb as [Hr _].
  eapply confined_modify; [done| |done]. intros r. rewrite Hr. intros [= <-]. by left.
Qed.

Lemma pool_step_confined c c' : pool_step pe le c c' → confined may_modify c c'.
Proof.
  intros []; [by eapply add_keys_confined|by eapply delete_key_confined|by eapply set_assignment_confined
    |by eapply clear_assignment_confined|by eapply queue_clear_confined|by eapply revert_pending_clear_confined
    |by eapply adopt_key_confined|by eapply adopt_all_confined|by eapply bulk_assign_confined
    |by eapply clear_pending_confined|eapply drop_binding_confined, compute_pending_modify; done].
Qed.
End handlers.

(** ** The orphan guard *)

(** Equal digests mean equal configurations (SHA-256 has no collisions). *)
Definition digest_identifies (c c' : C) : Prop :=
  config_digest c = config_digest c' → ∀ k, sc_get c k = sc_get c' k.

(** [key] loses its binding [(r, n)]. *)
Inductive unassigns (pe le : env) (pre c : C) (key r n : string) : C → Prop :=
| UnassignDelete expected shadow saved c' shadow' :
    delete_key pe le pre key expected shadow saved c = Ok (c', shadow') → unassigns pe le pre c key r n c'
| UnassignClear expected c' :
    clear_assignment pe le pre key expected c = Ok c' → unassigns pe le pre c key r n c'
| UnassignMove r' n' expected c' :
    (r', n') ≠ (r, n) → set_assignment pe le pre key r' n' expected c = Ok c' →
    unassigns pe le pre c key r n c'.

Lemma orphan_guard_Ok pe pre c key e r n u :
  orphan_guard key (check_synced_assignment_for_unassign pe key (sc_get pre key ≫= binding))
    (bool_decide (is_Some (sc_get pre key ≫= binding)))
    (negb (bool_decide (config_digest c = config_digest pre))) e = Ok u →
  digest_identifies c pre → sc_get c key = Some e → binding e = Some (r, n) →
  (∀ k, sc_get c k = sc_get pre k) ∧ is_live pe key r n = false.
Proof.
  intros Hg Hinj He Hbind. apply bail_if_Ok in Hg.
  assert (is_bound e = true) as Hb.
  { apply bool_decide_eq_true. unfold binding in Hbind. destruct (se_remote e); [eauto|done]. }
  rewrite Hb, !andb_true_r, !orb_false_iff in Hg. destruct Hg as [[Hsync Hraced] _].
  apply negb_false_iff, bool_decide_eq_true in Hraced. specialize (Hinj Hraced). split; [done|].
  rewrite <-Hinj, He in Hsync. simpl in Hsync. rewrite Hbind in Hsync. simpl in Hsync.
  destruct (is_live pe key r n); [|done]. simpl in Hsync.
  apply bound_to_binding in Hbind. congruence.
Qed.

Lemma moves_true r n r' n' : (r', n') ≠ (r, n) → moves r' n' (Some (r, n)) = true.
Proof.
  intros Hne. simpl. destruct (String.eqb_spec r r') as [->|], (String.eqb_spec n n') as [->|]; done.
Qed.

Lemma set_assignment_move pe le pre key r n r' n' expected c c' e :
  set_assignment pe le pre key r' n' expected c = Ok c' → (r', n') ≠ (r, n) →
  digest_identifies c pre → sc_get c key = Some e → binding e = Some (r, n) →
  (∀ k, sc_get c k = sc_get pre k) ∧ is_live pe key r n = false ∧ can_modify pe r = true.
Proof.
  unfold set_assignment. intros Hrun Hne Hinj He Hbind. run_ok Hrun. rewrite He in Hrun3.
  injection Hrun3 as <-. rewrite Hbind, (moves_true r n r' n' Hne), !andb_true_r in Hrun5.
  assert (is_bound e = true) as Hb.
  { apply bool_decide_eq_true. unfold binding in Hbind. destruct (se_remote e); [eauto|done]. }
  rewrite Hb, !andb_true_r, !orb_false_iff in Hrun5. destruct Hrun5 as [[Hsync Hraced] _].
  apply negb_false_iff, bool_decide_eq_true in Hraced. specialize (Hinj Hraced). split; [done|].
  assert (sc_get pre key ≫= binding = Some (r, n)) as Hpre by by rewrite <-Hinj, He.
  rewrite Hpre in Hrun1, Hsync. rewrite (moves_true r n r' n' Hne) in Hrun1, Hsync.
  apply bail_if_Ok, negb_false_iff in Hrun1. split; [|done]. simpl in Hsync.
  destruct (is_live pe key r n); [|done]. simpl in Hsync.
  apply bound_to_binding in Hbind. congruence.
Qed.

(** The remote answers that the node [n] runs [key]. *)
Definition reported_live (pe : env) (key r n : string) : Prop :=
  is_Some (env_remotes pe !! r) ∧
  ∃ live info, live_info pe r = Ok live ∧ live !! n = Some (Some info) ∧
    ni_status info = sub_active ∧ ni_key info = Some key.

Lemma reported_live_iff pe key r n : reported_live pe key r n ↔ is_live pe key r n = true.
Proof.
  unfold reported_live, is_live. destruct (env_remotes pe !! r) as [ty|]; [|split; [by intros [[] _]|done]].
  destruct (live_info pe r) as [live|err]; [|split; [by intros (_&?&?&?&_)|done]].
  destruct (live !! n) as [[info|]|] eqn:Hl; [|split; [intros (_&?&?&[= <-]&?&_); congruence|done]..].
  rewrite andb_true_iff, !bool_decide_eq_true. split.
  - intros (_&live'&info'&[= <-]&Hi&?&?). rewrite Hl in Hi. by injection Hi as ->.
  - intros [??]. split; [done|]. by exists live, info.
Qed.

(** ** Properties *)

(** C5: in every pool that requests of any number of callers reach from a well
    formed one, every entry has the product type of its key, a remote exactly
    when it has a node, a queued clear only when it is bound, and no node has
    two keys. *)
Theorem pool_invariant c c' : pool_ok c → pool_steps c c' → pool_ok c'.
Proof.
  intros Hok Hsteps. induction Hsteps as [|c1 c2 c3 (pe&le&Hstep) _ IH]; [done|].
  by apply IH, (pool_step_ok pe le c1).
Qed.

(** C33: a request changes an entry that is bound to a remote, or binds one to
    it, only if its caller may modify that remote: [PRIV_RESOURCE_MODIFY] was
    checked on it before or under the lock, whatever happened in between. *)
Theorem pool_privileges pe le c c' k r :
  pool_step pe le c c' → sc_get c k ≠ sc_get c' k →
  (sc_get c k ≫= se_remote = Some r ∨ sc_get c' k ≫= se_remote = Some r) →
  can_modify pe r = true ∨ can_modify le r = true.
Proof. intros Hstep. by apply (pool_step_confined pe le c c' Hstep). Qed.

(** C4: a key that the remote reports as the active key of the node it is bound
    to stays bound: a request to delete it, to clear its assignment or to move it
    elsewhere fails.  A request that drops a binding was decided on the pool as it
    still is under the lock (so the binding that was asked about is the one that is
    dropped), and its caller may modify the remote that loses the key.  The
    remote's report counts only if there is one: a remote that is not configured or
    does not answer lets the key go ([unreachable_remote_lets_go]).  That two
    states of the pool with the same digest are the same ([digest_identifies]) is
    assumed of the hash. *)
Theorem reported_live_key_kept pe le pre c key e r n c' :
  digest_identifies c pre → sc_get c key = Some e → binding e = Some (r, n) →
  unassigns pe le pre c key r n c' →
  (∀ k, sc_get c k = sc_get pre k) ∧ ¬ reported_live pe key r n ∧ can_modify pe r = true.
Proof.
  intros Hinj He Hbind Hun. rewrite reported_live_iff, not_true_iff_false. pose proof Hbind as [Hr _]%bound_to_binding%bound_to_true.
  destruct Hun as [expected sh sv c' sh' Hrun|expected c' Hrun|r' n' expected c' Hne Hrun].
  - unfold delete_key in Hrun. run_ok Hrun. rewrite He in Hrun3. injection Hrun3 as <-.
    assert (binding v = sc_get pre key ≫= binding) as Hb by by rewrite Hrun0. rewrite Hb in Hrun5.
    destruct (orphan_guard_Ok pe pre c key e r n _ Hrun5 Hinj He Hbind) as [Hsame Hlive].
    split_and!; [done|done|]. rewrite <-Hsame, He in Hrun0. injection Hrun0 as <-.
    by eapply check_modify_bound_Ok.
  - unfold clear_assignment in Hrun. run_ok Hrun. rewrite He in Hrun2. injection Hrun2 as <-.
    destruct (orphan_guard_Ok pe pre c key e r n _ Hrun4 Hinj He Hbind) as [Hsame Hlive].
    split_and!; [done|done|]. rewrite <-Hsame, He in Hrun0. by eapply check_modify_bound_Ok.
  - by eapply set_assignment_move.
Qed.
End guards.

(** ** A concrete pool *)

Module PoolDemo.
Inductive status : Type := NEW | NOTFOUND | ACTIVE.
#[export] Instance status_eq_dec : EqDecision status.
Proof. solve_decision. Defined.
#[export] Instance statuses : SubscriptionStatusType :=
  { sub_status := status; sub_status_dec := _; sub_active := ACTIVE; sub_not_found := NOTFOUND; sub_default := NEW }.

Definition pool : Type := gmap string SubscriptionKeyEntry.

#[export] Instance pool_config : SectionConfigData pool SubscriptionKeyEntry := gmap_config.
#[export] Instance pool_laws : SectionConfigLaws pool SubscriptionKeyEntry := gmap_config_laws.
#[export] Instance pool_digests : ConfigDigests pool := gmap_digests.
#[export] Instance pool_status_hash : StatusHash :=
  { status_hash := list (string * string * sub_status * option Z * bool); status_hash_dec := _; hash_rows l := l }.

Lemma pool_digest_identifies (c c' : pool) : digest_identifies c c'.
Proof. by intros [= ->] k. Qed.

Definition key_a : string := "pve2c-00112233aa".
Definition key_b : string := "pve4b-00112233bb".

(** An administrator of remote [east], with two nodes, of which [n2] runs [key_b]. *)
Definition live (r : string) : result string (gmap string (option NodeSubscriptionInfo)) :=
  Ok (list_to_map
        [("n1", Some (mkInfo NOTFOUND (Some 2) None SubscriptionLevel.None None None));
         ("n2", Some (mkInfo ACTIVE (Some 4) (Some key_b) SubscriptionLevel.Basic None None))]).
Definition admin : env :=
  mkEnv (λ _, true) (String.eqb "east") (list_to_map [("east", RemoteType.Pve)]) live (λ _, true).

Definition run {A} (d : A) (r : result api_error A) : A := match r with Ok a => a | Err _ => d end.
Definition pool_added : pool := (run (∅, mkAddResult 0 0) (add_keys [key_a] None (∅ : pool))).1.
Definition pool_assigned : pool :=
  run ∅ (set_assignment admin admin pool_added key_a "east" "n1" None pool_added).
Definition pool_adopted : pool := run ∅ (adopt_key admin pool_assigned "east" "n2" None pool_assigned).
Definition pool_cleared : pool :=
  run ∅ (clear_assignment admin admin pool_adopted key_a None pool_adopted).

Lemma pool_empty_ok : pool_ok (∅ : pool).
Proof. split; [intros k e [=]|intros k k' e e' r n [=]]. Qed.

Lemma step_added : pool_step admin admin (∅ : pool) pool_added.
Proof. apply (StepAddKeys _ _ _ [key_a] None _ (mkAddResult 1 0)). vm_compute; reflexivity. Qed.
Lemma step_assigned : pool_step admin admin pool_added pool_assigned.
Proof. apply (StepSetAssignment _ _ _ pool_added key_a "east" "n1" None). vm_compute; reflexivity. Qed.
Lemma step_adopted : pool_step admin admin pool_assigned pool_adopted.
Proof. apply (StepAdoptKey _ _ _ pool_assigned "east" "n2" None). vm_compute; reflexivity. Qed.
Lemma run_cleared : clear_assignment admin admin pool_adopted key_a None pool_adopted = Ok pool_cleared.
Proof. vm_compute; reflexivity. Qed.

Lemma pool_steps_demo : pool_steps (∅ : pool) pool_cleared.
Proof.
  apply (rtc_l _ _ pool_added); [exists admin, admin; exact step_added|].
  apply (rtc_l _ _ pool_assigned); [exists admin, admin; exact step_assigned|].
  apply (rtc_l _ _ pool_adopted); [exists admin, admin; exact step_adopted|].
  apply rtc_once. exists admin, admin. exact (StepClearAssignment _ _ _ pool_adopted key_a None _ run_cleared).
Qed.

Lemma pool_invariant_witness : pool_ok pool_cleared ∧ is_Some (sc_get pool_cleared key_b).
Proof.
  split; [|vm_compute; eauto]. exact (pool_invariant ∅ pool_cleared pool_empty_ok pool_steps_demo).
Defined.

Lemma pool_privileges_witness : can_modify admin "east" = true ∨ can_modify admin "east" = true.
Proof.
  apply (pool_privileges admin admin pool_added pool_assigned key_a "east").
  - exact step_assigned.
  - vm_compute. discriminate.
  - right. vm_compute. reflexivity.
Defined.

(** Dropping the binding of [key_a] is allowed, dropping the live one of [key_b] is not. *)
Lemma reported_live_key_kept_witness :
  ¬ reported_live admin key_a "east" "n1" ∧
  clear_assignment admin admin pool_adopted key_b None pool_adopted = Err (BAD_REQUEST (msg_live key_b "first")).
Proof.
  split; [|vm_compute; reflexivity].
  apply (reported_live_key_kept admin admin pool_adopted pool_adopted key_a
           (new_entry key_a ProductType.Pve SubscriptionLevel.Community Manual (Some "east") (Some "n1"))
           "east" "n1" pool_cleared).
  - apply pool_digest_identifies.
  - vm_compute; reflexivity.
  - reflexivity.
  - exact (UnassignClear _ _ _ _ _ _ _ None _ run_cleared).
Defined.

(** The same administrator while the remote does not answer: the request for
    [key_b], which [n2] runs, succeeds. *)
Definition admin_offline : env :=
  mkEnv (can_audit admin) (can_modify admin) (env_remotes admin) (λ _, Err "timeout") (NODE_SCHEMA admin).

Theorem unreachable_remote_lets_go :
  reported_live admin key_b "east" "n2" ∧
  ∃ c, clear_assignment admin_offline admin_offline pool_adopted key_b None pool_adopted = Ok c ∧
       sc_get c key_b ≫= binding = None.
Proof.
  split; [by apply reported_live_iff; vm_compute|]. eexists. split; [vm_compute; reflexivity|].
  vm_compute. reflexivity.
Qed.
End PoolDemo.
