(* ===== verification/SubscriptionAssign.v ===== *)
(** * The key pool: adding keys and automatic assignment

    What [add_keys] stores, what [compute_proposals] proposes, and that
    [bulk_assign] binds every proposal of an up-to-date [auto_assign]. *)

From S2P Require Import Prelude FileSystem RemoteUpid SectionConfig SubscriptionKeys SubscriptionPool SubscriptionPlan SubscriptionInvariant SubscriptionGuards.

Section assign.
Context `{SubscriptionStatusType} {C : Type} `{SectionConfigData C SubscriptionKeyEntry}
        `{!SectionConfigLaws C SubscriptionKeyEntry} `{ConfigDigests C}.
Implicit Types (c : C) (e : SubscriptionKeyEntry) (k : string).

(** ** Adding *)

(** The entry that [add_keys] stores for a key it understands. *)
Definition manual_entry (k : string) (e : SubscriptionKeyEntry) : Prop :=
  ∃ ty l, ProductType.from_key k = Some ty ∧ SubscriptionLevel.from_key (Some k) = Some l ∧
          e = new_entry k ty l Manual None None.

Definition unreadable (k : string) : Prop :=
  ProductType.from_key k = None ∨ SubscriptionLevel.from_key (Some k) = None.

Lemma collect_entries_cases keys : ∀ seen,
  match collect_entries keys seen with
  | Ok (entries, _) => Forall (λ e, manual_entry (se_key e) e) entries
  | Err _ => ∃ k, k ∈ keys ∧ unreadable k
  end.
Proof.
  induction keys as [|key keys IH]; intros seen; simpl; [constructor|].
  assert (∀ P, (∃ k, k ∈ keys ∧ P k) → ∃ k, k ∈ key :: keys ∧ P k) as Hmore.
  { intros P (k&Hk&HP). exists k. split; [by right|done]. }
  case_bool_decide as Hseen.
  - specialize (IH seen). destruct (collect_entries keys seen) as [[es d]|]; simpl; auto.
  - destruct (ProductType.from_key key) as [ty|] eqn:Hty; simpl.
    2: { exists key. split; [left|by left]. }
    destruct (level_of key) as [l|err] eqn:Hl; simpl.
    2: { exists key. split; [left|right]. unfold level_of, ok_or in Hl.
         by destruct (SubscriptionLevel.from_key (Some key)). }
    apply ok_or_Ok in Hl.
    specialize (IH ({[key]} ∪ seen)). destruct (collect_entries keys _) as [[es d]|]; simpl; auto.
    constructor; [|done]. exists ty, l. done.
Qed.

Lemma insert_entries_Err entries : ∀ c err,
  insert_entries entries c = Err err → NoDup (se_key <$> entries) →
  ∃ e, e ∈ entries ∧ is_Some (sc_get c (se_key e)).
Proof.
  induction entries as [|e es IH]; intros c err; simpl; [done|].
  destruct (sc_get c (se_key e)) as [old|] eqn:He; [intros _ _; exists e; rewrite He; split; [left|eauto]|].
  intros Hins [Hnin Hnd]%NoDup_cons. destruct (IH _ _ Hins Hnd) as (x&Hx&Hs).
  rewrite sc_get_insert in Hs. destruct (decide (se_key e = se_key x)) as [Heq|].
  - exfalso. apply Hnin. rewrite Heq. by apply list_elem_of_fmap_2.
  - exists x. split; [by right|done].
Qed.

Lemma size_of_keys (keys : list string) (l : list string) :
  NoDup l → (∀ k, k ∈ l ↔ k ∈ keys) → length l = size (list_to_set keys : gset string).
Proof.
  intros Hnd Hel. rewrite <-(size_list_to_set (C := gset string)) by done. f_equal. apply set_eq. intros k.
  by rewrite !elem_of_list_to_set.
Qed.

(** [add_keys] is all or nothing.  When it succeeds, every distinct key of
    the request is new and is stored unbound with the product type and level
    that its text encodes, every other entry is untouched, and the two counts
    are the number of distinct keys and of repetitions.  It fails only for an
    empty request, a key that cannot be read, a stale digest, or a key that is
    already in the pool; then nothing is saved. *)
Theorem add_keys_spec keys expected c :
  match add_keys keys expected c with
  | Ok (c', r) =>
      (∀ k, k ∈ keys → sc_get c k = None ∧ ∃ e, sc_get c' k = Some e ∧ manual_entry k e) ∧
      (∀ k, k ∉ keys → sc_get c' k = sc_get c k) ∧
      added r = Z.of_nat (size (list_to_set keys : gset string)) ∧
      added r + deduplicated r = Z.of_nat (length keys)
  | Err _ =>
      keys = [] ∨ (∃ k, k ∈ keys ∧ unreadable k) ∨
      (∃ d, expected = Some d ∧ d ≠ config_digest c) ∨ ∃ k, k ∈ keys ∧ is_Some (sc_get c k)
  end.
Proof.
  unfold add_keys. case_bool_decide as Hk; simpl; [by left|].
  pose proof (collect_entries_cases keys ∅) as Hcases.
  destruct (collect_entries keys ∅) as [[es d]|] eqn:Hc; simpl; [|by right; left].
  destruct (collect_entries_spec _ _ _ _ Hc) as (Hnd&Hel&_&Hlen&_).
  assert (∀ k, k ∈ se_key <$> es ↔ k ∈ keys) as Hel'.
  { intros k. rewrite Hel. split; [by intros []|]. intros. split; [done|]. apply not_elem_of_empty. }
  destruct (detect_modification (config_digest c) expected) as [u|err] eqn:Hdet; simpl.
  2: { right; right; left. unfold detect_modification in Hdet. destruct expected as [x|]; [|done].
       exists x. split; [done|]. case_bool_decide; done. }
  destruct (insert_entries es c) as [c'|err] eqn:Hi; simpl.
  2: { right; right; right. destruct (insert_entries_Err _ _ _ Hi Hnd) as (e&He&Hs).
       exists (se_key e). split; [|done]. by apply Hel', list_elem_of_fmap_2. }
  destruct (insert_entries_spec _ _ _ Hi Hnd) as [Hfree Hget]. rewrite Forall_forall in Hcases.
  split_and!; [| |rewrite <-(size_of_keys keys (se_key <$> es)) by done; by rewrite length_fmap|lia].
  - intros k Hin. apply Hel', list_elem_of_fmap in Hin as (e&->&He). split; [by apply Hfree|].
    rewrite Hget. destruct (find _ es) as [x|] eqn:Hx.
    + apply find_some in Hx as [Hx%list_elem_of_In Heq%String.eqb_eq]. exists x. rewrite <-Heq. auto.
    + apply list_elem_of_In, (find_none _ _ Hx e) in He as Hf. by rewrite String.eqb_refl in Hf.
  - intros k Hk'. rewrite Hget. destruct (find _ es) as [x|] eqn:Hx; [|done].
    apply find_some in Hx as [Hx%list_elem_of_In Heq%String.eqb_eq]. exfalso. apply Hk', Hel'.
    rewrite <-Heq. by apply list_elem_of_fmap_2.
Qed.

(** ** Proposals *)

Definition need (n : RemoteNodeStatus) : Z := as_u32 (default 1 (ns_sockets n)).

(** A PVE key must cover the sockets of the node. *)
Definition covers (n : RemoteNodeStatus) (e : SubscriptionKeyEntry) : Prop :=
  match ns_ty n with
  | RemoteType.Pve => ∃ s, socket_count_from_key (se_key e) = Some s ∧ need n ≤ s
  | RemoteType.Pbs => True
  end.

Definition usable c (n : RemoteNodeStatus) k e : Prop :=
  sc_get c k = Some e ∧ se_remote e = None ∧
  ProductType.matches_remote_type (se_product_type e) (ns_ty n) = true ∧ covers n e.

(** On PVE nodes: no usable key outside [used] has fewer sockets than [e]. *)
Definition tight c (used : string → Prop) (n : RemoteNodeStatus) e : Prop :=
  ∀ k' e' s s', ns_ty n = RemoteType.Pve → usable c n k' e' →
    socket_count_from_key (se_key e) = Some s → socket_count_from_key (se_key e') = Some s' → s' < s → used k'.

Lemma elem_of_candidates c taken ty k key :
  (k, key) ∈ candidates c taken ty ↔
  ∃ e, sc_get c k = Some e ∧ key = se_key e ∧ se_remote e = None ∧ (k ∉ taken) ∧
       ProductType.matches_remote_type (se_product_type e) ty = true.
Proof.
  unfold candidates. rewrite list_elem_of_fmap. split.
  - intros ([id e]&[= -> ->]&Hin). apply list_elem_of_filter in Hin as [Hf Hin]. simpl in Hf.
    rewrite !andb_true_iff, negb_true_iff, bool_decide_eq_true, bool_decide_eq_false in Hf.
    exists e. apply sc_iter_get in Hin. naive_solver.
  - intros (e&Hk&->&Hr&Ht&Hm). exists (k, e). split; [done|]. apply list_elem_of_filter. simpl.
    rewrite !andb_true_iff, negb_true_iff, bool_decide_eq_true, bool_decide_eq_false.
    split; [done|]. by apply sc_iter_get.
Qed.

Lemma best_key_spec c taken n :
  match best_key c taken n with
  | Some k => (k ∉ taken) ∧ ∃ e, usable c n k e ∧ tight c (λ k', k' ∈ taken) n e
  | None => ∀ k e, usable c n k e → k ∈ taken
  end.
Proof.
  unfold best_key, tight, usable, covers. destruct (ns_ty n) eqn:Hty.
  - pose proof (pick_best_spec (as_u32 (default 1 (ns_sockets n))) (candidates c taken RemoteType.Pve)) as Hp.
    destruct (pick_best_pve_socket_key _ _) as [k|].
    + destruct Hp as (key&s&Hin&Hs&Hle&Hmin). apply elem_of_candidates in Hin as (e&He&->&Hr&Ht&Hm).
      split; [done|]. exists e. split; [naive_solver|].
      intros k' e' s0 s' _ (He'&Hr'&Hm'&s1&Hs1&Hle1) Hs0 Hs' Hlt.
      rewrite Hs in Hs0. injection Hs0 as <-. rewrite Hs' in Hs1. injection Hs1 as <-.
      destruct (decide (k' ∈ taken)) as [|Hnt]; [done|]. exfalso.
      assert (s ≤ s') as ?; [|lia]. apply (Hmin k' (se_key e')); [|done|done].
      apply elem_of_candidates. eauto 10.
    + intros k e (He&Hr&Hm&s&Hs&Hle). destruct (decide (k ∈ taken)) as [|Hnt]; [done|]. exfalso.
      assert (s < need n) as ?; [|lia]. apply (Hp k (se_key e)); [|done]. apply elem_of_candidates. eauto 10.
  - destruct (candidates c taken RemoteType.Pbs) as [|[k key] l] eqn:Hc; simpl.
    + intros k e (He&Hr&Hm&_). destruct (decide (k ∈ taken)) as [|Hnt]; [done|]. exfalso.
      apply (not_elem_of_nil (k, se_key e)). rewrite <-Hc. apply elem_of_candidates. eauto 10.
    + assert ((k, key) ∈ candidates c taken RemoteType.Pbs) as Hin by (rewrite Hc; left).
      apply elem_of_candidates in Hin as (e&He&->&Hr&Ht&Hm). split; [done|]. exists e. naive_solver.
Qed.

(** The proposal [p] is for the node [n]. *)
Definition for_node (n : RemoteNodeStatus) (p : ProposedAssignment) : Prop :=
  pa_remote p = ns_remote n ∧ pa_node p = ns_node n ∧ pa_node_sockets p = ns_sockets n.

Definition proposal_ok c (used : string → Prop) (n : RemoteNodeStatus) (p : ProposedAssignment) : Prop :=
  for_node n p ∧ ∃ e, usable c n (pa_key p) e ∧ tight c used n e ∧
    pa_key_sockets p = socket_count_from_key (se_key e).

Lemma tight_mono c (used used' : string → Prop) n e :
  (∀ k, used k → used' k) → tight c used n e → tight c used' n e.
Proof. intros Hsub Ht k' e' s s' Hty Hu Hs Hs' Hlt. by eapply Hsub, Ht. Qed.

Lemma propose_spec c targets : ∀ taken,
  let ps := propose c targets taken in
  let used := λ k, k ∈ taken ∨ k ∈ pa_key <$> ps in
  NoDup (pa_key <$> ps) ∧
  (λ p, (pa_remote p, pa_node p)) <$> ps `sublist_of` (λ n, (ns_remote n, ns_node n)) <$> targets ∧
  (∀ p, p ∈ ps → (pa_key p ∉ taken) ∧ ∃ n, n ∈ targets ∧ proposal_ok c used n p) ∧
  (∀ n, n ∈ targets → (∃ p, p ∈ ps ∧ for_node n p) ∨ ∀ k e, usable c n k e → used k).
Proof.
  induction targets as [|n targets IH]; intros taken; simpl.
  { split_and!; [constructor|constructor|by intros p ?%elem_of_nil|by intros n ?%elem_of_nil]. }
  pose proof (best_key_spec c taken n) as Hbest. destruct (best_key c taken n) as [k|].
  - destruct Hbest as [Hk (e&Hu&Ht)]. destruct (IH ({[k]} ∪ taken)) as (Hnd&Hsub&Hps&Hall). simpl.
    set (ps := propose c targets ({[k]} ∪ taken)) in *.
    assert (∀ x, x ∈ {[k]} ∪ taken ∨ x ∈ pa_key <$> ps → x ∈ taken ∨ x ∈ k :: (pa_key <$> ps)) as Hmono.
    { intros x. rewrite elem_of_union, elem_of_singleton, elem_of_cons. tauto. }
    split_and!.
    + constructor; [|done]. intros (p&->&Hp)%list_elem_of_fmap. destruct (Hps p Hp) as [Hnin _].
      apply Hnin. apply elem_of_union. left. by apply elem_of_singleton.
    + by constructor.
    + intros p [->|Hp]%elem_of_cons; simpl.
      * split; [done|]. exists n. split; [left|]. split; [done|]. simpl. exists e.
        split_and!; [done|eapply tight_mono; [|exact Ht]; auto|]. by rewrite (proj1 Hu).
      * destruct (Hps p Hp) as [Hnin (n'&Hn'&Hf&e'&Hu'&Ht'&Hs')]. split.
        { intros Hin. apply Hnin. apply elem_of_union. by right. }
        exists n'. split; [by right|]. split; [done|]. exists e'. split_and!; [done| |done].
        eapply tight_mono; [|exact Ht']. exact Hmono.
    + intros n' [->|Hn']%elem_of_cons; [left; eexists; split; [left|done]|].
      destruct (Hall n' Hn') as [(p&Hp&Hf)|Hex]; [left; exists p; split; [by right|done]|].
      right. intros k' e' Hu'. by eapply Hmono, Hex.
  - destruct (IH taken) as (Hnd&Hsub&Hps&Hall). split_and!; [done|by constructor| |].
    + intros p Hp. destruct (Hps p Hp) as [? (n'&?&?)]. split; [done|]. exists n'. split; [by right|done].
    + intros n' [->|Hn']%elem_of_cons; [|by apply Hall]. right. intros k e Hu. left. by eapply Hbest.
Qed.

Lemma elem_of_targets statuses n :
  n ∈ sort_by compare_sockets (filter (λ n, is_target n = true) statuses) ↔
  n ∈ statuses ∧ ns_assigned_key n = None ∧ ns_status n ≠ sub_active.
Proof.
  rewrite elem_of_sort_by, list_elem_of_filter. unfold is_target.
  rewrite andb_true_iff, negb_true_iff, bool_decide_eq_true, bool_decide_eq_false. tauto.
Qed.

Definition row_id (n : RemoteNodeStatus) : string * string := (ns_remote n, ns_node n).
Definition proposal_id (p : ProposedAssignment) : string * string := (pa_remote p, pa_node p).

Lemma compute_proposals_targets c statuses p :
  p ∈ compute_proposals c statuses →
  ∃ n e, n ∈ statuses ∧ ns_assigned_key n = None ∧ for_node n p ∧ usable c n (pa_key p) e.
Proof.
  intros Hp. unfold compute_proposals in Hp.
  destruct (propose_spec c (sort_by compare_sockets (filter (λ n, is_target n = true) statuses)) ∅)
    as (_&_&Hps&_).
  destruct (Hps p Hp) as [_ (n&Hn&Hf&e&Hu&_)]. apply elem_of_targets in Hn as (Hn&Ha&_). eauto 10.
Qed.

Lemma compute_proposals_NoDup c statuses :
  NoDup (pa_key <$> compute_proposals c statuses) ∧
  (NoDup (row_id <$> statuses) → NoDup (proposal_id <$> compute_proposals c statuses)).
Proof.
  unfold compute_proposals.
  destruct (propose_spec c (sort_by compare_sockets (filter (λ n, is_target n = true) statuses)) ∅)
    as (Hnd&Hsub&_&_). split; [done|]. intros Hrows.
  eapply sublist_NoDup; [|exact Hsub]. rewrite sort_by_perm.
  eapply sublist_NoDup; [exact Hrows|]. apply fmap_sublist, sublist_filter.
Qed.

(** The proposals of [compute_proposals].  No key is proposed twice; each
    one goes to a node of the list that has no key of the pool and no active
    subscription, is an unbound key of the right product and, on a PVE node,
    covers its sockets, and every smaller key that would cover it too is
    proposed for another node; and a node without a proposal has no usable key
    left. *)
Theorem compute_proposals_spec c statuses :
  let ps := compute_proposals c statuses in
  let used := λ k, k ∈ pa_key <$> ps in
  NoDup (pa_key <$> ps) ∧
  (∀ p, p ∈ ps → ∃ n, n ∈ statuses ∧ ns_assigned_key n = None ∧ ns_status n ≠ sub_active ∧
                      proposal_ok c used n p) ∧
  (∀ n, n ∈ statuses → ns_assigned_key n = None → ns_status n ≠ sub_active →
     (∃ p, p ∈ ps ∧ for_node n p) ∨ ∀ k e, usable c n k e → used k).
Proof.
  simpl. unfold compute_proposals.
  destruct (propose_spec c (sort_by compare_sockets (filter (λ n, is_target n = true) statuses)) ∅)
    as (Hnd&_&Hps&Hall). set (ps := propose _ _ _) in *.
  assert (∀ k, k ∈ (∅ : gset string) ∨ k ∈ pa_key <$> ps → k ∈ pa_key <$> ps) as Hmono.
  { intros k [?%not_elem_of_empty|?]; done. }
  split_and!; [done| |].
  - intros p Hp. destruct (Hps p Hp) as [_ (n&Hn&Hf&e&Hu&Ht&Hs)]. apply elem_of_targets in Hn as (?&?&?).
    exists n. split_and!; [done..|]. split; [done|]. exists e. split_and!; [done| |done].
    eapply tight_mono; [exact Hmono|exact Ht].
  - intros n Hn Ha Hst. destruct (Hall n) as [?|Hex]; [by apply elem_of_targets|by left|right].
    intros k e Hu. by eapply Hmono, Hex.
Qed.

(** ** Committing proposals *)

Lemma elem_of_collect_node_status pe c n :
  n ∈ collect_node_status pe c →
  env_remotes pe !! ns_remote n = Some (ns_ty n) ∧
  (ns_assigned_key n = None → find_bound c (ns_remote n) (ns_node n) = None).
Proof.
  unfold collect_node_status. rewrite elem_of_sort_by. intros ([r ty]&Hin&Hr)%list_elem_of_bind.
  apply list_elem_of_filter in Hr as [_ Hr%elem_of_map_to_list]. unfold remote_rows in Hin. simpl in Hin.
  destruct (live_info pe r) as [infos|]; [|by apply elem_of_nil in Hin].
  apply list_elem_of_fmap in Hin as ([node info]&->&_). unfold status_row.
  destruct (find_bound c r node) as [[k e]|] eqn:Hb, info; simpl; by rewrite ?Hb.
Qed.

Lemma row_id_status_row remote ty node info assigned :
  row_id (status_row remote ty node info assigned) = (remote, node).
Proof. unfold status_row. by destruct assigned as [[]|], info. Qed.

Lemma row_id_remote_rows pe assigned r id :
  id ∈ row_id <$> remote_rows pe assigned r → id.1 = r.1.
Proof.
  intros (n&->&Hn)%list_elem_of_fmap. unfold remote_rows in Hn. destruct (live_info pe r.1); [|by apply elem_of_nil in Hn].
  apply list_elem_of_fmap in Hn as ([node info]&->&_). by rewrite row_id_status_row.
Qed.

Lemma fmap_list_bind {A B D} (f : B → D) (g : A → list B) (l : list A) :
  f <$> (l ≫= g) = l ≫= λ x, f <$> g x.
Proof. induction l as [|x l IH]; [done|]. cbn. by rewrite fmap_app, IH. Qed.

Lemma collect_node_status_NoDup pe c : NoDup (row_id <$> collect_node_status pe c).
Proof.
  unfold collect_node_status. rewrite sort_by_perm, fmap_list_bind. apply NoDup_bind.
  - intros [r1 t1] [r2 t2] id [_ Hr1%elem_of_map_to_list]%list_elem_of_filter
      [_ Hr2%elem_of_map_to_list]%list_elem_of_filter Hid1%row_id_remote_rows Hid2%row_id_remote_rows.
    simpl in *. subst. congruence.
  - intros r _. unfold remote_rows. destruct (live_info pe r.1) as [infos|]; [|constructor].
    rewrite <-list_fmap_compose. apply NoDup_fmap_2_strong; [|apply NoDup_map_to_list].
    intros [n1 i1] [n2 i2] Hi1%elem_of_map_to_list Hi2%elem_of_map_to_list. simpl.
    rewrite !row_id_status_row. intros [= ->]. congruence.
  - apply NoDup_filter, NoDup_map_to_list.
Qed.

(** The entry after its proposal is committed. *)
Definition assigned (p : ProposedAssignment) (e : SubscriptionKeyEntry) : SubscriptionKeyEntry :=
  set_pending_clear false (set_binding (Some (pa_remote p)) (Some (pa_node p)) e).

(** What the caller may commit. *)
Definition committable (le : env) (p : ProposedAssignment) : bool :=
  can_modify le (pa_remote p) && NODE_SCHEMA le (pa_node p).

(** Nothing stands in the way of [p]. *)
Definition ready (le : env) c (p : ProposedAssignment) : Prop :=
  (∃ ty e, env_remotes le !! pa_remote p = Some ty ∧ sc_get c (pa_key p) = Some e ∧ se_remote e = None ∧
           ProductType.matches_remote_type (se_product_type e) ty = true) ∧
  ∀ k e, sc_get c k = Some e → bound_to (pa_remote p) (pa_node p) e = false.

Lemma other_bound_free c key r n :
  (∀ k e, sc_get c k = Some e → bound_to r n e = false) → other_bound c key r n = None.
Proof.
  intros Hfree. unfold other_bound. destruct (find _ (sc_iter c)) as [[k e]|] eqn:Hf; [|done].
  apply find_some in Hf as [Hin%list_elem_of_In%sc_iter_get [_ Hb]%andb_true_iff].
  by rewrite (Hfree k e Hin) in Hb.
Qed.

Lemma assign_ready le p c :
  ready le c p →
  assign_proposal le p c = if committable le p then Some (sc_modify c (pa_key p) (assigned p)) else None.
Proof.
  intros [(ty&e&Hty&He&Hr&Hm) Hfree]. unfold assign_proposal, committable.
  destruct (can_modify le (pa_remote p)); simpl; [|done]. destruct (NODE_SCHEMA le (pa_node p)); simpl; [|done].
  rewrite Hty. simpl. rewrite He. simpl. rewrite Hm, other_bound_free by done. simpl.
  unfold is_bound. rewrite Hr. by rewrite bool_decide_eq_false_2 by by intros [].
Qed.

Lemma ready_assigned le c p q :
  pa_key p ≠ pa_key q → proposal_id p ≠ proposal_id q → ready le c q →
  ready le (sc_modify c (pa_key p) (assigned p)) q.
Proof.
  intros Hk Hid [(ty&e&Hty&He&Hr&Hm) Hfree]. split.
  - exists ty, e. by rewrite sc_get_modify, decide_False.
  - intros k x. rewrite sc_get_modify. destruct (decide (pa_key p = k)) as [<-|]; [|by apply Hfree].
    intros (e0&_&->)%fmap_Some. unfold bound_to, assigned. simpl. unfold proposal_id in Hid.
    apply andb_false_iff. rewrite !bool_decide_eq_false.
    destruct (decide (pa_remote p = pa_remote q)) as [Heq|]; [right|left; congruence]. congruence.
Qed.

Lemma assign_loop_ready le ps : ∀ c,
  NoDup (pa_key <$> ps) → NoDup (proposal_id <$> ps) → (∀ p, p ∈ ps → ready le c p) →
  (assign_loop le ps c).2 = filter (λ p, committable le p = true) ps ∧
  (∀ k, k ∉ pa_key <$> ps → sc_get (assign_loop le ps c).1 k = sc_get c k) ∧
  (∀ p, p ∈ ps → sc_get (assign_loop le ps c).1 (pa_key p) =
     if committable le p then assigned p <$> sc_get c (pa_key p) else sc_get c (pa_key p)).
Proof.
  induction ps as [|p ps IH]; intros c; simpl; [intros _ _ _; split_and!; [done|done|by intros p ?%elem_of_nil]|].
  intros [Hk Hkeys]%NoDup_cons [Hid Hids]%NoDup_cons Hready. rewrite assign_ready by (apply Hready; left).
  rewrite filter_cons. destruct (committable le p) eqn:Hc.
  - rewrite decide_True by done. destruct (IH (sc_modify c (pa_key p) (assigned p)) Hkeys Hids) as (Happ&Hout&Hin).
    { intros q Hq. apply ready_assigned; [..|by apply Hready; right].
      - intros Heq. apply Hk. rewrite Heq. by apply list_elem_of_fmap_2.
      - intros Heq. apply Hid. rewrite Heq. by apply list_elem_of_fmap_2. }
    destruct (assign_loop le ps _) as [c' l]. simpl in *. split_and!; [by rewrite Happ| |].
    + intros k [Hne Hk']%not_elem_of_cons. rewrite Hout by done. by rewrite sc_get_modify, decide_False.
    + intros q [->|Hq]%elem_of_cons.
      * rewrite Hc, Hout by done. by rewrite sc_get_modify, decide_True.
      * rewrite Hin by done. rewrite sc_get_modify, decide_False; [done|].
        intros Heq. apply Hk. rewrite Heq. by apply list_elem_of_fmap_2.
  - rewrite decide_False by done. destruct (IH c Hkeys Hids) as (Happ&Hout&Hin).
    { intros q Hq. apply Hready. by right. }
    split_and!; [done| |].
    + intros k [Hne Hk']%not_elem_of_cons. by apply Hout.
    + intros q [->|Hq]%elem_of_cons; [|by apply Hin]. by rewrite Hc, Hout.
Qed.

Lemma proposal_ready pe le c p :
  (∀ r ty, env_remotes pe !! r = Some ty → env_remotes le !! r = Some ty) →
  p ∈ compute_proposals c (collect_node_status pe c) → ready le c p.
Proof.
  intros Hrem Hp. destruct (compute_proposals_targets _ _ _ Hp) as (n&e&Hn&Ha&(Hr&Hnode&_)&(He&Hu&Hm&_)).
  apply elem_of_collect_node_status in Hn as [Hty Hfree]. split.
  - exists (ns_ty n), e. rewrite Hr. auto.
  - intros k x Hx. rewrite Hr, Hnode. eapply find_bound_None; [by apply Hfree|done].
Qed.

(** Committing the proposals of [auto_assign] while pool, remotes and node
    states are unchanged binds every one of them that the caller may commit:
    none is skipped for another reason, each key ends up on the proposed node
    with no clear queued, and every other entry is untouched. *)
Theorem auto_assign_commits `{!StatusHash} pe le c :
  (∀ r ty, env_remotes pe !! r = Some ty → env_remotes le !! r = Some ty) →
  let proposal := auto_assign pe c c in
  ∃ c', bulk_assign pe le c proposal c =
          Ok (c', filter (λ p, committable le p = true) (aa_assignments proposal)) ∧
    (∀ p, p ∈ aa_assignments proposal → committable le p = true →
       ∃ e, sc_get c (pa_key p) = Some e ∧ sc_get c' (pa_key p) = Some (assigned p e)) ∧
    (∀ k, (∀ p, p ∈ aa_assignments proposal → committable le p = true → pa_key p ≠ k) →
       sc_get c' k = sc_get c k).
Proof.
  intros Hrem. simpl. unfold bulk_assign. simpl. rewrite bool_decide_eq_true_2 by done. simpl.
  rewrite bool_decide_eq_true_2 by done. simpl.
  set (ps := compute_proposals c (collect_node_status pe c)).
  destruct (compute_proposals_NoDup c (collect_node_status pe c)) as [Hkeys Hids].
  specialize (Hids (collect_node_status_NoDup pe c)).
  destruct (assign_loop_ready le ps c Hkeys Hids) as (Happ&Hout&Hin).
  { intros p. by apply proposal_ready. }
  destruct (assign_loop le ps c) as [c' l]. simpl in *. subst l.
  assert (∀ k, (∀ p, p ∈ ps → committable le p = true → pa_key p ≠ k) → sc_get c' k = sc_get c k) as Hother.
  { intros k Hk. destruct (decide (k ∈ pa_key <$> ps)) as [(p&->&Hp)%list_elem_of_fmap|]; [|by apply Hout].
    rewrite Hin by done. destruct (committable le p) eqn:Hc; [|done]. by destruct (Hk p Hp Hc). }
  destruct (filter _ ps) as [|p0 l0] eqn:Hf.
  - exists c. split_and!; [done| |done]. intros p Hp Hc. exfalso.
    apply (not_elem_of_nil p). rewrite <-Hf. by apply list_elem_of_filter.
  - exists c'. split_and!; [done| |done]. intros p Hp Hc. rewrite Hin, Hc by done.
    destruct (proposal_ready pe le c p Hrem Hp) as [(ty&e&_&He&_) _]. exists e. by rewrite He.
Qed.
End assign.

Module AssignDemo.
Import PoolDemo.

Lemma auto_assign_commits_witness :
  ∃ c' : pool, bulk_assign admin admin pool_added (auto_assign admin pool_added pool_added) pool_added =
                 Ok (c', [mkProposal key_a "east" "n1" (Some 2) (Some 2)]).
Proof.
  destruct (auto_assign_commits admin admin pool_added) as (c'&Hrun&_); [auto|].
  exists c'. exact Hrun.
Defined.

(** Two keys cover the node with two sockets; the smaller one is proposed. *)
Definition pool_two : pool :=
  (run (∅, mkAddResult 0 0) (add_keys [key_b; key_a; key_b] None (∅ : pool))).1.

Lemma compute_proposals_spec_witness :
  NoDup (pa_key <$> compute_proposals pool_two (collect_node_status admin pool_two)) ∧
  compute_proposals pool_two (collect_node_status admin pool_two) =
    [mkProposal key_a "east" "n1" (Some 2) (Some 2)].
Proof.
  split; [|vm_compute; reflexivity].
  exact (proj1 (compute_proposals_spec pool_two (collect_node_status admin pool_two))).
Defined.

Lemma add_keys_spec_witness :
  sc_get (∅ : pool) key_a = None ∧
  add_keys [key_b; key_a; key_b] None (∅ : pool) = Ok (pool_two, mkAddResult 2 1).
Proof.
  split; [|vm_compute; reflexivity].
  pose proof (add_keys_spec [key_b; key_a; key_b] None (∅ : pool)) as Hspec.
  replace (add_keys [key_b; key_a; key_b] None (∅ : pool)) with
    (Ok (pool_two, mkAddResult 2 1) : result api_error (pool * AddKeysResult)) in Hspec
    by (vm_compute; reflexivity).
  destruct Hspec as (Hin&_). apply (Hin key_a). right. left.
Defined.

Definition node_of (ty : RemoteType.t) : RemoteNodeStatus :=
  mkStatus "east" ty "n1" (Some 2) NOTFOUND SubscriptionLevel.None None None false None None.

(** the hash that [bulk_assign] compares does not cover everything that the
    proposals depend on: two node states with the same hash, whatever the hash
    function, but different proposals (the type of the remote is not hashed). *)
Theorem node_status_hash_misses_type :
  (∀ H : StatusHash, hash_node_status [node_of RemoteType.Pve] = hash_node_status [node_of RemoteType.Pbs]) ∧
  compute_proposals pool_added [node_of RemoteType.Pve] ≠ compute_proposals pool_added [node_of RemoteType.Pbs].
Proof. split; [reflexivity|]. vm_compute. discriminate. Qed.
End AssignDemo.
