(* ===== verification/SubscriptionApply.v ===== *)
(** * The key pool: pending changes

    What [clear_pending] discards and what the worker [run_apply_pending] asks
    the remotes to do. *)

From S2P Require Import Prelude FileSystem RemoteUpid SectionConfig SubscriptionKeys SubscriptionPool SubscriptionPlan SubscriptionInvariant SubscriptionGuards.

(** The requests sent to remotes. *)
Inductive call : Type :=
| CallSet (ty : ProductType.t) (remote node key : string)
| CallDelete (ty : ProductType.t) (remote node : string)
| CallUpdate (ty : ProductType.t) (remote node : string).

(** A remote API that also records the requests. *)
#[local] Instance recorded {W} `{!RemoteApi W} : RemoteApi (list call * W) := {
  set_subscription ty r n k w :=
    let '(res, w') := set_subscription ty r n k w.2 in (res, (w.1 ++ [CallSet ty r n k], w'));
  delete_subscription ty r n w :=
    let '(res, w') := delete_subscription ty r n w.2 in (res, (w.1 ++ [CallDelete ty r n], w'));
  update_subscription ty r n w :=
    let '(res, w') := update_subscription ty r n w.2 in (res, (w.1 ++ [CallUpdate ty r n], w'));
}.

Section apply.
Context `{SubscriptionStatusType} {C : Type} `{SectionConfigData C SubscriptionKeyEntry}
        `{!SectionConfigLaws C SubscriptionKeyEntry} `{ConfigDigests C}.
Implicit Types (c : C) (e : SubscriptionKeyEntry) (k : string) (p : PendingEntry).

(** ** What is pending *)

Lemma elem_of_compute_pending pe statuses c p :
  p ∈ compute_pending pe statuses c ↔ ∃ k e, sc_get c k = Some e ∧ pending_of pe statuses e = Some p.
Proof.
  unfold compute_pending. rewrite list_elem_of_omap. split.
  - intros (e&([k e']&->&Hin)%list_elem_of_fmap&Hp). exists k, e'. split; [by apply sc_iter_get|done].
  - intros (k&e&He&Hp). exists e. split; [|done]. apply list_elem_of_fmap. exists (k, e).
    split; [done|by apply sc_iter_get].
Qed.

Lemma pending_valid pe statuses c p :
  pool_ok c → p ∈ compute_pending pe statuses c →
  ∃ e, sc_get c (pe_key p) = Some e ∧ pending_of pe statuses e = Some p ∧
       bound_to (pe_remote p) (pe_node p) e = true ∧ (pe_op p = Clear ↔ se_pending_clear e = true).
Proof.
  intros Hok (k&e&He&Hp)%elem_of_compute_pending. exists e.
  pose proof (pending_of_spec pe statuses e p Hp) as (Hk&Hb&_&Hc).
  rewrite Hk, (eo_key _ _ (po_entry c Hok k e He)). done.
Qed.

Lemma compute_pending_NoDup pe statuses c :
  pool_ok c → NoDup (pe_key <$> compute_pending pe statuses c).
Proof.
  intros Hok. unfold compute_pending.
  assert (∀ k e, (k, e) ∈ sc_iter c → se_key e = k) as Hkey.
  { intros k e Hin%sc_iter_get. by apply (eo_key _ _ (po_entry c Hok k e Hin)). }
  pose proof (sc_iter_NoDup c) as Hnd. revert Hkey Hnd.
  induction (sc_iter c) as [|[k e] l IH]; intros Hkey Hnd; [constructor|].
  apply NoDup_cons in Hnd as [Hk Hnd]. cbn.
  assert (NoDup (pe_key <$> omap (pending_of pe statuses) l.*2)) as Hrest.
  { apply IH; [|done]. intros k' e' Hin. apply Hkey. by right. }
  destruct (pending_of pe statuses e) as [p|] eqn:Hp; [|done]. cbn. constructor; [|done].
  apply pending_of_spec in Hp as (->&_). rewrite (Hkey k e) by left.
  intros (q&Hq&Hin)%list_elem_of_fmap. apply list_elem_of_omap in Hin as (e'&Hin&Hq').
  apply list_elem_of_fmap in Hin as ([k' e'']&->&Hin). apply pending_of_spec in Hq' as (Hqk&_). simpl in Hqk.
  apply Hk. rewrite Hq, Hqk, (Hkey k' e'') by by right. apply list_elem_of_fmap. by exists (k', e'').
Qed.

(** ** Discarding *)

Lemma filter_bool_ext {A} (f g : A → bool) (l : list A) :
  (∀ x, x ∈ l → f x = g x) → filter (λ x, f x = true) l = filter (λ x, g x = true) l.
Proof.
  induction l as [|x l IH]; intros Heq; [done|].
  rewrite !filter_cons, (Heq x) by left. rewrite IH; [done|]. intros y Hy. apply Heq. by right.
Qed.

Lemma discard_loop_spec ps : ∀ c,
  NoDup (pe_key <$> ps) →
  (discard_loop ps c).2 = Z.of_nat (length (filter (λ p, pool_assignment_still_valid c p = true) ps)) ∧
  (∀ k, k ∉ pe_key <$> ps → sc_get (discard_loop ps c).1 k = sc_get c k) ∧
  (∀ p, p ∈ ps → sc_get (discard_loop ps c).1 (pe_key p) =
     if pool_assignment_still_valid c p then discard p <$> sc_get c (pe_key p) else sc_get c (pe_key p)).
Proof.
  induction ps as [|p ps IH]; intros c; simpl; [intros _; split_and!; [done|done|by intros p ?%elem_of_nil]|].
  intros [Hk Hkeys]%NoDup_cons. rewrite filter_cons. destruct (pool_assignment_still_valid c p) eqn:Hv.
  - rewrite decide_True by done. destruct (IH (sc_modify c (pe_key p) (discard p)) Hkeys) as (Hn&Hout&Hin).
    assert (∀ q, q ∈ ps → sc_get (sc_modify c (pe_key p) (discard p)) (pe_key q) = sc_get c (pe_key q)) as Hsame.
    { intros q Hq. rewrite sc_get_modify, decide_False; [done|]. intros Heq. apply Hk. rewrite Heq.
      by apply list_elem_of_fmap_2. }
    assert (∀ q, q ∈ ps → pool_assignment_still_valid (sc_modify c (pe_key p) (discard p)) q =
                          pool_assignment_still_valid c q) as Hval.
    { intros q Hq. unfold pool_assignment_still_valid. by rewrite Hsame. }
    destruct (discard_loop ps _) as [c' n]. simpl in *. split_and!.
    + rewrite Hn, (filter_bool_ext _ (pool_assignment_still_valid c) ps Hval). lia.
    + intros k [Hne Hk']%not_elem_of_cons. rewrite Hout by done. by rewrite sc_get_modify, decide_False.
    + intros q [->|Hq]%elem_of_cons.
      * rewrite Hv, Hout by done. by rewrite sc_get_modify, decide_True.
      * by rewrite Hin, Hval, Hsame.
  - destruct (IH c Hkeys) as (Hn&Hout&Hin). rewrite decide_False by done. split_and!; [done| |].
    + intros k [Hne Hk']%not_elem_of_cons. by apply Hout.
    + intros q [->|Hq]%elem_of_cons; [|by apply Hin]. by rewrite Hv, Hout.
Qed.

(** [clear_pending], also when the pool changed after the pending changes
    were computed from [mid].  Exactly the pending changes whose key is still
    bound to the node they were computed for are discarded (a push loses its
    binding, a queued clear only its flag), the count is their number, and
    every other entry is untouched. *)
Theorem clear_pending_spec pe pre mid expected c :
  pool_ok mid → detect_modification (config_digest pre) expected = Ok tt →
  detect_modification (config_digest c) expected = Ok tt →
  let ps := compute_pending pe (collect_node_status pe mid) mid in
  let valid := λ p, pool_assignment_still_valid c p in
  ∃ c', clear_pending pe pre mid expected c = Ok (c', Z.of_nat (length (filter (λ p, valid p = true) ps))) ∧
    (∀ p, p ∈ ps → valid p = true → ∃ e, sc_get c (pe_key p) = Some e ∧ sc_get c' (pe_key p) = Some (discard p e)) ∧
    (∀ k, (∀ p, p ∈ ps → valid p = true → pe_key p ≠ k) → sc_get c' k = sc_get c k).
Proof.
  intros Hok Hpre Hc. simpl. unfold clear_pending. rewrite Hpre. simpl.
  pose proof (compute_pending_NoDup pe (collect_node_status pe mid) mid Hok) as Hnd.
  set (ps := compute_pending pe (collect_node_status pe mid) mid) in *. clearbody ps.
  destruct (discard_loop_spec ps c Hnd) as (Hn&Hout&Hin).
  set (c1 := (discard_loop ps c).1) in *.
  set (m := length (filter (λ p, pool_assignment_still_valid c p = true) ps)) in *.
  assert (∀ k, (∀ p, p ∈ ps → pool_assignment_still_valid c p = true → pe_key p ≠ k) →
               sc_get c1 k = sc_get c k) as Hother.
  { intros k Hk. destruct (decide (k ∈ pe_key <$> ps)) as [(p&->&Hp)%list_elem_of_fmap|]; [|by apply Hout].
    rewrite Hin by done. destruct (pool_assignment_still_valid c p) eqn:Hv; [|done]. by destruct (Hk p Hp Hv). }
  exists (if 0 <? Z.of_nat m then c1 else c). split_and!.
  - unfold c1. destruct ps as [|p ps]; [done|]. rewrite Hc. cbn [mbind result_bind].
    destruct (discard_loop (p :: ps) c) as [c2 n]. simpl in Hn. rewrite <-Hn. done.
  - intros p Hp Hv. assert (0 < Z.of_nat m) as Hpos.
    { unfold m. assert (p ∈ filter (λ p, pool_assignment_still_valid c p = true) ps) as Hin'
        by by apply list_elem_of_filter. destruct (filter _ ps); [by apply elem_of_nil in Hin'|simpl; lia]. }
    rewrite (proj2 (Z.ltb_lt 0 (Z.of_nat m)) Hpos), Hin, Hv by done.
    apply still_valid_Some in Hv as (e&He&_). exists e. by rewrite He.
  - intros k Hk. destruct (0 <? Z.of_nat m); [by apply Hother|done].
Qed.

(** ** The worker *)

Definition pushable (ty : ProductType.t) : bool :=
  match ty with ProductType.Pve | ProductType.Pbs => true | _ => false end.

(** The request for one pending change. *)
Definition call_of (remotes : gmap string RemoteType.t) (p : PendingEntry) : list call :=
  match remotes !! pe_remote p, ProductType.from_key (pe_key p) with
  | Some _, Some ty =>
      if pushable ty then
        match pe_op p with
        | Push => [CallSet ty (pe_remote p) (pe_node p) (pe_key p)]
        | Clear => [CallDelete ty (pe_remote p) (pe_node p)]
        end
      else []
  | _, _ => []
  end.

(** The pool still asks for the change: the key is bound to the node, and a
    clear is queued exactly if the change is a clear. *)
Definition wanted c p : bool :=
  match sc_get c (pe_key p) with
  | Some e => bound_to (pe_remote p) (pe_node p) e &&
              Bool.eqb (se_pending_clear e) (match pe_op p with Clear => true | Push => false end)
  | None => false
  end.

Lemma drop_binding_unbound p c e :
  sc_get (drop_binding p c) (pe_key p) = Some e → bound_to (pe_remote p) (pe_node p) e = false.
Proof.
  unfold drop_binding. destruct (sc_get c (pe_key p)) as [x|] eqn:Hx; [|by rewrite Hx].
  destruct (bound_to _ _ x) eqn:Hb; [|rewrite Hx; by intros [= <-]].
  rewrite sc_get_modify, decide_True, Hx by done. by intros [= <-].
Qed.

Section worker.
Context {W : Type} `{!RemoteApi W}.
Implicit Types (w : W) (log : list call).

Lemma push_recorded r k n log w :
  ∃ res w', push_key_to_remote r k n (log, w) =
              (res, (log ++ match ProductType.from_key k with
                            | Some ty => if pushable ty then [CallSet ty r n k] else []
                            | None => []
                            end, w')) ∧
    (res = Ok tt → ∃ ty, ProductType.from_key k = Some ty ∧ pushable ty = true).
Proof.
  unfold push_key_to_remote. destruct (ProductType.from_key k) as [[]|]; simpl;
    try (destruct (set_subscription _ _ _ _ w) as [res w']); rewrite ?app_nil_r;
    eexists _, _; (split; [reflexivity|naive_solver]).
Qed.

Lemma delete_recorded r ty n log w :
  ∃ res w', delete_subscription_on_remote r ty n (log, w) =
              (res, (log ++ (if pushable ty then [CallDelete ty r n] else []), w')).
Proof.
  unfold delete_subscription_on_remote. destruct ty; simpl;
    try (destruct (delete_subscription _ _ _ w) as [res w']); rewrite ?app_nil_r; eauto.
Qed.

Ltac no_call := eexists _, _, [], _; rewrite app_nil_r; split; [reflexivity|]; simpl; auto.

Lemma apply_one_cases remotes d p c log w :
  ∃ o c' calls w', apply_one remotes d p c (log, w) = (o, c', (log ++ calls, w')) ∧
    match o with
    | Skipped => wanted c p = false ∧ calls = [] ∧ c' = c
    | Failed _ => wanted c p = true ∧ calls = call_of remotes p ∧ (c' = c ∨ c' = d_during d c)
    | Succeeded => wanted c p = true ∧ calls = call_of remotes p ∧
        match pe_op p with
        | Push => c' = d_during d c ∧ calls ≠ []
        | Clear => c' = drop_binding p (d_during d c)
        end
    end.
Proof.
  unfold apply_one, pool_assignment_still_valid, wanted, call_of.
  destruct (sc_get c (pe_key p)) as [e|]; simpl; [|by no_call].
  destruct (bound_to _ _ e); simpl; [|by no_call].
  destruct (pe_op p) eqn:Hop; destruct (se_pending_clear e); simpl; [by no_call| | |by no_call].
  - destruct (remotes !! pe_remote p); [|by no_call].
    destruct (push_recorded (pe_remote p) (pe_key p) (pe_node p) log w) as (res&w'&->&Hres).
    destruct res as [[]|err]; eexists _, _, _, _; (split; [reflexivity|]); simpl; [|auto].
    split_and!; [done|done|done|]. destruct Hres as (ty&->&->); done.
  - destruct (ProductType.from_key (pe_key p)) as [ty|]; [|by destruct (remotes !! pe_remote p); no_call].
    destruct (remotes !! pe_remote p); [|by destruct (d_update_error d); no_call].
    destruct (delete_recorded (pe_remote p) ty (pe_node p) log w) as (res&w'&->).
    destruct res as [[]|err]; [destruct (d_update_error d)|];
      eexists _, _, _, _; (split; [reflexivity|]); simpl; auto.
Qed.

Lemma apply_loop_calls remotes ps : ∀ ds c log w,
  ∃ calls, (apply_loop remotes ds ps c (log, w)).2.1 = log ++ calls ∧
           calls `sublist_of` (ps ≫= call_of remotes).
Proof.
  induction ps as [|p ps IH]; intros ds c log w; cbn [apply_loop mbind list_bind].
  { exists []. by rewrite app_nil_r. }
  set (d := default calm (head ds)). destruct (d_read_error d).
  { exists []. split; [by rewrite app_nil_r|apply sublist_nil_l]. }
  destruct (apply_one_cases remotes d p (d_before d c) log w) as (o&c1&calls&w1&->&Ho).
  destruct (IH (tail ds) c1 (log ++ calls) w1) as (calls'&Hlog&Hsub).
  destruct (apply_loop remotes (tail ds) ps c1 _) as [[os c2] w2]. simpl in *.
  exists (calls ++ calls'). split; [by rewrite Hlog, app_assoc|]. apply sublist_app; [|done].
  destruct o as [|msg|]; [destruct Ho as (_&->&_); apply sublist_nil_l|..]; by destruct Ho as (_&->&_).
Qed.

(** The API of the remotes never fails. *)
Definition api_works : Prop := ∀ ty r n k w,
  (set_subscription ty r n k w).1 = Ok tt ∧ (delete_subscription ty r n w).1 = Ok tt.

(** The change can be carried out: its product is one whose remotes the code
    talks to, and a push has a remote to go to. *)
Definition feasible (remotes : gmap string RemoteType.t) p : Prop :=
  (∃ ty, ProductType.from_key (pe_key p) = Some ty ∧ pushable ty = true) ∧
  (pe_op p = Push → is_Some (remotes !! pe_remote p)).

Lemma apply_one_works remotes p c log w :
  api_works → feasible remotes p → wanted c p = true →
  ∃ w', apply_one remotes calm p c (log, w) =
    (Succeeded, match pe_op p with Push => c | Clear => drop_binding p c end, (log ++ call_of remotes p, w')).
Proof.
  intros Hapi [(ty&Hty&Hp) Hrem] Hw. unfold wanted in Hw.
  unfold apply_one, pool_assignment_still_valid, call_of, push_key_to_remote, delete_subscription_on_remote.
  rewrite Hty, Hp. destruct (sc_get c (pe_key p)) as [e|]; [|done].
  apply andb_true_iff in Hw as [-> Heq%Bool.eqb_prop]. rewrite Heq. simpl.
  destruct (pe_op p); simpl.
  - destruct Hrem as [r ->]; [done|]. destruct (Hapi ty (pe_remote p) (pe_node p) (pe_key p) w) as [Hs _].
    destruct ty; try done; simpl; destruct (set_subscription _ _ _ _ w) as [res w']; simpl in Hs; subst res; eauto.
  - destruct (remotes !! pe_remote p); [|rewrite app_nil_r; eauto].
    destruct (Hapi ty (pe_remote p) (pe_node p) (pe_key p) w) as [_ Hs].
    destruct ty; try done; simpl; destruct (delete_subscription _ _ _ w) as [res w']; simpl in Hs; subst res; eauto.
Qed.

(** The pool after the worker: the bindings of the clears are gone. *)
Definition applied p e : SubscriptionKeyEntry := match pe_op p with Push => e | Clear => unbind e end.

Lemma drop_binding_get p c k :
  wanted c p = true →
  sc_get (match pe_op p with Push => c | Clear => drop_binding p c end) k =
  if decide (pe_key p = k) then applied p <$> sc_get c k else sc_get c k.
Proof.
  unfold wanted, applied, drop_binding. intros Hw. destruct (sc_get c (pe_key p)) as [e|] eqn:He; [|done].
  apply andb_true_iff in Hw as [-> _]. destruct (pe_op p).
  - destruct (decide (pe_key p = k)); [by destruct (sc_get c k)|done].
  - rewrite sc_get_modify. destruct (decide (pe_key p = k)) as [<-|]; [by rewrite He|done].
Qed.

Lemma apply_loop_works remotes ps : ∀ c log w,
  api_works → NoDup (pe_key <$> ps) → (∀ p, p ∈ ps → feasible remotes p ∧ wanted c p = true) →
  ∃ os c' w', apply_loop remotes [] ps c (log, w) = (Ok os, c', (log ++ (ps ≫= call_of remotes), w')) ∧
    failures os = [] ∧
    (∀ k, k ∉ pe_key <$> ps → sc_get c' k = sc_get c k) ∧
    (∀ p, p ∈ ps → sc_get c' (pe_key p) = applied p <$> sc_get c (pe_key p)).
Proof.
  intros c log w Hapi. revert c log w. induction ps as [|p ps IH]; intros c log w Hnd Hps.
  { exists [], c, w. cbn. rewrite app_nil_r. split_and!; [done..|by intros p ?%elem_of_nil]. }
  apply NoDup_cons in Hnd as [Hk Hnd]. destruct (Hps p) as [Hf Hw]; [left|].
  cbn [apply_loop mbind list_bind head tail default d_before d_read_error calm id].
  destruct (apply_one_works remotes p c log w Hapi Hf Hw) as (w1&Hone). unfold id. rewrite Hone.
  pose proof (λ k, drop_binding_get p c k Hw) as Hget. set (c1 := match pe_op p with Push => c | _ => _ end) in *.
  assert (∀ q, q ∈ ps → sc_get c1 (pe_key q) = sc_get c (pe_key q)) as Hsame.
  { intros q Hq. rewrite Hget, decide_False; [done|]. intros Heq. apply Hk. rewrite Heq.
    by apply list_elem_of_fmap_2. }
  destruct (IH c1 (log ++ call_of remotes p) w1 Hnd) as (os&c'&w'&Hl&Hfail&Hout&Hin).
  { intros q Hq. destruct (Hps q) as [? Hwq]; [by right|]. split; [done|]. rewrite <-Hwq.
    unfold wanted. by rewrite Hsame. }
  rewrite Hl. exists (Succeeded :: os), c', w'. split_and!; [by rewrite <-app_assoc|done| |].
  - intros k [Hne Hk']%not_elem_of_cons. rewrite Hout, Hget by done. by rewrite decide_False.
  - intros q [->|Hq]%elem_of_cons; [|by rewrite Hin, Hsame].
    rewrite Hout, Hget by done. by rewrite decide_True.
Qed.

(** ** Properties of the worker *)

(** One iteration of the worker, whatever other requests do to the pool
    during the remote call and whether or not updating the pool works.  A change that the pool no longer asks for is
    skipped without a request; otherwise exactly the request of the change is
    sent (none to a remote that is gone), a failed one leaves the pool as the
    other requests left it, so that it can be retried, and after a clear that
    succeeded the key is no longer bound to the node. *)
Theorem apply_one_outcome remotes d p c w :
  let '(o, c', (calls, w')) := apply_one remotes d p c ([], w) in
  match o with
  | Skipped => wanted c p = false ∧ calls = [] ∧ c' = c
  | Failed _ => wanted c p = true ∧ calls = call_of remotes p ∧ (c' = c ∨ c' = d_during d c)
  | Succeeded => wanted c p = true ∧ calls = call_of remotes p ∧
      match pe_op p with
      | Push => c' = d_during d c ∧ calls ≠ []
      | Clear => ∀ e, sc_get c' (pe_key p) = Some e → bound_to (pe_remote p) (pe_node p) e = false
      end
  end.
Proof.
  destruct (apply_one_cases remotes d p c [] w) as (o&c'&calls&w'&->&Ho). cbn [app].
  destruct o; [done|done|]. destruct Ho as (?&?&Hpool). split_and!; [done|done|].
  destruct (pe_op p); [done|]. subst c'. intros e. apply drop_binding_unbound.
Qed.

(** The worker sends no request but those of the changes that were
    pending when it started, each at most once and in their order, whatever
    other requests do to the pool in the meantime. *)
Theorem run_apply_pending_calls pe ds c w :
  let '(r, c', (calls, w')) := run_apply_pending pe ds c ([], w) in
  calls `sublist_of` (compute_pending pe (collect_status_uncached pe) c ≫= call_of (env_remotes pe)).
Proof.
  unfold run_apply_pending.
  destruct (apply_loop_calls (env_remotes pe) (compute_pending pe (collect_status_uncached pe) c) ds c [] w)
    as (calls&Hlog&Hsub). destruct (apply_loop _ _ _ c _) as [[os c'] [log w']]. simpl in *. by subst log.
Qed.

(** The node of a pending change runs the key of its entry. *)
Definition runs_key (statuses : list RemoteNodeStatus) p : Prop :=
  ∃ n, n ∈ statuses ∧ ns_remote n = pe_remote p ∧ ns_node n = pe_node p ∧ ns_current_key n = Some (pe_key p).

(** C35: When no one else changes the pool, the API of the remotes works, every pending
    change can be carried out, and the nodes with a queued clear still run the key that
    is to be cleared, the worker succeeds: it sends the requests of all pending changes in
    order, drops the binding of each queued clear, leaves every other entry as it was,
    and no clear is pending afterwards. That the nodes still run the keys is assumed and
    not checked: the comment in [queue_clear] says that the worker aborts if a node runs
    another key, but it deletes that key as well ([ApplyDemo.queued_clear_ignores_live_key]),
    so this case is left out here. *)
Theorem apply_pending_completes pe c w :
  pool_ok c → api_works →
  let ps := compute_pending pe (collect_status_uncached pe) c in
  (∀ p, p ∈ ps → feasible (env_remotes pe) p) →
  (∀ p, p ∈ ps → pe_op p = Clear → runs_key (collect_status_uncached pe) p) →
  ∃ c' w', run_apply_pending pe [] c ([], w) = (Ok tt, c', (ps ≫= call_of (env_remotes pe), w')) ∧
    (∀ p, p ∈ ps → sc_get c' (pe_key p) = applied p <$> sc_get c (pe_key p)) ∧
    (∀ k, k ∉ pe_key <$> ps → sc_get c' k = sc_get c k) ∧
    (∀ statuses p, p ∈ compute_pending pe statuses c' → pe_op p = Push).
Proof.
  simpl. intros Hok Hapi Hf _. unfold run_apply_pending.
  pose proof (pending_valid pe (collect_status_uncached pe) c) as Hvalid.
  pose proof (λ k e p, proj2 (elem_of_compute_pending pe (collect_status_uncached pe) c p)) as Hmem.
  pose proof (compute_pending_NoDup pe (collect_status_uncached pe) c Hok) as Hnd.
  set (ps := compute_pending pe (collect_status_uncached pe) c) in *.
  destruct (apply_loop_works (env_remotes pe) ps c [] w Hapi Hnd) as (os&c'&w'&->&->&Hout&Hin).
  { intros p Hp. split; [by apply Hf|]. destruct (Hvalid p Hok Hp) as (e&He&_&Hb&Hc).
    unfold wanted. rewrite He, Hb. simpl. destruct (pe_op p), (se_pending_clear e); naive_solver. }
  exists c', w'. split_and!; [done|done|done|].
  intros statuses p (k&e&He&Hp)%elem_of_compute_pending. destruct (pe_op p) eqn:Hop; [done|]. exfalso.
  apply pending_of_spec in Hp as (Hk&Hb&Hm&Hc). apply Hc in Hop as Hclear.
  apply bound_to_true in Hb as [Hr Hn].
  destruct (decide (k ∈ pe_key <$> ps)) as [(q&->&Hq)%list_elem_of_fmap|Hk'].
  - rewrite Hin in He by done. apply fmap_Some in He as (e0&He0&->). unfold applied in *.
    destruct (Hvalid q Hok Hq) as (e1&He1&_&_&Hc1).
    rewrite He1 in He0. injection He0 as <-. destruct (pe_op q); [|done].
    destruct (se_pending_clear e1); [|done]. by destruct Hc1 as [_ Hc1]; discriminate Hc1.
  - rewrite Hout in He by done. apply Hk'.
    assert (mkPending (se_key e) (pe_remote p) (pe_node p) Clear ∈ ps) as Hps.
    { apply (Hmem k e). exists k, e. split; [done|]. unfold pending_of. rewrite Hr, Hn. simpl.
      by rewrite Hm, Hclear. }
    apply list_elem_of_fmap. eexists. split; [|exact Hps]. simpl.
    symmetry. by apply (eo_key _ _ (po_entry c Hok k e He)).
Qed.
End worker.
End apply.

Module ApplyDemo.
Import PoolDemo.

(** Remotes whose API always works. *)
#[export] Instance working : RemoteApi unit :=
  { set_subscription _ _ _ _ w := (Ok tt, w); delete_subscription _ _ _ w := (Ok tt, w);
    update_subscription _ _ _ w := (Ok tt, w) }.

(** [key_a] waits to be pushed to [n1], and [key_b] to be cleared on [n2]. *)
Definition pool_pending : pool := run ∅ (queue_clear admin "east" "n2" None pool_adopted).

Lemma pool_pending_ok : pool_ok pool_pending.
Proof.
  assert (pool_ok pool_adopted) as Hok.
  { eapply pool_step_ok, step_adopted. eapply pool_step_ok, step_assigned. eapply pool_step_ok, step_added.
    exact pool_empty_ok. }
  apply (pool_step_ok admin admin pool_adopted); [exact Hok|].
  apply (StepQueueClear _ _ _ "east" "n2" None). vm_compute; reflexivity.
Qed.

Lemma clear_pending_spec_witness :
  ∃ c', clear_pending admin pool_pending pool_pending None pool_pending = Ok (c', 2) ∧
        sc_get c' key_a ≫= se_remote = None ∧ sc_get c' key_b ≫= se_remote = Some "east"%string.
Proof.
  destruct (clear_pending_spec admin pool_pending pool_pending None pool_pending) as (c'&Hrun&Hin&_).
  - exact pool_pending_ok.
  - reflexivity.
  - reflexivity.
  - exists c'. split; [exact Hrun|]. split.
    + destruct (Hin (mkPending key_a "east" "n1" Push)) as (e&He&Hc'); [vm_compute; repeat constructor|vm_compute; reflexivity|].
      simpl pe_key in Hc'. by rewrite Hc'.
    + destruct (Hin (mkPending key_b "east" "n2" Clear)) as (e&He&Hc'); [vm_compute; repeat constructor|vm_compute; reflexivity|].
      simpl pe_key in Hc'. rewrite Hc'. vm_compute in He. by injection He as <-.
Defined.

Lemma apply_pending_completes_witness :
  ∃ c' w', run_apply_pending admin [] pool_pending ([], tt) =
    (Ok tt, c', ([CallSet ProductType.Pve "east" "n1" key_a; CallDelete ProductType.Pve "east" "n2"], w')).
Proof.
  assert (compute_pending admin (collect_status_uncached admin) pool_pending =
            [mkPending key_a "east" "n1" Push; mkPending key_b "east" "n2" Clear]) as Heq by (vm_compute; reflexivity).
  destruct (apply_pending_completes admin pool_pending tt pool_pending_ok) as (c'&w'&Hrun&_).
  - intros ty r n k w. split; reflexivity.
  - intros p Hp. rewrite Heq in Hp. apply elem_of_cons in Hp as [->|[->|Hp%elem_of_nil]%elem_of_cons]; [..|destruct Hp];
      (split; [exists ProductType.Pve; split; vm_compute; reflexivity|intros _; exists RemoteType.Pve; vm_compute; reflexivity]).
  - intros p Hp Hop. rewrite Heq in Hp. apply elem_of_cons in Hp as [->|[->|Hp%elem_of_nil]%elem_of_cons]; [discriminate Hop| |destruct Hp].
    destruct (List.find (λ n, String.eqb (ns_node n) "n2") (collect_status_uncached admin)) as [n|] eqn:Hn; [|vm_compute in Hn; discriminate Hn].
    exists n. pose proof Hn as [Hin _]%List.find_some. split; [by apply list_elem_of_In|].
    vm_compute in Hn. injection Hn as <-. split_and!; reflexivity.
  - exists c', w'. rewrite Hrun. vm_compute. reflexivity.
Defined.

Definition clear_b : PendingEntry := mkPending key_b "east" "n2" Clear.

(** The clear of [key_b] succeeds, also when the pool changes meanwhile. *)
Lemma apply_one_outcome_witness :
  let d := mkDisturbance (delete key_a) (delete key_a) None None in
  ∃ c', apply_one (env_remotes admin) d clear_b pool_pending ([], tt) =
          (Succeeded, c', ([CallDelete ProductType.Pve "east" "n2"], tt)) ∧
        ∀ e, sc_get c' key_b = Some e → bound_to "east" "n2" e = false.
Proof.
  set (d := mkDisturbance (delete key_a) (delete key_a) None None). eexists.
  split; [vm_compute; reflexivity|].
  pose proof (apply_one_outcome (env_remotes admin) d clear_b pool_pending tt) as Hspec.
  vm_compute in Hspec. destruct Hspec as (_&_&Hspec). exact Hspec.
Defined.

Lemma run_apply_pending_calls_witness :
  (run_apply_pending admin [] pool_pending ([], tt)).2.1 `sublist_of`
  [CallSet ProductType.Pve "east" "n1" key_a; CallDelete ProductType.Pve "east" "n2"].
Proof.
  pose proof (run_apply_pending_calls admin [] pool_pending tt) as Hspec.
  destruct (run_apply_pending admin [] pool_pending ([], tt)) as [[r c'] [calls w']]. exact Hspec.
Defined.

(** The same pool, with a node [n2] that by now runs another key. *)
Definition foreign : env :=
  mkEnv (λ _, true) (λ _, true) (list_to_map [("east", RemoteType.Pve)])
    (λ _, Ok {[ "n2" := Some (mkInfo ACTIVE (Some 4) (Some "pve4b-ffffffffff") SubscriptionLevel.Basic None None) ]})
    (λ _, true).

(** a queued clear deletes the subscription of the node whatever key the node
    runs: here the worker removes [pve4b-ffffffffff], which is not in the pool,
    because a clear of [key_b] is queued for the node. *)
Theorem queued_clear_ignores_live_key :
  sc_get pool_pending "pve4b-ffffffffff" = None ∧
  ∃ c' calls w', run_apply_pending foreign [] pool_pending ([], tt) = (Ok tt, c', (calls, w')) ∧
    CallDelete ProductType.Pve "east" "n2" ∈ calls.
Proof.
  split; [vm_compute; reflexivity|]. eexists _, _, _. split; [vm_compute; reflexivity|].
  repeat constructor.
Qed.
End ApplyDemo.
