(* ===== verification/RemoteData.v ===== *)
(** * Data of remotes behind the API cache

    Model of [server/src/api_cache.rs], of [server/src/location_cache.rs] and of the
    functions of [server/src/api/resources.rs] that answer from the cache or ask a
    remote: resources, subscription state and locations.

    The cache is the directory of [NamespacedCache].  While a remote is asked, no
    lock is held: the argument [interfere] is what other tasks do to the files in
    the meantime, [now1] and [now2] are the clock before and after.  The answer of
    the remote is an argument.

    Not under [src/], hence parameters: the JSON encodings (class [EntryCodec]), the
    answers of remotes, the caller's privileges and [SubscriptionStatus]. *)

From S2P Require Import Prelude FileSystem RemoteUpid SectionConfig Resource Views Search ResourceList NamespacedCache SubscriptionKeys SubscriptionPool.

(** ** [api_cache] *)

Definition GLOBAL_NAMESPACE : string := "global".
Definition format_remote_namespace (remote : string) : string := "remote-" +:+ remote.

Section api_cache.
Context `{SafeIdRegex}.
Definition read_remote_blocking (remote : string) : io ReadableInner :=
  read_blocking (format_remote_namespace remote).
Definition write_remote_blocking (remote : string) : io WritableInner :=
  write_blocking (format_remote_namespace remote).
Definition read_global_blocking : io ReadableInner := read_blocking GLOBAL_NAMESPACE.
Definition write_global_blocking : io WritableInner := write_blocking GLOBAL_NAMESPACE.
Definition read_remote (remote : string) : io ReadableInner := read (format_remote_namespace remote).
Definition write_remote (remote : string) : io WritableInner := write (format_remote_namespace remote).
Definition read_global : io ReadableInner := read GLOBAL_NAMESPACE.
Definition write_global : io WritableInner := write GLOBAL_NAMESPACE.
End api_cache.

(** [.inspect_err(|err| log::error!(..)).ok().flatten()] *)
Definition ok_flatten {A} (r : result error (option A)) : option A :=
  match r with Ok o => o | Err _ => None end.

(** ** Resources *)

Record CachedResources : Type := mkCachedResources {
  cached_resources : list Resource;
  cached_timestamp : Z;
}.

Definition REMOTE_RESOURCES_CACHE_KEY : string := "resources".

Section resources.
Context `{SafeIdRegex} `{EntryCodec CachedResources}.

Definition get_cached_resources (now : Z) (remote : string) (max_age : Z) : io (option CachedResources) :=
  cache ← read_remote remote;
  r ← io_try (ReadableCacheNamespace.get_with_max_age cache now REMOTE_RESOURCES_CACHE_KEY (as_i64 max_age));
  mret (ok_flatten r).

Definition get_cached_resources_blocking (now : Z) (remote : string) (max_age : Z) :
    io (option CachedResources) :=
  cache ← read_remote_blocking remote;
  r ← io_try (BlockingReadableCacheNamespace.get_with_max_age cache now REMOTE_RESOURCES_CACHE_KEY
                (as_i64 max_age));
  mret (ok_flatten r).

Definition update_cached_resources (remote : string) (resources : list Resource) (now : Z) :
    io (option CachedResources) :=
  cache ← write_remote remote;
  WritableCacheNamespace.set_if_newer_with_timestamp cache now REMOTE_RESOURCES_CACHE_KEY
    (mkCachedResources resources now) now.

Definition get_resources_for_remote (now1 now2 : Z) (answer : result error (list Resource))
    (interfere : io unit) (remote : Remote) (max_age : Z) : io (list Resource) :=
  cached ← get_cached_resources now1 (rm_id remote) max_age;
  match cached with
  | Some cached => mret (cached_resources cached)
  | None =>
      resources ← io_lift answer;
      _ ← interfere;
      existing_state ← update_cached_resources (rm_id remote) resources now2;
      match existing_state with
      | Some existing_state => mret (cached_resources existing_state)
      | None => mret resources
      end
  end.
End resources.

Record CachedGuest : Type := mkCachedGuest {
  cg_remote : string;
  cg_vmid : Z;
  cg_node : string;
  cg_name : string;
  cg_pool : string;
  cg_tags : list string;
  cg_template : bool;
}.

Definition cached_guest (remote_name : string) (r : Resource) : option CachedGuest :=
  match r with
  | PveQemu r | PveLxc r =>
      Some (mkCachedGuest remote_name (gr_vmid r) (gr_node r) (gr_name r) (gr_pool r) (gr_tags r) (gr_template r))
  | _ => None
  end.

(** [fetch] is what [get_resources_for_remote] returned for a remote. *)
Definition cached_pve_guests (remotes_config : result error (list (string * Remote)))
    (fetch : Remote → result error (list Resource)) : result error (list CachedGuest) :=
  remotes ← remotes_config;
  Ok (remotes ≫= λ '(_, remote),
        if negb (bool_decide (rm_ty remote = RemoteType.Pve)) then []
        else match fetch remote with
             | Ok resources => omap (M:=list) (cached_guest (rm_id remote)) resources
             | Err _ => []
             end).

(** ** Subscription state *)

(** [SubscriptionStatus::New] *)
Class SubscriptionNew `{SubscriptionStatusType} := sub_new : sub_status.

Definition SUBSCRIPTION_STATE_CACHE_KEY : string := "subscription-state".

Section subscription.
Context `{SubscriptionStatusType}.

(** [NodeSubscriptionInfo] with its [serverid], which is not serialized. *)
Record FullSubscriptionInfo : Type := mkFullInfo {
  fi_info : NodeSubscriptionInfo;
  fi_serverid : option string;
}.
Definition node_infos : Type := gmap string (option FullSubscriptionInfo).

Record CachedSubscriptionState : Type := mkCachedState {
  cached_node_info : gmap string (option NodeSubscriptionInfo);
}.
Definition to_cached (l : node_infos) : CachedSubscriptionState :=
  mkCachedState (fmap (M:=gmap string) (option_map fi_info) l).
Definition from_cached (c : CachedSubscriptionState) : node_infos :=
  fmap (M:=gmap string) (option_map (λ i, mkFullInfo i None)) (cached_node_info c).

Context `{SafeIdRegex} `{EntryCodec CachedSubscriptionState}.

Definition get_cached_subscription_info (now : Z) (remote : string) (max_age : Z) :
    io (option CachedSubscriptionState) :=
  cache ← read_remote remote;
  r ← io_try (ReadableCacheNamespace.get_with_max_age cache now SUBSCRIPTION_STATE_CACHE_KEY (as_i64 max_age));
  mret (ok_flatten r).

Definition update_cached_subscription_info (remote : string) (node_info : node_infos) (now : Z) :
    io (option CachedSubscriptionState) :=
  cache ← write_remote remote;
  WritableCacheNamespace.set_if_newer_with_timestamp cache now SUBSCRIPTION_STATE_CACHE_KEY
    (to_cached node_info) now.

Definition get_subscription_info_for_remote (now1 now2 : Z) (answer : result error node_infos)
    (interfere : io unit) (remote : Remote) (max_age : Z) : io node_infos :=
  cached ← get_cached_subscription_info now1 (rm_id remote) max_age;
  match cached with
  | Some cached_subscription => mret (from_cached cached_subscription)
  | None =>
      node_info ← io_lift answer;
      _ ← interfere;
      existing_state ← update_cached_subscription_info (rm_id remote) node_info now2;
      match existing_state with
      | Some existing_state => mret (from_cached existing_state)
      | None => mret node_info
      end
  end.

Definition fetch_complete_subscription_info_for_remote (now : Z) (answer : result error node_infos)
    (remote : Remote) : io node_infos :=
  node_info ← io_lift answer;
  _ ← update_cached_subscription_info (rm_id remote) node_info now;
  mret node_info.

Definition invalidate_subscription_info_for_remote (remote_id : string) : io unit :=
  cache ← io_try (write_remote remote_id);
  match cache with
  | Err _ => mret tt
  | Ok cache => _ ← io_try (WritableCacheNamespace.remove cache SUBSCRIPTION_STATE_CACHE_KEY); mret tt
  end.

(** A node of a PVE remote, with the answers to the two requests about it.  The
    status is converted through JSON, [None] if that fails. *)
Record PveNodeAnswer : Type := mkPveAnswer {
  pa_node : string;
  pa_subscription : option (option sub_status * option Z * option string * option string * option string
                            * option Z * option string);
  pa_hw_sockets : option Z;
}.

Definition pve_info (a : PveNodeAnswer) : option FullSubscriptionInfo :=
  '(status, sockets, key, serverid, level, checktime, nextduedate) ← pa_subscription a;
  Some (mkFullInfo
    (mkInfo (default sub_default status)
       (match sockets with Some s => Some s | None => pa_hw_sockets a end)
       key (default SubscriptionLevel.None (SubscriptionLevel.from_str <$> level)) checktime nextduedate)
    serverid).

Record PbsSubscription : Type := mkPbsSubscription {
  ps_status : sub_status;
  ps_key : option string;
  ps_serverid : option string;
  ps_checktime : option Z;
  ps_nextduedate : option string;
}.

(** The outer [None] is a panic in [SubscriptionLevel::from_key]. *)
Definition pbs_info (s : PbsSubscription) : option FullSubscriptionInfo :=
  level ← SubscriptionLevel.from_key (ps_key s);
  Some (mkFullInfo (mkInfo (ps_status s) None (ps_key s) level (ps_checktime s) (ps_nextduedate s)) (ps_serverid s)).

Definition fetch_remote_subscription_info (ty : RemoteType.t) (client : result error unit)
    (nodes : result error (list PveNodeAnswer)) (pbs : option PbsSubscription) :
    option (result error node_infos) :=
  match ty with
  | RemoteType.Pve =>
      Some (_ ← client; nodes ← nodes;
            Ok (foldl (λ l a, <[pa_node a := pve_info a]> l) ∅ nodes))
  | RemoteType.Pbs =>
      match client, pbs with
      | Err e, _ => Some (Err e)
      | Ok _, None => Some (Ok {["localhost"%string := None]})
      | Ok _, Some s => i ← pbs_info s; Some (Ok {["localhost"%string := Some i]})
      end
  end.

Inductive RemoteSubscriptionState : Type := StateNone | StateUnknown | StateMixed | StateActive.

Record RemoteSubscriptions : Type := mkRemoteSubscriptions {
  rsub_remote : string;
  rsub_error : option string;
  rsub_node_status : option node_infos;
  rsub_state : RemoteSubscriptionState;
}.

Context `{!SubscriptionNew}.

Definition effective_level (info : option FullSubscriptionInfo) : SubscriptionLevel.t :=
  match info with
  | Some info =>
      if bool_decide (ni_status (fi_info info) = sub_new) || bool_decide (ni_status (fi_info info) = sub_active)
      then ni_level (fi_info info) else SubscriptionLevel.None
  | None => SubscriptionLevel.Unknown
  end.

Fixpoint min_level (l : list SubscriptionLevel.t) : option SubscriptionLevel.t :=
  match l with
  | [] => None
  | x :: l' =>
      match min_level l' with
      | Some y => if SubscriptionLevel.rank y <? SubscriptionLevel.rank x then Some y else Some x
      | None => Some x
      end
  end.

Definition map_node_subscription_list_to_state (infos : node_infos) : RemoteSubscriptionState :=
  let levels := map effective_level (map_to_list infos).*2 in
  let minimum := default SubscriptionLevel.Unknown (min_level levels) in
  let mixed := existsb (λ level, negb (bool_decide (level = minimum))) levels in
  match minimum, mixed with
  | SubscriptionLevel.None, _ => StateNone
  | SubscriptionLevel.Unknown, false => StateUnknown
  | SubscriptionLevel.Unknown, true => StateActive
  | _, true => StateMixed
  | _, false => StateActive
  end.

Definition check_remote_priv (u : user) (remote : string) : bool :=
  match check_privs u ["resource"%string; remote] PRIV_RESOURCE_AUDIT with Ok _ => true | Err _ => false end.

Definition check_all_remotes_allowed (u : user) (view : option string) : result error bool :=
  match view with
  | Some view => _ ← check_privs u ["view"%string; view] PRIV_RESOURCE_AUDIT; Ok false
  | None =>
      Ok (match check_privs u ["resource"%string] PRIV_RESOURCE_AUDIT with Ok _ => true | Err _ => false end)
  end.

(** The checks of the loop over the remotes. *)
Definition remote_visible (u : user) (allow_all : bool) (view : option ViewConfig) (remote_name : string) : bool :=
  match view with
  | Some view => negb (can_skip_remote view remote_name)
  | None => allow_all || check_remote_priv u remote_name
  end.

(** The future of one remote; [answer] is what [get_subscription_info_for_remote]
    returned, with the text of its error. *)
Definition remote_subscription (view : option ViewConfig) (verbose : bool) (remote_name : string)
    (remote : Remote) (answer : result string node_infos) : option RemoteSubscriptions :=
  let '(node_status, error) :=
    match answer with
    | Ok node_status =>
        (Some (match view with
               | Some view => filter (λ '(node, _), is_node_included view (rm_id remote) node = true) node_status
               | None => node_status
               end), None)
    | Err error => (None, Some error)
    end in
  if match view, error with
     | Some view, Some _ => negb (is_remote_explicitly_included view (rm_id remote))
     | _, _ => false
     end then None else
  match node_status with
  | Some node_status =>
      if bool_decide (node_status = ∅) then None
      else Some (mkRemoteSubscriptions remote_name error (if verbose then Some node_status else None)
                   (map_node_subscription_list_to_state node_status))
  | None => Some (mkRemoteSubscriptions remote_name error None StateUnknown)
  end.

Definition get_subscription_status {C} `{SectionConfigData C ViewConfig}
    (answers : Remote → result string node_infos) (verbose : bool) (view : option string)
    (auth : result error user) (remotes_config : result error (list (string * Remote)))
    (views : result error C) : result error (list RemoteSubscriptions) :=
  remotes ← remotes_config;
  u ← auth;
  allow_all ← check_all_remotes_allowed u view;
  view ← get_optional_view views view;
  Ok (omap (M:=list) (λ '(remote_name, remote),
        if remote_visible u allow_all view remote_name
        then remote_subscription view verbose remote_name remote (answers remote)
        else None) remotes).
End subscription.

(** ** Locations *)

Record Location : Type := mkLocation {
  lo_name : option string;
  lo_latitude : f64;
  lo_longitude : f64;
}.
Record CachedLocationInfo : Type := mkLocationInfo { node_locations : gmap string Location }.

Definition LOCATION_STATE_CACHE_KEY : string := "location-state".

(** [PropertyString<PveNodeLocation>] *)
Class LocationParser := parse_location_property : string → option Location.

Definition parse_pve_location `{LocationParser} (value : option string) : option Location :=
  value ← value; parse_location_property value.

Definition node_location_step `{LocationParser} (location : option Location)
    (node_locations : gmap string Location) (node : string * result error (option string)) :
    gmap string Location :=
  let '(node_name, remote_info) := node in
  let node_config := match remote_info with Ok config => Some config | Err _ => None end in
  let node_location := parse_pve_location (node_config ≫= λ config, config) in
  match node_location, location with
  | Some location, _ => <[node_name := location]> node_locations
  | None, Some location => <[node_name := location]> node_locations
  | None, None => node_locations
  end.

(** [options] is the location of the datacenter, [nodes] the nodes with the
    location in the configuration of each, [pbs] the location of a PBS node. *)
Definition fetch_remote_location_info `{LocationParser} (ty : RemoteType.t) (client : result error unit)
    (options : result error (option string)) (nodes : result error (list (string * result error (option string))))
    (pbs : result error (option Location)) : result error (option CachedLocationInfo) :=
  match ty with
  | RemoteType.Pve =>
      _ ← client;
      options ← options;
      let location := parse_pve_location options in
      nodes ← nodes;
      let node_locations := foldl (node_location_step location) ∅ nodes in
      if bool_decide (node_locations = ∅) then Ok None else Ok (Some (mkLocationInfo node_locations))
  | RemoteType.Pbs =>
      _ ← client;
      loc ← pbs;
      Ok (option_map (λ location, mkLocationInfo {["localhost"%string := location]}) loc)
  end.

Section location.
Context `{SafeIdRegex} `{EntryCodec CachedLocationInfo} `{EntryCodec (option CachedLocationInfo)}.

Definition get_cached_location_info (now : Z) (remote : string) (max_age : Z) : io (option CachedLocationInfo) :=
  cache ← read_remote remote;
  let max_age := Z.min max_age i64_MAX in
  r ← io_try (ReadableCacheNamespace.get_with_max_age cache now LOCATION_STATE_CACHE_KEY max_age);
  mret (ok_flatten r).

Definition update_cached_location_info (remote : string) (info : option CachedLocationInfo) (now : Z) :
    io (option CachedLocationInfo) :=
  cache ← write_remote remote;
  r ← WritableCacheNamespace.set_if_newer_with_timestamp cache now LOCATION_STATE_CACHE_KEY info now;
  mret (r ≫= λ o, o).

Definition get_location_info_for_remote (now1 now2 : Z) (answer : result error (option CachedLocationInfo))
    (interfere : io unit) (remote : Remote) (max_age : Z) : io (option CachedLocationInfo) :=
  cached ← get_cached_location_info now1 (rm_id remote) max_age;
  match cached with
  | Some cached => mret (Some cached)
  | None =>
      _ ← interfere;
      location_info ←
        match answer with
        | Ok info => mret info
        | Err err => get_cached_location_info now2 (rm_id remote) u64_MAX
        end;
      existing_state ← update_cached_location_info (rm_id remote) location_info now2;
      match existing_state with
      | Some existing_state => mret (Some existing_state)
      | None => mret location_info
      end
  end.
End location.

Definition get_location_info {C} `{SectionConfigData C ViewConfig}
    (answers : Remote → result error (option CachedLocationInfo)) (view : option string)
    (auth : result error user) (remotes_config : result error (list (string * Remote)))
    (views : result error C) : result error (gmap string CachedLocationInfo) :=
  remotes ← remotes_config;
  u ← auth;
  allow_all ← check_all_remotes_allowed u view;
  view ← get_optional_view views view;
  Ok (foldl (λ m '(remote_name, remote),
        if remote_visible u allow_all view remote_name then
          match answers remote with
          | Ok (Some info) => <[remote_name := info]> m
          | _ => m
          end
        else m) ∅ remotes).

(** ** The cache in front of a remote

    What all three have in common: answer from a fresh entry, else ask, and store
    the answer unless somebody stored a newer one in the meantime. *)

Section through_cache.
Context {T V : Type} (wrap : V → Z → T) (unwrap : T → V).

Definition through_cache (now1 now2 max_age : Z) (answer : result error V)
    (before between : option (CacheEntry T)) : result error V * option (CacheEntry T) :=
  match read_entry now1 (Some (as_i64 max_age)) before with
  | Some e => (Ok (unwrap (entry_value e)), before)
  | None =>
      match answer with
      | Err err => (Err err, before)
      | Ok v =>
          match newer_entry (wrap v now2) now2 between with
          | (Some t, after) => (Ok (unwrap t), after)
          | (None, after) => (Ok v, after)
          end
      end
  end.
End through_cache.

Section refinement.
Context `{SafeIdLaws}.

(** What other tasks do while the remote is asked: they may replace the entry and
    touch other files. *)
Definition interferes (T : Type) `{EntryCodec T} (interfere : io unit) (path : string)
    (before between : option (CacheEntry T)) : Prop :=
  ∀ m, stored m path before → ∃ m', interfere (World m []) = (Ok tt, World m' []) ∧ stored m' path between.

Section generic.
Context {T : Type} `{EntryCodec T, !EntryCodecLaws T}.
Implicit Types (o : option (CacheEntry T)).

Lemma read_remote_stored m remote key o :
  SAFE_ID_REGEX (format_remote_namespace remote) = true →
  stored m (get_path (format_remote_namespace remote) key) o →
  ∃ m', read_remote remote (World m []) = (Ok (mkReadable (format_remote_namespace remote)), World m' []) ∧
        stored m' (get_path (format_remote_namespace remote) key) o.
Proof.
  intros Hn Hst. destruct (read_run_quiet m _ Hn) as (m' & Hrun & Hm). exists m'. split; [exact Hrun|].
  eapply stored_frame; [|done]. apply Hm. by apply get_path_not_lockfile.
Qed.

Lemma write_remote_stored m remote key o :
  SAFE_ID_REGEX (format_remote_namespace remote) = true →
  stored m (get_path (format_remote_namespace remote) key) o →
  ∃ m', write_remote remote (World m []) = (Ok (mkWritable (format_remote_namespace remote)), World m' []) ∧
        stored m' (get_path (format_remote_namespace remote) key) o.
Proof.
  intros Hn Hst. destruct (write_run_quiet m _ Hn) as (m' & Hrun & Hm). exists m'. split; [exact Hrun|].
  eapply stored_frame; [|done]. apply Hm. by apply get_path_not_lockfile.
Qed.

Lemma get_cached_stored m now remote key max_age o :
  SAFE_ID_REGEX (format_remote_namespace remote) = true → SAFE_ID_REGEX key = true →
  stored m (get_path (format_remote_namespace remote) key) o →
  ∃ m', (cache ← read_remote remote;
         r ← io_try (ReadableCacheNamespace.get_with_max_age cache now key max_age);
         mret (ok_flatten r)) (World m []) =
        (Ok (entry_value <$> read_entry now (Some max_age) o), World m' []) ∧
        stored m' (get_path (format_remote_namespace remote) key) o.
Proof.
  intros Hn Hk Hst. destruct (read_remote_stored m remote key o Hn Hst) as (m' & Hrun & Hst').
  exists m'. split; [|done]. rewrite io_bind_run, Hrun, io_bind_run. unfold io_try.
  unfold ReadableCacheNamespace.get_with_max_age. cbn [ri_namespace].
  rewrite (get_impl_stored _ _ _ _ _ o) by done. done.
Qed.

Lemma set_newer_stored m remote key (v : T) now o :
  SAFE_ID_REGEX (format_remote_namespace remote) = true → SAFE_ID_REGEX key = true →
  is_Some (entry_to_json (mkCacheEntry now v)) →
  stored m (get_path (format_remote_namespace remote) key) o →
  ∃ m', (cache ← write_remote remote;
         WritableCacheNamespace.set_if_newer_with_timestamp cache now key v now) (World m []) =
        (Ok (newer_entry v now o).1, World m' []) ∧
        stored m' (get_path (format_remote_namespace remote) key) (newer_entry v now o).2.
Proof.
  intros Hn Hk Hv Hst. destruct (write_remote_stored m remote key o Hn Hst) as (m1 & Hrun & Hst1).
  rewrite io_bind_run, Hrun. unfold WritableCacheNamespace.set_if_newer_with_timestamp.
  destruct (set_if_newer_stored m1 now (format_remote_namespace remote) key v now o Hv Hk Hst1)
    as (m2 & Hset & Hst2 & _). eauto.
Qed.
End generic.

Lemma get_resources_for_remote_run `{EntryCodec CachedResources, !EntryCodecLaws CachedResources}
    m now1 now2 answer interfere remote max_age before between :
  let path := get_path (format_remote_namespace (rm_id remote)) REMOTE_RESOURCES_CACHE_KEY in
  SAFE_ID_REGEX (format_remote_namespace (rm_id remote)) = true →
  SAFE_ID_REGEX REMOTE_RESOURCES_CACHE_KEY = true →
  (∀ l, answer = Ok l → is_Some (entry_to_json (mkCacheEntry now2 (mkCachedResources l now2)))) →
  interferes CachedResources interfere path before between →
  stored m path before →
  ∃ m', let '(r, after) := through_cache mkCachedResources cached_resources now1 now2 max_age answer before between in
        get_resources_for_remote now1 now2 answer interfere remote max_age (World m []) = (r, World m' []) ∧
        stored m' path after.
Proof.
  intros path Hn Hk Hser Hint Hst. unfold get_resources_for_remote, get_cached_resources.
  rewrite io_bind_run.
  destruct (get_cached_stored m now1 (rm_id remote) _ (as_i64 max_age) before Hn Hk Hst) as (m1 & -> & Hst1).
  unfold through_cache. destruct (read_entry now1 _ before) as [e|]; simpl; [by exists m1|].
  destruct answer as [v|err]; simpl; [|by exists m1]. rewrite io_bind_run. unfold io_lift.
  rewrite io_bind_run. destruct (Hint m1 Hst1) as (m2 & -> & Hst2). rewrite io_bind_run.
  destruct (set_newer_stored m2 (rm_id remote) _ (mkCachedResources v now2) now2 between Hn Hk (Hser _ eq_refl) Hst2)
    as (m3 & Hset & Hst3).
  unfold update_cached_resources. rewrite Hset. exists m3.
  destruct (newer_entry (mkCachedResources v now2) now2 between) as [[t|] after]; done.
Qed.

Lemma get_subscription_info_for_remote_run `{SubscriptionStatusType}
    `{EntryCodec CachedSubscriptionState, !EntryCodecLaws CachedSubscriptionState}
    m now1 now2 answer interfere remote max_age before between :
  let path := get_path (format_remote_namespace (rm_id remote)) SUBSCRIPTION_STATE_CACHE_KEY in
  SAFE_ID_REGEX (format_remote_namespace (rm_id remote)) = true →
  SAFE_ID_REGEX SUBSCRIPTION_STATE_CACHE_KEY = true →
  (∀ l, answer = Ok l → is_Some (entry_to_json (mkCacheEntry now2 (to_cached l)))) →
  interferes CachedSubscriptionState interfere path before between →
  stored m path before →
  ∃ m', let '(r, after) := through_cache (λ v _, to_cached v) from_cached now1 now2 max_age answer before between in
        get_subscription_info_for_remote now1 now2 answer interfere remote max_age (World m []) = (r, World m' []) ∧
        stored m' path after.
Proof.
  intros path Hn Hk Hser Hint Hst. unfold get_subscription_info_for_remote, get_cached_subscription_info.
  rewrite io_bind_run.
  destruct (get_cached_stored m now1 (rm_id remote) _ (as_i64 max_age) before Hn Hk Hst) as (m1 & -> & Hst1).
  unfold through_cache. destruct (read_entry now1 _ before) as [e|]; simpl; [by exists m1|].
  destruct answer as [v|err]; simpl; [|by exists m1]. rewrite io_bind_run. unfold io_lift.
  rewrite io_bind_run. destruct (Hint m1 Hst1) as (m2 & -> & Hst2). rewrite io_bind_run.
  destruct (set_newer_stored m2 (rm_id remote) _ (to_cached v) now2 between Hn Hk (Hser _ eq_refl) Hst2)
    as (m3 & Hset & Hst3).
  unfold update_cached_subscription_info. rewrite Hset. exists m3.
  destruct (newer_entry (to_cached v) now2 between) as [[t|] after]; done.
Qed.
End refinement.

(** What [get_resources_for_remote] returns, without I/O faults and whatever
    other tasks store meanwhile: either an entry that was fresh when it was read
    (never, if the maximum age is zero), or what the remote answered, which is
    then stored with the current time, or an entry that was stored meanwhile and
    is newer than that answer.  If the remote fails, its error is returned and the
    entry is kept. *)
Theorem resources_never_stale `{SafeIdLaws} `{EntryCodec CachedResources, !EntryCodecLaws CachedResources}
    m now1 now2 answer interfere remote max_age before between :
  let path := get_path (format_remote_namespace (rm_id remote)) REMOTE_RESOURCES_CACHE_KEY in
  SAFE_ID_REGEX (format_remote_namespace (rm_id remote)) = true →
  SAFE_ID_REGEX REMOTE_RESOURCES_CACHE_KEY = true →
  (∀ l, answer = Ok l → is_Some (entry_to_json (mkCacheEntry now2 (mkCachedResources l now2)))) →
  interferes CachedResources interfere path before between →
  stored m path before →
  ∃ m' r after,
    get_resources_for_remote now1 now2 answer interfere remote max_age (World m []) = (r, World m' []) ∧
    stored m' path after ∧
    match r with
    | Ok l =>
        (∃ e, before = Some e ∧ max_age ≠ 0 ∧ is_expired e now1 (as_i64 max_age) = false ∧
              l = cached_resources (entry_value e) ∧ after = before) ∨
        (answer = Ok l ∧ after = Some (mkCacheEntry now2 (mkCachedResources l now2))) ∨
        (∃ e, between = Some e ∧ now2 < entry_timestamp e ∧
              l = cached_resources (entry_value e) ∧ after = between)
    | Err err => answer = Err err ∧ after = before
    end.
Proof.
  intros path Hn Hk Hser Hint Hst.
  destruct (get_resources_for_remote_run m now1 now2 answer interfere remote max_age before between
              Hn Hk Hser Hint Hst) as [m' Hrun].
  unfold through_cache in Hrun. destruct (read_entry now1 _ before) as [e|] eqn:Eread.
  - destruct Hrun as [Hrun Hafter]. do 3 eexists. split_and!; [exact Hrun|exact Hafter|]. left.
    exists e. destruct before as [e'|]; [|done]. unfold read_entry, fresh in Eread.
    destruct (is_expired e' now1 (as_i64 max_age)) eqn:Ex; [done|]. simplify_eq/=.
    split_and!; [done| |done..]. intros ->. done.
  - destruct answer as [v|err].
    + unfold newer_entry in Hrun.
      destruct between as [e|]; [destruct (Z.ltb_spec now2 (entry_timestamp e))|];
        destruct Hrun as [Hrun Hafter]; do 3 eexists; (split_and!; [exact Hrun|exact Hafter|]); right.
      * right. eauto 10.
      * by left.
      * by left.
    + destruct Hrun as [Hrun Hafter]. do 3 eexists. split_and!; [exact Hrun|exact Hafter|]. done.
Qed.

Section subscription_facts.
Context `{SubscriptionNew}.

Lemma min_level_spec l :
  match min_level l with
  | Some x => x ∈ l ∧ ∀ y, y ∈ l → SubscriptionLevel.rank x ≤ SubscriptionLevel.rank y
  | None => l = []
  end.
Proof.
  induction l as [|x l IH]; simpl; [done|]. destruct (min_level l) as [y|].
  - destruct IH as [Hy Hmin]. destruct (Z.ltb_spec (SubscriptionLevel.rank y) (SubscriptionLevel.rank x)).
    + split; [by right|]. intros z [->|Hz]%elem_of_cons; [lia|auto].
    + split; [by left|]. intros z [->|Hz]%elem_of_cons; [lia|]. specialize (Hmin z Hz). lia.
  - subst. split; [by left|]. intros z [->|Hz]%elem_of_cons; [lia|set_solver].
Qed.

Lemma rank_inj x y : SubscriptionLevel.rank x = SubscriptionLevel.rank y → x = y.
Proof. by destruct x, y. Qed.

Definition has_level (infos : node_infos) (P : SubscriptionLevel.t → Prop) : Prop :=
  ∃ node info, infos !! node = Some info ∧ P (effective_level info).

Lemma elem_of_levels (infos : node_infos) x :
  x ∈ map effective_level (map_to_list infos).*2 ↔ has_level infos (λ y, y = x).
Proof.
  unfold has_level. rewrite list_elem_of_In, in_map_iff. setoid_rewrite <-list_elem_of_In.
  setoid_rewrite list_elem_of_fmap. split.
  - intros (info & Hl & [node info'] & -> & Hin). apply (elem_of_map_to_list (M:=gmap string)) in Hin. eauto.
  - intros (node & info & Hin & Hl). exists info. split; [done|].
    exists (node, info). split; [done|].
    by apply (elem_of_map_to_list (M:=gmap string)).
Qed.

(** The subscription state of a remote: without a valid subscription as soon
    as one node has none; unknown if nothing is known of any node; mixed if all
    nodes are known and differ; and active otherwise, so in particular if all
    nodes have the same level, or some are unknown and the others have one. *)
Theorem subscription_state_spec (infos : node_infos) :
  match map_node_subscription_list_to_state infos with
  | StateNone => has_level infos (λ y, y = SubscriptionLevel.None)
  | StateUnknown => ¬ has_level infos (λ y, y ≠ SubscriptionLevel.Unknown)
  | StateMixed =>
      ¬ has_level infos (λ y, y = SubscriptionLevel.None ∨ y = SubscriptionLevel.Unknown) ∧
      ∃ x y, x ≠ y ∧ has_level infos (λ l, l = x) ∧ has_level infos (λ l, l = y)
  | StateActive =>
      ¬ has_level infos (λ y, y = SubscriptionLevel.None) ∧
      has_level infos (λ y, y ≠ SubscriptionLevel.Unknown) ∧
      (has_level infos (λ y, y = SubscriptionLevel.Unknown) ∨
       ∃ x, ∀ node info, infos !! node = Some info → effective_level info = x)
  end.
Proof.
  unfold map_node_subscription_list_to_state.
  set (levels := map effective_level (map_to_list infos).*2).
  assert (∀ node info, infos !! node = Some info → effective_level info ∈ levels) as Hin.
  { intros node info Hi. apply elem_of_levels. by exists node, info. }
  pose proof (min_level_spec levels) as Hmin. destruct (min_level levels) as [x|]; simpl.
  2: { rewrite Hmin in *. simpl. intros (node & info & Hi & _). specialize (Hin _ _ Hi). set_solver. }
  destruct Hmin as [Hx Hmin]. apply elem_of_levels in Hx as Hxl.
  destruct (existsb (λ level, negb (bool_decide (level = x))) levels) eqn:Emixed.
  - apply existsb_exists in Emixed as (y & Hy%list_elem_of_In & Hne).
    apply negb_true_iff, bool_decide_eq_false in Hne. apply elem_of_levels in Hy as Hyl.
    assert (∀ P, has_level infos P → ∃ z, P z ∧ SubscriptionLevel.rank x ≤ SubscriptionLevel.rank z) as Hall.
    { intros P (node & info & Hi & HP). eexists. split; [exact HP|]. eauto. }
    assert (has_level infos (λ l, l ≠ x)) as Hother.
    { destruct Hyl as (node & info & Hi & <-). by exists node, info. }
    destruct x; simpl in *; try done.
    1: split_and!; [|done|by left]; intros (z & -> & ?)%Hall; simpl in *; lia.
    all: split; [intros (z & [->| ->] & ?)%Hall; simpl in *; lia|by eexists y, _].
  - assert (∀ node info, infos !! node = Some info → effective_level info = x) as Hsame.
    { intros node info Hi. apply Hin in Hi. destruct (decide (effective_level info = x)) as [|Hne]; [done|].
      exfalso. revert Emixed. apply not_false_iff_true, existsb_exists.
      exists (effective_level info). split; [by apply list_elem_of_In|].
      by apply negb_true_iff, bool_decide_eq_false. }
    assert (∀ P, has_level infos P → P x) as Hall.
    { intros P (node & info & Hi & HP). by rewrite (Hsame _ _ Hi) in HP. }
    assert (∀ P : SubscriptionLevel.t → Prop, P x → has_level infos P) as Hex.
    { intros P HP. destruct Hxl as (node & info & Hi & Heq). exists node, info. by rewrite Heq. }
    destruct x; simpl; try (split_and!; [by intros ?%Hall|by apply Hex|right; eauto]).
    + done.
    + by intros ?%Hall.
Qed.
End subscription_facts.

Section status_access.
Context `{SubscriptionNew} {C : Type} `{SectionConfigData C ViewConfig}.

Lemma remote_subscription_Some view verbose n r answer x :
  remote_subscription view verbose n r answer = Some x →
  rsub_remote x = n ∧
  (∀ v infos, view = Some v → rsub_node_status x = Some infos →
     ∀ node info, infos !! node = Some info → is_node_included v (rm_id r) node = true) ∧
  (∀ v, view = Some v → is_Some (rsub_error x) → is_remote_explicitly_included v (rm_id r) = true).
Proof.
  unfold remote_subscription. destruct answer as [infos|err]; simpl.
  - destruct view as [v|]; case_bool_decide; intros ?; simplify_eq/=; split_and!; try done.
    + intros v' infos' [= <-] Hv node info Hi. destruct verbose; [|done]. simplify_eq/=.
      by apply (map_lookup_filter_Some (M:=gmap string)) in Hi as [_ ?].
  - destruct view as [v|]; [|by intros ?; simplify_eq/=].
    destruct (is_remote_explicitly_included v (rm_id r)) eqn:E; simpl; [|done].
    intros ?; simplify_eq/=. split_and!; try done. by intros ? [= <-].
Qed.

(** Who sees whose subscriptions: without a view, a remote is reported only to
    a caller who may audit all resources or this remote.  With a view, the caller
    may audit the view, the remote is one the view cannot skip, every node that is
    reported is included in the view, and the error of a remote is reported only
    if the view includes the remote explicitly. *)
Theorem subscription_status_access (answers : Remote → result string node_infos) verbose view u remotes
    (views : result error C) l x :
  get_subscription_status answers verbose view (Ok u) (Ok remotes) views = Ok l → x ∈ l →
  ∃ remote, (rsub_remote x, remote) ∈ remotes ∧
  match view with
  | None =>
      check_privs u ["resource"%string] PRIV_RESOURCE_AUDIT = Ok tt ∨
      check_privs u ["resource"%string; rsub_remote x] PRIV_RESOURCE_AUDIT = Ok tt
  | Some view_id =>
      check_privs u ["view"%string; view_id] PRIV_RESOURCE_AUDIT = Ok tt ∧
      ∃ v, get_view views view_id = Ok v ∧ can_skip_remote v (rsub_remote x) = false ∧
        (∀ infos node info, rsub_node_status x = Some infos → infos !! node = Some info →
           is_node_included v (rm_id remote) node = true) ∧
        (is_Some (rsub_error x) → is_remote_explicitly_included v (rm_id remote) = true)
  end.
Proof.
  intros Hl Hx. unfold get_subscription_status in Hl. run_ok Hl. simplify_eq/=.
  apply list_elem_of_omap in Hx as ([n r] & Hin & Hx).
  match type of Hx with context [remote_visible ?u ?a ?v n] => destruct (remote_visible u a v n) eqn:Evis end;
    [|done].
  apply remote_subscription_Some in Hx as (<- & Hnodes & Herr). exists r. split; [done|].
  destruct view as [view_id|]; simpl in *.
  - run_ok Hrun1. run_ok Hrun2. simplify_eq/=.
    match goal with Hp : check_privs _ _ _ = Ok ?w |- _ => destruct w end.
    split; [done|]. eexists. split_and!; [done|by apply negb_true_iff|eauto..].
  - simplify_eq/=. apply orb_true_iff in Evis as [Ha|Ha]; [left|right; unfold check_remote_priv in Ha];
      by destruct (check_privs _ _ _) as [[]|].
Qed.
End status_access.

(** ** Locations when a remote is down *)

(** The same file holds the entry of an optional location: a location is written
    like the location itself, and the absence of one does not read as a location. *)
Class LocationCodecLaws `{EntryCodec CachedLocationInfo} `{EntryCodec (option CachedLocationInfo)} : Prop := {
  some_location_json ts v :
    entry_to_json (mkCacheEntry ts (Some v)) = entry_to_json (mkCacheEntry ts v);
}.

(** A location survives an outage: if the entry is too old for the caller and
    the remote cannot be asked, the old entry is returned.  It is also stored
    again with the current time, so that from then on it counts as fresh. *)
Theorem location_survives_outage `{SafeIdLaws}
    `{EntryCodec CachedLocationInfo, !EntryCodecLaws CachedLocationInfo}
    `{EntryCodec (option CachedLocationInfo), !EntryCodecLaws (option CachedLocationInfo), !LocationCodecLaws}
    m now1 now2 err remote max_age (e : CacheEntry CachedLocationInfo) :
  let path := get_path (format_remote_namespace (rm_id remote)) LOCATION_STATE_CACHE_KEY in
  SAFE_ID_REGEX (format_remote_namespace (rm_id remote)) = true →
  SAFE_ID_REGEX LOCATION_STATE_CACHE_KEY = true →
  is_Some (entry_to_json (mkCacheEntry now2 (entry_value e))) →
  stored m path (Some e) →
  is_expired e now1 (Z.min max_age i64_MAX) = true →
  0 ≤ entry_timestamp e ≤ now2 → now2 < 2 ^ 62 →
  ∃ m',
    get_location_info_for_remote now1 now2 (Err err) (mret tt) remote max_age (World m []) =
      (Ok (Some (entry_value e)), World m' []) ∧
    stored m' path (Some (mkCacheEntry now2 (entry_value e))).
Proof.
  intros path Hn Hk [s Hs] Hst Hexp Hts Hnow. unfold get_location_info_for_remote, get_cached_location_info.
  rewrite io_bind_run.
  destruct (get_cached_stored m now1 (rm_id remote) _ (Z.min max_age i64_MAX) (Some e) Hn Hk Hst) as (m1 & -> & Hst1).
  unfold read_entry at 1, fresh at 1. rewrite Hexp. simpl. rewrite !io_bind_run. simpl.
  rewrite io_bind_run.
  destruct (get_cached_stored m1 now2 (rm_id remote) _ (Z.min u64_MAX i64_MAX) (Some e) Hn Hk Hst1) as (m2 & -> & Hst2).
  assert (is_expired e now2 (Z.min u64_MAX i64_MAX) = false) as Hfresh.
  { change (Z.min u64_MAX i64_MAX) with i64_MAX. unfold is_expired, as_i64, i64_MAX.
    change (2 ^ 63 - 1 =? 0) with false. rewrite Z.mod_small by lia. apply orb_false_iff. split; lia. }
  unfold read_entry, fresh. rewrite Hfresh. simpl.
  assert (stored (T:=option CachedLocationInfo) m2 path (Some (mkCacheEntry (entry_timestamp e) (Some (entry_value e)))))
    as Hopt.
  { destruct Hst2 as (s' & Hs' & Hm). exists s'. rewrite some_location_json. by destruct e. }
  assert (is_Some (entry_to_json (mkCacheEntry now2 (Some (entry_value e))))) as Hser.
  { rewrite some_location_json. eauto. }
  destruct (set_newer_stored m2 (rm_id remote) LOCATION_STATE_CACHE_KEY (Some (entry_value e)) now2 _ Hn Hk Hser Hopt)
    as (m3 & Hset & Hst3).
  assert ((newer_entry (Some (entry_value e)) now2
            (Some (mkCacheEntry (entry_timestamp e) (Some (entry_value e))))) =
          (None, Some (mkCacheEntry now2 (Some (entry_value e))))) as Hnewer.
  { unfold newer_entry. simpl. by rewrite (proj2 (Z.ltb_ge _ _)) by lia. }
  rewrite Hnewer in Hset, Hst3. simpl in Hset, Hst3.
  exists m3. unfold update_cached_location_info. revert Hset. rewrite !io_bind_run.
  destruct (write_remote (rm_id remote) (World m2 [])) as [[c|] w]; [|done].
  intros Hset. rewrite io_bind_run, Hset. simpl. split; [done|].
  destruct Hst3 as (s3 & Hs3 & Hm3). rewrite some_location_json in Hs3. by exists s3.
Qed.

(** ** Witnesses *)

Module RemoteDataDemo.
#[local] Existing Instance safe_id_regex_impl.
#[local] Existing Instance safe_id_impl_laws.
#[local] Existing Instance CacheDemo.demo_entry_codec.
#[local] Existing Instance CacheDemo.demo_entry_laws.

(** An encoding of entries without resources. *)
#[local] Instance resources_codec : EntryCodec CachedResources := {|
  entry_to_json e :=
    match cached_resources (entry_value e) with
    | [] => entry_to_json (mkCacheEntry (entry_timestamp e) (cached_timestamp (entry_value e)))
    | _ => None
    end;
  entry_of_json s :=
    e ← entry_of_json s;
    Some (mkCacheEntry (entry_timestamp e) (mkCachedResources [] (entry_value e)));
|}.
#[local] Instance resources_laws : EntryCodecLaws CachedResources.
Proof.
  split; intros [ts [[|] t]] s Hs; try done.
  - pose proof (@entry_json_roundtrip Z _ CacheDemo.demo_entry_laws (mkCacheEntry ts t) s Hs) as Hr.
    unfold entry_of_json, resources_codec. by rewrite Hr.
  - exact (@entry_json_utf8 Z _ CacheDemo.demo_entry_laws (mkCacheEntry ts t) s Hs).
Qed.

Definition pve1 : Remote := mkRemote "pve1" RemoteType.Pve.
Definition old_files : gmap string string := {["remote-pve1/resources.json"%string := "10,10"%string]}.

Lemma resources_never_stale_witness :
  ∃ m', get_resources_for_remote 100 101 (Ok []) (mret tt) pve1 30 (World old_files []) = (Ok [], World m' []).
Proof.
  destruct (resources_never_stale old_files 100 101 (Ok []) (mret tt) pve1 30
    (Some (mkCacheEntry 10 (mkCachedResources [] 10))) (Some (mkCacheEntry 10 (mkCachedResources [] 10))))
    as (m' & r & after & Hrun & _ & Hr).
  - reflexivity.
  - reflexivity.
  - intros l [= <-]. vm_compute. eauto.
  - intros m Hm. exists m. split; [reflexivity|exact Hm].
  - exists "10,10"%string. split; vm_compute; reflexivity.
  - exists m'. destruct r as [l|e].
    + rewrite Hrun. repeat f_equal. destruct Hr as [(e & [= <-] & _ & Hx & _)|[[[= <-] _]|(e & [= <-] & Hlt & _)]].
      * vm_compute in Hx. discriminate.
      * reflexivity.
      * simpl in Hlt. lia.
    + destruct Hr as [Hr _]. discriminate.
Defined.

#[local] Instance location_codec : EntryCodec CachedLocationInfo := {|
  entry_to_json e :=
    if decide (node_locations (entry_value e) = ∅)
    then entry_to_json (mkCacheEntry (entry_timestamp e) 0) else None;
  entry_of_json s :=
    e ← entry_of_json (T:=Z) s; Some (mkCacheEntry (entry_timestamp e) (mkLocationInfo ∅));
|}.
#[local] Instance location_laws : EntryCodecLaws CachedLocationInfo.
Proof.
  split; intros [ts [l]] s Hs; unfold entry_to_json, location_codec in Hs; simpl in Hs;
    destruct (decide (l = ∅)) as [->|]; try done.
  - unfold entry_of_json, location_codec.
    pose proof (@entry_json_roundtrip Z _ CacheDemo.demo_entry_laws (mkCacheEntry ts 0) s Hs) as Hr. by rewrite Hr.
  - exact (@entry_json_utf8 Z _ CacheDemo.demo_entry_laws (mkCacheEntry ts 0) s Hs).
Qed.
#[local] Instance opt_location_codec : EntryCodec (option CachedLocationInfo) := {|
  entry_to_json e := v ← entry_value e; entry_to_json (mkCacheEntry (entry_timestamp e) v);
  entry_of_json s :=
    e ← entry_of_json (T:=CachedLocationInfo) s; Some (mkCacheEntry (entry_timestamp e) (Some (entry_value e)));
|}.
#[local] Instance opt_location_laws : EntryCodecLaws (option CachedLocationInfo).
Proof.
  split; intros [ts [v|]] s Hs; try done.
  - pose proof (@entry_json_roundtrip CachedLocationInfo _ location_laws (mkCacheEntry ts v) s Hs) as Hr.
    change (entry_of_json s = Some (mkCacheEntry ts (Some v))) with
      ((e ← entry_of_json (T:=CachedLocationInfo) s; Some (mkCacheEntry (entry_timestamp e) (Some (entry_value e))))
       = Some (mkCacheEntry ts (Some v))). by rewrite Hr.
  - exact (@entry_json_utf8 CachedLocationInfo _ location_laws (mkCacheEntry ts v) s Hs).
Qed.
#[local] Instance both_location_laws : LocationCodecLaws.
Proof. by split. Qed.

Lemma location_survives_outage_witness :
  ∃ m', get_location_info_for_remote 90000 90005 (Err EIo) (mret tt) pve1 86400
          (World {["remote-pve1/location-state.json"%string := "10,0"%string]} []) =
        (Ok (Some (mkLocationInfo ∅)), World m' []).
Proof.
  destruct (location_survives_outage {["remote-pve1/location-state.json"%string := "10,0"%string]}
    90000 90005 EIo pve1 86400 (mkCacheEntry 10 (mkLocationInfo ∅))) as (m' & Hrun & _).
  - reflexivity.
  - reflexivity.
  - vm_compute. eauto.
  - exists "10,0"%string. split; vm_compute; reflexivity.
  - vm_compute. reflexivity.
  - simpl. lia.
  - lia.
  - exists m'. exact Hrun.
Defined.

#[local] Instance statuses : SubscriptionStatusType :=
  {| sub_status := bool; sub_status_dec := _; sub_active := true; sub_not_found := false; sub_default := false |}.
#[local] Instance status_new : SubscriptionNew := true.
#[local] Instance views_config : SectionConfigData (gmap string ViewConfig) ViewConfig := gmap_config.

Definition auditor : user := {|
  lookup_privs _ := 0;
  check_privs path _ := if bool_decide (path = ["resource"; "pve1"]%string) then Ok tt else Err EInvalid;
  any_privs_below _ _ := Ok true;
|}.
Definition pve1_status : RemoteSubscriptions :=
  mkRemoteSubscriptions "pve1" (Some "timeout"%string) None StateUnknown.

Lemma subscription_status_access_witness :
  check_privs auditor ["resource"%string] PRIV_RESOURCE_AUDIT = Ok tt ∨
  check_privs auditor ["resource"%string; "pve1"%string] PRIV_RESOURCE_AUDIT = Ok tt.
Proof.
  destruct (subscription_status_access (C:=gmap string ViewConfig) (λ _, Err "timeout"%string) false None auditor
    [("pve1"%string, pve1); ("pve2"%string, mkRemote "pve2" RemoteType.Pve)] (Ok ∅) [pve1_status] pve1_status)
    as (remote & _ & Hp).
  - vm_compute. reflexivity.
  - left.
  - exact Hp.
Defined.
End RemoteDataDemo.
