(* ===== verification/RemotesConfig.v ===== *)
(** * The configuration of the remotes

    Model of [lib/pdm-config/src/remotes.rs] and of the handlers of
    [server/src/api/remotes/mod.rs] that read and edit the remotes.

    The secrets of the remotes are kept out of [remotes.cfg]: [save_config] moves
    them to [remotes.shadow] and leaves the placeholder ["-"] behind.  The two
    files are replaced one after the other, so a failure or a crash can happen in
    between; the theorems hold for every list of injected faults.

    Not under [src/], hence parameters: the text format of section configurations
    (class [SectionText]), the type [Authid] of [proxmox_auth_api], and the clients
    that create and delete tokens on a remote.  The cleanup of the Ceph registry
    after a removal is a hook. *)

From S2P Require Import Prelude FileSystem RemoteUpid SectionConfig ResourceList.

(** [ApiSectionDataEntry::{parse_section_config, write_section_config}] *)
Class SectionText (C : Type) := {
  parse_section_config : string → result error C;
  write_section_config : C → result error string;
}.

Class SectionTextLaws (C E : Type) `{SectionConfigData C E} `{SectionText C} : Prop := {
  parse_written c raw :
    write_section_config c = Ok raw →
    ∃ c', parse_section_config raw = Ok c' ∧ ∀ id, sc_get c' id = sc_get c id;
}.

Class AuthidType := {
  Authid : Type;
  authid_user : Authid → string;
  authid_tokenname : Authid → option string;
}.

Section types.
Context `{AuthidType}.

Record NodeUrl : Type := mkNodeUrl { nu_hostname : string; nu_fingerprint : option string }.

Record Remote : Type := mkFullRemote {
  r_ty : RemoteType.t;
  r_id : string;
  r_nodes : list NodeUrl;
  r_authid : Authid;
  r_token : string;
  r_web_url : option string;
}.

Record RemoteShadow : Type := mkShadow { rs_ty : RemoteType.t; rs_id : string; rs_token : string }.

Record RemoteUpdater : Type := mkRemoteUpdater {
  ru_nodes : option (list NodeUrl);
  ru_authid : option Authid;
  ru_token : option string;
  ru_web_url : option string;
}.

Definition set_token (token : string) (r : Remote) : Remote :=
  mkFullRemote (r_ty r) (r_id r) (r_nodes r) (r_authid r) token (r_web_url r).
End types.

Definition REMOTES_CFG_FILENAME : string := "/etc/proxmox-datacenter-manager/remotes.cfg".
Definition REMOTES_SHADOW_FILENAME : string := "/etc/proxmox-datacenter-manager/remotes.shadow".

(** The token of a remote whose secret is in the shadow file. *)
Definition placeholder : string := "-".

(** [{id:?}] of an id without characters to escape. *)
Definition quoted (s : string) : string := String (ascii_of_nat 34) (s +:+ String (ascii_of_nat 34) "").

Section config.
Context `{AuthidType} {CR CS : Type} `{SectionConfigData CR Remote} `{SectionText CR}
        `{SectionConfigData CS RemoteShadow} `{SectionText CS}.
Implicit Types (c : CR) (s : CS) (r : Remote).

(** ** [DefaultRemoteConfig] *)

(** [open_api_lockfile] may only fail. *)
Definition lock_config : io unit := fs_sync.

(** [config]: the remotes, and the content the digest is computed of. *)
Definition config : io (CR * string) :=
  content ← fs_open REMOTES_CFG_FILENAME;
  let content := default ""%string content in
  data ← io_lift (parse_section_config content);
  mret (data, content).

Definition shadow_config : io CS :=
  content ← fs_open REMOTES_SHADOW_FILENAME;
  io_lift (parse_section_config (default ""%string content)).

Definition new_shadow_entries c : list RemoteShadow :=
  omap (M:=list) (λ '(_, r), if String.eqb (r_token r) placeholder then None
                             else Some (mkShadow (r_ty r) (r_id r) (r_token r))) (sc_iter c).

Definition remove_leftover_entries (remote_ids : list string) s : CS :=
  foldl (λ s id, if existsb (String.eqb id) remote_ids then s else sc_remove s id) s (sc_iter s).*1.

Definition add_shadow_entries (entries : list RemoteShadow) c s : CR * CS :=
  foldl (λ '(c, s) entry, (sc_modify c (rs_id entry) (set_token placeholder), sc_insert s (rs_id entry) entry))
    (c, s) entries.

Definition save_config c : io unit :=
  s ← shadow_config;
  let entries := new_shadow_entries c in
  let remote_ids := (sc_iter c).*1 in
  let s := remove_leftover_entries remote_ids s in
  let '(c, s) := add_shadow_entries entries c s in
  raw_shadow ← io_lift (write_section_config s);
  _ ← fs_replace REMOTES_SHADOW_FILENAME raw_shadow;
  raw ← io_lift (write_section_config c);
  fs_replace REMOTES_CFG_FILENAME raw.

Definition get_secret_token r : io string :=
  if negb (String.eqb (r_token r) placeholder) then mret (r_token r)
  else s ← shadow_config;
       match sc_get s (r_id r) with
       | Some entry => mret (rs_token entry)
       | None => io_fail (EMsg ("No shadow entry found for remote " +:+ r_id r))
       end.

(** ** The API *)

Definition get_remote c (id : string) : result error Remote :=
  ok_or (sc_get c id) (EMsg ("no such node '" +:+ id +:+ "'")).

Definition list_remotes (u : user) : io (list Remote) :=
  let top_level_allowed := negb (lookup_privs u ["resource"%string] =? 0) in
  '(remotes, _) ← config;
  mret (omap (M:=list) (λ '(id, value),
          let value := set_token "" value in
          if top_level_allowed || negb (lookup_privs u ["resource"%string; id] =? 0)
          then Some value else None) (sc_iter remotes)).

Definition remote_config (id : string) : io Remote :=
  '(remotes, _) ← config;
  remote ← io_lift (get_remote remotes id);
  mret (set_token "" remote).

Definition set_authid (authid : Authid) (r : Remote) : Remote :=
  mkFullRemote (r_ty r) (r_id r) (r_nodes r) authid (r_token r) (r_web_url r).

(** [create]: connecting to the remote with the credentials of the entry and
    creating a token with that name there; its id and its value.  The metric
    collection and the Ceph detection that are triggered afterwards only log their
    errors. *)
Definition add_remote (entry : Remote) (create_token : option string)
    (create : Remote → string → result error (Authid * string)) : io unit :=
  _ ← lock_config;
  '(remotes, _) ← config;
  match sc_get remotes (r_id entry) with
  | Some _ => io_fail (EMsg ("entry " +:+ quoted (r_id entry) +:+ " already exists"))
  | None =>
      entry ← (match create_token with
               | Some name =>
                   '(authid, token) ← io_lift (create entry name);
                   mret (set_token token (set_authid authid entry))
               | None => mret entry
               end);
      save_config (sc_insert remotes (r_id entry) entry)
  end.

Inductive RemoteDeletableProperty : Type := DelWebUrl.

Definition delete_remote_property (r : Remote) (p : RemoteDeletableProperty) : Remote :=
  match p with
  | DelWebUrl => mkFullRemote (r_ty r) (r_id r) (r_nodes r) (r_authid r) (r_token r) None
  end.

Definition update_entry (updater : RemoteUpdater) (delete : option (list RemoteDeletableProperty)) (r : Remote)
    : Remote :=
  let r := foldl delete_remote_property r (default [] delete) in
  mkFullRemote (r_ty r) (r_id r) (default (r_nodes r) (ru_nodes updater))
    (default (r_authid r) (ru_authid updater)) (default (r_token r) (ru_token updater))
    (match ru_web_url updater with Some url => Some url | None => r_web_url r end).

Definition update_remote `{!ConfigDigests string} (id : string) (updater : RemoteUpdater)
    (delete : option (list RemoteDeletableProperty)) (expected : option digest) : io unit :=
  _ ← lock_config;
  '(remotes, content) ← config;
  match detect_modification (config_digest content) expected with
  | Err _ => io_fail (EMsg "detected modified configuration - file changed by other user? Try again.")
  | Ok _ =>
      match sc_get remotes id with
      | None => io_fail (EMsg ("no such remote " +:+ quoted id))
      | Some _ => save_config (sc_modify remotes id (update_entry updater delete))
      end
  end.

(** [delete]: deleting the token of a remote on that remote; [hook]:
    [ceph::sweep::on_remote_removed], whose errors are logged. *)
Definition remove_remote (id : string) (delete_token : bool)
    (delete : Remote → string → string → result error unit) (hook : string → io unit) : io unit :=
  _ ← lock_config;
  '(remotes, _) ← config;
  _ ← (if delete_token then
         match sc_get remotes id with
         | None => io_fail (EMsg ("no such remote " +:+ quoted id))
         | Some remote =>
             token_name ← io_lift (ok_or (authid_tokenname (r_authid remote))
               (EMsg ("Unable to find the token for the remote " +:+ quoted id)));
             io_lift (delete remote (authid_user (r_authid remote)) token_name)
         end
       else mret tt);
  match sc_get remotes id with
  | None => io_fail (EMsg ("no such entry " +:+ quoted id))
  | Some _ =>
      _ ← save_config (sc_remove remotes id);
      _ ← io_try (hook id);
      mret tt
  end.
End config.

(** ** What is on disk *)

Section lemmas.
Context `{AuthidType} {CR CS : Type} `{SectionConfigData CR Remote} `{SectionText CR}
        `{SectionConfigData CS RemoteShadow} `{SectionText CS}.
Implicit Types (c : CR) (s : CS) (r : Remote) (m : gmap string string).

(** Each remote is stored under its id, which is how the text format works. *)
Definition keys_match c : Prop := ∀ id r, sc_get c id = Some r → r_id r = id.

(** The secret that is used for a remote, and the secret that a configuration
    stands for: what the code reads when nothing fails. *)
Definition secret_of m (id : string) : option string :=
  result_ok (('(c, _) ← config (CR:=CR); r ← io_lift (get_remote c id); get_secret_token (CS:=CS) r) (World m [])).1.
Definition secret_for m c (id : string) : option string :=
  r ← sc_get c id; result_ok (get_secret_token (CS:=CS) r (World m [])).1.

Definition disk_remotes m : option CR := result_ok (parse_section_config (default ""%string (m !! REMOTES_CFG_FILENAME))).
Definition disk_shadow m : option CS := result_ok (parse_section_config (default ""%string (m !! REMOTES_SHADOW_FILENAME))).

Definition remote_on_disk m (id : string) : option Remote := c ← disk_remotes m; sc_get c id.
Definition shadow_on_disk m (id : string) : option RemoteShadow := s ← disk_shadow m; sc_get s id.

Lemma get_secret_token_quiet m r :
  result_ok (get_secret_token (CS:=CS) r (World m [])).1 =
  if String.eqb (r_token r) placeholder then rs_token <$> shadow_on_disk m (r_id r) else Some (r_token r).
Proof.
  unfold get_secret_token, shadow_on_disk, disk_shadow. destruct (String.eqb (r_token r) placeholder); [|done].
  cbn [negb]. unfold shadow_config. rewrite !io_bind_run. cbn. destruct (parse_section_config _); [|done].
  cbn. by destruct (sc_get _ (r_id r)).
Qed.

Lemma secret_of_disk m id :
  secret_of m id =
  r ← remote_on_disk m id; if String.eqb (r_token r) placeholder then rs_token <$> shadow_on_disk m (r_id r) else Some (r_token r).
Proof.
  unfold secret_of, remote_on_disk, disk_remotes, config. rewrite !io_bind_run. cbn.
  destruct (parse_section_config _) as [c|]; [|done]. cbn. rewrite !io_bind_run. cbn. unfold get_remote.
  destruct (sc_get c id) as [r|]; [|done]. rewrite io_bind_run. cbn. apply get_secret_token_quiet.
Qed.

Context `{!SectionConfigLaws CR Remote} `{!SectionConfigLaws CS RemoteShadow}.
Context `{!SectionTextLaws CR Remote} `{!SectionTextLaws CS RemoteShadow}.

Lemma elem_of_new_entries c e :
  e ∈ new_shadow_entries c ↔
  ∃ id r, sc_get c id = Some r ∧ r_token r ≠ placeholder ∧ e = mkShadow (r_ty r) (r_id r) (r_token r).
Proof.
  unfold new_shadow_entries. rewrite list_elem_of_omap. split.
  - intros ([id r]&Hin%sc_iter_get&He). exists id, r. destruct (String.eqb_spec (r_token r) placeholder); naive_solver.
  - intros (id&r&Hin%sc_iter_get&Ht&->). exists (id, r). split; [done|].
    by rewrite (proj2 (String.eqb_neq _ _) Ht).
Qed.

Lemma add_entries_remotes entries c s id :
  sc_get (add_shadow_entries entries c s).1 id =
  if decide (id ∈ rs_id <$> entries) then set_token placeholder <$> sc_get c id else sc_get c id.
Proof.
  unfold add_shadow_entries. revert c s. induction entries as [|e es IH]; intros c s; [done|].
  cbn [foldl]. rewrite IH, sc_get_modify. rewrite fmap_cons.
  destruct (decide (rs_id e = id)) as [Heq|Hne].
  - subst id. rewrite (decide_True (P:=rs_id e ∈ rs_id e :: _)) by left.
    destruct (decide _); [|done]. by destruct (sc_get c (rs_id e)).
  - destruct (decide (id ∈ rs_id <$> es)); [by rewrite decide_True by by right|].
    rewrite decide_False; [done|]. rewrite elem_of_cons. naive_solver.
Qed.

Lemma add_entries_shadow_out entries c s id :
  id ∉ rs_id <$> entries → sc_get (add_shadow_entries entries c s).2 id = sc_get s id.
Proof.
  unfold add_shadow_entries. revert c s. induction entries as [|e es IH]; intros c s Hid; [done|].
  apply not_elem_of_cons in Hid as [Hne Hid]. cbn [foldl]. by rewrite IH, sc_get_insert, decide_False by done.
Qed.

Lemma add_entries_shadow_in entries c s e :
  e ∈ entries → (∀ e', e' ∈ entries → rs_id e' = rs_id e → e' = e) →
  sc_get (add_shadow_entries entries c s).2 (rs_id e) = Some e.
Proof.
  unfold add_shadow_entries. revert c s. induction entries as [|e1 es IH]; intros c s Hin Huniq; [by apply elem_of_nil in Hin|].
  cbn [foldl]. destruct (decide (rs_id e ∈ rs_id <$> es)) as [(e'&Heq&Hin')%list_elem_of_fmap|Hnot].
  - apply IH; [|intros e'' ?; apply Huniq; by right]. by rewrite <-(Huniq e') by (done || by right).
  - apply elem_of_cons in Hin as [<-|Hin].
    + pose proof (add_entries_shadow_out es (sc_modify c (rs_id e) (set_token placeholder))
        (sc_insert s (rs_id e) e) (rs_id e) Hnot) as Hout.
      unfold add_shadow_entries in Hout. by rewrite Hout, sc_get_insert, decide_True.
    + destruct Hnot. by apply list_elem_of_fmap_2.
Qed.

Lemma remove_leftover_get ids s id :
  sc_get (remove_leftover_entries ids s) id = if decide (id ∈ ids) then sc_get s id else None.
Proof.
  unfold remove_leftover_entries.
  assert (∀ keys s, sc_get (foldl (λ s id, if existsb (String.eqb id) ids then s else sc_remove s id) s keys) id =
    if decide (id ∈ ids) then sc_get s id else if decide (id ∈ keys) then None else sc_get s id) as Hgen.
  { induction keys as [|k keys IH]; intros s0; [by destruct (decide _)|]. cbn [foldl]. rewrite IH.
    assert (existsb (String.eqb k) ids = bool_decide (k ∈ ids)) as ->.
    { apply eq_bool_prop_intro. rewrite bool_decide_spec. split.
      - intros (x&Hx%list_elem_of_In&->%String.eqb_eq)%Is_true_true%existsb_exists. done.
      - intros Hk. apply Is_true_true, existsb_exists. exists k. split; [by apply list_elem_of_In|apply String.eqb_refl]. }
    destruct (decide (id ∈ ids)) as [Hid|Hid].
    - case_bool_decide; [done|]. rewrite sc_get_remove, decide_False; [done|]. naive_solver.
    - case_bool_decide as Hk.
      + destruct (decide (id ∈ keys)); [by rewrite decide_True by by right|].
        rewrite (decide_False (P:=id ∈ k :: keys)); [done|]. rewrite elem_of_cons. naive_solver.
      + rewrite sc_get_remove. destruct (decide (k = id)) as [->|].
        * rewrite (decide_True (P:=id ∈ id :: keys)) by left. by destruct (decide (id ∈ keys)).
        * destruct (decide (id ∈ keys)); [by rewrite decide_True by by right|].
          rewrite (decide_False (P:=id ∈ k :: keys)); [done|]. rewrite elem_of_cons. naive_solver. }
  rewrite Hgen. destruct (decide (id ∈ ids)); [done|].
  destruct (decide (id ∈ (sc_iter s).*1)) as [|Hnot]; [done|].
  destruct (sc_get s id) as [e|] eqn:He; [|done]. destruct Hnot. apply sc_iter_get in He.
  apply list_elem_of_fmap. by exists (id, e).
Qed.

(** What [save_config] writes to the two files. *)
Lemma written_remotes c s id :
  keys_match c → sc_get (add_shadow_entries (new_shadow_entries c) c s).1 id = set_token placeholder <$> sc_get c id.
Proof.
  intros Hk. rewrite add_entries_remotes. destruct (decide _) as [|Hnot]; [done|].
  destruct (sc_get c id) as [r|] eqn:Hr; [|done]. simpl. f_equal.
  destruct (String.eqb_spec (r_token r) placeholder) as [Ht|Ht]; [by destruct r; simpl in *; subst|].
  destruct Hnot. apply list_elem_of_fmap. exists (mkShadow (r_ty r) (r_id r) (r_token r)). split; [by rewrite (Hk id r Hr)|].
  apply elem_of_new_entries. by exists id, r.
Qed.

Lemma written_shadow c s id :
  keys_match c →
  sc_get (add_shadow_entries (new_shadow_entries c) c (remove_leftover_entries (sc_iter c).*1 s)).2 id =
  r ← sc_get c id; if String.eqb (r_token r) placeholder then sc_get s id else Some (mkShadow (r_ty r) id (r_token r)).
Proof.
  intros Hk. assert (id ∈ (sc_iter c).*1 ↔ is_Some (sc_get c id)) as Hiter.
  { rewrite list_elem_of_fmap. split.
    - intros ([k r]&->&Hin%sc_iter_get). by eexists.
    - intros [r Hr%sc_iter_get]. by exists (id, r). }
  destruct (decide (id ∈ rs_id <$> new_shadow_entries c)) as [(e&->&He)%list_elem_of_fmap|Hnot].
  - rewrite add_entries_shadow_in; [|done|].
    + apply elem_of_new_entries in He as (k&r&Hr&Ht&->). simpl. rewrite (Hk k r Hr), Hr. simpl.
      by rewrite (proj2 (String.eqb_neq _ _) Ht).
    + intros e' (k'&r'&Hr'&_&->)%elem_of_new_entries Heq. apply elem_of_new_entries in He as (k&r&Hr&_&->).
      simpl in Heq. rewrite (Hk k r Hr), (Hk k' r' Hr') in Heq. by simplify_eq.
  - rewrite add_entries_shadow_out, remove_leftover_get by done.
    destruct (sc_get c id) as [r|] eqn:Hr; [rewrite decide_True by (apply Hiter; eauto)|].
    2: { rewrite decide_False; [done|]. rewrite Hiter. by intros []. }
    simpl. destruct (String.eqb_spec (r_token r) placeholder) as [|Ht]; [done|]. destruct Hnot.
    apply list_elem_of_fmap. exists (mkShadow (r_ty r) (r_id r) (r_token r)). split; [by rewrite (Hk id r Hr)|].
    apply elem_of_new_entries. by exists id, r.
Qed.

(** ** Saving, step by step *)

(** The shadow entry of a remote once the shadow file is written. *)
Definition new_shadow m0 c (id : string) : option RemoteShadow :=
  r ← sc_get c id;
  if String.eqb (r_token r) placeholder then shadow_on_disk m0 id else Some (mkShadow (r_ty r) id (r_token r)).

Record shadow_written m0 c m : Prop := {
  sw_remotes id : remote_on_disk m id = remote_on_disk m0 id;
  sw_shadow id : shadow_on_disk m id = new_shadow m0 c id;
}.
Record config_written m0 c m : Prop := {
  cw_remotes id : remote_on_disk m id = set_token placeholder <$> sc_get c id;
  cw_shadow id : shadow_on_disk m id = new_shadow m0 c id;
}.

Lemma write_shadow_step m0 c s s' raw :
  keys_match c → disk_shadow m0 = Some s → write_section_config s' = Ok raw →
  s' = (add_shadow_entries (new_shadow_entries c) c (remove_leftover_entries (sc_iter c).*1 s)).2 →
  shadow_written m0 c (<[REMOTES_SHADOW_FILENAME := raw]> m0).
Proof.
  intros Hk Hs Hw ->. split; intros id.
  - unfold remote_on_disk, disk_remotes. by rewrite lookup_insert_ne by done.
  - unfold shadow_on_disk at 1, disk_shadow. rewrite lookup_insert_eq. simpl.
    destruct (parse_written _ _ Hw) as (s1&Hp&Hget). rewrite Hp. simpl. rewrite Hget, written_shadow by done.
    unfold new_shadow, shadow_on_disk. by rewrite Hs.
Qed.

Lemma write_config_step m0 c c' s m raw :
  keys_match c → shadow_written m0 c m → write_section_config c' = Ok raw →
  c' = (add_shadow_entries (new_shadow_entries c) c s).1 →
  config_written m0 c (<[REMOTES_CFG_FILENAME := raw]> m).
Proof.
  intros Hk [_ Hsh] Hw ->. split; intros id.
  - unfold remote_on_disk, disk_remotes. rewrite lookup_insert_eq. simpl.
    destruct (parse_written _ _ Hw) as (c1&Hp&Hget). rewrite Hp. simpl. by rewrite Hget, written_remotes.
  - rewrite <-Hsh. unfold shadow_on_disk, disk_shadow. by rewrite lookup_insert_ne by done.
Qed.

Lemma triple_shadow_config m0 :
  triple (λ m, m = m0) (shadow_config (CS:=CS)) (λ s m, m = m0 ∧ disk_shadow m0 = Some s) (λ m, m = m0).
Proof.
  eapply triple_bind; [apply triple_open|]. intros o. apply triple_lift. intros m [-> ->].
  unfold disk_shadow. by destruct (parse_section_config _).
Qed.

Lemma triple_config m0 :
  triple (λ m, m = m0) (config (CR:=CR))
    (λ p m, m = m0 ∧ disk_remotes m0 = Some p.1) (λ m, m = m0).
Proof.
  eapply triple_bind; [apply triple_open|]. intros o.
  eapply (triple_bind _ _ _ (λ c m, m = m0 ∧ disk_remotes m0 = Some c)).
  - apply triple_lift. intros m [-> ->]. unfold disk_remotes. by destruct (parse_section_config _).
  - intros c. apply triple_ret. done.
Qed.

Lemma triple_save_config m0 c :
  keys_match c →
  triple (λ m, m = m0) (save_config (CS:=CS) c) (λ _ m, config_written m0 c m)
    (λ m, m = m0 ∨ shadow_written m0 c m).
Proof.
  intros Hk. unfold save_config.
  eapply triple_bind; [eapply triple_conseq; [apply (triple_shadow_config m0)|done|done|by left]|].
  intros s. cbn zeta. destruct (add_shadow_entries _ _ _) as [c' s'] eqn:Hadd.
  eapply (triple_bind _ _ _ (λ raw m, m = m0 ∧ disk_shadow m0 = Some s ∧ write_section_config s' = Ok raw)).
  { apply triple_lift. intros m [-> Hs]. destruct (write_section_config s'); [done|by left]. }
  intros raw_shadow.
  eapply (triple_bind _ _ _ (λ _ m, shadow_written m0 c m)).
  { apply triple_prim; [by intros m (->&_); left|]. intros m (->&Hs&Hw). eapply write_shadow_step; [done..|]. by rewrite Hadd. }
  intros _. eapply (triple_bind _ _ _ (λ raw m, shadow_written m0 c m ∧ write_section_config c' = Ok raw)).
  { apply triple_lift. intros m Hm. destruct (write_section_config c'); [done|by right]. }
  intros raw. apply triple_prim; [by intros m []; right|]. intros m [Hm Hw].
  eapply write_config_step; [done..|]. by rewrite Hadd.
Qed.

Context (parsed_keys : ∀ m c, disk_remotes m = Some c → keys_match c).

Lemma remote_on_disk_id m id r : remote_on_disk m id = Some r → r_id r = id.
Proof using parsed_keys.
  unfold remote_on_disk. destruct (disk_remotes m) as [c|] eqn:Hc; simpl; [|done]. by apply parsed_keys in Hc; apply Hc.
Qed.

Lemma secret_for_disk m c id :
  keys_match c → secret_for m c id = rs_token <$> new_shadow m c id.
Proof.
  intros Hk. unfold secret_for, new_shadow. destruct (sc_get c id) as [r|] eqn:Hr; [|done]. simpl.
  rewrite get_secret_token_quiet, (Hk id r Hr). by destruct (String.eqb (r_token r) placeholder).
Qed.

Lemma config_written_secret m0 c m id :
  keys_match c → config_written m0 c m → secret_of m id = secret_for m0 c id.
Proof.
  intros Hk [Hr Hs]. rewrite secret_of_disk, secret_for_disk, Hr by done.
  destruct (sc_get c id) as [r|] eqn:Hget.
  - simpl. by rewrite (Hk id r Hget), Hs.
  - simpl. unfold new_shadow. by rewrite Hget.
Qed.

Lemma shadow_written_secret m0 c m id :
  keys_match c → shadow_written m0 c m → is_Some (sc_get c id) →
  secret_of m id = secret_of m0 id ∨ secret_of m id = secret_for m0 c id.
Proof using parsed_keys.
  intros Hk [Hr Hs] [rc Hc]. rewrite !secret_of_disk, secret_for_disk, Hr by done.
  destruct (remote_on_disk m0 id) as [r|] eqn:Hget; simpl; [|by left].
  rewrite (remote_on_disk_id m0 id r Hget), Hs.
  destruct (String.eqb (r_token r) placeholder); [by right|by left].
Qed.
End lemmas.

(** The section id of a remote is its [id] property. *)
Class RemoteTextLaws (CR : Type) `{AuthidType} `{SectionConfigData CR Remote} `{SectionText CR} : Prop :=
  parsed_keys m c : disk_remotes (CR:=CR) m = Some c → keys_match c.

(** C9: saving the remotes survives a failure or a crash at any point.  After a
    successful run the secret of every remote is the one the new configuration
    stands for (a fresh token, or the stored secret behind the placeholder) and
    [remotes.cfg] holds placeholders only.  After a failed run every remote that
    the new configuration keeps still has a secret: its previous one or its new
    one. *)
Theorem save_config_crash_safe `{AuthidType} {CR CS : Type}
    `{SectionConfigLaws CR Remote} `{!SectionText CR} `{!SectionTextLaws CR Remote} `{!RemoteTextLaws CR}
    `{SectionConfigLaws CS RemoteShadow} `{!SectionText CS} `{!SectionTextLaws CS RemoteShadow} (c : CR) (w : world) :
  keys_match c →
  let secret := secret_of (CR:=CR) (CS:=CS) in
  let '(res, w') := save_config (CS:=CS) c w in
  match res with
  | Ok _ => ∀ id, secret (files w') id = secret_for (CS:=CS) (files w) c id ∧
                  ∀ r, remote_on_disk (CR:=CR) (files w') id = Some r → r_token r = placeholder
  | Err _ => ∀ id, is_Some (sc_get c id) →
                   secret (files w') id = secret (files w) id ∨
                   secret (files w') id = secret_for (CS:=CS) (files w) c id
  end.
Proof.
  intros Hk secret. pose proof (triple_save_config (CR:=CR) (CS:=CS) (files w) c Hk w eq_refl) as Ht.
  destruct (save_config c w) as [[[]|e] w'].
  - intros id. split; [by apply config_written_secret|]. intros r. rewrite (cw_remotes _ _ _ Ht).
    destruct (sc_get c id); simpl; [|done]. by intros [= <-].
  - intros id Hid. destruct Ht as [->|Ht]; [by left|]. by apply shadow_written_secret; first apply parsed_keys.
Qed.

(** ** Requests *)

Section requests.
Context `{AuthidType} {CR CS : Type} `{SectionConfigData CR Remote} `{SectionText CR}
        `{SectionConfigData CS RemoteShadow} `{SectionText CS} `{ConfigDigests string}.
Context (create : Remote → string → result error (Authid * string))
        (delete_token_on : Remote → string → string → result error unit)
        (hook : string → io unit).

Inductive remote_request : Type :=
| ReqAddRemote (entry : Remote) (create_token : option string)
| ReqUpdateRemote (id : string) (updater : RemoteUpdater) (delete : option (list RemoteDeletableProperty))
    (expected : option digest)
| ReqRemoveRemote (id : string) (delete_token : bool).

Definition request_remote (q : remote_request) : string :=
  match q with
  | ReqAddRemote entry _ => r_id entry
  | ReqUpdateRemote id _ _ _ => id
  | ReqRemoveRemote id _ => id
  end.

Definition handle_remote_request (q : remote_request) : io unit :=
  match q with
  | ReqAddRemote entry create_token => add_remote (CR:=CR) (CS:=CS) entry create_token create
  | ReqUpdateRemote id updater delete expected => update_remote (CR:=CR) (CS:=CS) id updater delete expected
  | ReqRemoveRemote id delete_token => remove_remote (CR:=CR) (CS:=CS) id delete_token delete_token_on hook
  end.
End requests.

(** The two files with the remotes stay as they are. *)
Definition keeps_remotes (m m' : gmap string string) : Prop :=
  m' !! REMOTES_CFG_FILENAME = m !! REMOTES_CFG_FILENAME ∧
  m' !! REMOTES_SHADOW_FILENAME = m !! REMOTES_SHADOW_FILENAME.

Section isolation.
Context `{AuthidType} {CR CS : Type} `{SectionConfigLaws CR Remote} `{!SectionText CR}
        `{!SectionTextLaws CR Remote} `{!RemoteTextLaws CR}
        `{SectionConfigLaws CS RemoteShadow} `{!SectionText CS} `{!SectionTextLaws CS RemoteShadow}.
Implicit Types (m : gmap string string) (c : CR).

(** Another remote keeps its settings and its secret; its token may have moved to
    the shadow file. *)
Definition others_kept (id : string) m0 m : Prop :=
  ∀ id', id' ≠ id →
    secret_of (CR:=CR) (CS:=CS) m id' = secret_of (CR:=CR) (CS:=CS) m0 id' ∧
    set_token placeholder <$> remote_on_disk (CR:=CR) m id' = set_token placeholder <$> remote_on_disk (CR:=CR) m0 id'.

Lemma others_kept_refl id m : others_kept id m m.
Proof. done. Qed.

Lemma others_kept_files id m0 m m' : others_kept id m0 m → keeps_remotes m m' → others_kept id m0 m'.
Proof.
  intros Ho [Hf1 Hf2] id' Hne. destruct (Ho id' Hne) as [Hs Hr]. split.
  - rewrite <-Hs, !secret_of_disk. unfold remote_on_disk, disk_remotes, shadow_on_disk, disk_shadow. by rewrite Hf1, Hf2.
  - rewrite <-Hr. unfold remote_on_disk, disk_remotes. by rewrite Hf1.
Qed.

Lemma agree_secret id m0 c0 c :
  disk_remotes m0 = Some c0 → (∀ id', id' ≠ id → sc_get c id' = sc_get c0 id') →
  ∀ id', id' ≠ id → secret_for (CS:=CS) m0 c id' = secret_of (CR:=CR) (CS:=CS) m0 id'.
Proof.
  intros Hc0 Hagree id' Hne. unfold secret_for. rewrite (Hagree id' Hne), secret_of_disk.
  unfold remote_on_disk. rewrite Hc0. simpl. destruct (sc_get c0 id') as [r|]; [|done]. simpl.
  apply get_secret_token_quiet.
Qed.

Lemma triple_save_isolated id m0 c0 c :
  disk_remotes m0 = Some c0 → keys_match c → (∀ id', id' ≠ id → sc_get c id' = sc_get c0 id') →
  triple (λ m, m = m0) (save_config (CS:=CS) c) (λ _ m, others_kept id m0 m) (λ m, others_kept id m0 m).
Proof.
  intros Hc0 Hk Hagree. eapply triple_conseq; [exact (triple_save_config m0 c Hk)|done|..].
  - intros u m Hm id' Hne. rewrite (config_written_secret m0 c m id' Hk Hm), (agree_secret id m0 c0 c) by done.
    split; [done|]. rewrite (cw_remotes _ _ _ Hm), (Hagree id' Hne). unfold remote_on_disk. rewrite Hc0. simpl.
    by destruct (sc_get c0 id').
  - intros m [->|Hm]; [apply others_kept_refl|]. intros id' Hne. rewrite (sw_remotes _ _ _ Hm). split; [|done].
    destruct (sc_get c id') as [r|] eqn:Hr.
    + destruct (shadow_written_secret parsed_keys m0 c m id' Hk Hm) as [->| ->]; [by rewrite Hr; eexists|done|].
      by apply (agree_secret id m0 c0 c).
    + rewrite !secret_of_disk, (sw_remotes _ _ _ Hm). unfold remote_on_disk. rewrite Hc0. simpl.
      by rewrite <-(Hagree id' Hne), Hr.
Qed.

Lemma update_entry_id updater delete r : r_id (update_entry updater delete r) = r_id r.
Proof.
  unfold update_entry. simpl. revert r. induction (default [] delete) as [|[] l IH]; intros r; simpl; [done|]. by rewrite IH.
Qed.

(** A handler locks, reads the remotes and goes on; reading changes nothing. *)
Lemma triple_locked_config {A} id m0 (k : CR * string → io A) :
  (∀ p, disk_remotes m0 = Some p.1 → triple (λ m, m = m0) (k p) (λ _ m, others_kept id m0 m) (λ m, others_kept id m0 m)) →
  triple (λ m, m = m0) (_ ← lock_config; p ← config; k p) (λ _ m, others_kept id m0 m) (λ m, others_kept id m0 m).
Proof.
  intros Hk. eapply (triple_bind _ _ _ (λ _ m, m = m0)).
  { eapply triple_conseq; [exact (triple_sync m0)|done|done|]. intros m ->. apply others_kept_refl. }
  intros _. eapply (triple_bind _ _ _ (λ p m, m = m0 ∧ disk_remotes m0 = Some p.1)).
  { eapply triple_conseq; [exact (triple_config (CR:=CR) m0)|done|done|]. intros m ->. apply others_kept_refl. }
  intros p. by apply triple_pure, Hk.
Qed.

Lemma triple_stop {A} id m0 (e : error) Q :
  triple (λ m, m = m0) (io_fail (A:=A) e) Q (λ m, others_kept id m0 m).
Proof. intros w <-. apply others_kept_refl. Qed.

(** Steps that leave the files alone: they fail, or the handler goes on. *)
Lemma triple_skip_to {A B} id m0 (r : result error A) (k : A → io B) Q :
  (∀ a, r = Ok a → triple (λ m, m = m0) (k a) Q (λ m, others_kept id m0 m)) →
  triple (λ m, m = m0) (io_lift r ≫= k) Q (λ m, others_kept id m0 m).
Proof.
  intros Hk w <-. rewrite io_bind_run. unfold io_lift. destruct r as [a|e]; [|apply others_kept_refl].
  by apply (Hk a eq_refl).
Qed.

Lemma add_remote_isolated m0 entry create_token create :
  triple (λ m, m = m0) (add_remote (CR:=CR) (CS:=CS) entry create_token create)
    (λ _ m, others_kept (r_id entry) m0 m) (λ m, others_kept (r_id entry) m0 m).
Proof.
  apply triple_locked_config. intros [c0 content] Hc0. simpl in Hc0.
  destruct (sc_get c0 (r_id entry)) as [|]; [apply triple_stop|].
  assert (∀ e, r_id e = r_id entry →
    triple (λ m, m = m0) (save_config (CS:=CS) (sc_insert c0 (r_id e) e))
      (λ _ m, others_kept (r_id entry) m0 m) (λ m, others_kept (r_id entry) m0 m)) as Hsave.
  { intros e He. apply triple_save_isolated with c0; [done|..].
    - intros id r. rewrite sc_get_insert. destruct (decide _) as [<-|]; [by intros [= <-]|by apply (parsed_keys m0)].
    - intros id' Hne. rewrite sc_get_insert, decide_False; [done|congruence]. }
  eapply (triple_bind _ _ _ (λ e m, m = m0 ∧ r_id e = r_id entry)).
  - destruct create_token as [name|]; [|by apply triple_ret].
    apply triple_skip_to. intros [authid token] _. by apply triple_ret.
  - intros e. apply triple_pure. apply Hsave.
Qed.

Lemma update_remote_isolated `{!ConfigDigests string} m0 id updater delete expected :
  triple (λ m, m = m0) (update_remote (CR:=CR) (CS:=CS) id updater delete expected)
    (λ _ m, others_kept id m0 m) (λ m, others_kept id m0 m).
Proof.
  apply triple_locked_config. intros [c0 content] Hc0. simpl in Hc0.
  destruct (detect_modification _ _); [|apply triple_stop].
  destruct (sc_get c0 id) as [r0|] eqn:Hr0; [|apply triple_stop].
  apply triple_save_isolated with c0; [done|..].
  - intros id' r. rewrite sc_get_modify. destruct (decide _) as [<-|]; [|by apply (parsed_keys m0)].
    rewrite Hr0. intros [= <-]. rewrite update_entry_id. by apply (parsed_keys m0 c0 Hc0).
  - intros id' Hne. by rewrite sc_get_modify, decide_False.
Qed.

Lemma remove_remote_isolated m0 id delete_token delete hook :
  (∀ id, io_rel keeps_remotes (hook id)) →
  triple (λ m, m = m0) (remove_remote (CR:=CR) (CS:=CS) id delete_token delete hook)
    (λ _ m, others_kept id m0 m) (λ m, others_kept id m0 m).
Proof.
  intros Hhook. apply triple_locked_config. intros [c0 content] Hc0. simpl in Hc0.
  eapply (triple_bind _ _ _ (λ _ m, m = m0)).
  { destruct delete_token; [|by apply triple_ret]. destruct (sc_get c0 id); [|apply triple_stop].
    apply triple_skip_to. intros name _. apply triple_lift. intros m ->.
    destruct (delete _ _ _); [done|apply others_kept_refl]. }
  intros _. destruct (sc_get c0 id) as [r0|] eqn:Hr0; [|apply triple_stop].
  eapply triple_bind.
  { apply triple_save_isolated with c0; [done|..].
    - intros id' r. rewrite sc_get_remove. destruct (decide _); [done|by apply (parsed_keys m0)].
    - intros id' Hne. by rewrite sc_get_remove, decide_False. }
  intros _ w Hw. rewrite io_bind_run. unfold io_try. specialize (Hhook id w).
  destruct (hook id w) as [r w']. simpl in *. by eapply others_kept_files.
Qed.
End isolation.

(** A request about one remote never affects another.  Whatever is added,
    updated or removed and wherever the run fails or crashes, every other remote
    keeps its settings and its secret. *)
Theorem remotes_isolated `{AuthidType} {CR CS : Type}
    `{SectionConfigLaws CR Remote} `{!SectionText CR} `{!SectionTextLaws CR Remote} `{!RemoteTextLaws CR}
    `{SectionConfigLaws CS RemoteShadow} `{!SectionText CS} `{!SectionTextLaws CS RemoteShadow} `{ConfigDigests string}
    create delete_token_on hook (q : remote_request) (w : world) (id : string) :
  (∀ id, io_rel keeps_remotes (hook id)) → id ≠ request_remote q →
  let w' := (handle_remote_request (CR:=CR) (CS:=CS) create delete_token_on hook q w).2 in
  secret_of (CR:=CR) (CS:=CS) (files w') id = secret_of (CR:=CR) (CS:=CS) (files w) id ∧
  set_token placeholder <$> remote_on_disk (CR:=CR) (files w') id =
  set_token placeholder <$> remote_on_disk (CR:=CR) (files w) id.
Proof.
  intros Hhook Hne w'.
  assert (others_kept (CR:=CR) (CS:=CS) (request_remote q) (files w) (files w')) as Ho; [|by apply Ho].
  assert (triple (λ m, m = files w) (handle_remote_request (CR:=CR) (CS:=CS) create delete_token_on hook q)
    (λ _ m, others_kept (CR:=CR) (CS:=CS) (request_remote q) (files w) m)
    (λ m, others_kept (CR:=CR) (CS:=CS) (request_remote q) (files w) m)) as Ht.
  { destruct q; [apply add_remote_isolated|apply update_remote_isolated|by apply remove_remote_isolated]. }
  specialize (Ht w eq_refl). unfold w'. by destruct (handle_remote_request _ _ _ q w) as [[]].
Qed.

(** The listing shows a user the remotes he has some privilege on, without
    their secrets. *)
Theorem list_remotes_access `{AuthidType} {CR : Type} `{SectionConfigLaws CR Remote} `{!SectionText CR}
    (u : user) (m : gmap string string) (l : list Remote) (w' : world) :
  list_remotes (CR:=CR) u (World m []) = (Ok l, w') →
  ∀ x, x ∈ l → r_token x = ""%string ∧
    ∃ id r, remote_on_disk (CR:=CR) m id = Some r ∧ x = set_token "" r ∧
      (lookup_privs u ["resource"%string] ≠ 0 ∨ lookup_privs u ["resource"%string; id] ≠ 0).
Proof.
  intros Hl x Hx. unfold list_remotes, config in Hl. rewrite !io_bind_run in Hl. cbn in Hl.
  unfold remote_on_disk, disk_remotes. destruct (parse_section_config _) as [c|]; [|done].
  rewrite io_bind_run in Hl. injection Hl as <- <-. apply list_elem_of_omap in Hx as ([id r]&Hin%sc_iter_get&Hx).
  destruct (_ || _) eqn:Hp; simplify_eq. split; [done|]. exists id, r. simpl. split_and!; [done..|].
  apply orb_true_iff in Hp as [Hp|Hp]; apply negb_true_iff, Z.eqb_neq in Hp; auto.
Qed.

Module RemotesDemo.
#[local] Instance auth : AuthidType := {| Authid := string; authid_user a := a; authid_tokenname _ := None |}.

#[local] Instance node_eq_dec : EqDecision NodeUrl.
Proof. solve_decision. Defined.
#[local] Instance node_countable : Countable NodeUrl.
Proof.
  refine (inj_countable' (λ n, (nu_hostname n, nu_fingerprint n)) (λ '(h, f), mkNodeUrl h f) _). by intros [].
Defined.
#[local] Instance remote_eq_dec : EqDecision Remote.
Proof. solve_decision. Defined.
#[local] Instance remote_countable : Countable Remote.
Proof.
  refine (inj_countable' (λ r, (r_ty r, r_id r, r_nodes r, (r_authid r : string), r_token r, r_web_url r))
    (λ '(ty, id, nodes, a, t, u), mkFullRemote ty id nodes a t u) _). by intros [].
Defined.
#[local] Instance shadow_eq_dec : EqDecision RemoteShadow.
Proof. solve_decision. Defined.
#[local] Instance shadow_countable : Countable RemoteShadow.
Proof.
  refine (inj_countable' (λ s, (rs_ty s, rs_id s, rs_token s)) (λ '(ty, id, t), mkShadow ty id t) _). by intros [].
Defined.

(** A text format for finite maps: the bits of their encoding. *)
Section text.
Context {E : Type} `{Countable E} (id : E → string).
Definition gmap_text : SectionText (gmap string E) := {|
  parse_section_config s :=
    if String.eqb s "" then Ok ∅
    else m ← ok_or (decode (of_bits s)) EInvalid;
         if bool_decide (map_Forall (λ k e, id e = k) m) then Ok m else Err EInvalid;
  write_section_config m :=
    if bool_decide (map_Forall (λ k e, id e = k) m) then Ok (bits (encode m)) else Err EInvalid;
|}.

Lemma gmap_text_keys s (m : gmap string E) k e :
  (gmap_text.(parse_section_config) s : result error _) = Ok m → m !! k = Some e → id e = k.
Proof.
  simpl. destruct (String.eqb s ""); [by intros [= <-]|]. destruct (decode _) as [m'|]; simpl; [|done].
  case_bool_decide as Hm; [|done]. intros [= <-]. apply Hm.
Qed.

Lemma gmap_text_laws : @SectionTextLaws (gmap string E) E gmap_config gmap_text.
Proof.
  split. intros m raw. simpl. case_bool_decide as Hm; [|done]. intros [= <-].
  destruct (String.eqb_spec (bits (encode m)) "") as [Hnil|_].
  - exists ∅. split; [done|]. intros k. apply (f_equal of_bits) in Hnil. rewrite of_bits_bits in Hnil.
    assert (decode (A:=gmap string E) 1%positive = Some m) as Hd by (change 1%positive with (of_bits ""); rewrite <-Hnil; apply decode_encode).
    assert (decode (A:=gmap string E) 1%positive = Some ∅) as He by (vm_compute; done). congruence.
  - exists m. rewrite of_bits_bits, decode_encode. simpl. by rewrite bool_decide_true.
Qed.
End text.

Definition remotes : Type := gmap string Remote.
Definition shadows : Type := gmap string RemoteShadow.
#[local] Instance remotes_config : SectionConfigData remotes Remote := gmap_config.
#[local] Instance remotes_laws : SectionConfigLaws remotes Remote := gmap_config_laws.
#[local] Instance remotes_text : SectionText remotes := gmap_text r_id.
#[local] Instance remotes_text_laws : SectionTextLaws remotes Remote := gmap_text_laws r_id.
#[local] Instance shadows_config : SectionConfigData shadows RemoteShadow := gmap_config.
#[local] Instance shadows_laws : SectionConfigLaws shadows RemoteShadow := gmap_config_laws.
#[local] Instance shadows_text : SectionText shadows := gmap_text rs_id.
#[local] Instance shadows_text_laws : SectionTextLaws shadows RemoteShadow := gmap_text_laws rs_id.
#[local] Instance content_digests : ConfigDigests string :=
  {| digest := string; digest_dec := _; config_digest c := c |}.

#[local] Instance remotes_keys : RemoteTextLaws remotes.
Proof.
  intros m c Hc id r Hr. unfold disk_remotes in Hc.
  destruct (parse_section_config _) as [c'|] eqn:Hp; [|done]. injection Hc as <-.
  exact (gmap_text_keys r_id _ _ _ _ Hp Hr).
Qed.

Definition pve1 : Remote := mkFullRemote RemoteType.Pve "pve1" [mkNodeUrl "10.0.0.1" None] "root@pam!pdm"%string "s3" None.
Definition pbs1 : Remote := mkFullRemote RemoteType.Pbs "pbs1" [mkNodeUrl "10.0.0.2" None] "root@pam!pdm"%string "s4" None.

Definition secret := secret_of (CR:=remotes) (CS:=shadows).
Definition handle_request := handle_remote_request (CR:=remotes) (CS:=shadows) (λ _ _, Err EIo) (λ _ _ _, Err EIo) (λ _, mret tt).

(** Both remotes, with their secrets in the shadow file. *)
Definition both : gmap string string :=
  files (handle_request (ReqAddRemote pbs1 None) (handle_request (ReqAddRemote pve1 None) (World ∅ [])).2).2.

Definition only_pve1 : remotes := {["pve1"%string := pve1]}.

Lemma only_pve1_keys : keys_match only_pve1.
Proof.
  intros id r Hr. change (({["pve1"%string := pve1]} : gmap string Remote) !! id = Some r) in Hr.
  by apply lookup_singleton_Some in Hr as [<- <-].
Qed.

Lemma save_config_crash_safe_witness :
  match save_config (CS:=shadows) only_pve1 (World ∅ []) with
  | (Ok _, w') =>
      secret_of (CR:=remotes) (CS:=shadows) (files w') "pve1" = secret_for (CS:=shadows) ∅ only_pve1 "pve1"
  | (Err _, _) => False
  end.
Proof.
  pose proof (save_config_crash_safe (CS:=shadows) only_pve1 (World ∅ []) only_pve1_keys) as Hsafe.
  assert (is_Some (result_ok (save_config (CS:=shadows) only_pve1 (World ∅ [])).1)) as Hok by (vm_compute; eauto).
  destruct (save_config (CS:=shadows) only_pve1 (World ∅ [])) as [[u|e] w'].
  - exact (proj1 (Hsafe "pve1"%string)).
  - destruct Hok as [u Hu]. discriminate Hu.
Defined.

(** Removing [pve1] fails after the shadow file was written: [pbs1] is fine. *)
Lemma remotes_isolated_witness :
  let w' := (handle_remote_request (CR:=remotes) (CS:=shadows) (λ _ _, Err EIo) (λ _ _ _, Err EIo) (λ _, mret tt)
    (ReqRemoveRemote "pve1" false) (World both [false; false; false; false; true])).2 in
  secret_of (CR:=remotes) (CS:=shadows) (files w') "pbs1" = secret_of (CR:=remotes) (CS:=shadows) both "pbs1".
Proof.
  exact (proj1 (remotes_isolated (CR:=remotes) (CS:=shadows) (λ _ _, Err EIo) (λ _ _ _, Err EIo) (λ _, mret tt)
    (ReqRemoveRemote "pve1" false) (World both [false; false; false; false; true]) "pbs1"%string
    (λ id w, conj eq_refl eq_refl) (λ H : "pbs1"%string = "pve1"%string, ltac:(discriminate H)))).
Defined.

(** Removing a remote drops its secret from the shadow file before it drops the
    remote from [remotes.cfg]: when the second step fails, the remote is still
    configured, without a secret. *)
Theorem failed_removal_loses_secret :
  secret both "pve1" = Some "s3"%string ∧
  let '(res, w') := handle_request (ReqRemoveRemote "pve1" false) (World both [false; false; false; false; true]) in
  res = Err EIo ∧ is_Some (remote_on_disk (CR:=remotes) (files w') "pve1") ∧ secret (files w') "pve1" = None.
Proof. split; [vm_compute; done|]. vm_compute. split_and!; [done| |done]. by eexists. Qed.
End RemotesDemo.
