(* ===== verification/JsonValue.v ===== *)
(** * JSON values and requests to remotes

    What the code uses of [serde_json::Value], of the string functions of the
    standard library, and of the raw API client of a PVE remote
    ([raw_client_to_remote_by_id] in [server/src/api/pve/mod.rs]).

    An object is the list of its members in iteration order.  A number is an
    integer or the text of a number that is none.  The class [RemoteWorld] stands
    for everything outside of the process: the configured remotes, the resource
    lists and the answers of the remotes, which may change with every request. *)

From S2P Require Import Prelude FileSystem RemoteUpid SectionConfig Resource Search RemotesConfig RemoteData.

Inductive Number : Type :=
| NInt (z : Z)
| NFloat (text : string).

Inductive Value : Type :=
| VNull
| VBool (b : bool)
| VNumber (n : Number)
| VString (s : string)
| VArray (l : list Value)
| VObject (m : list (string * Value)).

Definition Map : Type := list (string * Value).

(** [Map::get] and [Value::get] with a string. *)
Fixpoint map_get (m : Map) (key : string) : option Value :=
  match m with
  | [] => None
  | (k, v) :: m' => if String.eqb k key then Some v else map_get m' key
  end.
Definition get (v : Value) (key : string) : option Value :=
  match v with VObject m => map_get m key | _ => None end.

(** [payload[key] = v] for an object. *)
Fixpoint map_set (m : Map) (key : string) (v : Value) : Map :=
  match m with
  | [] => [(key, v)]
  | (k, v') :: m' => if String.eqb k key then (key, v) :: m' else (k, v') :: map_set m' key v
  end.

Definition as_str (v : Value) : option string := match v with VString s => Some s | _ => None end.
Definition number_to_string (n : Number) : string := match n with NInt z => show_Z z | NFloat s => s end.
Definition number_as_i64 (n : Number) : option Z :=
  match n with NInt z => if in_i64 z then Some z else None | NFloat _ => None end.

(** [Display] for a value, with the text of strings, arrays and objects left to
    [serde_json]. *)
Class ValueText := compound_to_string : Value → string.
Definition value_to_string `{ValueText} (v : Value) : string :=
  match v with
  | VNull => "null"
  | VBool b => if b then "true" else "false"
  | VNumber n => number_to_string n
  | v => compound_to_string v
  end.

(** ** Strings *)

(** [str::trim_start]: white space is dropped character by character. *)
Fixpoint trim_start_fuel (fuel : nat) (s : string) : string :=
  match fuel with
  | O => s
  | S fuel =>
      match ws_len s with
      | O => s
      | n => trim_start_fuel fuel (String.substring n (String.length s - n) s)
      end
  end.
Definition trim_start (s : string) : string := trim_start_fuel (String.length s) s.

(** What is left when everything behind a position is white space. *)
Fixpoint trim_end (s : string) : string :=
  match s with
  | EmptyString => ""
  | String a s' => if String.eqb (trim_start s) "" then "" else String a (trim_end s')
  end.
Definition trim (s : string) : string := trim_end (trim_start s).

Definition comma (a : ascii) : bool := Ascii.eqb a ",".
Definition split_comma (s : string) : list string := str_split comma s.

(** [str::parse::<u32>] and [::<u16>]: no minus sign. *)
Definition parse_unsigned (bits : Z) (s : string) : option Z :=
  if starts_with "-" s then None
  else z ← parse_Z s; if (0 <=? z) && (z <? 2 ^ bits) then Some z else None.

Definition ascii_lower (a : ascii) : ascii :=
  if byte_between 65 90 a then ascii_of_N (Ascii.N_of_ascii a + 32) else a.
Fixpoint to_ascii_lowercase (s : string) : string :=
  match s with EmptyString => "" | String a s' => String (ascii_lower a) (to_ascii_lowercase s') end.
Definition eq_ignore_ascii_case (s t : string) : bool := String.eqb (to_ascii_lowercase s) (to_ascii_lowercase t).

(** ** Requests *)

Inductive Method : Type := GET | PUT | POST | DELETE.

(** [rw_connect] is [connection::make_raw_client]; [rw_send] sends a request and
    decodes the data of the answer ([expect_json]), [rw_send_nodata] expects an
    answer without data ([nodata]). *)
Class RemoteWorld (W : Type) `{AuthidType} := {
  rw_remotes : W → result error (list (string * Remote));
  rw_secret_token : W → Remote → result error string;
  rw_guests : W → result error (list CachedGuest) * W;
  rw_connect : W → Remote → result error unit;
  rw_send : Method → string → string → option Value → W → result error Value * W;
  rw_send_nodata : Method → string → string → option Value → W → result error unit * W;
}.

(** Computations that talk to remotes and may fail. *)
Definition net (W A : Type) : Type := W → result error A * W.
#[export] Instance net_ret {W} : MRet (net W) := λ A a w, (Ok a, w).
#[export] Instance net_bind {W} : MBind (net W) := λ A B k c w,
  match c w with
  | (Ok a, w') => k a w'
  | (Err e, w') => (Err e, w')
  end.
Definition net_lift {W A} (r : result error A) : net W A := λ w, (r, w).
Definition net_fail {W A} (e : error) : net W A := λ w, (Err e, w).
(** [match c.await { Ok(..) => .., Err(err) => .. }] *)
Definition net_try {W A} (c : net W A) : net W (result error A) := λ w, let '(r, w') := c w in (Ok r, w').

Lemma net_bind_run {W A B} (c : net W A) (k : A → net W B) w :
  (c ≫= k) w = match c w with (Ok a, w') => k a w' | (Err e, w') => (Err e, w') end.
Proof. done. Qed.

Section client.
Context {W : Type} `{RemoteWorld W}.

Definition remotes_config : net W (list (string * Remote)) := λ w, (rw_remotes w, w).

Definition lookup_remote (remotes : list (string * Remote)) (id : string) : option Remote :=
  snd <$> List.find (λ '(k, _), String.eqb k id) remotes.

(** [get_remote] of [api/remotes/mod.rs] and, per product, of [api/pve/mod.rs] and
    [pbs_client.rs]. *)
Definition get_remote_of (ty : RemoteType.t) (remotes : list (string * Remote)) (id : string) : result error Remote :=
  remote ← ok_or (lookup_remote remotes id) (EMsg ("no such node '" +:+ id +:+ "'"));
  _ ← bail_if (negb (bool_decide (r_ty remote = ty)))
        (EMsg ("remote " +:+ quoted id +:+ " is not a " +:+ RemoteType.to_string ty +:+ " remote"));
  Ok remote.

Definition make_raw_client (remote : Remote) : net W unit := λ w, (rw_connect w remote, w).

Definition raw_client_to_remote_by_id (id : string) : net W unit :=
  remotes ← remotes_config;
  remote ← net_lift (get_remote_of RemoteType.Pve remotes id);
  make_raw_client remote.

Definition send (method : Method) (remote path : string) (payload : option Value) : net W Value :=
  rw_send method remote path payload.
Definition send_nodata (method : Method) (remote path : string) (payload : option Value) : net W unit :=
  rw_send_nodata method remote path payload.
End client.

(** ** Lemmas *)

Lemma map_get_set m k v k' : map_get (map_set m k v) k' = if String.eqb k k' then Some v else map_get m k'.
Proof.
  induction m as [|[k1 v1] m IH]; simpl; [done|].
  destruct (String.eqb_spec k1 k) as [->|Hne]; simpl; [by destruct (String.eqb k k')|].
  rewrite IH. destruct (String.eqb_spec k1 k') as [->|]; [|done].
  by rewrite (proj2 (String.eqb_neq k k')) by congruence.
Qed.

Lemma split_comma_nonempty s : split_comma s ≠ [].
Proof.
  unfold split_comma. induction s as [|a s IH]; simpl; [done|].
  destruct (comma a); [done|]. by destruct (str_split comma s).
Qed.

Lemma split_comma_single s : char_in "," s = false → split_comma s = [s].
Proof.
  unfold split_comma. induction s as [|a s IH]; simpl; [done|].
  intros [Ha Hs]%orb_false_iff. unfold comma at 1. rewrite Ascii.eqb_sym, Ha. by rewrite IH.
Qed.

Lemma split_comma_app s t : char_in "," s = false → split_comma (s +:+ String "," t) = s :: split_comma t.
Proof.
  unfold split_comma. induction s as [|a s IH]; simpl; [done|].
  intros [Ha Hs]%orb_false_iff. unfold comma at 1. rewrite Ascii.eqb_sym, Ha. by rewrite IH.
Qed.

(** Splitting undoes joining. *)
Lemma split_comma_join l :
  Forall (λ s, char_in "," s = false) l → l ≠ [] → split_comma (str_join "," l) = l.
Proof.
  induction l as [|s [|t l] IH]; intros Hl Hne; [done|..].
  - simpl. apply split_comma_single. by inversion Hl.
  - change (str_join "," (s :: t :: l)) with (s +:+ "," +:+ str_join "," (t :: l)).
    inversion Hl as [|?? Hs Hrest]; subst. simpl String.append. rewrite (split_comma_app s _ Hs). f_equal. by apply IH.
Qed.

Lemma split_comma_no_comma s : Forall (λ t, char_in "," t = false) (split_comma s).
Proof.
  unfold split_comma. induction s as [|a s IH]; simpl; [by repeat constructor|].
  destruct (comma a) eqn:Ha; [by constructor|].
  destruct (str_split comma s) as [|w rest]; [constructor; [|done]|].
  all: unfold comma in Ha; rewrite Ascii.eqb_sym in Ha; simpl.
  - by rewrite Ha.
  - inversion IH; subst. constructor; [|done]. simpl. by rewrite Ha.
Qed.

Lemma parse_unsigned_show b z : 0 ≤ z < 2 ^ b → parse_unsigned b (show_Z z) = Some z.
Proof.
  intros Hz. unfold parse_unsigned. rewrite show_nonneg_no_minus by lia. rewrite parse_show_Z. simpl.
  by rewrite (proj2 (Z.leb_le 0 z)), (proj2 (Z.ltb_lt z (2 ^ b))) by lia.
Qed.

Lemma show_Z_no_char c z : int_char c = false → char_in c (show_Z z) = false.
Proof. apply str_forall_not_in, show_Z_chars. Qed.
