(* ===== verification/StorageSync.v ===== *)
(** * Propagating a PBS datastore to the PVE remotes

    Model of [server/src/api/pbs/storage_sync.rs]: which storages of a PVE remote
    point at a datastore of a backup server, and attaching a datastore as a storage
    to a selection of remotes.  The error texts of the results are kept as the
    errors they are printed from. *)

From S2P Require Import Prelude FileSystem RemoteUpid SectionConfig Resource RemotesConfig RemoteData JsonValue.

(** ** The address of a node *)

(** [str::rsplit_once] *)
Fixpoint rsplit_once (c : ascii) (s : string) : option (string * string) :=
  match s with
  | EmptyString => None
  | String a s' =>
      match rsplit_once c s' with
      | Some (p, q) => Some (String a p, q)
      | None => if Ascii.eqb a c then Some (""%string, s') else None
      end
  end.

Definition parse_u16 : string → option Z := parse_unsigned 16.

Definition split_host_port (hostname : string) : string * option Z :=
  let plain :=
    match rsplit_once ":" hostname with
    | Some (address, port) =>
        match parse_u16 port with
        | Some port => (address, Some port)
        | None => (hostname, None)
        end
    | None => (hostname, None)
    end in
  match strip_prefix "[" hostname with
  | Some rest =>
      match split_once "]" rest with
      | Some (address, rest) => (address, port ← strip_prefix ":" rest; parse_u16 port)
      | None => plain
      end
  | None => plain
  end.

Record PbsConnectionInfo : Type := mkInfo {
  ci_server : string;
  ci_port : option Z;
  ci_fingerprint : option string;
  ci_username : string;
  ci_password : string;
}.

Record PbsAttachRequest : Type := mkAttach {
  ar_datastore : string;
  ar_storage : string;
  ar_pve_remotes : list string;
  ar_namespace : option string;
  ar_encryption_key : option string;
  ar_master_pubkey : option string;
  ar_remove_encryption : option bool;
}.

Record PbsAttachResult : Type := mkAttachResult {
  as_remote : string;
  as_changed : bool;
  as_message : string;
  as_error : option error;
}.

Record PbsPveStorageState : Type := mkStorageState {
  ss_remote : string;
  ss_storage : option string;
  ss_namespace : option string;
  ss_encryption_key : option string;
  ss_error : option error;
}.

(** ** Finding storages *)

Definition str_field (v : Value) (key : string) : option string := get v key ≫= as_str.
Definition is_str (o : option string) (s : string) : bool := match o with Some t => String.eqb t s | None => false end.

Definition is_matching_storage (storage : Value) (server : string) (datastore : option string) : bool :=
  is_str (str_field storage "type") "pbs" &&
  match datastore with Some d => is_str (str_field storage "datastore") d | None => true end &&
  match str_field storage "server" with Some value => eq_ignore_ascii_case value server | None => false end.

Definition find_matching_storage (storages : list Value) (server : string) (datastore : option string) : option Value :=
  List.find (λ storage, is_matching_storage storage server datastore) storages.

Definition find_storage_by_id (storages : list Value) (id : string) : option Value :=
  List.find (λ storage, is_str (str_field storage "storage") id) storages.

Definition storage_string (storage : Value) (key : string) : option string :=
  s ← str_field storage key; if String.eqb s "" then None else Some s.

(** [json!] of a string, and [if let Some(x) = x { payload[key] = x.into() }] *)
Definition set_opt (m : Map) (key : string) (o : option Value) : Map :=
  match o with Some v => map_set m key v | None => m end.

Definition apply_encryption (payload : Map) (request : PbsAttachRequest) (updating : bool) : Map :=
  match ar_encryption_key request with
  | Some key =>
      set_opt (map_set payload "encryption-key" (VString key)) "master-pubkey" (VString <$> ar_master_pubkey request)
  | None =>
      if updating && bool_decide (ar_remove_encryption request = Some true)
      then map_set payload "delete" (VString "encryption-key,master-pubkey") else payload
  end.

Section sync.
Context {W : Type} `{RemoteWorld W} (authid_to_string : Authid → string).

Definition pbs_connection_info (remote : string) : net W PbsConnectionInfo :=
  remotes ← remotes_config;
  entry ← net_lift (get_remote_of RemoteType.Pbs remotes remote);
  node ← net_lift (ok_or (head (r_nodes entry)) (EMsg ("remote '" +:+ remote +:+ "' has no node address configured")));
  let '(server, port) := split_host_port (nu_hostname node) in
  password ← (λ w, (rw_secret_token w entry, w)) : net W string;
  mret (mkInfo server port (nu_fingerprint node) (authid_to_string (r_authid entry)) password).

Definition all_pve_remotes (remotes : list (string * Remote)) : list string :=
  (List.filter (λ '(_, r), bool_decide (r_ty r = RemoteType.Pve)) remotes).*1.

Definition pve_remote_ids (selection : option (list string)) : net W (list string) :=
  remotes ← remotes_config;
  let all := all_pve_remotes remotes in
  match selection with
  | Some selection =>
      match List.find (λ id, negb (existsb (String.eqb id) all)) selection with
      | Some id => net_fail (EMsg ("'" +:+ id +:+ "' is not a PVE remote"))
      | None => mret selection
      end
  | None => mret all
  end.

Definition list_pve_storages (remote : string) : net W (list Value) :=
  _ ← raw_client_to_remote_by_id remote;
  data ← send GET remote "/api2/extjs/storage" None;
  match data with
  | VArray storages => mret storages
  | _ => net_fail (EMsg "unexpected response from the storage endpoint")
  end.

(** ** The API *)

Definition storage_state (pve_remote server datastore : string) : net W PbsPveStorageState := λ w,
  match list_pve_storages pve_remote w with
  | (Ok storages, w') =>
      (Ok (match find_matching_storage storages server (Some datastore) with
           | Some found => mkStorageState pve_remote (storage_string found "storage") (storage_string found "namespace")
                             (storage_string found "encryption-key") None
           | None => mkStorageState pve_remote None None None None
           end), w')
  | (Err e, w') => (Ok (mkStorageState pve_remote None None None (Some e)), w')
  end.

(** [for x in l { result.push(f(x).await) }] *)
Fixpoint net_collect {A B} (f : A → net W B) (l : list A) : net W (list B) :=
  match l with
  | [] => mret []
  | x :: l' => y ← f x; ys ← net_collect f l'; mret (y :: ys)
  end.

Definition pve_storage_state (remote datastore : string) : net W (list PbsPveStorageState) :=
  info ← pbs_connection_info remote;
  ids ← pve_remote_ids None;
  net_collect (λ id, storage_state id (ci_server info) datastore) ids.

Definition storage_path (storage : string) : string := "/api2/extjs/storage/" +:+ storage.

Definition attach_to_single_remote (pve_remote : string) (request : PbsAttachRequest) (info : PbsConnectionInfo)
    (base : Map) : net W (bool * string) :=
  let storage := ar_storage request in
  storages ← list_pve_storages pve_remote;
  _ ← raw_client_to_remote_by_id pve_remote;
  match find_storage_by_id storages storage with
  | Some existing =>
      if negb (is_str (str_field existing "type") "pbs") then
        net_fail (EMsg ("storage '" +:+ storage +:+ "' on '" +:+ pve_remote +:+ "' is not a backup server storage"))
      else
        let same_server := match str_field existing "server" with
                           | Some value => eq_ignore_ascii_case value (ci_server info)
                           | None => false
                           end in
        let same_datastore := is_str (str_field existing "datastore") (ar_datastore request) in
        if negb same_server || negb same_datastore then
          net_fail (EMsg ("storage '" +:+ storage +:+ "' on '" +:+ pve_remote +:+ "' points at another backup server or datastore"))
        else
          let payload := [("username"%string, VString (ci_username info)); ("password"%string, VString (ci_password info))] in
          let payload := set_opt payload "fingerprint" (VString <$> ci_fingerprint info) in
          let payload := set_opt payload "namespace" (VString <$> ar_namespace request) in
          let payload := apply_encryption payload request true in
          _ ← send PUT pve_remote (storage_path storage) (Some (VObject payload));
          mret (true, "updated existing storage '" +:+ storage +:+ "'")
  | None =>
      match find_matching_storage storages (ci_server info) (Some (ar_datastore request)) with
      | Some existing =>
          mret (false, "datastore already available as storage '" +:+ default "<unknown>"%string (str_field existing "storage") +:+ "'")
      | None =>
          let payload := set_opt base "namespace" (VString <$> ar_namespace request) in
          let payload := apply_encryption payload request false in
          let payload := map_set (map_set payload "storage" (VString storage)) "type" (VString "pbs") in
          _ ← send POST pve_remote "/api2/extjs/storage" (Some (VObject payload));
          mret (true, "created storage '" +:+ storage +:+ "'")
      end
  end.

Definition attach_base (info : PbsConnectionInfo) (request : PbsAttachRequest) : Map :=
  let base := [("server"%string, VString (ci_server info)); ("datastore"%string, VString (ar_datastore request));
               ("username"%string, VString (ci_username info)); ("password"%string, VString (ci_password info))] in
  let base := set_opt base "port" (VNumber ∘ NInt <$> ci_port info) in
  set_opt base "fingerprint" (VString <$> ci_fingerprint info).

Definition attach_result (pve_remote : string) (outcome : result error (bool * string)) : PbsAttachResult :=
  match outcome with
  | Ok (changed, message) => mkAttachResult pve_remote changed message None
  | Err err => mkAttachResult pve_remote false "" (Some err)
  end.

Definition attach_to_pve (remote : string) (request : PbsAttachRequest) : net W (list PbsAttachResult) :=
  info ← pbs_connection_info remote;
  _ ← net_lift (bail_if (bool_decide (ar_remove_encryption request = Some true) &&
                         bool_decide (ar_encryption_key request ≠ None))
                  (EMsg "cannot set and remove the encryption key at the same time"));
  ids ← pve_remote_ids (match ar_pve_remotes request with [] => None | l => Some l end);
  net_collect (λ id, outcome ← net_try (attach_to_single_remote id request info (attach_base info request));
                     mret (attach_result id outcome)) ids.
End sync.

(** ** Addresses *)

Lemma rsplit_once_None c s : char_in c s = false → rsplit_once c s = None.
Proof.
  induction s as [|a s IH]; simpl; [done|]. intros [Ha Hs]%orb_false_iff.
  by rewrite IH, Ascii.eqb_sym, Ha.
Qed.

Lemma rsplit_once_app c p q : char_in c q = false → rsplit_once c (p +:+ String c q) = Some (p, q).
Proof.
  intros Hq. induction p as [|a p IH]; simpl.
  - by rewrite rsplit_once_None, Ascii.eqb_refl.
  - by rewrite IH.
Qed.

Lemma strip_bracket s : starts_with "[" s = false → strip_prefix "[" s = None.
Proof. unfold starts_with. by destruct (strip_prefix "[" s). Qed.

(** Every accepted address splits into its host and its port: a host name or
    an IPv6 address in brackets, with or without a port. *)
Theorem split_host_port_spec (host v6 : string) (port : Z) :
  0 ≤ port < 2 ^ 16 → starts_with "[" host = false → char_in "]" v6 = false →
  (char_in ":" host = false → split_host_port host = (host, None)) ∧
  split_host_port (host +:+ ":" +:+ show_Z port) = (host, Some port) ∧
  split_host_port ("[" +:+ v6 +:+ "]") = (v6, None) ∧
  split_host_port ("[" +:+ v6 +:+ "]:" +:+ show_Z port) = (v6, Some port).
Proof.
  intros Hport Hh H6. unfold split_host_port. split_and!.
  - intros Hc. by rewrite strip_bracket, rsplit_once_None.
  - rewrite strip_bracket.
    + change (":" +:+ show_Z port) with (String ":" (show_Z port)).
      rewrite rsplit_once_app by by apply show_Z_no_char. unfold parse_u16. by rewrite parse_unsigned_show.
    + destruct host as [|a host]; [by unfold starts_with|]. unfold starts_with in *. simpl in *.
      by destruct (Ascii.eqb "[" a).
  - rewrite strip_prefix_app. change (v6 +:+ "]") with (v6 +:+ String "]" "").
    by rewrite split_once_app.
  - rewrite strip_prefix_app. change (v6 +:+ "]:" +:+ show_Z port) with (v6 +:+ String "]" (":" +:+ show_Z port)).
    rewrite split_once_app by done. rewrite strip_prefix_app. simpl. unfold parse_u16.
    by rewrite parse_unsigned_show.
Qed.

(** ** Requests *)

Record api_request : Type := mkRequest {
  rq_method : Method;
  rq_remote : string;
  rq_path : string;
  rq_payload : option Value;
}.

(** A world that also records the requests that are sent. *)
Section recorded.
Context {W : Type} `{RemoteWorld W}.

#[local] Instance recorded_world : RemoteWorld (list api_request * W) := {|
  rw_remotes w := rw_remotes w.2;
  rw_secret_token w := rw_secret_token w.2;
  rw_guests w := let '(r, w') := rw_guests w.2 in (r, (w.1, w'));
  rw_connect w := rw_connect w.2;
  rw_send m r p v w := let '(res, w') := rw_send m r p v w.2 in (res, (w.1 ++ [mkRequest m r p v], w'));
  rw_send_nodata m r p v w := let '(res, w') := rw_send_nodata m r p v w.2 in (res, (w.1 ++ [mkRequest m r p v], w'));
|}.

(** What the storage endpoint of a remote reports. *)
Definition reported_storages (remote : string) (w : W) : list Value :=
  match (rw_send GET remote "/api2/extjs/storage" None w).1 with Ok (VArray l) => l | _ => [] end.

Lemma raw_client_world id (w : list api_request * W) : (raw_client_to_remote_by_id id w).2 = w.
Proof.
  unfold raw_client_to_remote_by_id, remotes_config. rewrite net_bind_run.
  destruct (rw_remotes w) as [l|e]; [|done]. rewrite net_bind_run. unfold net_lift.
  by destruct (get_remote_of _ _ _).
Qed.

(** Reading the storages sends one request, if any. *)
Lemma list_storages_requests remote (w : list api_request * W) :
  let '(res, w') := list_pve_storages remote w in
  (w' = w ∨ w'.1 = w.1 ++ [mkRequest GET remote "/api2/extjs/storage" None]) ∧
  ∀ l, res = Ok l → l = reported_storages remote w.2.
Proof.
  unfold list_pve_storages. rewrite net_bind_run. pose proof (raw_client_world remote w) as Hw.
  destruct (raw_client_to_remote_by_id remote w) as [[u|e] w1]; simpl in Hw; subst w1; [|by split; [left|]].
  rewrite net_bind_run. unfold send, rw_send, recorded_world, reported_storages.
  destruct (rw_send GET remote _ None w.2) as [[[]|e] w2]; simpl; (split; [by right|]); naive_solver.
Qed.

(** What attaching a datastore may send to a remote. *)
Definition attach_allowed (pve_remote : string) (request : PbsAttachRequest) (info : PbsConnectionInfo)
    (storages : list Value) (r : api_request) : Prop :=
  rq_remote r = pve_remote ∧
  match rq_method r with
  | GET => rq_path r = "/api2/extjs/storage"%string
  | PUT => rq_path r = storage_path (ar_storage request) ∧
           ∃ existing, find_storage_by_id storages (ar_storage request) = Some existing ∧
             is_matching_storage existing (ci_server info) (Some (ar_datastore request)) = true
  | POST => rq_path r = "/api2/extjs/storage"%string ∧
            find_storage_by_id storages (ar_storage request) = None ∧
            find_matching_storage storages (ci_server info) (Some (ar_datastore request)) = None
  | DELETE => False
  end.

(** At most [n] requests that satisfy [P] were added to the log. *)
Definition sent (P : api_request → Prop) (n : nat) (log log' : list api_request) : Prop :=
  ∃ reqs, log' = log ++ reqs ∧ (length reqs ≤ n)%nat ∧ Forall P reqs.

Lemma sent_refl P n log : sent P n log log.
Proof. exists []. rewrite app_nil_r. split_and!; [done|simpl; lia|done]. Qed.
Lemma sent_one P n log log' r : sent P n log log' → P r → sent P (S n) log (log' ++ [r]).
Proof.
  intros (reqs&->&Hlen&Hall) Hr. exists (reqs ++ [r]). rewrite app_assoc, length_app. simpl.
  split_and!; [done|lia|]. apply Forall_app. by repeat constructor.
Qed.
Lemma sent_le P n k log log' : sent P n log log' → (n ≤ k)%nat → sent P k log log'.
Proof. intros (reqs&?&?&?) ?. exists reqs. split_and!; [done|lia|done]. Qed.

(** Attaching a datastore never touches a storage that belongs to something
    else.  Besides reading the storages it sends at most one request to the
    remote: an update of the storage with the requested id, which is a storage for
    that backup server and datastore already; or the creation of a storage whose
    id is free, when no storage points at the datastore yet. *)
Theorem attach_requests pve_remote request info base log (w : W) :
  let '(res, (log', w')) := attach_to_single_remote pve_remote request info base (log, w) in
  sent (attach_allowed pve_remote request info (reported_storages pve_remote w)) 2 log log'.
Proof.
  set (storages := reported_storages pve_remote w). set (P := attach_allowed pve_remote request info storages).
  unfold attach_to_single_remote. rewrite net_bind_run.
  pose proof (list_storages_requests pve_remote (log, w)) as Hl.
  destruct (list_pve_storages pve_remote (log, w)) as [res [log1 w1]]. destruct Hl as [Hlog Hres].
  assert (sent P 1 log log1) as H1.
  { destruct Hlog as [[= -> ->]|Hlog]; [apply sent_refl|]. simpl in Hlog. subst log1. by apply sent_one; [apply sent_refl|]. }
  assert (sent P 2 log log1) as Hstop by (eapply sent_le; [done|lia]).
  destruct res as [l|e]; [|done]. specialize (Hres l eq_refl). simpl in Hres. fold storages in Hres. subst l.
  rewrite net_bind_run. pose proof (raw_client_world pve_remote (log1, w1)) as Hw.
  destruct (raw_client_to_remote_by_id pve_remote (log1, w1)) as [[u|e] w2]; simpl in Hw; subst w2; [|done].
  destruct (find_storage_by_id storages (ar_storage request)) as [existing|] eqn:Hid.
  - destruct (is_str (str_field existing "type") "pbs") eqn:Hty; simpl; [|done].
    destruct (negb _ || negb _) eqn:Hsame; [done|].
    apply orb_false_iff in Hsame as [Hserver%negb_false_iff Hstore%negb_false_iff].
    rewrite net_bind_run. simpl.
    assert (∀ v, P (mkRequest PUT pve_remote (storage_path (ar_storage request)) v)) as HP.
    { intros v. split; [done|]. simpl. split; [done|]. exists existing. split; [done|]. unfold is_matching_storage.
      by rewrite Hty, Hserver, Hstore. }
    destruct (rw_send PUT _ _ _ w1) as [[v|e] w3]; simpl; by apply sent_one.
  - destruct (find_matching_storage _ _ _) eqn:Hm; [done|].
    rewrite net_bind_run. unfold send at 1, rw_send, recorded_world. simpl.
    destruct (rw_send POST _ _ _ w1) as [[v|e] w3]; simpl; by apply sent_one.
Qed.
End recorded.

Module StorageSyncDemo.
Lemma split_host_port_spec_witness : split_host_port "[fe80::1]:8007" = ("fe80::1"%string, Some 8007).
Proof.
  refine (proj2 (proj2 (proj2 (split_host_port_spec "pbs" "fe80::1" 8007 _ _ _)))); [lia|reflexivity|reflexivity].
Defined.
End StorageSyncDemo.
