(* ===== verification/BackupJobs.v ===== *)
(** * Unified backup jobs: configuration and plan

    Model of [lib/pdm-api-types/src/backup_jobs.rs], of the handlers of
    [server/src/api/backup_jobs.rs] that edit the configuration, and of the part
    of [server/src/backup_jobs.rs] that decides which guests of which remote a job
    covers ([build_plan], [follow_migrated_guests]).

    The guests come from the resource cache ([RemoteData.cached_pve_guests]).
    Reading, locking and saving the configuration are the steps of a handler. *)

From S2P Require Import Prelude FileSystem RemoteUpid SectionConfig Resource ResourceList NamespacedCache SubscriptionKeys SubscriptionPool RemoteData.

Definition DERIVED_JOB_PREFIX : string := "pdm-".
Definition derived_job_id (job_id : string) : string := DERIVED_JOB_PREFIX +:+ job_id.
Definition job_id_from_derived (derived : string) : option string := strip_prefix DERIVED_JOB_PREFIX derived.

Record BackupJobGuest : Type := mkJobGuest { bg_remote : string; bg_vmid : Z }.
Record BackupJobTarget : Type := mkTarget { bt_remote : string; bt_storage : string }.

#[export] Instance BackupJobGuest_eq_dec : EqDecision BackupJobGuest.
Proof. solve_decision. Defined.

Record BackupJobConfig : Type := mkJob {
  bj_id : string;
  bj_comment : option string;
  bj_disable : option bool;
  bj_schedule : string;
  bj_pbs_remote : option string;
  bj_pbs_datastore : option string;
  bj_default_storage : option string;
  bj_guests : list BackupJobGuest;
  bj_targets : list BackupJobTarget;
  bj_tag_filters : list string;
  bj_tag_filter_remotes : list string;
  bj_mode : option string;
  bj_compress : option string;
  bj_bwlimit : option Z;
  bj_prune_backups : option string;
  bj_notes_template : option string;
  bj_mailto : option string;
  bj_mailnotification : option string;
  bj_follow_migrations : option bool;
}.

Definition storage_for (job : BackupJobConfig) (remote : string) : option string :=
  match List.find (λ target, String.eqb (bt_remote target) remote) (bj_targets job) with
  | Some target => Some (bt_storage target)
  | None => bj_default_storage job
  end.

Definition has_target (job : BackupJobConfig) : bool :=
  (if bj_pbs_remote job is Some _ then true else false) ||
  (if bj_default_storage job is Some _ then true else false) ||
  match bj_targets job with [] => false | _ => true end.

Definition follows_migrations (job : BackupJobConfig) : bool := default true (bj_follow_migrations job).

(** ** Editing jobs *)

Inductive DeletableProperty : Type :=
| DelComment | DelDisable | DelPbsRemote | DelPbsDatastore | DelDefaultStorage | DelGuests | DelTargets
| DelTagFilters | DelTagFilterRemotes | DelMode | DelCompress | DelBwlimit | DelPruneBackups
| DelNotesTemplate | DelMailto | DelMailnotification | DelFollowMigrations.

(** [BackupJobConfigUpdater], generated from [BackupJobConfig] without its id. *)
Record BackupJobConfigUpdater : Type := mkJobUpdater {
  bu_comment : option string;
  bu_disable : option bool;
  bu_schedule : option string;
  bu_pbs_remote : option string;
  bu_pbs_datastore : option string;
  bu_default_storage : option string;
  bu_guests : option (list BackupJobGuest);
  bu_targets : option (list BackupJobTarget);
  bu_tag_filters : option (list string);
  bu_tag_filter_remotes : option (list string);
  bu_mode : option string;
  bu_compress : option string;
  bu_bwlimit : option Z;
  bu_prune_backups : option string;
  bu_notes_template : option string;
  bu_mailto : option string;
  bu_mailnotification : option string;
  bu_follow_migrations : option bool;
}.

Definition delete_job_property (j : BackupJobConfig) (p : DeletableProperty) : BackupJobConfig :=
  let keep {A} (q : DeletableProperty → bool) (none v : A) : A := if q p then none else v in
  mkJob (bj_id j)
    (keep (λ p, if p is DelComment then true else false) None (bj_comment j))
    (keep (λ p, if p is DelDisable then true else false) None (bj_disable j))
    (bj_schedule j)
    (keep (λ p, if p is DelPbsRemote then true else false) None (bj_pbs_remote j))
    (keep (λ p, if p is DelPbsDatastore then true else false) None (bj_pbs_datastore j))
    (keep (λ p, if p is DelDefaultStorage then true else false) None (bj_default_storage j))
    (keep (λ p, if p is DelGuests then true else false) [] (bj_guests j))
    (keep (λ p, if p is DelTargets then true else false) [] (bj_targets j))
    (keep (λ p, if p is DelTagFilters then true else false) [] (bj_tag_filters j))
    (keep (λ p, if p is DelTagFilterRemotes then true else false) [] (bj_tag_filter_remotes j))
    (keep (λ p, if p is DelMode then true else false) None (bj_mode j))
    (keep (λ p, if p is DelCompress then true else false) None (bj_compress j))
    (keep (λ p, if p is DelBwlimit then true else false) None (bj_bwlimit j))
    (keep (λ p, if p is DelPruneBackups then true else false) None (bj_prune_backups j))
    (keep (λ p, if p is DelNotesTemplate then true else false) None (bj_notes_template j))
    (keep (λ p, if p is DelMailto then true else false) None (bj_mailto j))
    (keep (λ p, if p is DelMailnotification then true else false) None (bj_mailnotification j))
    (keep (λ p, if p is DelFollowMigrations then true else false) None (bj_follow_migrations j)).

(** [if let Some(x) = update.x { job.x = Some(x) }] *)
Definition upd {A} (new old : option A) : option A := match new with Some x => Some x | None => old end.

Definition update_job (u : BackupJobConfigUpdater) (j : BackupJobConfig) : BackupJobConfig :=
  mkJob (bj_id j) (upd (bu_comment u) (bj_comment j)) (upd (bu_disable u) (bj_disable j))
    (default (bj_schedule j) (bu_schedule u)) (upd (bu_pbs_remote u) (bj_pbs_remote j))
    (upd (bu_pbs_datastore u) (bj_pbs_datastore j)) (upd (bu_default_storage u) (bj_default_storage j))
    (default (bj_guests j) (bu_guests u)) (default (bj_targets j) (bu_targets u))
    (default (bj_tag_filters j) (bu_tag_filters u)) (default (bj_tag_filter_remotes j) (bu_tag_filter_remotes u))
    (upd (bu_mode u) (bj_mode j)) (upd (bu_compress u) (bj_compress j)) (upd (bu_bwlimit u) (bj_bwlimit j))
    (upd (bu_prune_backups u) (bj_prune_backups j)) (upd (bu_notes_template u) (bj_notes_template j))
    (upd (bu_mailto u) (bj_mailto j)) (upd (bu_mailnotification u) (bj_mailnotification j))
    (upd (bu_follow_migrations u) (bj_follow_migrations j)).

Section config.
Context {C : Type} `{SectionConfigData C BackupJobConfig} `{ConfigDigests C}.

Definition get_job (config : C) (id : string) : result api_error BackupJobConfig :=
  ok_or (sc_get config id) (NOT_FOUND ("no such backup job '" +:+ id +:+ "'")).

Definition list_backup_jobs (config : C) : list BackupJobConfig := (sc_iter config).*2.

Definition no_target (id : string) : api_error :=
  BAD_REQUEST ("pbs-remote: job '" +:+ id +:+ "' needs a backup server or a target storage, otherwise the remotes would back up to their local default storage").

(** [create_backup_job] up to the call of [sync_job]. *)
Definition create_job_config (job : BackupJobConfig) (config : C) : result api_error C :=
  _ ← bail_if (String.eqb (bj_schedule job) "") (BAD_REQUEST ("schedule: a schedule is required for job '" +:+ bj_id job +:+ "'"));
  _ ← bail_if (negb (has_target job)) (no_target (bj_id job));
  match sc_get config (bj_id job) with
  | Some _ => Err (BAD_REQUEST ("id: backup job '" +:+ bj_id job +:+ "' already exists."))
  | None => Ok (sc_insert config (bj_id job) job)
  end.

(** [update_backup_job] up to the call of [sync_job], with the job that is
    materialized then. *)
Definition update_job_config (id : string) (update : BackupJobConfigUpdater)
    (delete : option (list DeletableProperty)) (expected : option digest) (config : C)
    : result api_error (C * BackupJobConfig) :=
  _ ← detect_modification (config_digest config) expected;
  match sc_get config id with
  | None => Err (NOT_FOUND ("no such backup job '" +:+ id +:+ "'"))
  | Some job =>
      let job := update_job update (foldl delete_job_property job (default [] delete)) in
      _ ← bail_if (negb (has_target job)) (no_target id);
      Ok (sc_modify config id (λ _, job), job)
  end.

(** The part of [delete_backup_job] behind [remove_job]. *)
Definition delete_job_config (id : string) (expected : option digest) (config : C) : result api_error C :=
  _ ← detect_modification (config_digest config) expected;
  match sc_get config id with
  | None => Err (NOT_FOUND ("backup job '" +:+ id +:+ "' does not exist."))
  | Some _ => Ok (sc_remove config id)
  end.

(** ** Which guests a job covers *)

Section plan.
Context (guests : list CachedGuest).

Definition with_vmid (vmid : Z) : list CachedGuest := List.filter (λ g, cg_vmid g =? vmid) guests.

(** The remote of a selected guest: where the cache sees it, if that is
    unambiguous and the job follows migrations. *)
Definition entry_remote (job : BackupJobConfig) (entry : BackupJobGuest) : string :=
  match with_vmid (bg_vmid entry) with
  | [found] => if follows_migrations job then cg_remote found else bg_remote entry
  | _ => bg_remote entry
  end.

Definition tag_selected (job : BackupJobConfig) (g : CachedGuest) : bool :=
  negb (cg_template g) &&
  (match bj_tag_filter_remotes job with [] => true | rs => existsb (λ r, String.eqb r (cg_remote g)) rs end) &&
  existsb (λ tag, existsb (λ filter, String.eqb filter tag) (bj_tag_filters job)) (cg_tags g).

Definition select (sel : gmap string (gset Z)) (remote : string) (vmid : Z) : gmap string (gset Z) :=
  <[remote := {[vmid]} ∪ default ∅ (sel !! remote)]> sel.

Definition selected (job : BackupJobConfig) : gmap string (gset Z) :=
  let explicit := foldl (λ sel entry, select sel (entry_remote job entry) (bg_vmid entry)) ∅ (bj_guests job) in
  match bj_tag_filters job with
  | [] => explicit
  | _ => foldl (λ sel g, if tag_selected job g then select sel (cg_remote g) (cg_vmid g) else sel) explicit guests
  end.

Record RemotePlan : Type := mkPlan {
  rp_storage : option string;
  rp_vmids : list Z;
  rp_nodes : gmap Z string;
}.

Definition guest_nodes (remote : string) (vmids : gset Z) : gmap Z string :=
  foldl (λ nodes g, if String.eqb (cg_remote g) remote && bool_decide (cg_vmid g ∈ vmids)
                    then <[cg_vmid g := cg_node g]> nodes else nodes) ∅ guests.

Definition remote_plan (job : BackupJobConfig) (remote : string) (vmids : gset Z) : option RemotePlan :=
  if bool_decide (vmids = ∅) then None
  else Some (mkPlan (storage_for job remote) (sort_by Z.compare (elements vmids)) (guest_nodes remote vmids)).

(** [JobPlan] is a [BTreeMap]. *)
Definition build_plan (job : BackupJobConfig) : gmap string RemotePlan :=
  map_imap (remote_plan job) (selected job).

(** ** Following migrations *)

(** The distinct remotes that have a guest with this id. *)
Definition locations (vmid : Z) : list string :=
  foldl (λ l g, if existsb (String.eqb (cg_remote g)) l then l else l ++ [cg_remote g]) [] (with_vmid vmid).

Definition follow_guest (g : BackupJobGuest) : BackupJobGuest :=
  match locations (bg_vmid g) with
  | [remote] => if String.eqb remote (bg_remote g) then g else mkJobGuest remote (bg_vmid g)
  | _ => g
  end.

Definition set_guests (guests : list BackupJobGuest) (j : BackupJobConfig) : BackupJobConfig :=
  mkJob (bj_id j) (bj_comment j) (bj_disable j) (bj_schedule j) (bj_pbs_remote j) (bj_pbs_datastore j)
    (bj_default_storage j) guests (bj_targets j) (bj_tag_filters j) (bj_tag_filter_remotes j) (bj_mode j)
    (bj_compress j) (bj_bwlimit j) (bj_prune_backups j) (bj_notes_template j) (bj_mailto j)
    (bj_mailnotification j) (bj_follow_migrations j).

Definition follow_job (j : BackupJobConfig) : BackupJobConfig :=
  if follows_migrations j then set_guests (map follow_guest (bj_guests j)) j else j.

Definition job_moved (j : BackupJobConfig) : bool :=
  follows_migrations j && existsb (λ g, negb (bool_decide (follow_guest g = g))) (bj_guests j).

(** [follow_migrated_guests]: the configuration and the ids of the changed jobs;
    it is saved only if there are any. *)
Definition follow_migrated_guests (config : C) : C * list string :=
  (foldl (λ c id, sc_modify c id follow_job) config (sc_iter config).*1,
   (List.filter (λ '(_, job), job_moved job) (sc_iter config)).*1).
End plan.
End config.

(** ** Sequences of requests *)

Section steps.
Context {C : Type} `{SectionConfigData C BackupJobConfig} `{ConfigDigests C}.

(** The steps that save the configuration; a failed request saves nothing.
    The periodic reconciliation sees the guests of the moment. *)
Inductive job_step (c : C) : C → Prop :=
| job_create job c' : create_job_config job c = Ok c' → job_step c c'
| job_update id u delete expected c' job :
    update_job_config id u delete expected c = Ok (c', job) → job_step c c'
| job_delete id expected c' : delete_job_config id expected c = Ok c' → job_step c c'
| job_follow guests c' changed : follow_migrated_guests guests c = (c', changed) → job_step c c'.

Definition job_ok (id : string) (job : BackupJobConfig) : Prop := bj_id job = id ∧ has_target job = true.
Definition jobs_ok (c : C) : Prop := ∀ id job, sc_get c id = Some job → job_ok id job.
End steps.

(** ** Lemmas *)

Section plan_lemmas.
Context (guests : list CachedGuest).
Implicit Types (sel : gmap string (gset Z)) (job : BackupJobConfig).

Lemma select_elem sel r x r' v :
  v ∈ default ∅ (select sel r x !! r') ↔ (r = r' ∧ v = x) ∨ v ∈ default ∅ (sel !! r').
Proof.
  unfold select. destruct (decide (r = r')) as [->|Hne].
  - rewrite lookup_insert_eq. simpl. set_solver.
  - rewrite lookup_insert_ne by done. naive_solver.
Qed.

Lemma fold_select_elem {A} (f : A → option (string * Z)) l sel r v :
  v ∈ default ∅ (foldl (λ sel a, match f a with Some (r, x) => select sel r x | None => sel end) sel l !! r) ↔
  v ∈ default ∅ (sel !! r) ∨ ∃ a, a ∈ l ∧ f a = Some (r, v).
Proof.
  revert sel. induction l as [|a l IH]; intros sel; simpl; [set_solver|].
  rewrite IH. setoid_rewrite elem_of_cons. destruct (f a) as [[r0 x]|] eqn:Hf.
  - rewrite select_elem. naive_solver.
  - naive_solver.
Qed.

Lemma fold_select_ext {A} (f : A → option (string * Z)) (g : gmap string (gset Z) → A → gmap string (gset Z)) l sel :
  (∀ sel a, g sel a = match f a with Some (r, x) => select sel r x | None => sel end) →
  foldl g sel l = foldl (λ sel a, match f a with Some (r, x) => select sel r x | None => sel end) sel l.
Proof. intros Hg. revert sel. induction l as [|a l IH]; intros sel; simpl; [done|]. by rewrite Hg, IH. Qed.

Lemma tag_selected_nil job g : bj_tag_filters job = [] → tag_selected job g = false.
Proof.
  intros Hnil. unfold tag_selected. rewrite Hnil. apply andb_false_intro2.
  by induction (cg_tags g).
Qed.

(** A job covers the guest [v] of the remote [r]: it is selected there, or has
    one of the tags. *)
Definition covers job (r : string) (v : Z) : Prop :=
  (∃ e, e ∈ bj_guests job ∧ entry_remote guests job e = r ∧ bg_vmid e = v) ∨
  (∃ g, g ∈ guests ∧ tag_selected job g = true ∧ cg_remote g = r ∧ cg_vmid g = v).

Lemma selected_spec job r v : v ∈ default ∅ (selected guests job !! r) ↔ covers job r v.
Proof.
  assert (∀ sel, v ∈ default ∅ (foldl (λ sel e, select sel (entry_remote guests job e) (bg_vmid e)) sel
                                 (bj_guests job) !! r) ↔
    v ∈ default ∅ (sel !! r) ∨ ∃ e, e ∈ bj_guests job ∧ entry_remote guests job e = r ∧ bg_vmid e = v) as Hexp.
  { intros sel.
    pose proof (fold_select_elem (λ e, Some (entry_remote guests job e, bg_vmid e)) (bj_guests job) sel r v) as Hf.
    cbv beta iota in Hf. rewrite Hf. naive_solver. }
  unfold selected, covers. destruct (bj_tag_filters job) as [|tag tags] eqn:Htags.
  - rewrite Hexp, lookup_empty. split; [set_solver|].
    intros [?|(g&_&Hg&_)]; [by right|]. by rewrite tag_selected_nil in Hg.
  - rewrite (fold_select_ext (λ g, if tag_selected job g then Some (cg_remote g, cg_vmid g) else None))
      by (intros sel g; by destruct (tag_selected job g)).
    rewrite fold_select_elem, Hexp, lookup_empty. split.
    + intros [[?|?]|(g&?&Hg)]; [set_solver|by left|right]. exists g.
      destruct (tag_selected job g); naive_solver.
    + intros [?|(g&?&Hg&?&?)]; [left; by right|right]. exists g. rewrite Hg. naive_solver.
Qed.

Lemma guest_nodes_spec r vmids v n :
  guest_nodes guests r vmids !! v = Some n →
  v ∈ vmids ∧ ∃ g, g ∈ guests ∧ cg_remote g = r ∧ cg_vmid g = v ∧ cg_node g = n.
Proof.
  unfold guest_nodes. induction guests as [|g gs IH] using rev_ind; simpl; [by rewrite lookup_empty|].
  rewrite foldl_app. simpl.
  assert (∀ g', g' ∈ gs → g' ∈ gs ++ [g]) as Happ by (intros g' ?; apply elem_of_app; by left).
  destruct (String.eqb_spec (cg_remote g) r); simpl; [|intros (?&g'&?&?)%IH; eauto].
  case_bool_decide; [|intros (?&g'&?&?)%IH; eauto].
  intros [[<- <-]|[? (?&g'&?&?)%IH]]%lookup_insert_Some; [|eauto].
  split; [done|]. exists g. split; [apply elem_of_app; right; left|done].
Qed.

Lemma guest_nodes_total r vmids g :
  g ∈ guests → cg_remote g = r → cg_vmid g ∈ vmids → is_Some (guest_nodes guests r vmids !! cg_vmid g).
Proof.
  intros Hin Hr Hv. unfold guest_nodes.
  assert (∀ l (m : gmap Z string), (g ∈ l ∨ is_Some (m !! cg_vmid g)) →
    is_Some (foldl (λ nodes g, if String.eqb (cg_remote g) r && bool_decide (cg_vmid g ∈ vmids)
      then <[cg_vmid g := cg_node g]> nodes else nodes) m l !! cg_vmid g)) as Hgen; [|apply Hgen; by left].
  clear Hin. induction l as [|g' l IH]; intros m [Hin|Hs]; simpl; [set_solver|done| |].
  - apply elem_of_cons in Hin as [<-|Hin]; apply IH; [right|by left].
    rewrite Hr, String.eqb_refl, bool_decide_true by done. simpl. rewrite lookup_insert_eq. by eexists.
  - apply IH. right. destruct (_ && _); [|done]. rewrite lookup_insert_is_Some'. by right.
Qed.

(** With every guest known once, the plan and the stored selection agree about
    where a guest is. *)
Definition guests_unique : Prop := NoDup ((λ g, (cg_remote g, cg_vmid g)) <$> guests).

Lemma elem_of_with_vmid v g : g ∈ with_vmid guests v ↔ g ∈ guests ∧ cg_vmid g = v.
Proof. unfold with_vmid. by rewrite list_elem_of_In, filter_In, <-list_elem_of_In, Z.eqb_eq. Qed.

Lemma locations_elem v r : r ∈ locations guests v ↔ ∃ g, g ∈ guests ∧ cg_vmid g = v ∧ cg_remote g = r.
Proof.
  transitivity (r ∈ cg_remote <$> with_vmid guests v).
  - unfold locations. induction (with_vmid guests v) as [|g l IH] using rev_ind; [done|].
    rewrite foldl_app, fmap_app, elem_of_app, <-IH. simpl. rewrite list_elem_of_singleton.
    destruct (existsb _ _) eqn:He.
    + apply existsb_exists in He as (r'&Hin%list_elem_of_In&Heq%String.eqb_eq). split; [by left|].
      intros [?| ->]; [done|]. by rewrite Heq.
    + by rewrite elem_of_app, list_elem_of_singleton.
  - rewrite list_elem_of_fmap. setoid_rewrite elem_of_with_vmid. split.
    + intros (g&->&?&?). eauto.
    + intros (g&?&?&<-). eauto.
Qed.

Lemma locations_two v g1 g2 :
  g1 ∈ guests → g2 ∈ guests → cg_vmid g1 = v → cg_vmid g2 = v → cg_remote g1 ≠ cg_remote g2 →
  ∀ r, locations guests v ≠ [r].
Proof.
  intros H1 H2 Hv1 Hv2 Hne r Hl.
  assert (∀ g, g ∈ guests → cg_vmid g = v → cg_remote g = r) as Hall.
  { intros g Hg Hv. assert (cg_remote g ∈ locations guests v) as Hin by (apply locations_elem; eauto).
    rewrite Hl in Hin. by apply list_elem_of_singleton in Hin. }
  apply Hne. by rewrite (Hall g1), (Hall g2).
Qed.

Lemma NoDup_fmap_filter {A B} (f : A → B) (p : A → bool) (l : list A) :
  NoDup (f <$> l) → NoDup (f <$> List.filter p l).
Proof.
  induction l as [|a l IH]; simpl; [done|]. intros [Hnot Hnd]%NoDup_cons.
  destruct (p a); simpl; [|by apply IH]. apply NoDup_cons. split; [|by apply IH].
  intros (b&Hb&Hin)%list_elem_of_fmap. apply Hnot. rewrite Hb. apply list_elem_of_fmap_2.
  by apply list_elem_of_In, filter_In, proj1, list_elem_of_In in Hin.
Qed.

Lemma follow_entry job e :
  guests_unique → follows_migrations job = true →
  entry_remote guests job e = bg_remote (follow_guest guests e).
Proof.
  intros Hu Hf. unfold entry_remote, follow_guest. rewrite Hf.
  destruct (with_vmid guests (bg_vmid e)) as [|g1 [|g2 l]] eqn:Hw.
  - unfold locations. rewrite Hw. done.
  - unfold locations. rewrite Hw. simpl. destruct (String.eqb_spec (cg_remote g1) (bg_remote e)); done.
  - assert (g1 ∈ with_vmid guests (bg_vmid e) ∧ g2 ∈ with_vmid guests (bg_vmid e)) as [H1 H2].
    { rewrite Hw. split; [left|right; left]. }
    assert (cg_remote g1 ≠ cg_remote g2) as Hne.
    { assert (NoDup ((λ g, (cg_remote g, cg_vmid g)) <$> with_vmid guests (bg_vmid e))) as Hnd.
      { by apply NoDup_fmap_filter. }
      rewrite Hw in Hnd. apply elem_of_with_vmid in H1 as [_ Hv1], H2 as [_ Hv2].
      apply NoDup_cons in Hnd as [Hnot _]. intros Heq. apply Hnot. simpl. rewrite Heq, Hv1, <-Hv2. left. }
    apply elem_of_with_vmid in H1 as [H1 Hv1], H2 as [H2 Hv2].
    pose proof (locations_two _ g1 g2 H1 H2 Hv1 Hv2 Hne) as Hno.
    destruct (locations guests (bg_vmid e)) as [|r [|r' l']]; [done|by destruct (Hno r)|done].
Qed.

Lemma follow_guest_vmid e : bg_vmid (follow_guest guests e) = bg_vmid e.
Proof.
  unfold follow_guest. destruct (locations guests (bg_vmid e)) as [|r [|]]; [done| |done].
  by destruct (String.eqb r (bg_remote e)).
Qed.

Lemma follow_job_selected job :
  guests_unique → selected guests (follow_job guests job) = selected guests job.
Proof.
  intros Hu. unfold follow_job. destruct (follows_migrations job) eqn:Hf; [|done].
  set (job' := set_guests (map (follow_guest guests) (bj_guests job)) job).
  assert (follows_migrations job' = true) as Hf' by done.
  unfold selected. change (bj_tag_filters job') with (bj_tag_filters job).
  change (bj_guests job') with (map (follow_guest guests) (bj_guests job)).
  assert (∀ sel, foldl (λ sel entry, select sel (entry_remote guests job' entry) (bg_vmid entry)) sel
            (map (follow_guest guests) (bj_guests job)) =
          foldl (λ sel entry, select sel (entry_remote guests job entry) (bg_vmid entry)) sel (bj_guests job)) as ->.
  { clearbody job'. generalize (bj_guests job). induction l as [|e l IH]; intros sel; simpl; [done|].
    rewrite IH, follow_guest_vmid.
    assert (entry_remote guests job' (follow_guest guests e) = entry_remote guests job e) as ->; [|done].
    unfold entry_remote at 1. rewrite follow_guest_vmid, Hf', (follow_entry job e Hu Hf).
    destruct (with_vmid guests (bg_vmid e)) as [|g [|]] eqn:Hw; [done| |done].
    rewrite <-(follow_entry job e Hu Hf). unfold entry_remote. by rewrite Hw, Hf. }
  done.
Qed.
End plan_lemmas.

(** ** Properties *)

(** The plan of a job.  It lists a remote exactly if the job covers some guest
    there, with exactly the guests it covers, in order and each once; the storage
    is the one configured for that remote; and the node of a guest is recorded
    whenever the resource cache knows the guest on that remote. *)
Theorem build_plan_spec (guests : list CachedGuest) (job : BackupJobConfig) :
  (∀ r v, covers guests job r v ↔ ∃ p, build_plan guests job !! r = Some p ∧ v ∈ rp_vmids p) ∧
  (∀ r p, build_plan guests job !! r = Some p →
     StronglySorted Z.lt (rp_vmids p) ∧ rp_vmids p ≠ [] ∧ rp_storage p = storage_for job r ∧
     ∀ v, v ∈ rp_vmids p →
       match rp_nodes p !! v with
       | Some n => ∃ g, g ∈ guests ∧ cg_remote g = r ∧ cg_vmid g = v ∧ cg_node g = n
       | None => ¬ ∃ g, g ∈ guests ∧ cg_remote g = r ∧ cg_vmid g = v
       end).
Proof.
  unfold build_plan. setoid_rewrite map_lookup_imap. split.
  - intros r v. rewrite <-selected_spec. destruct (selected guests job !! r) as [vmids|]; simpl.
    2: { split; [set_solver|]. by intros (?&?&?). }
    unfold remote_plan. case_bool_decide as He; split; [set_solver|by intros (?&?&?)| |].
    + intros Hv. eexists. split; [done|]. simpl. rewrite elem_of_sort_by. set_solver.
    + intros (p&[= <-]&Hv). simpl in Hv. rewrite elem_of_sort_by in Hv. set_solver.
  - intros r p. destruct (selected guests job !! r) as [vmids|]; simpl; [|done].
    unfold remote_plan. case_bool_decide as He; [done|]. intros [= <-]. simpl. split_and!.
    + assert (NoDup (sort_by Z.compare (elements vmids))) as Hnd by (rewrite sort_by_perm; apply NoDup_elements).
      pose proof (sort_by_sorted Z.compare (elements vmids)) as Hs. revert Hnd Hs.
      generalize (sort_by Z.compare (elements vmids)). intros l Hnd Hs.
      induction Hs as [|x l Hs IH Hx]; constructor.
      * apply IH. by apply NoDup_cons in Hnd as [_ ?].
      * apply Forall_forall. intros y Hy. rewrite Forall_forall in Hx. specialize (Hx y Hy).
        apply NoDup_cons in Hnd as [Hnot _]. unfold cle in Hx.
        destruct (Z.compare_spec x y); [by subst|done|done].
    + intros Hnil. apply He. apply leibniz_equiv, elements_empty_iff, length_zero_iff_nil.
      by rewrite <-(length_sort_by Z.compare), Hnil.
    + done.
    + intros v Hv. rewrite elem_of_sort_by in Hv. apply elem_of_elements in Hv.
      destruct (guest_nodes guests r vmids !! v) as [n|] eqn:Hn.
      * by apply guest_nodes_spec in Hn as [_ ?].
      * intros (g&Hg&Hr&<-). destruct (guest_nodes_total guests r vmids g Hg Hr Hv). congruence.
Qed.

Section follow_lemmas.
Context {C : Type} `{SectionConfigLaws C BackupJobConfig} `{ConfigDigests C}.
Implicit Types (c : C) (job : BackupJobConfig).

Lemma delete_job_property_id job p : bj_id (delete_job_property job p) = bj_id job.
Proof. done. Qed.

Lemma delete_job_properties_id job ps : bj_id (foldl delete_job_property job ps) = bj_id job.
Proof. revert job. induction ps as [|p ps IH]; intros job; simpl; [done|]. by rewrite IH. Qed.

Lemma follow_job_ok guests id job : job_ok id job → job_ok id (follow_job guests job).
Proof. unfold job_ok, follow_job. by destruct (follows_migrations job). Qed.

Lemma modify_all_get (f : BackupJobConfig → BackupJobConfig) ids c id :
  NoDup ids →
  sc_get (foldl (λ c id, sc_modify c id f) c ids) id = if decide (id ∈ ids) then f <$> sc_get c id else sc_get c id.
Proof.
  revert c. induction ids as [|i ids IH]; intros c Hnd; [done|].
  apply NoDup_cons in Hnd as [Hi Hnd]. cbn [foldl]. rewrite IH, sc_get_modify by done.
  destruct (decide (i = id)) as [->|Hne].
  - rewrite decide_False by done. by rewrite decide_True by left.
  - destruct (decide (id ∈ ids)); [by rewrite decide_True by by right|].
    rewrite decide_False; [done|]. rewrite elem_of_cons. naive_solver.
Qed.

Lemma follow_migrated_get guests c id :
  sc_get (follow_migrated_guests guests c).1 id = follow_job guests <$> sc_get c id.
Proof.
  unfold follow_migrated_guests. simpl. rewrite modify_all_get by apply sc_iter_NoDup.
  destruct (decide (id ∈ (sc_iter c).*1)) as [|Hnot]; [done|].
  destruct (sc_get c id) as [job|] eqn:Hj; [|done]. destruct Hnot. apply sc_iter_get in Hj.
  apply list_elem_of_fmap. by exists (id, job).
Qed.

Lemma job_moved_spec guests job : job_moved guests job = true ↔ follow_job guests job ≠ job.
Proof.
  unfold job_moved, follow_job. destruct (follows_migrations job); simpl; [|naive_solver].
  transitivity (map (follow_guest guests) (bj_guests job) ≠ bj_guests job).
  - induction (bj_guests job) as [|g gs IH]; simpl; [done|].
    case_bool_decide as Hg; simpl.
    + rewrite IH, Hg. split; [by intros Hne [= ?]|by intros Hne Heq; rewrite Heq in Hne].
    + split; [by intros _ [= ?]|done].
  - split; [|by intros Hne Heq; apply Hne; destruct job; simpl in *; rewrite Heq].
    intros Hne Heq. apply Hne. by apply (f_equal bj_guests) in Heq.
Qed.

Lemma follow_changed guests c id :
  id ∈ (follow_migrated_guests guests c).2 ↔ ∃ job, sc_get c id = Some job ∧ follow_job guests job ≠ job.
Proof.
  unfold follow_migrated_guests. simpl. rewrite list_elem_of_fmap. split.
  - intros ([k job]&->&[Hin%list_elem_of_In%sc_iter_get Hm]%list_elem_of_In%filter_In).
    exists job. by rewrite <-job_moved_spec.
  - intros (job&Hin%sc_iter_get%list_elem_of_In&Hm%job_moved_spec). exists (id, job). split; [done|].
    by apply list_elem_of_In, filter_In.
Qed.

Lemma follow_job_plan guests job :
  guests_unique guests → build_plan guests (follow_job guests job) = build_plan guests job.
Proof.
  intros Hu. unfold build_plan. rewrite follow_job_selected by done.
  assert (∀ r vmids, remote_plan guests (follow_job guests job) r vmids = remote_plan guests job r vmids) as Hp.
  { intros r vmids. unfold remote_plan, follow_job. by destruct (follows_migrations job). }
  apply map_eq. intros r. rewrite !map_lookup_imap. by destruct (selected guests job !! r); simpl.
Qed.

Lemma follow_job_known guests job e g :
  e ∈ bj_guests job → g ∈ guests → cg_remote g = bg_remote e → cg_vmid g = bg_vmid e →
  e ∈ bj_guests (follow_job guests job).
Proof.
  intros He Hg Hr Hv. unfold follow_job. destruct (follows_migrations job); [|done]. simpl.
  apply list_elem_of_fmap. exists e. split; [|done]. unfold follow_guest.
  destruct (locations guests (bg_vmid e)) as [|r [|r' l]] eqn:Hl; [done| |done].
  assert (cg_remote g ∈ locations guests (bg_vmid e)) as Hin by (apply locations_elem; eauto).
  rewrite Hl, list_elem_of_singleton in Hin. subst r. by rewrite Hr, String.eqb_refl.
Qed.
End follow_lemmas.

(** Following migrations changes where the selection of a job is stored, but
    not what is backed up.  With every guest known once, each job keeps its plan,
    a guest that is known on its stored remote stays there, jobs appear and
    vanish nowhere, and the reported jobs are exactly the changed ones. *)
Theorem follow_keeps_plan {C : Type} `{SectionConfigLaws C BackupJobConfig} (guests : list CachedGuest) (c : C) :
  guests_unique guests →
  let '(c', changed) := follow_migrated_guests guests c in
  ∀ id, match sc_get c id, sc_get c' id with
        | Some job, Some job' =>
            build_plan guests job' = build_plan guests job ∧ (id ∈ changed ↔ job' ≠ job) ∧
            length (bj_guests job') = length (bj_guests job) ∧
            ∀ e g, e ∈ bj_guests job → g ∈ guests → cg_remote g = bg_remote e → cg_vmid g = bg_vmid e →
              e ∈ bj_guests job'
        | None, None => id ∉ changed
        | _, _ => False
        end.
Proof.
  intros Hu. destruct (follow_migrated_guests guests c) as [c' changed] eqn:Hf. intros id.
  pose proof (follow_migrated_get guests c id) as Hget. pose proof (follow_changed guests c id) as Hch.
  rewrite Hf in Hget, Hch. simpl in *. rewrite Hget.
  destruct (sc_get c id) as [job|]; simpl; [|rewrite Hch; naive_solver].
  split_and!.
  - by apply follow_job_plan.
  - rewrite Hch. naive_solver.
  - unfold follow_job. destruct (follows_migrations job); [apply length_map|done].
  - intros e g. apply follow_job_known.
Qed.

(** Whatever sequence of requests and reconciliations runs, each stored job
    has its own id as key and a place to write its backups to, so that no remote
    is ever told to back up to its local default storage. *)
Theorem jobs_invariant {C : Type} `{SectionConfigLaws C BackupJobConfig} `{ConfigDigests C} (c c' : C) :
  rtc job_step c c' → jobs_ok c → jobs_ok c'.
Proof.
  intros Hsteps Hok. induction Hsteps as [c|c c1 c2 Hstep _ IH]; [done|]. apply IH. clear IH c2.
  intros id job Hj. destruct Hstep as [new c1 Hh|i u delete expected c1 new Hh|i expected c1 Hh|guests c1 changed Hh].
  - unfold create_job_config in Hh. run_ok Hh. case_match; simplify_eq/=.
    rewrite sc_get_insert in Hj. destruct (decide _) as [<-|]; [|by apply Hok].
    simplify_eq. split; [done|]. by destruct (has_target job).
  - unfold update_job_config in Hh. run_ok Hh. destruct (sc_get c i) as [old|] eqn:Hold; [|done]. run_ok Hh.
    simplify_eq/=. rewrite sc_get_modify in Hj. destruct (decide _) as [<-|]; [|by apply Hok].
    rewrite Hold in Hj. simplify_eq/=. split.
    + simpl. rewrite delete_job_properties_id. by apply Hok.
    + by apply negb_false_iff.
  - unfold delete_job_config in Hh. run_ok Hh. case_match; simplify_eq/=. rewrite sc_get_remove in Hj.
    destruct (decide _); [done|by apply Hok].
  - pose proof (follow_migrated_get guests c id) as Hget. rewrite Hh in Hget. simpl in Hget. rewrite Hget in Hj.
    destruct (sc_get c id) as [old|] eqn:Hold; simplify_eq/=. by apply follow_job_ok, Hok.
Qed.

Module BackupJobsDemo.
Definition jobs : Type := gmap string BackupJobConfig.
#[local] Instance jobs_config : SectionConfigData jobs BackupJobConfig := gmap_config.
#[local] Instance jobs_laws : SectionConfigLaws jobs BackupJobConfig := gmap_config_laws.

#[local] Instance job_eq_dec : EqDecision BackupJobConfig.
Proof.
  assert (EqDecision BackupJobTarget) by solve_decision.
  solve_decision.
Defined.
#[local] Instance jobs_digests : ConfigDigests jobs := gmap_digests.

Definition guest (remote : string) (vmid : Z) (node : string) (tags : list string) : CachedGuest :=
  mkCachedGuest remote vmid node "" "" tags false.

(** Selects the guest 100 of [a] and whatever is tagged [prod]. *)
Definition nightly : BackupJobConfig :=
  mkJob "nightly" None None "22:30" (Some "pbs"%string) None None [mkJobGuest "a" 100] [] ["prod"%string] []
    None None None None None None None None.

Definition migrated : list CachedGuest :=
  [guest "b" 100 "n1" []; guest "b" 7 "n2" ["prod"%string]; guest "a" 101 "n1" []].

Lemma follow_keeps_plan_witness :
  let c' := (follow_migrated_guests migrated ({["nightly"%string := nightly]} : jobs)).1 in
  bj_guests <$> sc_get c' "nightly" = Some [mkJobGuest "b" 100] ∧
  build_plan migrated (set_guests [mkJobGuest "b" 100] nightly) = build_plan migrated nightly.
Proof.
  split; [vm_compute; reflexivity|].
  refine (proj1 (follow_keeps_plan (C:=jobs) migrated {["nightly"%string := nightly]} _ "nightly"%string)).
  repeat constructor; set_solver.
Defined.

Definition no_change : BackupJobConfigUpdater :=
  mkJobUpdater None None None None None None None None None None None None None None None None None None.
Definition to_local : BackupJobConfigUpdater :=
  mkJobUpdater None None None None None (Some "local"%string) None None None None None None None None None None None None.

Definition nightly_local : BackupJobConfig :=
  set_guests [mkJobGuest "b" 100]
    (update_job to_local (foldl delete_job_property nightly [DelPbsRemote])).

Lemma jobs_invariant_witness : jobs_ok ({["nightly"%string := nightly_local]} : jobs).
Proof.
  refine (jobs_invariant (C:=jobs) ∅ {["nightly"%string := nightly_local]} _ _).
  - eapply rtc_l. { eapply (job_create _ nightly). vm_compute. reflexivity. }
    eapply rtc_l.
    { eapply (job_update _ "nightly" to_local (Some [DelPbsRemote]) None). vm_compute. reflexivity. }
    eapply rtc_l; [|apply rtc_refl].
    eapply (job_follow _ migrated). vm_compute. reflexivity.
  - intros id job Hj. destruct (lookup_empty_Some (M:=gmap string) id job Hj).
Defined.

(** Updating a job accepts the empty schedule that creating one
    refuses. *)
Theorem update_accepts_empty_schedule :
  create_job_config (update_job (mkJobUpdater None None (Some ""%string) None None None None None None None None None
    None None None None None None) nightly) (∅ : jobs) =
    Err (BAD_REQUEST "schedule: a schedule is required for job 'nightly'") ∧
  ∃ c' job', update_job_config "nightly" (mkJobUpdater None None (Some ""%string) None None None None None None None
    None None None None None None None None) None None ({["nightly"%string := nightly]} : jobs) = Ok (c', job') ∧
    bj_schedule job' = ""%string.
Proof. split; [reflexivity|]. eexists _, _. split; vm_compute; reflexivity. Qed.

Definition vm (vmid : Z) : Resource :=
  PveQemu (mkGuest f64_zero f64_zero 0 0 "" 0 0 "vm" "n1" "" "running" [] false 0 vmid).

Definition two_remotes : list (string * Remote) :=
  [("a"%string, mkRemote "a" RemoteType.Pve); ("b"%string, mkRemote "b" RemoteType.Pve)].
(** The guests that are seen while some remotes cannot be reached. *)
Definition seen (up : string → bool) : list CachedGuest :=
  default [] (result_ok (cached_pve_guests (Ok two_remotes) (λ r, if up (rm_id r) then Ok [vm 100] else Err EIo))).
Definition outage : list CachedGuest := seen (String.eqb "b").
Definition back : list CachedGuest := seen (λ _, true).
Definition only_a : BackupJobConfig := delete_job_property nightly DelTagFilters.

(** The guests of an unreachable remote are missing from the resource list.
    While the remote [a] cannot be reached, the guest 100 of the remote [b] is
    the only one with that id: the plan of a job that selects guest 100 of [a]
    backs up the other guest instead, and the reconciliation rewrites the
    selection.  Once [a] is back, the rewritten selection stays as it is and the
    guest of [a] is not backed up any more. *)
Theorem outage_moves_guest :
  bj_guests only_a = [mkJobGuest "a" 100] ∧
  rp_vmids <$> build_plan back only_a !! "a"%string = Some [100] ∧
  rp_vmids <$> build_plan outage only_a !! "a"%string = None ∧
  rp_vmids <$> build_plan outage only_a !! "b"%string = Some [100] ∧
  bj_guests (follow_job outage only_a) = [mkJobGuest "b" 100] ∧
  bj_guests (follow_job back (follow_job outage only_a)) = [mkJobGuest "b" 100] ∧
  rp_vmids <$> build_plan back (follow_job outage only_a) !! "a"%string = None.
Proof. split_and!; vm_compute; reflexivity. Qed.
End BackupJobsDemo.
