(* ===== verification/BackupSync.v ===== *)
(** * Materializing unified backup jobs

    Model of the part of [server/src/backup_jobs.rs] that talks to the remotes
    ([sync_job], [remove_job], [job_status], [run_job], [reconcile_all]) and of the
    handlers of [server/src/api/backup_jobs.rs].

    A job becomes one [cluster/backup] job on every PVE remote that owns one of
    its guests.  The laws of [PveBackupLaws] say what is documented about that
    endpoint of PVE: which job a request changes, and in which forms the values
    that were written are reported back.  Errors in results are kept as values
    instead of their texts.  Turning the answer of [vzdump] into a tracked task
    ([new_remote_upid]) is a parameter; its model is in [TaskList]. *)

From S2P Require Import Prelude FileSystem RemoteUpid SectionConfig Resource RemotesConfig RemoteData JsonValue StorageSync BackupJobs.

(** ** Payloads *)

Definition vmid_list (vmids : list Z) : Value := VString (str_join "," (map show_Z vmids)).

Definition set_strings (m : Map) (l : list (string * option string)) : Map :=
  foldl (λ m '(key, value), set_opt m key (VString <$> value)) m l.

Definition desired_payload (job : BackupJobConfig) (plan : RemotePlan) (storage : string) : Map :=
  let payload := [("vmid"%string, vmid_list (rp_vmids plan)); ("storage"%string, VString storage);
                  ("enabled"%string, VNumber (NInt (if default false (bj_disable job) then 0 else 1)));
                  ("comment"%string, VString (default ("PDM job '" +:+ bj_id job +:+ "'") (bj_comment job)))] in
  let payload := if String.eqb (bj_schedule job) "" then payload
                 else map_set payload "schedule" (VString (bj_schedule job)) in
  let payload := set_strings payload
    [("mode"%string, bj_mode job); ("compress"%string, bj_compress job); ("prune-backups"%string, bj_prune_backups job);
     ("notes-template"%string, bj_notes_template job); ("mailto"%string, bj_mailto job);
     ("mailnotification"%string, bj_mailnotification job)] in
  set_opt payload "bwlimit" (VNumber ∘ NInt <$> bj_bwlimit job).

Definition as_bool (value : option Value) : option bool :=
  value ← value;
  match value with
  | VBool b => Some b
  | VNumber n => z ← number_as_i64 n; Some (negb (z =? 0))
  | VString s =>
      if existsb (String.eqb s) ["1"; "true"; "yes"]%string then Some true
      else if existsb (String.eqb s) ["0"; "false"; "no"]%string then Some false
      else None
  | _ => None
  end.

Definition as_string (value : option Value) : option string :=
  value ← value;
  match value with
  | VString s => Some s
  | VNumber n => Some (number_to_string n)
  | VBool b => Some (if b then "true" else "false")%string
  | _ => None
  end.

Definition parse_u32 : string → option Z := parse_unsigned 32.

Definition normalized_vmid_list (value : option Value) : list Z :=
  dedup_by Z.eqb (sort_by Z.compare
    (omap (M:=list) (λ entry, parse_u32 (trim entry)) (split_comma (default ""%string (as_string value))))).

Section payload_text.
Context `{ValueText}.

Definition property_entry (key : string) (value : Value) : string :=
  key +:+ "=" +:+
  match value with
  | VString s => s
  | VBool b => if b then "1" else "0"
  | value => value_to_string value
  end.
Definition property_string_from_object (map : Map) : string :=
  str_join "," ((λ '(key, value), property_entry key value) <$> map).

Definition property_parts (text : string) : list string :=
  List.filter (λ part, negb (String.eqb part "")) (map trim (split_comma text)).

Definition normalized_property_string (value : option Value) : option string :=
  value ← value;
  text ← match value with
         | VString s => Some s
         | VObject m => Some (property_string_from_object m)
         | _ => None
         end;
  Some (str_join "," (sort_by String.compare (property_parts text))).

Definition compared_keys : list string :=
  ["schedule"; "storage"; "mode"; "compress"; "notes-template"; "mailto"; "mailnotification"; "bwlimit"]%string.

(** [desired.is_some() && desired != existing] *)
Definition differs (desired existing : option string) : bool :=
  match desired with Some _ => negb (bool_decide (desired = existing)) | None => false end.

Definition is_in_sync (existing desired : Value) : bool :=
  bool_decide (normalized_vmid_list (get existing "vmid") = normalized_vmid_list (get desired "vmid")) &&
  Bool.eqb (default true (as_bool (get existing "enabled"))) (default true (as_bool (get desired "enabled"))) &&
  negb (differs (normalized_property_string (get desired "prune-backups"))
                (normalized_property_string (get existing "prune-backups"))) &&
  forallb (λ key, negb (differs (as_string (get desired key)) (as_string (get existing key)))) compared_keys &&
  negb (default false (as_bool (get existing "all")) || match get existing "pool" with Some _ => true | None => false end).
End payload_text.

Definition allows_backups (storage : Value) : bool :=
  match str_field storage "content" with
  | Some content => existsb (λ entry, String.eqb (trim entry) "backup") (split_comma content)
  | None => true
  end.

(** [percent_encode(.., NON_ALPHANUMERIC)] *)
Class PercentEncode := encode_id : string → string.

Definition backup_path : string := "/api2/extjs/cluster/backup".
Definition job_path `{PercentEncode} (id : string) : string := "/api2/extjs/cluster/backup/" +:+ encode_id id.

Definition find_job (jobs : list Value) (id : string) : option Value :=
  List.find (λ job, is_str (str_field job "id") id) jobs.

Inductive BackupJobSyncState : Type := Synced | OutOfSync | Missing | SyncError.

Record BackupJobRemoteStatus : Type := mkStatus {
  bs_remote : string;
  bs_job_id : string;
  bs_state : BackupJobSyncState;
  bs_guest_count : Z;
  bs_storage : option string;
  bs_error : option error;
}.

Section sync.
Context {W : Type} `{RemoteWorld W} `{PercentEncode} `{ValueText} (authid_to_string : Authid → string).

Definition resolve_storage (remote : string) (job : BackupJobConfig) : net W string :=
  storages ← list_pve_storages remote;
  match storage_for job remote with
  | Some configured =>
      entry ← net_lift (ok_or (find_storage_by_id storages configured)
        (EMsg ("storage '" +:+ configured +:+ "' does not exist on remote '" +:+ remote +:+ "'")));
      _ ← net_lift (bail_if (negb (allows_backups entry))
        (EMsg ("storage '" +:+ configured +:+ "' on remote '" +:+ remote +:+ "' does not hold backup content")));
      mret configured
  | None =>
      pbs_remote ← net_lift (ok_or (bj_pbs_remote job)
        (EMsg ("backup job '" +:+ bj_id job +:+ "' has no target: select a backup server or a storage for remote '"
               +:+ remote +:+ "'")));
      info ← pbs_connection_info authid_to_string pbs_remote;
      net_lift (ok_or (find_matching_storage storages (ci_server info) (bj_pbs_datastore job) ≫= λ s, str_field s "storage")
        (EMsg ("remote '" +:+ remote +:+ "' has no storage for the backup server '" +:+ pbs_remote +:+ "', add it first")))
  end.

Definition list_remote_jobs (remote : string) : net W (list Value) :=
  _ ← raw_client_to_remote_by_id remote;
  data ← send GET remote backup_path None;
  match data with
  | VArray jobs => mret jobs
  | _ => net_fail (EMsg "unexpected response from cluster/backup")
  end.

Definition apply_on_remote (remote : string) (job : BackupJobConfig) (plan : RemotePlan) : net W string :=
  storage ← resolve_storage remote job;
  let derived_id := derived_job_id (bj_id job) in
  jobs ← list_remote_jobs remote;
  let payload := desired_payload job plan storage in
  _ ← raw_client_to_remote_by_id remote;
  _ ← match find_job jobs derived_id with
      | Some _ =>
          let payload := map_set payload "delete" (VString "all,pool,exclude,node") in
          send_nodata PUT remote (job_path derived_id) (Some (VObject payload))
      | None =>
          let payload := map_set payload "id" (VString derived_id) in
          send_nodata POST remote backup_path (Some (VObject payload))
      end;
  mret storage.

Definition remove_on_remote (remote job_id : string) : net W unit :=
  let derived_id := derived_job_id job_id in
  jobs ← list_remote_jobs remote;
  match find_job jobs derived_id with
  | None => mret tt
  | Some _ =>
      _ ← raw_client_to_remote_by_id remote;
      send_nodata DELETE remote (job_path derived_id) None
  end.

Definition plan_of (job : BackupJobConfig) : net W (gmap string RemotePlan) :=
  guests ← (rw_guests : net W (list CachedGuest));
  mret (build_plan guests job).

Definition guest_count (plan : RemotePlan) : Z := as_u32 (Z.of_nat (length (rp_vmids plan))).

Definition applied_status (remote derived_id : string) (plan : RemotePlan) (r : result error string)
    : BackupJobRemoteStatus :=
  match r with
  | Ok storage => mkStatus remote derived_id Synced (guest_count plan) (Some storage) None
  | Err err => mkStatus remote derived_id SyncError (guest_count plan) (rp_storage plan) (Some err)
  end.

(** One round of the loop of [sync_job]. *)
Definition sync_remote (job : BackupJobConfig) (plan : gmap string RemotePlan) (remote : string)
    : net W (list BackupJobRemoteStatus) :=
  match plan !! remote with
  | Some remote_plan =>
      r ← net_try (apply_on_remote remote job remote_plan);
      mret [applied_status remote (derived_job_id (bj_id job)) remote_plan r]
  | None => _ ← net_try (remove_on_remote remote (bj_id job)); mret []
  end.

Definition sync_job (job : BackupJobConfig) : net W (list BackupJobRemoteStatus) :=
  plan ← plan_of job;
  ids ← pve_remote_ids None;
  status ← net_collect (sync_remote job plan) ids;
  mret (concat status).

(** [remove_job]: the errors are those of the remotes that failed. *)
Definition remove_job (job_id : string) : net W unit :=
  ids ← pve_remote_ids None;
  results ← net_collect (λ remote, r ← net_try (remove_on_remote remote job_id); mret (remote, r)) ids;
  match omap (M:=list) (λ '(remote, r), match r with Ok _ => None | Err e => Some (remote : string, e : error) end) results with
  | [] => mret tt
  | _ => net_fail (EMsg "could not remove the job from some remotes")
  end.

(** The iteration order of a [BTreeMap]. *)
Definition plan_entries (plan : gmap string RemotePlan) : list (string * RemotePlan) :=
  sort_by (cmp_on fst String.compare) (map_to_list plan).

Definition remote_status (job : BackupJobConfig) (entry : string * RemotePlan) : net W BackupJobRemoteStatus :=
  let '(remote, remote_plan) := entry in
  let derived_id := derived_job_id (bj_id job) in
  let status := mkStatus remote derived_id in
  r ← net_try (resolve_storage remote job);
  match r with
  | Err err => mret (status SyncError (guest_count remote_plan) (rp_storage remote_plan) (Some err))
  | Ok storage =>
      jobs ← net_try (list_remote_jobs remote);
      mret (match jobs with
            | Err err => status SyncError (guest_count remote_plan) (Some storage) (Some err)
            | Ok jobs =>
                status (match find_job jobs derived_id with
                        | Some existing =>
                            if is_in_sync existing (VObject (desired_payload job remote_plan storage)) then Synced else OutOfSync
                        | None => Missing
                        end) (guest_count remote_plan) (Some storage) None
            end)
  end.

Definition stale_status (job : BackupJobConfig) (plan : gmap string RemotePlan) (remote : string)
    : net W (list BackupJobRemoteStatus) :=
  match plan !! remote with
  | Some _ => mret []
  | None =>
      let derived_id := derived_job_id (bj_id job) in
      jobs ← net_try (list_remote_jobs remote);
      mret (match jobs with
            | Ok jobs =>
                match find_job jobs derived_id with
                | Some _ => [mkStatus remote derived_id OutOfSync 0 None
                               (Some (EMsg "stale job, no guest of this remote is selected"))]
                | None => []
                end
            | Err _ => []
            end)
  end.

Definition job_status (job : BackupJobConfig) : net W (list BackupJobRemoteStatus) :=
  plan ← plan_of job;
  status ← net_collect (remote_status job) (plan_entries plan);
  ids ← pve_remote_ids None;
  stale ← net_collect (stale_status job plan) ids;
  mret (status ++ concat stale).

(** ** Immediate runs *)

(** The guests of a remote per node; the first guest whose node is unknown makes
    the whole run fail. *)
Fixpoint per_node (nodes : gmap Z string) (vmids : list Z) (acc : gmap string (list Z)) : result Z (gmap string (list Z)) :=
  match vmids with
  | [] => Ok acc
  | vmid :: vmids =>
      match nodes !! vmid with
      | None => Err vmid
      | Some node => per_node nodes vmids (<[node := default [] (acc !! node) ++ [vmid]]> acc)
      end
  end.

Definition run_payload (job : BackupJobConfig) (vmids : list Z) (storage : string) : Map :=
  let payload := [("vmid"%string, vmid_list vmids); ("storage"%string, VString storage)] in
  let payload := set_strings payload
    [("mode"%string, bj_mode job); ("compress"%string, bj_compress job); ("prune-backups"%string, bj_prune_backups job);
     ("notes-template"%string, bj_notes_template job); ("mailto"%string, bj_mailto job)] in
  set_opt payload "bwlimit" (VNumber ∘ NInt <$> bj_bwlimit job).

Definition vzdump_path (node : string) : string := "/api2/extjs/nodes/" +:+ node +:+ "/vzdump".

Context (new_remote_upid : string → Value → net W RemoteUpid).

Definition run_node (job : BackupJobConfig) (remote storage : string) (entry : string * list Z)
    : net W (result error RemoteUpid) :=
  net_try (_ ← raw_client_to_remote_by_id remote;
           data ← send POST remote (vzdump_path entry.1) (Some (VObject (run_payload job entry.2 storage)));
           new_remote_upid remote data).

(** One round of the loop of [run_job]: the started tasks and the errors. *)
Definition run_remote (job : BackupJobConfig) (entry : string * RemotePlan) : net W (list (result error RemoteUpid)) :=
  let '(remote, remote_plan) := entry in
  r ← net_try (resolve_storage remote job);
  match r with
  | Err err => mret [Err err]
  | Ok storage =>
      match per_node (rp_nodes remote_plan) (rp_vmids remote_plan) ∅ with
      | Err vmid => net_fail (EMsg ("unknown node for guest " +:+ show_Z vmid +:+ " on remote " +:+ remote))
      | Ok nodes =>
          net_collect (run_node job remote storage) (sort_by (cmp_on fst String.compare) (map_to_list nodes))
      end
  end.

Definition run_job (job : BackupJobConfig) : net W (list RemoteUpid) :=
  plan ← plan_of job;
  _ ← net_lift (bail_if (bool_decide (plan = ∅)) (EMsg "job does not select any guest"));
  results ← net_collect (run_remote job) (plan_entries plan);
  let results := concat results in
  let upids := omap (M:=list) result_ok results in
  let errors := List.filter (λ r, if result_ok r is None then true else false) results in
  _ ← net_lift (bail_if (bool_decide (upids = []) && negb (match errors with [] => true | _ => false end))
                  (EMsg "could not start any backup"));
  mret upids.
End sync.

(** ** The handlers

    The configuration of the jobs and the world change together.  A request locks,
    reads and saves the configuration, then materializes the job; errors of the
    latter are only logged. *)

Section handlers.
Context {C W : Type} `{SectionConfigData C BackupJobConfig} `{ConfigDigests C}
        `{RemoteWorld W} `{PercentEncode} `{ValueText} (authid_to_string : Authid → string).

Definition synced (job : BackupJobConfig) (w : W) : W := (sync_job authid_to_string job w).2.

Definition create_backup_job (job : BackupJobConfig) (c : C) (w : W) : result api_error unit * C * W :=
  match create_job_config job c with
  | Err e => (Err e, c, w)
  | Ok c' => (Ok tt, c', synced job w)
  end.

Definition update_backup_job (id : string) (update : BackupJobConfigUpdater) (delete : option (list DeletableProperty))
    (expected : option digest) (c : C) (w : W) : result api_error unit * C * W :=
  match update_job_config id update delete expected c with
  | Err e => (Err e, c, w)
  | Ok (c', job) => (Ok tt, c', synced job w)
  end.

Definition delete_backup_job (id : string) (expected : option digest) (c : C) (w : W) : result api_error unit * C * W :=
  match remove_job id w with
  | (Err _, w') => (Err (OTHER "could not remove the job from some remotes"), c, w')
  | (Ok _, w') =>
      match delete_job_config id expected c with
      | Err e => (Err e, c, w')
      | Ok c' => (Ok tt, c', w')
      end
  end.

(** [reconcile_all]: following the migrated guests fails if the guests cannot be
    listed; that and the errors of a job are only logged. *)
Definition reconcile_all (c : C) (w : W) : C * W :=
  let '(guests, w) := rw_guests w in
  let c := match guests with Ok guests => (follow_migrated_guests guests c).1 | Err _ => c end in
  (c, foldl (λ w job, synced job w) w (list_backup_jobs c)).
End handlers.
