(* ===== verification/BackupConverge.v ===== *)
(** * Unified backup jobs: the remotes converge

    What the requests of [BackupSync] achieve on the remotes: a job that was
    materialized is reported as in sync whatever form PVE reports its settings in,
    other jobs are never touched, and removing a job removes it everywhere. *)

From S2P Require Import Prelude FileSystem RemoteUpid SectionConfig Resource Search RemotesConfig RemoteData JsonValue StorageSync BackupJobs BackupSync.

(** ** How PVE reports what was written *)

(** A number may come back as its text and the other way round. *)
Inductive scalar_as : Value → Value → Prop :=
| scalar_same v : scalar_as v v
| scalar_text z : scalar_as (VNumber (NInt z)) (VString (show_Z z))
| scalar_number z : scalar_as (VString (show_Z z)) (VNumber (NInt z)).

(** A guest list may come back in another order, a single guest as a number. *)
Inductive vmids_as (l : list Z) : Value → Prop :=
| vmids_text l' : l' ≡ₚ l → vmids_as l (vmid_list l')
| vmids_number z : l = [z] → vmids_as l (VNumber (NInt z)).

(** A flag may come back as a number, a text or a boolean; jobs are enabled by
    default. *)
Inductive flag_as : Z → option Value → Prop :=
| flag_number z : flag_as z (Some (VNumber (NInt z)))
| flag_text z : flag_as z (Some (VString (show_Z z)))
| flag_bool z : flag_as z (Some (VBool (negb (z =? 0))))
| flag_default : flag_as 1 None.

(** Property strings are taken as text and reported as objects. *)
Definition property_char (a : ascii) : bool := byte_between 33 43 a || byte_between 45 126 a.
Inductive property_value : string → Value → Prop :=
| property_text t : property_value t (VString t)
| property_number z : property_value (show_Z z) (VNumber (NInt z))
| property_flag (b : bool) : property_value (if b then "1" else "0") (VBool b).
Inductive property_as (s : string) : Value → Prop :=
| property_same : property_as s (VString s)
| property_object (l : list (string * string)) (m : Map) :
    Forall2 (λ kt kv, kt.1 = kv.1 ∧ property_value kt.2 kv.2) l m →
    (λ kt, kt.1 +:+ "=" +:+ kt.2) <$> l ≡ₚ property_parts s →
    Forall (λ kt, str_forall property_char kt.1 = true ∧ str_forall property_char kt.2 = true) l →
    property_as s (VObject m).

(** The job that is reported after the members of [m] were written. *)
Record reports (m : Map) (v : Value) : Prop := {
  rep_scalar key sent : key ∈ compared_keys → map_get m key = Some sent →
    ∃ got, get v key = Some got ∧ scalar_as sent got;
  rep_vmid l : map_get m "vmid" = Some (vmid_list l) → ∃ got, get v "vmid" = Some got ∧ vmids_as l got;
  rep_enabled z : map_get m "enabled" = Some (VNumber (NInt z)) → flag_as z (get v "enabled");
  rep_prune s : map_get m "prune-backups" = Some (VString s) → ∃ got, get v "prune-backups" = Some got ∧ property_as s got;
}.

(** ** Comparing reports *)

Lemma sort_by_unique {A} (cmp : A → A → comparison) `{!TotalCmp cmp} l l' :
  (∀ x y, cmp x y = Eq → x = y) → l ≡ₚ l' → sort_by cmp l = sort_by cmp l'.
Proof.
  intros Heq Hp. assert (AntiSymm (=) (cle cmp)) as Hanti.
  { intros x y Hxy Hyx. apply Heq. unfold cle in *. rewrite (cmp_antisym cmp x y) in Hyx. by destruct (cmp x y). }
  apply (StronglySorted_unique (cle cmp)); [apply sort_by_sorted; apply _..|].
  by rewrite !sort_by_perm.
Qed.

Definition plain_char (a : ascii) : bool := byte_between 33 126 a.

Lemma plain_no_ws s : str_forall plain_char s = true → ws_len s = 0%nat.
Proof.
  destruct s as [|a s]; [done|]. simpl. intros [Ha _]%andb_true_iff.
  assert (ws1 a = false ∧ byte_is 194 a = false ∧ byte_is 225 a = false ∧ byte_is 226 a = false ∧ byte_is 227 a = false)
    as (->&H2&H3&H4&H5).
  { revert Ha. clear. destruct a as [[] [] [] [] [] [] [] []]; vm_compute; intuition done. }
  unfold ws2, ws3. rewrite H2, H3, H4, H5. by destruct s as [|b [|c s]].
Qed.

Lemma trim_start_plain s : str_forall plain_char s = true → trim_start s = s.
Proof. intros Hs. unfold trim_start. destruct (String.length s); [done|]. simpl. by rewrite plain_no_ws. Qed.

Lemma trim_plain s : str_forall plain_char s = true → trim s = s.
Proof.
  intros Hs. unfold trim. rewrite trim_start_plain by done. induction s as [|a s IH]; [done|].
  cbn [trim_end]. rewrite trim_start_plain by done. simpl in Hs. apply andb_true_iff in Hs as [_ Hs].
  rewrite IH by done. done.
Qed.

Lemma str_forall_impl (P Q : ascii → bool) s :
  (∀ a, P a = true → Q a = true) → str_forall P s = true → str_forall Q s = true.
Proof.
  intros HPQ. induction s as [|a s IH]; simpl; [done|]. intros [Ha Hs]%andb_true_iff.
  by rewrite (HPQ a Ha), IH.
Qed.

Lemma show_Z_plain z : str_forall plain_char (show_Z z) = true.
Proof.
  eapply str_forall_impl, show_Z_chars. intros a. destruct a as [[] [] [] [] [] [] [] []]; vm_compute; done.
Qed.

Lemma vmid_entries l : Forall (λ s, char_in "," s = false) (map show_Z l).
Proof. apply Forall_fmap, Forall_true. intros z. simpl. by apply show_Z_no_char. Qed.

Lemma normalized_vmids l :
  normalized_vmid_list (Some (vmid_list l)) =
  dedup_by Z.eqb (sort_by Z.compare (omap (M:=list) (λ z, parse_u32 (show_Z z)) l)).
Proof.
  unfold normalized_vmid_list, vmid_list. simpl. do 2 f_equal. destruct (decide (l = [])) as [->|Hne]; [done|].
  rewrite split_comma_join; [|apply vmid_entries|by destruct l].
  clear Hne. induction l as [|z l IH]; [done|]. simpl. rewrite trim_plain by apply show_Z_plain.
  destruct (parse_u32 (show_Z z)); [f_equal|]; exact IH.
Qed.

Lemma vmids_as_normalized l got :
  vmids_as l got → normalized_vmid_list (Some got) = normalized_vmid_list (Some (vmid_list l)).
Proof.
  intros [l' Hp|z ->].
  - rewrite !normalized_vmids. f_equal. apply sort_by_unique; [apply _|by intros x y ?%Z.compare_eq|].
    by apply omap_Permutation.
  - done.
Qed.

Lemma scalar_as_string sent got : scalar_as sent got → as_string (Some got) = as_string (Some sent).
Proof. by intros []. Qed.

Lemma flag_as_bool z o : z = 0 ∨ z = 1 → flag_as z o → default true (as_bool o) = negb (z =? 0).
Proof. intros [-> | ->]; intros Hf; inversion Hf; subst; reflexivity. Qed.

Definition entry_text (kt : string * string) : string := kt.1 +:+ "=" +:+ kt.2.

Lemma property_char_plain a : property_char a = true → plain_char a = true.
Proof. destruct a as [[] [] [] [] [] [] [] []]; vm_compute; done. Qed.

Lemma entry_text_chars kt :
  str_forall property_char kt.1 = true → str_forall property_char kt.2 = true →
  str_forall property_char (entry_text kt) = true.
Proof. intros H1 H2. unfold entry_text. rewrite !str_forall_app, H1, H2. done. Qed.

Lemma entry_text_nonempty kt : String.eqb (entry_text kt) "" = false.
Proof. unfold entry_text. destruct kt as [k t]. by destruct k. Qed.

Lemma property_parts_join l :
  Forall (λ kt, str_forall property_char kt.1 = true ∧ str_forall property_char kt.2 = true) l →
  property_parts (str_join "," (entry_text <$> l)) = entry_text <$> l.
Proof.
  intros Hl. unfold property_parts. destruct (decide (l = [])) as [->|Hne]; [done|].
  assert (Forall (λ s, str_forall property_char s = true) (entry_text <$> l)) as Hc.
  { apply Forall_fmap. eapply Forall_impl; [exact Hl|]. intros kt []. by apply entry_text_chars. }
  rewrite split_comma_join; [| |by destruct l].
  2: { eapply Forall_impl; [exact Hc|]. intros s Hs. simpl. by apply (str_forall_not_in property_char). }
  clear Hne. induction l as [|kt l IH]; [done|]. apply Forall_cons in Hl as [_ Hl].
  rewrite fmap_cons in Hc |- *. apply Forall_cons in Hc as [Hkt Hc]. cbn [map List.filter].
  rewrite trim_plain by (eapply str_forall_impl; [apply property_char_plain|done]).
  rewrite entry_text_nonempty. cbn [negb]. f_equal. by apply IH.
Qed.

Section in_sync.
Context `{ValueText}.

Lemma property_object_text l m :
  Forall2 (λ kt kv, kt.1 = kv.1 ∧ property_value kt.2 kv.2) l m →
  property_string_from_object m = str_join "," (entry_text <$> l).
Proof.
  intros Hlm. unfold property_string_from_object. f_equal.
  induction Hlm as [|[k t] [k' v] l m [Hk Hv] Hlm IH]; [done|]. simpl in Hk, Hv. subst k'.
  rewrite !fmap_cons, IH. f_equal. unfold property_entry, entry_text. simpl. by inversion Hv; subst.
Qed.

Lemma property_as_normalized s got :
  property_as s got → normalized_property_string (Some got) = normalized_property_string (Some (VString s)).
Proof.
  intros [|l m Hlm Hp Hl]; [done|]. unfold normalized_property_string. cbn [mbind option_bind].
  rewrite (property_object_text l m Hlm), property_parts_join by done. do 2 f_equal.
  apply sort_by_unique; [apply _|by intros x y ?%string_compare_Eq|done].
Qed.

Lemma differs_same o : differs o o = false.
Proof. destruct o; [|done]. simpl. by rewrite bool_decide_true. Qed.

(** Whatever was written is recognized in every form it may be reported in. *)
Lemma reports_in_sync m v l z :
  map_get m "vmid" = Some (vmid_list l) → map_get m "enabled" = Some (VNumber (NInt z)) → z = 0 ∨ z = 1 →
  (∀ x, map_get m "prune-backups" = Some x → ∃ s, x = VString s) →
  reports m v → get v "all" = None → get v "pool" = None →
  is_in_sync v (VObject m) = true.
Proof.
  intros Hvmid Hen Hz Hprune Hrep Hall Hpool. unfold is_in_sync.
  change (get (VObject m)) with (map_get m). rewrite Hall, Hpool, Hvmid, Hen.
  destruct (rep_vmid _ _ Hrep l Hvmid) as (got&->&Hgot). rewrite (vmids_as_normalized l got Hgot).
  rewrite (flag_as_bool z _ Hz (rep_enabled _ _ Hrep z Hen)), bool_decide_true by done.
  assert (default true (as_bool (Some (VNumber (NInt z)))) = negb (z =? 0)) as -> by (by destruct Hz as [->| ->]).
  rewrite eqb_reflx. cbn [andb orb negb default as_bool mbind option_bind].
  apply andb_true_iff. split; [|done]. apply andb_true_iff. split.
  - destruct (map_get m "prune-backups") as [x|] eqn:Hx; [|done]. destruct (Hprune x eq_refl) as [s ->].
    destruct (rep_prune _ _ Hrep s Hx) as (got'&->&Hgot'). rewrite (property_as_normalized s got' Hgot').
    by rewrite differs_same.
  - apply forallb_forall. intros key Hkey%list_elem_of_In. destruct (map_get m key) as [sent|] eqn:Hsent; [|done].
    destruct (rep_scalar _ _ Hrep key sent Hkey Hsent) as (got'&->&Hgot').
    by rewrite (scalar_as_string sent got' Hgot'), differs_same.
Qed.
End in_sync.

(** ** The remotes *)

(** What a remote would report about its backup jobs and its storages. *)
Class PveView (W : Type) := {
  pv_jobs : W → string → list Value;
  pv_storages : W → string → list Value;
}.

Section world.
Context {W : Type} `{RemoteWorld W} `{PercentEncode} `{PveView W}.

(** Neither the local configuration nor a storage of a remote changed. *)
Definition frame (w w' : W) : Prop :=
  rw_remotes w' = rw_remotes w ∧ ∀ r, pv_storages w' r = pv_storages w r.
Definition unchanged (w w' : W) : Prop := frame w w' ∧ ∀ r, pv_jobs w' r = pv_jobs w r.

(** At most the job [id] changed; at most jobs of the remote [r] changed. *)
Definition only_job (id : string) (w w' : W) : Prop :=
  frame w w' ∧ ∀ r id', id' ≠ id → find_job (pv_jobs w' r) id' = find_job (pv_jobs w r) id'.
Definition only_remote (r : string) (w w' : W) : Prop :=
  frame w w' ∧ ∀ r', r' ≠ r → pv_jobs w' r' = pv_jobs w r'.
Definition only (r id : string) (w w' : W) : Prop := only_job id w w' ∧ only_remote r w w'.
End world.

(** The [cluster/backup] endpoint of PVE.  A failed write may have changed the job
    it is about, but no other one. *)
Class PveBackupLaws (W : Type) `{RemoteWorld W} `{PercentEncode} `{PveView W} : Prop := {
  law_guests w : unchanged w (rw_guests w).2;
  law_get r p w : unchanged w (rw_send GET r p None w).2;
  law_get_jobs r w v : (rw_send GET r backup_path None w).1 = Ok v → v = VArray (pv_jobs w r);
  law_get_storages r w v : (rw_send GET r "/api2/extjs/storage" None w).1 = Ok v → v = VArray (pv_storages w r);
  law_put r id m w : only r id w (rw_send_nodata PUT r (job_path id) (Some (VObject m)) w).2;
  law_post r id m w : map_get m "id" = Some (VString id) →
    only r id w (rw_send_nodata POST r backup_path (Some (VObject m)) w).2;
  law_delete r id w : only r id w (rw_send_nodata DELETE r (job_path id) None w).2;
  law_put_ok r id m w w' : rw_send_nodata PUT r (job_path id) (Some (VObject m)) w = (Ok tt, w') →
    ∃ v, find_job (pv_jobs w' r) id = Some v ∧ reports m v ∧
      ∀ d key, map_get m "delete" = Some (VString d) → key ∈ split_comma d → map_get m key = None → get v key = None;
  law_post_ok r id m w w' : map_get m "id" = Some (VString id) →
    rw_send_nodata POST r backup_path (Some (VObject m)) w = (Ok tt, w') →
    ∃ v, find_job (pv_jobs w' r) id = Some v ∧ reports m v ∧
      ∀ key, key ∈ ["all"; "pool"]%string → map_get m key = None → get v key = None;
  law_delete_ok r id w w' : rw_send_nodata DELETE r (job_path id) None w = (Ok tt, w') →
    find_job (pv_jobs w' r) id = None;
}.

(** What every step preserves, the composition preserves. *)
Definition net_rel {W A} (R : relation W) (c : net W A) : Prop := ∀ w, R w (c w).2.

Section net_rel.
Context {W : Type} (R : relation W) `{!PreOrder R}.

Lemma net_rel_ret {A} (a : A) : net_rel R (mret a).
Proof. intros w. simpl. reflexivity. Qed.
Lemma net_rel_lift {A} (r : result error A) : net_rel R (net_lift r).
Proof. intros w. simpl. reflexivity. Qed.
Lemma net_rel_fail {A} e : net_rel R (net_fail (A:=A) e).
Proof. intros w. simpl. reflexivity. Qed.
Lemma net_rel_bind {A B} (c : net W A) (k : A → net W B) :
  net_rel R c → (∀ a, net_rel R (k a)) → net_rel R (c ≫= k).
Proof.
  intros Hc Hk w. specialize (Hc w). rewrite net_bind_run. destruct (c w) as [[a|e] w']; simpl in *; [|done].
  etrans; [exact Hc|apply Hk].
Qed.
Lemma net_rel_try {A} (c : net W A) : net_rel R c → net_rel R (net_try c).
Proof. intros Hc w. specialize (Hc w). unfold net_try. by destruct (c w). Qed.
Lemma net_rel_collect {A B} (f : A → net W B) l : (∀ x, x ∈ l → net_rel R (f x)) → net_rel R (net_collect f l).
Proof.
  induction l as [|x l IH]; intros Hf; simpl; [apply net_rel_ret|].
  apply net_rel_bind; [apply Hf; left|]. intros y. apply net_rel_bind; [|intros ys; apply net_rel_ret].
  apply IH. intros x' Hx'. apply Hf. by right.
Qed.
End net_rel.

Create HintDb net.

(** Peel a computation apart; what is left are the steps themselves. *)
Ltac net_steps :=
  repeat first
    [ apply net_rel_ret; apply _ | apply net_rel_lift; apply _ | apply net_rel_fail; apply _
    | solve [eauto with net]
    | apply net_rel_try
    | apply net_rel_bind; [apply _| |intros ?]
    | match goal with |- net_rel _ (match ?x with _ => _ end) => destruct x end ].

Lemma net_rel_sub {W A} (R R' : relation W) (c : net W A) : (∀ w w', R w w' → R' w w') → net_rel R c → net_rel R' c.
Proof. intros HR Hc w. apply HR, Hc. Qed.

Section laws.
Context {W : Type} `{PveBackupLaws W} `{ValueText} (authid_to_string : Authid → string).

#[export] Instance unchanged_preorder : PreOrder unchanged.
Proof.
  split; [done|]. intros w1 w2 w3 [[H12 S12] J12] [[H23 S23] J23]. split; [split|]; [congruence|..]; intros r.
  - by rewrite S23.
  - by rewrite J23.
Qed.
#[export] Instance only_preorder r id : PreOrder (only r id).
Proof.
  split; [done|]. intros w1 w2 w3 [[[H12 S12] J12] [_ R12]] [[[H23 S23] J23] [_ R23]].
  assert (frame w1 w3) by (split; [congruence|]; intros r'; by rewrite S23).
  split; (split; [done|]).
  - intros r' id' Hne. by rewrite J23, J12.
  - intros r' Hne. by rewrite R23, R12.
Qed.
#[export] Instance only_job_preorder id : PreOrder (only_job id).
Proof.
  split; [done|]. intros w1 w2 w3 [[H12 S12] J12] [[H23 S23] J23].
  split; [split; [congruence|]; intros r'; by rewrite S23|]. intros r' id' Hne. by rewrite J23, J12.
Qed.

Lemma unchanged_only r id w w' : unchanged w w' → only r id w w'.
Proof. intros [Hf Hj]. split; (split; [done|]); intros; by rewrite Hj. Qed.
Lemma only_only_job r id w w' : only r id w w' → only_job id w w'.
Proof. by intros [? _]. Qed.

(** Reading does not change anything. *)
Lemma config_unchanged : net_rel unchanged (remotes_config (W:=W)).
Proof. done. Qed.
Lemma make_client_unchanged r : net_rel unchanged (make_raw_client (W:=W) r).
Proof. done. Qed.
Lemma send_get_unchanged r p : net_rel unchanged (send GET r p None).
Proof. intros w. apply law_get. Qed.
Lemma guests_unchanged : net_rel unchanged (rw_guests (W:=W)).
Proof. intros w. apply law_guests. Qed.
#[local] Hint Resolve config_unchanged make_client_unchanged send_get_unchanged guests_unchanged : net.

Lemma raw_client_unchanged id : net_rel unchanged (raw_client_to_remote_by_id id).
Proof. unfold raw_client_to_remote_by_id. net_steps. Qed.
#[local] Hint Resolve raw_client_unchanged : net.

Lemma list_storages_unchanged r : net_rel unchanged (list_pve_storages r).
Proof. unfold list_pve_storages. net_steps. Qed.
Lemma list_jobs_unchanged r : net_rel unchanged (list_remote_jobs r).
Proof. unfold list_remote_jobs. net_steps. Qed.
Lemma connection_info_unchanged r : net_rel unchanged (pbs_connection_info authid_to_string r).
Proof. unfold pbs_connection_info. net_steps. Qed.
#[local] Hint Resolve list_storages_unchanged list_jobs_unchanged connection_info_unchanged : net.

Lemma resolve_storage_unchanged r job : net_rel unchanged (resolve_storage authid_to_string r job).
Proof. unfold resolve_storage. net_steps. Qed.
Lemma remote_ids_unchanged sel : net_rel unchanged (pve_remote_ids (W:=W) sel).
Proof. unfold pve_remote_ids. net_steps. Qed.
Lemma plan_of_unchanged job : net_rel unchanged (plan_of (W:=W) job).
Proof. unfold plan_of. net_steps. Qed.
#[local] Hint Resolve resolve_storage_unchanged remote_ids_unchanged plan_of_unchanged : net.

Lemma remote_status_unchanged job entry : net_rel unchanged (remote_status authid_to_string job entry).
Proof. unfold remote_status. destruct entry. net_steps. Qed.

(** Writing changes one job of one remote. *)
Lemma put_only r id m : net_rel (only r id) (send_nodata (W:=W) PUT r (job_path id) (Some (VObject m))).
Proof. intros w. apply law_put. Qed.
Lemma post_only r id m :
  net_rel (only r id) (send_nodata (W:=W) POST r backup_path (Some (VObject (map_set m "id" (VString id))))).
Proof. intros w. apply law_post. by rewrite map_get_set. Qed.
Lemma delete_only r id : net_rel (only r id) (send_nodata (W:=W) DELETE r (job_path id) None).
Proof. intros w. apply law_delete. Qed.
Lemma read_only {A} r id (c : net W A) : net_rel unchanged c → net_rel (only r id) c.
Proof. apply net_rel_sub. intros w w'. apply unchanged_only. Qed.
#[local] Hint Resolve put_only post_only delete_only : net.
#[local] Hint Extern 2 (net_rel (only _ _) _) => apply read_only : net.

Lemma apply_only r job plan :
  net_rel (only r (derived_job_id (bj_id job))) (apply_on_remote authid_to_string r job plan).
Proof. unfold apply_on_remote. net_steps. Qed.
Lemma remove_only r id : net_rel (only r (derived_job_id id)) (remove_on_remote (W:=W) r id).
Proof. unfold remove_on_remote. net_steps. Qed.
#[local] Hint Resolve apply_only remove_only : net.
Lemma sync_remote_only job plan r :
  net_rel (only r (derived_job_id (bj_id job))) (sync_remote authid_to_string job plan r).
Proof. unfold sync_remote. net_steps. Qed.

Lemma collect_only_job {B} id (f : string → net W B) l :
  (∀ r, net_rel (only r id) (f r)) → net_rel (only_job id) (net_collect f l).
Proof.
  intros Hf. apply net_rel_collect; [apply _|]. intros r _.
  eapply net_rel_sub; [|apply Hf]. intros w w'. apply only_only_job.
Qed.
Lemma read_only_job {A} id (c : net W A) : net_rel unchanged c → net_rel (only_job id) c.
Proof. apply net_rel_sub. intros w w' Hw. by apply (only_only_job ""), unchanged_only. Qed.
#[local] Hint Extern 2 (net_rel (only_job _) _) => apply read_only_job : net.

Lemma sync_job_only job : net_rel (only_job (derived_job_id (bj_id job))) (sync_job authid_to_string job).
Proof. unfold sync_job. net_steps. apply collect_only_job, sync_remote_only. Qed.
Lemma remove_job_only id : net_rel (only_job (derived_job_id id)) (remove_job (W:=W) id).
Proof.
  unfold remove_job. net_steps. apply collect_only_job. intros r. net_steps.
Qed.
End laws.

(** ** Convergence *)

Lemma net_bind_Ok {W A B} (c : net W A) (k : A → net W B) w b w2 :
  (c ≫= k) w = (Ok b, w2) → ∃ a w1, c w = (Ok a, w1) ∧ k a w1 = (Ok b, w2).
Proof. rewrite net_bind_run. destruct (c w) as [[a|e] w1]; [|done]. eauto. Qed.

Lemma map_get_set_opt m k o k' :
  map_get (set_opt m k o) k' = if String.eqb k k' then match o with Some v => Some v | None => map_get m k' end else map_get m k'.
Proof. destruct o; simpl; [by rewrite map_get_set|by destruct (String.eqb k k')]. Qed.

Section payload.
Context (job : BackupJobConfig) (plan : RemotePlan) (storage : string).

Lemma desired_payload_get key :
  map_get (desired_payload job plan storage) key =
  if String.eqb "bwlimit" key then VNumber ∘ NInt <$> bj_bwlimit job
  else if String.eqb "mailnotification" key then VString <$> bj_mailnotification job
  else if String.eqb "mailto" key then VString <$> bj_mailto job
  else if String.eqb "notes-template" key then VString <$> bj_notes_template job
  else if String.eqb "prune-backups" key then VString <$> bj_prune_backups job
  else if String.eqb "compress" key then VString <$> bj_compress job
  else if String.eqb "mode" key then VString <$> bj_mode job
  else if String.eqb "schedule" key then (if String.eqb (bj_schedule job) "" then None else Some (VString (bj_schedule job)))
  else if String.eqb "vmid" key then Some (vmid_list (rp_vmids plan))
  else if String.eqb "storage" key then Some (VString storage)
  else if String.eqb "enabled" key then Some (VNumber (NInt (if default false (bj_disable job) then 0 else 1)))
  else if String.eqb "comment" key then Some (VString (default ("PDM job '" +:+ bj_id job +:+ "'") (bj_comment job)))
  else None.
Proof.
  unfold desired_payload, set_strings. cbn [foldl]. rewrite !map_get_set_opt.
  set (base := if String.eqb (bj_schedule job) "" then _ else _).
  assert (map_get base key =
    if String.eqb "schedule" key then (if String.eqb (bj_schedule job) "" then None else Some (VString (bj_schedule job)))
    else map_get [("vmid"%string, vmid_list (rp_vmids plan)); ("storage"%string, VString storage);
                  ("enabled"%string, VNumber (NInt (if default false (bj_disable job) then 0 else 1)));
                  ("comment"%string, VString (default ("PDM job '" +:+ bj_id job +:+ "'") (bj_comment job)))] key) as ->.
  { unfold base. destruct (String.eqb (bj_schedule job) ""); [|by rewrite map_get_set].
    by destruct (String.eqb_spec "schedule" key) as [<-|]. }
  clear base. cbn [map_get].
  repeat match goal with
  | |- context [if String.eqb ?k key then _ else _] => destruct (String.eqb_spec k key) as [<-|]
  end; try reflexivity.
  all: by match goal with |- context [_ <$> ?o] => destruct o end.
Qed.
End payload.

Lemma reports_set m k x v :
  k = "delete"%string ∨ k = "id"%string → reports (map_set m k x) v → reports m v.
Proof.
  intros Hk [Hs Hv He Hp].
  assert (∀ key, key ∈ "vmid"%string :: "enabled"%string :: "prune-backups"%string :: compared_keys →
    map_get (map_set m k x) key = map_get m key) as Hget.
  { intros key Hin. rewrite map_get_set. destruct (String.eqb_spec k key) as [->|]; [|done].
    exfalso. destruct Hk as [-> | ->]; revert Hin; unfold compared_keys; rewrite !elem_of_cons, elem_of_nil; intuition discriminate. }
  split.
  - intros key sent Hin Hm. apply (Hs key); [done|]. rewrite Hget; [done|]. by do 3 right.
  - intros l Hm. apply Hv. rewrite Hget; [done|]. left.
  - intros z Hm. apply He. rewrite Hget; [done|]. right. left.
  - intros s Hm. apply Hp. rewrite Hget; [done|]. do 2 right. left.
Qed.

Lemma written_in_sync `{ValueText} job plan storage k x v :
  k = "delete"%string ∨ k = "id"%string →
  reports (map_set (desired_payload job plan storage) k x) v → get v "all" = None → get v "pool" = None →
  is_in_sync v (VObject (desired_payload job plan storage)) = true.
Proof.
  intros Hk Hrep%reports_set; [|done]. intros Hall Hpool.
  eapply reports_in_sync; [by rewrite desired_payload_get|by rewrite desired_payload_get| | |done..].
  - destruct (default false (bj_disable job)); auto.
  - intros x'. rewrite desired_payload_get. simpl. destruct (bj_prune_backups job); naive_solver.
Qed.

Section converge.
Context {W : Type} `{PveBackupLaws W} `{ValueText} (authid_to_string : Authid → string).

(** The storage a job writes to, from what the remote and the configuration say. *)
Definition storage_spec (remote : string) (job : BackupJobConfig) (storages : list Value)
    (remotes : result error (list (string * Remote))) : option string :=
  match storage_for job remote with
  | Some configured =>
      entry ← find_storage_by_id storages configured; if allows_backups entry then Some configured else None
  | None =>
      pbs_remote ← bj_pbs_remote job;
      remotes ← result_ok remotes;
      entry ← result_ok (get_remote_of RemoteType.Pbs remotes pbs_remote);
      node ← head (r_nodes entry);
      storage ← find_matching_storage storages (split_host_port (nu_hostname node)).1 (bj_pbs_datastore job);
      str_field storage "storage"
  end.

Lemma list_storages_ok r w l w' : list_pve_storages r w = (Ok l, w') → l = pv_storages w r.
Proof.
  intros (u&w1&Hc&(v&w2&Hs&Hk)%net_bind_Ok)%net_bind_Ok.
  pose proof (raw_client_unchanged r w) as [[_ Hst] _]. rewrite Hc in Hst. simpl in Hst. rewrite <-Hst.
  pose proof (law_get_storages r w1 v) as Hv. unfold send in Hs. rewrite Hs in Hv. rewrite (Hv eq_refl) in Hk.
  injection Hk as <- <-. done.
Qed.

Lemma list_jobs_ok r w l w' : list_remote_jobs r w = (Ok l, w') → l = pv_jobs w r.
Proof.
  intros (u&w1&Hc&(v&w2&Hs&Hk)%net_bind_Ok)%net_bind_Ok.
  pose proof (raw_client_unchanged r w) as [_ Hj]. rewrite Hc in Hj. simpl in Hj. rewrite <-Hj.
  pose proof (law_get_jobs r w1 v) as Hv. unfold send in Hs. rewrite Hs in Hv. rewrite (Hv eq_refl) in Hk.
  injection Hk as <- <-. done.
Qed.

Lemma connection_info_ok r w i w' :
  pbs_connection_info authid_to_string r w = (Ok i, w') →
  ∃ remotes entry node, rw_remotes w = Ok remotes ∧ get_remote_of RemoteType.Pbs remotes r = Ok entry ∧
    head (r_nodes entry) = Some node ∧ ci_server i = (split_host_port (nu_hostname node)).1.
Proof.
  intros (remotes&w1&Hr&(entry&w2&He&(node&w3&Hn&Hk)%net_bind_Ok)%net_bind_Ok)%net_bind_Ok.
  unfold remotes_config, net_lift in *. simplify_eq.
  destruct (split_host_port (nu_hostname node)) as [server port] eqn:Hsp.
  apply net_bind_Ok in Hk as (pw&w4&_&Hk). injection Hk as <- <-. exists remotes, entry, node. rewrite Hsp.
  destruct (head (r_nodes entry)); naive_solver.
Qed.

Lemma resolve_ok r job w s w' :
  resolve_storage authid_to_string r job w = (Ok s, w') →
  storage_spec r job (pv_storages w r) (rw_remotes w) = Some s.
Proof.
  intros (l&w1&Hl&Hk)%net_bind_Ok. pose proof (list_storages_ok r w l w1 Hl) as ->.
  pose proof (list_storages_unchanged r w) as [[Hrem _] _]. rewrite Hl in Hrem. simpl in Hrem.
  unfold storage_spec. destruct (storage_for job r) as [configured|].
  - apply net_bind_Ok in Hk as (e&w2&He&Hk). apply net_bind_Ok in Hk as (u&w3&Hu&Hk). injection Hk as <- <-.
    unfold net_lift in *. simplify_eq. destruct (find_storage_by_id _ _) as [e'|]; [|done]. simplify_eq/=.
    by destruct (allows_backups _).
  - apply net_bind_Ok in Hk as (p&w2&Hp&Hk). apply net_bind_Ok in Hk as (i&w3&Hi&Hk).
    unfold net_lift in *. destruct (bj_pbs_remote job) as [pbs|]; [|done]. simpl in Hp. injection Hp as <- <-.
    apply connection_info_ok in Hi as (remotes&entry&node&Hr1&He1&Hn1&Hs1). rewrite <-Hrem, Hr1. simpl.
    rewrite He1. simpl. rewrite Hn1. simpl. rewrite <-Hs1. injection Hk as Hk <-. by apply ok_or_Ok in Hk.
Qed.

(** The derived job exists on the remote and is in sync. *)
Definition materialized (job : BackupJobConfig) (plan : RemotePlan) (r s : string) (w : W) : Prop :=
  storage_spec r job (pv_storages w r) (rw_remotes w) = Some s ∧
  ∃ v, find_job (pv_jobs w r) (derived_job_id (bj_id job)) = Some v ∧
       is_in_sync v (VObject (desired_payload job plan s)) = true.

Lemma materialized_frame job plan r s w w' :
  materialized job plan r s w → frame w w' → pv_jobs w' r = pv_jobs w r → materialized job plan r s w'.
Proof. intros [Hs Hv] [Hr Hst] Hj. unfold materialized. by rewrite Hr, Hst, Hj. Qed.

Lemma apply_ok r job plan w s w' :
  apply_on_remote authid_to_string r job plan w = (Ok s, w') → materialized job plan r s w'.
Proof.
  intros Hrun. pose proof (apply_only authid_to_string r job plan w) as [[[Hrem Hst] _] _].
  rewrite Hrun in Hrem, Hst. simpl in Hrem, Hst. revert Hrun.
  intros (storage&w1&Hres&(jobs&w2&Hjobs&(u&w3&Hc&(u'&w4&Hw&Hk)%net_bind_Ok)%net_bind_Ok)%net_bind_Ok)%net_bind_Ok.
  injection Hk as <- <-. split; [rewrite Hrem, Hst; by eapply resolve_ok|]. destruct u'.
  destruct (find_job jobs (derived_job_id (bj_id job))) as [old|].
  - apply law_put_ok in Hw as (v&Hv&Hrep&Hdel). exists v. split; [done|].
    assert (∀ key, key ∈ ["all"; "pool"]%string → get v key = None) as Hnone.
    { intros key Hkey. apply (Hdel "all,pool,exclude,node"%string).
      - by rewrite map_get_set.
      - revert Hkey. change (split_comma "all,pool,exclude,node") with ["all"; "pool"; "exclude"; "node"]%string. set_solver.
      - rewrite map_get_set, desired_payload_get. by repeat (apply elem_of_cons in Hkey as [->|Hkey]; [done|]); apply elem_of_nil in Hkey. }
    eapply written_in_sync; [by left|exact Hrep|apply Hnone; left|apply Hnone; right; left].
  - apply (law_post_ok r (derived_job_id (bj_id job))) in Hw as (v&Hv&Hrep&Hdel); [|by rewrite map_get_set].
    exists v. split; [done|]. eapply written_in_sync; [by right|exact Hrep|apply Hdel|apply Hdel].
    all: rewrite ?map_get_set, ?desired_payload_get; (done || left || (right; left)).
Qed.

Definition keeps_on (r : string) (w w' : W) : Prop := frame w w' ∧ pv_jobs w' r = pv_jobs w r.
#[export] Instance keeps_on_preorder r : PreOrder (keeps_on r).
Proof.
  split; [done|]. intros w1 w2 w3 [[H12 S12] J12] [[H23 S23] J23].
  split; [split; [congruence|]; intros r'; by rewrite S23|]. by rewrite J23.
Qed.

Lemma sync_others_keep job plan r ids : r ∉ ids → net_rel (keeps_on r) (net_collect (sync_remote authid_to_string job plan) ids).
Proof.
  intros Hr. apply net_rel_collect; [apply _|]. intros r' Hr'. eapply net_rel_sub; [|apply sync_remote_only].
  intros w w' [_ [Hf Hj]]. split; [done|]. apply Hj. intros ->. done.
Qed.

Lemma sync_loop job plan ids : ∀ w sts w',
  net_collect (sync_remote authid_to_string job plan) ids w = (Ok sts, w') → NoDup ids →
  ∀ st, st ∈ concat sts → bs_state st = Synced →
  ∃ p s, plan !! bs_remote st = Some p ∧ bs_storage st = Some s ∧ materialized job p (bs_remote st) s w'.
Proof.
  induction ids as [|r ids IH]; intros w sts w'; simpl.
  { intros [= <- <-] _ st Hst. by apply elem_of_nil in Hst. }
  intros (st0&w1&Hst0&(sts1&w2&Hrest&Hk)%net_bind_Ok)%net_bind_Ok. injection Hk as <- <-.
  intros [Hr Hnd]%NoDup_cons st Hst Hsy. simpl in Hst. apply elem_of_app in Hst as [Hst|Hst]; [|by eapply IH].
  unfold sync_remote in Hst0. destruct (plan !! r) as [p|] eqn:Hp.
  - apply net_bind_Ok in Hst0 as (res&w3&Htry&Hk). injection Hk as <- <-. apply list_elem_of_singleton in Hst.
    unfold net_try in Htry. destruct (apply_on_remote authid_to_string r job p w) as [res' w3'] eqn:Happ.
    injection Htry as -> ->. destruct res as [s|e]; subst st; [|done]. exists p, s. split_and!; [done..|].
    apply apply_ok in Happ. pose proof (sync_others_keep job plan r ids Hr w3) as [Hf Hj]. rewrite Hrest in Hf, Hj.
    by eapply materialized_frame.
  - apply net_bind_Ok in Hst0 as (res&w3&_&Hk). injection Hk as <- <-. by apply elem_of_nil in Hst.
Qed.

(** Reading the status of a remote where the job is materialized. *)
Lemma status_materialized job p r s w st w' :
  materialized job p r s w → remote_status authid_to_string job (r, p) w = (Ok st, w') →
  bs_remote st = r ∧ ((bs_state st = Synced ∧ bs_storage st = Some s) ∨ bs_state st = SyncError).
Proof.
  intros [Hs (v&Hv&Hsync)] (res&w1&Htry&Hk)%net_bind_Ok. unfold net_try in Htry.
  pose proof (resolve_storage_unchanged authid_to_string r job w) as [_ Hjobs].
  destruct (resolve_storage authid_to_string r job w) as [res' w1'] eqn:Hres. injection Htry as -> ->.
  destruct res as [s'|e]; [|injection Hk as <- <-; by split; [|right]].
  apply resolve_ok in Hres. rewrite Hs in Hres. injection Hres as <-.
  apply net_bind_Ok in Hk as (jobs&w2&Htry&Hk). unfold net_try in Htry. simpl in Hjobs.
  destruct (list_remote_jobs r w1) as [jobs' w2'] eqn:Hl. injection Htry as -> ->.
  destruct jobs as [jobs|e]; injection Hk as <- <-; [|by split; [|right]].
  apply list_jobs_ok in Hl as ->. rewrite Hjobs, Hv, Hsync. split; [done|by left].
Qed.

Lemma status_loop job entries : ∀ w sts w',
  net_collect (remote_status authid_to_string job) entries w = (Ok sts, w') →
  ∀ r p s, (r, p) ∈ entries → materialized job p r s w →
  ∃ st, st ∈ sts ∧ bs_remote st = r ∧ ((bs_state st = Synced ∧ bs_storage st = Some s) ∨ bs_state st = SyncError).
Proof.
  induction entries as [|e entries IH]; intros w sts w'; simpl; [by intros _ r p s Hin%elem_of_nil|].
  intros (st0&w1&Hst0&(sts1&w2&Hrest&Hk)%net_bind_Ok)%net_bind_Ok. injection Hk as <- <-.
  intros r p s [<-|Hin]%elem_of_cons Hm.
  - exists st0. split; [left|]. by eapply status_materialized.
  - pose proof (remote_status_unchanged authid_to_string job e w) as [Hf Hj]. rewrite Hst0 in Hf, Hj.
    destruct (IH w1 sts1 w2 Hrest r p s Hin) as (st&Hst&?); [by eapply materialized_frame|].
    exists st. split; [by right|done].
Qed.

Lemma elem_of_plan_entries plan r p : (r, p) ∈ plan_entries plan ↔ plan !! r = Some p.
Proof. unfold plan_entries. by rewrite elem_of_sort_by, elem_of_map_to_list. Qed.

Lemma all_pve_remotes_NoDup (remotes : list (string * Remote)) : NoDup remotes.*1 → NoDup (all_pve_remotes remotes).
Proof. apply NoDup_fmap_filter. Qed.

Lemma plan_of_ok job w plan w' :
  plan_of job w = (Ok plan, w') → ∃ guests, (rw_guests w).1 = Ok guests ∧ plan = build_plan guests job.
Proof. intros (g&w1&Hg&Hk)%net_bind_Ok. injection Hk as <- <-. exists g. by rewrite Hg. Qed.

Lemma sync_job_materializes job w sts w' :
  sync_job authid_to_string job w = (Ok sts, w') → (∀ remotes, rw_remotes w = Ok remotes → NoDup remotes.*1) →
  ∃ guests, (rw_guests w).1 = Ok guests ∧
  ∀ st, st ∈ sts → bs_state st = Synced →
  ∃ p s, build_plan guests job !! bs_remote st = Some p ∧ bs_storage st = Some s ∧ materialized job p (bs_remote st) s w'.
Proof.
  intros (plan&w1&Hplan&(ids&w2&Hids&(l&w3&Hl&Hk)%net_bind_Ok)%net_bind_Ok)%net_bind_Ok Hnd. injection Hk as <- <-.
  pose proof (plan_of_unchanged job w) as [[Hrem _] _]. rewrite Hplan in Hrem. simpl in Hrem.
  apply plan_of_ok in Hplan as (guests&Hg&->). exists guests. split; [done|].
  apply net_bind_Ok in Hids as (remotes&w1'&Hr&Hk). injection Hk as <- <-. unfold remotes_config in Hr.
  injection Hr as Hr <-. rewrite Hrem in Hr. eapply sync_loop; [exact Hl|]. by apply all_pve_remotes_NoDup, Hnd.
Qed.
End converge.

(** C12: what was synced stays synced.  When [sync_job] reports a remote as synced,
    a later [job_status] for the same guests reports it as synced with the same
    storage, in whatever form PVE reports the settings of the job, unless the
    remote cannot be asked. *)
Theorem sync_then_synced {W : Type} `{PveBackupLaws W} `{ValueText} (authid_to_string : Authid → string)
    (job : BackupJobConfig) (w w1 w2 : W) sts sts' :
  (∀ remotes, rw_remotes w = Ok remotes → NoDup remotes.*1) →
  sync_job authid_to_string job w = (Ok sts, w1) →
  job_status authid_to_string job w1 = (Ok sts', w2) → (rw_guests w1).1 = (rw_guests w).1 →
  ∀ st, st ∈ sts → bs_state st = Synced →
  ∃ st', st' ∈ sts' ∧ bs_remote st' = bs_remote st ∧
    ((bs_state st' = Synced ∧ bs_storage st' = bs_storage st) ∨ bs_state st' = SyncError).
Proof.
  intros Hnd Hsync Hstatus Hguests st Hst Hsy.
  destruct (sync_job_materializes authid_to_string job w sts w1 Hsync Hnd) as (guests&Hg&Hall).
  destruct (Hall st Hst Hsy) as (p&s&Hp&Hs&Hm). rewrite Hs.
  apply net_bind_Ok in Hstatus as (plan&w1'&Hplan&Hk). pose proof (plan_of_unchanged job w1) as [Hf Hj].
  rewrite Hplan in Hf, Hj. apply plan_of_ok in Hplan as (guests'&Hg'&->). rewrite Hguests, Hg in Hg'. injection Hg' as <-.
  apply net_bind_Ok in Hk as (l&w3&Hl&Hk). apply net_bind_Ok in Hk as (ids&w4&_&Hk).
  apply net_bind_Ok in Hk as (stale&w5&_&Hk). injection Hk as <- <-.
  edestruct (status_loop authid_to_string job) as (st'&Hst'&?&?); [exact Hl|by apply elem_of_plan_entries|by eapply materialized_frame|].
  exists st'. split; [apply elem_of_app; by left|done].
Qed.

(** A job only ever touches its own derived jobs.  Whatever the remotes answer
    and wherever materializing or removing a job fails, every other backup job of
    every remote, the storages of the remotes and the configured remotes are as
    before. *)
Theorem backup_requests_isolated {W : Type} `{PveBackupLaws W} `{ValueText} (authid_to_string : Authid → string)
    (job : BackupJobConfig) (w : W) :
  only_job (derived_job_id (bj_id job)) w (sync_job authid_to_string job w).2 ∧
  only_job (derived_job_id (bj_id job)) w (remove_job (bj_id job) w).2.
Proof. split; [apply sync_job_only|apply remove_job_only]. Qed.

Section remove.
Context {W : Type} `{PveBackupLaws W}.

Lemma remove_ok r id w u w' :
  remove_on_remote r id w = (Ok u, w') → find_job (pv_jobs w' r) (derived_job_id id) = None.
Proof.
  intros (jobs&w1&Hl&Hk)%net_bind_Ok. pose proof (list_jobs_unchanged r w) as [_ Hj]. rewrite Hl in Hj. simpl in Hj.
  apply list_jobs_ok in Hl as ->. destruct (find_job (pv_jobs w r) (derived_job_id id)) eqn:Hf.
  - apply net_bind_Ok in Hk as (u'&w2&_&Hd). destruct u. by eapply law_delete_ok.
  - injection Hk as <- <-. by rewrite Hj.
Qed.

Lemma remove_loop id ids : ∀ w l w',
  net_collect (λ remote, res ← net_try (remove_on_remote remote id); mret (remote, res)) ids w = (Ok l, w') → NoDup ids →
  l.*1 = ids ∧ ∀ r u, (r, Ok u) ∈ l → find_job (pv_jobs w' r) (derived_job_id id) = None.
Proof.
  induction ids as [|r ids IH]; intros w l w'; simpl.
  { intros [= <- <-] _. split; [done|]. by intros r u Hin%elem_of_nil. }
  intros (x&w1&Hx&(l1&w2&Hrest&Hk)%net_bind_Ok)%net_bind_Ok. injection Hk as <- <-. intros [Hr Hnd]%NoDup_cons.
  apply net_bind_Ok in Hx as (res&w3&Htry&Hk). injection Hk as <- <-.
  destruct (IH w3 l1 w2 Hrest Hnd) as [Hids Hall]. split; [by rewrite fmap_cons, Hids|].
  intros r' u [[= -> <-]|Hin]%elem_of_cons; [|by eapply Hall].
  unfold net_try in Htry. destruct (remove_on_remote r id w) as [res' w3'] eqn:Hrun. injection Htry as -> ->.
  apply remove_ok in Hrun. assert (net_rel (keeps_on r)
    (net_collect (λ remote, res ← net_try (remove_on_remote (W:=W) remote id); mret (remote, res)) ids)) as Hkeep.
  { apply net_rel_collect; [apply _|]. intros r' Hr'. apply (net_rel_sub (only r' (derived_job_id id))).
    - intros wa wb [_ [Hf Hj]]. split; [exact Hf|]. apply (Hj r). intros ->. exact (Hr Hr').
    - apply net_rel_bind; [apply _|apply net_rel_try, (remove_only r')|]. intros x. apply net_rel_ret; apply _. }
  specialize (Hkeep w3). rewrite Hrest in Hkeep. destruct Hkeep as [_ Hkeep]. simpl in Hkeep. by rewrite Hkeep.
Qed.
End remove.

(** Removing a job is complete: when [remove_job] succeeds, no PVE remote has
    the derived job any more; and it tries every remote before it fails. *)
Theorem remove_job_complete {W : Type} `{PveBackupLaws W} (id : string) (w w' : W) remotes res :
  rw_remotes w = Ok remotes → NoDup remotes.*1 → remove_job id w = (res, w') →
  ∃ failed, (res = Ok tt ↔ failed = []) ∧
    ∀ r, r ∈ all_pve_remotes remotes → r ∈ failed ∨ find_job (pv_jobs w' r) (derived_job_id id) = None.
Proof.
  intros Hrem Hnd Hrun. unfold remove_job in Hrun. rewrite net_bind_run in Hrun.
  unfold pve_remote_ids at 1 in Hrun. rewrite net_bind_run in Hrun. unfold remotes_config in Hrun. rewrite Hrem in Hrun.
  cbn [mret net_ret] in Hrun. rewrite net_bind_run in Hrun.
  destruct (net_collect _ _ w) as [[l|e] w1] eqn:Hl; simplify_eq.
  2: { exfalso. clear -Hl. revert w Hl. generalize (all_pve_remotes remotes) as ids.
       induction ids as [|r ids IH]; intros w; simpl; [done|]. rewrite !net_bind_run. unfold net_try.
       destruct (remove_on_remote r id w) as [x w0]. cbn [mret net_ret]. rewrite net_bind_run.
       destruct (net_collect _ ids w0) as [[l|e'] w2] eqn:Hc; [done|]. intros [= -> ->]. by eapply IH. }
  apply remove_loop in Hl as [Hids Hall]; [|by apply all_pve_remotes_NoDup].
  set (errors := omap (M:=list) _ l) in Hrun. exists errors.*1.
  assert (w' = w1 ∧ (res = Ok tt ↔ errors.*1 = [])) as [-> Hres].
  { destruct errors; injection Hrun as <- <-; by split. }
  split; [done|]. intros r Hr. rewrite <-Hids in Hr. apply list_elem_of_fmap in Hr as ([r' [u|e]]&->&Hin).
  - right. by eapply Hall.
  - left. apply list_elem_of_fmap. exists (r', e). split; [done|]. apply list_elem_of_omap. by exists (r', Err e).
Qed.

(** ** Remotes in memory *)

Module ConvergeDemo.
#[local] Existing Instance RemotesDemo.auth.

Definition has_id (id : string) (job : Value) : bool := is_str (str_field job "id") id.
Definition drop_job (id : string) (jobs : list Value) : list Value := List.filter (λ j, negb (has_id id j)) jobs.
(** Store a job under an id. *)
Definition put_job (id : string) (m : Map) (jobs : list Value) : list Value :=
  drop_job id jobs ++ [VObject (map_set m "id" (VString id))].

Lemma find_drop id jobs : find_job (drop_job id jobs) id = None.
Proof.
  unfold find_job, drop_job. induction jobs as [|j jobs IH]; [done|]. simpl.
  destruct (has_id id j) eqn:Hj; simpl; [done|]. unfold has_id in Hj. by rewrite Hj.
Qed.
Lemma is_str_Some o s : is_str o s = true ↔ o = Some s.
Proof. destruct o; simpl; [|done]. rewrite String.eqb_eq. naive_solver. Qed.
Lemma find_drop_ne id id' jobs : id' ≠ id → find_job (drop_job id jobs) id' = find_job jobs id'.
Proof.
  intros Hne. unfold find_job, drop_job. induction jobs as [|j jobs IH]; [done|]. simpl.
  destruct (has_id id j) eqn:Hj; simpl; [|by rewrite IH].
  apply is_str_Some in Hj. rewrite IH, Hj. simpl. by rewrite (proj2 (String.eqb_neq id id')) by done.
Qed.
Lemma find_app jobs jobs' id :
  find_job (jobs ++ jobs') id = match find_job jobs id with Some v => Some v | None => find_job jobs' id end.
Proof. unfold find_job. induction jobs as [|j jobs IH]; simpl; [done|]. by destruct (is_str _ _). Qed.
Lemma find_put id m jobs id' :
  find_job (put_job id m jobs) id' = if decide (id' = id) then Some (VObject (map_set m "id" (VString id))) else find_job jobs id'.
Proof.
  unfold put_job. rewrite find_app. destruct (decide (id' = id)) as [->|Hne].
  - rewrite find_drop. unfold find_job, List.find, str_field. cbn [get]. rewrite map_get_set. simpl. by rewrite String.eqb_refl.
  - rewrite find_drop_ne by done. destruct (find_job jobs id'); [done|].
    unfold find_job, List.find, str_field. cbn [get]. rewrite map_get_set. simpl.
    by rewrite (proj2 (String.eqb_neq id id')) by done.
Qed.

(** The members of [m] on top of those of [old]. *)
Definition merge (old m : Map) : Map := foldr (λ '(k, v) acc, map_set acc k v) old m.
Lemma map_get_merge old m k : map_get (merge old m) k = match map_get m k with Some v => Some v | None => map_get old k end.
Proof. induction m as [|[k' v] m IH]; simpl; [done|]. rewrite map_get_set, IH. by destruct (String.eqb k' k). Qed.

Definition without (keys : list string) (m : Map) : Map := List.filter (λ '(k, _), negb (existsb (String.eqb k) keys)) m.
Lemma map_get_without keys m k : k ∈ keys → map_get (without keys m) k = None.
Proof.
  intros Hk. induction m as [|[k' v] m IH]; simpl; [done|]. destruct (existsb (String.eqb k') keys) eqn:He; simpl; [done|].
  destruct (String.eqb_spec k' k) as [->|]; [|done]. exfalso.
  assert (existsb (String.eqb k) keys = true) as Ht; [|congruence].
  apply existsb_exists. exists k. split; [by apply list_elem_of_In|apply String.eqb_refl].
Qed.

Definition deleted (m : Map) : list string :=
  match map_get m "delete" with Some (VString d) => split_comma d | _ => [] end.

Record world : Type := mkWorld { dw_jobs : gmap string (list Value); dw_storages : gmap string (list Value) }.
Definition jobs_of (w : world) (r : string) : list Value := default [] (dw_jobs w !! r).
Definition set_jobs (w : world) (r : string) (jobs : list Value) : world := mkWorld (<[r := jobs]> (dw_jobs w)) (dw_storages w).

#[local] Instance encode : PercentEncode := λ id, id.
Definition job_of_path (p : string) : option string := strip_prefix "/api2/extjs/cluster/backup/" p.

Definition pve (id : string) : string * Remote :=
  (id, mkFullRemote RemoteType.Pve id [mkNodeUrl "10.0.0.1" None] "root@pam!pdm"%string "-" None).
Definition remotes : list (string * Remote) := [pve "pve1"; pve "pve2"].

Section world.
Context (guests : list CachedGuest).

Definition demo_write (method : Method) (r p : string) (payload : option Value) (w : world) : result error unit * world :=
  match method, job_of_path p, payload with
  | PUT, Some id, Some (VObject m) =>
      match find_job (jobs_of w r) id with
      | Some (VObject old) =>
          if existsb (String.eqb "id") (deleted m) then (Err EInvalid, w)
          else (Ok tt, set_jobs w r (put_job id (merge (without (deleted m) old) m) (jobs_of w r)))
      | _ => (Err ENotFound, w)
      end
  | DELETE, Some id, _ => (Ok tt, set_jobs w r (drop_job id (jobs_of w r)))
  | POST, None, Some (VObject m) =>
      match map_get m "id" with
      | Some (VString id) => (Ok tt, set_jobs w r (put_job id m (jobs_of w r)))
      | _ => (Err EInvalid, w)
      end
  | _, _, _ => (Err EInvalid, w)
  end.

Definition demo_world : RemoteWorld world := {|
  rw_remotes _ := Ok remotes;
  rw_secret_token _ _ := Ok ""%string;
  rw_guests w := (Ok guests, w);
  rw_connect _ _ := Ok tt;
  rw_send method r p _ w :=
    (if String.eqb p backup_path then Ok (VArray (jobs_of w r))
     else if String.eqb p "/api2/extjs/storage" then Ok (VArray (default [] (dw_storages w !! r)))
     else if String.eqb p (vzdump_path "n1") then Ok (VString "UPID") else Err EIo, w);
  rw_send_nodata := demo_write;
|}.
#[local] Existing Instance demo_world.

#[local] Instance demo_view : PveView world := {| pv_jobs := jobs_of; pv_storages w r := default [] (dw_storages w !! r) |}.

Lemma jobs_of_set w r jobs r' : jobs_of (set_jobs w r jobs) r' = if decide (r' = r) then jobs else jobs_of w r'.
Proof.
  unfold jobs_of, set_jobs. simpl. destruct (decide (r' = r)) as [->|]; [by rewrite lookup_insert_eq|].
  by rewrite lookup_insert_ne.
Qed.

Lemma set_only w r id jobs :
  (∀ id', id' ≠ id → find_job jobs id' = find_job (jobs_of w r) id') → only r id w (set_jobs w r jobs).
Proof.
  intros Hj. split; (split; [done|]).
  - intros r' id' Hne. change (pv_jobs (set_jobs w r jobs) r') with (jobs_of (set_jobs w r jobs) r').
    change (pv_jobs w r') with (jobs_of w r'). rewrite jobs_of_set. destruct (decide (r' = r)) as [->|]; [by apply Hj|done].
  - intros r' Hne. change (jobs_of (set_jobs w r jobs) r' = jobs_of w r'). by rewrite jobs_of_set, decide_False.
Qed.

(** Everything that was written is reported as it was sent. *)
Lemma reports_as_sent m v :
  (∀ key, key ≠ "id"%string → map_get m key ≠ None → get v key = map_get m key) → reports m v.
Proof.
  intros Hv. assert (∀ key x, key ≠ "id"%string → map_get m key = Some x → get v key = Some x) as Hget.
  { intros key x Hne Hx. rewrite Hv, Hx by (done || by rewrite Hx). done. }
  split.
  - intros key sent Hkey Hm. exists sent. split; [|constructor]. apply Hget; [|done]. intros ->. revert Hkey.
    unfold compared_keys. rewrite !elem_of_cons, elem_of_nil. intuition discriminate.
  - intros l Hm. exists (vmid_list l). split; [by apply Hget|by constructor].
  - intros z Hm. rewrite (Hget "enabled"%string _ ltac:(done) Hm). constructor.
  - intros s Hm. exists (VString s). split; [by apply Hget|constructor].
Qed.

#[local] Instance demo_laws : PveBackupLaws world.
Proof.
  split.
  - done.
  - done.
  - intros r w v [= <-]. done.
  - intros r w v [= <-]. done.
  - intros r id m w. unfold rw_send_nodata, demo_world, demo_write. unfold job_of_path, job_path. rewrite strip_prefix_app.
    unfold encode_id, encode. destruct (find_job (jobs_of w r) id) as [[]|]; try reflexivity.
    destruct (existsb _ _); [reflexivity|]. apply set_only. intros id' Hne. by rewrite find_put, decide_False.
  - intros r id m w Hid. unfold rw_send_nodata, demo_world, demo_write. simpl. rewrite Hid. apply set_only.
    intros id' Hne. by rewrite find_put, decide_False.
  - intros r id w. unfold rw_send_nodata, demo_world, demo_write, job_of_path, job_path. rewrite strip_prefix_app.
    apply set_only. intros id' Hne. by apply find_drop_ne.
  - intros r id m w w'. unfold rw_send_nodata, demo_world, demo_write, job_of_path, job_path. rewrite strip_prefix_app.
    unfold encode_id, encode. destruct (find_job (jobs_of w r) id) as [[]|]; try done.
    destruct (existsb _ _) eqn:Hdel; [done|]. intros [= <-].
    eexists. split; [unfold pv_jobs, demo_view; by rewrite jobs_of_set, decide_True, find_put, decide_True|]. split.
    + apply reports_as_sent. intros key Hne Hm. cbn [get]. rewrite map_get_set, (proj2 (String.eqb_neq "id" key)) by congruence.
      rewrite map_get_merge. by destruct (map_get m key).
    + intros d key Hd Hkey Hm. cbn [get]. rewrite map_get_set.
      assert (deleted m = split_comma d) as Hdd by (unfold deleted; by rewrite Hd). rewrite <-Hdd in Hkey.
      destruct (String.eqb_spec "id" key) as [<-|]; [exfalso; assert (existsb (String.eqb "id") (deleted m) = true) as Ht; [|congruence];
        apply existsb_exists; exists "id"%string; split; [by apply list_elem_of_In|done]|].
      rewrite map_get_merge, Hm. by apply map_get_without.
  - intros r id m w w' Hid. unfold rw_send_nodata, demo_world, demo_write. simpl. rewrite Hid. intros [= <-].
    eexists. split; [unfold pv_jobs, demo_view; by rewrite jobs_of_set, decide_True, find_put, decide_True|]. split.
    + apply reports_as_sent. intros key Hne Hm. cbn [get]. by rewrite map_get_set, (proj2 (String.eqb_neq "id" key)) by congruence.
    + intros key Hkey Hm. cbn [get]. rewrite map_get_set. destruct (String.eqb_spec "id" key) as [<-|]; [|done]. congruence.
  - intros r id w w'. unfold rw_send_nodata, demo_world, demo_write, job_of_path, job_path. rewrite strip_prefix_app.
    intros [= <-]. unfold pv_jobs, demo_view. rewrite jobs_of_set, decide_True by done. apply find_drop.
Qed.
End world.

#[local] Instance no_text : ValueText := λ _, ""%string.
Definition show_authid (a : Authid) : string := a.

Definition known : list CachedGuest := [BackupJobsDemo.guest "pve1" 100 "n1" []].
#[local] Instance one_guest : RemoteWorld world := demo_world known.
#[local] Instance one_guest_view : PveView world := demo_view.
#[local] Instance one_guest_laws : PveBackupLaws world := demo_laws known.

(** Backs up guest 100 of [pve1] to the storage [store]. *)
Definition job (bwlimit : option Z) : BackupJobConfig :=
  mkJob "nightly" None None "22:30" None None (Some "store"%string) [mkJobGuest "pve1" 100] [] [] []
    (Some "snapshot"%string) None bwlimit (Some "keep-last=3"%string) None None None None.

Definition store : Value := VObject [("storage"%string, VString "store"); ("content"%string, VString "iso, backup")].
Definition start : world := mkWorld ∅ {["pve1"%string := [store]; "pve2"%string := [store]]}.
Definition after (j : BackupJobConfig) (w : world) : world := (sync_job show_authid j w).2.
Definition synced_status : BackupJobRemoteStatus :=
  mkStatus "pve1" "pdm-nightly" Synced 1 (Some "store"%string) None.

Lemma remotes_NoDup (w : world) l : rw_remotes w = Ok l → NoDup l.*1.
Proof. intros [= <-]. apply NoDup_ListNoDup. repeat constructor; simpl; intuition discriminate. Qed.

Lemma sync_then_synced_witness :
  ∃ st', st' ∈ [synced_status] ∧ bs_remote st' = "pve1"%string ∧
    ((bs_state st' = Synced ∧ bs_storage st' = Some "store"%string) ∨ bs_state st' = SyncError).
Proof.
  assert (sync_job show_authid (job None) start = (Ok [synced_status], after (job None) start)) as H1
    by (vm_compute; reflexivity).
  assert (job_status show_authid (job None) (after (job None) start) = (Ok [synced_status], after (job None) start)) as H2
    by (vm_compute; reflexivity).
  exact (sync_then_synced show_authid (job None) start (after (job None) start) (after (job None) start)
    [synced_status] [synced_status] (remotes_NoDup start) H1 H2 eq_refl synced_status
    (proj2 (list_elem_of_singleton _ _) eq_refl) eq_refl).
Defined.

(** A job that is not PDM's own stays while [nightly] is materialized. *)
Definition own_job : Value := VObject [("id"%string, VString "backup-1"); ("all"%string, VNumber (NInt 1))].
Definition with_own : world := set_jobs start "pve1" [own_job].

Lemma backup_requests_isolated_witness :
  find_job (jobs_of (sync_job show_authid (job None) with_own).2 "pve1") "backup-1" = Some own_job.
Proof.
  assert (find_job (jobs_of with_own "pve1") "backup-1" = Some own_job) as Hown by (vm_compute; reflexivity).
  rewrite <-Hown.
  refine (proj2 (proj1 (backup_requests_isolated show_authid (job None) with_own)) "pve1"%string "backup-1"%string _).
  discriminate.
Defined.

Lemma remove_job_complete_witness :
  ∃ failed, (Ok (E:=error) tt = Ok tt ↔ failed = []) ∧
    ∀ r, r ∈ all_pve_remotes remotes → r ∈ failed ∨
      find_job (pv_jobs (remove_job "nightly" (after (job None) start)).2 r) (derived_job_id "nightly") = None.
Proof.
  assert (remove_job "nightly" (after (job None) start) = (Ok tt, (remove_job "nightly" (after (job None) start)).2)) as Hr
    by (vm_compute; reflexivity).
  exact (remove_job_complete "nightly" (after (job None) start) (remove_job "nightly" (after (job None) start)).2 remotes
    (Ok tt) eq_refl (remotes_NoDup start remotes eq_refl) Hr).
Defined.

(** An option that is removed from a job stays on the remotes, and the status does
    not notice: the payload of an update only sets options, and the comparison only
    looks at the options the job has. *)
Theorem removed_option_stays :
  let w := after (job None) (after (job (Some 1000)) start) in
  (v ← find_job (jobs_of w "pve1") "pdm-nightly"; get v "bwlimit") = Some (VNumber (NInt 1000)) ∧
  (job_status show_authid (job None) w).1 = Ok [synced_status].
Proof. split; vm_compute; reflexivity. Qed.

(** Deleting a job removes it from the remotes before anything is checked: when the
    request is refused because the configuration changed, the job stays configured
    but is gone from the remotes. *)
Theorem refused_delete_removes :
  let c : BackupJobsDemo.jobs := {["nightly"%string := job None]} in
  let '(res, c', w') := delete_backup_job (C:=BackupJobsDemo.jobs) (H:=BackupJobsDemo.jobs_config)
    (H0:=BackupJobsDemo.jobs_digests) "nightly" (Some ∅) c (after (job None) start) in
  res = Err DETECTED_MODIFICATION ∧ c' = c ∧
  find_job (jobs_of (after (job None) start) "pve1") "pdm-nightly" ≠ None ∧
  find_job (jobs_of w' "pve1") "pdm-nightly" = None.
Proof. vm_compute. split_and!; done. Qed.

(** A run that meets a guest without a known node fails although backups of other
    remotes were started; their tasks are not reported. *)
Theorem failed_run_started_backups :
  let two := set_guests [mkJobGuest "pve1" 100; mkJobGuest "pve2" 200] (job None) in
  let '(res, (log, _)) := run_job (W:=list api_request * world) (H0:=recorded_world) show_authid
    (λ r v w, (Ok (mkRemoteUpid r RemoteType.Pve "UPID"), w)) two ([], start) in
  res = Err (EMsg "unknown node for guest 200 on remote pve2") ∧
  existsb (λ q, String.eqb (rq_path q) (vzdump_path "n1")) log = true.
Proof. vm_compute. split; reflexivity. Qed.
End ConvergeDemo.
