(* ===== verification/MultiClient.v ===== *)
(** * Connections to remotes with several nodes

    Model of the clients in [server/src/connection.rs]: [MultiClient], which sends a
    request to another node of a remote when the first one cannot be reached.

    All requests of a remote share the position in the list of its nodes and the
    reachability cache ([RemoteCache]).  A request is modelled with everything that
    can happen around it: [mc_others k] is how far other requests move the position
    before the [k]-th client is chosen, [mc_caches k] what they do to the cache,
    [mc_clock k] the time, [mc_saves k] whether the cache can be written, and
    [mc_send k host] the outcome of the [k]-th request that is sent, where [None] is a
    timeout.  What others do to the cache while a request is under way is seen by the
    next one.  Logging is left out.  [current + 1] in [try_clients] is an addition
    that would panic in a debug build where the other additions wrap; it wraps here. *)

From S2P Require Import Prelude RemoteUpid RemoteCache.

Definition usize_add (a b : Z) : Z := (a + b) mod 2 ^ 64.
Definition usize_sub (a b : Z) : Z := (a - b) mod 2 ^ 64.

(** [proxmox_client::Error], as far as it is told apart here. *)
Inductive ClientError : Type :=
| Connect (msg : string)
| Client (msg : string)
| OtherError (msg : string).

Record shared_state : Type := mkShared { mc_current : Z; mc_cache : RemoteMappingCache }.

Record TryClient : Type := mkTry { tc_hostname : string; tc_reachable : bool }.

Section multi_client.
Context (remote : string) (entries : list string).
Implicit Types (st : shared_state).

Definition client_count : Z := Z.of_nat (length entries).

(** ** [MultiClientState] *)

(** [get_at]; the list of nodes is never empty. *)
Definition get_at (at_ : Z) : string := default ""%string (entries !! Z.to_nat (at_ mod client_count)).
Definition get_entry st : string := get_at (mc_current st).

Definition next st : shared_state := mkShared (usize_add (mc_current st) 1) (mc_cache st).

Fixpoint skip_unreachable_for (fuel : nat) st : shared_state :=
  match fuel with
  | O => st
  | S fuel =>
      if host_is_reachable (mc_cache st) remote (get_entry st) then st
      else skip_unreachable_for fuel (next st)
  end.
Definition skip_unreachable st : shared_state := skip_unreachable_for (length entries) st.

(** [MultiClientState::new] *)
Definition multi_client_new (cache : RemoteMappingCache) : shared_state := skip_unreachable (mkShared 0 cache).

Definition tried_clients st (start : Z) : Z := usize_sub (mc_current st) start.
Definition tried_all_since st (start : Z) : bool := client_count <=? tried_clients st start.

Definition try_client_for_entry st : TryClient :=
  mkTry (get_entry st) (host_is_reachable (mc_cache st) remote (get_entry st)).

(** ** The iterator [try_clients] *)

Record clients_iter : Type := mkIter {
  it_start_current : option (Z * Z);
  it_unreachable : list Z;
  it_try_unreachable : option (list Z);
  it_done : bool; (** [fuse] *)
}.
Definition try_clients : clients_iter := mkIter None [] None false.

(** [let mut at = from; while at != to { push(at); at += 1 }] *)
Definition positions (from to_ : Z) : list Z := (λ i, usize_add from i) <$> seqZ 0 (usize_sub to_ from).

Definition done_iter (it : clients_iter) : clients_iter :=
  mkIter (it_start_current it) (it_unreachable it) (it_try_unreachable it) true.

(** Take the next client from the positions that were skipped. *)
Definition next_unreachable (it : clients_iter) (l : list Z) : option TryClient * clients_iter :=
  match l with
  | [] => (None, mkIter (it_start_current it) [] (Some []) true)
  | at_ :: l => (Some (mkTry (get_at at_) false), mkIter (it_start_current it) [] (Some l) false)
  end.

Definition next_client (it : clients_iter) st : option TryClient * clients_iter * shared_state :=
  if it_done it then (None, it, st)
  else
    match it_try_unreachable it with
    | Some l => (next_unreachable it l, st)
    | None =>
        match it_start_current it with
        | None =>
            let index := mc_current st in
            (Some (try_client_for_entry st), mkIter (Some (index, index)) (it_unreachable it) None false, st)
        | Some (start, current) =>
            let st := if mc_current st =? current then skip_unreachable (next st) else st in
            if tried_all_since st start then (next_unreachable it (it_unreachable it), st)
            else
              let new_current := mc_current st in
              (Some (try_client_for_entry st),
               mkIter (Some (start, new_current))
                 (it_unreachable it ++ positions (usize_add current 1) new_current) None false, st)
        end
    end.

(** ** [try_request!] *)

Context {R : Type} (mc_send : nat → string → option (result ClientError R)) (mc_others : nat → Z)
  (mc_caches : nat → RemoteMappingCache → RemoteMappingCache) (mc_clock : nat → Z) (mc_saves : nat → bool).

Definition interfere (k : nat) st : shared_state :=
  mkShared (usize_add (mc_current st) (mc_others k)) (mc_caches k (mc_cache st)).

Definition mark (k : nat) (host : string) (state : ConnectionState) st : shared_state :=
  if mc_saves k then mkShared (mc_current st) (mark_host_reachable (mc_clock k) (mc_cache st) remote host state).1 else st.

Definition error_to_string (e : ClientError) : string :=
  match e with Connect m | Client m | OtherError m => m end.

(** The variables of the loop, and the hosts requests were sent to. *)
Record loop_state : Type := mkLoop {
  lp_last_err : option ClientError;
  lp_timed_out : bool;
  lp_connect_retry : option string;
  lp_first : bool;
  lp_sent : list string;
}.
Definition loop_init : loop_state := mkLoop None false None true [].

(** A request to one host: either the result of the whole request, or the
    variables to go on with. *)
Definition attempt (idempotent : bool) (k : nat) (client : TryClient) (lp : loop_state) st
    : (result ClientError R + loop_state) * shared_state :=
  let host := tc_hostname client in
  let sent := lp_sent lp ++ [host] in
  match mc_send (length (lp_sent lp)) host with
  | Some (Err (Connect m)) =>
      (inr (mkLoop (Some (Connect m)) false (if lp_first lp then Some host else lp_connect_retry lp) false sent),
       mark k host (Unreachable m) st)
  | Some (Err (Client m)) =>
      if idempotent
      then (inr (mkLoop (Some (Client m)) false (lp_connect_retry lp) false sent), mark k host (Unreachable m) st)
      else (inl (Err (Client m)), st)
  | Some r => (inl r, if tc_reachable client then st else mark k host Reachable st)
  | None =>
      (inr (mkLoop None true (lp_connect_retry lp) false sent), mark k host (Unreachable "request timed out") st)
  end.

(** Behind the loop. *)
Definition final_error (lp : loop_state) : result ClientError R :=
  match lp_last_err lp with
  | Some err => Err err
  | None => if lp_timed_out lp then Err (OtherError "failed to perform API request: timed out")
            else Err (OtherError "failed to perform API request: unknown error")
  end.
Definition retry_first (k : nat) (lp : loop_state) st : result ClientError R * shared_state * list string :=
  match lp_connect_retry lp with
  | Some host =>
      let sent := lp_sent lp ++ [host] in
      match mc_send (length (lp_sent lp)) host with
      | Some r => (r, (if result_ok r is Some _ then mark k host Reachable st else st), sent)
      | None => (final_error lp, st, sent)
      end
  | None => (final_error lp, st, lp_sent lp)
  end.

Definition backs_off (o : option (Z * string)) : bool := match o with Some (t, _) => 0 <? t | None => false end.

(** The result, the shared state and the hosts requests were sent to, if the fuel
    is enough for the loop. *)
Fixpoint try_loop (fuel : nat) (idempotent : bool) (k : nat) (it : clients_iter) (lp : loop_state) st
    : option (result ClientError R * shared_state * list string) :=
  match fuel with
  | O => None
  | S fuel =>
      let '(client, it, st) := next_client it (interfere k st) in
      match client with
      | None => Some (retry_first k lp st)
      | Some client =>
          if backs_off (host_time_to_next_try (mc_cache st) remote (tc_hostname client) (mc_clock k))
          then try_loop fuel idempotent (S k) it lp st
          else
            match attempt idempotent k client lp st with
            | (inl r, st) => Some (r, st, lp_sent lp ++ [tc_hostname client])
            | (inr lp, st) => try_loop fuel idempotent (S k) it lp st
            end
      end
  end.

(** [params] is the outcome of serializing the parameters. *)
Definition request (fuel : nat) (idempotent : bool) (params : result ClientError unit) st
    : option (result ClientError R * shared_state * list string) :=
  match remote_time_to_next_try (mc_cache st) remote (mc_clock 0) with
  | Some (back_off_time, last_error) =>
      if 0 <? back_off_time then Some (Err (Connect last_error), st, [])
      else match params with
           | Err e => Some (Err e, st, [])
           | Ok _ => try_loop fuel idempotent 0 try_clients loop_init st
           end
  | None => match params with
            | Err e => Some (Err e, st, [])
            | Ok _ => try_loop fuel idempotent 0 try_clients loop_init st
            end
  end.

(** ** Every client is offered once

    Positions are counted from the one the request started with: the client at
    offset [o] is at position [usize_add start o]. *)

Definition pending (it : clients_iter) : list Z := default (it_unreachable it) (it_try_unreachable it).

(** [os] are the offsets of the clients the iterator has returned, [us] those it
    has skipped and will return in the end. *)
Inductive iter_inv (it : clients_iter) st (start : Z) : list Z → list Z → Prop :=
| inv_new : it = try_clients → iter_inv it st start [] []
| inv_run c os us :
    it_start_current it = Some (start, usize_add start c) →
    pending it = usize_add start <$> us →
    (it_try_unreachable it = None → mc_current st = usize_add start c) →
    0 ≤ c < client_count → NoDup (os ++ us) → Forall (λ o, 0 ≤ o ≤ c) (os ++ us) → os ≠ [] →
    iter_inv it st start os us.

Lemma usize_range a b : 0 ≤ usize_add a b < 2 ^ 64.
Proof. apply Z.mod_pos_bound. lia. Qed.
Lemma usize_add_add a b c : usize_add (usize_add a b) c = usize_add a (b + c).
Proof. unfold usize_add. rewrite Zplus_mod_idemp_l. f_equal. lia. Qed.
Lemma usize_sub_add a b : 0 ≤ b < 2 ^ 64 → usize_sub (usize_add a b) a = b.
Proof. intros Hb. unfold usize_sub, usize_add. rewrite Zminus_mod_idemp_l, Z.add_simpl_l. by apply Z.mod_small. Qed.
Lemma usize_add_inj a b b' :
  0 ≤ b < 2 ^ 64 → 0 ≤ b' < 2 ^ 64 → usize_add a b = usize_add a b' → b = b'.
Proof. intros Hb Hb' E. by rewrite <-(usize_sub_add a b), E, usize_sub_add. Qed.

Lemma skip_unreachable_for_pos fuel st :
  ∃ j, 0 ≤ j ≤ Z.of_nat fuel ∧ mc_cache (skip_unreachable_for fuel st) = mc_cache st ∧
    (0 ≤ mc_current st < 2 ^ 64 → mc_current (skip_unreachable_for fuel st) = usize_add (mc_current st) j).
Proof.
  assert (∀ x, 0 ≤ x < 2 ^ 64 → x = usize_add x 0) as H00
    by (intros x Hx; unfold usize_add; by rewrite Z.add_0_r, Z.mod_small).
  revert st. induction fuel as [|fuel IH]; intros st; simpl.
  { exists 0. split; [lia|]. split; [done|]. apply H00. }
  case_match; [exists 0; split; [lia|split; [done|apply H00]]|].
  destruct (IH (next st)) as (j&Hj&Hc&Hp). exists (1 + j). split; [lia|]. split; [done|]. intros Hx.
  rewrite Hp; [apply usize_add_add|apply usize_range].
Qed.

Lemma positions_offsets start c d :
  0 ≤ c → 0 < d < 2 ^ 64 →
  positions (usize_add (usize_add start c) 1) (usize_add start (c + d)) = usize_add start <$> seqZ (c + 1) (d - 1).
Proof.
  intros Hc Hd. unfold positions.
  replace (usize_add start (c + d)) with (usize_add (usize_add (usize_add start c) 1) (d - 1))
    by (rewrite !usize_add_add; f_equal; lia).
  rewrite usize_sub_add by lia. replace (c + 1) with (Z.add (c + 1) 0) by lia.
  rewrite <-(fmap_add_seqZ (c + 1) 0), <-list_fmap_compose.
  apply list_fmap_ext. intros i x _. simpl. rewrite !usize_add_add. f_equal. lia.
Qed.
Lemma next_unreachable_inv it st st' start c os us client it' :
  it_start_current it = Some (start, usize_add start c) →
  0 ≤ c < client_count → NoDup (os ++ us) → Forall (λ o, 0 ≤ o ≤ c) (os ++ us) →
  next_unreachable it (usize_add start <$> us) = (Some client, it') →
  ∃ o us', tc_hostname client = get_at (usize_add start o) ∧ iter_inv it' st' start (os ++ [o]) us'.
Proof.
  intros Hs Hc Hnd Hall. destruct us as [|o us]; simpl; [done|]. intros [= <- <-].
  exists o, us. split; [done|]. eapply inv_run; simpl; try done; [by rewrite <-(assoc (++))..|by destruct os].
Qed.

(** The position moves forward between two calls, and by less than a full turn of
    the counter. *)
Lemma next_position st0 st d c start :
  mc_current st0 = usize_add start c → 0 ≤ d → d + 2 * client_count < 2 ^ 64 → 0 ≤ c < client_count →
  mc_current st = usize_add (mc_current st0) d →
  ∃ c', c < c' < 2 ^ 64 ∧
    mc_current (if mc_current st =? usize_add start c then skip_unreachable (next st) else st) = usize_add start c'.
Proof.
  intros H00 Hd Hsm Hc Hst. rewrite H00, usize_add_add in Hst. rewrite Hst.
  assert (client_count = Z.of_nat (length entries)) as Hn by done.
  destruct (Z.eqb_spec (usize_add start (c + d)) (usize_add start c)) as [E|Hne].
  - apply usize_add_inj in E; [|lia..]. assert (d = 0) as -> by lia.
    destruct (skip_unreachable_for_pos (length entries) (next st)) as (j&Hj&_&Hp).
    exists (c + 1 + j). split; [lia|]. unfold skip_unreachable. rewrite Hp by apply usize_range.
    unfold next at 1. cbn [mc_current]. rewrite Hst, !usize_add_add. f_equal. lia.
  - exists (c + d). split; [|done]. assert (d ≠ 0); [|lia]. intros ->. apply Hne. f_equal. lia.
Qed.

Lemma next_client_inv it st0 st d start os us client it' st' :
  iter_inv it st0 start os us → 0 ≤ d → d + 2 * client_count < 2 ^ 64 → 0 < client_count →
  mc_current st = usize_add (mc_current st0) d →
  next_client it st = (Some client, it', st') →
  ∃ start' o us', start' = (if os is [] then mc_current st else start) ∧ tc_hostname client = get_at (usize_add start' o) ∧
    iter_inv it' st' start' (os ++ [o]) us'.
Proof.
  intros Hinv Hd Hsm Hn Hst. destruct Hinv as [->|c os us Hs Hp Hcur Hc Hnd Hall Hne].
  - intros [= <- <- <-]. assert (mc_current st = usize_add (mc_current st) 0) as E0.
    { rewrite Hst, usize_add_add. f_equal. lia. }
    exists (mc_current st), 0, []. split; [done|]. simpl. rewrite <-E0. split; [done|].
    apply (inv_run _ _ _ 0); simpl; [by rewrite <-E0|done|by intros _; rewrite <-E0|lia|apply NoDup_singleton| |done].
    by repeat constructor.
  - unfold next_client, pending in *. destruct (it_done it); [done|].
    destruct (it_try_unreachable it) as [l|] eqn:Ht; simpl in Hp.
    { subst l. intros [= Hnx <-]. destruct (next_unreachable_inv it st0 st start c os us client it') as (o&us'&?&?);
        try done. exists start, o, us'. by destruct os. }
    rewrite Hs. destruct (next_position st0 st d c start) as (c'&Hc'&E); try done; [by apply Hcur|].
    set (st1 := if _ =? _ then _ else _) in *. clearbody st1.
    unfold tried_all_since, tried_clients. rewrite E, usize_sub_add by lia.
    destruct (Z.leb_spec client_count c') as [Hall'|Hlt].
    { rewrite Hp. intros [= Hnx <-]. destruct (next_unreachable_inv it st0 st1 start c os us client it') as (o&us'&?&?);
        try done. exists start, o, us'. by destruct os. }
    intros [= <- <- <-]. exists start, c', (us ++ seqZ (c + 1) (c' - c - 1)).
    split; [by destruct os|]. split; [unfold try_client_for_entry; simpl; unfold get_entry; by rewrite E|].
    assert (∀ o, o ∈ os ++ us → 0 ≤ o ≤ c) as Hin by (by apply Forall_forall).
    assert ((os ++ [c']) ++ us ++ seqZ (c + 1) (c' - c - 1) ≡ₚ (os ++ us) ++ c' :: seqZ (c + 1) (c' - c - 1)) as Hperm
      by solve_Permutation.
    eapply (inv_run _ _ _ c'); simpl; [done| |done|lia| | |by destruct os].
    + rewrite fmap_app, <-(positions_offsets start c (c' - c)) by lia. unfold pending. simpl.
      by rewrite Hp, Zplus_minus.
    + rewrite Hperm. apply NoDup_app. split; [done|]. split.
      * intros o Ho%Hin [->|Ho2%elem_of_seqZ]%elem_of_cons; lia.
      * constructor; [rewrite elem_of_seqZ; lia|apply NoDup_seqZ].
    + rewrite Hperm. apply Forall_forall.
      intros o [Ho%Hin|[->|Ho%elem_of_seqZ]%elem_of_cons]%elem_of_app; lia.
Qed.
Lemma iter_inv_length it st start os us :
  iter_inv it st start os us → (length os ≤ length entries)%nat ∧ NoDup os ∧ Forall (λ o, 0 ≤ o < client_count) os.
Proof.
  destruct 1 as [->|c os us _ _ _ Hc [Hnd _]%NoDup_app [Hall _]%Forall_app _].
  { split_and!; [simpl; lia|constructor|constructor]. }
  split_and!; [|done|eapply Forall_impl; [exact Hall|simpl; lia]].
  assert (os ⊆+ seqZ 0 client_count) as Hsub%submseteq_length.
  { apply NoDup_submseteq; [done|]. intros o Ho. rewrite Forall_forall in Hall. apply Hall in Ho.
    apply elem_of_seqZ. lia. }
  rewrite length_seqZ in Hsub. unfold client_count in *. lia.
Qed.

(** ** What the loop does *)

(** Outcomes of a request after which another host is tried. *)
Definition fails_over (idempotent : bool) (o : option (result ClientError R)) : bool :=
  match o with
  | Some (Err (Connect _)) => true
  | Some (Err (Client _)) => idempotent
  | Some _ => false
  | None => true
  end.

Definition host_at (start o : Z) : string := get_at (usize_add start o).

Record loop_ok (idempotent : bool) (lp : loop_state) : Prop := {
  lo_failed : ∀ i h, lp_sent lp !! i = Some h → fails_over idempotent (mc_send i h) = true;
  lo_first : lp_first lp = bool_decide (lp_sent lp = []);
  lo_retry : ∀ h, lp_connect_retry lp = Some h →
    lp_sent lp !! 0%nat = Some h ∧ ∃ m, mc_send 0 h = Some (Err (Connect m));
}.

(** What is known of a request: [l] are the hosts that were tried in the loop. *)
Record finished (idempotent : bool) (l : list string) (r : result ClientError R) (sent : list string) : Prop := {
  fi_sent : sent = l ∨ ∃ h m, sent = l ++ [h] ∧ l !! 0%nat = Some h ∧ mc_send 0 h = Some (Err (Connect m));
  fi_failed : ∀ i h, sent !! i = Some h → (S i < length sent)%nat → fails_over idempotent (mc_send i h) = true;
  fi_answer : ∀ i h x, sent !! i = Some h → mc_send i h = Some x → fails_over idempotent (Some x) = false → r = x;
  fi_ok : ∀ x, r = Ok x → ∃ i h, sent !! i = Some h ∧ mc_send i h = Some (Ok x);
}.

Lemma loop_answer idempotent lp host r :
  loop_ok idempotent lp → mc_send (length (lp_sent lp)) host = Some r →
  finished idempotent (lp_sent lp ++ [host]) r (lp_sent lp ++ [host]).
Proof.
  intros [Hf _ _] Hs. split.
  - by left.
  - intros i h [[_ Hi]|[-> <-]]%lookup_snoc_Some Hlt; [by apply Hf|]. rewrite length_app in Hlt. simpl in Hlt. lia.
  - intros i h x [[_ Hi]|[-> <-]]%lookup_snoc_Some Hx Hn; [|congruence].
    apply Hf in Hi. rewrite Hx in Hi. congruence.
  - intros x ->. exists (length (lp_sent lp)), host. split; [|done]. by apply lookup_snoc_Some; right.
Qed.

Lemma loop_goes_on idempotent lp host e t retry :
  loop_ok idempotent lp → fails_over idempotent (mc_send (length (lp_sent lp)) host) = true →
  (retry = lp_connect_retry lp ∨ retry = Some host ∧ lp_first lp = true ∧ ∃ m, mc_send 0 host = Some (Err (Connect m))) →
  loop_ok idempotent (mkLoop e t retry false (lp_sent lp ++ [host])).
Proof.
  intros [Hf Hfst Hr] Hs Hre. split; simpl.
  - intros i h [[_ Hi]|[-> <-]]%lookup_snoc_Some; auto.
  - by destruct (lp_sent lp).
  - intros h Heq. destruct Hre as [Hre|(Hre&Hft&m&Hm)].
    + rewrite Hre in Heq. destruct (Hr h Heq) as [Hin Hm]. split; [|done]. by apply lookup_app_l_Some.
    + rewrite Hfst in Hft. apply bool_decide_eq_true in Hft as ->. simplify_eq. eauto.
Qed.

Lemma mark_current k h c st : mc_current (mark k h c st) = mc_current st.
Proof. unfold mark. by case_match. Qed.

Lemma attempt_spec idempotent k client lp st :
  loop_ok idempotent lp →
  let sent := lp_sent lp ++ [tc_hostname client] in
  match attempt idempotent k client lp st with
  | (inl r, st') => finished idempotent sent r sent
  | (inr lp', st') => mc_current st' = mc_current st ∧ loop_ok idempotent lp' ∧ lp_sent lp' = sent
  end.
Proof.
  intros Hok. pose proof (lo_first _ _ Hok) as Hfst. unfold attempt.
  destruct (mc_send (length (lp_sent lp)) (tc_hostname client)) as [[x|[m|m|m]]|] eqn:Hs; simpl;
    try (by apply loop_answer).
  - rewrite mark_current. split_and!; [done| |done]. apply loop_goes_on; [done|by rewrite Hs|].
    destruct (lp_first lp); [|by left]. right. split_and!; [done..|]. exists m.
    symmetry in Hfst. apply bool_decide_eq_true in Hfst as E. by rewrite E in Hs.
  - destruct idempotent; [|by apply loop_answer]. rewrite mark_current. split_and!; [done| |done].
    apply loop_goes_on; [done|by rewrite Hs|by left].
  - rewrite mark_current. split_and!; [done| |done]. apply loop_goes_on; [done|by rewrite Hs|by left].
Qed.

Lemma final_error_err lp x : final_error lp ≠ Ok x.
Proof. unfold final_error. by repeat case_match. Qed.

Lemma retry_first_spec idempotent k lp st :
  loop_ok idempotent lp →
  let '(r, _, sent) := retry_first k lp st in finished idempotent (lp_sent lp) r sent.
Proof.
  intros Hok. pose proof Hok as [Hf _ Hr]. unfold retry_first. destruct (lp_connect_retry lp) as [h|]; last first.
  { split; [by left|by auto| |by intros x ?%final_error_err]. intros i h x Hi Hx Hn. apply Hf in Hi. congruence. }
  destruct (Hr h eq_refl) as (H00&m&Hm).
  destruct (mc_send (length (lp_sent lp)) h) as [r|] eqn:Hs.
  - destruct (loop_answer idempotent lp h r Hok Hs) as [_ H2 H3 H4]. split; eauto 10.
  - split; [by eauto 10| | |by intros x ?%final_error_err].
    + intros i h' [[_ Hi]|[-> <-]]%lookup_snoc_Some _; [by apply Hf|]. by rewrite Hs.
    + intros i h' x [[_ Hi]|[-> <-]]%lookup_snoc_Some Hx Hn; [apply Hf in Hi|]; congruence.
Qed.

(** ** Nodes and positions *)

Lemma get_at_lookup p : entries ≠ [] → entries !! Z.to_nat (p mod client_count) = Some (get_at p).
Proof.
  intros Hne. unfold get_at. assert (0 < client_count) by (unfold client_count; destruct entries; [done|simpl; lia]).
  pose proof (Z.mod_pos_bound p client_count). unfold client_count in *.
  destruct (lookup_lt_is_Some_2 entries (Z.to_nat (p mod Z.of_nat (length entries)))) as [h ->]; [lia|done].
Qed.

Lemma host_at_inj start o o' :
  NoDup entries → 0 ≤ start → start + client_count ≤ 2 ^ 64 → 0 ≤ o < client_count → 0 ≤ o' < client_count →
  host_at start o = host_at start o' → o = o'.
Proof.
  intros Hnd Hs Hsm Ho Ho' E. unfold host_at, usize_add in E.
  rewrite !(Z.mod_small _ (2 ^ 64)) in E by lia.
  assert (entries ≠ []) as Hne by (intros E0; unfold client_count in Ho; rewrite E0 in Ho; simpl in Ho; lia).
  pose proof (get_at_lookup (start + o) Hne) as L. pose proof (get_at_lookup (start + o') Hne) as L'.
  rewrite E in L. pose proof (NoDup_lookup _ _ _ _ Hnd L L') as Hi.
  pose proof (Z.mod_pos_bound (start + o) client_count). pose proof (Z.mod_pos_bound (start + o') client_count).
  pose proof (Z.div_mod (start + o) client_count). pose proof (Z.div_mod (start + o') client_count).
  assert ((start + o) / client_count = (start + o') / client_count); nia.
Qed.

Lemma host_at_surj start h :
  0 ≤ start → start + client_count ≤ 2 ^ 64 → h ∈ entries → ∃ o, 0 ≤ o < client_count ∧ host_at start o = h.
Proof.
  intros Hs Hsm [i Hi]%list_elem_of_lookup. pose proof (lookup_lt_Some _ _ _ Hi) as Hlt.
  assert (0 < client_count) as Hpos by (unfold client_count; lia).
  pose proof (Z.mod_pos_bound (Z.of_nat i - start) client_count Hpos) as Hb.
  exists ((Z.of_nat i - start) mod client_count). split; [lia|].
  unfold host_at, get_at, usize_add. rewrite (Z.mod_small _ (2 ^ 64)), Zplus_mod_idemp_r by lia.
  rewrite Zplus_minus, Z.mod_small by (unfold client_count; lia). by rewrite Nat2Z.id, Hi.
Qed.

Lemma host_at_elem start o : entries ≠ [] → host_at start o ∈ entries.
Proof. intros Hne. eapply list_elem_of_lookup_2, get_at_lookup, Hne. Qed.

Lemma sublist_NoDup_hosts start os l :
  NoDup entries → 0 ≤ start → start + client_count ≤ 2 ^ 64 →
  NoDup os → Forall (λ o, 0 ≤ o < client_count) os → l `sublist_of` (host_at start <$> os) → NoDup l.
Proof.
  intros Hnd Hs Hsm Hos Hall Hsub. eapply sublist_NoDup; [|exact Hsub].
  apply NoDup_fmap_2_strong; [|done]. rewrite Forall_forall in Hall.
  intros o o' Ho Ho' E. eapply host_at_inj; eauto.
Qed.

Context (Hn : entries ≠ []) (Hothers : ∀ k, 0 ≤ mc_others k ∧ mc_others k + 2 * client_count < 2 ^ 64).

Lemma client_count_pos : 0 < client_count.
Proof. unfold client_count. destruct entries; [done|simpl; lia]. Qed.

Lemma try_loop_spec fuel idempotent k it lp st start os us :
  iter_inv it st start os us → loop_ok idempotent lp → (length entries < length os + fuel)%nat →
  (os = [] → start = mc_current (interfere k st)) →
  lp_sent lp `sublist_of` (host_at start <$> os) →
  ∃ r st' sent l os', try_loop fuel idempotent k it lp st = Some (r, st', sent) ∧
    finished idempotent l r sent ∧ l `sublist_of` (host_at start <$> os') ∧ NoDup os' ∧
    Forall (λ o, 0 ≤ o < client_count) os'.
Proof.
  revert k it lp st start os us. induction fuel as [|fuel IH]; intros k it lp st start os us Hi Hok Hlen Hst Hsub;
    pose proof (iter_inv_length _ _ _ _ _ Hi) as (Hle&Hnd&Hall); simpl; [lia|].
  pose proof (Hothers k) as [Hd Hsm]. pose proof client_count_pos as Hpos.
  destruct (next_client it (interfere k st)) as [[[client|] it'] st'] eqn:Hnx; last first.
  { pose proof (retry_first_spec idempotent k lp st' Hok) as Hfin.
    destruct (retry_first k lp st') as [[r st2] sent]. by exists r, st2, sent, (lp_sent lp), os. }
  destruct (next_client_inv it st (interfere k st) (mc_others k) start os us client it' st') as (s2&o&us'&Hs2&Hh&Hi');
    try done.
  assert (s2 = start) as -> by (destruct os; [by rewrite Hst|done]). clear Hs2.
  assert (length (os ++ [o]) = S (length os)) as Hlo by (rewrite length_app; simpl; lia).
  case_match.
  { apply (IH _ _ _ _ _ (os ++ [o]) us'); try done; [lia|by destruct os|].
    rewrite fmap_app. by apply sublist_inserts_r. }
  assert (lp_sent lp ++ [tc_hostname client] `sublist_of` (host_at start <$> (os ++ [o]))) as Hsub'.
  { rewrite fmap_app, Hh. by apply sublist_app. }
  pose proof (attempt_spec idempotent k client lp st' Hok) as Hat.
  destruct (attempt idempotent k client lp st') as [[r|lp'] st2].
  - exists r, st2. do 2 eexists. exists (os ++ [o]). split; [done|]. split; [exact Hat|].
    apply iter_inv_length in Hi' as (_&?&?). done.
  - destruct Hat as (Hcur&Hok'&Hse). apply (IH _ _ _ _ _ (os ++ [o]) us'); try done; [|lia|by destruct os|by rewrite Hse].
    destruct Hi' as [->|]; [by apply inv_new|]. eapply inv_run; eauto. by rewrite Hcur.
Qed.

Lemma request_spec idempotent params st :
  ∃ r st' sent l os', request (S (length entries)) idempotent params st = Some (r, st', sent) ∧
    (sent = [] ∧ l = [] ∧ (∀ x, r ≠ Ok x) ∨ finished idempotent l r sent) ∧
    l `sublist_of` (host_at (mc_current (interfere 0 st)) <$> os') ∧ NoDup os' ∧
    Forall (λ o, 0 ≤ o < client_count) os'.
Proof.
  assert (∀ e, ∃ r st' sent l os', Some (Err e, st, []) = Some (r, st', sent) ∧
    (sent = [] ∧ l = [] ∧ (∀ x, r ≠ Ok x) ∨ finished idempotent l r sent) ∧
    l `sublist_of` (host_at (mc_current (interfere 0 st)) <$> os') ∧ NoDup os' ∧
    Forall (λ o, 0 ≤ o < client_count) os') as Herr.
  { intros e. exists (Err e), st, [], [], []. split_and!; [done|by left|done|constructor|constructor]. }
  unfold request.
  destruct (try_loop_spec (S (length entries)) idempotent 0 try_clients loop_init st
    (mc_current (interfere 0 st)) [] []) as (r&st'&sent&l&os'&E&Hfin&Hrest);
    [by apply inv_new|by split|simpl; lia|done|done|].
  repeat case_match; try apply Herr; rewrite E; exists r, st', sent, l, os'; eauto.
Qed.

(** ** A reachable node that answers is found *)

Lemma reachable_no_back_off c host t :
  host_is_reachable c remote host = true → backs_off (host_time_to_next_try c remote host t) = false.
Proof.
  unfold host_is_reachable, host_time_to_next_try, host_is_up. case_bool_decide; [done|].
  destruct (info_by_hostname c remote host) as [info|]; simpl; [|done]. by destruct (hi_back_off info).
Qed.

Lemma mark_other k h m st h' :
  h' ≠ h → host_is_reachable (mc_cache (mark k h (Unreachable m) st)) remote h' = host_is_reachable (mc_cache st) remote h'.
Proof.
  intros Hne. unfold mark. destruct (mc_saves k); [|done]. cbn [mc_cache]. unfold mark_host_reachable.
  destruct (info_by_hostname (mc_cache st) remote h) as [info|]; [|done].
  destruct (host_set_reachable _ info _) as [info' nx]. cbn [fst].
  assert (∀ c, remotes (set_or_reset_canary (mc_clock k) c remote true) = remotes c) as Hc.
  { intros c. unfold set_or_reset_canary, canary_is_needed. simpl. by repeat case_match; simplify_eq. }
  unfold host_is_reachable, info_by_hostname. simpl is_unreachable. rewrite Hc. simpl.
  rewrite lookup_alter_eq. destruct (remotes (mc_cache st) !! remote) as [r|]; simpl; [|done].
  by rewrite lookup_insert_ne.
Qed.

Lemma attempt_fails idempotent k client lp st :
  fails_over idempotent (mc_send (length (lp_sent lp)) (tc_hostname client)) = true →
  ∃ lp' m, attempt idempotent k client lp st = (inr lp', mark k (tc_hostname client) (Unreachable m) st).
Proof. unfold attempt, fails_over. intros Hf. repeat case_match; simplify_eq; eauto. Qed.

Section quiet.
Context (Hquiet : ∀ k, mc_others k = 0) (Hcaches : ∀ k c, mc_caches k c = c) (Hnd : NoDup entries).
Context (idempotent : bool) (start o0 : Z) (Hstart : 0 ≤ start) (Hsm : start + 2 * client_count < 2 ^ 64).
Context (Hsend : ∀ i h, h ∈ entries → fails_over idempotent (mc_send i h) = true ∨ ∃ x, mc_send i h = Some (Ok x)).
Context (Hup : ∀ i, ∃ x, mc_send i (host_at start o0) = Some (Ok x)).

Lemma quiet_interfere k st : 0 ≤ mc_current st < 2 ^ 64 → interfere k st = st.
Proof.
  intros Hc. destruct st as [cur cache]. unfold interfere, usize_add. simpl in *.
  by rewrite Hquiet, Hcaches, Z.add_0_r, Z.mod_small.
Qed.

Definition iter_at (c : Z) : clients_iter := mkIter (Some (start, start + c)) [] None false.

Lemma next_client_quiet c st :
  0 ≤ c → c + 1 < client_count → mc_current st = start + c →
  host_is_reachable (mc_cache st) remote (host_at start (c + 1)) = true →
  next_client (iter_at c) st = (Some (try_client_for_entry (next st)), iter_at (c + 1), next st).
Proof.
  intros Hc Hlt Hcur Hr. unfold next_client, iter_at. simpl. rewrite Hcur, Z.eqb_refl.
  assert (mc_current (next st) = start + (c + 1)) as Hnx.
  { simpl. rewrite Hcur. unfold usize_add. rewrite Z.mod_small by lia. lia. }
  assert (skip_unreachable (next st) = next st) as ->.
  { unfold skip_unreachable. destruct (length entries); [done|]. cbn [skip_unreachable_for].
    unfold get_entry. rewrite Hnx. simpl mc_cache. unfold host_at, usize_add in Hr.
    rewrite Z.mod_small in Hr by lia. by rewrite Hr. }
  unfold tried_all_since, tried_clients, usize_sub. rewrite Hnx.
  replace (start + (c + 1) - start) with (c + 1) by lia. rewrite Z.mod_small by lia.
  destruct (Z.leb_spec client_count (c + 1)); [lia|].
  unfold positions, usize_add, usize_sub. rewrite (Z.mod_small (start + c + 1)) by lia.
  replace (start + (c + 1) - (start + c + 1)) with 0 by lia. done.
Qed.

Lemma failover_from fuel k it lp st st' c :
  0 ≤ c ≤ o0 → o0 < client_count → (Z.to_nat (o0 - c) < fuel)%nat →
  next_client it (interfere k st) = (Some (try_client_for_entry st'), iter_at c, st') →
  mc_current st' = start + c →
  (∀ o, c ≤ o < client_count → host_is_reachable (mc_cache st') remote (host_at start o) = true) →
  ∃ x st2 sent, try_loop fuel idempotent k it lp st = Some (Ok x, st2, sent).
Proof.
  revert k it lp st st' c. induction fuel as [|fuel IH]; intros k it lp st st' c Hc Ho Hf Hnx Hcur Hr; [lia|].
  simpl. rewrite Hnx.
  assert (tc_hostname (try_client_for_entry st') = host_at start c) as Hh.
  { simpl. unfold get_entry, host_at, usize_add. by rewrite Hcur, Z.mod_small by lia. }
  rewrite reachable_no_back_off by (rewrite Hh; apply Hr; lia).
  destruct (Hsend (length (lp_sent lp)) (host_at start c)) as [Hfail|[x Hx]]; [by apply host_at_elem| |].
  - rewrite <-Hh in Hfail. destruct (attempt_fails idempotent k _ lp st' Hfail) as (lp'&m&->).
    assert (c ≠ o0). { intros ->. destruct (Hup (length (lp_sent lp))) as [x Hx]. rewrite Hh, Hx in Hfail. done. }
    rewrite Hh. set (st1 := mark _ _ _ _).
    assert (mc_current st1 = start + c) as Hc1 by (unfold st1; by rewrite mark_current).
    assert (∀ o, c < o < client_count → host_is_reachable (mc_cache st1) remote (host_at start o) = true) as Hr1.
    { intros o Ho2. unfold st1. rewrite mark_other; [apply Hr; lia|]. intros E%host_at_inj; try done; lia. }
    apply (IH _ _ _ _ (next st1) (c + 1)); [lia..| | |].
    + rewrite quiet_interfere by lia. apply next_client_quiet; [lia..|done|apply Hr1; lia].
    + simpl. rewrite Hc1. unfold usize_add. rewrite Z.mod_small by lia. lia.
    + intros o Ho2. apply Hr1. lia.
  - unfold attempt. rewrite Hh, Hx. eauto.
Qed.
End quiet.
End multi_client.

(** ** What callers rely on *)

(** A request returns: whatever other requests do to the position in the list
    of nodes and to the reachability cache in the meantime, and whatever is marked
    unreachable, the loop over the clients ends after at most as many clients as the
    remote has nodes, so at most one request more than that is sent; no node is asked
    twice, except that the first one may be asked once more at the very end, when it
    could not be connected to. *)
Theorem request_terminates remote entries {R : Type} (send : nat → string → option (result ClientError R))
    others caches clock saves idempotent params st
    (Hne : entries ≠ [])
    (Hothers : ∀ k, 0 ≤ others k ∧ others k + 2 * client_count entries < 2 ^ 64) :
  ∃ r st' sent,
    request remote entries send others caches clock saves (S (length entries)) idempotent params st
      = Some (r, st', sent) ∧
    (length sent ≤ S (length entries))%nat ∧
    (NoDup entries → usize_add (mc_current st) (others 0%nat) + client_count entries ≤ 2 ^ 64 →
     ∃ asked, NoDup asked ∧ asked ⊆ entries ∧
       (sent = asked ∨
        ∃ first m, sent = asked ++ [first] ∧ head asked = Some first ∧
                   send 0%nat first = Some (Err (Connect m)))).
Proof.
  destruct (request_spec remote entries send others caches clock saves Hne Hothers idempotent params st)
    as (r&st'&sent&l&os&E&Hfin&Hsub&Hnd&Hall).
  exists r, st', sent. split; [done|].
  assert (sent = l ∨ ∃ h m, sent = l ++ [h] ∧ head l = Some h ∧ send 0%nat h = Some (Err (Connect m))) as Hs.
  { destruct Hfin as [(->&->&_)|[[->|(h&m&->&Hh&Hm)] _ _ _]]; [by left..|]. right. exists h, m. by destruct l. }
  assert (length os ≤ length entries)%nat as Hlen.
  { assert (os ⊆+ seqZ 0 (client_count entries)) as Hos%submseteq_length.
    { apply NoDup_submseteq; [done|]. intros o Ho. rewrite Forall_forall in Hall. apply Hall in Ho.
      apply elem_of_seqZ. lia. }
    rewrite length_seqZ in Hos. unfold client_count in Hos. lia. }
  split.
  - apply sublist_length in Hsub. rewrite length_fmap in Hsub.
    destruct Hs as [->|(h&m&->&_)]; rewrite ?length_app; simpl; lia.
  - intros Hnde Hst. exists l. split_and!; [|intros h Hh|exact Hs].
    + eapply sublist_NoDup_hosts; eauto. apply usize_range.
    + assert (h ∈ host_at entries (mc_current (interfere others caches 0 st)) <$> os) as Hin
        by (by eapply sublist_subseteq).
      apply list_elem_of_fmap in Hin as (o&->&_). by apply host_at_elem.
Qed.

(** C25: Failing over is safe for a request that may be repeated, and for any request as
    long as none times out.  Then every request but the last one that is sent could not
    be connected to, so that it was not processed, unless its method may be repeated; as
    soon as a node has answered, with a result or an API error, or a request that must
    not be repeated has failed after the connection was made, nothing more is sent and
    that is the result of the request; and a result is always the answer of a node.  A
    request that times out is excluded for methods that must not be repeated: it is sent
    to the next node all the same ([MultiDemo.post_repeated_after_timeout]).  The remote
    has at least one node, and other requests move the shared position by less than
    2^64 (less twice the number of nodes) while this one is under way. *)
Theorem request_fails_over remote entries {R : Type} (send : nat → string → option (result ClientError R))
    others caches clock saves idempotent params st
    (Hne : entries ≠ [])
    (Hothers : ∀ k, 0 ≤ others k ∧ others k + 2 * client_count entries < 2 ^ 64)
    (Htimeout : idempotent = true ∨ ∀ k host, send k host ≠ None) :
  ∃ r st' sent,
    request remote entries send others caches clock saves (S (length entries)) idempotent params st
      = Some (r, st', sent) ∧
    (∀ i host, sent !! i = Some host → (S i < length sent)%nat →
       (∃ m, send i host = Some (Err (Connect m))) ∨
       idempotent = true ∧ (send i host = None ∨ ∃ m, send i host = Some (Err (Client m)))) ∧
    (∀ i host x, sent !! i = Some host → send i host = Some x → (∀ m, x ≠ Err (Connect m)) →
       (∀ m, x = Err (Client m) → idempotent = false) → r = x ∧ S i = length sent) ∧
    (∀ x, r = Ok x → ∃ i host, sent !! i = Some host ∧ send i host = Some (Ok x)).
Proof.
  destruct (request_spec remote entries send others caches clock saves Hne Hothers idempotent params st)
    as (r&st'&sent&l&os&E&Hfin&_).
  exists r, st', sent. split; [done|]. destruct Hfin as [(->&_&Hr)|[_ Hf Ha Hok]].
  { split; [done|]. split; [done|]. intros x Hx. by destruct (Hr x). }
  split; [|split; [|exact Hok]].
  - intros i h Hi Hlt. specialize (Hf i h Hi Hlt). destruct (send i h) as [[x|[m|m|m]]|] eqn:Hs; simpl in Hf; try done.
    + left. by exists m.
    + right. split; [done|]. right. by exists m.
    + right. split; [|by left]. destruct Htimeout as [?|Hno]; [done|]. by destruct (Hno i h).
  - intros i h x Hi Hx Hc Hcl.
    assert (fails_over idempotent (Some x) = false) as Hno.
    { destruct x as [?|[m|m|m]]; simpl; [done|by destruct (Hc m)|by eapply Hcl|done]. }
    split; [by eapply Ha|]. pose proof (lookup_lt_Some _ _ _ Hi).
    destruct (decide (S i < length sent)%nat) as [Hlt|]; [|lia]. specialize (Hf i h Hi Hlt). congruence.
Qed.

(** A node that answers is found: when no other request interferes, no node is
    marked unreachable and the remote is not in its back-off time, a request succeeds
    if one of the nodes answers it and the others, if they do not answer, only fail
    in a way after which the request may be repeated. *)
Theorem request_finds_node remote entries {R : Type} (send : nat → string → option (result ClientError R))
    others caches clock saves idempotent st node
    (Hquiet : ∀ k, others k = 0) (Hcaches : ∀ k c, caches k c = c) (Hnd : NoDup entries)
    (Hcur : 0 ≤ mc_current st) (Hsm : mc_current st + 2 * client_count entries < 2 ^ 64)
    (Hup : ∀ host, host ∈ entries → host_is_reachable (mc_cache st) remote host = true)
    (Hback_off : remote_time_to_next_try (mc_cache st) remote (clock 0%nat) = None)
    (Hsend : ∀ i host, host ∈ entries →
       fails_over idempotent (send i host) = true ∨ ∃ x, send i host = Some (Ok x))
    (Hnode : node ∈ entries) (Hanswers : ∀ i, ∃ x, send i node = Some (Ok x)) :
  ∃ x st' sent,
    request remote entries send others caches clock saves (S (length entries)) idempotent (Ok ()) st
      = Some (Ok x, st', sent).
Proof.
  assert (entries ≠ []) as Hne by (by intros ->; apply not_elem_of_nil in Hnode).
  pose proof (client_count_pos entries Hne) as Hpos.
  destruct (host_at_surj entries (mc_current st) node) as (o0&Ho&E); [lia..|done|].
  unfold request. rewrite Hback_off.
  apply (failover_from remote entries send others caches clock saves Hne Hquiet Hcaches Hnd idempotent
    (mc_current st) o0) with (st' := st) (c := 0); try done; try lia.
  - by rewrite E.
  - unfold client_count in Ho. lia.
  - rewrite (quiet_interfere others caches) by (done || lia).
    unfold next_client, iter_at. simpl. by rewrite Z.add_0_r.
  - intros o _. apply Hup. by apply host_at_elem.
Qed.

(** ** A cluster of three nodes *)

Module MultiDemo.
Open Scope string_scope.
Open Scope Z_scope.
Definition nodes : list string := ["a"; "b"; "c"].
Definition mapping (down : gmap string BackOffState) : RemoteMapping :=
  mkRemoteMapping RemoteType.Pve (list_to_map ((λ h, (h, mkHostInfo h None (down !! h))) <$> nodes)) ∅.
Definition cache (down : gmap string BackOffState) : RemoteMappingCache :=
  mkCache {[ "r" := mapping down; "other" := mapping ∅ ]} None.

(** [a] cannot be connected to, [b] times out, [c] answers with its name. *)
Definition send (k : nat) (host : string) : option (result ClientError string) :=
  if bool_decide (host = "a") then Some (Err (Connect "no route"))
  else if bool_decide (host = "b") then None
  else Some (Ok host).
Definition others (k : nat) : Z := 0.
Definition caches (k : nat) (c : RemoteMappingCache) : RemoteMappingCache := c.
Definition clock (k : nat) : Z := 1000 + Z.of_nat k.
Definition saves (k : nat) : bool := true.
Definition busy (k : nat) : Z := if bool_decide (k = 1%nat) then 2 else 0.

Definition run (idempotent : bool) (others : nat → Z) (st : shared_state) :=
  (λ x : _ * _ * _, (x.1.1, mc_current x.1.2, x.2)) <$>
    request "r" nodes send others caches clock saves 4 idempotent (Ok ()) st.

(** The requests go to [a], [b] and [c]; the position stays at [c]. *)
Example run_quiet : run true others (mkShared 0 (cache ∅)) = Some (Ok "c", 2, ["a"; "b"; "c"]).
Proof. vm_compute. reflexivity. Qed.

(** Another request has moved the position from [a] to [c]; [b] is not asked. *)
Example run_busy : run true busy (mkShared 0 (cache ∅)) = Some (Ok "c", 2, ["a"; "c"]).
Proof. vm_compute. reflexivity. Qed.

Lemma busy_bounded k : 0 ≤ busy k ∧ busy k + 2 * client_count nodes < 2 ^ 64.
Proof. unfold busy, client_count. simpl. case_bool_decide; lia. Qed.

Lemma request_terminates_witness :
  ∃ r st' sent,
    request "r" nodes send busy caches clock saves 4 false (Ok ()) (mkShared 0 (cache ∅)) = Some (r, st', sent) ∧
    (length sent ≤ 4)%nat.
Proof.
  destruct (request_terminates "r" nodes send busy caches clock saves false (Ok ()) (mkShared 0 (cache ∅))
    ltac:(discriminate) busy_bounded) as (r&st'&sent&E&Hlen&_).
  exists r, st', sent. split; [exact E|exact Hlen].
Defined.

Lemma request_fails_over_witness :
  ∃ r st' sent,
    request "r" nodes send busy caches clock saves 4 true (Ok ()) (mkShared 0 (cache ∅)) = Some (r, st', sent) ∧
    (∀ x, r = Ok x → ∃ i host, sent !! i = Some host ∧ send i host = Some (Ok x)).
Proof.
  destruct (request_fails_over "r" nodes send busy caches clock saves true (Ok ()) (mkShared 0 (cache ∅))
    ltac:(discriminate) busy_bounded (or_introl eq_refl)) as (r&st'&sent&E&_&_&Hok).
  exists r, st', sent. split; [exact E|exact Hok].
Defined.

Lemma nodes_up h : h ∈ nodes → host_is_reachable (cache ∅) "r" h = true.
Proof.
  intros Hh. repeat (apply elem_of_cons in Hh as [-> | Hh]; [vm_compute; reflexivity|]).
  by apply not_elem_of_nil in Hh.
Qed.
Lemma nodes_fail i h : h ∈ nodes → fails_over true (send i h) = true ∨ ∃ x, send i h = Some (Ok x).
Proof. intros _. unfold send. repeat case_bool_decide; [by left..|right; by exists h]. Qed.

Lemma request_finds_node_witness :
  ∃ x st' sent,
    request "r" nodes send others caches clock saves 4 true (Ok ()) (mkShared 0 (cache ∅)) = Some (Ok x, st', sent).
Proof.
  apply (request_finds_node "r" nodes send others caches clock saves true (mkShared 0 (cache ∅)) "c").
  - intros k. reflexivity.
  - intros k c. reflexivity.
  - apply (bool_decide_unpack _). vm_compute. exact I.
  - simpl. lia.
  - unfold client_count. simpl. lia.
  - exact nodes_up.
  - vm_compute. reflexivity.
  - exact nodes_fail.
  - apply (bool_decide_unpack _). vm_compute. exact I.
  - intros i. exists "c". reflexivity.
Defined.

(** A request that must not be repeated ([POST]) is sent to [c] after it timed out
    on [b], where it may have been carried out. *)
Theorem post_repeated_after_timeout :
  ∃ sent, (λ x : _ * _ * _, x.2) <$>
    request "r" ["b"; "c"] send others caches clock saves 3 false (Ok ()) (mkShared 0 (cache ∅)) = Some sent ∧
  sent = ["b"; "c"] ∧ send 0 "b" = None.
Proof. eexists. split; [vm_compute; reflexivity|]. done. Qed.

(** [c] is marked unreachable from an earlier failure, answers again, and is not in
    its back-off time.  When [a] fails, [c] is skipped, and so is [a]; that is a
    whole round, and [c] is not remembered as skipped: only [a] is asked again, and
    the request fails. *)
Definition c_down : gmap string BackOffState := {[ "c" := back_off_new 900 "was down" ]}.
Theorem skipped_host_not_asked :
  ((λ x : _ * _ * _, (x.1.1, x.2)) <$>
    request "r" ["a"; "c"] send others caches clock saves 3 true (Ok ()) (mkShared 0 (cache c_down)))
  = Some (Err (Connect "no route"), ["a"; "a"]) ∧
  send 0 "c" = Some (Ok "c") ∧
  backs_off (host_time_to_next_try (cache c_down) "r" "c" 1000) = false.
Proof. split_and!; vm_compute; reflexivity. Qed.
End MultiDemo.
