(* ===== verification/AutoInstallConfig.v ===== *)
(** * Automated installations: data and files

    Model of [lib/pdm-config/src/auto_install.rs] and of the types of
    [lib/pdm-api-types/src/auto_installer.rs]: the prepared answers
    ([prepared.cfg]), the tokens that may fetch them ([tokens.cfg], with the hashed
    secrets in [tokens.shadow]), and the state of past and running installations,
    one file for each.

    A prepared answer is stored with the same fields as it has in the API (the maps
    wrapped into property strings), so one record models both types and the
    conversions between them.  A [BTreeMap] is the list of its entries in key order,
    a [Uuid] its canonical text, whose order is that of the bytes.  Not under [src/],
    hence parameters: the types of [proxmox_installer_types], the section config and
    JSON texts, and [crypt].  Locks and [create_dir_all] may only fail. *)

From S2P Require Import Prelude FileSystem SectionConfig RemotesConfig JsonValue.

Class InstallerTypes := {
  SystemInfo : Type;
  sysinfo_to_value : SystemInfo → result error Value;
  PostHookInfo : Type;
  KeyboardLayout : Type;
  RebootMode : Type;
  FilterMatch : Type;
  LvmOptions : Type;
  ZfsOptions : Type;
  BtrfsOptions : Type;
}.

(** [proxmox_sys::crypt] *)
Class Crypt := {
  encrypt_pw : string → result error string;
  verify_crypt_pw : string → string → result error unit;
}.
Class CryptLaws `{Crypt} : Prop :=
  verify_encrypted password hash : encrypt_pw password = Ok hash → verify_crypt_pw password hash = Ok tt.

Definition Uuid : Type := string.

Inductive InstallationStatus : Type := AnswerSent | NoAnswerFound | InProgress | Finished.
#[export] Instance installation_status_eq_dec : EqDecision InstallationStatus.
Proof. solve_decision. Defined.

Inductive DiskSelectionMode : Type := Fixed | Filter.

Section types.
Context `{InstallerTypes}.

Inductive FilesystemOptions : Type :=
| FsExt4 (opts : LvmOptions)
| FsXfs (opts : LvmOptions)
| FsZfs (opts : ZfsOptions)
| FsBtrfs (opts : BtrfsOptions).

Record Installation : Type := mkInstallation {
  in_uuid : Uuid;
  in_received_at : Z;
  in_status : InstallationStatus;
  in_info : SystemInfo;
  in_answer_id : option string;
  in_post_hook_data : option PostHookInfo;
  in_post_hook_token : option string;
}.

Record PreparedInstallationConfig : Type := mkPrepared {
  pc_id : string;
  pc_authorized_tokens : list string;
  pc_is_default : bool;
  pc_target_filter : list (string * string);
  pc_country : string;
  pc_fqdn : string;
  pc_use_dhcp_fqdn : bool;
  pc_keyboard : KeyboardLayout;
  pc_mailto : string;
  pc_timezone : string;
  pc_root_password_hashed : option string;
  pc_reboot_on_error : bool;
  pc_reboot_mode : RebootMode;
  pc_root_ssh_keys : list string;
  pc_use_dhcp_network : bool;
  pc_cidr : option string;
  pc_gateway : option string;
  pc_dns : option string;
  pc_netdev_filter : list (string * string);
  pc_netif_name_pinning_enabled : bool;
  pc_filesystem : FilesystemOptions;
  pc_disk_mode : DiskSelectionMode;
  pc_disk_list : list string;
  pc_disk_filter : list (string * string);
  pc_disk_filter_match : option FilterMatch;
  pc_post_hook_base_url : option string;
  pc_post_hook_cert_fp : option string;
  pc_template_counters : list (string * Z);
  pc_subscription_key : option string;
}.
End types.

Record AnswerToken : Type := mkAnswerToken {
  at_id : string;
  at_created_by : string;
  at_comment : option string;
  at_enabled : option bool;
  at_expire_at : option Z;
}.

Definition is_active (now : Z) (t : AnswerToken) : bool :=
  default true (at_enabled t) &&
  match at_expire_at t with Some e => (e =? 0) || (now <? e) | None => true end.

(** [UDEV_FILTER_KEY_REGEX] and [TEMPLATE_COUNTER_NAME_REGEX] *)
Definition upper (a : ascii) : bool := byte_between 65 90 a.
Definition lower (a : ascii) : bool := byte_between 97 122 a.
Definition digit (a : ascii) : bool := byte_between 48 57 a.
Definition underscore (a : ascii) : bool := Ascii.eqb a "_".
Definition udev_filter_key (s : string) : bool :=
  negb (String.eqb s "") && str_forall (λ a, upper a || underscore a) s.
Definition template_counter_name (s : string) : bool :=
  match s with
  | String a s => (upper a || lower a || underscore a) && str_forall (λ a, upper a || lower a || digit a || underscore a) s
  | EmptyString => false
  end.

Definition CONFIG_PATH : string := "/etc/proxmox-datacenter-manager/autoinst".
Definition PREPARED_CONF_FILE : string := "/etc/proxmox-datacenter-manager/autoinst/prepared.cfg".
Definition TOKENS_CONF_FILE : string := "/etc/proxmox-datacenter-manager/autoinst/tokens.cfg".
Definition TOKENS_SHADOW_FILE : string := "/etc/proxmox-datacenter-manager/autoinst/tokens.shadow".
Definition INSTALLATIONS_STATE_DIR : string := "/var/lib/proxmox-datacenter-manager/automated-installations".
Definition INSTALLATIONS_LEGACY_FILE : string := "/var/lib/proxmox-datacenter-manager/automated-installations.json".

(** [std::fs::rename] *)
Definition fs_rename (from to_ : string) : io unit :=
  prim (λ m, match m !! from with
             | Some data => (Ok tt, <[to_ := data]> (delete from m))
             | None => (Err ENotFound, m)
             end).
(** [Path::exists]: an error counts as no. *)
Definition path_exists (path : string) : io bool :=
  r ← io_try (fs_open path); mret (match r with Ok (Some _) => true | _ => false end).

Section text.
Context `{InstallerTypes}.

(** The serde encodings of an installation, of the list of them in the legacy file
    and behind the digest, and of the secrets. *)
Class InstallationText := {
  installation_to_json : Installation → result error string;
  installation_from_json : string → result error Installation;
  installations_to_json : list Installation → result error string;
  installations_from_json : string → result error (list Installation);
  shadow_to_json : gmap string string → result error string;
  shadow_from_json : string → result error (gmap string string);
}.
Class InstallationTextLaws `{InstallationText} : Prop := {
  installation_roundtrip i text : installation_to_json i = Ok text → installation_from_json text = Ok i;
  shadow_roundtrip s text : shadow_to_json s = Ok text → shadow_from_json text = Ok s;
}.
End text.

Section config.
Context `{InstallationText} `{Crypt} {CP CT : Type} `{SectionConfigData CP PreparedInstallationConfig} `{SectionText CP}
        `{SectionConfigData CT AnswerToken} `{SectionText CT}.

(** ** Locks *)

Definition installations_read_lock : io unit := fs_sync.
Definition installations_write_lock : io unit := fs_sync.
Definition prepared_answers_write_lock : io unit := fs_sync.
Definition tokens_read_lock : io unit := fs_sync.
Definition tokens_write_lock : io unit := fs_sync.

(** ** Installations *)

(** Path of the state file of an installation. *)
Definition installation_state_path (uuid : Uuid) : string :=
  INSTALLATIONS_STATE_DIR +:+ "/" +:+ uuid +:+ ".json".

Definition migrate_one (inst : Installation) : io unit :=
  let path := installation_state_path (in_uuid inst) in
  there ← path_exists path;
  match there with
  | true => mret tt
  | false => raw ← io_lift (installation_to_json inst); fs_replace path raw
  end.

Definition migrate_legacy_installations_file : io unit :=
  raw ← fs_open INSTALLATIONS_LEGACY_FILE;
  match raw with
  | None => mret tt
  | Some raw =>
      match installations_from_json raw with
      | Err _ => fs_rename INSTALLATIONS_LEGACY_FILE (INSTALLATIONS_LEGACY_FILE +:+ ".broken")
      | Ok installations =>
          _ ← fs_sync; _ ← io_for migrate_one installations; fs_remove INSTALLATIONS_LEGACY_FILE
      end
  end.

(** An entry of the directory with the extension [json]. *)
Definition is_state_file (name : string) : bool :=
  match strip_prefix (INSTALLATIONS_STATE_DIR +:+ "/") name with
  | Some rest =>
      negb (char_in "/" rest) &&
      match strip_suffix ".json" rest with Some stem => negb (String.eqb stem "") | None => false end
  | None => false
  end.

Fixpoint read_state_files (names : list string) : io (list Installation) :=
  match names with
  | [] => mret []
  | name :: names =>
      if is_state_file name then
        raw ← fs_open name;
        raw ← io_lift (ok_or raw ENotFound);
        inst ← io_lift (installation_from_json raw);
        rest ← read_state_files names;
        mret (inst :: rest)
      else read_state_files names
  end.

(** The installations in the order of their uuids, and what the digest is computed
    of. *)
Definition read_installations : io (list Installation * string) :=
  _ ← migrate_legacy_installations_file;
  names ← fs_read_dir;
  installations ← read_state_files names;
  let installations := sort_by (cmp_on in_uuid String.compare) installations in
  raw ← io_lift (installations_to_json installations);
  mret (installations, raw).

Definition save_installation (installation : Installation) : io unit :=
  _ ← fs_sync;
  raw ← io_lift (installation_to_json installation);
  fs_replace (installation_state_path (in_uuid installation)) raw.

Definition remove_installation (uuid : Uuid) : io bool := λ w,
  match fs_remove (installation_state_path uuid) w with
  | (Ok _, w') => (Ok true, w')
  | (Err ENotFound, w') => (Ok false, w')
  | (Err e, w') => (Err e, w')
  end.

(** ** Prepared answers *)

Definition read_prepared_answers : io (CP * string) :=
  content ← fs_open PREPARED_CONF_FILE;
  let content := default ""%string content in
  data ← io_lift (parse_section_config content);
  mret (data, content).

Definition save_prepared_answers (c : CP) : io unit :=
  raw ← io_lift (write_section_config c);
  fs_replace PREPARED_CONF_FILE raw.

(** ** Tokens *)

Definition read_tokens : io (CT * string) :=
  content ← fs_open TOKENS_CONF_FILE;
  let content := default ""%string content in
  data ← io_lift (parse_section_config content);
  mret (data, content).

Definition write_tokens (data : CT) : io unit :=
  raw ← io_lift (write_section_config data);
  fs_replace TOKENS_CONF_FILE raw.

Definition read_token_shadow : io (gmap string string) :=
  content ← fs_open TOKENS_SHADOW_FILE;
  io_lift (shadow_from_json (default "{}"%string content)).

Definition write_token_shadow (data : gmap string string) : io unit :=
  raw ← io_lift (shadow_to_json data);
  fs_replace TOKENS_SHADOW_FILE raw.

Definition add_token (token : AnswerToken) (value : string) : io unit :=
  '(tokens, _) ← read_tokens;
  match sc_get tokens (at_id token) with
  | Some _ => io_fail (EMsg "token already exists")
  | None =>
      _ ← write_tokens (sc_insert tokens (at_id token) token);
      shadow ← read_token_shadow;
      hashed ← io_lift (encrypt_pw value);
      write_token_shadow (<[at_id token := hashed]> shadow)
  end.

Definition update_token (token : AnswerToken) : io unit :=
  '(tokens, _) ← read_tokens;
  match sc_get tokens (at_id token) with
  | None => io_fail (EMsg ("unknown token: " +:+ at_id token))
  | Some _ => write_tokens (sc_insert tokens (at_id token) token)
  end.

Definition update_token_shadow (id secret : string) : io unit :=
  shadow ← read_token_shadow;
  match shadow !! id with
  | None => io_fail (EMsg ("unknown token: " +:+ id))
  | Some _ => hashed ← io_lift (encrypt_pw secret); write_token_shadow (<[id := hashed]> shadow)
  end.

Definition delete_token (id : string) : io unit :=
  '(tokens, _) ← read_tokens;
  match sc_get tokens id with
  | None => io_fail (EMsg ("unknown token: " +:+ id))
  | Some _ =>
      _ ← write_tokens (sc_remove tokens id);
      shadow ← read_token_shadow;
      write_token_shadow (delete id shadow)
  end.

Definition verify_secret (id secret : string) : io unit :=
  shadow ← read_token_shadow;
  io_lift (ok_or (hashed ← shadow !! id; result_ok (verify_crypt_pw secret hashed)) (EMsg "invalid access secret")).
End config.
