(* ===== verification/AutoInstaller.v ===== *)
(** * Automated installations: the API

    Model of [server/src/api/auto_installer/mod.rs].  A machine that is to be
    installed sends its system information with a token; it gets the first prepared
    answer that matches, rendered for it, and reports back when it is done.

    The message of an API error is modelled, its HTTP status is not, and neither is the
    delay of a refused request.  Random values (uuids, secrets) are arguments.  Not
    under [src/], hence parameters: JSON pointers, globs, MiniJinja templates, and the
    parsers of host names and addresses (class [InstallerWorld]).

    The handlers bind the result of taking a lock without looking at it
    ([ignore_lock]). *)

From S2P Require Import Prelude FileSystem SectionConfig RemotesConfig JsonValue AutoInstallConfig.

Class InstallerWorld := {
  pointer : Value → string → option Value;
  Pattern : Type;
  glob_new : string → option Pattern;
  glob_matches : Pattern → string → bool;
  render_named_str : string → string → Value → result error string;
  Fqdn : Type;
  fqdn_from : string → result error Fqdn;
  Cidr : Type;
  parse_cidr : string → result error Cidr;
  IpAddr : Type;
  parse_ip : string → result error IpAddr;
}.

(** ** The answer, [proxmox_installer_types::answer] *)

Section answer.
Context `{InstallerTypes} `{InstallerWorld}.

Inductive FqdnConfig : Type :=
| FqdnFromDhcp
| FqdnSimple (f : Fqdn).

Record GlobalOptions : Type := mkGlobal {
  go_country : string;
  go_fqdn : FqdnConfig;
  go_keyboard : KeyboardLayout;
  go_mailto : string;
  go_timezone : string;
  go_root_password : option string;
  go_root_password_hashed : option string;
  go_reboot_on_error : bool;
  go_reboot_mode : RebootMode;
  go_root_ssh_keys : list string;
  go_subscription_key : option string;
}.

(** The interface name pinning is enabled or not; its mapping is empty. *)
Inductive NetworkConfig : Type :=
| FromDhcp (pinning : bool)
| FromAnswer (cidr : Cidr) (dns gateway : IpAddr) (filter : list (string * string)) (pinning : bool).

Inductive Filesystem : Type := Ext4 | Xfs | Zfs | Btrfs.

Record DiskSetup : Type := mkDisks {
  ds_filesystem : Filesystem;
  ds_disk_list : list string;
  ds_filter : list (string * string);
  ds_filter_match : option FilterMatch;
  ds_zfs : option ZfsOptions;
  ds_lvm : option LvmOptions;
  ds_btrfs : option BtrfsOptions;
}.

Record PostNotificationHookInfo : Type := mkHook {
  hk_url : string;
  hk_cert_fingerprint : option string;
  hk_auth_token : option string;
}.

(** Without [first_boot], which is never set. *)
Record AutoInstallerConfig : Type := mkAnswer {
  an_global : GlobalOptions;
  an_network : NetworkConfig;
  an_disks : DiskSetup;
  an_post_installation_webhook : option PostNotificationHookInfo;
}.

Inductive Response : Type :=
| Unauthorized
| AnswerBody (body : string)
| BadRequest (body : error).
End answer.

(** [char::is_control] in a UTF-8 string: U+0000 to U+001F and U+007F to U+009F. *)
Fixpoint has_control (s : string) : bool :=
  match s with
  | EmptyString => false
  | String a s' =>
      byte_between 0 31 a || byte_between 127 127 a ||
      (byte_between 0xC2 0xC2 a && match s' with String b _ => byte_between 0x80 0x9F b | _ => false end) ||
      has_control s'
  end.

(** [trim_end_matches('/')] *)
Fixpoint trim_end_slash (s : string) : string :=
  match s with
  | EmptyString => ""
  | String a s' =>
      let t := trim_end_slash s' in
      if Ascii.eqb a "/" && String.eqb t "" then "" else String a t
  end.

Section installer.
Context `{InstallationText} `{Crypt} `{InstallerWorld} {CP CT : Type}
        `{SectionConfigData CP PreparedInstallationConfig} `{SectionText CP}
        `{SectionConfigData CT AnswerToken} `{SectionText CT} `{ConfigDigests string}.
Context (answer_to_json : AutoInstallerConfig → result error string).
Implicit Types (p : PreparedInstallationConfig).

(** [let _lock = lock();] *)
Definition ignore_lock (lock : io unit) : io unit := _ ← io_try lock; mret tt.

Definition error_if (b : bool) (msg : string) : io unit := io_lift (bail_if b (EMsg msg)).

(** ** Requests of machines *)

Definition verify_answer_authorization_header (now : Z) (header : string) : io (option string) :=
  let '(scheme, token) := default (""%string, ""%string) (split_once " " header) in
  if negb (String.eqb (to_ascii_lowercase scheme) "bearer") then mret None
  else
    _ ← ignore_lock tokens_read_lock;
    tokens ← io_try (read_tokens (CT:=CT));
    match tokens with
    | Err _ => mret None
    | Ok (tokens, _) =>
        let '(id, secret) := default (""%string, ""%string) (split_once ":" token) in
        match sc_get tokens id with
        | None => mret None
        | Some token =>
            if is_active now token then
              verified ← io_try (verify_secret id secret);
              mret (match verified with Ok _ => Some id | Err _ => None end)
            else mret None
        end
    end.

Definition matches_filter (info : Value) (filter : string * string) : bool :=
  match pointer info filter.1 ≫= as_str with
  | Some value => match glob_new filter.2 with Some pattern => glob_matches pattern value | None => false end
  | None => false
  end.

Definition authorized (token_id : string) p : bool := existsb (String.eqb token_id) (pc_authorized_tokens p).

(** The loop of [find_config]: the default answer and the matched one. *)
Fixpoint find_loop (token_id : string) (info : Value) (l : list (string * PreparedInstallationConfig))
    (default_answer matched : option PreparedInstallationConfig)
    : option PreparedInstallationConfig * option PreparedInstallationConfig :=
  match l with
  | [] => (default_answer, matched)
  | (_, p) :: l =>
      if negb (authorized token_id p) then find_loop token_id info l default_answer matched
      else if pc_is_default p then find_loop token_id info l (Some p) matched
      else
        match pc_target_filter p with
        | [] => find_loop token_id info l default_answer matched
        | filters =>
            if forallb (matches_filter info) filters then
              match matched with
              | None => find_loop token_id info l default_answer (Some p)
              | Some _ => (default_answer, matched)
              end
            else find_loop token_id info l default_answer matched
        end
  end.

Definition select_config (token_id : string) (info : Value) (l : list (string * PreparedInstallationConfig))
    : option PreparedInstallationConfig :=
  let '(default_answer, matched) := find_loop token_id info l None None in
  match matched with Some p => Some p | None => default_answer end.

Definition find_config (token_id : string) (info : SystemInfo) : io (option PreparedInstallationConfig) :=
  info ← io_lift (sysinfo_to_value info);
  '(prepared, _) ← read_prepared_answers (CP:=CP);
  mret (select_config token_id info (sc_iter prepared)).

Definition template_context p (sysinfo : SystemInfo) : result error Value :=
  context ← sysinfo_to_value sysinfo;
  Ok (match context with
      | VObject m => VObject (foldl (λ m '(k, v), map_set m k (VNumber (NInt v))) m (pc_template_counters p))
      | other => other
      end).

Definition render (context : Value) (name tmpl : string) : result error string :=
  rendered ← render_named_str name tmpl context;
  _ ← bail_if (has_control rendered) (EMsg ("rendered '" +:+ name +:+ "' contains control characters"));
  Ok rendered.

(** A field that is rendered and parsed. *)
Definition render_option {A} (context : Value) (name : string) (tmpl : option string) (missing : string)
    (parse : string → result error A) : result error A :=
  tmpl ← ok_or tmpl (EMsg missing);
  s ← render context name tmpl;
  parse s.

Definition parse_cidr_with_mask (s : string) : result error Cidr :=
  if negb (char_in "/" s) then Err (EMsg "rendered 'cidr' has no netmask, append e.g. /24") else parse_cidr s.

Definition render_network (context : Value) p : result error NetworkConfig :=
  let pinning := pc_netif_name_pinning_enabled p in
  if pc_use_dhcp_network p then Ok (FromDhcp pinning)
  else
    cidr ← render_option context "cidr" (pc_cidr p) "no host address" parse_cidr_with_mask;
    dns ← render_option context "dns" (pc_dns p) "no DNS server address" parse_ip;
    gateway ← render_option context "gateway" (pc_gateway p) "no gateway address" parse_ip;
    Ok (FromAnswer cidr dns gateway (pc_netdev_filter p) pinning).

Definition render_disks p : DiskSetup :=
  let '(disk_list, filter) := match pc_disk_mode p with
                              | Fixed => (pc_disk_list p, [])
                              | Filter => ([], pc_disk_filter p)
                              end in
  mkDisks (match pc_filesystem p with FsExt4 _ => Ext4 | FsXfs _ => Xfs | FsZfs _ => Zfs | FsBtrfs _ => Btrfs end)
    disk_list filter (pc_disk_filter_match p)
    (match pc_filesystem p with FsZfs opts => Some opts | _ => None end)
    (match pc_filesystem p with FsExt4 opts | FsXfs opts => Some opts | _ => None end)
    (match pc_filesystem p with FsBtrfs opts => Some opts | _ => None end).

Definition render_prepared_config p (sysinfo : SystemInfo) : result error AutoInstallerConfig :=
  context ← template_context p sysinfo;
  fqdn ← (if pc_use_dhcp_fqdn p then Ok FqdnFromDhcp
          else s ← render context "fqdn" (pc_fqdn p); f ← fqdn_from s; Ok (FqdnSimple f));
  mailto ← render context "mailto" (pc_mailto p);
  network ← render_network context p;
  Ok (mkAnswer
        (mkGlobal (pc_country p) fqdn (pc_keyboard p) mailto (pc_timezone p) None (pc_root_password_hashed p)
           (pc_reboot_on_error p) (pc_reboot_mode p) (pc_root_ssh_keys p) (pc_subscription_key p))
        network (render_disks p) None).

Definition i32_MAX : Z := 2 ^ 31 - 1.
Definition set_counters (counters : list (string * Z)) p : PreparedInstallationConfig :=
  mkPrepared (pc_id p) (pc_authorized_tokens p) (pc_is_default p) (pc_target_filter p) (pc_country p) (pc_fqdn p)
    (pc_use_dhcp_fqdn p) (pc_keyboard p) (pc_mailto p) (pc_timezone p) (pc_root_password_hashed p)
    (pc_reboot_on_error p) (pc_reboot_mode p) (pc_root_ssh_keys p) (pc_use_dhcp_network p) (pc_cidr p)
    (pc_gateway p) (pc_dns p) (pc_netdev_filter p) (pc_netif_name_pinning_enabled p) (pc_filesystem p)
    (pc_disk_mode p) (pc_disk_list p) (pc_disk_filter p) (pc_disk_filter_match p) (pc_post_hook_base_url p)
    (pc_post_hook_cert_fp p) counters (pc_subscription_key p).
(** [v.saturating_add(1)] for every counter. *)
Definition increment_counters p : PreparedInstallationConfig :=
  set_counters (prod_map id (λ v, Z.min i32_MAX (v + 1)) <$> pc_template_counters p) p.

Definition increment_template_counters (id : string) : io unit :=
  _ ← ignore_lock prepared_answers_write_lock;
  '(prepared, _) ← read_prepared_answers (CP:=CP);
  match sc_get prepared id with
  | None => io_fail (EMsg ("no such prepared answer configuration: " +:+ id))
  | Some _ => save_prepared_answers (sc_modify prepared id increment_counters)
  end.

Definition webhook_url (base_url : string) (uuid : Uuid) : string :=
  trim_end_slash base_url +:+ "/api2/json/auto-install/installations/" +:+ uuid +:+ "/post-hook".

Definition answer_status (config : PreparedInstallationConfig) : InstallationStatus :=
  match pc_post_hook_base_url config with Some _ => InProgress | None => AnswerSent end.

Definition add_webhook (config : PreparedInstallationConfig) (uuid : Uuid) (post_hook_token : option string)
    (answer : AutoInstallerConfig) : AutoInstallerConfig :=
  match pc_post_hook_base_url config with
  | Some base_url =>
      mkAnswer (an_global answer) (an_network answer) (an_disks answer)
        (Some (mkHook (webhook_url base_url uuid) (pc_post_hook_cert_fp config) post_hook_token))
  | None => answer
  end.

(** [uuid] is generated, [token] is the outcome of generating a secret. *)
Definition new_installation (uuid : Uuid) (now : Z) (token : result error string) (token_id : string)
    (sysinfo : SystemInfo) : io AutoInstallerConfig :=
  _ ← ignore_lock installations_write_lock;
  config ← find_config token_id sysinfo;
  match config with
  | Some config =>
      let status := answer_status config in
      answer ← io_lift (render_prepared_config config sysinfo);
      post_hook_token ← (match pc_post_hook_base_url config with
                         | Some _ => t ← io_lift token; mret (Some t)
                         | None => mret None
                         end);
      let installation := mkInstallation uuid now status sysinfo (Some (pc_id config)) None post_hook_token in
      let answer := add_webhook config uuid post_hook_token answer in
      _ ← increment_template_counters (pc_id config);
      _ ← save_installation installation;
      mret answer
  | None =>
      _ ← save_installation (mkInstallation uuid now NoAnswerFound sysinfo None None None);
      io_fail (EMsg "no answer file found")
  end.

(** [data] is the body of the request, if it can be decoded. *)
Definition api_function_new_installation (uuid : Uuid) (now : Z) (token : result error string) (header : string)
    (data : result error SystemInfo) : io Response :=
  token_id ← verify_answer_authorization_header now header;
  match token_id with
  | None => mret Unauthorized
  | Some token_id =>
      response ← io_try (data ← io_lift data;
                         answer ← new_installation uuid now token token_id data;
                         io_lift (answer_to_json answer));
      mret (match response with Ok body => AnswerBody body | Err e => BadRequest e end)
  end.

(** ** Installations *)

Definition set_installation (status : InstallationStatus) (data : option PostHookInfo) (token : option string)
    (i : Installation) : Installation :=
  mkInstallation (in_uuid i) (in_received_at i) status (in_info i) (in_answer_id i) data token.

Definition list_installations : io (list Installation * string) :=
  _ ← ignore_lock installations_read_lock;
  '(installations, raw) ← read_installations;
  mret ((λ i, set_installation (in_status i) (in_post_hook_data i) None i) <$> installations, raw).

Definition delete_installation (uuid : Uuid) : io unit :=
  _ ← ignore_lock installations_write_lock;
  removed ← remove_installation uuid;
  error_if (negb removed) "no such entry".

Definition awaits_hook (uuid : Uuid) (i : Installation) : bool :=
  String.eqb (in_uuid i) uuid && bool_decide (in_status i = InProgress) &&
  match in_post_hook_data i with None => true | Some _ => false end.

Definition handle_post_hook (uuid : Uuid) (token : string) (info : PostHookInfo) : io unit :=
  _ ← ignore_lock installations_write_lock;
  '(installations, _) ← read_installations;
  match find (awaits_hook uuid) installations with
  | None => io_fail (EMsg ("installation " +:+ uuid +:+ " not found"))
  | Some install =>
      let stored := default ""%string (in_post_hook_token install) in
      if String.eqb stored "" || negb (Nat.eqb (String.length stored) (String.length token)) ||
         negb (String.eqb stored token)
      then io_fail (EMsg ("installation " +:+ uuid +:+ " not found"))
      else save_installation (set_installation Finished (Some info) None install)
  end.

(** ** Tokens *)

Definition list_tokens : io (list AnswerToken * string) :=
  '(tokens, content) ← read_tokens (CT:=CT);
  mret ((sc_iter tokens).*2, content).

(** [created_by]: the user behind the authentication id of the request; [secret] is
    generated. *)
Definition create_token (created_by : result error string) (secret : string) (id : string) (comment : option string)
    (enabled : option bool) (expire_at : option Z) : io (AnswerToken * string) :=
  _ ← ignore_lock tokens_write_lock;
  created_by ← io_lift created_by;
  let token := mkAnswerToken id created_by comment enabled expire_at in
  _ ← add_token (CT:=CT) token secret;
  mret (token, secret).

(** [suffix]: eight random hexadecimal digits. *)
Definition generate_token (created_by : result error string) (suffix : result error string) (secret : string)
    (config_id : string) : io (AnswerToken * string) :=
  suffix ← io_lift suffix;
  create_token created_by secret (config_id +:+ "-" +:+ suffix) (Some "Automatically generated."%string) (Some true) None.

Inductive DeletableAnswerTokenProperty : Type := DelComment | DelExpireAt.
Record AnswerTokenUpdater : Type := mkTokenUpdater {
  tu_comment : option string;
  tu_enabled : option bool;
  tu_expire_at : option Z;
}.

Definition delete_token_property (t : AnswerToken) (prop : DeletableAnswerTokenProperty) : AnswerToken :=
  match prop with
  | DelComment => mkAnswerToken (at_id t) (at_created_by t) None (at_enabled t) (at_expire_at t)
  | DelExpireAt => mkAnswerToken (at_id t) (at_created_by t) (at_comment t) (at_enabled t) None
  end.
Definition update_answer_token (u : AnswerTokenUpdater) (delete : option (list DeletableAnswerTokenProperty))
    (t : AnswerToken) : AnswerToken :=
  let t := foldl delete_token_property t (default [] delete) in
  let over {A} (new old : option A) := match new with Some _ => new | None => old end in
  mkAnswerToken (at_id t) (at_created_by t) (over (tu_comment u) (at_comment t)) (over (tu_enabled u) (at_enabled t))
    (over (tu_expire_at u) (at_expire_at t)).

(** [detect_modification]; the digest is that of the content of the file. *)
Definition check_digest (content : string) (expected : option digest) : io unit :=
  error_if (negb (match detect_modification (config_digest content) expected with Ok _ => true | Err _ => false end))
    "detected modified configuration - file changed by other user? Try again.".

Definition update_token_handler (secret : string) (id : string) (u : AnswerTokenUpdater)
    (delete : option (list DeletableAnswerTokenProperty)) (regenerate_secret : bool) (expected : option digest)
    : io (AnswerToken * option string) :=
  _ ← ignore_lock tokens_write_lock;
  '(tokens, content) ← read_tokens (CT:=CT);
  _ ← check_digest content expected;
  match sc_get tokens id with
  | None => io_fail (EMsg ("no such access token: " +:+ id))
  | Some token =>
      let token := update_answer_token u delete token in
      if regenerate_secret then
        _ ← delete_token (CT:=CT) (at_id token);
        _ ← add_token (CT:=CT) token secret;
        mret (token, Some secret)
      else
        _ ← update_token (CT:=CT) token;
        mret (token, None)
  end.

Definition delete_token_handler (id : string) : io unit :=
  '(prepared, _) ← read_prepared_answers (CP:=CP);
  _ ← error_if (existsb (authorized id) (sc_iter prepared).*2) "token still in use by answer configurations";
  _ ← ignore_lock tokens_write_lock;
  delete_token (CT:=CT) id.

(** ** Prepared answers *)

Definition set_password (hashed : option string) p : PreparedInstallationConfig :=
  mkPrepared (pc_id p) (pc_authorized_tokens p) (pc_is_default p) (pc_target_filter p) (pc_country p) (pc_fqdn p)
    (pc_use_dhcp_fqdn p) (pc_keyboard p) (pc_mailto p) (pc_timezone p) hashed
    (pc_reboot_on_error p) (pc_reboot_mode p) (pc_root_ssh_keys p) (pc_use_dhcp_network p) (pc_cidr p)
    (pc_gateway p) (pc_dns p) (pc_netdev_filter p) (pc_netif_name_pinning_enabled p) (pc_filesystem p)
    (pc_disk_mode p) (pc_disk_list p) (pc_disk_filter p) (pc_disk_filter_match p) (pc_post_hook_base_url p)
    (pc_post_hook_cert_fp p) (pc_template_counters p) (pc_subscription_key p).
Definition set_tokens (tokens : list string) p : PreparedInstallationConfig :=
  mkPrepared (pc_id p) tokens (pc_is_default p) (pc_target_filter p) (pc_country p) (pc_fqdn p)
    (pc_use_dhcp_fqdn p) (pc_keyboard p) (pc_mailto p) (pc_timezone p) (pc_root_password_hashed p)
    (pc_reboot_on_error p) (pc_reboot_mode p) (pc_root_ssh_keys p) (pc_use_dhcp_network p) (pc_cidr p)
    (pc_gateway p) (pc_dns p) (pc_netdev_filter p) (pc_netif_name_pinning_enabled p) (pc_filesystem p)
    (pc_disk_mode p) (pc_disk_list p) (pc_disk_filter p) (pc_disk_filter_match p) (pc_post_hook_base_url p)
    (pc_post_hook_cert_fp p) (pc_template_counters p) (pc_subscription_key p).

Definition validate_udev_filter_map (map : list (string * string)) : io unit :=
  error_if (existsb (λ k, negb (udev_filter_key k)) map.*1) "invalid udev filter key".
Definition validate_template_map (map : list (string * Z)) : io unit :=
  error_if (existsb (λ '(k, v), negb (template_counter_name k) || (v <? 0)) map) "invalid template counter".

Definition list_prepared_answers : io (list PreparedInstallationConfig * string) :=
  '(prepared, content) ← read_prepared_answers (CP:=CP);
  mret (set_password None <$> (sc_iter prepared).*2, content).

Definition get_prepared_answer (id : string) : io PreparedInstallationConfig :=
  '(prepared, _) ← read_prepared_answers (CP:=CP);
  match sc_get prepared id with
  | Some p => mret (set_password None p)
  | None => io_fail (EMsg ("no such prepared answer configuration: " +:+ id))
  end.

(** What is needed to generate a token. *)
Record token_source : Type := mkSource {
  ts_created_by : result error string;
  ts_suffix : result error string;
  ts_secret : string;
}.

Definition without_match_msg : string :=
  "non-default answer requires at least one target-filter entry, otherwise it can never match".

Definition create_prepared_answer (src : token_source) (config : PreparedInstallationConfig)
    (root_password : option string) : io (PreparedInstallationConfig * option (AnswerToken * string)) :=
  _ ← ignore_lock prepared_answers_write_lock;
  '(prepared, _) ← read_prepared_answers (CP:=CP);
  match sc_get prepared (pc_id config) with
  | Some _ => io_fail (EMsg ("configuration with ID " +:+ pc_id config +:+ " already exists"))
  | None =>
      _ ← (if pc_is_default config
           then error_if (existsb pc_is_default (sc_iter prepared).*2) "another configuration is already the default answer"
           else error_if (match pc_target_filter config with [] => true | _ => false end) without_match_msg);
      config ← (match root_password with
                | Some password => hashed ← io_lift (encrypt_pw password); mret (set_password (Some hashed) config)
                | None =>
                    match pc_root_password_hashed config with
                    | Some _ => mret config
                    | None => io_fail (EMsg "either `root-password` or `root-password-hashed` must be set")
                    end
                end);
      '(config, token) ← (match pc_authorized_tokens config with
                          | [] =>
                              token ← generate_token (ts_created_by src) (ts_suffix src) (ts_secret src) (pc_id config);
                              mret (set_tokens [at_id token.1] config, Some token)
                          | _ => mret (config, None)
                          end);
      _ ← validate_udev_filter_map (pc_netdev_filter config);
      _ ← validate_udev_filter_map (pc_disk_filter config);
      _ ← validate_template_map (pc_template_counters config);
      _ ← save_prepared_answers (sc_insert prepared (pc_id config) config);
      mret (set_password None config, token)
  end.

Inductive DeletablePreparedInstallationConfigProperty : Type :=
| TargetFilter | NetdevFilter | DiskFilter | RootSshKeys | PostHookBaseUrl | PostHookCertFp | TemplateCounters
| SubscriptionKey.

Definition delete_prepared_property p (prop : DeletablePreparedInstallationConfigProperty) : PreparedInstallationConfig :=
  let hit x := match prop, x with
              | TargetFilter, TargetFilter | NetdevFilter, NetdevFilter | DiskFilter, DiskFilter
              | RootSshKeys, RootSshKeys | PostHookBaseUrl, PostHookBaseUrl | PostHookCertFp, PostHookCertFp
              | TemplateCounters, TemplateCounters | SubscriptionKey, SubscriptionKey => true
              | _, _ => false
              end in
  let clear {A} x (l : list A) := if hit x then [] else l in
  let unset {A} x (o : option A) := if hit x then None else o in
  mkPrepared (pc_id p) (pc_authorized_tokens p) (pc_is_default p) (clear TargetFilter (pc_target_filter p))
    (pc_country p) (pc_fqdn p) (pc_use_dhcp_fqdn p) (pc_keyboard p) (pc_mailto p) (pc_timezone p)
    (pc_root_password_hashed p) (pc_reboot_on_error p) (pc_reboot_mode p) (clear RootSshKeys (pc_root_ssh_keys p))
    (pc_use_dhcp_network p) (pc_cidr p) (pc_gateway p) (pc_dns p) (clear NetdevFilter (pc_netdev_filter p))
    (pc_netif_name_pinning_enabled p) (pc_filesystem p) (pc_disk_mode p) (pc_disk_list p)
    (clear DiskFilter (pc_disk_filter p)) (pc_disk_filter_match p) (unset PostHookBaseUrl (pc_post_hook_base_url p))
    (unset PostHookCertFp (pc_post_hook_cert_fp p)) (clear TemplateCounters (pc_template_counters p))
    (unset SubscriptionKey (pc_subscription_key p)).

(** Every field of the configuration but the id may be given. *)
Record PreparedInstallationConfigUpdater : Type := mkPreparedUpdater {
  pu_authorized_tokens : option (list string);
  pu_is_default : option bool;
  pu_target_filter : option (list (string * string));
  pu_country : option string;
  pu_fqdn : option string;
  pu_use_dhcp_fqdn : option bool;
  pu_keyboard : option KeyboardLayout;
  pu_mailto : option string;
  pu_timezone : option string;
  pu_root_password_hashed : option string;
  pu_reboot_on_error : option bool;
  pu_reboot_mode : option RebootMode;
  pu_root_ssh_keys : option (list string);
  pu_use_dhcp_network : option bool;
  pu_cidr : option string;
  pu_gateway : option string;
  pu_dns : option string;
  pu_netdev_filter : option (list (string * string));
  pu_netif_name_pinning_enabled : option bool;
  pu_filesystem : option FilesystemOptions;
  pu_disk_mode : option DiskSelectionMode;
  pu_disk_list : option (list string);
  pu_disk_filter : option (list (string * string));
  pu_disk_filter_match : option FilterMatch;
  pu_post_hook_base_url : option string;
  pu_post_hook_cert_fp : option string;
  pu_template_counters : option (list (string * Z));
  pu_subscription_key : option string;
}.

(** The assignments of [update_prepared_answer], with the tokens and the password
    that come out of it. *)
Definition apply_updater (u : PreparedInstallationConfigUpdater) (tokens : list string) (hashed : option string) p
    : PreparedInstallationConfig :=
  let over {A} (new old : option A) := match new with Some _ => new | None => old end in
  mkPrepared (pc_id p) tokens (default (pc_is_default p) (pu_is_default u))
    (default (pc_target_filter p) (pu_target_filter u)) (default (pc_country p) (pu_country u))
    (default (pc_fqdn p) (pu_fqdn u)) (default (pc_use_dhcp_fqdn p) (pu_use_dhcp_fqdn u))
    (default (pc_keyboard p) (pu_keyboard u)) (default (pc_mailto p) (pu_mailto u))
    (default (pc_timezone p) (pu_timezone u)) hashed
    (default (pc_reboot_on_error p) (pu_reboot_on_error u)) (default (pc_reboot_mode p) (pu_reboot_mode u))
    (default (pc_root_ssh_keys p) (pu_root_ssh_keys u)) (default (pc_use_dhcp_network p) (pu_use_dhcp_network u))
    (over (pu_cidr u) (pc_cidr p)) (over (pu_gateway u) (pc_gateway p)) (over (pu_dns u) (pc_dns p))
    (default (pc_netdev_filter p) (pu_netdev_filter u))
    (default (pc_netif_name_pinning_enabled p) (pu_netif_name_pinning_enabled u))
    (default (pc_filesystem p) (pu_filesystem u)) (default (pc_disk_mode p) (pu_disk_mode u))
    (default (pc_disk_list p) (pu_disk_list u)) (default (pc_disk_filter p) (pu_disk_filter u))
    (over (pu_disk_filter_match u) (pc_disk_filter_match p)) (over (pu_post_hook_base_url u) (pc_post_hook_base_url p))
    (over (pu_post_hook_cert_fp u) (pc_post_hook_cert_fp p))
    (default (pc_template_counters p) (pu_template_counters u)) (over (pu_subscription_key u) (pc_subscription_key p)).

(** [if let Some(map) = update { validate(&map)?; .. }] *)
Definition validate_option {A} (validate : A → io unit) (o : option A) : io unit :=
  match o with Some x => validate x | None => mret tt end.

(** Updating an entry that was found. *)
Definition update_found (src : token_source) (prepared : CP) (id : string) (u : PreparedInstallationConfigUpdater)
    (root_password : option string) p : io (PreparedInstallationConfig * option (AnswerToken * string)) :=
  '(tokens, token) ← (match pu_authorized_tokens u with
                      | Some [] =>
                          token ← generate_token (ts_created_by src) (ts_suffix src) (ts_secret src) (pc_id p);
                          mret ([at_id token.1], Some token)
                      | Some tokens => mret (tokens, None)
                      | None => mret (pc_authorized_tokens p, None)
                      end);
  hashed ← (match root_password with
            | Some password => hashed ← io_lift (encrypt_pw password); mret (Some hashed)
            | None => mret (match pu_root_password_hashed u with Some h => Some h | None => pc_root_password_hashed p end)
            end);
  _ ← validate_option validate_udev_filter_map (pu_netdev_filter u);
  _ ← validate_option validate_udev_filter_map (pu_disk_filter u);
  _ ← validate_option validate_template_map (pu_template_counters u);
  let p := apply_updater u tokens hashed p in
  _ ← error_if (negb (pc_is_default p) && match pc_target_filter p with [] => true | _ => false end) without_match_msg;
  _ ← save_prepared_answers (sc_modify prepared id (λ _, p));
  mret (set_password None p, token).

Definition update_prepared_answer (src : token_source) (id : string) (u : PreparedInstallationConfigUpdater)
    (root_password : option string) (delete : option (list DeletablePreparedInstallationConfigProperty))
    (expected : option digest) : io (PreparedInstallationConfig * option (AnswerToken * string)) :=
  _ ← ignore_lock prepared_answers_write_lock;
  '(prepared, content) ← read_prepared_answers (CP:=CP);
  _ ← check_digest content expected;
  _ ← error_if (default false (pu_is_default u) &&
                existsb (λ p, pc_is_default p && negb (String.eqb (pc_id p) id)) (sc_iter prepared).*2)
        "another configuration is already the default answer";
  match sc_get prepared id with
  | None => io_fail (EMsg ("no such prepared answer configuration: " +:+ id))
  | Some p => update_found src prepared id u root_password (foldl delete_prepared_property p (default [] delete))
  end.

Definition delete_prepared_answer (id : string) : io unit :=
  _ ← ignore_lock prepared_answers_write_lock;
  '(prepared, _) ← read_prepared_answers (CP:=CP);
  match sc_get prepared id with
  | None => io_fail (EMsg "no such entry")
  | Some _ => save_prepared_answers (sc_remove prepared id)
  end.
End installer.
