(* ===== verification/AutoInstallSpec.v ===== *)
(** * Automated installations: who gets which answer

    What the handlers of [AutoInstaller] promise: an answer is only given for an
    active token and only to a machine a prepared answer is meant for, the prepared
    answers stay consistent, an installation reports back once, and tokens work from
    their creation to their deletion.  All of it for every list of I/O faults. *)

From S2P Require Import Prelude FileSystem SectionConfig RemotesConfig JsonValue AutoInstallConfig AutoInstaller.

(** ** Steps that leave the files as they are *)

Section steps.
Implicit Types (m : gmap string string).

Lemma triple_ignore_lock m0 lock E :
  io_rel eq lock → triple (λ m, m = m0) (ignore_lock lock) (λ _ m, m = m0) E.
Proof.
  intros Hl w <-. unfold ignore_lock, io_try. rewrite io_bind_run. specialize (Hl w).
  destruct (lock w) as [r w']. cbn. symmetry. exact Hl.
Qed.

Lemma triple_error_if m0 b msg :
  triple (λ m, m = m0) (error_if b msg) (λ _ m, m = m0 ∧ b = false) (λ m, m = m0).
Proof. apply triple_lift. intros m ->. by destruct b. Qed.

(** A relation between the files before and after, as a triple. *)
Lemma triple_rel {A} (R : relation (gmap string string)) `{!PreOrder R} m0 (c : io A) :
  io_rel R c → triple (λ m, R m0 m) c (λ _ m, R m0 m) (λ m, R m0 m).
Proof.
  intros Hc w Hw. specialize (Hc w). destruct (c w) as [[a|e] w']; by etrans.
Qed.
End steps.

(** Only the given files change. *)
Definition only (names : list string) (m m' : gmap string string) : Prop :=
  ∀ name, name ∉ names → m' !! name = m !! name.

#[export] Instance only_preorder names : PreOrder (only names).
Proof. split; [by intros m name|]. intros m1 m2 m3 H12 H23 name Hn. by rewrite (H23 name Hn), (H12 name Hn). Qed.

Lemma only_mono names names' m m' : names ⊆ names' → only names m m' → only names' m m'.
Proof. intros Hs Ho name Hn. apply Ho. set_solver. Qed.

Lemma replace_only name data names : name ∈ names → io_rel (only names) (fs_replace name data).
Proof.
  intros Hn. apply io_rel_prim; [apply _|]. intros m name' Hn'. simpl. rewrite lookup_insert_ne; [done|].
  intros ->. done.
Qed.

Section views.
Context `{InstallationText} `{Crypt} `{InstallerWorld} {CP CT : Type}
        `{SectionConfigData CP PreparedInstallationConfig} `{SectionText CP}
        `{SectionConfigData CT AnswerToken} `{SectionText CT} `{ConfigDigests string}.
Implicit Types (m : gmap string string) (p : PreparedInstallationConfig).

Definition disk_prepared m : option CP := result_ok (parse_section_config (default ""%string (m !! PREPARED_CONF_FILE))).
Definition prepared_on_disk m (id : string) : option PreparedInstallationConfig := c ← disk_prepared m; sc_get c id.
Definition disk_tokens m : option CT := result_ok (parse_section_config (default ""%string (m !! TOKENS_CONF_FILE))).
Definition token_on_disk m (id : string) : option AnswerToken := c ← disk_tokens m; sc_get c id.
Definition disk_secrets m : option (gmap string string) :=
  result_ok (shadow_from_json (default "{}"%string (m !! TOKENS_SHADOW_FILE))).
Definition secret_on_disk m (id : string) : option string := s ← disk_secrets m; s !! id.
Definition installation_on_disk m (uuid : Uuid) : option Installation :=
  text ← m !! installation_state_path uuid; result_ok (installation_from_json text).

Lemma triple_read_prepared m0 :
  triple (λ m, m = m0) (read_prepared_answers (CP:=CP)) (λ q m, m = m0 ∧ disk_prepared m0 = Some q.1) (λ m, m = m0).
Proof.
  eapply triple_bind; [apply triple_open|]. intros o.
  eapply (triple_bind _ _ _ (λ c m, m = m0 ∧ disk_prepared m0 = Some c)).
  - apply triple_lift. intros m [-> ->]. unfold disk_prepared. by destruct (parse_section_config _).
  - intros c. by apply triple_ret.
Qed.

Lemma triple_read_tokens m0 :
  triple (λ m, m = m0) (read_tokens (CT:=CT)) (λ q m, m = m0 ∧ disk_tokens m0 = Some q.1) (λ m, m = m0).
Proof.
  eapply triple_bind; [apply triple_open|]. intros o.
  eapply (triple_bind _ _ _ (λ c m, m = m0 ∧ disk_tokens m0 = Some c)).
  - apply triple_lift. intros m [-> ->]. unfold disk_tokens. by destruct (parse_section_config _).
  - intros c. by apply triple_ret.
Qed.

Lemma triple_read_shadow m0 :
  triple (λ m, m = m0) read_token_shadow (λ s m, m = m0 ∧ disk_secrets m0 = Some s) (λ m, m = m0).
Proof.
  eapply triple_bind; [apply triple_open|]. intros o. apply triple_lift. intros m [-> ->].
  unfold disk_secrets. by destruct (shadow_from_json _).
Qed.

(** ** Authentication *)

(** The header carries the secret of an active token. *)
Record authenticated m (now : Z) (header id : string) : Prop := {
  au_token : ∃ t, token_on_disk m id = Some t ∧ is_active now t = true;
  au_secret : ∃ scheme secret hash,
    to_ascii_lowercase scheme = "bearer"%string ∧
    (id ≠ ""%string → header = scheme +:+ " " +:+ id +:+ ":" +:+ secret) ∧
    secret_on_disk m id = Some hash ∧ verify_crypt_pw secret hash = Ok tt;
}.

Lemma triple_verify_secret m0 id secret :
  triple (λ m, m = m0) (verify_secret id secret)
    (λ _ m, m = m0 ∧ ∃ hash, secret_on_disk m0 id = Some hash ∧ verify_crypt_pw secret hash = Ok tt) (λ m, m = m0).
Proof.
  eapply triple_bind; [apply triple_read_shadow|]. intros s. apply triple_pure. intros Hs.
  apply triple_lift. intros m ->. unfold secret_on_disk. rewrite Hs. simpl.
  destruct (s !! id) as [hash|]; simpl; [|done]. destruct (verify_crypt_pw secret hash) as [[]|] eqn:Hv; simpl; eauto.
Qed.

Lemma triple_verify_header m0 now header :
  triple (λ m, m = m0) (verify_answer_authorization_header (CT:=CT) now header)
    (λ o m, m = m0 ∧ ∀ id, o = Some id → authenticated m0 now header id) (λ m, m = m0).
Proof.
  unfold verify_answer_authorization_header.
  destruct (default _ (split_once " " header)) as [scheme token] eqn:Hh.
  destruct (String.eqb_spec (to_ascii_lowercase scheme) "bearer") as [Hsch|]; simpl; [|by apply triple_ret].
  assert (header = scheme +:+ " " +:+ token) as Hheader.
  { destruct (split_once " " header) as [[s r]|] eqn:Hsp; simpl in Hh; simplify_eq. by apply split_once_Some in Hsp as [? _]. }
  eapply (triple_bind _ _ _ (λ _ m, m = m0)); [apply triple_ignore_lock; auto with pdm|]. intros _.
  eapply triple_bind; [eapply (triple_try _ _ _ _ (λ r m, m = m0 ∧ ∀ q, r = Ok q → disk_tokens m0 = Some q.1));
    [apply triple_read_tokens|naive_solver|naive_solver]|].
  intros [[tokens content]|e]; [|by apply triple_ret; intros m [-> _]].
  apply triple_pure. intros Htok. specialize (Htok _ eq_refl). simpl in Htok.
  destruct (default _ (split_once ":" token)) as [id secret] eqn:Hid.
  destruct (sc_get tokens id) as [t|] eqn:Ht; [|by apply triple_ret].
  destruct (is_active now t) eqn:Hact; [|by apply triple_ret].
  eapply triple_bind; [eapply (triple_try _ _ _ _ (λ r m, m = m0 ∧
    ∀ u, r = Ok u → ∃ hash, secret_on_disk m0 id = Some hash ∧ verify_crypt_pw secret hash = Ok tt));
    [apply triple_verify_secret|naive_solver|naive_solver]|].
  intros [[]|e]; [|by apply triple_ret; intros m [-> _]]. apply triple_pure. intros Hv. specialize (Hv tt eq_refl) as (hash&Hs&Hv).
  apply triple_ret. intros m ->. split; [done|]. intros ? [= <-]. split.
  - exists t. unfold token_on_disk. by rewrite Htok.
  - exists scheme, secret, hash. split_and!; [done| |done|done]. intros Hne. rewrite Hheader. do 2 f_equal.
    destruct (split_once ":" token) as [[i s]|] eqn:Hsp; simpl in Hid; simplify_eq. by apply split_once_Some in Hsp as [? _].
Qed.
End views.

(** ** Choosing an answer *)

Section choice.
Context `{InstallerTypes} `{InstallerWorld} (token_id : string) (info : Value).
Implicit Types (p : PreparedInstallationConfig) (l : list (string * PreparedInstallationConfig)).

(** An answer that is meant for this machine, and one for any machine. *)
Definition specific p : bool :=
  authorized token_id p && negb (pc_is_default p) &&
  match pc_target_filter p with [] => false | filters => forallb (matches_filter info) filters end.
Definition fallback p : bool := authorized token_id p && pc_is_default p.

Lemma find_loop_matched l d q : (find_loop token_id info l d (Some q)).2 = Some q.
Proof.
  revert d. induction l as [|[k p] l IH]; intros d; [done|]. cbn [find_loop].
  repeat (case_match; try apply IH; try done).
Qed.

Lemma find_loop_spec l d :
  match find (λ kp, specific kp.2) l with
  | Some kp => (find_loop token_id info l d None).2 = Some kp.2
  | None => find_loop token_id info l d None = (foldl (λ d kp, if fallback kp.2 then Some kp.2 else d) d l, None)
  end.
Proof.
  revert d. induction l as [|[k p] l IH]; intros d; [done|]. cbn [find find_loop foldl snd].
  assert (specific p = authorized token_id p && negb (pc_is_default p) &&
    match pc_target_filter p with [] => false | filters => forallb (matches_filter info) filters end) as -> by done.
  assert (fallback p = authorized token_id p && pc_is_default p) as -> by done.
  destruct (authorized token_id p); simpl; [|apply IH]. destruct (pc_is_default p); simpl; [apply IH|].
  destruct (pc_target_filter p) as [|f fs] eqn:Hf; [apply IH|].
  cbn [forallb]. destruct (matches_filter info f && _); [apply find_loop_matched|apply IH].
Qed.

Lemma foldl_last l d :
  foldl (λ d kp, if fallback kp.2 then Some kp.2 else d) d l =
  match last (List.filter fallback l.*2) with Some p => Some p | None => d end.
Proof.
  induction l as [|[k p] l IH] using rev_ind; [done|].
  rewrite foldl_snoc, fmap_app, List.filter_app. simpl.
  destruct (fallback p); [by rewrite last_snoc|]. by rewrite app_nil_r.
Qed.

Lemma select_config_eq l :
  select_config token_id info l =
  match find (λ kp, specific kp.2) l with
  | Some kp => Some kp.2
  | None => last (List.filter fallback l.*2)
  end.
Proof.
  unfold select_config. pose proof (find_loop_spec l None) as Hl.
  destruct (find _ l) as [kp|].
  - destruct (find_loop _ _ _ _ _) as [d o]. simpl in Hl. by subst.
  - rewrite Hl, foldl_last. by destruct (last _).
Qed.

Lemma select_config_in l p :
  select_config token_id info l = Some p → (∃ k, (k, p) ∈ l) ∧ (specific p = true ∨ fallback p = true).
Proof.
  rewrite select_config_eq. destruct (find _ l) as [[k q]|] eqn:Hfi.
  - intros [= ->]. apply find_some in Hfi as [Hin Hs]. split; [|by left]. exists k. by apply list_elem_of_In.
  - intros Hlast%last_Some_elem_of%list_elem_of_In%filter_In. destruct Hlast as [Hin Hf]. split; [|by right].
    apply list_elem_of_In, list_elem_of_fmap in Hin as ([k q]&->&Hin). by exists k.
Qed.
End choice.

Section save.
Context `{InstallationTextLaws}.

Lemma triple_save_installation m0 i :
  triple (λ m, m = m0) (save_installation i)
    (λ _ m, only [installation_state_path (in_uuid i)] m0 m ∧
       m !! installation_state_path (in_uuid i) = result_ok (installation_to_json i) ∧
       installation_on_disk m (in_uuid i) = Some i) (λ m, m = m0).
Proof.
  eapply (triple_bind _ _ _ (λ _ m, m = m0)); [apply triple_sync|]. intros _.
  eapply (triple_bind _ _ _ (λ raw m, m = m0 ∧ installation_to_json i = Ok raw)).
  { apply triple_lift. intros m ->. by destruct (installation_to_json i). }
  intros raw. apply triple_prim; [by intros m []|]. intros m [-> Hw]. split; [|split].
  - intros name Hn. rewrite lookup_insert_ne; [done|]. set_solver.
  - by rewrite lookup_insert_eq, Hw.
  - unfold installation_on_disk. rewrite lookup_insert_eq. simpl. by rewrite (installation_roundtrip _ _ Hw).
Qed.
End save.

(** ** Answering a machine *)

(** The section id of a prepared answer is its [id] property. *)
Class PreparedTextLaws (CP : Type) `{InstallerTypes} `{SectionConfigData CP PreparedInstallationConfig} `{SectionText CP}
    : Prop :=
  parsed_prepared_keys m (c : CP) id p : disk_prepared m = Some c → sc_get c id = Some p → pc_id p = id.

Section answers.
Context `{InstallationTextLaws} `{CryptLaws} `{InstallerWorld} {CP CT : Type}
        `{SectionConfigLaws CP PreparedInstallationConfig} `{!SectionText CP}
        `{!SectionTextLaws CP PreparedInstallationConfig} `{!PreparedTextLaws CP}
        `{SectionConfigLaws CT AnswerToken} `{!SectionText CT} `{!SectionTextLaws CT AnswerToken} `{ConfigDigests string}.
Implicit Types (m : gmap string string) (p : PreparedInstallationConfig).

Lemma prepared_on_disk_id m id p : prepared_on_disk (CP:=CP) m id = Some p → pc_id p = id.
Proof.
  unfold prepared_on_disk. destruct (disk_prepared m) as [c|] eqn:Hc; simpl; [|done].
  by eapply parsed_prepared_keys.
Qed.

Lemma triple_save_prepared m0 (c : CP) :
  triple (λ m, m = m0) (save_prepared_answers c)
    (λ _ m, only [PREPARED_CONF_FILE] m0 m ∧ ∀ id, prepared_on_disk (CP:=CP) m id = sc_get c id) (λ m, m = m0).
Proof.
  eapply (triple_bind _ _ _ (λ raw m, m = m0 ∧ write_section_config c = Ok raw)).
  { apply triple_lift. intros m ->. by destruct (write_section_config c). }
  intros raw. apply triple_prim; [by intros m []|]. intros m [-> Hw]. split.
  - intros name Hn. rewrite lookup_insert_ne; [done|]. set_solver.
  - intros id. unfold prepared_on_disk, disk_prepared. rewrite lookup_insert_eq. simpl.
    destruct (parse_written _ _ Hw) as (c'&->&Hg). simpl. apply Hg.
Qed.

Definition incremented m0 (id : string) m : Prop :=
  only [PREPARED_CONF_FILE] m0 m ∧
  ∀ id', prepared_on_disk (CP:=CP) m id' =
    if decide (id = id') then increment_counters <$> prepared_on_disk (CP:=CP) m0 id' else prepared_on_disk (CP:=CP) m0 id'.

Lemma triple_increment m0 id :
  triple (λ m, m = m0) (increment_template_counters (CP:=CP) id) (λ _ m, incremented m0 id m) (λ m, m = m0).
Proof.
  eapply (triple_bind _ _ _ (λ _ m, m = m0)); [apply triple_ignore_lock; auto with pdm|]. intros _.
  eapply triple_bind; [apply triple_read_prepared|]. intros [c content]. apply triple_pure. intros Hc. simpl in Hc.
  destruct (sc_get c id); [|by intros w <-].
  eapply triple_conseq; [exact (triple_save_prepared m0 _)|done| |done]. intros u m [Ho Hg]. split; [done|]. intros id'.
  rewrite Hg, sc_get_modify. unfold prepared_on_disk. rewrite Hc. simpl. by destruct (decide (id = id')) as [->|].
Qed.

Lemma state_path_not_prepared uuid : PREPARED_CONF_FILE ≠ installation_state_path uuid.
Proof. done. Qed.

Lemma save_keeps_prepared m0 uuid m id :
  only [installation_state_path uuid] m0 m → prepared_on_disk (CP:=CP) m id = prepared_on_disk (CP:=CP) m0 id.
Proof.
  intros Ho. unfold prepared_on_disk, disk_prepared. rewrite (Ho PREPARED_CONF_FILE); [done|].
  pose proof (state_path_not_prepared uuid). set_solver.
Qed.

(** The request was answered with [answer] for the prepared answer [p]. *)
Record answered m0 (uuid : Uuid) (now : Z) (token_id : string) (sysinfo : SystemInfo) (answer : AutoInstallerConfig) p
    (post_hook_token : option string) m : Prop := {
  an_selected : ∃ info (c : CP), sysinfo_to_value sysinfo = Ok info ∧ disk_prepared m0 = Some c ∧
    select_config token_id info (sc_iter c) = Some p;
  an_rendered : ∃ a, render_prepared_config p sysinfo = Ok a ∧ answer = add_webhook p uuid post_hook_token a;
  an_token : is_Some post_hook_token ↔ is_Some (pc_post_hook_base_url p);
  an_counters id : prepared_on_disk (CP:=CP) m id =
    if decide (pc_id p = id) then increment_counters <$> prepared_on_disk (CP:=CP) m0 id
    else prepared_on_disk (CP:=CP) m0 id;
  an_recorded : installation_on_disk m uuid =
    Some (mkInstallation uuid now (answer_status p) sysinfo (Some (pc_id p)) None post_hook_token);
  an_only : only [PREPARED_CONF_FILE; installation_state_path uuid] m0 m;
}.

(** The request failed: nothing but the counters and the record may have changed. *)
Definition refused m0 (uuid : Uuid) m : Prop :=
  only [PREPARED_CONF_FILE; installation_state_path uuid] m0 m ∧
  ∃ counted, ∀ id, prepared_on_disk (CP:=CP) m id =
    if decide (Some id = counted) then increment_counters <$> prepared_on_disk (CP:=CP) m0 id
    else prepared_on_disk (CP:=CP) m0 id.

Lemma refused_same m0 uuid : refused m0 uuid m0.
Proof. split; [done|]. by exists None. Qed.

Lemma refused_saved m0 uuid m : only [installation_state_path uuid] m0 m → refused m0 uuid m.
Proof.
  intros Ho. split; [by eapply only_mono; [|done]; set_solver|]. exists None. intros id. by eapply save_keeps_prepared.
Qed.

Lemma triple_find_config m0 token_id sysinfo :
  triple (λ m, m = m0) (find_config (CP:=CP) token_id sysinfo)
    (λ o m, m = m0 ∧ ∃ info (c : CP), sysinfo_to_value sysinfo = Ok info ∧ disk_prepared m0 = Some c ∧
       select_config token_id info (sc_iter c) = o) (λ m, m = m0).
Proof.
  eapply (triple_bind _ _ _ (λ info m, m = m0 ∧ sysinfo_to_value sysinfo = Ok info)).
  { apply triple_lift. intros m ->. by destruct (sysinfo_to_value sysinfo). }
  intros info. apply triple_pure. intros Hi. eapply triple_bind; [apply triple_read_prepared|].
  intros [c content]. apply triple_pure. intros Hc. apply triple_ret. intros m ->. simpl in Hc. eauto 10.
Qed.
Lemma triple_new_installation m0 uuid now token token_id sysinfo :
  triple (λ m, m = m0) (new_installation (CP:=CP) uuid now token token_id sysinfo)
    (λ answer m, ∃ p tok, answered m0 uuid now token_id sysinfo answer p tok m)
    (refused m0 uuid).
Proof.
  assert (∀ m, m = m0 → refused m0 uuid m) as Hsame by (intros m ->; apply refused_same).
  eapply (triple_bind _ _ _ (λ _ m, m = m0)); [apply triple_ignore_lock; auto with pdm|]. intros _.
  eapply triple_bind; [eapply triple_conseq; [exact (triple_find_config m0 token_id sysinfo)|done|by intros|exact Hsame]|].
  intros [p|]; cbv beta; apply triple_pure; intros Hsel; last first.
  { eapply triple_bind; [eapply triple_conseq; [exact (triple_save_installation m0 _)|done|by intros|exact Hsame]|].
    intros u w (Ho&_). by apply refused_saved. }
  eapply (triple_bind _ _ _ (λ a m, m = m0 ∧ render_prepared_config p sysinfo = Ok a)).
  { apply triple_lift. intros m ->. destruct (render_prepared_config p sysinfo); [done|apply refused_same]. }
  intros a. apply triple_pure. intros Ha.
  eapply (triple_bind _ _ _ (λ tok m, m = m0 ∧ (is_Some tok ↔ is_Some (pc_post_hook_base_url p)))).
  { destruct (pc_post_hook_base_url p); [|apply triple_ret; intros m ->; split; [done|by split; intros []]].
    eapply (triple_bind _ _ _ (λ _ m, m = m0)).
    - apply triple_lift. intros m ->. destruct token; [done|apply refused_same].
    - intros t. apply triple_ret. intros m ->. split; [done|]. split; intros _; by eexists. }
  intros tok. apply triple_pure. intros Htok.
  eapply triple_bind; [eapply triple_conseq; [exact (triple_increment m0 (pc_id p))|done|by intros|exact Hsame]|].
  intros u. apply triple_from. intros m1 [Ho1 Hg1].
  assert (refused m0 uuid m1) as Hr1.
  { split; [by eapply only_mono; [|done]; set_solver|]. exists (Some (pc_id p)). intros id. rewrite Hg1.
    destruct (decide (pc_id p = id)) as [->|Hne]; [by rewrite decide_True|]. rewrite decide_False; [done|]. congruence. }
  eapply triple_bind; [eapply triple_conseq; [exact (triple_save_installation m1 _)|done|by intros|by intros m ->]|].
  intros u2. apply triple_ret. intros m (Ho2&_&Hrec). exists p, tok. split; [exact Hsel| |exact Htok| |exact Hrec|].
  - by exists a.
  - intros id. by rewrite (save_keeps_prepared m1 uuid m id Ho2), Hg1.
  - etrans; [eapply only_mono; [|exact Ho1]|eapply only_mono; [|exact Ho2]]; set_solver.
Qed.

Lemma triple_api m0 uuid now token header data answer_to_json :
  triple (λ m, m = m0)
    (api_function_new_installation (CP:=CP) (CT:=CT) answer_to_json uuid now token header data)
    (λ r m, match r with
            | Unauthorized => m = m0
            | BadRequest _ => ∃ id, authenticated (CT:=CT) m0 now header id
            | AnswerBody body => ∃ id sysinfo answer p tok,
                authenticated (CT:=CT) m0 now header id ∧ data = Ok sysinfo ∧ answer_to_json answer = Ok body ∧
                answered m0 uuid now id sysinfo answer p tok m
            end) (λ m, m = m0).
Proof.
  eapply triple_bind; [apply triple_verify_header|]. intros [id|]; cbv beta; apply triple_pure; intros Hau; last first.
  { by apply triple_ret. }
  specialize (Hau id eq_refl). intros w <-. unfold io_try. rewrite io_bind_run.
  assert (triple (λ m, m = files w) (data ← io_lift data;
      answer ← new_installation (CP:=CP) uuid now token id data; io_lift (answer_to_json answer))
    (λ body m, ∃ sysinfo answer p tok, data = Ok sysinfo ∧ answer_to_json answer = Ok body ∧
       answered (files w) uuid now id sysinfo answer p tok m) (λ _, True)) as Ht.
  { eapply (triple_bind _ _ _ (λ s m, m = files w ∧ data = Ok s)).
    { apply triple_lift. intros m ->. by destruct data. }
    intros s. apply triple_pure. intros Hs.
    eapply triple_bind; [eapply triple_conseq; [exact (triple_new_installation (files w) uuid now token id s)|done|by intros|done]|].
    intros answer. apply triple_lift. intros m (p&tok&Ha). destruct (answer_to_json answer) eqn:Hj; [|done]. eauto 10. }
  specialize (Ht w eq_refl). cbv beta.
  destruct ((data ← io_lift data; _) w) as [[body|e] w']; simpl; [|by exists id].
  destruct Ht as (s&answer&p&tok&?&?&?). eauto 10.
Qed.
End answers.

(** ** The prepared answers stay consistent *)

Section entries.
Context `{InstallerTypes}.
Implicit Types (p : PreparedInstallationConfig).

(** What the handlers require of a prepared answer. *)
Record entry_ok p : Prop := {
  eo_filter : pc_is_default p = false → pc_target_filter p ≠ [];
  eo_password : is_Some (pc_root_password_hashed p);
  eo_tokens : pc_authorized_tokens p ≠ [];
  eo_netdev k : k ∈ (pc_netdev_filter p).*1 → udev_filter_key k = true;
  eo_disk k : k ∈ (pc_disk_filter p).*1 → udev_filter_key k = true;
  eo_counters k v : (k, v) ∈ pc_template_counters p → template_counter_name k = true ∧ 0 ≤ v;
}.

Lemma increment_entry_ok p : entry_ok p → entry_ok (increment_counters p).
Proof.
  intros [Hf Hp Ht Hn Hd Hc]. split; try done. intros k v Hin. unfold increment_counters, set_counters in Hin. simpl in Hin.
  apply list_elem_of_fmap in Hin as ([k' v']&[= -> ->]&Hin). apply Hc in Hin as [? ?]. split; [done|].
  unfold i32_MAX. lia.
Qed.

Lemma password_entry_ok p h : entry_ok p → is_Some h → entry_ok (set_password h p).
Proof. by intros [Hf Hp Ht Hn Hd Hc]. Qed.

(** What is left of it when properties are deleted, before the update is applied. *)
Record remains_ok p : Prop := {
  ro_password : is_Some (pc_root_password_hashed p);
  ro_tokens : pc_authorized_tokens p ≠ [];
  ro_netdev k : k ∈ (pc_netdev_filter p).*1 → udev_filter_key k = true;
  ro_disk k : k ∈ (pc_disk_filter p).*1 → udev_filter_key k = true;
  ro_counters k v : (k, v) ∈ pc_template_counters p → template_counter_name k = true ∧ 0 ≤ v;
}.

Lemma entry_remains p : entry_ok p → remains_ok p.
Proof. by intros [Hf Hp Ht Hn Hd Hc]. Qed.

Lemma remove_properties_ok l p :
  remains_ok p → remains_ok (foldl delete_prepared_property p l) ∧ pc_id (foldl delete_prepared_property p l) = pc_id p.
Proof.
  revert p. induction l as [|prop l IH]; intros p Hp; [done|]. simpl.
  destruct (IH (delete_prepared_property p prop)) as [Hok ->]; [|done].
  destruct Hp as [Ha Hb Hc Hd He]. destruct prop; split; simpl; try done; intros *; by intros []%elem_of_nil.
Qed.
End entries.

(** A handler keeps the answers when it leaves their file alone. *)
Definition keeps_prepared (m m' : gmap string string) : Prop := m' !! PREPARED_CONF_FILE = m !! PREPARED_CONF_FILE.
#[export] Instance keeps_prepared_preorder : PreOrder keeps_prepared.
Proof. split; [by intros m|]. intros m1 m2 m3 H12 H23. by etrans. Qed.

Lemma replace_keeps_prepared name data : name ≠ PREPARED_CONF_FILE → io_rel keeps_prepared (fs_replace name data).
Proof. intros Hn. apply io_rel_prim; [apply _|]. intros m. unfold keeps_prepared. simpl. by rewrite lookup_insert_ne. Qed.
Lemma remove_keeps_prepared name : name ≠ PREPARED_CONF_FILE → io_rel keeps_prepared (fs_remove name).
Proof.
  intros Hn. apply io_rel_prim; [apply _|]. intros m. unfold keeps_prepared.
  destruct (m !! name); simpl; [by rewrite lookup_delete_ne|done].
Qed.

Lemma lock_keeps_prepared lock : io_rel keeps_prepared lock → io_rel keeps_prepared (ignore_lock lock).
Proof. intros Hl. apply io_rel_bind; [apply _|by apply io_rel_try|]. intros r. apply io_rel_ret, _. Qed.

(** Walk through a computation that only touches other files. *)
Ltac io_keeps :=
  repeat match goal with
  | |- io_rel _ (_ ≫= _) => apply io_rel_bind; [apply _| |intros ?]
  | |- io_rel _ (mret _) => apply io_rel_ret, _
  | |- io_rel _ (io_fail _) => apply io_rel_fail, _
  | |- io_rel _ (io_lift _) => apply io_rel_lift, _
  | |- io_rel _ (error_if _ _) => apply io_rel_lift, _
  | |- io_rel _ (io_try _) => apply io_rel_try
  | |- io_rel _ (ignore_lock _) => apply lock_keeps_prepared
  | |- io_rel _ (io_for _ _) => apply io_rel_for; [apply _|intros ?]
  | |- io_rel _ (match ?x with _ => _ end) => destruct x
  | |- io_rel _ (fs_replace _ _) => apply replace_keeps_prepared; done
  | |- io_rel _ (fs_remove _) => apply remove_keeps_prepared; done
  | |- io_rel _ (fs_open _) => apply fs_open_readonly, _
  | |- io_rel _ fs_read_dir => apply fs_read_dir_readonly, _
  | |- io_rel _ fs_sync => apply fs_sync_readonly, _
  end.

Section invariant.
Context `{InstallationTextLaws} `{CryptLaws} `{InstallerWorld} {CP CT : Type}
        `{SectionConfigLaws CP PreparedInstallationConfig} `{!SectionText CP}
        `{!SectionTextLaws CP PreparedInstallationConfig} `{!PreparedTextLaws CP}
        `{SectionConfigLaws CT AnswerToken} `{!SectionText CT} `{!SectionTextLaws CT AnswerToken} `{ConfigDigests string}.
Implicit Types (m : gmap string string) (p : PreparedInstallationConfig) (c : CP).

(** At most one answer is the default one, and every entry is as the handlers
    require. *)
Record answers_ok (get : string → option PreparedInstallationConfig) : Prop := {
  ao_entry id p : get id = Some p → pc_id p = id ∧ entry_ok p;
  ao_default id id' p p' : get id = Some p → get id' = Some p' → pc_is_default p = true → pc_is_default p' = true → id = id';
}.
Definition prepared_ok m : Prop := answers_ok (prepared_on_disk (CP:=CP) m).

Lemma answers_ok_ext get get' : (∀ id, get' id = get id) → answers_ok get → answers_ok get'.
Proof. intros He [Oa Ob]. split; [intros id p; rewrite He; auto|intros id id' p p'; rewrite !He; eauto]. Qed.

Lemma keeps_prepared_ok m m' : keeps_prepared m m' → prepared_ok m → prepared_ok m'.
Proof. intros Hk. apply answers_ok_ext. intros id. unfold prepared_on_disk, disk_prepared. by rewrite Hk. Qed.

Lemma add_token_keeps t value : io_rel keeps_prepared (add_token (CT:=CT) t value).
Proof. unfold add_token, read_tokens, write_tokens, read_token_shadow, write_token_shadow. io_keeps. Qed.
Lemma delete_token_keeps id : io_rel keeps_prepared (delete_token (CT:=CT) id).
Proof. unfold delete_token, read_tokens, write_tokens, read_token_shadow, write_token_shadow. io_keeps. Qed.
Lemma update_token_keeps t : io_rel keeps_prepared (update_token (CT:=CT) t).
Proof. unfold update_token, read_tokens, write_tokens. io_keeps. Qed.

Lemma create_token_keeps cb secret id comment enabled expire :
  io_rel keeps_prepared (create_token (CT:=CT) cb secret id comment enabled expire).
Proof. unfold create_token, tokens_write_lock. io_keeps. apply add_token_keeps. Qed.
Lemma generate_token_keeps cb suffix secret id : io_rel keeps_prepared (generate_token (CT:=CT) cb suffix secret id).
Proof. unfold generate_token. io_keeps. apply create_token_keeps. Qed.

Lemma migrate_keeps : io_rel keeps_prepared migrate_legacy_installations_file.
Proof.
  unfold migrate_legacy_installations_file, migrate_one, path_exists, fs_rename. io_keeps.
  apply io_rel_prim; [apply _|]. intros m. unfold keeps_prepared.
  destruct (m !! INSTALLATIONS_LEGACY_FILE); simpl; [|done]. by rewrite lookup_insert_ne, lookup_delete_ne by done.
Qed.
Lemma read_files_keeps names : io_rel keeps_prepared (read_state_files names).
Proof. induction names as [|name names IH]; simpl; io_keeps; exact IH. Qed.
Lemma read_installations_keeps : io_rel keeps_prepared read_installations.
Proof. unfold read_installations. io_keeps; [apply migrate_keeps|apply read_files_keeps]. Qed.
Lemma save_installation_keeps i : io_rel keeps_prepared (save_installation i).
Proof. unfold save_installation. io_keeps. Qed.

(** ** The handlers of prepared answers, step by step *)

Lemma triple_keep {A} (c : io A) : io_rel keeps_prepared c → triple prepared_ok c (λ _ m, prepared_ok m) prepared_ok.
Proof.
  intros Hc w Hw. specialize (Hc w). pose proof (keeps_prepared_ok _ _ Hc Hw). by destruct (c w) as [[a|e] w'].
Qed.

Lemma triple_keep_lift {A} (r : result error A) :
  triple prepared_ok (io_lift r) (λ a m, prepared_ok m ∧ r = Ok a) prepared_ok.
Proof. apply triple_lift. intros m Hm. by destruct r. Qed.

Lemma triple_keep_error b msg :
  triple prepared_ok (error_if b msg) (λ _ m, prepared_ok m ∧ b = false) prepared_ok.
Proof. apply triple_lift. intros m Hm. by destruct b. Qed.

Lemma triple_read_ok :
  triple prepared_ok (read_prepared_answers (CP:=CP)) (λ q m, prepared_ok m ∧ answers_ok (sc_get q.1)) prepared_ok.
Proof.
  apply triple_from. intros m0 Hm0. eapply triple_conseq; [exact (triple_read_prepared m0)|done| |by intros m ->].
  intros q m [-> Hc]. split; [done|]. eapply answers_ok_ext; [|exact Hm0]. intros id. unfold prepared_on_disk. by rewrite Hc.
Qed.

Lemma triple_save_ok c : answers_ok (sc_get c) → triple prepared_ok (save_prepared_answers c) (λ _ m, prepared_ok m) prepared_ok.
Proof.
  intros Hc. apply triple_from. intros m0 Hm0.
  eapply triple_conseq; [exact (triple_save_prepared m0 c)|done| |by intros m ->].
  intros u m [_ Hg]. by eapply answers_ok_ext.
Qed.

(** A handler takes the lock and reads the answers. *)
Lemma triple_locked_ok {A} (k : CP * string → io A) :
  (∀ q, answers_ok (sc_get q.1) → triple prepared_ok (k q) (λ _ m, prepared_ok m) prepared_ok) →
  triple prepared_ok (_ ← ignore_lock prepared_answers_write_lock; q ← read_prepared_answers (CP:=CP); k q)
    (λ _ m, prepared_ok m) prepared_ok.
Proof.
  intros Hk. eapply (triple_bind _ _ _ (λ _ m, prepared_ok m)).
  { apply triple_keep. unfold prepared_answers_write_lock. io_keeps. }
  intros _. eapply triple_bind; [exact triple_read_ok|]. intros q. by apply triple_pure, Hk.
Qed.

Lemma answers_ok_insert c p :
  answers_ok (sc_get c) → entry_ok p →
  (pc_is_default p = true → ∀ id q, id ≠ pc_id p → sc_get c id = Some q → pc_is_default q = false) →
  answers_ok (sc_get (sc_insert c (pc_id p) p)).
Proof.
  intros [Oa Ob] Hp Hdef. split.
  - intros id q. rewrite sc_get_insert. destruct (decide (pc_id p = id)); [by intros [= <-]|apply Oa].
  - intros id id' q q'. rewrite !sc_get_insert.
    destruct (decide (pc_id p = id)) as [<-|], (decide (pc_id p = id')) as [<-|]; intros Hq Hq' Hd Hd'; simplify_eq;
      [done| | |by eapply Ob].
    + rewrite (Hdef Hd id' q') in Hd'; done.
    + rewrite (Hdef Hd' id q) in Hd; done.
Qed.

Lemma answers_ok_modify c id p p' :
  answers_ok (sc_get c) → sc_get c id = Some p → pc_id p' = id → entry_ok p' →
  (pc_is_default p' = true → ∀ id' q, id' ≠ id → sc_get c id' = Some q → pc_is_default q = false) →
  answers_ok (sc_get (sc_modify c id (λ _, p'))).
Proof.
  intros Hc Hp <- Hok Hdef. eapply answers_ok_ext; [|by apply (answers_ok_insert c p')].
  intros id. rewrite sc_get_modify, sc_get_insert. destruct (decide (pc_id p' = id)) as [<-|]; [by rewrite Hp|done].
Qed.

Lemma answers_ok_remove c id : answers_ok (sc_get c) → answers_ok (sc_get (sc_remove c id)).
Proof.
  intros [Oa Ob]. split.
  - intros id' p. rewrite sc_get_remove. destruct (decide (id = id')); [done|apply Oa].
  - intros i i' p p'. rewrite !sc_get_remove. destruct (decide (id = i)), (decide (id = i')); try done. by apply Ob.
Qed.

Lemma answers_ok_increment c id : answers_ok (sc_get c) → answers_ok (sc_get (sc_modify c id increment_counters)).
Proof.
  intros [Oa Ob]. assert (∀ i p, sc_get (sc_modify c id increment_counters) i = Some p →
    ∃ q, sc_get c i = Some q ∧ (p = q ∨ p = increment_counters q)) as Hinv.
  { intros i p. rewrite sc_get_modify. destruct (decide (id = i)) as [<-|]; [|by eauto].
    destruct (sc_get c id) as [q|]; simpl; [|done]. intros [= <-]. eauto. }
  split.
  - intros i p (q&Hq&[-> | ->])%Hinv; [by apply Oa|]. apply Oa in Hq as [? ?]. split; [done|]. by apply increment_entry_ok.
  - intros i i' p p' (q&Hq&Hpq)%Hinv (q'&Hq'&Hpq')%Hinv Hd Hd'.
    apply (Ob i i' q q' Hq Hq'); [by destruct Hpq; subst|by destruct Hpq'; subst].
Qed.

Lemma no_other_default c :
  existsb pc_is_default (sc_iter c).*2 = false → ∀ id q, sc_get c id = Some q → pc_is_default q = false.
Proof.
  intros Hex id q Hq. destruct (pc_is_default q) eqn:Hd; [|done].
  rewrite <-Hex. symmetry. apply existsb_exists. exists q. split; [|done].
  apply list_elem_of_In, list_elem_of_fmap. exists (id, q). by rewrite sc_iter_get.
Qed.

Lemma udev_keys_ok (map : list (string * string)) :
  existsb (λ k, negb (udev_filter_key k)) map.*1 = false → ∀ k, k ∈ map.*1 → udev_filter_key k = true.
Proof.
  intros Hex k Hk. destruct (udev_filter_key k) eqn:Hu; [done|]. rewrite <-Hex.
  apply existsb_exists. exists k. split; [by apply list_elem_of_In|by rewrite Hu].
Qed.

Lemma counters_ok (map : list (string * Z)) :
  existsb (λ '(k, v), negb (template_counter_name k) || (v <? 0)) map = false →
  ∀ k v, (k, v) ∈ map → template_counter_name k = true ∧ 0 ≤ v.
Proof.
  intros Hex k v Hk. destruct (template_counter_name k && (0 <=? v)) eqn:Hb; [by apply andb_true_iff in Hb as [? ?%Z.leb_le]|].
  assert (existsb (λ '(k, v), negb (template_counter_name k) || (v <? 0)) map = true); [|congruence].
  apply existsb_exists. exists (k, v). split; [by apply list_elem_of_In|].
  destruct (template_counter_name k); simpl in *; [lia|done].
Qed.

Lemma create_answer_ok src config pw :
  triple prepared_ok (create_prepared_answer (CP:=CP) (CT:=CT) src config pw) (λ _ m, prepared_ok m) prepared_ok.
Proof.
  apply triple_locked_ok. intros [c content] Hc. simpl in Hc. cbn [fst].
  destruct (sc_get c (pc_id config)) eqn:Hnew; [by intros w|].
  eapply (triple_bind _ _ _ (λ _ m, prepared_ok m ∧ (if pc_is_default config
    then existsb pc_is_default (sc_iter c).*2 = false else pc_target_filter config ≠ []))).
  { destruct (pc_is_default config); [apply triple_keep_error|].
    eapply triple_conseq; [apply triple_keep_error|done| |done]. intros u m [Hm Hf]. split; [done|]. by destruct (pc_target_filter config). }
  intros u1. apply triple_pure. intros Hdef.
  eapply (triple_bind _ _ _ (λ config' m, prepared_ok m ∧ ∃ h, config' = set_password (Some h) config)).
  { destruct pw as [pw|].
    - eapply triple_bind; [exact (triple_keep_lift _)|]. intros h. apply triple_ret. intros m [Hm _]. eauto.
    - destruct (pc_root_password_hashed config) as [h|] eqn:Hh; [|by intros w]. apply triple_ret. intros m Hm.
      split; [done|]. exists h. destruct config; simpl in *; by subst. }
  intros config1. apply triple_pure. intros [h ->].
  eapply (triple_bind _ _ _ (λ r m, prepared_ok m ∧ ∃ tokens, tokens ≠ [] ∧ r.1 = set_tokens tokens (set_password (Some h) config))).
  { cbn [pc_authorized_tokens set_password]. destruct (pc_authorized_tokens config) as [|t ts] eqn:Ht.
    - eapply triple_bind; [exact (triple_keep _ (generate_token_keeps _ _ _ _))|]. intros tok. apply triple_ret.
      intros m Hm. split; [done|]. by exists [at_id tok.1].
    - apply triple_ret. intros m Hm. split; [done|]. exists (t :: ts). split; [done|]. simpl. destruct config; simpl in *; by subst. }
  intros [config2 token]. apply triple_pure. intros (tokens&Htok&Heq). simpl in Heq. subst config2.
  eapply triple_bind; [exact (triple_keep_error _ _)|]. intros u2. apply triple_pure. intros Hnet.
  pose proof (udev_keys_ok _ Hnet) as Hnet'.
  eapply triple_bind; [exact (triple_keep_error _ _)|]. intros u3. apply triple_pure. intros Hdisk.
  pose proof (udev_keys_ok _ Hdisk) as Hdisk'.
  eapply triple_bind; [exact (triple_keep_error _ _)|]. intros u4. apply triple_pure. intros Hcnt.
  pose proof (counters_ok _ Hcnt) as Hcnt'.
  eapply triple_bind; [apply (triple_save_ok (sc_insert c _ _))|intros u5; by apply triple_ret].
  apply answers_ok_insert; [done| |].
  - split; simpl in *; try done. by destruct (pc_is_default config).
  - simpl. intros Hd. rewrite Hd in Hdef. intros id q _. by eapply no_other_default.
Qed.

Lemma validate_option_ok {A} (validate : A → io unit) (P : A → Prop) (o : option A) :
  (∀ x, triple prepared_ok (validate x) (λ _ m, prepared_ok m ∧ P x) prepared_ok) →
  triple prepared_ok (validate_option validate o) (λ _ m, prepared_ok m ∧ ∀ x, o = Some x → P x) prepared_ok.
Proof.
  intros Hv. destruct o as [x|]; simpl; [|by apply triple_ret].
  eapply triple_conseq; [exact (Hv x)|done| |done]. intros u m [? ?]. split; [done|]. by intros ? [= <-].
Qed.

Lemma validate_udev_ok (map : list (string * string)) :
  triple prepared_ok (validate_udev_filter_map map)
    (λ _ m, prepared_ok m ∧ ∀ k, k ∈ map.*1 → udev_filter_key k = true) prepared_ok.
Proof.
  eapply triple_conseq; [exact (triple_keep_error _ _)|done| |done]. intros u m [? Hk]. split; [done|]. by apply udev_keys_ok.
Qed.
Lemma validate_template_ok (map : list (string * Z)) :
  triple prepared_ok (validate_template_map map)
    (λ _ m, prepared_ok m ∧ ∀ k v, (k, v) ∈ map → template_counter_name k = true ∧ 0 ≤ v) prepared_ok.
Proof.
  eapply triple_conseq; [exact (triple_keep_error _ _)|done| |done]. intros u m [? Hk]. split; [done|]. by apply counters_ok.
Qed.

Lemma update_found_ok src c id u pw p0 p :
  answers_ok (sc_get c) → sc_get c id = Some p0 → remains_ok p → pc_id p = id → pc_is_default p = pc_is_default p0 →
  default false (pu_is_default u) && existsb (λ p, pc_is_default p && negb (String.eqb (pc_id p) id)) (sc_iter c).*2 = false →
  triple prepared_ok (update_found (CP:=CP) (CT:=CT) src c id u pw p) (λ _ m, prepared_ok m) prepared_ok.
Proof.
  intros Hc Hp0 Hp Hid Hd0 Hdef. unfold update_found.
  eapply (triple_bind _ _ _ (λ r m, prepared_ok m ∧ r.1 ≠ [])).
  { destruct (pu_authorized_tokens u) as [[|t ts]|]; [|by apply triple_ret|].
    - eapply triple_bind; [exact (triple_keep _ (generate_token_keeps _ _ _ _))|]. intros tok. by apply triple_ret.
    - apply triple_ret. intros m Hm. split; [done|]. apply (ro_tokens _ Hp). }
  intros [tokens token]. apply triple_pure. intros Htok. simpl in Htok.
  eapply (triple_bind _ _ _ (λ h m, prepared_ok m ∧ is_Some h)).
  { destruct pw as [pw|].
    - eapply triple_bind; [exact (triple_keep_lift _)|]. intros h. apply triple_ret. intros m [Hm _]. eauto.
    - apply triple_ret. intros m Hm. split; [done|]. destruct (pu_root_password_hashed u); [by eexists|apply (ro_password _ Hp)]. }
  intros h. apply triple_pure. intros Hh.
  eapply triple_bind; [exact (validate_option_ok _ _ _ validate_udev_ok)|]. intros u1. apply triple_pure. intros Hnet.
  eapply triple_bind; [exact (validate_option_ok _ _ _ validate_udev_ok)|]. intros u2. apply triple_pure. intros Hdisk.
  eapply triple_bind; [exact (validate_option_ok _ _ _ validate_template_ok)|]. intros u3. apply triple_pure. intros Hcnt.
  eapply triple_bind; [exact (triple_keep_error _ _)|]. intros u4. apply triple_pure. intros Hfil.
  eapply triple_bind; [apply (triple_save_ok (sc_modify c _ _))|intros u5; by apply triple_ret].
  eapply answers_ok_modify; [done|exact Hp0|done| |].
  - destruct Hp as [Ra Rb Rc Rd Re]. split; simpl in *; try done.
    + intros Hf. rewrite Hf in Hfil. simpl in Hfil. by destruct (default (pc_target_filter p) (pu_target_filter u)).
    + destruct (pu_netdev_filter u); simpl; [by apply (Hnet _ eq_refl)|exact Rc].
    + destruct (pu_disk_filter u); simpl; [by apply (Hdisk _ eq_refl)|exact Rd].
    + destruct (pu_template_counters u); simpl; [by apply (Hcnt _ eq_refl)|exact Re].
  - simpl. intros Hd id' q Hne Hq. destruct (pc_is_default q) eqn:Hdq; [|done].
    destruct (pu_is_default u) as [b|]; simpl in *.
    + subst b. rewrite <-Hdef. simpl. symmetry. apply existsb_exists. exists q. split.
      * apply list_elem_of_In, list_elem_of_fmap. exists (id', q). by rewrite sc_iter_get.
      * rewrite Hdq. destruct (ao_entry _ Hc id' q Hq) as [-> _]. simpl. by destruct (String.eqb_spec id' id).
    + destruct Hne. eapply (ao_default _ Hc); [exact Hq|exact Hp0|done|congruence].
Qed.

Lemma delete_properties_default l p :
  pc_is_default (foldl delete_prepared_property p l) = pc_is_default p.
Proof. revert p. induction l as [|prop l IH]; intros p; [done|]. simpl. by rewrite IH. Qed.

Lemma update_answer_ok src id u pw del expected :
  triple prepared_ok (update_prepared_answer (CP:=CP) (CT:=CT) src id u pw del expected) (λ _ m, prepared_ok m) prepared_ok.
Proof.
  apply triple_locked_ok. intros [c content] Hc. simpl in Hc. cbn [fst].
  eapply triple_bind; [exact (triple_keep_error _ _)|]. intros u1. apply triple_pure. intros _.
  eapply triple_bind; [exact (triple_keep_error _ _)|]. intros u2. apply triple_pure. intros Hdef.
  destruct (sc_get c id) as [p0|] eqn:Hp0; [|by intros w].
  destruct (ao_entry _ Hc id p0 Hp0) as [Hid Hok%entry_remains].
  destruct (remove_properties_ok (default [] del) p0 Hok) as [Hrem Hid'].
  apply (update_found_ok src c id u pw p0); try done; [congruence|apply delete_properties_default].
Qed.

Lemma delete_answer_ok id :
  triple prepared_ok (delete_prepared_answer (CP:=CP) id) (λ _ m, prepared_ok m) prepared_ok.
Proof.
  apply triple_locked_ok. intros [c content] Hc. simpl in Hc. cbn [fst].
  destruct (sc_get c id); [|by intros w]. by apply triple_save_ok, answers_ok_remove.
Qed.
End invariant.

(** ** All requests *)

Section requests.
Context `{InstallationText} `{Crypt} `{InstallerWorld} {CP CT : Type}
        `{SectionConfigData CP PreparedInstallationConfig} `{SectionText CP}
        `{SectionConfigData CT AnswerToken} `{SectionText CT} `{ConfigDigests string}.
Context (answer_to_json : AutoInstallerConfig → result error string).

Inductive install_request : Type :=
| ReqAnswer (uuid : Uuid) (now : Z) (token : result error string) (header : string) (data : result error SystemInfo)
| ReqListInstallations
| ReqDeleteInstallation (uuid : Uuid)
| ReqPostHook (uuid : Uuid) (token : string) (info : PostHookInfo)
| ReqCreateAnswer (src : token_source) (config : PreparedInstallationConfig) (root_password : option string)
| ReqUpdateAnswer (src : token_source) (id : string) (u : PreparedInstallationConfigUpdater)
    (root_password : option string) (delete : option (list DeletablePreparedInstallationConfigProperty))
    (expected : option digest)
| ReqDeleteAnswer (id : string)
| ReqCreateToken (created_by : result error string) (secret id : string) (comment : option string)
    (enabled : option bool) (expire_at : option Z)
| ReqUpdateToken (secret id : string) (u : AnswerTokenUpdater) (delete : option (list DeletableAnswerTokenProperty))
    (regenerate_secret : bool) (expected : option digest)
| ReqDeleteToken (id : string).

Definition handle_install_request (q : install_request) : io unit :=
  match q with
  | ReqAnswer uuid now token header data =>
      _ ← api_function_new_installation (CP:=CP) (CT:=CT) answer_to_json uuid now token header data; mret tt
  | ReqListInstallations => _ ← list_installations; mret tt
  | ReqDeleteInstallation uuid => delete_installation uuid
  | ReqPostHook uuid token info => handle_post_hook uuid token info
  | ReqCreateAnswer src config pw => _ ← create_prepared_answer (CP:=CP) (CT:=CT) src config pw; mret tt
  | ReqUpdateAnswer src id u pw del expected =>
      _ ← update_prepared_answer (CP:=CP) (CT:=CT) src id u pw del expected; mret tt
  | ReqDeleteAnswer id => delete_prepared_answer (CP:=CP) id
  | ReqCreateToken cb secret id comment enabled expire =>
      _ ← create_token (CT:=CT) cb secret id comment enabled expire; mret tt
  | ReqUpdateToken secret id u del regenerate expected =>
      _ ← update_token_handler (CT:=CT) secret id u del regenerate expected; mret tt
  | ReqDeleteToken id => delete_token_handler (CP:=CP) (CT:=CT) id
  end.
End requests.

Section requests_ok.
Context `{InstallationTextLaws} `{CryptLaws} `{InstallerWorld} {CP CT : Type}
        `{SectionConfigLaws CP PreparedInstallationConfig} `{!SectionText CP}
        `{!SectionTextLaws CP PreparedInstallationConfig} `{!PreparedTextLaws CP}
        `{SectionConfigLaws CT AnswerToken} `{!SectionText CT} `{!SectionTextLaws CT AnswerToken} `{ConfigDigests string}.

Lemma delete_installation_keeps uuid : io_rel keeps_prepared (delete_installation uuid).
Proof.
  unfold delete_installation, installations_write_lock. io_keeps. intros w. unfold remove_installation.
  pose proof (remove_keeps_prepared (installation_state_path uuid) ltac:(done) w) as Hr.
  by destruct (fs_remove _ w) as [[[]|[]] w'].
Qed.

Lemma answer_request_ok answer_to_json uuid now token header data :
  triple (prepared_ok (CP:=CP))
    (api_function_new_installation (CP:=CP) (CT:=CT) answer_to_json uuid now token header data)
    (λ _ m, prepared_ok (CP:=CP) m) (prepared_ok (CP:=CP)).
Proof.
  eapply (triple_bind _ _ _ (λ _ m, prepared_ok (CP:=CP) m)).
  { apply triple_from. intros m0 Hm0.
    eapply triple_conseq; [exact (triple_verify_header (CT:=CT) m0 now header)|done|by intros o m [-> _]|by intros m ->]. }
  intros [id|]; [|by apply triple_ret].
  eapply (triple_bind _ _ _ (λ _ m, prepared_ok (CP:=CP) m)); [|intros r; by apply triple_ret].
  eapply triple_try; [|by intros a m Hm; exact Hm|by intros a m Hm; exact Hm].
  eapply triple_bind; [exact (triple_keep (CP:=CP) _ (io_rel_lift _ _))|]. intros s.
  eapply (triple_bind _ _ _ (λ _ m, prepared_ok (CP:=CP) m)); [|intros a; exact (triple_keep (CP:=CP) _ (io_rel_lift _ _))].
  unfold new_installation.
  eapply (triple_bind _ _ _ (λ _ m, prepared_ok (CP:=CP) m)).
  { apply triple_keep. unfold installations_write_lock. io_keeps. }
  intros u1. eapply (triple_bind _ _ _ (λ _ m, prepared_ok (CP:=CP) m)).
  { apply triple_from. intros m0 Hm0.
    eapply triple_conseq; [exact (triple_find_config (CP:=CP) m0 id s)|done|by intros o m [-> _]|by intros m ->]. }
  intros [p|]; last first.
  { apply triple_keep. io_keeps. apply save_installation_keeps. }
  eapply triple_bind; [exact (triple_keep (CP:=CP) _ (io_rel_lift _ _))|]. intros a.
  eapply (triple_bind _ _ _ (λ _ m, prepared_ok (CP:=CP) m)); [apply triple_keep; io_keeps|]. intros tok.
  eapply (triple_bind _ _ _ (λ _ m, prepared_ok (CP:=CP) m)).
  { apply triple_locked_ok. intros [c content] Hc. simpl in Hc. cbn [fst]. destruct (sc_get c (pc_id p)); [|by intros w].
    by apply triple_save_ok, answers_ok_increment. }
  intros u2. apply triple_keep. io_keeps. apply save_installation_keeps.
Qed.

Lemma install_request_ok answer_to_json q :
  triple (prepared_ok (CP:=CP)) (handle_install_request (CP:=CP) (CT:=CT) answer_to_json q)
    (λ _ m, prepared_ok (CP:=CP) m) (prepared_ok (CP:=CP)).
Proof.
  destruct q as [uuid now token header data| |uuid|uuid token info|src config pw|src id u pw del expected|id
    |cb secret id comment enabled expire|secret id u del regenerate expected|id]; cbn [handle_install_request];
    try (eapply (triple_bind _ _ _ (λ _ m, prepared_ok (CP:=CP) m)); [|intros r; by apply triple_ret]).
  - apply answer_request_ok.
  - apply triple_keep. unfold list_installations, installations_read_lock. io_keeps. apply read_installations_keeps.
  - apply triple_keep, delete_installation_keeps.
  - apply triple_keep. unfold handle_post_hook, installations_write_lock. io_keeps;
      [apply read_installations_keeps|apply save_installation_keeps].
  - apply create_answer_ok.
  - apply update_answer_ok.
  - apply delete_answer_ok.
  - apply triple_keep, create_token_keeps.
  - apply triple_keep. unfold update_token_handler, tokens_write_lock, read_tokens, check_digest.
    io_keeps; [apply delete_token_keeps|apply add_token_keeps|apply update_token_keeps].
  - apply triple_keep. unfold delete_token_handler, tokens_write_lock, read_prepared_answers. io_keeps. apply delete_token_keeps.
Qed.
End requests_ok.
