(* ===== verification/AutoInstallHook.v ===== *)
(** * Automated installations: reporting back, tokens, and the properties

    The lemmas about the state files of installations and about tokens, the
    properties of all parts of the automated installation, and concrete runs. *)

From S2P Require Import Prelude FileSystem SectionConfig RemotesConfig JsonValue AutoInstallConfig AutoInstaller AutoInstallSpec.

(** ** The installations that are known *)

Section installations.
Context `{InstallationTextLaws}.
Implicit Types (m : gmap string string) (i : Installation).

Definition in_state_file m i : Prop :=
  ∃ name text, is_state_file name = true ∧ m !! name = Some text ∧ installation_from_json text = Ok i.
Definition in_legacy_file m i : Prop :=
  ∃ raw l, m !! INSTALLATIONS_LEGACY_FILE = Some raw ∧ installations_from_json raw = Ok l ∧ i ∈ l.
Definition known m i : Prop := in_state_file m i ∨ in_legacy_file m i.

(** Every state file is named after the installation in it. *)
Definition well_named m : Prop :=
  ∀ name text i, is_state_file name = true → m !! name = Some text → installation_from_json text = Ok i →
    name = installation_state_path (in_uuid i).

(** Nothing is made up, and the names stay right. *)
Definition no_news m m' : Prop := (∀ i, known m' i → known m i) ∧ (well_named m → well_named m').

#[export] Instance no_news_preorder : PreOrder no_news.
Proof. split; [by intros m; split|]. intros m1 m2 m3 [H12 W12] [H23 W23]. split; auto. Qed.

Lemma no_news_write m0 m inst raw :
  no_news m0 m → known m0 inst → installation_to_json inst = Ok raw →
  no_news m0 (<[installation_state_path (in_uuid inst) := raw]> m).
Proof.
  intros [Hkn Hwn] Hk Hw. pose proof (installation_roundtrip _ _ Hw) as Hr. split.
  - intros i [(name&text&Hn&Hl&Hj)|(raw'&l&Hl&Hj&Hin)].
    + apply lookup_insert_Some in Hl as [[<- <-]|[_ Hl]]; [rewrite Hr in Hj; by injection Hj as <-|]. apply Hkn. left. by exists name, text.
    + rewrite lookup_insert_ne in Hl by done. apply Hkn. right. by exists raw', l.
  - intros Hwf name text i Hn Hl Hj. apply lookup_insert_Some in Hl as [[<- <-]|[_ Hl]]; [rewrite Hr in Hj; by injection Hj as <-|].
    by eapply (Hwn Hwf).
Qed.

Lemma no_news_delete m name : no_news m (delete name m).
Proof.
  split.
  - intros i [(n&text&Hn&Hl&Hj)|(raw'&l&Hl&Hj&Hin)]; apply lookup_delete_Some in Hl as [_ Hl];
      [left; by exists n, text|right; by exists raw', l].
  - intros Hwf n text i Hn Hl Hj. apply lookup_delete_Some in Hl as [_ Hl]. by eapply Hwf.
Qed.

Lemma no_news_other m name data :
  is_state_file name = false → name ≠ INSTALLATIONS_LEGACY_FILE → no_news m (<[name := data]> m).
Proof.
  intros Hsf Hne. split.
  - intros i [(n&text&Hn&Hl&Hj)|(raw'&l&Hl&Hj&Hin)].
    + apply lookup_insert_Some in Hl as [[<- <-]|[_ Hl]]; [congruence|]. left. by exists n, text.
    + rewrite lookup_insert_ne in Hl by done. right. by exists raw', l.
  - intros Hwf n text i Hn Hl Hj. apply lookup_insert_Some in Hl as [[<- <-]|[_ Hl]]; [congruence|]. by eapply Hwf.
Qed.

Lemma triple_no_news {A} m0 (c : io A) : io_rel no_news c → triple (no_news m0) c (λ _ m, no_news m0 m) (no_news m0).
Proof. by apply triple_rel, _. Qed.

Lemma migrate_one_no_news m0 inst : known m0 inst → triple (no_news m0) (migrate_one inst) (λ _ m, no_news m0 m) (no_news m0).
Proof.
  intros Hk. unfold migrate_one, path_exists.
  eapply triple_bind.
  { apply triple_no_news. apply io_rel_bind; [apply _|apply io_rel_try, fs_open_readonly, _|]. intros r. apply io_rel_ret, _. }
  intros [|]; [by apply triple_ret|].
  eapply (triple_bind _ _ _ (λ raw m, no_news m0 m ∧ installation_to_json inst = Ok raw)).
  { apply triple_lift. intros m Hm. by destruct (installation_to_json inst). }
  intros raw. apply triple_pure. intros Hw.
  apply triple_prim; [done|]. intros m Hm. by apply no_news_write.
Qed.

Lemma migrate_all_no_news m0 l :
  (∀ i, i ∈ l → known m0 i) → triple (no_news m0) (io_for migrate_one l) (λ _ m, no_news m0 m) (no_news m0).
Proof.
  induction l as [|i l IH]; intros Hl; simpl; [by apply triple_ret|].
  eapply triple_bind; [apply migrate_one_no_news, Hl; by left|]. intros u. apply IH. intros j Hj. apply Hl. by right.
Qed.

Lemma triple_migrate m0 :
  triple (λ m, m = m0) migrate_legacy_installations_file
    (λ _ m, no_news m0 m ∧ m !! INSTALLATIONS_LEGACY_FILE = None) (no_news m0).
Proof.
  assert (no_news m0 m0) as Hrefl by reflexivity.
  eapply triple_bind; [eapply triple_conseq; [exact (triple_open m0 INSTALLATIONS_LEGACY_FILE)|done|by intros|by intros m ->]|].
  intros [raw|]; cbv beta; apply triple_pure; intros Ho; symmetry in Ho; [|by apply triple_ret; intros m ->].
  destruct (installations_from_json raw) as [l|e] eqn:Hj.
  - eapply (triple_bind _ _ _ (λ _ m, no_news m0 m)).
    { eapply triple_conseq; [exact (triple_sync m0)|done|by intros u m ->|by intros m ->]. }
    intros u. eapply triple_bind.
    { apply migrate_all_no_news. intros i Hi. right. by exists raw, l. }
    intros u2. apply triple_prim; [done|]. intros m Hm. destruct (m !! INSTALLATIONS_LEGACY_FILE); [|done].
    split; [etrans; [exact Hm|apply no_news_delete]|apply lookup_delete_eq].
  - apply triple_prim; [by intros m ->|]. intros m ->. rewrite Ho. split.
    + etrans; [apply (no_news_delete m0 INSTALLATIONS_LEGACY_FILE)|]. by apply no_news_other.
    + rewrite lookup_insert_ne by done. apply lookup_delete_eq.
Qed.

Lemma triple_read_files m0 names :
  triple (λ m, m = m0) (read_state_files names) (λ l m, m = m0 ∧ ∀ i, i ∈ l → in_state_file m0 i) (λ m, m = m0).
Proof.
  induction names as [|name names IH]; simpl.
  { apply triple_ret. intros m ->. split; [done|]. by intros i ?%elem_of_nil. }
  destruct (is_state_file name) eqn:Hn; [|exact IH].
  eapply triple_bind; [apply triple_open|]. intros o. apply triple_pure. intros ->.
  eapply (triple_bind _ _ _ (λ raw m, m = m0 ∧ m0 !! name = Some raw)).
  { apply triple_lift. intros m ->. by destruct (m0 !! name). }
  intros raw. apply triple_pure. intros Hraw.
  eapply (triple_bind _ _ _ (λ i m, m = m0 ∧ installation_from_json raw = Ok i)).
  { apply triple_lift. intros m ->. by destruct (installation_from_json raw). }
  intros i. apply triple_pure. intros Hi.
  eapply triple_bind; [exact IH|]. intros l. apply triple_pure. intros Hl.
  apply triple_ret. intros m ->. split; [done|]. intros j [->|Hj]%elem_of_cons; [by exists name, raw|auto].
Qed.

Lemma triple_read_installations m0 :
  triple (λ m, m = m0) read_installations
    (λ q m, no_news m0 m ∧ m !! INSTALLATIONS_LEGACY_FILE = None ∧ ∀ i, i ∈ q.1 → in_state_file m i) (no_news m0).
Proof.
  eapply triple_bind; [exact (triple_migrate m0)|]. intros u. apply triple_from. intros m1 [Hm1 Hleg].
  assert (∀ m, m = m1 → no_news m0 m) as Hsame by (by intros m ->).
  eapply (triple_bind _ _ _ (λ _ m, m = m1)).
  { apply triple_prim; [exact Hsame|]. by intros m ->. }
  intros names. eapply triple_bind; [eapply triple_conseq; [exact (triple_read_files m1 names)|done|by intros|exact Hsame]|].
  intros l. apply triple_pure. intros Hl.
  eapply (triple_bind _ _ _ (λ _ m, m = m1)).
  { apply triple_lift. intros m ->. by destruct (installations_to_json _). }
  intros raw. apply triple_ret. intros m ->. split_and!; [done|done|]. simpl. intros i Hi.
  apply Hl. by rewrite elem_of_sort_by in Hi.
Qed.

(** ** The post-installation hook *)

(** The installation waits for its hook, with this secret. *)
Definition waits_for m (uuid : Uuid) (token : string) i : Prop :=
  known m i ∧ in_uuid i = uuid ∧ in_status i = InProgress ∧ in_post_hook_data i = None ∧
  in_post_hook_token i = Some token ∧ token ≠ ""%string.

Lemma awaits_hook_spec uuid i :
  awaits_hook uuid i = true → in_uuid i = uuid ∧ in_status i = InProgress ∧ in_post_hook_data i = None.
Proof.
  unfold awaits_hook. intros [[->%String.eqb_eq ?%bool_decide_eq_true]%andb_true_iff Hd]%andb_true_iff.
  by destruct (in_post_hook_data i).
Qed.

Lemma triple_post_hook m0 uuid token info :
  triple (λ m, m = m0) (handle_post_hook uuid token info)
    (λ _ m, ∃ i, waits_for m0 uuid token i ∧
       installation_on_disk m uuid = Some (set_installation Finished (Some info) None i) ∧
       m !! INSTALLATIONS_LEGACY_FILE = None ∧ (well_named m0 → well_named m)) (no_news m0).
Proof.
  unfold handle_post_hook.
  eapply (triple_bind _ _ _ (λ _ m, m = m0)).
  { eapply triple_conseq; [exact (triple_ignore_lock m0 installations_write_lock (no_news m0) (fs_sync_readonly _))|done|by intros|done]. }
  intros u. eapply triple_bind; [exact (triple_read_installations m0)|]. intros [l raw]. cbn [fst].
  apply triple_from. intros m1 (Hnews&Hleg&Hl).
  destruct (find (awaits_hook uuid) l) as [i|] eqn:Hfi; [|by intros w <-].
  apply find_some in Hfi as [Hin (Hu&Hst&Hd)%awaits_hook_spec]. apply list_elem_of_In in Hin.
  destruct (in_post_hook_token i) as [stored|] eqn:Htok; simpl; [|by intros w <-].
  destruct (String.eqb_spec stored "") as [|Hne]; simpl; [by intros w <-|].
  destruct (negb _); simpl; [by intros w <-|].
  destruct (String.eqb_spec stored token) as [->|]; simpl; [|by intros w <-].
  eapply triple_conseq; [exact (triple_save_installation m1 _)|done| |by intros m ->].
  intros u2 m (Ho&Hraw&Hrec). simpl in *. rewrite Hu in *. exists i. split_and!; [|done| |].
  - split_and!; try done. apply Hnews. left. by apply Hl.
  - rewrite (Ho INSTALLATIONS_LEGACY_FILE); [done|]. intros Hc%list_elem_of_singleton. done.
  - intros Hwf name text j Hn Hlk Hj. destruct (decide (name = installation_state_path uuid)) as [->|Hnn].
    + unfold installation_on_disk in Hrec. rewrite Hlk in Hrec. simpl in Hrec. rewrite Hj in Hrec. simpl in Hrec.
      by simplify_eq/=.
    + rewrite (Ho name) in Hlk by (by intros ?%list_elem_of_singleton). by eapply Hnews.
Qed.

(** Once an installation has reported back, it cannot do so again. *)
Lemma triple_post_hook_again m0 uuid i token info :
  well_named m0 → m0 !! INSTALLATIONS_LEGACY_FILE = None →
  installation_on_disk m0 uuid = Some i → in_status i ≠ InProgress →
  triple (λ m, m = m0) (handle_post_hook uuid token info) (λ _ _, False) (λ _, True).
Proof.
  intros Hwf Hleg Hrec Hst. eapply triple_conseq; [exact (triple_post_hook m0 uuid token info)|done| |done].
  intros u m (j&(Hk&Hu&Hj&_)&_). destruct Hk as [(name&text&Hn&Hl&Hp)|(raw&l&Hl&_)]; [|congruence].
  pose proof (Hwf name text j Hn Hl Hp) as ->. rewrite Hu in Hl. unfold installation_on_disk in Hrec.
  rewrite Hl in Hrec. simpl in Hrec. rewrite Hp in Hrec. by simplify_eq/=.
Qed.
End installations.

(** ** Tokens *)

Section tokens.
Context `{InstallationTextLaws} `{CryptLaws} `{InstallerWorld} {CP CT : Type}
        `{SectionConfigLaws CP PreparedInstallationConfig} `{!SectionText CP}
        `{SectionConfigLaws CT AnswerToken} `{!SectionText CT} `{!SectionTextLaws CT AnswerToken}.
Implicit Types (m : gmap string string).

Lemma triple_write_tokens m0 (c : CT) :
  triple (λ m, m = m0) (write_tokens c)
    (λ _ m, only [TOKENS_CONF_FILE] m0 m ∧ ∀ id, token_on_disk (CT:=CT) m id = sc_get c id) (λ m, m = m0).
Proof.
  eapply (triple_bind _ _ _ (λ raw m, m = m0 ∧ write_section_config c = Ok raw)).
  { apply triple_lift. intros m ->. by destruct (write_section_config c). }
  intros raw. apply triple_prim; [by intros m []|]. intros m [-> Hw]. split.
  - intros name Hn. by rewrite lookup_insert_ne by (by intros <-; apply Hn; left).
  - intros id. unfold token_on_disk, disk_tokens. rewrite lookup_insert_eq. simpl.
    destruct (parse_written _ _ Hw) as (c'&->&Hg). simpl. apply Hg.
Qed.

Lemma triple_write_shadow m0 (s : gmap string string) :
  triple (λ m, m = m0) (write_token_shadow s)
    (λ _ m, only [TOKENS_SHADOW_FILE] m0 m ∧ ∀ id, secret_on_disk m id = s !! id) (λ m, m = m0).
Proof.
  eapply (triple_bind _ _ _ (λ raw m, m = m0 ∧ shadow_to_json s = Ok raw)).
  { apply triple_lift. intros m ->. by destruct (shadow_to_json s). }
  intros raw. apply triple_prim; [by intros m []|]. intros m [-> Hw]. split.
  - intros name Hn. by rewrite lookup_insert_ne by (by intros <-; apply Hn; left).
  - intros id. unfold secret_on_disk, disk_secrets. rewrite lookup_insert_eq. simpl.
    by rewrite (shadow_roundtrip _ _ Hw).
Qed.

Lemma only_tokens m m' id :
  only [TOKENS_SHADOW_FILE] m m' → token_on_disk (CT:=CT) m' id = token_on_disk (CT:=CT) m id.
Proof.
  intros Ho. unfold token_on_disk, disk_tokens. rewrite (Ho TOKENS_CONF_FILE); [done|]. by intros ?%list_elem_of_singleton.
Qed.
Lemma only_secrets m m' id : only [TOKENS_CONF_FILE] m m' → secret_on_disk m' id = secret_on_disk m id.
Proof.
  intros Ho. unfold secret_on_disk, disk_secrets. rewrite (Ho TOKENS_SHADOW_FILE); [done|]. by intros ?%list_elem_of_singleton.
Qed.

(** What a change of one token leaves alone. *)
Record other_tokens_same (id : string) m m' : Prop := {
  ot_only : only [TOKENS_CONF_FILE; TOKENS_SHADOW_FILE] m m';
  ot_token id' : id' ≠ id → token_on_disk (CT:=CT) m' id' = token_on_disk (CT:=CT) m id';
  ot_secret id' : id' ≠ id → secret_on_disk m' id' = secret_on_disk m id';
}.

(** Writing the tokens and then the secrets. *)
Lemma triple_tokens_then {A} m0 (c : CT) (k : gmap string string → io A) (Q : A → gmap string string → Prop) :
  (∀ m1 s, only [TOKENS_CONF_FILE] m0 m1 → (∀ id, token_on_disk (CT:=CT) m1 id = sc_get c id) → disk_secrets m0 = Some s →
    triple (λ m, m = m1) (k s) Q (λ _, True)) →
  triple (λ m, m = m0) (_ ← write_tokens c; s ← read_token_shadow; k s) Q (λ _, True).
Proof.
  intros Hk. eapply triple_bind; [eapply triple_conseq; [exact (triple_write_tokens m0 c)|done|by intros|done]|].
  intros u. apply triple_from. intros m1 [Ho1 Ht1].
  eapply triple_bind; [eapply triple_conseq; [exact (triple_read_shadow m1)|done|by intros|done]|].
  intros s. apply triple_pure. intros Hs. apply Hk; [done|done|]. rewrite <-Hs. unfold disk_secrets.
  rewrite (Ho1 TOKENS_SHADOW_FILE); [done|]. by intros ?%list_elem_of_singleton.
Qed.

Lemma both_written m0 m1 m id (c : CT) (s s' : gmap string string) :
  only [TOKENS_CONF_FILE] m0 m1 → (∀ id, token_on_disk (CT:=CT) m1 id = sc_get c id) → disk_secrets m0 = Some s →
  only [TOKENS_SHADOW_FILE] m1 m → (∀ id, secret_on_disk m id = s' !! id) →
  (∀ id', id' ≠ id → sc_get c id' = token_on_disk (CT:=CT) m0 id' ∧ s' !! id' = s !! id') →
  other_tokens_same id m0 m ∧ token_on_disk (CT:=CT) m id = sc_get c id ∧ secret_on_disk m id = s' !! id.
Proof.
  intros Ho1 Ht1 Hs Ho2 Hg Hsame. split; [split|split].
  - etrans; [eapply only_mono; [|exact Ho1]|eapply only_mono; [|exact Ho2]]; set_solver.
  - intros id' Hne. rewrite (only_tokens m1 m id' Ho2), Ht1. by apply Hsame.
  - intros id' Hne. destruct (Hsame id' Hne) as [_ Hs']. rewrite Hg, Hs'. unfold secret_on_disk. by rewrite Hs.
  - by rewrite (only_tokens m1 m id Ho2), Ht1.
  - apply Hg.
Qed.

Lemma triple_add_token m0 t value :
  triple (λ m, m = m0) (add_token (CT:=CT) t value)
    (λ _ m, other_tokens_same (at_id t) m0 m ∧ token_on_disk (CT:=CT) m (at_id t) = Some t ∧
       ∃ hash, encrypt_pw value = Ok hash ∧ secret_on_disk m (at_id t) = Some hash) (λ _, True).
Proof.
  eapply triple_bind; [eapply triple_conseq; [exact (triple_read_tokens (CT:=CT) m0)|done|by intros|done]|].
  intros [c content]. apply triple_pure. intros Hc. simpl in Hc.
  destruct (sc_get c (at_id t)) eqn:Hnew; [by intros w|].
  apply triple_tokens_then. intros m1 s Ho1 Ht1 Hs.
  eapply (triple_bind _ _ _ (λ h m, m = m1 ∧ encrypt_pw value = Ok h)).
  { apply triple_lift. intros m ->. by destruct (encrypt_pw value). }
  intros h. apply triple_pure. intros Hh.
  eapply triple_conseq; [exact (triple_write_shadow m1 _)|done| |done]. intros u m [Ho2 Hg].
  destruct (both_written m0 m1 m (at_id t) _ s _ Ho1 Ht1 Hs Ho2 Hg) as (Hoth&Htok&Hsec).
  - intros id' Hne. rewrite sc_get_insert, decide_False, lookup_insert_ne by done. unfold token_on_disk. by rewrite Hc.
  - rewrite sc_get_insert, decide_True in Htok by done. rewrite lookup_insert_eq in Hsec. eauto.
Qed.

Lemma triple_delete_token m0 id :
  triple (λ m, m = m0) (delete_token (CT:=CT) id)
    (λ _ m, other_tokens_same id m0 m ∧ token_on_disk (CT:=CT) m id = None ∧ secret_on_disk m id = None) (λ _, True).
Proof.
  eapply triple_bind; [eapply triple_conseq; [exact (triple_read_tokens (CT:=CT) m0)|done|by intros|done]|].
  intros [c content]. apply triple_pure. intros Hc. simpl in Hc. destruct (sc_get c id) eqn:Hold; [|by intros w].
  apply triple_tokens_then. intros m1 s Ho1 Ht1 Hs.
  eapply triple_conseq; [exact (triple_write_shadow m1 _)|done| |done]. intros u m [Ho2 Hg].
  destruct (both_written m0 m1 m id _ s _ Ho1 Ht1 Hs Ho2 Hg) as (Hoth&Htok&Hsec).
  - intros id' Hne. rewrite sc_get_remove, decide_False, lookup_delete_ne by done. unfold token_on_disk. by rewrite Hc.
  - rewrite sc_get_remove, decide_True in Htok by done. rewrite lookup_delete_eq in Hsec. done.
Qed.

Lemma triple_create_token m0 cb secret id comment enabled expire :
  triple (λ m, m = m0) (create_token (CT:=CT) cb secret id comment enabled expire)
    (λ r m, at_id r.1 = id ∧ r.2 = secret ∧ other_tokens_same id m0 m ∧ token_on_disk (CT:=CT) m id = Some r.1 ∧
       ∃ hash, encrypt_pw secret = Ok hash ∧ secret_on_disk m id = Some hash) (λ _, True).
Proof.
  eapply (triple_bind _ _ _ (λ _ m, m = m0)).
  { apply triple_ignore_lock, fs_sync_readonly, _. }
  intros u. eapply (triple_bind _ _ _ (λ _ m, m = m0)).
  { apply triple_lift. intros m ->. by destruct cb. }
  intros user. eapply triple_bind; [exact (triple_add_token m0 _ secret)|]. intros u2.
  apply triple_ret. intros m (Ho&Ht&Hh). by split_and!.
Qed.

Lemma triple_delete_token_handler m0 id :
  triple (λ m, m = m0) (delete_token_handler (CP:=CP) (CT:=CT) id)
    (λ _ m, token_on_disk (CT:=CT) m id = None ∧ secret_on_disk m id = None ∧ other_tokens_same id m0 m ∧
       ∀ k p, prepared_on_disk (CP:=CP) m k = Some p → id ∉ pc_authorized_tokens p) (λ _, True).
Proof.
  eapply triple_bind; [eapply triple_conseq; [exact (triple_read_prepared (CP:=CP) m0)|done|by intros|done]|].
  intros [c content]. apply triple_pure. intros Hc. simpl in Hc.
  eapply (triple_bind _ _ _ (λ _ m, m = m0 ∧ existsb (authorized id) (sc_iter c).*2 = false)).
  { eapply triple_conseq; [exact (triple_error_if m0 _ _)|done|done|done]. }
  intros u. apply triple_pure. intros Hun.
  eapply (triple_bind _ _ _ (λ _ m, m = m0)); [apply triple_ignore_lock, fs_sync_readonly, _|].
  intros u2. eapply triple_conseq; [exact (triple_delete_token m0 id)|done| |done].
  intros u3 m (Hoth&Ht&Hs). split_and!; try done. intros k p Hp Hin.
  assert (prepared_on_disk (CP:=CP) m0 k = Some p) as Hp0.
  { rewrite <-Hp. unfold prepared_on_disk, disk_prepared. rewrite (ot_only _ _ _ Hoth PREPARED_CONF_FILE); [done|].
    by intros [?|?%list_elem_of_singleton]%elem_of_cons. }
  unfold prepared_on_disk in Hp0. rewrite Hc in Hp0. simpl in Hp0.
  assert (existsb (authorized id) (sc_iter c).*2 = true); [|congruence].
  apply existsb_exists. exists p. split.
  - apply list_elem_of_In, list_elem_of_fmap. exists (k, p). by rewrite sc_iter_get.
  - unfold authorized. apply existsb_exists. exists id. split; [by apply list_elem_of_In|apply String.eqb_refl].
Qed.

(** A header that carries the secret of an active token is accepted. *)
Lemma verify_header_quiet m now id secret t hash :
  token_on_disk (CT:=CT) m id = Some t → is_active now t = true → secret_on_disk m id = Some hash →
  verify_crypt_pw secret hash = Ok tt → char_in ":" id = false →
  verify_answer_authorization_header (CT:=CT) now ("Bearer " +:+ id +:+ ":" +:+ secret) (World m []) = (Ok (Some id), World m []).
Proof.
  intros Ht Hact Hs Hv Hid. unfold verify_answer_authorization_header.
  change (split_once " " ("Bearer " +:+ id +:+ ":" +:+ secret)) with (Some ("Bearer"%string, id +:+ ":" +:+ secret)).
  simpl (default _ _). cbn beta iota. change (String.eqb (to_ascii_lowercase "Bearer") "bearer") with true. cbn [negb].
  unfold token_on_disk, disk_tokens in Ht. unfold secret_on_disk, disk_secrets in Hs.
  destruct (parse_section_config (default ""%string (m !! TOKENS_CONF_FILE))) as [c|] eqn:Hc; simpl in Ht; [|done].
  destruct (shadow_from_json (default "{}"%string (m !! TOKENS_SHADOW_FILE))) as [s|] eqn:Hsh; simpl in Hs; [|done].
  assert (read_tokens (CT:=CT) (World m []) = (Ok (c, default ""%string (m !! TOKENS_CONF_FILE)), World m [])) as Hrd.
  { unfold read_tokens. rewrite io_bind_run. unfold fs_open. rewrite prim_quiet. rewrite io_bind_run. unfold io_lift. by rewrite Hc. }
  assert (verify_secret id secret (World m []) = (Ok tt, World m [])) as Hvs.
  { unfold verify_secret, read_token_shadow. rewrite !io_bind_run. unfold fs_open. rewrite prim_quiet. unfold io_lift.
    rewrite Hsh, Hs. simpl. by rewrite Hv. }
  rewrite io_bind_run. change (ignore_lock tokens_read_lock (World m [])) with (Ok (E:=error) tt, World m []). cbv iota beta.
  rewrite io_bind_run. unfold io_try at 1. rewrite Hrd. cbv iota beta.
  rewrite (split_once_app ":" id secret Hid). simpl (default _ _). cbv iota beta.
  rewrite Ht, Hact. rewrite io_bind_run. unfold io_try. by rewrite Hvs.
Qed.
End tokens.

(** What a rendered answer takes over from the prepared one. *)
Lemma rendered_global `{InstallationTextLaws} `{InstallerWorld} p sysinfo a uuid tok :
  render_prepared_config p sysinfo = Ok a →
  go_root_password_hashed (an_global (add_webhook p uuid tok a)) = pc_root_password_hashed p ∧
  go_root_ssh_keys (an_global (add_webhook p uuid tok a)) = pc_root_ssh_keys p.
Proof.
  intros Ha. assert (an_global (add_webhook p uuid tok a) = an_global a) as ->.
  { unfold add_webhook. by destruct (pc_post_hook_base_url p). }
  unfold render_prepared_config in Ha.
  destruct (template_context p sysinfo) as [ctx|]; simpl in Ha; [|done].
  destruct (if pc_use_dhcp_fqdn p then _ else _) as [fqdn|]; simpl in Ha; [|done].
  destruct (render ctx "mailto" (pc_mailto p)) as [mailto|]; simpl in Ha; [|done].
  destruct (render_network ctx p) as [network|]; simpl in Ha; [|done]. by injection Ha as <-.
Qed.

(** ** The properties *)

(** C8: An answer file, which contains the root password hash, is only given to a
    request that carries the secret of an active token.  The body of the response is
    the rendering of one prepared answer, with its password hash and its SSH keys (and
    the address for the report, if it has one), and of one that this token is
    authorized for and that is meant for the machine: it is the default answer or
    all of its (at least one) target filters match the system information.  A request
    that is not authenticated changes nothing on disk, whatever fails. *)
Theorem answer_requires_token `{InstallationTextLaws} `{CryptLaws} `{InstallerWorld} {CP CT : Type}
    `{SectionConfigLaws CP PreparedInstallationConfig} `{!SectionText CP}
    `{!SectionTextLaws CP PreparedInstallationConfig} `{!PreparedTextLaws CP}
    `{SectionConfigLaws CT AnswerToken} `{!SectionText CT} `{!SectionTextLaws CT AnswerToken} `{ConfigDigests string}
    answer_to_json uuid now secret header data (w : world) :
  match api_function_new_installation (CP:=CP) (CT:=CT) answer_to_json uuid now secret header data w with
  | (Ok (AnswerBody body), _) =>
      ∃ id sysinfo info p a tok, authenticated (CT:=CT) (files w) now header id ∧
        data = Ok sysinfo ∧ sysinfo_to_value sysinfo = Ok info ∧
        render_prepared_config p sysinfo = Ok a ∧ answer_to_json (add_webhook p uuid tok a) = Ok body ∧
        go_root_password_hashed (an_global (add_webhook p uuid tok a)) = pc_root_password_hashed p ∧
        go_root_ssh_keys (an_global (add_webhook p uuid tok a)) = pc_root_ssh_keys p ∧
        prepared_on_disk (CP:=CP) (files w) (pc_id p) = Some p ∧ id ∈ pc_authorized_tokens p ∧
        (pc_is_default p = true ∨
         pc_target_filter p ≠ [] ∧ ∀ filter, filter ∈ pc_target_filter p → matches_filter info filter = true)
  | (Ok (BadRequest _), _) => ∃ id, authenticated (CT:=CT) (files w) now header id
  | (Ok Unauthorized, w') | (Err _, w') => files w' = files w
  end.
Proof.
  pose proof (triple_api (CP:=CP) (CT:=CT) (files w) uuid now secret header data answer_to_json w eq_refl) as Ht.
  destruct (api_function_new_installation _ _ _ _ _ _ w) as [[[|body|e]|e] w']; [done| |done|done].
  destruct Ht as (id&sysinfo&answer&p&tok&Hau&Hd&Hj&[(info&c&Hi&Hc&Hsel) (a&Hren&->) _ _ _ _]).
  apply select_config_in in Hsel as [[k Hk%sc_iter_get] Hp].
  assert (prepared_on_disk (CP:=CP) (files w) k = Some p) as Hpk by (unfold prepared_on_disk; by rewrite Hc).
  exists id, sysinfo, info, p, a, tok. rewrite (prepared_on_disk_id (CP:=CP) (files w) k p Hpk).
  destruct (rendered_global p sysinfo a uuid tok Hren) as [Hpw Hkeys].
  do 8 (split; [done|]).
  assert (authorized id p = true → id ∈ pc_authorized_tokens p) as Hauth.
  { unfold authorized. intros (x&Hx%list_elem_of_In&->%String.eqb_eq)%existsb_exists. done. }
  destruct Hp as [Hs|Hf].
  - unfold specific in Hs. apply andb_true_iff in Hs as [[Ha _]%andb_true_iff Hfil]. split; [by apply Hauth|]. right.
    destruct (pc_target_filter p) as [|f fs]; [done|]. split; [done|]. intros filter Hin.
    rewrite forallb_forall in Hfil. by apply Hfil, list_elem_of_In.
  - unfold fallback in Hf. apply andb_true_iff in Hf as [Ha Hd0]. split; [by apply Hauth|]. by left.
Qed.

(** A machine only gets an answer after everything about it is on disk: the
    template counters of the prepared answer were incremented (the next machine gets
    other values, until they reach the largest 32 bit integer), the installation was
    recorded with the system information and with the secret that is in the answer,
    and no other file and no other prepared answer was touched, whatever fails and
    when. *)
Theorem answer_recorded `{InstallationTextLaws} `{CryptLaws} `{InstallerWorld} {CP CT : Type}
    `{SectionConfigLaws CP PreparedInstallationConfig} `{!SectionText CP}
    `{!SectionTextLaws CP PreparedInstallationConfig} `{!PreparedTextLaws CP}
    `{SectionConfigLaws CT AnswerToken} `{!SectionText CT} `{!SectionTextLaws CT AnswerToken} `{ConfigDigests string}
    uuid now secret token_id sysinfo (w : world) :
  match new_installation (CP:=CP) uuid now secret token_id sysinfo w with
  | (Ok answer, w') =>
      ∃ p a tok, render_prepared_config p sysinfo = Ok a ∧ answer = add_webhook p uuid tok a ∧
        prepared_on_disk (CP:=CP) (files w) (pc_id p) = Some p ∧
        prepared_on_disk (CP:=CP) (files w') (pc_id p) = Some (increment_counters p) ∧
        (∀ id, id ≠ pc_id p → prepared_on_disk (CP:=CP) (files w') id = prepared_on_disk (CP:=CP) (files w) id) ∧
        installation_on_disk (files w') uuid =
          Some (mkInstallation uuid now (answer_status p) sysinfo (Some (pc_id p)) None tok) ∧
        (is_Some tok ↔ is_Some (pc_post_hook_base_url p)) ∧
        only [PREPARED_CONF_FILE; installation_state_path uuid] (files w) (files w')
  | (Err _, w') => refused (CP:=CP) (files w) uuid (files w')
  end.
Proof.
  pose proof (triple_new_installation (CP:=CP) (files w) uuid now secret token_id sysinfo w eq_refl) as Ht.
  destruct (new_installation _ _ _ _ _ w) as [[answer|e] w']; [|exact Ht].
  destruct Ht as (p&tok&[(info&c&Hi&Hc&Hsel) (a&Ha&->) Htok Hcnt Hrec Ho]).
  apply select_config_in in Hsel as [[k Hk%sc_iter_get] _].
  assert (prepared_on_disk (CP:=CP) (files w) k = Some p) as Hpk by (unfold prepared_on_disk; by rewrite Hc).
  pose proof (prepared_on_disk_id (CP:=CP) (files w) k p Hpk) as Hid. subst k.
  exists p, a, tok. split_and!; try done.
  - rewrite Hcnt, decide_True by done. by rewrite Hpk.
  - intros id Hne. by rewrite Hcnt, decide_False.
Qed.

(** C11: The prepared answers stay consistent under every request of this API and
    every I/O fault: at most one of them is the default answer, every other one has a
    target filter, each has a root password and a token that may fetch it, the keys
    of its device filters and the names of its counters are well-formed, and no
    counter is negative. *)
Theorem prepared_answers_consistent `{InstallationTextLaws} `{CryptLaws} `{InstallerWorld} {CP CT : Type}
    `{SectionConfigLaws CP PreparedInstallationConfig} `{!SectionText CP}
    `{!SectionTextLaws CP PreparedInstallationConfig} `{!PreparedTextLaws CP}
    `{SectionConfigLaws CT AnswerToken} `{!SectionText CT} `{!SectionTextLaws CT AnswerToken} `{ConfigDigests string}
    answer_to_json (requests : list install_request) (w : world) :
  prepared_ok (CP:=CP) (files w) →
  prepared_ok (CP:=CP)
    (files (foldl (λ w q, (handle_install_request (CP:=CP) (CT:=CT) answer_to_json q w).2) w requests)).
Proof.
  revert w. induction requests as [|q requests IH]; intros w Hw; [done|]. simpl. apply IH.
  pose proof (install_request_ok (CP:=CP) (CT:=CT) answer_to_json q w Hw) as Hq.
  by destruct (handle_install_request answer_to_json q w) as [[u|e] w'].
Qed.

(** C10: An installation reports back at most once, and only with its own secret: if
    the post-installation hook succeeds, the installation was in progress and waited
    for exactly this secret, it is finished afterwards and its secret is gone, and no
    further hook for it succeeds, with whatever secret. *)
Theorem post_hook_once `{InstallationTextLaws} uuid token info (w w' : world) :
  well_named (files w) →
  handle_post_hook uuid token info w = (Ok tt, w') →
  (∃ i, waits_for (files w) uuid token i ∧
        installation_on_disk (files w') uuid = Some (set_installation Finished (Some info) None i)) ∧
  ∀ token2 info2 faults, result_ok (handle_post_hook uuid token2 info2 (World (files w') faults)).1 = None.
Proof.
  intros Hwf Hrun. pose proof (triple_post_hook (files w) uuid token info w eq_refl) as Ht. rewrite Hrun in Ht.
  destruct Ht as (i&Hwait&Hrec&Hleg&Hwf'). split; [by exists i|]. intros token2 info2 fs.
  pose proof (triple_post_hook_again (files w') uuid _ token2 info2 (Hwf' Hwf) Hleg Hrec ltac:(done) (World (files w') fs) eq_refl) as Ha.
  by destruct (handle_post_hook uuid token2 info2 _) as [[u|e] w''].
Qed.

(** A token works from its creation to its deletion.  When creating a token
    succeeds, a header with its secret is accepted while the token is active; when
    deleting it succeeds, no header is accepted for its id any more, whatever secret
    it carries, and no prepared answer refers to it.  Other tokens and their secrets
    stay as they are. *)
Theorem token_lifecycle `{InstallationTextLaws} `{CryptLaws} `{InstallerWorld} {CP CT : Type}
    `{SectionConfigLaws CP PreparedInstallationConfig} `{!SectionText CP}
    `{SectionConfigLaws CT AnswerToken} `{!SectionText CT} `{!SectionTextLaws CT AnswerToken} (id : string) (w w' : world) :
  (∀ created_by secret comment enabled expire_at r,
     create_token (CT:=CT) created_by secret id comment enabled expire_at w = (Ok r, w') →
     other_tokens_same (CT:=CT) id (files w) (files w') ∧
     ∀ now, is_active now r.1 = true → char_in ":" id = false →
       verify_answer_authorization_header (CT:=CT) now ("Bearer " +:+ id +:+ ":" +:+ r.2) (World (files w') []) =
         (Ok (Some id), World (files w') [])) ∧
  (delete_token_handler (CP:=CP) (CT:=CT) id w = (Ok tt, w') →
     other_tokens_same (CT:=CT) id (files w) (files w') ∧
     (∀ k p, prepared_on_disk (CP:=CP) (files w') k = Some p → id ∉ pc_authorized_tokens p) ∧
     ∀ now header faults,
       (verify_answer_authorization_header (CT:=CT) now header (World (files w') faults)).1 ≠ Ok (Some id)).
Proof.
  split.
  - intros cb secret comment enabled expire r Hrun.
    pose proof (triple_create_token (CT:=CT) (files w) cb secret id comment enabled expire w eq_refl) as Ht. rewrite Hrun in Ht.
    destruct Ht as (_&Hr2&Ho&Ht&hash&Hh&Hs). split; [done|]. intros now Hact Hid.
    apply (verify_header_quiet (CT:=CT) _ _ _ _ r.1 hash); try done. rewrite Hr2. by eapply verify_encrypted.
  - intros Hrun. pose proof (triple_delete_token_handler (CP:=CP) (CT:=CT) (files w) id w eq_refl) as Ht. rewrite Hrun in Ht.
    destruct Ht as (Htok&_&Ho&Hp). split; [done|]. split; [done|]. intros now header fs Hv.
    pose proof (triple_verify_header (CT:=CT) (files w') now header (World (files w') fs) eq_refl) as Ha.
    destruct (verify_answer_authorization_header now header _) as [[o|e] w2]; simpl in Hv; simplify_eq.
    destruct Ha as [_ Ha]. destruct (Ha id eq_refl) as [(t&Ht&_) _]. congruence.
Qed.

(** Which prepared answer a machine gets: the first one, in the order of the
    configuration, that authorizes the token, is not the default answer and has
    target filters that all match; if there is none, the (last) default answer that
    authorizes the token; otherwise none. *)
Theorem find_config_spec `{InstallerTypes} `{InstallerWorld} token_id info
    (l : list (string * PreparedInstallationConfig)) :
  select_config token_id info l =
  match find (λ kp, specific token_id info kp.2) l with
  | Some kp => Some kp.2
  | None => last (List.filter (fallback token_id) l.*2)
  end.
Proof. apply select_config_eq. Qed.

(** ** A concrete configuration *)

Module InstallDemo.
Open Scope string_scope.
Open Scope Z_scope.

(** The system information is a serial number; a template stands for itself. *)
#[local] Instance types : InstallerTypes := {|
  SystemInfo := string; sysinfo_to_value s := Ok (VObject [("serial", VString s)]); PostHookInfo := string;
  KeyboardLayout := string; RebootMode := string; FilterMatch := string; LvmOptions := string; ZfsOptions := string;
  BtrfsOptions := string;
|}.
#[local] Instance crypt : Crypt := {|
  encrypt_pw p := Ok ("$" +:+ p);
  verify_crypt_pw p h := if String.eqb h ("$" +:+ p) then Ok tt else Err (EMsg "wrong password");
|}.
#[local] Instance crypt_laws : CryptLaws.
Proof. intros p h [= <-]. simpl. by rewrite String.eqb_refl. Qed.
#[local] Instance world_of : InstallerWorld := {|
  pointer v p := get v (String.substring 1 (String.length p - 1) p); Pattern := string; glob_new s := Some s;
  glob_matches g s := String.eqb g "*" || String.eqb g s;
  render_named_str name tmpl ctx := if String.eqb tmpl "{{" then Err (EMsg "syntax error") else Ok tmpl;
  Fqdn := string; fqdn_from s := Ok s; Cidr := string; parse_cidr s := Ok s; IpAddr := string; parse_ip s := Ok s;
|}.

(** *** Texts *)

#[local] Instance status_countable : Countable InstallationStatus.
Proof.
  refine (inj_countable' (λ s, match s with AnswerSent => (true, true) | NoAnswerFound => (true, false) | InProgress => (false, true) | Finished => (false, false) end)
    (λ b, match b with (true, true) => AnswerSent | (true, false) => NoAnswerFound | (false, true) => InProgress | _ => Finished end) _). by intros [].
Defined.
Definition installation_to (i : Installation) :=
  (in_uuid i, in_received_at i, in_status i, (in_info i : string), in_answer_id i, (in_post_hook_data i : option string),
   in_post_hook_token i).
Definition to_installation x : Installation :=
  let '(u, r, s, f, a, d, t) := x in mkInstallation u r s (f : string) a (d : option string) t.
Lemma to_installation_to i : to_installation (installation_to i) = i.
Proof. by destruct i. Qed.
(** Equality by way of a tuple. *)
Definition dec_by {A B} `{EqDecision B} (f : A → B) (g : B → A) (Hgf : ∀ x, g (f x) = x) : EqDecision A :=
  λ x y, match decide (f x = f y) with
         | left E => left (eq_trans (eq_sym (Hgf x)) (eq_trans (f_equal g E) (Hgf y)))
         | right E => right (λ H, E (f_equal f H))
         end.
#[local] Instance installation_eq_dec : EqDecision Installation := dec_by installation_to to_installation to_installation_to.
#[local] Instance installation_countable : Countable Installation :=
  inj_countable' installation_to to_installation to_installation_to.

#[local] Instance text : InstallationText := {|
  installation_to_json i := Ok (bits (encode i)); installation_from_json s := ok_or (decode (of_bits s)) EInvalid;
  installations_to_json l := Ok (bits (encode l)); installations_from_json s := ok_or (decode (of_bits s)) EInvalid;
  shadow_to_json m := Ok (bits (encode m));
  shadow_from_json s := if String.eqb s "{}" then Ok ∅ else ok_or (decode (of_bits s)) EInvalid;
|}.
Lemma bits_not_braces p : String.eqb (bits p) "{}" = false.
Proof. by destruct p. Qed.
#[local] Instance text_laws : InstallationTextLaws.
Proof.
  split.
  - intros i t [= <-]. simpl. by rewrite of_bits_bits, decode_encode.
  - intros s t [= <-]. simpl. by rewrite bits_not_braces, of_bits_bits, decode_encode.
Qed.

#[local] Instance token_eq_dec : EqDecision AnswerToken.
Proof. solve_decision. Defined.
#[local] Instance token_countable : Countable AnswerToken.
Proof.
  refine (inj_countable' (λ t, (at_id t, at_created_by t, at_comment t, at_enabled t, at_expire_at t))
    (λ '(i, u, c, e, x), mkAnswerToken i u c e x) _). by intros [].
Defined.

(** A prepared answer as three groups of fields. *)
Definition fs_of (f : FilesystemOptions) : string + string + string + string :=
  match f with
  | FsExt4 o => inl (inl (inl (o : string))) | FsXfs o => inl (inl (inr (o : string)))
  | FsZfs o => inl (inr (o : string)) | FsBtrfs o => inr (o : string)
  end.
Definition of_fs (x : string + string + string + string) : FilesystemOptions :=
  match x with
  | inl (inl (inl o)) => FsExt4 (o : string) | inl (inl (inr o)) => FsXfs (o : string)
  | inl (inr o) => FsZfs (o : string) | inr o => FsBtrfs (o : string)
  end.
Definition mode_of (m : DiskSelectionMode) : bool := match m with Fixed => true | Filter => false end.
Definition of_mode (b : bool) : DiskSelectionMode := if b then Fixed else Filter.

Definition prepared_to (p : PreparedInstallationConfig) :=
  ((pc_id p, pc_authorized_tokens p, pc_is_default p, pc_target_filter p, pc_country p, pc_fqdn p, pc_use_dhcp_fqdn p,
    (pc_keyboard p : string), pc_mailto p, pc_timezone p),
   (pc_root_password_hashed p, pc_reboot_on_error p, (pc_reboot_mode p : string), pc_root_ssh_keys p,
    pc_use_dhcp_network p, pc_cidr p, pc_gateway p, pc_dns p, pc_netdev_filter p, pc_netif_name_pinning_enabled p),
   (fs_of (pc_filesystem p), mode_of (pc_disk_mode p), pc_disk_list p, pc_disk_filter p,
    (pc_disk_filter_match p : option string), pc_post_hook_base_url p, pc_post_hook_cert_fp p, pc_template_counters p,
    pc_subscription_key p)).
Definition to_prepared x : PreparedInstallationConfig :=
  let '((a, b, c, d, e, f, g, h, i, j), (k, l, m, n, o, p, q, r, s, t), (u, v, w, x, y, z, a1, b1, c1)) := x in
  mkPrepared a b c d e f g (h : string) i j k l (m : string) n o p q r s t (of_fs u) (of_mode v) w x (y : option string) z a1 b1 c1.
Lemma to_prepared_to p : to_prepared (prepared_to p) = p.
Proof. destruct p as [? ? ? ? ? ? ? ? ? ? ? ? ? ? ? ? ? ? ? ? [] [] ? ? ? ? ? ? ?]; reflexivity. Qed.
#[local] Instance prepared_eq_dec : EqDecision PreparedInstallationConfig := dec_by prepared_to to_prepared to_prepared_to.
#[local] Instance prepared_countable : Countable PreparedInstallationConfig :=
  inj_countable' prepared_to to_prepared to_prepared_to.

Definition answers : Type := gmap string PreparedInstallationConfig.
Definition token_map : Type := gmap string AnswerToken.
#[local] Instance answers_config : SectionConfigData answers PreparedInstallationConfig := gmap_config.
#[local] Instance answers_laws : SectionConfigLaws answers PreparedInstallationConfig := gmap_config_laws.
#[local] Instance answers_text : SectionText answers := RemotesDemo.gmap_text pc_id.
#[local] Instance answers_text_laws : SectionTextLaws answers PreparedInstallationConfig := RemotesDemo.gmap_text_laws pc_id.
#[local] Instance tokens_config : SectionConfigData token_map AnswerToken := gmap_config.
#[local] Instance tokens_laws : SectionConfigLaws token_map AnswerToken := gmap_config_laws.
#[local] Instance tokens_text : SectionText token_map := RemotesDemo.gmap_text at_id.
#[local] Instance tokens_text_laws : SectionTextLaws token_map AnswerToken := RemotesDemo.gmap_text_laws at_id.
#[local] Instance content_digests : ConfigDigests string := {| digest := string; digest_dec := _; config_digest c := c |}.
#[local] Instance answers_keys : PreparedTextLaws answers.
Proof.
  intros m c id p Hc Hp. unfold disk_prepared in Hc. destruct (parse_section_config _) as [c'|] eqn:Hps; [|done].
  injection Hc as <-. exact (RemotesDemo.gmap_text_keys pc_id _ _ _ _ Hps Hp).
Qed.

(** *** Requests *)

Definition answer_for (id : string) (is_default : bool) (filters : list (string * string)) (fqdn : string)
    (netdev : list (string * string)) (tokens : list string) : PreparedInstallationConfig :=
  mkPrepared id tokens is_default filters "at" fqdn false "de" "root@example.org" "UTC" (Some "hash") false "reboot" []
    true None None None netdev false (FsExt4 "") Fixed ["sda"] [] None (Some "https://pdm/") None [("n", 7)] None.
Definition source : token_source := mkSource (Ok "root@pam") (Ok "0a1b2c3d") "generated".
Definition to_json (a : AutoInstallerConfig) : result error string := Ok (go_mailto (an_global a)).

Definition demo_request := handle_install_request (CP:=answers) (CT:=token_map) to_json.
Definition run_requests (w : world) (l : list install_request) : world := foldl (λ w q, (demo_request q w).2) w l.

(** A token, an answer for machines with the serial number [42], and one for all
    others. *)
Definition setup : list install_request :=
  [ReqCreateToken (Ok "root@pam") "s1" "tok1" None None None;
   ReqCreateAnswer source (answer_for "rack" false [("/serial", "42")] "host.lan" [] ["tok1"]) None;
   ReqCreateAnswer source (answer_for "any" true [] "any.lan" [] ["tok1"]) None].
Definition disk : gmap string string := files (run_requests (World ∅ []) setup).

Definition header : string := "Bearer tok1:s1".
Definition uuid1 : Uuid := "00000000-0000-0000-0000-000000000001".
Definition fetch : io Response :=
  api_function_new_installation (CP:=answers) (CT:=token_map) to_json uuid1 100 (Ok "hook-secret") header (Ok "42").

Example fetch_answers : (fetch (World disk [])).1 = Ok (AnswerBody "root@example.org").
Proof. vm_compute. reflexivity. Qed.
Example fetch_wrong_secret :
  (api_function_new_installation (CP:=answers) (CT:=token_map) to_json uuid1 100 (Ok "h") "Bearer tok1:s2" (Ok "42") (World disk [])).1
  = Ok Unauthorized.
Proof. vm_compute. reflexivity. Qed.

Lemma answer_requires_token_witness :
  ∃ body, (fetch (World disk [])).1 = Ok (AnswerBody body) ∧
    ∃ id p tok a, authenticated (CT:=token_map) (files (World disk [])) 100 header id ∧
      id ∈ pc_authorized_tokens p ∧ to_json (add_webhook p uuid1 tok a) = Ok body.
Proof.
  pose proof (answer_requires_token (CP:=answers) (CT:=token_map) to_json uuid1 100 (Ok "hook-secret") header (Ok "42")
    (World disk [])) as Hreq.
  exists "root@example.org". split; [exact fetch_answers|].
  pose proof fetch_answers as Hrun. unfold fetch in Hrun.
  destruct (api_function_new_installation _ _ _ _ _ _ _) as [r w']. simpl in Hrun. rewrite Hrun in Hreq.
  destruct Hreq as (id&_&_&p&a&tok&Hau&_&_&_&Hj&_&_&_&Hin&_). exists id, p, tok, a.
  split; [exact Hau|]. split; [exact Hin|exact Hj].
Defined.

(** The counter goes from 7 to 8. *)
Lemma answer_recorded_witness :
  let r := new_installation (CP:=answers) uuid1 100 (Ok "hook-secret") "tok1" "42" (World disk []) in
  is_Some (result_ok r.1) ∧
  ∃ p, prepared_on_disk (CP:=answers) (files (World disk [])) (pc_id p) = Some p ∧
       prepared_on_disk (CP:=answers) (files r.2) (pc_id p) = Some (increment_counters p).
Proof.
  pose proof (answer_recorded (CP:=answers) (CT:=token_map) uuid1 100 (Ok "hook-secret") "tok1" "42" (World disk [])) as Hrec.
  assert (is_Some (result_ok (new_installation (CP:=answers) uuid1 100 (Ok "hook-secret") "tok1" "42" (World disk [])).1)) as Hok
    by (vm_compute; eexists; reflexivity).
  cbv zeta. split; [exact Hok|].
  destruct (new_installation _ _ _ _ _ _) as [[answer|e] w']; [|destruct Hok as [x Hx]; discriminate Hx].
  destruct Hrec as (p&_&_&_&_&Hp&Hp'&_). exists p. split; [exact Hp|exact Hp'].
Defined.

(** The second default answer is refused, and so is removing the filter of [rack];
    the third request fails when the file is written. *)
Definition edits : list install_request :=
  [ReqCreateAnswer source (answer_for "more" true [] "more.lan" [] ["tok1"]) None;
   ReqDeleteAnswer "any"].
Lemma prepared_answers_consistent_witness :
  prepared_ok (CP:=answers) disk ∧ prepared_ok (CP:=answers) (files (run_requests (World disk [false; false; true]) edits)).
Proof.
  assert (prepared_ok (CP:=answers) (files (World ∅ []))) as Hempty.
  { split.
    - intros id p Hp. exfalso. unfold prepared_on_disk, disk_prepared in Hp. cbn in Hp. rewrite lookup_empty in Hp. discriminate Hp.
    - intros id id' p p' Hp. exfalso. unfold prepared_on_disk, disk_prepared in Hp. cbn in Hp. rewrite lookup_empty in Hp. discriminate Hp. }
  pose proof (prepared_answers_consistent (CP:=answers) (CT:=token_map) to_json setup (World ∅ []) Hempty) as Hdisk.
  split; [exact Hdisk|].
  assert (∀ m fs, prepared_ok (CP:=answers) m → prepared_ok (CP:=answers) (files (World m fs))) as Hfiles by (intros m fs Hm; exact Hm).
  exact (prepared_answers_consistent (CP:=answers) (CT:=token_map) to_json edits (World disk [false; false; true])
    (Hfiles disk _ Hdisk)).
Defined.

(** *** The hook *)

Definition running : gmap string string := files (fetch (World disk [])).2.
Definition hook : result error unit * world := handle_post_hook uuid1 "hook-secret" "done" (World running []).

Definition named_ok (nt : string * string) : bool :=
  if is_state_file nt.1 then
    match installation_from_json nt.2 with Ok i => String.eqb nt.1 (installation_state_path (in_uuid i)) | Err _ => true end
  else true.
Lemma all_named (m : gmap string string) : forallb named_ok (map_to_list m) = true → well_named m.
Proof.
  intros Hall name t i Hn Hl Hj. rewrite forallb_forall in Hall.
  assert (named_ok (name, t) = true) as Hb by (apply Hall, list_elem_of_In; by apply elem_of_map_to_list).
  unfold named_ok in Hb. cbn [fst snd] in Hb. rewrite Hn, Hj in Hb. by apply String.eqb_eq.
Qed.
Lemma running_well_named : well_named running.
Proof. apply all_named. vm_compute. reflexivity. Qed.

Lemma run_result {A B} (x : A * B) a : x.1 = a → x = (a, x.2).
Proof. destruct x. by intros <-. Qed.

Lemma post_hook_once_witness :
  hook.1 = Ok tt ∧ result_ok (handle_post_hook uuid1 "hook-secret" "again" (World (files hook.2) [])).1 = None.
Proof.
  assert (hook.1 = Ok tt) as Hok by (vm_compute; reflexivity). split; [exact Hok|].
  exact (proj2 (post_hook_once uuid1 "hook-secret" "done" (World running []) hook.2 running_well_named (run_result _ _ Hok))
    "hook-secret" "again" []).
Defined.

(** *** Tokens *)

Definition created := create_token (CT:=token_map) (Ok "root@pam") "s2" "tok2" None None None (World disk []).
Definition token2 : AnswerToken * string := (mkAnswerToken "tok2" "root@pam" None None None, "s2").
Definition deleted := delete_token_handler (CP:=answers) (CT:=token_map) "tok2" created.2.
Lemma token_lifecycle_witness :
  (∃ r, created.1 = Ok r ∧
     (verify_answer_authorization_header (CT:=token_map) 100 ("Bearer " +:+ "tok2" +:+ ":" +:+ r.2) (World (files created.2) [])).1
       = Ok (Some "tok2")) ∧
  deleted.1 = Ok tt ∧
  (verify_answer_authorization_header (CT:=token_map) 100 "Bearer tok2:s2" (World (files deleted.2) [])).1 ≠ Ok (Some "tok2").
Proof.
  split.
  - assert (created.1 = Ok token2) as Hok by (vm_compute; reflexivity).
    exists token2. split; [exact Hok|].
    pose proof (token_lifecycle (CP:=answers) (CT:=token_map) "tok2" (World disk []) created.2) as [Hc _].
    destruct (Hc _ _ _ _ _ token2 (run_result _ _ Hok)) as [_ Hv]. exact (f_equal fst (Hv 100 eq_refl eq_refl)).
  - assert (deleted.1 = Ok tt) as Hok by (vm_compute; reflexivity). split; [exact Hok|].
    pose proof (token_lifecycle (CP:=answers) (CT:=token_map) "tok2" created.2 deleted.2) as [_ Hd].
    exact (proj2 (proj2 (Hd (run_result _ _ Hok))) 100 "Bearer tok2:s2" []).
Defined.

(** *** What goes wrong *)

(** Creating an answer without tokens generates one before the filters are checked:
    the request is refused, the token stays, and nobody has seen its secret. *)
Theorem failed_create_leaves_token :
  let r := create_prepared_answer (CP:=answers) (CT:=token_map) source
             (answer_for "lab" false [("/serial", "1")] "lab.lan" [("bad key", "x")] []) None (World disk []) in
  r.1 = Err (EMsg "invalid udev filter key") ∧ token_on_disk (CT:=token_map) disk "lab-0a1b2c3d" = None ∧
  is_Some (token_on_disk (CT:=token_map) (files r.2) "lab-0a1b2c3d").
Proof. cbv zeta. split_and!; vm_compute; [reflexivity|reflexivity|]. eexists. reflexivity. Qed.

(** Regenerating a secret deletes the token and adds it again: when adding fails, the
    token is gone although an answer still refers to it. *)
Theorem failed_regeneration_loses_token :
  let r := update_token_handler (CT:=token_map) "new" "tok1" (mkTokenUpdater None None None) None true None
             (World disk [false; false; false; false; false; false; false; true]) in
  r.1 = Err EIo ∧ token_on_disk (CT:=token_map) (files r.2) "tok1" = None ∧
  pc_authorized_tokens <$> prepared_on_disk (CP:=answers) (files r.2) "rack" = Some ["tok1"].
Proof. cbv zeta. split_and!; vm_compute; reflexivity. Qed.

(** A token is deleted before its secret: when that fails, and creating a token with
    the same name fails after the token was written, the deleted secret is valid. *)
Theorem deleted_secret_revives :
  let d := delete_token_handler (CP:=answers) (CT:=token_map) "tok2"
             (World (files created.2) [false; false; false; false; false; true]) in
  let c := create_token (CT:=token_map) (Ok "root@pam") "s3" "tok2" None None None
             (World (files d.2) [false; false; false; false; true]) in
  token_on_disk (CT:=token_map) (files d.2) "tok2" = None ∧ c.1 = Err EIo ∧
  (verify_answer_authorization_header (CT:=token_map) 100 "Bearer tok2:s2" (World (files c.2) [])).1 = Ok (Some "tok2").
Proof. cbv zeta. split_and!; vm_compute; reflexivity. Qed.

(** A request for which the answer cannot be rendered is not recorded. *)
Definition broken : gmap string string :=
  files (run_requests (World ∅ [])
    [ReqCreateToken (Ok "root@pam") "s1" "tok1" None None None;
     ReqCreateAnswer source (answer_for "any" true [] "{{" [] ["tok1"]) None]).
Theorem unrendered_request_unrecorded :
  let r := fetch (World broken []) in
  r.1 = Ok (BadRequest (EMsg "syntax error")) ∧ installation_on_disk (files r.2) uuid1 = None.
Proof. cbv zeta. split; vm_compute; reflexivity. Qed.
End InstallDemo.
