(* ===== verification/RemoteUpdates.v ===== *)
(** * Available updates of remotes

    Model of [server/src/remote_updates.rs], of the data of
    [lib/pdm-api-types/src/remote_updates.rs], and of the handlers of
    [server/src/api/remotes/updates.rs] and [server/src/api/pve/mod.rs] that show or
    refresh the summary.

    One entry of the global namespace of the API cache keeps, per remote and node,
    how many updates are available.  A refresh asks all nodes of the remotes in
    parallel; the result of every node is stored when it arrives, and a last pass
    replaces the entry by what was answered.  A critical section under the lock of
    the namespace is one step; [sections] lists those that run before the last pass,
    of this refresh and of other tasks, in their order.

    Not under [src/], hence parameters: the answers of the remotes, the summary of
    the repositories ([APTStandardRepoSummary::from_repos]), the names of
    architectures, the display of errors, and the JSON text of the entry. *)

From S2P Require Import Prelude FileSystem RemoteUpid SectionConfig ResourceList ParallelFetcher TaskItems TaskList NamespacedCache RemoteData.

(** ** Data *)

Record APTUpdateInfo : Type := mkUpdateInfo {
  ui_package : string;
  ui_title : string;
  ui_arch : string;
  ui_description : string;
  ui_version : string;
  ui_old_version : option string;
  ui_origin : string;
  ui_priority : string;
  ui_section : string;
  ui_extra_info : option string;
}.

Record PackageVersion : Type := mkVersion { pv_package : string; pv_version : string }.

(** In ascending severity. *)
Module ProductRepositoryStatus.
Inductive t : Type := Ok_ | NonProductionReady | MissingSubscriptionForEnterprise | NoProductRepository | Error.
Definition severity (s : t) : Z :=
  match s with
  | Ok_ => 0 | NonProductionReady => 1 | MissingSubscriptionForEnterprise => 2 | NoProductRepository => 3 | Error => 4
  end.
End ProductRepositoryStatus.

Inductive NodeUpdateStatus : Type := NodeSuccess | NodeError.
Inductive RemoteUpdateStatus : Type := UpdSuccess | UpdError | UpdUnknown.

Record NodeUpdateInfo : Type := mkNodeUpdateInfo {
  nui_updates : list APTUpdateInfo;
  nui_last_refresh : Z;
  nui_versions : list PackageVersion;
  nui_repository_status : ProductRepositoryStatus.t;
}.

Record NodeUpdateSummary : Type := mkNodeSummary {
  nus_number_of_updates : Z;
  nus_last_refresh : Z;
  nus_status : NodeUpdateStatus;
  nus_status_message : option string;
  nus_versions : list PackageVersion;
  nus_repository_status : ProductRepositoryStatus.t;
}.

Record RemoteUpdateSummary : Type := mkRemoteSummary {
  rus_nodes : gmap string NodeUpdateSummary;
  rus_remote_type : RemoteType.t;
  rus_status : RemoteUpdateStatus;
  rus_status_message : option string;
}.

Record UpdateSummary : Type := mkSummary { us_remotes : gmap string RemoteUpdateSummary }.

Definition default_summary : UpdateSummary := mkSummary ∅.

Definition UPDATE_SUMMARY_CACHE_KEY : string := "remote-updates".

(** [From<&NodeUpdateInfo> for NodeUpdateSummary] *)
Definition node_summary (value : NodeUpdateInfo) : NodeUpdateSummary :=
  mkNodeSummary (as_u32 (Z.of_nat (length (nui_updates value)))) (nui_last_refresh value) NodeSuccess None
    (nui_versions value) (nui_repository_status value).

(** [format!("{err:#}")] *)
Class ErrorText := alternate_text : error → string.

Definition node_error_summary `{ErrorText} (err : error) : NodeUpdateSummary :=
  mkNodeSummary 0 0 NodeError (Some (alternate_text err)) [] ProductRepositoryStatus.Error.

(** ** Repositories *)

Record APTStandardRepoSummary : Type := mkRepoSummary {
  has_enterprise : bool;
  has_no_subscription : bool;
  has_test : bool;
  has_ceph_enterprise : bool;
  has_ceph_no_subscription : bool;
  has_ceph_test : bool;
}.

Class AptTypes := {
  APTStandardRepository : Type;
  from_repos : list APTStandardRepository → APTStandardRepoSummary;
  PveArch : Type;
  arch_to_string : PveArch → string;
}.

Section updates.
Context `{AptTypes} `{ErrorText}.

(** [APTRepositoriesResult], the fields that are read. *)
Record APTRepositoriesResult : Type := mkRepositories {
  rr_errors : list string;
  rr_standard_repos : list APTStandardRepository;
}.

Definition check_repository_status (config : APTRepositoriesResult) (active_subscription : bool)
    : ProductRepositoryStatus.t :=
  if negb (bool_decide (rr_errors config = [])) then ProductRepositoryStatus.Error else
  let summary := from_repos (rr_standard_repos config) in
  if negb (has_enterprise summary || has_no_subscription summary || has_test summary)
  then ProductRepositoryStatus.NoProductRepository
  else if (has_enterprise summary || has_ceph_enterprise summary) && negb active_subscription
  then ProductRepositoryStatus.MissingSubscriptionForEnterprise
  else if has_test summary || has_no_subscription summary || has_ceph_no_subscription summary
          || has_ceph_test summary
  then ProductRepositoryStatus.NonProductionReady
  else ProductRepositoryStatus.Ok_.

(** ** Asking a node *)

(** [pve_api_types::{AptUpdateInfo, InstalledPackage}] and
    [pbs_api_types::APTUpdateInfo]. *)
Record PveUpdateInfo : Type := mkPveUpdateInfo {
  pui_package : string;
  pui_title : string;
  pui_arch : PveArch;
  pui_description : string;
  pui_version : string;
  pui_old_version : option string;
  pui_origin : string;
  pui_priority : string;
  pui_section : string;
}.
Record InstalledPackage : Type := mkPackage { ip_package : string; ip_old_version : option string }.

Definition map_pve_update_info (info : PveUpdateInfo) : APTUpdateInfo :=
  mkUpdateInfo (pui_package info) (pui_title info) (arch_to_string (pui_arch info)) (pui_description info)
    (pui_version info) (pui_old_version info) (pui_origin info) (pui_priority info) (pui_section info) None.
Definition map_pve_package_version (info : InstalledPackage) : PackageVersion :=
  mkVersion (ip_package info) (default ""%string (ip_old_version info)).
Definition map_pbs_package_version (info : InstalledPackage) : PackageVersion :=
  mkVersion (ip_package info) (default ""%string (ip_old_version info)).

(** What the remotes answer, the time, and the order in which tasks are scheduled.
    [ue_subscription] is whether the subscription of a node is active. *)
Record updates_env : Type := mkUpdatesEnv {
  ue_list_nodes : Remote → option (result error (list string));
  ue_client : Remote → result error unit;
  ue_pve_updates : Remote → string → result error (list PveUpdateInfo);
  ue_pbs_updates : Remote → result error (list APTUpdateInfo);
  ue_versions : Remote → string → result error (list InstalledPackage);
  ue_repositories : Remote → string → result error APTRepositoriesResult;
  ue_subscription : Remote → string → result error bool;
  ue_epoch : Remote → string → Z;
  ue_schedule : list nat;
}.

Section fetch.
Context (env : updates_env).

Definition fetch_available_updates (remote : Remote) (node : string) : result error NodeUpdateInfo :=
  match rm_ty remote with
  | RemoteType.Pve =>
      _ ← ue_client env remote;
      updates ← ue_pve_updates env remote node;
      let updates := map map_pve_update_info updates in
      versions ← ue_versions env remote node;
      let versions := map map_pve_package_version
                        (List.filter (λ v, String.eqb (ip_package v) "pve-manager") versions) in
      repos ← ue_repositories env remote node;
      has_active_subscription ← ue_subscription env remote node;
      let repository_status := check_repository_status repos has_active_subscription in
      Ok (mkNodeUpdateInfo updates (ue_epoch env remote node) versions repository_status)
  | RemoteType.Pbs =>
      _ ← ue_client env remote;
      updates ← ue_pbs_updates env remote;
      versions ← ue_versions env remote node;
      let versions := map map_pbs_package_version
                        (List.filter (λ v, String.eqb (ip_package v) "proxmox-backup-server") versions) in
      repos ← ue_repositories env remote node;
      has_active_subscription ← ue_subscription env remote node;
      let repository_status := check_repository_status repos has_active_subscription in
      Ok (mkNodeUpdateInfo updates (ue_epoch env remote node) versions repository_status)
  end.

Definition result_summary (r : result error NodeUpdateInfo) : NodeUpdateSummary :=
  match r with Ok update_info => node_summary update_info | Err err => node_error_summary err end.
End fetch.

(** [update_apt_database]: the client, the task the remote started, and tracking it. *)
Definition update_apt_database `{SafeIdRegex} `{UpidFields} `{TaskCodec} (client : result error unit)
    (pve_upid : result error PveUpid) (pbs_upid : result error PbsUpid) (remote : Remote) : io RemoteUpid :=
  match rm_ty remote with
  | RemoteType.Pve =>
      _ ← io_lift client; upid ← io_lift pve_upid; track_running_pve_task (rm_id remote) upid
  | RemoteType.Pbs =>
      _ ← io_lift client; upid ← io_lift pbs_upid; track_running_pbs_task (rm_id remote) upid
  end.

(** ** The cached summary *)

Section cache.
Context `{SafeIdRegex} `{EntryCodec UpdateSummary}.

Definition summary_or_default (r : result error (option UpdateSummary)) : UpdateSummary :=
  match r with Ok (Some s) => s | _ => default_summary end.

Definition get_cached_summary_or_default (now : Z) : io UpdateSummary :=
  guard ← read_global;
  r ← io_try (ReadableCacheNamespace.get guard now UPDATE_SUMMARY_CACHE_KEY);
  mret (summary_or_default r).

Definition unknown_summary (remote : Remote) : RemoteUpdateSummary :=
  mkRemoteSummary ∅ (rm_ty remote) UpdUnknown None.

(** The entry of a remote, made if there is none. *)
Definition remote_entry (content : UpdateSummary) (id : string) (ty : RemoteType.t) : RemoteUpdateSummary :=
  default (mkRemoteSummary ∅ ty UpdSuccess None) (us_remotes content !! id).

Definition insert_node (remote : Remote) (node : string) (node_data : NodeUpdateSummary) (content : UpdateSummary)
    : UpdateSummary :=
  let e := remote_entry content (rm_id remote) (rm_ty remote) in
  mkSummary (<[rm_id remote := mkRemoteSummary (<[node := node_data]> (rus_nodes e)) (rus_remote_type e)
                                 (rus_status e) (rus_status_message e)]> (us_remotes content)).

Definition update_cached_summary_for_node (now : Z) (remote : Remote) (node : string)
    (node_data : NodeUpdateSummary) : io unit :=
  cache ← write_global;
  r ← io_try (WritableCacheNamespace.get cache now UPDATE_SUMMARY_CACHE_KEY);
  let cache_content := summary_or_default r in
  WritableCacheNamespace.set cache now UPDATE_SUMMARY_CACHE_KEY (insert_node remote node node_data cache_content).

Section handlers.
Context {C : Type} `{SectionConfigData C Remote}.

Definition get_available_updates_summary (now : Z) (config : result error C) : io UpdateSummary :=
  config ← io_lift config;
  cache_content ← get_cached_summary_or_default now;
  mret (mkSummary (foldl (λ remotes '(remote_name, remote),
                            <[remote_name := default (unknown_summary remote) (us_remotes cache_content !! remote_name)]>
                              remotes)
                     ∅ (sc_iter config))).

Definition get_available_updates_for_remote (now : Z) (config : result error C) (remote : string)
    : io RemoteUpdateSummary :=
  config ← io_lift config;
  match sc_get config remote with
  | Some remote =>
      cache_content ← get_cached_summary_or_default now;
      mret (default (unknown_summary remote) (us_remotes cache_content !! rm_id remote))
  | None => io_fail (EMsg ("no such remote '" +:+ remote +:+ "'"))
  end.

(** [get_updates] of [api/pve/mod.rs] *)
Definition get_updates (now : Z) (config : result error C) (remote : string) : io RemoteUpdateSummary :=
  get_available_updates_for_remote now config remote.

(** [update_summary] of [api/remotes/updates.rs] *)
Definition update_summary (now : Z) (u : user) (config : result error C) : io UpdateSummary :=
  any ← io_lift (any_privs_below u ["resource"%string] PRIV_RESOURCE_MODIFY);
  if negb any then io_fail (EMsg "user has no access to resources") else
  summary ← get_available_updates_summary now config;
  mret (mkSummary (filter (λ '(remote_name, _), may_modify u remote_name = true) (us_remotes summary))).
End handlers.

(** ** Refreshing *)

Section refresh.
Context (env : updates_env).

(** [list_available_updates]: the updates, and the task that is spawned to update
    the cache. *)
Definition list_available_updates (now : Z) (remote : Remote) (node : string)
    : result error (list APTUpdateInfo * io unit) :=
  updates ← fetch_available_updates env remote node;
  let summary := node_summary updates in
  Ok (nui_updates updates,
      _ ← io_try (update_cached_summary_for_node now remote node summary); mret tt).

(** What happens under the lock of the namespace before the last pass: a node
    answered and its result is stored, or another task does something. *)
Inductive section : Type :=
| NodeAnswered (now : Z) (remote : Remote) (node : string)
| OtherTask (c : io unit).

Definition run_section (s : section) : io unit :=
  match s with
  | NodeAnswered now remote node =>
      let result := fetch_available_updates env remote node in
      _ ← io_try (update_cached_summary_for_node now remote node (result_summary result)); mret tt
  | OtherTask c => _ ← io_try c; mret tt
  end.

Definition retain_remotes (fetch_response : list (RemoteResponse (MultipleNodesResponse NodeUpdateInfo)))
    (content : UpdateSummary) : UpdateSummary :=
  mkSummary (filter (λ '(remote, _), existsb (λ r, String.eqb (resp_remote r) remote) fetch_response = true)
               (us_remotes content)).

(** One round of the last loop: the summary of one remote. *)
Definition response_entry (content : UpdateSummary) (remote_response : RemoteResponse (MultipleNodesResponse NodeUpdateInfo))
    : RemoteUpdateSummary :=
  let e := remote_entry content (resp_remote remote_response) (resp_remote_type remote_response) in
  match resp_response remote_response with
  | Ok node_responses =>
      let nodes := filter (λ '(name, _), existsb (λ n, String.eqb (nresp_node_name n) name) node_responses = true)
                     (rus_nodes e) in
      mkRemoteSummary (foldl (λ nodes n, <[nresp_node_name n := result_summary (nresp_data n)]> nodes) nodes node_responses)
        (rus_remote_type e) UpdSuccess None
  | Err err => mkRemoteSummary ∅ (rus_remote_type e) UpdError (Some (alternate_text err))
  end.
Definition apply_response (content : UpdateSummary) (remote_response : RemoteResponse (MultipleNodesResponse NodeUpdateInfo))
    : UpdateSummary :=
  mkSummary (<[resp_remote remote_response := response_entry content remote_response]> (us_remotes content)).

Definition final_content (fetch_response : list (RemoteResponse (MultipleNodesResponse NodeUpdateInfo)))
    (content : UpdateSummary) : UpdateSummary :=
  foldl apply_response (retain_remotes fetch_response content) fetch_response.

(** [cleanup_old_cachefile]: a failure to remove the file is only logged. *)
Definition OLD_CACHEFILE : string := "/var/cache/proxmox-datacenter-manager/remote-updates.json".
Definition cleanup_old_cachefile : io unit := _ ← io_try (fs_remove OLD_CACHEFILE); mret tt.

Definition final_pass (now : Z) (fetch_response : list (RemoteResponse (MultipleNodesResponse NodeUpdateInfo))) : io unit :=
  cache ← write_global;
  r ← io_try (WritableCacheNamespace.get cache now UPDATE_SUMMARY_CACHE_KEY);
  _ ← WritableCacheNamespace.set cache now UPDATE_SUMMARY_CACHE_KEY (final_content fetch_response (summary_or_default r));
  cleanup_old_cachefile.

Definition fetch_updates (remotes : list Remote) : list (RemoteResponse (MultipleNodesResponse NodeUpdateInfo)) :=
  do_for_all_remote_nodes (ue_list_nodes env) (λ remote node, Some (fetch_available_updates env remote node))
    DEFAULT_MAX_CONNECTIONS DEFAULT_MAX_CONNECTIONS_PER_REMOTE (ue_schedule env) remotes.

Definition refresh_update_summary_cache (now : Z) (sections : list section) (remotes : list Remote) : io unit :=
  _ ← io_for run_section sections;
  final_pass now (fetch_updates remotes).

(** [refresh_remote_update_summaries]: the remotes the worker is started with. *)
Definition all_privs (u : user) (privs : Z) (remotes : list (string * Remote)) : list (string * Remote) :=
  List.filter (λ '(name, _), Z.land (lookup_privs u ["resource"%string; name]) privs =? privs) remotes.

Definition refresh_remote_update_summaries {C} `{SectionConfigData C Remote} (now : Z) (u : user) (config : result error C)
    (sections : list section) : io unit :=
  any ← io_lift (any_privs_below u ["resource"%string] PRIV_RESOURCE_MODIFY);
  if negb any then io_fail (EMsg "user has no access to resources") else
  config ← io_lift config;
  refresh_update_summary_cache now sections (all_privs u PRIV_RESOURCE_MODIFY (sc_iter config)).*2.

(** [RemoteUpdateRefreshTask::refresh] *)
Definition refresh_task {C} `{SectionConfigData C Remote} (now : Z) (config : result error C) (sections : list section)
    : io unit :=
  _ ← io_try (config ← io_lift config; refresh_update_summary_cache now sections (sc_iter config).*2);
  mret tt.
End refresh.
End cache.
End updates.

(** ** The content of the cache file *)

Section facts.
Context `{AptTypes} `{ErrorText} `{SafeIdLaws} `{EntryCodec UpdateSummary, !EntryCodecLaws UpdateSummary}.

Definition summary_path : string := get_path GLOBAL_NAMESPACE UPDATE_SUMMARY_CACHE_KEY.

(** What is read from the cache file, whatever is in it. *)
Definition cached_content (m : gmap string string) : UpdateSummary :=
  match m !! summary_path with
  | Some s =>
      if utf8_valid s then match entry_of_json s with Some e => entry_value e | None => default_summary end
      else default_summary
  | None => default_summary
  end.

Context (Hns : SAFE_ID_REGEX GLOBAL_NAMESPACE = true) (Hkey : SAFE_ID_REGEX UPDATE_SUMMARY_CACHE_KEY = true).
Context (Hser : ∀ e : CacheEntry UpdateSummary, is_Some (entry_to_json e)).

Lemma get_content now m :
  ∃ r, io_try (get_impl now GLOBAL_NAMESPACE UPDATE_SUMMARY_CACHE_KEY None) (World m []) = (Ok r, World m []) ∧
       summary_or_default r = cached_content m.
Proof.
  unfold get_impl, cached_content, io_try, summary_path. rewrite (bind_ensure_key _ _ _ Hkey). rewrite bool_decide_false by done.
  unfold get_from_path, file_read_optional_string, fs_open. rewrite !io_bind_run, prim_quiet. cbv beta iota.
  destruct (m !! _) as [s|]; [|by eexists]. destruct (utf8_valid s); [|by eexists]. cbn.
  destruct (entry_of_json s) as [e|]; cbn; by eexists.
Qed.

Lemma write_global_run m :
  ∃ m', write_global (World m []) = (Ok (mkWritable GLOBAL_NAMESPACE), World m' []) ∧ cached_content m' = cached_content m.
Proof.
  destruct (write_run_quiet m _ Hns) as (m' & Hrun & Hm). exists m'. split; [exact Hrun|].
  unfold cached_content. rewrite Hm; [done|]. by apply get_path_not_lockfile.
Qed.

Lemma read_global_run m :
  ∃ m', read_global (World m []) = (Ok (mkReadable GLOBAL_NAMESPACE), World m' []) ∧ cached_content m' = cached_content m.
Proof.
  destruct (read_run_quiet m _ Hns) as (m' & Hrun & Hm). exists m'. split; [exact Hrun|].
  unfold cached_content. rewrite Hm; [done|]. by apply get_path_not_lockfile.
Qed.

(** Replacing the content under the lock. *)
Lemma set_content_run now m content :
  ∃ m', set_impl (mkWritable GLOBAL_NAMESPACE) UPDATE_SUMMARY_CACHE_KEY content now (World m []) = (Ok tt, World m' []) ∧
        cached_content m' = content.
Proof.
  destruct (Hser (mkCacheEntry now content)) as [s Hs]. exists (<[summary_path := s]> m). split.
  - unfold set_impl. rewrite (bind_ensure_key _ _ _ Hkey). by rewrite (set_at_path_quiet _ _ _ _ _ s).
  - unfold cached_content. rewrite lookup_insert_eq, (entry_json_utf8 _ _ Hs), (entry_json_roundtrip _ _ Hs). done.
Qed.

Lemma get_summary_run now m :
  ∃ m', get_cached_summary_or_default now (World m []) = (Ok (cached_content m), World m' []) ∧
        cached_content m' = cached_content m.
Proof.
  unfold get_cached_summary_or_default. destruct (read_global_run m) as (m' & Hrun & Hc).
  rewrite io_bind_run, Hrun, io_bind_run. unfold ReadableCacheNamespace.get. cbn [ri_namespace].
  destruct (get_content now m') as (r & -> & Hr). exists m'. by rewrite Hr, Hc.
Qed.

Lemma update_node_run now remote node data m :
  ∃ m', update_cached_summary_for_node now remote node data (World m []) = (Ok tt, World m' []) ∧
        cached_content m' = insert_node remote node data (cached_content m).
Proof.
  unfold update_cached_summary_for_node. destruct (write_global_run m) as (m1 & Hrun & Hc1).
  rewrite io_bind_run, Hrun, io_bind_run. unfold WritableCacheNamespace.get. cbn [wi_namespace].
  destruct (get_content now m1) as (r & -> & Hr). rewrite Hr, Hc1. apply set_content_run.
Qed.

Lemma final_pass_run now resps m :
  ∃ m', final_pass now resps (World m []) = (Ok tt, World m' []) ∧
        cached_content m' = final_content resps (cached_content m).
Proof.
  unfold final_pass. destruct (write_global_run m) as (m1 & Hrun & Hc1).
  rewrite io_bind_run, Hrun, io_bind_run. unfold WritableCacheNamespace.get. cbn [wi_namespace].
  destruct (get_content now m1) as (r & -> & Hr). rewrite Hr, Hc1, io_bind_run.
  destruct (set_content_run now m1 (final_content resps (cached_content m))) as (m2 & Hset & Hc2).
  unfold WritableCacheNamespace.set. rewrite Hset. unfold cleanup_old_cachefile, fs_remove, io_try.
  rewrite io_bind_run, prim_quiet. destruct (m2 !! OLD_CACHEFILE); eexists; (split; [reflexivity|]); [|done].
  rewrite <-Hc2. unfold cached_content. by rewrite lookup_delete_ne.
Qed.

(** ** The last pass *)

Lemma existsb_in {A} (key : A → string) (l : list A) k :
  existsb (λ x, String.eqb (key x) k) l = true ↔ k ∈ key <$> l.
Proof.
  rewrite existsb_exists, list_elem_of_fmap. split.
  - intros (x&Hin&Heq%String.eqb_eq). exists x. split; [done|]. by apply list_elem_of_In.
  - intros (x&->&Hin). exists x. split; [by apply list_elem_of_In|]. apply String.eqb_refl.
Qed.

(** The entries of a response replace what was cached for its remote. *)
Lemma final_nodes (f : string → result error NodeUpdateInfo) rs (nodes : gmap string NodeUpdateSummary) n :
  Forall (λ x, nresp_data x = f (nresp_node_name x)) rs →
  foldl (λ nodes x, <[nresp_node_name x := result_summary (nresp_data x)]> nodes)
    (filter (λ '(name, _), existsb (λ n, String.eqb (nresp_node_name n) name) rs = true) nodes) rs !! n =
  if decide (n ∈ nresp_node_name <$> rs) then Some (result_summary (f n)) else None.
Proof.
  intros Hf.
  assert (∀ acc : gmap string NodeUpdateSummary, foldl (λ nodes x, <[nresp_node_name x := result_summary (nresp_data x)]> nodes) acc rs !! n =
                 if decide (n ∈ nresp_node_name <$> rs) then Some (result_summary (f n)) else acc !! n) as Hfold.
  { clear nodes. induction Hf as [|x rs Hx Hf IH]; intros acc; simpl; [done|]. rewrite IH, lookup_insert, Hx.
    repeat case_decide; try done; subst; set_solver. }
  rewrite Hfold. case_decide as Hin; [done|]. apply map_lookup_filter_None_2. right.
  intros x Hx Hex. apply Hin. by apply existsb_in.
Qed.

Lemma foldl_apply_response resps content :
  NoDup (resp_remote <$> resps) →
  (∀ r, r ∈ resps → us_remotes (foldl apply_response content resps) !! resp_remote r = Some (response_entry content r)) ∧
  (∀ id, id ∉ resp_remote <$> resps → us_remotes (foldl apply_response content resps) !! id = us_remotes content !! id).
Proof.
  induction resps as [|x resps IH] in content |- *; simpl; [intros _; split; [set_solver|done]|].
  intros [Hx Hnd]%NoDup_cons. destruct (IH (apply_response content x) Hnd) as [Hin Hout]. split.
  - intros r [->|Hr]%elem_of_cons.
    + rewrite Hout by done. apply lookup_insert_eq.
    + rewrite (Hin r Hr). unfold response_entry, remote_entry, apply_response. cbn [us_remotes].
      rewrite lookup_insert_ne; [done|]. intros Heq. apply Hx. rewrite Heq. by apply list_elem_of_fmap_2.
  - intros id [Hne Hid]%not_elem_of_cons. rewrite (Hout id Hid). by apply lookup_insert_ne.
Qed.

(** The last pass leaves the remotes that were asked, and only those. *)
Lemma final_content_spec resps content :
  NoDup (resp_remote <$> resps) →
  (∀ r, r ∈ resps → us_remotes (final_content resps content) !! resp_remote r = Some (response_entry content r)) ∧
  (∀ id, id ∉ resp_remote <$> resps → us_remotes (final_content resps content) !! id = None).
Proof.
  intros Hnd. destruct (foldl_apply_response resps (retain_remotes resps content) Hnd) as [Hin Hout].
  unfold final_content. split.
  - intros r Hr. rewrite (Hin r Hr). unfold response_entry, remote_entry, retain_remotes. cbn [us_remotes].
    assert (∀ m : gmap string RemoteUpdateSummary,
              filter (λ '(remote, _), existsb (λ r, String.eqb (resp_remote r) remote) resps = true) m
                !! resp_remote r = m !! resp_remote r) as ->; [|done].
    intros m. destruct (m !! resp_remote r) as [e|] eqn:E.
    + apply map_lookup_filter_Some. split; [done|]. apply existsb_in. by apply list_elem_of_fmap_2.
    + apply map_lookup_filter_None. by left.
  - intros id Hid. rewrite (Hout id Hid). unfold retain_remotes. cbn [us_remotes].
    apply map_lookup_filter_None. right. intros e _ Hex. apply Hid. by apply existsb_in.
Qed.

Section refresh.
Context (env : updates_env).

(** What another task does under the lock; it may fail. *)
Definition section_ok (s : section) : Prop :=
  match s with
  | NodeAnswered _ _ _ => True
  | OtherTask c => ∀ m, ∃ r m', c (World m []) = (r, World m' [])
  end.

Lemma run_section_ok s m : section_ok s → ∃ m', run_section env s (World m []) = (Ok tt, World m' []).
Proof.
  destruct s as [now remote node|c]; simpl; intros Hs.
  - destruct (update_node_run now remote node (result_summary (fetch_available_updates env remote node)) m) as (m'&Hrun&_).
    exists m'. unfold io_try. by rewrite io_bind_run, Hrun.
  - destruct (Hs m) as (r&m'&Hrun). exists m'. unfold io_try. by rewrite io_bind_run, Hrun.
Qed.

Lemma run_sections_ok ss m :
  Forall section_ok ss → ∃ m', io_for (run_section env) ss (World m []) = (Ok tt, World m' []).
Proof.
  intros Hss. revert m. induction Hss as [|s ss Hs Hss IH]; intros m; simpl; [by exists m|].
  destruct (run_section_ok s m Hs) as (m1&Hrun). rewrite io_bind_run, Hrun. apply IH.
Qed.

(** The answer of a remote in the result of the fetcher. *)
Lemma fetch_updates_responses remotes :
  NoDup (rm_id <$> remotes) →
  NoDup (resp_remote <$> fetch_updates env remotes) ∧
  (∀ id, id ∈ resp_remote <$> fetch_updates env remotes ↔
     ∃ r, r ∈ remotes ∧ rm_id r = id ∧ nodes_of (ue_list_nodes env) r ≠ None) ∧
  ∀ r a, r ∈ remotes → nodes_of (ue_list_nodes env) r = Some a →
    ∃ resp : RemoteResponse (MultipleNodesResponse NodeUpdateInfo), resp ∈ fetch_updates env remotes ∧ resp_remote resp = rm_id r ∧ resp_remote_type resp = rm_ty r ∧
      match a with
      | Err e => resp_response resp = Err e
      | Ok nodes => ∃ rs, resp_response resp = Ok rs ∧ nresp_node_name <$> rs ≡ₚ nodes ∧
                     Forall (λ x, nresp_data x = fetch_available_updates env r (nresp_node_name x)) rs
      end.
Proof.
  intros Hnd. unfold fetch_updates.
  destruct (do_for_all_remote_nodes_outcomes (ue_list_nodes env)
              (λ remote node, Some (fetch_available_updates env remote node))
              DEFAULT_MAX_CONNECTIONS DEFAULT_MAX_CONNECTIONS_PER_REMOTE
              ltac:(unfold DEFAULT_MAX_CONNECTIONS_PER_REMOTE; lia) ltac:(unfold DEFAULT_MAX_CONNECTIONS; lia)
              (ue_schedule env) remotes) as (os&Ha&Hp).
  set (resps := do_for_all_remote_nodes _ _ _ _ _ _) in *. clearbody resps.
  assert (∀ nodes r, omap (M := list) (fetch_node (λ remote node, Some (fetch_available_updates env remote node)) r) nodes =
            (λ n, mkNodeResponse n (fetch_available_updates env r n)) <$> nodes) as Homap.
  { intros nodes r. induction nodes as [|n nodes IH]; [done|]. rewrite fmap_cons, <-IH. done. }
  (** no request panics *)
  assert (∀ r o nodes, answers (ue_list_nodes env) (λ remote node, Some (fetch_available_updates env remote node)) r o →
            nodes_of (ue_list_nodes env) r = Some (Ok nodes) →
            ∃ rs, o = response_of r (Ok rs) ∧ rs ≡ₚ (λ n, mkNodeResponse n (fetch_available_updates env r n)) <$> nodes) as Hok.
  { intros r o nodes Hr Hn. destruct (answers_nodes _ _ _ _ _ Hr Hn) as [(rs&->&Hperm)|(_&_&n&_&Hbad)]; [|done].
    exists rs. by rewrite <-Homap. }
  assert (resp_remote <$> omap (M := list) id os =
          rm_id <$> filter (λ r, nodes_of (ue_list_nodes env) r ≠ None) remotes) as Hids.
  { clear Hnd Hp. induction Ha as [|r o remotes os Hr Ha IH]; simpl; [done|]. rewrite filter_cons.
    case_decide as Hn; destruct (nodes_of _ r) as [[nodes|e]|] eqn:Hnodes; try done;
      [destruct (Hok r o nodes Hr Hnodes) as (rs&->&_)|unfold answers in Hr; rewrite Hnodes in Hr; subst o..]; try done.
    all: simpl; by f_equal. }
  split_and!.
  - rewrite Hp, Hids. eapply sublist_NoDup; [exact Hnd|]. by apply fmap_sublist, sublist_filter.
  - intros id. rewrite Hp, Hids, list_elem_of_fmap. setoid_rewrite list_elem_of_filter. naive_solver.
  - intros r a Hr Hnodes. apply list_elem_of_lookup_1 in Hr as [i Hr].
    destruct (Forall2_lookup_l _ _ _ _ _ Ha Hr) as (o&Ho&Hans).
    setoid_rewrite Hp. destruct a as [nodes|e].
    + destruct (Hok r o nodes Hans Hnodes) as (rs&->&Hperm).
      eexists. split; [apply list_elem_of_omap; eexists; split; [by eapply list_elem_of_lookup_2|done]|].
      split_and!; [done|done|]. exists rs. split_and!; [done| |].
      * rewrite Hperm, <-list_fmap_compose. simpl. by rewrite list_fmap_id.
      * rewrite Hperm. apply Forall_forall. intros x (n&->&_)%list_elem_of_fmap. done.
    + unfold answers in Hans. rewrite Hnodes in Hans. subst o. eexists. split; [apply list_elem_of_omap; eexists; split; [by eapply list_elem_of_lookup_2|done]|]. done.
Qed.

(** The last pass, in terms of what the nodes answered. *)
Lemma final_content_answers remotes content :
  NoDup (rm_id <$> remotes) →
  let final := us_remotes (final_content (fetch_updates env remotes) content) in
  (∀ id, id ∉ rm_id <$> remotes → final !! id = None) ∧
  ∀ r, r ∈ remotes →
    match nodes_of (ue_list_nodes env) r with
    | None => final !! rm_id r = None
    | Some (Err e) =>
        final !! rm_id r = Some (mkRemoteSummary ∅ (rus_remote_type (remote_entry content (rm_id r) (rm_ty r)))
                                   UpdError (Some (alternate_text e)))
    | Some (Ok nodes) =>
        ∃ found, final !! rm_id r = Some (mkRemoteSummary found (rus_remote_type (remote_entry content (rm_id r) (rm_ty r)))
                                            UpdSuccess None) ∧
          ∀ n, found !! n = if decide (n ∈ nodes) then Some (result_summary (fetch_available_updates env r n)) else None
    end.
Proof.
  intros Hnd final. destruct (fetch_updates_responses remotes Hnd) as (Hndr&Hids&Hans).
  destruct (final_content_spec (fetch_updates env remotes) content Hndr) as [Hin Hout]. split.
  - intros id Hid. apply Hout. rewrite Hids. intros (r&Hr&<-&_). apply Hid. by apply list_elem_of_fmap_2.
  - intros r Hr. destruct (nodes_of (ue_list_nodes env) r) as [a|] eqn:Hnodes.
    + destruct (Hans r a Hr Hnodes) as (resp&Hresp&Hid&Hty&Ha). specialize (Hin resp Hresp).
      unfold response_entry in Hin. rewrite Hid, Hty in Hin. destruct a as [nodes|e].
      * destruct Ha as (rs&Hrs&Hperm&Hf). rewrite Hrs in Hin. eexists. split; [exact Hin|]. intros n.
        rewrite (final_nodes _ _ _ _ Hf). repeat case_decide; rewrite ->Hperm in *; done.
      * rewrite Ha in Hin. exact Hin.
    + apply Hout. rewrite Hids. intros (r'&Hr'&Heq&Hne). apply Hne.
      assert (r' = r) as ->; [|done].
      apply list_elem_of_lookup_1 in Hr as [i Hi]. apply list_elem_of_lookup_1 in Hr' as [j Hj].
      assert (i = j) as ->; [|congruence].
      apply (NoDup_lookup _ _ _ (rm_id r) Hnd); rewrite list_lookup_fmap, ?Hi, ?Hj; simpl; congruence.
Qed.

Lemma refresh_run now ss remotes m :
  Forall section_ok ss →
  ∃ content m', refresh_update_summary_cache env now ss remotes (World m []) = (Ok tt, World m' []) ∧
    cached_content m' = final_content (fetch_updates env remotes) content.
Proof.
  intros Hss. destruct (run_sections_ok ss m Hss) as (m1&Hrun). unfold refresh_update_summary_cache.
  rewrite io_bind_run, Hrun. destruct (final_pass_run now (fetch_updates env remotes) m1) as (m2&->&Hc). eauto.
Qed.

(** C24: After a refresh without I/O faults the cached summary is what the remotes
    answered, whatever was cached before (also if the file was damaged), in whatever
    order the nodes answered and stored their results, and whatever other tasks did
    in between: a remote that was not asked has no entry; a remote whose nodes could
    not be listed has the error and no nodes; and one that answered has exactly its
    nodes, each with its updates or its own error. *)
Theorem refresh_replaces_summary now ss remotes m :
  NoDup (rm_id <$> remotes) → Forall section_ok ss →
  ∃ m', refresh_update_summary_cache env now ss remotes (World m []) = (Ok tt, World m' []) ∧
    (∀ id, id ∉ rm_id <$> remotes → us_remotes (cached_content m') !! id = None) ∧
    ∀ r, r ∈ remotes →
      match nodes_of (ue_list_nodes env) r, us_remotes (cached_content m') !! rm_id r with
      | None, o => o = None
      | Some _, None => False
      | Some (Err e), Some s =>
          rus_status s = UpdError ∧ rus_status_message s = Some (alternate_text e) ∧ rus_nodes s = ∅
      | Some (Ok nodes), Some s =>
          rus_status s = UpdSuccess ∧ rus_status_message s = None ∧
          ∀ n, rus_nodes s !! n = if decide (n ∈ nodes) then Some (result_summary (fetch_available_updates env r n)) else None
      end.
Proof.
  intros Hnd Hss. destruct (refresh_run now ss remotes m Hss) as (content&m'&Hrun&Hc). exists m'. split; [exact Hrun|].
  rewrite Hc. destruct (final_content_answers remotes content Hnd) as [Hout Hin]. split; [exact Hout|].
  intros r Hr. specialize (Hin r Hr). destruct (nodes_of _ r) as [[nodes|e]|].
  - destruct Hin as (found&->&Hfound). done.
  - by rewrite Hin.
  - exact Hin.
Qed.

(** The result of a node is stored when it arrives: it replaces what was cached
    for this node, and everything else is kept. *)
Theorem node_result_stored now remote node m :
  ∃ m', run_section env (NodeAnswered now remote node) (World m []) = (Ok tt, World m' []) ∧
    (∀ id, id ≠ rm_id remote → us_remotes (cached_content m') !! id = us_remotes (cached_content m) !! id) ∧
    ∃ s, us_remotes (cached_content m') !! rm_id remote = Some s ∧
      rus_nodes s !! node = Some (result_summary (fetch_available_updates env remote node)) ∧
      let old := remote_entry (cached_content m) (rm_id remote) (rm_ty remote) in
      (∀ n, n ≠ node → rus_nodes s !! n = rus_nodes old !! n) ∧ rus_status s = rus_status old.
Proof.
  destruct (update_node_run now remote node (result_summary (fetch_available_updates env remote node)) m) as (m'&Hrun&Hc).
  exists m'. split; [|split].
  - simpl. unfold io_try. by rewrite io_bind_run, Hrun.
  - intros id Hid. rewrite Hc. by apply lookup_insert_ne.
  - eexists. split; [rewrite Hc; apply lookup_insert_eq|]. simpl. split_and!; [apply lookup_insert_eq| |done].
    intros n Hn. by apply lookup_insert_ne.
Qed.

(** *** The handlers *)

Section handlers.
Context {C : Type} `{SectionConfigData C Remote, !SectionConfigLaws C Remote}.

Lemma summary_lookup content l id :
  NoDup l.*1 →
  foldl (λ remotes '(remote_name, remote),
           <[remote_name := default (unknown_summary remote) (us_remotes content !! remote_name)]> remotes)
    (∅ : gmap string RemoteUpdateSummary) l !! id =
  (λ '(_, remote), default (unknown_summary remote) (us_remotes content !! id)) <$> List.find (λ '(k, _), String.eqb k id) l.
Proof.
  enough (∀ acc : gmap string RemoteUpdateSummary, NoDup l.*1 →
    foldl (λ remotes '(remote_name, remote),
           <[remote_name := default (unknown_summary remote) (us_remotes content !! remote_name)]> remotes) acc l !! id =
    match List.find (λ '(k, _), String.eqb k id) l with
    | Some (_, remote) => Some (default (unknown_summary remote) (us_remotes content !! id))
    | None => acc !! id
    end) as Hgen.
  { intros Hnd. rewrite (Hgen ∅ Hnd), lookup_empty. by destruct (List.find _ l) as [[]|]. }
  induction l as [|[k r] l IH]; intros acc Hnd; simpl; [done|]. inversion Hnd as [|?? Hk Hnd']; subst. rewrite IH by done.
  destruct (String.eqb_spec k id) as [->|Hne]; [|destruct (List.find _ l) as [[]|]; [done|by apply lookup_insert_ne]].
  destruct (List.find (λ '(k0, _), String.eqb k0 id) l) as [[k' r']|] eqn:Hf; [|apply lookup_insert_eq].
  apply find_some in Hf as [Hf ->%String.eqb_eq]. exfalso. apply Hk.
  apply list_elem_of_In in Hf. by apply (list_elem_of_fmap_2 fst) in Hf.
Qed.

Lemma find_config_id (config : C) id : List.find (λ '(k, _), String.eqb k id) (sc_iter config) = pair id <$> sc_get config id.
Proof.
  destruct (List.find _ _) as [[k r]|] eqn:Hf.
  - apply find_some in Hf as [Hf ->%String.eqb_eq]. apply list_elem_of_In, sc_iter_get in Hf. by rewrite Hf.
  - destruct (sc_get config id) as [r|] eqn:Hg; [|done]. apply sc_iter_get, list_elem_of_In in Hg.
    pose proof (find_none _ _ Hf _ Hg) as Hn. simpl in Hn. by rewrite String.eqb_refl in Hn.
Qed.

(** The summary has exactly the configured remotes that the caller may modify:
    each with its cached entry, or as unknown if there is none.  A damaged cache
    file does not make the request fail. *)
Theorem update_summary_spec now u (config : C) m :
  any_privs_below u ["resource"%string] PRIV_RESOURCE_MODIFY = Ok true →
  ∃ s m', update_summary now u (Ok config) (World m []) = (Ok s, World m' []) ∧
    cached_content m' = cached_content m ∧
    ∀ id, us_remotes s !! id =
      match sc_get config id with
      | Some remote => if may_modify u id then Some (default (unknown_summary remote) (us_remotes (cached_content m) !! id))
                       else None
      | None => None
      end.
Proof.
  intros Hu. unfold update_summary, get_available_updates_summary. rewrite Hu.
  destruct (get_summary_run now m) as (m'&Hrun&Hc).
  eexists _, m'. split; [|split; [exact Hc|]].
  - rewrite io_bind_run. cbn [io_lift negb]. rewrite !io_bind_run. cbn [io_lift]. rewrite io_bind_run, Hrun. reflexivity.
  - intros id. cbn [us_remotes]. rewrite map_lookup_filter, summary_lookup by apply sc_iter_NoDup.
    rewrite find_config_id. destruct (sc_get config id) as [r|]; simpl; [|done]. by destruct (may_modify u id).
Qed.

Lemma all_privs_sublist u privs l : all_privs u privs l `sublist_of` l.
Proof.
  unfold all_privs. induction l as [|[k r] l IH]; simpl; [done|].
  destruct (_ =? _); [by apply sublist_skip|by apply sublist_cons].
Qed.

(** A refresh started by a user with privileges on some remotes only makes the
    summary forget all other remotes, although they are configured. *)
Theorem restricted_refresh_forgets now u (config : C) ss m :
  any_privs_below u ["resource"%string] PRIV_RESOURCE_MODIFY = Ok true →
  (∀ id r, sc_get config id = Some r → rm_id r = id) → Forall section_ok ss →
  ∃ m', refresh_remote_update_summaries env now u (Ok config) ss (World m []) = (Ok tt, World m' []) ∧
    ∀ id, Z.land (lookup_privs u ["resource"%string; id]) PRIV_RESOURCE_MODIFY ≠ PRIV_RESOURCE_MODIFY →
      us_remotes (cached_content m') !! id = None.
Proof.
  intros Hu Hids Hss. unfold refresh_remote_update_summaries. rewrite Hu, io_bind_run. cbn [io_lift negb].
  rewrite io_bind_run. cbn [io_lift].
  assert (Forall (λ x, rm_id x.2 = x.1) (all_privs u PRIV_RESOURCE_MODIFY (sc_iter config))) as Hkeys.
  { apply Forall_forall. intros [k r] Hin%list_elem_of_In. apply filter_In in Hin as [Hin _].
    apply list_elem_of_In, sc_iter_get in Hin. by apply Hids. }
  assert (rm_id <$> (all_privs u PRIV_RESOURCE_MODIFY (sc_iter config)).*2 =
          (all_privs u PRIV_RESOURCE_MODIFY (sc_iter config)).*1) as Heq.
  { induction Hkeys as [|x l Hx Hl IH]; [done|]. rewrite !fmap_cons, IH. by f_equal. }
  destruct (refresh_run now ss (all_privs u PRIV_RESOURCE_MODIFY (sc_iter config)).*2 m Hss) as (content&m'&->&Hc).
  exists m'. split; [done|]. intros id Hid. rewrite Hc. apply final_content_answers; rewrite Heq.
  - eapply sublist_NoDup; [apply (sc_iter_NoDup config)|]. apply fmap_sublist, all_privs_sublist.
  - intros ([k r]&->&Hin)%list_elem_of_fmap. apply list_elem_of_In, filter_In in Hin as [_ Hp]. simpl in Hid.
    apply Z.eqb_eq in Hp. done.
Qed.
End handlers.
End refresh.
End facts.

(** *** The status of the repositories *)

(** The status of the repositories by its conditions, and a subscription never
    makes it more severe. *)
Theorem check_repository_status_spec `{AptTypes} (config : APTRepositoriesResult) (active : bool) :
  let s := from_repos (rr_standard_repos config) in
  let product := has_enterprise s || has_no_subscription s || has_test s in
  let enterprise := has_enterprise s || has_ceph_enterprise s in
  let testing := has_test s || has_no_subscription s || has_ceph_no_subscription s || has_ceph_test s in
  (check_repository_status config active = ProductRepositoryStatus.Ok_ ↔
     rr_errors config = [] ∧ has_enterprise s = true ∧ active = true ∧ testing = false) ∧
  (check_repository_status config active = ProductRepositoryStatus.Error ↔ rr_errors config ≠ []) ∧
  (check_repository_status config active = ProductRepositoryStatus.NoProductRepository ↔
     rr_errors config = [] ∧ product = false) ∧
  (check_repository_status config active = ProductRepositoryStatus.MissingSubscriptionForEnterprise ↔
     rr_errors config = [] ∧ product = true ∧ enterprise = true ∧ active = false) ∧
  ProductRepositoryStatus.severity (check_repository_status config true) ≤
  ProductRepositoryStatus.severity (check_repository_status config active).
Proof.
  unfold check_repository_status. case_bool_decide as He; simpl.
  - destruct (from_repos (rr_standard_repos config)) as [[] [] [] [] [] []], active; simpl;
      split_and!; try lia; naive_solver.
  - split_and!; try lia; naive_solver.
Qed.

(** ** Witnesses *)

Module UpdatesDemo.
#[local] Existing Instance safe_id_regex_impl.
#[local] Existing Instance safe_id_impl_laws.

(** A repository is the name of its channel. *)
#[local] Instance apt : AptTypes := {|
  APTStandardRepository := string;
  from_repos l := let has c := existsb (String.eqb c) l in
    mkRepoSummary (has "enterprise"%string) (has "no-subscription"%string) (has "test"%string)
      (has "ceph-enterprise"%string) (has "ceph-no-subscription"%string) (has "ceph-test"%string);
  PveArch := string; arch_to_string a := a;
|}.
#[local] Instance texts : ErrorText := λ e, match e with EMsg s => s | _ => "I/O error"%string end.

#[local] Instance version_eq_dec : EqDecision PackageVersion.
Proof. solve_decision. Defined.
#[local] Instance version_countable : Countable PackageVersion.
Proof. refine (inj_countable' (λ v, (pv_package v, pv_version v)) (λ '(p, v), mkVersion p v) _). by intros []. Defined.
#[local] Instance repo_status_eq_dec : EqDecision ProductRepositoryStatus.t.
Proof. solve_decision. Defined.
#[local] Instance repo_status_countable : Countable ProductRepositoryStatus.t.
Proof.
  refine (inj_countable' (λ s, match s with
            | ProductRepositoryStatus.Ok_ => Some (Some (Some (Some ()))) | ProductRepositoryStatus.NonProductionReady => Some (Some (Some None))
            | ProductRepositoryStatus.MissingSubscriptionForEnterprise => Some (Some None)
            | ProductRepositoryStatus.NoProductRepository => Some None | ProductRepositoryStatus.Error => None end)
    (λ o, match o with
          | Some (Some (Some (Some _))) => ProductRepositoryStatus.Ok_ | Some (Some (Some None)) => ProductRepositoryStatus.NonProductionReady
          | Some (Some None) => ProductRepositoryStatus.MissingSubscriptionForEnterprise
          | Some None => ProductRepositoryStatus.NoProductRepository | None => ProductRepositoryStatus.Error end) _). by intros [].
Defined.
#[local] Instance node_status_eq_dec : EqDecision NodeUpdateStatus.
Proof. solve_decision. Defined.
#[local] Instance remote_status_eq_dec : EqDecision RemoteUpdateStatus.
Proof. solve_decision. Defined.
#[local] Instance node_summary_eq_dec : EqDecision NodeUpdateSummary.
Proof. solve_decision. Defined.
#[local] Instance node_summary_countable : Countable NodeUpdateSummary.
Proof.
  refine (inj_countable' (λ n, (nus_number_of_updates n, nus_last_refresh n, match nus_status n with NodeSuccess => true | NodeError => false end,
            nus_status_message n, nus_versions n, nus_repository_status n))
    (λ '(u, r, s, m, v, p), mkNodeSummary u r (if (s : bool) then NodeSuccess else NodeError) m v p) _).
  by intros [? ? [] ? ? ?].
Defined.
#[local] Instance remote_summary_eq_dec : EqDecision RemoteUpdateSummary.
Proof. solve_decision. Defined.
#[local] Instance remote_summary_countable : Countable RemoteUpdateSummary.
Proof.
  refine (inj_countable' (λ s, (rus_nodes s, rus_remote_type s,
            match rus_status s with UpdSuccess => Some true | UpdError => Some false | UpdUnknown => None end, rus_status_message s))
    (λ '(n, ty, s, m), mkRemoteSummary n ty (match s with Some true => UpdSuccess | Some false => UpdError | None => UpdUnknown end) m) _).
  by intros [? ? [] ?].
Defined.
#[local] Instance summary_eq_dec : EqDecision UpdateSummary.
Proof. solve_decision. Defined.
#[local] Instance summary_countable : Countable UpdateSummary.
Proof. refine (inj_countable' us_remotes mkSummary _). by intros []. Defined.
#[local] Instance codec : EntryCodec UpdateSummary := countable_codec.
#[local] Instance codec_laws : EntryCodecLaws UpdateSummary := countable_codec_laws.
#[local] Instance remotes_config : SectionConfigData (gmap string Remote) Remote := gmap_config.
#[local] Instance remotes_laws : SectionConfigLaws (gmap string Remote) Remote := gmap_config_laws.

Definition pve1 : Remote := mkRemote "pve1" RemoteType.Pve.
Definition pbs1 : Remote := mkRemote "pbs1" RemoteType.Pbs.

(** The nodes of [pve1] have one update each, the second cannot be reached; [pbs1]
    has no repository of the product. *)
Definition demo_updates : updates_env := mkUpdatesEnv
  (λ r, Some (Ok ["n1"%string; "n2"%string])) (λ _, Ok tt)
  (λ _ n, if String.eqb n "n2" then Err (EMsg "no route to host")
          else Ok [mkPveUpdateInfo "pve-manager" "" "all" "" "9.1" None "" "" ""])
  (λ _, Ok []) (λ _ _, Ok [mkPackage "pve-manager" (Some "9.0"%string)])
  (λ r _, Ok (mkRepositories [] (if String.eqb (rm_id r) "pve1" then ["enterprise"%string] else [])))
  (λ _ _, Ok true) (λ _ _, 1000) [].

(** The cache file is damaged and two nodes answer before the last pass. *)
Definition damaged : gmap string string := {[summary_path := String (ascii_of_nat 255) ""]}.
Definition arrivals : list section := [NodeAnswered 1000 pve1 "n2"; NodeAnswered 1001 pve1 "n1"; OtherTask fs_sync].

Lemma arrivals_ok : Forall section_ok arrivals.
Proof. repeat constructor. intros m. by exists (Ok tt), m. Qed.

Lemma demo_codec_total (e : CacheEntry UpdateSummary) : is_Some (entry_to_json e).
Proof. by eexists. Qed.

Lemma refresh_replaces_summary_witness :
  ∃ m', refresh_update_summary_cache demo_updates 1002 arrivals [pve1; pbs1] (World damaged []) = (Ok tt, World m' []) ∧
    match us_remotes (cached_content m') !! "pve1"%string with
    | Some s => rus_nodes s !! "n1"%string = Some (mkNodeSummary 1 1000 NodeSuccess None [mkVersion "pve-manager" "9.0"] ProductRepositoryStatus.Ok_) ∧
                rus_nodes s !! "n2"%string = Some (mkNodeSummary 0 0 NodeError (Some "no route to host"%string) [] ProductRepositoryStatus.Error) ∧
                rus_nodes s !! "n3"%string = None
    | None => False
    end.
Proof.
  destruct (refresh_replaces_summary eq_refl eq_refl demo_codec_total demo_updates 1002 arrivals [pve1; pbs1] damaged)
    as (m'&Hrun&_&Hin).
  - apply (bool_decide_unpack _). vm_compute. exact I.
  - exact arrivals_ok.
  - exists m'. split; [exact Hrun|]. specialize (Hin pve1 ltac:(left)). cbn [nodes_of pve1 rm_ty rm_id ue_list_nodes demo_updates] in Hin.
    destruct (us_remotes (cached_content m') !! _) as [s|]; [|done]. destruct Hin as (_&_&Hn). rewrite !Hn. clear. split_and!; vm_compute; reflexivity.
Defined.

(** A user who may modify [pve1] only. *)
Definition pve1_admin : user := {|
  lookup_privs path := if bool_decide (path = ["resource"%string; "pve1"%string]) then PRIV_RESOURCE_MODIFY else 0;
  check_privs path _ := if bool_decide (path = ["resource"%string; "pve1"%string]) then Ok tt else Err (EMsg "no permission");
  any_privs_below _ _ := Ok true;
|}.
Definition both : gmap string Remote := {["pve1"%string := pve1; "pbs1"%string := pbs1]}.

Lemma update_summary_spec_witness :
  ∃ s m', update_summary 1002 pve1_admin (Ok both) (World damaged []) = (Ok s, World m' []) ∧
    us_remotes s !! "pve1"%string = Some (unknown_summary pve1) ∧ us_remotes s !! "pbs1"%string = None.
Proof.
  destruct (update_summary_spec eq_refl eq_refl 1002 pve1_admin both damaged eq_refl) as (s&m'&Hrun&_&Hs).
  exists s, m'. split; [exact Hrun|]. rewrite !Hs. clear. split; vm_compute; reflexivity.
Defined.

Lemma restricted_refresh_forgets_witness :
  ∃ m', refresh_remote_update_summaries demo_updates 1002 pve1_admin (Ok both) arrivals (World damaged []) = (Ok tt, World m' []) ∧
    us_remotes (cached_content m') !! "pbs1"%string = None.
Proof.
  destruct (restricted_refresh_forgets eq_refl eq_refl demo_codec_total demo_updates 1002 pve1_admin both arrivals damaged)
    as (m'&Hrun&Hid).
  - reflexivity.
  - intros id r Hr. unfold both, sc_get, remotes_config, gmap_config in Hr.
    apply lookup_insert_Some in Hr as [[<- <-]|[_ Hr]]; [done|]. by apply lookup_singleton_Some in Hr as [<- <-].
  - exact arrivals_ok.
  - exists m'. split; [exact Hrun|]. apply Hid. clear. vm_compute. discriminate.
Defined.

(** A remote that was removed and configured again with another type keeps the
    type of the old one in the summary. *)
Example refresh_keeps_old_type :
  let content := mkSummary {["pve1"%string := mkRemoteSummary ∅ RemoteType.Pbs UpdSuccess None]} in
  rus_remote_type <$> us_remotes (final_content (fetch_updates demo_updates [pve1]) content) !! "pve1"%string =
  Some RemoteType.Pbs.
Proof. vm_compute. reflexivity. Qed.
End UpdatesDemo.
