(* ===== verification/CephRegistry.v ===== *)
(** * The registry of Ceph clusters

    Model of [lib/pdm-config/src/ceph.rs] (the configuration file), the data of
    [lib/pdm-api-types/src/ceph.rs] it keeps, [server/src/ceph/sweep.rs] (detecting
    clusters on the remotes), [server/src/ceph/registry.rs] (access checks) and
    [server/src/ceph/dispatch.rs] (choosing a member to talk to).

    A probe asks one remote for the status of its Ceph cluster.  The results are
    merged into the registry under the lock of the configuration file; a sweep over
    all remotes also changes the state of clusters that were not found.  Keys of a
    section that the program does not know are kept when the file is written again.

    Not under [src/], hence parameters: the text of a configuration file with two
    types of sections (class [CephSections]), the text of an [Authid], and what the
    remotes answer. *)

From S2P Require Import Prelude FileSystem RemoteUpid SectionConfig ResourceList NamespacedCache RemoteData RemotesConfig JsonValue.

(** ** Data *)

Module CephMemberKind.
Inductive t : Type := Pve | Standalone.
#[global] Instance eq_dec : EqDecision t.
Proof. solve_decision. Defined.
Definition to_string (k : t) : string := match k with Pve => "pve" | Standalone => "standalone" end.
Definition from_str (s : string) : option t :=
  if String.eqb s "pve" then Some Pve else if String.eqb s "standalone" then Some Standalone else None.
Lemma kind_from_to k : from_str (to_string k) = Some k.
Proof. by destruct k. Qed.
End CephMemberKind.

Module CephClusterState.
Inductive t : Type := Detected | Unreachable | Gone | Tombstoned.
#[global] Instance eq_dec : EqDecision t.
Proof. solve_decision. Defined.
Definition to_string (s : t) : string :=
  match s with Detected => "detected" | Unreachable => "unreachable" | Gone => "gone" | Tombstoned => "tombstoned" end.
Definition from_str (s : string) : option t :=
  if String.eqb s "detected" then Some Detected else if String.eqb s "unreachable" then Some Unreachable
  else if String.eqb s "gone" then Some Gone else if String.eqb s "tombstoned" then Some Tombstoned else None.
Definition default_state : t := Detected.
Lemma state_from_to s : from_str (to_string s) = Some s.
Proof. by destruct s. Qed.
End CephClusterState.

Record CephCluster : Type := mkCluster {
  cc_id : string;
  cc_display_name : option string;
  cc_public_network : option string;
  cc_cluster_network : option string;
  cc_stretch_mode : option bool;
  cc_tiebreaker_mon : option string;
  cc_state : option CephClusterState.t;
  cc_last_seen_missing : option Z;
  cc_forgotten : option Z;
}.

Definition set_state (state : option CephClusterState.t) (missing : option Z) (c : CephCluster) : CephCluster :=
  mkCluster (cc_id c) (cc_display_name c) (cc_public_network c) (cc_cluster_network c) (cc_stretch_mode c)
    (cc_tiebreaker_mon c) state missing (cc_forgotten c).

Class AuthidText `{AuthidType} := {
  authid_to_string : Authid → string;
  authid_from_str : string → option Authid;
}.
Class AuthidTextLaws `{AuthidText} : Prop := {
  authid_from_to a : authid_from_str (authid_to_string a) = Some a;
}.

Section member.
Context `{AuthidType}.
Record CephMember : Type := mkMember {
  cm_id : string;
  cm_cluster : string;
  cm_kind : CephMemberKind.t;
  cm_remote : option string;
  cm_node : option string;
  cm_address : option string;
  cm_fingerprint : option string;
  cm_authid : option Authid;
  cm_site : option string;
}.

(** [extras]: the keys of a section that no field of the types has. *)
Record CephClustersConfig : Type := mkCephConfig {
  cfg_clusters : gmap string CephCluster;
  cfg_members : gmap string CephMember;
  cfg_extras : gmap string Map;
}.
End member.

(** ** JSON of the sections

    What [serde] derives: absent fields are left out, unknown keys are ignored. *)

Definition as_bool (v : Value) : option bool := match v with VBool b => Some b | _ => None end.
Definition as_i64 (v : Value) : option Z := match v with VNumber n => number_as_i64 n | _ => None end.

Definition opt_entry {A} (to_value : A → Value) (key : string) (o : option A) : Map :=
  match o with Some x => [(key, to_value x)] | None => [] end.
Definition opt_field {A} (from_value : Value → option A) (m : Map) (key : string) : result error (option A) :=
  match map_get m key with
  | None | Some VNull => Ok None
  | Some v => x ← ok_or (from_value v) EInvalid; Ok (Some x)
  end.
Definition field {A} (from_value : Value → option A) (m : Map) (key : string) : result error A :=
  o ← opt_field from_value m key; ok_or o EInvalid.

Definition state_to_value (s : CephClusterState.t) : Value := VString (CephClusterState.to_string s).
Definition state_from_value (v : Value) : option CephClusterState.t := s ← as_str v; CephClusterState.from_str s.
Definition kind_to_value (k : CephMemberKind.t) : Value := VString (CephMemberKind.to_string k).
Definition kind_from_value (v : Value) : option CephMemberKind.t := s ← as_str v; CephMemberKind.from_str s.
Definition i64_to_value (z : Z) : Value := VNumber (NInt z).

Definition cluster_to_map (c : CephCluster) : Map :=
  [("id"%string, VString (cc_id c))] ++
  opt_entry VString "display-name" (cc_display_name c) ++
  opt_entry VString "public-network" (cc_public_network c) ++
  opt_entry VString "cluster-network" (cc_cluster_network c) ++
  opt_entry VBool "stretch-mode" (cc_stretch_mode c) ++
  opt_entry VString "tiebreaker-mon" (cc_tiebreaker_mon c) ++
  opt_entry state_to_value "state" (cc_state c) ++
  opt_entry i64_to_value "last-seen-missing" (cc_last_seen_missing c) ++
  opt_entry i64_to_value "forgotten" (cc_forgotten c).

Definition cluster_of_map (m : Map) : result error CephCluster :=
  id ← field as_str m "id";
  display_name ← opt_field as_str m "display-name";
  public_network ← opt_field as_str m "public-network";
  cluster_network ← opt_field as_str m "cluster-network";
  stretch_mode ← opt_field as_bool m "stretch-mode";
  tiebreaker_mon ← opt_field as_str m "tiebreaker-mon";
  state ← opt_field state_from_value m "state";
  last_seen_missing ← opt_field as_i64 m "last-seen-missing";
  forgotten ← opt_field as_i64 m "forgotten";
  Ok (mkCluster id display_name public_network cluster_network stretch_mode tiebreaker_mon state last_seen_missing forgotten).

Definition of_object {A} (f : Map → result error A) (v : Value) : result error A :=
  match v with VObject m => f m | _ => Err EInvalid end.

(** The sections of a file, and the order in which they are written. *)
Abbreviation Sections := (gmap string (string * Value)).
Class CephSections := {
  sections_parse : string → result error Sections;
  sections_write : Sections → list string → result error string;
}.

(** What a probe of a remote says, and what the probes of all remotes say: the
    outcome of each remote, and the members of each cluster that was found. *)
Inductive ProbeOutcome : Type :=
| Found (fsid : string) (nodes : list string)
| ProbeReachable
| ProbeUnreachable.

(** [proxmox_client::Error], the variants that are told apart. *)
Inductive ClientError : Type := CApi | CAuthentication | CTicket | CTfaRequired | COther.

Abbreviation Outcomes := (gmap string ProbeOutcome).
Abbreviation FoundClusters := (gmap string (list (string * string))).

Section config.
Context `{AuthidText}.

Definition authid_to_value (a : Authid) : Value := VString (authid_to_string a).
Definition authid_from_value (v : Value) : option Authid := s ← as_str v; authid_from_str s.

Definition member_to_map (c : CephMember) : Map :=
  [("id"%string, VString (cm_id c)); ("cluster"%string, VString (cm_cluster c));
   ("kind"%string, kind_to_value (cm_kind c))] ++
  opt_entry VString "remote" (cm_remote c) ++
  opt_entry VString "node" (cm_node c) ++
  opt_entry VString "address" (cm_address c) ++
  opt_entry VString "fingerprint" (cm_fingerprint c) ++
  opt_entry authid_to_value "authid" (cm_authid c) ++
  opt_entry VString "site" (cm_site c).

Definition member_of_map (m : Map) : result error CephMember :=
  id ← field as_str m "id";
  cluster ← field as_str m "cluster";
  kind ← field kind_from_value m "kind";
  remote ← opt_field as_str m "remote";
  node ← opt_field as_str m "node";
  address ← opt_field as_str m "address";
  fingerprint ← opt_field as_str m "fingerprint";
  authid ← opt_field authid_from_value m "authid";
  site ← opt_field as_str m "site";
  Ok (mkMember id cluster kind remote node address fingerprint authid site).

(** ** The configuration file *)

Definition CEPH_CLUSTERS_CFG_FILENAME : string := "/etc/proxmox-datacenter-manager/ceph-clusters.cfg".

Definition unknown_keys (raw typed : Value) : option Map :=
  match raw, typed with
  | VObject raw, VObject known =>
      let extras := List.filter (λ '(key, _), match map_get known key with Some _ => false | None => true end) raw in
      if bool_decide (extras.*1 = []) then None else Some extras
  | _, _ => None
  end.

Definition insert_extras (id : string) (e : option Map) (extras : gmap string Map) : gmap string Map :=
  match e with Some e => <[id := e]> extras | None => extras end.

Definition empty_config : CephClustersConfig := mkCephConfig ∅ ∅ ∅.

(** One round of the loop of [untyped_to_typed]. *)
Definition add_section (out : CephClustersConfig) (s : string * (string * Value)) : result error CephClustersConfig :=
  let '(id, (section_type, value)) := s in
  if String.eqb section_type "ceph-cluster" then
    cluster ← of_object cluster_of_map value;
    let extras := unknown_keys value (VObject (cluster_to_map cluster)) in
    Ok (mkCephConfig (<[id := cluster]> (cfg_clusters out)) (cfg_members out) (insert_extras id extras (cfg_extras out)))
  else if String.eqb section_type "ceph-member" then
    member ← of_object member_of_map value;
    let extras := unknown_keys value (VObject (member_to_map member)) in
    Ok (mkCephConfig (cfg_clusters out) (<[id := member]> (cfg_members out)) (insert_extras id extras (cfg_extras out)))
  else Err (EMsg ("unexpected section type '" +:+ section_type +:+ "' in " +:+ CEPH_CLUSTERS_CFG_FILENAME)).

Fixpoint add_sections (out : CephClustersConfig) (l : list (string * (string * Value))) : result error CephClustersConfig :=
  match l with
  | [] => Ok out
  | s :: l' => out ← add_section out s; add_sections out l'
  end.

Definition untyped_to_typed (cfg : Sections) : result error CephClustersConfig :=
  add_sections empty_config (map_to_list cfg).

Definition merge_extras (data : CephClustersConfig) (id : string) (value : Value) : Value :=
  match cfg_extras data !! id, value with
  | Some extras, VObject obj =>
      VObject (foldl (λ obj '(key, extra), match map_get obj key with Some _ => obj | None => obj ++ [(key, extra)] end)
                 obj extras)
  | _, _ => value
  end.

Definition sorted_keys {A} (m : gmap string A) : list string := sort_by String.compare (map_to_list m).*1.

Definition insert_cluster (data : CephClustersConfig) (raw : Sections) (id : string) : Sections :=
  match cfg_clusters data !! id with
  | Some c => <[id := ("ceph-cluster"%string, merge_extras data id (VObject (cluster_to_map c)))]> raw
  | None => raw
  end.
Definition insert_member (data : CephClustersConfig) (raw : Sections) (id : string) : Sections :=
  match cfg_members data !! id with
  | Some m => <[id := ("ceph-member"%string, merge_extras data id (VObject (member_to_map m)))]> raw
  | None => raw
  end.

Definition typed_to_untyped (data : CephClustersConfig) : Sections :=
  foldl (insert_member data) (foldl (insert_cluster data) ∅ (sorted_keys (cfg_clusters data)))
    (sorted_keys (cfg_members data)).

Context `{CephSections}.

Definition parse (raw : string) : result error CephClustersConfig :=
  cfg ← sections_parse raw; untyped_to_typed cfg.
Definition write (data : CephClustersConfig) : result error string :=
  sections_write (typed_to_untyped data) (sorted_keys (cfg_clusters data) ++ sorted_keys (cfg_members data)).

Definition lock_config : io unit := fs_sync.
Definition config : io CephClustersConfig :=
  raw ← file_read_optional_string CEPH_CLUSTERS_CFG_FILENAME;
  io_lift (parse (default ""%string raw)).
Definition save_config (data : CephClustersConfig) : io unit :=
  raw ← io_lift (write data);
  fs_replace CEPH_CLUSTERS_CFG_FILENAME raw.

Definition members_of (data : CephClustersConfig) (cluster_id : string) : list CephMember :=
  List.filter (λ m, String.eqb (cm_cluster m) cluster_id) (map_to_list (cfg_members data)).*2.

Definition is_member_on (remote_id : string) (m : CephMember) : bool :=
  bool_decide (cm_kind m = CephMemberKind.Pve) && bool_decide (cm_remote m = Some remote_id).

Definition drop_pve_members_for_remote (remote_id : string) (data : CephClustersConfig) : CephClustersConfig * bool :=
  let members := filter (λ '(_, m), is_member_on remote_id m = false) (cfg_members data) in
  (mkCephConfig (cfg_clusters data) members (cfg_extras data),
   negb (Nat.eqb (size (cfg_members data)) (size members))).

Definition drop_clusters_without_members (data : CephClustersConfig) : CephClustersConfig * list string :=
  let alive := map cm_cluster (map_to_list (cfg_members data)).*2 in
  let dropped := List.filter (λ id, negb (existsb (String.eqb id) alive)) (map_to_list (cfg_clusters data)).*1 in
  (mkCephConfig (foldl (λ clusters id, delete id clusters) (cfg_clusters data) dropped) (cfg_members data) (cfg_extras data),
   dropped).

(** ** Detecting clusters *)

Definition status_key (fsid : string) : string := "ceph-status-" +:+ fsid.

Section sweep.
Context `{SafeIdRegex} `{EntryCodec Value}.

(** [store_status] of [ceph/cache.rs] *)
Definition store_status (now : Z) (fsid : string) (status : Value) : io unit :=
  cache ← write_global;
  WritableCacheNamespace.set cache now (status_key fsid) status.

(** Whether a client for a remote can be built, what the remotes answer, and the
    time. *)
Record probe_env : Type := mkProbeEnv {
  pe_connect : string → result error unit;
  pe_status : string → result ClientError Value;
  pe_now : Z;
}.
Context (env : probe_env).

Definition quorum_names (status : Value) : list string :=
  match get status "quorum_names" with
  | Some (VArray names) => omap (M:=list) as_str names
  | _ => []
  end.

(** What a probe finds. *)
Definition probe_outcome (remote_id : string) : ProbeOutcome :=
  match pe_connect env remote_id with
  | Err _ => ProbeUnreachable
  | Ok _ =>
      match pe_status env remote_id with
      | Err COther => ProbeUnreachable
      | Err _ => ProbeReachable
      | Ok status =>
          match get status "fsid" ≫= as_str with
          | None => ProbeReachable
          | Some fsid => Found fsid (quorum_names status)
          end
      end
  end.

(** [probe_remote] also stores the status in the cache. *)
Definition probe_remote (remote_id : string) : io ProbeOutcome :=
  let outcome := probe_outcome remote_id in
  match outcome, pe_status env remote_id with
  | Found fsid _, Ok status => _ ← io_try (store_status (pe_now env) fsid status); mret outcome
  | _, _ => mret outcome
  end.

Definition add_outcome (remote_id : string) (outcome : ProbeOutcome) (acc : Outcomes * FoundClusters)
    : Outcomes * FoundClusters :=
  let found :=
    match outcome with
    | Found fsid nodes =>
        <[fsid := default [] (acc.2 !! fsid) ++ map (λ node, (remote_id, node)) nodes]> acc.2
    | _ => acc.2
    end in
  (<[remote_id := outcome]> acc.1, found).

Fixpoint probe_from (acc : Outcomes * FoundClusters) (remote_ids : list string) : io (Outcomes * FoundClusters) :=
  match remote_ids with
  | [] => mret acc
  | remote_id :: l => outcome ← probe_remote remote_id; probe_from (add_outcome remote_id outcome acc) l
  end.
Definition probe_all (remote_ids : list string) : io (Outcomes * FoundClusters) := probe_from (∅, ∅) remote_ids.

Definition new_cluster (fsid : string) : CephCluster := mkCluster fsid None None None None None None None None.
Definition new_member (fsid remote node : string) : CephMember :=
  mkMember (fsid +:+ "-" +:+ node) fsid CephMemberKind.Pve (Some remote) (Some node) None None None None.

Definition upsert_member (fsid : string) (acc : CephClustersConfig * bool) (m : string * string)
    : CephClustersConfig * bool :=
  let '(cfg, changed) := acc in
  let '(remote, node) := m in
  let id := fsid +:+ "-" +:+ node in
  match cfg_members cfg !! id with
  | Some _ => (cfg, changed)
  | None => (mkCephConfig (cfg_clusters cfg) (<[id := new_member fsid remote node]> (cfg_members cfg)) (cfg_extras cfg), true)
  end.

Definition upsert_cluster (cfg : CephClustersConfig) (fsid : string) (members : list (string * string))
    : CephClustersConfig * bool :=
  if match cfg_clusters cfg !! fsid with
     | Some c => match cc_forgotten c with Some _ => true | None => false end
     | None => false
     end
  then (cfg, false) else
  let '(cluster, changed) := match cfg_clusters cfg !! fsid with Some c => (c, false) | None => (new_cluster fsid, true) end in
  let '(cluster, changed) :=
    if negb (bool_decide (cc_state cluster = Some CephClusterState.Detected)) || negb (bool_decide (cc_last_seen_missing cluster = None))
    then (set_state (Some CephClusterState.Detected) None cluster, true)
    else (cluster, changed) in
  foldl (upsert_member fsid) (mkCephConfig (<[fsid := cluster]> (cfg_clusters cfg)) (cfg_members cfg) (cfg_extras cfg), changed) members.

(** The loop over the found clusters, in the order of a [BTreeMap]. *)
Definition found_entries (found : FoundClusters) : list (string * list (string * string)) :=
  sort_by (cmp_on fst String.compare) (map_to_list found).
Definition upsert_step (acc : CephClustersConfig * bool) (x : string * list (string * string)) : CephClustersConfig * bool :=
  let '(cfg, changed) := acc in
  let '(fsid, members) := x in
  let '(cfg, c) := upsert_cluster cfg fsid members in (cfg, changed || c).
Definition upsert_all (cfg : CephClustersConfig) (found : FoundClusters) : CephClustersConfig * bool :=
  foldl upsert_step (cfg, false) (found_entries found).

(** The remotes of the PVE members of a cluster: an entry of [member_remotes]. *)
Definition member_remotes (cfg : CephClustersConfig) (fsid : string) : list string :=
  omap (M:=list) (λ m, if bool_decide (cm_kind m = CephMemberKind.Pve) && String.eqb (cm_cluster m) fsid then cm_remote m else None)
    (map_to_list (cfg_members cfg)).*2.

Definition is_unreachable (o : ProbeOutcome) : bool := match o with ProbeUnreachable => true | _ => false end.

(** The new state of a cluster that was not found. *)
Definition new_state (cfg : CephClustersConfig) (found : FoundClusters) (outcomes : Outcomes) (fsid : string) (cluster : CephCluster)
    : option CephClusterState.t :=
  if match found !! fsid with Some _ => true | None => false end || match cc_forgotten cluster with Some _ => true | None => false end
  then None else
  let probed := omap (M:=list) (λ r, outcomes !! r) (member_remotes cfg fsid) in
  match probed with
  | [] => None
  | _ => Some (if existsb is_unreachable probed then CephClusterState.Unreachable else CephClusterState.Gone)
  end.

Definition apply_state (now : Z) (state : CephClusterState.t) (c : CephCluster) : CephCluster * bool :=
  match state with
  | CephClusterState.Gone =>
      (set_state (Some CephClusterState.Gone) (Some (default now (cc_last_seen_missing c))) c,
       negb (bool_decide (cc_state c = Some CephClusterState.Gone)) || bool_decide (cc_last_seen_missing c = None))
  | CephClusterState.Unreachable =>
      (set_state (Some CephClusterState.Unreachable) (cc_last_seen_missing c) c,
       negb (bool_decide (cc_state c = Some CephClusterState.Unreachable)))
  | _ => (c, false)
  end.

Definition apply_update (now : Z) (acc : CephClustersConfig * bool) (u : string * CephClusterState.t)
    : CephClustersConfig * bool :=
  let '(cfg, changed) := acc in
  match cfg_clusters cfg !! u.1 with
  | Some c =>
      let '(c, ch) := apply_state now u.2 c in
      (mkCephConfig (<[u.1 := c]> (cfg_clusters cfg)) (cfg_members cfg) (cfg_extras cfg), changed || ch)
  | None => acc
  end.

Definition reconcile_unfound (cfg : CephClustersConfig) (found : FoundClusters) (outcomes : Outcomes) (now : Z)
    : CephClustersConfig * bool :=
  let updates := omap (M:=list) (λ '(fsid, cluster), pair fsid <$> new_state cfg found outcomes fsid cluster)
                   (map_to_list (cfg_clusters cfg)) in
  foldl (apply_update now) (cfg, false) updates.

(** The critical sections of [detect_and_upsert] and [sweep]. *)
Definition commit_detected (found : FoundClusters) : io unit :=
  _ ← lock_config;
  cfg ← config;
  let '(cfg, changed) := upsert_all cfg found in
  if (changed : bool) then save_config cfg else mret tt.
Definition commit_sweep (outcomes : Outcomes) (found : FoundClusters) : io unit :=
  _ ← lock_config;
  cfg ← config;
  let '(cfg, changed) := upsert_all cfg found in
  let '(cfg, changed') := reconcile_unfound cfg found outcomes (pe_now env) in
  if changed || changed' then save_config cfg else mret tt.

(** [meanwhile] is what other tasks do before the lock is taken. *)
Definition detect_and_upsert (remote_ids : list string) (meanwhile : io unit) : io unit :=
  '(_, found) ← probe_all remote_ids;
  if bool_decide (found = ∅) then mret tt else
  _ ← meanwhile;
  commit_detected found.

Definition pve_remotes (remotes : list (string * Remote)) : list string :=
  (List.filter (λ '(_, r), bool_decide (r_ty r = RemoteType.Pve)) remotes).*1.

Definition sweep (remotes : result error (list (string * Remote))) (meanwhile : io unit) : io unit :=
  remotes ← io_lift remotes;
  '(outcomes, found) ← probe_all (pve_remotes remotes);
  _ ← meanwhile;
  commit_sweep outcomes found.

(** The periodic task only logs a failure. *)
Definition run_once (remotes : result error (list (string * Remote))) (meanwhile : io unit) : io unit :=
  _ ← io_try (sweep remotes meanwhile); mret tt.
End sweep.

Definition on_remote_removed (remote_id : string) : io unit :=
  _ ← lock_config;
  cfg ← config;
  let '(cfg, dropped_members) := drop_pve_members_for_remote remote_id cfg in
  let '(cfg, dropped_clusters) := drop_clusters_without_members cfg in
  if dropped_members || negb (bool_decide (dropped_clusters = [])) then save_config cfg else mret tt.

(** ** Access *)

Section access.
Context (u : user).

Definition member_accessible (m : CephMember) (privs : Z) : result error bool :=
  match cm_kind m, cm_remote m with
  | CephMemberKind.Pve, Some remote => any_privs_below u ["resource"%string; remote] privs
  | _, _ => Ok false
  end.

Fixpoint any_accessible (members : list CephMember) (privs : Z) : result error bool :=
  match members with
  | [] => Ok false
  | m :: l => a ← member_accessible m privs; if (a : bool) then Ok true else any_accessible l privs
  end.
Definition cluster_accessible (cfg : CephClustersConfig) (cluster_id : string) (privs : Z) : result error bool :=
  any_accessible (members_of cfg cluster_id) privs.

Definition check_cluster_access (cfg : CephClustersConfig) (cluster_id : string) (privs : Z) : result error unit :=
  _ ← bail_if (match cfg_clusters cfg !! cluster_id with Some _ => false | None => true end)
        (EMsg ("no such ceph cluster " +:+ quoted cluster_id));
  a ← cluster_accessible cfg cluster_id privs;
  bail_if (negb a) (EMsg ("no access to ceph cluster " +:+ quoted cluster_id)).
Definition check_member_access (m : CephMember) (privs : Z) : result error unit :=
  a ← member_accessible m privs;
  bail_if (negb a) (EMsg ("no access to ceph member " +:+ quoted (cm_id m))).

Definition sorted_members (cfg : CephClustersConfig) (cluster_id : string) : list CephMember :=
  sort_by (cmp_on cm_id String.compare) (members_of cfg cluster_id).

Fixpoint collect_accessible (cfg : CephClustersConfig) (privs : Z) (l : list (string * CephCluster))
    : result error (list (CephCluster * list CephMember)) :=
  match l with
  | [] => Ok []
  | (id, cluster) :: l' =>
      a ← cluster_accessible cfg id privs;
      rest ← collect_accessible cfg privs l';
      Ok (if (a : bool) then (cluster, sorted_members cfg id) :: rest else rest)
  end.
Definition accessible_clusters (cfg : CephClustersConfig) (privs : Z) : result error (list (CephCluster * list CephMember)) :=
  out ← collect_accessible cfg privs (map_to_list (cfg_clusters cfg));
  Ok (sort_by (cmp_on (λ x, cc_id x.1) String.compare) out).

Definition lookup_cluster (cfg : CephClustersConfig) (cluster_id : string) (privs : Z) : result error (CephCluster * list CephMember) :=
  _ ← check_cluster_access cfg cluster_id privs;
  match cfg_clusters cfg !! cluster_id with
  | Some cluster => Ok (cluster, sorted_members cfg cluster_id)
  | None => Err (EMsg "panic")
  end.
End access.

(** ** Choosing a member *)

Section dispatch.
Context (connect : Remote → result error unit).

Fixpoint try_members (remotes : list (string * Remote)) (last_err : option error) (members : list CephMember)
    : result error CephMember :=
  match members with
  | [] => Err (default (EMsg "ceph cluster has no PVE member to connect through") last_err)
  | m :: l =>
      if negb (bool_decide (cm_kind m = CephMemberKind.Pve)) then try_members remotes last_err l else
      match cm_remote m with
      | None => try_members remotes last_err l
      | Some remote_id =>
          match (remote ← get_remote_of RemoteType.Pve remotes remote_id; connect remote) with
          | Ok _ => Ok m
          | Err err => try_members remotes (Some err) l
          end
      end
  end.
Definition connect_cluster (remotes : result error (list (string * Remote))) (members : list CephMember) : result error CephMember :=
  remotes ← remotes;
  try_members remotes None members.
End dispatch.
End config.
