(* ===== verification/CephConfig.v ===== *)
(** * The file of the Ceph registry

    What is written to [ceph-clusters.cfg] can be read back, with the keys of a
    section that the program does not know, and what is read satisfies the
    conditions for that.  [config_ok] collects these conditions; [disk_config] is
    the registry in the file. *)

From S2P Require Import Prelude FileSystem SectionConfig NamespacedCache RemotesConfig JsonValue CephRegistry.

(** ** JSON of a section *)

Lemma map_get_app m1 m2 k : map_get (m1 ++ m2) k = match map_get m1 k with Some v => Some v | None => map_get m2 k end.
Proof. induction m1 as [|[k' v] m1 IH]; simpl; [done|]. by destruct (String.eqb k' k). Qed.

Lemma map_get_cons k v m k' : map_get ((k, v) :: m) k' = if String.eqb k k' then Some v else map_get m k'.
Proof. done. Qed.

Lemma map_get_opt {A} (tv : A → Value) k o m k' :
  map_get (opt_entry tv k o ++ m) k' = if String.eqb k k' then match o with Some x => Some (tv x) | None => map_get m k' end
                                       else map_get m k'.
Proof. destruct o as [x|]; simpl; by destruct (String.eqb k k'). Qed.

Lemma map_get_Some_in m k v : map_get m k = Some v → (k, v) ∈ m.
Proof.
  induction m as [|[k' v'] m IH]; simpl; [done|]. destruct (String.eqb_spec k' k) as [->|]; [intros [= ->]; left|].
  intros H. right. auto.
Qed.
Lemma map_get_None m k : map_get m k = None ↔ k ∉ m.*1.
Proof.
  induction m as [|[k' v'] m IH]; simpl; [set_solver|].
  destruct (String.eqb_spec k' k) as [->|]; [set_solver|]. rewrite IH. set_solver.
Qed.
Lemma in_map_get m k v : NoDup m.*1 → (k, v) ∈ m → map_get m k = Some v.
Proof.
  induction m as [|[k' v'] m IH]; simpl; [set_solver|]. intros [Hk Hnd]%NoDup_cons [[= -> ->]|Hin]%elem_of_cons.
  - by rewrite String.eqb_refl.
  - destruct (String.eqb_spec k' k) as [->|]; [|auto]. exfalso. apply Hk. by apply (list_elem_of_fmap_2 fst) in Hin.
Qed.

(** Reading a field that was written. *)
Lemma opt_field_written {A} (tv : A → Value) (fv : Value → option A) m k o :
  map_get m k = tv <$> o → (∀ x, o = Some x → fv (tv x) = Some x ∧ tv x ≠ VNull) → opt_field fv m k = Ok o.
Proof.
  intros Hm Ho. unfold opt_field. rewrite Hm. destruct o as [x|]; [|done]. destruct (Ho x eq_refl) as [Hx Hn].
  cbn [fmap option_fmap option_map]. destruct (tv x); try done; by rewrite Hx.
Qed.
Lemma field_written {A} (tv : A → Value) (fv : Value → option A) m k x :
  map_get m k = Some (tv x) → fv (tv x) = Some x → tv x ≠ VNull → field fv m k = Ok x.
Proof. intros Hm Hx Hn. unfold field. by rewrite (opt_field_written tv fv m k (Some x)) by naive_solver. Qed.

(** What reading a field says of the object. *)
Lemma opt_field_read {A} (fv : Value → option A) m k o :
  opt_field fv m k = Ok o → (∀ v, map_get m k = Some v → v ≠ VNull) →
  match o with Some x => ∃ v, map_get m k = Some v ∧ fv v = Some x | None => map_get m k = None end.
Proof.
  unfold opt_field. intros Ho Hn. destruct (map_get m k) as [v|] eqn:Hv; [|by injection Ho as <-].
  specialize (Hn v eq_refl). destruct v; try done.
  all: destruct (fv _) as [x|] eqn:Hx; [|done]; injection Ho as <-; eauto.
Qed.

Definition known_cluster_keys : list string :=
  ["id"; "display-name"; "public-network"; "cluster-network"; "stretch-mode"; "tiebreaker-mon"; "state";
   "last-seen-missing"; "forgotten"]%string.
Definition known_member_keys : list string :=
  ["id"; "cluster"; "kind"; "remote"; "node"; "address"; "fingerprint"; "authid"; "site"]%string.

Definition opt_in_i64 (o : option Z) : Prop := ∀ z, o = Some z → in_i64 z = true.

Lemma i64_written z : in_i64 z = true → as_i64 (i64_to_value z) = Some z.
Proof. intros Hz. unfold as_i64, i64_to_value, number_as_i64. by rewrite Hz. Qed.

Ltac eval_keys :=
  repeat match goal with
  | |- context [String.eqb ?a ?b] =>
      let v := eval vm_compute in (String.eqb a b) in change (String.eqb a b) with v; cbn iota
  end.
(** Look a key up in an object that is made of optional entries. *)
Ltac get_written Hextras :=
  repeat rewrite <-app_comm_cons; rewrite ?app_nil_l;
  repeat ((rewrite map_get_cons || rewrite map_get_opt); eval_keys);
  repeat match goal with |- context [match ?o with Some _ => _ | None => _ end] => destruct o; [done|] end;
  try done; rewrite Hextras; [done|]; unfold known_cluster_keys, known_member_keys; set_solver.

Lemma cluster_written c extras :
  (∀ k, k ∈ known_cluster_keys → map_get extras k = None) → opt_in_i64 (cc_last_seen_missing c) → opt_in_i64 (cc_forgotten c) →
  cluster_of_map (cluster_to_map c ++ extras) = Ok c.
Proof.
  intros Hextras Hl Hf. unfold cluster_of_map, cluster_to_map. rewrite <-!app_assoc.
  rewrite (field_written VString as_str _ "id" (cc_id c)) by done. cbn [mbind result_bind].
  rewrite (opt_field_written VString as_str _ "display-name" (cc_display_name c)); [|by get_written Hextras|done]. cbn [mbind result_bind].
  rewrite (opt_field_written VString as_str _ "public-network" (cc_public_network c)); [|by get_written Hextras|done]. cbn [mbind result_bind].
  rewrite (opt_field_written VString as_str _ "cluster-network" (cc_cluster_network c)); [|by get_written Hextras|done]. cbn [mbind result_bind].
  rewrite (opt_field_written VBool as_bool _ "stretch-mode" (cc_stretch_mode c)); [|by get_written Hextras|done]. cbn [mbind result_bind].
  rewrite (opt_field_written VString as_str _ "tiebreaker-mon" (cc_tiebreaker_mon c)); [|by get_written Hextras|done]. cbn [mbind result_bind].
  rewrite (opt_field_written state_to_value state_from_value _ "state" (cc_state c)); [|by get_written Hextras|].
  2: { intros s _. split; [|done]. apply CephClusterState.state_from_to. }
  cbn [mbind result_bind].
  rewrite (opt_field_written i64_to_value as_i64 _ "last-seen-missing" (cc_last_seen_missing c)); [|by get_written Hextras|].
  2: { intros z Hz. split; [|done]. by apply i64_written, Hl. }
  cbn [mbind result_bind].
  rewrite (opt_field_written i64_to_value as_i64 _ "forgotten" (cc_forgotten c)); [|by get_written Hextras|].
  2: { intros z Hz. split; [|done]. by apply i64_written, Hf. }
  by destruct c.
Qed.

Section config.
Context `{AuthidTextLaws}.

Lemma member_written c extras :
  (∀ k, k ∈ known_member_keys → map_get extras k = None) → member_of_map (member_to_map c ++ extras) = Ok c.
Proof.
  intros Hextras. unfold member_of_map, member_to_map. rewrite <-!app_assoc.
  rewrite (field_written VString as_str _ "id" (cm_id c)) by done. cbn [mbind result_bind].
  rewrite (field_written VString as_str _ "cluster" (cm_cluster c)) by done. cbn [mbind result_bind].
  rewrite (field_written kind_to_value kind_from_value _ "kind" (cm_kind c));
    [|done|apply CephMemberKind.kind_from_to|done]. cbn [mbind result_bind].
  rewrite (opt_field_written VString as_str _ "remote" (cm_remote c)); [|by get_written Hextras|done]. cbn [mbind result_bind].
  rewrite (opt_field_written VString as_str _ "node" (cm_node c)); [|by get_written Hextras|done]. cbn [mbind result_bind].
  rewrite (opt_field_written VString as_str _ "address" (cm_address c)); [|by get_written Hextras|done]. cbn [mbind result_bind].
  rewrite (opt_field_written VString as_str _ "fingerprint" (cm_fingerprint c)); [|by get_written Hextras|done]. cbn [mbind result_bind].
  rewrite (opt_field_written authid_to_value authid_from_value _ "authid" (cm_authid c)); [|by get_written Hextras|].
  2: { intros a _. split; [|done]. apply authid_from_to. }
  cbn [mbind result_bind].
  rewrite (opt_field_written VString as_str _ "site" (cm_site c)); [|by get_written Hextras|done]. by destruct c.
Qed.

(** ** Unknown keys *)

Definition extras_ok (known : list string) (e : Map) : Prop :=
  e.*1 ≠ [] ∧ NoDup e.*1 ∧ ∀ k v, (k, v) ∈ e → (k ∉ known) ∧ (∃ s, v = VString s).

Lemma unknown_keys_written known extras :
  (∀ k, k ∈ extras.*1 → map_get known k = None) →
  unknown_keys (VObject (known ++ extras)) (VObject known) = if bool_decide (extras.*1 = []) then None else Some extras.
Proof.
  intros He. unfold unknown_keys. rewrite List.filter_app.
  assert (List.filter (λ '(key, _), match map_get known key with Some _ => false | None => true end) known = []) as ->.
  { destruct (List.filter _ known) as [|[k v] l] eqn:Hf; [done|].
    assert (In (k, v) (List.filter (λ '(key, _), match map_get known key with Some _ => false | None => true end) known)) as Hin
      by (rewrite Hf; by left).
    apply filter_In in Hin as [Hin Hg]. destruct (map_get known k) eqn:Hk; [done|]. apply map_get_None in Hk.
    exfalso. apply Hk. apply list_elem_of_In in Hin. by apply (list_elem_of_fmap_2 fst) in Hin. }
  assert (List.filter (λ '(key, _), match map_get known key with Some _ => false | None => true end) extras = extras) as ->; [|done].
  induction extras as [|[k v] extras IH]; [done|]. cbn [List.filter]. rewrite He by left. f_equal. apply IH.
  intros k' Hk'. apply He. by right.
Qed.

Lemma merge_written obj extras :
  NoDup extras.*1 → (∀ k, k ∈ extras.*1 → map_get obj k = None) →
  foldl (λ obj '(key, extra), match map_get obj key with Some _ => obj | None => obj ++ [(key, extra)] end) obj extras =
  obj ++ extras.
Proof.
  induction extras as [|[k v] extras IH] in obj |- *; simpl; [by rewrite app_nil_r|].
  intros [Hk Hnd]%NoDup_cons He. rewrite He by left. rewrite IH; [by rewrite <-app_assoc|done|].
  intros k' Hk'. rewrite map_get_app, He by by right. simpl. destruct (String.eqb_spec k k') as [->|]; [done|done].
Qed.

(** ** Conditions *)

Definition known_keys (section_type : string) : list string :=
  if String.eqb section_type "ceph-cluster" then known_cluster_keys else known_member_keys.

(** A section as the text format stores it: its id is the property [id], there are
    no nulls, and an additional property is a string. *)
Definition section_ok (id : string) (x : string * Value) : Prop :=
  ∃ obj, x.2 = VObject obj ∧ NoDup obj.*1 ∧ map_get obj "id" = Some (VString id) ∧
    ∀ k v, (k, v) ∈ obj → v ≠ VNull ∧ (k ∈ known_keys x.1 ∨ ∃ s, v = VString s).

Class CephSectionLaws `{CephSections} : Prop := {
  sections_written s order raw :
    sections_write s order = Ok raw → NoDup order → (∀ id, id ∈ order ↔ is_Some (s !! id)) →
    (∀ id x, s !! id = Some x → section_ok id x) → sections_parse raw = Ok s;
  sections_read raw s id x : sections_parse raw = Ok s → s !! id = Some x → section_ok id x;
  sections_utf8 s order raw : sections_write s order = Ok raw → utf8_valid raw = true;
}.

(** What holds of every registry that is read from a file; it suffices for reading
    it back after writing it. *)
Record config_ok (data : CephClustersConfig) : Prop := {
  co_clusters k c : cfg_clusters data !! k = Some c →
    cc_id c = k ∧ opt_in_i64 (cc_last_seen_missing c) ∧ opt_in_i64 (cc_forgotten c) ∧
    (∀ e, cfg_extras data !! k = Some e → extras_ok known_cluster_keys e);
  co_members k c : cfg_members data !! k = Some c →
    cm_id c = k ∧ (∀ e, cfg_extras data !! k = Some e → extras_ok known_member_keys e);
  co_disjoint k c : cfg_clusters data !! k = Some c → cfg_members data !! k = None;
}.

Lemma opt_entry_keys {A} (tv : A → Value) k o : (opt_entry tv k o).*1 `sublist_of` [k].
Proof. destruct o; simpl; [done|]. apply sublist_nil_l. Qed.

Lemma cluster_keys c : (cluster_to_map c).*1 `sublist_of` known_cluster_keys.
Proof.
  unfold cluster_to_map. rewrite !fmap_app.
  change known_cluster_keys with (["id"%string] ++ ["display-name"%string] ++ ["public-network"%string] ++ ["cluster-network"%string]
    ++ ["stretch-mode"%string] ++ ["tiebreaker-mon"%string] ++ ["state"%string] ++ ["last-seen-missing"%string] ++ ["forgotten"%string]).
  apply sublist_app; [reflexivity|]. repeat (apply sublist_app; [apply opt_entry_keys|]). apply opt_entry_keys.
Qed.
Lemma member_keys c : (member_to_map c).*1 `sublist_of` known_member_keys.
Proof.
  unfold member_to_map. rewrite !fmap_app.
  change known_member_keys with (["id"; "cluster"; "kind"]%string ++ ["remote"%string] ++ ["node"%string]
    ++ ["address"%string] ++ ["fingerprint"%string] ++ ["authid"%string] ++ ["site"%string]).
  apply sublist_app; [reflexivity|]. repeat (apply sublist_app; [apply opt_entry_keys|]). apply opt_entry_keys.
Qed.

Lemma known_cluster_NoDup : NoDup known_cluster_keys.
Proof. apply (bool_decide_unpack _). vm_compute. exact I. Qed.
Lemma known_member_NoDup : NoDup known_member_keys.
Proof. apply (bool_decide_unpack _). vm_compute. exact I. Qed.

(** The values of the fields are never null. *)
Lemma opt_entry_not_null {A} (tv : A → Value) k o x v : (∀ a, tv a ≠ VNull) → (x, v) ∈ opt_entry tv k o → v ≠ VNull.
Proof. intros Ht. destruct o; simpl; set_solver. Qed.

Lemma cluster_not_null c k v : (k, v) ∈ cluster_to_map c → v ≠ VNull.
Proof.
  unfold cluster_to_map. rewrite !elem_of_app, list_elem_of_singleton.
  intros [[= _ ->]|Hin]; [done|]. 
  repeat match type of Hin with _ ∨ _ => destruct Hin as [Hin|Hin] end;
    (eapply opt_entry_not_null; [|exact Hin]; intros ?; discriminate).
Qed.
Lemma member_not_null c k v : (k, v) ∈ member_to_map c → v ≠ VNull.
Proof.
  unfold member_to_map. rewrite !elem_of_app.
  intros [Hin|Hin]; [set_solver|]. 
  repeat match type of Hin with _ ∨ _ => destruct Hin as [Hin|Hin] end;
    (eapply opt_entry_not_null; [|exact Hin]; intros ?; discriminate).
Qed.

(** An object of known fields and extras. *)
Lemma object_ok known obj extras id ty :
  known_keys ty = known → NoDup known → obj.*1 `sublist_of` known → (∀ k v, (k, v) ∈ obj → v ≠ VNull) →
  map_get obj "id" = Some (VString id) → (∀ k v, (k, v) ∈ extras → (k ∉ known) ∧ ∃ s, v = VString s) → NoDup extras.*1 →
  section_ok id (ty, VObject (obj ++ extras)).
Proof.
  intros <- Hnd Hsub Hnn Hid He Hnde. exists (obj ++ extras). split_and!; [done| | |].
  - rewrite fmap_app. apply NoDup_app. split_and!; [by eapply sublist_NoDup; [exact Hnd|exact Hsub]| |done].
    intros k Hk ([k' v]&->&Hin)%list_elem_of_fmap. apply He in Hin as [Hin _]. apply Hin. by eapply elem_of_sublist.
  - by rewrite map_get_app, Hid.
  - intros k v [Hin|Hin]%elem_of_app.
    + split; [by eapply Hnn|]. left. eapply elem_of_sublist; [|exact Hsub]. by apply (list_elem_of_fmap_2 fst) in Hin.
    + destruct (He k v Hin) as [_ [s ->]]. split; [done|]. right. eauto.
Qed.

(** ** Reading what was written *)

Section roundtrip.
Context `{CephSectionLaws}.

Lemma elem_of_sorted_keys {A} (m : gmap string A) id : id ∈ sorted_keys m ↔ is_Some (m !! id).
Proof.
  unfold sorted_keys. rewrite elem_of_sort_by, list_elem_of_fmap. split.
  - intros ([k x]&->&Hin%elem_of_map_to_list). eauto.
  - intros [x Hx]. exists (id, x). split; [done|]. by apply elem_of_map_to_list.
Qed.
Lemma NoDup_sorted_keys {A} (m : gmap string A) : NoDup (sorted_keys m).
Proof. unfold sorted_keys. rewrite sort_by_perm. apply NoDup_fst_map_to_list. Qed.

Definition cluster_section (data : CephClustersConfig) (id : string) (c : CephCluster) : string * Value :=
  ("ceph-cluster"%string, VObject (cluster_to_map c ++ default [] (cfg_extras data !! id))).
Definition member_section (data : CephClustersConfig) (id : string) (m : CephMember) : string * Value :=
  ("ceph-member"%string, VObject (member_to_map m ++ default [] (cfg_extras data !! id))).

Lemma merge_extras_object data id obj known :
  obj.*1 `sublist_of` known → (∀ e, cfg_extras data !! id = Some e → extras_ok known e) →
  merge_extras data id (VObject obj) = VObject (obj ++ default [] (cfg_extras data !! id)).
Proof.
  intros Hsub He. unfold merge_extras. destruct (cfg_extras data !! id) as [e|]; simpl; [|by rewrite app_nil_r].
  destruct (He e eq_refl) as (_&Hnd&Hk). rewrite merge_written; [done|done|].
  intros k ([k' v]&->&Hin)%list_elem_of_fmap. apply map_get_None. intros Hko. apply (Hk k' v) in Hin as [Hin _].
  apply Hin. by eapply elem_of_sublist.
Qed.

Lemma foldl_insert_lookup {A} (m : gmap string A) (f : string → A → string * Value) (raw : Sections) l id :
  foldl (λ raw id, match m !! id with Some x => <[id := f id x]> raw | None => raw end) raw l !! id =
  if decide (id ∈ l) then match m !! id with Some x => Some (f id x) | None => raw !! id end else raw !! id.
Proof.
  induction l as [|k l IH] in raw |- *; simpl; [done|]. rewrite IH.
  destruct (decide (k = id)) as [->|Hne].
  - rewrite (decide_True (P := id ∈ id :: l)) by left. destruct (m !! id) as [x|]; [|by case_decide].
    rewrite lookup_insert_eq. by case_decide.
  - assert (match m !! k with Some x => <[k := f k x]> raw | None => raw end !! id = raw !! id) as ->.
    { destruct (m !! k); [by apply lookup_insert_ne|done]. }
    repeat case_decide; set_solver.
Qed.

Lemma typed_to_untyped_lookup data id :
  config_ok data →
  typed_to_untyped data !! id =
  match cfg_clusters data !! id with
  | Some c => Some (cluster_section data id c)
  | None => member_section data id <$> cfg_members data !! id
  end.
Proof.
  intros [Hc Hm Hd]. unfold typed_to_untyped, insert_cluster, insert_member.
  rewrite (foldl_insert_lookup (cfg_members data) (λ id m, ("ceph-member"%string, merge_extras data id (VObject (member_to_map m))))).
  rewrite (foldl_insert_lookup (cfg_clusters data) (λ id c, ("ceph-cluster"%string, merge_extras data id (VObject (cluster_to_map c))))).
  rewrite lookup_empty.
  assert (∀ c, cfg_clusters data !! id = Some c → merge_extras data id (VObject (cluster_to_map c)) =
            VObject (cluster_to_map c ++ default [] (cfg_extras data !! id))) as Hmc.
  { intros c Hlk. eapply merge_extras_object; [apply cluster_keys|]. by apply (Hc id c Hlk). }
  assert (∀ c, cfg_members data !! id = Some c → merge_extras data id (VObject (member_to_map c)) =
            VObject (member_to_map c ++ default [] (cfg_extras data !! id))) as Hmm.
  { intros c Hlk. eapply merge_extras_object; [apply member_keys|]. by apply (Hm id c Hlk). }
  destruct (cfg_clusters data !! id) as [c|] eqn:Ec.
  - rewrite (Hd id c Ec). rewrite (decide_True (P := id ∈ sorted_keys (cfg_clusters data))) by (apply elem_of_sorted_keys; eauto).
    unfold cluster_section. rewrite (Hmc c eq_refl). by case_decide.
  - destruct (cfg_members data !! id) as [c'|] eqn:Em; simpl.
    + rewrite (decide_True (P := id ∈ sorted_keys (cfg_members data))) by (apply elem_of_sorted_keys; eauto).
      unfold member_section. by rewrite (Hmm c' eq_refl).
    + by repeat case_decide.
Qed.

(** A section of the file is an entry of the registry. *)
Definition section_of (data : CephClustersConfig) (id : string) (s : string * Value) : Prop :=
  (∃ c obj, s = ("ceph-cluster"%string, VObject obj) ∧ cfg_clusters data !! id = Some c ∧ cfg_members data !! id = None ∧
     cluster_of_map obj = Ok c ∧ unknown_keys (VObject obj) (VObject (cluster_to_map c)) = cfg_extras data !! id) ∨
  (∃ m obj, s = ("ceph-member"%string, VObject obj) ∧ cfg_members data !! id = Some m ∧ cfg_clusters data !! id = None ∧
     member_of_map obj = Ok m ∧ unknown_keys (VObject obj) (VObject (member_to_map m)) = cfg_extras data !! id).

Definition same_at (d1 d2 : CephClustersConfig) (id : string) : Prop :=
  cfg_clusters d1 !! id = cfg_clusters d2 !! id ∧ cfg_members d1 !! id = cfg_members d2 !! id ∧
  cfg_extras d1 !! id = cfg_extras d2 !! id.

Lemma same_at_trans d1 d2 d3 id : same_at d1 d2 id → same_at d2 d3 id → same_at d1 d3 id.
Proof. intros (?&?&?) (?&?&?). split_and!; by etrans. Qed.

Lemma insert_extras_lookup id e (x : gmap string Map) id' :
  insert_extras id e x !! id' = if decide (id = id') then match e with Some e => Some e | None => x !! id' end else x !! id'.
Proof. destruct e as [e|]; simpl; [rewrite lookup_insert|]; by case_decide. Qed.

Lemma add_section_run data out id s :
  section_of data id s → same_at out empty_config id →
  ∃ out', add_section out (id, s) = Ok out' ∧ same_at out' data id ∧ ∀ id', id' ≠ id → same_at out' out id'.
Proof.
  intros Hs (Ho1&Ho2&Ho3). unfold empty_config in *. cbn [cfg_clusters cfg_members cfg_extras] in *. rewrite ?lookup_empty in *.
  destruct Hs as [(c&obj&->&Hlc&Hlm&Hof&Hex)|(c&obj&->&Hlm&Hlc&Hof&Hex)]; unfold add_section, of_object; cbn [String.eqb];
    eval_keys; rewrite Hof; cbn [mbind result_bind]; rewrite Hex; eexists; (split; [reflexivity|]); unfold same_at;
    cbn [cfg_clusters cfg_members cfg_extras]; (split; [|intros id' Hne]);
    rewrite insert_extras_lookup, ?lookup_insert, ?Ho1, ?Ho2, ?Ho3, ?Hlc, ?Hlm;
    repeat case_decide; try congruence; split_and!; try done; by destruct (cfg_extras data !! id).
Qed.

Lemma add_sections_run data l : ∀ out,
  NoDup l.*1 → (∀ id s, (id, s) ∈ l → section_of data id s) → (∀ id, id ∈ l.*1 → same_at out empty_config id) →
  ∃ out', add_sections out l = Ok out' ∧ (∀ id, id ∈ l.*1 → same_at out' data id) ∧ ∀ id, id ∉ l.*1 → same_at out' out id.
Proof.
  induction l as [|[id s] l IH]; intros out Hnd Hs Ho; cbn [add_sections].
  { exists out. split_and!; [done|intros id Hin; by apply elem_of_nil in Hin|done]. }
  cbn in Hnd. apply NoDup_cons in Hnd as [Hid Hnd].
  destruct (add_section_run data out id s) as (out1&Hrun&Hsame&Hframe); [by apply Hs; left|by apply Ho; left|].
  rewrite Hrun. cbn [mbind result_bind]. destruct (IH out1 Hnd) as (out2&Hrun2&Hin&Hout).
  - intros id' s' Hin. apply Hs. by right.
  - intros id' Hin. eapply same_at_trans; [apply Hframe|apply Ho; by right]. intros ->. done.
  - exists out2. split; [done|]. split.
    + intros id' [->|Hin']%elem_of_cons; [|by apply Hin]. by eapply same_at_trans; [apply Hout|].
    + intros id' [Hne Hni]%not_elem_of_cons. by eapply same_at_trans; [apply Hout|apply Hframe].
Qed.

(** The registry without the extras of sections that are not there (any more). *)
Definition has_section (data : CephClustersConfig) (id : string) : bool :=
  match cfg_clusters data !! id, cfg_members data !! id with None, None => false | _, _ => true end.
Definition tidy (data : CephClustersConfig) : CephClustersConfig :=
  mkCephConfig (cfg_clusters data) (cfg_members data) (filter (λ '(id, _), has_section data id = true) (cfg_extras data)).

Lemma tidy_extras data id : cfg_extras (tidy data) !! id = if has_section data id then cfg_extras data !! id else None.
Proof.
  unfold tidy. cbn [cfg_extras]. rewrite map_lookup_filter. destruct (cfg_extras data !! id) as [e|]; cbn [mbind option_bind].
  - unfold guard. case_decide as Hd; [by rewrite Hd|]. by destruct (has_section data id).
  - by destruct (has_section data id).
Qed.

Lemma default_extras_unknown known obj e :
  obj.*1 `sublist_of` known → (∀ x, e = Some x → extras_ok known x) →
  unknown_keys (VObject (obj ++ default [] e)) (VObject obj) = e ∧ (∀ k, k ∈ known → map_get (default [] e) k = None).
Proof.
  intros Hsub He. assert (∀ k, k ∈ (default [] e).*1 → k ∉ known) as Hk.
  { intros k. destruct e as [x|]; [|by intros ?%elem_of_nil]. intros ([k' v]&->&Hin)%list_elem_of_fmap.
    by apply (He x eq_refl) in Hin as [Hin _]. }
  split.
  - rewrite unknown_keys_written.
    + destruct e as [x|]; simpl; [|done]. destruct (He x eq_refl) as [Hne _]. by rewrite bool_decide_false.
    + intros k Hin. apply map_get_None. intros Hko. apply (Hk k Hin). by eapply elem_of_sublist.
  - intros k Hkn. apply map_get_None. intros Hin. by apply (Hk k).
Qed.

Lemma typed_sections data id s : config_ok data → typed_to_untyped data !! id = Some s → section_of (tidy data) id s.
Proof.
  intros Hok. rewrite typed_to_untyped_lookup by done. destruct Hok as [Hc Hm Hd]. intros Hs. unfold section_of.
  rewrite tidy_extras. unfold has_section, tidy. cbn [cfg_clusters cfg_members].
  destruct (cfg_clusters data !! id) as [c|] eqn:Ec.
  - injection Hs as <-. rewrite (Hd id c Ec). left. destruct (Hc id c Ec) as (_&Hl&Hf&He).
    destruct (default_extras_unknown _ _ (cfg_extras data !! id) (cluster_keys c) He) as [Hu Hk].
    do 2 eexists. split_and!; [reflexivity|done|done|by apply cluster_written|exact Hu].
  - destruct (cfg_members data !! id) as [c|] eqn:Em; [|done]. injection Hs as <-. right. destruct (Hm id c Em) as (_&He).
    destruct (default_extras_unknown _ _ (cfg_extras data !! id) (member_keys c) He) as [Hu Hk].
    do 2 eexists. split_and!; [reflexivity|done|done|by apply member_written|exact Hu].
Qed.

Lemma keys_map_to_list (s : Sections) id : id ∈ (map_to_list s).*1 ↔ is_Some (s !! id).
Proof.
  rewrite list_elem_of_fmap. split.
  - intros ([k x]&->&Hin%elem_of_map_to_list). eauto.
  - intros [x Hx]. exists (id, x). split; [done|]. by apply elem_of_map_to_list.
Qed.

Lemma config_eq d1 d2 : (∀ id, same_at d1 d2 id) → d1 = d2.
Proof. intros Hs. destruct d1, d2. f_equal; apply map_eq; intros id; apply (Hs id). Qed.

(** Typed and untyped sections are the same. *)
Lemma untyped_typed data : config_ok data → untyped_to_typed (typed_to_untyped data) = Ok (tidy data).
Proof.
  intros Hok. unfold untyped_to_typed.
  destruct (add_sections_run (tidy data) (map_to_list (typed_to_untyped data)) empty_config) as (out&Hrun&Hin&Hout).
  - apply NoDup_fst_map_to_list.
  - intros id s Hs%elem_of_map_to_list. by apply typed_sections.
  - done.
  - rewrite Hrun. f_equal. apply config_eq. intros id.
    destruct (typed_to_untyped data !! id) as [s|] eqn:Hs; [apply Hin, keys_map_to_list; eauto|].
    assert (id ∉ (map_to_list (typed_to_untyped data)).*1) as Hni by (rewrite keys_map_to_list, Hs; by intros [? ?]).
    eapply same_at_trans; [by apply Hout|]. rewrite typed_to_untyped_lookup in Hs by done.
    unfold same_at. rewrite tidy_extras. unfold has_section, tidy. cbn [cfg_clusters cfg_members].
    destruct (cfg_clusters data !! id); [done|]. by destruct (cfg_members data !! id).
Qed.

Lemma written_section_ok data id s : config_ok data → typed_to_untyped data !! id = Some s → section_ok id s.
Proof.
  intros Hok. rewrite typed_to_untyped_lookup by done. destruct Hok as [Hc Hm Hd]. intros Hs.
  assert (∀ known e, (∀ x, e = Some x → extras_ok known x) →
    (∀ k v, (k, v) ∈ default [] e → (k ∉ known) ∧ ∃ s, v = VString s) ∧ NoDup (default [] e).*1) as Hex.
  { intros known [x|] He; simpl; [by destruct (He x eq_refl) as (_&?&?)|]. split; [|constructor].
    by intros k v ?%elem_of_nil. }
  destruct (cfg_clusters data !! id) as [c|] eqn:Ec.
  - injection Hs as <-. destruct (Hc id c Ec) as (Hid&_&_&He). destruct (Hex _ _ He) as [Hx Hn].
    apply (object_ok known_cluster_keys); [done|exact known_cluster_NoDup|apply cluster_keys|apply cluster_not_null|by subst|done|done].
  - destruct (cfg_members data !! id) as [c|] eqn:Em; [|done]. injection Hs as <-.
    destruct (Hm id c Em) as (Hid&He). destruct (Hex _ _ He) as [Hx Hn].
    apply (object_ok known_member_keys); [done|exact known_member_NoDup|apply member_keys|apply member_not_null|by subst|done|done].
Qed.

(** What is written is what is read. *)
Lemma parse_write data raw : config_ok data → write data = Ok raw → parse raw = Ok (tidy data).
Proof.
  intros Hok Hw. unfold parse, write in *.
  rewrite (sections_written _ _ _ Hw); [cbn [mbind result_bind]; by apply untyped_typed|..].
  - apply NoDup_app. split_and!; [apply NoDup_sorted_keys| |apply NoDup_sorted_keys].
    intros id [c Hc]%elem_of_sorted_keys [c' Hm]%elem_of_sorted_keys. rewrite (co_disjoint data Hok id c Hc) in Hm. done.
  - intros id. rewrite elem_of_app, !elem_of_sorted_keys, typed_to_untyped_lookup by done.
    destruct (cfg_clusters data !! id); [naive_solver|]. destruct (cfg_members data !! id); simpl; naive_solver.
  - intros id x. by apply written_section_ok.
Qed.

(** ** What is read satisfies the conditions *)

Lemma field_read {A} (fv : Value → option A) m k x :
  field fv m k = Ok x → (∀ v, map_get m k = Some v → v ≠ VNull) → ∃ v, map_get m k = Some v ∧ fv v = Some x.
Proof.
  unfold field. intros Hf Hn. destruct (opt_field fv m k) as [o|] eqn:Ho; [|done]. cbn in Hf.
  destruct o as [y|]; [|done]. injection Hf as ->. exact (opt_field_read fv m k (Some x) Ho Hn).
Qed.

Lemma as_i64_in v z : as_i64 v = Some z → in_i64 z = true.
Proof. destruct v as [| |[z'|]| | |]; simpl; try done. destruct (in_i64 z') eqn:E; [|done]. by intros [= <-]. Qed.

(** A known key that is not written again was not there. *)
Ltac key_absent Hnn :=
  let Hnone := fresh in intros Hnone;
  repeat (rewrite map_get_cons in Hnone || rewrite map_get_opt in Hnone || rewrite <-app_comm_cons in Hnone
          || rewrite app_nil_l in Hnone || (revert Hnone; eval_keys; intros Hnone));
  match goal with
  | Ho : opt_field _ ?m ?k = Ok ?o |- map_get ?m ?k = None =>
      let H := fresh in
      pose proof (opt_field_read _ _ _ _ Ho ltac:(eauto)) as H; destruct o; [done|exact H]
  end.

Lemma cluster_read obj c :
  cluster_of_map obj = Ok c → (∀ k v, map_get obj k = Some v → v ≠ VNull) →
  map_get obj "id" = Some (VString (cc_id c)) ∧ opt_in_i64 (cc_last_seen_missing c) ∧ opt_in_i64 (cc_forgotten c) ∧
  ∀ k, k ∈ known_cluster_keys → map_get (cluster_to_map c ++ []) k = None → map_get obj k = None.
Proof.
  intros Hc Hnn. unfold cluster_of_map in Hc. run_ok Hc. injection Hc as <-.
  assert (∀ k o, opt_field as_i64 obj k = Ok o → opt_in_i64 o) as Hi.
  { intros k o Ho. apply opt_field_read in Ho; [|by apply Hnn]. destruct o as [z|]; [|done].
    destruct Ho as (w&_&Hw). intros z' [= <-]. by eapply as_i64_in. }
  split_and!; [|by eapply Hi..|].
  - match goal with H : field as_str obj "id" = Ok _ |- _ => apply field_read in H as (w&Hw&Hs); [|by apply Hnn] end.
    rewrite Hw. destruct w; try done. by injection Hs as ->.
  - intros k Hk. unfold cluster_to_map. rewrite <-!app_assoc. cbn [cc_id cc_display_name cc_public_network cc_cluster_network cc_stretch_mode
      cc_tiebreaker_mon cc_state cc_last_seen_missing cc_forgotten].
    apply elem_of_cons in Hk as [->|Hk]; [done|].
    repeat (apply elem_of_cons in Hk as [->|Hk]; [key_absent Hnn|]). by apply elem_of_nil in Hk.
Qed.

Lemma member_read obj c :
  member_of_map obj = Ok c → (∀ k v, map_get obj k = Some v → v ≠ VNull) →
  map_get obj "id" = Some (VString (cm_id c)) ∧
  ∀ k, k ∈ known_member_keys → map_get (member_to_map c ++ []) k = None → map_get obj k = None.
Proof.
  intros Hc Hnn. unfold member_of_map in Hc. run_ok Hc. injection Hc as <-. split.
  - match goal with H : field as_str obj "id" = Ok _ |- _ => apply field_read in H as (w&Hw&Hs); [|by apply Hnn] end.
    rewrite Hw. destruct w; try done. by injection Hs as ->.
  - intros k Hk. unfold member_to_map. rewrite <-!app_assoc. cbn [cm_id cm_cluster cm_kind cm_remote cm_node cm_address
      cm_fingerprint cm_authid cm_site].
    do 3 (apply elem_of_cons in Hk as [->|Hk]; [done|]).
    repeat (apply elem_of_cons in Hk as [->|Hk]; [key_absent Hnn|]). by apply elem_of_nil in Hk.
Qed.

Lemma unknown_keys_ok known obj typed e :
  NoDup obj.*1 → (∀ k v, (k, v) ∈ obj → v ≠ VNull ∧ (k ∈ known ∨ ∃ s, v = VString s)) →
  (∀ k, k ∈ known → map_get typed k = None → map_get obj k = None) →
  unknown_keys (VObject obj) (VObject typed) = Some e → extras_ok known e.
Proof.
  intros Hnd Hobj Hknown. unfold unknown_keys. case_bool_decide as Hne; [done|]. intros [= <-]. unfold extras_ok.
  assert (∀ P, List.filter P obj `sublist_of` obj) as Hsub.
  { intros P. clear. induction obj as [|x obj IH]; simpl; [done|]. destruct (P x); [by apply sublist_skip|by apply sublist_cons]. }
  split_and!; [done|by eapply sublist_NoDup; [exact Hnd|apply fmap_sublist, Hsub]|].
  intros k v Hin%list_elem_of_In. apply filter_In in Hin as [Hin Hg]. apply list_elem_of_In in Hin.
  destruct (map_get typed k) eqn:Hk; [done|]. destruct (Hobj k v Hin) as [_ Hor].
  assert (k ∉ known) as Hni; [|naive_solver]. intros Hkn. specialize (Hknown k Hkn Hk).
  by rewrite (in_map_get obj k v Hnd Hin) in Hknown.
Qed.

Lemma add_section_ok out out' id s :
  config_ok out → same_at out empty_config id → section_ok id s → add_section out (id, s) = Ok out' →
  config_ok out' ∧ ∀ id', id' ≠ id → same_at out' out id'.
Proof.
  intros Hok (Ho1&Ho2&Ho3) Hs Hadd. destruct s as [ty v]. destruct Hs as (obj&Hv&Hnd&Hid&Hobj). cbn in Hv. subst v.
  unfold empty_config in *. cbn [cfg_clusters cfg_members cfg_extras fst] in *. rewrite ?lookup_empty in *.
  assert (∀ k v, map_get obj k = Some v → v ≠ VNull) as Hnn by (intros k v Hk%map_get_Some_in; by apply Hobj in Hk as [? _]).
  destruct Hok as [Hc Hm Hd]. unfold add_section in Hadd. unfold known_keys in Hobj.
  destruct (String.eqb ty "ceph-cluster"); [|destruct (String.eqb ty "ceph-member"); [|done]]; unfold of_object in Hadd.
  - destruct (cluster_of_map obj) as [c|] eqn:Hof; [|done]. cbn [mbind result_bind] in Hadd. cbv zeta in Hadd.
    remember (unknown_keys (VObject obj) (VObject (cluster_to_map c))) as ex eqn:Hex. symmetry in Hex. injection Hadd as <-.
    destruct (cluster_read obj c Hof Hnn) as (Hcid&Hl&Hf&Hread). rewrite app_nil_r in Hread.
    assert (cc_id c = id) as Hcid' by congruence. split.
    + split; cbn [cfg_clusters cfg_members cfg_extras]; intros k x; rewrite ?lookup_insert; try setoid_rewrite insert_extras_lookup.
      * case_decide as Hk; [subst k|by apply Hc]. intros [= <-]. rewrite Ho3. split_and!; [done..|].
        intros e He. eapply unknown_keys_ok; [exact Hnd|exact Hobj|exact Hread|].
        rewrite Hex. by destruct ex.
      * case_decide as Hk; [subst k; by rewrite Ho2|]. apply Hm.
      * case_decide as Hk; [by subst k|]. apply Hd.
    + intros id' Hne. unfold same_at. cbn [cfg_clusters cfg_members cfg_extras].
      rewrite insert_extras_lookup, lookup_insert. by rewrite !decide_False by done.
  - destruct (member_of_map obj) as [c|] eqn:Hof; [|done]. cbn [mbind result_bind] in Hadd. cbv zeta in Hadd.
    remember (unknown_keys (VObject obj) (VObject (member_to_map c))) as ex eqn:Hex. symmetry in Hex. injection Hadd as <-.
    destruct (member_read obj c Hof Hnn) as (Hcid&Hread). rewrite app_nil_r in Hread.
    assert (cm_id c = id) as Hcid' by congruence. split.
    + split; cbn [cfg_clusters cfg_members cfg_extras]; intros k x; rewrite ?lookup_insert; try setoid_rewrite insert_extras_lookup.
      * case_decide as Hk; [subst k; by rewrite Ho1|]. apply Hc.
      * case_decide as Hk; [subst k|by apply Hm]. intros [= <-]. rewrite Ho3. split; [done|].
        intros e He. eapply unknown_keys_ok; [exact Hnd|exact Hobj|exact Hread|].
        rewrite Hex. by destruct ex.
      * intros Hk. case_decide as Hk'; [subst k; by rewrite Ho1 in Hk|]. by eapply Hd.
    + intros id' Hne. unfold same_at. cbn [cfg_clusters cfg_members cfg_extras].
      rewrite insert_extras_lookup, lookup_insert. by rewrite !decide_False by done.
Qed.

Lemma add_sections_ok l : ∀ out out',
  NoDup l.*1 → config_ok out → (∀ id, id ∈ l.*1 → same_at out empty_config id) → (∀ id s, (id, s) ∈ l → section_ok id s) →
  add_sections out l = Ok out' → config_ok out'.
Proof.
  induction l as [|[id s] l IH]; intros out out' Hnd Hok Ho Hs Hrun; [by injection Hrun as <-|].
  cbn [add_sections] in Hrun. run_ok Hrun. cbn in Hnd. apply NoDup_cons in Hnd as [Hid Hnd].
  match goal with H : add_section out (id, s) = Ok ?o |- _ =>
    destruct (add_section_ok out o id s Hok (Ho id ltac:(left)) (Hs id s ltac:(left)) H) as [Hok1 Hframe];
    apply (IH o out' Hnd Hok1) end; [| |exact Hrun].
  - intros id' Hin. eapply same_at_trans; [apply Hframe|apply Ho; by right]. intros ->. done.
  - intros id' s' Hin. apply Hs. by right.
Qed.

Lemma empty_config_ok : config_ok empty_config.
Proof. split; intros k c Hk; unfold empty_config in Hk; cbn [cfg_clusters cfg_members] in Hk; by rewrite lookup_empty in Hk. Qed.

Lemma parse_ok raw data : parse raw = Ok data → config_ok data.
Proof.
  unfold parse. intros Hp. run_ok Hp. eapply add_sections_ok; [..|exact Hp].
  - apply NoDup_fst_map_to_list.
  - apply empty_config_ok.
  - done.
  - intros id s Hin%elem_of_map_to_list. by eapply sections_read.
Qed.

(** Extras are only kept for sections. *)
Definition extras_tidy (data : CephClustersConfig) : Prop :=
  ∀ id e, cfg_extras data !! id = Some e → has_section data id = true.

Lemma add_section_tidy out out' s : extras_tidy out → add_section out s = Ok out' → extras_tidy out'.
Proof.
  destruct s as [id [ty v]]. intros Ht. unfold add_section.
  destruct (String.eqb ty "ceph-cluster"); [|destruct (String.eqb ty "ceph-member"); [|done]]; intros Hadd; run_ok Hadd;
    cbv zeta in Hadd; match type of Hadd with context [unknown_keys ?a ?b] => generalize dependent (unknown_keys a b) end;
    intros ex [= <-] id' e; cbn [cfg_extras]; rewrite insert_extras_lookup; unfold has_section; cbn [cfg_clusters cfg_members];
    rewrite lookup_insert; (case_decide as Hid; [by try destruct (cfg_clusters out !! id')|]);
    intros He; specialize (Ht id' e He); exact Ht.
Qed.

Lemma parse_tidy raw data : parse raw = Ok data → extras_tidy data.
Proof.
  unfold parse, untyped_to_typed. intros Hp. run_ok Hp.
  assert (∀ l out, extras_tidy out → add_sections out l = Ok data → extras_tidy data) as Hgen.
  { induction l as [|s l IH]; intros out Ht Hl; [by injection Hl as <-|]. cbn [add_sections] in Hl. run_ok Hl.
    eapply IH; [|exact Hl]. by eapply add_section_tidy. }
  eapply Hgen; [|exact Hp]. intros id e He. unfold empty_config in He. cbn [cfg_extras] in He. by rewrite lookup_empty in He.
Qed.

(** ** The registry on disk *)

(** What [config] reads. *)
Definition disk_config (m : gmap string string) : result error CephClustersConfig :=
  match m !! CEPH_CLUSTERS_CFG_FILENAME with
  | Some raw => if utf8_valid raw then parse raw else Err EIo
  | None => parse ""
  end.

Lemma config_triple m0 :
  triple (λ m, m = m0) config (λ data m, m = m0 ∧ disk_config m0 = Ok data) (λ m, m = m0).
Proof.
  unfold config, file_read_optional_string. eapply triple_bind.
  - eapply triple_bind; [apply triple_open|]. intros o. apply triple_pure. intros ->.
    instantiate (1 := λ raw m, m = m0 ∧ (raw = m0 !! CEPH_CLUSTERS_CFG_FILENAME ∧ (∀ r, raw = Some r → utf8_valid r = true))).
    destruct (m0 !! CEPH_CLUSTERS_CFG_FILENAME) as [raw|]; [destruct (utf8_valid raw) eqn:Hu|].
    + apply triple_ret. intros m ->. naive_solver.
    + intros w Hw. exact Hw.
    + apply triple_ret. naive_solver.
  - intros raw. apply triple_pure. intros [-> Hu]. apply triple_lift. intros m ->. unfold disk_config.
    destruct (m0 !! CEPH_CLUSTERS_CFG_FILENAME) as [raw|]; simpl.
    + rewrite (Hu raw eq_refl). by destruct (parse raw).
    + by destruct (parse "").
Qed.

Lemma disk_config_ok m data : disk_config m = Ok data → config_ok data ∧ extras_tidy data.
Proof.
  unfold disk_config. destruct (m !! _) as [raw|]; [destruct (utf8_valid raw); [|done]|];
    (split; [by eapply parse_ok|by eapply parse_tidy]).
Qed.

(** Saving replaces the file at once. *)
Lemma save_config_triple m0 data :
  config_ok data →
  triple (λ m, m = m0) (save_config data)
    (λ _ m, disk_config m = Ok (tidy data) ∧ ∀ p, p ≠ CEPH_CLUSTERS_CFG_FILENAME → m !! p = m0 !! p) (λ m, m = m0).
Proof.
  intros Hok. unfold save_config. eapply triple_bind.
  - apply (triple_lift _ _ (λ raw m, m = m0 ∧ write data = Ok raw)). intros m ->. by destruct (write data).
  - intros raw. apply triple_pure. intros Hw.
    eapply triple_conseq; [exact (triple_replace m0 CEPH_CLUSTERS_CFG_FILENAME raw)|done| |done].
    intros _ m ->. unfold disk_config. rewrite lookup_insert_eq, (sections_utf8 _ _ _ Hw), (parse_write data raw Hok Hw).
    split; [done|]. intros p Hp. by apply lookup_insert_ne.
Qed.
End roundtrip.
End config.
