(* ===== verification/CephSweep.v ===== *)
(** * What detecting Ceph clusters does to the registry

    The effect of a sweep on every cluster and member ([swept_spec]), that a second
    sweep with the same answers changes nothing, an invariant of the registry that
    every operation keeps, whatever fails, and what the access checks show to whom. *)

From S2P Require Import Prelude FileSystem RemoteUpid SectionConfig ResourceList NamespacedCache RemotesConfig JsonValue CephRegistry CephConfig.

Section sweep.
Context `{AuthidText}.
Implicit Types (cfg data : CephClustersConfig) (found : FoundClusters) (outcomes : Outcomes).

(** ** Upserting *)

Definition tombstoned cfg (fsid : string) : bool :=
  match cfg_clusters cfg !! fsid with
  | Some c => match cc_forgotten c with Some _ => true | None => false end
  | None => false
  end.

Definition member_id (fsid node : string) : string := fsid +:+ "-" +:+ node.

(** The cluster is registered as detected, with all its members. *)
Definition up_to_date cfg (fsid : string) (ms : list (string * string)) : Prop :=
  (∃ c, cfg_clusters cfg !! fsid = Some c ∧ cc_state c = Some CephClusterState.Detected ∧ cc_last_seen_missing c = None) ∧
  ∀ r n, (r, n) ∈ ms → is_Some (cfg_members cfg !! member_id fsid n).

Definition detected cfg (fsid : string) : CephCluster :=
  set_state (Some CephClusterState.Detected) None (default (new_cluster fsid) (cfg_clusters cfg !! fsid)).

Lemma upsert_member_eq fsid cfg ch r n :
  upsert_member fsid (cfg, ch) (r, n) =
  match cfg_members cfg !! member_id fsid n with
  | Some _ => (cfg, ch)
  | None => (mkCephConfig (cfg_clusters cfg) (<[member_id fsid n := new_member fsid r n]> (cfg_members cfg)) (cfg_extras cfg), true)
  end.
Proof. done. Qed.

Lemma foldl_upsert_member fsid ms cfg ch :
  let res := foldl (upsert_member fsid) (cfg, ch) ms in
  cfg_clusters res.1 = cfg_clusters cfg ∧ cfg_extras res.1 = cfg_extras cfg ∧
  (∀ id m, cfg_members cfg !! id = Some m → cfg_members res.1 !! id = Some m) ∧
  (∀ id m, cfg_members res.1 !! id = Some m →
     cfg_members cfg !! id = Some m ∨ ∃ r n, (r, n) ∈ ms ∧ id = member_id fsid n ∧ m = new_member fsid r n) ∧
  (∀ r n, (r, n) ∈ ms → is_Some (cfg_members res.1 !! member_id fsid n)) ∧
  (res.2 = false → ch = false ∧ res.1 = cfg) ∧
  (ch = false → (∀ r n, (r, n) ∈ ms → is_Some (cfg_members cfg !! member_id fsid n)) → res.2 = false).
Proof.
  induction ms as [|[r n] ms IH] in cfg, ch |- *; cbn [foldl]; cbv zeta.
  { split_and!; try done; [by left|]. intros r n Hin. by apply elem_of_nil in Hin. }
  rewrite upsert_member_eq.
  destruct (cfg_members cfg !! member_id fsid n) as [m0|] eqn:Hm.
  - destruct (IH cfg ch) as (H1&H2&H3&H4&H5&H6&H7). split_and!; try done.
    + intros id m Hin. destruct (H4 id m Hin) as [?|(r'&n'&?&?&?)]; [by left|]. right. exists r', n'. by rewrite elem_of_cons; auto.
    + intros r' n' [[= -> ->]|Hin]%elem_of_cons; [|by eapply H5]. eauto.
    + intros Hch Hall. apply H7; [done|]. intros r' n' Hin. apply (Hall r'). by right.
  - set (cfg1 := mkCephConfig _ _ _). destruct (IH cfg1 true) as (H1&H2&H3&H4&H5&H6&H7).
    assert (∀ id m, cfg_members cfg !! id = Some m → cfg_members cfg1 !! id = Some m) as Hsub.
    { intros id m Hid. unfold cfg1. cbn [cfg_members]. rewrite lookup_insert_ne; [done|]. intros <-. congruence. }
    split_and!; try done.
    + intros id m Hid. by apply H3, Hsub.
    + intros id m Hin. destruct (H4 id m Hin) as [Hin'|(r'&n'&?&?&?)].
      * unfold cfg1 in Hin'. cbn [cfg_members] in Hin'. apply lookup_insert_Some in Hin' as [[<- <-]|[_ ?]]; [|by left].
        right. exists r, n. by rewrite elem_of_cons; auto.
      * right. exists r', n'. by rewrite elem_of_cons; auto.
    + intros r' n' [[= -> ->]|Hin]%elem_of_cons; [|by eapply H5].
      exists (new_member fsid r n). apply H3. unfold cfg1. cbn [cfg_members]. apply lookup_insert_eq.
    + intros Hf. by destruct (H6 Hf).
    + intros _ Hall. destruct (Hall r n ltac:(left)) as [x Hx]. congruence.
Qed.

Lemma upsert_cluster_spec cfg fsid ms :
  let res := upsert_cluster cfg fsid ms in
  cfg_extras res.1 = cfg_extras cfg ∧
  (∀ k, cfg_clusters res.1 !! k = if decide (k = fsid ∧ tombstoned cfg fsid = false) then Some (detected cfg fsid) else cfg_clusters cfg !! k) ∧
  (∀ id m, cfg_members cfg !! id = Some m → cfg_members res.1 !! id = Some m) ∧
  (∀ id m, cfg_members res.1 !! id = Some m → cfg_members cfg !! id = Some m ∨
     tombstoned cfg fsid = false ∧ ∃ r n, (r, n) ∈ ms ∧ id = member_id fsid n ∧ m = new_member fsid r n) ∧
  (tombstoned cfg fsid = false → ∀ r n, (r, n) ∈ ms → is_Some (cfg_members res.1 !! member_id fsid n)) ∧
  (res.2 = false → res.1 = cfg) ∧
  (res.2 = false ↔ tombstoned cfg fsid = true ∨ up_to_date cfg fsid ms).
Proof.
  unfold upsert_cluster. fold (tombstoned cfg fsid). destruct (tombstoned cfg fsid) eqn:Ht.
  { simpl. split_and!; try done; [|by left|split; [by left|done]]. intros k. by rewrite decide_False by naive_solver. }
  set (start := match cfg_clusters cfg !! fsid with Some c => (c, false) | None => (new_cluster fsid, true) end).
  assert (start.1 = default (new_cluster fsid) (cfg_clusters cfg !! fsid)) as Hstart by (unfold start; by destruct (cfg_clusters cfg !! fsid)).
  assert (start.2 = false → cfg_clusters cfg !! fsid = Some start.1) as Hold by (unfold start; by destruct (cfg_clusters cfg !! fsid)).
  destruct start as [c0 b0] eqn:Es. cbn [fst snd] in Hstart, Hold.
  set (next := if _ || _ then (set_state (Some CephClusterState.Detected) None c0, true) else (c0, b0)).
  assert (next.1 = detected cfg fsid) as Hnext.
  { unfold next, detected. rewrite <-Hstart. do 2 case_bool_decide; simpl; try done. destruct c0; simpl in *; by subst. }
  assert (next.2 = false → b0 = false ∧ cc_state c0 = Some CephClusterState.Detected ∧ cc_last_seen_missing c0 = None ∧ next.1 = c0) as Hb.
  { unfold next. do 2 case_bool_decide; simpl; naive_solver. }
  assert (b0 = false → cc_state c0 = Some CephClusterState.Detected → cc_last_seen_missing c0 = None → next.2 = false) as Hb'.
  { intros -> H1 H2. unfold next. by rewrite !bool_decide_true. }
  assert (cfg_clusters cfg !! fsid = Some c0 → b0 = false) as Hb0.
  { intros Hc. unfold start in Es. rewrite Hc in Es. congruence. }
  clearbody next. destruct next as [c1 b1]. cbn [fst snd] in Hnext, Hb, Hb'.
  destruct (foldl_upsert_member fsid ms (mkCephConfig (<[fsid:=c1]> (cfg_clusters cfg)) (cfg_members cfg) (cfg_extras cfg)) b1)
    as (H1&H2&H3&H4&H5&H6&H7). cbn [cfg_clusters cfg_members cfg_extras] in H1, H2, H3, H4, H7.
  split_and!; try done.
  - intros k. rewrite H1, lookup_insert, Hnext. repeat case_decide; naive_solver.
  - intros id m Hin. destruct (H4 id m Hin) as [?|?]; [by left|by right].
  - intros Hf. destruct (H6 Hf) as [-> ->]. destruct (Hb eq_refl) as (Hf0&_&_&Heq). specialize (Hold Hf0).
    simpl in Heq. rewrite insert_id by congruence. by destruct cfg.
  - split.
    + intros Hf. right. destruct (H6 Hf) as [Hf1 Heq]. destruct (Hb Hf1) as (Hf0&Hs&Hl&_). split; [by eauto|].
      intros r n Hin. specialize (H5 r n Hin). by rewrite Heq in H5.
    + intros [?|[(c&Hc&Hs&Hl) Hms]]; [done|]. rewrite Hc in Hstart. simpl in Hstart. subst c0.
      apply H7; [|done]. apply Hb'; [by apply Hb0|done|done].
Qed.

Lemma upsert_step_eq cfg ch fsid ms :
  upsert_step (cfg, ch) (fsid, ms) = ((upsert_cluster cfg fsid ms).1, ch || (upsert_cluster cfg fsid ms).2).
Proof. simpl. by destruct (upsert_cluster cfg fsid ms). Qed.

(** What upserting several clusters does. *)
Record upserted (f : gmap string (list (string * string))) cfg (res : CephClustersConfig * bool) : Prop := {
  us_extras : cfg_extras res.1 = cfg_extras cfg;
  us_clusters k : cfg_clusters res.1 !! k =
    match f !! k with
    | Some _ => if tombstoned cfg k then cfg_clusters cfg !! k else Some (detected cfg k)
    | None => cfg_clusters cfg !! k
    end;
  us_kept id m : cfg_members cfg !! id = Some m → cfg_members res.1 !! id = Some m;
  us_new id m : cfg_members res.1 !! id = Some m → cfg_members cfg !! id = Some m ∨
    ∃ fsid ms r n, f !! fsid = Some ms ∧ tombstoned cfg fsid = false ∧ (r, n) ∈ ms ∧ id = member_id fsid n ∧
      m = new_member fsid r n;
  us_added fsid ms r n : f !! fsid = Some ms → tombstoned cfg fsid = false → (r, n) ∈ ms →
    is_Some (cfg_members res.1 !! member_id fsid n);
  us_same : res.2 = false → res.1 = cfg;
  us_changed : res.2 = false ↔ ∀ fsid ms, f !! fsid = Some ms → tombstoned cfg fsid = true ∨ up_to_date cfg fsid ms;
}.

Lemma foldl_upsert l : ∀ cfg,
  NoDup l.*1 → upserted (list_to_map l) cfg (foldl upsert_step (cfg, false) l).
Proof.
  assert (∀ l cfg ch, foldl upsert_step (cfg, ch) l = ((foldl upsert_step (cfg, false) l).1, ch || (foldl upsert_step (cfg, false) l).2)) as Hch.
  { clear. induction l as [|[fsid ms] l IH]; intros cfg ch; cbn [foldl]; [by rewrite orb_false_r|].
    rewrite !upsert_step_eq, orb_false_l. destruct (upsert_cluster cfg fsid ms) as [cfg1 b]. cbn [fst snd].
    rewrite (IH cfg1 (ch || b)), (IH cfg1 b). cbn [fst snd]. by rewrite orb_assoc. }
  induction l as [|[fsid ms] l IH]; intros cfg Hnd; cbn [foldl]; rewrite ?list_to_map_nil, ?list_to_map_cons.
  { split; cbn [fst snd]; try done. intros id m. by left. }
  cbn in Hnd. apply NoDup_cons in Hnd as [Hf Hnd]. apply not_elem_of_list_to_map_1 in Hf as Hfl.
  rewrite upsert_step_eq, Hch. destruct (upsert_cluster_spec cfg fsid ms) as (U1&U2&U3&U4&U5&U6&U7).
  set (r1 := upsert_cluster cfg fsid ms) in *. clearbody r1. destruct r1 as [cfg1 b1]. cbn [fst snd] in *.
  destruct (IH cfg1 Hnd) as [V1 V2 V3 V4 V5 V6 V7]. clear IH. set (res := foldl upsert_step (cfg1, false) l) in *. clearbody res.
  assert (∀ k, k ≠ fsid → cfg_clusters cfg1 !! k = cfg_clusters cfg !! k) as Hne by (intros k Hk; rewrite U2, decide_False by naive_solver; done).
  assert (∀ k, k ≠ fsid → tombstoned cfg1 k = tombstoned cfg k ∧ detected cfg1 k = detected cfg k) as Hte.
  { intros k Hk. unfold tombstoned, detected. by rewrite (Hne k Hk). }
  split; cbn [fst snd].
  - by rewrite V1.
  - intros k. rewrite V2. destruct (decide (k = fsid)) as [->|Hk].
    + rewrite lookup_insert_eq, Hfl, U2. destruct (tombstoned cfg fsid); [by rewrite decide_False by naive_solver|by rewrite decide_True].
    + rewrite lookup_insert_ne by done. rewrite (Hne k Hk). destruct (Hte k Hk) as [-> ->]. done.
  - intros id m Hm. by apply V3, U3.
  - intros id m Hm. destruct (V4 id m Hm) as [Hm'|(f&ms'&r&n&Hl&Ht&Hin&->&->)].
    + destruct (U4 id m Hm') as [?|(Ht&r&n&Hin&->&->)]; [by left|]. right. exists fsid, ms, r, n. by rewrite lookup_insert_eq.
    + right. assert (f ≠ fsid) as Hk by congruence. destruct (Hte f Hk) as [Ht' _]. exists f, ms', r, n.
      rewrite lookup_insert_ne by done. by rewrite <-Ht'.
  - intros f ms' r n Hl Ht Hin. destruct (decide (f = fsid)) as [->|Hk].
    + rewrite lookup_insert_eq in Hl. injection Hl as <-. destruct (U5 Ht r n Hin) as [x Hx]. exists x. by apply V3.
    + rewrite lookup_insert_ne in Hl by done. destruct (Hte f Hk) as [Ht' _]. eapply V5; [done|congruence|done].
  - intros [Hb Hr]%orb_false_iff. rewrite (V6 Hr). by apply U6.
  - rewrite orb_false_iff. split.
    + intros [Hb Hr]. pose proof (U6 Hb) as ->. intros f ms' Hl. destruct (decide (f = fsid)) as [->|Hk].
      * rewrite lookup_insert_eq in Hl. injection Hl as <-. by apply U7.
      * rewrite lookup_insert_ne in Hl by done. by apply V7.
    + intros Hall. assert (b1 = false) as Hb by (apply U7, Hall; apply lookup_insert_eq).
      pose proof (U6 Hb) as ->. split; [done|]. apply V7. intros f ms' Hl. apply Hall.
      rewrite lookup_insert_ne; [done|]. congruence.
Qed.

Lemma found_entries_map found : list_to_map (found_entries found) = found ∧ NoDup (found_entries found).*1.
Proof.
  unfold found_entries. pose proof (sort_by_perm (cmp_on fst String.compare) (map_to_list found)) as Hp.
  assert (NoDup (sort_by (cmp_on fst String.compare) (map_to_list found)).*1) as Hnd by (rewrite Hp; apply NoDup_fst_map_to_list).
  split; [|done]. rewrite <-(list_to_map_to_list found) at 2. by apply list_to_map_proper.
Qed.

Lemma upsert_all_spec cfg found : upserted found cfg (upsert_all cfg found).
Proof.
  destruct (found_entries_map found) as [Hm Hnd]. rewrite <-Hm at 1. exact (foldl_upsert _ cfg Hnd).
Qed.

(** ** Reconciling *)

Lemma set_state_id c : set_state (cc_state c) (cc_last_seen_missing c) c = c.
Proof. by destruct c. Qed.

Lemma apply_state_same now s c : (apply_state now s c).2 = false → (apply_state now s c).1 = c.
Proof.
  intros Hb. transitivity (set_state (cc_state c) (cc_last_seen_missing c) c); [|apply set_state_id].
  destruct s; simpl in *; [by rewrite set_state_id|..|by rewrite set_state_id].
  - case_bool_decide as Hs; [|done]. by rewrite Hs.
  - case_bool_decide as Hs; [|done]. case_bool_decide as Hm; [done|]. rewrite Hs. by destruct (cc_last_seen_missing c).
Qed.

Record reconciled (now : Z) (f : gmap string CephClusterState.t) cfg (res : CephClustersConfig * bool) : Prop := {
  rc_members : cfg_members res.1 = cfg_members cfg;
  rc_extras : cfg_extras res.1 = cfg_extras cfg;
  rc_clusters k : cfg_clusters res.1 !! k =
    match f !! k with
    | Some s => (λ c, (apply_state now s c).1) <$> cfg_clusters cfg !! k
    | None => cfg_clusters cfg !! k
    end;
  rc_same : res.2 = false → res.1 = cfg;
  rc_changed : res.2 = false ↔ ∀ k s c, f !! k = Some s → cfg_clusters cfg !! k = Some c → (apply_state now s c).2 = false;
}.

Lemma apply_update_eq now cfg ch u :
  apply_update now (cfg, ch) u = ((apply_update now (cfg, false) u).1, ch || (apply_update now (cfg, false) u).2).
Proof. simpl. destruct (cfg_clusters cfg !! u.1) as [c|]; simpl; [|by rewrite orb_false_r]. by destruct (apply_state now u.2 c). Qed.

Lemma apply_update_spec now cfg k s :
  let res := apply_update now (cfg, false) (k, s) in
  cfg_members res.1 = cfg_members cfg ∧ cfg_extras res.1 = cfg_extras cfg ∧
  (∀ k', cfg_clusters res.1 !! k' = if decide (k' = k) then (λ c, (apply_state now s c).1) <$> cfg_clusters cfg !! k
                                    else cfg_clusters cfg !! k') ∧
  (res.2 = false → res.1 = cfg) ∧ (res.2 = false ↔ ∀ c, cfg_clusters cfg !! k = Some c → (apply_state now s c).2 = false).
Proof.
  simpl. destruct (cfg_clusters cfg !! k) as [c|] eqn:Hc.
  - destruct (apply_state now s c) as [c' b] eqn:Ha. cbn [fst snd cfg_members cfg_extras cfg_clusters]. split_and!; [done..| | |].
    + intros k'. rewrite lookup_insert. repeat case_decide; try congruence. simpl. by rewrite Ha.
    + intros ->. pose proof (apply_state_same now s c) as Hs. rewrite Ha in Hs. cbn in Hs. rewrite (Hs eq_refl).
      rewrite insert_id by done. by destruct cfg.
    + split; [intros -> c0 [= <-]; by rewrite Ha|]. intros Hall. specialize (Hall c eq_refl). by rewrite Ha in Hall.
  - cbn. split_and!; try done. intros k'. case_decide; [by subst|done].
Qed.

Lemma foldl_apply_update now us : ∀ cfg,
  NoDup us.*1 → reconciled now (list_to_map us) cfg (foldl (apply_update now) (cfg, false) us).
Proof.
  assert (∀ us cfg ch, foldl (apply_update now) (cfg, ch) us =
            ((foldl (apply_update now) (cfg, false) us).1, ch || (foldl (apply_update now) (cfg, false) us).2)) as Hch.
  { clear. induction us as [|u us IH]; intros cfg ch; cbn [foldl]; [by rewrite orb_false_r|].
    rewrite (apply_update_eq now cfg ch). destruct (apply_update now (cfg, false) u) as [cfg1 b]. cbn [fst snd].
    rewrite (IH cfg1 (ch || b)), (IH cfg1 b). cbn [fst snd]. by rewrite orb_assoc. }
  induction us as [|[k s] us IH]; intros cfg Hnd; cbn [foldl]; rewrite ?list_to_map_nil, ?list_to_map_cons; [by split|].
  cbn in Hnd. apply NoDup_cons in Hnd as [Hk Hnd]. apply not_elem_of_list_to_map_1 in Hk as Hkl.
  destruct (apply_update_spec now cfg k s) as (U1&U2&U3&U4&U5).
  destruct (apply_update now (cfg, false) (k, s)) as [cfg1 b1]. cbn [fst snd] in *. rewrite Hch.
  destruct (IH cfg1 Hnd) as [V1 V2 V3 V4 V5]. destruct (foldl (apply_update now) (cfg1, false) us) as [cfg2 b2]. cbn [fst snd] in *.
  split; cbn [fst snd].
  - by rewrite V1.
  - by rewrite V2.
  - intros k'. rewrite V3, U3. destruct (decide (k' = k)) as [->|Hne].
    + by rewrite lookup_insert_eq, Hkl.
    + by rewrite lookup_insert_ne.
  - intros [Hb Hr]%orb_false_iff. rewrite (V4 Hr). by apply U4.
  - rewrite orb_false_iff. split.
    + intros [Hb Hr]. pose proof (U4 Hb) as ->. intros k' s' c Hl Hc. destruct (decide (k' = k)) as [->|Hne].
      * rewrite lookup_insert_eq in Hl. injection Hl as <-. by apply U5.
      * rewrite lookup_insert_ne in Hl by done. by eapply V5.
    + intros Hall. assert (b1 = false) as Hb by (apply U5; intros c Hc; eapply Hall; [apply lookup_insert_eq|done]).
      pose proof (U4 Hb) as ->. split; [done|]. apply V5. intros k' s' c Hl Hc. eapply Hall; [|done].
      rewrite lookup_insert_ne; [done|]. congruence.
Qed.

Lemma reconcile_spec cfg found outcomes now :
  ∃ f, reconciled now f cfg (reconcile_unfound cfg found outcomes now) ∧
    ∀ k c, cfg_clusters cfg !! k = Some c → f !! k = new_state cfg found outcomes k c.
Proof.
  unfold reconcile_unfound. set (us := omap _ _).
  assert (∀ k s, (k, s) ∈ us ↔ ∃ c, cfg_clusters cfg !! k = Some c ∧ new_state cfg found outcomes k c = Some s) as Hus.
  { intros k s. unfold us. rewrite list_elem_of_omap. split.
    - intros ([k' c]&Hin%elem_of_map_to_list&Hs). destruct (new_state _ _ _ _ _) eqn:Hn; [|done]. simpl in Hs. naive_solver.
    - intros (c&Hc&Hs). exists (k, c). split; [by apply elem_of_map_to_list|]. by rewrite Hs. }
  assert (NoDup us.*1) as Hnd.
  { unfold us. clear. pose proof (NoDup_fst_map_to_list (cfg_clusters cfg)) as Hnd. induction (map_to_list _) as [|[k c] l IH]; [constructor|].
    cbn in Hnd. apply NoDup_cons in Hnd as [Hk Hnd]. cbn [omap list_omap].
    destruct (new_state _ _ _ _ _) as [s|]; simpl; [|by apply IH]. constructor; [|by apply IH].
    intros ([k' s']&Heq&Hin)%list_elem_of_fmap. simpl in Heq. subst k'. apply Hk.
    apply list_elem_of_omap in Hin as ([k' c']&Hin&Hs). destruct (new_state _ _ _ _ _); [|done]. simplify_eq/=.
    by apply (list_elem_of_fmap_2 fst) in Hin. }
  exists (list_to_map us). split; [by apply foldl_apply_update|]. intros k c Hc.
  destruct (new_state cfg found outcomes k c) as [s|] eqn:Hs.
  - apply elem_of_list_to_map; [done|]. apply Hus. eauto.
  - apply not_elem_of_list_to_map. intros ([k' s']&Heq&Hin)%list_elem_of_fmap. simpl in Heq. subst k'.
    apply Hus in Hin as (c'&Hc'&Hs'). congruence.
Qed.

(** ** A whole sweep *)

Definition swept cfg outcomes found (now : Z) : CephClustersConfig * bool :=
  let '(cfg, changed) := upsert_all cfg found in
  let '(cfg, changed') := reconcile_unfound cfg found outcomes now in (cfg, changed || changed').

(** A remote behind a PVE member of the cluster was asked, with this outcome. *)
Definition probed cfg outcomes (fsid : string) (o : ProbeOutcome) : Prop :=
  ∃ id m r, cfg_members cfg !! id = Some m ∧ cm_kind m = CephMemberKind.Pve ∧ cm_cluster m = fsid ∧
    cm_remote m = Some r ∧ outcomes !! r = Some o.

Lemma elem_of_probed cfg outcomes fsid o :
  o ∈ omap (M:=list) (λ r, outcomes !! r) (member_remotes cfg fsid) ↔ probed cfg outcomes fsid o.
Proof.
  unfold member_remotes, probed. rewrite list_elem_of_omap. setoid_rewrite list_elem_of_omap. split.
  - intros (r&(m&Hm&Hr)&Ho). apply list_elem_of_fmap in Hm as ([id m']&->&Hin%elem_of_map_to_list). simpl in Hr.
    case_bool_decide as Hk; [|done]. destruct (String.eqb_spec (cm_cluster m') fsid) as [<-|]; [|done]. simpl in Hr. exists id, m', r. done.
  - intros (id&m&r&Hm&Hk&<-&Hr&Ho). exists r. split; [|done]. exists m. split.
    + apply list_elem_of_fmap. exists (id, m). split; [done|]. by apply elem_of_map_to_list.
    + by rewrite bool_decide_true, String.eqb_refl.
Qed.

Lemma new_state_spec cfg found outcomes fsid c :
  match new_state cfg found outcomes fsid c with
  | None => found !! fsid ≠ None ∨ cc_forgotten c ≠ None ∨ ¬ ∃ o, probed cfg outcomes fsid o
  | Some s => found !! fsid = None ∧ cc_forgotten c = None ∧
      (s = CephClusterState.Unreachable ∧ probed cfg outcomes fsid ProbeUnreachable ∨
       s = CephClusterState.Gone ∧ (∃ o, probed cfg outcomes fsid o) ∧ ¬ probed cfg outcomes fsid ProbeUnreachable)
  end.
Proof.
  unfold new_state. destruct (found !! fsid); simpl; [by left|]. destruct (cc_forgotten c); [by right; left|].
  pose proof (elem_of_probed cfg outcomes fsid) as Hp. destruct (omap (M:=list) _ _) as [|o l] eqn:Hl.
  - right; right. intros (o&Ho%Hp). by apply elem_of_nil in Ho.
  - split_and!; [done..|]. destruct (existsb is_unreachable (o :: l)) eqn:He.
    + left. split; [done|]. apply existsb_exists in He as (o'&Hin%list_elem_of_In&Ho'). apply Hp. by destruct o'.
    + right. split_and!; [done|exists o; apply Hp; left|]. intros Hin%Hp%list_elem_of_In.
      assert (existsb is_unreachable (o :: l) = true) as Ht by (apply existsb_exists; eexists; split; [exact Hin|done]). congruence.
Qed.

Section spec.
Context (cfg : CephClustersConfig) (found : FoundClusters) (outcomes : Outcomes) (now : Z).

Lemma probed_upserted fsid o :
  found !! fsid = None → probed (upsert_all cfg found).1 outcomes fsid o ↔ probed cfg outcomes fsid o.
Proof.
  intros Hf. destruct (upsert_all_spec cfg found) as [_ _ Hkept Hnew _ _ _]. split.
  - intros (id&m&r&Hm&Hk&Hc&Hr). destruct (Hnew id m Hm) as [?|(f&ms&r'&n&Hl&_&_&->&->)]; [by exists id, m, r|].
    simpl in Hc. subst f. congruence.
  - intros (id&m&r&Hm&?). exists id, m, r. split; [by apply Hkept|done].
Qed.

(** The state of a cluster after a sweep. *)
Lemma swept_clusters fsid :
  let res := (swept cfg outcomes found now).1 in
  match cfg_clusters cfg !! fsid, found !! fsid with
  | None, None => cfg_clusters res !! fsid = None
  | None, Some _ => cfg_clusters res !! fsid = Some (set_state (Some CephClusterState.Detected) None (new_cluster fsid))
  | Some c, f =>
      match cc_forgotten c, f with
      | Some _, _ => cfg_clusters res !! fsid = Some c
      | None, Some _ => cfg_clusters res !! fsid = Some (set_state (Some CephClusterState.Detected) None c)
      | None, None =>
          (probed cfg outcomes fsid ProbeUnreachable →
             cfg_clusters res !! fsid = Some (set_state (Some CephClusterState.Unreachable) (cc_last_seen_missing c) c)) ∧
          ((∃ o, probed cfg outcomes fsid o) → ¬ probed cfg outcomes fsid ProbeUnreachable →
             cfg_clusters res !! fsid = Some (set_state (Some CephClusterState.Gone) (Some (default now (cc_last_seen_missing c))) c)) ∧
          ((¬ ∃ o, probed cfg outcomes fsid o) → cfg_clusters res !! fsid = Some c)
      end
  end.
Proof.
  unfold swept. pose proof (upsert_all_spec cfg found) as [_ Hcl _ _ _ _ _]. specialize (Hcl fsid). unfold tombstoned, detected in Hcl.
  pose proof (probed_upserted fsid) as Hpr. destruct (upsert_all cfg found) as [cfg1 b1]. cbn [fst snd] in Hcl, Hpr.
  destruct (reconcile_spec cfg1 found outcomes now) as (f&[_ _ Hrc _ _]&Hf). specialize (Hrc fsid). specialize (Hf fsid).
  destruct (reconcile_unfound cfg1 found outcomes now) as [cfg2 b2]. cbn [fst] in *. rewrite Hrc. clear Hrc.
  destruct (cfg_clusters cfg !! fsid) as [c|], (found !! fsid) as [ms|] eqn:Hfo; simpl in Hcl.
  - destruct (cc_forgotten c) eqn:Hfg; rewrite Hcl; rewrite (Hf _ Hcl); unfold new_state; by rewrite Hfo.
  - rewrite Hcl, (Hf _ Hcl). pose proof (new_state_spec cfg1 found outcomes fsid c) as Hns.
    assert (∀ o, probed cfg1 outcomes fsid o ↔ probed cfg outcomes fsid o) as Hpo by (intros o; by apply Hpr).
    destruct (new_state cfg1 found outcomes fsid c) as [s|].
    + destruct Hns as (_&->&Hns). setoid_rewrite Hpo in Hns. simpl.
      destruct Hns as [[-> ?]|[-> [? ?]]]; split_and!; try done; naive_solver.
    + destruct Hns as [?|[?|Hns]]; [done|by destruct (cc_forgotten c)|]. setoid_rewrite Hpo in Hns.
      destruct (cc_forgotten c); [done|]. split_and!; [naive_solver..|done].
  - rewrite Hcl, (Hf _ Hcl). unfold new_state. by rewrite Hfo.
  - rewrite Hcl. by destruct (f !! fsid).
Qed.

Lemma swept_members :
  let res := (swept cfg outcomes found now).1 in
  cfg_extras res = cfg_extras cfg ∧ cfg_members res = cfg_members (upsert_all cfg found).1.
Proof.
  unfold swept. pose proof (upsert_all_spec cfg found) as [Hex _ _ _ _ _ _]. destruct (upsert_all cfg found) as [cfg1 b1].
  destruct (reconcile_spec cfg1 found outcomes now) as (f&[Hm He _ _ _]&_).
  destruct (reconcile_unfound cfg1 found outcomes now) as [cfg2 b2]. cbn [fst] in *. by rewrite He, Hm.
Qed.

Lemma swept_same : (swept cfg outcomes found now).2 = false → (swept cfg outcomes found now).1 = cfg.
Proof.
  unfold swept. pose proof (upsert_all_spec cfg found) as [_ _ _ _ _ Hs _]. destruct (upsert_all cfg found) as [cfg1 b1].
  destruct (reconcile_spec cfg1 found outcomes now) as (f&[_ _ _ Hr _]&_).
  destruct (reconcile_unfound cfg1 found outcomes now) as [cfg2 b2]. cbn [fst snd] in *.
  intros [H1 H2]%orb_false_iff. rewrite (Hr H2). by apply Hs.
Qed.
End spec.

(** Sweeping once more with the same answers, at any time, changes nothing. *)
Lemma swept_again_same cfg found outcomes now now' :
  let cfg' := (swept cfg outcomes found now).1 in swept cfg' outcomes found now' = (cfg', false).
Proof.
  intros cfg'. pose proof (swept_clusters cfg found outcomes now) as Hcl. destruct (swept_members cfg found outcomes now) as [_ Hme].
  fold cfg' in Hcl, Hme. cbv zeta in Hcl.
  assert ((swept cfg' outcomes found now').2 = false) as Hno; [|].
  2: { pose proof (swept_same cfg' found outcomes now' Hno) as Heq. destruct (swept cfg' outcomes found now') as [c b].
       simpl in *. by subst. }
  assert ((upsert_all cfg' found).2 = false) as Hup.
  { apply (us_changed _ _ _ (upsert_all_spec cfg' found)). intros fsid ms Hf. specialize (Hcl fsid). rewrite Hf in Hcl.
    assert (tombstoned cfg fsid = false → ∀ r n, (r, n) ∈ ms → is_Some (cfg_members cfg' !! member_id fsid n)) as Hms.
    { intros Ht r n Hin. rewrite Hme. by eapply (us_added _ _ _ (upsert_all_spec cfg found)). }
    unfold tombstoned, up_to_date in *. destruct (cfg_clusters cfg !! fsid) as [c|]; [destruct (cc_forgotten c) eqn:Hfg|].
    - left. by rewrite Hcl, Hfg.
    - right. split; [by eexists|by apply Hms].
    - right. split; [by eexists|by apply Hms]. }
  unfold swept. pose proof (us_same _ _ _ (upsert_all_spec cfg' found) Hup) as Heq.
  destruct (upsert_all cfg' found) as [cfg1 b1]. cbn [fst snd] in *. subst cfg1 b1.
  destruct (reconcile_spec cfg' found outcomes now') as (f&[_ _ _ _ Hch]&Hf).
  destruct (reconcile_unfound cfg' found outcomes now') as [cfg2 b2]. cbn [fst snd] in *. apply Hch. clear Hch.
  intros k s c Hk Hc. rewrite (Hf k c Hc) in Hk. pose proof (new_state_spec cfg' found outcomes k c) as Hns. rewrite Hk in Hns.
  destruct Hns as (Hfo&Hfg&Hs). specialize (Hcl k). rewrite Hfo in Hcl.
  assert (∀ o, probed cfg' outcomes k o ↔ probed cfg outcomes k o) as Hpo.
  { intros o. rewrite <-(probed_upserted cfg found outcomes k o Hfo). unfold probed. by rewrite Hme. }
  setoid_rewrite Hpo in Hs. destruct (cfg_clusters cfg !! k) as [c0|]; [|congruence].
  destruct (cc_forgotten c0) eqn:Hfg0; [rewrite Hcl in Hc; injection Hc as <-; congruence|].
  destruct Hcl as (H1&H2&_). destruct Hs as [[-> Hu]|[-> [Ho Hu]]].
  - rewrite (H1 Hu) in Hc. by injection Hc as <-.
  - rewrite (H2 Ho Hu) in Hc. by injection Hc as <-.
Qed.
End sweep.
