(* ===== verification/CephSpec.v ===== *)
(** * What holds of the Ceph registry

    The properties of the registry on disk, whatever system call fails: what a sweep
    makes of every cluster, that sweeping again writes nothing, an invariant that
    every operation keeps, what removing a remote leaves behind, that unknown keys
    survive, and that the list of clusters and the lookup of one agree on who may
    see it. *)

From S2P Require Import Prelude FileSystem RemoteUpid SectionConfig ResourceList NamespacedCache RemoteData RemotesConfig JsonValue CephRegistry CephConfig CephSweep.

Section registry.
Context `{AuthidTextLaws} `{CephSectionLaws}.
Implicit Types (cfg data : CephClustersConfig) (found : FoundClusters) (outcomes : Outcomes) (m : gmap string string).

(** ** The invariant *)

(** A Ceph fsid is a UUID. *)
Definition fsid_like (s : string) : Prop := String.length s = 36%nat.

(** Every member belongs to a registered cluster; the id of a PVE member is made
    from its cluster and its node. *)
Record registry_ok cfg : Prop := {
  ro_cluster k c : cfg_clusters cfg !! k = Some c → fsid_like k;
  ro_member id x : cfg_members cfg !! id = Some x →
    (36 < String.length id)%nat ∧ is_Some (cfg_clusters cfg !! cm_cluster x) ∧
    (cm_kind x = CephMemberKind.Pve →
       ∃ r n, cm_remote x = Some r ∧ cm_node x = Some n ∧ id = member_id (cm_cluster x) n);
}.

Definition valid_found found : Prop := ∀ fsid, is_Some (found !! fsid) → fsid_like fsid.

Lemma member_id_long fsid n : fsid_like fsid → (36 < String.length (member_id fsid n))%nat.
Proof. unfold fsid_like, member_id. intros Hl. rewrite !str_length_app, Hl. simpl. lia. Qed.

Lemma registry_disjoint cfg k c : registry_ok cfg → cfg_clusters cfg !! k = Some c → cfg_members cfg !! k = None.
Proof.
  intros [Hc Hm] Hk. destruct (cfg_members cfg !! k) as [x|] eqn:Hx; [|done].
  destruct (Hm k x Hx) as [Hl _]. specialize (Hc k c Hk). unfold fsid_like in Hc. lia.
Qed.

(** *** Operations keep it *)

Lemma tidy_id data : extras_tidy data → tidy data = data.
Proof.
  intros Ht. apply config_eq. intros id. split_and!; [done..|]. rewrite tidy_extras.
  destruct (cfg_extras data !! id) as [e|] eqn:He; [by rewrite (Ht id e He)|by destruct (has_section data id)].
Qed.

(** What a change of the registry must respect so that it can be written and read
    back. *)
Lemma config_ok_step cfg res :
  config_ok cfg → extras_tidy cfg → registry_ok res → cfg_extras res = cfg_extras cfg →
  (∀ k c, cfg_clusters res !! k = Some c → cc_id c = k ∧ opt_in_i64 (cc_last_seen_missing c) ∧ opt_in_i64 (cc_forgotten c) ∧
     (is_Some (cfg_clusters cfg !! k) ∨ has_section cfg k = false)) →
  (∀ id x, cfg_members res !! id = Some x → cfg_members cfg !! id = Some x ∨ cm_id x = id ∧ has_section cfg id = false) →
  config_ok res.
Proof.
  intros [Hc Hm _] Ht Hr He Hcl Hme. split.
  - intros k c Hk. destruct (Hcl k c Hk) as (?&?&?&Hor). split_and!; [done..|]. rewrite He. intros e Hx.
    destruct Hor as [[c0 Hc0]|Hs]; [by eapply Hc|]. by rewrite (Ht k e Hx) in Hs.
  - intros id x Hx. destruct (Hme id x Hx) as [Hx'|[Hid Hs]]; [rewrite He; by apply Hm|]. split; [done|].
    rewrite He. intros e Hx'. by rewrite (Ht id e Hx') in Hs.
  - intros k c. by apply registry_disjoint.
Qed.

Lemma no_section cfg k : registry_ok cfg → fsid_like k → cfg_clusters cfg !! k = None → has_section cfg k = false.
Proof.
  intros [_ Hm] Hk Hn. unfold has_section. rewrite Hn. destruct (cfg_members cfg !! k) as [x|] eqn:Hx; [|done].
  destruct (Hm k x Hx) as [Hl _]. unfold fsid_like in Hk. lia.
Qed.

(** All that is needed to write a registry and to go on with it. *)
Record grown res : Prop := {
  gr_ok : registry_ok res;
  gr_config : config_ok res;
  gr_tidy : extras_tidy res;
}.

Lemma tombstoned_Some cfg k : tombstoned cfg k = true → is_Some (cfg_clusters cfg !! k).
Proof. unfold tombstoned. destruct (cfg_clusters cfg !! k); [by eexists|done]. Qed.

Lemma upsert_all_ok cfg found :
  registry_ok cfg → config_ok cfg → extras_tidy cfg → valid_found found → grown (upsert_all cfg found).1.
Proof.
  intros Hro Hco Ht Hf. destruct (upsert_all_spec cfg found) as [Hex Hcl Hkept Hnew _ _ _].
  set (res := (upsert_all cfg found).1) in *. clearbody res.
  assert (∀ k, is_Some (cfg_clusters cfg !! k) → is_Some (cfg_clusters res !! k)) as Hgrow.
  { intros k Hk. rewrite Hcl. destruct (found !! k); [|done]. by destruct (tombstoned cfg k); [|eexists]. }
  assert (registry_ok res) as Hrr.
  { split.
    - intros k c Hk. rewrite Hcl in Hk. destruct (found !! k) eqn:Hfk; [apply Hf; by eexists|by eapply ro_cluster].
    - intros id x Hx. destruct (Hnew id x Hx) as [Hx'|(fsid&ms&r&n&Hfk&Htb&Hin&->&->)].
      + destruct (ro_member cfg Hro id x Hx') as (?&?&?). split_and!; [done|by apply Hgrow|done].
      + assert (fsid_like fsid) as Hl by (apply Hf; by eexists). split_and!; [by apply member_id_long| |].
        * simpl. rewrite Hcl, Hfk, Htb. by eexists.
        * intros _. exists r, n. done. }
  split; [done| |].
  - apply (config_ok_step cfg); try done.
    + intros k c Hk. rewrite Hcl in Hk. destruct (found !! k) as [ms|] eqn:Hfk; [destruct (tombstoned cfg k) eqn:Htb|].
      * destruct (co_clusters cfg Hco k c Hk) as (?&?&?&?). split_and!; [done..|]. left. by eexists.
      * injection Hk as <-. unfold detected. destruct (cfg_clusters cfg !! k) as [c|] eqn:Hc; simpl.
        -- destruct (co_clusters cfg Hco k c Hc) as (?&?&?&?). split_and!; [done|done|done|left; by eexists].
        -- split_and!; [done|done|done|]. right. apply no_section; [done| |done]. apply Hf. by eexists.
      * destruct (co_clusters cfg Hco k c Hk) as (?&?&?&?). split_and!; [done..|]. left. by eexists.
    + intros id x Hx. destruct (cfg_members cfg !! id) as [x0|] eqn:Hx0.
      * left. rewrite (Hkept id x0 Hx0) in Hx. by injection Hx as <-.
      * right. destruct (Hnew id x Hx) as [?|(fsid&ms&r&n&Hfk&Htb&Hin&->&->)]; [congruence|]. split; [done|].
        unfold has_section. rewrite Hx0. destruct (cfg_clusters cfg !! _) as [c|] eqn:Hc; [|done].
        pose proof (ro_cluster cfg Hro _ c Hc) as Hl. pose proof (member_id_long fsid n ltac:(apply Hf; by eexists)) as Hm.
        unfold fsid_like in Hl. lia.
  - intros id e He. rewrite Hex in He. specialize (Ht id e He). unfold has_section in *.
    destruct (cfg_clusters cfg !! id) as [c|] eqn:Hc.
    + destruct (Hgrow id ltac:(by eexists)) as [c' ->]. by destruct (cfg_members res !! id).
    + destruct (cfg_members cfg !! id) as [x|] eqn:Hx; [|done]. rewrite (Hkept id x Hx). by destruct (cfg_clusters res !! id).
Qed.

Lemma apply_state_ok now s c :
  in_i64 now = true → cc_id (apply_state now s c).1 = cc_id c ∧ cc_forgotten (apply_state now s c).1 = cc_forgotten c ∧
  (opt_in_i64 (cc_last_seen_missing c) → opt_in_i64 (cc_last_seen_missing (apply_state now s c).1)).
Proof.
  intros Hn. destruct s; simpl; split_and!; try done. intros Hl z [= <-]. destruct (cc_last_seen_missing c); [by apply Hl|done].
Qed.

Lemma swept_ok cfg outcomes found now :
  registry_ok cfg → config_ok cfg → extras_tidy cfg → valid_found found → in_i64 now = true →
  grown (swept cfg outcomes found now).1.
Proof.
  intros Hro Hco Ht Hf Hn. destruct (upsert_all_ok cfg found Hro Hco Ht Hf) as [Hro1 Hco1 Ht1]. unfold swept.
  destruct (upsert_all cfg found) as [cfg1 b1]. cbn [fst] in *.
  destruct (reconcile_spec cfg1 found outcomes now) as (f&[Hme Hex Hcl _ _]&_).
  destruct (reconcile_unfound cfg1 found outcomes now) as [res b2]. cbn [fst] in *.
  assert (∀ k, is_Some (cfg_clusters res !! k) ↔ is_Some (cfg_clusters cfg1 !! k)) as His.
  { intros k. rewrite Hcl. destruct (f !! k); [by rewrite fmap_is_Some|done]. }
  assert (registry_ok res) as Hrr.
  { split.
    - intros k c Hk. destruct (proj1 (His k) ltac:(by eexists)) as [c1 Hc1]. by eapply ro_cluster.
    - intros id x Hx. rewrite Hme in Hx. destruct (ro_member cfg1 Hro1 id x Hx) as (?&?&?). split_and!; [done|by apply His|done]. }
  split; [done| |].
  - apply (config_ok_step cfg1); try done.
    + intros k c Hk. destruct (proj1 (His k) ltac:(by eexists)) as [c1 Hc1].
      destruct (co_clusters cfg1 Hco1 k c1 Hc1) as (Hid&Hl&Hfg&_). rewrite Hcl, Hc1 in Hk.
      destruct (f !! k) as [s|]; simpl in Hk; injection Hk as <-; [|by split_and!; [..|left; eexists]].
      destruct (apply_state_ok now s c1 Hn) as (->&->&Hl'). split_and!; [done|by apply Hl'|done|]. left. by eexists.
    + intros id x Hx. left. by rewrite <-Hme.
  - intros id e He. rewrite Hex in He. specialize (Ht1 id e He). unfold has_section in *. rewrite Hme.
    destruct (cfg_clusters cfg1 !! id) as [c|] eqn:Hc.
    + destruct (proj2 (His id) ltac:(by eexists)) as [c' ->]. by destruct (cfg_members cfg1 !! id).
    + destruct (cfg_members cfg1 !! id); [|done]. by destruct (cfg_clusters res !! id).
Qed.

(** *** Removing a remote *)

Definition without_remote cfg (remote : string) : CephClustersConfig :=
  (drop_clusters_without_members (drop_pve_members_for_remote remote cfg).1).1.

Lemma foldl_delete {A} (l : list string) (x : gmap string A) k :
  foldl (λ clusters id, delete id clusters) x l !! k = if decide (k ∈ l) then None else x !! k.
Proof.
  induction l as [|i l IH] in x |- *; simpl; [done|]. rewrite IH.
  destruct (decide (k = i)) as [->|Hne].
  - rewrite lookup_delete_eq, (decide_True (P := i ∈ i :: l)) by left. by case_decide.
  - rewrite lookup_delete_ne by done. repeat case_decide; try done; exfalso; set_solver.
Qed.

Lemma without_remote_spec cfg remote :
  cfg_extras (without_remote cfg remote) = cfg_extras cfg ∧
  (∀ id x, cfg_members (without_remote cfg remote) !! id = Some x ↔
     cfg_members cfg !! id = Some x ∧ is_member_on remote x = false) ∧
  (∀ k c, cfg_clusters (without_remote cfg remote) !! k = Some c ↔
     cfg_clusters cfg !! k = Some c ∧
     ∃ id x, cfg_members (without_remote cfg remote) !! id = Some x ∧ cm_cluster x = k).
Proof.
  unfold without_remote, drop_clusters_without_members, drop_pve_members_for_remote. cbn [cfg_members cfg_clusters cfg_extras fst].
  set (ms := filter _ (cfg_members cfg)).
  assert (∀ k, existsb (String.eqb k) (map cm_cluster (map_to_list ms).*2) = true ↔ ∃ id x, ms !! id = Some x ∧ cm_cluster x = k) as Halive.
  { intros k. rewrite existsb_exists. split.
    - intros (k'&Hin&->%String.eqb_eq). apply in_map_iff in Hin as (x&<-&Hin). apply list_elem_of_In in Hin.
      apply list_elem_of_fmap in Hin as ([id x']&->&Hin%elem_of_map_to_list). simpl. eauto.
    - intros (id&x&Hx&<-). exists (cm_cluster x). split; [|apply String.eqb_refl]. apply in_map, list_elem_of_In, list_elem_of_fmap.
      exists (id, x). split; [done|]. by apply elem_of_map_to_list. }
  split_and!; [done| |].
  - intros id x. unfold ms. by rewrite map_lookup_filter_Some.
  - intros k c. rewrite foldl_delete, <-Halive. set (gone := List.filter _ _).
    assert (k ∈ gone ↔ is_Some (cfg_clusters cfg !! k) ∧ existsb (String.eqb k) (map cm_cluster (map_to_list ms).*2) = false) as Hg.
    { unfold gone. rewrite list_elem_of_In, filter_In, <-list_elem_of_In, list_elem_of_fmap, negb_true_iff.
      split; intros [Hk Ha]; (split; [|done]).
      - destruct Hk as ([k' c']&->&Hin%elem_of_map_to_list). by eexists.
      - destruct Hk as [c' Hc']. exists (k, c'). split; [done|]. by apply elem_of_map_to_list. }
    case_decide as Hk; [apply Hg in Hk as [_ Ha]; rewrite Ha; naive_solver|].
    split; [|by intros [? _]]. intros Hc. split; [done|].
    destruct (existsb _ _) eqn:Ha; [done|]. exfalso. apply Hk, Hg. split; [by eexists|done].
Qed.

(** The flags say whether anything was dropped. *)
Lemma without_remote_same cfg remote :
  let r1 := drop_pve_members_for_remote remote cfg in
  let r2 := drop_clusters_without_members r1.1 in
  r1.2 || negb (bool_decide (r2.2 = [])) = false → r2.1 = cfg.
Proof.
  unfold drop_clusters_without_members, drop_pve_members_for_remote. cbn [cfg_members cfg_clusters cfg_extras fst snd].
  intros [Hm Hc]%orb_false_iff. apply negb_false_iff, Nat.eqb_eq in Hm. apply negb_false_iff, bool_decide_eq_true in Hc.
  rewrite Hc. simpl. destruct cfg as [cl ms ex]. cbn [cfg_members cfg_clusters cfg_extras] in *. f_equal.
  apply map_subseteq_size_eq; [apply map_filter_subseteq|lia].
Qed.

Lemma without_remote_ok cfg remote : registry_ok cfg → config_ok cfg → extras_tidy cfg →
  registry_ok (without_remote cfg remote) ∧ config_ok (without_remote cfg remote).
Proof.
  intros Hro Hco Ht. destruct (without_remote_spec cfg remote) as (Hex&Hme&Hcl).
  assert (registry_ok (without_remote cfg remote)) as Hrr.
  { split.
    - intros k c [Hk _]%Hcl. by eapply ro_cluster.
    - intros id x Hx. apply Hme in Hx as Hx0. destruct Hx0 as [Hx0 _]. destruct (ro_member cfg Hro id x Hx0) as (?&[c Hc]&?).
      split_and!; [done| |done]. exists c. apply Hcl. split; [done|]. eauto. }
  split; [done|]. apply (config_ok_step cfg); try done.
  - intros k c [Hk _]%Hcl. destruct (co_clusters cfg Hco k c Hk) as (?&?&?&_). split_and!; [done..|]. left. by eexists.
  - intros id x [Hx _]%Hme. by left.
Qed.

(** ** On disk *)

Definition registry_on_disk m : Prop := ∃ cfg, disk_config m = Ok cfg ∧ registry_ok cfg.

(** The files apart from the registry. *)
Definition others_kept m m' : Prop := ∀ p, p ≠ CEPH_CLUSTERS_CFG_FILENAME → m' !! p = m !! p.

(** Saving a changed registry, or not. *)
Lemma save_if_triple m0 cfg res (changed : bool) :
  disk_config m0 = Ok cfg → config_ok res → (changed = false → res = cfg) →
  triple (λ m, m = m0) (if changed then save_config res else mret tt)
    (λ _ m, disk_config m = Ok (tidy res) ∧ others_kept m0 m ∧ (changed = false → m = m0)) (λ m, m = m0).
Proof.
  intros Hd Hok Hsame. destruct changed.
  - eapply triple_conseq; [exact (save_config_triple m0 res Hok)|done| |done]. intros _ m [? ?]. done.
  - apply triple_ret. intros m ->. rewrite (Hsame eq_refl). split_and!; try done.
    rewrite tidy_id; [done|]. by eapply disk_config_ok.
Qed.

(** Taking the lock and reading the registry. *)
Lemma locked_triple {A} m0 (k : CephClustersConfig → io A) Q E :
  (∀ cfg, disk_config m0 = Ok cfg → triple (λ m, m = m0) (k cfg) Q E) → E m0 →
  triple (λ m, m = m0) (_ ← lock_config; cfg ← config; k cfg) Q E.
Proof.
  intros Hk HE. eapply triple_bind.
  - eapply triple_conseq; [exact (triple_sync m0)|done| |by intros m ->]. intros u m Hm. exact Hm.
  - intros u. eapply triple_bind.
    + eapply triple_conseq; [exact (config_triple m0)|done| |by intros m ->]. intros cfg m Hm. exact Hm.
    + intros cfg. apply triple_pure. intros Hd. by apply Hk.
Qed.

Lemma commit_sweep_triple env m0 outcomes found :
  registry_on_disk m0 → valid_found found → in_i64 (pe_now env) = true →
  triple (λ m, m = m0) (commit_sweep env outcomes found)
    (λ _ m, ∃ cfg, disk_config m0 = Ok cfg ∧ disk_config m = Ok (swept cfg outcomes found (pe_now env)).1 ∧
              registry_ok (swept cfg outcomes found (pe_now env)).1 ∧ others_kept m0 m ∧
              ((swept cfg outcomes found (pe_now env)).2 = false → m = m0))
    (λ m, m = m0).
Proof.
  intros (cfg0&Hd0&Hro) Hf Hn. unfold commit_sweep. apply locked_triple; [|done]. intros cfg Hd.
  assert (cfg = cfg0) as -> by congruence. destruct (disk_config_ok _ _ Hd0) as [Hco Ht].
  pose proof (swept_ok cfg0 outcomes found (pe_now env) Hro Hco Ht Hf Hn) as [Hro' Hco' Ht'].
  pose proof (swept_same cfg0 found outcomes (pe_now env)) as Hsame.
  assert (∀ r, r = swept cfg0 outcomes found (pe_now env) →
    triple (λ m, m = m0) (if r.2 then save_config r.1 else mret tt)
      (λ _ m, disk_config m = Ok r.1 ∧ others_kept m0 m ∧ (r.2 = false → m = m0)) (λ m, m = m0)) as Hsave.
  { intros r ->. eapply triple_conseq; [exact (save_if_triple m0 cfg0 _ _ Hd0 Hco' Hsame)|done| |done].
    intros u m (Hm&?&?). rewrite (tidy_id _ Ht') in Hm. done. }
  eapply (triple_conseq _ (λ m, m = m0) _ _ (λ _ m, disk_config m = Ok (swept cfg0 outcomes found (pe_now env)).1 ∧ others_kept m0 m ∧
                ((swept cfg0 outcomes found (pe_now env)).2 = false → m = m0)) _ (λ m, m = m0)); [|done|intros u m (?&?&?); by exists cfg0|done].
  specialize (Hsave _ eq_refl). unfold swept in *. destruct (upsert_all cfg0 found) as [cfg1 b1].
  destruct (reconcile_unfound cfg1 found outcomes (pe_now env)) as [cfg2 b2]. exact Hsave.
Qed.

Lemma commit_detected_triple m0 found :
  registry_on_disk m0 → valid_found found →
  triple (λ m, m = m0) (commit_detected found)
    (λ _ m, ∃ cfg, disk_config m0 = Ok cfg ∧ disk_config m = Ok (upsert_all cfg found).1 ∧
              registry_ok (upsert_all cfg found).1 ∧ others_kept m0 m)
    (λ m, m = m0).
Proof.
  intros (cfg0&Hd0&Hro) Hf. unfold commit_detected. apply locked_triple; [|done]. intros cfg Hd.
  assert (cfg = cfg0) as -> by congruence. destruct (disk_config_ok _ _ Hd0) as [Hco Ht].
  pose proof (upsert_all_ok cfg0 found Hro Hco Ht Hf) as [Hro' Hco' Ht'].
  pose proof (us_same _ _ _ (upsert_all_spec cfg0 found)) as Hsame. destruct (upsert_all cfg0 found) as [res b] eqn:Hup. cbn [fst snd] in *.
  eapply triple_conseq; [exact (save_if_triple m0 cfg0 res b Hd0 Hco' Hsame)|done| |done].
  intros u m (Hm&?&_). rewrite (tidy_id _ Ht') in Hm. exists cfg0. rewrite Hup. by split_and!.
Qed.

Lemma on_remote_removed_triple m0 remote :
  registry_on_disk m0 →
  triple (λ m, m = m0) (on_remote_removed remote)
    (λ _ m, ∃ cfg, disk_config m0 = Ok cfg ∧ disk_config m = Ok (tidy (without_remote cfg remote)) ∧
              registry_ok (tidy (without_remote cfg remote)) ∧ others_kept m0 m)
    (λ m, m = m0).
Proof.
  intros (cfg0&Hd0&Hro). unfold on_remote_removed. apply locked_triple; [|done]. intros cfg Hd.
  assert (cfg = cfg0) as -> by congruence. destruct (disk_config_ok _ _ Hd0) as [Hco Ht].
  destruct (without_remote_ok cfg0 remote Hro Hco Ht) as [Hro' Hco'].
  pose proof (without_remote_same cfg0 remote) as Hsame. cbv zeta in Hsame. fold (without_remote cfg0 remote) in Hsame.
  assert (∀ r1 r2, r1 = drop_pve_members_for_remote remote cfg0 → r2 = drop_clusters_without_members r1.1 →
    without_remote cfg0 remote = r2.1) as Heq by (by intros ? ? -> ->).
  destruct (drop_pve_members_for_remote remote cfg0) as [cfg1 b1]. cbn [fst snd] in *.
  specialize (Heq _ _ eq_refl eq_refl). cbn [fst] in Heq.
  destruct (drop_clusters_without_members cfg1) as [res l]. cbn [fst snd] in *. rewrite Heq in *.
  eapply triple_conseq; [exact (save_if_triple m0 cfg0 res _ Hd0 Hco' Hsame)|done| |done].
  intros u m (Hm&?&_). exists cfg0. rewrite Heq. split_and!; [done..| |done]. destruct Hro'. by split.
Qed.

(** ** Probing *)

Definition keeps_registry m m' : Prop := m' !! CEPH_CLUSTERS_CFG_FILENAME = m !! CEPH_CLUSTERS_CFG_FILENAME.

#[local] Instance keeps_registry_preorder : PreOrder keeps_registry.
Proof. split; [done|]. intros m1 m2 m3 H12 H23. unfold keeps_registry in *. by rewrite H23. Qed.

Lemma keeps_registry_disk m m' : keeps_registry m m' → disk_config m' = disk_config m.
Proof. unfold keeps_registry, disk_config. by intros ->. Qed.
Lemma keeps_registry_on_disk m m' : keeps_registry m m' → registry_on_disk m → registry_on_disk m'.
Proof. intros Hk (cfg&Hd&Hro). exists cfg. by rewrite (keeps_registry_disk m m' Hk). Qed.

Section probe.
Context `{SafeIdRegex} `{EntryCodec Value} (env : probe_env).

Lemma write_global_keeps w :
  let '(r, w') := write_global w in
  keeps_registry (files w) (files w') ∧ match r with Ok inner => wi_namespace inner = GLOBAL_NAMESPACE | Err _ => True end.
Proof.
  unfold write_global, NamespacedCache.write, ensure_valid_namespace, lock_namespace_impl, fs_open_append, prim.
  rewrite io_bind_run. cbn [io_lift]. destruct (bail_if _ _) as [u|e]; [|done]. rewrite io_bind_run.
  assert (keeps_registry (files w) (match files w !! get_lockfile GLOBAL_NAMESPACE with
      | Some _ => files w | None => <[get_lockfile GLOBAL_NAMESPACE:=""%string]> (files w) end)) as Hk.
  { unfold keeps_registry. destruct (files w !! get_lockfile _); [done|]. by rewrite lookup_insert_ne. }
  by destruct (faults w) as [|[] fs].
Qed.

(** Storing a status writes below [global/] and creates the lock file. *)
Lemma store_status_keeps now fsid status : io_rel keeps_registry (store_status now fsid status).
Proof.
  intros w. unfold store_status. rewrite io_bind_run. pose proof (write_global_keeps w) as Hw.
  destruct (write_global w) as [[inner|e] w1]; [|by destruct Hw]. destruct Hw as [Hk Hns].
  etrans; [exact Hk|]. clear Hk. revert w1.
  change (io_rel keeps_registry (WritableCacheNamespace.set inner now (status_key fsid) status)).
  unfold WritableCacheNamespace.set, set_impl, set_at_path. rewrite Hns.
  apply io_rel_bind; [apply _|by apply io_rel_lift, _|intros u1].
  apply io_rel_bind; [apply _|by apply fs_sync_readonly, _|intros u2].
  apply io_rel_bind; [apply _|by apply io_rel_lift, _|intros d].
  apply io_rel_prim; [apply _|]. intros m. unfold keeps_registry. cbn [snd]. by rewrite lookup_insert_ne.
Qed.

Definition probes (ids : list string) (acc : Outcomes * FoundClusters) : Outcomes * FoundClusters :=
  foldl (λ acc r, add_outcome r (probe_outcome env r) acc) acc ids.

(** Probing never fails, whatever the cache does. *)
Lemma probe_from_run ids : ∀ acc w,
  ∃ w', probe_from env acc ids w = (Ok (probes ids acc), w') ∧ keeps_registry (files w) (files w').
Proof.
  induction ids as [|r ids IH]; intros acc w; cbn [probe_from]; [by exists w|].
  assert (∃ w1, probe_remote env r w = (Ok (probe_outcome env r), w1) ∧ keeps_registry (files w) (files w1)) as (w1&Hrun&Hk).
  { unfold probe_remote. destruct (probe_outcome env r) as [fsid nodes| |] eqn:Ho; [|by exists w..].
    destruct (pe_status env r) as [status|]; [|by exists w]. rewrite io_bind_run.
    pose proof (store_status_keeps (pe_now env) fsid status w) as Hs. unfold io_try.
    destruct (store_status _ _ _ w) as [res w1]. by exists w1. }
  rewrite io_bind_run, Hrun. destruct (IH (add_outcome r (probe_outcome env r) acc) w1) as (w2&Hrun2&Hk2).
  exists w2. split; [exact Hrun2|by etrans].
Qed.

(** A remote of the list reports this cluster, with this member among others. *)
Definition reported (ids : list string) (fsid r n : string) : Prop :=
  r ∈ ids ∧ ∃ nodes, probe_outcome env r = Found fsid nodes ∧ n ∈ nodes.
Definition found_on (ids : list string) (fsid : string) : Prop :=
  ∃ r nodes, r ∈ ids ∧ probe_outcome env r = Found fsid nodes.

Lemma found_on_cons r0 ids fsid :
  found_on (r0 :: ids) fsid ↔ (∃ ns, probe_outcome env r0 = Found fsid ns) ∨ found_on ids fsid.
Proof. unfold found_on. setoid_rewrite elem_of_cons. naive_solver. Qed.
Lemma reported_cons r0 ids fsid r n :
  reported (r0 :: ids) fsid r n ↔
  (r = r0 ∧ ∃ ns, probe_outcome env r0 = Found fsid ns ∧ n ∈ ns) ∨ reported ids fsid r n.
Proof.
  unfold reported. rewrite elem_of_cons. split.
  - intros [[->|?] ?]; [left|right]; done.
  - intros [[-> ?]|[? ?]]; (split; [|done]); [by left|by right].
Qed.

Lemma probes_spec ids : ∀ acc : Outcomes * FoundClusters,
  let res := probes ids acc in
  (∀ r, res.1 !! r = if decide (r ∈ ids) then Some (probe_outcome env r) else acc.1 !! r) ∧
  (∀ fsid, is_Some (res.2 !! fsid) ↔ is_Some (acc.2 !! fsid) ∨ found_on ids fsid) ∧
  (∀ fsid r n, (r, n) ∈ default [] (res.2 !! fsid) ↔ (r, n) ∈ default [] (acc.2 !! fsid) ∨ reported ids fsid r n).
Proof.
  induction ids as [|r0 ids IH]; intros acc; cbv zeta; cbn [probes foldl].
  - split_and!; [intros r; by rewrite decide_False by apply not_elem_of_nil|..].
    + intros fsid. unfold found_on. split; [by left|]. intros [?|(r&ns&Hin&_)]; [done|by apply elem_of_nil in Hin].
    + intros fsid r n. unfold reported. split; [by left|]. intros [?|(Hin&_)]; [done|by apply elem_of_nil in Hin].
  - fold (probes ids (add_outcome r0 (probe_outcome env r0) acc)).
    destruct (IH (add_outcome r0 (probe_outcome env r0) acc)) as (I1&I2&I3). split_and!.
    + intros r. rewrite I1. unfold add_outcome. cbn [fst]. rewrite lookup_insert.
      destruct (decide (r ∈ ids)); [by rewrite decide_True by set_solver|].
      destruct (decide (r0 = r)) as [->|]; [by rewrite decide_True by set_solver|by rewrite decide_False by set_solver].
    + intros fsid. rewrite I2, found_on_cons. unfold add_outcome. cbn [snd].
      destruct (probe_outcome env r0) as [f ns| |] eqn:Ho; [rewrite lookup_insert_is_Some'|..].
      * split; [intros [[->|?]|?]|intros [?|[[ns' [= ->]]|?]]]; eauto.
      * split; [intros [?|?]|intros [?|[[ns' ?]|?]]]; eauto; done.
      * split; [intros [?|?]|intros [?|[[ns' ?]|?]]]; eauto; done.
    + intros fsid r n. rewrite I3, reported_cons. unfold add_outcome. cbn [snd].
      destruct (probe_outcome env r0) as [f ns| |] eqn:Ho.
      * destruct (decide (f = fsid)) as [->|Hne].
        -- rewrite lookup_insert_eq. simpl. rewrite elem_of_app, list_elem_of_fmap. split.
           ++ intros [[?|(n'&[= -> ->]&?)]|?]; [by left|right; left; eauto|by right; right].
           ++ intros [?|[(->&ns'&[= <-]&?)|?]]; [by left; left|left; right; eauto|by right].
        -- rewrite lookup_insert_ne by done. split; [intros [?|?]; auto|]. intros [?|[(->&ns'&[= ?]&?)|?]]; auto. done.
      * split; [intros [?|?]|intros [?|[(_&ns'&?&_)|?]]]; eauto; done.
      * split; [intros [?|?]|intros [?|[(_&ns'&?&_)|?]]]; eauto; done.
Qed.

(** The remotes report fsids that are UUIDs. *)
Definition honest : Prop := ∀ r fsid nodes, probe_outcome env r = Found fsid nodes → fsid_like fsid.

Lemma honest_found ids : honest → valid_found (probes ids (∅, ∅)).2.
Proof.
  intros Hh fsid Hf. destruct (probes_spec ids (∅, ∅)) as (_&P2&_). apply P2 in Hf as [Hf|(r&ns&_&Ho)].
  - cbn in Hf. rewrite lookup_empty in Hf. by destruct Hf.
  - by eapply Hh.
Qed.
End probe.

(** ** Whole operations *)

Lemma sweep_run `{SafeIdRegex} `{EntryCodec Value} env remotes meanwhile w :
  ∃ w1, keeps_registry (files w) (files w1) ∧
    sweep env (Ok remotes) meanwhile w =
    (_ ← meanwhile; commit_sweep env (probes env (pve_remotes remotes) (∅, ∅)).1 (probes env (pve_remotes remotes) (∅, ∅)).2) w1.
Proof.
  destruct (probe_from_run env (pve_remotes remotes) (∅, ∅) w) as (w1&Hrun&Hk). exists w1. split; [done|].
  unfold sweep, probe_all. rewrite io_bind_run. cbn [io_lift]. rewrite io_bind_run, Hrun.
  by destruct (probes _ _ _).
Qed.

Definition preserves {A} (c : io A) : Prop := triple registry_on_disk c (λ _, registry_on_disk) registry_on_disk.

Lemma preserves_rel {A} (c : io A) : io_rel keeps_registry c → preserves c.
Proof.
  intros Hc w Hw. specialize (Hc w). destruct (c w) as [[a|e] w']; by eapply keeps_registry_on_disk.
Qed.
Lemma preserves_bind {A B} (c : io A) (k : A → io B) : preserves c → (∀ a, preserves (k a)) → preserves (c ≫= k).
Proof. intros Hc Hk. by eapply triple_bind. Qed.
Lemma preserves_try {A} (c : io A) : preserves c → preserves (io_try c).
Proof. intros Hc. by eapply triple_try. Qed.

Lemma commit_sweep_preserves env outcomes found :
  valid_found found → in_i64 (pe_now env) = true → preserves (commit_sweep env outcomes found).
Proof.
  intros Hf Hn. apply triple_from. intros m0 Hm. eapply triple_conseq; [exact (commit_sweep_triple env m0 outcomes found Hm Hf Hn)|done| |].
  - intros u m (cfg&_&Hd&Hro&_). by eexists.
  - by intros m ->.
Qed.
Lemma commit_detected_preserves found : valid_found found → preserves (commit_detected found).
Proof.
  intros Hf. apply triple_from. intros m0 Hm. eapply triple_conseq; [exact (commit_detected_triple m0 found Hm Hf)|done| |].
  - intros u m (cfg&_&Hd&Hro&_). by eexists.
  - by intros m ->.
Qed.
Lemma on_remote_removed_preserves remote : preserves (on_remote_removed remote).
Proof.
  apply triple_from. intros m0 Hm. eapply triple_conseq; [exact (on_remote_removed_triple m0 remote Hm)|done| |].
  - intros u m (cfg&_&Hd&Hro&_). by eexists.
  - by intros m ->.
Qed.

Section steps.
Context `{SafeIdRegex} `{EntryCodec Value}.

Lemma sweep_preserves env remotes meanwhile :
  honest env → in_i64 (pe_now env) = true → preserves meanwhile → preserves (sweep env remotes meanwhile).
Proof.
  intros Hh Hn Hm w Hw. destruct remotes as [remotes|e]; [|exact Hw].
  destruct (sweep_run env remotes meanwhile w) as (w1&Hk&->).
  assert (registry_on_disk (files w1)) as Hw1 by (by eapply keeps_registry_on_disk). revert Hw1.
  apply (preserves_bind meanwhile); [done|]. intros u. apply commit_sweep_preserves; [|done]. by apply honest_found.
Qed.
Lemma detect_preserves env ids meanwhile : honest env → preserves meanwhile → preserves (detect_and_upsert env ids meanwhile).
Proof.
  intros Hh Hm w Hw. destruct (probe_from_run env ids (∅, ∅) w) as (w1&Hrun&Hk).
  assert (registry_on_disk (files w1)) as Hw1 by (by eapply keeps_registry_on_disk).
  unfold detect_and_upsert, probe_all. rewrite io_bind_run, Hrun.
  pose proof (honest_found env ids Hh) as Hf. destruct (probes env ids (∅, ∅)) as [outcomes found]. cbn [snd] in Hf.
  case_bool_decide; [exact Hw1|]. revert Hw1. apply (preserves_bind meanwhile); [done|]. intros u.
  by apply commit_detected_preserves.
Qed.

(** *** Requests that change the remotes *)

Section requests.
Context {CR CS : Type} `{SectionConfigData CR Remote} `{!SectionText CR}
        `{SectionConfigData CS RemoteShadow} `{!SectionText CS} `{ConfigDigests string}.

Lemma save_remotes_keeps (c : CR) : io_rel keeps_registry (RemotesConfig.save_config (CS:=CS) c).
Proof.
  unfold RemotesConfig.save_config, shadow_config.
  apply io_rel_bind; [apply _| |intros s].
  { apply io_rel_bind; [apply _|by apply fs_open_readonly, _|intros o]. by apply io_rel_lift, _. }
  destruct (add_shadow_entries _ _ _) as [c' s'].
  apply io_rel_bind; [apply _|by apply io_rel_lift, _|intros raw_shadow].
  apply io_rel_bind; [apply _| |intros u].
  { apply io_rel_prim; [apply _|]. intros m. unfold keeps_registry. cbn [snd]. by rewrite lookup_insert_ne. }
  apply io_rel_bind; [apply _|by apply io_rel_lift, _|intros raw].
  apply io_rel_prim; [apply _|]. intros m. unfold keeps_registry. cbn [snd]. by rewrite lookup_insert_ne.
Qed.

Lemma locked_remotes_preserves {A} (k : CR * string → io A) :
  (∀ r, preserves (k r)) → preserves (_ ← RemotesConfig.lock_config; r ← RemotesConfig.config (CR:=CR); k r).
Proof.
  intros Hk. apply preserves_bind; [by apply preserves_rel, fs_sync_readonly, _|intros u].
  apply preserves_bind; [|done]. apply preserves_rel. unfold RemotesConfig.config.
  apply io_rel_bind; [apply _|by apply fs_open_readonly, _|intros o].
  apply io_rel_bind; [apply _|by apply io_rel_lift, _|intros d]. by apply io_rel_ret, _.
Qed.

Lemma fail_preserves {A} e : preserves (io_fail (A:=A) e).
Proof. by apply preserves_rel, io_rel_fail, _. Qed.
Lemma lift_preserves {A} (r : result error A) : preserves (io_lift r).
Proof. by apply preserves_rel, io_rel_lift, _. Qed.
Lemma ret_preserves {A} (a : A) : preserves (mret a).
Proof. by apply preserves_rel, io_rel_ret, _. Qed.
#[local] Hint Resolve fail_preserves lift_preserves ret_preserves save_remotes_keeps preserves_rel : pdm.

Lemma request_preserves create delete_token_on q :
  preserves (handle_remote_request (CR:=CR) (CS:=CS) create delete_token_on on_remote_removed q).
Proof.
  destruct q as [entry create_token|id updater delete expected|id delete_token]; cbn [handle_remote_request];
    apply locked_remotes_preserves; intros [remotes content].
  - destruct (sc_get remotes (r_id entry)); [auto with pdm|]. apply preserves_bind; [|auto with pdm].
    destruct create_token; [|auto with pdm]. apply preserves_bind; [auto with pdm|]. intros [? ?]. auto with pdm.
  - destruct (detect_modification _ _); [|auto with pdm]. destruct (sc_get remotes id); auto with pdm.
  - apply preserves_bind; [|intros u].
    { destruct delete_token; [|auto with pdm]. destruct (sc_get remotes id); [|auto with pdm].
      apply preserves_bind; auto with pdm. }
    destruct (sc_get remotes id); [|auto with pdm]. apply preserves_bind; [auto with pdm|intros u'].
    apply preserves_bind; [apply preserves_try, on_remote_removed_preserves|auto with pdm].
Qed.

(** What the daemon does to the registry: a sweep, a detection, a request that
    changes the remotes (removing one calls [on_remote_removed]), anything that
    leaves the file alone, one after the other or while the probes of another run. *)
Inductive registry_step : io unit → Prop :=
| step_elsewhere c : io_rel keeps_registry c → registry_step c
| step_detect env ids meanwhile : honest env → registry_step meanwhile → registry_step (detect_and_upsert env ids meanwhile)
| step_sweep env remotes meanwhile :
    honest env → in_i64 (pe_now env) = true → registry_step meanwhile → registry_step (run_once env remotes meanwhile)
| step_request create delete_token_on q :
    registry_step (handle_remote_request (CR:=CR) (CS:=CS) create delete_token_on on_remote_removed q)
| step_then c c' : registry_step c → registry_step c' → registry_step (_ ← io_try c; c').

Lemma registry_step_preserves c : registry_step c → preserves c.
Proof.
  induction 1 as [c Hc|env ids k Hh _ IH|env remotes k Hh Hn _ IH|create del q|c c' _ IH _ IH'].
  - by apply preserves_rel.
  - by apply detect_preserves.
  - apply preserves_bind; [by apply preserves_try, sweep_preserves|]. intros u. apply ret_preserves.
  - apply request_preserves.
  - apply preserves_bind; [by apply preserves_try|done].
Qed.
End requests.
End steps.
End registry.
