(* ===== verification/CephText.v ===== *)
(** * A text format for the Ceph registry

    A concrete format for which the laws of the registry file and of cached JSON
    values hold, for runs on concrete inputs: an object whose values are strings,
    integers, booleans or lists of strings, as the bits of its encoding. *)

From S2P Require Import Prelude FileSystem NamespacedCache RemotesConfig JsonValue CephRegistry CephConfig.

Abbreviation scalar := (string + (Z + (bool + list string)))%type.
Abbreviation flat := (list (string * scalar)).

Definition to_scalar (v : Value) : option scalar :=
  match v with
  | VString s => Some (inl s)
  | VNumber (NInt z) => Some (inr (inl z))
  | VBool b => Some (inr (inr (inl b)))
  | VArray l => l ← mapM as_str l; Some (inr (inr (inr l)))
  | _ => None
  end.
Definition of_scalar (s : scalar) : Value :=
  match s with
  | inl s => VString s
  | inr (inl z) => VNumber (NInt z)
  | inr (inr (inl b)) => VBool b
  | inr (inr (inr l)) => VArray (VString <$> l)
  end.
Definition to_flat (v : Value) : option flat :=
  match v with VObject m => mapM (λ '(k, v), pair k <$> to_scalar v) m | _ => None end.
Definition of_flat (l : flat) : Value := VObject (prod_map (λ k, k) of_scalar <$> l).

Lemma of_to_scalar v s : to_scalar v = Some s → of_scalar s = v.
Proof.
  destruct v as [|b|[z|]|t|l|]; simpl; try done; try by intros [= <-].
  destruct (mapM as_str l) as [l'|] eqn:Hl; [|done]. intros [= <-]. cbn [of_scalar]. f_equal.
  apply mapM_Some_1 in Hl. induction Hl as [|v s l l' Hv _ IH]; [done|]. rewrite fmap_cons, IH. destruct v; try done. by injection Hv as ->.
Qed.
Lemma of_to_flat v l : to_flat v = Some l → of_flat l = v.
Proof.
  destruct v as [| | | | |m]; try done. cbn [to_flat]. intros Hl%mapM_Some_1. unfold of_flat. f_equal.
  induction Hl as [|[k v] [k' s] m l Hv _ IH]; [done|]. rewrite fmap_cons, IH. cbn [prod_map fst snd]. f_equal.
  destruct (to_scalar v) as [s'|] eqn:Hs; [|done]. injection Hv as <- <-. unfold prod_map. simpl. f_equal. by apply of_to_scalar.
Qed.

(** ** Cached values *)

Definition json_codec : EntryCodec Value := {|
  entry_to_json e := v ← to_flat (entry_value e); Some (bits (encode (entry_timestamp e, v)));
  entry_of_json s := '(t, v) ← decode (A:=Z * flat) (of_bits s); Some (mkCacheEntry t (of_flat v));
|}.
Lemma json_codec_laws : @EntryCodecLaws Value json_codec.
Proof.
  split; intros [t v] s; cbn [entry_to_json json_codec entry_value entry_timestamp];
    destruct (to_flat v) as [l|] eqn:Hl; try done; cbn [mbind option_bind]; intros [= <-]; [|apply bits_utf8].
  cbn [entry_of_json json_codec]. rewrite of_bits_bits, decode_encode. cbn [mbind option_bind]. by rewrite (of_to_flat v l Hl).
Qed.

(** ** The registry file *)

Definition section_to_flat (x : string * Value) : option (string * flat) := l ← to_flat x.2; Some (x.1, l).
Definition section_of_flat (x : string * flat) : string * Value := (x.1, of_flat x.2).

Abbreviation flat_sections := (gmap string (string * flat)).

Definition flat_key_ok (ty : string) (x : string * scalar) : bool :=
  bool_decide (x.1 ∈ known_keys ty) || match x.2 with inl _ => true | _ => false end.
Definition flat_ok (id : string) (x : string * flat) : bool :=
  bool_decide (NoDup x.2.*1) &&
  match map_get (prod_map (λ k, k) of_scalar <$> x.2) "id" with Some (VString s) => String.eqb s id | _ => false end &&
  forallb (flat_key_ok x.1) x.2.

Definition unflatten (m : flat_sections) : Sections := section_of_flat <$> m.
Definition text_parse (s : string) : result error Sections :=
  if String.eqb s "" then Ok ∅
  else m ← ok_or (decode (A:=flat_sections) (of_bits s)) EInvalid;
       if bool_decide (map_Forall (λ id x, flat_ok id x = true) m) then Ok (unflatten m) else Err EInvalid.
Definition text_write (s : Sections) : result error string :=
  if bool_decide (map_Forall (λ _ x, is_Some (to_flat x.2)) s)
  then let m : flat_sections := omap section_to_flat s in Ok (bits (encode m)) else Err EInvalid.
Definition sections_text : CephSections := {| sections_parse := text_parse; sections_write s _ := text_write s |}.

Lemma flat_keys (l : flat) : (prod_map (λ k, k) of_scalar <$> l).*1 = l.*1.
Proof. rewrite <-list_fmap_compose. by apply list_fmap_ext. Qed.

Lemma flat_ok_section id ty l : flat_ok id (ty, l) = true ↔ section_ok id (ty, of_flat l).
Proof.
  unfold flat_ok, section_ok, of_flat. cbn [fst snd]. rewrite !andb_true_iff, bool_decide_eq_true, forallb_forall.
  assert (∀ k v, (k, v) ∈ prod_map (λ k, k) of_scalar <$> l ↔ ∃ s, v = of_scalar s ∧ (k, s) ∈ l) as Hin.
  { intros k v. rewrite list_elem_of_fmap. split; [intros ([k' s]&[= -> ->]&?); by exists s|intros (s&->&?); by exists (k, s)]. }
  split.
  - intros [[Hnd Hid] Hk]. eexists. split; [reflexivity|]. rewrite flat_keys. split; [done|]. split.
    + destruct (map_get _ "id") as [[]|]; try done. by apply String.eqb_eq in Hid as ->.
    + intros k v (s&->&Hs%list_elem_of_In)%Hin. split; [by destruct s as [|[|[]]]|]. specialize (Hk _ Hs). unfold flat_key_ok in Hk.
      cbn [fst snd] in Hk. apply orb_true_iff in Hk as [Hk|Hk]; [left; by apply bool_decide_eq_true in Hk|right].
      destruct s; [by eexists|done].
  - intros (obj&[= <-]&Hnd&Hid&Hk).
    rewrite flat_keys in Hnd. split; [split; [done|]|].
    + rewrite Hid. apply String.eqb_refl.
    + intros [k s] Hs%list_elem_of_In. destruct (Hk k (of_scalar s)) as [_ Hor]; [apply Hin; eauto|].
      unfold flat_key_ok. cbn [fst snd]. destruct Hor as [Hor|[t Ht]]; [by rewrite bool_decide_true|].
      destruct s as [|[|[]]]; [by rewrite orb_true_r|done..].
Qed.

Lemma unflatten_all (s : Sections) : map_Forall (λ _ x, is_Some (to_flat x.2)) s → unflatten (omap section_to_flat s) = s.
Proof.
  intros Hall. unfold unflatten. apply map_eq. intros id. rewrite lookup_fmap, lookup_omap. destruct (s !! id) as [[ty v]|] eqn:Hs; [|done].
  destruct (Hall id _ Hs) as [l Hl]. cbn [snd] in Hl. simpl. unfold section_to_flat. cbn [snd]. rewrite Hl. simpl.
  unfold section_of_flat. cbn [fst snd]. by rewrite (of_to_flat v l Hl).
Qed.
Lemma flat_bits_nil (m : flat_sections) : bits (encode m) = ""%string → m = ∅.
Proof.
  intros Hnil%(f_equal of_bits). rewrite of_bits_bits in Hnil.
  assert (decode (A:=flat_sections) 1%positive = Some m) as Hd by (change 1%positive with (of_bits ""); rewrite <-Hnil; apply decode_encode).
  assert (decode (A:=flat_sections) 1%positive = Some ∅) as He by (vm_compute; done). congruence.
Qed.

Lemma sections_text_laws : @CephSectionLaws sections_text.
Proof.
  split.
  - intros s order raw. cbn [sections_write sections_parse sections_text]. unfold text_write, text_parse. case_bool_decide as Hall; [|done]. intros [= <-] _ _ Hok.
    set (m := omap section_to_flat s : flat_sections).
    pose proof (unflatten_all s Hall) as Hm. fold m in Hm.
    destruct (String.eqb_spec (bits (encode m)) "") as [Hnil%flat_bits_nil|_].
    + rewrite <-Hm, Hnil. unfold unflatten. by rewrite fmap_empty.
    + rewrite of_bits_bits, decode_encode. cbn [ok_or mbind result_bind]. rewrite bool_decide_true; [by rewrite Hm|].
      intros id [ty l] Hx. apply flat_ok_section, Hok. unfold unflatten in Hm. rewrite <-Hm, lookup_fmap, Hx. done.
  - intros raw s id x. cbn [sections_parse sections_text]. unfold text_parse. destruct (String.eqb raw ""); [intros [= <-]; by rewrite lookup_empty|].
    destruct (decode _) as [m|]; [|done]. cbn [ok_or mbind result_bind]. case_bool_decide as Hok; [|done]. intros [= <-].
    unfold unflatten. rewrite lookup_fmap. destruct (m !! id) as [[ty l]|] eqn:Hm; [|done]. intros [= <-]. by apply flat_ok_section, Hok.
  - intros s order raw. cbn [sections_write sections_text]. unfold text_write. case_bool_decide; [|done]. intros [= <-]. apply bits_utf8.
Qed.
