(* ===== verification/CephProperties.v ===== *)
(** * Properties of the Ceph registry

    What a sweep makes of every cluster, whatever system call fails; that sweeping
    again writes nothing; an invariant that everything the daemon does keeps; what
    removing a remote leaves behind; that unknown keys survive; and that the list of
    clusters and the lookup of one agree on who may see what. *)

From S2P Require Import Prelude FileSystem RemoteUpid SectionConfig ResourceList NamespacedCache RemoteData RemotesConfig JsonValue CephRegistry CephConfig CephSweep CephSpec CephText.

Section properties.
Context `{AuthidTextLaws} `{CephSectionLaws} `{SafeIdRegex} `{EntryCodec Value}.
Implicit Types (cfg : CephClustersConfig).

(** ** Sweeping *)

(** Without other tasks between the probes and the write. *)
Lemma sweep_alone env remotes w :
  ∃ w1, keeps_registry (files w) (files w1) ∧
    sweep env (Ok remotes) (mret tt) w =
    commit_sweep env (probes env (pve_remotes remotes) (∅, ∅)).1 (probes env (pve_remotes remotes) (∅, ∅)).2 w1.
Proof. destruct (sweep_run env remotes (mret tt) w) as (w1&Hk&Heq). by exists w1. Qed.

(** One of the given remotes, which has a member of the cluster, answered [o]. *)
Definition asked env (ids : list string) cfg (fsid : string) (o : ProbeOutcome) : Prop :=
  ∃ id m r, cfg_members cfg !! id = Some m ∧ cm_kind m = CephMemberKind.Pve ∧ cm_cluster m = fsid ∧
    cm_remote m = Some r ∧ r ∈ ids ∧ probe_outcome env r = o.

(** What a sweep over the remotes [ids] makes of the entry of a cluster. *)
Definition cluster_after env (ids : list string) cfg (fsid : string) (after : option CephCluster) : Prop :=
  match cfg_clusters cfg !! fsid with
  | None =>
      (found_on env ids fsid → after = Some (set_state (Some CephClusterState.Detected) None (new_cluster fsid))) ∧
      (¬ found_on env ids fsid → after = None)
  | Some c =>
      match cc_forgotten c with
      | Some _ => after = Some c
      | None =>
          (found_on env ids fsid → after = Some (set_state (Some CephClusterState.Detected) None c)) ∧
          (¬ found_on env ids fsid →
             (asked env ids cfg fsid ProbeUnreachable →
                ∃ st missing, after = Some (set_state (Some st) missing c) ∧ st ≠ CephClusterState.Gone ∧
                  (cc_last_seen_missing c = None → missing = None) ∧
                  ((∀ o, asked env ids cfg fsid o → o = ProbeUnreachable) → st = CephClusterState.Unreachable)) ∧
             ((∃ o, asked env ids cfg fsid o) → ¬ asked env ids cfg fsid ProbeUnreachable →
                after = Some (set_state (Some CephClusterState.Gone) (Some (default (pe_now env) (cc_last_seen_missing c))) c)) ∧
             ((¬ ∃ o, asked env ids cfg fsid o) → after = Some c))
      end
  end.

Lemma probed_asked env ids cfg fsid o :
  probed cfg (probes env ids (∅, ∅)).1 fsid o ↔ asked env ids cfg fsid o.
Proof.
  destruct (probes_spec env ids (∅, ∅)) as (P1&_). unfold probed, asked.
  split; intros (id&m&r&Hm&Hk&Hc&Hr&Ho); exists id, m, r.
  - rewrite P1 in Ho. cbn [fst] in Ho. rewrite lookup_empty in Ho. destruct (decide (r ∈ ids)); [|done].
    injection Ho as Ho. done.
  - destruct Ho as [Hin <-]. rewrite P1, decide_True by done. done.
Qed.

Lemma swept_cluster_after env ids cfg fsid :
  let '(outcomes, found) := probes env ids (∅, ∅) in
  cluster_after env ids cfg fsid (cfg_clusters (swept cfg outcomes found (pe_now env)).1 !! fsid).
Proof.
  pose proof (λ o, probed_asked env ids cfg fsid o) as Hpa. destruct (probes_spec env ids (∅, ∅)) as (_&P2&_).
  specialize (P2 fsid). destruct (probes env ids (∅, ∅)) as [outcomes found]. cbn [fst snd] in *.
  rewrite lookup_empty in P2. assert (is_Some (found !! fsid) ↔ found_on env ids fsid) as Hfo.
  { rewrite P2. split; [intros [[? ?]|?]; done|by right]. }
  clear P2. pose proof (swept_clusters cfg found outcomes (pe_now env) fsid) as Hcl. unfold cluster_after. cbv zeta in Hcl.
  destruct (cfg_clusters cfg !! fsid) as [c|].
  - destruct (cc_forgotten c) as [z|]; [by destruct (found !! fsid)|].
    destruct (found !! fsid) as [ms|].
    + split; [done|]. intros Hn. exfalso. apply Hn, Hfo. by eexists.
    + split; [intros Hf; apply Hfo in Hf as [? ?]; done|]. intros _. setoid_rewrite Hpa in Hcl.
      destruct Hcl as [Hun Hrest]. split; [|exact Hrest]. intros Ha.
      exists CephClusterState.Unreachable, (cc_last_seen_missing c). split_and!; [by apply Hun|done..].
  - destruct (found !! fsid) as [ms|].
    + split; [done|]. intros Hn. exfalso. apply Hn, Hfo. by eexists.
    + split; [intros Hf; apply Hfo in Hf as [? ?]; done|done].
Qed.

(** The members after a sweep: those before, and those that were reported for a
    cluster that is not forgotten. *)
Definition members_after env (ids : list string) cfg cfg' : Prop :=
  (∀ id m, cfg_members cfg !! id = Some m → cfg_members cfg' !! id = Some m) ∧
  (∀ id m, cfg_members cfg' !! id = Some m → cfg_members cfg !! id = Some m ∨
     ∃ fsid r n, tombstoned cfg fsid = false ∧ reported env ids fsid r n ∧ id = member_id fsid n ∧ m = new_member fsid r n) ∧
  (∀ fsid r n, tombstoned cfg fsid = false → reported env ids fsid r n → is_Some (cfg_members cfg' !! member_id fsid n)).

Lemma swept_members_after env ids cfg :
  let '(outcomes, found) := probes env ids (∅, ∅) in
  members_after env ids cfg (swept cfg outcomes found (pe_now env)).1.
Proof.
  destruct (probes_spec env ids (∅, ∅)) as (_&_&P3). destruct (probes env ids (∅, ∅)) as [outcomes found]. cbn [snd] in P3.
  destruct (swept_members cfg found outcomes (pe_now env)) as [_ Hm].
  destruct (upsert_all_spec cfg found) as [_ _ Hkept Hnew Hadded _ _]. unfold members_after. rewrite Hm.
  split_and!; [done| |].
  - intros id m Hin. destruct (Hnew id m Hin) as [?|(fsid&ms&r&n&Hf&Ht&Hrn&->&->)]; [by left|]. right.
    exists fsid, r, n. split_and!; try done. specialize (P3 fsid r n). rewrite Hf, lookup_empty in P3.
    destruct (proj1 P3 Hrn) as [He|?]; [by apply elem_of_nil in He|done].
  - intros fsid r n Ht Hr. specialize (P3 fsid r n). destruct (found !! fsid) as [ms|] eqn:Hf.
    + eapply Hadded; [exact Hf|done|]. apply P3. by right.
    + exfalso. apply (elem_of_nil (r, n)), P3. by right.
Qed.

(** C13: A sweep asks every PVE remote of the configuration and leaves the registry on
    disk with, for every cluster: [Detected] if a remote reported it (and no time of
    loss); [Gone], with the time since when it is missing, if all remotes behind its
    members that were asked answered without it; not [Gone] if one of them could
    not be asked, and [Unreachable] if none of them could; unchanged if the operator
    has forgotten it or none of its remotes was asked.  Members are only added, for
    the nodes that were reported; unknown keys are kept.  If any step of the write
    fails, the file is as before.  It is stated for a sweep during which nothing else
    changes the registry ([mret tt] between the requests and the write), for a
    registry that is well formed ([registry_ok]), for remotes that report fsids of the
    length of a UUID ([honest]), and for a time that is an [i64]. *)
Theorem sweep_outcome env remotes w cfg :
  disk_config (files w) = Ok cfg → registry_ok cfg → honest env → in_i64 (pe_now env) = true →
  match sweep env (Ok remotes) (mret tt) w with
  | (Ok _, w') =>
      ∃ cfg', disk_config (files w') = Ok cfg' ∧ cfg_extras cfg' = cfg_extras cfg ∧
        (∀ fsid, cluster_after env (pve_remotes remotes) cfg fsid (cfg_clusters cfg' !! fsid)) ∧
        members_after env (pve_remotes remotes) cfg cfg'
  | (Err _, w') => keeps_registry (files w) (files w')
  end.
Proof.
  intros Hd Hro Hh Hn. destruct (sweep_alone env remotes w) as (w1&Hk&->).
  pose proof (honest_found env (pve_remotes remotes) Hh) as Hf. pose proof (swept_cluster_after env (pve_remotes remotes) cfg) as Hca.
  pose proof (swept_members_after env (pve_remotes remotes) cfg) as Hma.
  destruct (probes env (pve_remotes remotes) (∅, ∅)) as [outcomes found]. cbn [fst snd] in *.
  assert (disk_config (files w1) = Ok cfg) as Hd1 by (by rewrite (keeps_registry_disk _ _ Hk)).
  pose proof (commit_sweep_triple env (files w1) outcomes found ltac:(by exists cfg) Hf Hn w1 eq_refl) as Ht.
  destruct (commit_sweep env outcomes found w1) as [[u|e] w']; [|by rewrite Ht].
  destruct Ht as (cfg0&Hd0&Hd'&_). assert (cfg0 = cfg) as -> by congruence.
  eexists. split_and!; [exact Hd'|apply swept_members|done|done].
Qed.

(** A second sweep, at any time, during which the remotes answer as before, writes
    nothing to the registry. *)
Theorem sweep_idempotent env now' remotes w w1 cfg :
  disk_config (files w) = Ok cfg → registry_ok cfg → honest env → in_i64 (pe_now env) = true → in_i64 now' = true →
  sweep env (Ok remotes) (mret tt) w = (Ok tt, w1) →
  keeps_registry (files w1)
    (files (sweep (mkProbeEnv (pe_connect env) (pe_status env) now') (Ok remotes) (mret tt) w1).2).
Proof.
  intros Hd Hro Hh Hn Hn' Hrun. set (env' := mkProbeEnv _ _ now').
  assert (∀ ids, probes env' ids (∅, ∅) = probes env ids (∅, ∅)) as Hp by done.
  pose proof (honest_found env (pve_remotes remotes) Hh) as Hf.
  destruct (sweep_alone env remotes w) as (w0&Hk&Heq). rewrite Heq in Hrun. clear Heq.
  destruct (sweep_alone env' remotes w1) as (w2&Hk2&->). rewrite Hp.
  destruct (probes env (pve_remotes remotes) (∅, ∅)) as [outcomes found]. cbn [fst snd] in *.
  assert (disk_config (files w0) = Ok cfg) as Hd0 by (by rewrite (keeps_registry_disk _ _ Hk)).
  pose proof (commit_sweep_triple env (files w0) outcomes found ltac:(by exists cfg) Hf Hn w0 eq_refl) as Ht. rewrite Hrun in Ht.
  destruct Ht as (cfg0&Hd0'&Hd1&Hro1&_). assert (cfg0 = cfg) as -> by congruence.
  assert (disk_config (files w2) = Ok (swept cfg outcomes found (pe_now env)).1) as Hd2 by (by rewrite (keeps_registry_disk _ _ Hk2)).
  pose proof (commit_sweep_triple env' (files w2) outcomes found ltac:(by eexists) Hf Hn' w2 eq_refl) as Ht2.
  etrans; [|exact Hk2]. unfold keeps_registry.
  destruct (commit_sweep env' outcomes found w2) as [[u|e] w']; cbn [snd].
  - destruct Ht2 as (cfg2&Hd2'&_&_&_&Hsame). assert (cfg2 = (swept cfg outcomes found (pe_now env)).1) as -> by congruence.
    rewrite Hsame; [done|]. pose proof (swept_again_same cfg found outcomes (pe_now env) now') as Hag. cbv zeta in Hag.
    unfold env'. cbn [pe_now]. by rewrite Hag.
  - by rewrite Ht2.
Qed.

(** ** Everything the daemon does *)

(** C23: Whatever the daemon does to the registry, in any order, with other tasks running
    while the remotes are probed and with any system call failing, the file holds a
    registry whose clusters have a UUID, whose members all belong to a registered
    cluster, and whose PVE members name their remote and node and are filed under
    the id made from cluster and node. *)
Theorem registry_invariant {CR CS : Type} `{SectionConfigData CR Remote} `{!SectionText CR}
    `{SectionConfigData CS RemoteShadow} `{!SectionText CS} `{ConfigDigests string} (c : io unit) (w : world) :
  registry_step (CR:=CR) (CS:=CS) c → registry_on_disk (files w) → registry_on_disk (files (c w).2).
Proof.
  intros Hc Hw. pose proof (registry_step_preserves c Hc w Hw) as Ht. by destruct (c w) as [[u|e] w'].
Qed.

(** ** Removing a remote *)

(** After the clean-up that follows the removal of a remote the registry on disk has
    exactly the members that are not PVE members on that remote, and exactly the
    clusters that still have one; when a step of it fails the file is as before. *)
Theorem removed_remote_forgotten remote w cfg :
  disk_config (files w) = Ok cfg → registry_ok cfg →
  match on_remote_removed remote w with
  | (Ok _, w') =>
      ∃ cfg', disk_config (files w') = Ok cfg' ∧
        (∀ id m, cfg_members cfg' !! id = Some m ↔ cfg_members cfg !! id = Some m ∧ is_member_on remote m = false) ∧
        (∀ fsid c, cfg_clusters cfg' !! fsid = Some c ↔
           cfg_clusters cfg !! fsid = Some c ∧ ∃ id m, cfg_members cfg' !! id = Some m ∧ cm_cluster m = fsid)
  | (Err _, w') => files w' = files w
  end.
Proof.
  intros Hd Hro. pose proof (on_remote_removed_triple (files w) remote ltac:(by exists cfg) w eq_refl) as Ht.
  destruct (on_remote_removed remote w) as [[u|e] w']; [|exact Ht].
  destruct Ht as (cfg0&Hd0&Hd'&_). assert (cfg0 = cfg) as -> by congruence.
  destruct (without_remote_spec cfg remote) as (_&Hm&Hc). eexists. split_and!; [exact Hd'|exact Hm|exact Hc].
Qed.

(** ** The file *)

(** C40: Writing a registry that was read gives a file that reads as the same registry,
    the keys of a section that this version does not know included. *)
Theorem registry_roundtrip (raw raw' : string) cfg :
  parse raw = Ok cfg → write cfg = Ok raw' → parse raw' = Ok cfg.
Proof.
  intros Hp Hw. rewrite (parse_write cfg raw' (parse_ok raw cfg Hp) Hw). f_equal. by eapply tidy_id, parse_tidy.
Qed.

(** ** Access *)

Lemma cluster_accessible_members u cfg id privs :
  cluster_accessible u cfg id privs = Ok true →
  ∃ m r, m ∈ sorted_members cfg id ∧ cm_kind m = CephMemberKind.Pve ∧ cm_remote m = Some r ∧
    any_privs_below u ["resource"%string; r] privs = Ok true.
Proof.
  unfold cluster_accessible, sorted_members. setoid_rewrite elem_of_sort_by. induction (members_of cfg id) as [|m l IH]; simpl; [done|].
  destruct (member_accessible u m privs) as [[]|] eqn:Hm; simpl; [|..|done].
  - intros _. exists m. unfold member_accessible in Hm. destruct (cm_kind m) eqn:Hk; [|done]. destruct (cm_remote m) as [r|] eqn:Hr; [|done].
    exists r. split_and!; try done. left.
  - intros Ha. destruct (IH Ha) as (m'&r&Hin&?). exists m', r. split; [by right|done].
Qed.

Lemma lookup_cluster_Ok u cfg id privs c ms :
  lookup_cluster u cfg id privs = Ok (c, ms) ↔
  cfg_clusters cfg !! id = Some c ∧ ms = sorted_members cfg id ∧ cluster_accessible u cfg id privs = Ok true.
Proof.
  unfold lookup_cluster, check_cluster_access. destruct (cfg_clusters cfg !! id) as [c'|]; simpl; [|naive_solver].
  destruct (cluster_accessible u cfg id privs) as [[]|]; simpl; naive_solver.
Qed.

Lemma collect_accessible_Ok u cfg privs l out x :
  collect_accessible u cfg privs l = Ok out →
  x ∈ out ↔ ∃ id, (id, x.1) ∈ l ∧ x.2 = sorted_members cfg id ∧ cluster_accessible u cfg id privs = Ok true.
Proof.
  induction l as [|[id c] l IH] in out |- *; cbn [collect_accessible].
  - intros [= <-]. split; [by intros ?%elem_of_nil|]. intros (?&?%elem_of_nil&_). done.
  - destruct (cluster_accessible u cfg id privs) as [a|] eqn:Ha; [|done]. cbn [mbind result_bind].
    destruct (collect_accessible u cfg privs l) as [rest|]; [|done]. cbn [mbind result_bind]. intros [= <-].
    specialize (IH rest eq_refl). setoid_rewrite elem_of_cons. destruct x as [xc xm]. cbn [fst snd] in *.
    destruct a; rewrite ?elem_of_cons, IH; clear IH; split.
    + intros [[= -> ->]|(id'&?&?)]; [exists id; by split_and!; [left|..]|exists id'; by split; [right|]].
    + intros (id'&[[= -> ->]|?]&->&?); [by left|right; eauto].
    + intros (id'&?&?). exists id'. by split; [right|].
    + intros (id'&[[= -> ->]|?]&->&?); [congruence|eauto].
Qed.

Lemma collect_accessible_keys u cfg privs l out :
  (∀ id c, (id, c) ∈ l → cc_id c = id) → collect_accessible u cfg privs l = Ok out →
  map (λ x, cc_id x.1) out `sublist_of` l.*1.
Proof.
  induction l as [|[id c] l IH] in out |- *; cbn [collect_accessible]; intros Hid; [by intros [= <-]|].
  destruct (cluster_accessible u cfg id privs) as [a|]; [|done]. cbn [mbind result_bind].
  destruct (collect_accessible u cfg privs l) as [rest|]; [|done]. cbn [mbind result_bind]. intros [= <-].
  assert (map (λ x, cc_id x.1) rest `sublist_of` l.*1) as Hs by (apply IH; [|done]; intros id' c' Hin; apply Hid; by right).
  destruct a; simpl; [|by apply sublist_cons]. rewrite (Hid id c ltac:(left)). by apply sublist_skip.
Qed.

(** The list of clusters has exactly the entries that looking a cluster up gives the
    same caller, each once and ordered by id; each has a PVE member on a remote for
    which the caller has one of the privileges. *)
Theorem accessible_is_lookup u raw cfg privs l :
  parse raw = Ok cfg → accessible_clusters u cfg privs = Ok l →
  (∀ c ms, (c, ms) ∈ l ↔ lookup_cluster u cfg (cc_id c) privs = Ok (c, ms)) ∧
  StronglySorted (cle (cmp_on (λ x, cc_id x.1) String.compare)) l ∧ NoDup (map (λ x, cc_id x.1) l) ∧
  ∀ c ms, (c, ms) ∈ l → ∃ m r, m ∈ ms ∧ cm_cluster m = cc_id c ∧ cm_kind m = CephMemberKind.Pve ∧ cm_remote m = Some r ∧
    any_privs_below u ["resource"%string; r] privs = Ok true.
Proof.
  intros Hp Hl. pose proof (parse_ok raw cfg Hp) as Hok. unfold accessible_clusters in Hl.
  destruct (collect_accessible u cfg privs _) as [out|] eqn:Hout; [|done]. cbn [mbind result_bind] in Hl. injection Hl as <-.
  assert (∀ id c, (id, c) ∈ map_to_list (cfg_clusters cfg) → cc_id c = id) as Hid.
  { intros id c Hin%elem_of_map_to_list. by apply (co_clusters cfg Hok). }
  assert (∀ c ms, (c, ms) ∈ out ↔ lookup_cluster u cfg (cc_id c) privs = Ok (c, ms)) as Hin.
  { intros c ms. rewrite (collect_accessible_Ok u cfg privs _ out (c, ms) Hout), lookup_cluster_Ok. cbn [fst snd]. split.
    - intros (id&Hc&Hm&Ha). rewrite (Hid id c Hc). split_and!; [by apply elem_of_map_to_list|done..].
    - intros (Hc&Hm&Ha). exists (cc_id c). split_and!; [by apply elem_of_map_to_list|done..]. }
  assert (∀ c ms, (c, ms) ∈ out → ∃ m r, m ∈ ms ∧ cm_cluster m = cc_id c ∧ cm_kind m = CephMemberKind.Pve ∧ cm_remote m = Some r ∧
    any_privs_below u ["resource"%string; r] privs = Ok true) as Hacc.
  { intros c ms Hc. apply Hin, lookup_cluster_Ok in Hc as (_&->&Ha).
    apply cluster_accessible_members in Ha as (m&r&Hm&Hk&Hr&Hpv). exists m, r. split_and!; try done.
    unfold sorted_members in Hm. rewrite elem_of_sort_by in Hm. apply list_elem_of_In, filter_In in Hm as [_ Hm].
    by apply String.eqb_eq in Hm. }
  split_and!.
  - intros c ms. rewrite elem_of_sort_by. apply Hin.
  - apply sort_by_sorted, _.
  - apply (NoDup_Permutation_proper _ (map (λ x, cc_id x.1) out)); [by apply Permutation_map, sort_by_perm|].
    eapply sublist_NoDup; [|by eapply collect_accessible_keys]. apply NoDup_fst_map_to_list.
  - intros c ms. rewrite elem_of_sort_by. apply Hacc.
Qed.
End properties.

(** ** Concrete runs *)

Module CephDemo.
#[local] Existing Instance RemotesDemo.auth.
#[local] Existing Instance RemotesDemo.remotes_config.
#[local] Existing Instance RemotesDemo.remotes_text.
#[local] Existing Instance RemotesDemo.shadows_config.
#[local] Existing Instance RemotesDemo.shadows_text.
#[local] Existing Instance RemotesDemo.content_digests.
#[local] Existing Instance sections_text.
#[local] Existing Instance sections_text_laws.
#[local] Existing Instance json_codec.
#[local] Existing Instance safe_id_regex_impl.
#[local] Instance authid_text : AuthidText := {| authid_to_string a := a; authid_from_str s := Some s |}.
#[local] Instance authid_laws : AuthidTextLaws.
Proof. by split. Defined.

Definition fsid_a : string := "aaaaaaaa-0000-0000-0000-000000000001".
Definition fsid_b : string := "bbbbbbbb-0000-0000-0000-000000000002".
Definition fsid_c : string := "cccccccc-0000-0000-0000-000000000003".

(** A cluster on [pve2] with a key that is not known, and one that the operator has
    forgotten. *)
Definition cluster_b : CephCluster := mkCluster fsid_b (Some "disks"%string) None None None None (Some CephClusterState.Detected) None None.
Definition cluster_c : CephCluster := mkCluster fsid_c None None None None None (Some CephClusterState.Detected) None (Some 5).
Definition cfg0 : CephClustersConfig := mkCephConfig
  {[fsid_b := cluster_b; fsid_c := cluster_c]}
  {[member_id fsid_b "n3" := new_member fsid_b "pve2" "n3"; member_id fsid_c "n1" := new_member fsid_c "pve1" "n1"]}
  {[fsid_b := [("note"%string, VString "ssd")]]}.
Definition disk0 : gmap string string := files (save_config cfg0 (World ∅ [])).2.

Definition reports (fsid : string) (nodes : list string) : Value :=
  VObject [("fsid"%string, VString fsid); ("quorum_names"%string, VArray (VString <$> nodes))].

(** [pve1] reports cluster [a] on two nodes, [pve2] has no cluster (any more), [pve3]
    cannot be reached, the others have the forgotten cluster. *)
Definition demo_env : probe_env := mkProbeEnv (λ _, Ok tt)
  (λ r, if String.eqb r "pve1" then Ok (reports fsid_a ["n1"%string; "n2"%string])
        else if String.eqb r "pve2" then Err CApi else if String.eqb r "pve3" then Err COther
        else Ok (reports fsid_c ["n1"%string])) 100.

Definition pve (name : string) : string * Remote := (name, mkFullRemote RemoteType.Pve name [] "root@pam!pdm"%string "" None).
Definition demo_remotes : list (string * Remote) := [pve "pve1"; pve "pve2"; pve "pve4"; ("pbs1"%string, RemotesDemo.pbs1)].

Lemma demo_honest : honest demo_env.
Proof.
  intros r fsid nodes. unfold probe_outcome, demo_env. cbn [pe_connect pe_status].
  destruct (String.eqb r "pve1"); [by intros [= <- _]|]. destruct (String.eqb r "pve2"); [done|].
  destruct (String.eqb r "pve3"); [done|]. by intros [= <- _].
Qed.

Lemma cfg0_on_disk : disk_config disk0 = Ok cfg0.
Proof. vm_compute. reflexivity. Qed.

Lemma cfg0_ok : registry_ok cfg0.
Proof.
  split.
  - intros k c Hk. cbn [cfg_clusters cfg0] in Hk. apply lookup_insert_Some in Hk as [[<- _]|[_ Hk]]; [done|].
    by apply lookup_singleton_Some in Hk as [<- _].
  - intros id x Hx. cbn [cfg_members cfg0] in Hx.
    apply lookup_insert_Some in Hx as [[<- <-]|[_ Hx]]; [|apply lookup_singleton_Some in Hx as [<- <-]].
    all: (split; [cbn; lia|]; split; [by eexists|]; intros _; eexists _, _; split_and!; reflexivity).
Qed.

Lemma sweep_outcome_witness :
  match sweep demo_env (Ok demo_remotes) (mret tt) (World disk0 []) with
  | (Ok _, w') => ∃ cfg', disk_config (files w') = Ok cfg' ∧ cfg_extras cfg' !! fsid_b = Some [("note"%string, VString "ssd")] ∧
      cluster_after demo_env ["pve1"%string; "pve2"%string; "pve4"%string] cfg0 fsid_b (cfg_clusters cfg' !! fsid_b)
  | (Err _, _) => False
  end.
Proof.
  pose proof (sweep_outcome demo_env demo_remotes (World disk0 []) cfg0 cfg0_on_disk cfg0_ok demo_honest eq_refl) as Ht.
  assert (is_Some (result_ok (sweep demo_env (Ok demo_remotes) (mret tt) (World disk0 [])).1)) as Hok by (vm_compute; by eexists).
  destruct (sweep demo_env (Ok demo_remotes) (mret tt) (World disk0 [])) as [[u|e] w']; [|by destruct Hok].
  destruct Ht as (cfg'&Hd&Hex&Hc&_). exists cfg'. split; [exact Hd|]. split; [|exact (Hc fsid_b)].
  rewrite Hex. clear. vm_compute. reflexivity.
Defined.

(** A cluster that was gone has members on a remote that answers without it and on one that
    fails: it becomes unreachable although one probe succeeded, and keeps the time since
    when it is missing. *)
Definition cfg_mixed : CephClustersConfig := mkCephConfig
  {[fsid_b := mkCluster fsid_b None None None None None (Some CephClusterState.Gone) (Some 50) None]}
  {[member_id fsid_b "n3" := new_member fsid_b "pve2" "n3"; member_id fsid_b "n4" := new_member fsid_b "pve3" "n4"]} ∅.
Example one_failed_probe_makes_unreachable :
  let '(_, w') := sweep demo_env (Ok [pve "pve2"; pve "pve3"]) (mret tt) (World (files (save_config cfg_mixed (World ∅ [])).2) []) in
  match disk_config (files w') with
  | Ok cfg => (λ c, (cc_state c, cc_last_seen_missing c)) <$> cfg_clusters cfg !! fsid_b = Some (Some CephClusterState.Unreachable, Some 50)
  | Err _ => False
  end.
Proof. vm_compute. reflexivity. Qed.

(** The states that this sweep leaves. *)
Example sweep_states :
  let '(_, w') := sweep demo_env (Ok demo_remotes) (mret tt) (World disk0 []) in
  match disk_config (files w') with
  | Ok cfg => (cc_state <$> cfg_clusters cfg !! fsid_a, (λ c, (cc_state c, cc_last_seen_missing c)) <$> cfg_clusters cfg !! fsid_b,
               cfg_clusters cfg !! fsid_c, sorted_keys (cfg_members cfg))
  | Err _ => (None, None, None, [])
  end =
  (Some (Some CephClusterState.Detected), Some (Some CephClusterState.Gone, Some 100), Some cluster_c,
   [member_id fsid_a "n1"; member_id fsid_a "n2"; member_id fsid_b "n3"; member_id fsid_c "n1"]).
Proof. vm_compute. reflexivity. Qed.

Definition swept_once : world := (sweep demo_env (Ok demo_remotes) (mret tt) (World disk0 [])).2.

Lemma sweep_idempotent_witness :
  keeps_registry (files swept_once)
    (files (sweep (mkProbeEnv (pe_connect demo_env) (pe_status demo_env) 400) (Ok demo_remotes) (mret tt) swept_once).2).
Proof.
  apply (sweep_idempotent demo_env 400 demo_remotes (World disk0 []) swept_once cfg0 cfg0_on_disk cfg0_ok demo_honest eq_refl eq_refl).
  unfold swept_once. assert (is_Some (result_ok (sweep demo_env (Ok demo_remotes) (mret tt) (World disk0 [])).1)) as Hok by (vm_compute; by eexists).
  destruct (sweep demo_env (Ok demo_remotes) (mret tt) (World disk0 [])) as [[[]|e] w']; [reflexivity|by destruct Hok].
Defined.

(** [pve1] is removed while its probe runs; the disk fails in the middle. *)
Definition demo_step : io unit :=
  run_once demo_env (Ok demo_remotes)
    (handle_remote_request (CR:=RemotesDemo.remotes) (CS:=RemotesDemo.shadows) (λ _ _, Err EIo) (λ _ _ _, Err EIo)
       on_remote_removed (ReqRemoveRemote "pve1" false)).

Lemma registry_invariant_witness :
  registry_on_disk (files (demo_step (World disk0 [false; false; false; false; false; true])).2).
Proof.
  apply (registry_invariant (CR:=RemotesDemo.remotes) (CS:=RemotesDemo.shadows) demo_step (World disk0 [false; false; false; false; false; true])).
  - apply step_sweep; [exact demo_honest|reflexivity|]. apply step_request.
  - exists cfg0. split; [exact cfg0_on_disk|exact cfg0_ok].
Defined.

Lemma removed_remote_forgotten_witness :
  match on_remote_removed "pve2" (World disk0 []) with
  | (Ok _, w') => ∃ cfg', disk_config (files w') = Ok cfg' ∧ cfg_clusters cfg' !! fsid_c = Some cluster_c ∧
      cfg_members cfg' !! member_id fsid_b "n3" ≠ Some (new_member fsid_b "pve2" "n3")
  | (Err _, _) => False
  end.
Proof.
  pose proof (removed_remote_forgotten "pve2" (World disk0 []) cfg0 cfg0_on_disk cfg0_ok) as Ht.
  assert (is_Some (result_ok (on_remote_removed "pve2" (World disk0 [])).1)) as Hok by (vm_compute; by eexists).
  destruct (on_remote_removed "pve2" (World disk0 [])) as [[u|e] w']; [|by destruct Hok].
  destruct Ht as (cfg'&Hd&Hm&Hc). exists cfg'. split; [exact Hd|]. split.
  - apply Hc. split; [reflexivity|]. exists (member_id fsid_c "n1"), (new_member fsid_c "pve1" "n1"). split; [|reflexivity].
    apply Hm. split; reflexivity.
  - intros Hx. apply Hm in Hx as [_ Hx]. clear -Hx. vm_compute in Hx. discriminate Hx.
Defined.

Lemma registry_roundtrip_witness :
  match write cfg0 with Ok raw => parse raw = Ok cfg0 | Err _ => False end.
Proof.
  assert (match write cfg0 with Ok raw => parse raw = Ok cfg0 | Err _ => False end) as Hp by (vm_compute; reflexivity).
  destruct (write cfg0) as [raw|e] eqn:Hw; [|done]. exact (registry_roundtrip raw raw cfg0 Hp Hw).
Defined.

(** Someone who may look at [pve1] only. *)
Definition pve1_auditor : user := {|
  lookup_privs _ := 0;
  check_privs _ _ := Err (EMsg "no permission");
  any_privs_below path _ := Ok (bool_decide (path = ["resource"%string; "pve1"%string]));
|}.

Lemma cfg0_text : parse (default ""%string (disk0 !! CEPH_CLUSTERS_CFG_FILENAME)) = Ok cfg0.
Proof. vm_compute. reflexivity. Qed.
Definition auditor_clusters : list (CephCluster * list CephMember) := [(cluster_c, [new_member fsid_c "pve1" "n1"])].
Lemma auditor_sees : accessible_clusters pve1_auditor cfg0 1 = Ok auditor_clusters.
Proof. vm_compute. reflexivity. Qed.

Lemma accessible_is_lookup_witness :
  accessible_clusters pve1_auditor cfg0 1 = Ok auditor_clusters ∧
  ∀ c ms, (c, ms) ∈ auditor_clusters ↔ lookup_cluster pve1_auditor cfg0 (cc_id c) 1 = Ok (c, ms).
Proof. exact (conj auditor_sees (proj1 (accessible_is_lookup pve1_auditor _ cfg0 1 _ cfg0_text auditor_sees))). Defined.

(** Removing the only remote behind a forgotten cluster drops the cluster with its
    tombstone: the next sweep in which another remote reports it registers it anew. *)
Example tombstone_lost :
  let w1 := (on_remote_removed "pve1" (World disk0 [])).2 in
  let w2 := (sweep demo_env (Ok [pve "pve4"]) (mret tt) w1).2 in
  let state w := match disk_config (files w) with Ok cfg => cc_forgotten <$> cfg_clusters cfg !! fsid_c | Err _ => None end in
  (state (World disk0 []), state w1, state w2) = (Some (Some 5), None, Some None).
Proof. vm_compute. reflexivity. Qed.

(** A remote that is removed while a sweep has asked it already leaves its members
    behind, and no later sweep changes the state of their cluster. *)
Example removed_during_sweep :
  let w1 := (sweep demo_env (Ok demo_remotes) (on_remote_removed "pve1") (World disk0 [])).2 in
  let w2 := (sweep (mkProbeEnv (λ _, Ok tt) (λ _, Err CApi) 500) (Ok [pve "pve2"; pve "pve4"]) (mret tt) w1).2 in
  let state w := match disk_config (files w) with
    | Ok cfg => (cc_state <$> cfg_clusters cfg !! fsid_a, cm_remote <$> cfg_members cfg !! member_id fsid_a "n1") | Err _ => (None, None) end in
  (state w1, state w2) =
  ((Some (Some CephClusterState.Detected), Some (Some "pve1"%string)), (Some (Some CephClusterState.Detected), Some (Some "pve1"%string))).
Proof. vm_compute. reflexivity. Qed.
End CephDemo.
