(* ===== verification/CephStatus.v ===== *)
(** * The status of Ceph clusters

    Model of [server/src/ceph/cache.rs] (the cached [ceph status] of a cluster and
    what is read from it) and of the handlers of [server/src/api/ceph/clusters.rs].

    The answers of the members are parameters (record [member_env]); a client for a
    remote is identified with the member it was connected through.  The floating
    point value of a JSON number is the parameter [NumberF64]. *)

From Stdlib Require Import SpecFloat.
From S2P Require Import Prelude FileSystem RemoteUpid SectionConfig Resource ResourceList NamespacedCache RemoteData RemotesConfig JsonValue CephRegistry CephConfig CephText CephProperties.

Class NumberF64 := number_as_f64 : Number → option f64.

(** ** Floating point *)

Definition f64_is_finite (x : f64) : bool :=
  match x with S754_zero _ | S754_finite _ _ _ => true | _ => false end.
(** [f64::total_cmp], for numbers (not [NaN]). *)
Definition f64_negative (x : f64) : bool :=
  match x with
  | S754_zero s | S754_infinity s | S754_finite s _ _ => s
  | S754_nan => false
  end.
Definition f64_total_cmp (a b : f64) : comparison :=
  match SFcompare a b with
  | Some Eq => bool_compare (f64_negative b) (f64_negative a)
  | Some c => c
  | None => Eq
  end.
Definition f64_hundred : f64 := f64_of_u64 100.

(** ** Data *)

Record CephHealthCheck : Type := mkCheck { hc_code : string; hc_severity : string; hc_summary : string }.
Record CephPgStateGroup : Type := mkPgGroup { pg_state_name : string; pg_count : Z }.
Record CephClusterMember : Type := mkClusterMember {
  ccm_kind : CephMemberKind.t;
  ccm_remote : option string;
  ccm_node : option string;
  ccm_site : option string;
}.
Record CephClusterStatus : Type := mkStatus {
  cs_fsid : string;
  cs_health : string;
  cs_checks : list CephHealthCheck;
  cs_bytes_total : Z;
  cs_bytes_used : Z;
  cs_bytes_avail : Z;
  cs_num_pools : Z;
  cs_num_pgs : Z;
  cs_pgs_by_state : list CephPgStateGroup;
  cs_osds_total : Z;
  cs_osds_up : Z;
  cs_osds_in : Z;
  cs_mons_total : Z;
  cs_mons_in_quorum : Z;
  cs_mgr_active : option string;
  cs_mgr_standbys : list string;
  cs_client_read_bytes_sec : option Z;
  cs_client_write_bytes_sec : option Z;
  cs_client_read_ops_sec : option Z;
  cs_client_write_ops_sec : option Z;
  cs_recovery_bytes_sec : option Z;
  cs_misplaced_ratio : option f64;
  cs_degraded_ratio : option f64;
  cs_fullest_pool : option string;
  cs_fullest_pool_used : option f64;
  cs_version : option string;
  cs_version_mixed : bool;
  cs_members : list CephClusterMember;
}.
Record CephClusterListEntry : Type := mkListEntry {
  le_cluster : string;
  le_display_name : string;
  le_state : CephClusterState.t;
  le_member_count : Z;
  le_health : option string;
  le_remote : option string;
  le_node : option string;
  le_bytes_used : option Z;
  le_bytes_total : option Z;
  le_bytes_avail : option Z;
  le_osds_up : option Z;
  le_osds_in : option Z;
  le_osds_total : option Z;
  le_mons_in_quorum : option Z;
  le_mons_total : option Z;
  le_recovering : option bool;
  le_degraded : option bool;
  le_nearfull : option bool;
  le_problem_count : option Z;
}.

(** ** Reading a status *)

Definition as_array (v : Value) : option (list Value) := match v with VArray l => Some l | _ => None end.
Definition as_object (v : Value) : option Map := match v with VObject m => Some m | _ => None end.
Definition as_f64 `{NumberF64} (v : Value) : option f64 := match v with VNumber n => number_as_f64 n | _ => None end.
Definition value_as_u64 (v : Value) : option Z :=
  match v with VNumber (NInt z) => if (0 <=? z) && (z <? 2 ^ 64) then Some z else None | _ => None end.
(** [v.get(key).and_then(f)] *)
Definition get_as {A} (f : Value → option A) (v : option Value) (key : string) : option A :=
  v ← v; w ← get v key; f w.

Definition value_i64 (v : Value) : option Z :=
  match CephRegistry.as_i64 v with Some z => Some z | None => Prelude.as_i64 <$> value_as_u64 v end.

Definition health_from_status (status : Value) : option string := get_as as_str (get status "health") "status".
Definition quorum_count_from_status (status : Value) : Z :=
  match get_as as_array (Some status) "quorum_names" with
  | Some names => Prelude.as_i64 (Z.of_nat (length names))
  | None => 0
  end.

Section status.
Context `{NumberF64}.

Definition read_check (x : string * Value) : CephHealthCheck :=
  let '(code, detail) := x in
  mkCheck code (default ""%string (get_as as_str (Some detail) "severity"))
    (default ""%string (get_as as_str (get detail "summary") "message")).
Definition read_pg_group (e : Value) : CephPgStateGroup :=
  mkPgGroup (default ""%string (get_as as_str (Some e) "state_name")) (default 0 (get_as value_i64 (Some e) "count")).

Definition summarize_status (fsid : string) (raw : Value) : CephClusterStatus :=
  let health := default "HEALTH_UNKNOWN"%string (health_from_status raw) in
  let checks := map read_check (default [] (get_as as_object (get raw "health") "checks")) in
  let pgmap := get raw "pgmap" in
  let pg key := default 0 (get_as value_i64 pgmap key) in
  let pg_opt key := get_as value_i64 pgmap key in
  let pg_f key := get_as as_f64 pgmap key in
  let pgs_by_state := map read_pg_group (default [] (get_as as_array pgmap "pgs_by_state")) in
  let osdmap := (λ o, default o (get o "osdmap")) <$> get raw "osdmap" in
  let osd key := default 0 (get_as value_i64 osdmap key) in
  let monmap := get raw "monmap" in
  let mons_total :=
    match get_as value_i64 monmap "num_mons" with
    | Some n => n
    | None => default 0 ((λ a : list Value, Prelude.as_i64 (Z.of_nat (length a))) <$> get_as as_array monmap "mons")
    end in
  let mgrmap := get raw "mgrmap" in
  let mgr_active := s ← get_as as_str mgrmap "active_name"; if String.eqb s "" then None else Some s in
  let mgr_standbys := omap (M:=list) (λ s, get_as as_str (Some s) "name") (default [] (get_as as_array mgrmap "standbys")) in
  mkStatus fsid health checks (pg "bytes_total"%string) (pg "bytes_used"%string) (pg "bytes_avail"%string)
    (pg "num_pools"%string) (pg "num_pgs"%string) pgs_by_state
    (osd "num_osds"%string) (osd "num_up_osds"%string) (osd "num_in_osds"%string)
    mons_total (quorum_count_from_status raw) mgr_active mgr_standbys
    (pg_opt "read_bytes_sec"%string) (pg_opt "write_bytes_sec"%string) (pg_opt "read_op_per_sec"%string)
    (pg_opt "write_op_per_sec"%string) (pg_opt "recovering_bytes_per_sec"%string)
    (pg_f "misplaced_ratio"%string) (pg_f "degraded_ratio"%string)
    None None None false [].
End status.

(** ** The list *)

Definition is_continuation (a : ascii) : bool := byte_between 128 191 a.
(** [s.get(..n)] *)
Definition str_get_to (n : nat) (s : string) : option string :=
  if (String.length s <? n)%nat then None
  else match String.get n s with
       | Some a => if is_continuation a then None else Some (String.substring 0 n s)
       | None => Some s
       end.

Definition default_display_name (c : CephCluster) : string :=
  default ("ceph-" +:+ default (cc_id c) (str_get_to 8 (cc_id c))) (cc_display_name c).

(** An entry of the list; [summary] is what the cache has. *)
Definition is_positive (o : option f64) : bool := match o with Some r => f64_gt r f64_zero | None => false end.
Definition is_some {A} (o : option A) : bool := match o with Some _ => true | None => false end.

Section handlers.
Context `{AuthidText} `{CephSections} `{NumberF64} `{SafeIdRegex} `{EntryCodec Value}.

Definition representative_remote (members : list CephMember) : option string :=
  head (omap (M:=list) cm_remote members).
Definition representative_node (members : list CephMember) : option string :=
  r ← representative_remote members;
  m ← List.find (λ m, bool_decide (cm_remote m = Some r)) members;
  cm_node m.

Definition list_entry (cluster : CephCluster) (members : list CephMember) (summary : option CephClusterStatus)
    : CephClusterListEntry :=
  mkListEntry (cc_id cluster) (default_display_name cluster) (default CephClusterState.default_state (cc_state cluster))
    (Prelude.as_i64 (Z.of_nat (length members))) (cs_health <$> summary)
    (representative_remote members) (representative_node members)
    (cs_bytes_used <$> summary) (cs_bytes_total <$> summary) (cs_bytes_avail <$> summary)
    (cs_osds_up <$> summary) (cs_osds_in <$> summary) (cs_osds_total <$> summary)
    (cs_mons_in_quorum <$> summary) (cs_mons_total <$> summary)
    ((λ s, is_some (cs_recovery_bytes_sec s) || is_positive (cs_misplaced_ratio s)) <$> summary)
    ((λ s, is_positive (cs_degraded_ratio s)) <$> summary)
    ((λ s, existsb (λ c, str_contains "FULL" (hc_code c)) (cs_checks s)) <$> summary)
    ((λ s, Prelude.as_i64 (Z.of_nat (length (cs_checks s)))) <$> summary).

(** ** The cache *)

Definition cached_status (now : Z) (fsid : string) (max_age : Z) : io (option Value) :=
  cache ← read_global;
  ReadableCacheNamespace.get_with_max_age cache now (status_key fsid) max_age.

(** [invalidate]; nothing under [src/] calls it. *)
Definition invalidate (fsid : string) : io unit :=
  cache ← write_global;
  WritableCacheNamespace.remove cache (status_key fsid).

(** ** The handlers *)

Definition DEFAULT_STATUS_MAX_AGE : Z := 30.
Definition LIST_STATUS_MAX_AGE : Z := 660.

Record CephPool : Type := mkPool { po_pool_name : string; po_percent_used : option f64 }.
Record CephMon : Type := mkMon { mon_ceph_version_short : option string }.

(** What the remotes and the members answer; the other lists are passed on. *)
Record member_env : Type := mkMemberEnv {
  me_remotes : result error (list (string * Remote));
  me_connect : Remote → result error unit;
  me_status : CephMember → result error Value;
  me_pools : CephMember → string → result error (list CephPool);
  me_mons : CephMember → string → result error (list CephMon);
}.
Context (u : user) (env : member_env).

Definition access_checked_members (cluster : string) : io (list CephMember) :=
  cfg ← config;
  '(_, members) ← io_lift (lookup_cluster u cfg cluster PRIV_RESOURCE_AUDIT);
  mret members.

Definition connect (cluster : string) : io CephMember :=
  members ← access_checked_members cluster;
  io_lift (connect_cluster (me_connect env) (me_remotes env) members).

Fixpoint list_entries (now : Z) (accessible : list (CephCluster * list CephMember)) : io (list CephClusterListEntry) :=
  match accessible with
  | [] => mret []
  | (cluster, members) :: l =>
      r ← io_try (cached_status now (cc_id cluster) LIST_STATUS_MAX_AGE);
      let entry := list_entry cluster members (summarize_status (cc_id cluster) <$> ok_flatten r) in
      rest ← list_entries now l;
      mret (entry :: rest)
  end.
Definition list_clusters (now : Z) : io (list CephClusterListEntry) :=
  cfg ← config;
  accessible ← io_lift (accessible_clusters u cfg PRIV_RESOURCE_AUDIT);
  list_entries now accessible.

Definition with_context {A} (msg : string) (r : result error A) : result error A :=
  match r with Ok a => Ok a | Err _ => Err (EMsg msg) end.
Definition cluster_message (cluster msg : string) : string := "ceph cluster " +:+ cluster +:+ ": " +:+ msg.

(** [now] is when the cache is read, [now'] when the answer is stored. *)
Definition cached_or_fetch_status (now now' : Z) (cluster : string) (members : list CephMember) (max_age : Z) : io Value :=
  cached ← cached_status now cluster max_age;
  match cached with
  | Some cached => mret cached
  | None =>
      conn ← io_lift (connect_cluster (me_connect env) (me_remotes env) members);
      status ← io_lift (with_context (cluster_message cluster "failed to read status") (me_status env conn));
      _ ← store_status now' cluster status;
      mret status
  end.

Definition status_max_age (max_age : option Z) : Z := Prelude.as_i64 (default DEFAULT_STATUS_MAX_AGE max_age).

Definition get_status (now now' : Z) (cluster : string) (max_age : option Z) : io Value :=
  members ← access_checked_members cluster;
  cached_or_fetch_status now now' cluster members (status_max_age max_age).

(** [Iterator::max_by]: the last of several maxima. *)
Definition max_by {A} (cmp : A → A → comparison) (l : list A) : option A :=
  foldl (λ acc x, match acc with
                  | None => Some x
                  | Some a => match cmp a x with Gt => Some a | _ => Some x end
                  end) None l.

Definition pool_usage (p : CephPool) : option (string * f64) :=
  used ← po_percent_used p;
  if f64_is_finite used then Some (po_pool_name p, f64_mul used f64_hundred) else None.
Definition fullest_pool (pools : list CephPool) : option (string * f64) :=
  max_by (λ a b, f64_total_cmp a.2 b.2) (omap (M:=list) pool_usage pools).

(** A [BTreeSet] of strings, in order. *)
Definition string_set (l : list string) : list string := sort_by String.compare (remove_dups l).

Definition set_fullest (p : string * f64) (s : CephClusterStatus) : CephClusterStatus :=
  mkStatus (cs_fsid s) (cs_health s) (cs_checks s) (cs_bytes_total s) (cs_bytes_used s) (cs_bytes_avail s)
    (cs_num_pools s) (cs_num_pgs s) (cs_pgs_by_state s) (cs_osds_total s) (cs_osds_up s) (cs_osds_in s)
    (cs_mons_total s) (cs_mons_in_quorum s) (cs_mgr_active s) (cs_mgr_standbys s) (cs_client_read_bytes_sec s)
    (cs_client_write_bytes_sec s) (cs_client_read_ops_sec s) (cs_client_write_ops_sec s) (cs_recovery_bytes_sec s)
    (cs_misplaced_ratio s) (cs_degraded_ratio s) (Some p.1) (Some p.2) (cs_version s) (cs_version_mixed s) (cs_members s).
Definition set_version (version : option string) (mixed : bool) (s : CephClusterStatus) : CephClusterStatus :=
  mkStatus (cs_fsid s) (cs_health s) (cs_checks s) (cs_bytes_total s) (cs_bytes_used s) (cs_bytes_avail s)
    (cs_num_pools s) (cs_num_pgs s) (cs_pgs_by_state s) (cs_osds_total s) (cs_osds_up s) (cs_osds_in s)
    (cs_mons_total s) (cs_mons_in_quorum s) (cs_mgr_active s) (cs_mgr_standbys s) (cs_client_read_bytes_sec s)
    (cs_client_write_bytes_sec s) (cs_client_read_ops_sec s) (cs_client_write_ops_sec s) (cs_recovery_bytes_sec s)
    (cs_misplaced_ratio s) (cs_degraded_ratio s) (cs_fullest_pool s) (cs_fullest_pool_used s) version mixed (cs_members s).
Definition set_members (members : list CephClusterMember) (s : CephClusterStatus) : CephClusterStatus :=
  mkStatus (cs_fsid s) (cs_health s) (cs_checks s) (cs_bytes_total s) (cs_bytes_used s) (cs_bytes_avail s)
    (cs_num_pools s) (cs_num_pgs s) (cs_pgs_by_state s) (cs_osds_total s) (cs_osds_up s) (cs_osds_in s)
    (cs_mons_total s) (cs_mons_in_quorum s) (cs_mgr_active s) (cs_mgr_standbys s) (cs_client_read_bytes_sec s)
    (cs_client_write_bytes_sec s) (cs_client_read_ops_sec s) (cs_client_write_ops_sec s) (cs_recovery_bytes_sec s)
    (cs_misplaced_ratio s) (cs_degraded_ratio s) (cs_fullest_pool s) (cs_fullest_pool_used s) (cs_version s)
    (cs_version_mixed s) members.

(** The live part of a summary; a failure leaves it out. *)
Definition enrich_summary (members : list CephMember) (summary : CephClusterStatus) : CephClusterStatus :=
  match connect_cluster (me_connect env) (me_remotes env) members with
  | Err _ => summary
  | Ok conn =>
      match cm_node conn with
      | None => summary
      | Some node =>
          let summary :=
            match me_pools env conn node with
            | Ok pools => match fullest_pool pools with Some p => set_fullest p summary | None => summary end
            | Err _ => summary
            end in
          match me_mons env conn node with
          | Ok mons =>
              let versions := string_set (omap (M:=list) mon_ceph_version_short mons) in
              set_version (last versions) (1 <? Z.of_nat (length versions)) summary
          | Err _ => summary
          end
      end
  end.

Definition summary_member (m : CephMember) : CephClusterMember := mkClusterMember (cm_kind m) (cm_remote m) (cm_node m) (cm_site m).

Definition get_summary (now now' : Z) (cluster : string) (max_age : option Z) : io CephClusterStatus :=
  members ← access_checked_members cluster;
  raw ← cached_or_fetch_status now now' cluster members (status_max_age max_age);
  mret (set_members (map summary_member members) (enrich_summary members (summarize_status cluster raw))).

(** The handlers that pass on what a member answers. *)
Definition list_flags {A} (flags : CephMember → result error A) (cluster : string) : io A :=
  conn ← connect cluster;
  io_lift (with_context (cluster_message cluster "failed to read flags") (flags conn)).
Definition node_read {A} (msg : string) (read : CephMember → string → result error A) (cluster : string) : io A :=
  conn ← connect cluster;
  node ← io_lift (ok_or (cm_node conn) (EMsg "pve ceph member has no node"));
  io_lift (with_context (cluster_message cluster msg) (read conn node)).
Definition list_mon (cluster : string) : io (list CephMon) := node_read "failed to list monitors" (me_mons env) cluster.
Definition list_mgr {A} (mgrs : CephMember → string → result error A) (cluster : string) : io A :=
  node_read "failed to list managers" mgrs cluster.
Definition list_mds {A} (mds : CephMember → string → result error A) (cluster : string) : io A :=
  node_read "failed to list metadata servers" mds cluster.
Definition list_fs {A} (fs : CephMember → string → result error A) (cluster : string) : io A :=
  node_read "failed to list file systems" fs cluster.
Definition list_pools (cluster : string) : io (list CephPool) := node_read "failed to list pools" (me_pools env) cluster.
Definition get_osd_tree {A} (tree : CephMember → string → result error A) (cluster : string) : io A :=
  node_read "failed to read OSD tree" tree cluster.
End handlers.

(** ** What is served, and to whom *)

Section facts.
Context `{AuthidTextLaws} `{CephSectionLaws} `{NumberF64} `{SafeIdRegex} `{EntryCodec Value}.
Implicit Types (m : gmap string string).

Definition status_path (fsid : string) : string := get_path GLOBAL_NAMESPACE (status_key fsid).
Definition same_but_lock m0 m : Prop := ∀ p, p ≠ get_lockfile GLOBAL_NAMESPACE → m !! p = m0 !! p.

(** The cache has this status, and it is younger than [max_age] seconds. *)
Definition cached_fresh m (now : Z) (fsid : string) (max_age : Z) (v : Value) : Prop :=
  ∃ raw e, m !! status_path fsid = Some raw ∧ entry_of_json raw = Some e ∧ entry_value e = v ∧
    0 ≤ Prelude.as_i64 (now - entry_timestamp e) < max_age.

Lemma not_expired {T} (e : CacheEntry T) now max_age :
  is_expired e now max_age = false → 0 ≤ Prelude.as_i64 (now - entry_timestamp e) < max_age.
Proof.
  unfold is_expired. destruct (max_age =? 0); [done|]. cbv zeta. intros [?%Z.leb_gt ?%Z.ltb_ge]%orb_false_iff. lia.
Qed.

Lemma same_but_lock_cached m0 m now fsid max_age v :
  same_but_lock m0 m → cached_fresh m now fsid max_age v → cached_fresh m0 now fsid max_age v.
Proof. intros Hs (raw&e&Hm&?). exists raw, e. split; [|done]. rewrite <-Hs; [done|]. by destruct fsid. Qed.

Lemma guard_triple m0 {G} (mk : string → G) :
  triple (λ m, m = m0)
    (_ ← io_lift (ensure_valid_namespace GLOBAL_NAMESPACE); _ ← lock_namespace_impl GLOBAL_NAMESPACE; mret (mk GLOBAL_NAMESPACE))
    (λ g m, same_but_lock m0 m ∧ g = mk GLOBAL_NAMESPACE) (same_but_lock m0).
Proof.
  eapply (triple_bind _ _ _ (λ _ m, m = m0)).
  { apply triple_lift. intros m ->. by destruct (ensure_valid_namespace _). }
  intros u0. apply (triple_bind _ _ _ (λ _ m, same_but_lock m0 m)); [|intros u1; by apply triple_ret].
  apply triple_prim; [by intros m ->|]. intros m ->. intros p Hp.
  destruct (m0 !! get_lockfile GLOBAL_NAMESPACE); [done|by rewrite lookup_insert_ne].
Qed.

Lemma get_impl_fresh m0 now fsid max_age :
  triple (λ m, m = m0) (get_impl (T:=Value) now GLOBAL_NAMESPACE (status_key fsid) (Some max_age))
    (λ o m, m = m0 ∧ match o with Some v => cached_fresh m0 now fsid max_age v | None => True end) (λ m, m = m0).
Proof.
  unfold get_impl. apply ensure_key_triple. intros _. case_bool_decide; [by apply triple_ret|].
  unfold get_from_path, file_read_optional_string.
  apply (triple_bind _ _ _ (λ o m, m = m0 ∧ match o with
    | Some e => cached_fresh m0 now fsid max_age (entry_value e) | None => True end)); [|intros o; apply triple_ret; by destruct o].
  apply (triple_bind _ _ _ (λ o m, m = m0 ∧ (o = m0 !! status_path fsid ∨ o = None))).
  { eapply triple_bind; [exact (triple_open m0 (status_path fsid))|]. intros o. apply triple_pure. intros ->.
    destruct (m0 !! status_path fsid) as [c|]; [|apply triple_ret; auto]. destruct (utf8_valid c); [apply triple_ret; auto|by intros w ?]. }
  intros o. apply triple_pure. intros [Ho| ->]; [|by apply triple_ret]. destruct o as [c|]; [|by apply triple_ret].
  apply (triple_bind _ _ _ (λ e m, m = m0 ∧ entry_of_json c = Some e)).
  { apply triple_lift. intros m ->. by destruct (entry_of_json c). }
  intros e. apply triple_pure. intros He. apply triple_ret. intros m ->. split; [done|].
  destruct (is_expired e now max_age) eqn:Hx; [done|]. apply not_expired in Hx. exists c, e. destruct Hx. done.
Qed.

Lemma cached_status_triple m0 now fsid max_age :
  triple (λ m, m = m0) (cached_status now fsid max_age)
    (λ o m, same_but_lock m0 m ∧ match o with Some v => cached_fresh m0 now fsid max_age v | None => True end) (same_but_lock m0).
Proof.
  unfold cached_status, read_global, NamespacedCache.read.
  eapply triple_bind; [exact (guard_triple m0 mkReadable)|]. intros g. apply triple_pure. intros ->.
  apply triple_from. intros m1 Hm1. unfold ReadableCacheNamespace.get_with_max_age. cbn [ri_namespace].
  eapply triple_conseq; [exact (get_impl_fresh m1 now fsid max_age)|done| |by intros m ->].
  intros o m [-> Ho]. split; [done|]. destruct o; [|done]. by eapply same_but_lock_cached.
Qed.

Lemma store_status_triple m0 now fsid v :
  triple (λ m, m = m0) (store_status now fsid v)
    (λ _ m, ∃ raw, entry_to_json (mkCacheEntry now v) = Some raw ∧ m !! status_path fsid = Some raw) (λ _, True).
Proof.
  unfold store_status, write_global, NamespacedCache.write.
  eapply triple_bind; [eapply triple_conseq; [exact (guard_triple m0 mkWritable)|done|intros g m Hg; exact Hg|done]|].
  intros g. apply triple_pure. intros ->. apply triple_from. intros m1 _.
  unfold WritableCacheNamespace.set, set_impl. cbn [wi_namespace].
  eapply triple_conseq; [apply ensure_key_triple; intros _; exact (set_at_path_triple m1 (mkWritable GLOBAL_NAMESPACE) (status_path fsid) v now)|done| |done].
  intros u m (raw&Hraw&->). exists raw. split; [done|]. apply lookup_insert_eq.
Qed.

Lemma access_checked_triple u m0 cluster :
  triple (λ m, m = m0) (access_checked_members u cluster)
    (λ ms m, m = m0 ∧ ∃ cfg c, disk_config m0 = Ok cfg ∧ lookup_cluster u cfg cluster PRIV_RESOURCE_AUDIT = Ok (c, ms)) (λ m, m = m0).
Proof.
  unfold access_checked_members. eapply triple_bind; [exact (config_triple m0)|]. intros cfg. apply triple_pure. intros Hd.
  apply (triple_bind _ _ _ (λ x m, m = m0 ∧ lookup_cluster u cfg cluster PRIV_RESOURCE_AUDIT = Ok x)).
  { apply triple_lift. intros m ->. by destruct (lookup_cluster _ _ _ _). }
  intros [c ms]. apply triple_pure. intros Hl. apply triple_ret. intros m ->. eauto.
Qed.

Lemma served_triple env m0 now now' cluster ms max_age :
  triple (λ m, m = m0) (cached_or_fetch_status env now now' cluster ms max_age)
    (λ v m, cached_fresh m0 now cluster max_age v ∨
       ∃ conn raw, connect_cluster (me_connect env) (me_remotes env) ms = Ok conn ∧ me_status env conn = Ok v ∧
         entry_to_json (mkCacheEntry now' v) = Some raw ∧ m !! status_path cluster = Some raw) (λ _, True).
Proof.
  unfold cached_or_fetch_status.
  eapply triple_bind; [eapply triple_conseq; [exact (cached_status_triple m0 now cluster max_age)|done|intros o m Ho; exact Ho|done]|].
  intros [v|]; cbv beta iota.
  - apply triple_ret. intros m [_ Hv]. by left.
  - apply triple_from. intros m1 _.
    apply (triple_bind _ _ _ (λ conn m, m = m1 ∧ connect_cluster (me_connect env) (me_remotes env) ms = Ok conn)).
    { apply triple_lift. intros m ->. by destruct (connect_cluster _ _ _). }
    intros conn. apply triple_pure. intros Hc.
    apply (triple_bind _ _ _ (λ v m, m = m1 ∧ me_status env conn = Ok v)).
    { apply triple_lift. intros m ->. unfold with_context. by destruct (me_status env conn). }
    intros v. apply triple_pure. intros Hv. eapply triple_bind; [exact (store_status_triple m1 now' cluster v)|].
    intros u1. apply triple_ret. intros m (raw&Hraw&Hm). right. exists conn, raw. done.
Qed.

(** A status that is served was asked for by someone with audit rights on a remote
    of the cluster, and is either a cached one that is not older than the caller
    allows, never if no age is allowed, or the answer of a member that a client could
    be built for; that answer is in the cache, with the current time, afterwards. *)
Theorem status_never_stale u env now now' cluster max_age w v w' :
  get_status u env now now' cluster max_age w = (Ok v, w') →
  ∃ cfg c ms, disk_config (files w) = Ok cfg ∧ lookup_cluster u cfg cluster PRIV_RESOURCE_AUDIT = Ok (c, ms) ∧
    (cached_fresh (files w) now cluster (status_max_age max_age) v ∧ max_age ≠ Some 0 ∨
     ∃ conn raw, connect_cluster (me_connect env) (me_remotes env) ms = Ok conn ∧ me_status env conn = Ok v ∧
       entry_to_json (mkCacheEntry now' v) = Some raw ∧ files w' !! status_path cluster = Some raw).
Proof.
  intros Hrun. assert (triple (λ m, m = files w) (get_status u env now now' cluster max_age)
    (λ v m, ∃ cfg c ms, disk_config (files w) = Ok cfg ∧ lookup_cluster u cfg cluster PRIV_RESOURCE_AUDIT = Ok (c, ms) ∧
      (cached_fresh (files w) now cluster (status_max_age max_age) v ∨
       ∃ conn raw, connect_cluster (me_connect env) (me_remotes env) ms = Ok conn ∧ me_status env conn = Ok v ∧
         entry_to_json (mkCacheEntry now' v) = Some raw ∧ m !! status_path cluster = Some raw)) (λ _, True)) as Ht.
  { unfold get_status. eapply triple_bind.
    - eapply triple_conseq; [exact (access_checked_triple u (files w) cluster)|done|intros ms m Hms; exact Hms|done].
    - intros ms. apply triple_pure. intros (cfg&c&Hd&Hl).
      eapply triple_conseq; [exact (served_triple env (files w) now now' cluster ms (status_max_age max_age))|done| |done].
      intros v0 m Hv. exists cfg, c, ms. done. }
  specialize (Ht w eq_refl). rewrite Hrun in Ht. destruct Ht as (cfg&c&ms&Hd&Hl&Hv). exists cfg, c, ms.
  split_and!; [done..|]. destruct Hv as [Hv|Hv]; [left|by right]. split; [done|]. intros ->.
  destruct Hv as (raw&e&_&_&_&Hage). change (status_max_age (Some 0)) with 0 in Hage. lia.
Qed.

Lemma list_entries_triple m0 now l :
  triple (same_but_lock m0) (list_entries now l)
    (λ out m, same_but_lock m0 m ∧ Forall2 (λ x e, ∃ o : option Value,
       e = list_entry x.1 x.2 (summarize_status (cc_id x.1) <$> o) ∧
       ∀ v, o = Some v → cached_fresh m0 now (cc_id x.1) LIST_STATUS_MAX_AGE v) l out) (same_but_lock m0).
Proof.
  induction l as [|[c ms] l IH]; cbn [list_entries]; [by apply triple_ret|].
  apply (triple_bind _ _ _ (λ r m, same_but_lock m0 m ∧
    ∀ v, ok_flatten r = Some v → cached_fresh m0 now (cc_id c) LIST_STATUS_MAX_AGE v)).
  { apply triple_from. intros m1 Hm1. assert (∀ m, same_but_lock m1 m → same_but_lock m0 m) as Htr.
    { intros m Hm p Hp. by rewrite Hm, Hm1. }
    eapply (triple_conseq _ (λ m, m = m1) _ _ _ _ (same_but_lock m1)); [|done|intros r m Hr; exact Hr|exact Htr].
    eapply triple_try; [exact (cached_status_triple m1 now (cc_id c) LIST_STATUS_MAX_AGE)| |].
    - intros o m [Hm Ho]. split; [by apply Htr|]. intros v. cbn [ok_flatten]. intros ->. by eapply same_but_lock_cached.
    - intros e m Hm. split; [by apply Htr|done]. }
  intros r. apply triple_pure. intros Hr. eapply triple_bind; [exact IH|]. intros out. apply triple_pure. intros Hout.
  apply triple_ret. intros m Hm. split; [done|]. constructor; [|done]. exists (ok_flatten r). done.
Qed.

(** The list of clusters has one entry for every cluster that the caller may see,
    in the order of the registry; an entry has the health, the capacity and the
    counts of a cached status of that cluster that is younger than eleven minutes,
    or none.  No file but a lock file changes. *)
Theorem list_clusters_spec u now w l w' :
  list_clusters u now w = (Ok l, w') →
  same_but_lock (files w) (files w') ∧
  ∃ cfg acc, disk_config (files w) = Ok cfg ∧ accessible_clusters u cfg PRIV_RESOURCE_AUDIT = Ok acc ∧
    Forall2 (λ x e, ∃ o : option Value,
      e = list_entry x.1 x.2 (summarize_status (cc_id x.1) <$> o) ∧
      ∀ v, o = Some v → cached_fresh (files w) now (cc_id x.1) LIST_STATUS_MAX_AGE v) acc l.
Proof.
  intros Hrun. assert (triple (λ m, m = files w) (list_clusters u now)
    (λ l m, same_but_lock (files w) m ∧
       ∃ cfg acc, disk_config (files w) = Ok cfg ∧ accessible_clusters u cfg PRIV_RESOURCE_AUDIT = Ok acc ∧
       Forall2 (λ x e, ∃ o : option Value, e = list_entry x.1 x.2 (summarize_status (cc_id x.1) <$> o) ∧
         ∀ v, o = Some v → cached_fresh (files w) now (cc_id x.1) LIST_STATUS_MAX_AGE v) acc l) (λ _, True)) as Ht.
  { unfold list_clusters. eapply triple_bind.
    { eapply triple_conseq; [exact (config_triple (files w))|done|intros cfg m Hc; exact Hc|done]. }
    intros cfg. apply triple_pure. intros Hd.
    apply (triple_bind _ _ _ (λ x m, m = files w ∧ accessible_clusters u cfg PRIV_RESOURCE_AUDIT = Ok x)).
    { apply triple_lift. intros m ->. by destruct (accessible_clusters _ _ _). }
    intros acc. apply triple_pure. intros Hacc.
    eapply triple_conseq; [exact (list_entries_triple (files w) now acc)|by intros m ->| |done].
    intros l0 m [Hm Hf]. split; [done|]. exists cfg, acc. done. }
  specialize (Ht w eq_refl). by rewrite Hrun in Ht.
Qed.
End facts.

(** ** Concrete runs *)

Module StatusDemo.
Import CephDemo.
#[local] Existing Instance RemotesDemo.auth.
#[local] Existing Instance sections_text.
#[local] Existing Instance sections_text_laws.
#[local] Existing Instance json_codec.
#[local] Existing Instance safe_id_regex_impl.
#[local] Existing Instance authid_text.
#[local] Existing Instance authid_laws.
#[local] Instance no_f64 : NumberF64 := λ _, None.

(** Someone who may look at [pve1], which has the forgotten cluster. *)
Definition demo_members : member_env := mkMemberEnv (Ok demo_remotes) (λ _, Ok tt)
  (λ _, Ok (reports fsid_c ["n1"%string])) (λ _ _, Err EIo) (λ _ _, Err EIo).
Definition served : result error Value * world := get_status pve1_auditor demo_members 1000 1001 fsid_c (Some 0) (World disk0 []).

Lemma status_never_stale_witness :
  ∃ conn, me_status demo_members conn = Ok (reports fsid_c ["n1"%string]) ∧ is_Some (files served.2 !! status_path fsid_c).
Proof.
  assert (served.1 = Ok (reports fsid_c ["n1"%string])) as Hok by (vm_compute; reflexivity).
  assert (served = (Ok (reports fsid_c ["n1"%string]), served.2)) as Hrun by (rewrite <-Hok; apply surjective_pairing).
  destruct (status_never_stale pve1_auditor demo_members 1000 1001 fsid_c (Some 0) (World disk0 []) _ _ Hrun)
    as (cfg&c&ms&_&_&[[_ Hage]|(conn&raw&_&Hv&_&Hm)]); [by destruct Hage|].
  exists conn. split; [exact Hv|]. by exists raw.
Defined.

(** Ten minutes later the list shows what was stored then. *)
Example listed_quorum :
  match (list_clusters pve1_auditor 1600 served.2).1 with Ok l => le_mons_in_quorum <$> l | Err _ => [] end = [Some 1].
Proof. vm_compute. reflexivity. Qed.

Lemma list_clusters_spec_witness :
  ∃ l w', list_clusters pve1_auditor 1600 (World disk0 []) = (Ok l, w') ∧ same_but_lock disk0 (files w').
Proof.
  pose proof (list_clusters_spec pve1_auditor 1600 (World disk0 [])) as Hspec.
  assert (is_Some (result_ok (list_clusters pve1_auditor 1600 (World disk0 [])).1)) as Hok by (vm_compute; by eexists).
  destruct (list_clusters pve1_auditor 1600 (World disk0 [])) as [[l|e] w']; [|by destruct Hok].
  exists l, w'. split; [reflexivity|]. exact (proj1 (Hspec l w' eq_refl)).
Defined.

(** A maximum age beyond [i64] is a negative one: the cache is never used. *)
Example huge_max_age :
  status_max_age (Some (2 ^ 63)) = - 2 ^ 63 ∧
  fst (get_status pve1_auditor (mkMemberEnv (Ok demo_remotes) (λ _, Ok tt) (λ _, Err EIo) (λ _ _, Err EIo) (λ _ _, Err EIo))
         1001 1001 fsid_c (Some (2 ^ 63)) served.2) = Err (EMsg (cluster_message fsid_c "failed to read status")) ∧
  fst (get_status pve1_auditor (mkMemberEnv (Ok demo_remotes) (λ _, Ok tt) (λ _, Err EIo) (λ _ _, Err EIo) (λ _ _, Err EIo))
         1001 1001 fsid_c (Some (2 ^ 63 - 1)) served.2) = Ok (reports fsid_c ["n1"%string]).
Proof. vm_compute. split_and!; reflexivity. Qed.
End StatusDemo.
