(* ===== verification/SdnClient.v ===== *)
(** * Changing the SDN configuration of several remotes

    Model of [server/src/sdn_client.rs] and of [create_zone] and [create_vnet] in
    [server/src/api/sdn/].  A transaction locks the SDN configuration of all remotes,
    makes a change on each of them, rolls all of them back if one refuses it, and
    otherwise applies the change everywhere and waits for the tasks that reload it.

    Requests are made to the API of a PVE remote, which is not part of the
    repository: class [SdnApi] has the state of the SDN configuration of a remote
    and the answers to the requests as functions of it.  The requests of one phase
    run concurrently, each on its own remote; a schedule picks their order.  A
    client for a remote is identified with the remote.  Of the parameters of a new
    zone or VNet only those that the code sets are kept. *)

From stdpp Require Import functions.
From S2P Require Import Prelude FileSystem RemoteUpid RemotesConfig JsonValue ParallelFetcher.
Abbreviation Remote := RemotesConfig.Remote.

(** [proxmox_client::Error], the variants that are told apart. *)
Inductive SdnError : Type :=
| SdnApiError (status : Z) (msg : string)
| SdnBadApi (msg : string)
| SdnOther (msg : string).

Inductive LockedSdnClientError : Type :=
| LockedClient (e : SdnError)
| LockedOther (e : error).

Record CreateVnet : Type := mkCreateVnet {
  cv_tag : option Z;
  cv_vnet : string;
  cv_zone : string;
  cv_lock_token : option string;
}.
Record CreateZone : Type := mkCreateZone {
  cz_zone : string;
  cz_vrf_vxlan : option Z;
  cz_controller : option string;
  cz_lock_token : option string;
}.
Record CreateZoneRemote : Type := mkZoneRemote { czr_remote : string; czr_controller : string }.
Record CreateVnetRemote : Type := mkVnetRemote { cvr_remote : string; cvr_zone : string }.

Class SdnApi := {
  sdn : Type;
  api_acquire_lock : option bool → sdn → result SdnError string * sdn;
  api_create_vnet : CreateVnet → sdn → result SdnError unit * sdn;
  api_create_zone : CreateZone → sdn → result SdnError unit * sdn;
  (** lock token, release lock *)
  api_apply : option string → option bool → sdn → result SdnError string * sdn;
  (** force, lock token *)
  api_release_lock : option bool → option string → sdn → result SdnError unit * sdn;
  (** lock token, release lock *)
  api_rollback : option string → option bool → sdn → result SdnError unit * sdn;
}.

(** The status of a task: whether it runs, and whether it finished successfully. *)
Record task_status : Type := mkTaskStatus { ts_running : bool; ts_success : option bool }.

Section sdn_client.
Context `{SdnApi}.

(** The SDN configurations of all remotes. *)
Definition sdn_io (A : Type) : Type := (string → sdn) → A * (string → sdn).
#[export] Instance sdn_io_ret : MRet sdn_io := λ A a w, (a, w).
#[export] Instance sdn_io_bind : MBind sdn_io := λ A B k m w, let '(a, w) := m w in k a w.

(** A request to one remote. *)
Definition request_on {A} (remote : string) (f : sdn → A * sdn) : sdn_io A := λ w,
  let '(a, s) := f (w remote) in (a, <[remote := s]> w).

Fixpoint run_all {A B} (f : A → sdn_io B) (l : list A) : sdn_io (list B) :=
  match l with
  | [] => mret []
  | x :: l => b ← f x; bs ← run_all f l; mret (b :: bs)
  end.

(** ** One remote *)

Record LockedSdnClient : Type := mkLocked { lk_token : string; lk_client : string }.

Section client.
Context `{AuthidType} (connect : Remote → result error unit).

Definition locked_new (remote : Remote) (allow_pending : option bool) : sdn_io (result LockedSdnClientError LockedSdnClient) :=
  match connect remote with
  | Err e => mret (Err (LockedOther e))
  | Ok _ =>
      r ← request_on (r_id remote) (api_acquire_lock allow_pending);
      mret (match r with
            | Ok lock_token => Ok (mkLocked lock_token (r_id remote))
            | Err e => Err (LockedClient e)
            end)
  end.
End client.

Definition create_vnet (self : LockedSdnClient) (params : CreateVnet) : sdn_io (result SdnError unit) :=
  request_on (lk_client self)
    (api_create_vnet (mkCreateVnet (cv_tag params) (cv_vnet params) (cv_zone params) (Some (lk_token self)))).
Definition create_zone (self : LockedSdnClient) (params : CreateZone) : sdn_io (result SdnError unit) :=
  request_on (lk_client self)
    (api_create_zone (mkCreateZone (cz_zone params) (cz_vrf_vxlan params) (cz_controller params) (Some (lk_token self)))).

Definition apply_and_release (self : LockedSdnClient) : sdn_io (result SdnError string) :=
  request_on (lk_client self) (api_apply (Some (lk_token self)) (Some true)).
Definition release (force : option bool) (self : LockedSdnClient) : sdn_io (result SdnError unit) :=
  request_on (lk_client self) (api_release_lock force (Some (lk_token self))).
Definition rollback_and_release (self : LockedSdnClient) : sdn_io (result SdnError unit) :=
  request_on (lk_client self) (api_rollback (Some (lk_token self)) (Some true)).

(** ** Several remotes *)

Section clients.
Context `{AuthidType} `{SafeIdRegex} `{NativeUpids}.
(** The configured remotes, building a client, the order in which concurrent
    requests run, and the answer to the n-th question for the status of a task of a
    remote on a node. *)
Record sdn_env : Type := mkSdnEnv {
  se_remotes : result error (list (string * Remote));
  se_connect : Remote → result error unit;
  se_schedule : list nat;
  se_task_status : string → string → RemoteUpid → nat → result SdnError task_status;
}.
Context (env : sdn_env).

Definition LockedSdnClientContext (C : Type) : Type := (string * C)%type.

Definition lock_error (remote : Remote) (e : LockedSdnClientError) : error :=
  match e with
  | LockedClient (SdnApiError 501 _) =>
      EMsg ("remote " +:+ r_id remote +:+ " does not support the sdn locking api, please upgrade to PVE 9 or newer!")
  | _ => EMsg ("could not lock sdn configuration for remote " +:+ r_id remote)
  end.

Definition shuffle {A} (l : list A) : list A := join_order (length l) (se_schedule env) l.

Section context.
Context {C : Type}.
Abbreviation clients := (list (LockedSdnClient * LockedSdnClientContext C)).

(** The loop of [from_remote_names]. *)
Fixpoint lock_all (remote_config : list (string * Remote)) (allow_pending : bool) (locked : clients)
    (remote_names : list (string * C)) : sdn_io (result error clients) :=
  match remote_names with
  | [] => mret (Ok locked)
  | (remote_name, context) :: l =>
      match get_remote_of RemoteType.Pve remote_config remote_name with
      | Err e => mret (Err e)
      | Ok remote =>
          r ← locked_new (se_connect env) remote (Some allow_pending);
          match r with
          | Ok client => lock_all remote_config allow_pending (locked ++ [(client, (remote_name, context))]) l
          | Err e =>
              _ ← run_all (λ c, release (Some false) c.1) locked;
              mret (Err (lock_error remote e))
          end
      end
  end.

Definition from_remote_names (remote_names : list (string * C)) (allow_pending : bool) : sdn_io (result error clients) :=
  match se_remotes env with
  | Err e => mret (Err e)
  | Ok remote_config =>
      r ← lock_all remote_config allow_pending [] remote_names;
      mret (match r with Ok locked => Ok (sort_by (cmp_on (λ c, c.2.1) String.compare) locked) | Err e => Err e end)
  end.

Definition is_failed {A E} (r : result E A) : bool := match r with Ok _ => false | Err _ => true end.

Definition for_each (callback : LockedSdnClient → LockedSdnClientContext C → sdn_io (result SdnError unit)) (self : clients)
    : sdn_io (result error clients) :=
  results ← run_all (λ c, callback c.1 c.2) (shuffle self);
  if existsb is_failed results then
    _ ← run_all (λ c, rollback_and_release c.1) (shuffle self);
    mret (Err (EMsg "running the transaction failed on at least one remote!"))
  else mret (Ok self).

(** [poll_task], from the n-th question on; [None] if the task still runs after
    [fuel] questions. *)
Fixpoint poll_task (fuel : nat) (n : nat) (node : string) (upid : RemoteUpid) (client : string)
    : option (result error RemoteUpid) :=
  match fuel with
  | O => None
  | S fuel =>
      match se_task_status env client node upid n with
      | Err _ => Some (Err (EMsg "api error"))
      | Ok status =>
          if negb (ts_running status) then
            Some (if bool_decide (ts_success status = Some true) then Ok upid
                  else Err (EMsg ("task did not finish successfully on remote " +:+ ru_remote upid)))
          else poll_task fuel (S n) node upid client
      end
  end.

(** The tasks to wait for: those of the remotes that applied the configuration. *)
Definition reload_task (x : result SdnError string * (LockedSdnClient * LockedSdnClientContext C))
    : option (string * RemoteUpid * string) :=
  let '(result, (client, ctx)) := x in
  match result with
  | Err _ => None
  | Ok upid =>
      match try_from_pair ctx.1 upid with
      | Err _ => None
      | Ok remote_upid => Some (default ""%string (pve_node <$> pve_parse upid), remote_upid, lk_client client)
      end
  end.

Definition wait_all (fuel : nat) (tasks : list (string * RemoteUpid * string)) : option (result error unit) :=
  results ← mapM (λ '(node, upid, client), poll_task fuel 0 node upid client) tasks;
  Some (if existsb is_failed results then Err (EMsg "failed to apply configuration on at least one remote") else Ok tt).

(** [LockedSdnClients::apply_and_release] *)
Definition apply_all (fuel : nat) (self : clients) : sdn_io (option (result error unit)) :=
  let order := shuffle self in
  results ← run_all (λ c, apply_and_release c.1) order;
  mret (wait_all fuel (omap (M:=list) reload_task (zip results order))).

(** The body of the workers. *)
Definition transaction (fuel : nat) (remote_names : list (string * C))
    (callback : LockedSdnClient → LockedSdnClientContext C → sdn_io (result SdnError unit)) : sdn_io (option (result error unit)) :=
  r ← from_remote_names remote_names false;
  match r with
  | Err e => mret (Some (Err e))
  | Ok self =>
      r ← for_each callback self;
      match r with
      | Err e => mret (Some (Err e))
      | Ok self => apply_all fuel self
      end
  end.
End context.

Definition zone_callback (zone : string) (vrf_vxlan : option Z) (client : LockedSdnClient)
    (ctx : LockedSdnClientContext CreateZoneRemote) : sdn_io (result SdnError unit) :=
  create_zone client (mkCreateZone zone vrf_vxlan (Some (czr_controller ctx.2)) None).
Definition create_zone_worker (fuel : nat) (zone : string) (vrf_vxlan : option Z) (remotes : list CreateZoneRemote)
    : sdn_io (option (result error unit)) :=
  transaction fuel (map (λ remote, (czr_remote remote, remote)) remotes) (zone_callback zone vrf_vxlan).

Definition vnet_callback (vnet : string) (tag : option Z) (client : LockedSdnClient)
    (ctx : LockedSdnClientContext CreateVnetRemote) : sdn_io (result SdnError unit) :=
  create_vnet client (mkCreateVnet tag vnet (cvr_zone ctx.2) None).
Definition create_vnet_worker (fuel : nat) (vnet : string) (tag : option Z) (remotes : list CreateVnetRemote)
    : sdn_io (option (result error unit)) :=
  transaction fuel (map (λ remote, (cvr_remote remote, remote)) remotes) (vnet_callback vnet tag).
End clients.
End sdn_client.
