(* ===== verification/SdnSpec.v ===== *)
(** * All or nothing on several remotes

    What a transaction of [SdnClient] does to the SDN configurations: either no
    remote runs another configuration than before, or every remote accepted the
    change; and the locks it takes are released. *)

From stdpp Require Import functions.
From S2P Require Import Prelude FileSystem RemoteUpid RemotesConfig JsonValue ParallelFetcher SdnClient.

(** What the API of a remote documents.  A lock is only given if nobody holds it and
    nothing is pending, and shuts out everybody without its token; a request that
    needs the lock is processed in full or not at all, and was processed if it is
    answered without an error.  (An answer that cannot be decoded comes from a server
    that processed the request.) *)
Class SdnLaws `{SdnApi} := {
  sdn_config : Type;
  lock_of : sdn → option string;
  running : sdn → sdn_config;
  pending : sdn → sdn_config;
  lock_answer s r s' :
    api_acquire_lock (Some false) s = (r, s') →
    running s' = running s ∧ pending s' = pending s ∧
    match r with Ok t => lock_of s = None ∧ lock_of s' = Some t ∧ pending s = running s | Err _ => lock_of s ≠ None → s' = s end;
  zone_answer p t s r s' :
    cz_lock_token p = Some t → lock_of s = Some t → api_create_zone p s = (r, s') →
    lock_of s' = Some t ∧ running s' = running s;
  vnet_answer p t s r s' :
    cv_lock_token p = Some t → lock_of s = Some t → api_create_vnet p s = (r, s') →
    lock_of s' = Some t ∧ running s' = running s;
  rollback_answer t s r s' :
    lock_of s = Some t → api_rollback (Some t) (Some true) s = (r, s') →
    lock_of s' = None ∧ running s' = running s ∧ pending s' = running s ∨
    (∃ e, r = Err e ∧ ∀ msg, e ≠ SdnBadApi msg) ∧ s' = s;
  release_answer t s r s' :
    lock_of s = Some t → api_release_lock (Some false) (Some t) s = (r, s') →
    lock_of s' = None ∧ running s' = running s ∧ pending s' = pending s ∨ (∃ e, r = Err e) ∧ s' = s;
  apply_answer t s r s' :
    lock_of s = Some t → api_apply (Some t) (Some true) s = (r, s') →
    lock_of s' = None ∧ running s' = pending s ∧ pending s' = pending s ∨ (∃ e, r = Err e) ∧ s' = s;
}.

Section spec.
Context `{SdnLaws} `{AuthidType} `{SafeIdRegex} `{NativeUpids} (env : sdn_env).
Implicit Types (w : string → sdn).

Definition observed (s : sdn) : option string * sdn_config * sdn_config := (lock_of s, running s, pending s).

(** Requests for a lock that fail do not take it, and no request to give one up fails. *)
Record reliable : Prop := {
  rl_lock s e s' : api_acquire_lock (Some false) s = (Err e, s') → s' = s;
  rl_release t s : lock_of s = Some t → (api_release_lock (Some false) (Some t) s).1 = Ok tt;
  rl_rollback t s : lock_of s = Some t → ¬ ((∃ e, (api_rollback (Some t) (Some true) s).1 = Err e ∧ ∀ msg, e ≠ SdnBadApi msg));
}.

(** ** One request to each of several remotes *)

Lemma request_on_run {A} r (f : sdn → A * sdn) w :
  request_on r f w = ((f (w r)).1, <[r := (f (w r)).2]> w).
Proof. unfold request_on. by destruct (f (w r)). Qed.

Lemma sdn_bind {A B} (m : sdn_io A) (k : A → sdn_io B) w a w' : m w = (a, w') → (m ≫= k) w = k a w'.
Proof. intros Hm. unfold mbind, sdn_io_bind. by rewrite Hm. Qed.

Lemma locked_new_run connect remote allow_pending w :
  locked_new connect remote allow_pending w =
  match connect remote with
  | Err e => (Err (LockedOther e), w)
  | Ok _ =>
      let a := api_acquire_lock allow_pending (w (r_id remote)) in
      (match a.1 with Ok t => Ok (mkLocked t (r_id remote)) | Err e => Err (LockedClient e) end,
       <[r_id remote := a.2]> w)
  end.
Proof.
  unfold locked_new. destruct (connect remote) as [|]; [|done].
  by rewrite (sdn_bind _ _ _ _ _ (request_on_run _ _ _)).
Qed.

Lemma run_all_ext {A B} (f g : A → sdn_io B) l : (∀ a w, f a w = g a w) → ∀ w, run_all f l w = run_all g l w.
Proof.
  intros Hfg. induction l as [|a l IH]; intros w; [done|]. cbn [run_all]. unfold mbind, sdn_io_bind. rewrite Hfg.
  destruct (g a w) as [b w1]. by rewrite IH.
Qed.

Lemma run_all_on {A B} (target : A → string) (f : A → sdn → B * sdn) l : ∀ w,
  NoDup (target <$> l) →
  ∃ w', run_all (λ a, request_on (target a) (f a)) l w = (map (λ a, (f a (w (target a))).1) l, w') ∧
    (∀ a, a ∈ l → w' (target a) = (f a (w (target a))).2) ∧ (∀ r, r ∉ target <$> l → w' r = w r).
Proof.
  induction l as [|a l IH]; intros w Hnd; cbn [run_all].
  { exists w. split; [done|]. split; [|done]. intros a Ha. by apply elem_of_nil in Ha. }
  rewrite fmap_cons in *. apply NoDup_cons in Hnd as [Ha Hnd].
  destruct (IH (<[target a := (f a (w (target a))).2]> w) Hnd) as (w'&Hrun&Hin&Hout).
  assert (∀ b, b ∈ l → <[target a := (f a (w (target a))).2]> w (target b) = w (target b)) as Hne.
  { intros b Hb. rewrite fn_lookup_insert_ne; [done|]. intros Heq. apply Ha. rewrite Heq. by apply list_elem_of_fmap_2. }
  exists w'. split.
  - unfold mbind, sdn_io_bind. rewrite request_on_run, Hrun. cbn [mret]. unfold mret, sdn_io_ret. f_equal. simpl. f_equal.
    apply map_ext_in. intros b Hb%list_elem_of_In. by rewrite Hne.
  - split.
    + intros b [->|Hb]%elem_of_cons; [|rewrite Hin by done; by rewrite Hne].
      rewrite Hout by done. by rewrite fn_lookup_insert.
    + intros r [Hr1 Hr2]%not_elem_of_cons. rewrite Hout by done. by rewrite fn_lookup_insert_ne.
Qed.

(** ** Locking *)

(** No remote has another configuration; the lock may be held. *)
Definition unharmed w0 w : Prop := ∀ r, running (w r) = running (w0 r) ∧ pending (w r) = pending (w0 r).

Section context.
Context {C : Type}.
Abbreviation clients := (list (LockedSdnClient * LockedSdnClientContext C)).
Implicit Types (l locked : clients).

Definition client_of (c : LockedSdnClient * LockedSdnClientContext C) : string := lk_client c.1.

(** The clients hold the locks of different remotes, on which nothing else was done
    since [w0], and nobody held them then. *)
Record held w0 locked w : Prop := {
  hd_distinct : NoDup (client_of <$> locked);
  hd_locked c : c ∈ locked → client_of c = c.2.1 ∧ lock_of (w (client_of c)) = Some (lk_token c.1) ∧
    running (w (client_of c)) = running (w0 (client_of c)) ∧ pending (w (client_of c)) = pending (w0 (client_of c)) ∧
    lock_of (w0 (client_of c)) = None ∧ pending (w0 (client_of c)) = running (w0 (client_of c));
  hd_others r : r ∉ client_of <$> locked → w r = w0 r;
}.

Lemma held_perm w0 l l' w : l ≡ₚ l' → held w0 l w → held w0 l' w.
Proof.
  intros Hp [Hd Hl Ho]. split; [by rewrite <-Hp| |].
  - intros c Hc. apply Hl. by rewrite Hp.
  - intros r Hr. apply Ho. by rewrite Hp.
Qed.

Lemma held_unharmed w0 locked w : held w0 locked w → unharmed w0 w.
Proof.
  intros [_ Hl Ho] r. destruct (decide (r ∈ client_of <$> locked)) as [(c&->&Hc)%list_elem_of_fmap|Hr]; [|by rewrite Ho].
  by destruct (Hl c Hc) as (_&_&?&?&_).
Qed.

Lemma shuffle_perm {A} (l : list A) : shuffle env l ≡ₚ l.
Proof. apply join_order_perm. Qed.

Lemma release_all_run w0 locked w :
  held w0 locked w →
  ∃ rs w', run_all (λ c : LockedSdnClient * LockedSdnClientContext C, release (Some false) c.1) locked w = (rs, w') ∧ unharmed w0 w' ∧
    (∀ r, r ∉ client_of <$> locked → w' r = w0 r) ∧
    (reliable → ∀ c, c ∈ locked → observed (w' (client_of c)) = observed (w0 (client_of c))).
Proof.
  intros [Hnd Hl Ho].
  destruct (run_all_on client_of (λ c, api_release_lock (Some false) (Some (lk_token c.1))) locked w Hnd) as (w'&Hrun&Hin&Hout).
  exists (map (λ c, (api_release_lock (Some false) (Some (lk_token c.1)) (w (client_of c))).1) locked), w'.
  assert (∀ c, c ∈ locked → running (w' (client_of c)) = running (w0 (client_of c)) ∧
     pending (w' (client_of c)) = pending (w0 (client_of c)) ∧
     (reliable → observed (w' (client_of c)) = observed (w0 (client_of c)))) as Hc.
  { intros c Hc. destruct (Hl c Hc) as (_&Hk&Hr&Hp&Hf&_). rewrite (Hin c Hc).
    destruct (api_release_lock (Some false) (Some (lk_token c.1)) (w (client_of c))) as [a s'] eqn:Ha.
    pose proof (λ rl, rl_release rl (lk_token c.1) _ Hk) as Hrel. rewrite Ha in Hrel. cbn [fst snd] in *.
    destruct (release_answer _ _ _ _ Hk Ha) as [(Hlo&Hru&Hpe)|([e ->]&->)].
    - unfold observed. rewrite Hlo, Hru, Hpe, Hr, Hp, Hf. done.
    - split_and!; [done..|]. intros Hrl. by specialize (Hrel Hrl). }
  split_and!; [exact Hrun| | |].
  - intros r. destruct (decide (r ∈ client_of <$> locked)) as [(c&->&Hcin)%list_elem_of_fmap|Hr].
    + by destruct (Hc c Hcin) as (?&?&_).
    + by rewrite Hout, Ho.
  - intros r Hr. by rewrite Hout, Ho.
  - intros Hrl c Hcin. destruct (Hc c Hcin) as (_&_&Hobs). by apply Hobs.
Qed.

(** What [from_remote_names] does after a lock was refused. *)
Lemma release_after_failure w0 locked w w2 (e : error) :
  held w0 locked w → unharmed w w2 → (∀ r, r ∈ client_of <$> locked → w2 r = w r) → (reliable → ∀ r, w2 r = w r) →
  ∃ w3, (_ ← run_all (λ c : LockedSdnClient * LockedSdnClientContext C, release (Some false) c.1) locked;
         mret (M:=sdn_io) (@Err error clients e)) w2 = (Err e, w3) ∧
    unharmed w0 w3 ∧ (reliable → ∀ r, observed (w3 r) = observed (w0 r)).
Proof.
  intros [Hd Hl Ho] Hun Hsame Hrel.
  assert (held (λ r, if decide (r ∈ client_of <$> locked) then w0 r else w2 r) locked w2) as Hh2.
  { split; [done| |].
    - intros c Hc. assert (client_of c ∈ client_of <$> locked) as Hcin by (by apply list_elem_of_fmap_2).
      rewrite decide_True, Hsame by done. by apply Hl.
    - intros r Hr. by rewrite decide_False. }
  destruct (release_all_run _ _ _ Hh2) as (rs&w4&Hrun&Hun4&Hout4&Hobs4). exists w4. split.
  { unfold mbind, sdn_io_bind. by rewrite Hrun. }
  split.
  - intros r. specialize (Hun4 r). cbv beta in Hun4. destruct (decide (r ∈ client_of <$> locked)) as [Hr|Hr]; [done|].
    destruct Hun4 as [-> ->]. destruct (Hun r) as [-> ->]. by rewrite Ho.
  - intros Hrl r. destruct (decide (r ∈ client_of <$> locked)) as [Hr|Hr].
    + apply list_elem_of_fmap in Hr as (c&->&Hc). rewrite (Hobs4 Hrl c Hc). cbv beta. rewrite decide_True; [done|by apply list_elem_of_fmap_2].
    + rewrite Hout4 by done. rewrite decide_False by done. rewrite (Hrel Hrl). by rewrite Ho.
Qed.

Lemma held_snoc w0 locked w name (ctx : C) t s' :
  held w0 locked w → lock_of (w name) = None → lock_of s' = Some t → pending (w name) = running (w name) →
  running s' = running (w name) → pending s' = pending (w name) →
  held w0 (locked ++ [(mkLocked t name, (name, ctx))]) (<[name := s']> w).
Proof.
  intros [Hd Hl Ho] Hfree Hlock Hclean Hr' Hp'.
  assert (name ∉ client_of <$> locked) as Hni.
  { intros (c&Hname&Hc)%list_elem_of_fmap. destruct (Hl c Hc) as (_&Hk&_). rewrite <-Hname in Hk. congruence. }
  pose proof (Ho _ Hni) as Hw. split.
  - rewrite fmap_app. apply NoDup_app. split_and!; [done| |apply NoDup_singleton].
    intros r Hr Hr1%list_elem_of_singleton. subst r. done.
  - intros c [Hc|Hc%list_elem_of_singleton]%elem_of_app.
    + rewrite fn_lookup_insert_ne; [by apply Hl|]. intros ->. apply Hni. by apply list_elem_of_fmap_2.
    + subst c. unfold client_of. cbn [fst snd lk_client lk_token]. rewrite fn_lookup_insert, <-Hw, Hr', Hp'. done.
  - intros r. rewrite fmap_app. intros Hr. rewrite not_elem_of_app in Hr. destruct Hr as [Hr1 Hr2].
    rewrite fn_lookup_insert_ne; [by apply Ho|]. intros <-. apply Hr2. by left.
Qed.

Definition configured (remote_config : list (string * Remote)) (name : string) : Prop :=
  ∃ remote, get_remote_of RemoteType.Pve remote_config name = Ok remote.
Definition keys_match (remote_config : list (string * Remote)) : Prop :=
  ∀ name remote, get_remote_of RemoteType.Pve remote_config name = Ok remote → r_id remote = name.

Lemma lock_all_run remote_config (names : list (string * C)) : ∀ w0 locked w res w',
  keys_match remote_config → held w0 locked w →
  lock_all env remote_config false locked names w = (res, w') →
  match res with
  | Ok locked' => held w0 locked' w' ∧ snd <$> locked' = (snd <$> locked) ++ names
  | Err _ => unharmed w0 w' ∧
      (reliable → (∀ x, x ∈ names → configured remote_config x.1) → ∀ r, observed (w' r) = observed (w0 r))
  end.
Proof.
  induction names as [|[name ctx] names IH]; intros w0 locked w res w' Hkeys Hh; cbn [lock_all].
  { intros [= <- <-]. by rewrite app_nil_r. }
  destruct (get_remote_of RemoteType.Pve remote_config name) as [remote|e] eqn:Hrem.
  2: { intros [= <- <-]. split; [by apply (held_unharmed _ _ _ Hh)|].
    intros _ Hconf. destruct (Hconf (name, ctx) ltac:(left)) as [remote Hr]. cbn in Hr. congruence. }
  specialize (Hkeys name remote Hrem) as Hid. intros Hrun.
  pose proof (locked_new_run (se_connect env) remote (Some false) w) as Hnew. rewrite Hid in Hnew. cbv zeta in Hnew.
  destruct (se_connect env remote) as [[]|e].
  2: { rewrite (sdn_bind _ _ _ _ _ Hnew) in Hrun.
    destruct (release_after_failure w0 locked w w (lock_error remote (LockedOther e)) Hh) as (w3&Heq&Hun&Hobs); [done..|].
    rewrite Heq in Hrun. injection Hrun as <- <-. split; [done|]. intros Hrl _. by apply Hobs. }
  rewrite (sdn_bind _ _ _ _ _ Hnew) in Hrun. clear Hnew.
  destruct (api_acquire_lock (Some false) (w name)) as [a s'] eqn:Ha. cbn [fst snd] in Hrun.
  destruct (lock_answer _ _ _ Ha) as (Hrun'&Hpend'&Hans). destruct a as [t|e].
  - destruct Hans as (Hfree&Hlock&Hclean).
    apply (IH w0 _ _ res w' Hkeys) in Hrun; [|by apply held_snoc].
    destruct res as [locked'|e].
    + destruct Hrun as [Hh' Hmap]. split; [done|]. rewrite Hmap, fmap_app. simpl. by rewrite <-app_assoc.
    + destruct Hrun as [Hun Hobs]. split; [done|]. intros Hrl Hconf. apply Hobs; [done|]. intros x Hx. apply Hconf. by right.
  - destruct (release_after_failure w0 locked w (<[name := s']> w) (lock_error remote (LockedClient e)) Hh) as (w3&Heq&Hun&Hobs).
    + intros r. destruct (decide (r = name)) as [->|Hr]; [by rewrite fn_lookup_insert|by rewrite fn_lookup_insert_ne].
    + intros r (c&->&Hc)%list_elem_of_fmap. destruct (decide (client_of c = name)) as [<-|Hr]; [|by rewrite fn_lookup_insert_ne].
      rewrite fn_lookup_insert. apply Hans. destruct (hd_locked _ _ _ Hh c Hc) as (_&->&_). done.
    + intros Hrl r. destruct (decide (r = name)) as [->|Hr]; [|by rewrite fn_lookup_insert_ne].
      rewrite fn_lookup_insert. by apply (rl_lock Hrl _ _ _ Ha).
    + rewrite Heq in Hrun. injection Hrun as <- <-. split; [done|]. intros Hrl _. by apply Hobs.
Qed.

Lemma held_nil w : held w [] w.
Proof. split; [constructor| |done]. intros c Hc. by apply elem_of_nil in Hc. Qed.

Lemma from_remote_names_run remote_config (names : list (string * C)) w res w' :
  se_remotes env = Ok remote_config → keys_match remote_config →
  from_remote_names env names false w = (res, w') →
  match res with
  | Ok locked => held w locked w' ∧ snd <$> locked ≡ₚ names
  | Err _ => unharmed w w' ∧
      (reliable → (∀ x, x ∈ names → configured remote_config x.1) → ∀ r, observed (w' r) = observed (w r))
  end.
Proof.
  intros Hcfg Hkeys. unfold from_remote_names. rewrite Hcfg. intros Hrun.
  destruct (lock_all env remote_config false [] names w) as [r w1] eqn:Hlock. rewrite (sdn_bind _ _ _ _ _ Hlock) in Hrun.
  injection Hrun as <- <-. pose proof (lock_all_run _ _ _ _ _ _ _ Hkeys (held_nil w) Hlock) as Hl. destruct r as [locked|e]; [|done].
  destruct Hl as [Hheld Hmap]. split.
  - eapply held_perm; [|exact Hheld]. symmetry. apply sort_by_perm.
  - transitivity (snd <$> locked); [apply fmap_Permutation, sort_by_perm|]. by apply reflexive_eq.
Qed.

(** ** The change *)

(** A callback that makes one request to its remote, which neither gives up the lock
    nor changes what the remote runs. *)
Record request_callback (callback : LockedSdnClient → LockedSdnClientContext C → sdn_io (result SdnError unit))
    (change : LockedSdnClient → LockedSdnClientContext C → sdn → result SdnError unit * sdn) : Prop := {
  rc_request c ctx w : callback c ctx w = request_on (lk_client c) (change c ctx) w;
  rc_locked c ctx s : lock_of s = Some (lk_token c) →
    lock_of (change c ctx s).2 = Some (lk_token c) ∧ running (change c ctx s).2 = running s;
}.

(** No remote runs another configuration, and where another one waits to be applied
    the lock is still held. *)
Definition harmless w0 w : Prop :=
  ∀ r, running (w r) = running (w0 r) ∧ (pending (w r) = pending (w0 r) ∨ lock_of (w r) ≠ None).

Lemma rollback_run w0 locked w0' w (l : clients) :
  held w0 locked w0' → l ≡ₚ locked →
  (∀ c, c ∈ locked → lock_of (w (client_of c)) = Some (lk_token c.1) ∧ running (w (client_of c)) = running (w0 (client_of c))) →
  (∀ r, r ∉ client_of <$> locked → w r = w0 r) →
  ∃ rs w', run_all (λ c : LockedSdnClient * LockedSdnClientContext C, rollback_and_release c.1) l w = (rs, w') ∧
    harmless w0 w' ∧ (reliable → ∀ r, observed (w' r) = observed (w0 r)).
Proof.
  intros Hh Hp Hlk Hw. destruct Hh as [Hd Hl Ho].
  destruct (run_all_on client_of (λ c, api_rollback (Some (lk_token c.1)) (Some true)) l w) as (w'&Hrun&Hin&Hout); [by rewrite Hp|].
  eexists _, w'. split; [exact Hrun|].
  assert (∀ c, c ∈ locked → running (w' (client_of c)) = running (w0 (client_of c)) ∧
     (pending (w' (client_of c)) = pending (w0 (client_of c)) ∨ lock_of (w' (client_of c)) ≠ None) ∧
     (reliable → observed (w' (client_of c)) = observed (w0 (client_of c)))) as Hc.
  { intros c Hc. destruct (Hl c Hc) as (_&_&_&_&Hfree&Hclean). destruct (Hlk c Hc) as [Hk Hr].
    rewrite (Hin c) by (by rewrite Hp). cbv beta.
    destruct (api_rollback (Some (lk_token c.1)) (Some true) (w (client_of c))) as [a s'] eqn:Ha.
    pose proof (λ rl, rl_rollback rl (lk_token c.1) _ Hk) as Hrel. rewrite Ha in Hrel. cbn [fst snd] in *.
    destruct (rollback_answer _ _ _ _ Hk Ha) as [(Hlo&Hru&Hpe)|(He&->)].
    - unfold observed. rewrite Hlo, Hru, Hpe, Hr, Hfree, Hclean. split_and!; auto.
    - split_and!; [done|right; by rewrite Hk|]. intros Hrl. exfalso. by apply (Hrel Hrl). }
  assert (∀ r, r ∉ client_of <$> locked → w' r = w0 r) as Hothers.
  { intros r Hr. rewrite Hout by (by rewrite Hp). by apply Hw. }
  split.
  - intros r. destruct (decide (r ∈ client_of <$> locked)) as [(c&->&Hcin)%list_elem_of_fmap|Hr].
    + by destruct (Hc c Hcin) as (?&?&_).
    + rewrite Hothers by done. auto.
  - intros Hrl r. destruct (decide (r ∈ client_of <$> locked)) as [(c&->&Hcin)%list_elem_of_fmap|Hr].
    + destruct (Hc c Hcin) as (_&_&Hobs). by apply Hobs.
    + by rewrite Hothers.
Qed.

Lemma for_each_run callback change w0 locked w res w' :
  request_callback callback change → held w0 locked w →
  for_each env callback locked w = (res, w') →
  match res with
  | Ok self => self = locked ∧ (∀ r, r ∉ client_of <$> locked → w' r = w0 r) ∧
      ∀ c, c ∈ locked → change c.1 c.2 (w (client_of c)) = (Ok tt, w' (client_of c))
  | Err _ => harmless w0 w' ∧ (reliable → ∀ r, observed (w' r) = observed (w0 r))
  end.
Proof.
  intros [Hreq Hchg] Hh. pose proof Hh as [Hd Hl Ho]. unfold for_each. intros Hrun.
  pose proof (shuffle_perm locked) as Hp.
  destruct (run_all_on client_of (λ c, change c.1 c.2) (shuffle env locked) w) as (w1&Hrun1&Hin&Hout); [by rewrite Hp|].
  rewrite <-(run_all_ext (λ c, callback c.1 c.2)) in Hrun1 by (intros; apply Hreq).
  rewrite (sdn_bind _ _ _ _ _ Hrun1) in Hrun. clear Hrun1.
  assert (∀ r, r ∉ client_of <$> locked → w1 r = w0 r) as Hothers.
  { intros r Hr. rewrite Hout by (by rewrite Hp). by apply Ho. }
  destruct (existsb is_failed _) eqn:Hfail.
  - destruct (rollback_run w0 locked w w1 (shuffle env locked) Hh Hp) as (rs&w2&Hrun2&Hharm&Hobs); [|done|].
    { intros c Hc. rewrite (Hin c) by (by rewrite Hp). cbv beta. destruct (Hl c Hc) as (_&Hk&Hr&_).
      rewrite <-Hr. by apply Hchg. }
    rewrite (sdn_bind _ _ _ _ _ Hrun2) in Hrun. injection Hrun as <- <-. done.
  - injection Hrun as <- <-. split; [done|]. split; [done|]. intros c Hc.
    destruct (change c.1 c.2 (w (client_of c))) as [a s] eqn:Hch.
    assert (a = Ok tt) as ->.
    { destruct a as [[]|e]; [done|]. apply not_true_iff_false in Hfail. destruct Hfail. apply existsb_exists.
      exists (Err e). split; [|done]. apply in_map_iff. exists c. cbv beta. rewrite Hch. split; [done|].
      apply list_elem_of_In. by rewrite Hp. }
    f_equal. rewrite (Hin c) by (by rewrite Hp). cbv beta. by rewrite Hch.
Qed.

(** ** Applying it *)

(** What [apply_and_release] leaves of a remote that was changed to [s]. *)
Definition applied (token : string) (s s' : sdn) : Prop :=
  lock_of s' = None ∧ running s' = pending s ∧ pending s' = pending s ∨
  (∃ e, (api_apply (Some token) (Some true) s).1 = Err e) ∧ s' = s.

(** A task whose status was asked for until it had finished successfully. *)
Definition reloaded (client node : string) (upid : RemoteUpid) : Prop :=
  ∃ n status, se_task_status env client node upid n = Ok status ∧ ts_running status = false ∧ ts_success status = Some true ∧
    ∀ i, (i < n)%nat → ∃ status', se_task_status env client node upid i = Ok status' ∧ ts_running status' = true.

Lemma poll_task_ok fuel node upid client : ∀ n u,
  poll_task env fuel n node upid client = Some (Ok u) →
  (∀ i, (i < n)%nat → ∃ status', se_task_status env client node upid i = Ok status' ∧ ts_running status' = true) →
  reloaded client node upid.
Proof.
  induction fuel as [|fuel IH]; intros n u; [done|]. cbn [poll_task].
  destruct (se_task_status env client node upid n) as [status|e] eqn:Hst; [|done].
  destruct (ts_running status) eqn:Hrun; cbn [negb].
  - intros Hpoll Hbefore. apply (IH _ _ Hpoll). intros i Hi.
    destruct (decide (i = n)) as [->|Hne]; [by exists status|apply Hbefore; lia].
  - case_bool_decide as Hok; [|done]. intros _ Hbefore. by exists n, status.
Qed.

Lemma wait_all_ok fuel tasks : wait_all env fuel tasks = Some (Ok tt) →
  ∀ node upid client, (node, upid, client) ∈ tasks → reloaded client node upid.
Proof.
  unfold wait_all. intros Hw node upid client Hin.
  destruct (mapM _ tasks) as [results|] eqn:Hm; [|done]. simpl in Hw. destruct (existsb is_failed results) eqn:Hf; [done|].
  apply mapM_Some in Hm. apply list_elem_of_lookup in Hin as [i Hi].
  destruct (Forall2_lookup_l _ _ _ _ _ Hm Hi) as (r&Hr&Hpoll). destruct r as [u|e].
  - apply (poll_task_ok _ _ _ _ _ _ Hpoll). lia.
  - apply not_true_iff_false in Hf. destruct Hf. apply existsb_exists. exists (Err e). split; [|done].
    apply list_elem_of_In. by eapply list_elem_of_lookup_2.
Qed.

Lemma apply_all_run fuel locked w res w' :
  NoDup (client_of <$> locked) → (∀ c, c ∈ locked → lock_of (w (client_of c)) = Some (lk_token c.1)) →
  apply_all env fuel locked w = (res, w') →
  (∀ c, c ∈ locked → applied (lk_token c.1) (w (client_of c)) (w' (client_of c))) ∧
  (∀ r, r ∉ client_of <$> locked → w' r = w r) ∧
  res = wait_all env fuel (omap (M:=list) reload_task
    (map (λ c, ((api_apply (Some (lk_token c.1)) (Some true) (w (client_of c))).1, c)) (shuffle env locked))).
Proof.
  intros Hd Hl. unfold apply_all. cbv zeta. intros Hrun. pose proof (shuffle_perm locked) as Hp.
  destruct (run_all_on client_of (λ c, api_apply (Some (lk_token c.1)) (Some true)) (shuffle env locked) w)
    as (w1&Hrun1&Hin&Hout); [by rewrite Hp|].
  rewrite (sdn_bind _ _ _ _ _ Hrun1) in Hrun. injection Hrun as <- <-. split_and!.
  - intros c Hc. rewrite (Hin c) by (by rewrite Hp). cbv beta.
    destruct (api_apply (Some (lk_token c.1)) (Some true) (w (client_of c))) as [a s'] eqn:Ha.
    destruct (apply_answer _ _ _ _ (Hl c Hc) Ha) as [?|([e ->]&->)]; [by left|]. right. split; [|done]. exists e. by rewrite Ha.
  - intros r Hr. rewrite Hout; [done|]. by rewrite Hp.
  - do 2 f_equal. generalize (shuffle env locked). intros l. induction l as [|c l IH]; [done|]. simpl. by f_equal.
Qed.

(** Every remote was locked when nobody held its lock and nothing was pending,
    accepted the change, and then applied it or refused to; no other remote was
    touched.  If the transaction succeeds, the tasks that reload the configuration did. *)
Record accepted (change : LockedSdnClient → LockedSdnClientContext C → sdn → result SdnError unit * sdn)
    (names : list (string * C)) w (res : option (result error unit)) w' : Prop := {
  ac_distinct : NoDup names.*1;
  ac_changed name ctx : (name, ctx) ∈ names →
    lock_of (w name) = None ∧ pending (w name) = running (w name) ∧
    ∃ t s s1, lock_of s = Some t ∧ running s = running (w name) ∧ pending s = pending (w name) ∧
      change (mkLocked t name) (name, ctx) s = (Ok tt, s1) ∧ applied t s1 (w' name) ∧
      (res = Some (Ok tt) → ∀ upid u, (api_apply (Some t) (Some true) s1).1 = Ok upid → try_from_pair name upid = Ok u →
        reloaded name (default ""%string (pve_node <$> pve_parse upid)) u);
  ac_others r : r ∉ names.*1 → w' r = w r;
}.

Lemma client_names w0 locked w : held w0 locked w → client_of <$> locked = (snd <$> locked).*1.
Proof.
  intros [_ Hl _]. rewrite <-list_fmap_compose. apply list_fmap_ext. intros i c Hc%list_elem_of_lookup_2.
  by destruct (Hl c Hc) as (->&_).
Qed.

Lemma transaction_outcome fuel remote_config (names : list (string * C)) callback change w res w' :
  se_remotes env = Ok remote_config → keys_match remote_config → request_callback callback change →
  transaction env fuel names callback w = (res, w') →
  (∃ e, res = Some (Err e)) ∧ harmless w w' ∧
    (reliable → (∀ x, x ∈ names → configured remote_config x.1) → ∀ r, observed (w' r) = observed (w r)) ∨
  accepted change names w res w'.
Proof.
  intros Hcfg Hkeys Hcb. unfold transaction. intros Hrun.
  destruct (from_remote_names env names false w) as [r1 w1] eqn:Hnames. rewrite (sdn_bind _ _ _ _ _ Hnames) in Hrun.
  pose proof (from_remote_names_run _ _ _ _ _ Hcfg Hkeys Hnames) as Hn. destruct r1 as [locked|e].
  2: { injection Hrun as <- <-. left. destruct Hn as [Hun Hobs]. split_and!; [by eexists| |done].
    intros r. destruct (Hun r) as [-> ->]. auto. }
  destruct Hn as [Hh Hperm]. destruct (for_each env callback locked w1) as [r2 w2] eqn:Heach.
  rewrite (sdn_bind _ _ _ _ _ Heach) in Hrun.
  pose proof (for_each_run _ _ _ _ _ _ _ Hcb Hh Heach) as Hf. destruct r2 as [self|e].
  2: { injection Hrun as <- <-. left. destruct Hf as [Hharm Hobs]. split_and!; [by eexists|done|]. intros Hrl _. by apply Hobs. }
  destruct Hf as (->&Hothers&Hchg). right. pose proof (client_names _ _ _ Hh) as Hcn.
  assert (client_of <$> locked ≡ₚ names.*1) as Hp by (by rewrite Hcn, Hperm).
  destruct Hh as [Hd Hl Ho]. destruct Hcb as [_ Hcb].
  apply apply_all_run in Hrun as (Happ&Hout&Hres); [|done|].
  2: { intros c Hc. destruct (Hl c Hc) as (_&Hk&_). pose proof (Hcb _ c.2 _ Hk) as [Hk' _]. by rewrite (Hchg c Hc) in Hk'. }
  split.
  - by rewrite <-Hp.
  - intros name ctx Hin. rewrite <-Hperm in Hin. apply list_elem_of_fmap in Hin as ([[t r] ctx']&Heq&Hc). cbn in Heq. subst ctx'.
    destruct (Hl _ Hc) as (Hname&Hk&Hr&Hpe&Hfree&Hclean). unfold client_of in *. cbn in *. subst r.
    split_and!; [done|done|]. exists t, (w1 name), (w2 name). split_and!; [done..|by apply (Hchg _ Hc)|by apply (Happ _ Hc)|].
    intros -> upid u Hupid Hu. apply (wait_all_ok _ _ (eq_sym Hres)). apply list_elem_of_omap.
    eexists. split; [apply list_elem_of_fmap_2; rewrite (shuffle_perm locked); exact Hc|].
    unfold client_of. cbn. rewrite Hupid. by rewrite Hu.
  - intros r Hr. rewrite Hout, Hothers; [done|..]; by rewrite Hp.
Qed.

(** ** Waiting *)

(** Some answer, not later than the [fuel]-th, is not that the task still runs. *)
Definition stops (fuel : nat) : Prop :=
  ∀ client node upid, ∃ n, (n < fuel)%nat ∧
    ∀ status, se_task_status env client node upid n = Ok status → ts_running status = false.

Lemma poll_task_returns client node upid k : ∀ n i fuel,
  (k = n + i)%nat → (∀ status, se_task_status env client node upid k = Ok status → ts_running status = false) → (i < fuel)%nat →
  is_Some (poll_task env fuel n node upid client).
Proof.
  intros n i. revert n. induction i as [|i IH]; intros n fuel Hk Hst Hf; (destruct fuel as [|fuel]; [lia|]); cbn [poll_task].
  - replace n with k by lia. destruct (se_task_status env client node upid k) as [status|e]; [|done]. by rewrite Hst.
  - destruct (se_task_status env client node upid n) as [status|e]; [|done]. destruct (ts_running status); [|done]. cbn [negb].
    apply IH; [lia|done|lia].
Qed.

Lemma wait_all_returns fuel tasks : stops fuel → is_Some (wait_all env fuel tasks).
Proof.
  intros Hstop. unfold wait_all. destruct (mapM _ tasks) as [results|] eqn:Hm; [done|]. exfalso. revert Hm.
  apply not_eq_None_Some. apply mapM_is_Some_2. apply Forall_forall. intros [[node upid] client] _.
  destruct (Hstop client node upid) as (n&Hn&Hst). by apply (poll_task_returns _ _ _ n _ n).
Qed.

Lemma transaction_is_Some fuel (names : list (string * C)) callback w : stops fuel →
  is_Some (transaction env fuel names callback w).1.
Proof.
  intros Hstop. unfold transaction. destruct (from_remote_names env names false w) as [[locked|e] w1] eqn:Hn;
    rewrite (sdn_bind _ _ _ _ _ Hn); [|done].
  destruct (for_each env callback locked w1) as [[self|e] w2] eqn:He; rewrite (sdn_bind _ _ _ _ _ He); [|done].
  unfold apply_all. destruct (run_all (λ c : LockedSdnClient * LockedSdnClientContext C, apply_and_release c.1) (shuffle env self) w2)
    as [results w3] eqn:Hr. cbv zeta. rewrite (sdn_bind _ _ _ _ _ Hr). by apply wait_all_returns.
Qed.
End context.

(** ** The callbacks *)

Lemma zone_request zone vrf_vxlan :
  request_callback (zone_callback zone vrf_vxlan)
    (λ c ctx, api_create_zone (mkCreateZone zone vrf_vxlan (Some (czr_controller ctx.2)) (Some (lk_token c)))).
Proof.
  split; [done|]. intros c ctx s Hk.
  destruct (api_create_zone (mkCreateZone zone vrf_vxlan (Some (czr_controller ctx.2)) (Some (lk_token c))) s) as [r s'] eqn:Ha.
  by eapply zone_answer in Ha.
Qed.

Lemma vnet_request vnet tag :
  request_callback (vnet_callback vnet tag)
    (λ c ctx, api_create_vnet (mkCreateVnet tag vnet (cvr_zone ctx.2) (Some (lk_token c)))).
Proof.
  split; [done|]. intros c ctx s Hk.
  destruct (api_create_vnet (mkCreateVnet tag vnet (cvr_zone ctx.2) (Some (lk_token c))) s) as [r s'] eqn:Ha.
  by eapply vnet_answer in Ha.
Qed.
End spec.
