(* ===== verification/SdnTransactions.v ===== *)
(** * Properties of the SDN transactions, with concrete runs

    The workers of [create_zone] and [create_vnet] change the SDN configuration of all
    remotes or of none, as far as the answers of the remotes allow it, and return.
    A small SDN configuration, a list of zones with a lock, instantiates the API of the
    remotes. *)

From stdpp Require Import functions.
From S2P Require Import Prelude FileSystem RemoteUpid RemotesConfig JsonValue ParallelFetcher SdnClient SdnSpec.

Section properties.
Context `{SdnLaws} `{AuthidType} `{SafeIdRegex} `{NativeUpids} (env : sdn_env).
Implicit Types (w : string → sdn).

Definition zone_names (remotes : list CreateZoneRemote) : list (string * CreateZoneRemote) :=
  map (λ remote, (czr_remote remote, remote)) remotes.
Definition zone_change (zone : string) (vrf_vxlan : option Z) (c : LockedSdnClient)
    (ctx : LockedSdnClientContext CreateZoneRemote) (s : sdn) : result SdnError unit * sdn :=
  api_create_zone (mkCreateZone zone vrf_vxlan (Some (czr_controller ctx.2)) (Some (lk_token c))) s.
Definition vnet_names (remotes : list CreateVnetRemote) : list (string * CreateVnetRemote) :=
  map (λ remote, (cvr_remote remote, remote)) remotes.
Definition vnet_change (vnet : string) (tag : option Z) (c : LockedSdnClient)
    (ctx : LockedSdnClientContext CreateVnetRemote) (s : sdn) : result SdnError unit * sdn :=
  api_create_vnet (mkCreateVnet tag vnet (cvr_zone ctx.2) (Some (lk_token c))) s.

(** C15: Creating a zone on several remotes is all or nothing.  Either the worker
    fails, no remote runs another configuration than before, and where a change waits
    to be applied the lock is still held; if locks can be given back and all remotes
    are configured, then every remote has the lock, the running and the pending
    configuration it had.  Or no remote was named twice, every one of them was locked
    by the worker when nobody held its lock and nothing was pending, accepted the zone
    with the token of this lock, and then applied it and gave up the lock, or refused to
    apply it; no other remote was touched; and if the worker succeeds, every task that
    reloads a configuration finished successfully. *)
Theorem create_zone_all_or_nothing fuel remote_config zone vrf_vxlan (remotes : list CreateZoneRemote) w res w' :
  se_remotes env = Ok remote_config → keys_match remote_config →
  create_zone_worker env fuel zone vrf_vxlan remotes w = (res, w') →
  (∃ e, res = Some (Err e)) ∧ harmless w w' ∧
    (reliable → (∀ x, x ∈ remotes → configured remote_config (czr_remote x)) → ∀ r, observed (w' r) = observed (w r)) ∨
  accepted env (zone_change zone vrf_vxlan) (zone_names remotes) w res w'.
Proof.
  intros Hcfg Hkeys Hrun.
  destruct (transaction_outcome _ _ _ _ _ _ _ _ _ Hcfg Hkeys (zone_request zone vrf_vxlan) Hrun) as [(He&Hh&Ho)|Ha]; [left|by right].
  split_and!; [done|done|]. intros Hrl Hconf. apply Ho; [done|]. intros x (r&->&Hr)%list_elem_of_fmap. by apply Hconf.
Qed.

(** Creating a VNet on several remotes is all or nothing in the same way. *)
Theorem create_vnet_all_or_nothing fuel remote_config vnet tag (remotes : list CreateVnetRemote) w res w' :
  se_remotes env = Ok remote_config → keys_match remote_config →
  create_vnet_worker env fuel vnet tag remotes w = (res, w') →
  (∃ e, res = Some (Err e)) ∧ harmless w w' ∧
    (reliable → (∀ x, x ∈ remotes → configured remote_config (cvr_remote x)) → ∀ r, observed (w' r) = observed (w r)) ∨
  accepted env (vnet_change vnet tag) (vnet_names remotes) w res w'.
Proof.
  intros Hcfg Hkeys Hrun.
  destruct (transaction_outcome _ _ _ _ _ _ _ _ _ Hcfg Hkeys (vnet_request vnet tag) Hrun) as [(He&Hh&Ho)|Ha]; [left|by right].
  split_and!; [done|done|]. intros Hrl Hconf. apply Ho; [done|]. intros x (r&->&Hr)%list_elem_of_fmap. by apply Hconf.
Qed.

(** Both workers return: if every task on a remote has stopped, or cannot be asked
    for, by the [fuel]-th question for its status, then the worker has a result, for
    whatever the remotes answer. *)
Theorem sdn_workers_return fuel zone vrf_vxlan zones vnet tag vnets w :
  stops env fuel →
  is_Some (create_zone_worker env fuel zone vrf_vxlan zones w).1 ∧
  is_Some (create_vnet_worker env fuel vnet tag vnets w).1.
Proof. intros Hstop. split; by apply transaction_is_Some. Qed.
End properties.

(** ** Concrete runs *)

Module SdnDemo.
#[local] Existing Instance RemotesDemo.auth.
#[local] Existing Instance safe_id_regex_impl.
#[local] Existing Instance demo_upids.

(** The lock, the zones the remote runs with, and those it is to run with; whether it
    accepts new zones, and whether it applies a new configuration. *)
Record demo_sdn : Type := mkDemo {
  d_lock : option string;
  d_running : list string;
  d_pending : list string;
  d_accepts : bool;
  d_applies : bool;
}.

Definition refused : SdnError := SdnApiError 500 "refused".
Definition demo_lock (allow_pending : option bool) (s : demo_sdn) : result SdnError string * demo_sdn :=
  if bool_decide (d_lock s = None ∧ (allow_pending = Some true ∨ d_pending s = d_running s))
  then (Ok "token"%string, mkDemo (Some "token"%string) (d_running s) (d_pending s) (d_accepts s) (d_applies s)) else (Err refused, s).
Definition demo_add (token : option string) (name : string) (s : demo_sdn) : result SdnError unit * demo_sdn :=
  if bool_decide (token = d_lock s ∧ d_accepts s = true ∧ name ∉ d_pending s)
  then (Ok tt, mkDemo (d_lock s) (d_running s) (name :: d_pending s) (d_accepts s) (d_applies s)) else (Err refused, s).
Definition demo_apply (token : option string) (s : demo_sdn) : result SdnError string * demo_sdn :=
  if bool_decide (token = d_lock s ∧ d_applies s = true)
  then (Ok "UPID:node:0"%string, mkDemo None (d_pending s) (d_pending s) (d_accepts s) (d_applies s)) else (Err refused, s).
Definition demo_release (token : option string) (s : demo_sdn) : result SdnError unit * demo_sdn :=
  if bool_decide (token = d_lock s)
  then (Ok tt, mkDemo None (d_running s) (d_pending s) (d_accepts s) (d_applies s)) else (Err refused, s).
Definition demo_rollback (token : option string) (s : demo_sdn) : result SdnError unit * demo_sdn :=
  if bool_decide (token = d_lock s)
  then (Ok tt, mkDemo None (d_running s) (d_running s) (d_accepts s) (d_applies s)) else (Err refused, s).

#[local] Instance demo_api : SdnApi := {|
  sdn := demo_sdn;
  api_acquire_lock := demo_lock;
  api_create_vnet p := demo_add (cv_lock_token p) (cv_vnet p);
  api_create_zone p := demo_add (cz_lock_token p) (cz_zone p);
  api_apply token _ := demo_apply token;
  api_release_lock _ := demo_release;
  api_rollback token _ := demo_rollback token;
|}.

#[local] Instance demo_laws : SdnLaws.
Proof.
  refine {| lock_of := d_lock; running := d_running; pending := d_pending |}.
  - intros [lk ru pe ac ap] r s'. cbn. unfold demo_lock. case_bool_decide as Hb; intros [= <- <-]; [|done].
    destruct Hb as [Hl [|Hp]]; [done|]. by cbn in *.
  - intros p t [lk ru pe ac ap] r s' Ht Hl. cbn. unfold demo_add. case_bool_decide; intros [= <- <-]; by cbn in *.
  - intros p t [lk ru pe ac ap] r s' Ht Hl. cbn. unfold demo_add. case_bool_decide; intros [= <- <-]; by cbn in *.
  - intros t [lk ru pe ac ap] r s' Hl. cbn in *. unfold demo_rollback. rewrite bool_decide_true by done. intros [= <- <-]. by left.
  - intros t [lk ru pe ac ap] r s' Hl. cbn in *. unfold demo_release. rewrite bool_decide_true by done. intros [= <- <-]. by left.
  - intros t [lk ru pe ac ap] r s' Hl. cbn in *. unfold demo_apply. case_bool_decide; intros [= <- <-]; [by left|].
    right. split; [by eexists|done].
Defined.

Lemma demo_reliable : reliable.
Proof.
  split.
  - intros s e s'. cbn. unfold demo_lock. case_bool_decide; [done|]. by intros [= _ <-].
  - intros t s Hl. cbn in *. unfold demo_release. by rewrite bool_decide_true.
  - intros t s Hl (e&He&_). cbn in *. unfold demo_rollback in He. by rewrite bool_decide_true in He.
Qed.

Definition pve (name : string) : string * Remote := (name, mkFullRemote RemoteType.Pve name [] "root@pam!pdm"%string "" None).
Definition demo_remotes : list (string * Remote) := [pve "a"; pve "b"; pve "c"].

Lemma demo_keys : keys_match demo_remotes.
Proof.
  intros name remote. unfold get_remote_of. destruct (lookup_remote demo_remotes name) as [r|] eqn:Hr; [|done].
  unfold lookup_remote in Hr. apply fmap_Some in Hr as ([k r']&Hf&->).
  apply find_some in Hf as [Hin Heq]. apply String.eqb_eq in Heq. subst k.
  assert (Forall (λ x, r_id x.2 = x.1) demo_remotes) as Hids by (by repeat constructor).
  apply list_elem_of_In in Hin. rewrite Forall_forall in Hids. specialize (Hids _ Hin). cbn in Hids.
  cbn. case_bool_decide; cbn; [|done]. by intros [= <-].
Qed.

(** The tasks run for a while and then succeed; the requests of a phase are answered
    in the opposite order. *)
Definition demo_env : sdn_env := mkSdnEnv (Ok demo_remotes) (λ _, Ok tt) [2%nat; 1%nat]
  (λ _ _ _ n, Ok (if Nat.ltb n 2 then mkTaskStatus true None else mkTaskStatus false (Some true))).

Definition clean (accepts applies : bool) : demo_sdn := mkDemo None ["old"%string] ["old"%string] accepts applies.
Definition world (accepts applies : bool) : string → sdn := λ r, if String.eqb r "c" then clean accepts applies else clean true true.
Definition zone_on (names : list string) : list CreateZoneRemote := map (λ r, mkZoneRemote r "evpn") names.
Definition run (names : list string) (w : string → sdn) := create_zone_worker demo_env 5 "z" (Some 100) (zone_on names) w.

Lemma demo_stops : stops demo_env 5.
Proof. intros client node upid. exists 2%nat. split; [lia|]. by intros status [= <-]. Qed.

(** All remotes accept the zone. *)
Example all_apply :
  (run ["a"; "b"; "c"]%string (world true true)).1 = Some (Ok tt) ∧
  map (run ["a"; "b"; "c"]%string (world true true)).2 ["a"; "b"; "c"]%string =
    map (λ _, mkDemo None ["z"; "old"]%string ["z"; "old"]%string true true) ["a"; "b"; "c"]%string.
Proof. split; vm_compute; reflexivity. Qed.

(** The last one does not. *)
Example all_rolled_back :
  (run ["a"; "b"; "c"]%string (world false true)).1 = Some (Err (EMsg "running the transaction failed on at least one remote!")) ∧
  map (run ["a"; "b"; "c"]%string (world false true)).2 ["a"; "b"; "c"]%string = map (world false true) ["a"; "b"; "c"]%string.
Proof. split; vm_compute; reflexivity. Qed.

(** A remote that is not configured ends the worker at once: the lock it already has
    is never released. *)
Example unknown_remote_keeps_locks :
  (∃ e, (run ["a"; "nowhere"]%string (world true true)).1 = Some (Err e)) ∧
  d_lock ((run ["a"; "nowhere"]%string (world true true)).2 "a"%string) = Some "token"%string.
Proof. split; [eexists|]; vm_compute; reflexivity. Qed.

(** A remote that refuses to apply the configuration does not make the worker fail;
    its lock stays. *)
Example failed_apply_is_reported_as_success :
  (run ["a"; "c"]%string (world true false)).1 = Some (Ok tt) ∧
  (run ["a"; "c"]%string (world true false)).2 "c"%string = mkDemo (Some "token"%string) ["old"%string] ["z"; "old"]%string true false.
Proof. split; vm_compute; reflexivity. Qed.

Lemma demo_add_ok token name s s1 : demo_add token name s = (Ok tt, s1) → d_pending s1 = name :: d_pending s.
Proof. unfold demo_add. case_bool_decide; [|done]. by intros [= <-]. Qed.

(** In the second run the zone was not accepted everywhere. *)
Lemma not_accepted res :
  ¬ accepted demo_env (zone_change "z" (Some 100)) (zone_names (zone_on ["a"; "b"; "c"]%string)) (world false true) res
    (run ["a"; "b"; "c"]%string (world false true)).2.
Proof.
  intros Hacc. destruct (ac_changed _ _ _ _ _ _ Hacc "c"%string (mkZoneRemote "c" "evpn")) as (_&_&t&s&s1&_&_&_&Hadd&Happ&_).
  { right. right. left. }
  apply demo_add_ok in Hadd. pose proof (f_equal (nth 2) (proj2 all_rolled_back)) as Hc.
  assert ((run ["a"; "b"; "c"]%string (world false true)).2 "c"%string = clean false true) as Hw by (apply (f_equal (λ f, f (clean true true)) Hc)).
  rewrite Hw in Happ. destruct Happ as [(_&Hr&_)|[_ Heq]].
  - change (["old"%string] = d_pending s1) in Hr. rewrite Hadd in Hr. discriminate Hr.
  - rewrite <-Heq in Hadd. discriminate Hadd.
Qed.

Lemma create_zone_all_or_nothing_witness :
  (∀ r, observed ((run ["a"; "b"; "c"]%string (world false true)).2 r) = observed (world false true r)) ∧
  accepted demo_env (zone_change "z" (Some 100)) (zone_names (zone_on ["a"; "b"; "c"]%string)) (world true true) (Some (Ok tt))
    (run ["a"; "b"; "c"]%string (world true true)).2.
Proof.
  split.
  - destruct (create_zone_all_or_nothing demo_env 5 demo_remotes "z" (Some 100) (zone_on ["a"; "b"; "c"]%string) (world false true)
      _ _ eq_refl demo_keys (surjective_pairing _)) as [(_&_&Hobs)|Hacc].
    + apply Hobs; [exact demo_reliable|]. intros x Hx. unfold zone_on in Hx. cbn in Hx.
      repeat (apply elem_of_cons in Hx as [->|Hx]; [eexists; vm_compute; reflexivity|]). by apply elem_of_nil in Hx.
    + exfalso. exact (not_accepted _ Hacc).
  - destruct (create_zone_all_or_nothing demo_env 5 demo_remotes "z" (Some 100) (zone_on ["a"; "b"; "c"]%string) (world true true)
      _ _ eq_refl demo_keys (surjective_pairing _)) as [([e He]&_)|Hacc].
    + exfalso. assert ((run ["a"; "b"; "c"]%string (world true true)).1 = Some (Err e)) as Hr by exact He.
      rewrite (proj1 all_apply) in Hr. discriminate Hr.
    + assert ((create_zone_worker demo_env 5 "z" (Some 100) (zone_on ["a"; "b"; "c"]%string) (world true true)).1 = Some (Ok tt)) as Hr
        by (exact (proj1 all_apply)).
      rewrite Hr in Hacc. exact Hacc.
Defined.

(** The same for a VNet in a zone that the remotes have. *)
Definition run_vnet (names : list string) (w : string → sdn) :=
  create_vnet_worker demo_env 5 "v" (Some 7) (map (λ r, mkVnetRemote r "old") names) w.

Example vnets_apply : (run_vnet ["a"; "b"]%string (world true true)).1 = Some (Ok tt).
Proof. vm_compute. reflexivity. Qed.

Lemma create_vnet_all_or_nothing_witness :
  accepted demo_env (vnet_change "v" (Some 7)) (vnet_names (map (λ r, mkVnetRemote r "old") ["a"; "b"]%string)) (world true true)
    (Some (Ok tt)) (run_vnet ["a"; "b"]%string (world true true)).2.
Proof.
  destruct (create_vnet_all_or_nothing demo_env 5 demo_remotes "v" (Some 7) (map (λ r, mkVnetRemote r "old") ["a"; "b"]%string)
    (world true true) _ _ eq_refl demo_keys (surjective_pairing _)) as [([e He]&_)|Hacc].
  - exfalso. assert ((run_vnet ["a"; "b"]%string (world true true)).1 = Some (Err e)) as Hr by exact He.
    rewrite vnets_apply in Hr. discriminate Hr.
  - assert ((create_vnet_worker demo_env 5 "v" (Some 7) (map (λ r, mkVnetRemote r "old") ["a"; "b"]%string) (world true true)).1 = Some (Ok tt)) as Hr
      by (exact vnets_apply).
    rewrite Hr in Hacc. exact Hacc.
Defined.

Lemma sdn_workers_return_witness :
  is_Some (create_zone_worker demo_env 5 "z" None (zone_on ["a"; "c"]%string) (world true false)).1.
Proof. exact (proj1 (sdn_workers_return demo_env 5 "z" None (zone_on ["a"; "c"]%string) "v" None [] (world true false) demo_stops)). Defined.
End SdnDemo.
