(* ===== verification/SdnList.v ===== *)
(** * Listing the SDN objects of several remotes

    Model of [RemoteIterator] in [server/src/api/remotes/mod.rs] and of [list_zones],
    [list_vnets] and [list_controllers] in [server/src/api/sdn/].  The remotes are asked
    concurrently ([ParallelFetcher]); what they answer is not part of the repository. *)

From S2P Require Import Prelude FileSystem RemoteUpid ResourceList ParallelFetcher.

(** ** Choosing remotes *)

Module RemoteIterator.
Definition t : Type := list (string * Remote).
Implicit Types (self : t).

Definition new (config : result error (list (string * Remote))) : result error t := config.
Definition remote_type (ty : RemoteType.t) self : t := List.filter (λ '(_, r), bool_decide (rm_ty r = ty)) self.
Definition any_privs (u : user) (privs : Z) self : t :=
  List.filter (λ '(name, _), negb (Z.land (lookup_privs u ["resource"%string; name]) privs =? 0)) self.
Definition name_filter (names : list string) self : t := List.filter (λ '(_, r), bool_decide (rm_id r ∈ names)) self.
Definition into_remotes self : list Remote := self.*2.
Definition into_names self : list string := self.*1.
End RemoteIterator.

(** ** Listing *)

Section list.
Context {I : Type}.

(** The body of the three handlers; [list_on] is the request to one remote, [None] if
    its task panics. *)
Definition list_objects (list_on : Remote → option (result error (list I))) (schedule : list nat) (auth : result error user)
    (config : result error (list (string * Remote))) (remotes : option (list string)) : result error (list (string * I)) :=
  user_info ← auth;
  any ← any_privs_below user_info ["resource"%string] PRIV_RESOURCE_AUDIT;
  _ ← bail_if (negb any) (EMsg "user has no access to resources");
  iter ← RemoteIterator.new config;
  let iter := RemoteIterator.any_privs user_info PRIV_RESOURCE_AUDIT (RemoteIterator.remote_type RemoteType.Pve iter) in
  let iter := match remotes with Some filter => RemoteIterator.name_filter filter iter | None => iter end in
  let results := do_for_all_remotes (λ r _, list_on r) schedule (RemoteIterator.into_remotes iter) in
  Ok (results ≫= λ remote_response,
        match nresp_data (resp_response remote_response) with
        | Ok items => map (λ item, (resp_remote remote_response, item)) items
        | Err _ => []
        end).
End list.

(** The objects of the API, and the requests of the client. *)
Class SdnListing := {
  zone : Type;
  vnet : Type;
  controller : Type;
  ListZonesType : Type;
  ListControllersType : Type;
  client_list_zones : Remote → option bool → option bool → option ListZonesType → option (result error (list zone));
  client_list_vnets : Remote → option bool → option bool → option (result error (list vnet));
  client_list_controllers : Remote → option bool → option bool → option ListControllersType → option (result error (list controller));
}.

Section handlers.
Context `{SdnListing} (schedule : list nat) (pending running : option bool) (remotes : option (list string)).
Context (auth : result error user) (config : result error (list (string * Remote))).

Definition list_zones (ty : option ListZonesType) : result error (list (string * zone)) :=
  list_objects (λ r, client_list_zones r pending running ty) schedule auth config remotes.
Definition list_vnets : result error (list (string * vnet)) :=
  list_objects (λ r, client_list_vnets r pending running) schedule auth config remotes.
Definition list_controllers (ty : option ListControllersType) : result error (list (string * controller)) :=
  list_objects (λ r, client_list_controllers r pending running ty) schedule auth config remotes.
End handlers.

(** ** Properties *)

(** The remotes whose objects are listed. *)
Definition listed_remote (u : user) (remotes : option (list string)) (x : string * Remote) : bool :=
  bool_decide (rm_ty x.2 = RemoteType.Pve) &&
  negb (Z.land (lookup_privs u ["resource"%string; x.1]) PRIV_RESOURCE_AUDIT =? 0) &&
  match remotes with Some filter => bool_decide (rm_id x.2 ∈ filter) | None => true end.

Lemma filter_filter {A} (f g : A → bool) l : List.filter f (List.filter g l) = List.filter (λ x, g x && f x) l.
Proof. induction l as [|x l IH]; simpl; [done|]. destruct (g x); simpl; [destruct (f x)|]; by rewrite IH. Qed.

Lemma iterator_filters u remotes (l : list (string * Remote)) :
  (match remotes with
   | Some filter => RemoteIterator.name_filter filter (RemoteIterator.any_privs u PRIV_RESOURCE_AUDIT (RemoteIterator.remote_type RemoteType.Pve l))
   | None => RemoteIterator.any_privs u PRIV_RESOURCE_AUDIT (RemoteIterator.remote_type RemoteType.Pve l)
   end) = List.filter (listed_remote u remotes) l.
Proof.
  unfold RemoteIterator.name_filter, RemoteIterator.any_privs, RemoteIterator.remote_type.
  destruct remotes as [filter|]; rewrite !filter_filter; apply List.filter_ext; intros [k r]; unfold listed_remote; cbn;
    rewrite ?andb_true_r, ?andb_assoc; done.
Qed.

Lemma NoDup_keys_inj {A B} (f : A → B) l x y : NoDup (f <$> l) → x ∈ l → y ∈ l → f x = f y → x = y.
Proof.
  induction l as [|z l IH]; [by intros _ ?%elem_of_nil|]. rewrite fmap_cons. intros [Hz Hnd]%NoDup_cons.
  intros [->|Hx]%elem_of_cons [->|Hy]%elem_of_cons Heq; [done|..|by apply IH].
  - destruct Hz. rewrite Heq. by apply list_elem_of_fmap_2.
  - destruct Hz. rewrite <-Heq. by apply list_elem_of_fmap_2.
Qed.

Lemma filter_sublist_of {A} (f : A → bool) (l : list A) : List.filter f l `sublist_of` l.
Proof. induction l as [|x l IH]; simpl; [done|]. destruct (f x); [by apply sublist_skip|by apply sublist_cons]. Qed.

Lemma responses_NoDup {T} (l : list Remote) (func : Remote → string → option (result error T)) :
  NoDup (rm_id <$> l) →
  NoDup (resp_remote <$> omap (M:=list) (λ r, mkResponse (rm_id r) (rm_ty r) <$> fetch_node func r "localhost") l).
Proof.
  intros Hnd. eapply sublist_NoDup; [exact Hnd|]. clear Hnd. induction l as [|r l IH]; [done|]. cbn [omap list_omap].
  unfold fetch_node. destruct (func r "localhost"%string); cbn [fmap option_fmap option_map list_fmap]; [by apply sublist_skip|by apply sublist_cons].
Qed.

Section listing.
Context {I : Type} (list_on : Remote → option (result error (list I))).

(** What a remote contributes. *)
Definition objects_of (r : Remote) : list (string * I) :=
  match list_on r with Some (Ok items) => map (λ item, (rm_id r, item)) items | _ => [] end.

Lemma responses_objects (rs : list Remote) :
  (omap (M:=list) (λ r, mkResponse (rm_id r) (rm_ty r) <$> fetch_node (λ r _, list_on r) r "localhost") rs
   ≫= λ resp, match nresp_data (resp_response resp) with
              | Ok items => map (λ item, (resp_remote resp, item)) items
              | Err _ => []
              end) = rs ≫= objects_of.
Proof.
  induction rs as [|r rs IH]; [done|]. cbn [omap list_omap]. unfold fetch_node at 1. rewrite bind_cons. unfold objects_of at 1.
  destruct (list_on r) as [[items|e]|]; cbn [fmap option_fmap option_map]; [rewrite bind_cons; by f_equal|rewrite bind_cons; exact IH|exact IH].
Qed.

Lemma sorted_responses_unique {R} (l1 l2 : list (RemoteResponse R)) :
  NoDup (resp_remote <$> l1) → l1 ≡ₚ l2 → fetcher_response l1 = fetcher_response l2.
Proof.
  intros Hnd Hp. unfold fetcher_response.
  apply (StronglySorted_unique_strong (cle compare_remote)); [|apply sort_by_sorted, _|apply sort_by_sorted, _|by rewrite !sort_by_perm].
  intros x y Hx Hy Hxy Hyx. rewrite elem_of_sort_by in Hx, Hy. rewrite <-Hp in Hy. unfold cle, compare_remote, cmp_on in Hxy, Hyx.
  assert (resp_remote x = resp_remote y) as Heq.
  { rewrite String.compare_antisym in Hyx. destruct (String.compare (resp_remote x) (resp_remote y)) eqn:Hc; try done.
    by apply string_compare_Eq. }
  by apply (NoDup_keys_inj resp_remote l1).
Qed.

(** The SDN objects that are listed are those of the PVE remotes on which the caller
    may audit resources and which are asked for, with the id of their remote; remotes
    that fail contribute nothing and do not make the request fail.  The result does not
    depend on the order in which the remotes answer. *)
Theorem list_objects_spec schedule (u : user) config remotes l :
  list_objects list_on schedule (Ok u) config remotes = Ok l →
  ∃ cfg, config = Ok cfg ∧ any_privs_below u ["resource"%string] PRIV_RESOURCE_AUDIT = Ok true ∧
  l ≡ₚ (List.filter (listed_remote u remotes) cfg).*2 ≫= objects_of ∧
  (NoDup (rm_id <$> cfg.*2) → ∀ schedule', list_objects list_on schedule' (Ok u) config remotes = Ok l).
Proof.
  unfold list_objects. cbn [mbind result_bind]. intros Hrun.
  destruct (any_privs_below u ["resource"%string] PRIV_RESOURCE_AUDIT) as [[]|] eqn:Hany; try done. cbn [mbind result_bind bail_if negb] in *.
  unfold RemoteIterator.new in *. destruct config as [cfg|e]; [|done]. cbn [mbind result_bind] in *. exists cfg. cbv zeta in *.
  split; [done|]. split; [done|]. rewrite iterator_filters in *. unfold RemoteIterator.into_remotes in *.
  injection Hrun as <-. split.
  - rewrite (do_for_all_remotes_perm (λ r _, list_on r) schedule). by rewrite responses_objects.
  - intros Hnd schedule'. do 2 f_equal. symmetry. unfold do_for_all_remotes.
    apply sorted_responses_unique.
    + apply (responses_NoDup _ (λ r _, list_on r)). rewrite join_order_perm. eapply sublist_NoDup; [exact Hnd|].
      apply fmap_sublist, fmap_sublist, filter_sublist_of.
    + by rewrite !join_order_perm.
Qed.
End listing.

(** ** A concrete listing *)

Module SdnListDemo.
Abbreviation guest := ListingDemo.guest.
Definition remotes : list (string * Remote) :=
  [("open", mkRemote "open" RemoteType.Pve); ("secret", mkRemote "secret" RemoteType.Pve)]%string.
Definition zones_on (r : Remote) : option (result error (list string)) := Some (Ok ["z1"; "z2"]%string).

Lemma list_objects_spec_witness :
  list_objects zones_on [1%nat] (Ok guest) (Ok remotes) None = Ok [("open", "z1"); ("open", "z2")]%string ∧
  [("open", "z1"); ("open", "z2")]%string ≡ₚ (List.filter (listed_remote guest None) remotes).*2 ≫= objects_of zones_on.
Proof.
  assert (list_objects zones_on [1%nat] (Ok guest) (Ok remotes) None = Ok [("open", "z1"); ("open", "z2")]%string) as Hl
    by (vm_compute; reflexivity).
  split; [exact Hl|]. destruct (list_objects_spec zones_on _ _ _ _ _ Hl) as (cfg&[= <-]&_&Hp&_). exact Hp.
Defined.
End SdnListDemo.
