(* ===== verification/MetricRrd.v ===== *)
(** * Storing metrics in the round robin database

    Model of [server/src/metric_collection/rrd_task.rs] and of [update_value] in
    [server/src/metric_collection/rrd_cache.rs].  The task takes requests one after
    the other; a request stores the datapoints of one remote, each in a series of its
    own, and the answer is the time up to which the metrics of the remote are known.

    The database itself ([proxmox_rrd]) is not part of the repository: class [Rrd] has
    its state and its update, which may refuse a value.  [ClusterMetricsData] and
    [MetricDataPoint] have the same fields and are one type here. *)

From S2P Require Import Prelude FileSystem.
From S2P Require Resource.

Inductive DataSourceType : Type := Gauge | Counter | Derive.
Inductive MetricDataType : Type := MetricGauge | MetricCounter | MetricDerive | UnknownEnumValue (value : string).

(** Floating point numbers as in [Resource]. *)
Abbreviation f64 := Resource.f64.
(** [z as f64] *)
Definition f64_of_i64 (z : Z) : f64 := SpecFloat.binary_normalize 53 1024 z 0 false.

Class Rrd := {
  rrd : Type;
  (** name, time, value, kind of the series *)
  update_value_ignore_old : string → f64 → f64 → DataSourceType → rrd → result error unit * rrd;
}.

Definition FUTURE_DATAPOINT_TOLERANCE : Z := 60.

Section rrd_task.
Context `{Rrd}.

Record MetricDataPoint : Type := mkPoint {
  dp_id : string;
  dp_metric : string;
  dp_timestamp : Z;
  dp_type : MetricDataType;
  dp_value : f64;
}.

(** An error is logged. *)
Definition update_value (name : string) (value : f64) (timestamp : Z) (datasource_type : DataSourceType) (cache : rrd) : rrd :=
  (update_value_ignore_old name (f64_of_i64 timestamp) value datasource_type cache).2.

(** The loop of [store_datapoints]; the number of the points that are left out is
    only logged. *)
Fixpoint store_datapoints_loop {T} (remote : string) (future_cutoff : Z) (timestamp_of : T → Z)
    (store : string → T → rrd → rrd) (data : list T) (most_recent_timestamp : Z) (cache : rrd) : Z * rrd :=
  match data with
  | [] => (most_recent_timestamp, cache)
  | data_point :: data =>
      let timestamp := timestamp_of data_point in
      if timestamp >? future_cutoff
      then store_datapoints_loop remote future_cutoff timestamp_of store data most_recent_timestamp cache
      else store_datapoints_loop remote future_cutoff timestamp_of store data
             (Z.max most_recent_timestamp timestamp) (store remote data_point cache)
  end.

Definition store_datapoints {T} (remote : string) (data : list T) (request_at : Z) (timestamp_of : T → Z)
    (store : string → T → rrd → rrd) (cache : rrd) : Z * rrd :=
  store_datapoints_loop remote (request_at + FUTURE_DATAPOINT_TOLERANCE) timestamp_of store data 0 cache.

Definition data_source_type (ty : MetricDataType) : option DataSourceType :=
  match ty with
  | MetricGauge => Some Gauge
  | MetricCounter => Some Counter
  | MetricDerive => Some Derive
  | UnknownEnumValue _ => None
  end.

Definition metric_name (product remote_name : string) (data_point : MetricDataPoint) : string :=
  product +:+ "/" +:+ remote_name +:+ "/" +:+ dp_id data_point +:+ "/" +:+ dp_metric data_point.
Definition store_metric (product remote_name : string) (data_point : MetricDataPoint) (cache : rrd) : rrd :=
  match data_source_type (dp_type data_point) with
  | None => cache
  | Some ty => update_value (metric_name product remote_name data_point) (dp_value data_point) (dp_timestamp data_point) ty cache
  end.
Definition store_metric_pve : string → MetricDataPoint → rrd → rrd := store_metric "pve".
Definition store_metric_pbs : string → MetricDataPoint → rrd → rrd := store_metric "pbs".

Definition response_time_name (remote_name : string) : string :=
  "remotes/" +:+ remote_name +:+ "/metric-collection-response-time".
Definition store_response_time (remote_name : string) (response_time : f64) (timestamp : Z) (cache : rrd) : rrd :=
  update_value (response_time_name remote_name) response_time timestamp Gauge cache.
Definition store_stats (total_time : f64) (timestamp : Z) (cache : rrd) : rrd :=
  update_value "nodes/localhost/metric-collection-total-time" total_time timestamp Gauge cache.

Inductive RrdStoreRequest : Type :=
| StorePve (remote : string) (metrics : list MetricDataPoint) (response_time : f64) (request_at : Z)
| StorePbs (remote : string) (metrics : list MetricDataPoint) (response_time : f64) (request_at : Z)
| StoreCollectionStats (timestamp : Z) (total_time : f64).

(** One request of [store_in_rrd_task], with the answer that is sent back. *)
Definition store_in_rrd (msg : RrdStoreRequest) (cache : rrd) : option Z * rrd :=
  match msg with
  | StorePve remote metrics response_time request_at =>
      let '(most_recent_timestamp, cache) := store_datapoints remote metrics request_at dp_timestamp store_metric_pve cache in
      (Some most_recent_timestamp, store_response_time remote response_time request_at cache)
  | StorePbs remote metrics response_time request_at =>
      let '(most_recent_timestamp, cache) := store_datapoints remote metrics request_at dp_timestamp store_metric_pbs cache in
      (Some most_recent_timestamp, store_response_time remote response_time request_at cache)
  | StoreCollectionStats timestamp total_time => (None, store_stats total_time timestamp cache)
  end.

(** ** What is stored *)

(** The datapoints that are stored, and the answer. *)
Definition kept {T} (timestamp_of : T → Z) (request_at : Z) (data : list T) : list T :=
  List.filter (λ p, timestamp_of p <=? request_at + FUTURE_DATAPOINT_TOLERANCE) data.
Definition newest {T} (timestamp_of : T → Z) (data : list T) : Z := foldr (λ p, Z.max (timestamp_of p)) 0 data.

Lemma newest_le {T} (timestamp_of : T → Z) data b : 0 ≤ b → (∀ p, p ∈ data → timestamp_of p ≤ b) → newest timestamp_of data ≤ b.
Proof.
  intros Hb Hp. induction data as [|p data IH]; simpl; [done|]. apply Z.max_lub; [apply Hp; left|apply IH]. intros q Hq. apply Hp. by right.
Qed.
Lemma newest_ge {T} (timestamp_of : T → Z) data p : p ∈ data → timestamp_of p ≤ newest timestamp_of data.
Proof. induction data as [|q data IH]; simpl; [by intros ?%elem_of_nil|]. intros [->|Hp]%elem_of_cons; [|specialize (IH Hp)]; lia. Qed.
Lemma newest_nonneg {T} (timestamp_of : T → Z) data : 0 ≤ newest timestamp_of data.
Proof. induction data as [|q data IH]; simpl; lia. Qed.
Lemma newest_attained {T} (timestamp_of : T → Z) data :
  newest timestamp_of data = 0 ∨ ∃ p, p ∈ data ∧ newest timestamp_of data = timestamp_of p.
Proof.
  induction data as [|q data IH]; simpl; [by left|].
  destruct (Z.max_spec (timestamp_of q) (newest timestamp_of data)) as [[_ ->]|[_ ->]].
  - destruct IH as [?|(p&Hp&?)]; [by left|]. right. exists p. split; [by right|done].
  - right. exists q. split; [by left|done].
Qed.
Lemma elem_of_kept {T} (timestamp_of : T → Z) request_at data p :
  p ∈ kept timestamp_of request_at data ↔ p ∈ data ∧ timestamp_of p ≤ request_at + FUTURE_DATAPOINT_TOLERANCE.
Proof.
  unfold kept. rewrite !list_elem_of_In, filter_In. by rewrite Z.leb_le.
Qed.

Lemma store_datapoints_loop_run {T} remote cutoff (timestamp_of : T → Z) store data : ∀ m cache,
  store_datapoints_loop remote cutoff timestamp_of store data m cache =
  let l := List.filter (λ p, timestamp_of p <=? cutoff) data in
  (foldl (λ m p, Z.max m (timestamp_of p)) m l, foldl (λ c p, store remote p c) cache l).
Proof.
  induction data as [|p data IH]; intros m cache; [done|]. cbn [store_datapoints_loop List.filter]. cbv zeta.
  rewrite Z.gtb_ltb, Z.ltb_antisym. destruct (timestamp_of p <=? cutoff); cbn [negb]; by rewrite IH.
Qed.

Lemma foldl_newest {T} (timestamp_of : T → Z) l : ∀ m, 0 ≤ m →
  foldl (λ m p, Z.max m (timestamp_of p)) m l = Z.max m (newest timestamp_of l).
Proof. induction l as [|p l IH]; intros m Hm; simpl; [lia|]. rewrite IH; lia. Qed.

Lemma store_datapoints_run {T} remote (data : list T) request_at timestamp_of store cache :
  store_datapoints remote data request_at timestamp_of store cache =
  (newest timestamp_of (kept timestamp_of request_at data),
   foldl (λ c p, store remote p c) cache (kept timestamp_of request_at data)).
Proof.
  unfold store_datapoints. rewrite store_datapoints_loop_run. cbv zeta. rewrite foldl_newest by done.
  fold (kept timestamp_of request_at data). pose proof (newest_nonneg timestamp_of (kept timestamp_of request_at data)). f_equal. lia.
Qed.

(** The answer does not depend on the database. *)
Definition answer_of (metrics : list MetricDataPoint) (request_at : Z) : Z :=
  newest dp_timestamp (kept dp_timestamp request_at metrics).

Lemma store_pve_answer remote metrics response_time request_at cache :
  (store_in_rrd (StorePve remote metrics response_time request_at) cache).1 = Some (answer_of metrics request_at).
Proof. cbn [store_in_rrd]. by rewrite store_datapoints_run. Qed.
Lemma store_pbs_answer remote metrics response_time request_at cache :
  (store_in_rrd (StorePbs remote metrics response_time request_at) cache).1 = Some (answer_of metrics request_at).
Proof. cbn [store_in_rrd]. by rewrite store_datapoints_run. Qed.

(** ** Series of different remotes *)

(** The series of a remote. *)
Inductive remote_series (remote : string) : string → Prop :=
| series_pve rest : remote_series remote ("pve/" +:+ remote +:+ "/" +:+ rest)
| series_pbs rest : remote_series remote ("pbs/" +:+ remote +:+ "/" +:+ rest)
| series_response_time : remote_series remote (response_time_name remote).

Definition no_slash (s : string) : Prop := char_in "/" s = false.

Lemma remote_series_inj r1 r2 name :
  no_slash r1 → no_slash r2 → remote_series r1 name → remote_series r2 name → r1 = r2.
Proof.
  assert (∀ a b x y, no_slash a → no_slash b → a +:+ "/" +:+ x = b +:+ "/" +:+ y → a = b) as Hinj.
  { intros a b x y Ha Hb Heq. apply (f_equal (split_once "/")) in Heq. simpl in Heq.
    rewrite !split_once_app in Heq by done. congruence. }
  intros Hr1 Hr2 Hs1 Hs2. destruct Hs1 as [x|x|]; inversion Hs2 as [y Heq|y Heq|Heq]; unfold response_time_name in *; simpl in *; try discriminate;
    repeat (injection Heq as Heq); symmetry in Heq; by eapply Hinj.
Qed.

Lemma metric_series_pve remote p : remote_series remote (metric_name "pve" remote p).
Proof. unfold metric_name. apply (series_pve remote (dp_id p +:+ "/" +:+ dp_metric p)). Qed.
Lemma metric_series_pbs remote p : remote_series remote (metric_name "pbs" remote p).
Proof. unfold metric_name. apply (series_pbs remote (dp_id p +:+ "/" +:+ dp_metric p)). Qed.
End rrd_task.

(** An update changes nothing but its own series. *)
Class RrdLaws `{Rrd} := {
  rrd_series : Type;
  series : rrd → string → rrd_series;
  update_other name name' time value ty cache :
    name ≠ name' → series (update_value_ignore_old name time value ty cache).2 name' = series cache name';
}.

Section isolation.
Context `{RrdLaws}.

Lemma store_metric_other product remote p cache name :
  name ≠ metric_name product remote p → series (store_metric product remote p cache) name = series cache name.
Proof. intros Hne. unfold store_metric. destruct (data_source_type (dp_type p)); [|done]. unfold update_value. by rewrite update_other. Qed.

Lemma store_all_other product remote l name : ∀ cache,
  (∀ p, name ≠ metric_name product remote p) →
  series (foldl (λ c p, store_metric product remote p c) cache l) name = series cache name.
Proof.
  induction l as [|p l IH]; intros cache Hne; [done|]. simpl. rewrite IH by done. by apply store_metric_other.
Qed.

(** The remote a request is about. *)
Definition request_remote (msg : RrdStoreRequest) : option string :=
  match msg with
  | StorePve remote _ _ _ | StorePbs remote _ _ _ => Some remote
  | StoreCollectionStats _ _ => None
  end.

(** Storing what one remote reported changes no series of another remote, whatever
    the reported names of guests, nodes and metrics are: remote ids contain no slash. *)
Theorem store_isolated (msg : RrdStoreRequest) (cache : rrd) (remote name : string) :
  no_slash remote → (∀ r, request_remote msg = Some r → no_slash r ∧ r ≠ remote) → remote_series remote name →
  series (store_in_rrd msg cache).2 name = series cache name.
Proof.
  intros Hr Hmsg Hs.
  assert (∀ r time l, no_slash r ∧ r ≠ remote →
    (∀ c, series (store_response_time r time l c) name = series c name) ∧
    ∀ p, name ≠ metric_name "pve" r p ∧ name ≠ metric_name "pbs" r p) as Hother.
  { intros r time l [Hns Hne]. split.
    - intros c. unfold store_response_time, update_value. apply update_other. intros <-. apply Hne.
      eapply remote_series_inj; [done|done|apply series_response_time|done].
    - intros p. split; intros ->; apply Hne; (eapply remote_series_inj; [done|done| |exact Hs]);
        [apply metric_series_pve|apply metric_series_pbs]. }
  destruct msg as [r metrics rt at_|r metrics rt at_|t total]; cbn [store_in_rrd].
  - rewrite store_datapoints_run. cbn [snd]. destruct (Hother r rt at_ (Hmsg r eq_refl)) as [-> Hp].
    apply store_all_other. intros p. apply Hp.
  - rewrite store_datapoints_run. cbn [snd]. destruct (Hother r rt at_ (Hmsg r eq_refl)) as [-> Hp].
    apply store_all_other. intros p. apply Hp.
  - cbn [snd]. unfold store_stats, update_value. apply update_other. intros <-. inversion Hs.
Qed.
End isolation.
