(* ===== verification/MetricCollection.v ===== *)
(** * Collecting the metrics of all remotes

    Model of [server/src/metric_collection/state.rs], [remote_collection_task.rs] and
    of [remote_metric_collection_status] in [mod.rs].  The task keeps, per remote, when
    its metrics were last collected and up to which time they are known; a tick of the
    timer, or a control message, collects those of all remotes or of one, concurrently
    and each with one request to the remote and one to the task that stores them
    ([MetricRrd]); after that the state is saved.

    Everything that happens around one collection is in [collect_env]: the remotes, the
    clock when the remotes are picked and when each request is made, the answers of the
    remotes, and the order in which the metrics reach the store ([ce_schedule]; the
    semaphore rules some orders out, which are covered here all the same). *)

From S2P Require Import Prelude FileSystem RemoteUpid RemotesConfig JsonValue ParallelFetcher MetricRrd.
Abbreviation Remote := RemotesConfig.Remote.

(** ** The state *)

Record RemoteStatus : Type := mkRemoteStatus {
  most_recent_datapoint : Z;
  last_collection : option Z;
  rs_error : option string;
}.
Definition default_status : RemoteStatus := mkRemoteStatus 0 None None.
Definition State : Type := gmap string RemoteStatus.

(** The JSON text of the state. *)
Class StateText := {
  state_to_json : State → result error string;
  state_from_json : string → result error State;
}.
Class StateTextLaws `{StateText} := state_roundtrip s text : state_to_json s = Ok text → state_from_json text = Ok s.

Definition METRIC_COLLECTION_STATE_FILE : string := "metric-collection-state.json".

Section state.
Context `{StateText}.

Definition load_or_default : io State :=
  content ← fs_open METRIC_COLLECTION_STATE_FILE;
  match content with
  | Some content => io_lift (state_from_json content)
  | None => mret ∅
  end.
(** [MetricCollectionState::new] *)
Definition state_new : io State :=
  r ← io_try load_or_default;
  mret (match r with Ok state => state | Err _ => ∅ end).
Definition state_save (state : State) : io unit :=
  data ← io_lift (state_to_json state);
  fs_replace METRIC_COLLECTION_STATE_FILE data.

Definition set_status (remote : string) (remote_state : RemoteStatus) (state : State) : State := <[remote := remote_state]> state.
Definition get_status (remote : string) (state : State) : option RemoteStatus := state !! remote.
Definition retain (check : string → bool) (state : State) : State := filter (λ x, check x.1 = true) state.
End state.

Definition MAX_CONCURRENT_CONNECTIONS : nat := 20.
Definition DEFAULT_COLLECTION_INTERVAL : Z := 600.
Definition MIN_COLLECTION_INTERVAL : Z := 10.

(** Seconds until the clock is a multiple of the interval ([next_aligned_instant] of
    [task_utils.rs], [setup_timer]). *)
Definition next_aligned_delay (seconds epoch_now : Z) : Z := seconds - epoch_now mod seconds.

Section collection.
Context `{AuthidType} `{Rrd}.
Context (error_to_string : error → string).

Record collect_env : Type := mkCollect {
  ce_remotes : result error (list (string * Remote));
  ce_now : Z;
  ce_start : string → Z;
  ce_export : Remote → Z → result error (list MetricDataPoint);
  ce_response_time : string → f64;
  ce_schedule : list nat;
  ce_finished : Z;
  ce_total_time : f64;
}.
Implicit Types (env : collect_env).

(** ** One remote *)

Definition store_request env (remote : Remote) (metrics : list MetricDataPoint) : RrdStoreRequest :=
  match r_ty remote with
  | RemoteType.Pve => StorePve (r_id remote) metrics (ce_response_time env (r_id remote)) (ce_start env (r_id remote))
  | RemoteType.Pbs => StorePbs (r_id remote) metrics (ce_response_time env (r_id remote)) (ce_start env (r_id remote))
  end.

Definition fetch_single_remote env (remote : Remote) (status : RemoteStatus) (cache : rrd) : string * RemoteStatus * rrd :=
  let now := ce_start env (r_id remote) in
  match ce_export env remote (most_recent_datapoint status) with
  | Ok metrics =>
      let '(answer, cache) := store_in_rrd (store_request env remote metrics) cache in
      match answer with
      | Some most_recent_timestamp => (r_id remote, mkRemoteStatus most_recent_timestamp (Some now) None, cache)
      | None => (r_id remote, mkRemoteStatus (most_recent_datapoint status) (last_collection status)
                   (Some (error_to_string (EMsg "channel closed"))), cache)
      end
  | Err err =>
      (r_id remote, mkRemoteStatus (most_recent_datapoint status) (last_collection status) (Some (error_to_string err)), cache)
  end.

(** ** Several remotes *)

Definition recent_enough (now : Z) (status : RemoteStatus) : bool :=
  now - default 0 (last_collection status) <? MIN_COLLECTION_INTERVAL.

(** The tasks that the loop of [fetch_remotes] spawns. *)
Definition fetch_tasks env (remote_config : list (string * Remote)) (remotes_to_fetch : list string) (state : State)
    : list (Remote * RemoteStatus) :=
  omap (M:=list) (λ remote_name,
    let status := default default_status (get_status remote_name state) in
    if recent_enough (ce_now env) status then None
    else remote ← lookup_remote remote_config remote_name; Some (remote, status)) remotes_to_fetch.

Fixpoint fetch_all env (tasks : list (Remote * RemoteStatus)) (cache : rrd) : list (string * RemoteStatus) * rrd :=
  match tasks with
  | [] => ([], cache)
  | (remote, status) :: tasks =>
      let '(res, cache) := fetch_single_remote env remote status cache in
      let '(results, cache) := fetch_all env tasks cache in
      (res :: results, cache)
  end.

Definition fetch_remotes env (remote_config : list (string * Remote)) (remotes_to_fetch : list string)
    (state : State) (cache : rrd) : State * rrd :=
  let tasks := fetch_tasks env remote_config remotes_to_fetch state in
  let '(results, cache) := fetch_all env (join_order (length tasks) (ce_schedule env) tasks) cache in
  (foldl (λ state '(name, status), set_status name status state) state results, cache).

Definition fetch_overdue env (remote_config : list (string * Remote)) (left_until_scheduled collection_interval : Z)
    (state : State) (cache : rrd) : State * rrd :=
  let overdue :=
    List.filter (λ remote,
      let diff := ce_now env - default 0 (get_status remote state ≫= last_collection) in
      diff + left_until_scheduled >? collection_interval) remote_config.*1 in
  fetch_remotes env remote_config overdue state cache.

Definition cleanup_removed_remotes_from_state (remotes : list (string * Remote)) (state : State) : State :=
  retain (λ remote, bool_decide (is_Some (lookup_remote remotes remote))) state.

Definition handle_tick env (state : State) (cache : rrd) : State * rrd :=
  match ce_remotes env with
  | Err _ => (state, cache)
  | Ok remotes =>
      let state := cleanup_removed_remotes_from_state remotes state in
      let '(state, cache) := fetch_remotes env remotes remotes.*1 state cache in
      (state, (store_in_rrd (StoreCollectionStats (ce_finished env) (ce_total_time env)) cache).2)
  end.

(** [ControlMsg::TriggerMetricCollection]; the result also says whether the sender is
    told that the collection is done. *)
Definition handle_control_message env (message : option string) (state : State) (cache : rrd) : State * rrd * bool :=
  match ce_remotes env with
  | Err _ => (state, cache, false)
  | Ok remotes =>
      match message with
      | Some remote => (fetch_remotes env remotes [remote] state cache, true)
      | None => (fetch_remotes env remotes remotes.*1 state cache, true)
      end
  end.

(** ** The task *)

Inductive event : Type :=
| Tick
| Message (remote : option string).

Definition handle_event env (e : event) (state : State) (cache : rrd) : State * rrd :=
  match e with
  | Tick => handle_tick env state cache
  | Message remote => (handle_control_message env remote state cache).1
  end.

(** What [run] does before its loop, and one iteration of the loop. *)
Definition run_start env (left_until_scheduled : Z) (state : State) (cache : rrd) : State * rrd :=
  match ce_remotes env with
  | Err _ => (state, cache)
  | Ok remotes => fetch_overdue env remotes left_until_scheduled DEFAULT_COLLECTION_INTERVAL state cache
  end.
Definition run_iteration `{StateText} env (e : event) (state : State) (cache : rrd) : io (State * rrd) :=
  let '(state, cache) := handle_event env e state cache in
  _ ← io_try (state_save state);
  mret (state, cache).

(** ** The API *)

Record RemoteMetricCollectionStatus : Type := mkCollectionStatus {
  cs_remote : string;
  cs_error : option string;
  cs_last_collection : option Z;
}.
Definition remote_metric_collection_status `{StateText} (config : result error (list (string * Remote)))
    : io (list RemoteMetricCollectionStatus) :=
  remotes ← io_lift config;
  state ← state_new;
  mret (omap (M:=list) (λ x, status ← get_status x.1 state;
          Some (mkCollectionStatus x.1 (rs_error status) (last_collection status))) remotes).
End collection.
