(* ===== verification/MetricProperties.v ===== *)
(** * Properties of the metric collection

    What a tick does to the status of every remote, whatever the order in which the
    remotes answer; that no datapoint which a remote reports in order is
    missed. *)

From S2P Require Import Prelude FileSystem RemoteUpid RemotesConfig JsonValue ParallelFetcher MetricRrd MetricCollection.

(** The remotes are in a section configuration: its keys are distinct and the ids of
    the remotes. *)
Record config_ok `{AuthidType} (remotes : list (string * Remote)) : Prop := {
  co_distinct : NoDup remotes.*1;
  co_ids name remote : lookup_remote remotes name = Some remote → r_id remote = name;
}.

Lemma lookup_remote_Some `{AuthidType} (remotes : list (string * Remote)) name : is_Some (lookup_remote remotes name) ↔ name ∈ remotes.*1.
Proof.
  unfold lookup_remote. rewrite fmap_is_Some. split.
  - intros [[k r] Hf]. apply find_some in Hf as [Hin Heq]. apply String.eqb_eq in Heq. subst k.
    apply list_elem_of_In in Hin. by apply (list_elem_of_fmap_2 fst) in Hin.
  - intros ([k r]&->&Hin)%list_elem_of_fmap. destruct (List.find _ remotes) as [x|] eqn:Hf; [done|].
    apply list_elem_of_In in Hin. pose proof (find_none _ _ Hf _ Hin) as Hn. cbn in Hn. by rewrite String.eqb_refl in Hn.
Qed.

(** ** Statuses *)

Section status.
Context `{AuthidType} `{Rrd} (error_to_string : error → string).
Implicit Types (env : collect_env) (state : State).

(** The status after the metrics were asked for. *)
Definition fetched env (remote : Remote) (status : RemoteStatus) : RemoteStatus :=
  match ce_export env remote (most_recent_datapoint status) with
  | Ok metrics => mkRemoteStatus (answer_of metrics (ce_start env (r_id remote))) (Some (ce_start env (r_id remote))) None
  | Err err => mkRemoteStatus (most_recent_datapoint status) (last_collection status) (Some (error_to_string err))
  end.

(** What the store is asked to do with it. *)
Definition request_of env (remote : Remote) (status : RemoteStatus) : option RrdStoreRequest :=
  match ce_export env remote (most_recent_datapoint status) with
  | Ok metrics => Some (store_request env remote metrics)
  | Err _ => None
  end.
Definition store_opt (msg : option RrdStoreRequest) (cache : rrd) : rrd :=
  match msg with Some msg => (store_in_rrd msg cache).2 | None => cache end.

Lemma fetch_single_run env remote status cache :
  fetch_single_remote error_to_string env remote status cache =
  (r_id remote, fetched env remote status, store_opt (request_of env remote status) cache).
Proof.
  unfold fetch_single_remote, fetched, request_of, store_opt. destruct (ce_export env remote _) as [metrics|e]; [|done].
  destruct (store_in_rrd (store_request env remote metrics) cache) as [a c] eqn:Hs.
  assert (a = Some (answer_of metrics (ce_start env (r_id remote)))) as ->; [|done].
  change a with (a, c).1. rewrite <-Hs. unfold store_request. destruct (r_ty remote); [apply store_pve_answer|apply store_pbs_answer].
Qed.

Lemma fetch_all_run env tasks : ∀ cache,
  fetch_all error_to_string env tasks cache =
  (map (λ x, (r_id x.1, fetched env x.1 x.2)) tasks, foldl (λ c x, store_opt (request_of env x.1 x.2) c) cache tasks).
Proof.
  induction tasks as [|[remote status] tasks IH]; intros cache; [done|]. cbn [fetch_all]. by rewrite fetch_single_run, IH.
Qed.

Lemma set_all_lookup (l : list (string * RemoteStatus)) : ∀ state name,
  NoDup l.*1 →
  (foldl (λ state '(name, status), set_status name status state) state l : State) !! name =
  match list_to_map (M:=gmap string RemoteStatus) l !! name with Some status => Some status | None => state !! name end.
Proof.
  induction l as [|[k s] l IH]; intros state name Hnd; [done|]. cbn [foldl]. rewrite fmap_cons in Hnd.
  apply NoDup_cons in Hnd as [Hk Hnd]. rewrite IH by done. cbn [list_to_map foldr uncurry fst snd]. unfold set_status.
  destruct (decide (k = name)) as [->|Hne].
  - assert (list_to_map (M:=gmap string RemoteStatus) l !! name = None) as -> by (by apply not_elem_of_list_to_map).
    rewrite (lookup_insert_eq (M:=gmap string) state). by rewrite lookup_insert_eq.
  - rewrite (lookup_insert_ne (M:=gmap string) state) by done. by rewrite lookup_insert_ne.
Qed.

(** The status of a remote after it was to be fetched. *)
Definition next_status env (remotes : list (string * Remote)) state (name : string) : option RemoteStatus :=
  let status := default default_status (state !! name) in
  if recent_enough (ce_now env) status then state !! name
  else match lookup_remote remotes name with
       | None => state !! name
       | Some remote => Some (fetched env remote status)
       end.

Definition task_of env (remotes : list (string * Remote)) state (name : string) : option (Remote * RemoteStatus) :=
  let status := default default_status (state !! name) in
  if recent_enough (ce_now env) status then None else remote ← lookup_remote remotes name; Some (remote, status).

Lemma task_of_id env remotes state name x : config_ok remotes → task_of env remotes state name = Some x → r_id x.1 = name.
Proof.
  intros Hok. unfold task_of. cbv zeta. destruct (recent_enough _ _); [done|].
  destruct (lookup_remote remotes name) as [r|] eqn:Hr; [|done]. intros [= <-]. by apply (co_ids _ Hok).
Qed.

Lemma fetch_remotes_run env remotes names state cache :
  ∃ tasks, tasks ≡ₚ omap (M:=list) (task_of env remotes state) names ∧
    fetch_remotes error_to_string env remotes names state cache =
    (foldl (λ state '(name, status), set_status name status state) state (map (λ x, (r_id x.1, fetched env x.1 x.2)) tasks),
     foldl (λ c x, store_opt (request_of env x.1 x.2) c) cache tasks).
Proof.
  unfold fetch_remotes. cbv zeta. change (fetch_tasks env remotes names state) with (omap (M:=list) (task_of env remotes state) names).
  eexists. split; [apply join_order_perm|]. by rewrite fetch_all_run.
Qed.

Lemma task_ids env remotes state names : config_ok remotes →
  (λ x, r_id x.1) <$> omap (M:=list) (task_of env remotes state) names `sublist_of` names.
Proof.
  intros Hok. induction names as [|n names IH]; [done|]. cbn [omap list_omap].
  destruct (task_of env remotes state n) as [x|] eqn:Ht.
  - rewrite fmap_cons. rewrite (task_of_id _ _ _ _ _ Hok Ht). by apply sublist_skip.
  - by apply sublist_cons.
Qed.

Lemma fetch_remotes_lookup env remotes names state cache name :
  config_ok remotes → NoDup names →
  (fetch_remotes error_to_string env remotes names state cache).1 !! name =
  if decide (name ∈ names) then next_status env remotes state name else state !! name.
Proof.
  intros Hok Hnd. destruct (fetch_remotes_run env remotes names state cache) as (tasks&Hperm&->). cbn [fst].
  assert ((map (λ x, (r_id x.1, fetched env x.1 x.2)) tasks).*1 = (λ x, r_id x.1) <$> tasks) as Hids.
  { induction tasks as [|x l IH] in |- *; [done|]. simpl. by f_equal. }
  assert (NoDup (map (λ x, (r_id x.1, fetched env x.1 x.2)) tasks).*1) as Hnd'.
  { rewrite Hids, Hperm. eapply sublist_NoDup; [exact Hnd|]. by apply task_ids. }
  rewrite set_all_lookup by done.
  destruct (list_to_map (M:=gmap string RemoteStatus) (map (λ x, (r_id x.1, fetched env x.1 x.2)) tasks) !! name) as [s|] eqn:Hl.
  - apply elem_of_list_to_map in Hl; [|done]. apply list_elem_of_fmap in Hl as ([remote status]&Heq&Hin). injection Heq as -> ->.
    rewrite Hperm in Hin. apply list_elem_of_omap in Hin as (n&Hn&Ht). pose proof (task_of_id _ _ _ _ _ Hok Ht) as Hid. cbn in Hid. rewrite Hid.
    rewrite decide_True by done. unfold next_status, task_of in *. cbv zeta in *. destruct (recent_enough _ _); [done|].
    destruct (lookup_remote remotes n); [|done]. by injection Ht as -> ->.
  - apply not_elem_of_list_to_map in Hl. rewrite Hids, Hperm in Hl. case_decide as Hin; [|done].
    unfold next_status. cbv zeta. destruct (recent_enough _ _) eqn:Hre; [done|].
    destruct (lookup_remote remotes name) as [remote|] eqn:Hr; [|done]. exfalso. apply Hl. apply list_elem_of_fmap.
    exists (remote, default default_status (state !! name)). split; [symmetry; by apply (co_ids _ Hok)|].
    apply list_elem_of_omap. exists name. split; [done|]. unfold task_of. cbv zeta. by rewrite Hre, Hr.
Qed.

Lemma tick_lookup env remotes state cache name :
  ce_remotes env = Ok remotes → config_ok remotes →
  (handle_tick error_to_string env state cache).1 !! name =
  if decide (name ∈ remotes.*1) then next_status env remotes state name else None.
Proof.
  intros Hcfg Hok. unfold handle_tick. rewrite Hcfg.
  set (st := cleanup_removed_remotes_from_state remotes state).
  destruct (fetch_remotes error_to_string env remotes remotes.*1 st cache) as [st' c'] eqn:Hf. cbn [fst].
  change st' with (st', c').1. rewrite <-Hf. rewrite fetch_remotes_lookup by (done || apply Hok).
  assert (st !! name = if decide (name ∈ remotes.*1) then state !! name else None) as Hst.
  { unfold st, cleanup_removed_remotes_from_state, retain. case_decide as Hin.
    - destruct (state !! name) as [s|] eqn:Hs.
      + apply map_lookup_filter_Some. split; [done|]. cbn. apply bool_decide_eq_true. by apply lookup_remote_Some.
      + apply map_lookup_filter_None. by left.
    - apply map_lookup_filter_None. right. intros s _. cbn. rewrite bool_decide_eq_true, lookup_remote_Some. done. }
  case_decide as Hin; [|done]. unfold next_status. by rewrite Hst.
Qed.
End status.

(** ** The updates that are made *)

Section journal.

(** A database that only keeps the list of the updates. *)
Definition update : Type := string * f64 * f64 * DataSourceType.
#[local] Instance journal_rrd : Rrd := {|
  rrd := list update;
  update_value_ignore_old name time value ty l := (Ok tt, l ++ [(name, time, value, ty)]);
|}.

Definition product_of (ty : RemoteType.t) : string := match ty with RemoteType.Pve => "pve" | RemoteType.Pbs => "pbs" end.
Definition update_of (ty : RemoteType.t) (remote : string) (p : MetricDataPoint) : option update :=
  kind ← data_source_type (dp_type p);
  Some (metric_name (product_of ty) remote p, f64_of_i64 (dp_timestamp p), dp_value p, kind).

(** The datapoint was handed to the database, unless its kind is not known. *)
Definition recorded (l : list update) (ty : RemoteType.t) (remote : string) (p : MetricDataPoint) : Prop :=
  ∀ u, update_of ty remote p = Some u → u ∈ l.

Lemma recorded_app_l l l' ty remote p : recorded l ty remote p → recorded (l ++ l') ty remote p.
Proof. intros Hr u Hu. apply elem_of_app. left. by apply Hr. Qed.
Lemma recorded_app_r l l' ty remote p : recorded l' ty remote p → recorded (l ++ l') ty remote p.
Proof. intros Hr u Hu. apply elem_of_app. right. by apply Hr. Qed.

Lemma store_all_journal ty remote (l : list MetricDataPoint) : ∀ c : list update,
  foldl (λ c p, store_metric (product_of ty) remote p c) c l = c ++ omap (M:=list) (update_of ty remote) l.
Proof.
  induction l as [|p l IH]; intros c; [by rewrite app_nil_r|]. cbn [foldl omap list_omap]. rewrite IH.
  unfold store_metric, update_of. destruct (data_source_type (dp_type p)); cbn [mbind option_bind]; [|done].
  unfold update_value. cbn. by rewrite <-app_assoc.
Qed.

Context `{AuthidType} (error_to_string : error → string).
Implicit Types (env : collect_env) (state : State).

Lemma store_request_journal env remote metrics (c : rrd) :
  ∃ l, (store_in_rrd (store_request env remote metrics) c).2 = c ++ l ∧
    ∀ p, p ∈ kept dp_timestamp (ce_start env (r_id remote)) metrics → recorded l (r_ty remote) (r_id remote) p.
Proof.
  unfold store_request.
  assert (∀ (l : list MetricDataPoint) p x, p ∈ l → recorded (omap (M:=list) (update_of (r_ty remote) (r_id remote)) l ++ x) (r_ty remote) (r_id remote) p) as Hrec.
  { intros l p x Hp u Hu. apply elem_of_app. left. apply list_elem_of_omap. by exists p. }
  destruct (r_ty remote) eqn:Hty; cbn [store_in_rrd]; rewrite store_datapoints_run; cbn [snd]; unfold store_response_time, update_value; cbn.
  - change store_metric_pve with (store_metric (product_of RemoteType.Pve)). rewrite store_all_journal, <-app_assoc.
    eexists. split; [reflexivity|]. intros p. apply Hrec.
  - change store_metric_pbs with (store_metric (product_of RemoteType.Pbs)). rewrite store_all_journal, <-app_assoc.
    eexists. split; [reflexivity|]. intros p. apply Hrec.
Qed.

(** What one fetch adds. *)
Definition fetch_recorded env (remote : Remote) (status : RemoteStatus) (l : list update) : Prop :=
  ∀ metrics, ce_export env remote (most_recent_datapoint status) = Ok metrics →
  ∀ p, p ∈ kept dp_timestamp (ce_start env (r_id remote)) metrics → recorded l (r_ty remote) (r_id remote) p.

Lemma fetches_journal env tasks : ∀ c : list update,
  ∃ l, foldl (λ c x, store_opt (request_of env x.1 x.2) c) c tasks = c ++ l ∧
    ∀ x, x ∈ tasks → fetch_recorded env x.1 x.2 l.
Proof.
  induction tasks as [|[remote status] tasks IH]; intros c.
  { exists []. rewrite app_nil_r. split; [done|]. by intros x ?%elem_of_nil. }
  cbn [foldl fst snd]. unfold store_opt at 2, request_of at 2.
  destruct (ce_export env remote (most_recent_datapoint status)) as [metrics|e] eqn:Hx.
  - destruct (store_request_journal env remote metrics c) as (l1&->&Hl1). destruct (IH (c ++ l1)) as (l2&->&Hl2).
    exists (l1 ++ l2). rewrite <-app_assoc. split; [done|]. intros x [->|Hin]%elem_of_cons.
    + intros metrics' Hx' p Hp. cbn in *. rewrite Hx in Hx'. injection Hx' as ->. apply recorded_app_l. by apply Hl1.
    + intros metrics' Hx' p Hp. apply recorded_app_r. by eapply Hl2.
  - destruct (IH c) as (l2&->&Hl2). exists l2. split; [done|]. intros x [->|Hin]%elem_of_cons; [|by apply Hl2].
    intros metrics' Hx'. cbn in *. congruence.
Qed.

(** What an event does to one remote. *)
Record effect env (r : string) state (c : rrd) state' (c' : list update) : Prop := {
  ef_journal : ∃ l, c' = c ++ l;
  ef_status : state' !! r = state !! r ∨ state' !! r = None ∨
    ∃ remotes remote, let status := default default_status (state !! r) in
      ce_remotes env = Ok remotes ∧ lookup_remote remotes r = Some remote ∧
      state' !! r = Some (fetched error_to_string env remote status) ∧ fetch_recorded env remote status c';
}.

Lemma fetch_remotes_effect env remotes names state (c : rrd) r :
  ce_remotes env = Ok remotes → config_ok remotes → NoDup names →
  effect env r state c (fetch_remotes error_to_string env remotes names state c).1 (fetch_remotes error_to_string env remotes names state c).2.
Proof.
  intros Hcfg Hok Hnd. destruct (fetch_remotes_run error_to_string env remotes names state c) as (tasks&Hperm&Hrun).
  destruct (fetches_journal env tasks c) as (l&Hl&Hrec). split.
  - rewrite Hrun. cbn [snd]. by exists l.
  - rewrite (fetch_remotes_lookup error_to_string env remotes names state c r Hok Hnd). rewrite Hrun. cbn [snd]. rewrite Hl.
    case_decide as Hin; [|by left]. unfold next_status. cbv zeta. destruct (recent_enough _ _) eqn:Hre; [by left|].
    destruct (lookup_remote remotes r) as [remote|] eqn:Hr; [|by left]. right. right. exists remotes, remote.
    split_and!; [done..|]. intros metrics Hx p Hp. apply recorded_app_r. eapply (Hrec (remote, _)); [|exact Hx|exact Hp].
    rewrite Hperm. apply list_elem_of_omap. exists r. split; [done|]. unfold task_of. cbv zeta. by rewrite Hre, Hr.
Qed.

Lemma stats_journal timestamp total_time (c : rrd) :
  ∃ l, (store_in_rrd (StoreCollectionStats timestamp total_time) c).2 = c ++ l.
Proof. eexists. reflexivity. Qed.

Lemma event_effect env e state (c : rrd) r :
  (∀ remotes, ce_remotes env = Ok remotes → config_ok remotes) →
  effect env r state c (handle_event error_to_string env e state c).1 (handle_event error_to_string env e state c).2.
Proof.
  intros Hcfg. assert (effect env r state c state c) as Hsame by (split; [exists []; by rewrite app_nil_r|by left]).
  destruct e as [|[name|]]; cbn [handle_event]; unfold handle_tick, handle_control_message;
    destruct (ce_remotes env) as [remotes|e] eqn:Hremotes; cbn [fst snd]; try exact Hsame; specialize (Hcfg remotes eq_refl).
  - pose proof (tick_lookup error_to_string env remotes state c r Hremotes Hcfg) as Htick. unfold handle_tick in Htick. rewrite Hremotes in Htick.
    pose proof (fetch_remotes_effect env remotes remotes.*1 (cleanup_removed_remotes_from_state remotes state) c r Hremotes Hcfg (co_distinct _ Hcfg)) as [[l Hl] Heff].
    destruct (fetch_remotes error_to_string env remotes remotes.*1 (cleanup_removed_remotes_from_state remotes state) c) as [st c1] eqn:Hf. cbn [fst snd] in *. subst c1.
    destruct (stats_journal (ce_finished env) (ce_total_time env) (c ++ l)) as [l' Hl'].
    split; [exists (l ++ l'); by rewrite Hl', <-app_assoc|]. rewrite Hl'.
    case_decide as Hin; [|by right; left].
    assert (cleanup_removed_remotes_from_state remotes state !! r = state !! r) as Hclean.
    { unfold cleanup_removed_remotes_from_state, retain. destruct (state !! r) as [s|] eqn:Hs.
      - apply map_lookup_filter_Some. split; [done|]. cbn. apply bool_decide_eq_true. by apply lookup_remote_Some.
      - apply map_lookup_filter_None. by left. }
    rewrite Hclean in Heff. destruct Heff as [Heff|[Heff|(rs&remote&Hrs&Hr&Hst&Hrec)]]; [by left|by right; left|].
    right. right. exists rs, remote. split_and!; [congruence|done|done|]. intros metrics Hx p Hp. apply recorded_app_l. by eapply Hrec.
  - by apply fetch_remotes_effect; [|done|apply NoDup_singleton].
  - apply fetch_remotes_effect; [done|done|apply Hcfg].
Qed.

(** ** No datapoint is skipped *)

(** The remote [r] answers with the datapoint [p] no later than with one that has the same
    time or a later one: an answer to a question that asks for it contains [p], or only
    datapoints of earlier times. *)
Record in_order env (r : string) (ty : RemoteType.t) (p : MetricDataPoint) : Prop := {
  io_config remotes : ce_remotes env = Ok remotes → config_ok remotes ∧
    ∀ remote, lookup_remote remotes r = Some remote → r_ty remote = ty;
  io_order remote start metrics : r_id remote = r → ce_export env remote start = Ok metrics → start < dp_timestamp p →
    p ∈ metrics ∨ ∀ q, q ∈ metrics → dp_timestamp q < dp_timestamp p;
}.

Definition run_events (l : list (collect_env * event)) (s : State * list update) : State * list update :=
  foldl (λ '(state, c) '(env, e), handle_event error_to_string env e state c) s l.

Definition cursor state (r : string) : Z := most_recent_datapoint (default default_status (state !! r)).

(** The datapoint will still be asked for, or was handed over. *)
Definition not_missed (r : string) (ty : RemoteType.t) (p : MetricDataPoint) state (c : rrd) : Prop :=
  cursor state r < dp_timestamp p ∨ recorded c ty r p.

Lemma event_not_missed r ty env e p state c :
  0 < dp_timestamp p → in_order env r ty p → not_missed r ty p state c →
  not_missed r ty p (handle_event error_to_string env e state c).1 (handle_event error_to_string env e state c).2.
Proof.
  intros Hpos Hord Hinv. destruct (event_effect env e state c r) as [[l ->] Hst].
  { intros remotes Hr. by apply (io_config _ _ _ _ Hord). }
  destruct Hinv as [Hcur|Hrec]; [|right; by apply recorded_app_l].
  destruct Hst as [Hst|[Hst|(remotes&remote&Hcfg&Hr&Hst&Hfetch)]]; unfold not_missed, cursor; rewrite Hst; [by left|by left|].
  destruct (io_config _ _ _ _ Hord remotes Hcfg) as [Hok Hty]. pose proof (co_ids _ Hok _ _ Hr) as Hid. specialize (Hty _ Hr).
  unfold fetch_recorded, fetched in *. fold (cursor state r) in *.
  destruct (ce_export env remote (cursor state r)) as [metrics|err] eqn:Hx; [|by left].
  cbn [default from_option id most_recent_datapoint]. rewrite Hid, Hty in *. unfold answer_of.
  destruct (newest_attained dp_timestamp (kept dp_timestamp (ce_start env r) metrics)) as [Hz|(q&Hq&Heq)]; [left; lia|].
  apply elem_of_kept in Hq as [Hq Hqt]. destruct (decide (dp_timestamp q < dp_timestamp p)) as [Hlt|Hge]; [left; lia|]. right.
  destruct (io_order _ _ _ _ Hord remote _ _ Hid Hx Hcur) as [Hp|Hall]; [|by specialize (Hall q Hq)].
  apply (Hfetch metrics eq_refl), elem_of_kept. split; [done|lia].
Qed.

Lemma events_not_missed r ty p h : ∀ state c,
  0 < dp_timestamp p → Forall (λ x, in_order x.1 r ty p) h → not_missed r ty p state c →
  not_missed r ty p (run_events h (state, c)).1 (run_events h (state, c)).2.
Proof.
  induction h as [|[env e] h IH]; intros state c Hpos Hall Hinv; [done|]. apply Forall_cons in Hall as [Hord Hall].
  pose proof (event_not_missed r ty env e p state c Hpos Hord Hinv) as Hinv'. unfold run_events in *. cbn [foldl].
  destruct (handle_event error_to_string env e state c) as [state1 c1]. by apply IH.
Qed.

(** C16: A datapoint that a remote reports in order is not missed.  Over any sequence of
    ticks and control messages, in which remotes may fail, be removed or be added again:
    as soon as the metrics of a remote are known up to the time of the datapoint, or
    beyond it, the datapoint was handed to the database, unless its kind is unknown. Until
    then every request still asks for it: this holds for datapoints that are dropped
    because they lie in the future. It is assumed of the datapoint, and not of the others,
    that it has a positive time and that no answer has one of the same or a later time
    before the datapoint is answered; the other datapoints of the remote may come in any
    order. The assumption is needed: all nodes of a cluster share one time, so that a
    datapoint of a node that reports late, or whose clock is behind, is never asked for
    ([MetricState.MetricDemo.late_node_is_missed]). The configuration is a section
    configuration at any time, in which the remote, where it is configured, has the same
    type. *)
Theorem collections_miss_nothing r ty (p : MetricDataPoint) (h : list (collect_env * event)) :
  0 < dp_timestamp p → Forall (λ x, in_order x.1 r ty p) h →
  dp_timestamp p ≤ cursor (run_events h (∅, [])).1 r → recorded (run_events h (∅, [])).2 ty r p.
Proof.
  intros Hpos Hall Hcur. assert (not_missed r ty p ∅ []) as Hstart by (by left).
  destruct (events_not_missed r ty p h ∅ [] Hpos Hall Hstart) as [Hlt|?]; [|done].
  destruct (Z.lt_irrefl (dp_timestamp p)). exact (Z.le_lt_trans _ _ _ Hcur Hlt).
Qed.
End journal.
