(* ===== verification/MetricState.v ===== *)
(** * The state of the metric collection

    The status of every remote after a tick, bounds on the times in the state, when
    remotes are collected at startup, and that the state survives crashes and restarts;
    with concrete runs. *)

From S2P Require Import Prelude FileSystem RemoteUpid RemotesConfig JsonValue ParallelFetcher MetricRrd MetricCollection MetricProperties.

(** ** A tick *)

Section tick.
Context `{AuthidType} `{Rrd} (error_to_string : error → string).
Implicit Types (env : collect_env) (state : State).

(** What a tick leaves of the status of a remote. *)
Definition after_tick env (remotes : list (string * Remote)) state (name : string) : option RemoteStatus :=
  match lookup_remote remotes name with
  | None => None
  | Some remote =>
      let status := default default_status (state !! name) in
      if ce_now env - default 0 (last_collection status) <? MIN_COLLECTION_INTERVAL then state !! name
      else match ce_export env remote (most_recent_datapoint status) with
           | Ok metrics => Some (mkRemoteStatus (answer_of metrics (ce_start env name)) (Some (ce_start env name)) None)
           | Err err => Some (mkRemoteStatus (most_recent_datapoint status) (last_collection status) (Some (error_to_string err)))
           end
  end.

(** A tick updates the status of every configured remote on its own, in whatever
    order the remotes answer: one that was collected less than ten seconds ago keeps its
    status; of one that answers the time of the newest datapoint that was stored is kept,
    with the time of the request and no error; one that fails keeps both times and gets
    the error.  Remotes that are not configured are forgotten, and if the configuration
    cannot be read nothing changes. *)
Theorem tick_statuses env state (cache : rrd) :
  (∀ remotes, ce_remotes env = Ok remotes → config_ok remotes) →
  match ce_remotes env with
  | Ok remotes => ∀ name, (handle_tick error_to_string env state cache).1 !! name = after_tick env remotes state name
  | Err _ => handle_tick error_to_string env state cache = (state, cache)
  end.
Proof.
  intros Hcfg. destruct (ce_remotes env) as [remotes|e] eqn:Hr; [|unfold handle_tick; by rewrite Hr].
  specialize (Hcfg remotes eq_refl). intros name. rewrite (tick_lookup error_to_string env remotes state cache name Hr Hcfg).
  unfold after_tick, next_status. pose proof (lookup_remote_Some remotes name) as Hin.
  destruct (lookup_remote remotes name) as [remote|] eqn:Hl; case_decide as Hd.
  - cbv zeta. unfold recent_enough. destruct (_ <? _); [done|]. unfold fetched. rewrite (co_ids _ Hcfg _ _ Hl). by destruct (ce_export _ _ _).
  - destruct Hd. apply Hin. done.
  - apply Hin in Hd. by destruct Hd.
  - done.
Qed.

(** ** Bounds *)

(** The metrics are not known up to a time more than the tolerance after they were
    last collected. *)
Definition status_ok (status : RemoteStatus) : Prop :=
  0 ≤ most_recent_datapoint status ∧
  match last_collection status with
  | Some t => most_recent_datapoint status ≤ Z.max 0 (t + FUTURE_DATAPOINT_TOLERANCE)
  | None => most_recent_datapoint status = 0
  end.
Definition state_ok state : Prop := map_Forall (λ _ status, status_ok status) state.

Lemma default_status_ok state name : state_ok state → status_ok (default default_status (state !! name)).
Proof. intros Hs. destruct (state !! name) as [s|] eqn:Hl; [by apply (Hs name)|]. by split. Qed.

Lemma fetched_ok env remote status : status_ok status → status_ok (fetched error_to_string env remote status).
Proof.
  intros Hs. unfold fetched. destruct (ce_export env remote _) as [metrics|e]; [|done].
  split; cbn [most_recent_datapoint last_collection]; [apply newest_nonneg|].
  apply newest_le; [lia|]. intros p [_ Hp]%elem_of_kept. lia.
Qed.

Lemma fetch_remotes_ok env remotes names state cache :
  state_ok state → state_ok (fetch_remotes error_to_string env remotes names state cache).1.
Proof.
  intros Hs. destruct (fetch_remotes_run error_to_string env remotes names state cache) as (tasks&Hperm&->). cbn [fst].
  assert (Forall (λ x, status_ok x.2) (map (λ x, (r_id x.1, fetched error_to_string env x.1 x.2)) tasks)) as Hall.
  { rewrite Forall_map. rewrite Hperm. apply Forall_forall. intros x (n&_&Ht)%list_elem_of_omap. cbn.
    apply fetched_ok. unfold task_of in Ht. cbv zeta in Ht. destruct (recent_enough _ _); [done|].
    destruct (lookup_remote remotes n); [|done]. injection Ht as <-. by apply default_status_ok. }
  revert Hall. generalize (map (λ x, (r_id x.1, fetched error_to_string env x.1 x.2)) tasks). clear Hperm tasks.
  intros l. revert state Hs. induction l as [|[name s] l IH]; intros state Hs Hall; [done|]. apply Forall_cons in Hall as [Hx Hall].
  apply IH; [|done]. by apply map_Forall_insert_2.
Qed.

Lemma handle_event_ok env e state cache : state_ok state → state_ok (handle_event error_to_string env e state cache).1.
Proof.
  intros Hs. destruct e as [|message]; cbn [handle_event].
  - unfold handle_tick. destruct (ce_remotes env) as [remotes|err]; [|done].
    assert (state_ok (cleanup_removed_remotes_from_state remotes state)) as Hc.
    { intros name s Hl. apply map_lookup_filter_Some in Hl as [Hl _]. by apply (Hs name). }
    pose proof (fetch_remotes_ok env remotes remotes.*1 _ cache Hc) as Hf.
    by destruct (fetch_remotes error_to_string env remotes remotes.*1 _ cache).
  - unfold handle_control_message. destruct (ce_remotes env) as [remotes|err]; [|done].
    destruct message as [remote|]; by apply fetch_remotes_ok.
Qed.

(** ** Crashes *)

Context `{StateTextLaws}.

(** The state that is on disk. *)
Definition saved_state (m : gmap string string) : State :=
  match m !! METRIC_COLLECTION_STATE_FILE with
  | Some text => match state_from_json text with Ok state => state | Err _ => ∅ end
  | None => ∅
  end.

Lemma state_new_saved m : state_new (World m []) = (Ok (saved_state m), World m []).
Proof.
  unfold state_new, saved_state, load_or_default. rewrite io_bind_run. unfold io_try at 1. rewrite io_bind_run.
  unfold fs_open at 1. rewrite prim_quiet. destruct (m !! METRIC_COLLECTION_STATE_FILE) as [text|]; [|done].
  unfold io_lift. by destruct (state_from_json text).
Qed.

(** C31: Whatever fails, an iteration of the task goes on with the state that the event
    led to; afterwards the file has the state of before or this one, so that a restart
    continues with one of them; no other file is touched; and in every state that is
    reached or stored, no time up to which metrics are known lies more than a minute
    after the collection it comes from. *)
Theorem run_iteration_crash_safe env e state (cache : rrd) w :
  state_ok state → state_ok (saved_state (files w)) →
  ∃ w', run_iteration error_to_string env e state cache w = (Ok (handle_event error_to_string env e state cache), w') ∧
    state_ok (handle_event error_to_string env e state cache).1 ∧ state_ok (saved_state (files w')) ∧
    (saved_state (files w') = saved_state (files w) ∨
     saved_state (files w') = (handle_event error_to_string env e state cache).1) ∧
    ∀ name, name ≠ METRIC_COLLECTION_STATE_FILE → files w' !! name = files w !! name.
Proof.
  intros Hs Hf. unfold run_iteration. pose proof (handle_event_ok env e state cache Hs) as Hs'.
  destruct (handle_event error_to_string env e state cache) as [state' cache']. cbn [fst] in *.
  assert (∃ r w', state_save state' w = (r, w') ∧ (files w' = files w ∨
    ∃ text, state_to_json state' = Ok text ∧ files w' = <[METRIC_COLLECTION_STATE_FILE := text]> (files w))) as (r&w'&Hsave&Hw).
  { unfold state_save. rewrite io_bind_run. unfold io_lift. destruct (state_to_json state') as [text|err] eqn:Ht; [|eexists _, w; by split; [|left]].
    unfold fs_replace, prim. destruct w as [m [|[] fs]]; cbn; eexists _, _; (split; [reflexivity|]); cbn; eauto. }
  exists w'. rewrite io_bind_run. unfold io_try. rewrite Hsave. split; [done|]. split; [done|].
  destruct Hw as [->|(text&Htext&->)]; [by split_and!; [|left|]|].
  assert (saved_state (<[METRIC_COLLECTION_STATE_FILE:=text]> (files w)) = state') as Heq.
  { unfold saved_state. rewrite lookup_insert_eq. by rewrite (state_roundtrip _ _ Htext). }
  rewrite Heq. split_and!; [done|by right|]. intros name Hne. by rewrite lookup_insert_ne.
Qed.

(** ** Startup *)

(** When the task starts [left] seconds before its first tick, every configured
    remote that answers was then collected recently enough: until the tick, no more time
    passes since its last collection than the interval of ten minutes, or ten seconds
    more where it was collected just before the start. *)
Theorem startup_collects_overdue env remotes left state (cache : rrd) name remote :
  ce_remotes env = Ok remotes → config_ok remotes → lookup_remote remotes name = Some remote →
  left ≤ DEFAULT_COLLECTION_INTERVAL → ce_now env ≤ ce_start env name →
  (∀ start, ∃ metrics, ce_export env remote start = Ok metrics) →
  let last := default 0 ((run_start error_to_string env left state cache).1 !! name ≫= last_collection) in
  ce_now env + left - last < DEFAULT_COLLECTION_INTERVAL + MIN_COLLECTION_INTERVAL ∧
  (MIN_COLLECTION_INTERVAL ≤ ce_now env - default 0 (state !! name ≫= last_collection) →
   ce_now env + left - last ≤ DEFAULT_COLLECTION_INTERVAL).
Proof.
  intros Hcfg Hok Hl Hleft Hclock Hans. unfold run_start. rewrite Hcfg. unfold fetch_overdue. cbv zeta.
  rewrite fetch_remotes_lookup; [|done|].
  2: { eapply sublist_NoDup; [apply (co_distinct _ Hok)|]. clear. induction (remotes.*1) as [|x l IH]; simpl; [done|].
       destruct (_ >? _); [by apply sublist_skip|by apply sublist_cons]. }
  assert (name ∈ remotes.*1) as Hin by (by apply lookup_remote_Some).
  unfold DEFAULT_COLLECTION_INTERVAL, MIN_COLLECTION_INTERVAL in *.
  set (last0 := default 0 (state !! name ≫= last_collection)).
  assert (default 0 (last_collection (default default_status (state !! name))) = last0) as Hlast0.
  { unfold last0. by destruct (state !! name). }
  case_decide as Hover; rewrite list_elem_of_In, filter_In, <-list_elem_of_In in Hover.
  - destruct Hover as [_ Hover]. unfold next_status, recent_enough. cbv zeta. rewrite Hlast0. unfold MIN_COLLECTION_INTERVAL.
    destruct (ce_now env - last0 <? 10) eqn:Hrecent.
    + apply Z.ltb_lt in Hrecent. fold last0. lia.
    + rewrite Hl. unfold fetched. destruct (Hans (most_recent_datapoint (default default_status (state !! name)))) as [metrics ->].
      cbn. rewrite (co_ids _ Hok _ _ Hl). lia.
  - fold last0. destruct (ce_now env - last0 + left >? 600) eqn:Hgt; [by destruct Hover|].
    rewrite Z.gtb_ltb, Z.ltb_ge in Hgt. lia.
Qed.
End tick.

(** The first tick is at a multiple of the interval, and not later than it. *)
Lemma next_aligned_delay_spec seconds now : 0 < seconds →
  0 < next_aligned_delay seconds now ≤ seconds ∧ (now + next_aligned_delay seconds now) mod seconds = 0.
Proof.
  intros Hs. unfold next_aligned_delay. pose proof (Z.mod_pos_bound now seconds Hs). split; [lia|].
  pose proof (Z.div_mod now seconds). rewrite (Z.div_mod now seconds) at 1 by lia.
  replace (seconds * (now / seconds) + now mod seconds + (seconds - now mod seconds)) with ((now / seconds + 1) * seconds) by lia.
  by apply Z.mod_mul; lia.
Qed.

(** ** Concrete runs *)

Module MetricDemo.
#[local] Existing Instance RemotesDemo.auth.

#[local] Instance status_eq_dec : EqDecision RemoteStatus.
Proof. solve_decision. Defined.
#[local] Instance status_countable : Countable RemoteStatus.
Proof.
  refine (inj_countable' (λ s, (most_recent_datapoint s, last_collection s, rs_error s)) (λ '(m, l, e), mkRemoteStatus m l e) _).
  by intros [].
Defined.
#[local] Instance state_text : StateText := {|
  state_to_json s := Ok (bits (encode (A := gmap string RemoteStatus) s));
  state_from_json text := ok_or (decode (A := gmap string RemoteStatus) (of_bits text)) EInvalid;
|}.
#[local] Instance state_text_laws : StateTextLaws.
Proof. intros s text [= <-]. cbn. by rewrite of_bits_bits, decode_encode. Defined.

#[local] Existing Instance journal_rrd.
#[local] Instance demo_rrd_laws : RrdLaws.
Proof.
  refine (Build_RrdLaws _ (list update) (λ l name, List.filter (λ u, String.eqb u.1.1.1 name) l) _).
  intros name name' time value ty c Hne. cbn. rewrite List.filter_app. cbn.
  rewrite (proj2 (String.eqb_neq name name') Hne). apply app_nil_r.
Defined.

Definition no_updates : @rrd journal_rrd := [].

Definition remote (ty : RemoteType.t) (name : string) : string * Remote := (name, mkFullRemote ty name [] "root@pam!pdm"%string "" None).
Definition demo_remotes : list (string * Remote) := [remote RemoteType.Pve "a"; remote RemoteType.Pbs "b"; remote RemoteType.Pve "c"].

Lemma demo_config : config_ok demo_remotes.
Proof.
  split; [by vm_compute; repeat (constructor; [set_solver|]); constructor|].
  intros name r Hl. unfold lookup_remote in Hl. apply fmap_Some in Hl as ([k r']&Hf&->).
  apply find_some in Hf as [Hin Heq]. apply String.eqb_eq in Heq. subst k.
  assert (Forall (λ x, r_id x.2 = x.1) demo_remotes) as Hids by (by repeat constructor).
  apply list_elem_of_In in Hin. rewrite Forall_forall in Hids. exact (Hids _ Hin).
Qed.

(** [a] has a datapoint every hundred seconds, up to the given time; [b] fails, [c]
    has no metrics. *)
Definition point (t : Z) : MetricDataPoint := mkPoint "node/n1" "cpu_current" t MetricGauge (f64_of_i64 7).
Definition points (now : Z) : list MetricDataPoint := (λ n, point (100 * (Z.of_nat n + 1))) <$> seq 0 (Z.to_nat (now / 100)).
Definition demo_env (now : Z) : collect_env := mkCollect (Ok demo_remotes) now (λ _, now + 1)
  (λ r start, if String.eqb (r_id r) "b" then Err EIo else if String.eqb (r_id r) "c" then Ok []
              else Ok (List.filter (λ p, start <? dp_timestamp p) (points now)))
  (λ _, f64_of_i64 12) [2%nat; 1%nat] (now + 5) (f64_of_i64 5000).
Definition show (e : error) : string := "failed".
Definition tick (now : Z) : State * rrd → State * rrd := λ '(state, c), handle_tick show (demo_env now) state c.

Example first_tick :
  let '(state, c) := tick 1000 (∅, no_updates) in
  state !! "a"%string = Some (mkRemoteStatus 1000 (Some 1001) None) ∧
  state !! "b"%string = Some (mkRemoteStatus 0 None (Some "failed"%string)) ∧
  length c = 13%nat.
Proof. vm_compute. done. Qed.

(** An answer without new datapoints resets the time to which the metrics are known,
    and the next request asks for everything again. *)
Example answer_without_datapoints_resets_cursor :
  let '(state, c) := tick 1050 (tick 1000 (∅, no_updates)) in
  state !! "a"%string = Some (mkRemoteStatus 0 (Some 1051) None) ∧
  ce_export (demo_env 1100) (remote RemoteType.Pve "a").2 0 = Ok (points 1100).
Proof. vm_compute. done. Qed.

(** After the clock was set back nothing is collected until it has caught up. *)
Example clock_set_back_stops_collection :
  let '(state, c) := tick 1000 (∅, no_updates) in
  (tick 500 (state, c)).1 !! "a"%string = Some (mkRemoteStatus 1000 (Some 1001) None).
Proof. vm_compute. done. Qed.

Lemma elem_of_points p now : p ∈ points now ↔ ∃ n, (n < Z.to_nat (now / 100))%nat ∧ p = point (100 * (Z.of_nat n + 1)).
Proof.
  unfold points. rewrite list_elem_of_fmap. split.
  - intros (n&->&Hn%elem_of_seq). exists n. split; [lia|done].
  - intros (n&Hn&->). exists n. split; [done|]. apply elem_of_seq. lia.
Qed.

Lemma demo_in_order now n : in_order (demo_env now) "a" RemoteType.Pve (point (100 * (Z.of_nat n + 1))).
Proof.
  split.
  - intros remotes [= <-]. split; [exact demo_config|]. by intros r [= <-].
  - intros r start metrics Hr. cbn. rewrite Hr. cbn. intros [= <-] Hlt.
    destruct (decide (n < Z.to_nat (now / 100))%nat) as [Hn|Hn].
    + left. apply list_elem_of_In, filter_In. split; [apply list_elem_of_In, elem_of_points; by exists n|by apply Z.ltb_lt].
    + right. intros q Hq%list_elem_of_In. apply filter_In in Hq as [Hq _]. apply list_elem_of_In, elem_of_points in Hq as (m&Hm&->). cbn. lia.
Qed.

Definition history : list (collect_env * event) := [(demo_env 1000, Tick); (demo_env 2000, Message (Some "a"%string))].

(** The last datapoint, handed over by the second collection. *)
Lemma collections_miss_nothing_witness :
  recorded (run_events show history (∅, no_updates)).2 RemoteType.Pve "a" (point 2000).
Proof.
  assert (cursor (run_events show history (∅, no_updates)).1 "a" = 2000) as Hcur by (vm_compute; reflexivity).
  apply (collections_miss_nothing show "a" RemoteType.Pve (point 2000) history).
  - reflexivity.
  - apply Forall_cons. split; [exact (demo_in_order 1000 19)|]. apply Forall_cons. split; [exact (demo_in_order 2000 19)|by apply Forall_nil].
  - apply Z.eq_le_incl. symmetry. exact Hcur.
Defined.

(** Two nodes of a cluster: when the datapoint of the second node for the time 1000 is
    there, the metrics of the cluster are already known up to this time, and it is never
    asked for. *)
Definition late_point : MetricDataPoint := mkPoint "node/n2" "cpu_current" 1000 MetricGauge (f64_of_i64 9).
Definition late_env : collect_env := mkCollect (Ok demo_remotes) 1100 (λ _, 1101)
  (λ r start, Ok (if String.eqb (r_id r) "a" then List.filter (λ p, start <? dp_timestamp p) (late_point :: points 1100) else []))
  (λ _, f64_of_i64 12) [] 1105 (f64_of_i64 5000).
Example late_node_is_missed :
  let '(state, c) := run_events show [(demo_env 1000, Tick); (late_env, Tick)] (∅, no_updates) in
  late_point ∈ late_point :: points 1100 ∧ cursor state "a" = 1100 ∧
  List.existsb (λ u : update, String.eqb u.1.1.1 (metric_name "pve" "a" late_point)) c = false.
Proof. split; [set_solver|]. vm_compute. done. Qed.

Lemma tick_statuses_witness :
  (tick 1000 (∅, no_updates)).1 !! "b"%string = Some (mkRemoteStatus 0 None (Some "failed"%string)) ∧
  (tick 1000 (∅, no_updates)).1 !! "x"%string = None.
Proof.
  pose proof (tick_statuses show (demo_env 1000) ∅ no_updates) as Htick. cbn [ce_remotes demo_env] in Htick.
  split; (etransitivity; [apply Htick; intros remotes [= <-]; exact demo_config|vm_compute; reflexivity]).
Defined.

Lemma run_iteration_crash_safe_witness :
  let w := World ∅ [true] in
  ∃ w', run_iteration show (demo_env 1000) Tick ∅ no_updates w = (Ok (tick 1000 (∅, no_updates)), w') ∧ state_ok (saved_state (files w')).
Proof.
  intros w. destruct (run_iteration_crash_safe show (demo_env 1000) Tick ∅ no_updates w) as (w'&Hrun&_&Hok&_).
  - apply map_Forall_empty.
  - change (state_ok (∅ : State)). apply map_Forall_empty.
  - exists w'. split; [exact Hrun|exact Hok].
Defined.

(** [a] was last collected at 900, the next tick is in 400 seconds. *)
Definition all_answer (now : Z) : collect_env :=
  mkCollect (Ok demo_remotes) now (λ _, now + 1) (λ _ _, Ok []) (λ _, f64_of_i64 12) [] (now + 5) (f64_of_i64 5000).
Lemma startup_collects_overdue_witness :
  let state := {["a"%string := mkRemoteStatus 900 (Some 900) None]} in
  1200 + 400 - default 0 ((run_start show (all_answer 1200) 400 state no_updates).1 !! "a"%string ≫= last_collection) ≤ 600.
Proof.
  intros state.
  apply (startup_collects_overdue show (all_answer 1200) demo_remotes 400 state no_updates "a" (remote RemoteType.Pve "a").2 eq_refl demo_config eq_refl).
  - vm_compute. discriminate.
  - vm_compute. discriminate.
  - intros start. by exists [].
  - vm_compute. discriminate.
Defined.

Lemma store_isolated_witness :
  series (store_in_rrd (StorePve "a" [point 5] (f64_of_i64 1) 10) no_updates).2 "pve/b/node/n1/cpu_current" = series no_updates "pve/b/node/n1/cpu_current".
Proof.
  apply (store_isolated (StorePve "a" [point 5] (f64_of_i64 1) 10) no_updates "b" "pve/b/node/n1/cpu_current").
  - reflexivity.
  - intros r [= <-]. by split.
  - exact (series_pve "b" "node/n1/cpu_current").
Defined.
End MetricDemo.
