(* ===== verification/RrdData.v ===== *)
(** * Reading the round robin database

    Model of [extract_data] in [server/src/metric_collection/rrd_cache.rs], of
    [server/src/api/rrd_common.rs], of the data points of
    [lib/pdm-api-types/src/rrddata.rs], and of their use in
    [server/src/api/{pve,pbs}/rrddata.rs] and [server/src/api/remotes/mod.rs].

    A data point collects what the series of an object have for one time.  The trait
    [DataPoint] is a class; [DataPointSpec] states what the code relies on, with
    [dp_get] for reading a field by its name and [dp_known] for the fields that
    [set_field] knows.

    The database is not part of the repository: class [RrdRead] extracts a part of a
    series. *)

From S2P Require Import Prelude FileSystem MetricRrd.

Inductive RrdTimeframe : Type := Hour | Day | Week | Month | Year | Decade.
Inductive RrdMode : Type := RrdMax | RrdAverage.
Inductive AggregationFn : Type := AggMaximum | AggAverage.

#[export] Instance timeframe_eq_dec : EqDecision RrdTimeframe.
Proof. solve_decision. Defined.

(** [proxmox_rrd::Entry] *)
Record Entry : Type := mkEntry {
  en_start : Z;
  en_resolution : Z;
  en_data : list (option f64);
}.

(** Directory, name, aggregation, resolution, start and end. *)
Class RrdRead `{Rrd} :=
  extract_cached_data : rrd → string → string → AggregationFn → Z → Z → Z → result error (option Entry).

Definition start_and_resolution (timeframe : RrdTimeframe) (end_ : Z) : Z * Z :=
  match timeframe with
  | Hour => (end_ - 3600, 60)
  | Day => (end_ - 3600 * 24, 60)
  | Week => (end_ - 3600 * 24 * 7, 30 * 60)
  | Month => (end_ - 3600 * 24 * 30, 30 * 60)
  | Year => (end_ - 3600 * 24 * 365, 6 * 60 * 60)
  | Decade => (end_ - 10 * 3600 * 24 * 366, 7 * 86400)
  end.

Definition extract_data `{RrdRead} (now : Z) (cache : rrd) (basedir name : string) (timeframe : RrdTimeframe) (mode : RrdMode)
    : result error (option Entry) :=
  let '(start, resolution) := start_and_resolution timeframe now in
  let cf := match mode with RrdMax => AggMaximum | RrdAverage => AggAverage end in
  extract_cached_data cache basedir name cf resolution start now.

(** ** Data points *)

Class DataPoint (T : Type) := {
  dp_new : Z → T;
  dp_fields : list string;
  dp_set_field : T → string → f64 → T;
}.

Section datapoints.
Context {T : Type} `{DataPoint T}.

(** The loop over the values of one series. *)
Fixpoint fill (name : string) (t resolution : Z) (data : list (option f64)) (timemap : gmap Z T) : gmap Z T :=
  match data with
  | [] => timemap
  | value :: data =>
      let entry := default (dp_new t) (timemap !! t) in
      let entry := match value with Some value => dp_set_field entry name value | None => entry end in
      fill name (t + resolution) resolution data (<[t := entry]> timemap)
  end.

(** The loop over the fields. *)
Fixpoint fill_fields (extract : string → result error (option Entry)) (fields : list string) (last_resolution : option Z)
    (timemap : gmap Z T) : result error (gmap Z T) :=
  match fields with
  | [] => Ok timemap
  | name :: fields =>
      r ← extract name;
      match r with
      | None => fill_fields extract fields last_resolution timemap
      | Some e =>
          last_resolution ←
            match last_resolution with
            | Some expected_resolution =>
                if en_resolution e =? expected_resolution then Ok (Some expected_resolution)
                else Err (EMsg "got unexpected RRD resolution")
            | None => Ok (Some (en_resolution e))
            end;
          fill_fields extract fields last_resolution (fill name (en_start e) (en_resolution e) (en_data e) timemap)
      end
  end.

Definition create_datapoints_from_rrd `{RrdRead} (now : Z) (cache : rrd) (basedir : string) (timeframe : RrdTimeframe) (mode : RrdMode)
    : result error (list T) :=
  timemap ← fill_fields (λ name, extract_data now cache basedir name timeframe mode) dp_fields None ∅;
  Ok (snd <$> sort_by (cmp_on fst Z.compare) (map_to_list timemap)).

(** [collect] is the collection of the metrics of a remote that is waited for, up to
    five seconds. *)
Definition get_rrd_datapoints `{RrdRead} (collect : string → rrd → rrd) (now : Z) (cache : rrd) (remote basepath : string)
    (timeframe : RrdTimeframe) (mode : RrdMode) : result error (list T) :=
  let cache := if decide (timeframe = Hour) then collect remote cache else cache in
  create_datapoints_from_rrd now cache basepath timeframe mode.
End datapoints.

(** ** The objects *)

Record NodeDataPoint : Type := mkNodeDataPoint {
  nd_time : Z;
  nd_cpu_current : option f64;
  nd_cpu_iowait : option f64;
  nd_cpu_avg1 : option f64;
  nd_cpu_avg5 : option f64;
  nd_cpu_avg15 : option f64;
  nd_cpu_max : option f64;
  nd_disk_total : option f64;
  nd_disk_used : option f64;
  nd_swap_total : option f64;
  nd_swap_used : option f64;
  nd_mem_total : option f64;
  nd_mem_used : option f64;
  nd_net_in : option f64;
  nd_net_out : option f64;
  nd_uptime : option f64;
}.
Definition NodeDataPoint_fields : list string :=
  ["cpu_current"; "cpu_iowait"; "cpu_max"; "cpu_avg1"; "cpu_avg5"; "cpu_avg15"; "disk_total"; "disk_used"; "mem_total"; "mem_used"; "swap_total"; "swap_used"; "net_in"; "net_out"; "uptime"]%string.
Definition NodeDataPoint_set_field (self : NodeDataPoint) (name : string) (value : f64) : NodeDataPoint :=
  mkNodeDataPoint (nd_time self)
    (if String.eqb name "cpu_current" then Some value else nd_cpu_current self)
    (if String.eqb name "cpu_iowait" then Some value else nd_cpu_iowait self)
    (if String.eqb name "cpu_avg1" then Some value else nd_cpu_avg1 self)
    (if String.eqb name "cpu_avg5" then Some value else nd_cpu_avg5 self)
    (if String.eqb name "cpu_avg15" then Some value else nd_cpu_avg15 self)
    (if String.eqb name "cpu_max" then Some value else nd_cpu_max self)
    (if String.eqb name "disk_total" then Some value else nd_disk_total self)
    (if String.eqb name "disk_used" then Some value else nd_disk_used self)
    (if String.eqb name "swap_total" then Some value else nd_swap_total self)
    (if String.eqb name "swap_used" then Some value else nd_swap_used self)
    (if String.eqb name "mem_total" then Some value else nd_mem_total self)
    (if String.eqb name "mem_used" then Some value else nd_mem_used self)
    (if String.eqb name "net_in" then Some value else nd_net_in self)
    (if String.eqb name "net_out" then Some value else nd_net_out self)
    (if String.eqb name "uptime" then Some value else nd_uptime self).
Definition NodeDataPoint_get (self : NodeDataPoint) (name : string) : option f64 :=
  if String.eqb name "cpu_current" then nd_cpu_current self else
  if String.eqb name "cpu_iowait" then nd_cpu_iowait self else
  if String.eqb name "cpu_avg1" then nd_cpu_avg1 self else
  if String.eqb name "cpu_avg5" then nd_cpu_avg5 self else
  if String.eqb name "cpu_avg15" then nd_cpu_avg15 self else
  if String.eqb name "cpu_max" then nd_cpu_max self else
  if String.eqb name "disk_total" then nd_disk_total self else
  if String.eqb name "disk_used" then nd_disk_used self else
  if String.eqb name "swap_total" then nd_swap_total self else
  if String.eqb name "swap_used" then nd_swap_used self else
  if String.eqb name "mem_total" then nd_mem_total self else
  if String.eqb name "mem_used" then nd_mem_used self else
  if String.eqb name "net_in" then nd_net_in self else
  if String.eqb name "net_out" then nd_net_out self else
  if String.eqb name "uptime" then nd_uptime self else
  None.
#[export] Instance NodeDataPoint_DataPoint : DataPoint NodeDataPoint := {|
  dp_new time := mkNodeDataPoint time None None None None None None None None None None None None None None None;
  dp_fields := NodeDataPoint_fields;
  dp_set_field := NodeDataPoint_set_field;
|}.

Record QemuDataPoint : Type := mkQemuDataPoint {
  qd_time : Z;
  qd_cpu_current : option f64;
  qd_cpu_max : option f64;
  qd_disk_read : option f64;
  qd_disk_write : option f64;
  qd_disk_total : option f64;
  qd_mem_total : option f64;
  qd_mem_used : option f64;
  qd_net_in : option f64;
  qd_net_out : option f64;
  qd_uptime : option f64;
}.
Definition QemuDataPoint_fields : list string :=
  ["cpu_current"; "cpu_max"; "disk_read"; "disk_write"; "disk_total"; "mem_total"; "mem_used"; "net_in"; "net_out"; "uptime"]%string.
Definition QemuDataPoint_set_field (self : QemuDataPoint) (name : string) (value : f64) : QemuDataPoint :=
  mkQemuDataPoint (qd_time self)
    (if String.eqb name "cpu_current" then Some value else qd_cpu_current self)
    (if String.eqb name "cpu_max" then Some value else qd_cpu_max self)
    (if String.eqb name "disk_read" then Some value else qd_disk_read self)
    (if String.eqb name "disk_write" then Some value else qd_disk_write self)
    (if String.eqb name "disk_total" then Some value else qd_disk_total self)
    (if String.eqb name "mem_total" then Some value else qd_mem_total self)
    (if String.eqb name "mem_used" then Some value else qd_mem_used self)
    (if String.eqb name "net_in" then Some value else qd_net_in self)
    (if String.eqb name "net_out" then Some value else qd_net_out self)
    (if String.eqb name "uptime" then Some value else qd_uptime self).
Definition QemuDataPoint_get (self : QemuDataPoint) (name : string) : option f64 :=
  if String.eqb name "cpu_current" then qd_cpu_current self else
  if String.eqb name "cpu_max" then qd_cpu_max self else
  if String.eqb name "disk_read" then qd_disk_read self else
  if String.eqb name "disk_write" then qd_disk_write self else
  if String.eqb name "disk_total" then qd_disk_total self else
  if String.eqb name "mem_total" then qd_mem_total self else
  if String.eqb name "mem_used" then qd_mem_used self else
  if String.eqb name "net_in" then qd_net_in self else
  if String.eqb name "net_out" then qd_net_out self else
  if String.eqb name "uptime" then qd_uptime self else
  None.
#[export] Instance QemuDataPoint_DataPoint : DataPoint QemuDataPoint := {|
  dp_new time := mkQemuDataPoint time None None None None None None None None None None;
  dp_fields := QemuDataPoint_fields;
  dp_set_field := QemuDataPoint_set_field;
|}.

Record LxcDataPoint : Type := mkLxcDataPoint {
  ld_time : Z;
  ld_cpu_current : option f64;
  ld_cpu_max : option f64;
  ld_disk_read : option f64;
  ld_disk_write : option f64;
  ld_disk_total : option f64;
  ld_disk_used : option f64;
  ld_mem_total : option f64;
  ld_mem_used : option f64;
  ld_net_in : option f64;
  ld_net_out : option f64;
  ld_uptime : option f64;
}.
Definition LxcDataPoint_fields : list string :=
  ["cpu_current"; "cpu_max"; "disk_read"; "disk_write"; "disk_total"; "disk_used"; "mem_total"; "mem_used"; "net_in"; "net_out"; "uptime"]%string.
Definition LxcDataPoint_set_field (self : LxcDataPoint) (name : string) (value : f64) : LxcDataPoint :=
  mkLxcDataPoint (ld_time self)
    (if String.eqb name "cpu_current" then Some value else ld_cpu_current self)
    (if String.eqb name "cpu_max" then Some value else ld_cpu_max self)
    (if String.eqb name "disk_read" then Some value else ld_disk_read self)
    (if String.eqb name "disk_write" then Some value else ld_disk_write self)
    (if String.eqb name "disk_total" then Some value else ld_disk_total self)
    (if String.eqb name "disk_used" then Some value else ld_disk_used self)
    (if String.eqb name "mem_total" then Some value else ld_mem_total self)
    (if String.eqb name "mem_used" then Some value else ld_mem_used self)
    (if String.eqb name "net_in" then Some value else ld_net_in self)
    (if String.eqb name "net_out" then Some value else ld_net_out self)
    (if String.eqb name "uptime" then Some value else ld_uptime self).
Definition LxcDataPoint_get (self : LxcDataPoint) (name : string) : option f64 :=
  if String.eqb name "cpu_current" then ld_cpu_current self else
  if String.eqb name "cpu_max" then ld_cpu_max self else
  if String.eqb name "disk_read" then ld_disk_read self else
  if String.eqb name "disk_write" then ld_disk_write self else
  if String.eqb name "disk_total" then ld_disk_total self else
  if String.eqb name "disk_used" then ld_disk_used self else
  if String.eqb name "mem_total" then ld_mem_total self else
  if String.eqb name "mem_used" then ld_mem_used self else
  if String.eqb name "net_in" then ld_net_in self else
  if String.eqb name "net_out" then ld_net_out self else
  if String.eqb name "uptime" then ld_uptime self else
  None.
#[export] Instance LxcDataPoint_DataPoint : DataPoint LxcDataPoint := {|
  dp_new time := mkLxcDataPoint time None None None None None None None None None None None;
  dp_fields := LxcDataPoint_fields;
  dp_set_field := LxcDataPoint_set_field;
|}.

Record PveStorageDataPoint : Type := mkPveStorageDataPoint {
  sd_time : Z;
  sd_disk_total : option f64;
  sd_disk_used : option f64;
}.
Definition PveStorageDataPoint_fields : list string :=
  ["disk_total"; "disk_used"]%string.
Definition PveStorageDataPoint_set_field (self : PveStorageDataPoint) (name : string) (value : f64) : PveStorageDataPoint :=
  mkPveStorageDataPoint (sd_time self)
    (if String.eqb name "disk_total" then Some value else sd_disk_total self)
    (if String.eqb name "disk_used" then Some value else sd_disk_used self).
Definition PveStorageDataPoint_get (self : PveStorageDataPoint) (name : string) : option f64 :=
  if String.eqb name "disk_total" then sd_disk_total self else
  if String.eqb name "disk_used" then sd_disk_used self else
  None.
#[export] Instance PveStorageDataPoint_DataPoint : DataPoint PveStorageDataPoint := {|
  dp_new time := mkPveStorageDataPoint time None None;
  dp_fields := PveStorageDataPoint_fields;
  dp_set_field := PveStorageDataPoint_set_field;
|}.

Record PbsNodeDataPoint : Type := mkPbsNodeDataPoint {
  pd_time : Z;
  pd_cpu_current : option f64;
  pd_cpu_iowait : option f64;
  pd_cpu_avg1 : option f64;
  pd_cpu_avg5 : option f64;
  pd_cpu_avg15 : option f64;
  pd_disk_total : option f64;
  pd_disk_used : option f64;
  pd_disk_available : option f64;
  pd_disk_read : option f64;
  pd_disk_write : option f64;
  pd_swap_total : option f64;
  pd_swap_used : option f64;
  pd_mem_total : option f64;
  pd_mem_used : option f64;
  pd_net_in : option f64;
  pd_net_out : option f64;
}.
Definition PbsNodeDataPoint_fields : list string :=
  ["cpu_current"; "cpu_iowait"; "cpu_avg1"; "cpu_avg5"; "cpu_avg15"; "disk_total"; "disk_used"; "disk_read"; "disk_write"; "mem_total"; "mem_used"; "swap_total"; "swap_used"; "net_in"; "net_out"]%string.
Definition PbsNodeDataPoint_set_field (self : PbsNodeDataPoint) (name : string) (value : f64) : PbsNodeDataPoint :=
  mkPbsNodeDataPoint (pd_time self)
    (if String.eqb name "cpu_current" then Some value else pd_cpu_current self)
    (if String.eqb name "cpu_iowait" then Some value else pd_cpu_iowait self)
    (if String.eqb name "cpu_avg1" then Some value else pd_cpu_avg1 self)
    (if String.eqb name "cpu_avg5" then Some value else pd_cpu_avg5 self)
    (if String.eqb name "cpu_avg15" then Some value else pd_cpu_avg15 self)
    (if String.eqb name "disk_total" then Some value else pd_disk_total self)
    (if String.eqb name "disk_used" then Some value else pd_disk_used self)
    (pd_disk_available self)
    (pd_disk_read self)
    (pd_disk_write self)
    (if String.eqb name "swap_total" then Some value else pd_swap_total self)
    (if String.eqb name "swap_used" then Some value else pd_swap_used self)
    (if String.eqb name "mem_total" then Some value else pd_mem_total self)
    (if String.eqb name "mem_used" then Some value else pd_mem_used self)
    (if String.eqb name "net_in" then Some value else pd_net_in self)
    (if String.eqb name "net_out" then Some value else pd_net_out self).
Definition PbsNodeDataPoint_get (self : PbsNodeDataPoint) (name : string) : option f64 :=
  if String.eqb name "cpu_current" then pd_cpu_current self else
  if String.eqb name "cpu_iowait" then pd_cpu_iowait self else
  if String.eqb name "cpu_avg1" then pd_cpu_avg1 self else
  if String.eqb name "cpu_avg5" then pd_cpu_avg5 self else
  if String.eqb name "cpu_avg15" then pd_cpu_avg15 self else
  if String.eqb name "disk_total" then pd_disk_total self else
  if String.eqb name "disk_used" then pd_disk_used self else
  if String.eqb name "disk_available" then pd_disk_available self else
  if String.eqb name "disk_read" then pd_disk_read self else
  if String.eqb name "disk_write" then pd_disk_write self else
  if String.eqb name "swap_total" then pd_swap_total self else
  if String.eqb name "swap_used" then pd_swap_used self else
  if String.eqb name "mem_total" then pd_mem_total self else
  if String.eqb name "mem_used" then pd_mem_used self else
  if String.eqb name "net_in" then pd_net_in self else
  if String.eqb name "net_out" then pd_net_out self else
  None.
#[export] Instance PbsNodeDataPoint_DataPoint : DataPoint PbsNodeDataPoint := {|
  dp_new time := mkPbsNodeDataPoint time None None None None None None None None None None None None None None None None;
  dp_fields := PbsNodeDataPoint_fields;
  dp_set_field := PbsNodeDataPoint_set_field;
|}.

Record PbsDatastoreDataPoint : Type := mkPbsDatastoreDataPoint {
  dd_time : Z;
  dd_disk_total : option f64;
  dd_disk_used : option f64;
  dd_disk_available : option f64;
  dd_disk_read : option f64;
  dd_disk_write : option f64;
}.
Definition PbsDatastoreDataPoint_fields : list string :=
  ["disk_total"; "disk_used"; "disk_available"; "disk_read"; "disk_write"]%string.
Definition PbsDatastoreDataPoint_set_field (self : PbsDatastoreDataPoint) (name : string) (value : f64) : PbsDatastoreDataPoint :=
  mkPbsDatastoreDataPoint (dd_time self)
    (if String.eqb name "disk_total" then Some value else dd_disk_total self)
    (if String.eqb name "disk_used" then Some value else dd_disk_used self)
    (if String.eqb name "disk_available" then Some value else dd_disk_available self)
    (if String.eqb name "disk_read" then Some value else dd_disk_read self)
    (if String.eqb name "disk_write" then Some value else dd_disk_write self).
Definition PbsDatastoreDataPoint_get (self : PbsDatastoreDataPoint) (name : string) : option f64 :=
  if String.eqb name "disk_total" then dd_disk_total self else
  if String.eqb name "disk_used" then dd_disk_used self else
  if String.eqb name "disk_available" then dd_disk_available self else
  if String.eqb name "disk_read" then dd_disk_read self else
  if String.eqb name "disk_write" then dd_disk_write self else
  None.
#[export] Instance PbsDatastoreDataPoint_DataPoint : DataPoint PbsDatastoreDataPoint := {|
  dp_new time := mkPbsDatastoreDataPoint time None None None None None;
  dp_fields := PbsDatastoreDataPoint_fields;
  dp_set_field := PbsDatastoreDataPoint_set_field;
|}.

Record RemoteDatapoint : Type := mkRemoteDatapoint { rd_time : Z; rd_metric_collection_response_time : option f64 }.
Definition RemoteDatapoint_fields : list string := ["metric-collection-response-time"%string].
Definition RemoteDatapoint_set_field (self : RemoteDatapoint) (name : string) (value : f64) : RemoteDatapoint :=
  mkRemoteDatapoint (rd_time self)
    (if String.eqb name "metric-collection-response-time" then Some value else rd_metric_collection_response_time self).
Definition RemoteDatapoint_get (self : RemoteDatapoint) (name : string) : option f64 :=
  if String.eqb name "metric-collection-response-time" then rd_metric_collection_response_time self else None.
#[export] Instance RemoteDatapoint_DataPoint : DataPoint RemoteDatapoint := {|
  dp_new time := mkRemoteDatapoint time None;
  dp_fields := RemoteDatapoint_fields;
  dp_set_field := RemoteDatapoint_set_field;
|}.

Section handlers.
Context `{RrdRead} (collect : string → rrd → rrd) (now : Z) (cache : rrd) (remote : string) (timeframe : RrdTimeframe) (cf : RrdMode).

Definition get_qemu_rrd_data (vmid : Z) : result error (list QemuDataPoint) :=
  get_rrd_datapoints collect now cache remote ("pve/" +:+ remote +:+ "/qemu/" +:+ show_Z vmid) timeframe cf.
Definition get_lxc_rrd_data (vmid : Z) : result error (list LxcDataPoint) :=
  get_rrd_datapoints collect now cache remote ("pve/" +:+ remote +:+ "/lxc/" +:+ show_Z vmid) timeframe cf.
Definition get_node_rrd_data (node : string) : result error (list NodeDataPoint) :=
  get_rrd_datapoints collect now cache remote ("pve/" +:+ remote +:+ "/node/" +:+ node) timeframe cf.
Definition get_storage_rrd_data (node storage : string) : result error (list PveStorageDataPoint) :=
  get_rrd_datapoints collect now cache remote ("pve/" +:+ remote +:+ "/storage/" +:+ node +:+ "/" +:+ storage) timeframe cf.
Definition get_pbs_node_rrd_data : result error (list PbsNodeDataPoint) :=
  get_rrd_datapoints collect now cache remote ("pbs/" +:+ remote +:+ "/host") timeframe cf.
Definition get_pbs_datastore_rrd_data (datastore : string) : result error (list PbsDatastoreDataPoint) :=
  get_rrd_datapoints collect now cache remote ("pbs/" +:+ remote +:+ "/datastore/" +:+ datastore) timeframe cf.
Definition get_per_remote_rrd_data : result error (list RemoteDatapoint) :=
  create_datapoints_from_rrd now cache ("remotes/" +:+ remote) timeframe cf.
End handlers.
