(* ===== verification/RrdSpec.v ===== *)
(** * What is read from the round robin database

    The data points that [create_datapoints_from_rrd] returns are exactly the samples
    of the series of the object, one point per time; the interface that the objects
    have to provide for it, which all but one do for every field. *)

From S2P Require Import Prelude FileSystem MetricRrd RrdData.

(** Reading a field by its name, and the laws of [set_field]. *)
Class DataPointSpec (T : Type) `{DataPoint T} := {
  dp_time : T → Z;
  dp_get : T → string → option f64;
  dp_known : list string;
  dp_fields_NoDup : NoDup dp_fields;
  dp_time_new t : dp_time (dp_new t) = t;
  dp_time_set p n v : dp_time (dp_set_field p n v) = dp_time p;
  dp_get_new t n : dp_get (dp_new t) n = None;
  dp_get_set p n v : n ∈ dp_known → dp_get (dp_set_field p n v) n = Some v;
  dp_get_set_other p n n' v : n ≠ n' → dp_get (dp_set_field p n v) n' = dp_get p n';
}.

(** The value of a series at a time. *)
Definition slot (start resolution t : Z) : option nat :=
  if bool_decide (start ≤ t ∧ (t - start) mod resolution = 0) then Some (Z.to_nat ((t - start) / resolution)) else None.
Definition sample_at (e : Entry) (t : Z) : option (option f64) :=
  slot (en_start e) (en_resolution e) t ≫= (en_data e !!.).
Definition sample (e : option Entry) (t : Z) : option f64 := e ≫= λ e, mjoin (sample_at e t).

Lemma slot_start start r : slot start r start = Some 0%nat.
Proof. unfold slot. rewrite bool_decide_true; rewrite ?Z.sub_diag; [done|]. split; [lia|]. by rewrite Zmod_0_l. Qed.

Lemma slot_next start r t : 0 < r →
  slot start r t = if bool_decide (t = start) then Some 0%nat else S <$> slot (start + r) r t.
Proof.
  intros Hr. case_bool_decide as Ht; [subst; apply slot_start|]. unfold slot.
  replace (t - (start + r)) with (t - start + (-1) * r) by lia. rewrite Z_mod_plus_full, Z.div_add by lia.
  destruct (decide (start ≤ t ∧ (t - start) mod r = 0)) as [[Hle Hmod]|Hno].
  - assert (start + r ≤ t) as Hle'.
    { apply Z.mod_divide in Hmod as [k Hk]; [|lia]. assert (k ≠ 0) by (intros ->; lia). nia. }
    rewrite !bool_decide_true by done. cbn [fmap option_fmap option_map]. f_equal.
    assert (1 ≤ (t - start) / r) by (apply Z.div_le_lower_bound; lia). lia.
  - rewrite (bool_decide_false (start ≤ t ∧ _)) by done. rewrite bool_decide_false; [done|]. intros [? ?]. apply Hno. split; [lia|done].
Qed.

Section spec.
Context {T : Type} `{DataPointSpec T}.
Implicit Types (m : gmap Z T) (p : T).

Definition put (name : string) (value : option f64) (p : T) : T :=
  match value with Some value => dp_set_field p name value | None => p end.

Lemma fill_lookup name r data t : 0 < r → ∀ start m,
  fill name start r data m !! t =
  match slot start r t ≫= (data !!.) with
  | Some value => Some (put name value (default (dp_new t) (m !! t)))
  | None => m !! t
  end.
Proof.
  intros Hr. induction data as [|value data IH]; intros start m; cbn [fill].
  { by destruct (slot start r t). }
  rewrite IH, (slot_next start r t Hr). case_bool_decide as Ht.
  - subst t. cbn [mbind option_bind lookup list_lookup]. destruct (slot (start + r) r start) as [n|] eqn:Hs.
    + exfalso. unfold slot in Hs. case_bool_decide as Hd; [lia|done].
    + cbn [mbind option_bind]. rewrite lookup_insert_eq. done.
  - destruct (slot (start + r) r t) as [n|]; cbn [mbind option_bind fmap option_fmap option_map lookup list_lookup].
    + rewrite lookup_insert_ne by done. done.
    + by rewrite lookup_insert_ne.
Qed.

(** What the fields that were read so far have left. *)
Record filled (extract : string → result error (option Entry)) (done_ : list string) m : Prop := {
  fi_time t p : m !! t = Some p → dp_time p = t;
  fi_points t : is_Some (m !! t) ↔ ∃ name e, name ∈ done_ ∧ extract name = Ok (Some e) ∧ is_Some (sample_at e t);
  fi_values t p name e : m !! t = Some p → name ∈ done_ → name ∈ dp_known → extract name = Ok e → dp_get p name = sample e t;
  fi_other t p name : m !! t = Some p → name ∉ done_ → dp_get p name = None;
}.

Lemma put_time name v p : dp_time (put name v p) = dp_time p.
Proof. destruct v; [apply dp_time_set|done]. Qed.
Lemma put_other name v p n : name ≠ n → dp_get (put name v p) n = dp_get p n.
Proof. intros Hn. destruct v; [by apply dp_get_set_other|done]. Qed.

Lemma fill_filled extract done_ name e m :
  0 < en_resolution e → name ∉ done_ → extract name = Ok (Some e) → filled extract done_ m →
  filled extract (name :: done_) (fill name (en_start e) (en_resolution e) (en_data e) m).
Proof.
  intros Hr Hname He [Ht Hp Hv Ho].
  assert (∀ t, fill name (en_start e) (en_resolution e) (en_data e) m !! t =
    match sample_at e t with Some value => Some (put name value (default (dp_new t) (m !! t))) | None => m !! t end) as Hl
    by (intros t; by apply fill_lookup).
  assert (∀ t, dp_get (default (dp_new t) (m !! t)) name = None) as Hnone.
  { intros t. destruct (m !! t) as [p|] eqn:Hm; [by apply (Ho t)|apply dp_get_new]. }
  split.
  - intros t p. rewrite Hl. destruct (sample_at e t) as [value|]; [|apply Ht]. intros [= <-]. rewrite put_time.
    destruct (m !! t) as [p|] eqn:Hm; [by apply Ht|apply dp_time_new].
  - intros t. rewrite Hl. destruct (sample_at e t) as [value|] eqn:Hs.
    + split; [|done]. intros _. exists name, e. split; [by left|]. split; [done|by rewrite Hs].
    + rewrite Hp. split.
      * intros (n&e'&Hn&?&?). exists n, e'. split_and!; [by right|done..].
      * intros (n&e'&[->|Hn]%elem_of_cons&He'&Hs'); [|by exists n, e'].
        rewrite He in He'. injection He' as <-. rewrite Hs in Hs'. by destruct Hs'.
  - intros t p n e' Hm Hn Hk He'. rewrite Hl in Hm. apply elem_of_cons in Hn as [->|Hn].
    + rewrite He in He'. injection He' as <-. unfold sample. cbn [mbind option_bind].
      destruct (sample_at e t) as [[value|]|] eqn:Hs; cbn [mjoin option_join].
      * injection Hm as <-. by apply dp_get_set.
      * injection Hm as <-. apply Hnone.
      * rewrite <-(Hnone t), Hm. done.
    + assert (name ≠ n) as Hne by (intros ->; done).
      destruct (sample_at e t) as [value|] eqn:Hs; [|by apply (Hv t)]. injection Hm as <-. rewrite put_other by done.
      destruct (m !! t) as [p|] eqn:Hm; [by apply (Hv t)|]. cbn [default]. rewrite dp_get_new.
      destruct e' as [e'|]; [|done]. unfold sample. cbn [mbind option_bind]. destruct (sample_at e' t) eqn:Hs'; [|done].
      exfalso. assert (is_Some (m !! t)) as [? ?]; [|congruence]. apply Hp. exists n, e'. by rewrite Hs'.
  - intros t p n Hm [Hne Hn]%not_elem_of_cons. rewrite Hl in Hm.
    destruct (sample_at e t) as [value|]; [|by apply (Ho t)]. injection Hm as <-. rewrite put_other by done.
    destruct (m !! t) as [p|] eqn:Hm; [by apply (Ho t)|apply dp_get_new].
Qed.

(** The resolution that the series have to have. *)
Definition resolution_of (extract : string → result error (option Entry)) (fields : list string) (last_resolution : option Z) (r : Z) : Prop :=
  last_resolution = Some r ∨ ∃ name e, name ∈ fields ∧ extract name = Ok (Some e) ∧ en_resolution e = r.

Lemma filled_none extract done_ name m :
  name ∉ done_ → extract name = Ok None → filled extract done_ m → filled extract (name :: done_) m.
Proof.
  intros Hname He [Ht Hp Hv Ho]. split; [done| | |].
  - intros t. rewrite Hp. split; intros (n&e&Hn&Hx&?).
    + exists n, e. split_and!; [by right|done..].
    + apply elem_of_cons in Hn as [->|Hn]; [congruence|]. by exists n, e.
  - intros t p n e Hm [->|Hn]%elem_of_cons Hk Hx; [|by apply (Hv t)].
    rewrite He in Hx. injection Hx as <-. by apply (Ho t).
  - intros t p n Hm [_ Hn]%not_elem_of_cons. by apply (Ho t).
Qed.

Lemma fill_fields_filled extract fields : ∀ last_resolution done_ m m',
  (∀ name e, extract name = Ok (Some e) → 0 < en_resolution e) →
  NoDup fields → (∀ name, name ∈ fields → name ∉ done_) → filled extract done_ m →
  fill_fields extract fields last_resolution m = Ok m' → filled extract (reverse fields ++ done_) m'.
Proof.
  induction fields as [|name fields IH]; intros lr done_ m m' Hr Hnd Hdis Hf; cbn [fill_fields].
  { by intros [= <-]. }
  apply NoDup_cons in Hnd as [Hname Hnd]. intros Hrun. rewrite reverse_cons, <-app_assoc.
  assert (∀ n, n ∈ fields → n ∉ name :: done_) as Hdis'.
  { intros n Hn [->|Hd]%elem_of_cons; [done|]. apply (Hdis n); [by right|done]. }
  assert (name ∉ done_) as Hnew by (apply Hdis; by left).
  apply bind_Ok_inv in Hrun as (oe&He&Hrun). destruct oe as [e|].
  - apply bind_Ok_inv in Hrun as (lr'&_&Hrun). eapply IH; [done|done|exact Hdis'| |exact Hrun].
    apply fill_filled; [by eapply Hr|done..].
  - eapply IH; [done|done|exact Hdis'| |exact Hrun]. by apply filled_none.
Qed.

Lemma resolution_of_cons extract name fields lr r :
  resolution_of extract fields lr r → resolution_of extract (name :: fields) lr r.
Proof. intros [?|(n&e&Hn&?&?)]; [by left|]. right. exists n, e. split_and!; [by right|done..]. Qed.

Lemma fill_fields_error extract fields : ∀ last_resolution m err,
  fill_fields extract fields last_resolution m = Err err →
  (∃ name, name ∈ fields ∧ extract name = Err err) ∨
  ∃ r r', r ≠ r' ∧ resolution_of extract fields last_resolution r ∧ resolution_of extract fields last_resolution r'.
Proof.
  induction fields as [|name fields IH]; intros lr m err; cbn [fill_fields]; [done|].
  assert (∀ lr', (∀ r, lr' = Some r → resolution_of extract (name :: fields) lr r) →
    (∃ n, n ∈ fields ∧ extract n = Err err) ∨
    (∃ r r', r ≠ r' ∧ resolution_of extract fields lr' r ∧ resolution_of extract fields lr' r') →
    (∃ n, n ∈ name :: fields ∧ extract n = Err err) ∨
    ∃ r r', r ≠ r' ∧ resolution_of extract (name :: fields) lr r ∧ resolution_of extract (name :: fields) lr r') as Hweaken.
  { intros lr' Hlr [(n&Hn&?)|(r&r'&Hne&Hr1&Hr2)]; [left; exists n; split; [by right|done]|]. right. exists r, r'.
    assert (∀ x, resolution_of extract fields lr' x → resolution_of extract (name :: fields) lr x) as Hx.
    { intros x [Hx|(n&e&Hn&?&?)]; [by apply Hlr|]. right. exists n, e. split_and!; [by right|done..]. }
    split_and!; [done|by apply Hx..]. }
  destruct (extract name) as [[e|]|err'] eqn:He; cbn [mbind result_bind].
  - assert (resolution_of extract (name :: fields) lr (en_resolution e)) as Hre by (right; exists name, e; split_and!; [by left|done..]).
    destruct lr as [r|]; cbn [mbind result_bind].
    + destruct (Z.eqb_spec (en_resolution e) r) as [Heq|Hne]; cbn [mbind result_bind].
      * intros Hrun. apply (Hweaken (Some r)); [intros ? [= <-]; by left|]. by apply (IH _ _ _ Hrun).
      * intros [= <-]. right. exists (en_resolution e), r. split_and!; [done..|by left].
    + intros Hrun. apply (Hweaken (Some (en_resolution e))); [by intros ? [= <-]|]. by apply (IH _ _ _ Hrun).
  - intros Hrun. apply (Hweaken lr); [by left|]. by apply (IH _ _ _ Hrun).
  - intros [= ->]. left. exists name. split; [by left|done].
Qed.

Lemma filled_empty extract : filled extract [] ∅.
Proof.
  split; try (intros; by rewrite lookup_empty in * ).
  intros t. rewrite lookup_empty. split; [by intros [? ?]|]. by intros (n&e&?%elem_of_nil&_).
Qed.

Lemma sorted_keys {B} (l : list (Z * B)) :
  StronglySorted (cle (cmp_on fst Z.compare)) l → NoDup l.*1 → StronglySorted Z.lt l.*1.
Proof.
  induction 1 as [|[k b] l Hl IH Hx]; [constructor|]. rewrite fmap_cons. intros [Hk Hnd]%NoDup_cons.
  constructor; [by apply IH|]. apply Forall_forall. intros k' ([? b']&->&Hin)%list_elem_of_fmap. cbn.
  rewrite Forall_forall in Hx. specialize (Hx _ Hin). unfold cle, cmp_on in Hx. cbn in Hx.
  assert (k ≠ z) by (intros ->; apply Hk; by apply (list_elem_of_fmap_2 fst) in Hin).
  destruct (Z.compare_spec k z); [done|done|congruence].
Qed.

(** C30: The data points that are read for an object are exactly the samples of its
    series: there is one point for every time for which some series has a slot, in
    ascending order of the times, and it has, for every field that the object knows, the
    value of the series of this name at this time, if there is one.  Reading fails only
    if a series cannot be read or two series have different resolutions. *)
Theorem datapoints_are_samples `{RrdRead} now cache basedir timeframe mode :
  let extract name := extract_data now cache basedir name timeframe mode in
  (∀ name e, extract name = Ok (Some e) → 0 < en_resolution e) →
  match create_datapoints_from_rrd (T := T) now cache basedir timeframe mode with
  | Ok l =>
      StronglySorted Z.lt (dp_time <$> l) ∧
      (∀ t, t ∈ dp_time <$> l ↔ ∃ name e, name ∈ dp_fields ∧ extract name = Ok (Some e) ∧ is_Some (sample_at e t)) ∧
      ∀ p, p ∈ l → ∀ name, name ∈ dp_known →
        (∀ e, name ∈ dp_fields → extract name = Ok e → dp_get p name = sample e (dp_time p)) ∧
        (name ∉ dp_fields → dp_get p name = None)
  | Err err =>
      (∃ name, name ∈ dp_fields ∧ extract name = Err err) ∨
      ∃ name name' e e', name ∈ dp_fields ∧ name' ∈ dp_fields ∧ extract name = Ok (Some e) ∧ extract name' = Ok (Some e') ∧
        en_resolution e ≠ en_resolution e'
  end.
Proof.
  intros extract Hr. unfold create_datapoints_from_rrd. fold extract.
  destruct (fill_fields extract dp_fields None ∅) as [m|err] eqn:Hfill; cbn [mbind result_bind].
  2: { apply fill_fields_error in Hfill as [?|(r&r'&Hne&[|(n&e&?&?&<-)]&[|(n'&e'&?&?&<-)])]; [by left|done..|].
       right. by exists n, n', e, e'. }
  apply fill_fields_filled with (done_ := []) in Hfill; [|done|apply dp_fields_NoDup|set_solver|apply filled_empty].
  rewrite app_nil_r in Hfill. destruct Hfill as [Ht Hp Hv Ho].
  assert (∀ t p, (t, p) ∈ sort_by (cmp_on fst Z.compare) (map_to_list m) ↔ m !! t = Some p) as Hin.
  { intros t p. rewrite elem_of_sort_by. apply elem_of_map_to_list. }
  assert (dp_time <$> (sort_by (cmp_on fst Z.compare) (map_to_list m)).*2 = (sort_by (cmp_on fst Z.compare) (map_to_list m)).*1) as Htimes.
  { rewrite <-list_fmap_compose. apply list_fmap_ext. intros i [t p] Hi%list_elem_of_lookup_2. apply Hin in Hi. cbn. by apply Ht. }
  split_and!.
  - rewrite Htimes. apply sorted_keys; [apply sort_by_sorted, _|]. rewrite sort_by_perm. apply NoDup_fst_map_to_list.
  - intros t. rewrite Htimes. rewrite list_elem_of_fmap. split.
    + intros ([t' p]&->&Hx%Hin). cbn. destruct (proj1 (Hp t')) as (n&e&Hn&?&?); [by rewrite Hx|].
      exists n, e. by rewrite elem_of_reverse in Hn.
    + intros (n&e&Hn&He&Hs). assert (is_Some (m !! t)) as [p Hm]; [|by exists (t, p); split; [|apply Hin]].
      apply Hp. exists n, e. by rewrite elem_of_reverse.
  - intros p ([t p']&->&Hx%Hin)%list_elem_of_fmap name Hk. cbn [snd]. rewrite (Ht _ _ Hx). split.
    + intros e Hn He. apply (Hv t); [done|by rewrite elem_of_reverse|done..].
    + intros Hn. apply (Ho t); [done|by rewrite elem_of_reverse].
Qed.
End spec.

(** ** The objects *)

Ltac known_field H := repeat (apply elem_of_cons in H as [->|H]; [done|]); by apply elem_of_nil in H.
Ltac other_field n n' Hne :=
  repeat lazymatch goal with
  | |- context [if String.eqb n' ?s then _ else _] =>
      destruct (String.eqb_spec n' s) as [->|_]; [by rewrite ?(proj2 (String.eqb_neq n s) Hne)|]
  end; done.
Ltac solve_data_point_field :=
  lazymatch goal with
  | |- NoDup _ => apply (bool_decide_unpack _); vm_compute; exact I
  | |- ∀ _ n, _ = None => intros t n; cbn; unfold NodeDataPoint_get, QemuDataPoint_get, LxcDataPoint_get, PveStorageDataPoint_get, PbsNodeDataPoint_get, PbsDatastoreDataPoint_get, RemoteDatapoint_get, NodeDataPoint_set_field, QemuDataPoint_set_field, LxcDataPoint_set_field, PveStorageDataPoint_set_field, PbsNodeDataPoint_set_field, PbsDatastoreDataPoint_set_field, RemoteDatapoint_set_field; repeat (case_match; [done|]); done
  | |- ∀ _ _ _, _ ∈ _ → _ => intros p n v Hn; known_field Hn
  | |- ∀ _ _ _ _, _ ≠ _ → _ => intros p n n' v Hne; cbn; unfold NodeDataPoint_get, QemuDataPoint_get, LxcDataPoint_get, PveStorageDataPoint_get, PbsNodeDataPoint_get, PbsDatastoreDataPoint_get, RemoteDatapoint_get, NodeDataPoint_set_field, QemuDataPoint_set_field, LxcDataPoint_set_field, PveStorageDataPoint_set_field, PbsNodeDataPoint_set_field, PbsDatastoreDataPoint_set_field, RemoteDatapoint_set_field; other_field n n' Hne
  | |- _ => done
  end.

#[export] Instance NodeDataPoint_spec : DataPointSpec NodeDataPoint.
Proof.
  refine {| dp_time := nd_time; dp_get := NodeDataPoint_get; dp_known := NodeDataPoint_fields |}.
  all: solve_data_point_field.
Defined.
#[export] Instance QemuDataPoint_spec : DataPointSpec QemuDataPoint.
Proof.
  refine {| dp_time := qd_time; dp_get := QemuDataPoint_get; dp_known := QemuDataPoint_fields |}.
  all: solve_data_point_field.
Defined.
#[export] Instance LxcDataPoint_spec : DataPointSpec LxcDataPoint.
Proof.
  refine {| dp_time := ld_time; dp_get := LxcDataPoint_get; dp_known := LxcDataPoint_fields |}.
  all: solve_data_point_field.
Defined.
#[export] Instance PveStorageDataPoint_spec : DataPointSpec PveStorageDataPoint.
Proof.
  refine {| dp_time := sd_time; dp_get := PveStorageDataPoint_get; dp_known := PveStorageDataPoint_fields |}.
  all: solve_data_point_field.
Defined.
(** Of the fields that are read, [set_field] of [PbsNodeDataPoint] does not know these two. *)
Definition PbsNode_known : list string := filter (λ n, n ∉ ["disk_read"; "disk_write"]%string) PbsNodeDataPoint_fields.
#[export] Instance PbsNodeDataPoint_spec : DataPointSpec PbsNodeDataPoint.
Proof.
  refine {| dp_time := pd_time; dp_get := PbsNodeDataPoint_get; dp_known := PbsNode_known |}.
  all: solve_data_point_field.
Defined.
#[export] Instance PbsDatastoreDataPoint_spec : DataPointSpec PbsDatastoreDataPoint.
Proof.
  refine {| dp_time := dd_time; dp_get := PbsDatastoreDataPoint_get; dp_known := PbsDatastoreDataPoint_fields |}.
  all: solve_data_point_field.
Defined.
#[export] Instance RemoteDatapoint_spec : DataPointSpec RemoteDatapoint.
Proof.
  refine {| dp_time := rd_time; dp_get := RemoteDatapoint_get; dp_known := RemoteDatapoint_fields |}.
  all: solve_data_point_field.
Defined.

(** All fields that are read are known, but for those two. *)
Lemma fields_known :
  dp_known (T := NodeDataPoint) = dp_fields (T := NodeDataPoint) ∧ dp_known (T := QemuDataPoint) = dp_fields (T := QemuDataPoint) ∧
  dp_known (T := LxcDataPoint) = dp_fields (T := LxcDataPoint) ∧ dp_known (T := PveStorageDataPoint) = dp_fields (T := PveStorageDataPoint) ∧
  dp_known (T := PbsDatastoreDataPoint) = dp_fields (T := PbsDatastoreDataPoint) ∧ dp_known (T := RemoteDatapoint) = dp_fields (T := RemoteDatapoint) ∧
  ∀ name, name ∈ dp_fields (T := PbsNodeDataPoint) ↔
    name ∈ dp_known (T := PbsNodeDataPoint) ∨ name = "disk_read"%string ∨ name = "disk_write"%string.
Proof.
  split_and!; try reflexivity. intros name. split.
  - intros Hn. destruct (decide (name ∈ ["disk_read"; "disk_write"]%string)) as [Hd|Hd].
    + right. apply elem_of_cons in Hd as [->|Hd]; [by left|]. apply list_elem_of_singleton in Hd. by right.
    + left. by apply list_elem_of_filter.
  - intros [[_ Hn]%list_elem_of_filter|[->| ->]]; [done|..]; apply (bool_decide_unpack _); vm_compute; exact I.
Qed.

(** The read and write rates of a PBS node are read from the database and dropped. *)
Lemma pbs_node_rates_dropped extract fields : ∀ last_resolution m m',
  (∀ t (p : PbsNodeDataPoint), m !! t = Some p → pd_disk_read p = None ∧ pd_disk_write p = None) →
  fill_fields extract fields last_resolution m = Ok m' →
  ∀ t p, m' !! t = Some p → pd_disk_read p = None ∧ pd_disk_write p = None.
Proof.
  assert (∀ name r data start m,
    (∀ t (p : PbsNodeDataPoint), m !! t = Some p → pd_disk_read p = None ∧ pd_disk_write p = None) →
    ∀ t p, fill name start r data m !! t = Some p → pd_disk_read p = None ∧ pd_disk_write p = None) as Hfill.
  { intros name r data. induction data as [|value data IH]; intros start m Hm; [done|]. cbn [fill]. apply IH.
    intros t p. rewrite lookup_insert_Some. intros [[<- <-]|[_ Hl]]; [|by apply (Hm t)].
    assert (pd_disk_read (default (dp_new start) (m !! start)) = None ∧ pd_disk_write (default (dp_new start) (m !! start)) = None) as Hd.
    { destruct (m !! start) as [q|] eqn:Hs; [by apply (Hm start)|done]. }
    by destruct value. }
  induction fields as [|name fields IH]; intros lr m m' Hm; cbn [fill_fields]; [by intros [= <-]|].
  intros Hrun. apply bind_Ok_inv in Hrun as ([e|]&_&Hrun).
  - apply bind_Ok_inv in Hrun as (lr'&_&Hrun). eapply IH; [|exact Hrun]. by apply Hfill.
  - by eapply IH.
Qed.

Lemma pbs_node_datapoints_without_rates `{RrdRead} now cache basedir timeframe mode (l : list PbsNodeDataPoint) p :
  create_datapoints_from_rrd now cache basedir timeframe mode = Ok l → p ∈ l → pd_disk_read p = None ∧ pd_disk_write p = None.
Proof.
  unfold create_datapoints_from_rrd. intros Hrun Hp. apply bind_Ok_inv in Hrun as (m&Hfill&[= <-]).
  apply list_elem_of_fmap in Hp as ([t q]&->&Hin). rewrite elem_of_sort_by in Hin. apply elem_of_map_to_list in Hin.
  eapply (pbs_node_rates_dropped _ _ _ ∅ _ _ Hfill t q Hin). Unshelve. intros t' q' Hl. by rewrite lookup_empty in Hl.
Qed.

(** ** Concrete runs *)

Module RrdDemo.
#[local] Instance demo_rrd : Rrd := {| rrd := list (string * Entry); update_value_ignore_old _ _ _ _ c := (Ok tt, c) |}.
#[local] Instance demo_read : RrdRead := λ (c : list (string * Entry)) basedir name _ resolution _ _,
  Ok ((λ x, mkEntry (en_start x.2) resolution (en_data x.2)) <$> List.find (λ x, String.eqb x.1 (basedir +:+ "/" +:+ name)) c).

Definition value (z : Z) : option f64 := Some (f64_of_i64 z).
Definition database : @rrd demo_rrd :=
  [("pve/r/qemu/100/cpu_current"%string, mkEntry 600 0 [value 1; None; value 3]);
   ("pve/r/qemu/100/uptime"%string, mkEntry 660 0 [value 7]);
   ("pbs/r/host/disk_read"%string, mkEntry 600 0 [value 5])].

Example qemu_datapoints :
  get_qemu_rrd_data (λ _ c, c) 1000 database "r" Hour RrdMax 100 =
  Ok [mkQemuDataPoint 600 (value 1) None None None None None None None None None;
      mkQemuDataPoint 660 None None None None None None None None None (value 7);
      mkQemuDataPoint 720 (value 3) None None None None None None None None None].
Proof. vm_compute. reflexivity. Qed.

Example pbs_disk_read_is_lost :
  map pd_disk_read (default [] (result_ok (get_pbs_node_rrd_data (λ _ c, c) 1000 database "r" Hour RrdMax))) = [None].
Proof. vm_compute. reflexivity. Qed.

Lemma datapoints_are_samples_witness :
  Forall (λ p, qd_uptime p = sample (Some (mkEntry 660 60 [value 7])) (qd_time p))
    (default [] (result_ok (get_qemu_rrd_data (λ _ c, c) 1000 database "r" Hour RrdMax 100))).
Proof.
  apply Forall_forall. intros p Hp. pose proof (datapoints_are_samples (T := QemuDataPoint) 1000 database "pve/r/qemu/100" Hour RrdMax) as Hd. cbv zeta in Hd.
  assert (get_qemu_rrd_data (λ _ c, c) 1000 database "r" Hour RrdMax 100 =
          create_datapoints_from_rrd (T := QemuDataPoint) 1000 database "pve/r/qemu/100" Hour RrdMax) as Heq by reflexivity.
  rewrite Heq in Hp. destruct (create_datapoints_from_rrd (T := QemuDataPoint) 1000 database "pve/r/qemu/100" Hour RrdMax) as [l|err] eqn:Hl.
  - destruct Hd as (_&_&Hvals).
    + intros name e. unfold extract_data, extract_cached_data, demo_read. cbn [start_and_resolution]. intros [= He].
      by apply fmap_Some in He as (x&_&->).
    + apply (proj1 (Hvals p Hp "uptime"%string ltac:(apply (bool_decide_unpack _); vm_compute; exact I))).
      * apply (bool_decide_unpack _). vm_compute. exact I.
      * reflexivity.
  - by apply elem_of_nil in Hp.
Defined.
End RrdDemo.
