(* ===== verification/TopEntities.v ===== *)
(** * The guests and nodes with the highest load

    Model of [server/src/metric_collection/top_entities.rs] and of [get_top_entities] in
    [server/src/api/resources.rs]: the load of every guest and node is the sum of the
    samples of a series, and vectors of limited length keep those with the highest.

    The resources are those the cache has ([RemoteData]), the samples are read from the
    round robin database ([RrdData]).  The order in which the remotes of the
    configuration are visited is that of the list of its entries. *)

From Stdlib Require Import SpecFloat.
From S2P Require Import Prelude FileSystem RemoteUpid SectionConfig Resource Views ResourceList NamespacedCache ParallelFetcher RemoteData MetricRrd RrdData.

(** ** Vectors of limited length *)

(** [match vec.binary_search_by(..) { Ok(idx) | Err(idx) => idx }] *)
Definition search_index {A} (cmp : A → comparison) (l : list A) : nat :=
  match l with
  | [] => 0
  | _ =>
      let base := binary_search_loop (length l) cmp l 0 (length l) in
      match cmp <$> l !! base with
      | Some Lt => S base
      | _ => base
      end
  end%nat.

Definition insert_sorted {A} (vec : list (Z * A)) (value : Z * A) (limit : nat) : list (Z * A) :=
  let index := search_index (λ probe, Z.compare probe.1 value.1) vec in
  let vec := take index vec ++ value :: drop index vec in
  drop (length vec - limit) vec.

(** ** Load *)

Definition f64_is_finite (x : f64) : bool :=
  match x with S754_zero _ | S754_finite _ _ _ => true | S754_infinity _ | S754_nan => false end.

(** [x.round() as usize]: to the nearest integer, halves away from zero; the conversion
    saturates. *)
Definition round_as_usize (x : f64) : Z :=
  match x with
  | S754_nan | S754_zero _ => 0
  | S754_infinity s => if s then 0 else u64_MAX
  | S754_finite true _ _ => 0
  | S754_finite false m e =>
      Z.min u64_MAX (if 0 <=? e then Z.pos m * 2 ^ e else (2 * Z.pos m + 2 ^ (- e)) / (2 * 2 ^ (- e)))
  end.

Definition f64_100 : f64 := f64_of_u64 100.

Definition calculate_coefficient (values : Entry) : f64 :=
  foldl (λ coefficient point,
    let value := default f64_zero point in
    if f64_is_finite value then f64_add coefficient value else coefficient) f64_zero (en_data values).

Record TopEntity : Type := mkTop {
  te_remote : string;
  te_resource : Resource;
  te_rrd_data : Entry;
}.
Record TopEntities : Type := mkTops {
  guest_cpu : list TopEntity;
  node_cpu : list TopEntity;
  node_memory : list TopEntity;
}.

Section top.
Context `{RrdRead} `{NetworkTypeNames} (now : Z) (cache : rrd).

Definition get_entity (timeframe : RrdTimeframe) (remote_name : string) (res : Resource) (name metric : string)
    : option (f64 * TopEntity) :=
  match extract_data now cache name metric timeframe RrdAverage with
  | Ok (Some values) =>
      let coefficient := calculate_coefficient values in
      if f64_gt coefficient f64_zero then Some (coefficient, mkTop remote_name res values) else None
  | _ => None
  end.

Record top_vecs : Type := mkVecs {
  tv_guest_cpu : list (Z * TopEntity);
  tv_node_cpu : list (Z * TopEntity);
  tv_node_memory : list (Z * TopEntity);
}.

Definition cpu_key (coefficient : f64) : Z := round_as_usize (f64_mul coefficient f64_100).
Definition memory_key (mem mem_total : f64) : Z := round_as_usize (f64_div (f64_mul f64_100 mem) mem_total).
Definition memory_point (p : option f64 * option f64) : option f64 :=
  match p with (Some mem, Some total) => Some (f64_div mem total) | _ => None end.

(** The entries of one resource. *)
Definition guest_entry (timeframe : RrdTimeframe) (remote_name : string) (res : Resource) : option (Z * TopEntity) :=
  entity ← get_entity timeframe remote_name res ("pve/" +:+ remote_name +:+ "/" +:+ Resource.id res) "cpu_current";
  Some (cpu_key entity.1, entity.2).
Definition node_name (remote_name : string) (remote : Remote) (res : Resource) : string :=
  if bool_decide (rm_ty remote = RemoteType.Pbs) then "pbs/" +:+ remote_name +:+ "/host"
  else "pve/" +:+ remote_name +:+ "/" +:+ Resource.id res.
Definition node_cpu_entry (timeframe : RrdTimeframe) (remote_name : string) (remote : Remote) (res : Resource) : option (Z * TopEntity) :=
  entity ← get_entity timeframe remote_name res (node_name remote_name remote res) "cpu_current";
  Some (cpu_key entity.1, entity.2).
Definition node_memory_entry (timeframe : RrdTimeframe) (remote_name : string) (remote : Remote) (res : Resource) : option (Z * TopEntity) :=
  mem ← get_entity timeframe remote_name res (node_name remote_name remote res) "mem_used";
  mem_total ← get_entity timeframe remote_name res (node_name remote_name remote res) "mem_total";
  let mem_rrd := te_rrd_data mem.2 in
  let mem_total_rrd := te_rrd_data mem_total.2 in
  if negb (Nat.eqb (length (en_data mem_rrd)) (length (en_data mem_total_rrd))) then None else
  let mem_usage := map memory_point (zip (en_data mem_rrd) (en_data mem_total_rrd)) in
  Some (memory_key mem.1 mem_total.1,
        mkTop (te_remote mem.2) (te_resource mem.2) (mkEntry (en_start mem_rrd) (en_resolution mem_rrd) mem_usage)).

Definition insert_opt (num : nat) (vec : list (Z * TopEntity)) (entry : option (Z * TopEntity)) : list (Z * TopEntity) :=
  match entry with Some entry => insert_sorted vec entry num | None => vec end.

(** The body of the loop over the resources. *)
Definition top_resource (timeframe : RrdTimeframe) (num : nat) (remote_name : string) (remote : Remote) (vecs : top_vecs) (res : Resource)
    : top_vecs :=
  match res with
  | PveStorage _ | PveNetwork _ | PbsDatastore _ => vecs
  | PveQemu _ | PveLxc _ =>
      mkVecs (insert_opt num (tv_guest_cpu vecs) (guest_entry timeframe remote_name res)) (tv_node_cpu vecs) (tv_node_memory vecs)
  | PveNode _ | PbsNode _ =>
      mkVecs (tv_guest_cpu vecs) (insert_opt num (tv_node_cpu vecs) (node_cpu_entry timeframe remote_name remote res))
        (insert_opt num (tv_node_memory vecs) (node_memory_entry timeframe remote_name remote res))
  end.

(** [cached] is [get_cached_resources_blocking], without an age limit. *)
Definition top_remote (cached : string → result error (option CachedResources)) (timeframe : RrdTimeframe) (num : nat)
    (check_remote_privs : string → bool) (is_resource_included : string → Resource → bool)
    (vecs : top_vecs) (x : string * Remote) : top_vecs :=
  let '(remote_name, remote) := x in
  if negb (check_remote_privs remote_name) then vecs
  else match cached remote_name with
       | Ok (Some data) =>
           foldl (λ vecs res,
             if negb (is_resource_included remote_name res) then vecs
             else top_resource timeframe num remote_name remote vecs res) vecs (cached_resources data)
       | _ => vecs
       end.

Definition calculate_top (cached : string → result error (option CachedResources)) (remotes : list (string * Remote))
    (timeframe : RrdTimeframe) (num : nat) (check_remote_privs : string → bool) (is_resource_included : string → Resource → bool)
    : TopEntities :=
  let vecs := foldl (top_remote cached timeframe num check_remote_privs is_resource_included) (mkVecs [] [] []) remotes in
  mkTops (tv_guest_cpu vecs).*2 (tv_node_cpu vecs).*2 (tv_node_memory vecs).*2.

(** ** The API *)

Context `{SafeIdRegex} `{SectionConfigData C ViewConfig} `{EntryCodec CachedResources}.

(** The cache is read in the state [w]. *)
Definition cached_in (w : world) (remote_name : string) : result error (option CachedResources) :=
  (get_cached_resources_blocking now remote_name i64_MAX w).1.

Definition get_top_entities (timeframe : option RrdTimeframe) (view : option string) (rpcenv : result error user)
    (views : result error C) (remotes_config : result error (list (string * Remote))) (w : world) : result error TopEntities :=
  user_info ← check_access (Some rpcenv) view;
  view ← get_optional_view views view;
  remotes_config ← remotes_config;
  let check_remote_privs remote_name :=
    match view with
    | Some view => negb (can_skip_remote view remote_name)
    | None =>
        match user_info with
        | Some u => negb (Z.land (lookup_privs u ["resource"%string; remote_name]) PRIV_RESOURCE_AUDIT =? 0)
        | None => false
        end
    end in
  let is_resource_included remote resource :=
    match view with Some view => resource_matches view remote resource | None => true end in
  Ok (calculate_top (cached_in w) remotes_config (default Day timeframe) 10 check_remote_privs is_resource_included).
End top.
