(* ===== verification/TopProperties.v ===== *)
(** * The highest loads are kept

    [insert_sorted] keeps the greatest entries of all that were inserted, and
    [get_top_entities] returns, of all guests and nodes the caller may see, those with
    the highest loads. *)

From S2P Require Import Prelude FileSystem RemoteUpid SectionConfig Resource Views ResourceList NamespacedCache ParallelFetcher RemoteData MetricRrd RrdData RrdSpec TopEntities.

(** ** One vector *)

Section vec.
Context {A : Type}.
Implicit Types (v rest : list (Z * A)) (x y : Z * A) (limit : nat).

Definition key_le x y : Prop := x.1 ≤ y.1.

Lemma search_index_spec v (k : Z) :
  StronglySorted key_le v →
  let i := search_index (λ probe : Z * A, Z.compare probe.1 k) v in
  (∀ x, x ∈ take i v → x.1 ≤ k) ∧ (∀ x, x ∈ drop i v → k ≤ x.1).
Proof.
  intros Hs. cbv zeta. unfold search_index. destruct v as [|x0 v0]; [split; by intros ? ?%elem_of_nil|].
  set (v := x0 :: v0) in *. set (cmp := λ probe : Z * A, Z.compare probe.1 k).
  assert (∀ i j x y, (i ≤ j)%nat → v !! i = Some x → v !! j = Some y → x.1 ≤ y.1) as Hmono.
  { intros i j x y Hij Hx Hy. destruct (decide (i = j)) as [->|Hne]; [replace y with x by congruence; lia|].
    by apply (StronglySorted_lookup_lt key_le v i j x y Hs Hx Hy); lia. }
  destruct (binary_search_loop_spec cmp v) with (fuel := length v) (base := 0%nat) (size := length v) as (Hb&Hright&Hbase).
  { intros i j x y Hij Hx Hy. unfold cmp. rewrite !Z.compare_gt_iff. specialize (Hmono i j x y Hij Hx Hy). lia. }
  { lia. } { simpl; lia. } { lia. } { intros j y Hj Hy. apply lookup_lt_Some in Hy. lia. } { by left. }
  set (b := binary_search_loop (length v) cmp v 0 (length v)) in *.
  destruct (lookup_lt_is_Some_2 v b Hb) as [y Hy]. rewrite Hy. cbn [fmap option_fmap option_map].
  assert (∀ n x, x ∈ take n v → ∃ i, (i < n)%nat ∧ v !! i = Some x) as Htake.
  { intros n x [i Hi]%list_elem_of_lookup. apply lookup_take_Some in Hi as [? ?]. eauto. }
  assert (∀ n x, x ∈ drop n v → ∃ i, (n ≤ i)%nat ∧ v !! i = Some x) as Hdrop.
  { intros n x [i Hi]%list_elem_of_lookup. rewrite lookup_drop in Hi. exists (n + i)%nat. split; [lia|done]. }
  assert (∀ x n, (b < n)%nat → v !! n = Some x → k < x.1) as Hgt.
  { intros x n Hn Hx. specialize (Hright n x Hn Hx). unfold cmp in Hright. rewrite Z.compare_gt_iff in Hright. lia. }
  destruct (Z.compare_spec y.1 k) as [Heq|Hlt|Hgt']; unfold cmp in *; cbv beta.
  - rewrite (proj2 (Z.compare_eq_iff _ _) Heq). split.
    + intros x (i&Hi&Hx)%Htake. specialize (Hmono i b x y ltac:(lia) Hx Hy). lia.
    + intros x (i&Hi&Hx)%Hdrop. specialize (Hmono b i y x Hi Hy Hx). lia.
  - rewrite (proj2 (Z.compare_lt_iff _ _) Hlt). split.
    + intros x (i&Hi&Hx)%Htake. specialize (Hmono i b x y ltac:(lia) Hx Hy). lia.
    + intros x (i&Hi&Hx)%Hdrop. specialize (Hgt x i ltac:(lia) Hx). lia.
  - rewrite (proj2 (Z.compare_gt_iff _ _) Hgt'). split.
    + destruct Hbase as [->|(y'&Hy'&Hne)].
      * intros x (i&Hi&Hx)%Htake. lia.
      * exfalso. apply Hne. rewrite Hy in Hy'. injection Hy' as <-. by apply Z.compare_gt_iff.
    + intros x (i&Hi&Hx)%Hdrop. specialize (Hmono b i y x Hi Hy Hx). lia.
Qed.

(** [v] has the entries with the greatest keys of all, up to [limit]. *)
Record top_of limit (all v : list (Z * A)) : Prop := {
  to_sorted : StronglySorted key_le v;
  to_length : length v = Nat.min limit (length all);
  to_greatest : ∃ rest, v ++ rest ≡ₚ all ∧ ∀ x y, x ∈ v → y ∈ rest → y.1 ≤ x.1;
}.

Lemma top_of_nil limit : top_of limit [] [].
Proof. split; [constructor|by rewrite Nat.min_0_r|]. exists []. split; [done|]. by intros x y ?%elem_of_nil. Qed.

Lemma top_of_perm limit all all' v : all ≡ₚ all' → top_of limit all v → top_of limit all' v.
Proof. intros Hp [Hs Hl (rest&Hr&Hg)]. split; [done|by rewrite <-Hp|]. exists rest. split; [by rewrite Hr|done]. Qed.

Lemma insert_sorted_top limit all v x : top_of limit all v → top_of limit (x :: all) (insert_sorted v x limit).
Proof.
  intros [Hs Hl (rest&Hr&Hg)]. unfold insert_sorted. pose proof (search_index_spec v x.1 Hs) as [Hlo Hhi].
  set (i := search_index (λ probe : Z * A, Z.compare probe.1 x.1) v) in *. cbv zeta.
  set (v' := take i v ++ x :: drop i v).
  assert (v' ≡ₚ x :: v) as Hp by (unfold v'; by rewrite <-Permutation_middle, take_drop).
  assert (StronglySorted key_le v') as Hs'.
  { unfold v'. rewrite <-(take_drop i v) in Hs. apply StronglySorted_app in Hs as (Hcross&Hs1&Hs2). apply StronglySorted_app_2.
    - intros a b Ha [->|Hb]%elem_of_cons; [by apply Hlo|by apply Hcross].
    - done.
    - constructor; [done|]. apply Forall_forall. intros b Hb. by apply Hhi. }
  assert (length v' = S (length v)) as Hlen by (by rewrite Hp).
  assert (length all = length v + length rest)%nat as Hall by (by rewrite <-Hr, length_app).
  clearbody v'. clear Hlo Hhi i. rewrite Hlen. destruct (decide (length v < limit)%nat) as [Hlt|Hge].
  - replace (S (length v) - limit)%nat with 0%nat by lia. rewrite drop_0.
    assert (rest = []) as -> by (destruct rest; [done|simpl in *; lia]). rewrite app_nil_r in Hr.
    split; [done|rewrite Hlen; simpl; lia|]. exists []. rewrite app_nil_r. split; [by rewrite Hp, Hr|].
    by intros ? ? ? ?%elem_of_nil.
  - replace (S (length v) - limit)%nat with 1%nat by lia. destruct v' as [|h w]; [done|]. rewrite skipn_cons, drop_0.
    simpl in Hlen. split; [by inversion Hs'|simpl; lia|]. exists (h :: rest). split.
    + rewrite <-Permutation_middle. change (h :: w ++ rest) with ((h :: w) ++ rest). rewrite Hp. simpl. by rewrite Hr.
    + intros a b Ha Hb.
      assert (∀ a, a ∈ w → h.1 ≤ a.1) as Hmin.
      { inversion Hs' as [|? ? _ Hf]. rewrite Forall_forall in Hf. exact Hf. }
      apply elem_of_cons in Hb as [->|Hb]; [by apply Hmin|].
      assert (h ∈ x :: v) as Hh by (rewrite <-Hp; by left). apply elem_of_cons in Hh as [->|Hh].
      * apply Permutation_cons_inv in Hp. apply Hg; [by rewrite <-Hp|done].
      * etransitivity; [by apply (Hg h b)|by apply Hmin].
Qed.
End vec.

(** ** All resources *)

Section top.
Context `{RrdRead} `{NetworkTypeNames} (now : Z) (cache : rrd).
Context (timeframe : RrdTimeframe) (num : nat).

(** The guests and nodes that are considered, with the name and the entry of their
    remote. *)
Definition considered (cached : string → result error (option CachedResources)) (check_remote_privs : string → bool)
    (is_resource_included : string → Resource → bool) (remotes : list (string * Remote)) : list (string * Remote * Resource) :=
  remotes ≫= λ x,
    if check_remote_privs x.1 then
      match cached x.1 with
      | Ok (Some data) => map (λ res, (x, res)) (List.filter (is_resource_included x.1) (cached_resources data))
      | _ => []
      end
    else [].

Definition is_guest (res : Resource) : bool := match res with PveQemu _ | PveLxc _ => true | _ => false end.
Definition is_node (res : Resource) : bool := match res with PveNode _ | PbsNode _ => true | _ => false end.

(** Their entries. *)
Definition guest_candidate (x : string * Remote * Resource) : option (Z * TopEntity) :=
  if is_guest x.2 then guest_entry now cache timeframe x.1.1 x.2 else None.
Definition cpu_candidate (x : string * Remote * Resource) : option (Z * TopEntity) :=
  if is_node x.2 then node_cpu_entry now cache timeframe x.1.1 x.1.2 x.2 else None.
Definition memory_candidate (x : string * Remote * Resource) : option (Z * TopEntity) :=
  if is_node x.2 then node_memory_entry now cache timeframe x.1.1 x.1.2 x.2 else None.

Record vecs_top (l : list (string * Remote * Resource)) (vecs : top_vecs) : Prop := {
  vt_guest : top_of num (omap (M:=list) guest_candidate l) (tv_guest_cpu vecs);
  vt_cpu : top_of num (omap (M:=list) cpu_candidate l) (tv_node_cpu vecs);
  vt_memory : top_of num (omap (M:=list) memory_candidate l) (tv_node_memory vecs);
}.

Lemma insert_opt_top {X} (f : X → option (Z * TopEntity)) l x v :
  top_of num (omap (M:=list) f l) v → top_of num (omap (M:=list) f (l ++ [x])) (insert_opt num v (f x)).
Proof.
  intros Ht. rewrite omap_app. cbn [omap list_omap]. destruct (f x) as [e|]; cbn [insert_opt]; [|by rewrite app_nil_r].
  eapply top_of_perm; [|by apply insert_sorted_top]. apply Permutation_cons_append.
Qed.

Lemma top_resource_top l vecs name remote res :
  vecs_top l vecs → vecs_top (l ++ [(name, remote, res)]) (top_resource now cache timeframe num name remote vecs res).
Proof.
  intros [Hg Hc Hm].
  pose proof (insert_opt_top guest_candidate l (name, remote, res) _ Hg) as Hg'.
  pose proof (insert_opt_top cpu_candidate l (name, remote, res) _ Hc) as Hc'.
  pose proof (insert_opt_top memory_candidate l (name, remote, res) _ Hm) as Hm'.
  destruct res; (split; [exact Hg'|exact Hc'|exact Hm']).
Qed.

Lemma foldl_top cached privs included remotes : ∀ l vecs,
  vecs_top l vecs →
  vecs_top (l ++ considered cached privs included remotes)
    (foldl (top_remote now cache cached timeframe num privs included) vecs remotes).
Proof.
  induction remotes as [|[name remote] remotes IH]; intros l vecs Hv; cbn [foldl]; [by rewrite app_nil_r|].
  unfold considered. rewrite bind_cons. fold (considered cached privs included remotes). rewrite app_assoc. apply IH. clear IH.
  cbn [top_remote fst snd]. destruct (privs name); cbn [negb]; [|by rewrite app_nil_r].
  destruct (cached name) as [[data|]|]; [|by rewrite app_nil_r..].
  generalize (cached_resources data). intros rs. revert l vecs Hv. induction rs as [|res rs IH]; intros l vecs Hv; cbn [foldl List.filter map].
  { by rewrite app_nil_r. }
  destruct (included name res); cbn [negb map]; [|by apply IH].
  change ((name, remote, res) :: map (λ res, (name, remote, res)) (List.filter (included name) rs))
    with ([(name, remote, res)] ++ map (λ res, (name, remote, res)) (List.filter (included name) rs)).
  rewrite app_assoc. apply IH. by apply top_resource_top.
Qed.
End top.

Section api.
Context `{RrdRead} `{NetworkTypeNames} `{SafeIdRegex} `{SectionConfigData C ViewConfig} `{EntryCodec CachedResources}.

(** Whose resources a caller may see: those of the remotes they may audit, of which a view
    may leave some out. *)
Definition may_audit (u : user) (remote : string) : bool :=
  negb (Z.land (lookup_privs u ["resource"%string; remote]) PRIV_RESOURCE_AUDIT =? 0).
Definition may_see (u : user) (view : option ViewConfig) (remote : string) : bool :=
  may_audit u remote && match view with Some view => negb (can_skip_remote view remote) | None => true end.

(** The view, if there is one, does not show more than the caller may audit. *)
Definition view_within (u : user) (view : option ViewConfig) (remotes : list (string * Remote)) : Prop :=
  match view with
  | Some view => any_privs_below u ["resource"%string] PRIV_RESOURCE_AUDIT = Ok true ∧
      ∀ remote, remote ∈ remotes.*1 → can_skip_remote view remote = false → may_audit u remote = true
  | None => True
  end.

Lemma considered_ext cached privs privs' included remotes :
  (∀ remote, remote ∈ remotes.*1 → privs remote = privs' remote) →
  considered cached privs included remotes = considered cached privs' included remotes.
Proof.
  intros Heq. unfold considered. induction remotes as [|x remotes IH]; [done|]. rewrite !bind_cons.
  rewrite (Heq x.1) by (rewrite fmap_cons; left). f_equal. apply IH. intros remote Hr. apply Heq. rewrite fmap_cons. by right.
Qed.

(** The ten greatest of the candidates, in ascending order. *)
Definition ten_highest (all : list (Z * TopEntity)) (l : list TopEntity) : Prop :=
  ∃ v, l = v.*2 ∧ top_of 10 all v.

End api.

(** ** A concrete run *)

Module TopDemo.
#[local] Existing Instance RrdDemo.demo_rrd.
#[local] Existing Instance RrdDemo.demo_read.
#[local] Existing Instance ListingDemo.network_names.
#[local] Existing Instance ListingDemo.views_config.
#[local] Existing Instance safe_id_regex_impl.
Abbreviation node := ListingDemo.node.

(** The only text of a cached entry stands for three nodes. *)
#[local] Instance demo_codec : EntryCodec CachedResources := {|
  entry_to_json _ := None;
  entry_of_json s := if String.eqb s "nodes"
    then Some (mkCacheEntry 5 (mkCachedResources [node "open" "n1"; node "open" "n2"; node "open" "n3"] 5)) else None;
|}.

Definition samples (l : list Z) : Entry := mkEntry 600 0 (RrdDemo.value <$> l).
Definition database : @rrd RrdDemo.demo_rrd :=
  [("pve/open/node/n1/cpu_current"%string, samples [3; 4]); ("pve/open/node/n2/cpu_current"%string, samples [1; 0]);
   ("pve/open/node/n3/cpu_current"%string, samples [2]);
   ("pve/open/node/n1/mem_used"%string, samples [1; 2]); ("pve/open/node/n1/mem_total"%string, samples [4; 4])].
Definition disk : world := World {["remote-open/resources.json"%string := "nodes"%string; "remote-secret/resources.json"%string := "nodes"%string]} [].

Definition top : result error TopEntities :=
  get_top_entities (C := gmap string ViewConfig) 1000 database None None (Ok ListingDemo.guest) (Ok ∅) (Ok ListingDemo.remotes) disk.

(** The loads 1, 2 and 7 of the nodes of the remote that may be audited. *)
Example top_nodes :
  (λ t, (te_resource <$> node_cpu t, te_resource <$> node_memory t)) <$> result_ok top =
  Some ([node "open" "n2"; node "open" "n3"; node "open" "n1"], [node "open" "n1"]).
Proof. vm_compute. reflexivity. Qed.

(** Someone with the privilege on a view, and no other, sees the nodes of all remotes. *)
Definition viewer : user := mkUser (λ _, 0) (λ path _, if bool_decide (path = ["view"; "everything"]%string) then Ok tt else Err EIo) (λ _ _, Ok false).
Example view_shows_unaudited_remote :
  (λ t, te_resource <$> node_memory t) <$>
    result_ok (get_top_entities (C := gmap string ViewConfig) 1000 database None (Some "everything"%string) (Ok viewer) (Ok ListingDemo.views)
      (Ok ListingDemo.remotes) disk) = Some [node "open" "n1"] ∧
  may_audit viewer "open" = false.
Proof. vm_compute. done. Qed.

End TopDemo.
