(* ===== verification/PveGuests.v ===== *)
(** * Guests of PVE remotes

    Model of the handlers in [server/src/api/pve/qemu.rs] and [lxc.rs] that act on
    guests, and of what they share in [server/src/api/pve/mod.rs].  The migration to
    another remote is in [GuestMigration].

    A computation ([guest]) keeps the requests made so far; the answer of a remote to
    one is a function of them ([guest_env]), so a remote may do anything.  It also works
    on the files, for the tracking of the tasks that are started ([TaskList]) and the
    tokens of the remotes ([RemotesConfig]).  A computation that still polls a task
    when the fuel is used up has no result.  The typed parameters of requests that the
    code only passes on are JSON values or left out.  The privileges that the router
    checks before it calls a handler are not part of the handlers. *)

From S2P Require Import Prelude FileSystem RemoteUpid SectionConfig Resource ResourceList RemoteCache TaskItems TaskCache TaskList RemotesConfig JsonValue.
Abbreviation Remote := RemotesConfig.Remote.

Definition PRIV_RESOURCE_DELETE : Z := Z.shiftl 1 8.
Definition PRIV_RESOURCE_MIGRATE : Z := Z.shiftl 1 9.

(** ** Requests *)

Inductive guest_kind : Type := Qemu | Lxc.
Definition kind_path (k : guest_kind) : string := match k with Qemu => "qemu" | Lxc => "lxc" end.

(** [pve_api_types::{MigrateQemu, MigrateLxc}] *)
Record MigrateQemu : Type := mkMigrateQemu {
  mq_bwlimit : option Z;
  mq_force : option bool;
  mq_migration_network : option string;
  mq_migration_type : option string;
  mq_online : option bool;
  mq_target : string;
  mq_targetstorage : option (list string);
  mq_with_local_disks : option bool;
}.
Record MigrateLxc : Type := mkMigrateLxc {
  ml_bwlimit : option f64;
  ml_online : option bool;
  ml_restart : option bool;
  ml_target : string;
  ml_target_storage : option (list string);
  ml_timeout : option Z;
}.
(** [pve_api_types::{RemoteMigrateQemu, RemoteMigrateLxc}]; the last three fields are
    those of containers, [rm_bwlimit] those of virtual machines. *)
Record RemoteMigrate : Type := mkRemoteMigrate {
  rg_target_bridge : list string;
  rg_target_storage : list string;
  rg_delete : option bool;
  rg_online : option bool;
  rg_target_vmid : option Z;
  rg_target_endpoint : string;
  rg_bwlimit : option Z;
  rg_lxc_bwlimit : option f64;
  rg_restart : option bool;
  rg_timeout : option Z;
}.

Inductive call : Type :=
| ClusterVms
| ListNodes
| ListGuests (k : guest_kind) (node : string)
| LxcStatus (node : string) (vmid : Z)
| Start (k : guest_kind) (node : string) (vmid : Z)
| Stop (k : guest_kind) (node : string) (vmid : Z)
| Shutdown (k : guest_kind) (node : string) (vmid : Z) (force_stop : option bool) (timeout : option Z)
| Resume (node : string) (vmid : Z)
| Snapshot (k : guest_kind) (node : string) (vmid : Z) (snapname : string) (description : option string) (vmstate : option bool)
| DeleteSnapshot (k : guest_kind) (node : string) (vmid : Z) (snapname : string)
| RollbackSnapshot (k : guest_kind) (node : string) (vmid : Z) (snapname : string) (start : option bool)
| CallMigrateQemu (node : string) (vmid : Z) (params : MigrateQemu)
| CallMigrateLxc (node : string) (vmid : Z) (params : MigrateLxc)
| CallRemoteMigrate (k : guest_kind) (node : string) (vmid : Z) (params : RemoteMigrate)
| TaskStatus (node : string) (upid : string)
| Raw (method : Method) (path : string) (payload : option Value).

(** The remote and what it is asked for. *)
Definition request : Type := string * call.

Record task_status : Type := mkTaskStatus { ts_running : bool; ts_success : option bool }.
(** An entry of [cluster_resources]: [vmid] and [node]. *)
Definition vm_entry : Type := option Z * option string.

(** [http::uri::Authority], as far as it is used: host and port. *)
Class AuthorityParse := parse_authority : string → result error (string * option Z).

Section guests.
Context `{SafeIdRegex} `{UpidFields} `{TaskCodec} `{AuthidType}.
Context {CS : Type} `{SectionConfigData CS RemoteShadow} `{SectionText CS}.

(** The migration of a container that is finished in the background. *)
Record background : Type := mkBackground {
  bg_source : Remote;
  bg_source_node : string;
  bg_vmid : Z;
  bg_upid : string;
  bg_target : Remote;
  bg_target_vmid : Z;
}.

Record gstate : Type := mkState {
  gs_history : list request;
  gs_world : world;
  gs_spawned : list background;
}.

(** The requests end with the one that is answered. *)
Record guest_env : Type := mkGuestEnv {
  ge_config : result error (list (string * Remote));
  ge_connect : Remote → result error unit;
  ge_cache : RemoteMappingCache;
  ge_vms : list request → result error (list vm_entry);
  ge_nodes : list request → result error (list string);
  ge_guests : list request → result error (list Z);
  ge_lxc_running : list request → result error bool;
  ge_upid : list request → result error PveUpid;
  ge_done : list request → result error unit;
  ge_value : list request → result error Value;
  ge_task : list request → result error task_status;
}.

Definition guest (A : Type) : Type := gstate → option (result error A) * gstate.
#[export] Instance guest_ret : MRet guest := λ A a s, (Some (Ok a), s).
#[export] Instance guest_bind : MBind guest := λ A B k m s,
  match m s with
  | (Some (Ok a), s) => k a s
  | (Some (Err e), s) => (Some (Err e), s)
  | (None, s) => (None, s)
  end.
Definition g_lift {A} (r : result error A) : guest A := λ s, (Some r, s).
Definition g_io {A} (m : io A) : guest A := λ s,
  let '(r, w) := m (gs_world s) in (Some r, mkState (gs_history s) w (gs_spawned s)).
(** [match m { Ok(..) => .., Err(..) => .. }] *)
Definition g_try {A} (m : guest A) : guest (result error A) := λ s,
  match m s with (Some r, s) => (Some (Ok r), s) | (None, s) => (None, s) end.
Definition ask {A} (remote : Remote) (c : call) (answer : list request → result error A) : guest A := λ s,
  let history := gs_history s ++ [(r_id remote, c)] in
  (Some (answer history), mkState history (gs_world s) (gs_spawned s)).
Definition spawn (b : background) : guest unit := λ s,
  (Some (Ok tt), mkState (gs_history s) (gs_world s) (gs_spawned s ++ [b])).

Context (env : guest_env).

(** ** Shared *)

(** A client is identified with its remote. *)
Definition connect (remote : Remote) : guest Remote := _ ← g_lift (ge_connect env remote); mret remote.
Definition connect_to_remote (config : list (string * Remote)) (id : string) : guest Remote :=
  remote ← g_lift (get_remote_of RemoteType.Pve config id); connect remote.
Definition connect_to_remote_by_id (id : string) : guest Remote :=
  remotes ← g_lift (ge_config env); connect_to_remote remotes id.
(** [raw_client_to_remote_by_id]; building either client fails for the same reasons. *)
Definition raw_client_to_remote_by_id (id : string) : guest Remote := connect_to_remote_by_id id.

Definition new_remote_upid (remote : string) (upid : PveUpid) : guest RemoteUpid :=
  g_io (track_running_pve_task remote upid).

Definition find_node_for_vm (node : option string) (vmid : Z) (pve : Remote) : guest string :=
  match node with
  | Some node => mret node
  | None =>
      entries ← ask pve ClusterVms (ge_vms env);
      g_lift (ok_or (List.find (λ entry : vm_entry, bool_decide (entry.1 = Some vmid)) entries ≫= snd) (EMsg "no such vmid"))
  end.

Definition check_guest_list_permissions (remote : string) (rpcenv : result error user) : result error (user * bool) :=
  user_info ← rpcenv;
  any ← any_privs_below user_info ["resource"%string; remote] PRIV_RESOURCE_AUDIT;
  _ ← bail_if (negb any) (EMsg "user has no access to resource list");
  let top_level_allowed := negb (Z.land PRIV_RESOURCE_AUDIT (lookup_privs user_info ["resource"%string; remote]) =? 0) in
  Ok (user_info, top_level_allowed).

Definition guest_path (remote : string) (vmid : Z) : list string := ["resource"; remote; "guest"; show_Z vmid]%string.
Definition check_guest_permissions (user_info : user) (remote : string) (privilege vmid : Z) : bool :=
  negb (Z.land (lookup_privs user_info (guest_path remote vmid)) privilege =? 0).
Definition check_guest_delete_perms (rpcenv : result error user) (remote : string) (vmid : Z) : result error unit :=
  user_info ← rpcenv;
  check_privs user_info (guest_path remote vmid) PRIV_RESOURCE_DELETE.

(** Without the netmask, and without white space around it. *)
Definition guest_address (address : string) : string :=
  trim (match split_once "/" address with Some (a, _) => a | None => address end).
Definition unwanted_address (address : string) : bool :=
  String.eqb address "" || String.eqb address "::1" || starts_with "127." address || starts_with "169.254." address
  || starts_with "fe80" (to_ascii_lowercase address).
Definition push_guest_ip_address (list : list string) (address : string) : Datatypes.list string :=
  let address := guest_address address in
  if unwanted_address address then list
  else if bool_decide (address ∈ list) then list
  else list ++ [address].

(** ** Handlers *)

(** What most handlers do first. *)
Definition on_guest {A} (remote : string) (node : option string) (vmid : Z) (k : Remote → string → guest A) : guest A :=
  pve ← connect_to_remote_by_id remote;
  node ← find_node_for_vm node vmid pve;
  k pve node.
(** A request that starts a task, which is tracked. *)
Definition start_task (remote : string) (pve : Remote) (c : call) : guest RemoteUpid :=
  upid ← ask pve c (ge_upid env);
  new_remote_upid remote upid.
(** The same for a request with a client that is built for it. *)
Definition raw_task (remote : string) (method : Method) (path : string) (payload : option Value) : guest RemoteUpid :=
  client ← raw_client_to_remote_by_id remote;
  start_task remote client (Raw method path payload).

Definition node_path (node : string) (k : guest_kind) : string := "/api2/extjs/nodes/" +:+ node +:+ "/" +:+ kind_path k.
Definition vm_path (node : string) (k : guest_kind) (vmid : Z) (sub : string) : string :=
  node_path node k +:+ "/" +:+ show_Z vmid +:+ sub.

(** [params[key] = value] for those that are not null. *)
Definition opt_params (optional : list (string * option Value)) : Map :=
  omap (M:=list) (λ '(key, value), value ← value; Some (key, value)) optional.
Definition int_value (z : Z) : Value := VNumber (NInt z).

Definition create_qemu (remote node : string) (config : Value) : guest RemoteUpid :=
  raw_task remote POST (node_path node Qemu) (Some config).
Definition qemu_update_config (remote : string) (node : option string) (vmid : Z) (config : Value) : guest unit :=
  on_guest remote node vmid (λ _ node,
    client ← raw_client_to_remote_by_id remote;
    ask client (Raw PUT (vm_path node Qemu vmid "/config") (Some config)) (ge_done env)).
Definition qemu_resize_disk (remote : string) (node : option string) (vmid : Z) (disk size : string) (digest : option string) : guest RemoteUpid :=
  on_guest remote node vmid (λ _ node,
    raw_task remote PUT (vm_path node Qemu vmid "/resize")
      (Some (VObject ([("disk"%string, VString disk); ("size"%string, VString size)] ++ opt_params [("digest"%string, VString <$> digest)])))).
Definition qemu_clone (remote : string) (node : option string) (vmid : Z) (config : Value) : guest RemoteUpid :=
  on_guest remote node vmid (λ _ node, raw_task remote POST (vm_path node Qemu vmid "/clone") (Some config)).
Definition qemu_start (remote : string) (node : option string) (vmid : Z) : guest RemoteUpid :=
  on_guest remote node vmid (λ pve node, start_task remote pve (Start Qemu node vmid)).
Definition qemu_raw_action (remote : string) (node : option string) (vmid : Z) (action : string) : guest RemoteUpid :=
  on_guest remote node vmid (λ _ node, raw_task remote POST (vm_path node Qemu vmid ("/status/" +:+ action)) (Some (VObject []))).
Definition qemu_template (remote : string) (node : option string) (vmid : Z) : guest RemoteUpid :=
  on_guest remote node vmid (λ _ node, raw_task remote POST (vm_path node Qemu vmid "/template") (Some (VObject []))).
Definition delete_qemu (remote : string) (node : option string) (vmid : Z) (rpcenv : result error user) : guest RemoteUpid :=
  _ ← g_lift (check_guest_delete_perms rpcenv remote vmid);
  on_guest remote node vmid (λ _ node, raw_task remote DELETE (vm_path node Qemu vmid "") None).
Definition qemu_delete_snapshot (remote : string) (node : option string) (vmid : Z) (snapname : string) : guest RemoteUpid :=
  on_guest remote node vmid (λ pve node, start_task remote pve (DeleteSnapshot Qemu node vmid snapname)).
Definition qemu_rollback_snapshot (remote : string) (node : option string) (vmid : Z) (snapname : string) (start : option bool) : guest RemoteUpid :=
  on_guest remote node vmid (λ pve node, start_task remote pve (RollbackSnapshot Qemu node vmid snapname start)).

Definition create_lxc (remote node : string) (config : Value) : guest RemoteUpid :=
  raw_task remote POST (node_path node Lxc) (Some config).
Definition lxc_update_config (remote : string) (node : option string) (vmid : Z) (config : Value) : guest unit :=
  on_guest remote node vmid (λ _ node,
    client ← raw_client_to_remote_by_id remote;
    ask client (Raw PUT (vm_path node Lxc vmid "/config") (Some config)) (ge_done env)).
Definition lxc_resize_disk (remote : string) (node : option string) (vmid : Z) (disk size : string) (digest : option string) : guest RemoteUpid :=
  on_guest remote node vmid (λ _ node,
    raw_task remote PUT (vm_path node Lxc vmid "/resize")
      (Some (VObject ([("disk"%string, VString disk); ("size"%string, VString size)] ++ opt_params [("digest"%string, VString <$> digest)])))).
Definition lxc_clone (remote : string) (node : option string) (vmid : Z) (config : Value) : guest RemoteUpid :=
  on_guest remote node vmid (λ _ node, raw_task remote POST (vm_path node Lxc vmid "/clone") (Some config)).
Definition lxc_start (remote : string) (node : option string) (vmid : Z) : guest RemoteUpid :=
  on_guest remote node vmid (λ pve node, start_task remote pve (Start Lxc node vmid)).
Definition lxc_raw_action (remote : string) (node : option string) (vmid : Z) (action : string) : guest RemoteUpid :=
  on_guest remote node vmid (λ _ node, raw_task remote POST (vm_path node Lxc vmid ("/status/" +:+ action)) (Some (VObject []))).
Definition lxc_template (remote : string) (node : option string) (vmid : Z) : guest RemoteUpid :=
  on_guest remote node vmid (λ _ node, raw_task remote POST (vm_path node Lxc vmid "/template") (Some (VObject []))).
Definition delete_lxc (remote : string) (node : option string) (vmid : Z) (rpcenv : result error user) : guest RemoteUpid :=
  _ ← g_lift (check_guest_delete_perms rpcenv remote vmid);
  on_guest remote node vmid (λ _ node, raw_task remote DELETE (vm_path node Lxc vmid "") None).
Definition lxc_delete_snapshot (remote : string) (node : option string) (vmid : Z) (snapname : string) : guest RemoteUpid :=
  on_guest remote node vmid (λ pve node, start_task remote pve (DeleteSnapshot Lxc node vmid snapname)).
Definition lxc_rollback_snapshot (remote : string) (node : option string) (vmid : Z) (snapname : string) (start : option bool) : guest RemoteUpid :=
  on_guest remote node vmid (λ pve node, start_task remote pve (RollbackSnapshot Lxc node vmid snapname start)).

Definition qemu_create_snapshot (remote : string) (node : option string) (vmid : Z) (snapname : string)
    (description : option string) (vmstate : option bool) : guest RemoteUpid :=
  on_guest remote node vmid (λ pve node, start_task remote pve (Snapshot Qemu node vmid snapname description vmstate)).
Definition lxc_create_snapshot (remote : string) (node : option string) (vmid : Z) (snapname : string)
    (description : option string) : guest RemoteUpid :=
  on_guest remote node vmid (λ pve node, start_task remote pve (Snapshot Lxc node vmid snapname description None)).

Definition qemu_move_disk (remote : string) (node : option string) (vmid : Z) (disk : string) (storage format : option string)
    (delete : option bool) (digest : option string) (target_vmid : option Z) (target_disk target_digest : option string)
    (bwlimit : option Z) : guest RemoteUpid :=
  on_guest remote node vmid (λ _ node,
    raw_task remote POST (vm_path node Qemu vmid "/move_disk")
      (Some (VObject (("disk"%string, VString disk) :: opt_params
        [("storage"%string, VString <$> storage); ("format"%string, VString <$> format); ("delete"%string, VBool <$> delete);
         ("digest"%string, VString <$> digest); ("target-vmid"%string, int_value <$> target_vmid);
         ("target-disk"%string, VString <$> target_disk); ("target-digest"%string, VString <$> target_digest);
         ("bwlimit"%string, int_value <$> bwlimit)])))).
Definition lxc_move_volume (remote : string) (node : option string) (vmid : Z) (volume disk storage : option string)
    (delete : option bool) (digest : option string) (target_vmid : option Z) (target_volume target_digest : option string)
    (bwlimit : option Z) : guest RemoteUpid :=
  match match volume with Some volume => Some volume | None => disk end with
  | None => g_lift (Err (EMsg "missing parameter: 'volume'"))
  | Some volume =>
      on_guest remote node vmid (λ _ node,
        raw_task remote POST (vm_path node Lxc vmid "/move_volume")
          (Some (VObject (("volume"%string, VString volume) :: opt_params
            [("storage"%string, VString <$> storage); ("delete"%string, VBool <$> delete); ("digest"%string, VString <$> digest);
             ("target-vmid"%string, int_value <$> target_vmid); ("target-volume"%string, VString <$> target_volume);
             ("target-digest"%string, VString <$> target_digest); ("bwlimit"%string, int_value <$> bwlimit)]))))
  end.

(** [(remote, upid.to_string()).try_into()] *)
Definition untracked_task (remote : string) (pve : Remote) (c : call) : guest RemoteUpid :=
  upid ← ask pve c (ge_upid env);
  g_lift (try_from_pair remote (pve_to_string upid)).
Definition qemu_stop (remote : string) (node : option string) (vmid : Z) : guest RemoteUpid :=
  on_guest remote node vmid (λ pve node, untracked_task remote pve (Stop Qemu node vmid)).
Definition qemu_shutdown (remote : string) (node : option string) (vmid : Z) : guest RemoteUpid :=
  on_guest remote node vmid (λ pve node, untracked_task remote pve (Shutdown Qemu node vmid None None)).
Definition qemu_resume (remote : string) (node : option string) (vmid : Z) : guest RemoteUpid :=
  on_guest remote node vmid (λ pve node, start_task remote pve (Resume node vmid)).
Definition lxc_stop (remote : string) (node : option string) (vmid : Z) : guest RemoteUpid :=
  on_guest remote node vmid (λ pve node, start_task remote pve (Stop Lxc node vmid)).
Definition lxc_shutdown (remote : string) (node : option string) (vmid : Z) : guest RemoteUpid :=
  on_guest remote node vmid (λ pve node, start_task remote pve (Shutdown Lxc node vmid None None)).

Definition qemu_migrate (remote : string) (node : option string) (vmid : Z) (params : MigrateQemu) : guest RemoteUpid :=
  on_guest remote node vmid (λ pve node,
    _ ← g_lift (bail_if (String.eqb node (mq_target params)) (EMsg "refusing migration to the same node"));
    start_task remote pve (CallMigrateQemu node vmid params)).
Definition lxc_migrate (remote : string) (node : option string) (vmid : Z) (bwlimit : option Z) (restart online : option bool)
    (target : string) (target_storage : option (list string)) (timeout : option Z) : guest RemoteUpid :=
  on_guest remote node vmid (λ pve node,
    _ ← g_lift (bail_if (String.eqb node target) (EMsg "refusing migration to the same node"));
    start_task remote pve
      (CallMigrateLxc node vmid (mkMigrateLxc (f64_of_u64 <$> bwlimit) online restart target target_storage timeout))).

(** [list_qemu] and [list_lxc]; of an entry, only the id is read. *)
Fixpoint list_on_nodes (k : guest_kind) (pve : Remote) (nodes : list string) : guest (list Z) :=
  match nodes with
  | [] => mret []
  | node :: nodes => l ← ask pve (ListGuests k node) (ge_guests env); rest ← list_on_nodes k pve nodes; mret (l ++ rest)
  end.
Definition list_guests (k : guest_kind) (remote : string) (node : option string) (rpcenv : result error user) : guest (list Z) :=
  '(user_info, top_level_allowed) ← g_lift (check_guest_list_permissions remote rpcenv);
  pve ← connect_to_remote_by_id remote;
  list ← match node with
         | Some node => ask pve (ListGuests k node) (ge_guests env)
         | None => nodes ← ask pve ListNodes (ge_nodes env); list_on_nodes k pve nodes
         end;
  mret (if (top_level_allowed : bool) then list else List.filter (check_guest_permissions user_info remote PRIV_RESOURCE_AUDIT) list).
Definition list_qemu : string → option string → result error user → guest (list Z) := list_guests Qemu.
Definition list_lxc : string → option string → result error user → guest (list Z) := list_guests Lxc.

(** [.and_then(Value::as_array).map(Vec::as_slice).unwrap_or_default()] *)
Definition as_array_or_empty (v : option Value) : list Value := match v with Some (VArray l) => l | _ => [] end.
Definition is_loopback (interface : Value) : bool := bool_decide ((get interface "name" ≫= as_str) = Some "lo"%string).
Definition push_opt (addresses : list string) (address : option string) : list string :=
  match address with Some address => push_guest_ip_address addresses address | None => addresses end.

Definition qemu_addresses (response : Value) : list string :=
  foldl (λ addresses interface,
    if is_loopback interface then addresses
    else foldl (λ addresses entry, push_opt addresses (get entry "ip-address" ≫= as_str)) addresses
           (as_array_or_empty (get interface "ip-addresses"))) [] (as_array_or_empty (get response "result")).
Definition lxc_addresses (interfaces : Value) : list string :=
  foldl (λ addresses interface,
    if is_loopback interface then addresses
    else foldl (λ addresses key, push_opt addresses (get interface key ≫= as_str)) addresses ["inet"; "inet6"]%string)
    [] (as_array_or_empty (Some interfaces)).
Definition qemu_ip_addresses (remote : string) (node : option string) (vmid : Z) : guest (list string) :=
  on_guest remote node vmid (λ _ node,
    client ← raw_client_to_remote_by_id remote;
    response ← ask client (Raw GET (vm_path node Qemu vmid "/agent/network-get-interfaces") None) (ge_value env);
    mret (qemu_addresses response)).
Definition lxc_ip_addresses (remote : string) (node : option string) (vmid : Z) : guest (list string) :=
  on_guest remote node vmid (λ _ node,
    client ← raw_client_to_remote_by_id remote;
    interfaces ← ask client (Raw GET (vm_path node Lxc vmid "/interfaces") None) (ge_value env);
    mret (lxc_addresses interfaces)).
End guests.
