(* ===== verification/GuestMigration.v ===== *)
(** * Migrating guests between remotes

    Model of [qemu_remote_migrate] and [lxc_remote_migrate] in [server/src/api/pve/],
    and of the choice of the target node in [mod.rs].  A container that is to be
    restarted and deleted on the source is shut down by the Datacenter Manager before it
    migrates, and started again in the background when the migration has finished:
    [spawn] puts this on a list, [run_background] does it.  [fuel] bounds the questions
    for the status of one task. *)

From S2P Require Import Prelude FileSystem RemoteUpid SectionConfig Resource ResourceList RemoteCache TaskItems TaskCache TaskList RemotesConfig JsonValue PveGuests.

Section migration.
Context `{SafeIdRegex} `{UpidFields} `{TaskCodec} `{AuthidType} `{AuthorityParse}.
Context {CS : Type} `{SectionConfigData CS RemoteShadow} `{SectionText CS}.
Context (authid_to_string : Authid → string).
Context (env : guest_env).

(** ** The target *)

Definition select_migration_target_node (remote : Remote) (target_endpoint : option string) : result error NodeUrl :=
  match target_endpoint with
  | Some hostname =>
      ok_or (List.find (λ n, String.eqb (nu_hostname n) hostname) (r_nodes remote))
        (EMsg (hostname +:+ " not configured for target cluster"))
  | None =>
      ok_or (match List.find (λ n, host_is_reachable (ge_cache env) (r_id remote) (nu_hostname n)) (r_nodes remote) with
             | Some n => Some n
             | None => head (r_nodes remote)
             end) (EMsg "no nodes configured for target cluster")
  end.

Definition build_migration_endpoint (remote : Remote) (node : NodeUrl) : guest string :=
  authority ← g_lift (parse_authority (nu_hostname node));
  secret ← g_io (get_secret_token (CS := CS) remote);
  let endpoint := "host=" +:+ authority.1 +:+ ",port=" +:+ show_Z (default 8006 authority.2) +:+ ",apitoken=PVEAPIToken="
                    +:+ authid_to_string (r_authid remote) +:+ "=" +:+ secret in
  mret (match nu_fingerprint node with Some fp => endpoint +:+ ",fingerprint=" +:+ fp | None => endpoint end).

(** ** Both kinds of guests *)

(** The checks that the two handlers start with. *)
Definition check_migration (remote target : string) (vmid : Z) (target_vmid : option Z) (delete : bool) (rpcenv : result error user)
    : result error unit :=
  user_info ← rpcenv;
  let target_privs := lookup_privs user_info (guest_path target (default vmid target_vmid)) in
  _ ← bail_if (Z.land target_privs PRIV_RESOURCE_MIGRATE =? 0) (EMsg "missing PRIV_RESOURCE_MIGRATE on target remote+vmid");
  _ ← if delete then check_guest_delete_perms rpcenv remote vmid else Ok tt;
  bail_if (String.eqb remote target) (EMsg "source and destination clusters must be different").

(** The parts that follow: the target, the source and the node of the guest, and the
    endpoint. *)
Definition prepare_migration (source target : string) (node : option string) (vmid : Z) (target_endpoint : option string)
    : guest (Remote * Remote * string * string) :=
  remotes ← g_lift (ge_config env);
  target ← g_lift (get_remote_of RemoteType.Pve remotes target);
  source_conn ← connect_to_remote env remotes source;
  node ← find_node_for_vm env node vmid source_conn;
  target_node ← g_lift (select_migration_target_node target target_endpoint);
  target_endpoint ← build_migration_endpoint target target_node;
  mret (target, source_conn, node, target_endpoint).

Record migration_params : Type := mkMigration {
  mg_target_vmid : option Z;
  mg_delete : bool;
  mg_online : bool;
  mg_target_storage : list string;
  mg_target_bridge : list string;
  mg_bwlimit : option Z;
}.

Definition qemu_remote_migrate (remote target : string) (node : option string) (vmid : Z) (p : migration_params)
    (target_endpoint : option string) (rpcenv : result error user) : guest RemoteUpid :=
  _ ← g_lift (check_migration remote target vmid (mg_target_vmid p) (mg_delete p) rpcenv);
  '(_, source_conn, node, target_endpoint) ← prepare_migration remote target node vmid target_endpoint;
  upid ← ask source_conn
    (CallRemoteMigrate Qemu node vmid
       (mkRemoteMigrate (mg_target_bridge p) (mg_target_storage p) (Some (mg_delete p)) (Some (mg_online p)) (mg_target_vmid p)
          target_endpoint (mg_bwlimit p) None None None)) (ge_upid env);
  new_remote_upid remote upid.

(** ** Containers *)

Fixpoint wait_for_pve_task (fuel : nat) (failed_polls : Z) (pve : Remote) (node upid : string) : guest bool :=
  match fuel with
  | O => λ s, (None, s)
  | S fuel =>
      r ← g_try (ask pve (TaskStatus node upid) (ge_task env));
      match r with
      | Ok status =>
          if negb (ts_running status) then mret (bool_decide (ts_success status = Some true))
          else wait_for_pve_task fuel 0 pve node upid
      | Err err =>
          if failed_polls <? 12 then wait_for_pve_task fuel (failed_polls + 1) pve node upid
          else g_lift (Err err)
      end
  end.

Definition shutdown_lxc_and_wait (fuel : nat) (pve : Remote) (node : string) (vmid : Z) (timeout : option Z) : guest unit :=
  upid ← ask pve (Shutdown Lxc node vmid (Some true) (Some (Z.max (default 180 timeout) 0))) (ge_upid env);
  ok ← wait_for_pve_task fuel 0 pve node (pve_to_string upid);
  g_lift (bail_if (negb ok) (EMsg "could not shut down CT for the migration")).

(** An error is logged. *)
Definition start_lxc_logged (pve : Remote) (node : string) (vmid : Z) : guest unit :=
  _ ← g_try (ask pve (Start Lxc node vmid) (ge_upid env)); mret tt.

Definition start_after_remote_migration (fuel : nat) (b : background) : guest unit :=
  r ← g_try (wait_for_pve_task fuel 0 (bg_source b) (bg_source_node b) (bg_upid b));
  match r with
  | Ok true =>
      _ ← g_try (
        node ← find_node_for_vm env None (bg_target_vmid b) (bg_target b);
        upid ← ask (bg_target b) (Start Lxc node (bg_target_vmid b)) (ge_upid env);
        new_remote_upid (r_id (bg_target b)) upid);
      mret tt
  | Ok false => start_lxc_logged (bg_source b) (bg_source_node b) (bg_vmid b)
  | Err _ => mret tt
  end.

Definition lxc_remote_migrate (fuel : nat) (remote target : string) (node : option string) (vmid : Z) (p : migration_params)
    (restart : option bool) (timeout : option Z) (target_endpoint : option string) (rpcenv : result error user) : guest RemoteUpid :=
  _ ← g_lift (check_migration remote target vmid (mg_target_vmid p) (mg_delete p) rpcenv);
  '(target, source_conn, node, target_endpoint) ← prepare_migration remote target node vmid target_endpoint;
  restart_here ←
    (if mg_delete p && default false restart then ask source_conn (LxcStatus node vmid) (ge_lxc_running env) else mret false);
  _ ← (if (restart_here : bool) then shutdown_lxc_and_wait fuel source_conn node vmid timeout else mret tt);
  r ← g_try (ask source_conn
    (CallRemoteMigrate Lxc node vmid
       (mkRemoteMigrate (mg_target_bridge p) (mg_target_storage p) (Some (mg_delete p)) (Some (mg_online p)) (mg_target_vmid p)
          target_endpoint None (f64_of_u64 <$> mg_bwlimit p)
          (if (restart_here : bool) then None else restart) (if (restart_here : bool) then None else timeout))) (ge_upid env));
  match r with
  | Err err =>
      _ ← (if (restart_here : bool) then start_lxc_logged source_conn node vmid else mret tt);
      g_lift (Err err)
  | Ok upid =>
      _ ← (if (restart_here : bool) then
             target_conn ← connect env target;
             spawn (mkBackground source_conn node vmid (pve_to_string upid) target_conn (default vmid (mg_target_vmid p)))
           else mret tt);
      new_remote_upid remote upid
  end.

(** The tasks that were spawned, one after the other. *)
Fixpoint run_background (fuel : nat) (l : list background) : guest unit :=
  match l with
  | [] => mret tt
  | b :: l => _ ← start_after_remote_migration fuel b; run_background fuel l
  end.
(** A request and what it leaves running. *)
Definition take_spawned : guest (list background) := λ s,
  (Some (Ok (gs_spawned s)), mkState (gs_history s) (gs_world s) []).
Definition migrate_and_finish (fuel : nat) (m : guest RemoteUpid) : guest (result error RemoteUpid) :=
  r ← g_try m;
  l ← take_spawned;
  _ ← run_background fuel l;
  mret r.
End migration.
