(* ===== verification/GuestSpec.v ===== *)
(** * Migrations between remotes are safe

    No request is made for a caller without the privileges; the target is a configured
    node; and a container that was shut down for a migration is started again, on the
    source or on the target, unless the remotes no longer answer. *)

From S2P Require Import Prelude FileSystem RemoteUpid SectionConfig Resource ResourceList RemoteCache TaskItems TaskCache TaskList RemotesConfig JsonValue PveGuests GuestMigration.

Section spec.
Context `{SafeIdRegex} `{UpidFields} `{TaskCodec} `{AuthidType} `{AuthorityParse}.
Context {CS : Type} `{SectionConfigData CS RemoteShadow} `{SectionText CS}.
Context (authid_to_string : Authid → string).
Context (env : guest_env).
Implicit Types (s : gstate).

(** ** Running a computation *)

Lemma g_bind_inv {A B} (m : guest A) (k : A → guest B) s r s' :
  (m ≫= k) s = (r, s') →
  (∃ a s1, m s = (Some (Ok a), s1) ∧ k a s1 = (r, s')) ∨
  (∃ e, m s = (Some (Err e), s') ∧ r = Some (Err e)) ∨
  (m s = (None, s') ∧ r = None).
Proof.
  unfold mbind, guest_bind. destruct (m s) as [[[a|e]|] s1]; [by eauto|..].
  - intros [= <- <-]. eauto.
  - intros [= <- <-]. eauto.
Qed.

(** A computation that makes the requests in [l], spawns nothing, and for which [Q]
    holds of them and the result. *)
Definition makes {A} (m : guest A) s (Q : option (result error A) → list request → Prop) : Prop :=
  ∃ l, gs_history (m s).2 = gs_history s ++ l ∧ gs_spawned (m s).2 = gs_spawned s ∧ Q (m s).1 l.

Lemma makes_ret {A} (a : A) s (Q : option (result error A) → list request → Prop) : Q (Some (Ok a)) [] → makes (mret a) s Q.
Proof. exists []. by rewrite app_nil_r. Qed.
Lemma makes_lift {A} (r : result error A) s (Q : option (result error A) → list request → Prop) : Q (Some r) [] → makes (g_lift r) s Q.
Proof. exists []. by rewrite app_nil_r. Qed.
Lemma makes_io {A} (m : io A) s (Q : option (result error A) → list request → Prop) : (∀ r, Q (Some r) []) → makes (g_io m) s Q.
Proof. intros HQ. exists []. unfold g_io. destruct (m (gs_world s)) as [r w]. cbn. by rewrite app_nil_r. Qed.
Lemma makes_ask {A} remote c (f : list request → result error A) s (Q : option (result error A) → list request → Prop) :
  Q (Some (f (gs_history s ++ [(r_id remote, c)]))) [(r_id remote, c)] → makes (ask remote c f) s Q.
Proof. intros HQ. by exists [(r_id remote, c)]. Qed.
Lemma makes_bind {A B} (m : guest A) (k : A → guest B) s (R : option (result error A) → list request → Prop)
    (Q : option (result error B) → list request → Prop) :
  makes m s R →
  (∀ a l s1, gs_history s1 = gs_history s ++ l → R (Some (Ok a)) l → makes (k a) s1 (λ r l', Q r (l ++ l'))) →
  (∀ e l, R (Some (Err e)) l → Q (Some (Err e)) l) → (∀ l, R None l → Q None l) →
  makes (m ≫= k) s Q.
Proof.
  intros (l&Hl&Hsp&HR) Hk He Hn. unfold makes, mbind, guest_bind. destruct (m s) as [[[a|e]|] s1]; cbn [fst snd] in *.
  - destruct (Hk a l s1 Hl HR) as (l'&Hl'&Hsp'&HQ). exists (l ++ l'). rewrite Hl', Hl, <-app_assoc, Hsp'. done.
  - exists l. eauto.
  - exists l. eauto.
Qed.
Lemma makes_try {A} (m : guest A) s (Q : option (result error (result error A)) → list request → Prop) :
  makes m s (λ r l, Q (Ok <$> r) l) → makes (g_try m) s Q.
Proof. intros (l&Hl&Hsp&HQ). exists l. unfold g_try. destruct (m s) as [[r|] s1]; cbn in *; eauto. Qed.
Lemma makes_conseq {A} (m : guest A) s (P Q : option (result error A) → list request → Prop) :
  makes m s P → (∀ r l, P r l → Q r l) → makes m s Q.
Proof. intros (l&?&?&?) HPQ. exists l. auto. Qed.

Lemma new_remote_upid_silent remote upid s : makes (new_remote_upid remote upid) s (λ _ l, l = []).
Proof. by apply makes_io. Qed.

Lemma find_node_makes node vmid pve s :
  makes (find_node_for_vm env node vmid pve) s
    (λ r l, l = [] ∧ (∃ n, node = Some n ∧ r = Some (Ok n)) ∨
       l = [(r_id pve, ClusterVms)] ∧ node = None ∧
       r = Some (entries ← ge_vms env (gs_history s ++ l);
                 ok_or (List.find (λ entry : vm_entry, bool_decide (entry.1 = Some vmid)) entries ≫= snd) (EMsg "no such vmid"))).
Proof.
  unfold find_node_for_vm. destruct node as [n|]; [apply makes_ret; eauto|].
  eapply makes_bind; [by apply (makes_ask _ _ _ _ (λ r l, l = [(r_id pve, ClusterVms)] ∧ r = Some (ge_vms env (gs_history s ++ l))))|..].
  - intros entries l s1 Hs1 [-> Hr]. apply makes_lift. right. rewrite app_nil_r. injection Hr as <-. done.
  - intros e l [-> Hr]. right. injection Hr as <-. done.
  - intros l [_ ?]. done.
Qed.

(** A task whose last status was asked for at the end of [h] has ended, and whether it
    succeeded. *)
Definition task_ended (h : list request) (ok : bool) : Prop :=
  ∃ status, ge_task env h = Ok status ∧ ts_running status = false ∧ ok = bool_decide (ts_success status = Some true).

(** Waiting for a task only asks for its status; when it ends, the last answer was that
    the task has stopped, or an error. *)
Definition poll_of (pve : Remote) (node upid : string) : request := (r_id pve, TaskStatus node upid).
Definition polled_out (pve : Remote) (node upid : string) (l : list request) : Prop :=
  l ≠ [] ∧ ∀ q, q ∈ l → q = poll_of pve node upid.
Definition waited (h : list request) (r : option (result error bool)) (l : list request) : Prop :=
  match r with
  | Some (Ok ok) => task_ended (h ++ l) ok
  | Some (Err e) => ge_task env (h ++ l) = Err e
  | None => True
  end.

Lemma polled_out_one pve node upid : polled_out pve node upid [poll_of pve node upid].
Proof. split; [done|]. by intros q ->%list_elem_of_singleton. Qed.
Lemma polled_out_cons pve node upid l :
  (∀ q, q ∈ l → q = poll_of pve node upid) → polled_out pve node upid (poll_of pve node upid :: l).
Proof. intros Hl. split; [done|]. intros q [->|Hq]%elem_of_cons; auto. Qed.

Lemma wait_makes fuel pve node upid : ∀ failed s,
  makes (wait_for_pve_task env fuel failed pve node upid) s
    (λ r l, (∀ q, q ∈ l → q = poll_of pve node upid) ∧ (r = None ∨ l ≠ []) ∧ waited (gs_history s) r l).
Proof.
  induction fuel as [|fuel IH]; intros failed s; cbn [wait_for_pve_task].
  { exists []. cbn. rewrite app_nil_r. split_and!; [done..|by intros q ?%elem_of_nil|by left|done]. }
  apply (makes_bind _ _ _ (λ r l, l = [poll_of pve node upid] ∧ r = Some (Ok (ge_task env (gs_history s ++ l))))).
  { by apply makes_try, makes_ask. }
  2: { by intros e l [_ ?]. }
  2: { by intros l [_ ?]. }
  intros r l s1 Hs1 [-> [= Hr]].
  assert (∀ m : guest bool,
    makes m s1 (λ r l, (∀ q, q ∈ l → q = poll_of pve node upid) ∧ (r = None ∨ l ≠ []) ∧ waited (gs_history s1) r l) →
    makes m s1 (λ r l, (∀ q, q ∈ [poll_of pve node upid] ++ l → q = poll_of pve node upid) ∧
      (r = None ∨ [poll_of pve node upid] ++ l ≠ []) ∧ waited (gs_history s) r ([poll_of pve node upid] ++ l))) as Hcons.
  { intros m Hm. eapply makes_conseq; [exact Hm|]. intros r' l' (Hl&_&HQ). rewrite Hs1 in HQ. split_and!; [by apply polled_out_cons|by right|].
    unfold waited in *. by rewrite <-app_assoc in HQ. }
  destruct r as [status|err].
  - destruct (ts_running status) eqn:Hrun; cbn [negb]; [apply Hcons, IH|].
    apply makes_ret. rewrite app_nil_r. split_and!; [apply polled_out_one|by right|]. exists status. by rewrite Hr.
  - destruct (failed <? 12); [apply Hcons, IH|].
    apply makes_lift. rewrite app_nil_r. split_and!; [apply polled_out_one|by right|]. cbn. by rewrite Hr.
Qed.

(** ** The checks and the target *)

Record authorized (u : user) (remote target : string) (vmid : Z) (target_vmid : option Z) (delete : bool) : Prop := {
  au_migrate : Z.land (lookup_privs u (guest_path target (default vmid target_vmid))) PRIV_RESOURCE_MIGRATE ≠ 0;
  au_delete : delete = true → check_privs u (guest_path remote vmid) PRIV_RESOURCE_DELETE = Ok tt;
  au_different : remote ≠ target;
}.

Lemma check_migration_Ok remote target vmid target_vmid delete rpcenv :
  check_migration remote target vmid target_vmid delete rpcenv = Ok tt →
  ∃ u, rpcenv = Ok u ∧ authorized u remote target vmid target_vmid delete.
Proof.
  unfold check_migration. intros Hc. apply bind_Ok_inv in Hc as (u&Hu&Hc). exists u. split; [done|].
  apply bind_Ok_inv in Hc as ([]&Hm&Hc). apply bail_if_Ok in Hm. apply bind_Ok_inv in Hc as ([]&Hd&Hc). apply bail_if_Ok in Hc.
  split; [by apply Z.eqb_neq|..|by apply String.eqb_neq].
  intros ->. unfold check_guest_delete_perms in Hd. subst rpcenv. exact Hd.
Qed.

(** What is known when the migration is prepared. *)
Record prepared (source target : string) (target_endpoint : option string) (x : Remote * Remote * string * string) : Prop := {
  pr_config : ∃ cfg, ge_config env = Ok cfg ∧ get_remote_of RemoteType.Pve cfg target = Ok x.1.1.1 ∧
    get_remote_of RemoteType.Pve cfg source = Ok x.1.1.2;
  pr_node : ∃ n, select_migration_target_node env x.1.1.1 target_endpoint = Ok n;
}.

(** Requests that change nothing. *)
Definition passive (c : call) : bool :=
  match c with ClusterVms | ListNodes | ListGuests _ _ | LxcStatus _ _ | TaskStatus _ _ => true | _ => false end.
Definition all_passive (l : list request) : Prop := ∀ q, q ∈ l → passive q.2 = true.

Lemma all_passive_nil : all_passive [].
Proof. by intros q ?%elem_of_nil. Qed.
Lemma all_passive_app l1 l2 : all_passive l1 → all_passive l2 → all_passive (l1 ++ l2).
Proof. intros H1' H2' q [Hq|Hq]%elem_of_app; auto. Qed.
Lemma all_passive_single r c : passive c = true → all_passive [(r, c)].
Proof. by intros Hc q ->%list_elem_of_singleton. Qed.

Lemma makes_passive_bind {A B} (m : guest A) (k : A → guest B) s (R : option (result error A) → Prop) (Q : option (result error B) → Prop) :
  makes m s (λ r l, all_passive l ∧ R r) →
  (∀ a s1, R (Some (Ok a)) → makes (k a) s1 (λ r l, all_passive l ∧ Q r)) →
  (∀ e, R (Some (Err e)) → Q (Some (Err e))) → (R None → Q None) →
  makes (m ≫= k) s (λ r l, all_passive l ∧ Q r).
Proof.
  intros Hm Hk He Hn. eapply makes_bind; [exact Hm|..].
  - intros a l s1 _ [Hl HR]. eapply makes_conseq; [by apply Hk|]. intros r l' [Hl' HQ]. split; [by apply all_passive_app|done].
  - intros e l [? ?]. auto.
  - intros l [? ?]. auto.
Qed.
Lemma makes_passive_lift {A} (r : result error A) s (Q : option (result error A) → Prop) : Q (Some r) → makes (g_lift r) s (λ r l, all_passive l ∧ Q r).
Proof. intros HQ. apply makes_lift. split; [apply all_passive_nil|done]. Qed.

Lemma find_node_passive node vmid pve s : makes (find_node_for_vm env node vmid pve) s (λ _ l, all_passive l).
Proof.
  eapply makes_conseq; [apply find_node_makes|]. intros r l [[-> _]|[-> _]]; [apply all_passive_nil|by apply all_passive_single].
Qed.

Lemma prepare_makes source target node vmid target_endpoint s :
  makes (prepare_migration authid_to_string env source target node vmid target_endpoint) s
    (λ r l, all_passive l ∧ match r with Some (Ok x) => prepared source target target_endpoint x | Some (Err _) => True | None => False end).
Proof.
  unfold prepare_migration.
  apply (makes_passive_bind _ _ _ (λ r, r = Some (ge_config env))); [by apply makes_passive_lift|..]; [|naive_solver..].
  intros cfg s1 Hcfg. injection Hcfg as Hcfg.
  apply (makes_passive_bind _ _ _ (λ r, r = Some (get_remote_of RemoteType.Pve cfg target))); [by apply makes_passive_lift|..]; [|naive_solver..].
  intros tgt s2 Htgt. injection Htgt as Htgt.
  apply (makes_passive_bind _ _ _ (λ r, match r with Some (Ok a) => get_remote_of RemoteType.Pve cfg source = Ok a | Some (Err _) => True | None => False end)).
  { unfold connect_to_remote. apply (makes_passive_bind _ _ _ (λ r, r = Some (get_remote_of RemoteType.Pve cfg source))); [by apply makes_passive_lift|..]; [|naive_solver..].
    intros src s3 Hsrc. injection Hsrc as Hsrc. unfold connect.
    apply (makes_passive_bind _ _ _ (λ r, r ≠ None)); [by apply makes_passive_lift|..]; [|done..].
    intros [] s4 _. exists []. cbn. rewrite app_nil_r. split_and!; [done..|apply all_passive_nil|done]. }
  all: try naive_solver.
  intros src s3 Hsrc.
  apply (makes_passive_bind _ _ _ (λ r, r ≠ None)).
  { eapply makes_conseq; [apply find_node_makes|]. intros r l [[-> (n&_&->)]|(->&_&->)]; (split; [|done]); [apply all_passive_nil|by apply all_passive_single]. }
  all: try done.
  intros n s4 _.
  apply (makes_passive_bind _ _ _ (λ r, r = Some (select_migration_target_node env tgt target_endpoint))); [by apply makes_passive_lift|..]; [|naive_solver..].
  intros tn s5 Htn. injection Htn as Htn.
  apply (makes_passive_bind _ _ _ (λ r, r ≠ None)).
  { unfold build_migration_endpoint.
    apply (makes_passive_bind _ _ _ (λ r, r ≠ None)); [by apply makes_passive_lift|..]; [|done..]. intros a s6 _.
    apply (makes_passive_bind _ _ _ (λ r, r ≠ None)); [apply makes_io; intros r; split; [apply all_passive_nil|done]|..]; [|done..]. intros b s7 _.
    exists []. cbn. rewrite app_nil_r. split_and!; [done..|apply all_passive_nil|done]. }
  all: try done.
  intros ep s6 _. exists []. cbn. rewrite app_nil_r. split_and!; [done..|apply all_passive_nil|]. split; cbn; eauto 10.
Qed.

(** ** The migration of a container *)

Lemma makes_run {A} (m : guest A) s Q r s' : makes m s Q → m s = (r, s') →
  ∃ l, gs_history s' = gs_history s ++ l ∧ gs_spawned s' = gs_spawned s ∧ Q r l.
Proof. intros (l&?&?&?) Hm. rewrite Hm in *. eauto. Qed.

Definition remote_of (id : string) (remote : Remote) : Prop :=
  ∃ cfg, ge_config env = Ok cfg ∧ get_remote_of RemoteType.Pve cfg id = Ok remote.

Definition is_start (q : request) : bool := match q.2 with Start _ _ _ => true | _ => false end.
Definition is_shutdown (q : request) : bool := match q.2 with Shutdown _ _ _ _ _ => true | _ => false end.
Definition is_migration (q : request) : bool := match q.2 with CallRemoteMigrate _ _ _ _ => true | _ => false end.
Definition no (f : request → bool) (l : list request) : Prop := ∀ q, q ∈ l → f q = false.

Lemma no_nil f : no f [].
Proof. by intros q ?%elem_of_nil. Qed.
Lemma no_single f q : f q = false → no f [q].
Proof. by intros Hf q' ->%list_elem_of_singleton. Qed.
Lemma no_app f l1 l2 : no f l1 → no f l2 → no f (l1 ++ l2).
Proof. intros H1' H2' q [Hq|Hq]%elem_of_app; auto. Qed.
Lemma no_polls f pve node upid l :
  f (poll_of pve node upid) = false → (∀ q, q ∈ l → q = poll_of pve node upid) → no f l.
Proof. intros Hf Hl q Hq. by rewrite (Hl q Hq). Qed.
Lemma passive_no f l : (∀ q, passive q.2 = true → f q = false) → all_passive l → no f l.
Proof. intros Hf Hl q Hq. auto. Qed.
Lemma passive_start q : passive q.2 = true → is_start q = false.
Proof. unfold is_start. by destruct (q.2). Qed.
Lemma passive_shutdown q : passive q.2 = true → is_shutdown q = false.
Proof. unfold is_shutdown. by destruct (q.2). Qed.
Lemma passive_migration q : passive q.2 = true → is_migration q = false.
Proof. unfold is_migration. by destruct (q.2). Qed.

(** As [makes], with what is spawned. *)
Definition does {A} (m : guest A) s (Q : option (result error A) → list request → list background → Prop) : Prop :=
  ∃ l b, gs_history (m s).2 = gs_history s ++ l ∧ gs_spawned (m s).2 = gs_spawned s ++ b ∧ Q (m s).1 l b.

Lemma does_makes {A} (m : guest A) s (Q : option (result error A) → list request → list background → Prop) :
  makes m s (λ r l, Q r l []) → does m s Q.
Proof. intros (l&?&?&?). exists l, []. rewrite app_nil_r. done. Qed.
Lemma does_bind {A B} (m : guest A) (k : A → guest B) s (R : option (result error A) → list request → Prop)
    (Q : option (result error B) → list request → list background → Prop) :
  makes m s R →
  (∀ a l s1, gs_history s1 = gs_history s ++ l → R (Some (Ok a)) l → does (k a) s1 (λ r l' b, Q r (l ++ l') b)) →
  (∀ e l, R (Some (Err e)) l → Q (Some (Err e)) l []) → (∀ l, R None l → Q None l []) →
  does (m ≫= k) s Q.
Proof.
  intros (l&Hl&Hsp&HR) Hk He Hn. unfold does, mbind, guest_bind. destruct (m s) as [[[a|e]|] s1]; cbn [fst snd] in *.
  - destruct (Hk a l s1 Hl HR) as (l'&b&Hl'&Hsp'&HQ). exists (l ++ l'), b. rewrite Hl', Hl, <-app_assoc, Hsp', Hsp. done.
  - exists l, []. rewrite app_nil_r. eauto.
  - exists l, []. rewrite app_nil_r. eauto.
Qed.
(** The last step only works on the files. *)
Lemma does_silent {A B} (m : guest A) (k : A → guest B) s (R : option (result error A) → list request → list background → Prop)
    (Q : option (result error B) → list request → list background → Prop) :
  does m s R → (∀ a s1, makes (k a) s1 (λ _ l, l = [])) →
  (∀ a r l b, R (Some (Ok a)) l b → Q r l b) → (∀ e l b, R (Some (Err e)) l b → Q (Some (Err e)) l b) →
  (∀ l b, R None l b → Q None l b) → does (m ≫= k) s Q.
Proof.
  intros (l&b&Hl&Hsp&HR) Hk Ha He Hn. exists l, b. unfold mbind, guest_bind. destruct (m s) as [[[a|e]|] s1]; cbn [fst snd] in *; [|by eauto..].
  destruct (Hk a s1) as (l'&Hl'&Hsp'&->). rewrite Hl', Hl, Hsp', Hsp, app_nil_r. eauto.
Qed.

Section lxc.
Context (fuel : nat) (source target : string) (node : option string) (vmid : Z) (p : migration_params).
Context (restart : option bool) (timeout : option Z) (target_endpoint : option string) (rpcenv : result error user).

(** A shutdown of the container, requested after [h], with the polls of its task: it
    succeeded, or it did not. *)
Definition shutdown_of (pve : Remote) (n : string) (q : request) : Prop :=
  ∃ f t, q = (r_id pve, Shutdown Lxc n vmid f t).
Definition shut_down (h : list request) (pve : Remote) (n : string) (ok : bool) (l : list request) : Prop :=
  ∃ q upid polls, l = q :: polls ∧ shutdown_of pve n q ∧ ge_upid env (h ++ [q]) = Ok upid ∧
    polled_out pve n (pve_to_string upid) polls ∧ task_ended (h ++ l) ok.
Definition not_shut_down (h : list request) (pve : Remote) (n : string) (l : list request) : Prop :=
  shut_down h pve n false l ∨
  (∃ q e, l = [q] ∧ shutdown_of pve n q ∧ ge_upid env (h ++ l) = Err e) ∨
  (∃ q upid polls e, l = q :: polls ∧ shutdown_of pve n q ∧ ge_upid env (h ++ [q]) = Ok upid ∧
     polled_out pve n (pve_to_string upid) polls ∧ ge_task env (h ++ l) = Err e).

(** After only asking, the container was shut down, or could not be. *)
Definition stopped (h : list request) (pve : Remote) (n : string) (l : list request) : Prop :=
  ∃ l0 l1, l = l0 ++ l1 ∧ all_passive l0 ∧ shut_down (h ++ l0) pve n true l1.
Definition not_stopped (h : list request) (l : list request) : Prop :=
  ∃ pve n l0 l1, l = l0 ++ l1 ∧ all_passive l0 ∧ not_shut_down (h ++ l0) pve n l1.

Lemma shutdown_no f pve n q l upid : (∀ r fs t, f (r, Shutdown Lxc n vmid fs t) = false) →
  (∀ r t u, f (r, TaskStatus t u) = false) → shutdown_of pve n q → (∀ q, q ∈ l → q = poll_of pve n upid) → no f (q :: l).
Proof. intros Hf Hp (fs&t&->) Hl q' [->|Hq]%elem_of_cons; [by apply Hf|rewrite (Hl _ Hq); apply Hp]. Qed.
Lemma shut_down_no f h pve n ok l : (∀ r fs t, f (r, Shutdown Lxc n vmid fs t) = false) →
  (∀ r t u, f (r, TaskStatus t u) = false) → shut_down h pve n ok l → no f l.
Proof. intros Hf Hp (q&upid&polls&->&Hq&_&[_ Hpolls]&_). by eapply shutdown_no. Qed.
Lemma not_shut_down_no f h pve n l : (∀ r fs t, f (r, Shutdown Lxc n vmid fs t) = false) →
  (∀ r t u, f (r, TaskStatus t u) = false) → not_shut_down h pve n l → no f l.
Proof.
  intros Hf Hp [Hs|[(q&e&->&Hq&_)|(q&upid&polls&e&->&Hq&_&[_ Hpolls]&_)]].
  - by eapply shut_down_no.
  - eapply (shutdown_no _ _ _ _ _ ""); [done..|]. by intros ? ?%elem_of_nil.
  - by eapply shutdown_no.
Qed.
Lemma stopped_no_start h pve n l : stopped h pve n l → no is_start l.
Proof.
  intros (l0&l1&->&Hl0&Hs). apply no_app; [eapply passive_no; eauto using passive_start|]. by eapply shut_down_no.
Qed.

(** What the handler requests, after [h], and spawns, with its result. *)
Inductive lxc_outcome (h : list request) : option (result error RemoteUpid) → list request → list background → Prop :=
| lxc_no_restart r l : no is_start l → no is_shutdown l → lxc_outcome h r l []
| lxc_still_up r l :
    mg_delete p = true → restart = Some true → no is_start l → no is_migration l → (∀ u, r ≠ Some (Ok u)) →
    (r = None ∨ not_stopped h l) → lxc_outcome h r l []
| lxc_refused src n l ps e :
    mg_delete p = true → restart = Some true → remote_of source src → stopped h src n l →
    ge_upid env (h ++ l ++ [(r_id src, CallRemoteMigrate Lxc n vmid ps)]) = Err e →
    lxc_outcome h (Some (Err e)) (l ++ [(r_id src, CallRemoteMigrate Lxc n vmid ps); (r_id src, Start Lxc n vmid)]) []
| lxc_no_target src tgt n l ps e :
    mg_delete p = true → restart = Some true → remote_of source src → remote_of target tgt → stopped h src n l →
    ge_connect env tgt = Err e →
    lxc_outcome h (Some (Err e)) (l ++ [(r_id src, CallRemoteMigrate Lxc n vmid ps)]) []
| lxc_moved r src tgt n l ps upid :
    mg_delete p = true → restart = Some true → remote_of source src → remote_of target tgt → stopped h src n l →
    ge_upid env (h ++ l ++ [(r_id src, CallRemoteMigrate Lxc n vmid ps)]) = Ok upid →
    lxc_outcome h r (l ++ [(r_id src, CallRemoteMigrate Lxc n vmid ps)])
      [mkBackground src n vmid (pve_to_string upid) tgt (default vmid (mg_target_vmid p))].

(** The shutdown, before the migration is requested. *)
Lemma shutdown_makes pve n s :
  makes (shutdown_lxc_and_wait env fuel pve n vmid timeout) s
    (λ r l, no is_start l ∧ no is_migration l ∧
       match r with
       | Some (Ok _) => shut_down (gs_history s) pve n true l
       | Some (Err _) => not_shut_down (gs_history s) pve n l
       | None => True
       end).
Proof.
  unfold shutdown_lxc_and_wait. set (q := (r_id pve, Shutdown Lxc n vmid (Some true) (Some (Z.max (default 180 timeout) 0)))).
  assert (shutdown_of pve n q) as Hq by (by eexists _, _).
  assert (∀ l upid, (∀ q, q ∈ l → q = poll_of pve n upid) → no is_start (q :: l) ∧ no is_migration (q :: l)) as Hno.
  { intros l upid Hl. by split; eapply shutdown_no. }
  eapply makes_bind; [apply (makes_ask _ _ _ _ (λ r l, l = [q] ∧ r = Some (ge_upid env (gs_history s ++ [q])))); done|..]; [|..|by intros l [_ ?]].
  2: { intros e l [-> [= He]]. destruct (Hno [] "") as [? ?]; [by intros ? ?%elem_of_nil|]. split_and!; [done..|]. right; left. by exists q, e. }
  intros upid l s1 Hs1 [-> [= Hupid]]. eapply makes_bind; [apply wait_makes|..].
  - intros ok l' s2 _ (Hl'&Hne&Hw). apply makes_lift. rewrite app_nil_r. cbn [app]. destruct (Hno l' _ Hl') as [? ?]. split_and!; [done..|].
    destruct Hne as [?|Hne]; [done|]. cbn in Hw. rewrite Hs1, <-app_assoc in Hw.
    assert (shut_down (gs_history s) pve n ok (q :: l')) by by exists q, upid, l'.
    destruct ok; [done|by left].
  - intros e l' (Hl'&Hne&Hw). cbn [app]. destruct (Hno l' _ Hl') as [? ?]. split_and!; [done..|].
    destruct Hne as [?|Hne]; [done|]. cbn in Hw. rewrite Hs1, <-app_assoc in Hw. right; right. by exists q, upid, l', e.
  - intros l' (Hl'&_). cbn [app]. by destruct (Hno l' _ Hl') as [? ?].
Qed.

Lemma lxc_no_effect h r l : all_passive l → lxc_outcome h r l [].
Proof. intros Hl. apply lxc_no_restart; eapply passive_no; eauto using passive_start, passive_shutdown. Qed.

(** After the container was shut down, or not. *)
Lemma lxc_request_does src tgt n endpoint restart_here h l0 s :
  gs_history s = h ++ l0 → remote_of source src → remote_of target tgt →
  (if (restart_here : bool) then mg_delete p = true ∧ restart = Some true ∧ stopped h src n l0 else no is_start l0 ∧ no is_shutdown l0) →
  does (r ← g_try (ask src (CallRemoteMigrate Lxc n vmid
         (mkRemoteMigrate (mg_target_bridge p) (mg_target_storage p) (Some (mg_delete p)) (Some (mg_online p)) (mg_target_vmid p)
            endpoint None (f64_of_u64 <$> mg_bwlimit p) (if (restart_here : bool) then None else restart)
            (if (restart_here : bool) then None else timeout))) (ge_upid env));
        match r with
        | Err err =>
            _ ← (if (restart_here : bool) then start_lxc_logged env src n vmid else mret tt);
            g_lift (Err err)
        | Ok upid =>
            _ ← (if (restart_here : bool) then
                   target_conn ← connect env tgt;
                   spawn (mkBackground src n vmid (pve_to_string upid) target_conn (default vmid (mg_target_vmid p)))
                 else mret tt);
            new_remote_upid source upid
        end) s (λ r l b, lxc_outcome h r (l0 ++ l) b).
Proof.
  intros Hs Hsrc Htgt Hhere. set (ps := mkRemoteMigrate _ _ _ _ _ _ _ _ _ _).
  eapply does_bind.
  { apply (makes_try _ _ (λ r l, l = [(r_id src, CallRemoteMigrate Lxc n vmid ps)] ∧ r = Some (Ok (ge_upid env (gs_history s ++ l))))), makes_ask. by split. }
  2: { by intros e l [_ ?]. }
  2: { by intros l [_ ?]. }
  intros a l s1 _ [-> [= Ha]]. rewrite Hs, <-app_assoc in Ha. destruct a as [upid|err].
  - eapply (does_silent _ _ _ (λ r l b, ∀ r', match r with Some (Ok _) => True | _ => r' = match r with Some (Err e) => Some (Err e) | _ => None end end →
      lxc_outcome h r' (l0 ++ [(r_id src, CallRemoteMigrate Lxc n vmid ps)] ++ l) b)).
    + destruct restart_here.
      * destruct Hhere as (Hdel&Hre&Hst). unfold connect.
        eapply (does_bind _ _ _ (λ r l, l = [] ∧ r = Some (ge_connect env tgt ≫= λ _, Ok tgt))).
        { unfold g_lift. exists []. unfold mbind at 1, guest_bind at 1. destruct (ge_connect env tgt) as [[]|e]; cbn; by rewrite app_nil_r. }
        -- intros a l s2 _ [-> Htg]. exists [], [mkBackground src n vmid (pve_to_string upid) a (default vmid (mg_target_vmid p))]. cbn.
           rewrite app_nil_r. split_and!; [done..|]. intros r' _.
           destruct (ge_connect env tgt) as [[]|e]; [|done]. injection Htg as ->. by apply lxc_moved.
        -- intros e l [-> He] r' ->. rewrite app_nil_r. destruct (ge_connect env tgt) as [[]|e'] eqn:Hc; [done|]. injection He as ->.
           by eapply lxc_no_target.
        -- intros l [_ ?]. done.
      * apply does_makes, makes_ret. intros r' _. rewrite app_nil_r. apply lxc_no_restart.
        -- apply no_app; [apply Hhere|by apply no_single].
        -- apply no_app; [apply Hhere|by apply no_single].
    + intros [] s2. apply new_remote_upid_silent.
    + intros [] r l b Hr. by apply Hr.
    + intros e l b Hr. by apply Hr.
    + intros l b Hr. by apply Hr.
  - destruct restart_here.
    + destruct Hhere as (Hdel&Hre&Hst). unfold start_lxc_logged. apply does_makes.
      eapply (makes_bind _ _ _ (λ r l, l = [(r_id src, Start Lxc n vmid)] ∧ r = Some (Ok tt))).
      { eapply (makes_bind _ _ _ (λ r l, l = [(r_id src, Start Lxc n vmid)] ∧ ∃ r', r = Some (Ok r'))).
        - apply makes_try, makes_ask. cbn. eauto.
        - intros a l s2 _ [-> _]. by apply makes_ret.
        - intros e l (_&?&?). done.
        - intros l (_&?&?). done. }
      * intros [] l s2 _ [-> _]. apply makes_lift. cbn. apply lxc_refused; [done..|by rewrite Ha].
      * intros e l [_ ?]. done.
      * intros l [_ ?]. done.
    + apply does_makes. eapply (makes_bind _ _ _ (λ r l, l = [] ∧ r = Some (Ok tt))); [by apply makes_ret|..].
      * intros [] l s2 _ [-> _]. apply makes_lift. apply lxc_no_restart; (apply no_app; [apply Hhere|by apply no_single]).
      * intros e l [_ ?]. done.
      * intros l [_ ?]. done.
Qed.

Lemma lxc_does s : does (lxc_remote_migrate authid_to_string env fuel source target node vmid p restart timeout target_endpoint rpcenv) s (lxc_outcome (gs_history s)).
Proof.
  unfold lxc_remote_migrate. eapply (does_bind _ _ _ (λ r l, l = [] ∧ r ≠ None)); [by apply makes_lift|..]; [|by intros e l [-> _]; apply lxc_no_effect, all_passive_nil|by intros l [_ []]].
  intros [] l s1 Hs1 [-> _]. rewrite app_nil_r in Hs1. eapply does_bind; [apply prepare_makes|..].
  2: { intros e l [Hl _]. by apply lxc_no_effect. }
  2: { intros l [_ ?]. done. }
  intros [[[tgt src] n] endpoint] l s2 Hs2 [Hl [(cfg&Hcfg&Htgt&Hsrc) _]]. cbn [fst snd] in *.
  eapply (does_bind _ _ _ (λ r l, all_passive l ∧ ∀ b, r = Some (Ok b) → b = true → mg_delete p = true ∧ restart = Some true)).
  { destruct (mg_delete p && default false restart) eqn:Hb.
    - apply makes_ask. split; [by apply all_passive_single|]. intros b _ _. destruct (mg_delete p), restart as [[]|]; done.
    - apply makes_ret. split; [apply all_passive_nil|]. intros b [= <-]. done. }
  2: { intros e l' [Hl' _]. apply lxc_no_effect. by apply (all_passive_app l l'). }
  2: { intros l' [Hl' _]. apply lxc_no_effect. by apply (all_passive_app l l'). }
  intros restart_here l' s3 Hs3 [Hl' Hhere]. rewrite Hs2, Hs1, <-app_assoc in Hs3.
  assert (all_passive (l ++ l')) as Hp by by apply all_passive_app.
  eapply (does_bind _ _ _ (λ r l2, no is_start l2 ∧ no is_migration l2 ∧
    (if (restart_here : bool) then
       match r with
       | Some (Ok _) => stopped (gs_history s) src n (l ++ l' ++ l2)
       | Some (Err _) => not_stopped (gs_history s) (l ++ l' ++ l2)
       | None => True
       end
     else l2 = [] ∧ r = Some (Ok tt)))).
  { destruct restart_here; [|apply makes_ret; auto using no_nil]. eapply makes_conseq; [apply shutdown_makes|].
    intros r l2 (?&?&Hr). split_and!; [done..|]. rewrite Hs3 in Hr.
    destruct r as [[]|]; [..|done]; [exists (l ++ l'), l2|exists src, n, (l ++ l'), l2]; by rewrite app_assoc. }
  - intros [] l2 s4 Hs4 (Hn2&_&Hno). rewrite Hs3, <-!app_assoc in Hs4. unfold does.
    edestruct (lxc_request_does src tgt n endpoint restart_here (gs_history s) (l ++ l' ++ l2) s4) as (l3&b&Hl3&Hb&Hout).
    { done. } { by exists cfg. } { by exists cfg. }
    { destruct restart_here; [by destruct (Hhere true eq_refl eq_refl)|]. destruct Hno as [-> _]. rewrite app_nil_r.
      split; eapply passive_no; eauto using passive_shutdown, passive_start. }
    exists l3, b. rewrite <-!app_assoc in Hout. eauto.
  - intros e l2 (Hn2&Hm2&Hno). destruct restart_here; [|by destruct Hno].
    destruct (Hhere true eq_refl eq_refl). rewrite app_nil_l. apply lxc_still_up; [done..| | |done|by right].
    + rewrite app_assoc. apply no_app; [|done]. eapply passive_no; eauto using passive_start.
    + rewrite app_assoc. apply no_app; [|done]. eapply passive_no; eauto using passive_migration.
  - intros l2 (Hn2&Hm2&Hno). destruct restart_here; [|by destruct Hno].
    destruct (Hhere true eq_refl eq_refl). rewrite app_nil_l. apply lxc_still_up; [done..| | |done|by left].
    + rewrite app_assoc. apply no_app; [|done]. eapply passive_no; eauto using passive_start.
    + rewrite app_assoc. apply no_app; [|done]. eapply passive_no; eauto using passive_migration.
Qed.

(** ** Afterwards *)

(** The last requests of the background task, after its polls, the last of which ends [h]. *)
Definition vm_node (entries : list vm_entry) (id : Z) : option string :=
  List.find (λ entry : vm_entry, bool_decide (entry.1 = Some id)) entries ≫= snd.
Inductive bg_tail (h : list request) (b : background) : list request → Prop :=
| bg_moved n entries : task_ended h true →
    ge_vms env (h ++ [(r_id (bg_target b), ClusterVms)]) = Ok entries → vm_node entries (bg_target_vmid b) = Some n →
    bg_tail h b [(r_id (bg_target b), ClusterVms); (r_id (bg_target b), Start Lxc n (bg_target_vmid b))]
| bg_unlisted e : task_ended h true →
    (entries ← ge_vms env (h ++ [(r_id (bg_target b), ClusterVms)]);
      ok_or (vm_node entries (bg_target_vmid b)) (EMsg "no such vmid")) = Err e →
    bg_tail h b [(r_id (bg_target b), ClusterVms)]
| bg_kept : task_ended h false → bg_tail h b [(r_id (bg_source b), Start Lxc (bg_source_node b) (bg_vmid b))]
| bg_unknown e : ge_task env h = Err e → bg_tail h b [].

Lemma start_target_makes b s :
  task_ended (gs_history s) true →
  makes (_ ← g_try (
          node ← find_node_for_vm env None (bg_target_vmid b) (bg_target b);
          upid ← ask (bg_target b) (Start Lxc node (bg_target_vmid b)) (ge_upid env);
          new_remote_upid (r_id (bg_target b)) upid); mret tt) s (λ r l, r ≠ None ∧ bg_tail (gs_history s) b l).
Proof.
  intros Hend.
  eapply (makes_bind _ _ _ (λ r l, r ≠ None ∧ (∀ e, r ≠ Some (Err e)) ∧ bg_tail (gs_history s) b l)).
  2: { intros a l s1 _ (_&_&?). apply makes_ret. by rewrite app_nil_r. }
  2: { intros e l (_&He&_). by destruct (He e). }
  2: { intros l ([]&_). done. }
  apply makes_try. eapply (makes_bind _ _ _ (λ r l, l = [(r_id (bg_target b), ClusterVms)] ∧
    match r with
    | Some (Ok n) => ∃ entries, ge_vms env (gs_history s ++ l) = Ok entries ∧ vm_node entries (bg_target_vmid b) = Some n
    | Some (Err _) => bg_tail (gs_history s) b l
    | None => False
    end)).
  { eapply makes_conseq; [apply find_node_makes|]. intros r l [[_ (n&?&_)]|(->&_&->)]; [done|]. split; [done|].
    destruct (_ ≫= _) as [n|e] eqn:He; [|by eapply bg_unlisted].
    apply bind_Ok_inv in He as (entries&Hvms&He). exists entries. split; [done|]. unfold vm_node. by destruct (_ ≫= _); [injection He as ->|]. }
  - intros n l s1 _ [-> (entries&Hvms&Hfind)].
    eapply (makes_bind _ _ _ (λ r l, l = [(r_id (bg_target b), Start Lxc n (bg_target_vmid b))] ∧ r ≠ None)); [by apply makes_ask|..].
    + intros upid l s2 _ [-> _]. destruct (new_remote_upid_silent (r_id (bg_target b)) upid s2) as (l&Hl&Hsp&->).
      exists []. rewrite Hl, Hsp. split_and!; [done..| | |by eapply bg_moved].
      * unfold new_remote_upid, g_io. by destruct (track_running_pve_task _ _ _).
      * intros e. by destruct ((new_remote_upid _ _ _).1).
    + intros e l [-> _]. split_and!; [done..|]. by eapply bg_moved.
    + intros l [_ []]. done.
  - intros e l [-> ?]. done.
  - intros l [_ []].
Qed.

(** All the background task requests. *)
Definition finished (h : list request) (b : background) (l : list request) : Prop :=
  ∃ polls tail, l = polls ++ tail ∧ polled_out (bg_source b) (bg_source_node b) (bg_upid b) polls ∧ bg_tail (h ++ polls) b tail.

Lemma background_makes b s : makes (start_after_remote_migration env fuel b) s (λ r l, r ≠ None → finished (gs_history s) b l).
Proof.
  unfold start_after_remote_migration.
  eapply (makes_bind _ _ _ (λ r l, match r with
    | Some (Ok r') => polled_out (bg_source b) (bg_source_node b) (bg_upid b) l ∧ waited (gs_history s) (Some r') l
    | Some (Err _) => False
    | None => True
    end)).
  { apply makes_try. eapply makes_conseq; [apply wait_makes|]. intros r l (?&[->|?]&?); [done|]. destruct r; [done|done]. }
  2: { intros e l []. }
  2: { intros l _ []. done. }
  intros r l s1 Hs1 [Hl Hr]. destruct r as [[]|e].
  - eapply makes_conseq; [apply start_target_makes; by rewrite Hs1|]. intros r l' [_ Ht] _. exists l, l'. by rewrite <-Hs1.
  - unfold start_lxc_logged.
    eapply (makes_bind _ _ _ (λ r l, l = [(r_id (bg_source b), Start Lxc (bg_source_node b) (bg_vmid b))] ∧ ∃ r', r = Some (Ok r'))).
    { apply makes_try, makes_ask. cbn. eauto. }
    + intros a l' s2 _ [-> _]. apply makes_ret. intros _. eexists l, _. split; [done|]. split; [done|]. by apply bg_kept.
    + intros e l' (_&?&?). done.
    + intros l' (_&?&?). done.
  - apply makes_ret. intros _. exists l, []. split; [done|]. split; [done|]. by eapply bg_unknown.
Qed.

(** A request for a migration with all that follows. *)
Definition remote_migration : guest (result error RemoteUpid) :=
  migrate_and_finish env fuel
    (lxc_remote_migrate authid_to_string env fuel source target node vmid p restart timeout target_endpoint rpcenv).

Lemma remote_migration_run s res s' :
  gs_spawned s = [] → remote_migration s = (Some (Ok res), s') →
  ∃ l b l', gs_history s' = gs_history s ++ l ++ l' ∧ lxc_outcome (gs_history s) (Some res) l b ∧
    match b with
    | [] => l' = []
    | [b] => finished (gs_history s ++ l) b l'
    | _ => False
    end.
Proof.
  intros Hsp Hrun. unfold remote_migration, migrate_and_finish in Hrun.
  destruct (lxc_does s) as (l&b&Hl&Hb&Hout).
  apply g_bind_inv in Hrun as [(r&s1&Hm&Hrun)|[(e&_&?)|[_ ?]]]; [|done..].
  unfold g_try in Hm. destruct (lxc_remote_migrate _ _ _ _ _ _ _ _ _ _ _ _ s) as [[r'|] s1'] eqn:Hlxc; [|done]. injection Hm as -> ->.
  cbn [fst snd] in *. rewrite Hsp in Hb. cbn in Hb.
  apply g_bind_inv in Hrun as [(b'&s2&Htake&Hrun)|[(e&?&?)|[? ?]]]; [|done..]. unfold take_spawned in Htake. injection Htake as <- <-.
  rewrite Hb in Hrun. exists l, b.
  assert (∀ m : guest unit, (_ ← m; mret r) (mkState (gs_history s1) (gs_world s1) []) = (Some (Ok res), s') →
    r = res ∧ ∃ r', r' ≠ None ∧ m (mkState (gs_history s1) (gs_world s1) []) = (r', s')) as Hfin.
  { intros m Hr. apply g_bind_inv in Hr as [([]&s3&Hm&Hr)|[(e&?&?)|[? ?]]]; [|done..]. injection Hr as -> ->. split; [done|]. by exists (Some (Ok tt)). }
  apply Hfin in Hrun as (->&r'&Hr'&Hrun).
  assert (b = [] ∨ ∃ b0, b = [b0]) as [->|[b0 ->]] by (inversion Hout; eauto).
  - cbn in Hrun. injection Hrun as <- <-. exists []. cbn. rewrite app_nil_r. done.
  - cbn [run_background] in Hrun. destruct (background_makes b0 (mkState (gs_history s1) (gs_world s1) [])) as (l'&Hl'&_&Hbg).
    assert (∃ r0, r0 ≠ None ∧ start_after_remote_migration env fuel b0 (mkState (gs_history s1) (gs_world s1) []) = (r0, s')) as (r0&Hr0&Heq).
    { apply g_bind_inv in Hrun as [([]&s3&Hm&Hr)|[(e&Hm&_)|[_ ?]]]; [| |done].
      - injection Hr as <- <-. by exists (Some (Ok tt)).
      - by exists (Some (Err e)). }
    rewrite Heq in Hl', Hbg. cbn in Hl', Hbg. exists l'. rewrite Hl', Hl, <-app_assoc. split_and!; [done..|]. rewrite <-Hl. by apply Hbg.
Qed.
End lxc.
End spec.
