(* ===== verification/GuestProperties.v ===== *)
(** * What the guest handlers guarantee

    Who may migrate a guest to another remote and where it goes; a container that was
    shut down for a migration is started again, once; a listing shows only guests that
    the caller may see; a task that a handler starts is tracked, except for two
    handlers. *)

From S2P Require Import Prelude FileSystem RemoteUpid SectionConfig Resource ResourceList RemoteCache TaskItems TaskCache TaskUpdate ParallelFetcher RefreshTask TaskList RemotesConfig JsonValue PveGuests GuestMigration GuestSpec.

Lemma find_Some_first {A} (f : A → bool) l x : List.find f l = Some x →
  ∃ l1 l2, l = l1 ++ x :: l2 ∧ f x = true ∧ ∀ y, y ∈ l1 → f y = false.
Proof.
  induction l as [|y l IH]; cbn; [done|]. destruct (f y) eqn:Hy.
  - intros [= ->]. exists [], l. split_and!; [done..|]. by intros z ?%elem_of_nil.
  - intros (l1&l2&->&Hx&Hl1)%IH. exists (y :: l1), l2. split_and!; [done..|]. by intros z [->|Hz]%elem_of_cons; [|apply Hl1].
Qed.

Section properties.
Context `{SafeIdRegex} `{UpidFields} `{TaskCodec} `{AuthidType} `{AuthorityParse}.
Context {CS : Type} `{SectionConfigData CS RemoteShadow} `{SectionText CS}.
Context (authid_to_string : Authid → string).
Context (env : guest_env).
Implicit Types (s : gstate).

(** ** Who may migrate *)

(** Nothing happens before the remotes are known to be configured. *)
Lemma prepare_silent source target node vmid target_endpoint s :
  (∃ src tgt, remote_of env source src ∧ remote_of env target tgt ∧ ge_connect env src = Ok tt) ∨
  (∃ e, prepare_migration authid_to_string env source target node vmid target_endpoint s = (Some (Err e), s)).
Proof.
  unfold prepare_migration, connect_to_remote, connect, remote_of, mbind, guest_bind, g_lift.
  destruct (ge_config env) as [cfg|e] eqn:Hcfg; cbn; [|by eauto].
  destruct (get_remote_of RemoteType.Pve cfg target) as [tgt|e] eqn:Htgt; cbn; [|by eauto].
  destruct (get_remote_of RemoteType.Pve cfg source) as [src|e] eqn:Hsrc; cbn; [|by eauto].
  destruct (ge_connect env src) as [[]|e] eqn:Hc; cbn; [left|by eauto]. exists src, tgt. eauto 10.
Qed.

Definition may_migrate (source target : string) (vmid : Z) (target_vmid : option Z) (delete : bool) (rpcenv : result error user) : Prop :=
  (∃ u, rpcenv = Ok u ∧ authorized u source target vmid target_vmid delete) ∧
  ∃ src tgt, remote_of env source src ∧ remote_of env target tgt ∧ ge_connect env src = Ok tt.

Lemma checked_migration source target node vmid target_vmid delete target_endpoint rpcenv s :
  may_migrate source target vmid target_vmid delete rpcenv ∨
  ∀ A (k : Remote * Remote * string * string → guest A),
    ((_ ← g_lift (check_migration source target vmid target_vmid delete rpcenv);
      prepare_migration authid_to_string env source target node vmid target_endpoint ≫= k) s).2 = s.
Proof.
  destruct (check_migration source target vmid target_vmid delete rpcenv) as [[]|e] eqn:Hc.
  - apply check_migration_Ok in Hc as Hu.
    destruct (prepare_silent source target node vmid target_endpoint s) as [Hr|[e He]]; [by left; split|right].
    intros A k. unfold mbind, guest_bind, g_lift. by rewrite He.
  - by right.
Qed.

(** C29: A request to migrate a guest to another remote changes nothing, neither on the
    remotes nor on the disk, unless the caller may migrate the guest on the target and,
    if it is to be deleted, delete it on the source, the remotes differ, and both are
    configured Proxmox VE remotes. *)
Theorem remote_migration_authorized (k : guest_kind) fuel source target node vmid p restart timeout target_endpoint rpcenv s :
  let m := match k with
           | Qemu => qemu_remote_migrate authid_to_string env source target node vmid p target_endpoint rpcenv
           | Lxc => lxc_remote_migrate authid_to_string env fuel source target node vmid p restart timeout target_endpoint rpcenv
           end in
  (m s).2 ≠ s → may_migrate source target vmid (mg_target_vmid p) (mg_delete p) rpcenv.
Proof.
  intros m Hm. destruct (checked_migration source target node vmid (mg_target_vmid p) (mg_delete p) target_endpoint rpcenv s)
    as [Hok|Hno]; [done|]. destruct Hm. subst m. destruct k; apply Hno.
Qed.

(** ** Where the guest goes *)

(** The node that a migration is sent to is one of the target's: the named one if one
    is named; else the first that can be reached, and the first of all if none can.
    There is an error only if the named node is not configured or there are none. *)
Theorem select_migration_target_node_spec tgt target_endpoint :
  match select_migration_target_node env tgt target_endpoint with
  | Ok n => ∃ l1 l2, r_nodes tgt = l1 ++ n :: l2 ∧
      match target_endpoint with
      | Some hostname => nu_hostname n = hostname ∧ ∀ n', n' ∈ l1 → nu_hostname n' ≠ hostname
      | None =>
          let reachable n := host_is_reachable (ge_cache env) (r_id tgt) (nu_hostname n) = true in
          (reachable n ∧ ∀ n', n' ∈ l1 → ¬ reachable n') ∨ (l1 = [] ∧ ∀ n', n' ∈ r_nodes tgt → ¬ reachable n')
      end
  | Err _ => match target_endpoint with
             | Some hostname => ∀ n, n ∈ r_nodes tgt → nu_hostname n ≠ hostname
             | None => r_nodes tgt = []
             end
  end.
Proof.
  unfold select_migration_target_node. destruct target_endpoint as [hostname|].
  - destruct (List.find _ _) as [n|] eqn:Hf; cbn.
    + apply find_Some_first in Hf as (l1&l2&->&Hn&Hl1). exists l1, l2. split; [done|]. split; [by apply String.eqb_eq|].
      intros n' Hn'. by apply String.eqb_neq, Hl1.
    + intros n Hn. apply list_elem_of_In in Hn. apply String.eqb_neq. by apply (List.find_none _ _ Hf).
  - destruct (List.find _ _) as [n|] eqn:Hf; cbn.
    + apply find_Some_first in Hf as (l1&l2&->&Hn&Hl1). exists l1, l2. split; [done|]. left. split; [done|].
      intros n' Hn'. by rewrite Hl1.
    + destruct (r_nodes tgt) as [|n l] eqn:Hl; cbn; [done|]. exists [], l. split; [done|]. right. split; [done|].
      intros n' Hn'%list_elem_of_In. by rewrite (List.find_none _ _ Hf _ Hn').
Qed.

(** ** A container that was shut down is started again *)

(** The remotes answer well enough to finish a migration: a client for the target can be
    made, the states of tasks are reported and the target lists the guest. *)
Record finishing (target : string) (target_vmid : Z) : Prop := {
  fi_connect tgt : remote_of env target tgt → ge_connect env tgt = Ok tt;
  fi_task h : ∃ status, ge_task env h = Ok status;
  fi_vms h : ∃ entries n, ge_vms env h = Ok entries ∧ vm_node entries target_vmid = Some n;
}.

(** Where the container is started after the migration task, whose last state was asked
    for at the end of [h], has ended. *)
Definition started_after (h : list request) (src tgt : Remote) (n : string) (vmid target_vmid : Z) (rest : list request) : Prop :=
  (task_ended env h false ∧ rest = [(r_id src, Start Lxc n vmid)]) ∨
  (task_ended env h true ∧ ∃ entries n',
     ge_vms env (h ++ [(r_id tgt, ClusterVms)]) = Ok entries ∧ vm_node entries target_vmid = Some n' ∧
     rest = [(r_id tgt, ClusterVms); (r_id tgt, Start Lxc n' target_vmid)]).


(** ** Listings and addresses *)

(** A listing of the guests of a remote shows a caller without the audit privilege on the
    remote only guests on which they have it, and asks the remote nothing for a
    caller who has it nowhere below the remote. *)
Theorem list_guests_access (k : guest_kind) remote node rpcenv s :
  match list_guests env k remote node rpcenv s with
  | (Some (Ok l), _) => ∃ u, rpcenv = Ok u ∧ any_privs_below u ["resource"%string; remote] PRIV_RESOURCE_AUDIT = Ok true ∧
      ∀ vmid, vmid ∈ l → Z.land PRIV_RESOURCE_AUDIT (lookup_privs u ["resource"%string; remote]) ≠ 0 ∨
        check_guest_permissions u remote PRIV_RESOURCE_AUDIT vmid = true
  | (_, s') => (∃ u, rpcenv = Ok u ∧ any_privs_below u ["resource"%string; remote] PRIV_RESOURCE_AUDIT = Ok true) ∨ s' = s
  end.
Proof.
  unfold list_guests. unfold mbind, guest_bind at 1, g_lift.
  destruct (check_guest_list_permissions remote rpcenv) as [[u top]|e] eqn:Hc; [|by right].
  unfold check_guest_list_permissions in Hc. apply bind_Ok_inv in Hc as (u'&->&Hc). apply bind_Ok_inv in Hc as (any0&Hany&Hc).
  apply bind_Ok_inv in Hc as ([]&Hb&Hc). apply bail_if_Ok, negb_false_iff in Hb. subst any0. injection Hc as -> <-.
  destruct (guest_bind _ _ _ _ s) as [[[l|e]|] s'] eqn:Hrun; [|left; eauto..].
  exists u. split_and!; [done..|]. intros vmid Hvmid.
  apply g_bind_inv in Hrun as [(pve&s1&_&Hrun)|[(e&_&?)|[_ ?]]]; [|done..].
  apply g_bind_inv in Hrun as [(ids&s2&_&Hrun)|[(e&_&?)|[_ ?]]]; [|done..]. injection Hrun as <- _.
  destruct (negb _) eqn:Htop.
  - left. by apply negb_true_iff, Z.eqb_neq in Htop.
  - right. apply list_elem_of_In, List.filter_In in Hvmid as [_ ?]. done.
Qed.

(** The addresses reported for a guest are pairwise different, and none is empty, local
    to the machine or local to the link. *)
Theorem guest_addresses_spec (v : Value) (addresses : list string) :
  addresses = qemu_addresses v ∨ addresses = lxc_addresses v →
  NoDup addresses ∧ ∀ a, a ∈ addresses → unwanted_address a = false ∧ ∃ raw, a = guest_address raw.
Proof.
  set (good l := NoDup l ∧ ∀ a, a ∈ l → unwanted_address a = false ∧ ∃ raw, a = guest_address raw).
  assert (∀ l o, good l → good (push_opt l o)) as Hpush.
  { intros l [a|] [Hnd Hl]; [|by split]. unfold push_opt, push_guest_ip_address.
    destruct (unwanted_address _) eqn:Hu; [by split|]. case_bool_decide as Hin; [by split|]. split.
    - apply NoDup_app. split_and!; [done| |apply NoDup_singleton]. by intros x Hx ->%list_elem_of_singleton.
    - intros x [Hx| ->%list_elem_of_singleton]%elem_of_app; eauto. }
  assert (∀ {B} (f : list string → B → list string) (xs : list B), (∀ l x, good l → good (f l x)) → ∀ l, good l → good (foldl f l xs)) as Hfold.
  { intros B f xs Hf. induction xs; intros l Hl; cbn; auto. }
  assert (good []) as Hnil by (split; [by apply NoDup_nil|by intros a ?%elem_of_nil]).
  intros [->| ->]; (apply Hfold; [|done]); intros l x Hl; destruct (is_loopback x); auto.
Qed.

(** ** Tracking of the tasks that are started *)

(** A task that a handler starts on a guest is tracked: without faults on the disk, the
    handler returns its UPID, and the timer of the remote task cache asks the remote for its
    state at the next tick. *)
Theorem started_task_polled `{!TaskCodecLaws} `{!UpidPrintLaws} {C} `{SectionConfigData C ResourceList.Remote} (remote : string) (pve : Remote) (c : call)
    (upid : PveUpid) s (m : gmap string string) (e : tick_env C) (t : TaskState) :
  gs_world s = World m [] → SAFE_ID_REGEX remote = true → ge_upid env (gs_history s ++ [(r_id pve, c)]) = Ok upid →
  let u := mkRemoteUpid remote RemoteType.Pve (pve_to_string upid) in
  ∃ m' s', start_task env remote pve c s = (Some (Ok u), s') ∧ gs_world s' = World m' [] ∧ u ∈ polled e t m'.
Proof.
  intros Hw Hsafe Hupid u. destruct (tracked_task_polled remote upid m e t Hsafe) as (m'&Hrun&_&_&_&_&Hpoll).
  exists m'. unfold start_task, ask, new_remote_upid, g_io, mbind, guest_bind. cbn. rewrite Hupid. cbn. rewrite Hw, Hrun.
  by eexists.
Qed.

(** All but two handlers: the tasks that stop or shut down a virtual machine are not
    tracked. *)
Lemma makes_untracked remote pve c s : gs_world (untracked_task env remote pve c s).2 = gs_world s.
Proof.
  unfold untracked_task, ask, g_lift, mbind, guest_bind. cbn. by destruct (ge_upid env _).
Qed.
Lemma on_guest_world {A} remote node vmid (k : Remote → string → guest A) s :
  (∀ pve n s, gs_world (k pve n s).2 = gs_world s) → gs_world (on_guest env remote node vmid k s).2 = gs_world s.
Proof.
  intros Hk. unfold on_guest, connect_to_remote_by_id, connect_to_remote, connect, find_node_for_vm, mbind, guest_bind, g_lift.
  destruct (ge_config env) as [cfg|?]; cbn; [|done]. destruct (get_remote_of _ _ _) as [pve|?]; cbn; [|done].
  destruct (ge_connect env pve) as [[]|?]; cbn; [|done]. destruct node as [n|]; cbn; [by rewrite Hk|].
  destruct (ge_vms env _) as [entries|?]; cbn; [|done]. destruct (ok_or _ _) as [n|?]; cbn; [by rewrite Hk|done].
Qed.
Lemma qemu_stop_untracked remote node vmid s :
  gs_world (qemu_stop env remote node vmid s).2 = gs_world s ∧ gs_world (qemu_shutdown env remote node vmid s).2 = gs_world s.
Proof. split; apply on_guest_world; intros; apply makes_untracked. Qed.
End properties.

(** ** Concrete remotes *)

Module GuestDemo.
Import TaskJournal.JournalDemo TaskRotate.RotateDemo TickDemo ListDemo.
#[local] Existing Instance demo_codec.
#[local] Existing Instance demo_codec_laws.
#[local] Existing Instance safe_id_regex_impl.
#[local] Existing Instance text_upids.
#[local] Existing Instance text_fields.
#[local] Existing Instance text_laws.
#[local] Existing Instance demo_remotes.
#[local] Existing Instance RemotesDemo.auth.
#[local] Existing Instance RemotesDemo.shadows_config.
#[local] Existing Instance RemotesDemo.shadows_text.
#[local] Instance host_only : AuthorityParse := λ s, Ok (s, None).

Definition pve2 : Remote := mkFullRemote RemoteType.Pve "pve2" [mkNodeUrl "10.0.0.3" None; mkNodeUrl "10.0.0.4" None] "root@pam!pdm"%string "s5" None.
Definition pve1 : Remote := RemotesDemo.pve1.
Definition config : list (string * Remote) := [("pve1", pve1); ("pve2", pve2)]%string.

(** Every request is answered; the migration succeeds if [ok] says so. *)
Definition env (ok : bool) (connect2 : result error unit) : guest_env :=
  mkGuestEnv (Ok config) (λ r, if String.eqb (r_id r) "pve2" then connect2 else Ok tt) default_cache
    (λ _, Ok [(Some 99, Some "n9"%string); (Some 100, Some "n1"%string); (Some 200, Some "n2"%string)])
    (λ _, Ok ["n1"%string]) (λ _, Ok [99; 100]) (λ _, Ok true) (λ _, Ok "n1"%string) (λ _, Ok tt) (λ _, Ok VNull)
    (λ h, Ok (mkTaskStatus false (Some (ok || negb (bool_decide (length (List.filter is_migration h) = 1%nat)))))).
(** May do everything. *)
Definition admin : user := mkUser (λ _, Z.ones 20) (λ _ _, Ok tt) (λ _ _, Ok true).
(** May audit guest 100 and nothing else. *)
Definition auditor_100 : user :=
  mkUser (λ path, if decide (path = guest_path "pve1" 100) then PRIV_RESOURCE_AUDIT else 0) (λ _ _, Err (EMsg "permission check failed")) (λ _ _, Ok true).
Definition start : gstate := mkState [] (World ∅ []) [].
Definition params : migration_params := mkMigration (Some 200) true true ["local:local"%string] ["vmbr0:vmbr0"%string] None.
Definition show_authid : Authid → string := λ a, a.
Definition migration (e : guest_env) (u : user) : guest (result error RemoteUpid) :=
  remote_migration (CS := RemotesDemo.shadows) show_authid e 5 "pve1" "pve2" None 100 params (Some true) None None (Ok u).

(** The container is started on the target, or again on the source. *)
Definition names (l : list request) : list (string * bool * bool * bool) :=
  (λ q, (q.1, is_shutdown q, is_migration q, is_start q)) <$> List.filter (λ q, is_shutdown q || is_migration q || is_start q) l.
Example migrated :
  names (gs_history (migration (env true (Ok tt)) admin start).2) =
    [("pve1", true, false, false); ("pve1", false, true, false); ("pve2", false, false, true)]%string.
Proof. vm_compute. reflexivity. Qed.
Example migration_failed :
  names (gs_history (migration (env false (Ok tt)) admin start).2) =
    [("pve1", true, false, false); ("pve1", false, true, false); ("pve1", false, false, true)]%string.
Proof. vm_compute. reflexivity. Qed.

(** If the client for the target cannot be made, which is only tried once the source has
    accepted the migration, nobody starts the container, and the migration is not
    tracked. *)
Example unreachable_target_leaves_container_stopped :
  let '(r, s) := migration (env false (Err (EMsg "connection failed"))) admin start in
  r = Some (Ok (Err (EMsg "connection failed"))) ∧
  names (gs_history s) = [("pve1", true, false, false); ("pve1", false, true, false)]%string ∧
  gs_world s = gs_world start.
Proof. vm_compute. done. Qed.

(** Stopping a virtual machine is not tracked, stopping a container is. *)
Example qemu_stop_not_tracked :
  gs_world (qemu_stop (env true (Ok tt)) "pve1" (Some "n1"%string) 100 start).2 = gs_world start ∧
  gs_world (lxc_stop (env true (Ok tt)) "pve1" (Some "n1"%string) 100 start).2 ≠ gs_world start.
Proof.
  split; [apply qemu_stop_untracked|]. intros Heq. apply (f_equal (λ w, size (files w))) in Heq. vm_compute in Heq. discriminate.
Qed.

Lemma remote_migration_authorized_witness :
  authorized admin "pve1" "pve2" 100 (Some 200) true ∧
  Z.land (lookup_privs admin (guest_path "pve2" 200)) PRIV_RESOURCE_MIGRATE ≠ 0.
Proof.
  destruct (remote_migration_authorized (CS := RemotesDemo.shadows) show_authid (env true (Ok tt)) Lxc 5 "pve1" "pve2" None 100 params (Some true) None None
    (Ok admin) start) as [(u&Hu&Hauth) _].
  - intros Heq. apply (f_equal (λ s, length (gs_history s))) in Heq. vm_compute in Heq. discriminate Heq.
  - injection Hu as <-. split; [exact Hauth|exact (au_migrate _ _ _ _ _ _ Hauth)].
Defined.

Lemma demo_finishing ok : finishing (env ok (Ok tt)) "pve2" 200.
Proof.
  split.
  - intros tgt _. cbn. by destruct (String.eqb _ _).
  - intros h. by eexists.
  - intros h. by eexists _, _.
Qed.


Definition interfaces : Value :=
  VArray [VObject [("name", VString "eth0"); ("inet", VString " 10.1.2.3/24 "); ("inet6", VString "FE80::1/64")];
          VObject [("name", VString "lo"); ("inet", VString "127.0.0.1/8")]]%string.
Lemma guest_addresses_spec_witness :
  lxc_addresses interfaces = ["10.1.2.3"%string] ∧ NoDup (lxc_addresses interfaces).
Proof. split; [vm_compute; reflexivity|]. apply (guest_addresses_spec interfaces). right. reflexivity. Defined.

Lemma started_task_polled_witness :
  ∃ m' s', start_task (env true (Ok tt)) "pve1" pve1 (Stop Lxc "n1" 100) start =
      (Some (Ok (mkRemoteUpid "pve1" RemoteType.Pve "UPID:n1")), s') ∧
    gs_world s' = World m' [] ∧
    mkRemoteUpid "pve1" RemoteType.Pve "UPID:n1" ∈ polled (RefreshTask.TickDemo.demo_env 5) demo_due m'.
Proof.
  destruct (started_task_polled (env true (Ok tt)) "pve1" pve1 (Stop Lxc "n1" 100) "n1"%string start ∅
    (RefreshTask.TickDemo.demo_env 5) demo_due) as (m'&s'&Hrun&Hw&Hpoll); [reflexivity..|].
  exists m', s'. split; [exact Hrun|]. split; [exact Hw|exact Hpoll].
Defined.
End GuestDemo.
