(* ===== verification/ApiRouter.v ===== *)
(** * The API tree: its vocabulary

    The daemons serve the tree of [Router]s whose root is [server/src/api/mod.rs].  This
    file has what such trees are made of: the methods with their parameters and the
    permissions they require, and the routers.  They are data that the crates
    [proxmox_router] and [proxmox_schema] interpret; their values are written in the
    [server/src/api] files and are translated one by one in [ApiPve], [ApiPbs],
    [ApiConfig], [ApiMain].  Of a schema only its name is kept, and descriptions,
    defaults and the code of the handlers are left out. *)

From S2P Require Import Prelude ResourceList TaskList PveGuests.

(** The privileges of [lib/pdm-api-types/src/acl.rs] that are not defined elsewhere. *)
Definition PRIV_SYS_AUDIT : Z := Z.shiftl 1 0.
Definition PRIV_SYS_MODIFY : Z := Z.shiftl 1 1.
Definition PRIV_SYS_CONSOLE : Z := Z.shiftl 1 2.
Definition PRIV_RESOURCE_MANAGE : Z := Z.shiftl 1 5.
Definition PRIV_RESOURCE_CREATE : Z := Z.shiftl 1 7.
Definition PRIV_ACCESS_AUDIT : Z := Z.shiftl 1 10.
Definition PRIV_ACCESS_MODIFY : Z := Z.shiftl 1 11.
Definition PRIV_REALM_ALLOCATE : Z := Z.shiftl 1 12.

(** The role of users who "can view configuration and status information, but not modify it". *)
Definition ROLE_AUDITOR : Z := Z.lor (Z.lor PRIV_SYS_AUDIT PRIV_RESOURCE_AUDIT) PRIV_ACCESS_AUDIT.

(** [proxmox_router::Permission].  A component of a path in braces stands for a
    parameter of the route.  [ForeignPrivilege] names a constant of another crate. *)
Inductive Permission : Type :=
| World
| Anybody
| UserParam (name : string)
| Privilege (path : list string) (privs : Z) (partial : bool)
| ForeignPrivilege (path : list string) (constant : string) (partial : bool)
| And_ (l : list Permission)
| Or_ (l : list Permission).

(** A parameter, with its schema or type; or all parameters of a type ([flatten]). *)
Inductive Property : Type :=
| Prop_ (name : string) (optional : bool) (schema : string)
| Flatten (type : string).

(** The [#[api]] attribute of a function.  Without [access] the crate's default holds,
    which only admits the superuser. *)
Record ApiMethod : Type := mkApiMethod {
  am_name : string;
  am_input : list Property;
  am_permission : option Permission;
  am_returns : string;
  am_protected : bool;
}.

(** What a router calls: a method of this repository; one of another crate, with the
    permission if that is set here; or the method that lists the subdirectories. *)
Inductive handler : Type :=
| Own (method : ApiMethod)
| Foreign (name : string)
| ForeignWith (name : string) (permission : Permission)
| ListSubdirs (dirs : list string).

Inductive verb : Type := Get | Put | Post | Delete | Upgrade.
#[export] Instance verb_eq_dec : EqDecision verb.
Proof. solve_decision. Defined.

Inductive Router : Type :=
| ForeignRouter (name : string)
| mkRouter (methods : list (verb * handler)) (sub : SubRoute)
with SubRoute : Type :=
| NoSub
| Hash (dirs : list (string * Router))
| MatchAll (param : string) (router : Router).
Definition SubdirMap : Type := list (string * Router).

(** The methods with which routers are built. *)
Module Router.
Definition new : Router := mkRouter [] NoSub.
Definition add (v : verb) (r : Router) (h : handler) : Router :=
  match r with mkRouter methods sub => mkRouter (methods ++ [(v, h)]) sub | ForeignRouter _ => r end.
Definition get : Router → handler → Router := add Get.
Definition put : Router → handler → Router := add Put.
Definition post : Router → handler → Router := add Post.
Definition delete : Router → handler → Router := add Delete.
Definition upgrade : Router → handler → Router := add Upgrade.
Definition set_sub (r : Router) (sub : SubRoute) : Router :=
  match r with mkRouter methods _ => mkRouter methods sub | ForeignRouter _ => r end.
Definition subdirs (r : Router) (dirs : SubdirMap) : Router := set_sub r (Hash dirs).
Definition match_all (r : Router) (param : string) (router : Router) : Router := set_sub r (MatchAll param router).
End Router.

(** [list_subdirs_api_method!] and [sorted!]. *)
Definition list_subdirs_api_method (dirs : SubdirMap) : handler := ListSubdirs dirs.*1.
Definition sorted (dirs : SubdirMap) : SubdirMap := sort_by (cmp_on fst String.compare) dirs.
