(* ===== verification/ApiPve.v ===== *)
(** * The API tree: Proxmox VE remotes

    The methods and routers of [server/src/api/pve/], and those of
    [server/src/api/remotes/updates.rs], [shell.rs] and [server/src/api/nodes/sdn.rs] that
    they use.  One module per
    source file, under its path. *)

From S2P Require Import Prelude ResourceList TaskList PveGuests ApiRouter.
#[local] Open Scope string_scope.

(** [server/src/api/remotes/updates.rs] *)
Module remotes_updates.
Definition API_METHOD_UPDATE_SUMMARY : ApiMethod := mkApiMethod "update_summary"
  []
  (Some (Anybody)) "UpdateSummary" false.
Definition API_METHOD_REFRESH_REMOTE_UPDATE_SUMMARIES : ApiMethod := mkApiMethod "refresh_remote_update_summaries"
  []
  (Some (Anybody)) "UPID" false.
Definition API_METHOD_APT_UPDATE_AVAILABLE : ApiMethod := mkApiMethod "apt_update_available"
  [Prop_ "remote" false "REMOTE_ID_SCHEMA"; Prop_ "node" false "NODE_SCHEMA"]
  (Some (Privilege ["resource"; "{remote}"; "node"; "{node}"; "system"] PRIV_RESOURCE_MODIFY false)) "Array of APTUpdateInfo" false.
Definition API_METHOD_APT_UPDATE_DATABASE : ApiMethod := mkApiMethod "apt_update_database"
  [Prop_ "remote" false "REMOTE_ID_SCHEMA"; Prop_ "node" false "NODE_SCHEMA"]
  (Some (Privilege ["resource"; "{remote}"; "node"; "{node}"; "system"] PRIV_RESOURCE_MODIFY false)) "RemoteUpid" false.
Definition API_METHOD_APT_GET_CHANGELOG : ApiMethod := mkApiMethod "apt_get_changelog"
  [Prop_ "remote" false "REMOTE_ID_SCHEMA"; Prop_ "node" false "NODE_SCHEMA"; Flatten "APTGetChangelogOptions"]
  (Some (Privilege ["resource"; "{remote}"; "node"; "{node}"; "system"] PRIV_RESOURCE_MODIFY false)) "String" false.
Definition API_METHOD_GET_APT_REPOSITORIES : ApiMethod := mkApiMethod "get_apt_repositories"
  [Prop_ "remote" false "REMOTE_ID_SCHEMA"; Prop_ "node" false "NODE_SCHEMA"]
  (Some (Privilege ["resource"; "{remote}"; "node"; "{node}"; "system"] PRIV_RESOURCE_AUDIT false)) "" false.
Definition SUBDIRS : SubdirMap := sorted [("summary", (Router.get Router.new (Own API_METHOD_UPDATE_SUMMARY)));
    ("refresh", (Router.post Router.new (Own API_METHOD_REFRESH_REMOTE_UPDATE_SUMMARIES)))].
Definition APT_SUBDIRS : SubdirMap := sorted [("changelog", (Router.get Router.new (Own API_METHOD_APT_GET_CHANGELOG)));
    ("repositories", (Router.get Router.new (Own API_METHOD_GET_APT_REPOSITORIES)));
    ("update", (Router.post (Router.get Router.new (Own API_METHOD_APT_UPDATE_AVAILABLE)) (Own API_METHOD_APT_UPDATE_DATABASE)))].
Definition APT_ROUTER : Router := (Router.subdirs (Router.get Router.new (list_subdirs_api_method APT_SUBDIRS)) APT_SUBDIRS).
Definition ROUTER : Router := (Router.subdirs (Router.get Router.new (list_subdirs_api_method SUBDIRS)) SUBDIRS).
End remotes_updates.

(** [server/src/api/remotes/shell.rs] *)
Module remotes_shell.
Definition API_METHOD_SHELL_TICKET : ApiMethod := mkApiMethod "shell_ticket"
  [Prop_ "remote" false "REMOTE_ID_SCHEMA"; Prop_ "node" false "NODE_SCHEMA"; Prop_ "cmd" true "String"]
  (Some (Privilege ["resource"; "{remote}"; "node"; "{node}"] PRIV_SYS_CONSOLE false)) "Object" true.
Definition API_METHOD_SHELL_WEBSOCKET : ApiMethod := mkApiMethod "shell_websocket"
  [Prop_ "remote" false "REMOTE_ID_SCHEMA"; Prop_ "node" false "NODE_SCHEMA"; Prop_ "vncticket" false "String"; Prop_ "port" false "Integer"]
  (Some (Privilege ["resource"; "{remote}"; "node"; "{node}"] PRIV_SYS_CONSOLE false)) "" false.
End remotes_shell.

(** [server/src/api/nodes/sdn.rs] *)
Module nodes_sdn_zones.
Definition API_METHOD_GET_IP_VRF : ApiMethod := mkApiMethod "get_ip_vrf"
  [Prop_ "remote" false "REMOTE_ID_SCHEMA"; Prop_ "node" false "NODE_SCHEMA"; Prop_ "zone" false "SDN_ID_SCHEMA"]
  None "SdnZoneIpVrf" false.
Definition ZONE_SUBDIRS : SubdirMap := [("ip-vrf", (Router.get Router.new (Own API_METHOD_GET_IP_VRF)))].
Definition ZONE_ROUTER : Router := (Router.subdirs (Router.get Router.new (list_subdirs_api_method ZONE_SUBDIRS)) ZONE_SUBDIRS).
Definition ROUTER : Router := (Router.match_all Router.new "zone" ZONE_ROUTER).
End nodes_sdn_zones.

(** [server/src/api/nodes/sdn.rs] *)
Module nodes_sdn_vnets.
Definition API_METHOD_GET_MAC_VRF : ApiMethod := mkApiMethod "get_mac_vrf"
  [Prop_ "remote" false "REMOTE_ID_SCHEMA"; Prop_ "node" false "NODE_SCHEMA"; Prop_ "vnet" false "SDN_ID_SCHEMA"]
  None "SdnVnetMacVrf" false.
Definition VNET_SUBDIRS : SubdirMap := [("mac-vrf", (Router.get Router.new (Own API_METHOD_GET_MAC_VRF)))].
Definition VNET_ROUTER : Router := (Router.subdirs (Router.get Router.new (list_subdirs_api_method VNET_SUBDIRS)) VNET_SUBDIRS).
Definition ROUTER : Router := (Router.match_all Router.new "vnet" VNET_ROUTER).
End nodes_sdn_vnets.

(** [server/src/api/nodes/sdn.rs] *)
Module nodes_sdn.
Definition SUBDIRS : SubdirMap := [("vnets", nodes_sdn_vnets.ROUTER);
    ("zones", nodes_sdn_zones.ROUTER)].
Definition ROUTER : Router := (Router.subdirs (Router.get Router.new (list_subdirs_api_method SUBDIRS)) SUBDIRS).
End nodes_sdn.

(** [server/src/api/pve/rrddata.rs] *)
Module pve_rrddata.
Definition API_METHOD_GET_QEMU_RRD_DATA : ApiMethod := mkApiMethod "get_qemu_rrd_data"
  [Prop_ "remote" false "REMOTE_ID_SCHEMA"; Prop_ "vmid" false "VMID_SCHEMA"; Prop_ "timeframe" false "RrdTimeframe"; Prop_ "cf" false "RrdMode"]
  (Some (Privilege ["resource"; "{remote}"; "guest"; "{vmid}"] PRIV_RESOURCE_AUDIT false)) "Array of QemuDataPoint" false.
Definition API_METHOD_GET_LXC_RRD_DATA : ApiMethod := mkApiMethod "get_lxc_rrd_data"
  [Prop_ "remote" false "REMOTE_ID_SCHEMA"; Prop_ "vmid" false "VMID_SCHEMA"; Prop_ "timeframe" false "RrdTimeframe"; Prop_ "cf" false "RrdMode"]
  (Some (Privilege ["resource"; "{remote}"; "guest"; "{vmid}"] PRIV_RESOURCE_AUDIT false)) "Array of LxcDataPoint" false.
Definition API_METHOD_GET_NODE_RRD_DATA : ApiMethod := mkApiMethod "get_node_rrd_data"
  [Prop_ "remote" false "REMOTE_ID_SCHEMA"; Prop_ "node" false "NODE_SCHEMA"; Prop_ "timeframe" false "RrdTimeframe"; Prop_ "cf" false "RrdMode"]
  (Some (Privilege ["resource"; "{remote}"; "node"; "{node}"] PRIV_RESOURCE_AUDIT false)) "Array of NodeDataPoint" false.
Definition API_METHOD_GET_STORAGE_RRD_DATA : ApiMethod := mkApiMethod "get_storage_rrd_data"
  [Prop_ "remote" false "REMOTE_ID_SCHEMA"; Prop_ "node" false "NODE_SCHEMA"; Prop_ "storage" false "PVE_STORAGE_ID_SCHEMA"; Prop_ "timeframe" false "RrdTimeframe"; Prop_ "cf" false "RrdMode"]
  (Some (Privilege ["resource"; "{remote}"; "storage"; "{storage}"] PRIV_RESOURCE_AUDIT false)) "Array of PveStorageDataPoint" false.
Definition QEMU_RRD_ROUTER : Router := (Router.get Router.new (Own API_METHOD_GET_QEMU_RRD_DATA)).
Definition LXC_RRD_ROUTER : Router := (Router.get Router.new (Own API_METHOD_GET_LXC_RRD_DATA)).
Definition NODE_RRD_ROUTER : Router := (Router.get Router.new (Own API_METHOD_GET_NODE_RRD_DATA)).
Definition STORAGE_RRD_ROUTER : Router := (Router.get Router.new (Own API_METHOD_GET_STORAGE_RRD_DATA)).
End pve_rrddata.

(** [server/src/api/pve/firewall.rs] *)
Module pve_firewall.
Definition API_METHOD_PVE_FIREWALL_STATUS : ApiMethod := mkApiMethod "pve_firewall_status"
  []
  (Some (Anybody)) "Array of RemoteFirewallStatus" false.
Definition API_METHOD_CLUSTER_FIREWALL_OPTIONS : ApiMethod := mkApiMethod "cluster_firewall_options"
  [Prop_ "remote" false "REMOTE_ID_SCHEMA"]
  (Some (Privilege ["resource"; "{remote}"] PRIV_RESOURCE_AUDIT false)) "pve_api_types::ClusterFirewallOptions" false.
Definition API_METHOD_CLUSTER_FIREWALL_STATUS : ApiMethod := mkApiMethod "cluster_firewall_status"
  [Prop_ "remote" false "REMOTE_ID_SCHEMA"]
  (Some (Privilege ["resource"; "{remote}"] PRIV_RESOURCE_AUDIT false)) "RemoteFirewallStatus" false.
Definition API_METHOD_NODE_FIREWALL_OPTIONS : ApiMethod := mkApiMethod "node_firewall_options"
  [Prop_ "remote" false "REMOTE_ID_SCHEMA"; Prop_ "node" false "NODE_SCHEMA"]
  (Some (Privilege ["resource"; "{remote}"] PRIV_RESOURCE_AUDIT false)) "pve_api_types::NodeFirewallOptions" false.
Definition API_METHOD_NODE_FIREWALL_STATUS : ApiMethod := mkApiMethod "node_firewall_status"
  [Prop_ "remote" false "REMOTE_ID_SCHEMA"; Prop_ "node" false "NODE_SCHEMA"]
  (Some (Privilege ["resource"; "{remote}"] PRIV_RESOURCE_AUDIT false)) "NodeFirewallStatus" false.
Definition API_METHOD_CLUSTER_FIREWALL_RULES : ApiMethod := mkApiMethod "cluster_firewall_rules"
  [Prop_ "remote" false "REMOTE_ID_SCHEMA"]
  (Some (Privilege ["resource"; "{remote}"] PRIV_RESOURCE_AUDIT false)) "Array of pve_api_types::ListFirewallRules" false.
Definition API_METHOD_LXC_FIREWALL_OPTIONS : ApiMethod := mkApiMethod "lxc_firewall_options"
  [Prop_ "remote" false "REMOTE_ID_SCHEMA"; Prop_ "node" true "NODE_SCHEMA"; Prop_ "vmid" false "VMID_SCHEMA"]
  (Some (Privilege ["resource"; "{remote}"; "guest"; "{vmid}"] PRIV_RESOURCE_AUDIT false)) "pve_api_types::GuestFirewallOptions" false.
Definition API_METHOD_UPDATE_CLUSTER_FIREWALL_OPTIONS : ApiMethod := mkApiMethod "update_cluster_firewall_options"
  [Prop_ "remote" false "REMOTE_ID_SCHEMA"; Flatten "pve_api_types::UpdateClusterFirewallOptions"]
  (Some (Privilege ["resource"; "{remote}"] PRIV_SYS_MODIFY false)) "" false.
Definition API_METHOD_UPDATE_NODE_FIREWALL_OPTIONS : ApiMethod := mkApiMethod "update_node_firewall_options"
  [Prop_ "remote" false "REMOTE_ID_SCHEMA"; Prop_ "node" false "NODE_SCHEMA"; Flatten "pve_api_types::UpdateNodeFirewallOptions"]
  (Some (Privilege ["resource"; "{remote}"] PRIV_RESOURCE_MODIFY false)) "" false.
Definition API_METHOD_NODE_FIREWALL_RULES : ApiMethod := mkApiMethod "node_firewall_rules"
  [Prop_ "remote" false "REMOTE_ID_SCHEMA"; Prop_ "node" false "NODE_SCHEMA"]
  (Some (Privilege ["resource"; "{remote}"] PRIV_RESOURCE_AUDIT false)) "Array of pve_api_types::ListFirewallRules" false.
Definition API_METHOD_QEMU_FIREWALL_OPTIONS : ApiMethod := mkApiMethod "qemu_firewall_options"
  [Prop_ "remote" false "REMOTE_ID_SCHEMA"; Prop_ "node" true "NODE_SCHEMA"; Prop_ "vmid" false "VMID_SCHEMA"]
  (Some (Privilege ["resource"; "{remote}"; "guest"; "{vmid}"] PRIV_RESOURCE_AUDIT false)) "pve_api_types::GuestFirewallOptions" false.
Definition API_METHOD_UPDATE_LXC_FIREWALL_OPTIONS : ApiMethod := mkApiMethod "update_lxc_firewall_options"
  [Prop_ "remote" false "REMOTE_ID_SCHEMA"; Prop_ "node" true "NODE_SCHEMA"; Prop_ "vmid" false "VMID_SCHEMA"; Flatten "pve_api_types::UpdateGuestFirewallOptions"]
  (Some (Privilege ["resource"; "{remote}"; "guest"; "{vmid}"] PRIV_RESOURCE_MODIFY false)) "" false.
Definition API_METHOD_UPDATE_QEMU_FIREWALL_OPTIONS : ApiMethod := mkApiMethod "update_qemu_firewall_options"
  [Prop_ "remote" false "REMOTE_ID_SCHEMA"; Prop_ "node" true "NODE_SCHEMA"; Prop_ "vmid" false "VMID_SCHEMA"; Flatten "pve_api_types::UpdateGuestFirewallOptions"]
  (Some (Privilege ["resource"; "{remote}"; "guest"; "{vmid}"] PRIV_RESOURCE_MODIFY false)) "" false.
Definition API_METHOD_LXC_FIREWALL_RULES : ApiMethod := mkApiMethod "lxc_firewall_rules"
  [Prop_ "remote" false "REMOTE_ID_SCHEMA"; Prop_ "node" true "NODE_SCHEMA"; Prop_ "vmid" false "VMID_SCHEMA"]
  (Some (Privilege ["resource"; "{remote}"; "guest"; "{vmid}"] PRIV_RESOURCE_AUDIT false)) "Array of pve_api_types::ListFirewallRules" false.
Definition API_METHOD_QEMU_FIREWALL_RULES : ApiMethod := mkApiMethod "qemu_firewall_rules"
  [Prop_ "remote" false "REMOTE_ID_SCHEMA"; Prop_ "node" true "NODE_SCHEMA"; Prop_ "vmid" false "VMID_SCHEMA"]
  (Some (Privilege ["resource"; "{remote}"; "guest"; "{vmid}"] PRIV_RESOURCE_AUDIT false)) "Array of pve_api_types::ListFirewallRules" false.
Definition CLUSTER_OPTIONS_ROUTER : Router := (Router.put (Router.get Router.new (Own API_METHOD_CLUSTER_FIREWALL_OPTIONS)) (Own API_METHOD_UPDATE_CLUSTER_FIREWALL_OPTIONS)).
Definition NODE_OPTIONS_ROUTER : Router := (Router.put (Router.get Router.new (Own API_METHOD_NODE_FIREWALL_OPTIONS)) (Own API_METHOD_UPDATE_NODE_FIREWALL_OPTIONS)).
Definition LXC_OPTIONS_ROUTER : Router := (Router.put (Router.get Router.new (Own API_METHOD_LXC_FIREWALL_OPTIONS)) (Own API_METHOD_UPDATE_LXC_FIREWALL_OPTIONS)).
Definition QEMU_OPTIONS_ROUTER : Router := (Router.put (Router.get Router.new (Own API_METHOD_QEMU_FIREWALL_OPTIONS)) (Own API_METHOD_UPDATE_QEMU_FIREWALL_OPTIONS)).
Definition CLUSTER_RULES_ROUTER : Router := (Router.get Router.new (Own API_METHOD_CLUSTER_FIREWALL_RULES)).
Definition NODE_RULES_ROUTER : Router := (Router.get Router.new (Own API_METHOD_NODE_FIREWALL_RULES)).
Definition LXC_RULES_ROUTER : Router := (Router.get Router.new (Own API_METHOD_LXC_FIREWALL_RULES)).
Definition QEMU_RULES_ROUTER : Router := (Router.get Router.new (Own API_METHOD_QEMU_FIREWALL_RULES)).
Definition PVE_STATUS_ROUTER : Router := (Router.get Router.new (Own API_METHOD_PVE_FIREWALL_STATUS)).
Definition CLUSTER_STATUS_ROUTER : Router := (Router.get Router.new (Own API_METHOD_CLUSTER_FIREWALL_STATUS)).
Definition NODE_STATUS_ROUTER : Router := (Router.get Router.new (Own API_METHOD_NODE_FIREWALL_STATUS)).
Definition PVE_FW_SUBDIRS : SubdirMap := sorted [("status", PVE_STATUS_ROUTER)].
Definition CLUSTER_FW_SUBDIRS : SubdirMap := sorted [("options", CLUSTER_OPTIONS_ROUTER);
    ("rules", CLUSTER_RULES_ROUTER);
    ("status", CLUSTER_STATUS_ROUTER)].
Definition NODE_FW_SUBDIRS : SubdirMap := sorted [("options", NODE_OPTIONS_ROUTER);
    ("rules", NODE_RULES_ROUTER);
    ("status", NODE_STATUS_ROUTER)].
Definition LXC_FW_SUBDIRS : SubdirMap := sorted [("options", LXC_OPTIONS_ROUTER);
    ("rules", LXC_RULES_ROUTER)].
Definition QEMU_FW_SUBDIRS : SubdirMap := sorted [("options", QEMU_OPTIONS_ROUTER);
    ("rules", QEMU_RULES_ROUTER)].
Definition PVE_FW_ROUTER : Router := (Router.subdirs (Router.get Router.new (list_subdirs_api_method PVE_FW_SUBDIRS)) PVE_FW_SUBDIRS).
Definition CLUSTER_FW_ROUTER : Router := (Router.subdirs (Router.get Router.new (list_subdirs_api_method CLUSTER_FW_SUBDIRS)) CLUSTER_FW_SUBDIRS).
Definition NODE_FW_ROUTER : Router := (Router.subdirs (Router.get Router.new (list_subdirs_api_method NODE_FW_SUBDIRS)) NODE_FW_SUBDIRS).
Definition LXC_FW_ROUTER : Router := (Router.subdirs (Router.get Router.new (list_subdirs_api_method LXC_FW_SUBDIRS)) LXC_FW_SUBDIRS).
Definition QEMU_FW_ROUTER : Router := (Router.subdirs (Router.get Router.new (list_subdirs_api_method QEMU_FW_SUBDIRS)) QEMU_FW_SUBDIRS).
End pve_firewall.

(** [server/src/api/pve/storage.rs] *)
Module pve_storage.
Definition API_METHOD_LIST_CONTENT : ApiMethod := mkApiMethod "list_content"
  [Prop_ "remote" false "REMOTE_ID_SCHEMA"; Prop_ "node" false "NODE_SCHEMA"; Prop_ "storage" false "PVE_STORAGE_ID_SCHEMA"; Prop_ "content" false "MediaContentType"]
  (Some (Privilege ["resource"; "{remote}"; "storage"; "{storage}"] PRIV_RESOURCE_AUDIT false)) "Array of PveStorageContent" false.
Definition API_METHOD_DOWNLOAD_URL : ApiMethod := mkApiMethod "download_url"
  [Prop_ "remote" false "REMOTE_ID_SCHEMA"; Prop_ "node" false "NODE_SCHEMA"; Prop_ "storage" false "PVE_STORAGE_ID_SCHEMA"; Flatten "PveDownloadUrl"]
  (Some (Privilege ["resource"; "{remote}"; "storage"; "{storage}"] PRIV_RESOURCE_MANAGE false)) "RemoteUpid" false.
Definition API_METHOD_DOWNLOAD_APPLIANCE : ApiMethod := mkApiMethod "download_appliance"
  [Prop_ "remote" false "REMOTE_ID_SCHEMA"; Prop_ "node" false "NODE_SCHEMA"; Prop_ "storage" false "PVE_STORAGE_ID_SCHEMA"; Flatten "PveDownloadAppliance"]
  (Some (Privilege ["resource"; "{remote}"; "storage"; "{storage}"] PRIV_RESOURCE_MANAGE false)) "RemoteUpid" false.
Definition API_METHOD_GET_STATUS : ApiMethod := mkApiMethod "get_status"
  [Prop_ "remote" false "REMOTE_ID_SCHEMA"; Prop_ "node" false "NODE_SCHEMA"; Prop_ "storage" false "PVE_STORAGE_ID_SCHEMA"]
  (Some (Privilege ["resource"; "{remote}"; "storage"; "{storage}"] PRIV_RESOURCE_AUDIT false)) "pve_api_types::StorageStatus" false.
Definition STORAGE_SUBDIR : SubdirMap := sorted [("aplinfo", (Router.post Router.new (Own API_METHOD_DOWNLOAD_APPLIANCE)));
    ("content", (Router.get Router.new (Own API_METHOD_LIST_CONTENT)));
    ("download-url", (Router.post Router.new (Own API_METHOD_DOWNLOAD_URL)));
    ("rrddata", pve_rrddata.STORAGE_RRD_ROUTER);
    ("status", (Router.get Router.new (Own API_METHOD_GET_STATUS)))].
Definition ROUTER : Router := (Router.subdirs (Router.get Router.new (list_subdirs_api_method STORAGE_SUBDIR)) STORAGE_SUBDIR).
End pve_storage.

(** [server/src/api/pve/node.rs] *)
Module pve_node.
Definition API_METHOD_GET_CONFIG : ApiMethod := mkApiMethod "get_config"
  [Prop_ "remote" false "REMOTE_ID_SCHEMA"; Prop_ "node" false "NODE_SCHEMA"]
  (Some (Privilege ["resource"; "{remote}"; "node"; "{node}"] PRIV_RESOURCE_AUDIT false)) "" false.
Definition API_METHOD_LIST_APLINFO : ApiMethod := mkApiMethod "list_aplinfo"
  [Prop_ "remote" false "REMOTE_ID_SCHEMA"; Prop_ "node" false "NODE_SCHEMA"]
  (Some (Privilege ["resource"; "{remote}"; "node"; "{node}"] PRIV_RESOURCE_AUDIT false)) "Array of PveApplianceInfo" false.
Definition API_METHOD_GET_NETWORK : ApiMethod := mkApiMethod "get_network"
  [Prop_ "remote" false "REMOTE_ID_SCHEMA"; Prop_ "node" false "NODE_SCHEMA"; Prop_ "interface-type" true "pve_api_types::ListNetworksType"]
  (Some (Privilege ["resource"; "{remote}"; "node"; "{node}"] PRIV_RESOURCE_AUDIT false)) "Array of pve_api_types::NetworkInterface" false.
Definition API_METHOD_GET_STORAGES : ApiMethod := mkApiMethod "get_storages"
  [Prop_ "remote" false "REMOTE_ID_SCHEMA"; Prop_ "node" false "NODE_SCHEMA"; Prop_ "content" true "Array"; Prop_ "enabled" true "bool"; Prop_ "format" true "bool"; Prop_ "storage" true "String"; Prop_ "target" true "String"]
  (Some (Privilege ["resource"; "{remote}"; "node"; "{node}"] PRIV_RESOURCE_AUDIT false)) "Array of pve_api_types::StorageInfo" false.
Definition API_METHOD_GET_STATUS : ApiMethod := mkApiMethod "get_status"
  [Prop_ "remote" false "REMOTE_ID_SCHEMA"; Prop_ "node" false "NODE_SCHEMA"]
  (Some (Privilege ["resource"; "{remote}"; "node"; "{node}"] PRIV_RESOURCE_AUDIT false)) "pve_api_types::NodeStatus" false.
Definition API_METHOD_GET_SUBSCRIPTION : ApiMethod := mkApiMethod "get_subscription"
  [Prop_ "remote" false "REMOTE_ID_SCHEMA"; Prop_ "node" false "NODE_SCHEMA"]
  (Some (Privilege ["resource"; "{remote}"; "node"; "{node}"] PRIV_RESOURCE_AUDIT false)) "pve_api_types::NodeStatus" false.
Definition STORAGE_ROUTER : Router := (Router.match_all (Router.get Router.new (Own API_METHOD_GET_STORAGES)) "storage" pve_storage.ROUTER).
Definition SUBDIRS : SubdirMap := sorted [("aplinfo", (Router.get Router.new (Own API_METHOD_LIST_APLINFO)));
    ("apt", remotes_updates.APT_ROUTER);
    ("config", (Router.get Router.new (Own API_METHOD_GET_CONFIG)));
    ("firewall", pve_firewall.NODE_FW_ROUTER);
    ("rrddata", pve_rrddata.NODE_RRD_ROUTER);
    ("network", (Router.get Router.new (Own API_METHOD_GET_NETWORK)));
    ("termproxy", (Router.post Router.new (Own remotes_shell.API_METHOD_SHELL_TICKET)));
    ("vncwebsocket", (Router.upgrade Router.new (Own remotes_shell.API_METHOD_SHELL_WEBSOCKET)));
    ("sdn", nodes_sdn.ROUTER);
    ("storage", STORAGE_ROUTER);
    ("status", (Router.get Router.new (Own API_METHOD_GET_STATUS)));
    ("subscription", (Router.get Router.new (Own API_METHOD_GET_SUBSCRIPTION)))].
Definition ROUTER : Router := (Router.subdirs (Router.get Router.new (list_subdirs_api_method SUBDIRS)) SUBDIRS).
End pve_node.

(** [server/src/api/pve/tasks.rs] *)
Module pve_tasks.
Definition API_METHOD_LIST_TASKS : ApiMethod := mkApiMethod "list_tasks"
  [Prop_ "remote" false "REMOTE_ID_SCHEMA"; Prop_ "node" true "NODE_SCHEMA"]
  (Some (Privilege ["resource"; "{remote}"] PRIV_RESOURCE_AUDIT false)) "Array of pve_api_types::ListTasksResponse" false.
Definition API_METHOD_STOP_TASK : ApiMethod := mkApiMethod "stop_task"
  [Prop_ "remote" false "REMOTE_ID_SCHEMA"; Prop_ "upid" false "RemoteUpid"]
  (Some (Privilege ["resource"; "{remote}"] PRIV_RESOURCE_MANAGE false)) "" false.
Definition API_METHOD_GET_TASK_STATUS : ApiMethod := mkApiMethod "get_task_status"
  [Prop_ "remote" false "REMOTE_ID_SCHEMA"; Prop_ "upid" false "RemoteUpid"; Prop_ "wait" true "Boolean"]
  (Some (Privilege ["resource"; "{remote}"] PRIV_RESOURCE_AUDIT false)) "pve_api_types::TaskStatus" false.
Definition API_METHOD_READ_TASK_LOG : ApiMethod := mkApiMethod "read_task_log"
  [Prop_ "remote" false "REMOTE_ID_SCHEMA"; Prop_ "upid" false "RemoteUpid"; Prop_ "start" true "TASKLOG_START_PARAM_SCHEMA"; Prop_ "limit" true "TASKLOG_LIMIT_PARAM_SCHEMA"; Prop_ "download" true "TASKLOG_DOWNLOAD_PARAM_SCHEMA"]
  (Some (Privilege ["resource"; "{remote}"] PRIV_RESOURCE_AUDIT false)) "pve_api_types::TaskStatus" false.
Definition UPID_API_SUBDIRS : SubdirMap := sorted [("log", (Router.get Router.new (Own API_METHOD_READ_TASK_LOG)));
    ("status", (Router.get Router.new (Own API_METHOD_GET_TASK_STATUS)))].
Definition UPID_API_ROUTER : Router := (Router.subdirs (Router.delete (Router.get Router.new (list_subdirs_api_method UPID_API_SUBDIRS)) (Own API_METHOD_STOP_TASK)) UPID_API_SUBDIRS).
Definition ROUTER : Router := (Router.match_all (Router.get Router.new (Own API_METHOD_LIST_TASKS)) "upid" UPID_API_ROUTER).
End pve_tasks.

(** [server/src/api/pve/backup.rs] *)
Module pve_backup.
Definition API_METHOD_LIST_BACKUP_JOBS : ApiMethod := mkApiMethod "list_backup_jobs"
  [Prop_ "remote" false "REMOTE_ID_SCHEMA"]
  (Some (Privilege ["resource"; "{remote}"] PRIV_RESOURCE_AUDIT false)) "Array of PveBackupJob" false.
Definition API_METHOD_CREATE_BACKUP_JOB : ApiMethod := mkApiMethod "create_backup_job"
  [Prop_ "remote" false "REMOTE_ID_SCHEMA"; Flatten "PveBackupJobConfig"]
  (Some (Privilege ["resource"; "{remote}"] PRIV_RESOURCE_CREATE false)) "" false.
Definition API_METHOD_GET_BACKUP_JOB : ApiMethod := mkApiMethod "get_backup_job"
  [Prop_ "remote" false "REMOTE_ID_SCHEMA"; Prop_ "id" false "String"]
  (Some (Privilege ["resource"; "{remote}"] PRIV_RESOURCE_AUDIT false)) "PveBackupJob" false.
Definition API_METHOD_UPDATE_BACKUP_JOB : ApiMethod := mkApiMethod "update_backup_job"
  [Prop_ "remote" false "REMOTE_ID_SCHEMA"; Prop_ "id" false "String"; Flatten "PveBackupJobConfig"]
  (Some (Privilege ["resource"; "{remote}"] PRIV_RESOURCE_MANAGE false)) "" false.
Definition API_METHOD_DELETE_BACKUP_JOB : ApiMethod := mkApiMethod "delete_backup_job"
  [Prop_ "remote" false "REMOTE_ID_SCHEMA"; Prop_ "id" false "String"]
  (Some (Privilege ["resource"; "{remote}"] PRIV_RESOURCE_DELETE false)) "" false.
Definition API_METHOD_RUN_VZDUMP : ApiMethod := mkApiMethod "run_vzdump"
  [Prop_ "remote" false "REMOTE_ID_SCHEMA"; Flatten "PveVzdumpRequest"]
  (Some (Privilege ["resource"; "{remote}"] PRIV_RESOURCE_MANAGE false)) "RemoteUpid" false.
Definition API_METHOD_LIST_BACKUP_CONTENT : ApiMethod := mkApiMethod "list_backup_content"
  [Prop_ "remote" false "REMOTE_ID_SCHEMA"; Prop_ "node" true "NODE_SCHEMA"; Prop_ "vmid" true "VMID_SCHEMA"; Prop_ "storage" true "PVE_STORAGE_ID_SCHEMA"]
  (Some (Privilege ["resource"; "{remote}"] PRIV_RESOURCE_AUDIT false)) "Array of PveBackupContent" false.
Definition API_METHOD_RESTORE_BACKUP : ApiMethod := mkApiMethod "restore_backup"
  [Prop_ "remote" false "REMOTE_ID_SCHEMA"; Flatten "PveRestoreRequest"]
  (Some (Privilege ["resource"; "{remote}"] PRIV_RESOURCE_CREATE false)) "RemoteUpid" false.
Definition ITEM_ROUTER : Router := (Router.delete (Router.put (Router.get Router.new (Own API_METHOD_GET_BACKUP_JOB)) (Own API_METHOD_UPDATE_BACKUP_JOB)) (Own API_METHOD_DELETE_BACKUP_JOB)).
Definition VZDUMP_ROUTER : Router := (Router.post Router.new (Own API_METHOD_RUN_VZDUMP)).
Definition CONTENT_ROUTER : Router := (Router.get Router.new (Own API_METHOD_LIST_BACKUP_CONTENT)).
Definition RESTORE_ROUTER : Router := (Router.post Router.new (Own API_METHOD_RESTORE_BACKUP)).
Definition ROUTER : Router := (Router.match_all (Router.post (Router.get Router.new (Own API_METHOD_LIST_BACKUP_JOBS)) (Own API_METHOD_CREATE_BACKUP_JOB)) "id" ITEM_ROUTER).
End pve_backup.

(** [server/src/api/pve/replication.rs] *)
Module pve_replication.
Definition API_METHOD_LIST_REPLICATION_STATUS : ApiMethod := mkApiMethod "list_replication_status"
  [Prop_ "remote" false "REMOTE_ID_SCHEMA"]
  (Some (Privilege ["resource"; "{remote}"] PRIV_RESOURCE_AUDIT false)) "Array of PveReplicationStatus" false.
Definition API_METHOD_LIST_REPLICATION_JOBS : ApiMethod := mkApiMethod "list_replication_jobs"
  [Prop_ "remote" false "REMOTE_ID_SCHEMA"]
  (Some (Privilege ["resource"; "{remote}"] PRIV_RESOURCE_AUDIT false)) "Array of PveReplicationJob" false.
Definition API_METHOD_GET_REPLICATION_JOB : ApiMethod := mkApiMethod "get_replication_job"
  [Prop_ "remote" false "REMOTE_ID_SCHEMA"; Prop_ "id" false "String"]
  (Some (Privilege ["resource"; "{remote}"] PRIV_RESOURCE_AUDIT false)) "PveReplicationJob" false.
Definition API_METHOD_CREATE_REPLICATION_JOB : ApiMethod := mkApiMethod "create_replication_job"
  [Prop_ "remote" false "REMOTE_ID_SCHEMA"; Flatten "PveReplicationJobConfig"]
  (Some (Privilege ["resource"; "{remote}"] PRIV_RESOURCE_CREATE false)) "" false.
Definition API_METHOD_UPDATE_REPLICATION_JOB : ApiMethod := mkApiMethod "update_replication_job"
  [Prop_ "remote" false "REMOTE_ID_SCHEMA"; Prop_ "id" false "String"; Flatten "PveReplicationJobConfig"]
  (Some (Privilege ["resource"; "{remote}"] PRIV_RESOURCE_MANAGE false)) "" false.
Definition API_METHOD_DELETE_REPLICATION_JOB : ApiMethod := mkApiMethod "delete_replication_job"
  [Prop_ "remote" false "REMOTE_ID_SCHEMA"; Prop_ "id" false "String"]
  (Some (Privilege ["resource"; "{remote}"] PRIV_RESOURCE_DELETE false)) "" false.
Definition API_METHOD_GET_REPLICATION_STATUS : ApiMethod := mkApiMethod "get_replication_status"
  [Prop_ "remote" false "REMOTE_ID_SCHEMA"; Prop_ "id" false "String"; Prop_ "node" false "NODE_SCHEMA"]
  (Some (Privilege ["resource"; "{remote}"] PRIV_RESOURCE_AUDIT false)) "PveReplicationStatus" false.
Definition API_METHOD_RUN_REPLICATION_JOB : ApiMethod := mkApiMethod "run_replication_job"
  [Prop_ "remote" false "REMOTE_ID_SCHEMA"; Prop_ "id" false "String"; Prop_ "node" false "NODE_SCHEMA"]
  (Some (Privilege ["resource"; "{remote}"] PRIV_RESOURCE_MANAGE false)) "RemoteUpid" false.
Definition STATUS_ROUTER : Router := (Router.get Router.new (Own API_METHOD_LIST_REPLICATION_STATUS)).
Definition ITEM_SUBDIRS : SubdirMap := sorted [("config", (Router.get Router.new (Own API_METHOD_GET_REPLICATION_JOB)));
    ("run", (Router.post Router.new (Own API_METHOD_RUN_REPLICATION_JOB)));
    ("status", (Router.get Router.new (Own API_METHOD_GET_REPLICATION_STATUS)))].
Definition ITEM_ROUTER : Router := (Router.subdirs (Router.delete (Router.put (Router.get Router.new (list_subdirs_api_method ITEM_SUBDIRS)) (Own API_METHOD_UPDATE_REPLICATION_JOB)) (Own API_METHOD_DELETE_REPLICATION_JOB)) ITEM_SUBDIRS).
Definition ROUTER : Router := (Router.match_all (Router.post (Router.get Router.new (Own API_METHOD_LIST_REPLICATION_JOBS)) (Own API_METHOD_CREATE_REPLICATION_JOB)) "id" ITEM_ROUTER).
End pve_replication.

(** [server/src/api/pve/lxc.rs] *)
Module pve_lxc.
Definition API_METHOD_CREATE_LXC : ApiMethod := mkApiMethod "create_lxc"
  [Prop_ "remote" false "REMOTE_ID_SCHEMA"; Prop_ "node" false "NODE_SCHEMA"; Flatten "CreateLxc"]
  (Some (Privilege ["resource"; "{remote}"] PRIV_RESOURCE_CREATE false)) "RemoteUpid" false.
Definition API_METHOD_LXC_UPDATE_CONFIG : ApiMethod := mkApiMethod "lxc_update_config"
  [Prop_ "remote" false "REMOTE_ID_SCHEMA"; Prop_ "node" true "NODE_SCHEMA"; Prop_ "vmid" false "VMID_SCHEMA"; Flatten "UpdateLxc"]
  (Some (Privilege ["resource"; "{remote}"; "guest"; "{vmid}"] PRIV_RESOURCE_MANAGE false)) "" false.
Definition API_METHOD_LXC_RESIZE_DISK : ApiMethod := mkApiMethod "lxc_resize_disk"
  [Prop_ "remote" false "REMOTE_ID_SCHEMA"; Prop_ "node" true "NODE_SCHEMA"; Prop_ "vmid" false "VMID_SCHEMA"; Prop_ "disk" false "String"; Prop_ "size" false "String"; Prop_ "digest" true "String"]
  (Some (Privilege ["resource"; "{remote}"; "guest"; "{vmid}"] PRIV_RESOURCE_MANAGE false)) "RemoteUpid" false.
Definition API_METHOD_LXC_MOVE_VOLUME : ApiMethod := mkApiMethod "lxc_move_volume"
  [Prop_ "remote" false "REMOTE_ID_SCHEMA"; Prop_ "node" true "NODE_SCHEMA"; Prop_ "vmid" false "VMID_SCHEMA"; Prop_ "volume" true "String"; Prop_ "disk" true "String"; Prop_ "storage" true "String"; Prop_ "delete" true "bool"; Prop_ "digest" true "String"; Prop_ "target-vmid" true "VMID_SCHEMA"; Prop_ "target-volume" true "String"; Prop_ "target-digest" true "String"; Prop_ "bwlimit" true "Integer"]
  (Some (Privilege ["resource"; "{remote}"; "guest"; "{vmid}"] PRIV_RESOURCE_MANAGE false)) "RemoteUpid" false.
Definition API_METHOD_LXC_CLONE : ApiMethod := mkApiMethod "lxc_clone"
  [Prop_ "remote" false "REMOTE_ID_SCHEMA"; Prop_ "node" true "NODE_SCHEMA"; Prop_ "vmid" false "VMID_SCHEMA"; Flatten "CloneLxc"]
  (Some (Privilege ["resource"; "{remote}"] PRIV_RESOURCE_CREATE false)) "RemoteUpid" false.
Definition API_METHOD_LIST_LXC : ApiMethod := mkApiMethod "list_lxc"
  [Prop_ "remote" false "REMOTE_ID_SCHEMA"; Prop_ "node" true "NODE_SCHEMA"]
  (Some (Privilege ["resource"; "{remote}"] PRIV_RESOURCE_AUDIT false)) "Array of pve_api_types::LxcEntry" false.
Definition API_METHOD_LXC_GET_CONFIG : ApiMethod := mkApiMethod "lxc_get_config"
  [Prop_ "remote" false "REMOTE_ID_SCHEMA"; Prop_ "node" true "NODE_SCHEMA"; Prop_ "vmid" false "VMID_SCHEMA"; Prop_ "state" false "ConfigurationState"; Prop_ "snapshot" true "SNAPSHOT_NAME_SCHEMA"]
  (Some (Privilege ["resource"; "{remote}"; "guest"; "{vmid}"] PRIV_RESOURCE_AUDIT false)) "pve_api_types::LxcConfig" false.
Definition API_METHOD_LXC_IP_ADDRESSES : ApiMethod := mkApiMethod "lxc_ip_addresses"
  [Prop_ "remote" false "REMOTE_ID_SCHEMA"; Prop_ "node" true "NODE_SCHEMA"; Prop_ "vmid" false "VMID_SCHEMA"]
  (Some (Privilege ["resource"; "{remote}"; "guest"; "{vmid}"] PRIV_RESOURCE_AUDIT false)) "Array of String" false.
Definition API_METHOD_LXC_GET_PENDING : ApiMethod := mkApiMethod "lxc_get_pending"
  [Prop_ "remote" false "REMOTE_ID_SCHEMA"; Prop_ "node" true "NODE_SCHEMA"; Prop_ "vmid" false "VMID_SCHEMA"]
  (Some (Privilege ["resource"; "{remote}"; "guest"; "{vmid}"] PRIV_RESOURCE_AUDIT false)) "" false.
Definition API_METHOD_LXC_GET_STATUS : ApiMethod := mkApiMethod "lxc_get_status"
  [Prop_ "remote" false "REMOTE_ID_SCHEMA"; Prop_ "node" true "NODE_SCHEMA"; Prop_ "vmid" false "VMID_SCHEMA"]
  (Some (Privilege ["resource"; "{remote}"; "guest"; "{vmid}"] PRIV_RESOURCE_AUDIT false)) "pve_api_types::LxcStatus" false.
Definition API_METHOD_LXC_START : ApiMethod := mkApiMethod "lxc_start"
  [Prop_ "remote" false "REMOTE_ID_SCHEMA"; Prop_ "node" true "NODE_SCHEMA"; Prop_ "vmid" false "VMID_SCHEMA"]
  (Some (Privilege ["resource"; "{remote}"; "guest"; "{vmid}"] PRIV_RESOURCE_MANAGE false)) "RemoteUpid" false.
Definition API_METHOD_LXC_TEMPLATE : ApiMethod := mkApiMethod "lxc_template"
  [Prop_ "remote" false "REMOTE_ID_SCHEMA"; Prop_ "node" true "NODE_SCHEMA"; Prop_ "vmid" false "VMID_SCHEMA"]
  (Some (Privilege ["resource"; "{remote}"; "guest"; "{vmid}"] PRIV_RESOURCE_MANAGE false)) "RemoteUpid" false.
Definition API_METHOD_DELETE_LXC : ApiMethod := mkApiMethod "delete_lxc"
  [Prop_ "remote" false "REMOTE_ID_SCHEMA"; Prop_ "node" true "NODE_SCHEMA"; Prop_ "vmid" false "VMID_SCHEMA"]
  (Some (Anybody)) "RemoteUpid" false.
Definition API_METHOD_LXC_LIST_SNAPSHOTS : ApiMethod := mkApiMethod "lxc_list_snapshots"
  [Prop_ "remote" false "REMOTE_ID_SCHEMA"; Prop_ "node" true "NODE_SCHEMA"; Prop_ "vmid" false "VMID_SCHEMA"]
  (Some (Privilege ["resource"; "{remote}"; "guest"; "{vmid}"] PRIV_RESOURCE_AUDIT false)) "Array of pve_api_types::LxcSnapshot" false.
Definition API_METHOD_LXC_CREATE_SNAPSHOT : ApiMethod := mkApiMethod "lxc_create_snapshot"
  [Prop_ "remote" false "REMOTE_ID_SCHEMA"; Prop_ "node" true "NODE_SCHEMA"; Prop_ "vmid" false "VMID_SCHEMA"; Prop_ "snapname" false "SNAPSHOT_NAME_SCHEMA"; Prop_ "description" true "String"]
  (Some (Privilege ["resource"; "{remote}"; "guest"; "{vmid}"] PRIV_RESOURCE_MANAGE false)) "RemoteUpid" false.
Definition API_METHOD_LXC_DELETE_SNAPSHOT : ApiMethod := mkApiMethod "lxc_delete_snapshot"
  [Prop_ "remote" false "REMOTE_ID_SCHEMA"; Prop_ "node" true "NODE_SCHEMA"; Prop_ "vmid" false "VMID_SCHEMA"; Prop_ "snapname" false "SNAPSHOT_NAME_SCHEMA"]
  (Some (Privilege ["resource"; "{remote}"; "guest"; "{vmid}"] PRIV_RESOURCE_MANAGE false)) "RemoteUpid" false.
Definition API_METHOD_LXC_ROLLBACK_SNAPSHOT : ApiMethod := mkApiMethod "lxc_rollback_snapshot"
  [Prop_ "remote" false "REMOTE_ID_SCHEMA"; Prop_ "node" true "NODE_SCHEMA"; Prop_ "vmid" false "VMID_SCHEMA"; Prop_ "snapname" false "SNAPSHOT_NAME_SCHEMA"; Prop_ "start" true "bool"]
  (Some (Privilege ["resource"; "{remote}"; "guest"; "{vmid}"] PRIV_RESOURCE_MANAGE false)) "RemoteUpid" false.
Definition API_METHOD_LXC_UPDATE_SNAPSHOT_CONFIG : ApiMethod := mkApiMethod "lxc_update_snapshot_config"
  [Prop_ "remote" false "REMOTE_ID_SCHEMA"; Prop_ "node" true "NODE_SCHEMA"; Prop_ "vmid" false "VMID_SCHEMA"; Prop_ "snapname" false "SNAPSHOT_NAME_SCHEMA"; Prop_ "description" true "String"]
  (Some (Privilege ["resource"; "{remote}"; "guest"; "{vmid}"] PRIV_RESOURCE_MANAGE false)) "" false.
Definition API_METHOD_LXC_STOP : ApiMethod := mkApiMethod "lxc_stop"
  [Prop_ "remote" false "REMOTE_ID_SCHEMA"; Prop_ "node" true "NODE_SCHEMA"; Prop_ "vmid" false "VMID_SCHEMA"]
  (Some (Privilege ["resource"; "{remote}"; "guest"; "{vmid}"] PRIV_RESOURCE_MANAGE false)) "RemoteUpid" false.
Definition API_METHOD_LXC_SHUTDOWN : ApiMethod := mkApiMethod "lxc_shutdown"
  [Prop_ "remote" false "REMOTE_ID_SCHEMA"; Prop_ "node" true "NODE_SCHEMA"; Prop_ "vmid" false "VMID_SCHEMA"]
  (Some (Privilege ["resource"; "{remote}"; "guest"; "{vmid}"] PRIV_RESOURCE_MANAGE false)) "RemoteUpid" false.
Definition API_METHOD_LXC_MIGRATE : ApiMethod := mkApiMethod "lxc_migrate"
  [Prop_ "remote" false "REMOTE_ID_SCHEMA"; Prop_ "node" true "NODE_SCHEMA"; Prop_ "target" false "NODE_SCHEMA"; Prop_ "vmid" false "VMID_SCHEMA"; Prop_ "online" true "bool"; Prop_ "restart" true "bool"; Prop_ "target-storage" true "Array"; Prop_ "bwlimit" true ""; Prop_ "timeout" true ""]
  (Some (And_ [Privilege ["resource"; "{remote}"; "guest"; "{vmid}"] PRIV_RESOURCE_MIGRATE false])) "RemoteUpid" false.
Definition API_METHOD_LXC_REMOTE_MIGRATE : ApiMethod := mkApiMethod "lxc_remote_migrate"
  [Prop_ "remote" false "REMOTE_ID_SCHEMA"; Prop_ "target" false "REMOTE_ID_SCHEMA"; Prop_ "node" true "NODE_SCHEMA"; Prop_ "vmid" false "VMID_SCHEMA"; Prop_ "target-vmid" true "VMID_SCHEMA"; Prop_ "delete" true ""; Prop_ "online" true "bool"; Prop_ "target-storage" false "Array"; Prop_ "target-bridge" false "Array"; Prop_ "bwlimit" true ""; Prop_ "restart" true ""; Prop_ "timeout" true ""; Prop_ "target-endpoint" true "String"]
  (Some (Privilege ["resource"; "{remote}"; "guest"; "{vmid}"] PRIV_RESOURCE_MIGRATE false)) "RemoteUpid" false.
Definition API_METHOD_LXC_SHELL_TICKET : ApiMethod := mkApiMethod "lxc_shell_ticket"
  [Prop_ "remote" false "REMOTE_ID_SCHEMA"; Prop_ "vmid" false "VMID_SCHEMA"]
  (Some (Privilege ["resource"; "{remote}"; "guest"; "{vmid}"] PRIV_SYS_CONSOLE false)) "Object" true.
Definition API_METHOD_LXC_REBOOT : ApiMethod := mkApiMethod "lxc_reboot"
  [Prop_ "remote" false "REMOTE_ID_SCHEMA"; Prop_ "node" true "NODE_SCHEMA"; Prop_ "vmid" false "VMID_SCHEMA"]
  (Some (Privilege ["resource"; "{remote}"; "guest"; "{vmid}"] PRIV_RESOURCE_MANAGE false)) "RemoteUpid" false.
Definition API_METHOD_LXC_RESUME : ApiMethod := mkApiMethod "lxc_resume"
  [Prop_ "remote" false "REMOTE_ID_SCHEMA"; Prop_ "node" true "NODE_SCHEMA"; Prop_ "vmid" false "VMID_SCHEMA"]
  (Some (Privilege ["resource"; "{remote}"; "guest"; "{vmid}"] PRIV_RESOURCE_MANAGE false)) "RemoteUpid" false.
Definition API_METHOD_LXC_SUSPEND : ApiMethod := mkApiMethod "lxc_suspend"
  [Prop_ "remote" false "REMOTE_ID_SCHEMA"; Prop_ "node" true "NODE_SCHEMA"; Prop_ "vmid" false "VMID_SCHEMA"]
  (Some (Privilege ["resource"; "{remote}"; "guest"; "{vmid}"] PRIV_RESOURCE_MANAGE false)) "RemoteUpid" false.
Definition API_METHOD_LXC_WEBSOCKET : ApiMethod := mkApiMethod "lxc_websocket"
  [Prop_ "remote" false "REMOTE_ID_SCHEMA"; Prop_ "vmid" false "VMID_SCHEMA"; Prop_ "vncticket" false "String"; Prop_ "port" false "Integer"]
  (Some (Privilege ["resource"; "{remote}"; "guest"; "{vmid}"] PRIV_SYS_CONSOLE false)) "" false.
Definition LXC_SNAPSHOT_SUBDIRS : SubdirMap := sorted [("config", (Router.put Router.new (Own API_METHOD_LXC_UPDATE_SNAPSHOT_CONFIG)));
    ("rollback", (Router.post Router.new (Own API_METHOD_LXC_ROLLBACK_SNAPSHOT)))].
Definition LXC_SNAPSHOT_ROUTER : Router := (Router.subdirs (Router.delete Router.new (Own API_METHOD_LXC_DELETE_SNAPSHOT)) LXC_SNAPSHOT_SUBDIRS).
Definition LXC_VM_SUBDIRS : SubdirMap := sorted [("config", (Router.put (Router.get Router.new (Own API_METHOD_LXC_GET_CONFIG)) (Own API_METHOD_LXC_UPDATE_CONFIG)));
    ("clone", (Router.post Router.new (Own API_METHOD_LXC_CLONE)));
    ("pending", (Router.get Router.new (Own API_METHOD_LXC_GET_PENDING)));
    ("ip-addresses", (Router.get Router.new (Own API_METHOD_LXC_IP_ADDRESSES)));
    ("firewall", pve_firewall.LXC_FW_ROUTER);
    ("rrddata", pve_rrddata.LXC_RRD_ROUTER);
    ("start", (Router.post Router.new (Own API_METHOD_LXC_START)));
    ("status", (Router.get Router.new (Own API_METHOD_LXC_GET_STATUS)));
    ("stop", (Router.post Router.new (Own API_METHOD_LXC_STOP)));
    ("shutdown", (Router.post Router.new (Own API_METHOD_LXC_SHUTDOWN)));
    ("reboot", (Router.post Router.new (Own API_METHOD_LXC_REBOOT)));
    ("resume", (Router.post Router.new (Own API_METHOD_LXC_RESUME)));
    ("suspend", (Router.post Router.new (Own API_METHOD_LXC_SUSPEND)));
    ("template", (Router.post Router.new (Own API_METHOD_LXC_TEMPLATE)));
    ("snapshot", (Router.match_all (Router.post (Router.get Router.new (Own API_METHOD_LXC_LIST_SNAPSHOTS)) (Own API_METHOD_LXC_CREATE_SNAPSHOT)) "snapname" LXC_SNAPSHOT_ROUTER));
    ("migrate", (Router.post Router.new (Own API_METHOD_LXC_MIGRATE)));
    ("remote-migrate", (Router.post Router.new (Own API_METHOD_LXC_REMOTE_MIGRATE)));
    ("move_disk", (Router.post Router.new (Own API_METHOD_LXC_MOVE_VOLUME)));
    ("move_volume", (Router.post Router.new (Own API_METHOD_LXC_MOVE_VOLUME)));
    ("resize", (Router.put Router.new (Own API_METHOD_LXC_RESIZE_DISK)));
    ("termproxy", (Router.post Router.new (Own API_METHOD_LXC_SHELL_TICKET)));
    ("vncwebsocket", (Router.upgrade Router.new (Own API_METHOD_LXC_WEBSOCKET)))].
Definition LXC_VM_ROUTER : Router := (Router.subdirs (Router.delete (Router.get Router.new (list_subdirs_api_method LXC_VM_SUBDIRS)) (Own API_METHOD_DELETE_LXC)) LXC_VM_SUBDIRS).
Definition ROUTER : Router := (Router.match_all (Router.post (Router.get Router.new (Own API_METHOD_LIST_LXC)) (Own API_METHOD_CREATE_LXC)) "vmid" LXC_VM_ROUTER).
End pve_lxc.

(** [server/src/api/pve/qemu.rs] *)
Module pve_qemu.
Definition API_METHOD_CREATE_QEMU : ApiMethod := mkApiMethod "create_qemu"
  [Prop_ "remote" false "REMOTE_ID_SCHEMA"; Prop_ "node" false "NODE_SCHEMA"; Flatten "CreateQemu"]
  (Some (Privilege ["resource"; "{remote}"] PRIV_RESOURCE_CREATE false)) "RemoteUpid" false.
Definition API_METHOD_QEMU_UPDATE_CONFIG : ApiMethod := mkApiMethod "qemu_update_config"
  [Prop_ "remote" false "REMOTE_ID_SCHEMA"; Prop_ "node" true "NODE_SCHEMA"; Prop_ "vmid" false "VMID_SCHEMA"; Flatten "UpdateQemu"]
  (Some (Privilege ["resource"; "{remote}"; "guest"; "{vmid}"] PRIV_RESOURCE_MANAGE false)) "" false.
Definition API_METHOD_QEMU_RESIZE_DISK : ApiMethod := mkApiMethod "qemu_resize_disk"
  [Prop_ "remote" false "REMOTE_ID_SCHEMA"; Prop_ "node" true "NODE_SCHEMA"; Prop_ "vmid" false "VMID_SCHEMA"; Prop_ "disk" false "String"; Prop_ "size" false "String"; Prop_ "digest" true "String"]
  (Some (Privilege ["resource"; "{remote}"; "guest"; "{vmid}"] PRIV_RESOURCE_MANAGE false)) "RemoteUpid" false.
Definition API_METHOD_QEMU_MOVE_DISK : ApiMethod := mkApiMethod "qemu_move_disk"
  [Prop_ "remote" false "REMOTE_ID_SCHEMA"; Prop_ "node" true "NODE_SCHEMA"; Prop_ "vmid" false "VMID_SCHEMA"; Prop_ "disk" false "String"; Prop_ "storage" true "String"; Prop_ "format" true "String"; Prop_ "delete" true "bool"; Prop_ "digest" true "String"; Prop_ "target-vmid" true "VMID_SCHEMA"; Prop_ "target-disk" true "String"; Prop_ "target-digest" true "String"; Prop_ "bwlimit" true "Integer"]
  (Some (Privilege ["resource"; "{remote}"; "guest"; "{vmid}"] PRIV_RESOURCE_MANAGE false)) "RemoteUpid" false.
Definition API_METHOD_QEMU_CLONE : ApiMethod := mkApiMethod "qemu_clone"
  [Prop_ "remote" false "REMOTE_ID_SCHEMA"; Prop_ "node" true "NODE_SCHEMA"; Prop_ "vmid" false "VMID_SCHEMA"; Flatten "CloneQemu"]
  (Some (Privilege ["resource"; "{remote}"] PRIV_RESOURCE_CREATE false)) "RemoteUpid" false.
Definition API_METHOD_LIST_QEMU : ApiMethod := mkApiMethod "list_qemu"
  [Prop_ "remote" false "REMOTE_ID_SCHEMA"; Prop_ "node" true "NODE_SCHEMA"]
  (Some (Privilege ["resource"; "{remote}"] PRIV_RESOURCE_AUDIT false)) "Array of pve_api_types::VmEntry" false.
Definition API_METHOD_QEMU_GET_CONFIG : ApiMethod := mkApiMethod "qemu_get_config"
  [Prop_ "remote" false "REMOTE_ID_SCHEMA"; Prop_ "node" true "NODE_SCHEMA"; Prop_ "vmid" false "VMID_SCHEMA"; Prop_ "state" false "ConfigurationState"; Prop_ "snapshot" true "SNAPSHOT_NAME_SCHEMA"]
  (Some (Privilege ["resource"; "{remote}"; "guest"; "{vmid}"] PRIV_RESOURCE_AUDIT false)) "pve_api_types::QemuConfig" false.
Definition API_METHOD_QEMU_IP_ADDRESSES : ApiMethod := mkApiMethod "qemu_ip_addresses"
  [Prop_ "remote" false "REMOTE_ID_SCHEMA"; Prop_ "node" true "NODE_SCHEMA"; Prop_ "vmid" false "VMID_SCHEMA"]
  (Some (Privilege ["resource"; "{remote}"; "guest"; "{vmid}"] PRIV_RESOURCE_AUDIT false)) "Array of String" false.
Definition API_METHOD_QEMU_GET_PENDING : ApiMethod := mkApiMethod "qemu_get_pending"
  [Prop_ "remote" false "REMOTE_ID_SCHEMA"; Prop_ "node" true "NODE_SCHEMA"; Prop_ "vmid" false "VMID_SCHEMA"]
  (Some (Privilege ["resource"; "{remote}"; "guest"; "{vmid}"] PRIV_RESOURCE_AUDIT false)) "" false.
Definition API_METHOD_QEMU_GET_STATUS : ApiMethod := mkApiMethod "qemu_get_status"
  [Prop_ "remote" false "REMOTE_ID_SCHEMA"; Prop_ "node" true "NODE_SCHEMA"; Prop_ "vmid" false "VMID_SCHEMA"]
  (Some (Privilege ["resource"; "{remote}"; "guest"; "{vmid}"] PRIV_RESOURCE_AUDIT false)) "pve_api_types::QemuStatus" false.
Definition API_METHOD_QEMU_START : ApiMethod := mkApiMethod "qemu_start"
  [Prop_ "remote" false "REMOTE_ID_SCHEMA"; Prop_ "node" true "NODE_SCHEMA"; Prop_ "vmid" false "VMID_SCHEMA"]
  (Some (Privilege ["resource"; "{remote}"; "guest"; "{vmid}"] PRIV_RESOURCE_MANAGE false)) "RemoteUpid" false.
Definition API_METHOD_QEMU_STOP : ApiMethod := mkApiMethod "qemu_stop"
  [Prop_ "remote" false "REMOTE_ID_SCHEMA"; Prop_ "node" true "NODE_SCHEMA"; Prop_ "vmid" false "VMID_SCHEMA"]
  (Some (Privilege ["resource"; "{remote}"; "guest"; "{vmid}"] PRIV_RESOURCE_MANAGE false)) "RemoteUpid" false.
Definition API_METHOD_QEMU_SHUTDOWN : ApiMethod := mkApiMethod "qemu_shutdown"
  [Prop_ "remote" false "REMOTE_ID_SCHEMA"; Prop_ "node" true "NODE_SCHEMA"; Prop_ "vmid" false "VMID_SCHEMA"]
  (Some (Privilege ["resource"; "{remote}"; "guest"; "{vmid}"] PRIV_RESOURCE_MANAGE false)) "RemoteUpid" false.
Definition API_METHOD_QEMU_RESUME : ApiMethod := mkApiMethod "qemu_resume"
  [Prop_ "remote" false "REMOTE_ID_SCHEMA"; Prop_ "node" true "NODE_SCHEMA"; Prop_ "vmid" false "VMID_SCHEMA"]
  (Some (Privilege ["resource"; "{remote}"; "guest"; "{vmid}"] PRIV_RESOURCE_MANAGE false)) "RemoteUpid" false.
Definition API_METHOD_QEMU_TEMPLATE : ApiMethod := mkApiMethod "qemu_template"
  [Prop_ "remote" false "REMOTE_ID_SCHEMA"; Prop_ "node" true "NODE_SCHEMA"; Prop_ "vmid" false "VMID_SCHEMA"]
  (Some (Privilege ["resource"; "{remote}"; "guest"; "{vmid}"] PRIV_RESOURCE_MANAGE false)) "RemoteUpid" false.
Definition API_METHOD_DELETE_QEMU : ApiMethod := mkApiMethod "delete_qemu"
  [Prop_ "remote" false "REMOTE_ID_SCHEMA"; Prop_ "node" true "NODE_SCHEMA"; Prop_ "vmid" false "VMID_SCHEMA"]
  (Some (Anybody)) "RemoteUpid" false.
Definition API_METHOD_QEMU_LIST_SNAPSHOTS : ApiMethod := mkApiMethod "qemu_list_snapshots"
  [Prop_ "remote" false "REMOTE_ID_SCHEMA"; Prop_ "node" true "NODE_SCHEMA"; Prop_ "vmid" false "VMID_SCHEMA"]
  (Some (Privilege ["resource"; "{remote}"; "guest"; "{vmid}"] PRIV_RESOURCE_AUDIT false)) "Array of pve_api_types::QemuSnapshot" false.
Definition API_METHOD_QEMU_CREATE_SNAPSHOT : ApiMethod := mkApiMethod "qemu_create_snapshot"
  [Prop_ "remote" false "REMOTE_ID_SCHEMA"; Prop_ "node" true "NODE_SCHEMA"; Prop_ "vmid" false "VMID_SCHEMA"; Prop_ "snapname" false "SNAPSHOT_NAME_SCHEMA"; Prop_ "description" true "String"; Prop_ "vmstate" true "bool"]
  (Some (Privilege ["resource"; "{remote}"; "guest"; "{vmid}"] PRIV_RESOURCE_MANAGE false)) "RemoteUpid" false.
Definition API_METHOD_QEMU_DELETE_SNAPSHOT : ApiMethod := mkApiMethod "qemu_delete_snapshot"
  [Prop_ "remote" false "REMOTE_ID_SCHEMA"; Prop_ "node" true "NODE_SCHEMA"; Prop_ "vmid" false "VMID_SCHEMA"; Prop_ "snapname" false "SNAPSHOT_NAME_SCHEMA"]
  (Some (Privilege ["resource"; "{remote}"; "guest"; "{vmid}"] PRIV_RESOURCE_MANAGE false)) "RemoteUpid" false.
Definition API_METHOD_QEMU_ROLLBACK_SNAPSHOT : ApiMethod := mkApiMethod "qemu_rollback_snapshot"
  [Prop_ "remote" false "REMOTE_ID_SCHEMA"; Prop_ "node" true "NODE_SCHEMA"; Prop_ "vmid" false "VMID_SCHEMA"; Prop_ "snapname" false "SNAPSHOT_NAME_SCHEMA"; Prop_ "start" true "bool"]
  (Some (Privilege ["resource"; "{remote}"; "guest"; "{vmid}"] PRIV_RESOURCE_MANAGE false)) "RemoteUpid" false.
Definition API_METHOD_QEMU_UPDATE_SNAPSHOT_CONFIG : ApiMethod := mkApiMethod "qemu_update_snapshot_config"
  [Prop_ "remote" false "REMOTE_ID_SCHEMA"; Prop_ "node" true "NODE_SCHEMA"; Prop_ "vmid" false "VMID_SCHEMA"; Prop_ "snapname" false "SNAPSHOT_NAME_SCHEMA"; Prop_ "description" true "String"]
  (Some (Privilege ["resource"; "{remote}"; "guest"; "{vmid}"] PRIV_RESOURCE_MANAGE false)) "" false.
Definition API_METHOD_QEMU_MIGRATE : ApiMethod := mkApiMethod "qemu_migrate"
  [Prop_ "remote" false "REMOTE_ID_SCHEMA"; Prop_ "node" true "NODE_SCHEMA"; Prop_ "target" false "NODE_SCHEMA"; Prop_ "vmid" false "VMID_SCHEMA"; Prop_ "online" true "bool"; Prop_ "target-storage" true "Array"; Prop_ "bwlimit" true ""; Prop_ "migration-network" true "String"; Prop_ "migration-type" true "StartQemuMigrationType"; Prop_ "force" true ""; Prop_ "with-local-disks" true ""]
  (Some (And_ [Privilege ["resource"; "{remote}"; "guest"; "{vmid}"] PRIV_RESOURCE_MIGRATE false])) "RemoteUpid" false.
Definition API_METHOD_QEMU_MIGRATE_PRECONDITIONS : ApiMethod := mkApiMethod "qemu_migrate_preconditions"
  [Prop_ "remote" false "REMOTE_ID_SCHEMA"; Prop_ "node" true "NODE_SCHEMA"; Prop_ "target" true "NODE_SCHEMA"; Prop_ "vmid" false "VMID_SCHEMA"]
  (Some (And_ [Privilege ["resource"; "{remote}"; "guest"; "{vmid}"] PRIV_RESOURCE_MIGRATE false])) "QemuMigratePreconditions" false.
Definition API_METHOD_QEMU_REMOTE_MIGRATE : ApiMethod := mkApiMethod "qemu_remote_migrate"
  [Prop_ "remote" false "REMOTE_ID_SCHEMA"; Prop_ "target" false "REMOTE_ID_SCHEMA"; Prop_ "node" true "NODE_SCHEMA"; Prop_ "vmid" false "VMID_SCHEMA"; Prop_ "target-vmid" true "VMID_SCHEMA"; Prop_ "delete" true ""; Prop_ "online" true "bool"; Prop_ "target-storage" false "Array"; Prop_ "target-bridge" false "Array"; Prop_ "bwlimit" true ""; Prop_ "target-endpoint" true "String"]
  (Some (Privilege ["resource"; "{remote}"; "guest"; "{vmid}"] PRIV_RESOURCE_MIGRATE false)) "RemoteUpid" false.
Definition API_METHOD_QEMU_SHELL_TICKET : ApiMethod := mkApiMethod "qemu_shell_ticket"
  [Prop_ "remote" false "REMOTE_ID_SCHEMA"; Prop_ "vmid" false "VMID_SCHEMA"]
  (Some (Privilege ["resource"; "{remote}"; "guest"; "{vmid}"] PRIV_SYS_CONSOLE false)) "Object" true.
Definition API_METHOD_QEMU_VNC_TICKET : ApiMethod := mkApiMethod "qemu_vnc_ticket"
  [Prop_ "remote" false "REMOTE_ID_SCHEMA"; Prop_ "vmid" false "VMID_SCHEMA"; Prop_ "websocket" true "Boolean"]
  (Some (Privilege ["resource"; "{remote}"; "guest"; "{vmid}"] PRIV_SYS_CONSOLE false)) "Object" true.
Definition API_METHOD_QEMU_REBOOT : ApiMethod := mkApiMethod "qemu_reboot"
  [Prop_ "remote" false "REMOTE_ID_SCHEMA"; Prop_ "node" true "NODE_SCHEMA"; Prop_ "vmid" false "VMID_SCHEMA"]
  (Some (Privilege ["resource"; "{remote}"; "guest"; "{vmid}"] PRIV_RESOURCE_MANAGE false)) "RemoteUpid" false.
Definition API_METHOD_QEMU_RESET : ApiMethod := mkApiMethod "qemu_reset"
  [Prop_ "remote" false "REMOTE_ID_SCHEMA"; Prop_ "node" true "NODE_SCHEMA"; Prop_ "vmid" false "VMID_SCHEMA"]
  (Some (Privilege ["resource"; "{remote}"; "guest"; "{vmid}"] PRIV_RESOURCE_MANAGE false)) "RemoteUpid" false.
Definition API_METHOD_QEMU_SUSPEND : ApiMethod := mkApiMethod "qemu_suspend"
  [Prop_ "remote" false "REMOTE_ID_SCHEMA"; Prop_ "node" true "NODE_SCHEMA"; Prop_ "vmid" false "VMID_SCHEMA"]
  (Some (Privilege ["resource"; "{remote}"; "guest"; "{vmid}"] PRIV_RESOURCE_MANAGE false)) "RemoteUpid" false.
Definition API_METHOD_QEMU_WEBSOCKET : ApiMethod := mkApiMethod "qemu_websocket"
  [Prop_ "remote" false "REMOTE_ID_SCHEMA"; Prop_ "vmid" false "VMID_SCHEMA"; Prop_ "vncticket" false "String"; Prop_ "port" false "Integer"]
  (Some (Privilege ["resource"; "{remote}"; "guest"; "{vmid}"] PRIV_SYS_CONSOLE false)) "" false.
Definition QEMU_SNAPSHOT_SUBDIRS : SubdirMap := sorted [("config", (Router.put Router.new (Own API_METHOD_QEMU_UPDATE_SNAPSHOT_CONFIG)));
    ("rollback", (Router.post Router.new (Own API_METHOD_QEMU_ROLLBACK_SNAPSHOT)))].
Definition QEMU_SNAPSHOT_ROUTER : Router := (Router.subdirs (Router.delete Router.new (Own API_METHOD_QEMU_DELETE_SNAPSHOT)) QEMU_SNAPSHOT_SUBDIRS).
Definition QEMU_VM_SUBDIRS : SubdirMap := sorted [("config", (Router.put (Router.get Router.new (Own API_METHOD_QEMU_GET_CONFIG)) (Own API_METHOD_QEMU_UPDATE_CONFIG)));
    ("clone", (Router.post Router.new (Own API_METHOD_QEMU_CLONE)));
    ("pending", (Router.get Router.new (Own API_METHOD_QEMU_GET_PENDING)));
    ("ip-addresses", (Router.get Router.new (Own API_METHOD_QEMU_IP_ADDRESSES)));
    ("firewall", pve_firewall.QEMU_FW_ROUTER);
    ("rrddata", pve_rrddata.QEMU_RRD_ROUTER);
    ("start", (Router.post Router.new (Own API_METHOD_QEMU_START)));
    ("status", (Router.get Router.new (Own API_METHOD_QEMU_GET_STATUS)));
    ("stop", (Router.post Router.new (Own API_METHOD_QEMU_STOP)));
    ("shutdown", (Router.post Router.new (Own API_METHOD_QEMU_SHUTDOWN)));
    ("resume", (Router.post Router.new (Own API_METHOD_QEMU_RESUME)));
    ("reboot", (Router.post Router.new (Own API_METHOD_QEMU_REBOOT)));
    ("reset", (Router.post Router.new (Own API_METHOD_QEMU_RESET)));
    ("suspend", (Router.post Router.new (Own API_METHOD_QEMU_SUSPEND)));
    ("template", (Router.post Router.new (Own API_METHOD_QEMU_TEMPLATE)));
    ("snapshot", (Router.match_all (Router.post (Router.get Router.new (Own API_METHOD_QEMU_LIST_SNAPSHOTS)) (Own API_METHOD_QEMU_CREATE_SNAPSHOT)) "snapname" QEMU_SNAPSHOT_ROUTER));
    ("migrate", (Router.post (Router.get Router.new (Own API_METHOD_QEMU_MIGRATE_PRECONDITIONS)) (Own API_METHOD_QEMU_MIGRATE)));
    ("remote-migrate", (Router.post Router.new (Own API_METHOD_QEMU_REMOTE_MIGRATE)));
    ("move_disk", (Router.post Router.new (Own API_METHOD_QEMU_MOVE_DISK)));
    ("resize", (Router.put Router.new (Own API_METHOD_QEMU_RESIZE_DISK)));
    ("termproxy", (Router.post Router.new (Own API_METHOD_QEMU_SHELL_TICKET)));
    ("vncwebsocket", (Router.upgrade Router.new (Own API_METHOD_QEMU_WEBSOCKET)));
    ("vncproxy", (Router.post Router.new (Own API_METHOD_QEMU_VNC_TICKET)))].
Definition QEMU_VM_ROUTER : Router := (Router.subdirs (Router.delete (Router.get Router.new (list_subdirs_api_method QEMU_VM_SUBDIRS)) (Own API_METHOD_DELETE_QEMU)) QEMU_VM_SUBDIRS).
Definition ROUTER : Router := (Router.match_all (Router.post (Router.get Router.new (Own API_METHOD_LIST_QEMU)) (Own API_METHOD_CREATE_QEMU)) "vmid" QEMU_VM_ROUTER).
End pve_qemu.

(** [server/src/api/pve/mod.rs] *)
Module pve.
Definition API_METHOD_LIST_REMOTES : ApiMethod := mkApiMethod "list_remotes"
  []
  None "Array of RemoteListEntry" false.
Definition API_METHOD_LIST_NODES : ApiMethod := mkApiMethod "list_nodes"
  [Prop_ "remote" false "REMOTE_ID_SCHEMA"]
  (Some (Privilege ["resource"; "{remote}"] PRIV_RESOURCE_AUDIT false)) "Array of pve_api_types::ClusterNodeIndexResponse" false.
Definition API_METHOD_CLUSTER_RESOURCES : ApiMethod := mkApiMethod "cluster_resources"
  [Prop_ "remote" false "REMOTE_ID_SCHEMA"; Prop_ "kind" true "ClusterResourceKind"]
  (Some (Privilege ["resource"; "{remote}"] PRIV_RESOURCE_AUDIT false)) "Array of PveResource" false.
Definition API_METHOD_CLUSTER_STATUS : ApiMethod := mkApiMethod "cluster_status"
  [Prop_ "remote" false "REMOTE_ID_SCHEMA"; Prop_ "target-endpoint" true "String"]
  (Some (Privilege ["resource"; "{remote}"] PRIV_RESOURCE_AUDIT false)) "Array of ClusterNodeStatus" false.
Definition API_METHOD_CLUSTER_NEXTID : ApiMethod := mkApiMethod "cluster_nextid"
  [Prop_ "remote" false "REMOTE_ID_SCHEMA"; Prop_ "target-endpoint" true "String"]
  (Some (Privilege ["resource"; "{remote}"] PRIV_RESOURCE_AUDIT false)) "" false.
Definition API_METHOD_PROBE_TLS : ApiMethod := mkApiMethod "probe_tls"
  [Prop_ "hostname" false "String"; Prop_ "fingerprint" true "String"]
  (Some (Privilege ["/"] PRIV_SYS_MODIFY false)) "" false.
Definition API_METHOD_SCAN_REMOTE_PVE : ApiMethod := mkApiMethod "scan_remote_pve"
  [Prop_ "hostname" false "String"; Prop_ "fingerprint" true "String"; Prop_ "authid" false "Authid"; Prop_ "token" false "String"]
  (Some (Privilege ["/"] PRIV_SYS_MODIFY false)) "Remote" false.
Definition API_METHOD_LIST_REALM_REMOTE_PVE : ApiMethod := mkApiMethod "list_realm_remote_pve"
  [Prop_ "hostname" false "String"; Prop_ "fingerprint" true "String"]
  (Some (Privilege ["/"] PRIV_SYS_MODIFY false)) "Array of ListRealm" false.
Definition API_METHOD_GET_OPTIONS : ApiMethod := mkApiMethod "get_options"
  [Prop_ "remote" false "REMOTE_ID_SCHEMA"]
  (Some (Privilege ["resource"; "{remote}"] PRIV_RESOURCE_AUDIT false)) "" false.
Definition API_METHOD_GET_UPDATES : ApiMethod := mkApiMethod "get_updates"
  [Prop_ "remote" false "REMOTE_ID_SCHEMA"]
  (Some (Privilege ["resource"; "{remote}"] PRIV_RESOURCE_AUDIT false)) "" false.
Definition NODES_ROUTER : Router := (Router.match_all (Router.get Router.new (Own API_METHOD_LIST_NODES)) "node" pve_node.ROUTER).
Definition RESOURCES_ROUTER : Router := (Router.get Router.new (Own API_METHOD_CLUSTER_RESOURCES)).
Definition STATUS_ROUTER : Router := (Router.get Router.new (Own API_METHOD_CLUSTER_STATUS)).
Definition NEXTID_ROUTER : Router := (Router.get Router.new (Own API_METHOD_CLUSTER_NEXTID)).
Definition OPTIONS_ROUTER : Router := (Router.get Router.new (Own API_METHOD_GET_OPTIONS)).
Definition REMOTE_SUBDIRS : SubdirMap := sorted [("backup", pve_backup.ROUTER);
    ("backup-content", pve_backup.CONTENT_ROUTER);
    ("restore", pve_backup.RESTORE_ROUTER);
    ("vzdump", pve_backup.VZDUMP_ROUTER);
    ("lxc", pve_lxc.ROUTER);
    ("firewall", pve_firewall.CLUSTER_FW_ROUTER);
    ("nodes", NODES_ROUTER);
    ("options", OPTIONS_ROUTER);
    ("qemu", pve_qemu.ROUTER);
    ("replication", pve_replication.ROUTER);
    ("replication-status", pve_replication.STATUS_ROUTER);
    ("resources", RESOURCES_ROUTER);
    ("cluster-nextid", NEXTID_ROUTER);
    ("cluster-status", STATUS_ROUTER);
    ("tasks", pve_tasks.ROUTER);
    ("updates", (Router.get Router.new (Own API_METHOD_GET_UPDATES)))].
Definition MAIN_ROUTER : Router := (Router.subdirs (Router.get Router.new (list_subdirs_api_method REMOTE_SUBDIRS)) REMOTE_SUBDIRS).
Definition REMOTES_ROUTER : Router := (Router.match_all (Router.get Router.new (Own API_METHOD_LIST_REMOTES)) "remote" MAIN_ROUTER).
Definition SUBDIRS : SubdirMap := sorted [("remotes", REMOTES_ROUTER);
    ("firewall", pve_firewall.PVE_FW_ROUTER);
    ("probe-tls", (Router.post Router.new (Own API_METHOD_PROBE_TLS)));
    ("scan", (Router.post Router.new (Own API_METHOD_SCAN_REMOTE_PVE)));
    ("realms", (Router.get Router.new (Own API_METHOD_LIST_REALM_REMOTE_PVE)))].
Definition ROUTER : Router := (Router.subdirs (Router.get Router.new (list_subdirs_api_method SUBDIRS)) SUBDIRS).
End pve.
