(* ===== verification/ApiPbs.v ===== *)
(** * The API tree: Proxmox Backup Server remotes

    The methods and routers of [server/src/api/pbs/]. *)

From S2P Require Import Prelude ResourceList TaskList PveGuests ApiRouter ApiPve.
#[local] Open Scope string_scope.

(** [server/src/api/pbs/rrddata.rs] *)
Module pbs_rrddata.
Definition API_METHOD_GET_PBS_NODE_RRD_DATA : ApiMethod := mkApiMethod "get_pbs_node_rrd_data"
  [Prop_ "remote" false "REMOTE_ID_SCHEMA"; Prop_ "timeframe" false "RrdTimeframe"; Prop_ "cf" false "RrdMode"]
  (Some (Privilege ["resource"; "{remote}"] PRIV_RESOURCE_AUDIT false)) "Array of PbsNodeDataPoint" false.
Definition API_METHOD_GET_PBS_DATASTORE_RRD_DATA : ApiMethod := mkApiMethod "get_pbs_datastore_rrd_data"
  [Prop_ "remote" false "REMOTE_ID_SCHEMA"; Prop_ "datastore" false "pbs_api_types::DATASTORE_SCHEMA"; Prop_ "timeframe" false "RrdTimeframe"; Prop_ "cf" false "RrdMode"]
  (Some (Privilege ["resource"; "{remote}"; "datastore"; "{datastore}"] PRIV_RESOURCE_AUDIT false)) "Array of PbsDatastoreDataPoint" false.
Definition PBS_NODE_RRD_ROUTER : Router := (Router.get Router.new (Own API_METHOD_GET_PBS_NODE_RRD_DATA)).
Definition PBS_DATASTORE_RRD_ROUTER : Router := (Router.get Router.new (Own API_METHOD_GET_PBS_DATASTORE_RRD_DATA)).
End pbs_rrddata.

(** [server/src/api/pbs/maintenance.rs] *)
Module pbs_maintenance.
Definition API_METHOD_GET_GC_STATUS : ApiMethod := mkApiMethod "get_gc_status"
  [Prop_ "remote" false "REMOTE_ID_SCHEMA"; Prop_ "datastore" false "pbs_api_types::DATASTORE_SCHEMA"]
  (Some (Privilege ["resource"; "{remote}"; "datastore"; "{datastore}"] PRIV_RESOURCE_AUDIT false)) "PbsGcStatus" false.
Definition API_METHOD_RUN_GC : ApiMethod := mkApiMethod "run_gc"
  [Prop_ "remote" false "REMOTE_ID_SCHEMA"; Prop_ "datastore" false "pbs_api_types::DATASTORE_SCHEMA"]
  (Some (Privilege ["resource"; "{remote}"; "datastore"; "{datastore}"] PRIV_RESOURCE_MANAGE false)) "RemoteUpid" false.
Definition API_METHOD_PRUNE_DATASTORE : ApiMethod := mkApiMethod "prune_datastore"
  [Prop_ "remote" false "REMOTE_ID_SCHEMA"; Prop_ "datastore" false "pbs_api_types::DATASTORE_SCHEMA"; Flatten "PbsPruneRequest"]
  (Some (Privilege ["resource"; "{remote}"; "datastore"; "{datastore}"] PRIV_RESOURCE_MANAGE false)) "Array of PbsPruneResult" false.
Definition API_METHOD_SET_SNAPSHOT_PROTECTION : ApiMethod := mkApiMethod "set_snapshot_protection"
  [Prop_ "remote" false "REMOTE_ID_SCHEMA"; Prop_ "datastore" false "pbs_api_types::DATASTORE_SCHEMA"; Flatten "PbsSnapshotProtection"]
  (Some (Privilege ["resource"; "{remote}"; "datastore"; "{datastore}"] PRIV_RESOURCE_MANAGE false)) "" false.
Definition API_METHOD_SET_SNAPSHOT_NOTES : ApiMethod := mkApiMethod "set_snapshot_notes"
  [Prop_ "remote" false "REMOTE_ID_SCHEMA"; Prop_ "datastore" false "pbs_api_types::DATASTORE_SCHEMA"; Flatten "PbsSnapshotNotes"]
  (Some (Privilege ["resource"; "{remote}"; "datastore"; "{datastore}"] PRIV_RESOURCE_MANAGE false)) "" false.
Definition API_METHOD_VERIFY_SNAPSHOT : ApiMethod := mkApiMethod "verify_snapshot"
  [Prop_ "remote" false "REMOTE_ID_SCHEMA"; Prop_ "datastore" false "pbs_api_types::DATASTORE_SCHEMA"; Flatten "PbsSnapshotRef"]
  (Some (Privilege ["resource"; "{remote}"; "datastore"; "{datastore}"] PRIV_RESOURCE_MANAGE false)) "RemoteUpid" false.
Definition API_METHOD_FORGET_SNAPSHOT : ApiMethod := mkApiMethod "forget_snapshot"
  [Prop_ "remote" false "REMOTE_ID_SCHEMA"; Prop_ "datastore" false "pbs_api_types::DATASTORE_SCHEMA"; Flatten "PbsSnapshotRef"]
  (Some (Privilege ["resource"; "{remote}"; "datastore"; "{datastore}"] PRIV_RESOURCE_MANAGE false)) "" false.
Definition API_METHOD_GET_PRUNE_JOB : ApiMethod := mkApiMethod "get_prune_job"
  [Prop_ "remote" false "REMOTE_ID_SCHEMA"; Prop_ "id" false "String"]
  (Some (Privilege ["resource"; "{remote}"] PRIV_RESOURCE_AUDIT false)) "PbsPruneJob" false.
Definition API_METHOD_GET_VERIFY_JOB : ApiMethod := mkApiMethod "get_verify_job"
  [Prop_ "remote" false "REMOTE_ID_SCHEMA"; Prop_ "id" false "String"]
  (Some (Privilege ["resource"; "{remote}"] PRIV_RESOURCE_AUDIT false)) "PbsVerifyJob" false.
Definition API_METHOD_GET_SYNC_JOB : ApiMethod := mkApiMethod "get_sync_job"
  [Prop_ "remote" false "REMOTE_ID_SCHEMA"; Prop_ "id" false "String"]
  (Some (Privilege ["resource"; "{remote}"] PRIV_RESOURCE_AUDIT false)) "PbsSyncJob" false.
Definition API_METHOD_LIST_PRUNE_JOBS : ApiMethod := mkApiMethod "list_prune_jobs"
  [Prop_ "remote" false "REMOTE_ID_SCHEMA"]
  (Some (Privilege ["resource"; "{remote}"] PRIV_RESOURCE_AUDIT false)) "Array of PbsPruneJob" false.
Definition API_METHOD_CREATE_PRUNE_JOB : ApiMethod := mkApiMethod "create_prune_job"
  [Prop_ "remote" false "REMOTE_ID_SCHEMA"; Flatten "PbsPruneJob"]
  (Some (Privilege ["resource"; "{remote}"] PRIV_RESOURCE_MANAGE false)) "" false.
Definition API_METHOD_UPDATE_PRUNE_JOB : ApiMethod := mkApiMethod "update_prune_job"
  [Prop_ "remote" false "REMOTE_ID_SCHEMA"; Prop_ "id" false "String"; Flatten "PbsPruneJob"]
  (Some (Privilege ["resource"; "{remote}"] PRIV_RESOURCE_MANAGE false)) "" false.
Definition API_METHOD_DELETE_PRUNE_JOB : ApiMethod := mkApiMethod "delete_prune_job"
  [Prop_ "remote" false "REMOTE_ID_SCHEMA"; Prop_ "id" false "String"]
  (Some (Privilege ["resource"; "{remote}"] PRIV_RESOURCE_MANAGE false)) "" false.
Definition API_METHOD_RUN_PRUNE_JOB : ApiMethod := mkApiMethod "run_prune_job"
  [Prop_ "remote" false "REMOTE_ID_SCHEMA"; Prop_ "id" false "String"]
  (Some (Privilege ["resource"; "{remote}"] PRIV_RESOURCE_MANAGE false)) "RemoteUpid" false.
Definition API_METHOD_LIST_VERIFY_JOBS : ApiMethod := mkApiMethod "list_verify_jobs"
  [Prop_ "remote" false "REMOTE_ID_SCHEMA"]
  (Some (Privilege ["resource"; "{remote}"] PRIV_RESOURCE_AUDIT false)) "Array of PbsVerifyJob" false.
Definition API_METHOD_CREATE_VERIFY_JOB : ApiMethod := mkApiMethod "create_verify_job"
  [Prop_ "remote" false "REMOTE_ID_SCHEMA"; Flatten "PbsVerifyJob"]
  (Some (Privilege ["resource"; "{remote}"] PRIV_RESOURCE_MANAGE false)) "" false.
Definition API_METHOD_UPDATE_VERIFY_JOB : ApiMethod := mkApiMethod "update_verify_job"
  [Prop_ "remote" false "REMOTE_ID_SCHEMA"; Prop_ "id" false "String"; Flatten "PbsVerifyJob"]
  (Some (Privilege ["resource"; "{remote}"] PRIV_RESOURCE_MANAGE false)) "" false.
Definition API_METHOD_DELETE_VERIFY_JOB : ApiMethod := mkApiMethod "delete_verify_job"
  [Prop_ "remote" false "REMOTE_ID_SCHEMA"; Prop_ "id" false "String"]
  (Some (Privilege ["resource"; "{remote}"] PRIV_RESOURCE_MANAGE false)) "" false.
Definition API_METHOD_RUN_VERIFY_JOB : ApiMethod := mkApiMethod "run_verify_job"
  [Prop_ "remote" false "REMOTE_ID_SCHEMA"; Prop_ "id" false "String"]
  (Some (Privilege ["resource"; "{remote}"] PRIV_RESOURCE_MANAGE false)) "RemoteUpid" false.
Definition API_METHOD_LIST_SYNC_JOBS : ApiMethod := mkApiMethod "list_sync_jobs"
  [Prop_ "remote" false "REMOTE_ID_SCHEMA"]
  (Some (Privilege ["resource"; "{remote}"] PRIV_RESOURCE_AUDIT false)) "Array of PbsSyncJob" false.
Definition API_METHOD_CREATE_SYNC_JOB : ApiMethod := mkApiMethod "create_sync_job"
  [Prop_ "remote" false "REMOTE_ID_SCHEMA"; Flatten "PbsSyncJob"]
  (Some (Privilege ["resource"; "{remote}"] PRIV_RESOURCE_MANAGE false)) "" false.
Definition API_METHOD_UPDATE_SYNC_JOB : ApiMethod := mkApiMethod "update_sync_job"
  [Prop_ "remote" false "REMOTE_ID_SCHEMA"; Prop_ "id" false "String"; Flatten "PbsSyncJob"]
  (Some (Privilege ["resource"; "{remote}"] PRIV_RESOURCE_MANAGE false)) "" false.
Definition API_METHOD_DELETE_SYNC_JOB : ApiMethod := mkApiMethod "delete_sync_job"
  [Prop_ "remote" false "REMOTE_ID_SCHEMA"; Prop_ "id" false "String"]
  (Some (Privilege ["resource"; "{remote}"] PRIV_RESOURCE_MANAGE false)) "" false.
Definition API_METHOD_RUN_SYNC_JOB : ApiMethod := mkApiMethod "run_sync_job"
  [Prop_ "remote" false "REMOTE_ID_SCHEMA"; Prop_ "id" false "String"]
  (Some (Privilege ["resource"; "{remote}"] PRIV_RESOURCE_MANAGE false)) "RemoteUpid" false.
Definition PRUNE_JOB_SUBDIRS : SubdirMap := sorted [("config", (Router.get Router.new (Own API_METHOD_GET_PRUNE_JOB)));
    ("run", (Router.post Router.new (Own API_METHOD_RUN_PRUNE_JOB)))].
Definition VERIFY_JOB_SUBDIRS : SubdirMap := sorted [("config", (Router.get Router.new (Own API_METHOD_GET_VERIFY_JOB)));
    ("run", (Router.post Router.new (Own API_METHOD_RUN_VERIFY_JOB)))].
Definition SYNC_JOB_SUBDIRS : SubdirMap := sorted [("config", (Router.get Router.new (Own API_METHOD_GET_SYNC_JOB)));
    ("run", (Router.post Router.new (Own API_METHOD_RUN_SYNC_JOB)))].
Definition SNAPSHOT_ACTION_SUBDIRS : SubdirMap := sorted [("forget", (Router.delete Router.new (Own API_METHOD_FORGET_SNAPSHOT)));
    ("notes", (Router.put Router.new (Own API_METHOD_SET_SNAPSHOT_NOTES)));
    ("protected", (Router.put Router.new (Own API_METHOD_SET_SNAPSHOT_PROTECTION)));
    ("verify", (Router.post Router.new (Own API_METHOD_VERIFY_SNAPSHOT)))].
Definition DATASTORE_MAINTENANCE_SUBDIRS : SubdirMap := sorted [("gc", (Router.post (Router.get Router.new (Own API_METHOD_GET_GC_STATUS)) (Own API_METHOD_RUN_GC)));
    ("prune", (Router.post Router.new (Own API_METHOD_PRUNE_DATASTORE)))].
Definition PRUNE_JOB_ROUTER : Router := (Router.subdirs (Router.delete (Router.put Router.new (Own API_METHOD_UPDATE_PRUNE_JOB)) (Own API_METHOD_DELETE_PRUNE_JOB)) PRUNE_JOB_SUBDIRS).
Definition VERIFY_JOB_ROUTER : Router := (Router.subdirs (Router.delete (Router.put Router.new (Own API_METHOD_UPDATE_VERIFY_JOB)) (Own API_METHOD_DELETE_VERIFY_JOB)) VERIFY_JOB_SUBDIRS).
Definition SYNC_JOB_ROUTER : Router := (Router.subdirs (Router.delete (Router.put Router.new (Own API_METHOD_UPDATE_SYNC_JOB)) (Own API_METHOD_DELETE_SYNC_JOB)) SYNC_JOB_SUBDIRS).
Definition DATASTORE_MAINTENANCE_ROUTER : Router := (Router.subdirs (Router.get Router.new (list_subdirs_api_method DATASTORE_MAINTENANCE_SUBDIRS)) DATASTORE_MAINTENANCE_SUBDIRS).
Definition SNAPSHOT_ACTIONS_ROUTER : Router := (Router.subdirs (Router.get Router.new (list_subdirs_api_method SNAPSHOT_ACTION_SUBDIRS)) SNAPSHOT_ACTION_SUBDIRS).
Definition PRUNE_JOBS_ROUTER : Router := (Router.match_all (Router.post (Router.get Router.new (Own API_METHOD_LIST_PRUNE_JOBS)) (Own API_METHOD_CREATE_PRUNE_JOB)) "id" PRUNE_JOB_ROUTER).
Definition VERIFY_JOBS_ROUTER : Router := (Router.match_all (Router.post (Router.get Router.new (Own API_METHOD_LIST_VERIFY_JOBS)) (Own API_METHOD_CREATE_VERIFY_JOB)) "id" VERIFY_JOB_ROUTER).
Definition SYNC_JOBS_ROUTER : Router := (Router.match_all (Router.post (Router.get Router.new (Own API_METHOD_LIST_SYNC_JOBS)) (Own API_METHOD_CREATE_SYNC_JOB)) "id" SYNC_JOB_ROUTER).
End pbs_maintenance.

(** [server/src/api/pbs/storage_sync.rs] *)
Module pbs_storage_sync.
Definition API_METHOD_PVE_STORAGE_STATE : ApiMethod := mkApiMethod "pve_storage_state"
  [Prop_ "remote" false "REMOTE_ID_SCHEMA"; Prop_ "datastore" false "String"]
  (Some (Privilege ["resource"; "{remote}"] PRIV_RESOURCE_AUDIT false)) "Array of PbsPveStorageState" false.
Definition API_METHOD_ATTACH_TO_PVE : ApiMethod := mkApiMethod "attach_to_pve"
  [Prop_ "remote" false "REMOTE_ID_SCHEMA"; Flatten "PbsAttachRequest"]
  (Some (Privilege ["resource"] PRIV_RESOURCE_MANAGE false)) "Array of PbsAttachResult" false.
Definition ROUTER : Router := (Router.post (Router.get Router.new (Own API_METHOD_PVE_STORAGE_STATE)) (Own API_METHOD_ATTACH_TO_PVE)).
End pbs_storage_sync.

(** [server/src/api/pbs/tasks.rs] *)
Module pbs_tasks.
Definition API_METHOD_LIST_TASKS : ApiMethod := mkApiMethod "list_tasks"
  [Prop_ "remote" false "REMOTE_ID_SCHEMA"]
  (Some (Privilege ["resource"; "{remote}"] PRIV_RESOURCE_AUDIT false)) "Array of pbs_api_types::TaskListItem" false.
Definition API_METHOD_STOP_TASK : ApiMethod := mkApiMethod "stop_task"
  [Prop_ "remote" false "REMOTE_ID_SCHEMA"; Prop_ "upid" false "RemoteUpid"]
  (Some (Privilege ["resource"; "{remote}"] PRIV_RESOURCE_MANAGE false)) "" false.
Definition API_METHOD_GET_TASK_STATUS : ApiMethod := mkApiMethod "get_task_status"
  [Prop_ "remote" false "REMOTE_ID_SCHEMA"; Prop_ "upid" false "RemoteUpid"; Prop_ "wait" true "Boolean"]
  (Some (Privilege ["resource"; "{remote}"] PRIV_RESOURCE_AUDIT false)) "pdm_api_types::pbs::TaskStatus" false.
Definition API_METHOD_READ_TASK_LOG : ApiMethod := mkApiMethod "read_task_log"
  [Prop_ "remote" false "REMOTE_ID_SCHEMA"; Prop_ "upid" false "RemoteUpid"; Prop_ "start" true "TASKLOG_START_PARAM_SCHEMA"; Prop_ "limit" true "TASKLOG_LIMIT_PARAM_SCHEMA"; Prop_ "download" true "TASKLOG_DOWNLOAD_PARAM_SCHEMA"]
  (Some (Privilege ["resource"; "{remote}"] PRIV_RESOURCE_AUDIT false)) "Array of pbs_client::TaskLogLine" false.
Definition UPID_API_SUBDIRS : SubdirMap := sorted [("log", (Router.get Router.new (Own API_METHOD_READ_TASK_LOG)));
    ("status", (Router.get Router.new (Own API_METHOD_GET_TASK_STATUS)))].
Definition UPID_API_ROUTER : Router := (Router.subdirs (Router.delete (Router.get Router.new (list_subdirs_api_method UPID_API_SUBDIRS)) (Own API_METHOD_STOP_TASK)) UPID_API_SUBDIRS).
Definition ROUTER : Router := (Router.match_all (Router.get Router.new (Own API_METHOD_LIST_TASKS)) "upid" UPID_API_ROUTER).
End pbs_tasks.

(** [server/src/api/pbs/node.rs] *)
Module pbs_node.
Definition API_METHOD_GET_SUBSCRIPTION : ApiMethod := mkApiMethod "get_subscription"
  [Prop_ "remote" false "REMOTE_ID_SCHEMA"; Prop_ "node" false "NODE_SCHEMA"]
  (Some (Privilege ["resource"; "{remote}"] PRIV_RESOURCE_AUDIT false)) "proxmox_subscription::SubscriptionInfo" false.
Definition SUBDIRS : SubdirMap := sorted [("apt", remotes_updates.APT_ROUTER);
    ("subscription", (Router.get Router.new (Own API_METHOD_GET_SUBSCRIPTION)));
    ("termproxy", (Router.post Router.new (Own remotes_shell.API_METHOD_SHELL_TICKET)));
    ("vncwebsocket", (Router.upgrade Router.new (Own remotes_shell.API_METHOD_SHELL_WEBSOCKET)))].
Definition ROUTER : Router := (Router.subdirs (Router.get Router.new (list_subdirs_api_method SUBDIRS)) SUBDIRS).
End pbs_node.

(** [server/src/api/pbs/mod.rs] *)
Module pbs.
Definition API_METHOD_LIST_REMOTES : ApiMethod := mkApiMethod "list_remotes"
  []
  None "Array of pdm_api_types::remotes::RemoteListEntry" false.
Definition API_METHOD_LIST_DATASTORES : ApiMethod := mkApiMethod "list_datastores"
  [Prop_ "remote" false "REMOTE_ID_SCHEMA"]
  (Some (Privilege ["resource"; "{remote}"] PRIV_RESOURCE_AUDIT false)) "Array of pbs_api_types::DataStoreConfig" false.
Definition API_METHOD_LIST_NAMESPACES : ApiMethod := mkApiMethod "list_namespaces"
  [Prop_ "remote" false "REMOTE_ID_SCHEMA"; Flatten "pbs_client::DatstoreListNamespaces"]
  (Some (Privilege ["resource"; "{remote}"; "datastore"; "{datastore}"] PRIV_RESOURCE_AUDIT false)) "Array of pbs_api_types::NamespaceListItem" false.
Definition API_METHOD_LIST_SNAPSHOTS : ApiMethod := mkApiMethod "list_snapshots"
  [Prop_ "remote" false "REMOTE_ID_SCHEMA"; Prop_ "datastore" false "pbs_api_types::DATASTORE_SCHEMA"; Prop_ "ns" true "pbs_api_types::BACKUP_NAMESPACE_SCHEMA"]
  (Some (Privilege ["resource"; "{remote}"; "datastore"; "{datastore}"] PRIV_RESOURCE_AUDIT false)) "" false.
Definition API_METHOD_PROBE_TLS : ApiMethod := mkApiMethod "probe_tls"
  [Prop_ "hostname" false "String"; Prop_ "fingerprint" true "String"]
  (Some (Privilege ["/"] PRIV_SYS_MODIFY false)) "" false.
Definition API_METHOD_SCAN_REMOTE_PBS : ApiMethod := mkApiMethod "scan_remote_pbs"
  [Prop_ "hostname" false "String"; Prop_ "fingerprint" true "String"; Prop_ "authid" false "Authid"; Prop_ "token" false "String"]
  (Some (Privilege ["/"] PRIV_SYS_MODIFY false)) "Remote" false.
Definition API_METHOD_LIST_REALM_REMOTE_PBS : ApiMethod := mkApiMethod "list_realm_remote_pbs"
  [Prop_ "hostname" false "String"; Prop_ "fingerprint" true "String"]
  (Some (Privilege ["/"] PRIV_SYS_MODIFY false)) "Array of pbs_api_types::BasicRealmInfo" false.
Definition API_METHOD_GET_STATUS : ApiMethod := mkApiMethod "get_status"
  [Prop_ "remote" false "REMOTE_ID_SCHEMA"]
  (Some (Privilege ["resource"; "{remote}"] PRIV_RESOURCE_AUDIT false)) "pbs_api_types::NodeStatus" false.
Definition NODES_ROUTER : Router := (Router.match_all Router.new "node" pbs_node.ROUTER).
Definition DATASTORE_ITEM_SUBDIRS : SubdirMap := sorted [("maintenance", pbs_maintenance.DATASTORE_MAINTENANCE_ROUTER);
    ("rrddata", pbs_rrddata.PBS_DATASTORE_RRD_ROUTER);
    ("namespaces", (Router.get Router.new (Own API_METHOD_LIST_NAMESPACES)));
    ("snapshots", (Router.get Router.new (Own API_METHOD_LIST_SNAPSHOTS)));
    ("snapshot-actions", pbs_maintenance.SNAPSHOT_ACTIONS_ROUTER)].
Definition DATASTORE_ITEM_ROUTER : Router := (Router.subdirs (Router.get Router.new (list_subdirs_api_method DATASTORE_ITEM_SUBDIRS)) DATASTORE_ITEM_SUBDIRS).
Definition DATASTORE_ROUTER : Router := (Router.match_all (Router.get Router.new (Own API_METHOD_LIST_DATASTORES)) "datastore" DATASTORE_ITEM_ROUTER).
Definition REMOTE_SUBDIRS : SubdirMap := sorted [("nodes", NODES_ROUTER);
    ("prune-jobs", pbs_maintenance.PRUNE_JOBS_ROUTER);
    ("pve-storage", pbs_storage_sync.ROUTER);
    ("sync-jobs", pbs_maintenance.SYNC_JOBS_ROUTER);
    ("verify-jobs", pbs_maintenance.VERIFY_JOBS_ROUTER);
    ("status", (Router.get Router.new (Own API_METHOD_GET_STATUS)));
    ("rrddata", pbs_rrddata.PBS_NODE_RRD_ROUTER);
    ("datastore", DATASTORE_ROUTER);
    ("tasks", pbs_tasks.ROUTER)].
Definition MAIN_ROUTER : Router := (Router.subdirs (Router.get Router.new (list_subdirs_api_method REMOTE_SUBDIRS)) REMOTE_SUBDIRS).
Definition REMOTES_ROUTER : Router := (Router.match_all (Router.get Router.new (Own API_METHOD_LIST_REMOTES)) "remote" MAIN_ROUTER).
Definition SUBDIRS : SubdirMap := sorted [("remotes", REMOTES_ROUTER);
    ("scan", (Router.post Router.new (Own API_METHOD_SCAN_REMOTE_PBS)));
    ("probe-tls", (Router.post Router.new (Own API_METHOD_PROBE_TLS)));
    ("realms", (Router.get Router.new (Own API_METHOD_LIST_REALM_REMOTE_PBS)))].
Definition ROUTER : Router := (Router.subdirs (Router.get Router.new (list_subdirs_api_method SUBDIRS)) SUBDIRS).
End pbs.
