(* ===== verification/ApiConfig.v ===== *)
(** * The API tree: configuration and access

    The methods and routers of [server/src/api/config/] and [server/src/api/access/]. *)

From S2P Require Import Prelude ResourceList TaskList PveGuests ApiRouter.
#[local] Open Scope string_scope.

(** [server/src/api/config/access/ldap.rs] *)
Module config_access_ldap.
Definition API_METHOD_LIST_LDAP_REALMS : ApiMethod := mkApiMethod "list_ldap_realms"
  []
  (Some (Privilege ["access"; "domains"] PRIV_REALM_ALLOCATE false)) "Array of LdapRealmConfig" false.
Definition API_METHOD_CREATE_LDAP_REALM : ApiMethod := mkApiMethod "create_ldap_realm"
  [Flatten "LdapRealmConfig"; Prop_ "password" true ""]
  (Some (Privilege ["access"; "domains"] PRIV_REALM_ALLOCATE false)) "" true.
Definition API_METHOD_DELETE_LDAP_REALM : ApiMethod := mkApiMethod "delete_ldap_realm"
  [Prop_ "realm" false "REALM_ID_SCHEMA"; Prop_ "digest" true "ConfigDigest"]
  (Some (Privilege ["access"; "domains"] PRIV_REALM_ALLOCATE false)) "" true.
Definition API_METHOD_READ_LDAP_REALM : ApiMethod := mkApiMethod "read_ldap_realm"
  [Prop_ "realm" false "REALM_ID_SCHEMA"]
  (Some (Privilege ["access"; "domains"] PRIV_SYS_AUDIT false)) "LdapRealmConfig" false.
Definition API_METHOD_UPDATE_LDAP_REALM : ApiMethod := mkApiMethod "update_ldap_realm"
  [Prop_ "realm" false "REALM_ID_SCHEMA"; Flatten "LdapRealmConfigUpdater"; Prop_ "password" true ""; Prop_ "delete" true "Array"; Prop_ "digest" true "ConfigDigest"]
  (Some (Privilege ["access"; "domains"] PRIV_REALM_ALLOCATE false)) "" true.
Definition ITEM_ROUTER : Router := (Router.delete (Router.put (Router.get Router.new (Own API_METHOD_READ_LDAP_REALM)) (Own API_METHOD_UPDATE_LDAP_REALM)) (Own API_METHOD_DELETE_LDAP_REALM)).
Definition ROUTER : Router := (Router.match_all (Router.post (Router.get Router.new (Own API_METHOD_LIST_LDAP_REALMS)) (Own API_METHOD_CREATE_LDAP_REALM)) "realm" ITEM_ROUTER).
End config_access_ldap.

(** [server/src/api/config/access/ad.rs] *)
Module config_access_ad.
Definition API_METHOD_LIST_AD_REALMS : ApiMethod := mkApiMethod "list_ad_realms"
  []
  (Some (Privilege ["access"; "domains"] PRIV_REALM_ALLOCATE false)) "Array of AdRealmConfig" false.
Definition API_METHOD_CREATE_AD_REALM : ApiMethod := mkApiMethod "create_ad_realm"
  [Flatten "AdRealmConfig"; Prop_ "password" true ""]
  (Some (Privilege ["access"; "domains"] PRIV_REALM_ALLOCATE false)) "" true.
Definition API_METHOD_READ_AD_REALM : ApiMethod := mkApiMethod "read_ad_realm"
  [Prop_ "realm" false "REALM_ID_SCHEMA"]
  (Some (Privilege ["access"; "domains"] PRIV_SYS_AUDIT false)) "AdRealmConfig" false.
Definition API_METHOD_UPDATE_AD_REALM : ApiMethod := mkApiMethod "update_ad_realm"
  [Prop_ "realm" false "REALM_ID_SCHEMA"; Flatten "AdRealmConfigUpdater"; Prop_ "password" true ""; Prop_ "delete" true "Array"; Prop_ "digest" true "ConfigDigest"]
  (Some (Privilege ["access"; "domains"] PRIV_REALM_ALLOCATE false)) "" true.
Definition ITEM_ROUTER : Router := (Router.delete (Router.put (Router.get Router.new (Own API_METHOD_READ_AD_REALM)) (Own API_METHOD_UPDATE_AD_REALM)) (Own config_access_ldap.API_METHOD_DELETE_LDAP_REALM)).
Definition ROUTER : Router := (Router.match_all (Router.post (Router.get Router.new (Own API_METHOD_LIST_AD_REALMS)) (Own API_METHOD_CREATE_AD_REALM)) "realm" ITEM_ROUTER).
End config_access_ad.

(** [server/src/api/config/access/openid.rs] *)
Module config_access_openid.
Definition API_METHOD_LIST_OPENID_REALMS : ApiMethod := mkApiMethod "list_openid_realms"
  []
  (Some (Privilege ["access"; "domains"] PRIV_REALM_ALLOCATE false)) "Array of OpenIdRealmConfig" false.
Definition API_METHOD_CREATE_OPENID_REALM : ApiMethod := mkApiMethod "create_openid_realm"
  [Flatten "OpenIdRealmConfig"]
  (Some (Privilege ["access"; "domains"] PRIV_REALM_ALLOCATE false)) "" true.
Definition API_METHOD_DELETE_OPENID_REALM : ApiMethod := mkApiMethod "delete_openid_realm"
  [Prop_ "realm" false "REALM_ID_SCHEMA"; Prop_ "digest" true "ConfigDigest"]
  (Some (Privilege ["access"; "domains"] PRIV_REALM_ALLOCATE false)) "" true.
Definition API_METHOD_READ_OPENID_REALM : ApiMethod := mkApiMethod "read_openid_realm"
  [Prop_ "realm" false "REALM_ID_SCHEMA"]
  (Some (Privilege ["access"; "domains"] PRIV_SYS_AUDIT false)) "OpenIdRealmConfig" false.
Definition API_METHOD_UPDATE_OPENID_REALM : ApiMethod := mkApiMethod "update_openid_realm"
  [Prop_ "realm" false "REALM_ID_SCHEMA"; Flatten "OpenIdRealmConfigUpdater"; Prop_ "delete" true "Array"; Prop_ "digest" true "ConfigDigest"]
  (Some (Privilege ["access"; "domains"] PRIV_REALM_ALLOCATE false)) "" true.
Definition ITEM_ROUTER : Router := (Router.delete (Router.put (Router.get Router.new (Own API_METHOD_READ_OPENID_REALM)) (Own API_METHOD_UPDATE_OPENID_REALM)) (Own API_METHOD_DELETE_OPENID_REALM)).
Definition ROUTER : Router := (Router.match_all (Router.post (Router.get Router.new (Own API_METHOD_LIST_OPENID_REALMS)) (Own API_METHOD_CREATE_OPENID_REALM)) "realm" ITEM_ROUTER).
End config_access_openid.

(** [server/src/api/config/access/pdm.rs] *)
Module config_access_pdm.
Definition API_METHOD_READ_PDM_REALM : ApiMethod := mkApiMethod "read_pdm_realm"
  []
  (Some (Privilege ["access"; "domains"] PRIV_SYS_AUDIT false)) "PdmRealmConfig" false.
Definition API_METHOD_UPDATE_PDM_REALM : ApiMethod := mkApiMethod "update_pdm_realm"
  [Flatten "PdmRealmConfigUpdater"; Prop_ "delete" true "Array"; Prop_ "digest" true "ConfigDigest"]
  (Some (Privilege ["access"; "domains"] PRIV_REALM_ALLOCATE false)) "PdmRealmConfig" true.
Definition ROUTER : Router := (Router.put (Router.get Router.new (Own API_METHOD_READ_PDM_REALM)) (Own API_METHOD_UPDATE_PDM_REALM)).
End config_access_pdm.

(** [server/src/api/config/access/tfa.rs] *)
Module config_access_tfa.
Definition API_METHOD_GET_WEBAUTHN_CONFIG : ApiMethod := mkApiMethod "get_webauthn_config"
  []
  (Some (Anybody)) "WebauthnConfig" true.
Definition API_METHOD_UPDATE_WEBAUTHN_CONFIG : ApiMethod := mkApiMethod "update_webauthn_config"
  [Flatten "WebauthnConfigUpdater"; Prop_ "delete" true "Array"; Prop_ "digest" true "PROXMOX_CONFIG_DIGEST_SCHEMA"]
  None "" true.
Definition WEBAUTHN_ROUTER : Router := (Router.put (Router.get Router.new (Own API_METHOD_GET_WEBAUTHN_CONFIG)) (Own API_METHOD_UPDATE_WEBAUTHN_CONFIG)).
Definition SUBDIRS : SubdirMap := [("webauthn", WEBAUTHN_ROUTER)].
Definition ROUTER : Router := (Router.subdirs (Router.get Router.new (list_subdirs_api_method SUBDIRS)) SUBDIRS).
End config_access_tfa.

(** [server/src/api/config/access/mod.rs] *)
Module config_access.
Definition SUBDIRS : SubdirMap := sorted [("tfa", config_access_tfa.ROUTER);
    ("ldap", config_access_ldap.ROUTER);
    ("openid", config_access_openid.ROUTER);
    ("ad", config_access_ad.ROUTER);
    ("pdm", config_access_pdm.ROUTER)].
Definition ROUTER : Router := (Router.subdirs (Router.get Router.new (list_subdirs_api_method SUBDIRS)) SUBDIRS).
End config_access.

(** [server/src/api/config/acme.rs] *)
Module config_acme.
Definition API_METHOD_LIST_ACCOUNTS : ApiMethod := mkApiMethod "list_accounts"
  []
  (Some (Privilege ["system"; "certificates"] PRIV_SYS_MODIFY false)) "Array of AccountEntry" true.
Definition API_METHOD_REGISTER_ACCOUNT : ApiMethod := mkApiMethod "register_account"
  [Flatten "AcmeRegistrationParams"]
  (Some (Privilege ["system"; "certificates"] PRIV_SYS_MODIFY false)) "pdm_api_types::UPID_SCHEMA" true.
Definition API_METHOD_GET_ACCOUNT : ApiMethod := mkApiMethod "get_account"
  [Prop_ "name" false "AcmeAccountName"]
  (Some (Privilege ["system"; "certificates"] PRIV_SYS_MODIFY false)) "AccountInfo" true.
Definition API_METHOD_UPDATE_ACCOUNT : ApiMethod := mkApiMethod "update_account"
  [Prop_ "name" false "AcmeAccountName"; Prop_ "contact" true "ACME_CONTACT_LIST_SCHEMA"]
  (Some (Privilege ["system"; "certificates"] PRIV_SYS_MODIFY false)) "pdm_api_types::UPID_SCHEMA" true.
Definition API_METHOD_DEACTIVATE_ACCOUNT : ApiMethod := mkApiMethod "deactivate_account"
  [Prop_ "name" false "AcmeAccountName"; Prop_ "force" true ""]
  (Some (Privilege ["system"; "certificates"] PRIV_SYS_MODIFY false)) "pdm_api_types::UPID_SCHEMA" true.
Definition API_METHOD_LIST_PLUGINS : ApiMethod := mkApiMethod "list_plugins"
  []
  (Some (Privilege ["system"; "certificates"] PRIV_SYS_MODIFY false)) "Array of PluginConfig" true.
Definition API_METHOD_GET_PLUGIN : ApiMethod := mkApiMethod "get_plugin"
  [Prop_ "id" false "PLUGIN_ID_SCHEMA"]
  (Some (Privilege ["system"; "certificates"] PRIV_SYS_MODIFY false)) "PluginConfig" true.
Definition API_METHOD_ADD_PLUGIN : ApiMethod := mkApiMethod "add_plugin"
  [Prop_ "type" false "String"; Flatten "DnsPluginCore"; Prop_ "data" false "String"]
  (Some (Privilege ["system"; "certificates"] PRIV_SYS_MODIFY false)) "" true.
Definition API_METHOD_UPDATE_PLUGIN : ApiMethod := mkApiMethod "update_plugin"
  [Prop_ "id" false "PLUGIN_ID_SCHEMA"; Flatten "DnsPluginCoreUpdater"; Prop_ "data" true "String"; Prop_ "delete" true "Array"; Prop_ "digest" true "ConfigDigest"]
  (Some (Privilege ["system"; "certificates"] PRIV_SYS_MODIFY false)) "" true.
Definition API_METHOD_DELETE_PLUGIN : ApiMethod := mkApiMethod "delete_plugin"
  [Prop_ "id" false "PLUGIN_ID_SCHEMA"]
  (Some (Privilege ["system"; "certificates"] PRIV_SYS_MODIFY false)) "" true.
Definition API_METHOD_GET_CHALLENGE_SCHEMA : ApiMethod := mkApiMethod "get_challenge_schema"
  []
  (Some (Anybody)) "Array of AcmeChallengeSchema" false.
Definition API_METHOD_GET_DIRECTORIES : ApiMethod := mkApiMethod "get_directories"
  []
  (Some (Anybody)) "Array of KnownAcmeDirectory" false.
Definition API_METHOD_GET_TOS : ApiMethod := mkApiMethod "get_tos"
  [Prop_ "directory" true "String"]
  (Some (Anybody)) "String" false.
Definition ACCOUNT_ITEM_ROUTER : Router := (Router.delete (Router.put (Router.get Router.new (Own API_METHOD_GET_ACCOUNT)) (Own API_METHOD_UPDATE_ACCOUNT)) (Own API_METHOD_DEACTIVATE_ACCOUNT)).
Definition PLUGIN_ITEM_ROUTER : Router := (Router.delete (Router.put (Router.get Router.new (Own API_METHOD_GET_PLUGIN)) (Own API_METHOD_UPDATE_PLUGIN)) (Own API_METHOD_DELETE_PLUGIN)).
Definition SUBDIRS : SubdirMap := sorted [("account", (Router.match_all (Router.post (Router.get Router.new (Own API_METHOD_LIST_ACCOUNTS)) (Own API_METHOD_REGISTER_ACCOUNT)) "name" ACCOUNT_ITEM_ROUTER));
    ("plugins", (Router.match_all (Router.post (Router.get Router.new (Own API_METHOD_LIST_PLUGINS)) (Own API_METHOD_ADD_PLUGIN)) "id" PLUGIN_ITEM_ROUTER));
    ("challenge-schema", (Router.get Router.new (Own API_METHOD_GET_CHALLENGE_SCHEMA)));
    ("directories", (Router.get Router.new (Own API_METHOD_GET_DIRECTORIES)));
    ("tos", (Router.get Router.new (Own API_METHOD_GET_TOS)))].
Definition ROUTER : Router := (Router.subdirs (Router.get Router.new (list_subdirs_api_method SUBDIRS)) SUBDIRS).
End config_acme.

(** [server/src/api/config/certificate.rs] *)
Module config_certificate.
Definition API_METHOD_GET_CERTIFICATE_CONFIG : ApiMethod := mkApiMethod "get_certificate_config"
  []
  (Some (Privilege ["system"] PRIV_SYS_AUDIT false)) "AcmeCertificateConfig" true.
Definition API_METHOD_UPDATE_CERTIFICATE_CONFIG : ApiMethod := mkApiMethod "update_certificate_config"
  [Prop_ "digest" true "ConfigDigest"; Flatten "AcmeCertificateConfig"; Prop_ "delete" true "Array"]
  (Some (Privilege ["system"] PRIV_SYS_MODIFY false)) "" true.
Definition ROUTER : Router := (Router.put (Router.get Router.new (Own API_METHOD_GET_CERTIFICATE_CONFIG)) (Own API_METHOD_UPDATE_CERTIFICATE_CONFIG)).
End config_certificate.

(** [server/src/api/config/media.rs] *)
Module config_media.
Definition API_METHOD_LIST_MEDIA : ApiMethod := mkApiMethod "list_media"
  []
  (Some (Privilege ["resource"] PRIV_RESOURCE_AUDIT false)) "Array of MediaCatalogEntry" false.
Definition API_METHOD_ADD_MEDIA : ApiMethod := mkApiMethod "add_media"
  [Flatten "MediaCatalogEntry"; Prop_ "digest" true "ConfigDigest"]
  (Some (Privilege ["resource"] PRIV_RESOURCE_MODIFY false)) "" false.
Definition API_METHOD_UPDATE_MEDIA : ApiMethod := mkApiMethod "update_media"
  [Prop_ "id" false "PROXMOX_SAFE_ID_SCHEMA"; Flatten "MediaCatalogEntryUpdater"; Prop_ "delete" true "Array"; Prop_ "digest" true "ConfigDigest"]
  (Some (Privilege ["resource"] PRIV_RESOURCE_MODIFY false)) "" false.
Definition API_METHOD_REMOVE_MEDIA : ApiMethod := mkApiMethod "remove_media"
  [Prop_ "id" false "PROXMOX_SAFE_ID_SCHEMA"; Prop_ "digest" true "ConfigDigest"]
  (Some (Privilege ["resource"] PRIV_RESOURCE_MODIFY false)) "" false.
Definition API_METHOD_READ_MEDIA : ApiMethod := mkApiMethod "read_media"
  [Prop_ "id" false "PROXMOX_SAFE_ID_SCHEMA"]
  (Some (Privilege ["resource"] PRIV_RESOURCE_AUDIT false)) "MediaCatalogEntry" false.
Definition MEDIA_ROUTER : Router := (Router.delete (Router.put (Router.get Router.new (Own API_METHOD_READ_MEDIA)) (Own API_METHOD_UPDATE_MEDIA)) (Own API_METHOD_REMOVE_MEDIA)).
Definition ROUTER : Router := (Router.match_all (Router.post (Router.get Router.new (Own API_METHOD_LIST_MEDIA)) (Own API_METHOD_ADD_MEDIA)) "id" MEDIA_ROUTER).
End config_media.

(** [server/src/api/config/notes.rs] *)
Module config_notes.
Definition API_METHOD_GET_NOTES : ApiMethod := mkApiMethod "get_notes"
  []
  (Some (Privilege ["system"] PRIV_SYS_AUDIT false)) "String" true.
Definition API_METHOD_UPDATE_NOTES : ApiMethod := mkApiMethod "update_notes"
  [Prop_ "notes" false "String"; Prop_ "digest" true "ConfigDigest"]
  (Some (Privilege ["system"; "notes"] PRIV_SYS_MODIFY false)) "" false.
Definition ROUTER : Router := (Router.put (Router.get Router.new (Own API_METHOD_GET_NOTES)) (Own API_METHOD_UPDATE_NOTES)).
End config_notes.

(** [server/src/api/config/notifications.rs] *)
Module config_notifications.
Definition NOTIFICATIONS_PRIVILEGE : Permission := Privilege ["system"; "notifications"] PRIV_SYS_MODIFY false.
Definition API_METHOD_LIST_TARGETS : ApiMethod := mkApiMethod "list_targets"
  []
  (Some (NOTIFICATIONS_PRIVILEGE)) "Array of Target" false.
Definition API_METHOD_TEST_TARGET : ApiMethod := mkApiMethod "test_target"
  [Prop_ "name" false "String"]
  (Some (NOTIFICATIONS_PRIVILEGE)) "" true.
Definition API_METHOD_LIST_SENDMAIL_ENDPOINTS : ApiMethod := mkApiMethod "list_sendmail_endpoints"
  []
  (Some (NOTIFICATIONS_PRIVILEGE)) "Array of SendmailConfig" false.
Definition API_METHOD_GET_SENDMAIL_ENDPOINT : ApiMethod := mkApiMethod "get_sendmail_endpoint"
  [Prop_ "name" false "String"]
  (Some (NOTIFICATIONS_PRIVILEGE)) "SendmailConfig" false.
Definition API_METHOD_ADD_SENDMAIL_ENDPOINT : ApiMethod := mkApiMethod "add_sendmail_endpoint"
  [Flatten "SendmailConfig"]
  (Some (NOTIFICATIONS_PRIVILEGE)) "" true.
Definition API_METHOD_UPDATE_SENDMAIL_ENDPOINT : ApiMethod := mkApiMethod "update_sendmail_endpoint"
  [Prop_ "name" false "String"; Flatten "SendmailConfigUpdater"; Prop_ "delete" true "Array"; Prop_ "digest" true "ConfigDigest"]
  (Some (NOTIFICATIONS_PRIVILEGE)) "" true.
Definition API_METHOD_DELETE_SENDMAIL_ENDPOINT : ApiMethod := mkApiMethod "delete_sendmail_endpoint"
  [Prop_ "name" false "String"; Prop_ "digest" true "ConfigDigest"]
  (Some (NOTIFICATIONS_PRIVILEGE)) "" true.
Definition API_METHOD_LIST_SMTP_ENDPOINTS : ApiMethod := mkApiMethod "list_smtp_endpoints"
  []
  (Some (NOTIFICATIONS_PRIVILEGE)) "Array of SmtpConfig" false.
Definition API_METHOD_GET_SMTP_ENDPOINT : ApiMethod := mkApiMethod "get_smtp_endpoint"
  [Prop_ "name" false "String"]
  (Some (NOTIFICATIONS_PRIVILEGE)) "SmtpConfig" false.
Definition API_METHOD_ADD_SMTP_ENDPOINT : ApiMethod := mkApiMethod "add_smtp_endpoint"
  [Flatten "SmtpConfig"; Prop_ "password" true "String"]
  (Some (NOTIFICATIONS_PRIVILEGE)) "" true.
Definition API_METHOD_UPDATE_SMTP_ENDPOINT : ApiMethod := mkApiMethod "update_smtp_endpoint"
  [Prop_ "name" false "String"; Flatten "SmtpConfigUpdater"; Prop_ "password" true "String"; Prop_ "delete" true "Array"; Prop_ "digest" true "ConfigDigest"]
  (Some (NOTIFICATIONS_PRIVILEGE)) "" true.
Definition API_METHOD_DELETE_SMTP_ENDPOINT : ApiMethod := mkApiMethod "delete_smtp_endpoint"
  [Prop_ "name" false "String"; Prop_ "digest" true "ConfigDigest"]
  (Some (NOTIFICATIONS_PRIVILEGE)) "" true.
Definition API_METHOD_LIST_GOTIFY_ENDPOINTS : ApiMethod := mkApiMethod "list_gotify_endpoints"
  []
  (Some (NOTIFICATIONS_PRIVILEGE)) "Array of GotifyConfig" false.
Definition API_METHOD_GET_GOTIFY_ENDPOINT : ApiMethod := mkApiMethod "get_gotify_endpoint"
  [Prop_ "name" false "String"]
  (Some (NOTIFICATIONS_PRIVILEGE)) "GotifyConfig" false.
Definition API_METHOD_ADD_GOTIFY_ENDPOINT : ApiMethod := mkApiMethod "add_gotify_endpoint"
  [Flatten "GotifyConfig"; Prop_ "token" false "String"]
  (Some (NOTIFICATIONS_PRIVILEGE)) "" true.
Definition API_METHOD_UPDATE_GOTIFY_ENDPOINT : ApiMethod := mkApiMethod "update_gotify_endpoint"
  [Prop_ "name" false "String"; Flatten "GotifyConfigUpdater"; Prop_ "token" true "String"; Prop_ "delete" true "Array"; Prop_ "digest" true "ConfigDigest"]
  (Some (NOTIFICATIONS_PRIVILEGE)) "" true.
Definition API_METHOD_DELETE_GOTIFY_ENDPOINT : ApiMethod := mkApiMethod "delete_gotify_endpoint"
  [Prop_ "name" false "String"; Prop_ "digest" true "ConfigDigest"]
  (Some (NOTIFICATIONS_PRIVILEGE)) "" true.
Definition API_METHOD_LIST_WEBHOOK_ENDPOINTS : ApiMethod := mkApiMethod "list_webhook_endpoints"
  []
  (Some (NOTIFICATIONS_PRIVILEGE)) "Array of WebhookConfig" false.
Definition API_METHOD_GET_WEBHOOK_ENDPOINT : ApiMethod := mkApiMethod "get_webhook_endpoint"
  [Prop_ "name" false "String"]
  (Some (NOTIFICATIONS_PRIVILEGE)) "WebhookConfig" false.
Definition API_METHOD_ADD_WEBHOOK_ENDPOINT : ApiMethod := mkApiMethod "add_webhook_endpoint"
  [Flatten "WebhookConfig"]
  (Some (NOTIFICATIONS_PRIVILEGE)) "" true.
Definition API_METHOD_UPDATE_WEBHOOK_ENDPOINT : ApiMethod := mkApiMethod "update_webhook_endpoint"
  [Prop_ "name" false "String"; Flatten "WebhookConfigUpdater"; Prop_ "delete" true "Array"; Prop_ "digest" true "ConfigDigest"]
  (Some (NOTIFICATIONS_PRIVILEGE)) "" true.
Definition API_METHOD_DELETE_WEBHOOK_ENDPOINT : ApiMethod := mkApiMethod "delete_webhook_endpoint"
  [Prop_ "name" false "String"; Prop_ "digest" true "ConfigDigest"]
  (Some (NOTIFICATIONS_PRIVILEGE)) "" true.
Definition API_METHOD_LIST_MATCHERS : ApiMethod := mkApiMethod "list_matchers"
  []
  (Some (NOTIFICATIONS_PRIVILEGE)) "Array of MatcherConfig" false.
Definition API_METHOD_GET_MATCHER : ApiMethod := mkApiMethod "get_matcher"
  [Prop_ "name" false "String"]
  (Some (NOTIFICATIONS_PRIVILEGE)) "MatcherConfig" false.
Definition API_METHOD_ADD_MATCHER : ApiMethod := mkApiMethod "add_matcher"
  [Flatten "MatcherConfig"]
  (Some (NOTIFICATIONS_PRIVILEGE)) "" true.
Definition API_METHOD_UPDATE_MATCHER : ApiMethod := mkApiMethod "update_matcher"
  [Prop_ "name" false "String"; Flatten "MatcherConfigUpdater"; Prop_ "delete" true "Array"; Prop_ "digest" true "ConfigDigest"]
  (Some (NOTIFICATIONS_PRIVILEGE)) "" true.
Definition API_METHOD_DELETE_MATCHER : ApiMethod := mkApiMethod "delete_matcher"
  [Prop_ "name" false "String"; Prop_ "digest" true "ConfigDigest"]
  (Some (NOTIFICATIONS_PRIVILEGE)) "" true.
Definition SENDMAIL_ITEM_ROUTER : Router := (Router.delete (Router.put (Router.get Router.new (Own API_METHOD_GET_SENDMAIL_ENDPOINT)) (Own API_METHOD_UPDATE_SENDMAIL_ENDPOINT)) (Own API_METHOD_DELETE_SENDMAIL_ENDPOINT)).
Definition SMTP_ITEM_ROUTER : Router := (Router.delete (Router.put (Router.get Router.new (Own API_METHOD_GET_SMTP_ENDPOINT)) (Own API_METHOD_UPDATE_SMTP_ENDPOINT)) (Own API_METHOD_DELETE_SMTP_ENDPOINT)).
Definition GOTIFY_ITEM_ROUTER : Router := (Router.delete (Router.put (Router.get Router.new (Own API_METHOD_GET_GOTIFY_ENDPOINT)) (Own API_METHOD_UPDATE_GOTIFY_ENDPOINT)) (Own API_METHOD_DELETE_GOTIFY_ENDPOINT)).
Definition WEBHOOK_ITEM_ROUTER : Router := (Router.delete (Router.put (Router.get Router.new (Own API_METHOD_GET_WEBHOOK_ENDPOINT)) (Own API_METHOD_UPDATE_WEBHOOK_ENDPOINT)) (Own API_METHOD_DELETE_WEBHOOK_ENDPOINT)).
Definition MATCHER_ITEM_ROUTER : Router := (Router.delete (Router.put (Router.get Router.new (Own API_METHOD_GET_MATCHER)) (Own API_METHOD_UPDATE_MATCHER)) (Own API_METHOD_DELETE_MATCHER)).
Definition TARGET_ITEM_SUBDIRS : SubdirMap := sorted [("test", (Router.post Router.new (Own API_METHOD_TEST_TARGET)))].
Definition SENDMAIL_ROUTER : Router := (Router.match_all (Router.post (Router.get Router.new (Own API_METHOD_LIST_SENDMAIL_ENDPOINTS)) (Own API_METHOD_ADD_SENDMAIL_ENDPOINT)) "name" SENDMAIL_ITEM_ROUTER).
Definition SMTP_ROUTER : Router := (Router.match_all (Router.post (Router.get Router.new (Own API_METHOD_LIST_SMTP_ENDPOINTS)) (Own API_METHOD_ADD_SMTP_ENDPOINT)) "name" SMTP_ITEM_ROUTER).
Definition GOTIFY_ROUTER : Router := (Router.match_all (Router.post (Router.get Router.new (Own API_METHOD_LIST_GOTIFY_ENDPOINTS)) (Own API_METHOD_ADD_GOTIFY_ENDPOINT)) "name" GOTIFY_ITEM_ROUTER).
Definition WEBHOOK_ROUTER : Router := (Router.match_all (Router.post (Router.get Router.new (Own API_METHOD_LIST_WEBHOOK_ENDPOINTS)) (Own API_METHOD_ADD_WEBHOOK_ENDPOINT)) "name" WEBHOOK_ITEM_ROUTER).
Definition MATCHER_ROUTER : Router := (Router.match_all (Router.post (Router.get Router.new (Own API_METHOD_LIST_MATCHERS)) (Own API_METHOD_ADD_MATCHER)) "name" MATCHER_ITEM_ROUTER).
Definition TARGET_ITEM_ROUTER : Router := (Router.subdirs (Router.get Router.new (list_subdirs_api_method TARGET_ITEM_SUBDIRS)) TARGET_ITEM_SUBDIRS).
Definition TARGETS_ROUTER : Router := (Router.match_all (Router.get Router.new (Own API_METHOD_LIST_TARGETS)) "name" TARGET_ITEM_ROUTER).
Definition SUBDIRS : SubdirMap := sorted [("gotify", GOTIFY_ROUTER);
    ("matchers", MATCHER_ROUTER);
    ("sendmail", SENDMAIL_ROUTER);
    ("smtp", SMTP_ROUTER);
    ("targets", TARGETS_ROUTER);
    ("webhook", WEBHOOK_ROUTER)].
Definition ROUTER : Router := (Router.subdirs (Router.get Router.new (list_subdirs_api_method SUBDIRS)) SUBDIRS).
End config_notifications.

(** [server/src/api/config/views.rs] *)
Module config_views.
Definition API_METHOD_GET_VIEWS : ApiMethod := mkApiMethod "get_views"
  []
  (Some (Anybody)) "Array of ViewConfig" false.
Definition API_METHOD_ADD_VIEW : ApiMethod := mkApiMethod "add_view"
  [Flatten "ViewConfig"; Prop_ "digest" true "ConfigDigest"]
  (Some (Privilege ["view"] PRIV_RESOURCE_MODIFY false)) "" false.
Definition API_METHOD_UPDATE_VIEW : ApiMethod := mkApiMethod "update_view"
  [Prop_ "id" false "VIEW_ID_SCHEMA"; Flatten "ViewConfigUpdater"; Prop_ "delete" true "Array"; Prop_ "digest" true "ConfigDigest"]
  (Some (Privilege ["view"; "{id}"] PRIV_RESOURCE_MODIFY false)) "" false.
Definition API_METHOD_REMOVE_VIEW : ApiMethod := mkApiMethod "remove_view"
  [Prop_ "id" false "VIEW_ID_SCHEMA"; Prop_ "digest" true "ConfigDigest"]
  (Some (Privilege ["view"] PRIV_RESOURCE_MODIFY false)) "" false.
Definition API_METHOD_READ_VIEW : ApiMethod := mkApiMethod "read_view"
  [Prop_ "id" false "VIEW_ID_SCHEMA"]
  (Some (Privilege ["view"; "{id}"] PRIV_RESOURCE_AUDIT false)) "ViewConfig" false.
Definition VIEW_ROUTER : Router := (Router.get (Router.delete (Router.put Router.new (Own API_METHOD_UPDATE_VIEW)) (Own API_METHOD_REMOVE_VIEW)) (Own API_METHOD_READ_VIEW)).
Definition ROUTER : Router := (Router.match_all (Router.post (Router.get Router.new (Own API_METHOD_GET_VIEWS)) (Own API_METHOD_ADD_VIEW)) "id" VIEW_ROUTER).
End config_views.

(** [server/src/api/config/mod.rs] *)
Module config.
Definition SUBDIRS : SubdirMap := sorted [("access", config_access.ROUTER);
    ("acme", config_acme.ROUTER);
    ("certificate", config_certificate.ROUTER);
    ("media", config_media.ROUTER);
    ("notes", config_notes.ROUTER);
    ("notifications", config_notifications.ROUTER);
    ("views", config_views.ROUTER)].
Definition ROUTER : Router := (Router.subdirs (Router.get Router.new (list_subdirs_api_method SUBDIRS)) SUBDIRS).
End config.

(** [server/src/api/access/domains.rs] *)
Module access_domains.
Definition API_METHOD_LIST_DOMAINS : ApiMethod := mkApiMethod "list_domains"
  []
  (Some (World)) "Array of BasicRealmInfo" false.
Definition API_METHOD_SYNC_REALM : ApiMethod := mkApiMethod "sync_realm"
  [Prop_ "realm" false "Realm"; Prop_ "dry-run" true "bool"; Prop_ "remove-vanished" true "REMOVE_VANISHED_SCHEMA"; Prop_ "enable-new" true ""]
  (Some (ForeignPrivilege ["access"; "users"] "pbs_api_types::PRIV_PERMISSIONS_MODIFY" false)) "UPID_SCHEMA" true.
Definition SYNC_ROUTER : Router := (Router.post Router.new (Own API_METHOD_SYNC_REALM)).
Definition SYNC_SUBDIRS : SubdirMap := [("sync", SYNC_ROUTER)].
Definition REALM_ROUTER : Router := (Router.subdirs Router.new SYNC_SUBDIRS).
Definition ROUTER : Router := (Router.match_all (Router.get Router.new (Own API_METHOD_LIST_DOMAINS)) "realm" REALM_ROUTER).
End access_domains.

(** [server/src/api/access/openid.rs] *)
Module access_openid.
Definition API_METHOD_OPENID_AUTH_URL : ApiMethod := mkApiMethod "openid_auth_url"
  [Prop_ "realm" false "REALM_ID_SCHEMA"; Prop_ "redirect-url" false "HTTP_URL_SCHEMA"]
  (Some (World)) "String" true.
Definition API_METHOD_OPENID_LOGIN : ApiMethod := mkApiMethod "openid_login"
  [Prop_ "state" false "String"; Prop_ "code" false "String"; Prop_ "redirect-url" false "String"]
  (Some (World)) "CreateTicketResponse" true.
Definition SUBDIRS : SubdirMap := sorted [("login", (Router.post Router.new (Own API_METHOD_OPENID_LOGIN)));
    ("auth-url", (Router.post Router.new (Own API_METHOD_OPENID_AUTH_URL)))].
Definition ROUTER : Router := (Router.subdirs (Router.get Router.new (list_subdirs_api_method SUBDIRS)) SUBDIRS).
End access_openid.

(** [server/src/api/access/tfa.rs] *)
Module access_tfa.
Definition API_METHOD_LIST_TFA : ApiMethod := mkApiMethod "list_tfa"
  []
  (Some (Anybody)) "Array of methods::TfaUser" true.
Definition API_METHOD_LIST_USER_TFA : ApiMethod := mkApiMethod "list_user_tfa"
  [Prop_ "userid" false "Userid"]
  (Some (Or_ [Privilege ["access"; "users"] PRIV_ACCESS_MODIFY false; UserParam "userid"])) "Array of methods::TypedTfaInfo" true.
Definition API_METHOD_GET_TFA_ENTRY : ApiMethod := mkApiMethod "get_tfa_entry"
  [Prop_ "userid" false "Userid"; Prop_ "id" false ""]
  (Some (Or_ [Privilege ["access"; "users"] PRIV_ACCESS_MODIFY false; UserParam "userid"])) "methods::TypedTfaInfo" true.
Definition API_METHOD_DELETE_TFA : ApiMethod := mkApiMethod "delete_tfa"
  [Prop_ "userid" false "Userid"; Prop_ "id" false ""; Prop_ "password" true "PASSWORD_SCHEMA"]
  (Some (Or_ [Privilege ["access"; "users"] PRIV_ACCESS_MODIFY false; UserParam "userid"])) "" true.
Definition API_METHOD_ADD_TFA_ENTRY : ApiMethod := mkApiMethod "add_tfa_entry"
  [Prop_ "userid" false "Userid"; Prop_ "description" true "String"; Prop_ "type" false "methods::TfaType"; Prop_ "totp" true ""; Prop_ "value" true ""; Prop_ "challenge" true ""; Prop_ "password" true "PASSWORD_SCHEMA"]
  (Some (Or_ [Privilege ["access"; "users"] PRIV_ACCESS_MODIFY false; UserParam "userid"])) "methods::TfaUpdateInfo" true.
Definition API_METHOD_UPDATE_TFA_ENTRY : ApiMethod := mkApiMethod "update_tfa_entry"
  [Prop_ "userid" false "Userid"; Prop_ "id" false ""; Prop_ "description" true "String"; Prop_ "enable" true ""; Prop_ "password" true "PASSWORD_SCHEMA"]
  (Some (Or_ [Privilege ["access"; "users"] PRIV_ACCESS_MODIFY false; UserParam "userid"])) "" true.
Definition ITEM_ROUTER : Router := (Router.delete (Router.put (Router.get Router.new (Own API_METHOD_GET_TFA_ENTRY)) (Own API_METHOD_UPDATE_TFA_ENTRY)) (Own API_METHOD_DELETE_TFA)).
Definition USER_ROUTER : Router := (Router.match_all (Router.post (Router.get Router.new (Own API_METHOD_LIST_USER_TFA)) (Own API_METHOD_ADD_TFA_ENTRY)) "id" ITEM_ROUTER).
Definition ROUTER : Router := (Router.match_all (Router.get Router.new (Own API_METHOD_LIST_TFA)) "userid" USER_ROUTER).
End access_tfa.

(** [server/src/api/access/users.rs] *)
Module access_users.
Definition API_METHOD_LIST_USERS : ApiMethod := mkApiMethod "list_users"
  [Prop_ "include_tokens" true "bool"]
  (Some (Anybody)) "Array of UserWithTokens" false.
Definition API_METHOD_CREATE_USER : ApiMethod := mkApiMethod "create_user"
  [Flatten "User"; Prop_ "password" true "PDM_PASSWORD_SCHEMA"]
  (Some (Privilege ["access"; "users"] PRIV_ACCESS_MODIFY false)) "" true.
Definition API_METHOD_READ_USER : ApiMethod := mkApiMethod "read_user"
  [Prop_ "userid" false "Userid"]
  (Some (Or_ [Privilege ["access"; "users"] PRIV_SYS_AUDIT false; UserParam "userid"])) "User" false.
Definition API_METHOD_UPDATE_USER : ApiMethod := mkApiMethod "update_user"
  [Prop_ "userid" false "Userid"; Flatten "UserUpdater"; Prop_ "password" true "PDM_PASSWORD_SCHEMA"; Prop_ "delete" true "Array"; Prop_ "digest" true "ConfigDigest"]
  (Some (Or_ [Privilege ["access"; "users"] PRIV_ACCESS_MODIFY false; UserParam "userid"])) "" true.
Definition API_METHOD_DELETE_USER : ApiMethod := mkApiMethod "delete_user"
  [Prop_ "userid" false "Userid"; Prop_ "digest" true "ConfigDigest"]
  (Some (Or_ [Privilege ["access"; "users"] PRIV_ACCESS_MODIFY false; UserParam "userid"])) "" true.
Definition API_METHOD_READ_TOKEN_WITH_ACCESS : handler := ForeignWith "proxmox_access_control::api::API_METHOD_READ_TOKEN"
  (Or_ [Privilege ["access"; "users"] PRIV_SYS_AUDIT false; UserParam "userid"]).
Definition API_METHOD_UPDATE_TOKEN_WITH_ACCESS : handler := ForeignWith "proxmox_access_control::api::API_METHOD_UPDATE_TOKEN"
  (Or_ [Privilege ["access"; "users"] PRIV_ACCESS_MODIFY false; UserParam "userid"]).
Definition API_METHOD_GENERATE_TOKEN_WITH_ACCESS : handler := ForeignWith "proxmox_access_control::api::API_METHOD_GENERATE_TOKEN"
  (Or_ [Privilege ["access"; "users"] PRIV_ACCESS_MODIFY false; UserParam "userid"]).
Definition API_METHOD_DELETE_TOKEN_WITH_ACCESS : handler := ForeignWith "proxmox_access_control::api::API_METHOD_DELETE_TOKEN"
  (Or_ [Privilege ["access"; "users"] PRIV_ACCESS_MODIFY false; UserParam "userid"]).
Definition API_METHOD_LIST_TOKENS_WITH_ACCESS : handler := ForeignWith "proxmox_access_control::api::API_METHOD_LIST_TOKENS"
  (Or_ [Privilege ["access"; "users"] PRIV_SYS_AUDIT false; UserParam "userid"]).
Definition TOKEN_ITEM_ROUTER : Router := (Router.delete (Router.post (Router.put (Router.get Router.new API_METHOD_READ_TOKEN_WITH_ACCESS) API_METHOD_UPDATE_TOKEN_WITH_ACCESS) API_METHOD_GENERATE_TOKEN_WITH_ACCESS) API_METHOD_DELETE_TOKEN_WITH_ACCESS).
Definition TOKEN_ROUTER : Router := (Router.match_all (Router.get Router.new API_METHOD_LIST_TOKENS_WITH_ACCESS) "token-name" TOKEN_ITEM_ROUTER).
Definition USER_SUBDIRS : SubdirMap := [("token", TOKEN_ROUTER)].
Definition USER_ROUTER : Router := (Router.subdirs (Router.delete (Router.put (Router.get Router.new (Own API_METHOD_READ_USER)) (Own API_METHOD_UPDATE_USER)) (Own API_METHOD_DELETE_USER)) USER_SUBDIRS).
Definition ROUTER : Router := (Router.match_all (Router.post (Router.get Router.new (Own API_METHOD_LIST_USERS)) (Own API_METHOD_CREATE_USER)) "userid" USER_ROUTER).
End access_users.

(** [server/src/api/access/mod.rs] *)
Module access.
Definition API_METHOD_LIST_PERMISSIONS : ApiMethod := mkApiMethod "list_permissions"
  [Prop_ "auth-id" true "Authid"; Prop_ "path" true "ACL_PATH_SCHEMA"]
  (Some (Anybody)) "Object" false.
Definition SUBDIRS : SubdirMap := sorted [("acl", ForeignRouter "proxmox_access_control::api::ACL_ROUTER");
    ("domains", access_domains.ROUTER);
    ("permissions", (Router.get Router.new (Own API_METHOD_LIST_PERMISSIONS)));
    ("roles", ForeignRouter "proxmox_access_control::api::ROLE_ROUTER");
    ("tfa", access_tfa.ROUTER);
    ("ticket", (Router.delete (Router.post Router.new (Foreign "proxmox_auth_api::api::API_METHOD_CREATE_TICKET_HTTP_ONLY")) (Foreign "proxmox_auth_api::api::API_METHOD_LOGOUT")));
    ("openid", access_openid.ROUTER);
    ("users", access_users.ROUTER)].
Definition ROUTER : Router := (Router.subdirs (Router.get Router.new (list_subdirs_api_method SUBDIRS)) SUBDIRS).
End access.
