(* ===== verification/ApiMain.v ===== *)
(** * The API tree: the rest and the root

    The methods and routers of the other files of [server/src/api/] and the root of the tree. *)

From S2P Require Import Prelude ResourceList TaskList PveGuests ApiRouter ApiPve ApiPbs ApiConfig.
#[local] Open Scope string_scope.

(** [server/src/api/nodes/certificates.rs] *)
Module nodes_certificates.
Definition API_METHOD_GET_INFO : ApiMethod := mkApiMethod "get_info"
  [Prop_ "node" false "NODE_SCHEMA"]
  (Some (Anybody)) "Array of CertificateInfo" false.
Definition API_METHOD_UPLOAD_CUSTOM_CERTIFICATE : ApiMethod := mkApiMethod "upload_custom_certificate"
  [Prop_ "node" false "NODE_SCHEMA"; Prop_ "certificates" false ""; Prop_ "key" true ""; Prop_ "restart" true "Boolean"; Prop_ "force" true "Boolean"]
  (Some (Privilege ["system"; "certificates"] PRIV_SYS_MODIFY false)) "Array of CertificateInfo" true.
Definition API_METHOD_DELETE_CUSTOM_CERTIFICATE : ApiMethod := mkApiMethod "delete_custom_certificate"
  [Prop_ "node" false "NODE_SCHEMA"; Prop_ "restart" true "Boolean"]
  (Some (Privilege ["system"; "certificates"] PRIV_SYS_MODIFY false)) "" true.
Definition API_METHOD_NEW_ACME_CERT : ApiMethod := mkApiMethod "new_acme_cert"
  [Prop_ "node" false "NODE_SCHEMA"; Prop_ "force" true "Boolean"]
  (Some (Privilege ["system"; "certificates"] PRIV_SYS_MODIFY false)) "pdm_api_types::UPID_SCHEMA" true.
Definition API_METHOD_RENEW_ACME_CERT : ApiMethod := mkApiMethod "renew_acme_cert"
  [Prop_ "node" false "NODE_SCHEMA"; Prop_ "force" true "Boolean"]
  (Some (Privilege ["system"; "certificates"] PRIV_SYS_MODIFY false)) "pdm_api_types::UPID_SCHEMA" true.
Definition API_METHOD_REVOKE_ACME_CERT : ApiMethod := mkApiMethod "revoke_acme_cert"
  [Prop_ "node" false "NODE_SCHEMA"]
  (Some (Privilege ["system"; "certificates"] PRIV_SYS_MODIFY false)) "pdm_api_types::UPID_SCHEMA" true.
Definition ACME_SUBDIRS : SubdirMap := [("certificate", (Router.put (Router.post Router.new (Own API_METHOD_NEW_ACME_CERT)) (Own API_METHOD_RENEW_ACME_CERT)))].
Definition ACME_ROUTER : Router := (Router.subdirs (Router.get Router.new (list_subdirs_api_method ACME_SUBDIRS)) ACME_SUBDIRS).
Definition SUBDIRS : SubdirMap := [("acme", ACME_ROUTER);
    ("custom", (Router.delete (Router.post Router.new (Own API_METHOD_UPLOAD_CUSTOM_CERTIFICATE)) (Own API_METHOD_DELETE_CUSTOM_CERTIFICATE)));
    ("info", (Router.get Router.new (Own API_METHOD_GET_INFO)))].
Definition ROUTER : Router := (Router.subdirs (Router.get Router.new (list_subdirs_api_method SUBDIRS)) SUBDIRS).
End nodes_certificates.

(** [server/src/api/nodes/config.rs] *)
Module nodes_config.
Definition API_METHOD_GET_NODE_CONFIG : ApiMethod := mkApiMethod "get_node_config"
  [Prop_ "node" false "NODE_SCHEMA"]
  (Some (Privilege ["system"] PRIV_SYS_AUDIT false)) "NodeConfig" false.
Definition API_METHOD_UPDATE_NODE_CONFIG : ApiMethod := mkApiMethod "update_node_config"
  [Prop_ "node" false "NODE_SCHEMA"; Prop_ "digest" true "ConfigDigest"; Flatten "NodeConfigUpdater"; Prop_ "delete" true "Array"]
  (Some (Privilege ["system"] PRIV_SYS_MODIFY false)) "" true.
Definition ROUTER : Router := (Router.put (Router.get Router.new (Own API_METHOD_GET_NODE_CONFIG)) (Own API_METHOD_UPDATE_NODE_CONFIG)).
End nodes_config.

(** [server/src/api/nodes/tasks.rs] *)
Module nodes_tasks.
Definition API_METHOD_LIST_TASKS : ApiMethod := mkApiMethod "list_tasks"
  [Prop_ "node" false "NODE_SCHEMA"; Flatten "TaskFilters"]
  (Some (Anybody)) "" false.
Definition API_METHOD_STOP_TASK : ApiMethod := mkApiMethod "stop_task"
  [Prop_ "node" false "NODE_SCHEMA"; Prop_ "upid" false "UPID"]
  (Some (Anybody)) "" true.
Definition API_METHOD_GET_TASK_STATUS : ApiMethod := mkApiMethod "get_task_status"
  [Prop_ "node" false "NODE_SCHEMA"; Prop_ "upid" false "UPID_SCHEMA"]
  (Some (Anybody)) "" false.
Definition API_METHOD_READ_TASK_LOG : ApiMethod := mkApiMethod "read_task_log"
  [Prop_ "node" false "NODE_SCHEMA"; Prop_ "upid" false "UPID_SCHEMA"; Prop_ "start" true "TASKLOG_START_PARAM_SCHEMA"; Prop_ "limit" true "TASKLOG_LIMIT_PARAM_SCHEMA"; Prop_ "download" true "TASKLOG_DOWNLOAD_PARAM_SCHEMA"; Prop_ "test-status" true "TEST_STATUS_PARAM_SCHEMA"]
  (Some (Anybody)) "" false.
Definition UPID_API_SUBDIRS : SubdirMap := sorted [("log", (Router.get Router.new (Own API_METHOD_READ_TASK_LOG)));
    ("status", (Router.get Router.new (Own API_METHOD_GET_TASK_STATUS)))].
Definition UPID_API_ROUTER : Router := (Router.subdirs (Router.delete (Router.get Router.new (list_subdirs_api_method UPID_API_SUBDIRS)) (Own API_METHOD_STOP_TASK)) UPID_API_SUBDIRS).
Definition ROUTER : Router := (Router.match_all (Router.get Router.new (Own API_METHOD_LIST_TASKS)) "upid" UPID_API_ROUTER).
End nodes_tasks.

(** [server/src/api/nodes/vncwebsocket.rs] *)
Module nodes_vncwebsocket.
Definition API_METHOD_WEBSOCKET : ApiMethod := mkApiMethod "websocket"
  [Prop_ "node" false "NODE_SCHEMA"; Prop_ "vncticket" false "String"; Prop_ "port" false "Integer"]
  (Some (Privilege ["system"] PRIV_SYS_CONSOLE false)) "" false.
Definition ROUTER : Router := (Router.upgrade Router.new (Own API_METHOD_WEBSOCKET)).
End nodes_vncwebsocket.

(** [server/src/api/nodes/mod.rs] *)
Module nodes.
Definition API_METHOD_LIST_NODES : ApiMethod := mkApiMethod "list_nodes"
  []
  None "" false.
Definition SUBDIRS : SubdirMap := sorted [("certificates", nodes_certificates.ROUTER);
    ("config", nodes_config.ROUTER);
    ("sdn", nodes_sdn.ROUTER);
    ("tasks", nodes_tasks.ROUTER)].
Definition ITEM_ROUTER : Router := (Router.subdirs (Router.get Router.new (list_subdirs_api_method SUBDIRS)) SUBDIRS).
Definition ROUTER : Router := (Router.match_all (Router.get Router.new (Own API_METHOD_LIST_NODES)) "node" ITEM_ROUTER).
End nodes.

(** [server/src/api/remotes/metric_collection.rs] *)
Module remotes_metric_collection.
Definition API_METHOD_TRIGGER_METRIC_COLLECTION : ApiMethod := mkApiMethod "trigger_metric_collection"
  [Prop_ "remote" true "REMOTE_ID_SCHEMA"]
  None "" false.
Definition API_METHOD_GET_METRIC_COLLECTION_STATUS : ApiMethod := mkApiMethod "get_metric_collection_status"
  []
  None "Array of RemoteMetricCollectionStatus" false.
Definition SUBDIRS : SubdirMap := sorted [("trigger", (Router.post Router.new (Own API_METHOD_TRIGGER_METRIC_COLLECTION)));
    ("status", (Router.get Router.new (Own API_METHOD_GET_METRIC_COLLECTION_STATUS)))].
Definition ROUTER : Router := (Router.subdirs Router.new SUBDIRS).
End remotes_metric_collection.

(** [server/src/api/remotes/tasks.rs] *)
Module remotes_tasks.
Definition API_METHOD_LIST_TASKS : ApiMethod := mkApiMethod "list_tasks"
  [Flatten "TaskFilters"; Prop_ "remote" true "REMOTE_ID_SCHEMA"; Prop_ "view" true "VIEW_ID_SCHEMA"]
  (Some (Anybody)) "Array of TaskListItem" false.
Definition API_METHOD_TASK_STATISTICS : ApiMethod := mkApiMethod "task_statistics"
  [Flatten "TaskFilters"; Prop_ "remote" true "REMOTE_ID_SCHEMA"; Prop_ "view" true "VIEW_ID_SCHEMA"]
  (Some (Anybody)) "TaskStatistics" false.
Definition API_METHOD_REFRESH_REMOTE_TASKS : ApiMethod := mkApiMethod "refresh_remote_tasks"
  [Prop_ "remotes" true "Array"]
  (Some (Anybody)) "UPID" false.
Definition SUBDIRS : SubdirMap := sorted [("list", (Router.get Router.new (Own API_METHOD_LIST_TASKS)));
    ("statistics", (Router.get Router.new (Own API_METHOD_TASK_STATISTICS)));
    ("refresh", (Router.post Router.new (Own API_METHOD_REFRESH_REMOTE_TASKS)))].
Definition ROUTER : Router := (Router.subdirs (Router.get Router.new (list_subdirs_api_method SUBDIRS)) SUBDIRS).
End remotes_tasks.

(** [server/src/api/remotes/mod.rs] *)
Module remotes.
Definition API_METHOD_LIST_REMOTES : ApiMethod := mkApiMethod "list_remotes"
  []
  (Some (Anybody)) "Array of Remote" false.
Definition API_METHOD_ADD_REMOTE : ApiMethod := mkApiMethod "add_remote"
  [Flatten "Remote"; Prop_ "create-token" true "CREATE_TOKEN_SCHEMA"]
  (Some (Privilege ["resource"] PRIV_RESOURCE_MODIFY false)) "" false.
Definition API_METHOD_UPDATE_REMOTE : ApiMethod := mkApiMethod "update_remote"
  [Prop_ "id" false "REMOTE_ID_SCHEMA"; Flatten "RemoteUpdater"; Prop_ "delete" true "Array"; Prop_ "digest" true "ConfigDigest"]
  (Some (Privilege ["resource"; "{id}"] PRIV_RESOURCE_MODIFY false)) "" false.
Definition API_METHOD_PROBE_REMOTE_CERTIFICATE : ApiMethod := mkApiMethod "probe_remote_certificate"
  [Prop_ "id" false "REMOTE_ID_SCHEMA"; Prop_ "node" false "String"]
  (Some (Privilege ["resource"; "{id}"] PRIV_RESOURCE_AUDIT false)) "" false.
Definition API_METHOD_REMOVE_REMOTE : ApiMethod := mkApiMethod "remove_remote"
  [Prop_ "id" false "REMOTE_ID_SCHEMA"; Prop_ "delete-token" true ""]
  (Some (Privilege ["resource"] PRIV_RESOURCE_MODIFY false)) "" false.
Definition API_METHOD_VERSION : ApiMethod := mkApiMethod "version"
  [Prop_ "id" false "REMOTE_ID_SCHEMA"]
  (Some (Privilege ["resource"; "{id}"] PRIV_RESOURCE_AUDIT false)) "pve_api_types::VersionResponse" false.
Definition API_METHOD_REMOTE_CONFIG : ApiMethod := mkApiMethod "remote_config"
  [Prop_ "id" false "REMOTE_ID_SCHEMA"]
  (Some (Privilege ["resource"; "{id}"] PRIV_RESOURCE_AUDIT false)) "Remote" false.
Definition API_METHOD_GET_PER_REMOTE_RRD_DATA : ApiMethod := mkApiMethod "get_per_remote_rrd_data"
  [Prop_ "id" false "REMOTE_ID_SCHEMA"; Prop_ "timeframe" false "RrdTimeframe"; Prop_ "cf" false "RrdMode"]
  None "Array of RemoteDatapoint" false.
Definition REMOTE_SUBDIRS : SubdirMap := sorted [("config", (Router.get Router.new (Own API_METHOD_REMOTE_CONFIG)));
    ("version", (Router.get Router.new (Own API_METHOD_VERSION)));
    ("probe-certificate", (Router.post Router.new (Own API_METHOD_PROBE_REMOTE_CERTIFICATE)));
    ("rrddata", (Router.get Router.new (Own API_METHOD_GET_PER_REMOTE_RRD_DATA)))].
Definition ITEM_ROUTER : Router := (Router.subdirs (Router.get (Router.delete (Router.put Router.new (Own API_METHOD_UPDATE_REMOTE)) (Own API_METHOD_REMOVE_REMOTE)) (list_subdirs_api_method REMOTE_SUBDIRS)) REMOTE_SUBDIRS).
Definition REMOTE_ROUTER : Router := (Router.match_all (Router.post (Router.get Router.new (Own API_METHOD_LIST_REMOTES)) (Own API_METHOD_ADD_REMOTE)) "id" ITEM_ROUTER).
Definition SUBDIRS : SubdirMap := sorted [("remote", REMOTE_ROUTER);
    ("updates", remotes_updates.ROUTER);
    ("tasks", remotes_tasks.ROUTER);
    ("metric-collection", remotes_metric_collection.ROUTER)].
Definition ROUTER : Router := (Router.subdirs (Router.get Router.new (list_subdirs_api_method SUBDIRS)) SUBDIRS).
End remotes.

(** [server/src/api/resources.rs] *)
Module resources.
Definition API_METHOD_GET_RESOURCES : ApiMethod := mkApiMethod "get_resources"
  [Prop_ "max-age" true ""; Prop_ "search" true ""; Prop_ "resource-type" true "ResourceType"; Prop_ "view" true "VIEW_ID_SCHEMA"]
  (Some (Anybody)) "Array of RemoteResources" false.
Definition API_METHOD_GET_STATUS : ApiMethod := mkApiMethod "get_status"
  [Prop_ "max-age" true ""; Prop_ "view" true "VIEW_ID_SCHEMA"]
  (Some (Anybody)) "RemoteResources" false.
Definition API_METHOD_GET_SUBSCRIPTION_STATUS : ApiMethod := mkApiMethod "get_subscription_status"
  [Prop_ "max-age" true ""; Prop_ "verbose" true "bool"; Prop_ "view" true "VIEW_ID_SCHEMA"]
  (Some (Anybody)) "Array of RemoteSubscriptions" false.
Definition API_METHOD_GET_TOP_ENTITIES : ApiMethod := mkApiMethod "get_top_entities"
  [Prop_ "timeframe" true "RrdTimeframe"; Prop_ "view" true "VIEW_ID_SCHEMA"]
  (Some (Anybody)) "TopEntities" false.
Definition API_METHOD_GET_LOCATION_INFO : ApiMethod := mkApiMethod "get_location_info"
  [Prop_ "max-age" true ""; Prop_ "view" true "VIEW_ID_SCHEMA"]
  (Some (Anybody)) "" false.
Definition SUBDIRS : SubdirMap := sorted [("list", (Router.get Router.new (Own API_METHOD_GET_RESOURCES)));
    ("location-info", (Router.get Router.new (Own API_METHOD_GET_LOCATION_INFO)));
    ("status", (Router.get Router.new (Own API_METHOD_GET_STATUS)));
    ("top-entities", (Router.get Router.new (Own API_METHOD_GET_TOP_ENTITIES)));
    ("subscription", (Router.get Router.new (Own API_METHOD_GET_SUBSCRIPTION_STATUS)))].
Definition ROUTER : Router := (Router.subdirs (Router.get Router.new (list_subdirs_api_method SUBDIRS)) SUBDIRS).
End resources.

(** [server/src/api/sdn/controllers.rs] *)
Module sdn_controllers.
Definition API_METHOD_LIST_CONTROLLERS : ApiMethod := mkApiMethod "list_controllers"
  [Prop_ "pending" true "Boolean"; Prop_ "running" true "Boolean"; Prop_ "ty" true "ListControllersType"; Prop_ "remotes" true "Array"]
  (Some (Anybody)) "Array of ListController" false.
Definition ROUTER : Router := (Router.get Router.new (Own API_METHOD_LIST_CONTROLLERS)).
End sdn_controllers.

(** [server/src/api/sdn/vnets.rs] *)
Module sdn_vnets.
Definition API_METHOD_LIST_VNETS : ApiMethod := mkApiMethod "list_vnets"
  [Prop_ "pending" true "Boolean"; Prop_ "running" true "Boolean"; Prop_ "remotes" true "Array"]
  (Some (Anybody)) "Array of ListVnet" false.
Definition API_METHOD_CREATE_VNET : ApiMethod := mkApiMethod "create_vnet"
  [Prop_ "vnet" false "SDN_ID_SCHEMA"; Prop_ "tag" true "VXLAN_ID_SCHEMA"; Prop_ "remotes" false "Array"]
  None "pdm_api_types::UPID_SCHEMA" false.
Definition ROUTER : Router := (Router.post (Router.get Router.new (Own API_METHOD_LIST_VNETS)) (Own API_METHOD_CREATE_VNET)).
End sdn_vnets.

(** [server/src/api/sdn/zones.rs] *)
Module sdn_zones.
Definition API_METHOD_LIST_ZONES : ApiMethod := mkApiMethod "list_zones"
  [Prop_ "pending" true "Boolean"; Prop_ "running" true "Boolean"; Prop_ "ty" true "ListZonesType"; Prop_ "remotes" true "Array"]
  (Some (Anybody)) "Array of ListZone" false.
Definition API_METHOD_CREATE_ZONE : ApiMethod := mkApiMethod "create_zone"
  [Prop_ "zone" false "SDN_ID_SCHEMA"; Prop_ "vrf-vxlan" true "VXLAN_ID_SCHEMA"; Prop_ "remotes" false "Array"]
  None "pdm_api_types::UPID_SCHEMA" false.
Definition ROUTER : Router := (Router.post (Router.get Router.new (Own API_METHOD_LIST_ZONES)) (Own API_METHOD_CREATE_ZONE)).
End sdn_zones.

(** [server/src/api/sdn/mod.rs] *)
Module sdn.
Definition SUBDIRS : SubdirMap := sorted [("controllers", sdn_controllers.ROUTER);
    ("vnets", sdn_vnets.ROUTER);
    ("zones", sdn_zones.ROUTER)].
Definition ROUTER : Router := (Router.subdirs (Router.get Router.new (list_subdirs_api_method SUBDIRS)) SUBDIRS).
End sdn.

(** [server/src/api/subscriptions/mod.rs] *)
Module subscriptions.
Definition API_METHOD_LIST_KEYS : ApiMethod := mkApiMethod "list_keys"
  []
  (Some (Privilege ["system"] PRIV_SYS_AUDIT false)) "Array of SubscriptionKeyEntry" false.
Definition API_METHOD_ADD_KEYS : ApiMethod := mkApiMethod "add_keys"
  [Prop_ "keys" false "Array"; Prop_ "digest" true "ConfigDigest"]
  (Some (Privilege ["system"] PRIV_SYS_MODIFY false)) "AddKeysResult" false.
Definition API_METHOD_GET_KEY : ApiMethod := mkApiMethod "get_key"
  [Prop_ "key" false "SUBSCRIPTION_KEY_SCHEMA"]
  (Some (Privilege ["system"] PRIV_SYS_AUDIT false)) "SubscriptionKeyEntry" false.
Definition API_METHOD_DELETE_KEY : ApiMethod := mkApiMethod "delete_key"
  [Prop_ "key" false "SUBSCRIPTION_KEY_SCHEMA"; Prop_ "digest" true "ConfigDigest"]
  (Some (Privilege ["system"] PRIV_SYS_MODIFY false)) "" true.
Definition API_METHOD_SET_ASSIGNMENT : ApiMethod := mkApiMethod "set_assignment"
  [Prop_ "key" false "SUBSCRIPTION_KEY_SCHEMA"; Prop_ "remote" false "REMOTE_ID_SCHEMA"; Prop_ "node" false "NODE_SCHEMA"; Prop_ "digest" true "ConfigDigest"]
  (Some (Privilege ["system"] PRIV_SYS_MODIFY false)) "" false.
Definition API_METHOD_CLEAR_ASSIGNMENT : ApiMethod := mkApiMethod "clear_assignment"
  [Prop_ "key" false "SUBSCRIPTION_KEY_SCHEMA"; Prop_ "digest" true "ConfigDigest"]
  (Some (Privilege ["system"] PRIV_SYS_MODIFY false)) "" false.
Definition API_METHOD_QUEUE_CLEAR : ApiMethod := mkApiMethod "queue_clear"
  [Prop_ "remote" false "REMOTE_ID_SCHEMA"; Prop_ "node" false "NODE_SCHEMA"; Prop_ "digest" true "ConfigDigest"]
  (Some (Privilege ["system"] PRIV_SYS_MODIFY false)) "" false.
Definition API_METHOD_REVERT_PENDING_CLEAR : ApiMethod := mkApiMethod "revert_pending_clear"
  [Prop_ "remote" false "REMOTE_ID_SCHEMA"; Prop_ "node" false "NODE_SCHEMA"; Prop_ "digest" true "ConfigDigest"]
  (Some (Privilege ["system"] PRIV_SYS_MODIFY false)) "" false.
Definition API_METHOD_CHECK_SUBSCRIPTION : ApiMethod := mkApiMethod "check_subscription"
  [Prop_ "remote" false "REMOTE_ID_SCHEMA"; Prop_ "node" false "NODE_SCHEMA"]
  (Some (Privilege ["system"] PRIV_SYS_MODIFY false)) "" false.
Definition API_METHOD_ADOPT_KEY : ApiMethod := mkApiMethod "adopt_key"
  [Prop_ "remote" false "REMOTE_ID_SCHEMA"; Prop_ "node" false "NODE_SCHEMA"; Prop_ "digest" true "ConfigDigest"]
  (Some (Privilege ["system"] PRIV_SYS_MODIFY false)) "" false.
Definition API_METHOD_ADOPT_ALL : ApiMethod := mkApiMethod "adopt_all"
  [Prop_ "digest" true "ConfigDigest"]
  (Some (Privilege ["system"] PRIV_SYS_MODIFY false)) "Array of AdoptedEntry" false.
Definition API_METHOD_NODE_STATUS : ApiMethod := mkApiMethod "node_status"
  [Prop_ "max-age" true "u64"]
  (Some (Privilege ["system"] PRIV_SYS_AUDIT false)) "Array of RemoteNodeStatus" false.
Definition API_METHOD_AUTO_ASSIGN : ApiMethod := mkApiMethod "auto_assign"
  []
  (Some (Privilege ["system"] PRIV_SYS_MODIFY false)) "AutoAssignProposal" false.
Definition API_METHOD_BULK_ASSIGN : ApiMethod := mkApiMethod "bulk_assign"
  [Prop_ "proposal" false "AutoAssignProposal"]
  (Some (Privilege ["system"] PRIV_SYS_MODIFY false)) "Array of ProposedAssignment" false.
Definition API_METHOD_APPLY_PENDING : ApiMethod := mkApiMethod "apply_pending"
  [Prop_ "digest" true "ConfigDigest"]
  (Some (Privilege ["system"] PRIV_SYS_MODIFY false)) "pdm_api_types::UPID_SCHEMA" false.
Definition API_METHOD_CLEAR_PENDING : ApiMethod := mkApiMethod "clear_pending"
  [Prop_ "digest" true "ConfigDigest"]
  (Some (Privilege ["system"] PRIV_SYS_MODIFY false)) "ClearPendingResult" false.
Definition ASSIGNMENT_ROUTER : Router := (Router.delete (Router.post Router.new (Own API_METHOD_SET_ASSIGNMENT)) (Own API_METHOD_CLEAR_ASSIGNMENT)).
Definition KEY_ITEM_SUBDIRS : SubdirMap := [("assignment", ASSIGNMENT_ROUTER)].
Definition KEY_ITEM_ROUTER : Router := (Router.subdirs (Router.delete (Router.get Router.new (Own API_METHOD_GET_KEY)) (Own API_METHOD_DELETE_KEY)) KEY_ITEM_SUBDIRS).
Definition KEYS_ROUTER : Router := (Router.match_all (Router.post (Router.get Router.new (Own API_METHOD_LIST_KEYS)) (Own API_METHOD_ADD_KEYS)) "key" KEY_ITEM_ROUTER).
Definition SUBDIRS : SubdirMap := sorted [("adopt-all", (Router.post Router.new (Own API_METHOD_ADOPT_ALL)));
    ("adopt-key", (Router.post Router.new (Own API_METHOD_ADOPT_KEY)));
    ("apply-pending", (Router.post Router.new (Own API_METHOD_APPLY_PENDING)));
    ("auto-assign", (Router.post Router.new (Own API_METHOD_AUTO_ASSIGN)));
    ("bulk-assign", (Router.post Router.new (Own API_METHOD_BULK_ASSIGN)));
    ("check", (Router.post Router.new (Own API_METHOD_CHECK_SUBSCRIPTION)));
    ("clear-pending", (Router.post Router.new (Own API_METHOD_CLEAR_PENDING)));
    ("keys", KEYS_ROUTER);
    ("node-status", (Router.get Router.new (Own API_METHOD_NODE_STATUS)));
    ("queue-clear", (Router.post Router.new (Own API_METHOD_QUEUE_CLEAR)));
    ("revert-pending-clear", (Router.post Router.new (Own API_METHOD_REVERT_PENDING_CLEAR)))].
Definition ROUTER : Router := (Router.subdirs (Router.get Router.new (list_subdirs_api_method SUBDIRS)) SUBDIRS).
End subscriptions.

(** [server/src/api/backup_jobs.rs] *)
Module backup_jobs.
Definition API_METHOD_LIST_BACKUP_JOBS : ApiMethod := mkApiMethod "list_backup_jobs"
  []
  (Some (Privilege ["resource"] PRIV_RESOURCE_AUDIT false)) "Array of BackupJobConfig" false.
Definition API_METHOD_READ_BACKUP_JOB : ApiMethod := mkApiMethod "read_backup_job"
  [Prop_ "id" false "BACKUP_JOB_ID_SCHEMA"]
  (Some (Privilege ["resource"] PRIV_RESOURCE_AUDIT false)) "BackupJobConfig" false.
Definition API_METHOD_CREATE_BACKUP_JOB : ApiMethod := mkApiMethod "create_backup_job"
  [Flatten "BackupJobConfig"]
  (Some (Privilege ["resource"] PRIV_RESOURCE_MANAGE false)) "" false.
Definition API_METHOD_UPDATE_BACKUP_JOB : ApiMethod := mkApiMethod "update_backup_job"
  [Prop_ "id" false "BACKUP_JOB_ID_SCHEMA"; Flatten "BackupJobConfigUpdater"; Prop_ "delete" true "Array"; Prop_ "digest" true "ConfigDigest"]
  (Some (Privilege ["resource"] PRIV_RESOURCE_MANAGE false)) "" false.
Definition API_METHOD_DELETE_BACKUP_JOB : ApiMethod := mkApiMethod "delete_backup_job"
  [Prop_ "id" false "BACKUP_JOB_ID_SCHEMA"; Prop_ "digest" true "ConfigDigest"]
  (Some (Privilege ["resource"] PRIV_RESOURCE_MANAGE false)) "" false.
Definition API_METHOD_BACKUP_JOB_STATUS : ApiMethod := mkApiMethod "backup_job_status"
  [Prop_ "id" false "BACKUP_JOB_ID_SCHEMA"]
  (Some (Privilege ["resource"] PRIV_RESOURCE_AUDIT false)) "Array of BackupJobRemoteStatus" false.
Definition API_METHOD_SYNC_BACKUP_JOB : ApiMethod := mkApiMethod "sync_backup_job"
  [Prop_ "id" false "BACKUP_JOB_ID_SCHEMA"]
  (Some (Privilege ["resource"] PRIV_RESOURCE_MANAGE false)) "Array of BackupJobRemoteStatus" false.
Definition API_METHOD_RUN_BACKUP_JOB : ApiMethod := mkApiMethod "run_backup_job"
  [Prop_ "id" false "BACKUP_JOB_ID_SCHEMA"]
  (Some (Privilege ["resource"] PRIV_RESOURCE_MANAGE false)) "Array of RemoteUpid" false.
Definition ITEM_SUBDIRS : SubdirMap := sorted [("config", (Router.get Router.new (Own API_METHOD_READ_BACKUP_JOB)));
    ("run", (Router.post Router.new (Own API_METHOD_RUN_BACKUP_JOB)));
    ("status", (Router.get Router.new (Own API_METHOD_BACKUP_JOB_STATUS)));
    ("sync", (Router.post Router.new (Own API_METHOD_SYNC_BACKUP_JOB)))].
Definition ITEM_ROUTER : Router := (Router.subdirs (Router.put (Router.delete (Router.get Router.new (list_subdirs_api_method ITEM_SUBDIRS)) (Own API_METHOD_DELETE_BACKUP_JOB)) (Own API_METHOD_UPDATE_BACKUP_JOB)) ITEM_SUBDIRS).
Definition ROUTER : Router := (Router.match_all (Router.post (Router.get Router.new (Own API_METHOD_LIST_BACKUP_JOBS)) (Own API_METHOD_CREATE_BACKUP_JOB)) "id" ITEM_ROUTER).
End backup_jobs.

(** [server/src/api/auto_installer/mod.rs] *)
Module auto_installer.
Definition API_METHOD_LIST_INSTALLATIONS : ApiMethod := mkApiMethod "list_installations"
  []
  (Some (Privilege ["system"; "auto-installation"] PRIV_SYS_AUDIT false)) "Array of Installation" false.
Definition API_METHOD_DELETE_INSTALLATION : ApiMethod := mkApiMethod "delete_installation"
  [Prop_ "uuid" false "INSTALLATION_UUID_SCHEMA"]
  (Some (Privilege ["system"; "auto-installation"] PRIV_SYS_MODIFY false)) "" false.
Definition API_METHOD_LIST_PREPARED_ANSWERS : ApiMethod := mkApiMethod "list_prepared_answers"
  []
  (Some (Privilege ["system"; "auto-installation"] PRIV_SYS_AUDIT false)) "Array of PreparedInstallationConfig" false.
Definition API_METHOD_CREATE_PREPARED_ANSWER : ApiMethod := mkApiMethod "create_prepared_answer"
  [Flatten "PreparedInstallationConfig"; Prop_ "root-password" true "ROOT_PASSWORD_SCHEMA"]
  (Some (Privilege ["system"; "auto-installation"] PRIV_SYS_MODIFY false)) "PreparedInstallationConfigCreateResult" false.
Definition API_METHOD_GET_PREPARED_ANSWER : ApiMethod := mkApiMethod "get_prepared_answer"
  [Prop_ "id" false "PREPARED_INSTALL_CONFIG_ID_SCHEMA"]
  (Some (Privilege ["system"; "auto-installation"] PRIV_SYS_AUDIT false)) "" false.
Definition API_METHOD_UPDATE_PREPARED_ANSWER : ApiMethod := mkApiMethod "update_prepared_answer"
  [Prop_ "id" false "PREPARED_INSTALL_CONFIG_ID_SCHEMA"; Flatten "PreparedInstallationConfigUpdater"; Prop_ "root-password" true "ROOT_PASSWORD_SCHEMA"; Prop_ "delete" true "Array"; Prop_ "digest" true "PROXMOX_CONFIG_DIGEST_SCHEMA"]
  (Some (Privilege ["system"; "auto-installation"] PRIV_SYS_MODIFY false)) "PreparedInstallationConfigCreateResult" false.
Definition API_METHOD_DELETE_PREPARED_ANSWER : ApiMethod := mkApiMethod "delete_prepared_answer"
  [Prop_ "id" false "PREPARED_INSTALL_CONFIG_ID_SCHEMA"]
  (Some (Privilege ["system"; "auto-installation"] PRIV_SYS_MODIFY false)) "" false.
Definition API_METHOD_HANDLE_POST_HOOK : ApiMethod := mkApiMethod "handle_post_hook"
  [Prop_ "uuid" false "INSTALLATION_UUID_SCHEMA"; Prop_ "token" false "String"; Flatten "PostHookInfo"]
  (Some (World)) "" false.
Definition API_METHOD_LIST_TOKENS : ApiMethod := mkApiMethod "list_tokens"
  []
  (Some (Privilege ["system"; "auto-installation"] PRIV_SYS_AUDIT false)) "Array of AnswerToken" false.
Definition API_METHOD_CREATE_TOKEN : ApiMethod := mkApiMethod "create_token"
  [Prop_ "id" false "PROXMOX_TOKEN_NAME_SCHEMA"; Prop_ "comment" true "COMMENT_SCHEMA"; Prop_ "enabled" true "bool"; Prop_ "expire-at" true "Integer"]
  (Some (Privilege ["system"; "auto-installation"] PRIV_SYS_MODIFY false)) "AnswerTokenCreateResult" true.
Definition API_METHOD_UPDATE_TOKEN : ApiMethod := mkApiMethod "update_token"
  [Prop_ "id" false "PROXMOX_TOKEN_NAME_SCHEMA"; Flatten "AnswerTokenUpdater"; Prop_ "delete" true "Array"; Prop_ "regenerate-secret" true "bool"; Prop_ "digest" true "ConfigDigest"]
  (Some (Privilege ["system"; "auto-installation"] PRIV_SYS_MODIFY false)) "AnswerTokenUpdateResult" true.
Definition API_METHOD_DELETE_TOKEN : ApiMethod := mkApiMethod "delete_token"
  [Prop_ "id" false "PROXMOX_TOKEN_NAME_SCHEMA"]
  (Some (Privilege ["system"; "auto-installation"] PRIV_SYS_MODIFY false)) "" true.
Definition API_METHOD_NEW_INSTALLATION : ApiMethod := mkApiMethod "new_installation"
  [Flatten "AnswerFetchData"]
  (Some (World)) "AutoInstallerConfig" false.
Definition SUBDIR_INSTALLATION_PER_ID : SubdirMap := sorted [("post-hook", (Router.post Router.new (Own API_METHOD_HANDLE_POST_HOOK)))].
Definition SUBDIRS : SubdirMap := sorted [("answer", (Router.post Router.new (Own API_METHOD_NEW_INSTALLATION)));
    ("installations", (Router.match_all (Router.get Router.new (Own API_METHOD_LIST_INSTALLATIONS)) "uuid" (Router.subdirs (Router.delete Router.new (Own API_METHOD_DELETE_INSTALLATION)) SUBDIR_INSTALLATION_PER_ID)));
    ("prepared", (Router.match_all (Router.post (Router.get Router.new (Own API_METHOD_LIST_PREPARED_ANSWERS)) (Own API_METHOD_CREATE_PREPARED_ANSWER)) "id" (Router.delete (Router.put (Router.get Router.new (Own API_METHOD_GET_PREPARED_ANSWER)) (Own API_METHOD_UPDATE_PREPARED_ANSWER)) (Own API_METHOD_DELETE_PREPARED_ANSWER))));
    ("tokens", (Router.match_all (Router.post (Router.get Router.new (Own API_METHOD_LIST_TOKENS)) (Own API_METHOD_CREATE_TOKEN)) "id" (Router.delete (Router.put Router.new (Own API_METHOD_UPDATE_TOKEN)) (Own API_METHOD_DELETE_TOKEN))))].
Definition ROUTER : Router := (Router.subdirs (Router.get Router.new (list_subdirs_api_method SUBDIRS)) SUBDIRS).
End auto_installer.

(** [server/src/api/ceph/clusters.rs] *)
Module ceph_clusters.
Definition API_METHOD_LIST_CLUSTERS : ApiMethod := mkApiMethod "list_clusters"
  []
  (Some (Anybody)) "Array of CephClusterListEntry" false.
Definition API_METHOD_GET_STATUS : ApiMethod := mkApiMethod "get_status"
  [Prop_ "cluster" false "CEPH_CLUSTER_ID_SCHEMA"; Prop_ "max-age" true "Integer"]
  (Some (Anybody)) "Object" false.
Definition API_METHOD_GET_SUMMARY : ApiMethod := mkApiMethod "get_summary"
  [Prop_ "cluster" false "CEPH_CLUSTER_ID_SCHEMA"; Prop_ "max-age" true "Integer"]
  (Some (Anybody)) "CephClusterStatus" false.
Definition API_METHOD_LIST_FLAGS : ApiMethod := mkApiMethod "list_flags"
  [Prop_ "cluster" false "CEPH_CLUSTER_ID_SCHEMA"]
  (Some (Anybody)) "Array of CephFlagInfo" false.
Definition API_METHOD_LIST_MON : ApiMethod := mkApiMethod "list_mon"
  [Prop_ "cluster" false "CEPH_CLUSTER_ID_SCHEMA"]
  (Some (Anybody)) "Array of CephMon" false.
Definition API_METHOD_LIST_MGR : ApiMethod := mkApiMethod "list_mgr"
  [Prop_ "cluster" false "CEPH_CLUSTER_ID_SCHEMA"]
  (Some (Anybody)) "Array of CephMgr" false.
Definition API_METHOD_LIST_MDS : ApiMethod := mkApiMethod "list_mds"
  [Prop_ "cluster" false "CEPH_CLUSTER_ID_SCHEMA"]
  (Some (Anybody)) "Array of CephMds" false.
Definition API_METHOD_LIST_FS : ApiMethod := mkApiMethod "list_fs"
  [Prop_ "cluster" false "CEPH_CLUSTER_ID_SCHEMA"]
  (Some (Anybody)) "Array of CephFs" false.
Definition API_METHOD_LIST_POOLS : ApiMethod := mkApiMethod "list_pools"
  [Prop_ "cluster" false "CEPH_CLUSTER_ID_SCHEMA"]
  (Some (Anybody)) "Array of CephPool" false.
Definition API_METHOD_GET_OSD_TREE : ApiMethod := mkApiMethod "get_osd_tree"
  [Prop_ "cluster" false "CEPH_CLUSTER_ID_SCHEMA"]
  (Some (Anybody)) "Object" false.
Definition CLUSTER_SUBDIRS : SubdirMap := sorted [("flags", (Router.get Router.new (Own API_METHOD_LIST_FLAGS)));
    ("fs", (Router.get Router.new (Own API_METHOD_LIST_FS)));
    ("mds", (Router.get Router.new (Own API_METHOD_LIST_MDS)));
    ("mgr", (Router.get Router.new (Own API_METHOD_LIST_MGR)));
    ("mon", (Router.get Router.new (Own API_METHOD_LIST_MON)));
    ("osd-tree", (Router.get Router.new (Own API_METHOD_GET_OSD_TREE)));
    ("pools", (Router.get Router.new (Own API_METHOD_LIST_POOLS)));
    ("status", (Router.get Router.new (Own API_METHOD_GET_STATUS)));
    ("summary", (Router.get Router.new (Own API_METHOD_GET_SUMMARY)))].
Definition CLUSTER_ROUTER : Router := (Router.subdirs (Router.get Router.new (list_subdirs_api_method CLUSTER_SUBDIRS)) CLUSTER_SUBDIRS).
Definition ROUTER : Router := (Router.match_all (Router.get Router.new (Own API_METHOD_LIST_CLUSTERS)) "cluster" CLUSTER_ROUTER).
End ceph_clusters.

(** [server/src/api/ceph/mod.rs] *)
Module ceph.
Definition SUBDIRS : SubdirMap := sorted [("clusters", ceph_clusters.ROUTER)].
Definition ROUTER : Router := (Router.subdirs (Router.get Router.new (list_subdirs_api_method SUBDIRS)) SUBDIRS).
End ceph.

(** [server/src/api/update.rs] *)
Module update.
Definition API_METHOD_GET_UPDATE_STATUS : ApiMethod := mkApiMethod "get_update_status"
  []
  (Some (Privilege ["system"] PRIV_SYS_AUDIT false)) "ImageUpdateStatus" false.
Definition ROUTER : Router := (Router.get Router.new (Own API_METHOD_GET_UPDATE_STATUS)).
End update.

(** [server/src/api/mod.rs] *)
Module root.
Definition API_METHOD_PING : ApiMethod := mkApiMethod "ping"
  []
  (Some (World)) "String" false.
Definition API_METHOD_VERSION : ApiMethod := mkApiMethod "version"
  []
  (Some (Anybody)) "Object" false.
Definition SUBDIRS : SubdirMap := sorted [("access", access.ROUTER);
    ("auto-install", auto_installer.ROUTER);
    ("backup-jobs", backup_jobs.ROUTER);
    ("ceph", ceph.ROUTER);
    ("config", config.ROUTER);
    ("ping", (Router.get Router.new (Own API_METHOD_PING)));
    ("pve", pve.ROUTER);
    ("pbs", pbs.ROUTER);
    ("remotes", remotes.ROUTER);
    ("resources", resources.ROUTER);
    ("nodes", nodes.ROUTER);
    ("sdn", sdn.ROUTER);
    ("subscriptions", subscriptions.ROUTER);
    ("update-status", update.ROUTER);
    ("version", (Router.get Router.new (Own API_METHOD_VERSION)))].
Definition ROUTER : Router := (Router.subdirs (Router.get Router.new (list_subdirs_api_method SUBDIRS)) SUBDIRS).
End root.
