(* ===== verification/ApiTree.v ===== *)
(** * The API tree as a whole

    What the trees of [ApiPve], [ApiPbs], [ApiConfig] and [ApiMain] amount to, from the
    root [server/src/api/mod.rs]: the endpoints, how a request finds its handler and which
    permission it needs.  Finding the router and checking the permission are functions of
    the crate [proxmox_router]; they are the parameters of [RouteFinder] and
    [PermissionCheck], with their documented behaviour as laws. *)

From S2P Require Import Prelude ResourceList TaskList PveGuests ApiRouter ApiPve ApiPbs ApiConfig ApiMain.
#[local] Open Scope string_scope.
#[local] Open Scope list_scope.

(** ** Endpoints *)

Inductive segment : Type := Lit (name : string) | Param (name : string).
#[export] Instance segment_eq_dec : EqDecision segment.
Proof. solve_decision. Defined.

Record endpoint : Type := mkEndpoint { ep_route : list segment; ep_verb : verb; ep_handler : handler }.
Definition below (s : segment) (e : endpoint) : endpoint := mkEndpoint (s :: ep_route e) (ep_verb e) (ep_handler e).

Fixpoint endpoints (r : Router) : list endpoint :=
  match r with
  | ForeignRouter _ => []
  | mkRouter methods sub =>
      ((λ m, mkEndpoint [] m.1 m.2) <$> methods) ++
      match sub with
      | NoSub => []
      | Hash dirs => flat_map (λ d, below (Lit d.1) <$> endpoints d.2) dirs
      | MatchAll p r => below (Param p) <$> endpoints r
      end
  end.

(** The parameters of a route, and the path it stands for. *)
Definition params (route : list segment) : list string :=
  omap (λ s, match s with Param p => Some p | Lit _ => None end) route.
Fixpoint instantiate (route : list segment) (args : list string) : list string :=
  match route, args with
  | [], _ => []
  | Lit name :: route, _ => name :: instantiate route args
  | Param _ :: route, arg :: args => arg :: instantiate route args
  | Param _ :: _, [] => []
  end.

Fixpoint lookup_verb (v : verb) (methods : list (verb * handler)) : option handler :=
  match methods with
  | [] => None
  | (v', h) :: methods => if decide (v = v') then Some h else lookup_verb v methods
  end.
Definition handler_for (v : verb) (r : Router) : option handler :=
  match r with mkRouter methods _ => lookup_verb v methods | ForeignRouter _ => None end.

Fixpoint lookup_dir (name : string) (dirs : SubdirMap) : option Router :=
  match dirs with
  | [] => None
  | (name', r) :: dirs => if decide (name = name') then Some r else lookup_dir name dirs
  end.

(** A router at which no method hides another: one handler per verb, and distinct names. *)
Fixpoint well_formed (r : Router) : bool :=
  match r with
  | ForeignRouter _ => true
  | mkRouter methods sub =>
      bool_decide (NoDup methods.*1) &&
      match sub with
      | NoSub => true
      | Hash dirs => bool_decide (NoDup dirs.*1) && forallb (λ d, well_formed d.2) dirs
      | MatchAll _ r => well_formed r
      end
  end.

(** ** Finding the router of a request *)

(** [Router::find_route] of [proxmox_router], with the parameters that it binds. *)
Class RouteFinder (find_route : Router → list string → option (Router * list (string * string))) : Prop := {
  route_here r : find_route r [] = Some (r, []);
  route_nosub methods c path : find_route (mkRouter methods NoSub) (c :: path) = None;
  route_hash methods dirs c path :
    find_route (mkRouter methods (Hash dirs)) (c :: path) = lookup_dir c dirs ≫= (λ r, find_route r path);
  route_match methods p r c path :
    find_route (mkRouter methods (MatchAll p r)) (c :: path) = prod_map id (cons (p, c)) <$> find_route r path;
}.

Fixpoint walk (r : Router) (path : list string) : option (Router * list (string * string)) :=
  match path with
  | [] => Some (r, [])
  | c :: path =>
      match r with
      | mkRouter _ (Hash dirs) => lookup_dir c dirs ≫= (λ r, walk r path)
      | mkRouter _ (MatchAll p r) => prod_map id (cons (p, c)) <$> walk r path
      | _ => None
      end
  end.
#[export] Instance walk_route_finder : RouteFinder walk.
Proof. by split. Qed.

Lemma Router_ind' (P : Router → Prop) :
  (∀ name, P (ForeignRouter name)) → (∀ methods, P (mkRouter methods NoSub)) →
  (∀ methods dirs, Forall (λ d, P d.2) dirs → P (mkRouter methods (Hash dirs))) →
  (∀ methods p r, P r → P (mkRouter methods (MatchAll p r))) → ∀ r, P r.
Proof.
  intros HF HN HH HM. fix IH 1. intros [name|methods [|dirs|p r]]; [apply HF|apply HN| |apply HM, IH].
  apply HH. revert dirs. fix IHl 1. intros [|d dirs]; constructor; [apply IH|apply IHl].
Qed.

Lemma lookup_verb_NoDup v h methods : NoDup methods.*1 → (v, h) ∈ methods → lookup_verb v methods = Some h.
Proof.
  induction methods as [|[v' h'] methods IH]; cbn; [by rewrite elem_of_nil|].
  intros [Hv Hnd]%NoDup_cons [?|Hin]%elem_of_cons; simplify_eq; [by rewrite decide_True|].
  rewrite decide_False; [by auto|]. intros ->. apply Hv, list_elem_of_fmap. by exists (v', h).
Qed.
Lemma lookup_dir_NoDup name r dirs : NoDup dirs.*1 → (name, r) ∈ dirs → lookup_dir name dirs = Some r.
Proof.
  induction dirs as [|[n' r'] dirs IH]; cbn; [by rewrite elem_of_nil|].
  intros [Hv Hnd]%NoDup_cons [?|Hin]%elem_of_cons; simplify_eq; [by rewrite decide_True|].
  rewrite decide_False; [by auto|]. intros ->. apply Hv, list_elem_of_fmap. by exists (n', r).
Qed.

Section routes.
Context {find_route} `{HF : !RouteFinder find_route}.

Lemma walk_find_route r path x : walk r path = Some x → find_route r path = Some x.
Proof using HF.
  revert r x. induction path as [|c path IH]; intros r x Hw; [by rewrite route_here|].
  destruct r as [name|methods [|dirs|p r]]; cbn in Hw; [done..| |].
  - rewrite route_hash. destruct (lookup_dir c dirs) as [r|]; [|done]. by apply IH.
  - rewrite route_match. destruct (walk r path) as [y|] eqn:Hy; [|done]. by rewrite (IH _ _ Hy).
Qed.

Lemma endpoint_found r e args :
  well_formed r → e ∈ endpoints r → length args = length (params (ep_route e)) →
  ∃ r', find_route r (instantiate (ep_route e) args) = Some (r', zip (params (ep_route e)) args) ∧
        handler_for (ep_verb e) r' = Some (ep_handler e).
Proof using HF.
  revert e args. induction r as [name|methods|methods dirs IH|methods p r IH] using Router_ind'; intros e args Hwf He Hargs;
    cbn in Hwf, He; [by apply elem_of_nil in He|..];
    apply andb_prop_elim in Hwf as [Hnd%bool_decide_unpack Hsub];
    (apply elem_of_app in He as [([v h] & -> & Hin)%list_elem_of_fmap|He];
      [destruct args; [|done]; eexists; split; [apply route_here|by apply lookup_verb_NoDup]|]);
    [by apply elem_of_nil in He|..].
  - apply andb_prop_elim in Hsub as [Hdirs%bool_decide_unpack Hall].
    apply list_elem_of_In, in_flat_map in He as ([name r] & Hr%list_elem_of_In & He%list_elem_of_In).
    apply list_elem_of_fmap in He as (e' & -> & He'). cbn in Hargs |- *.
    rewrite Forall_forall in IH. destruct (IH _ Hr e' args) as (r' & Hfind & Hh); [|done..|].
    + apply Is_true_true, forallb_forall with (x := (name, r)) in Hall; [by apply Is_true_true|by apply list_elem_of_In].
    + exists r'. by rewrite route_hash, (lookup_dir_NoDup _ r).
  - apply list_elem_of_fmap in He as (e' & -> & He'). cbn in Hargs |- *.
    destruct args as [|arg args]; [done|]. destruct (IH e' args) as (r' & Hfind & Hh); [done..|by injection Hargs|].
    exists r'. cbn. by rewrite route_match, Hfind.
Qed.
End routes.

(** ** Permissions *)

(** The parameter that a component of a permission's path stands for. *)
Definition variable (component : string) : option string :=
  match String.get 0 component with
  | Some "{"%char => Some (String.substring 1 (String.length component - 2) component)
  | _ => None
  end.
Fixpoint lookup_param (name : string) (args : list (string * string)) : option string :=
  match args with
  | [] => None
  | (name', value) :: args => if decide (name = name') then Some value else lookup_param name args
  end.
Definition resolve (args : list (string * string)) (component : string) : string :=
  match variable component with Some v => default component (lookup_param v args) | None => component end.

(** [check_api_permission] of [proxmox_router]: a user, [None] when not logged in, with the
    privileges [privs] on the paths of the ACL tree; [constant] are the privileges that
    another crate names.  Methods without a permission are for the superuser. *)
Class PermissionCheck (privs : string → list string → Z) (constant : string → Z) (superuser : string → Prop)
    (check : option string → list (string * string) → option Permission → Prop) : Prop := {
  check_default user args : check user args None → ∃ u, user = Some u ∧ superuser u;
  check_anybody user args : check user args (Some Anybody) → user ≠ None;
  check_privilege user args path z partial :
    check user args (Some (Privilege path z partial)) →
    ∃ u, user = Some u ∧
      let has := privs u (resolve args <$> path) in if (partial : bool) then Z.land has z ≠ 0%Z else Z.land has z = z;
  check_foreign user args path c partial :
    check user args (Some (ForeignPrivilege path c partial)) →
    check user args (Some (Privilege path (constant c) partial));
  check_user_param user args name :
    check user args (Some (UserParam name)) → ∃ u, user = Some u ∧ lookup_param name args = Some u;
  check_and user args l : check user args (Some (And_ l)) → Forall (λ p, check user args (Some p)) l;
  check_or user args l : check user args (Some (Or_ l)) → Exists (λ p, check user args (Some p)) l;
}.

(** ** What the handlers declare *)

Definition declares (m : ApiMethod) (p : string) : bool :=
  existsb (λ x, match x with Prop_ n _ _ => String.eqb n p | Flatten _ => false end) (am_input m).
(** [pbs_client::DatstoreListNamespaces], the one type with a parameter of a route. *)
Definition DatstoreListNamespaces : list Property :=
  [Prop_ "datastore" false "String"; Prop_ "parent" true "BackupNamespace"; Prop_ "max-depth" true "Integer"].
Definition flattened (m : ApiMethod) : ApiMethod :=
  mkApiMethod (am_name m)
    (flat_map (λ x, match x with
                    | Flatten "pbs_client::DatstoreListNamespaces" => DatstoreListNamespaces
                    | x => [x]
                    end) (am_input m))
    (am_permission m) (am_returns m) (am_protected m).

Definition permission (h : handler) : option Permission :=
  match h with Own m => am_permission m | ForeignWith _ p => Some p | Foreign _ | ListSubdirs _ => None end.
Fixpoint variables (p : Permission) : list string :=
  match p with
  | World | Anybody => []
  | UserParam name => [name]
  | Privilege path _ _ | ForeignPrivilege path _ _ => omap variable path
  | And_ l | Or_ l => flat_map variables l
  end.

Definition parameters_ok (e : endpoint) : bool :=
  match ep_handler e with Own m => forallb (declares (flattened m)) (params (ep_route e)) | _ => true end &&
  match permission (ep_handler e) with Some p => bool_decide (variables p ⊆ params (ep_route e)) | None => true end.

Lemma root_well_formed : well_formed root.ROUTER.
Proof. vm_compute. exact I. Qed.
Lemma root_parameters_ok : forallb parameters_ok (endpoints root.ROUTER) = true.
Proof. vm_compute. reflexivity. Qed.

Lemma lookup_param_zip name names values :
  length values = length names → name ∈ names → ∃ value, lookup_param name (zip names values) = Some value ∧ value ∈ values.
Proof.
  revert values. induction names as [|n names IH]; intros [|value values] Hlen Hin; try done; [by apply elem_of_nil in Hin|].
  cbn. destruct (decide (name = n)) as [->|Hne]; [exists value; split; [done|left]|].
  apply elem_of_cons in Hin as [?|Hin]; [done|]. destruct (IH values) as (v & Hv & Hvs); [by injection Hlen|done|].
  exists v. split; [done|by right].
Qed.

(** ** Every handler is reached *)

(** C39: A request whose path is an instance of the route of any of the 410 endpoints of the
    API is given to the handler of this endpoint: no subdirectory or method hides another.
    The handler declares all the parameters that the route binds; and all variables in the
    path of the permission that it requires are bound by the route to components of the
    URL, so that the privilege is checked on the object which the request names. *)
Theorem every_handler_reached {find_route} `{!RouteFinder find_route} e args :
  e ∈ endpoints root.ROUTER → length args = length (params (ep_route e)) →
  let bound := zip (params (ep_route e)) args in
  (∃ r, find_route root.ROUTER (instantiate (ep_route e) args) = Some (r, bound) ∧
        handler_for (ep_verb e) r = Some (ep_handler e)) ∧
  (∀ m, ep_handler e = Own m → Forall (λ p, declares (flattened m) p) (params (ep_route e))) ∧
  (∀ p, permission (ep_handler e) = Some p →
        Forall (λ v, ∃ value, lookup_param v bound = Some value ∧ value ∈ args) (variables p)).
Proof.
  intros He Hargs bound. pose proof root_parameters_ok as Hok.
  rewrite forallb_forall in Hok. specialize (Hok e (proj1 (list_elem_of_In _ _) He)).
  apply andb_true_iff in Hok as [Hdecl Hvars]. repeat split.
  - by apply endpoint_found; [apply root_well_formed|..].
  - intros m Hm. rewrite Hm, forallb_forall in Hdecl. apply Forall_forall. intros p Hp.
    apply Is_true_true, Hdecl. by apply list_elem_of_In.
  - intros p Hp. rewrite Hp in Hvars. apply bool_decide_eq_true in Hvars. apply Forall_forall. intros v Hv.
    by apply lookup_param_zip, Hvars.
Qed.

(** ** Whom the declared permissions admit *)

(** Whether someone with only the privileges of [ROLE_AUDITOR] may pass the check. *)
Fixpoint auditor_may (p : Permission) : bool :=
  match p with
  | World | Anybody | ForeignPrivilege _ _ _ => true
  | UserParam _ => false
  | Privilege _ z partial =>
      if (partial : bool) then negb (Z.land ROLE_AUDITOR z =? 0)%Z else (Z.land ROLE_AUDITOR z =? z)%Z
  | And_ l => forallb auditor_may l
  | Or_ l => existsb auditor_may l
  end.
Fixpoint user_params (p : Permission) : list string :=
  match p with
  | World | Anybody | ForeignPrivilege _ _ _ | Privilege _ _ _ => []
  | UserParam name => [name]
  | And_ l | Or_ l => flat_map user_params l
  end.

(** The operations that are open to an auditor, and those that are open to everyone. *)
Definition auditor_operations : list (list segment * verb) :=
  [([Lit "access"; Lit "domains"; Param "realm"; Lit "sync"], Post);
   ([Lit "access"; Lit "openid"; Lit "auth-url"], Post);
   ([Lit "access"; Lit "openid"; Lit "login"], Post);
   ([Lit "auto-install"; Lit "answer"], Post);
   ([Lit "auto-install"; Lit "installations"; Param "uuid"; Lit "post-hook"], Post);
   ([Lit "nodes"; Param "node"; Lit "tasks"; Param "upid"], Delete);
   ([Lit "pve"; Lit "remotes"; Param "remote"; Lit "lxc"; Param "vmid"], Delete);
   ([Lit "pve"; Lit "remotes"; Param "remote"; Lit "qemu"; Param "vmid"], Delete);
   ([Lit "remotes"; Lit "remote"; Param "id"; Lit "probe-certificate"], Post);
   ([Lit "remotes"; Lit "tasks"; Lit "refresh"], Post);
   ([Lit "remotes"; Lit "updates"; Lit "refresh"], Post)].
Definition public_operations : list (list segment * verb) :=
  [([Lit "access"; Lit "domains"], Get);
   ([Lit "access"; Lit "openid"; Lit "auth-url"], Post);
   ([Lit "access"; Lit "openid"; Lit "login"], Post);
   ([Lit "auto-install"; Lit "answer"], Post);
   ([Lit "auto-install"; Lit "installations"; Param "uuid"; Lit "post-hook"], Post);
   ([Lit "ping"], Get)].

Definition checked_here (h : handler) : bool :=
  match h with Own _ | ForeignWith _ _ => true | Foreign _ | ListSubdirs _ => false end.
(** What is decided elsewhere: the methods whose permissions are declared in other crates,
    and the subtrees that other crates provide, by the path at which they are. *)
Definition foreign_operations : list (list segment * verb) :=
  [([Lit "access"; Lit "ticket"], Post); ([Lit "access"; Lit "ticket"], Delete)].
Fixpoint foreign_routers (r : Router) : list (list segment * string) :=
  match r with
  | ForeignRouter name => [([], name)]
  | mkRouter _ NoSub => []
  | mkRouter _ (Hash dirs) => flat_map (λ d, (λ x, (Lit d.1 :: x.1, x.2)) <$> foreign_routers d.2) dirs
  | mkRouter _ (MatchAll p r) => (λ x, (Param p :: x.1, x.2)) <$> foreign_routers r
  end.
Definition foreign_subtrees : list (list segment * string) :=
  [([Lit "access"; Lit "acl"], "proxmox_access_control::api::ACL_ROUTER");
   ([Lit "access"; Lit "roles"], "proxmox_access_control::api::ROLE_ROUTER")].
Lemma root_foreign_subtrees : foreign_routers root.ROUTER = foreign_subtrees.
Proof. vm_compute. reflexivity. Qed.

Definition refuses_auditor (e : endpoint) : bool :=
  bool_decide (ep_verb e = Get) || bool_decide ((ep_route e, ep_verb e) ∈ auditor_operations) ||
  negb (checked_here (ep_handler e)) ||
  match permission (ep_handler e) with Some p => negb (auditor_may p) | None => true end.
Lemma root_refuses_auditor : forallb refuses_auditor (endpoints root.ROUTER) = true.
Proof. vm_compute. reflexivity. Qed.

Fixpoint public (p : Permission) : bool :=
  match p with
  | World => true
  | And_ l => forallb public l
  | Or_ l => existsb public l
  | _ => false
  end.
Definition refuses_unknown (e : endpoint) : bool :=
  bool_decide ((ep_route e, ep_verb e) ∈ public_operations) || negb (checked_here (ep_handler e)) ||
  match permission (ep_handler e) with Some p => negb (public p) | None => true end.
Lemma root_refuses_unknown : forallb refuses_unknown (endpoints root.ROUTER) = true.
Proof. vm_compute. reflexivity. Qed.

Definition known_elsewhere (e : endpoint) : bool :=
  checked_here (ep_handler e) || bool_decide (ep_verb e = Get) || bool_decide ((ep_route e, ep_verb e) ∈ foreign_operations).
Lemma root_known_elsewhere : forallb known_elsewhere (endpoints root.ROUTER) = true.
Proof. vm_compute. reflexivity. Qed.

Lemma Permission_ind' (P : Permission → Prop) :
  P World → P Anybody → (∀ n, P (UserParam n)) → (∀ path z partial, P (Privilege path z partial)) →
  (∀ path c partial, P (ForeignPrivilege path c partial)) →
  (∀ l, Forall P l → P (And_ l)) → (∀ l, Forall P l → P (Or_ l)) → ∀ p, P p.
Proof.
  intros HW HA HU HP HF Hand Hor. fix IH 1. intros [| |n|path z partial|path c partial|l|l]; [done..|apply Hand|apply Hor];
    revert l; fix IHl 1; intros [|p l]; constructor; [apply IH|apply IHl|apply IH|apply IHl].
Qed.

Lemma land_subset (has role z : Z) : Z.land has role = has → Z.land has z = z → Z.land role z = z.
Proof. intros Hr Hz. rewrite <- Hz, (Z.land_assoc role), (Z.land_comm role), Hr. done. Qed.
Lemma land_subset_nonzero (has role z : Z) : Z.land has role = has → Z.land has z ≠ 0%Z → Z.land role z ≠ 0%Z.
Proof. intros Hr Hz H0. apply Hz. by rewrite <- Hr, <- Z.land_assoc, H0, Z.land_0_r. Qed.

Section access.
Context {privs constant superuser check} `{HC : !PermissionCheck privs constant superuser check}.

Lemma auditor_may_sound u args p :
  (∀ path, Z.land (privs u path) ROLE_AUDITOR = privs u path) → check (Some u) args (Some p) →
  auditor_may p = true ∨ Exists (λ n, lookup_param n args = Some u) (user_params p).
Proof using HC.
  intros Hu. induction p as [| |n|path z partial|path c partial|l IH|l IH] using Permission_ind'; intros Hp; cbn; [by left..| | |by left| |].
  - right. apply check_user_param in Hp as (u' & [= <-] & Hl). by constructor.
  - left. apply check_privilege in Hp as (u' & [= <-] & Hhas). cbn in Hhas. destruct partial.
    + apply negb_true_iff, Z.eqb_neq. by eapply land_subset_nonzero.
    + apply Z.eqb_eq. by eapply land_subset.
  - apply check_and in Hp. induction IH as [|p l Hhd IH IHl]; [by left|].
    apply Forall_cons in Hp as [Hp Hl]. cbn. setoid_rewrite Exists_app.
    destruct (Hhd Hp) as [->|?]; [|by right; left]. destruct (IHl Hl) as [->|?]; [by left|by right; right].
  - apply check_or in Hp. induction IH as [|p l Hhd IH IHl]; [by apply Exists_nil in Hp|].
    cbn. setoid_rewrite Exists_app. apply Exists_cons in Hp as [Hp|Hl].
    + destruct (Hhd Hp) as [->|?]; [by left|by right; left].
    + destruct (IHl Hl) as [->|?]; [left; by rewrite orb_true_r|by right; right].
Qed.

Lemma public_sound args p : check None args (Some p) → public p = true.
Proof using HC.
  induction p as [| |n|path z partial|path c partial|l IH|l IH] using Permission_ind'; intros Hp; cbn; [done|..].
  - by apply check_anybody in Hp.
  - by apply check_user_param in Hp as (? & ? & _).
  - by apply check_privilege in Hp as (? & ? & _).
  - by apply check_foreign, check_privilege in Hp as (? & ? & _).
  - apply check_and in Hp. apply forallb_forall. intros p Hin%list_elem_of_In.
    rewrite Forall_forall in Hp, IH. by apply IH, Hp.
  - apply check_or in Hp as (p & Hin & Hp)%Exists_exists. apply existsb_exists. exists p.
    rewrite Forall_forall in IH. split; [by apply list_elem_of_In|by apply IH].
Qed.
End access.

(** C21: Which requests that are not a [GET] the declared permissions leave open to an
    auditor: a user who is not the superuser and whose privileges are on every path among
    those of the role [Auditor].  If the permission of an endpoint is declared in this
    repository, such a user passes its check only for the eleven operations of
    [auditor_operations] (logging in with OpenID Connect, the requests of an installer,
    which are authorized by a token, operations whose handler checks privileges or
    ownership itself, three that refresh or probe, and [sync_realm], whose privilege is a
    constant of another product and may be held or not), or where the permission names
    the user and the request is about the user's own account; and someone who is not
    logged in passes only for the six operations of [public_operations].  What is not
    covered is all listed: two operations of [access/ticket] and [GET] methods whose
    permissions are declared in other crates, and the subtrees [access/acl] and
    [access/roles], whose routers are in another crate.  What the handlers of the
    operations that are left do is not part of this. *)
Theorem auditor_admitted_only {privs constant superuser check} `{!PermissionCheck privs constant superuser check} :
  foreign_routers root.ROUTER = foreign_subtrees ∧
  ∀ e args, e ∈ endpoints root.ROUTER →
  if checked_here (ep_handler e) then
    (∀ u, ¬ superuser u → (∀ path, Z.land (privs u path) ROLE_AUDITOR = privs u path) →
          ep_verb e ≠ Get → check (Some u) args (permission (ep_handler e)) →
          (ep_route e, ep_verb e) ∈ auditor_operations ∨
          ∃ p n, permission (ep_handler e) = Some p ∧ n ∈ user_params p ∧ lookup_param n args = Some u) ∧
    (check None args (permission (ep_handler e)) → (ep_route e, ep_verb e) ∈ public_operations)
  else ep_verb e = Get ∨ (ep_route e, ep_verb e) ∈ foreign_operations.
Proof.
  split; [exact root_foreign_subtrees|]. intros e args He.
  pose proof root_refuses_auditor as Ha. pose proof root_refuses_unknown as Hn. pose proof root_known_elsewhere as Hk.
  rewrite forallb_forall in Hk. specialize (Hk e (proj1 (list_elem_of_In _ _) He)). unfold known_elsewhere in Hk.
  destruct (checked_here (ep_handler e)) eqn:Hhere.
  2: { apply orb_true_iff in Hk as [Hk|Hk]; apply bool_decide_eq_true in Hk; auto. }
  rewrite forallb_forall in Ha, Hn. specialize (Ha e (proj1 (list_elem_of_In _ _) He)). specialize (Hn e (proj1 (list_elem_of_In _ _) He)).
  unfold refuses_auditor in Ha. unfold refuses_unknown in Hn. rewrite Hhere in Ha, Hn. cbn [negb] in Ha, Hn. rewrite orb_false_r in Ha, Hn.
  split.
  - intros u Hsuper Hu Hget Hc. rewrite (bool_decide_eq_false_2 (ep_verb e = Get)) in Ha by done. cbn [orb] in Ha.
    destruct (permission (ep_handler e)) as [p|]; [|by apply check_default in Hc as (? & [= <-] & ?)].
    destruct (auditor_may_sound u args p Hu Hc) as [Hmay|(n & Hn' & Hl)%Exists_exists]; [left|right; by exists p, n].
    rewrite Hmay, orb_false_r in Ha. by apply bool_decide_eq_true in Ha.
  - intros Hc. destruct (permission (ep_handler e)) as [p|]; [|by apply check_default in Hc as (? & ? & _)].
    rewrite (public_sound args p Hc), orb_false_r in Hn. by apply bool_decide_eq_true in Hn.
Qed.

Module TreeDemo.
(** A permission check with the laws: a reading of the permissions as formulas. *)
Fixpoint grants (privs : string → list string → Z) (constant : string → Z) (user : option string)
    (args : list (string * string)) (p : Permission) : Prop :=
  let holds path (z : Z) partial :=
    ∃ u, user = Some u ∧ let has := privs u (resolve args <$> path) in if (partial : bool) then Z.land has z ≠ 0%Z else Z.land has z = z in
  match p with
  | World => True
  | Anybody => user ≠ None
  | UserParam name => ∃ u, user = Some u ∧ lookup_param name args = Some u
  | Privilege path z partial => holds path z partial
  | ForeignPrivilege path c partial => holds path (constant c) partial
  | And_ l => (fix all l := match l with [] => True | p :: l => grants privs constant user args p ∧ all l end) l
  | Or_ l => (fix any l := match l with [] => False | p :: l => grants privs constant user args p ∨ any l end) l
  end.
Definition demo_check privs constant (superuser : string → Prop) (user : option string) args (p : option Permission) : Prop :=
  match p with Some p => grants privs constant user args p | None => ∃ u, user = Some u ∧ superuser u end.
#[export] Instance demo_permission_check privs constant superuser :
  PermissionCheck privs constant superuser (demo_check privs constant superuser).
Proof.
  split; cbn; [done..| |].
  - intros user args l. induction l as [|p l IH]; [by constructor|]. intros [Hp Hl]. constructor; [done|by apply IH].
  - intros user args l. induction l as [|p l IH]; [done|]. intros [Hp|Hl]; [by left|right; by apply IH].
Qed.

Definition start : endpoint :=
  mkEndpoint [Lit "pve"; Lit "remotes"; Param "remote"; Lit "qemu"; Param "vmid"; Lit "start"] Post (Own pve_qemu.API_METHOD_QEMU_START).

Lemma every_handler_reached_witness :
  ∃ r, walk root.ROUTER ["pve"; "remotes"; "r"; "qemu"; "100"; "start"] = Some (r, [("remote", "r"); ("vmid", "100")]) ∧
       handler_for Post r = Some (Own pve_qemu.API_METHOD_QEMU_START).
Proof.
  assert (start ∈ endpoints root.ROUTER) as Hin.
  { apply list_elem_of_lookup_2 with (i := 333%nat). vm_compute. reflexivity. }
  destruct (every_handler_reached (find_route := walk) start ["r"; "100"] Hin eq_refl) as (Hr & _). exact Hr.
Defined.

Definition auditor (u : string) (path : list string) : Z := ROLE_AUDITOR.
Lemma auditor_admitted_only_witness :
  ¬ demo_check auditor (λ _, 0%Z) (λ u, u = "root@pam") (Some "eve@pdm") [("remote", "r"); ("vmid", "100")] (permission (Own pve_qemu.API_METHOD_QEMU_START)).
Proof.
  assert (start ∈ endpoints root.ROUTER) as Hin.
  { apply list_elem_of_lookup_2 with (i := 333%nat). vm_compute. reflexivity. }
  intros Hc. destruct (proj2 (auditor_admitted_only (check := demo_check auditor (λ _, 0%Z) (λ u, u = "root@pam"))) start
    [("remote", "r"); ("vmid", "100")] Hin) as [Hu _].
  destruct (Hu "eve@pdm") as [Hops|(p & n & [= <-] & Hn & _)].
  - done.
  - intros path. reflexivity.
  - done.
  - exact Hc.
  - revert Hops. apply (bool_decide_unpack _). vm_compute. exact I.
  - revert Hn. apply (bool_decide_unpack _). vm_compute. exact I.
Defined.
End TreeDemo.
