(* ===== verification/PdmClient.v ===== *)
(** * The client library

    Model of [lib/pdm-client/src/lib.rs]: one definition per method, which gives the
    request that the method sends and how it reads the answer.  A value that is only
    printed into the URL (an enum, an id) is its text.  A parameter of a type of the
    API that is serialized as a whole is the JSON object it is serialized to; in the body
    it is kept apart, with the name of the type ([Whole]).  Where a method looks into
    the answer, this is a separate definition. *)

From S2P Require Import Prelude FileSystem RemoteUpid JsonValue SdnClient ApiRouter.
#[local] Open Scope string_scope.
#[local] Open Scope list_scope.

(** ** Requests *)

(** A URL: its path, and the arguments of its query before they are encoded. *)
Record url_t : Type := mkUrl { u_path : string; u_query : list (string * string) }.
Definition url (path : string) : url_t := mkUrl path [].

Inductive body_part : Type :=
| Fields (fields : Map)
| Whole (type : string) (value : Map).
Definition body : Type := list body_part.

Record request : Type := mkRequest { rq_verb : verb; rq_url : url_t; rq_body : option body }.

(** [expect_json()?.data] and [nodata()]; or the data with the digest from the attributes of
    the answer. *)
Inductive expectation : Type := ExpectJson | NoData | ExpectDigest.
Record call : Type := mkCall { cl_request : request; cl_expect : expectation }.
Definition expect_json (r : request) : call := mkCall r ExpectJson.
Definition nodata (r : request) : call := mkCall r NoData.
Definition expect_digest (r : request) : call := mkCall r ExpectDigest.

Module Http.
Definition get (u : url_t) : request := mkRequest Get u None.
Definition delete (u : url_t) : request := mkRequest Delete u None.
Definition post (u : url_t) (b : option body) : request := mkRequest Post u b.
Definition put (u : url_t) (b : option body) : request := mkRequest Put u b.
End Http.

(** [proxmox_client::ApiPathBuilder] *)
Module ApiPathBuilder.
Definition new (base : string) : url_t := url base.
Definition arg (name value : string) (b : url_t) : url_t := mkUrl (u_path b) (u_query b ++ [(name, value)]).
Definition maybe_arg (name : string) (value : option string) (b : url_t) : url_t :=
  match value with Some value => arg name value b | None => b end.
End ApiPathBuilder.
Notation "x '|>' f" := (f x) (at level 50, left associativity, only parsing).

Definition show_bool (b : bool) : string := if b then "true" else "false".
Definition int_value (z : Z) : Value := VNumber (NInt z).
Definition string_array (l : list string) : Value := VArray (VString <$> l).
(** A field with [skip_serializing_if]; or set [if let Some(..)]. *)
Definition opt_field (key : string) (value : option Value) : body_part :=
  Fields (match value with Some value => [(key, value)] | None => [] end).
Definition list_field (key : string) (l : list string) : body_part :=
  Fields (match l with [] => [] | _ => [(key, string_array l)] end).

(** ** Parameters of migrations *)

(** A [HashMap]: the list is in iteration order. *)
Definition mapping : Type := list (string * string).

Definition stringify_target_mapping (m : mapping) : Value :=
  match m with
  | [] => VNull
  | [(key, value)] =>
      string_array [if String.eqb key "*" && String.eqb value "*" then "1"
                    else if String.eqb key "*" then value
                    else key +:+ ":" +:+ value]
  | _ => string_array ((λ '(from, to), from +:+ ":" +:+ to) <$> m)
  end.

Record MigrateQemu : Type := mkMigrateQemu {
  mq_bwlimit : option Z;
  mq_force : option bool;
  mq_migration_network : option string;
  mq_migration_type : option string;
  mq_online : option bool;
  mq_target_storage : mapping;
  mq_with_local_disks : option bool;
}.
Record MigrateLxc : Type := mkMigrateLxc {
  ml_bwlimit : option Z;
  ml_online : option bool;
  ml_restart : option bool;
  ml_target_storage : mapping;
  ml_timeout : option Z;
}.
Record RemoteMigrateCommon : Type := mkRemoteMigrateCommon {
  rc_target_vmid : option Z;
  rc_delete : option bool;
  rc_online : option bool;
  rc_target_storages : mapping;
  rc_target_bridges : mapping;
  rc_bwlimit : option Z;
}.
Record RemoteMigrateQemu : Type := mkRemoteMigrateQemu { rq_common : RemoteMigrateCommon }.
Record RemoteMigrateLxc : Type := mkRemoteMigrateLxc {
  rl_common : RemoteMigrateCommon;
  rl_restart : option bool;
  rl_timeout : option Z;
}.

Definition mapping_field (key : string) (m : mapping) : body_part :=
  Fields (match m with [] => [] | _ => [(key, stringify_target_mapping m)] end).
Definition serialize_MigrateQemu (p : MigrateQemu) : body :=
  [opt_field "bwlimit" (int_value <$> mq_bwlimit p); opt_field "force" (VBool <$> mq_force p);
   opt_field "migration-network" (VString <$> mq_migration_network p); opt_field "migration-type" (VString <$> mq_migration_type p);
   opt_field "online" (VBool <$> mq_online p); mapping_field "target-storage" (mq_target_storage p);
   opt_field "with-local-disks" (VBool <$> mq_with_local_disks p)].
Definition serialize_MigrateLxc (p : MigrateLxc) : body :=
  [opt_field "bwlimit" (int_value <$> ml_bwlimit p); opt_field "online" (VBool <$> ml_online p);
   opt_field "restart" (VBool <$> ml_restart p); mapping_field "target-storage" (ml_target_storage p);
   opt_field "timeout" (int_value <$> ml_timeout p)].
(** Here an empty mapping is [null]. *)
Definition serialize_RemoteMigrateCommon (p : RemoteMigrateCommon) : body :=
  [opt_field "target-vmid" (int_value <$> rc_target_vmid p); opt_field "delete" (VBool <$> rc_delete p);
   opt_field "online" (VBool <$> rc_online p);
   Fields [("target-storage", stringify_target_mapping (rc_target_storages p));
           ("target-bridge", stringify_target_mapping (rc_target_bridges p))];
   opt_field "bwlimit" (int_value <$> rc_bwlimit p)].
Definition serialize_RemoteMigrateQemu (p : RemoteMigrateQemu) : body := serialize_RemoteMigrateCommon (rq_common p).
Definition serialize_RemoteMigrateLxc (p : RemoteMigrateLxc) : body :=
  serialize_RemoteMigrateCommon (rl_common p) ++ [opt_field "restart" (VBool <$> rl_restart p); opt_field "timeout" (int_value <$> rl_timeout p)].

(** *** The builders *)

Definition mapping_insert (from to : string) (m : mapping) : mapping := (from, to) :: filter (λ e, e.1 ≠ from) m.

Module MigrateQemuBuilder.
Definition new : MigrateQemu := mkMigrateQemu None None None None None [] None.
Definition bwlimit (s : MigrateQemu) (limit : Z) : MigrateQemu :=
  mkMigrateQemu (Some limit) (mq_force s) (mq_migration_network s) (mq_migration_type s) (mq_online s) (mq_target_storage s) (mq_with_local_disks s).
Definition force (s : MigrateQemu) (force : bool) : MigrateQemu :=
  mkMigrateQemu (mq_bwlimit s) (Some force) (mq_migration_network s) (mq_migration_type s) (mq_online s) (mq_target_storage s) (mq_with_local_disks s).
Definition map_storage (s : MigrateQemu) (from to : string) : MigrateQemu :=
  mkMigrateQemu (mq_bwlimit s) (mq_force s) (mq_migration_network s) (mq_migration_type s) (mq_online s) (mapping_insert from to (mq_target_storage s)) (mq_with_local_disks s).
Definition online (s : MigrateQemu) (online : bool) : MigrateQemu :=
  mkMigrateQemu (mq_bwlimit s) (mq_force s) (mq_migration_network s) (mq_migration_type s) (Some online) (mq_target_storage s) (mq_with_local_disks s).
Definition with_local_disks (s : MigrateQemu) (with_local_disks : bool) : MigrateQemu :=
  mkMigrateQemu (mq_bwlimit s) (mq_force s) (mq_migration_network s) (mq_migration_type s) (mq_online s) (mq_target_storage s) (Some with_local_disks).
Definition migration_network (s : MigrateQemu) (migration_network : string) : MigrateQemu :=
  mkMigrateQemu (mq_bwlimit s) (mq_force s) (Some migration_network) (mq_migration_type s) (mq_online s) (mq_target_storage s) (mq_with_local_disks s).
Definition migration_type (s : MigrateQemu) (migration_type : string) : MigrateQemu :=
  mkMigrateQemu (mq_bwlimit s) (mq_force s) (mq_migration_network s) (Some migration_type) (mq_online s) (mq_target_storage s) (mq_with_local_disks s).
End MigrateQemuBuilder.

(** Timeouts are in seconds. *)
Module MigrateLxcBuilder.
Definition new : MigrateLxc := mkMigrateLxc None None None [] None.
Definition bwlimit (s : MigrateLxc) (limit : Z) : MigrateLxc :=
  mkMigrateLxc (Some limit) (ml_online s) (ml_restart s) (ml_target_storage s) (ml_timeout s).
Definition online (s : MigrateLxc) (online : bool) : MigrateLxc :=
  mkMigrateLxc (ml_bwlimit s) (Some online) (ml_restart s) (ml_target_storage s) (ml_timeout s).
Definition restart (s : MigrateLxc) (restart : bool) (timeout : option Z) : MigrateLxc :=
  mkMigrateLxc (ml_bwlimit s) (ml_online s) (Some restart) (ml_target_storage s) timeout.
Definition map_storage (s : MigrateLxc) (from to : string) : MigrateLxc :=
  mkMigrateLxc (ml_bwlimit s) (ml_online s) (ml_restart s) (mapping_insert from to (ml_target_storage s)) (ml_timeout s).
Definition timeout (s : MigrateLxc) (timeout : Z) : MigrateLxc :=
  mkMigrateLxc (ml_bwlimit s) (ml_online s) (ml_restart s) (ml_target_storage s) (Some timeout).
End MigrateLxcBuilder.

(** [remote_migrate_common_methods!] *)
Module RemoteMigrateBuilder.
Definition new : RemoteMigrateCommon := mkRemoteMigrateCommon None None None [] [] None.
Definition target_vmid (s : RemoteMigrateCommon) (vmid : Z) : RemoteMigrateCommon :=
  mkRemoteMigrateCommon (Some vmid) (rc_delete s) (rc_online s) (rc_target_storages s) (rc_target_bridges s) (rc_bwlimit s).
Definition delete_source (s : RemoteMigrateCommon) (delete : bool) : RemoteMigrateCommon :=
  mkRemoteMigrateCommon (rc_target_vmid s) (Some delete) (rc_online s) (rc_target_storages s) (rc_target_bridges s) (rc_bwlimit s).
Definition online (s : RemoteMigrateCommon) (online : bool) : RemoteMigrateCommon :=
  mkRemoteMigrateCommon (rc_target_vmid s) (rc_delete s) (Some online) (rc_target_storages s) (rc_target_bridges s) (rc_bwlimit s).
Definition bwlimit (s : RemoteMigrateCommon) (limit : Z) : RemoteMigrateCommon :=
  mkRemoteMigrateCommon (rc_target_vmid s) (rc_delete s) (rc_online s) (rc_target_storages s) (rc_target_bridges s) (Some limit).
Definition map_storage (s : RemoteMigrateCommon) (from to : string) : RemoteMigrateCommon :=
  mkRemoteMigrateCommon (rc_target_vmid s) (rc_delete s) (rc_online s) (mapping_insert from to (rc_target_storages s)) (rc_target_bridges s) (rc_bwlimit s).
Definition map_bridge (s : RemoteMigrateCommon) (from to : string) : RemoteMigrateCommon :=
  mkRemoteMigrateCommon (rc_target_vmid s) (rc_delete s) (rc_online s) (rc_target_storages s) (mapping_insert from to (rc_target_bridges s)) (rc_bwlimit s).
Definition restart (s : RemoteMigrateLxc) (restart : bool) (timeout : option Z) : RemoteMigrateLxc :=
  mkRemoteMigrateLxc (rl_common s) (Some restart) timeout.
End RemoteMigrateBuilder.

(** ** Other parameters *)

Record PveListStoragesFilter : Type := mkStoragesFilter {
  sf_content : list string;
  sf_enabled : option bool;
  sf_storage : option string;
  sf_target : option string;
}.
Record PbsSnapshotRef : Type := mkSnapshotRef { pr_backup_type : string; pr_backup_id : string; pr_backup_time : Z; pr_ns : option string }.
Definition serialize_PbsSnapshotRef (s : PbsSnapshotRef) : Map :=
  [("backup-type", VString (pr_backup_type s)); ("backup-id", VString (pr_backup_id s)); ("backup-time", int_value (pr_backup_time s))]
  ++ match pr_ns s with Some ns => [("ns", VString ns)] | None => [] end.
Inductive AclRecipient : Type := RecipientAuthid (auth_id : string) | RecipientGroup (group : string).
Definition serialize_AclRecipient (r : AclRecipient) : Map :=
  match r with RecipientAuthid a => [("auth-id", VString a)] | RecipientGroup g => [("group", VString g)] end.
Record AddTfaEntry : Type := mkTfaEntry {
  tf_type : string;
  tf_description : option string;
  tf_totp : option string;
  tf_value : option string;
  tf_challenge : option string;
  tf_password : option string;
}.
Definition AddTfaEntry_empty : AddTfaEntry := mkTfaEntry "recovery" None None None None None.
Definition serialize_AddTfaEntry (e : AddTfaEntry) : body :=
  [Fields [("type", VString (tf_type e))]; opt_field "description" (VString <$> tf_description e); opt_field "totp" (VString <$> tf_totp e);
   opt_field "value" (VString <$> tf_value e); opt_field "challenge" (VString <$> tf_challenge e);
   opt_field "password" (VString <$> tf_password e)].

Record CreateZoneParams : Type := mkZoneParams { zp_zone : string; zp_vrf_vxlan : option Z; zp_remotes : list CreateZoneRemote }.
Definition serialize_CreateZoneParams (p : CreateZoneParams) : Map :=
  [("zone", VString (zp_zone p)); ("vrf-vxlan", from_option int_value VNull (zp_vrf_vxlan p));
   ("remotes", VArray ((λ r, VObject [("remote", VString (czr_remote r)); ("controller", VString (czr_controller r))]) <$> zp_remotes p))].
Record CreateVnetParams : Type := mkVnetParams { vp_tag : Z; vp_vnet : string; vp_remotes : list CreateVnetRemote }.
Definition serialize_CreateVnetParams (p : CreateVnetParams) : Map :=
  [("tag", int_value (vp_tag p)); ("vnet", VString (vp_vnet p));
   ("remotes", VArray ((λ r, VObject [("remote", VString (cvr_remote r)); ("zone", VString (cvr_zone r))]) <$> vp_remotes p))].

(** ** The methods *)


Section digests.
(** Printing a digest, which is an arbitrary value, into a URL. *)
Context (digest_to_string : Value → string).

Definition pve_change_guest_status (remote : string) (node : option string) (vmid : Z) (vmtype : string) (action : string) : call :=
  expect_json (Http.post (url ("/api2/extjs/pve/remotes/" +:+ remote +:+ "/" +:+ vmtype +:+ "/" +:+ show_Z vmid +:+ "/" +:+ action)) (Some [Fields []; opt_field "node" (VString <$> node)])).
Definition probe_tls (hostname : string) (fingerprint : option string) (remote_type : RemoteType.t) : call :=
  expect_json (Http.post (url ("/api2/extjs/" +:+ RemoteType.to_string remote_type +:+ "/probe-tls"))
    (Some [Fields [("hostname", VString hostname)]; opt_field "fingerprint" (VString <$> fingerprint)])).
Definition scan_remote (hostname : string) (fingerprint : option string) (authid token : string) (remote_type : RemoteType.t) : call :=
  expect_json (Http.post (url ("/api2/extjs/" +:+ RemoteType.to_string remote_type +:+ "/scan"))
    (Some [Fields [("hostname", VString hostname); ("authid", VString authid); ("token", VString token)];
           opt_field "fingerprint" (VString <$> fingerprint)])).
Definition list_media : call :=
  expect_json (Http.get (url "/api2/extjs/config/media")).
Definition add_media (entry : Map) : call :=
  nodata (Http.post (url "/api2/extjs/config/media") (Some [Whole "MediaCatalogEntry" entry])).
Definition update_media (id : string) (entry : Map) : call :=
  nodata (Http.put (url ("/api2/extjs/config/media/" +:+ id)) (Some [Whole "MediaCatalogEntryUpdater" entry])).
Definition delete_media (id : string) : call :=
  nodata (Http.delete (url ("/api2/extjs/config/media/" +:+ id))).
Definition list_remotes : call :=
  expect_json (Http.get (url "/api2/extjs/remotes/remote")).
Definition add_remote (remote : Map) (create_token : option string) : call :=
  nodata (Http.post (url "/api2/extjs/remotes/remote") (Some [Whole "Remote" remote; opt_field "create-token" (VString <$> create_token)])).
Definition update_remote (remote : string) (updater : Map) (delete : list string) : call :=
  nodata (Http.put (url ("/api2/extjs/remotes/remote/" +:+ remote)) (Some [Whole "RemoteUpdater" updater; list_field "delete" delete])).
Definition delete_remote (remote : string) (delete_token : option bool) : call :=
  nodata (Http.delete (ApiPathBuilder.new ("/api2/extjs/remotes/remote/" +:+ remote) |> ApiPathBuilder.maybe_arg "delete-token" (show_bool <$> delete_token))).
Definition remote_version (remote : string) : call :=
  expect_json (Http.get (url ("/api2/extjs/remotes/remote/" +:+ remote +:+ "/version"))).
Definition remote_probe_certificate (remote node : string) : call :=
  expect_json (Http.post (url ("/api2/extjs/remotes/remote/" +:+ remote +:+ "/probe-certificate")) (Some [Fields [("node", VString node)]])).
Definition read_user (user : string) : call :=
  expect_json (Http.get (url ("/api2/extjs/access/users/" +:+ user))).
Definition list_users (include_api_tokens : bool) : call :=
  expect_json (Http.get (ApiPathBuilder.new ("/api2/extjs/access/users") |> ApiPathBuilder.arg "include_tokens" (show_bool include_api_tokens))).
Definition list_realms : call :=
  expect_json (Http.get (url "/api2/extjs/access/domains")).
Definition create_user (config : Map) (password : option string) : call :=
  nodata (Http.post (url "/api2/extjs/access/users") (Some [opt_field "password" (VString <$> password); Whole "User" config])).
Definition update_user (userid : string) (updater : Map) (password : option string) (delete : list string) : call :=
  nodata (Http.put (url ("/api2/extjs/access/users/" +:+ userid))
    (Some [Whole "UserUpdater" updater; opt_field "password" (VString <$> password); list_field "delete" delete])).
Definition delete_user (userid : string) : call :=
  nodata (Http.delete (url ("/api2/extjs/access/users/" +:+ userid))).
Definition list_user_tfa (userid : string) : call :=
  expect_json (Http.get (url ("/api2/extjs/access/tfa/" +:+ userid))).
Definition delete_tfa_entry (userid : string) (password : option string) (id : string) : call :=
  nodata (Http.delete (ApiPathBuilder.new ("/api2/extjs/access/tfa/" +:+ userid +:+ "/" +:+ id) |> ApiPathBuilder.maybe_arg "password" password)).
Definition add_recovery_keys (userid : string) (password : option string) (description : string) : call :=
  expect_json (Http.post (url ("/api2/extjs/access/tfa/" +:+ userid))
    (Some (serialize_AddTfaEntry (mkTfaEntry "recovery" (Some description) None None None password)))).
Definition add_webauthn (userid : string) (password : option string) (description : string) : call :=
  expect_json (Http.post (url ("/api2/extjs/access/tfa/" +:+ userid))
    (Some (serialize_AddTfaEntry (mkTfaEntry "webauthn" (Some description) None None None password)))).
Definition add_webauthn_finish (userid : string) (password : option string) (challenge response : string) : call :=
  expect_json (Http.post (url ("/api2/extjs/access/tfa/" +:+ userid))
    (Some (serialize_AddTfaEntry (mkTfaEntry "webauthn" None None (Some response) (Some challenge) password)))).
Definition trigger_remote_metric_collection (remote : option string) : call :=
  nodata (Http.post (url "/api2/extjs/remotes/metric-collection/trigger") (Some [opt_field "remote" (VString <$> remote)])).
Definition get_remote_metric_collection_status : call :=
  expect_json (Http.get (url "/api2/extjs/remotes/metric-collection/status")).
Definition get_per_remote_rrddata (remote : string) (mode : string) (timeframe : string) : call :=
  expect_json (Http.get (ApiPathBuilder.new ("/api2/extjs/remotes/remote/" +:+ remote +:+ "/rrddata") |> ApiPathBuilder.arg "cf" mode |> ApiPathBuilder.arg "timeframe" timeframe)).
Definition pve_list_nodes (remote : string) : call :=
  expect_json (Http.get (url ("/api2/extjs/pve/remotes/" +:+ remote +:+ "/nodes"))).
Definition pve_get_firewall_status : call :=
  expect_json (Http.get (url "/api2/extjs/pve/firewall/status")).
Definition pve_cluster_firewall_status (remote : string) : call :=
  expect_json (Http.get (url ("/api2/extjs/pve/remotes/" +:+ remote +:+ "/firewall/status"))).
Definition pve_node_firewall_status (remote : string) (node : string) : call :=
  expect_json (Http.get (url ("/api2/extjs/pve/remotes/" +:+ remote +:+ "/nodes/" +:+ node +:+ "/firewall/status"))).
Definition pve_get_cluster_firewall_options (remote : string) : call :=
  expect_json (Http.get (url ("/api2/extjs/pve/remotes/" +:+ remote +:+ "/firewall/options"))).
Definition pve_get_node_firewall_options (remote : string) (node : string) : call :=
  expect_json (Http.get (url ("/api2/extjs/pve/remotes/" +:+ remote +:+ "/nodes/" +:+ node +:+ "/firewall/options"))).
Definition pve_get_lxc_firewall_options (remote : string) (node : option string) (vmid : Z) : call :=
  expect_json (Http.get (ApiPathBuilder.new ("/api2/extjs/pve/remotes/" +:+ remote +:+ "/lxc/" +:+ show_Z vmid +:+ "/firewall/options") |> ApiPathBuilder.maybe_arg "node" node)).
Definition pve_get_qemu_firewall_options (remote : string) (node : option string) (vmid : Z) : call :=
  expect_json (Http.get (ApiPathBuilder.new ("/api2/extjs/pve/remotes/" +:+ remote +:+ "/qemu/" +:+ show_Z vmid +:+ "/firewall/options") |> ApiPathBuilder.maybe_arg "node" node)).
Definition pve_get_cluster_firewall_rules (remote : string) : call :=
  expect_json (Http.get (url ("/api2/extjs/pve/remotes/" +:+ remote +:+ "/firewall/rules"))).
Definition pve_get_node_firewall_rules (remote : string) (node : string) : call :=
  expect_json (Http.get (url ("/api2/extjs/pve/remotes/" +:+ remote +:+ "/nodes/" +:+ node +:+ "/firewall/rules"))).
Definition pve_get_lxc_firewall_rules (remote : string) (node : option string) (vmid : Z) : call :=
  expect_json (Http.get (ApiPathBuilder.new ("/api2/extjs/pve/remotes/" +:+ remote +:+ "/lxc/" +:+ show_Z vmid +:+ "/firewall/rules") |> ApiPathBuilder.maybe_arg "node" node)).
Definition pve_get_qemu_firewall_rules (remote : string) (node : option string) (vmid : Z) : call :=
  expect_json (Http.get (ApiPathBuilder.new ("/api2/extjs/pve/remotes/" +:+ remote +:+ "/qemu/" +:+ show_Z vmid +:+ "/firewall/rules") |> ApiPathBuilder.maybe_arg "node" node)).
Definition pve_set_cluster_firewall_options (remote : string) (update : Map) : call :=
  nodata (Http.put (url ("/api2/extjs/pve/remotes/" +:+ remote +:+ "/firewall/options")) (Some [Whole "UpdateClusterFirewallOptions" update])).
Definition pve_set_node_firewall_options (remote : string) (node : string) (update : Map) : call :=
  nodata (Http.put (url ("/api2/extjs/pve/remotes/" +:+ remote +:+ "/nodes/" +:+ node +:+ "/firewall/options")) (Some [Whole "UpdateNodeFirewallOptions" update])).
Definition pve_node_rrddata (remote : string) (node : string) (mode : string) (timeframe : string) : call :=
  expect_json (Http.get (mkUrl ("/api2/extjs/pve/remotes/" +:+ remote +:+ "/nodes/" +:+ node +:+ "/rrddata") [("cf", mode); ("timeframe", timeframe)])).
Definition pve_cluster_resources (remote : string) (kind : option string) : call :=
  expect_json (Http.get (ApiPathBuilder.new ("/api2/extjs/pve/remotes/" +:+ remote +:+ "/resources") |> ApiPathBuilder.maybe_arg "kind" kind)).
Definition pve_cluster_updates (remote : string) : call :=
  expect_json (Http.get (url ("/api2/extjs/pve/remotes/" +:+ remote +:+ "/updates"))).
Definition pve_cluster_status (remote : string) (target_endpoint : option string) : call :=
  expect_json (Http.get (ApiPathBuilder.new ("/api2/extjs/pve/remotes/" +:+ remote +:+ "/cluster-status") |> ApiPathBuilder.maybe_arg "target-endpoint" target_endpoint)).
Definition pve_cluster_nextid (remote : string) (target_endpoint : option string) : call :=
  expect_json (Http.get (ApiPathBuilder.new ("/api2/extjs/pve/remotes/" +:+ remote +:+ "/cluster-nextid") |> ApiPathBuilder.maybe_arg "target-endpoint" target_endpoint)).
Definition pve_list_qemu (remote : string) (node : option string) : call :=
  expect_json (Http.get (ApiPathBuilder.new ("/api2/extjs/pve/remotes/" +:+ remote +:+ "/qemu") |> ApiPathBuilder.maybe_arg "node" node)).
Definition pve_list_lxc (remote : string) (node : option string) : call :=
  expect_json (Http.get (ApiPathBuilder.new ("/api2/extjs/pve/remotes/" +:+ remote +:+ "/lxc") |> ApiPathBuilder.maybe_arg "node" node)).
Definition pve_qemu_config (remote : string) (node : option string) (vmid : Z) (state : string) (snapshot : option string) : call :=
  expect_json (Http.get (ApiPathBuilder.new ("/api2/extjs/pve/remotes/" +:+ remote +:+ "/qemu/" +:+ show_Z vmid +:+ "/config") |> ApiPathBuilder.arg "state" state |> ApiPathBuilder.maybe_arg "node" node |> ApiPathBuilder.maybe_arg "snapshot" snapshot)).
Definition pve_qemu_status (remote : string) (node : option string) (vmid : Z) : call :=
  expect_json (Http.get (ApiPathBuilder.new ("/api2/extjs/pve/remotes/" +:+ remote +:+ "/qemu/" +:+ show_Z vmid +:+ "/status") |> ApiPathBuilder.maybe_arg "node" node)).
Definition pve_lxc_status (remote : string) (node : option string) (vmid : Z) : call :=
  expect_json (Http.get (ApiPathBuilder.new ("/api2/extjs/pve/remotes/" +:+ remote +:+ "/lxc/" +:+ show_Z vmid +:+ "/status") |> ApiPathBuilder.maybe_arg "node" node)).
Definition pve_qemu_start (remote : string) (node : option string) (vmid : Z) : call :=
  pve_change_guest_status remote node vmid "qemu" "start".
Definition pve_qemu_shutdown (remote : string) (node : option string) (vmid : Z) : call :=
  pve_change_guest_status remote node vmid "qemu" "shutdown".
Definition pve_qemu_stop (remote : string) (node : option string) (vmid : Z) : call :=
  pve_change_guest_status remote node vmid "qemu" "stop".
Definition pve_qemu_resume (remote : string) (node : option string) (vmid : Z) : call :=
  pve_change_guest_status remote node vmid "qemu" "resume".
Definition pve_qemu_reboot (remote : string) (node : option string) (vmid : Z) : call :=
  pve_change_guest_status remote node vmid "qemu" "reboot".
Definition pve_qemu_reset (remote : string) (node : option string) (vmid : Z) : call :=
  pve_change_guest_status remote node vmid "qemu" "reset".
Definition pve_qemu_suspend (remote : string) (node : option string) (vmid : Z) : call :=
  pve_change_guest_status remote node vmid "qemu" "suspend".
Definition pve_qemu_template (remote : string) (node : option string) (vmid : Z) : call :=
  pve_change_guest_status remote node vmid "qemu" "template".
Definition pve_delete_qemu (remote : string) (node : option string) (vmid : Z) : call :=
  expect_json (Http.delete (ApiPathBuilder.new ("/api2/extjs/pve/remotes/" +:+ remote +:+ "/qemu/" +:+ show_Z vmid) |> ApiPathBuilder.maybe_arg "node" node)).
Definition pve_update_qemu (remote : string) (node : option string) (vmid : Z) (config : Map) : call :=
  nodata (Http.put (ApiPathBuilder.new ("/api2/extjs/pve/remotes/" +:+ remote +:+ "/qemu/" +:+ show_Z vmid +:+ "/config") |> ApiPathBuilder.maybe_arg "node" node) (Some [Whole "UpdateQemu" config])).
Definition pve_clone_qemu (remote : string) (node : option string) (vmid : Z) (config : Map) : call :=
  expect_json (Http.post (ApiPathBuilder.new ("/api2/extjs/pve/remotes/" +:+ remote +:+ "/qemu/" +:+ show_Z vmid +:+ "/clone") |> ApiPathBuilder.maybe_arg "node" node) (Some [Whole "CloneQemu" config])).
Definition pve_qemu_list_snapshots (remote : string) (node : option string) (vmid : Z) : call :=
  expect_json (Http.get (ApiPathBuilder.new ("/api2/extjs/pve/remotes/" +:+ remote +:+ "/qemu/" +:+ show_Z vmid +:+ "/snapshot") |> ApiPathBuilder.maybe_arg "node" node)).
Definition pve_qemu_snapshot_create (remote : string) (node : option string) (vmid : Z) (snapname : string) (description : option string) (vmstate : option bool) : call :=
  expect_json (Http.post (url ("/api2/extjs/pve/remotes/" +:+ remote +:+ "/qemu/" +:+ show_Z vmid +:+ "/snapshot")) (Some [Fields [("snapname", VString snapname)]; opt_field "node" (VString <$> node); opt_field "description" (VString <$> description); opt_field "vmstate" (VBool <$> vmstate)])).
Definition pve_qemu_snapshot_delete (remote : string) (node : option string) (vmid : Z) (snapname : string) : call :=
  expect_json (Http.delete (ApiPathBuilder.new ("/api2/extjs/pve/remotes/" +:+ remote +:+ "/qemu/" +:+ show_Z vmid +:+ "/snapshot/" +:+ snapname) |> ApiPathBuilder.maybe_arg "node" node)).
Definition pve_qemu_snapshot_rollback (remote : string) (node : option string) (vmid : Z) (snapname : string) (start : option bool) : call :=
  expect_json (Http.post (url ("/api2/extjs/pve/remotes/" +:+ remote +:+ "/qemu/" +:+ show_Z vmid +:+ "/snapshot/" +:+ snapname +:+ "/rollback")) (Some [Fields []; opt_field "node" (VString <$> node); opt_field "start" (VBool <$> start)])).
Definition pve_qemu_snapshot_update_config (remote : string) (node : option string) (vmid : Z) (snapname : string) (description : option string) : call :=
  nodata (Http.put (url ("/api2/extjs/pve/remotes/" +:+ remote +:+ "/qemu/" +:+ show_Z vmid +:+ "/snapshot/" +:+ snapname +:+ "/config")) (Some [Fields []; opt_field "node" (VString <$> node); opt_field "description" (VString <$> description)])).
Definition pve_qemu_migrate (remote : string) (node : option string) (vmid : Z) (target : string) (params : MigrateQemu) : call :=
  expect_json (Http.post (url ("/api2/extjs/pve/remotes/" +:+ remote +:+ "/qemu/" +:+ show_Z vmid +:+ "/migrate")) (Some (serialize_MigrateQemu params ++ [Fields [("target", VString target)]; opt_field "node" (VString <$> node)]))).
Definition pve_qemu_remote_migrate (remote : string) (node : option string) (vmid : Z) (target : string) (target_endpoint : option string) (params : RemoteMigrateQemu) : call :=
  expect_json (Http.post (url ("/api2/extjs/pve/remotes/" +:+ remote +:+ "/qemu/" +:+ show_Z vmid +:+ "/remote-migrate")) (Some (serialize_RemoteMigrateQemu params ++ [Fields [("target", VString target)]; opt_field "node" (VString <$> node); opt_field "target-endpoint" (VString <$> target_endpoint)]))).
Definition pve_qemu_rrddata (remote : string) (vmid : Z) (mode : string) (timeframe : string) : call :=
  expect_json (Http.get (mkUrl ("/api2/extjs/pve/remotes/" +:+ remote +:+ "/qemu/" +:+ show_Z vmid +:+ "/rrddata") [("cf", mode); ("timeframe", timeframe)])).
Definition pve_lxc_config (remote : string) (node : option string) (vmid : Z) (state : string) (snapshot : option string) : call :=
  expect_json (Http.get (ApiPathBuilder.new ("/api2/extjs/pve/remotes/" +:+ remote +:+ "/lxc/" +:+ show_Z vmid +:+ "/config") |> ApiPathBuilder.maybe_arg "node" node |> ApiPathBuilder.arg "state" state |> ApiPathBuilder.maybe_arg "snapshot" snapshot)).
Definition pve_lxc_ip_addresses (remote : string) (node : option string) (vmid : Z) : call :=
  expect_json (Http.get (ApiPathBuilder.new ("/api2/extjs/pve/remotes/" +:+ remote +:+ "/lxc/" +:+ show_Z vmid +:+ "/ip-addresses") |> ApiPathBuilder.maybe_arg "node" node)).
Definition pve_qemu_ip_addresses (remote : string) (node : option string) (vmid : Z) : call :=
  expect_json (Http.get (ApiPathBuilder.new ("/api2/extjs/pve/remotes/" +:+ remote +:+ "/qemu/" +:+ show_Z vmid +:+ "/ip-addresses") |> ApiPathBuilder.maybe_arg "node" node)).
Definition pve_lxc_start (remote : string) (node : option string) (vmid : Z) : call :=
  pve_change_guest_status remote node vmid "lxc" "start".
Definition pve_lxc_list_snapshots (remote : string) (node : option string) (vmid : Z) : call :=
  expect_json (Http.get (ApiPathBuilder.new ("/api2/extjs/pve/remotes/" +:+ remote +:+ "/lxc/" +:+ show_Z vmid +:+ "/snapshot") |> ApiPathBuilder.maybe_arg "node" node)).
Definition pve_lxc_snapshot_create (remote : string) (node : option string) (vmid : Z) (snapname : string) (description : option string) : call :=
  expect_json (Http.post (url ("/api2/extjs/pve/remotes/" +:+ remote +:+ "/lxc/" +:+ show_Z vmid +:+ "/snapshot")) (Some [Fields [("snapname", VString snapname)]; opt_field "node" (VString <$> node); opt_field "description" (VString <$> description)])).
Definition pve_lxc_snapshot_delete (remote : string) (node : option string) (vmid : Z) (snapname : string) : call :=
  expect_json (Http.delete (ApiPathBuilder.new ("/api2/extjs/pve/remotes/" +:+ remote +:+ "/lxc/" +:+ show_Z vmid +:+ "/snapshot/" +:+ snapname) |> ApiPathBuilder.maybe_arg "node" node)).
Definition pve_lxc_snapshot_rollback (remote : string) (node : option string) (vmid : Z) (snapname : string) (start : option bool) : call :=
  expect_json (Http.post (url ("/api2/extjs/pve/remotes/" +:+ remote +:+ "/lxc/" +:+ show_Z vmid +:+ "/snapshot/" +:+ snapname +:+ "/rollback")) (Some [Fields []; opt_field "node" (VString <$> node); opt_field "start" (VBool <$> start)])).
Definition pve_lxc_snapshot_update_config (remote : string) (node : option string) (vmid : Z) (snapname : string) (description : option string) : call :=
  nodata (Http.put (url ("/api2/extjs/pve/remotes/" +:+ remote +:+ "/lxc/" +:+ show_Z vmid +:+ "/snapshot/" +:+ snapname +:+ "/config")) (Some [Fields []; opt_field "node" (VString <$> node); opt_field "description" (VString <$> description)])).
Definition pve_lxc_shutdown (remote : string) (node : option string) (vmid : Z) : call :=
  pve_change_guest_status remote node vmid "lxc" "shutdown".
Definition pve_lxc_stop (remote : string) (node : option string) (vmid : Z) : call :=
  pve_change_guest_status remote node vmid "lxc" "stop".
Definition pve_lxc_reboot (remote : string) (node : option string) (vmid : Z) : call :=
  pve_change_guest_status remote node vmid "lxc" "reboot".
Definition pve_lxc_resume (remote : string) (node : option string) (vmid : Z) : call :=
  pve_change_guest_status remote node vmid "lxc" "resume".
Definition pve_lxc_suspend (remote : string) (node : option string) (vmid : Z) : call :=
  pve_change_guest_status remote node vmid "lxc" "suspend".
Definition pve_lxc_template (remote : string) (node : option string) (vmid : Z) : call :=
  pve_change_guest_status remote node vmid "lxc" "template".
Definition pve_delete_lxc (remote : string) (node : option string) (vmid : Z) : call :=
  expect_json (Http.delete (ApiPathBuilder.new ("/api2/extjs/pve/remotes/" +:+ remote +:+ "/lxc/" +:+ show_Z vmid) |> ApiPathBuilder.maybe_arg "node" node)).
Definition pve_lxc_migrate (remote : string) (node : option string) (vmid : Z) (target : string) (params : MigrateLxc) : call :=
  expect_json (Http.post (url ("/api2/extjs/pve/remotes/" +:+ remote +:+ "/lxc/" +:+ show_Z vmid +:+ "/migrate")) (Some (serialize_MigrateLxc params ++ [Fields [("target", VString target)]; opt_field "node" (VString <$> node)]))).
Definition pve_lxc_remote_migrate (remote : string) (node : option string) (vmid : Z) (target : string) (target_endpoint : option string) (params : RemoteMigrateLxc) : call :=
  expect_json (Http.post (url ("/api2/extjs/pve/remotes/" +:+ remote +:+ "/lxc/" +:+ show_Z vmid +:+ "/remote-migrate")) (Some (serialize_RemoteMigrateLxc params ++ [Fields [("target", VString target)]; opt_field "node" (VString <$> node); opt_field "target-endpoint" (VString <$> target_endpoint)]))).
Definition pve_lxc_rrddata (remote : string) (vmid : Z) (mode : string) (timeframe : string) : call :=
  expect_json (Http.get (mkUrl ("/api2/extjs/pve/remotes/" +:+ remote +:+ "/lxc/" +:+ show_Z vmid +:+ "/rrddata") [("cf", mode); ("timeframe", timeframe)])).
Definition pve_list_tasks (remote : string) (node : option string) : call :=
  expect_json (Http.get (ApiPathBuilder.new ("/api2/extjs/pve/remotes/" +:+ remote +:+ "/tasks") |> ApiPathBuilder.maybe_arg "node" node)).
Definition pve_stop_task (remote : string) (upid : string) : call :=
  expect_json (Http.delete (url ("/api2/extjs/pve/remotes/" +:+ remote +:+ "/tasks/" +:+ upid))).
Definition pve_update_lxc (remote : string) (node : option string) (vmid : Z) (config : Map) : call :=
  nodata (Http.put (ApiPathBuilder.new ("/api2/extjs/pve/remotes/" +:+ remote +:+ "/lxc/" +:+ show_Z vmid +:+ "/config") |> ApiPathBuilder.maybe_arg "node" node) (Some [Whole "UpdateLxc" config])).
Definition pve_clone_lxc (remote : string) (node : option string) (vmid : Z) (config : Map) : call :=
  expect_json (Http.post (ApiPathBuilder.new ("/api2/extjs/pve/remotes/" +:+ remote +:+ "/lxc/" +:+ show_Z vmid +:+ "/clone") |> ApiPathBuilder.maybe_arg "node" node) (Some [Whole "CloneLxc" config])).
Definition pve_task_status (upid : RemoteUpid) : call :=
  let remote := ru_remote upid in
  let upid := remote_upid_to_string upid in
  expect_json (Http.get (url ("/api2/extjs/pve/remotes/" +:+ remote +:+ "/tasks/" +:+ upid +:+ "/status"))).
Definition pve_wait_for_task (upid : RemoteUpid) : call :=
  let remote := ru_remote upid in
  let upid := remote_upid_to_string upid in
  expect_json (Http.get (mkUrl ("/api2/extjs/pve/remotes/" +:+ remote +:+ "/tasks/" +:+ upid +:+ "/status") [("wait", "1")])).
Definition wait_for_local_task (upid : string) : call :=
  expect_json (Http.get (url ("/api2/extjs/nodes/localhost/tasks/" +:+ upid +:+ "/status"))).
Definition read_acl (path : option string) (exact : bool) : call :=
  expect_digest (Http.get (ApiPathBuilder.new "/api2/extjs/access/acl" |> ApiPathBuilder.arg "exact" (if exact then "1" else "0") |> ApiPathBuilder.maybe_arg "path" path)).
Definition update_acl (recipient : AclRecipient) (path role : string) (propagate : bool) (digest : option Value) : call :=
  nodata (Http.put (url "/api2/extjs/access/acl")
    (Some [Fields [("path", VString path); ("role", VString role); ("propagate", VBool propagate)];
           Fields (serialize_AclRecipient recipient); opt_field "digest" digest])).
Definition delete_acl (recipient : AclRecipient) (path role : string) (digest : option Value) : call :=
  nodata (Http.put (url "/api2/extjs/access/acl")
    (Some [Fields [("path", VString path); ("role", VString role)]; Fields (serialize_AclRecipient recipient);
           Fields [("delete", VBool true)]; opt_field "digest" digest])).
Definition pbs_list_datastores (remote : string) : call :=
  expect_json (Http.get (url ("/api2/extjs/pbs/remotes/" +:+ remote +:+ "/datastore"))).
Definition pbs_list_snapshots (remote : string) (store : string) (namespace : option string) : call :=
  expect_json (Http.get (ApiPathBuilder.new ("/api2/extjs/pbs/remotes/" +:+ remote +:+ "/datastore/" +:+ store +:+ "/snapshots") |> ApiPathBuilder.maybe_arg "ns" namespace)).
Definition pbs_node_rrddata (remote : string) (mode : string) (timeframe : string) : call :=
  expect_json (Http.get (mkUrl ("/api2/extjs/pbs/remotes/" +:+ remote +:+ "/rrddata") [("cf", mode); ("timeframe", timeframe)])).
Definition pbs_node_status (remote : string) : call :=
  expect_json (Http.get (url ("/api2/extjs/pbs/remotes/" +:+ remote +:+ "/status"))).
Definition pbs_datastore_rrddata (remote : string) (store : string) (mode : string) (timeframe : string) : call :=
  expect_json (Http.get (ApiPathBuilder.new ("/api2/extjs/pbs/remotes/" +:+ remote +:+ "/datastore/" +:+ store +:+ "/rrddata") |> ApiPathBuilder.arg "cf" mode |> ApiPathBuilder.arg "timeframe" timeframe)).
Definition pbs_list_tasks (remote : string) : call :=
  expect_json (Http.get (url ("/api2/extjs/pbs/remotes/" +:+ remote +:+ "/tasks"))).
Definition pbs_task_status (upid : RemoteUpid) : call :=
  let remote := ru_remote upid in
  let upid := remote_upid_to_string upid in
  expect_json (Http.get (url ("/api2/extjs/pbs/remotes/" +:+ remote +:+ "/tasks/" +:+ upid +:+ "/status"))).
Definition resources (max_age : option Z) (view : option string) : call :=
  expect_json (Http.get (ApiPathBuilder.new ("/api2/extjs/resources/list") |> ApiPathBuilder.maybe_arg "max-age" (show_Z <$> max_age) |> ApiPathBuilder.maybe_arg "view" view)).
Definition resources_by_type (max_age : option Z) (resource_type : string) (view : option string) (search : option string) : call :=
  expect_json (Http.get (ApiPathBuilder.new ("/api2/extjs/resources/list") |> ApiPathBuilder.maybe_arg "max-age" (show_Z <$> max_age) |> ApiPathBuilder.arg "resource-type" resource_type |> ApiPathBuilder.maybe_arg "view" view |> ApiPathBuilder.maybe_arg "search" search)).
Definition get_subscription_status (max_age : option Z) (verbose : option bool) (view : option string) : call :=
  expect_json (Http.get (ApiPathBuilder.new ("/api2/extjs/resources/subscription") |> ApiPathBuilder.maybe_arg "max-age" (show_Z <$> max_age) |> ApiPathBuilder.maybe_arg "verbose" (show_bool <$> verbose) |> ApiPathBuilder.maybe_arg "view" view)).
Definition list_subscription_keys : call :=
  expect_digest (Http.get (url "/api2/extjs/subscriptions/keys")).
Definition add_subscription_keys (keys : list string) (digest : option Value) : call :=
  expect_json (Http.post (url "/api2/extjs/subscriptions/keys") (Some [Fields [("keys", VArray (VString <$> keys))]; opt_field "digest" (digest)])).
Definition set_subscription_assignment (key : string) (remote : string) (node : string) (digest : option Value) : call :=
  nodata (Http.post (url ("/api2/extjs/subscriptions/keys/" +:+ key +:+ "/assignment")) (Some [Fields [("remote", VString remote)]; Fields [("node", VString node)]; opt_field "digest" (digest)])).
Definition clear_subscription_assignment (key : string) (digest : option Value) : call :=
  nodata (Http.delete (ApiPathBuilder.new ("/api2/extjs/subscriptions/keys/" +:+ key +:+ "/assignment")
    |> ApiPathBuilder.maybe_arg "digest" (digest_to_string <$> digest))).
Definition delete_subscription_key (key : string) : call :=
  nodata (Http.delete (url ("/api2/extjs/subscriptions/keys/" +:+ key))).
Definition subscription_node_status (max_age : option Z) : call :=
  expect_json (Http.get (ApiPathBuilder.new ("/api2/extjs/subscriptions/node-status") |> ApiPathBuilder.maybe_arg "max-age" (show_Z <$> max_age))).
Definition subscription_auto_assign : call :=
  expect_json (Http.post (url "/api2/extjs/subscriptions/auto-assign") (Some [Fields []])).
Definition subscription_bulk_assign (proposal : Value) : call :=
  expect_json (Http.post (url "/api2/extjs/subscriptions/bulk-assign") (Some [Fields [("proposal", proposal)]])).
Definition subscription_apply_pending (digest : option Value) : call :=
  expect_json (Http.post (url "/api2/extjs/subscriptions/apply-pending") (Some [opt_field "digest" (digest)])).
Definition subscription_adopt_key (remote : string) (node : string) (digest : option Value) : call :=
  nodata (Http.post (url "/api2/extjs/subscriptions/adopt-key") (Some [Fields [("remote", VString remote)]; Fields [("node", VString node)]; opt_field "digest" (digest)])).
Definition subscription_adopt_all (digest : option Value) : call :=
  expect_json (Http.post (url "/api2/extjs/subscriptions/adopt-all") (Some [opt_field "digest" (digest)])).
Definition subscription_queue_clear (remote : string) (node : string) (digest : option Value) : call :=
  nodata (Http.post (url "/api2/extjs/subscriptions/queue-clear") (Some [Fields [("remote", VString remote)]; Fields [("node", VString node)]; opt_field "digest" (digest)])).
Definition subscription_revert_pending_clear (remote : string) (node : string) (digest : option Value) : call :=
  nodata (Http.post (url "/api2/extjs/subscriptions/revert-pending-clear") (Some [Fields [("remote", VString remote)]; Fields [("node", VString node)]; opt_field "digest" (digest)])).
Definition subscription_check (remote : string) (node : string) : call :=
  nodata (Http.post (url "/api2/extjs/subscriptions/check") (Some [Fields [("remote", VString remote)]; Fields [("node", VString node)]])).
Definition subscription_clear_pending (digest : option Value) : call :=
  expect_json (Http.post (url "/api2/extjs/subscriptions/clear-pending") (Some [opt_field "digest" digest])).
Definition pve_list_networks (remote : string) (node : string) (interface_type : option string) : call :=
  expect_json (Http.get (ApiPathBuilder.new ("/api2/extjs/pve/remotes/" +:+ remote +:+ "/nodes/" +:+ node +:+ "/network") |> ApiPathBuilder.maybe_arg "interface-type" interface_type)).
Definition pve_create_qemu (remote : string) (node : string) (config : Map) : call :=
  expect_json (Http.post (url ("/api2/extjs/pve/remotes/" +:+ remote +:+ "/qemu")) (Some [Whole "CreateQemu" config; Fields [("node", VString node)]])).
Definition pve_create_lxc (remote : string) (node : string) (config : Map) : call :=
  expect_json (Http.post (url ("/api2/extjs/pve/remotes/" +:+ remote +:+ "/lxc")) (Some [Whole "CreateLxc" config; Fields [("node", VString node)]])).
Definition pve_list_backup_jobs (remote : string) : call :=
  expect_json (Http.get (url ("/api2/extjs/pve/remotes/" +:+ remote +:+ "/backup"))).
Definition pve_create_backup_job (remote : string) (config : Map) : call :=
  nodata (Http.post (url ("/api2/extjs/pve/remotes/" +:+ remote +:+ "/backup")) (Some [Whole "PveBackupJobConfig" config])).
Definition pve_update_backup_job (remote : string) (id : string) (config : Map) : call :=
  nodata (Http.put (url ("/api2/extjs/pve/remotes/" +:+ remote +:+ "/backup/" +:+ id)) (Some [Whole "PveBackupJobConfig" config])).
Definition pve_delete_backup_job (remote : string) (id : string) : call :=
  nodata (Http.delete (url ("/api2/extjs/pve/remotes/" +:+ remote +:+ "/backup/" +:+ id))).
Definition pve_run_vzdump (remote : string) (request : Map) : call :=
  expect_json (Http.post (url ("/api2/extjs/pve/remotes/" +:+ remote +:+ "/vzdump")) (Some [Whole "PveVzdumpRequest" request])).
Definition pve_list_backup_content (remote : string) (node : option string) (vmid : option Z) (storage : option string) : call :=
  expect_json (Http.get (ApiPathBuilder.new ("/api2/extjs/pve/remotes/" +:+ remote +:+ "/backup-content") |> ApiPathBuilder.maybe_arg "node" node |> ApiPathBuilder.maybe_arg "vmid" (show_Z <$> vmid) |> ApiPathBuilder.maybe_arg "storage" storage)).
Definition pve_restore_backup (remote : string) (request : Map) : call :=
  expect_json (Http.post (url ("/api2/extjs/pve/remotes/" +:+ remote +:+ "/restore")) (Some [Whole "PveRestoreRequest" request])).
Definition pve_list_replication_jobs (remote : string) : call :=
  expect_json (Http.get (url ("/api2/extjs/pve/remotes/" +:+ remote +:+ "/replication"))).
Definition pve_list_replication_status (remote : string) : call :=
  expect_json (Http.get (url ("/api2/extjs/pve/remotes/" +:+ remote +:+ "/replication-status"))).
Definition pve_create_replication_job (remote : string) (config : Map) : call :=
  nodata (Http.post (url ("/api2/extjs/pve/remotes/" +:+ remote +:+ "/replication")) (Some [Whole "PveReplicationJobConfig" config])).
Definition pve_update_replication_job (remote : string) (id : string) (config : Map) : call :=
  nodata (Http.put (url ("/api2/extjs/pve/remotes/" +:+ remote +:+ "/replication/" +:+ id)) (Some [Whole "PveReplicationJobConfig" config])).
Definition pve_delete_replication_job (remote : string) (id : string) : call :=
  nodata (Http.delete (url ("/api2/extjs/pve/remotes/" +:+ remote +:+ "/replication/" +:+ id))).
Definition pve_replication_status (remote : string) (id : string) (node : string) : call :=
  expect_json (Http.get (ApiPathBuilder.new ("/api2/extjs/pve/remotes/" +:+ remote +:+ "/replication/" +:+ id +:+ "/status") |> ApiPathBuilder.arg "node" node)).
Definition pve_run_replication_job (remote : string) (id : string) (node : string) : call :=
  expect_json (Http.post (ApiPathBuilder.new ("/api2/extjs/pve/remotes/" +:+ remote +:+ "/replication/" +:+ id +:+ "/run") |> ApiPathBuilder.arg "node" node) (Some [Fields []])).
Definition list_backup_jobs : call :=
  expect_json (Http.get (url "/api2/extjs/backup-jobs")).
Definition read_backup_job (id : string) : call :=
  expect_json (Http.get (url ("/api2/extjs/backup-jobs/" +:+ id +:+ "/config"))).
Definition create_backup_job (job : Map) : call :=
  nodata (Http.post (url "/api2/extjs/backup-jobs") (Some [Whole "BackupJobConfig" job])).
Definition update_backup_job (id : string) (update : Map) : call :=
  nodata (Http.put (url ("/api2/extjs/backup-jobs/" +:+ id)) (Some [Whole "BackupJobConfigUpdater" update])).
Definition delete_backup_job (id : string) : call :=
  nodata (Http.delete (url ("/api2/extjs/backup-jobs/" +:+ id))).
Definition backup_job_status (id : string) : call :=
  expect_json (Http.get (url ("/api2/extjs/backup-jobs/" +:+ id +:+ "/status"))).
Definition sync_backup_job (id : string) : call :=
  expect_json (Http.post (url ("/api2/extjs/backup-jobs/" +:+ id +:+ "/sync")) (Some [Fields []])).
Definition run_backup_job (id : string) : call :=
  expect_json (Http.post (url ("/api2/extjs/backup-jobs/" +:+ id +:+ "/run")) (Some [Fields []])).
Definition pbs_pve_storage_state (remote : string) (datastore : string) : call :=
  expect_json (Http.get (ApiPathBuilder.new ("/api2/extjs/pbs/remotes/" +:+ remote +:+ "/pve-storage") |> ApiPathBuilder.arg "datastore" datastore)).
Definition pbs_attach_storage_to_pve (remote : string) (request : Map) : call :=
  expect_json (Http.post (url ("/api2/extjs/pbs/remotes/" +:+ remote +:+ "/pve-storage")) (Some [Whole "PbsAttachRequest" request])).
Definition pbs_list_prune_jobs (remote : string) : call :=
  expect_json (Http.get (url ("/api2/extjs/pbs/remotes/" +:+ remote +:+ "/prune-jobs"))).
Definition pbs_create_prune_job (remote : string) (job : Map) : call :=
  nodata (Http.post (url ("/api2/extjs/pbs/remotes/" +:+ remote +:+ "/prune-jobs")) (Some [Whole "PbsPruneJob" job])).
Definition pbs_update_prune_job (remote : string) (id : string) (job : Map) : call :=
  nodata (Http.put (url ("/api2/extjs/pbs/remotes/" +:+ remote +:+ "/prune-jobs/" +:+ id)) (Some [Whole "PbsPruneJob" job])).
Definition pbs_delete_prune_job (remote : string) (id : string) : call :=
  nodata (Http.delete (url ("/api2/extjs/pbs/remotes/" +:+ remote +:+ "/prune-jobs/" +:+ id))).
Definition pbs_run_prune_job (remote : string) (id : string) : call :=
  expect_json (Http.post (url ("/api2/extjs/pbs/remotes/" +:+ remote +:+ "/prune-jobs/" +:+ id +:+ "/run")) (Some [Fields []])).
Definition pbs_list_verify_jobs (remote : string) : call :=
  expect_json (Http.get (url ("/api2/extjs/pbs/remotes/" +:+ remote +:+ "/verify-jobs"))).
Definition pbs_create_verify_job (remote : string) (job : Map) : call :=
  nodata (Http.post (url ("/api2/extjs/pbs/remotes/" +:+ remote +:+ "/verify-jobs")) (Some [Whole "PbsVerifyJob" job])).
Definition pbs_update_verify_job (remote : string) (id : string) (job : Map) : call :=
  nodata (Http.put (url ("/api2/extjs/pbs/remotes/" +:+ remote +:+ "/verify-jobs/" +:+ id)) (Some [Whole "PbsVerifyJob" job])).
Definition pbs_delete_verify_job (remote : string) (id : string) : call :=
  nodata (Http.delete (url ("/api2/extjs/pbs/remotes/" +:+ remote +:+ "/verify-jobs/" +:+ id))).
Definition pbs_run_verify_job (remote : string) (id : string) : call :=
  expect_json (Http.post (url ("/api2/extjs/pbs/remotes/" +:+ remote +:+ "/verify-jobs/" +:+ id +:+ "/run")) (Some [Fields []])).
Definition pbs_list_sync_jobs (remote : string) : call :=
  expect_json (Http.get (url ("/api2/extjs/pbs/remotes/" +:+ remote +:+ "/sync-jobs"))).
Definition pbs_create_sync_job (remote : string) (job : Map) : call :=
  nodata (Http.post (url ("/api2/extjs/pbs/remotes/" +:+ remote +:+ "/sync-jobs")) (Some [Whole "PbsSyncJob" job])).
Definition pbs_update_sync_job (remote : string) (id : string) (job : Map) : call :=
  nodata (Http.put (url ("/api2/extjs/pbs/remotes/" +:+ remote +:+ "/sync-jobs/" +:+ id)) (Some [Whole "PbsSyncJob" job])).
Definition pbs_delete_sync_job (remote : string) (id : string) : call :=
  nodata (Http.delete (url ("/api2/extjs/pbs/remotes/" +:+ remote +:+ "/sync-jobs/" +:+ id))).
Definition pbs_run_sync_job (remote : string) (id : string) : call :=
  expect_json (Http.post (url ("/api2/extjs/pbs/remotes/" +:+ remote +:+ "/sync-jobs/" +:+ id +:+ "/run")) (Some [Fields []])).
Definition pbs_datastore_gc_status (remote : string) (datastore : string) : call :=
  expect_json (Http.get (url ("/api2/extjs/pbs/remotes/" +:+ remote +:+ "/datastore/" +:+ datastore +:+ "/maintenance/gc"))).
Definition pbs_run_datastore_gc (remote : string) (datastore : string) : call :=
  expect_json (Http.post (url ("/api2/extjs/pbs/remotes/" +:+ remote +:+ "/datastore/" +:+ datastore +:+ "/maintenance/gc")) (Some [Fields []])).
Definition pbs_prune_datastore (remote : string) (datastore : string) (request : Map) : call :=
  expect_json (Http.post (url ("/api2/extjs/pbs/remotes/" +:+ remote +:+ "/datastore/" +:+ datastore +:+ "/maintenance/prune")) (Some [Whole "PbsPruneRequest" request])).
Definition pbs_set_snapshot_protection (remote : string) (datastore : string) (request : Map) : call :=
  nodata (Http.put (url ("/api2/extjs/pbs/remotes/" +:+ remote +:+ "/datastore/" +:+ datastore +:+ "/snapshot-actions/protected")) (Some [Whole "PbsSnapshotProtection" request])).
Definition pbs_set_snapshot_notes (remote : string) (datastore : string) (request : Map) : call :=
  nodata (Http.put (url ("/api2/extjs/pbs/remotes/" +:+ remote +:+ "/datastore/" +:+ datastore +:+ "/snapshot-actions/notes")) (Some [Whole "PbsSnapshotNotes" request])).
Definition pbs_verify_snapshot (remote : string) (datastore : string) (snapshot : Map) : call :=
  expect_json (Http.post (url ("/api2/extjs/pbs/remotes/" +:+ remote +:+ "/datastore/" +:+ datastore +:+ "/snapshot-actions/verify")) (Some [Whole "PbsSnapshotRef" snapshot])).
Definition pbs_forget_snapshot (remote datastore : string) (snapshot : PbsSnapshotRef) : call :=
  nodata (Http.delete (ApiPathBuilder.new ("/api2/extjs/pbs/remotes/" +:+ remote +:+ "/datastore/" +:+ datastore +:+ "/snapshot-actions/forget")
    |> ApiPathBuilder.arg "backup-type" (pr_backup_type snapshot) |> ApiPathBuilder.arg "backup-id" (pr_backup_id snapshot)
    |> ApiPathBuilder.arg "backup-time" (show_Z (pr_backup_time snapshot)) |> ApiPathBuilder.maybe_arg "ns" (pr_ns snapshot))).
Definition pve_list_storages (remote node : string) (filter : PveListStoragesFilter) (include_supported_disk_image_formats : bool) : call :=
  let builder := ApiPathBuilder.new ("/api2/extjs/pve/remotes/" +:+ remote +:+ "/nodes/" +:+ node +:+ "/storage")
    |> ApiPathBuilder.arg "format" (show_bool include_supported_disk_image_formats)
    |> ApiPathBuilder.maybe_arg "enabled" (show_bool <$> sf_enabled filter) |> ApiPathBuilder.maybe_arg "storage" (sf_storage filter)
    |> ApiPathBuilder.maybe_arg "target" (sf_target filter) in
  expect_json (Http.get (foldl (λ builder ty, builder |> ApiPathBuilder.arg "content" ty) builder (sf_content filter))).
Definition pve_storage_status (remote : string) (node : string) (storage : string) : call :=
  expect_json (Http.get (url ("/api2/extjs/pve/remotes/" +:+ remote +:+ "/nodes/" +:+ node +:+ "/storage/" +:+ storage +:+ "/status"))).
Definition pve_list_storage_content (remote : string) (node : string) (storage : string) (content : string) : call :=
  expect_json (Http.get (ApiPathBuilder.new ("/api2/extjs/pve/remotes/" +:+ remote +:+ "/nodes/" +:+ node +:+ "/storage/" +:+ storage +:+ "/content") |> ApiPathBuilder.arg "content" content)).
Definition pve_download_storage_content (remote : string) (node : string) (storage : string) (download : Map) : call :=
  expect_json (Http.post (url ("/api2/extjs/pve/remotes/" +:+ remote +:+ "/nodes/" +:+ node +:+ "/storage/" +:+ storage +:+ "/download-url")) (Some [Whole "PveDownloadUrl" download])).
Definition pve_list_appliances (remote : string) (node : string) : call :=
  expect_json (Http.get (url ("/api2/extjs/pve/remotes/" +:+ remote +:+ "/nodes/" +:+ node +:+ "/aplinfo"))).
Definition pve_download_appliance (remote node storage template : string) : call :=
  expect_json (Http.post (url ("/api2/extjs/pve/remotes/" +:+ remote +:+ "/nodes/" +:+ node +:+ "/storage/" +:+ storage +:+ "/aplinfo"))
    (Some [Whole "PveDownloadAppliance" [("template", VString template)]])).
Definition pve_storage_rrddata (remote : string) (node : string) (storage : string) (mode : string) (timeframe : string) : call :=
  expect_json (Http.get (mkUrl ("/api2/extjs/pve/remotes/" +:+ remote +:+ "/nodes/" +:+ node +:+ "/storage/" +:+ storage +:+ "/rrddata") [("cf", mode); ("timeframe", timeframe)])).
Definition get_top_entities (view : option string) : call :=
  expect_json (Http.get (ApiPathBuilder.new "/api2/extjs/resources/top-entities" |> ApiPathBuilder.maybe_arg "view" view)).
Definition pve_node_status (remote : string) (node : string) : call :=
  expect_json (Http.get (url ("/api2/extjs/pve/remotes/" +:+ remote +:+ "/nodes/" +:+ node +:+ "/status"))).
Definition pve_qemu_migrate_preconditions (remote : string) (node : option string) (vmid : Z) (target : option string) : call :=
  expect_json (Http.get (ApiPathBuilder.new ("/api2/extjs/pve/remotes/" +:+ remote +:+ "/qemu/" +:+ show_Z vmid +:+ "/migrate") |> ApiPathBuilder.maybe_arg "node" node |> ApiPathBuilder.maybe_arg "target" target)).
Definition pve_probe_tls (hostname : string) (fingerprint : option string) : call :=
  probe_tls hostname fingerprint RemoteType.Pve.
Definition pve_scan_remote (hostname : string) (fingerprint : option string) (authid token : string) : call :=
  scan_remote hostname fingerprint authid token RemoteType.Pve.
Definition pve_sdn_list_controllers (pending : option bool) (running : option bool) (ty : option string) : call :=
  expect_json (Http.get (ApiPathBuilder.new ("/api2/extjs/sdn/controllers") |> ApiPathBuilder.maybe_arg "pending" (show_bool <$> pending) |> ApiPathBuilder.maybe_arg "running" (show_bool <$> running) |> ApiPathBuilder.maybe_arg "ty" ty)).
Definition pve_sdn_list_zones (pending : option bool) (running : option bool) (ty : option string) : call :=
  expect_json (Http.get (ApiPathBuilder.new ("/api2/extjs/sdn/zones") |> ApiPathBuilder.maybe_arg "pending" (show_bool <$> pending) |> ApiPathBuilder.maybe_arg "running" (show_bool <$> running) |> ApiPathBuilder.maybe_arg "ty" ty)).
Definition pve_sdn_list_vnets (pending : option bool) (running : option bool) : call :=
  expect_json (Http.get (ApiPathBuilder.new ("/api2/extjs/sdn/vnets") |> ApiPathBuilder.maybe_arg "pending" (show_bool <$> pending) |> ApiPathBuilder.maybe_arg "running" (show_bool <$> running))).
Definition pve_sdn_create_zone (params : CreateZoneParams) : call :=
  expect_json (Http.post (url "/api2/extjs/sdn/zones") (Some [Fields (serialize_CreateZoneParams params)])).
Definition pve_sdn_create_vnet (params : CreateVnetParams) : call :=
  expect_json (Http.post (url "/api2/extjs/sdn/vnets") (Some [Fields (serialize_CreateVnetParams params)])).
Definition pve_sdn_zone_get_ip_vrf (remote : string) (node : string) (zone : string) : call :=
  expect_json (Http.get (url ("/api2/extjs/pve/remotes/" +:+ remote +:+ "/nodes/" +:+ node +:+ "/sdn/zones/" +:+ zone +:+ "/ip-vrf"))).
Definition pve_sdn_vnet_get_mac_vrf (remote : string) (node : string) (vnet : string) : call :=
  expect_json (Http.get (url ("/api2/extjs/pve/remotes/" +:+ remote +:+ "/nodes/" +:+ node +:+ "/sdn/vnets/" +:+ vnet +:+ "/mac-vrf"))).
Definition pbs_probe_tls (hostname : string) (fingerprint : option string) : call :=
  probe_tls hostname fingerprint RemoteType.Pbs.
Definition pbs_scan_remote (hostname : string) (fingerprint : option string) (authid token : string) : call :=
  scan_remote hostname fingerprint authid token RemoteType.Pbs.
Definition remote_update_summary : call :=
  expect_json (Http.get (url "/api2/extjs/remotes/updates/summary")).
Definition refresh_remote_update_summary : call :=
  expect_json (Http.post (url "/api2/extjs/remotes/updates/refresh") None).
Definition list_views : call :=
  expect_json (Http.get (url "/api2/extjs/config/views")).
Definition get_autoinst_installations : call :=
  expect_json (Http.get (url "/api2/extjs/auto-install/installations")).
Definition delete_autoinst_installation (id : string) : call :=
  nodata (Http.delete (url ("/api2/extjs/auto-install/installations/" +:+ id))).
Definition get_autoinst_prepared_answers : call :=
  expect_json (Http.get (url "/api2/extjs/auto-install/prepared")).
Definition add_autoinst_prepared_answer (config : Map) (root_password : option string) : call :=
  expect_json (Http.post (url "/api2/extjs/auto-install/prepared") (Some [Whole "PreparedInstallationConfig" config; opt_field "root-password" (VString <$> root_password)])).
Definition update_autoinst_prepared_answer (id : string) (updater : Map) (root_password : option string) (delete : list string) : call :=
  expect_json (Http.put (url ("/api2/extjs/auto-install/prepared/" +:+ id))
    (Some [Whole "PreparedInstallationConfigUpdater" updater; opt_field "root-password" (VString <$> root_password); list_field "delete" delete])).
Definition delete_autoinst_prepared_answer (id : string) : call :=
  nodata (Http.delete (url ("/api2/extjs/auto-install/prepared/" +:+ id))).
Definition get_autoinst_tokens : call :=
  expect_json (Http.get (url "/api2/extjs/auto-install/tokens")).
Definition add_autoinst_token (id : string) (comment : option string) (enabled : option bool) (expire_at : option Z) : call :=
  expect_json (Http.post (url "/api2/extjs/auto-install/tokens")
    (Some [Fields [("id", VString id); ("comment", from_option VString VNull comment); ("enabled", from_option VBool VNull enabled);
                   ("expire-at", from_option int_value VNull expire_at)]])).
Definition update_autoinst_token (id : string) (updater : Map) (delete : list string) (regenerate_secret : bool) : call :=
  expect_json (Http.put (url ("/api2/extjs/auto-install/tokens/" +:+ id))
    (Some [Whole "AnswerTokenUpdater" updater; list_field "delete" delete; Fields [("regenerate-secret", VBool regenerate_secret)]])).
Definition delete_autoinst_token (id : string) : call :=
  nodata (Http.delete (url ("/api2/extjs/auto-install/tokens/" +:+ id))).
Definition certificate_info : call :=
  expect_json (Http.get (url "/api2/extjs/nodes/localhost/certificates/info")).
End digests.

(** ** What is read from answers *)

(** [proxmox_tfa::TfaUpdateInfo], as far as it is used. *)
Record TfaUpdateInfo : Type := mkTfaUpdateInfo { ti_id : option string; ti_challenge : option string; ti_recovery : list string }.
Definition recovery_keys (info : TfaUpdateInfo) : result error (list string) :=
  match ti_recovery info with [] => Err (EMsg "api returned empty list of recovery keys") | keys => Ok keys end.
Definition webauthn_challenge (info : TfaUpdateInfo) : result error string :=
  ok_or (ti_challenge info) (EMsg "api returned no challenge to confirm webauthn entry").
Definition webauthn_id (info : TfaUpdateInfo) : result error string :=
  ok_or (ti_id info) (EMsg "api returned no webauthn entry id").

(** The loop of [wait_for_local_task] over the answers to its requests. *)
Fixpoint local_task_result (answers : list (result error Value)) : option (result error Value) :=
  match answers with
  | [] => None
  | Err e :: _ => Some (Err e)
  | Ok body :: answers =>
      if bool_decide ((JsonValue.get body "status" ≫= as_str) = Some "running") then local_task_result answers else Some (Ok body)
  end.
