(* ===== verification/ClientContract.v ===== *)
(** * The client library and the API tree

    The requests of [PdmClient] against the tree of [ApiTree]: every method of the client
    reaches the handler it is meant for, which declares all parameters that are sent and
    gets all parameters that it requires. *)

From S2P Require Import Prelude RemoteUpid JsonValue SdnClient ApiRouter ApiPve ApiPbs ApiConfig ApiMain ApiTree PdmClient.
#[local] Open Scope string_scope.
#[local] Open Scope list_scope.

(** ** Paths *)

Fixpoint split_path (component path : string) : list string :=
  match path with
  | EmptyString => [component]
  | String "/" path => component :: split_path "" path
  | String c path => split_path (component +:+ String c "") path
  end.
(** The path in the API tree of a URL of the client. *)
Definition api_path (path : string) : option (list string) :=
  match split_path "" path with "" :: "api2" :: "extjs" :: components => Some components | _ => None end.

(** The client does not encode what it prints into a path; this are the strings that stand
    for themselves as a component. *)
Definition path_char (c : ascii) : bool := negb (existsb (Ascii.eqb c) ["/"; "?"; "#"; "%"]%char).
Definition path_arg (s : string) : bool :=
  match s with String c _ => negb (Ascii.eqb c ".") && str_forall path_char s | EmptyString => false end.

Lemma split_chars acc x s : str_forall path_char x = true → split_path acc (x +:+ s) = split_path (acc +:+ x) s.
Proof.
  revert acc. induction x as [|c x IH]; intros acc Hx; [by rewrite str_app_nil_r|].
  cbn in Hx. apply andb_true_iff in Hx as [Hc Hx]. change (String c x +:+ s) with (String c (x +:+ s)).
  assert (split_path acc (String c (x +:+ s)) = split_path (acc +:+ String c "") (x +:+ s)) as ->.
  { cbn. destruct c as [[] [] [] [] [] [] [] []]; done. }
  rewrite IH by done. f_equal. by rewrite str_app_assoc.
Qed.
Lemma path_arg_chars x : path_arg x → str_forall path_char x = true.
Proof. destruct x as [|c x]; [done|]. intros H. by apply andb_prop_elim in H as [_ H%Is_true_true]. Qed.
Lemma split_arg acc x s : path_arg x → split_path acc (x +:+ s) = split_path (acc +:+ x) s.
Proof. intros H. by apply split_chars, path_arg_chars. Qed.
Lemma split_end acc x : path_arg x → split_path acc x = [acc +:+ x].
Proof. intros H. rewrite <- (str_app_nil_r x), split_arg by done. cbn. by rewrite str_app_nil_r. Qed.
Lemma path_arg_show z : path_arg (show_Z z).
Proof.
  pose proof (show_Z_chars z) as Hc. destruct (show_Z z) as [|c s] eqn:Hs.
  - pose proof (parse_show_Z z) as Hp. rewrite Hs in Hp. done.
  - assert (∀ c, int_char c = true → path_char c && negb (Ascii.eqb c ".") = true) as Hi by (intros [[] [] [] [] [] [] [] []]; done).
    cbn in Hc. apply andb_true_iff in Hc as [H1 H2]. unfold path_arg. apply andb_prop_intro.
    pose proof (Hi _ H1) as [Hp Hd]%andb_true_iff. split; [by apply Is_true_true|]. apply Is_true_true. cbn. rewrite Hp. cbn.
    clear -Hi H2. induction s as [|c s IH]; [done|]. cbn in *. apply andb_true_iff in H2 as [H1 H2].
    by rewrite (proj1 (proj1 (andb_true_iff _ _) (Hi _ H1))), IH.
Qed.

(** ** Accepted requests *)

(** Parameters are sent in the path, in the query and in the body. *)
Definition body_keys (b : body) : list string :=
  flat_map (λ p, match p with Fields f => f.*1 | Whole _ _ => [] end) b.
Definition body_types (b : body) : list string :=
  flat_map (λ p, match p with Fields _ => [] | Whole ty _ => [ty] end) b.
Definition sent (rq : request) (args : list (string * string)) : list string :=
  args.*1 ++ (u_query (rq_url rq)).*1 ++ from_option body_keys [] (rq_body rq).

(** [PbsSnapshotRef], whose fields the client also sends one by one. *)
Definition PbsSnapshotRef_fields : list Property :=
  [Prop_ "backup-type" false "String"; Prop_ "backup-id" false "String"; Prop_ "backup-time" false "Integer"; Prop_ "ns" true "String"].
Definition takes_type (m : ApiMethod) (ty : string) : bool :=
  existsb (λ x, match x with Flatten t => String.eqb t ty || String.eqb t ("pve_api_types::" +:+ ty) | Prop_ _ _ _ => false end) (am_input m).
Definition takes (m : ApiMethod) (p : string) : bool :=
  declares (flattened m) p ||
  (takes_type m "PbsSnapshotRef" && existsb (λ x, match x with Prop_ n _ _ => String.eqb n p | Flatten _ => false end) PbsSnapshotRef_fields).
Definition required (m : ApiMethod) : list string :=
  omap (λ x, match x with Prop_ n false _ => Some n | _ => None end) (am_input (flattened m)).

(** The request reaches the handler; all that is sent is declared, and all that is required
    is sent; and no parameter is lost in the query of a request that has a JSON body. *)
Definition accepted (find_route : Router → list string → option (Router * list (string * string)))
    (c : call) (m : ApiMethod) : Prop :=
  let rq := cl_request c in
  ∃ path r args,
    api_path (u_path (rq_url rq)) = Some path ∧ Forall path_arg path ∧
    find_route root.ROUTER path = Some (r, args) ∧ handler_for (rq_verb rq) r = Some (Own m) ∧
    Forall (takes m) (sent rq args) ∧ Forall (takes_type m) (from_option body_types [] (rq_body rq)) ∧
    required m ⊆ sent rq args ∧
    (rq_body rq ≠ None → u_query (rq_url rq) = []).

Definition reached (rq : request) (path : list string) : option (handler * list string) :=
  '(r, args) ← walk root.ROUTER path; h ← handler_for (rq_verb rq) r; Some (h, args.*1).

Definition query_takes (m : ApiMethod) (u : url_t) : Prop := Forall (takes m) (u_query u).*1.
Definition part_taken (m : ApiMethod) (p : body_part) : Prop :=
  match p with Fields f => Forall (takes m) f.*1 | Whole ty _ => takes_type m ty end.
Definition body_taken (m : ApiMethod) (b : option body) : Prop := from_option (Forall (part_taken m)) True b.
Definition in_body (k : string) (b : option body) : Prop := ∃ f, from_option (λ b, Fields f ∈ b) False b ∧ k ∈ f.*1.

Lemma accepted_intro {find_route} `{!RouteFinder find_route} (c : call) m path names :
  let rq := cl_request c in
  api_path (u_path (rq_url rq)) = Some path → Forall path_arg path →
  reached rq path = Some (Own m, names) →
  forallb (takes m) names → query_takes m (rq_url rq) → body_taken m (rq_body rq) →
  Forall (λ k, k ∈ names ∨ k ∈ (u_query (rq_url rq)).*1 ∨ in_body k (rq_body rq)) (required m) →
  (rq_body rq ≠ None → u_query (rq_url rq) = []) →
  accepted find_route c m.
Proof.
  intros rq Hpath Hargs Hr Hnames Hq Hb Hreq Hkept. unfold reached in Hr.
  destruct (walk root.ROUTER path) as [[r args]|] eqn:Hw; [|done]. cbn in Hr.
  destruct (handler_for (rq_verb rq) r) as [h|] eqn:Hh; [|done]. injection Hr as -> <-.
  exists path, r, args. fold rq.
  split; [exact Hpath|]. split; [done|]. split; [by apply walk_find_route|]. split; [exact Hh|].
  split; [|split; [|split; [|exact Hkept]]].
  - unfold sent. rewrite !Forall_app. split_and!; [by apply forallb_True|done|].
    destruct (rq_body rq) as [b|]; [|done]. cbn in Hb |- *. apply Forall_forall. intros k Hk.
    apply list_elem_of_In, in_flat_map in Hk as ([f|] & Hf%list_elem_of_In & Hk%list_elem_of_In); [|by apply elem_of_nil in Hk].
    rewrite Forall_forall in Hb. specialize (Hb _ Hf). cbn in Hb. rewrite Forall_forall in Hb. by apply Hb.
  - destruct (rq_body rq) as [b|]; [|done]. cbn in Hb |- *. apply Forall_forall. intros k Hk.
    apply list_elem_of_In, in_flat_map in Hk as ([|ty v] & Hf%list_elem_of_In & Hk%list_elem_of_In); [by apply elem_of_nil in Hk|].
    apply list_elem_of_singleton in Hk as ->. rewrite Forall_forall in Hb. by apply (Hb _ Hf).
  - intros k Hk. rewrite Forall_forall in Hreq. unfold sent. rewrite !elem_of_app.
    destruct (Hreq k Hk) as [?|[?|(f & Hf & Hkf)]]; [by left|by right; left|right; right].
    destruct (rq_body rq) as [b|]; [|done]. apply list_elem_of_In, in_flat_map. exists (Fields f).
    split; by apply list_elem_of_In.
Qed.

(** *** The shapes of queries and bodies *)
Section shapes.
Context (m : ApiMethod).
Lemma takes_arg k v u : takes m k → query_takes m u → query_takes m (ApiPathBuilder.arg k v u).
Proof. intros Hk Hu. unfold query_takes. cbn. rewrite fmap_app. apply Forall_app_2; [done|by apply Forall_singleton]. Qed.
Lemma takes_maybe_arg k v u : takes m k → query_takes m u → query_takes m (ApiPathBuilder.maybe_arg k v u).
Proof. destruct v; [apply takes_arg|done]. Qed.
Lemma takes_content k l u : takes m k → query_takes m u → query_takes m (foldl (λ b v, ApiPathBuilder.arg k v b) u l).
Proof. intros Hk. revert u. induction l as [|v l IH]; intros u Hu; [done|]. by apply IH, takes_arg. Qed.
Lemma taken_opt_field k v : takes m k → part_taken m (opt_field k v).
Proof. intros Hk. destruct v; [by apply Forall_singleton|constructor]. Qed.
Lemma taken_list_field k l : takes m k → part_taken m (list_field k l).
Proof. intros Hk. destruct l; [constructor|by apply Forall_singleton]. Qed.
Lemma taken_mapping_field k l : takes m k → part_taken m (mapping_field k l).
Proof. intros Hk. destruct l; [constructor|by apply Forall_singleton]. Qed.
Lemma taken_recipient r : takes m "auth-id" → takes m "group" → part_taken m (Fields (serialize_AclRecipient r)).
Proof. intros Ha Hg. destruct r; by apply Forall_singleton. Qed.
End shapes.
Lemma in_arg_here k v u : k ∈ (u_query (ApiPathBuilder.arg k v u)).*1.
Proof. cbn. rewrite fmap_app. apply elem_of_app. right. by left. Qed.
Lemma in_arg k k' v u : k ∈ (u_query u).*1 → k ∈ (u_query (ApiPathBuilder.arg k' v u)).*1.
Proof. intros H. cbn. rewrite fmap_app. apply elem_of_app. by left. Qed.
Lemma in_maybe_arg k k' v u : k ∈ (u_query u).*1 → k ∈ (u_query (ApiPathBuilder.maybe_arg k' v u)).*1.
Proof. destruct v; [apply in_arg|done]. Qed.
Lemma path_arg_builder k v u : u_path (ApiPathBuilder.arg k v u) = u_path u.
Proof. done. Qed.
Lemma path_maybe_arg k v u : u_path (ApiPathBuilder.maybe_arg k v u) = u_path u.
Proof. by destruct v. Qed.
Lemma path_content {A} (f : url_t → A → url_t) l u : (∀ u x, u_path (f u x) = u_path u) → u_path (foldl f u l) = u_path u.
Proof. intros Hf. revert u. induction l as [|x l IH]; intros u; [done|]. cbn. by rewrite IH. Qed.

(** ** The contract *)

(** Which handler a method of the client is for. *)
Inductive contract {digest_to_string : Value → string} : call → ApiMethod → Prop :=
| c_list_media : contract (PdmClient.list_media) config_media.API_METHOD_LIST_MEDIA
| c_add_media entry : contract (PdmClient.add_media entry) config_media.API_METHOD_ADD_MEDIA
| c_update_media id entry : path_arg id → contract (PdmClient.update_media id entry) config_media.API_METHOD_UPDATE_MEDIA
| c_delete_media id : path_arg id → contract (PdmClient.delete_media id) config_media.API_METHOD_REMOVE_MEDIA
| c_list_remotes : contract (PdmClient.list_remotes) remotes.API_METHOD_LIST_REMOTES
| c_add_remote remote create_token : contract (PdmClient.add_remote remote create_token) remotes.API_METHOD_ADD_REMOTE
| c_update_remote remote updater delete : path_arg remote → contract (PdmClient.update_remote remote updater delete) remotes.API_METHOD_UPDATE_REMOTE
| c_delete_remote remote delete_token : path_arg remote → contract (PdmClient.delete_remote remote delete_token) remotes.API_METHOD_REMOVE_REMOTE
| c_remote_version remote : path_arg remote → contract (PdmClient.remote_version remote) remotes.API_METHOD_VERSION
| c_remote_probe_certificate remote node : path_arg remote → contract (PdmClient.remote_probe_certificate remote node) remotes.API_METHOD_PROBE_REMOTE_CERTIFICATE
| c_read_user user : path_arg user → contract (PdmClient.read_user user) access_users.API_METHOD_READ_USER
| c_list_users include_api_tokens : contract (PdmClient.list_users include_api_tokens) access_users.API_METHOD_LIST_USERS
| c_list_realms : contract (PdmClient.list_realms) access_domains.API_METHOD_LIST_DOMAINS
| c_create_user config password : contract (PdmClient.create_user config password) access_users.API_METHOD_CREATE_USER
| c_update_user userid updater password delete : path_arg userid → contract (PdmClient.update_user userid updater password delete) access_users.API_METHOD_UPDATE_USER
| c_delete_user userid : path_arg userid → contract (PdmClient.delete_user userid) access_users.API_METHOD_DELETE_USER
| c_list_user_tfa userid : path_arg userid → contract (PdmClient.list_user_tfa userid) access_tfa.API_METHOD_LIST_USER_TFA
| c_delete_tfa_entry userid password id : path_arg userid → path_arg id → contract (PdmClient.delete_tfa_entry userid password id) access_tfa.API_METHOD_DELETE_TFA
| c_add_recovery_keys userid password description : path_arg userid → contract (PdmClient.add_recovery_keys userid password description) access_tfa.API_METHOD_ADD_TFA_ENTRY
| c_add_webauthn userid password description : path_arg userid → contract (PdmClient.add_webauthn userid password description) access_tfa.API_METHOD_ADD_TFA_ENTRY
| c_add_webauthn_finish userid password challenge response : path_arg userid → contract (PdmClient.add_webauthn_finish userid password challenge response) access_tfa.API_METHOD_ADD_TFA_ENTRY
| c_trigger_remote_metric_collection remote : contract (PdmClient.trigger_remote_metric_collection remote) remotes_metric_collection.API_METHOD_TRIGGER_METRIC_COLLECTION
| c_get_remote_metric_collection_status : contract (PdmClient.get_remote_metric_collection_status) remotes_metric_collection.API_METHOD_GET_METRIC_COLLECTION_STATUS
| c_get_per_remote_rrddata remote mode timeframe : path_arg remote → contract (PdmClient.get_per_remote_rrddata remote mode timeframe) remotes.API_METHOD_GET_PER_REMOTE_RRD_DATA
| c_pve_list_nodes remote : path_arg remote → contract (PdmClient.pve_list_nodes remote) pve.API_METHOD_LIST_NODES
| c_pve_get_firewall_status : contract (PdmClient.pve_get_firewall_status) pve_firewall.API_METHOD_PVE_FIREWALL_STATUS
| c_pve_cluster_firewall_status remote : path_arg remote → contract (PdmClient.pve_cluster_firewall_status remote) pve_firewall.API_METHOD_CLUSTER_FIREWALL_STATUS
| c_pve_node_firewall_status remote node : path_arg remote → path_arg node → contract (PdmClient.pve_node_firewall_status remote node) pve_firewall.API_METHOD_NODE_FIREWALL_STATUS
| c_pve_get_cluster_firewall_options remote : path_arg remote → contract (PdmClient.pve_get_cluster_firewall_options remote) pve_firewall.API_METHOD_CLUSTER_FIREWALL_OPTIONS
| c_pve_get_node_firewall_options remote node : path_arg remote → path_arg node → contract (PdmClient.pve_get_node_firewall_options remote node) pve_firewall.API_METHOD_NODE_FIREWALL_OPTIONS
| c_pve_get_lxc_firewall_options remote node vmid : path_arg remote → contract (PdmClient.pve_get_lxc_firewall_options remote node vmid) pve_firewall.API_METHOD_LXC_FIREWALL_OPTIONS
| c_pve_get_qemu_firewall_options remote node vmid : path_arg remote → contract (PdmClient.pve_get_qemu_firewall_options remote node vmid) pve_firewall.API_METHOD_QEMU_FIREWALL_OPTIONS
| c_pve_get_cluster_firewall_rules remote : path_arg remote → contract (PdmClient.pve_get_cluster_firewall_rules remote) pve_firewall.API_METHOD_CLUSTER_FIREWALL_RULES
| c_pve_get_node_firewall_rules remote node : path_arg remote → path_arg node → contract (PdmClient.pve_get_node_firewall_rules remote node) pve_firewall.API_METHOD_NODE_FIREWALL_RULES
| c_pve_get_lxc_firewall_rules remote node vmid : path_arg remote → contract (PdmClient.pve_get_lxc_firewall_rules remote node vmid) pve_firewall.API_METHOD_LXC_FIREWALL_RULES
| c_pve_get_qemu_firewall_rules remote node vmid : path_arg remote → contract (PdmClient.pve_get_qemu_firewall_rules remote node vmid) pve_firewall.API_METHOD_QEMU_FIREWALL_RULES
| c_pve_set_cluster_firewall_options remote update : path_arg remote → contract (PdmClient.pve_set_cluster_firewall_options remote update) pve_firewall.API_METHOD_UPDATE_CLUSTER_FIREWALL_OPTIONS
| c_pve_set_node_firewall_options remote node update : path_arg remote → path_arg node → contract (PdmClient.pve_set_node_firewall_options remote node update) pve_firewall.API_METHOD_UPDATE_NODE_FIREWALL_OPTIONS
| c_pve_node_rrddata remote node mode timeframe : path_arg remote → path_arg node → contract (PdmClient.pve_node_rrddata remote node mode timeframe) pve_rrddata.API_METHOD_GET_NODE_RRD_DATA
| c_pve_cluster_resources remote kind : path_arg remote → contract (PdmClient.pve_cluster_resources remote kind) pve.API_METHOD_CLUSTER_RESOURCES
| c_pve_cluster_updates remote : path_arg remote → contract (PdmClient.pve_cluster_updates remote) pve.API_METHOD_GET_UPDATES
| c_pve_cluster_status remote target_endpoint : path_arg remote → contract (PdmClient.pve_cluster_status remote target_endpoint) pve.API_METHOD_CLUSTER_STATUS
| c_pve_cluster_nextid remote target_endpoint : path_arg remote → contract (PdmClient.pve_cluster_nextid remote target_endpoint) pve.API_METHOD_CLUSTER_NEXTID
| c_pve_list_qemu remote node : path_arg remote → contract (PdmClient.pve_list_qemu remote node) pve_qemu.API_METHOD_LIST_QEMU
| c_pve_list_lxc remote node : path_arg remote → contract (PdmClient.pve_list_lxc remote node) pve_lxc.API_METHOD_LIST_LXC
| c_pve_qemu_config remote node vmid state (snapshot : option string) : path_arg remote → contract (PdmClient.pve_qemu_config remote node vmid state snapshot) pve_qemu.API_METHOD_QEMU_GET_CONFIG
| c_pve_qemu_status remote node vmid : path_arg remote → contract (PdmClient.pve_qemu_status remote node vmid) pve_qemu.API_METHOD_QEMU_GET_STATUS
| c_pve_lxc_status remote node vmid : path_arg remote → contract (PdmClient.pve_lxc_status remote node vmid) pve_lxc.API_METHOD_LXC_GET_STATUS
| c_pve_qemu_start remote node vmid : path_arg remote → contract (PdmClient.pve_qemu_start remote node vmid) pve_qemu.API_METHOD_QEMU_START
| c_pve_qemu_shutdown remote node vmid : path_arg remote → contract (PdmClient.pve_qemu_shutdown remote node vmid) pve_qemu.API_METHOD_QEMU_SHUTDOWN
| c_pve_qemu_stop remote node vmid : path_arg remote → contract (PdmClient.pve_qemu_stop remote node vmid) pve_qemu.API_METHOD_QEMU_STOP
| c_pve_qemu_resume remote node vmid : path_arg remote → contract (PdmClient.pve_qemu_resume remote node vmid) pve_qemu.API_METHOD_QEMU_RESUME
| c_pve_qemu_reboot remote node vmid : path_arg remote → contract (PdmClient.pve_qemu_reboot remote node vmid) pve_qemu.API_METHOD_QEMU_REBOOT
| c_pve_qemu_reset remote node vmid : path_arg remote → contract (PdmClient.pve_qemu_reset remote node vmid) pve_qemu.API_METHOD_QEMU_RESET
| c_pve_qemu_suspend remote node vmid : path_arg remote → contract (PdmClient.pve_qemu_suspend remote node vmid) pve_qemu.API_METHOD_QEMU_SUSPEND
| c_pve_qemu_template remote node vmid : path_arg remote → contract (PdmClient.pve_qemu_template remote node vmid) pve_qemu.API_METHOD_QEMU_TEMPLATE
| c_pve_delete_qemu remote node vmid : path_arg remote → contract (PdmClient.pve_delete_qemu remote node vmid) pve_qemu.API_METHOD_DELETE_QEMU
| c_pve_qemu_list_snapshots remote node vmid : path_arg remote → contract (PdmClient.pve_qemu_list_snapshots remote node vmid) pve_qemu.API_METHOD_QEMU_LIST_SNAPSHOTS
| c_pve_qemu_snapshot_create remote node vmid snapname description vmstate : path_arg remote → contract (PdmClient.pve_qemu_snapshot_create remote node vmid snapname description vmstate) pve_qemu.API_METHOD_QEMU_CREATE_SNAPSHOT
| c_pve_qemu_snapshot_delete remote node vmid snapname : path_arg remote → path_arg snapname → contract (PdmClient.pve_qemu_snapshot_delete remote node vmid snapname) pve_qemu.API_METHOD_QEMU_DELETE_SNAPSHOT
| c_pve_qemu_snapshot_rollback remote node vmid snapname start : path_arg remote → path_arg snapname → contract (PdmClient.pve_qemu_snapshot_rollback remote node vmid snapname start) pve_qemu.API_METHOD_QEMU_ROLLBACK_SNAPSHOT
| c_pve_qemu_snapshot_update_config remote node vmid snapname description : path_arg remote → path_arg snapname → contract (PdmClient.pve_qemu_snapshot_update_config remote node vmid snapname description) pve_qemu.API_METHOD_QEMU_UPDATE_SNAPSHOT_CONFIG
| c_pve_qemu_migrate remote node vmid target (params : MigrateQemu) : path_arg remote → contract (PdmClient.pve_qemu_migrate remote node vmid target params) pve_qemu.API_METHOD_QEMU_MIGRATE
| c_pve_qemu_remote_migrate remote node vmid target target_endpoint (params : RemoteMigrateQemu) : path_arg remote → contract (PdmClient.pve_qemu_remote_migrate remote node vmid target target_endpoint params) pve_qemu.API_METHOD_QEMU_REMOTE_MIGRATE
| c_pve_qemu_rrddata remote vmid mode timeframe : path_arg remote → contract (PdmClient.pve_qemu_rrddata remote vmid mode timeframe) pve_rrddata.API_METHOD_GET_QEMU_RRD_DATA
| c_pve_lxc_config remote node vmid state (snapshot : option string) : path_arg remote → contract (PdmClient.pve_lxc_config remote node vmid state snapshot) pve_lxc.API_METHOD_LXC_GET_CONFIG
| c_pve_lxc_ip_addresses remote node vmid : path_arg remote → contract (PdmClient.pve_lxc_ip_addresses remote node vmid) pve_lxc.API_METHOD_LXC_IP_ADDRESSES
| c_pve_qemu_ip_addresses remote node vmid : path_arg remote → contract (PdmClient.pve_qemu_ip_addresses remote node vmid) pve_qemu.API_METHOD_QEMU_IP_ADDRESSES
| c_pve_lxc_start remote node vmid : path_arg remote → contract (PdmClient.pve_lxc_start remote node vmid) pve_lxc.API_METHOD_LXC_START
| c_pve_lxc_list_snapshots remote node vmid : path_arg remote → contract (PdmClient.pve_lxc_list_snapshots remote node vmid) pve_lxc.API_METHOD_LXC_LIST_SNAPSHOTS
| c_pve_lxc_snapshot_create remote node vmid snapname description : path_arg remote → contract (PdmClient.pve_lxc_snapshot_create remote node vmid snapname description) pve_lxc.API_METHOD_LXC_CREATE_SNAPSHOT
| c_pve_lxc_snapshot_delete remote node vmid snapname : path_arg remote → path_arg snapname → contract (PdmClient.pve_lxc_snapshot_delete remote node vmid snapname) pve_lxc.API_METHOD_LXC_DELETE_SNAPSHOT
| c_pve_lxc_snapshot_rollback remote node vmid snapname start : path_arg remote → path_arg snapname → contract (PdmClient.pve_lxc_snapshot_rollback remote node vmid snapname start) pve_lxc.API_METHOD_LXC_ROLLBACK_SNAPSHOT
| c_pve_lxc_snapshot_update_config remote node vmid snapname description : path_arg remote → path_arg snapname → contract (PdmClient.pve_lxc_snapshot_update_config remote node vmid snapname description) pve_lxc.API_METHOD_LXC_UPDATE_SNAPSHOT_CONFIG
| c_pve_lxc_shutdown remote node vmid : path_arg remote → contract (PdmClient.pve_lxc_shutdown remote node vmid) pve_lxc.API_METHOD_LXC_SHUTDOWN
| c_pve_lxc_stop remote node vmid : path_arg remote → contract (PdmClient.pve_lxc_stop remote node vmid) pve_lxc.API_METHOD_LXC_STOP
| c_pve_lxc_reboot remote node vmid : path_arg remote → contract (PdmClient.pve_lxc_reboot remote node vmid) pve_lxc.API_METHOD_LXC_REBOOT
| c_pve_lxc_resume remote node vmid : path_arg remote → contract (PdmClient.pve_lxc_resume remote node vmid) pve_lxc.API_METHOD_LXC_RESUME
| c_pve_lxc_suspend remote node vmid : path_arg remote → contract (PdmClient.pve_lxc_suspend remote node vmid) pve_lxc.API_METHOD_LXC_SUSPEND
| c_pve_lxc_template remote node vmid : path_arg remote → contract (PdmClient.pve_lxc_template remote node vmid) pve_lxc.API_METHOD_LXC_TEMPLATE
| c_pve_delete_lxc remote node vmid : path_arg remote → contract (PdmClient.pve_delete_lxc remote node vmid) pve_lxc.API_METHOD_DELETE_LXC
| c_pve_lxc_migrate remote node vmid target (params : MigrateLxc) : path_arg remote → contract (PdmClient.pve_lxc_migrate remote node vmid target params) pve_lxc.API_METHOD_LXC_MIGRATE
| c_pve_lxc_remote_migrate remote node vmid target target_endpoint (params : RemoteMigrateLxc) : path_arg remote → contract (PdmClient.pve_lxc_remote_migrate remote node vmid target target_endpoint params) pve_lxc.API_METHOD_LXC_REMOTE_MIGRATE
| c_pve_lxc_rrddata remote vmid mode timeframe : path_arg remote → contract (PdmClient.pve_lxc_rrddata remote vmid mode timeframe) pve_rrddata.API_METHOD_GET_LXC_RRD_DATA
| c_pve_list_tasks remote node : path_arg remote → contract (PdmClient.pve_list_tasks remote node) pve_tasks.API_METHOD_LIST_TASKS
| c_pve_stop_task remote upid : path_arg remote → path_arg upid → contract (PdmClient.pve_stop_task remote upid) pve_tasks.API_METHOD_STOP_TASK
| c_pve_task_status upid : path_arg (ru_remote upid) → path_arg (remote_upid_to_string upid) → contract (PdmClient.pve_task_status upid) pve_tasks.API_METHOD_GET_TASK_STATUS
| c_pve_wait_for_task upid : path_arg (ru_remote upid) → path_arg (remote_upid_to_string upid) → contract (PdmClient.pve_wait_for_task upid) pve_tasks.API_METHOD_GET_TASK_STATUS
| c_wait_for_local_task upid : path_arg upid → contract (PdmClient.wait_for_local_task upid) nodes_tasks.API_METHOD_GET_TASK_STATUS
| c_pbs_list_datastores remote : path_arg remote → contract (PdmClient.pbs_list_datastores remote) pbs.API_METHOD_LIST_DATASTORES
| c_pbs_list_snapshots remote store namespace : path_arg remote → path_arg store → contract (PdmClient.pbs_list_snapshots remote store namespace) pbs.API_METHOD_LIST_SNAPSHOTS
| c_pbs_node_rrddata remote mode timeframe : path_arg remote → contract (PdmClient.pbs_node_rrddata remote mode timeframe) pbs_rrddata.API_METHOD_GET_PBS_NODE_RRD_DATA
| c_pbs_node_status remote : path_arg remote → contract (PdmClient.pbs_node_status remote) pbs.API_METHOD_GET_STATUS
| c_pbs_datastore_rrddata remote store mode timeframe : path_arg remote → path_arg store → contract (PdmClient.pbs_datastore_rrddata remote store mode timeframe) pbs_rrddata.API_METHOD_GET_PBS_DATASTORE_RRD_DATA
| c_pbs_list_tasks remote : path_arg remote → contract (PdmClient.pbs_list_tasks remote) pbs_tasks.API_METHOD_LIST_TASKS
| c_pbs_task_status upid : path_arg (ru_remote upid) → path_arg (remote_upid_to_string upid) → contract (PdmClient.pbs_task_status upid) pbs_tasks.API_METHOD_GET_TASK_STATUS
| c_resources max_age view : contract (PdmClient.resources max_age view) resources.API_METHOD_GET_RESOURCES
| c_resources_by_type max_age resource_type view search : contract (PdmClient.resources_by_type max_age resource_type view search) resources.API_METHOD_GET_RESOURCES
| c_get_subscription_status max_age verbose view : contract (PdmClient.get_subscription_status max_age verbose view) resources.API_METHOD_GET_SUBSCRIPTION_STATUS
| c_list_subscription_keys : contract (PdmClient.list_subscription_keys) subscriptions.API_METHOD_LIST_KEYS
| c_add_subscription_keys keys digest : contract (PdmClient.add_subscription_keys keys digest) subscriptions.API_METHOD_ADD_KEYS
| c_set_subscription_assignment key remote node digest : path_arg key → contract (PdmClient.set_subscription_assignment key remote node digest) subscriptions.API_METHOD_SET_ASSIGNMENT
| c_clear_subscription_assignment key digest : path_arg key → contract (PdmClient.clear_subscription_assignment digest_to_string key digest) subscriptions.API_METHOD_CLEAR_ASSIGNMENT
| c_delete_subscription_key key : path_arg key → contract (PdmClient.delete_subscription_key key) subscriptions.API_METHOD_DELETE_KEY
| c_subscription_node_status max_age : contract (PdmClient.subscription_node_status max_age) subscriptions.API_METHOD_NODE_STATUS
| c_subscription_auto_assign : contract (PdmClient.subscription_auto_assign) subscriptions.API_METHOD_AUTO_ASSIGN
| c_subscription_bulk_assign proposal : contract (PdmClient.subscription_bulk_assign proposal) subscriptions.API_METHOD_BULK_ASSIGN
| c_subscription_apply_pending digest : contract (PdmClient.subscription_apply_pending digest) subscriptions.API_METHOD_APPLY_PENDING
| c_subscription_adopt_key remote node digest : contract (PdmClient.subscription_adopt_key remote node digest) subscriptions.API_METHOD_ADOPT_KEY
| c_subscription_adopt_all digest : contract (PdmClient.subscription_adopt_all digest) subscriptions.API_METHOD_ADOPT_ALL
| c_subscription_queue_clear remote node digest : contract (PdmClient.subscription_queue_clear remote node digest) subscriptions.API_METHOD_QUEUE_CLEAR
| c_subscription_revert_pending_clear remote node digest : contract (PdmClient.subscription_revert_pending_clear remote node digest) subscriptions.API_METHOD_REVERT_PENDING_CLEAR
| c_subscription_check remote node : contract (PdmClient.subscription_check remote node) subscriptions.API_METHOD_CHECK_SUBSCRIPTION
| c_subscription_clear_pending digest : contract (PdmClient.subscription_clear_pending digest) subscriptions.API_METHOD_CLEAR_PENDING
| c_pve_list_networks remote node interface_type : path_arg remote → path_arg node → contract (PdmClient.pve_list_networks remote node interface_type) pve_node.API_METHOD_GET_NETWORK
| c_pve_create_qemu remote node config : path_arg remote → contract (PdmClient.pve_create_qemu remote node config) pve_qemu.API_METHOD_CREATE_QEMU
| c_pve_create_lxc remote node config : path_arg remote → contract (PdmClient.pve_create_lxc remote node config) pve_lxc.API_METHOD_CREATE_LXC
| c_pve_list_backup_jobs remote : path_arg remote → contract (PdmClient.pve_list_backup_jobs remote) pve_backup.API_METHOD_LIST_BACKUP_JOBS
| c_pve_create_backup_job remote config : path_arg remote → contract (PdmClient.pve_create_backup_job remote config) pve_backup.API_METHOD_CREATE_BACKUP_JOB
| c_pve_update_backup_job remote id config : path_arg remote → path_arg id → contract (PdmClient.pve_update_backup_job remote id config) pve_backup.API_METHOD_UPDATE_BACKUP_JOB
| c_pve_delete_backup_job remote id : path_arg remote → path_arg id → contract (PdmClient.pve_delete_backup_job remote id) pve_backup.API_METHOD_DELETE_BACKUP_JOB
| c_pve_run_vzdump remote request : path_arg remote → contract (PdmClient.pve_run_vzdump remote request) pve_backup.API_METHOD_RUN_VZDUMP
| c_pve_list_backup_content remote node vmid storage : path_arg remote → contract (PdmClient.pve_list_backup_content remote node vmid storage) pve_backup.API_METHOD_LIST_BACKUP_CONTENT
| c_pve_restore_backup remote request : path_arg remote → contract (PdmClient.pve_restore_backup remote request) pve_backup.API_METHOD_RESTORE_BACKUP
| c_pve_list_replication_jobs remote : path_arg remote → contract (PdmClient.pve_list_replication_jobs remote) pve_replication.API_METHOD_LIST_REPLICATION_JOBS
| c_pve_list_replication_status remote : path_arg remote → contract (PdmClient.pve_list_replication_status remote) pve_replication.API_METHOD_LIST_REPLICATION_STATUS
| c_pve_create_replication_job remote config : path_arg remote → contract (PdmClient.pve_create_replication_job remote config) pve_replication.API_METHOD_CREATE_REPLICATION_JOB
| c_pve_update_replication_job remote id config : path_arg remote → path_arg id → contract (PdmClient.pve_update_replication_job remote id config) pve_replication.API_METHOD_UPDATE_REPLICATION_JOB
| c_pve_delete_replication_job remote id : path_arg remote → path_arg id → contract (PdmClient.pve_delete_replication_job remote id) pve_replication.API_METHOD_DELETE_REPLICATION_JOB
| c_pve_replication_status remote id node : path_arg remote → path_arg id → contract (PdmClient.pve_replication_status remote id node) pve_replication.API_METHOD_GET_REPLICATION_STATUS
| c_list_backup_jobs : contract (PdmClient.list_backup_jobs) backup_jobs.API_METHOD_LIST_BACKUP_JOBS
| c_read_backup_job id : path_arg id → contract (PdmClient.read_backup_job id) backup_jobs.API_METHOD_READ_BACKUP_JOB
| c_create_backup_job job : contract (PdmClient.create_backup_job job) backup_jobs.API_METHOD_CREATE_BACKUP_JOB
| c_update_backup_job id update : path_arg id → contract (PdmClient.update_backup_job id update) backup_jobs.API_METHOD_UPDATE_BACKUP_JOB
| c_delete_backup_job id : path_arg id → contract (PdmClient.delete_backup_job id) backup_jobs.API_METHOD_DELETE_BACKUP_JOB
| c_backup_job_status id : path_arg id → contract (PdmClient.backup_job_status id) backup_jobs.API_METHOD_BACKUP_JOB_STATUS
| c_sync_backup_job id : path_arg id → contract (PdmClient.sync_backup_job id) backup_jobs.API_METHOD_SYNC_BACKUP_JOB
| c_run_backup_job id : path_arg id → contract (PdmClient.run_backup_job id) backup_jobs.API_METHOD_RUN_BACKUP_JOB
| c_pbs_pve_storage_state remote datastore : path_arg remote → contract (PdmClient.pbs_pve_storage_state remote datastore) pbs_storage_sync.API_METHOD_PVE_STORAGE_STATE
| c_pbs_attach_storage_to_pve remote request : path_arg remote → contract (PdmClient.pbs_attach_storage_to_pve remote request) pbs_storage_sync.API_METHOD_ATTACH_TO_PVE
| c_pbs_list_prune_jobs remote : path_arg remote → contract (PdmClient.pbs_list_prune_jobs remote) pbs_maintenance.API_METHOD_LIST_PRUNE_JOBS
| c_pbs_create_prune_job remote job : path_arg remote → contract (PdmClient.pbs_create_prune_job remote job) pbs_maintenance.API_METHOD_CREATE_PRUNE_JOB
| c_pbs_update_prune_job remote id job : path_arg remote → path_arg id → contract (PdmClient.pbs_update_prune_job remote id job) pbs_maintenance.API_METHOD_UPDATE_PRUNE_JOB
| c_pbs_delete_prune_job remote id : path_arg remote → path_arg id → contract (PdmClient.pbs_delete_prune_job remote id) pbs_maintenance.API_METHOD_DELETE_PRUNE_JOB
| c_pbs_run_prune_job remote id : path_arg remote → path_arg id → contract (PdmClient.pbs_run_prune_job remote id) pbs_maintenance.API_METHOD_RUN_PRUNE_JOB
| c_pbs_list_verify_jobs remote : path_arg remote → contract (PdmClient.pbs_list_verify_jobs remote) pbs_maintenance.API_METHOD_LIST_VERIFY_JOBS
| c_pbs_create_verify_job remote job : path_arg remote → contract (PdmClient.pbs_create_verify_job remote job) pbs_maintenance.API_METHOD_CREATE_VERIFY_JOB
| c_pbs_update_verify_job remote id job : path_arg remote → path_arg id → contract (PdmClient.pbs_update_verify_job remote id job) pbs_maintenance.API_METHOD_UPDATE_VERIFY_JOB
| c_pbs_delete_verify_job remote id : path_arg remote → path_arg id → contract (PdmClient.pbs_delete_verify_job remote id) pbs_maintenance.API_METHOD_DELETE_VERIFY_JOB
| c_pbs_run_verify_job remote id : path_arg remote → path_arg id → contract (PdmClient.pbs_run_verify_job remote id) pbs_maintenance.API_METHOD_RUN_VERIFY_JOB
| c_pbs_list_sync_jobs remote : path_arg remote → contract (PdmClient.pbs_list_sync_jobs remote) pbs_maintenance.API_METHOD_LIST_SYNC_JOBS
| c_pbs_create_sync_job remote job : path_arg remote → contract (PdmClient.pbs_create_sync_job remote job) pbs_maintenance.API_METHOD_CREATE_SYNC_JOB
| c_pbs_update_sync_job remote id job : path_arg remote → path_arg id → contract (PdmClient.pbs_update_sync_job remote id job) pbs_maintenance.API_METHOD_UPDATE_SYNC_JOB
| c_pbs_delete_sync_job remote id : path_arg remote → path_arg id → contract (PdmClient.pbs_delete_sync_job remote id) pbs_maintenance.API_METHOD_DELETE_SYNC_JOB
| c_pbs_run_sync_job remote id : path_arg remote → path_arg id → contract (PdmClient.pbs_run_sync_job remote id) pbs_maintenance.API_METHOD_RUN_SYNC_JOB
| c_pbs_datastore_gc_status remote datastore : path_arg remote → path_arg datastore → contract (PdmClient.pbs_datastore_gc_status remote datastore) pbs_maintenance.API_METHOD_GET_GC_STATUS
| c_pbs_run_datastore_gc remote datastore : path_arg remote → path_arg datastore → contract (PdmClient.pbs_run_datastore_gc remote datastore) pbs_maintenance.API_METHOD_RUN_GC
| c_pbs_prune_datastore remote datastore request : path_arg remote → path_arg datastore → contract (PdmClient.pbs_prune_datastore remote datastore request) pbs_maintenance.API_METHOD_PRUNE_DATASTORE
| c_pbs_set_snapshot_protection remote datastore request : path_arg remote → path_arg datastore → contract (PdmClient.pbs_set_snapshot_protection remote datastore request) pbs_maintenance.API_METHOD_SET_SNAPSHOT_PROTECTION
| c_pbs_set_snapshot_notes remote datastore request : path_arg remote → path_arg datastore → contract (PdmClient.pbs_set_snapshot_notes remote datastore request) pbs_maintenance.API_METHOD_SET_SNAPSHOT_NOTES
| c_pbs_verify_snapshot remote datastore (snapshot : Map) : path_arg remote → path_arg datastore → contract (PdmClient.pbs_verify_snapshot remote datastore snapshot) pbs_maintenance.API_METHOD_VERIFY_SNAPSHOT
| c_pbs_forget_snapshot remote datastore (snapshot : PbsSnapshotRef) : path_arg remote → path_arg datastore → contract (PdmClient.pbs_forget_snapshot remote datastore snapshot) pbs_maintenance.API_METHOD_FORGET_SNAPSHOT
| c_pve_list_storages remote node (filter : PveListStoragesFilter) include_supported_disk_image_formats : path_arg remote → path_arg node → contract (PdmClient.pve_list_storages remote node filter include_supported_disk_image_formats) pve_node.API_METHOD_GET_STORAGES
| c_pve_storage_status remote node storage : path_arg remote → path_arg node → path_arg storage → contract (PdmClient.pve_storage_status remote node storage) pve_storage.API_METHOD_GET_STATUS
| c_pve_list_storage_content remote node storage content : path_arg remote → path_arg node → path_arg storage → contract (PdmClient.pve_list_storage_content remote node storage content) pve_storage.API_METHOD_LIST_CONTENT
| c_pve_download_storage_content remote node storage download : path_arg remote → path_arg node → path_arg storage → contract (PdmClient.pve_download_storage_content remote node storage download) pve_storage.API_METHOD_DOWNLOAD_URL
| c_pve_list_appliances remote node : path_arg remote → path_arg node → contract (PdmClient.pve_list_appliances remote node) pve_node.API_METHOD_LIST_APLINFO
| c_pve_download_appliance remote node storage template : path_arg remote → path_arg node → path_arg storage → contract (PdmClient.pve_download_appliance remote node storage template) pve_storage.API_METHOD_DOWNLOAD_APPLIANCE
| c_pve_storage_rrddata remote node storage mode timeframe : path_arg remote → path_arg node → path_arg storage → contract (PdmClient.pve_storage_rrddata remote node storage mode timeframe) pve_rrddata.API_METHOD_GET_STORAGE_RRD_DATA
| c_get_top_entities view : contract (PdmClient.get_top_entities view) resources.API_METHOD_GET_TOP_ENTITIES
| c_pve_node_status remote node : path_arg remote → path_arg node → contract (PdmClient.pve_node_status remote node) pve_node.API_METHOD_GET_STATUS
| c_pve_qemu_migrate_preconditions remote node vmid target : path_arg remote → contract (PdmClient.pve_qemu_migrate_preconditions remote node vmid target) pve_qemu.API_METHOD_QEMU_MIGRATE_PRECONDITIONS
| c_pve_probe_tls hostname fingerprint : contract (PdmClient.pve_probe_tls hostname fingerprint) pve.API_METHOD_PROBE_TLS
| c_pve_scan_remote hostname fingerprint authid token : contract (PdmClient.pve_scan_remote hostname fingerprint authid token) pve.API_METHOD_SCAN_REMOTE_PVE
| c_pve_sdn_list_controllers pending running ty : contract (PdmClient.pve_sdn_list_controllers pending running ty) sdn_controllers.API_METHOD_LIST_CONTROLLERS
| c_pve_sdn_list_zones pending running ty : contract (PdmClient.pve_sdn_list_zones pending running ty) sdn_zones.API_METHOD_LIST_ZONES
| c_pve_sdn_list_vnets pending running : contract (PdmClient.pve_sdn_list_vnets pending running) sdn_vnets.API_METHOD_LIST_VNETS
| c_pve_sdn_create_zone (params : CreateZoneParams) : contract (PdmClient.pve_sdn_create_zone params) sdn_zones.API_METHOD_CREATE_ZONE
| c_pve_sdn_create_vnet (params : CreateVnetParams) : contract (PdmClient.pve_sdn_create_vnet params) sdn_vnets.API_METHOD_CREATE_VNET
| c_pve_sdn_zone_get_ip_vrf remote node zone : path_arg remote → path_arg node → path_arg zone → contract (PdmClient.pve_sdn_zone_get_ip_vrf remote node zone) nodes_sdn_zones.API_METHOD_GET_IP_VRF
| c_pve_sdn_vnet_get_mac_vrf remote node vnet : path_arg remote → path_arg node → path_arg vnet → contract (PdmClient.pve_sdn_vnet_get_mac_vrf remote node vnet) nodes_sdn_vnets.API_METHOD_GET_MAC_VRF
| c_pbs_probe_tls hostname fingerprint : contract (PdmClient.pbs_probe_tls hostname fingerprint) pbs.API_METHOD_PROBE_TLS
| c_pbs_scan_remote hostname fingerprint authid token : contract (PdmClient.pbs_scan_remote hostname fingerprint authid token) pbs.API_METHOD_SCAN_REMOTE_PBS
| c_remote_update_summary : contract (PdmClient.remote_update_summary) remotes_updates.API_METHOD_UPDATE_SUMMARY
| c_refresh_remote_update_summary : contract (PdmClient.refresh_remote_update_summary) remotes_updates.API_METHOD_REFRESH_REMOTE_UPDATE_SUMMARIES
| c_list_views : contract (PdmClient.list_views) config_views.API_METHOD_GET_VIEWS
| c_get_autoinst_installations : contract (PdmClient.get_autoinst_installations) auto_installer.API_METHOD_LIST_INSTALLATIONS
| c_delete_autoinst_installation id : path_arg id → contract (PdmClient.delete_autoinst_installation id) auto_installer.API_METHOD_DELETE_INSTALLATION
| c_get_autoinst_prepared_answers : contract (PdmClient.get_autoinst_prepared_answers) auto_installer.API_METHOD_LIST_PREPARED_ANSWERS
| c_add_autoinst_prepared_answer config root_password : contract (PdmClient.add_autoinst_prepared_answer config root_password) auto_installer.API_METHOD_CREATE_PREPARED_ANSWER
| c_update_autoinst_prepared_answer id updater root_password delete : path_arg id → contract (PdmClient.update_autoinst_prepared_answer id updater root_password delete) auto_installer.API_METHOD_UPDATE_PREPARED_ANSWER
| c_delete_autoinst_prepared_answer id : path_arg id → contract (PdmClient.delete_autoinst_prepared_answer id) auto_installer.API_METHOD_DELETE_PREPARED_ANSWER
| c_get_autoinst_tokens : contract (PdmClient.get_autoinst_tokens) auto_installer.API_METHOD_LIST_TOKENS
| c_add_autoinst_token id comment enabled expire_at : contract (PdmClient.add_autoinst_token id comment enabled expire_at) auto_installer.API_METHOD_CREATE_TOKEN
| c_update_autoinst_token id updater delete regenerate_secret : path_arg id → contract (PdmClient.update_autoinst_token id updater delete regenerate_secret) auto_installer.API_METHOD_UPDATE_TOKEN
| c_delete_autoinst_token id : path_arg id → contract (PdmClient.delete_autoinst_token id) auto_installer.API_METHOD_DELETE_TOKEN
| c_certificate_info : contract (PdmClient.certificate_info) nodes_certificates.API_METHOD_GET_INFO.
Ltac reduce := cbn -[show_Z remote_upid_to_string ApiPathBuilder.maybe_arg api_path split_path foldl].
Ltac solve_path :=
  reduce; rewrite ?path_content, ?path_maybe_arg, ?path_arg_builder by reflexivity; reduce;
  repeat rewrite ?path_maybe_arg, ?path_arg_builder; unfold api_path; reduce;
  cbn -[show_Z remote_upid_to_string];
  repeat (first [rewrite split_arg by (apply path_arg_show || assumption) | rewrite split_end by (apply path_arg_show || assumption)];
          cbn -[show_Z remote_upid_to_string]);
  reflexivity.
Ltac solve_args := repeat apply Forall_cons_2; first [exact (Forall_nil_2 _) | assumption | apply path_arg_show | exact I].
Ltac solve_query :=
  first [apply takes_arg; [exact I|solve_query] | apply takes_maybe_arg; [exact I|solve_query]
        | apply takes_content; [exact I|solve_query] | vm_compute; repeat constructor].
Ltac solve_part :=
  first [apply taken_opt_field; exact I | apply taken_list_field; exact I | apply taken_mapping_field; exact I
        | apply taken_recipient; exact I | exact I | vm_compute; repeat constructor].
Ltac solve_body := first [exact I | reduce; repeat apply Forall_cons_2; first [exact (Forall_nil_2 _) | solve_part]].
Ltac solve_in := vm_compute; repeat (first [left; reflexivity | right]).
Ltac solve_in_query := first [apply in_arg_here | apply in_arg; solve_in_query | apply in_maybe_arg; solve_in_query | solve_in].
Ltac pick_field := (left; reflexivity) + (right; pick_field).
Ltac solve_in_body := eexists; split; [reduce; pick_field|solve_in].
Ltac solve_required :=
  match goal with |- Forall ?P ?l => let l' := eval vm_compute in l in change (Forall P l') end;
  repeat apply Forall_cons_2; first [exact (Forall_nil_2 _) | left; solve [solve_in] | right; left; solve [solve_in_query] | right; right; solve [solve_in_body]].
Ltac solve_contract :=
  eapply accepted_intro;
    [solve_path | solve_args | vm_compute; reflexivity | vm_compute; exact I | solve_query | solve_body | solve_required
    | intros Hbody; first [reflexivity | by destruct Hbody]].

Section accepted.
Context {find_route} `{HF : !RouteFinder find_route} {digest_to_string : Value → string}.
End accepted.

(** C22: Client and server agree.  For each of the 197 methods of the client in the table
    [contract] and all its arguments (those that are printed into the path being components
    of a path), the request that it sends reaches the handler that the table names; the
    handler declares every parameter that is sent in the path, the query or the body, and
    every type that is sent as a whole; every parameter that the handler requires is
    sent; and nothing is put into the query of a request with a JSON body, where it would be
    ignored. *)
Theorem client_requests_accepted {find_route} `{HF : !RouteFinder find_route} {digest_to_string} c m :
  contract (digest_to_string := digest_to_string) c m → accepted find_route c m.
Proof. intros Hc. destruct Hc; solve_contract. Qed.

(** ** Requests that the table leaves out *)

(** What the handler gets: the query only counts if there is no body. *)
Definition received (rq : request) (args : list (string * string)) : list string :=
  args.*1 ++ match rq_body rq with Some b => body_keys b | None => (u_query (rq_url rq)).*1 end.
Definition reaches_without (find_route : Router → list string → option (Router * list (string * string)))
    (c : call) (m : ApiMethod) (p : string) : Prop :=
  let rq := cl_request c in
  ∃ path r args,
    api_path (u_path (rq_url rq)) = Some path ∧ find_route root.ROUTER path = Some (r, args) ∧
    handler_for (rq_verb rq) r = Some (Own m) ∧ declares m p ∧ p ∉ received rq args.

Lemma reaches_without_intro {find_route} `{!RouteFinder find_route} c m p path names :
  let rq := cl_request c in
  api_path (u_path (rq_url rq)) = Some path → Forall path_arg path → reached rq path = Some (Own m, names) → declares m p →
  bool_decide (p ∈ names) = false → from_option body_keys [p] (rq_body rq) = [] → reaches_without find_route c m p.
Proof.
  intros rq Hpath _ Hr Hd Hn Hb. unfold reached in Hr.
  destruct (walk root.ROUTER path) as [[r args]|] eqn:Hw; [|done]. cbn in Hr.
  destruct (handler_for (rq_verb rq) r) as [h|] eqn:Hh; [|done]. injection Hr as -> <-.
  exists path, r, args. fold rq. split; [done|]. split; [by apply walk_find_route|]. split; [exact Hh|]. split; [done|].
  apply bool_decide_eq_false in Hn. unfold received. destruct (rq_body rq) as [b|]; [|done]. cbn in Hb. by rewrite Hb, app_nil_r.
Qed.
Ltac solve_lost :=
  eapply reaches_without_intro; [solve_path | solve_args | vm_compute; reflexivity | vm_compute; exact I | vm_compute; reflexivity | reflexivity].

Section lost.
Context {find_route} `{HF : !RouteFinder find_route}.

(** [pve_run_replication_job] puts the [node] into the query of a [POST] with a JSON body: the
    handler does not get it, and requires it. *)
Lemma run_replication_job_lacks_node remote id node :
  path_arg remote → path_arg id →
  reaches_without find_route (PdmClient.pve_run_replication_job remote id node) pve_replication.API_METHOD_RUN_REPLICATION_JOB "node" ∧
  "node" ∈ required pve_replication.API_METHOD_RUN_REPLICATION_JOB.
Proof using HF. intros. split; [solve_lost|]. solve_in. Qed.

(** So do the methods that change and clone guests, where the node is optional. *)
Lemma update_and_clone_lose_node remote node vmid config :
  path_arg remote →
  reaches_without find_route (PdmClient.pve_update_qemu remote node vmid config) pve_qemu.API_METHOD_QEMU_UPDATE_CONFIG "node" ∧
  reaches_without find_route (PdmClient.pve_clone_qemu remote node vmid config) pve_qemu.API_METHOD_QEMU_CLONE "node" ∧
  reaches_without find_route (PdmClient.pve_update_lxc remote node vmid config) pve_lxc.API_METHOD_LXC_UPDATE_CONFIG "node" ∧
  reaches_without find_route (PdmClient.pve_clone_lxc remote node vmid config) pve_lxc.API_METHOD_LXC_CLONE "node".
Proof using HF. intros. split_and!; solve_lost. Qed.
End lost.

Module ContractDemo.
Lemma client_requests_accepted_witness :
  accepted walk (PdmClient.pve_lxc_config "remote" (Some "node") 100 "active" None) pve_lxc.API_METHOD_LXC_GET_CONFIG.
Proof.
  apply (client_requests_accepted (digest_to_string := λ _, "")). apply c_pve_lxc_config. exact I.
Defined.
End ContractDemo.
