(* ===== verification/Realms.v ===== *)
(** * Login realms

    Model of [lib/pdm-config/src/domains.rs], [server/src/auth/ldap.rs] and the handlers
    of [server/src/api/config/access/] ([ldap.rs], [ad.rs], [openid.rs], [pdm.rs]) and
    [server/src/api/access/domains.rs].  The realms are the sections of [domains.cfg], of
    four types; the passwords with which the daemon binds to LDAP and AD servers are in a
    JSON file of their own.

    Not under [src/], hence parameters: the texts of the two files, how a configuration
    is stored in a section (class [SectionCodec]), and the LDAP client with the job that
    synchronizes users (class [LdapServer]).  Of the types of [proxmox_ldap] the model has
    the fields that the code uses. *)

From S2P Require Import Prelude FileSystem SectionConfig RemotesConfig JsonValue.
#[local] Open Scope string_scope.
#[local] Open Scope list_scope.

(** ** Configurations *)

Inductive LdapMode : Type := ModeLdap | ModeStartTls | ModeLdaps.
Inductive ConnectionMode : Type := ConnLdap | ConnStartTls | ConnLdaps.
Inductive RealmType : Type := RealmPdm | RealmOpenId | RealmAd | RealmLdap.
Definition parse_realm_type (s : string) : result error RealmType :=
  if String.eqb s "pdm" then Ok RealmPdm
  else if String.eqb s "openid" then Ok RealmOpenId
  else if String.eqb s "ad" then Ok RealmAd
  else if String.eqb s "ldap" then Ok RealmLdap
  else Err (EMsg "unknown variant").
Definition realm_type_to_string (t : RealmType) : string :=
  match t with RealmPdm => "pdm" | RealmOpenId => "openid" | RealmAd => "ad" | RealmLdap => "ldap" end.

(** *** LDAP: the fields of [LdapRealmConfig] and its updater that the code uses *)
Record LdapRealmConfig : Type := mkLdap {
  lr_realm : string;
  lr_server1 : string;
  lr_server2 : option string;
  lr_port : option Z;
  lr_base_dn : string;
  lr_user_attr : string;
  lr_comment : option string;
  lr_default : option bool;
  lr_mode : option LdapMode;
  lr_verify : option bool;
  lr_capath : option string;
  lr_bind_dn : option string;
  lr_filter : option string;
  lr_sync_defaults_options : option string;
  lr_sync_attributes : option string;
  lr_user_classes : option string;
}.
Definition set_lr_server1 (x : string) (c : LdapRealmConfig) : LdapRealmConfig :=
  mkLdap (lr_realm c) x (lr_server2 c) (lr_port c) (lr_base_dn c) (lr_user_attr c) (lr_comment c) (lr_default c) (lr_mode c) (lr_verify c) (lr_capath c) (lr_bind_dn c) (lr_filter c) (lr_sync_defaults_options c) (lr_sync_attributes c) (lr_user_classes c).
Definition set_lr_server2 (x : option string) (c : LdapRealmConfig) : LdapRealmConfig :=
  mkLdap (lr_realm c) (lr_server1 c) x (lr_port c) (lr_base_dn c) (lr_user_attr c) (lr_comment c) (lr_default c) (lr_mode c) (lr_verify c) (lr_capath c) (lr_bind_dn c) (lr_filter c) (lr_sync_defaults_options c) (lr_sync_attributes c) (lr_user_classes c).
Definition set_lr_port (x : option Z) (c : LdapRealmConfig) : LdapRealmConfig :=
  mkLdap (lr_realm c) (lr_server1 c) (lr_server2 c) x (lr_base_dn c) (lr_user_attr c) (lr_comment c) (lr_default c) (lr_mode c) (lr_verify c) (lr_capath c) (lr_bind_dn c) (lr_filter c) (lr_sync_defaults_options c) (lr_sync_attributes c) (lr_user_classes c).
Definition set_lr_base_dn (x : string) (c : LdapRealmConfig) : LdapRealmConfig :=
  mkLdap (lr_realm c) (lr_server1 c) (lr_server2 c) (lr_port c) x (lr_user_attr c) (lr_comment c) (lr_default c) (lr_mode c) (lr_verify c) (lr_capath c) (lr_bind_dn c) (lr_filter c) (lr_sync_defaults_options c) (lr_sync_attributes c) (lr_user_classes c).
Definition set_lr_user_attr (x : string) (c : LdapRealmConfig) : LdapRealmConfig :=
  mkLdap (lr_realm c) (lr_server1 c) (lr_server2 c) (lr_port c) (lr_base_dn c) x (lr_comment c) (lr_default c) (lr_mode c) (lr_verify c) (lr_capath c) (lr_bind_dn c) (lr_filter c) (lr_sync_defaults_options c) (lr_sync_attributes c) (lr_user_classes c).
Definition set_lr_comment (x : option string) (c : LdapRealmConfig) : LdapRealmConfig :=
  mkLdap (lr_realm c) (lr_server1 c) (lr_server2 c) (lr_port c) (lr_base_dn c) (lr_user_attr c) x (lr_default c) (lr_mode c) (lr_verify c) (lr_capath c) (lr_bind_dn c) (lr_filter c) (lr_sync_defaults_options c) (lr_sync_attributes c) (lr_user_classes c).
Definition set_lr_default (x : option bool) (c : LdapRealmConfig) : LdapRealmConfig :=
  mkLdap (lr_realm c) (lr_server1 c) (lr_server2 c) (lr_port c) (lr_base_dn c) (lr_user_attr c) (lr_comment c) x (lr_mode c) (lr_verify c) (lr_capath c) (lr_bind_dn c) (lr_filter c) (lr_sync_defaults_options c) (lr_sync_attributes c) (lr_user_classes c).
Definition set_lr_mode (x : option LdapMode) (c : LdapRealmConfig) : LdapRealmConfig :=
  mkLdap (lr_realm c) (lr_server1 c) (lr_server2 c) (lr_port c) (lr_base_dn c) (lr_user_attr c) (lr_comment c) (lr_default c) x (lr_verify c) (lr_capath c) (lr_bind_dn c) (lr_filter c) (lr_sync_defaults_options c) (lr_sync_attributes c) (lr_user_classes c).
Definition set_lr_verify (x : option bool) (c : LdapRealmConfig) : LdapRealmConfig :=
  mkLdap (lr_realm c) (lr_server1 c) (lr_server2 c) (lr_port c) (lr_base_dn c) (lr_user_attr c) (lr_comment c) (lr_default c) (lr_mode c) x (lr_capath c) (lr_bind_dn c) (lr_filter c) (lr_sync_defaults_options c) (lr_sync_attributes c) (lr_user_classes c).
Definition set_lr_bind_dn (x : option string) (c : LdapRealmConfig) : LdapRealmConfig :=
  mkLdap (lr_realm c) (lr_server1 c) (lr_server2 c) (lr_port c) (lr_base_dn c) (lr_user_attr c) (lr_comment c) (lr_default c) (lr_mode c) (lr_verify c) (lr_capath c) x (lr_filter c) (lr_sync_defaults_options c) (lr_sync_attributes c) (lr_user_classes c).
Definition set_lr_filter (x : option string) (c : LdapRealmConfig) : LdapRealmConfig :=
  mkLdap (lr_realm c) (lr_server1 c) (lr_server2 c) (lr_port c) (lr_base_dn c) (lr_user_attr c) (lr_comment c) (lr_default c) (lr_mode c) (lr_verify c) (lr_capath c) (lr_bind_dn c) x (lr_sync_defaults_options c) (lr_sync_attributes c) (lr_user_classes c).
Definition set_lr_sync_defaults_options (x : option string) (c : LdapRealmConfig) : LdapRealmConfig :=
  mkLdap (lr_realm c) (lr_server1 c) (lr_server2 c) (lr_port c) (lr_base_dn c) (lr_user_attr c) (lr_comment c) (lr_default c) (lr_mode c) (lr_verify c) (lr_capath c) (lr_bind_dn c) (lr_filter c) x (lr_sync_attributes c) (lr_user_classes c).
Definition set_lr_sync_attributes (x : option string) (c : LdapRealmConfig) : LdapRealmConfig :=
  mkLdap (lr_realm c) (lr_server1 c) (lr_server2 c) (lr_port c) (lr_base_dn c) (lr_user_attr c) (lr_comment c) (lr_default c) (lr_mode c) (lr_verify c) (lr_capath c) (lr_bind_dn c) (lr_filter c) (lr_sync_defaults_options c) x (lr_user_classes c).
Definition set_lr_user_classes (x : option string) (c : LdapRealmConfig) : LdapRealmConfig :=
  mkLdap (lr_realm c) (lr_server1 c) (lr_server2 c) (lr_port c) (lr_base_dn c) (lr_user_attr c) (lr_comment c) (lr_default c) (lr_mode c) (lr_verify c) (lr_capath c) (lr_bind_dn c) (lr_filter c) (lr_sync_defaults_options c) (lr_sync_attributes c) x.
Record LdapRealmConfigUpdater : Type := mkLdapUpdater {
  lu_server1 : option string;
  lu_server2 : option string;
  lu_port : option Z;
  lu_base_dn : option string;
  lu_user_attr : option string;
  lu_comment : option string;
  lu_default : option bool;
  lu_mode : option LdapMode;
  lu_verify : option bool;
  lu_bind_dn : option string;
  lu_filter : option string;
  lu_sync_defaults_options : option string;
  lu_sync_attributes : option string;
  lu_user_classes : option string;
}.

(** *** Active Directory *)
Record AdRealmConfig : Type := mkAd {
  ar_realm : string;
  ar_server1 : string;
  ar_server2 : option string;
  ar_port : option Z;
  ar_base_dn : option string;
  ar_comment : option string;
  ar_default : option bool;
  ar_mode : option LdapMode;
  ar_verify : option bool;
  ar_capath : option string;
  ar_bind_dn : option string;
  ar_filter : option string;
  ar_sync_defaults_options : option string;
  ar_sync_attributes : option string;
  ar_user_classes : option string;
}.
Definition set_ar_server1 (x : string) (c : AdRealmConfig) : AdRealmConfig :=
  mkAd (ar_realm c) x (ar_server2 c) (ar_port c) (ar_base_dn c) (ar_comment c) (ar_default c) (ar_mode c) (ar_verify c) (ar_capath c) (ar_bind_dn c) (ar_filter c) (ar_sync_defaults_options c) (ar_sync_attributes c) (ar_user_classes c).
Definition set_ar_server2 (x : option string) (c : AdRealmConfig) : AdRealmConfig :=
  mkAd (ar_realm c) (ar_server1 c) x (ar_port c) (ar_base_dn c) (ar_comment c) (ar_default c) (ar_mode c) (ar_verify c) (ar_capath c) (ar_bind_dn c) (ar_filter c) (ar_sync_defaults_options c) (ar_sync_attributes c) (ar_user_classes c).
Definition set_ar_port (x : option Z) (c : AdRealmConfig) : AdRealmConfig :=
  mkAd (ar_realm c) (ar_server1 c) (ar_server2 c) x (ar_base_dn c) (ar_comment c) (ar_default c) (ar_mode c) (ar_verify c) (ar_capath c) (ar_bind_dn c) (ar_filter c) (ar_sync_defaults_options c) (ar_sync_attributes c) (ar_user_classes c).
Definition set_ar_base_dn (x : option string) (c : AdRealmConfig) : AdRealmConfig :=
  mkAd (ar_realm c) (ar_server1 c) (ar_server2 c) (ar_port c) x (ar_comment c) (ar_default c) (ar_mode c) (ar_verify c) (ar_capath c) (ar_bind_dn c) (ar_filter c) (ar_sync_defaults_options c) (ar_sync_attributes c) (ar_user_classes c).
Definition set_ar_comment (x : option string) (c : AdRealmConfig) : AdRealmConfig :=
  mkAd (ar_realm c) (ar_server1 c) (ar_server2 c) (ar_port c) (ar_base_dn c) x (ar_default c) (ar_mode c) (ar_verify c) (ar_capath c) (ar_bind_dn c) (ar_filter c) (ar_sync_defaults_options c) (ar_sync_attributes c) (ar_user_classes c).
Definition set_ar_default (x : option bool) (c : AdRealmConfig) : AdRealmConfig :=
  mkAd (ar_realm c) (ar_server1 c) (ar_server2 c) (ar_port c) (ar_base_dn c) (ar_comment c) x (ar_mode c) (ar_verify c) (ar_capath c) (ar_bind_dn c) (ar_filter c) (ar_sync_defaults_options c) (ar_sync_attributes c) (ar_user_classes c).
Definition set_ar_mode (x : option LdapMode) (c : AdRealmConfig) : AdRealmConfig :=
  mkAd (ar_realm c) (ar_server1 c) (ar_server2 c) (ar_port c) (ar_base_dn c) (ar_comment c) (ar_default c) x (ar_verify c) (ar_capath c) (ar_bind_dn c) (ar_filter c) (ar_sync_defaults_options c) (ar_sync_attributes c) (ar_user_classes c).
Definition set_ar_verify (x : option bool) (c : AdRealmConfig) : AdRealmConfig :=
  mkAd (ar_realm c) (ar_server1 c) (ar_server2 c) (ar_port c) (ar_base_dn c) (ar_comment c) (ar_default c) (ar_mode c) x (ar_capath c) (ar_bind_dn c) (ar_filter c) (ar_sync_defaults_options c) (ar_sync_attributes c) (ar_user_classes c).
Definition set_ar_bind_dn (x : option string) (c : AdRealmConfig) : AdRealmConfig :=
  mkAd (ar_realm c) (ar_server1 c) (ar_server2 c) (ar_port c) (ar_base_dn c) (ar_comment c) (ar_default c) (ar_mode c) (ar_verify c) (ar_capath c) x (ar_filter c) (ar_sync_defaults_options c) (ar_sync_attributes c) (ar_user_classes c).
Definition set_ar_filter (x : option string) (c : AdRealmConfig) : AdRealmConfig :=
  mkAd (ar_realm c) (ar_server1 c) (ar_server2 c) (ar_port c) (ar_base_dn c) (ar_comment c) (ar_default c) (ar_mode c) (ar_verify c) (ar_capath c) (ar_bind_dn c) x (ar_sync_defaults_options c) (ar_sync_attributes c) (ar_user_classes c).
Definition set_ar_sync_defaults_options (x : option string) (c : AdRealmConfig) : AdRealmConfig :=
  mkAd (ar_realm c) (ar_server1 c) (ar_server2 c) (ar_port c) (ar_base_dn c) (ar_comment c) (ar_default c) (ar_mode c) (ar_verify c) (ar_capath c) (ar_bind_dn c) (ar_filter c) x (ar_sync_attributes c) (ar_user_classes c).
Definition set_ar_sync_attributes (x : option string) (c : AdRealmConfig) : AdRealmConfig :=
  mkAd (ar_realm c) (ar_server1 c) (ar_server2 c) (ar_port c) (ar_base_dn c) (ar_comment c) (ar_default c) (ar_mode c) (ar_verify c) (ar_capath c) (ar_bind_dn c) (ar_filter c) (ar_sync_defaults_options c) x (ar_user_classes c).
Definition set_ar_user_classes (x : option string) (c : AdRealmConfig) : AdRealmConfig :=
  mkAd (ar_realm c) (ar_server1 c) (ar_server2 c) (ar_port c) (ar_base_dn c) (ar_comment c) (ar_default c) (ar_mode c) (ar_verify c) (ar_capath c) (ar_bind_dn c) (ar_filter c) (ar_sync_defaults_options c) (ar_sync_attributes c) x.
Record AdRealmConfigUpdater : Type := mkAdUpdater {
  au_server1 : option string;
  au_server2 : option string;
  au_port : option Z;
  au_base_dn : option string;
  au_comment : option string;
  au_default : option bool;
  au_mode : option LdapMode;
  au_verify : option bool;
  au_bind_dn : option string;
  au_filter : option string;
  au_sync_defaults_options : option string;
  au_sync_attributes : option string;
  au_user_classes : option string;
}.

(** *** OpenID Connect *)
Record OpenIdRealmConfig : Type := mkOpenId {
  or_realm : string;
  or_issuer_url : string;
  or_client_id : string;
  or_scopes : option string;
  or_acr_values : option string;
  or_audiences : option string;
  or_prompt : option string;
  or_client_key : option string;
  or_comment : option string;
  or_default : option bool;
  or_autocreate : option bool;
  or_username_claim : option string;
}.
Definition set_or_issuer_url (x : string) (c : OpenIdRealmConfig) : OpenIdRealmConfig :=
  mkOpenId (or_realm c) x (or_client_id c) (or_scopes c) (or_acr_values c) (or_audiences c) (or_prompt c) (or_client_key c) (or_comment c) (or_default c) (or_autocreate c) (or_username_claim c).
Definition set_or_client_id (x : string) (c : OpenIdRealmConfig) : OpenIdRealmConfig :=
  mkOpenId (or_realm c) (or_issuer_url c) x (or_scopes c) (or_acr_values c) (or_audiences c) (or_prompt c) (or_client_key c) (or_comment c) (or_default c) (or_autocreate c) (or_username_claim c).
Definition set_or_scopes (x : option string) (c : OpenIdRealmConfig) : OpenIdRealmConfig :=
  mkOpenId (or_realm c) (or_issuer_url c) (or_client_id c) x (or_acr_values c) (or_audiences c) (or_prompt c) (or_client_key c) (or_comment c) (or_default c) (or_autocreate c) (or_username_claim c).
Definition set_or_acr_values (x : option string) (c : OpenIdRealmConfig) : OpenIdRealmConfig :=
  mkOpenId (or_realm c) (or_issuer_url c) (or_client_id c) (or_scopes c) x (or_audiences c) (or_prompt c) (or_client_key c) (or_comment c) (or_default c) (or_autocreate c) (or_username_claim c).
Definition set_or_audiences (x : option string) (c : OpenIdRealmConfig) : OpenIdRealmConfig :=
  mkOpenId (or_realm c) (or_issuer_url c) (or_client_id c) (or_scopes c) (or_acr_values c) x (or_prompt c) (or_client_key c) (or_comment c) (or_default c) (or_autocreate c) (or_username_claim c).
Definition set_or_prompt (x : option string) (c : OpenIdRealmConfig) : OpenIdRealmConfig :=
  mkOpenId (or_realm c) (or_issuer_url c) (or_client_id c) (or_scopes c) (or_acr_values c) (or_audiences c) x (or_client_key c) (or_comment c) (or_default c) (or_autocreate c) (or_username_claim c).
Definition set_or_client_key (x : option string) (c : OpenIdRealmConfig) : OpenIdRealmConfig :=
  mkOpenId (or_realm c) (or_issuer_url c) (or_client_id c) (or_scopes c) (or_acr_values c) (or_audiences c) (or_prompt c) x (or_comment c) (or_default c) (or_autocreate c) (or_username_claim c).
Definition set_or_comment (x : option string) (c : OpenIdRealmConfig) : OpenIdRealmConfig :=
  mkOpenId (or_realm c) (or_issuer_url c) (or_client_id c) (or_scopes c) (or_acr_values c) (or_audiences c) (or_prompt c) (or_client_key c) x (or_default c) (or_autocreate c) (or_username_claim c).
Definition set_or_default (x : option bool) (c : OpenIdRealmConfig) : OpenIdRealmConfig :=
  mkOpenId (or_realm c) (or_issuer_url c) (or_client_id c) (or_scopes c) (or_acr_values c) (or_audiences c) (or_prompt c) (or_client_key c) (or_comment c) x (or_autocreate c) (or_username_claim c).
Definition set_or_autocreate (x : option bool) (c : OpenIdRealmConfig) : OpenIdRealmConfig :=
  mkOpenId (or_realm c) (or_issuer_url c) (or_client_id c) (or_scopes c) (or_acr_values c) (or_audiences c) (or_prompt c) (or_client_key c) (or_comment c) (or_default c) x (or_username_claim c).
Record OpenIdRealmConfigUpdater : Type := mkOpenIdUpdater {
  ou_issuer_url : option string;
  ou_client_id : option string;
  ou_scopes : option string;
  ou_acr_values : option string;
  ou_audiences : option string;
  ou_prompt : option string;
  ou_client_key : option string;
  ou_comment : option string;
  ou_default : option bool;
  ou_autocreate : option bool;
}.

(** *** The built-in realm *)
Record PdmRealmConfig : Type := mkPdm {
  pr_realm : string;
  pr_ty : RealmType;
  pr_comment : option string;
  pr_default : option bool;
}.
Definition set_pr_comment (x : option string) (c : PdmRealmConfig) : PdmRealmConfig :=
  mkPdm (pr_realm c) (pr_ty c) x (pr_default c).
Definition set_pr_default (x : option bool) (c : PdmRealmConfig) : PdmRealmConfig :=
  mkPdm (pr_realm c) (pr_ty c) (pr_comment c) x.
Record PdmRealmConfigUpdater : Type := mkPdmUpdater {
  pu_comment : option string;
  pu_default : option bool;
}.
Definition PdmRealmConfig_default : PdmRealmConfig :=
  mkPdm "pdm" RealmPdm (Some "Proxmox Datacenter Manager authentication server") None.

(** ** [domains.cfg] *)

(** [proxmox_ldap::Config] *)
Record Config : Type := mkConfig {
  co_servers : list string;
  co_port : option Z;
  co_user_attr : string;
  co_base_dn : string;
  co_bind_dn : option string;
  co_bind_password : option string;
  co_tls_mode : ConnectionMode;
  co_verify_certificate : bool;
  co_additional_trusted_certificates : option (list string);
  co_certificate_store_path : option string;
}.
Definition set_base_dn (base_dn : string) (c : Config) : Config :=
  mkConfig (co_servers c) (co_port c) (co_user_attr c) base_dn (co_bind_dn c) (co_bind_password c) (co_tls_mode c)
    (co_verify_certificate c) (co_additional_trusted_certificates c) (co_certificate_store_path c).

(** The data of a section of a type; and the field [default] that all types have. *)
Class SectionCodec (T : Type) := {
  to_section : T → result error Value;
  from_section : Value → result error T;
}.
Class RealmConfig (T : Type) := default_realm : T → option bool.
#[export] Instance ldap_realm : RealmConfig LdapRealmConfig := lr_default.
#[export] Instance ad_realm : RealmConfig AdRealmConfig := ar_default.
#[export] Instance openid_realm : RealmConfig OpenIdRealmConfig := or_default.
#[export] Instance pdm_realm : RealmConfig PdmRealmConfig := pr_default.
Class SectionCodecLaws (T : Type) `{SectionCodec T} `{RealmConfig T} : Prop := {
  section_roundtrip c v : to_section c = Ok v → from_section v = Ok c;
  section_default c v : to_section c = Ok v → get v "default" = VBool <$> default_realm c;
}.

(** JSON texts. *)
Class JsonText := {
  value_from_text : string → result error Value;
  value_to_text : Value → result error string;
}.
Class JsonTextLaws `{JsonText} : Prop :=
  json_roundtrip v text : value_to_text v = Ok text → value_from_text text = Ok v.

(** The fields of [GeneralSyncSettingsOverride]. *)
Record SyncSettings : Type := mkSyncSettings { sy_remove_vanished : option string; sy_enable_new : option bool }.
(** The LDAP servers, the files of certificates, and the job that synchronizes users. *)
Class LdapServer := {
  LdapMode_default : LdapMode;
  path_is_dir : string → bool;
  check_connection : Config → result error unit;
  retrieve_root_dse_attr : Config → string → result error (list string);
  ldap_realm_sync : string → LdapRealmConfig → Config → SyncSettings → bool → io unit;
  ad_realm_sync : string → AdRealmConfig → Config → SyncSettings → bool → io unit;
}.

Definition DOMAINS_CFG_FILENAME : string := "/etc/proxmox-datacenter-manager/access/domains.cfg".
Definition LDAP_PASSWORDS_FILENAME : string := "/etc/proxmox-datacenter-manager/access/ldap-passwords.json".

(** A section: its type and its data. *)
Definition section : Type := string * Value.

Section realms.
Context {C : Type} `{SectionConfigData C section} `{SectionText C} `{!ConfigDigests string}.
Context `{!SectionCodec LdapRealmConfig} `{!SectionCodec AdRealmConfig} `{!SectionCodec OpenIdRealmConfig}
        `{!SectionCodec PdmRealmConfig} `{JsonText} `{LdapServer}.
Implicit Types (domains : C).

(** [SectionConfigData::set_data] and [::lookup] of the untyped configuration. *)
Definition set_data `{!SectionCodec T} domains (id type : string) (c : T) : result error C :=
  v ← to_section c; Ok (sc_insert domains id (type, v)).
Definition lookup_section `{!SectionCodec T} domains (type id : string) : result error T :=
  match sc_get domains id with
  | None => Err (EMsg ("no such " +:+ type +:+ " '" +:+ id +:+ "'"))
  | Some (type', v) =>
      if String.eqb type type' then from_section v
      else Err (EMsg ("got unexpected type '" +:+ type' +:+ "' for " +:+ type +:+ " '" +:+ id +:+ "'"))
  end.
Definition convert_to_typed_array `{!SectionCodec T} domains (type : string) : result error (list T) :=
  foldr (λ '(_, (type', v)) l, if String.eqb type type' then c ← from_section v; l ← l; Ok (c :: l) else l) (Ok []) (sc_iter domains).

Definition domains_lock_config : io unit := fs_sync.
Definition domains_config : io (C * string) :=
  content ← fs_open DOMAINS_CFG_FILENAME;
  let content := default "" content in
  data ← io_lift (parse_section_config content);
  mret (data, content).
Definition domains_save_config domains : io unit :=
  raw ← io_lift (write_section_config domains);
  fs_replace DOMAINS_CFG_FILENAME raw.
Definition complete_realm_name : io (list string) :=
  r ← io_try domains_config;
  mret (match r with Ok (data, _) => (sc_iter data).*1 | Err _ => [] end).
Definition complete_openid_realm_name : io (list string) :=
  r ← io_try domains_config;
  mret (match r with
        | Ok (data, _) => omap (λ '(id, (t, _)), if String.eqb t "openid" then Some id else None) (sc_iter data)
        | Err _ => []
        end).

(** [Map::remove]; other values than objects are left alone. *)
Definition remove_default (v : Value) : Value :=
  match v with VObject m => VObject (filter (λ e, e.1 ≠ "default") m) | v => v end.
Definition unset_default_realm domains : C :=
  foldl (λ d id, sc_modify d id (λ '(type, v), (type, remove_default v))) domains (sc_iter domains).*1.
Definition domain_exists domains (realm : string) : bool :=
  match sc_get domains realm with Some _ => true | None => false end.

Definition add_default_realms : io unit :=
  _ ← domains_lock_config;
  '(domains, _) ← domains_config;
  domains ← (if negb (domain_exists domains "pdm") then io_lift (set_data domains "pdm" "pdm" PdmRealmConfig_default)
             else mret domains);
  domains_save_config domains.

(** ** Bind passwords *)

(** [file_get_json] with the default [{}]. *)
Definition read_passwords : io Value :=
  content ← fs_open LDAP_PASSWORDS_FILENAME;
  match content with
  | Some text => io_lift (value_from_text text)
  | None => mret (VObject [])
  end.
Definition write_passwords (data : Value) : io unit :=
  text ← io_lift (value_to_text data);
  fs_replace LDAP_PASSWORDS_FILENAME text.
(** [data[realm] = password]: [null] becomes an object, other values panic. *)
Definition index_set (data : Value) (key : string) (v : Value) : result error Value :=
  match data with
  | VObject m => Ok (VObject (map_set m key v))
  | VNull => Ok (VObject [(key, v)])
  | _ => Err (EMsg "panic")
  end.
Definition store_ldap_bind_password (realm password : string) : io unit :=
  data ← read_passwords;
  data ← io_lift (index_set data realm (VString password));
  write_passwords data.
Definition remove_ldap_bind_password (realm : string) : io unit :=
  data ← read_passwords;
  write_passwords (match data with VObject m => VObject (filter (λ e, e.1 ≠ realm) m) | data => data end).
Definition get_ldap_bind_password (realm : string) : io (option string) :=
  data ← read_passwords;
  mret (get data realm ≫= as_str).

(** ** Connections *)

Definition ldap_to_conn_mode (mode : LdapMode) : ConnectionMode :=
  match mode with ModeLdap => ConnLdap | ModeStartTls => ConnStartTls | ModeLdaps => ConnLdaps end.
Definition lookup_ca_store_or_cert_path (capath : option string) : option string * option (list string) :=
  match capath with
  | Some path => if path_is_dir path then (Some path, None) else (None, Some [path])
  | None => (None, None)
  end.

(** [LdapAuthenticator] *)
Definition ldap_api_type_to_config_with_password (config : LdapRealmConfig) (password : option string) : Config :=
  let servers := lr_server1 config :: match lr_server2 config with Some server => [server] | None => [] end in
  let '(ca_store, trusted_cert) := lookup_ca_store_or_cert_path (lr_capath config) in
  mkConfig servers (lr_port config) (lr_user_attr config) (lr_base_dn config) (lr_bind_dn config) password
    (ldap_to_conn_mode (default LdapMode_default (lr_mode config))) (default false (lr_verify config)) trusted_cert ca_store.
Definition ldap_api_type_to_config (config : LdapRealmConfig) : io Config :=
  password ← get_ldap_bind_password (lr_realm config);
  mret (ldap_api_type_to_config_with_password config password).

(** [AdAuthenticator] *)
Definition ad_api_type_to_config_with_password (config : AdRealmConfig) (password : option string) : Config :=
  let servers := ar_server1 config :: match ar_server2 config with Some server => [server] | None => [] end in
  let '(ca_store, trusted_cert) := lookup_ca_store_or_cert_path (ar_capath config) in
  mkConfig servers (ar_port config) "sAMAccountName" (default "" (ar_base_dn config)) (ar_bind_dn config) password
    (ldap_to_conn_mode (default LdapMode_default (ar_mode config))) (default false (ar_verify config)) trusted_cert ca_store.
Definition ad_api_type_to_config (config : AdRealmConfig) : io Config :=
  password ← get_ldap_bind_password (ar_realm config);
  mret (ad_api_type_to_config_with_password config password).

Definition retrieve_default_naming_context (ldap_config : Config) : result error string :=
  match retrieve_root_dse_attr ldap_config "defaultNamingContext" with
  | Ok (base_dn :: _) => Ok base_dn
  | Ok [] => Err (EMsg "server did not provide `defaultNamingContext`")
  | Err _ => Err (EMsg "failed to determine base_dn")
  end.

(** ** Handlers *)

Definition detect (content : string) (expected : option digest) : io unit :=
  match detect_modification (config_digest content) expected with
  | Err _ => io_fail (EMsg "detected modified configuration - file changed by other user? Try again.")
  | Ok _ => mret tt
  end.
Definition updated_comment (comment : string) : option string :=
  let comment := trim comment in if String.eqb comment "" then None else Some comment.
Definition already_exists (realm : string) : error := EMsg ("realm '" +:+ realm +:+ "' already exists.").

(** [list_ldap_realms], [list_ad_realms], [list_openid_realms], and the digest. *)
Definition list_realms_of {T} `{!SectionCodec T} (type : string) : io (list T * digest) :=
  '(config, content) ← domains_config;
  l ← io_lift (convert_to_typed_array config type);
  mret (l, config_digest content).
Definition list_ldap_realms : io (list LdapRealmConfig * digest) := list_realms_of "ldap".
Definition list_ad_realms : io (list AdRealmConfig * digest) := list_realms_of "ad".
Definition list_openid_realms : io (list OpenIdRealmConfig * digest) := list_realms_of "openid".
Definition read_realm_of {T} `{!SectionCodec T} (type realm : string) : io (T * digest) :=
  '(domains, content) ← domains_config;
  c ← io_lift (lookup_section domains type realm);
  mret (c, config_digest content).
Definition read_ldap_realm (realm : string) : io (LdapRealmConfig * digest) := read_realm_of "ldap" realm.
Definition read_ad_realm (realm : string) : io (AdRealmConfig * digest) := read_realm_of "ad" realm.
Definition read_openid_realm (realm : string) : io (OpenIdRealmConfig * digest) := read_realm_of "openid" realm.
Definition read_pdm_realm : io (PdmRealmConfig * digest) := read_realm_of "pdm" "pdm".

(** [if let Some(password) = password { store_ldap_bind_password(..)?; }] *)
Definition store_password_if (realm : string) (password : option string) : io unit :=
  match password with Some password => store_ldap_bind_password realm password | None => mret tt end.
(** The end of the handlers that create a realm. *)
Definition insert_realm {T} `{!SectionCodec T} `{!RealmConfig T} domains (realm type : string) (config : T) : io unit :=
  let domains := if bool_decide (default_realm config = Some true) then unset_default_realm domains else domains in
  domains ← io_lift (set_data domains realm type config);
  domains_save_config domains.

Definition create_ldap_realm (config : LdapRealmConfig) (password : option string) : io unit :=
  _ ← domains_lock_config;
  '(domains, _) ← domains_config;
  if domain_exists domains (lr_realm config) then io_fail (already_exists (lr_realm config))
  else
    let ldap_config := ldap_api_type_to_config_with_password config password in
    _ ← io_lift (check_connection ldap_config);
    _ ← store_password_if (lr_realm config) password;
    insert_realm domains (lr_realm config) "ldap" config.

Definition create_ad_realm (config : AdRealmConfig) (password : option string) : io unit :=
  _ ← domains_lock_config;
  '(domains, _) ← domains_config;
  if domain_exists domains (ar_realm config) then io_fail (already_exists (ar_realm config))
  else
    let ldap_config := ad_api_type_to_config_with_password config password in
    '(config, ldap_config) ← (match ar_base_dn config with
                              | None => base_dn ← io_lift (retrieve_default_naming_context ldap_config);
                                        mret (set_ar_base_dn (Some base_dn) config, set_base_dn base_dn ldap_config)
                              | Some _ => mret (config, ldap_config)
                              end);
    _ ← io_lift (check_connection ldap_config);
    _ ← store_password_if (ar_realm config) password;
    insert_realm domains (ar_realm config) "ad" config.

Definition create_openid_realm (config : OpenIdRealmConfig) : io unit :=
  _ ← domains_lock_config;
  '(domains, _) ← domains_config;
  if domain_exists domains (or_realm config) then io_fail (already_exists (or_realm config))
  else insert_realm domains (or_realm config) "openid" config.

(** Also the handler for realms of type [ad]. *)
Definition delete_ldap_realm (realm : string) (expected : option digest) : io unit :=
  _ ← domains_lock_config;
  '(domains, content) ← domains_config;
  _ ← detect content expected;
  if domain_exists domains realm then
    _ ← domains_save_config (sc_remove domains realm);
    _ ← io_try (remove_ldap_bind_password realm);
    mret tt
  else io_fail (EMsg ("realm '" +:+ realm +:+ "' does not exist.")).
Definition delete_openid_realm (realm : string) (expected : option digest) : io unit :=
  _ ← domains_lock_config;
  '(domains, content) ← domains_config;
  _ ← detect content expected;
  if domain_exists domains realm then domains_save_config (sc_remove domains realm)
  else io_fail (EMsg ("realm '" +:+ realm +:+ "' does not exist.")).

(** *** Updates *)

(** The [DeletableProperty] of [ldap.rs] and of [ad.rs]. *)
Inductive LdapDeletableProperty : Type :=
| DelServer2 | DelPort | DelComment | DelDefault | DelVerify | DelMode | DelBindDn | DelPassword | DelFilter
| DelSyncDefaultsOptions | DelSyncAttributes | DelUserClasses.

Definition delete_ldap_property (realm : string) (config : LdapRealmConfig) (p : LdapDeletableProperty) : io LdapRealmConfig :=
  match p with
  | DelServer2 => mret (set_lr_server2 None config)
  | DelComment => mret (set_lr_comment None config)
  | DelDefault => mret (set_lr_default None config)
  | DelPort => mret (set_lr_port None config)
  | DelVerify => mret (set_lr_verify None config)
  | DelMode => mret (set_lr_mode None config)
  | DelBindDn => mret (set_lr_bind_dn None config)
  | DelPassword => _ ← remove_ldap_bind_password realm; mret config
  | DelFilter => mret (set_lr_filter None config)
  | DelSyncDefaultsOptions => mret (set_lr_sync_defaults_options None config)
  | DelSyncAttributes => mret (set_lr_sync_attributes None config)
  | DelUserClasses => mret (set_lr_user_classes None config)
  end.
Definition delete_ad_property (realm : string) (config : AdRealmConfig) (p : LdapDeletableProperty) : io AdRealmConfig :=
  match p with
  | DelServer2 => mret (set_ar_server2 None config)
  | DelComment => mret (set_ar_comment None config)
  | DelDefault => mret (set_ar_default None config)
  | DelPort => mret (set_ar_port None config)
  | DelVerify => mret (set_ar_verify None config)
  | DelMode => mret (set_ar_mode None config)
  | DelBindDn => mret (set_ar_bind_dn None config)
  | DelPassword => _ ← remove_ldap_bind_password realm; mret config
  | DelFilter => mret (set_ar_filter None config)
  | DelSyncDefaultsOptions => mret (set_ar_sync_defaults_options None config)
  | DelSyncAttributes => mret (set_ar_sync_attributes None config)
  | DelUserClasses => mret (set_ar_user_classes None config)
  end.
Fixpoint delete_properties {T P} (f : T → P → io T) (config : T) (l : list P) : io T :=
  match l with
  | [] => mret config
  | p :: l => config ← f config p; delete_properties f config l
  end.

(** [if let Some(x) = update.x { config.x = x; }], and the same for an optional field. *)
Definition assign {T A} (set : A → T → T) (x : option A) (config : T) : T :=
  match x with Some x => set x config | None => config end.
Definition assign_opt {T A} (set : option A → T → T) (x : option A) (config : T) : T := assign (set ∘ Some) x config.
(** [if let Some(true) = update.default { .. } else { config.default = None; }] *)
Definition updated_default (update : option bool) : option bool :=
  if bool_decide (update = Some true) then Some true else None.

Definition apply_ldap_update (update : LdapRealmConfigUpdater) (config : LdapRealmConfig) : LdapRealmConfig :=
  let config := assign set_lr_server1 (lu_server1 update) config in
  let config := assign_opt set_lr_server2 (lu_server2 update) config in
  let config := assign_opt set_lr_port (lu_port update) config in
  let config := assign set_lr_base_dn (lu_base_dn update) config in
  let config := assign set_lr_user_attr (lu_user_attr update) config in
  let config := assign (λ c, set_lr_comment (updated_comment c)) (lu_comment update) config in
  let config := set_lr_default (updated_default (lu_default update)) config in
  let config := assign_opt set_lr_mode (lu_mode update) config in
  let config := assign_opt set_lr_verify (lu_verify update) config in
  let config := assign_opt set_lr_bind_dn (lu_bind_dn update) config in
  let config := assign_opt set_lr_filter (lu_filter update) config in
  let config := assign_opt set_lr_sync_defaults_options (lu_sync_defaults_options update) config in
  let config := assign_opt set_lr_sync_attributes (lu_sync_attributes update) config in
  assign_opt set_lr_user_classes (lu_user_classes update) config.
Definition apply_ad_update (update : AdRealmConfigUpdater) (config : AdRealmConfig) : AdRealmConfig :=
  let config := assign set_ar_server1 (au_server1 update) config in
  let config := assign_opt set_ar_server2 (au_server2 update) config in
  let config := assign_opt set_ar_port (au_port update) config in
  let config := assign_opt set_ar_base_dn (au_base_dn update) config in
  let config := assign (λ c, set_ar_comment (updated_comment c)) (au_comment update) config in
  let config := set_ar_default (updated_default (au_default update)) config in
  let config := assign_opt set_ar_mode (au_mode update) config in
  let config := assign_opt set_ar_verify (au_verify update) config in
  let config := assign_opt set_ar_bind_dn (au_bind_dn update) config in
  let config := assign_opt set_ar_filter (au_filter update) config in
  let config := assign_opt set_ar_sync_defaults_options (au_sync_defaults_options update) config in
  let config := assign_opt set_ar_sync_attributes (au_sync_attributes update) config in
  assign_opt set_ar_user_classes (au_user_classes update) config.

(** [unset_default_realm], if the update makes this the default, and the end of an update. *)
Definition update_realm {T} `{!SectionCodec T} domains (realm type : string) (update_default : option bool) (config : T) : io unit :=
  let domains := if bool_decide (update_default = Some true) then unset_default_realm domains else domains in
  domains ← io_lift (set_data domains realm type config);
  domains_save_config domains.

Definition update_ldap_realm (realm : string) (update : LdapRealmConfigUpdater) (password : option string)
    (delete : option (list LdapDeletableProperty)) (expected : option digest) : io unit :=
  _ ← domains_lock_config;
  '(domains, content) ← domains_config;
  _ ← detect content expected;
  config ← io_lift (lookup_section domains "ldap" realm);
  config ← delete_properties (delete_ldap_property realm) config (default [] delete);
  let config := apply_ldap_update update config in
  ldap_config ← (match password with
                 | Some _ => mret (ldap_api_type_to_config_with_password config password)
                 | None => ldap_api_type_to_config config
                 end);
  _ ← io_lift (check_connection ldap_config);
  _ ← store_password_if realm password;
  update_realm domains realm "ldap" (lu_default update) config.

Definition update_ad_realm (realm : string) (update : AdRealmConfigUpdater) (password : option string)
    (delete : option (list LdapDeletableProperty)) (expected : option digest) : io unit :=
  _ ← domains_lock_config;
  '(domains, content) ← domains_config;
  _ ← detect content expected;
  config ← io_lift (lookup_section domains "ad" realm);
  config ← delete_properties (delete_ad_property realm) config (default [] delete);
  let config := apply_ad_update update config in
  ldap_config ← (match password with
                 | Some _ => mret (ad_api_type_to_config_with_password config password)
                 | None => ad_api_type_to_config config
                 end);
  '(config, ldap_config) ← (match ar_base_dn config with
                            | None => base_dn ← io_lift (retrieve_default_naming_context ldap_config);
                                      mret (set_ar_base_dn (Some base_dn) config, set_base_dn base_dn ldap_config)
                            | Some _ => mret (config, ldap_config)
                            end);
  _ ← io_lift (check_connection ldap_config);
  _ ← store_password_if realm password;
  update_realm domains realm "ad" (au_default update) config.

Inductive OpenIdDeletableProperty : Type :=
| OidClientKey | OidComment | OidDefault | OidAutocreate | OidScopes | OidPrompt | OidAcrValues | OidAudiences.
Definition delete_openid_property (config : OpenIdRealmConfig) (p : OpenIdDeletableProperty) : OpenIdRealmConfig :=
  match p with
  | OidClientKey => set_or_client_key None config
  | OidComment => set_or_comment None config
  | OidDefault => set_or_default None config
  | OidAutocreate => set_or_autocreate None config
  | OidScopes => set_or_scopes None config
  | OidPrompt => set_or_prompt None config
  | OidAcrValues => set_or_acr_values None config
  | OidAudiences => set_or_audiences None config
  end.
Definition apply_openid_update (update : OpenIdRealmConfigUpdater) (config : OpenIdRealmConfig) : OpenIdRealmConfig :=
  let config := assign (λ c, set_or_comment (updated_comment c)) (ou_comment update) config in
  let config := set_or_default (updated_default (ou_default update)) config in
  let config := assign set_or_issuer_url (ou_issuer_url update) config in
  let config := assign set_or_client_id (ou_client_id update) config in
  let config := assign_opt set_or_client_key (ou_client_key update) config in
  let config := assign_opt set_or_autocreate (ou_autocreate update) config in
  let config := assign_opt set_or_scopes (ou_scopes update) config in
  let config := assign_opt set_or_prompt (ou_prompt update) config in
  let config := assign_opt set_or_acr_values (ou_acr_values update) config in
  assign_opt set_or_audiences (ou_audiences update) config.
Definition update_openid_realm (realm : string) (update : OpenIdRealmConfigUpdater)
    (delete : option (list OpenIdDeletableProperty)) (expected : option digest) : io unit :=
  _ ← domains_lock_config;
  '(domains, content) ← domains_config;
  _ ← detect content expected;
  config ← io_lift (lookup_section domains "openid" realm);
  let config := foldl delete_openid_property config (default [] delete) in
  update_realm domains realm "openid" (ou_default update) (apply_openid_update update config).

Inductive PdmDeletableProperty : Type := PdmComment | PdmDefault.
Definition delete_pdm_property (config : PdmRealmConfig) (p : PdmDeletableProperty) : PdmRealmConfig :=
  match p with PdmComment => set_pr_comment None config | PdmDefault => set_pr_default None config end.
Definition apply_pdm_update (update : PdmRealmConfigUpdater) (config : PdmRealmConfig) : PdmRealmConfig :=
  let config := assign (λ c, set_pr_comment (updated_comment c)) (pu_comment update) config in
  set_pr_default (updated_default (pu_default update)) config.
Definition update_pdm_realm (update : PdmRealmConfigUpdater) (delete : option (list PdmDeletableProperty))
    (expected : option digest) : io unit :=
  _ ← domains_lock_config;
  '(domains, content) ← domains_config;
  _ ← detect content expected;
  config ← io_lift (lookup_section domains "pdm" "pdm");
  let config := foldl delete_pdm_property config (default [] delete) in
  update_realm domains "pdm" "pdm" (pu_default update) (apply_pdm_update update config).

(** *** The list for the login, and synchronization *)

(** [entry["type"] = ..]; what [BasicRealmInfo] needs of the object is up to serde. *)
Definition list_domains : io (list Value * digest) :=
  '(config, content) ← domains_config;
  l ← io_lift (foldr (λ '(_, (section_type, v)) l, entry ← index_set v "type" (VString section_type); l ← l; Ok (entry :: l))
                 (Ok []) (sc_iter config));
  mret (l, config_digest content).
Fixpoint find_type (l : list (string * section)) (realm : string) : result error RealmType :=
  match l with
  | [] => Err (EMsg ("unable to find realm " +:+ realm))
  | (name, (section_type, _)) :: l => if String.eqb name realm then parse_realm_type section_type else find_type l realm
  end.
Definition realm_type_from_name (realm : string) : io RealmType :=
  '(config, _) ← domains_config;
  io_lift (find_type (sc_iter config) realm).
(** The worker of [do_realm_sync_job]. *)
Definition do_realm_sync_job (realm : string) (realm_type : RealmType) (dry_run : bool)
    (remove_vanished : option string) (enable_new : option bool) : io unit :=
  let override_settings := mkSyncSettings remove_vanished enable_new in
  match realm_type with
  | RealmLdap =>
      '(domains, _) ← domains_config;
      match lookup_section domains "ldap" realm with
      | Ok config => ldap_config ← ldap_api_type_to_config config; ldap_realm_sync realm config ldap_config override_settings dry_run
      | Err _ => io_fail (EMsg ("unknown LDAP realm '" +:+ realm +:+ "'"))
      end
  | RealmAd =>
      '(domains, _) ← domains_config;
      match lookup_section domains "ad" realm with
      | Ok config => ldap_config ← ad_api_type_to_config config; ad_realm_sync realm config ldap_config override_settings dry_run
      | Err _ => io_fail (EMsg ("unknown Active Directory realm '" +:+ realm +:+ "'"))
      end
  | _ => io_fail (EMsg ("cannot sync realm " +:+ realm +:+ " of type " +:+ realm_type_to_string realm_type))
  end.
(** [sync_realm]: the type, and what the worker then does. *)
Definition sync_realm (realm : string) (dry_run : bool) (remove_vanished : option string) (enable_new : option bool) : io (io unit) :=
  realm_type ← realm_type_from_name realm;
  mret (do_realm_sync_job realm realm_type dry_run remove_vanished enable_new).
End realms.
