(* ===== verification/RealmProperties.v ===== *)
(** * Login realms: theorems

    The handlers of [Realms] under arbitrary I/O faults: a request for one realm leaves
    the others and their passwords alone, and there is never more than one default realm;
    what an update of an LDAP realm does, and what is left when it is refused. *)

From S2P Require Import Prelude FileSystem SectionConfig RemotesConfig JsonValue CephText Realms.
#[local] Open Scope string_scope.
#[local] Open Scope list_scope.

(** ** What is on disk *)

Section laws.
Context {C : Type} `{SectionConfigData C section} `{SectionText C} `{!ConfigDigests string}.
Context `{!SectionCodec LdapRealmConfig} `{!SectionCodec AdRealmConfig} `{!SectionCodec OpenIdRealmConfig}
        `{!SectionCodec PdmRealmConfig} `{JsonText} `{LdapServer}.
Implicit Types (c domains : C) (m : gmap string string) (r : string).

Definition disk_domains m : option C := result_ok (parse_section_config (default "" (m !! DOMAINS_CFG_FILENAME))).
Definition password_of m r : option (option string) := result_ok (get_ldap_bind_password r (World m [])).1.

Definition is_default (s : section) : Prop := get s.2 "default" = Some (VBool true).
Definition drop_default (s : section) : section := (s.1, remove_default s.2).
Definition one_default c : Prop :=
  ∀ i j s t, sc_get c i = Some s → sc_get c j = Some t → is_default s → is_default t → i = j.

(** A change of the realm [r]: other realms stay, at most they are not the default any
    more. *)
Definition changes_realm r c c' : Prop :=
  (one_default c → one_default c') ∧
  ∀ r', r' ≠ r → sc_get c' r' = sc_get c r' ∨ sc_get c' r' = drop_default <$> sc_get c r'.

Definition realm_step r m m' : Prop :=
  (∀ f, f ≠ DOMAINS_CFG_FILENAME → f ≠ LDAP_PASSWORDS_FILENAME → m' !! f = m !! f) ∧
  (∀ r', r' ≠ r → password_of m' r' = password_of m r') ∧
  ∀ c, disk_domains m = Some c → ∃ c', disk_domains m' = Some c' ∧ changes_realm r c c'.

Lemma map_get_filter_ne (l : list (string * Value)) k k' : k ≠ k' → map_get (filter (λ e, e.1 ≠ k) l) k' = map_get l k'.
Proof.
  intros Hk. induction l as [|[k1 v] l IH]; [done|]. rewrite filter_cons. cbn. destruct (decide (k1 = k)) as [->|Hne].
  - rewrite decide_False by naive_solver. destruct (String.eqb_spec k k'); [done|]. done.
  - rewrite decide_True by done. cbn. by destruct (String.eqb_spec k1 k').
Qed.
Lemma map_get_filter_eq (l : list (string * Value)) k : map_get (filter (λ e, e.1 ≠ k) l) k = None.
Proof.
  induction l as [|[k1 v] l IH]; [done|]. rewrite filter_cons. cbn. destruct (decide (k1 = k)) as [->|Hne].
  - by rewrite decide_False by naive_solver.
  - rewrite decide_True by done. cbn. by destruct (String.eqb_spec k1 k).
Qed.
Lemma map_get_set_decide (l : list (string * Value)) k v k' : map_get (map_set l k v) k' = if decide (k = k') then Some v else map_get l k'.
Proof. rewrite map_get_set. by destruct (String.eqb_spec k k'), (decide (k = k')). Qed.

Lemma drop_default_not s : ¬ is_default (drop_default s).
Proof.
  unfold is_default, drop_default. cbn. destruct s as [t [| | | | |m]]; cbn; try done. by rewrite map_get_filter_eq.
Qed.
Lemma drop_default_idemp s : drop_default (drop_default s) = drop_default s.
Proof.
  destruct s as [t [| | | | |m]]; try done. unfold drop_default. cbn. f_equal. f_equal.
  rewrite list_filter_filter_l; [done|]. done.
Qed.

Lemma changes_realm_refl r c : changes_realm r c c.
Proof. split; [done|by left]. Qed.
Lemma changes_realm_trans r c1 c2 c3 : changes_realm r c1 c2 → changes_realm r c2 c3 → changes_realm r c1 c3.
Proof.
  intros [O1 G1] [O2 G2]. split; [by auto|]. intros r' Hr. destruct (G1 r' Hr) as [E1|E1], (G2 r' Hr) as [E2|E2];
    rewrite E2, E1; [by left|by right|by right|]. right. destruct (sc_get c1 r') as [s|]; [|done]. cbn. by rewrite drop_default_idemp.
Qed.
Lemma changes_realm_ext r c c1 c2 : (∀ id, sc_get c2 id = sc_get c1 id) → changes_realm r c c1 → changes_realm r c c2.
Proof.
  intros He [Hone Hother]. split.
  - intros Hc i j s t. rewrite !He. by apply Hone.
  - intros r' Hr. rewrite He. by apply Hother.
Qed.

#[global] Instance realm_step_preorder r : PreOrder (realm_step r).
Proof.
  split.
  - intros m. split_and!; [done..|]. intros c Hc. exists c. split; [done|apply changes_realm_refl].
  - intros m1 m2 m3 (F1 & P1 & D1) (F2 & P2 & D2). split_and!.
    + intros f Hf Hf'. by rewrite F2, F1.
    + intros r' Hr. by rewrite P2, P1.
    + intros c Hc. destruct (D1 c Hc) as (c2 & Hc2 & Hch2), (D2 c2 Hc2) as (c3 & Hc3 & Hch3).
      exists c3. split; [done|by eapply changes_realm_trans].
Qed.

Lemma password_of_file m m' r : m' !! LDAP_PASSWORDS_FILENAME = m !! LDAP_PASSWORDS_FILENAME → password_of m' r = password_of m r.
Proof. intros Hf. unfold password_of, get_ldap_bind_password, read_passwords. rewrite !io_bind_run. cbn. rewrite Hf. by destruct (m !! _) as [t|]; cbn; [destruct (value_from_text t)|]. Qed.
Lemma disk_domains_file m m' : m' !! DOMAINS_CFG_FILENAME = m !! DOMAINS_CFG_FILENAME → disk_domains m' = disk_domains m.
Proof. intros Hf. unfold disk_domains. by rewrite Hf. Qed.

Context `{!SectionConfigLaws C section} `{!SectionTextLaws C section} `{!JsonTextLaws}.
Context `{!SectionCodecLaws LdapRealmConfig} `{!SectionCodecLaws AdRealmConfig} `{!SectionCodecLaws OpenIdRealmConfig}
        `{!SectionCodecLaws PdmRealmConfig}.

(** ** Passwords *)

Definition passwords_on_disk m : option Value :=
  match m !! LDAP_PASSWORDS_FILENAME with Some text => result_ok (value_from_text text) | None => Some (VObject []) end.
Lemma password_of_disk m r : password_of m r = (λ data, get data r ≫= as_str) <$> passwords_on_disk m.
Proof.
  unfold password_of, passwords_on_disk, get_ldap_bind_password, read_passwords. rewrite !io_bind_run. cbn.
  destruct (m !! _) as [t|]; [|done]. cbn. by destruct (value_from_text t).
Qed.

Lemma triple_read_passwords m0 :
  triple (λ m, m = m0) read_passwords (λ data m, m = m0 ∧ passwords_on_disk m0 = Some data) (λ m, m = m0).
Proof.
  eapply triple_bind; [apply triple_open|]. intros o. apply triple_pure. intros ->. unfold passwords_on_disk.
  destruct (m0 !! _) as [t|]; [|by apply triple_ret]. apply triple_lift. intros m ->. by destruct (value_from_text t).
Qed.

(** Replacing the data of [r] in the file of passwords. *)
Lemma triple_write_passwords m0 r data data' :
  passwords_on_disk m0 = Some data → (∀ r', r' ≠ r → get data' r' = get data r') →
  triple (λ m, m = m0) (write_passwords data')
    (λ _ m, realm_step r m0 m ∧ disk_domains m = disk_domains m0 ∧ passwords_on_disk m = Some data') (λ m, m = m0).
Proof.
  intros Hd Hother. eapply (triple_bind _ _ _ (λ text m, m = m0 ∧ value_to_text data' = Ok text)).
  { apply triple_lift. intros m ->. by destruct (value_to_text data'). }
  intros text. apply triple_pure. intros Ht. eapply triple_conseq; [apply (triple_replace m0)|done| |done].
  intros _ m ->. assert (passwords_on_disk (<[LDAP_PASSWORDS_FILENAME:=text]> m0) = Some data') as Hnew.
  { unfold passwords_on_disk. rewrite lookup_insert_eq. by rewrite (json_roundtrip _ _ Ht). }
  assert (disk_domains (<[LDAP_PASSWORDS_FILENAME:=text]> m0) = disk_domains m0) as Hdom.
  { apply disk_domains_file. by rewrite lookup_insert_ne by done. }
  split_and!; [|done|done]. split_and!.
  - intros f _ Hf. by rewrite lookup_insert_ne by done.
  - intros r' Hr. rewrite !password_of_disk, Hnew, Hd. cbn. by rewrite Hother.
  - intros c Hc. exists c. rewrite Hdom. split; [done|apply changes_realm_refl].
Qed.

Lemma triple_store_password m0 r password :
  triple (λ m, m = m0) (store_ldap_bind_password r password)
    (λ _ m, realm_step r m0 m ∧ disk_domains m = disk_domains m0 ∧ password_of m r = Some (Some password)) (λ m, m = m0).
Proof.
  eapply triple_bind; [apply triple_read_passwords|]. intros data. apply triple_pure. intros Hd.
  eapply (triple_bind _ _ _ (λ data' m, m = m0 ∧ index_set data r (VString password) = Ok data')).
  { apply triple_lift. intros m ->. by destruct (index_set _ _ _). }
  intros data'. apply triple_pure. intros Hi.
  assert (∀ r', get data' r' = if decide (r = r') then Some (VString password) else get data r') as Hget.
  { intros r'. destruct data as [| | | | |l]; cbn in Hi; simplify_eq; cbn; [|apply map_get_set_decide].
    destruct (String.eqb_spec r r'); [by rewrite decide_True|by rewrite decide_False]. }
  eapply triple_conseq; [eapply (triple_write_passwords _ r); [exact Hd|]|done| |done].
  - intros r' Hr. by rewrite Hget, decide_False by done.
  - intros _ m (Hs & Hdom & Hp). split_and!; [done..|]. rewrite password_of_disk, Hp. cbn. by rewrite Hget, decide_True.
Qed.

Lemma triple_remove_password m0 r :
  triple (λ m, m = m0) (remove_ldap_bind_password r)
    (λ _ m, realm_step r m0 m ∧ disk_domains m = disk_domains m0 ∧ password_of m r = Some None) (λ m, m = m0).
Proof.
  eapply triple_bind; [apply triple_read_passwords|]. intros data. apply triple_pure. intros Hd.
  eapply triple_conseq; [eapply (triple_write_passwords _ r); [exact Hd|]|done| |done].
  - intros r' Hr. destruct data as [| | | | |l]; try done. cbn. by rewrite map_get_filter_ne.
  - intros _ m (Hs & Hdom & Hp). split_and!; [done..|]. rewrite password_of_disk, Hp. cbn.
    destruct data as [| | | | |l]; try done. cbn. by rewrite map_get_filter_eq.
Qed.

(** ** Steps of the handlers *)

Lemma triple_domains_config m0 :
  triple (λ m, m = m0) domains_config
    (λ x m, (m = m0 ∧ disk_domains m0 = Some x.1) ∧ x.2 = default "" (m0 !! DOMAINS_CFG_FILENAME)) (λ m, m = m0).
Proof.
  eapply triple_bind; [apply triple_open|]. intros o. apply triple_pure. intros ->.
  eapply (triple_bind _ _ _ (λ c m, m = m0 ∧ disk_domains m0 = Some c)).
  - apply triple_lift. intros m ->. unfold disk_domains. by destruct (parse_section_config _).
  - intros c. apply triple_ret. intros m [-> Hc]. done.
Qed.

Section step.
Context (m0 : gmap string string) (r : string) (c : C).

(** The domains of the start are still on disk. *)
Definition ready m : Prop := realm_step r m0 m ∧ disk_domains m = Some c.

Lemma ready_lift {A} (x : result error A) : triple ready (io_lift x) (λ a m, ready m ∧ x = Ok a) (realm_step r m0).
Proof. apply triple_lift. intros m Hm. by destruct x; [|apply Hm]. Qed.
Lemma ready_ret {A} (a : A) : triple ready (mret a) (λ _, ready) (realm_step r m0).
Proof. by apply triple_ret. Qed.
Lemma ready_read {A} (op : io A) :
  (∀ m1, triple (λ m, m = m1) op (λ _ m, m = m1) (λ m, m = m1)) → triple ready op (λ _, ready) (realm_step r m0).
Proof.
  intros Hop. apply triple_from. intros m1 Hm. eapply triple_conseq; [apply (Hop m1)|done|by intros _ m ->|].
  intros m ->. apply Hm.
Qed.
Lemma ready_write {A} (op : io A) Q :
  (∀ m1, triple (λ m, m = m1) op (λ _ m, realm_step r m1 m ∧ disk_domains m = disk_domains m1 ∧ Q m) (λ m, m = m1)) →
  triple ready op (λ _, ready) (realm_step r m0).
Proof.
  intros Hop. apply triple_from. intros m1 [Hs Hd]. eapply triple_conseq; [apply (Hop m1)|done| |].
  - intros _ m (Hs' & Hd' & _). split; [by etrans|by rewrite Hd'].
  - by intros m ->.
Qed.
Lemma ready_store password : triple ready (store_ldap_bind_password r password) (λ _, ready) (realm_step r m0).
Proof. eapply ready_write. intros m1. apply triple_store_password. Qed.
Lemma ready_remove : triple ready (remove_ldap_bind_password r) (λ _, ready) (realm_step r m0).
Proof. eapply ready_write. intros m1. apply triple_remove_password. Qed.
Lemma ready_store_if password : triple ready (store_password_if r password) (λ _, ready) (realm_step r m0).
Proof. destruct password; [apply ready_store|apply ready_ret]. Qed.
Lemma ready_get r' : triple ready (get_ldap_bind_password r') (λ _, ready) (realm_step r m0).
Proof.
  apply ready_read. intros m1. eapply triple_bind; [apply triple_read_passwords|].
  intros data. apply triple_ret. by intros m [-> _].
Qed.
Lemma ready_detect content expected : triple ready (detect content expected) (λ _, ready) (realm_step r m0).
Proof. unfold detect. destruct (detect_modification _ _); [apply ready_ret|]. intros w Hw. apply Hw. Qed.

Lemma ready_save c' :
  changes_realm r c c' → triple ready (domains_save_config c') (λ _, realm_step r m0) (realm_step r m0).
Proof.
  intros Hch. eapply triple_bind; [apply ready_lift|]. intros raw. apply triple_pure. intros Hraw.
  apply triple_from. intros m1 [Hs Hd]. eapply triple_conseq; [apply (triple_replace m1)|done| |by intros m ->].
  intros _ m ->. destruct (parse_written _ _ Hraw) as (c2 & Hc2 & Hget). etrans; [exact Hs|]. split_and!.
  - intros f Hf _. by rewrite lookup_insert_ne by done.
  - intros r' _. apply password_of_file. by rewrite lookup_insert_ne by done.
  - intros c1 Hc1. rewrite Hd in Hc1. simplify_eq. exists c2. unfold disk_domains. rewrite lookup_insert_eq. cbn. rewrite Hc2.
    split; [done|]. by eapply changes_realm_ext.
Qed.
Lemma ready_stop {A} e : triple ready (@io_fail A e) (λ _, realm_step r m0) (realm_step r m0).
Proof. intros w [Hs _]. exact Hs. Qed.
End step.

(** Every handler starts like this. *)
Lemma triple_handler m0 r (k : C * string → io unit) :
  (∀ c content, triple (ready m0 r c) (k (c, content)) (λ _, realm_step r m0) (realm_step r m0)) →
  triple (λ m, m = m0) (_ ← domains_lock_config; x ← domains_config; k x) (λ _, realm_step r m0) (realm_step r m0).
Proof.
  intros Hk. eapply triple_bind; [eapply triple_conseq; [apply (triple_sync m0)|done|done|by intros m ->]|].
  intros ?. cbv beta. eapply triple_bind; [eapply triple_conseq; [apply (triple_domains_config m0)|done|done|by intros m ->]|].
  intros [c content]. apply triple_pure. intros _. eapply triple_conseq; [apply (Hk c content)|by intros m [-> Hd]|done|done].
Qed.

(** ** What is written *)

Lemma unset_default_get c id : sc_get (unset_default_realm c) id = drop_default <$> sc_get c id.
Proof.
  unfold unset_default_realm.
  assert (∀ keys c0, sc_get (foldl (λ d id, sc_modify d id (λ '(type, v), (type, remove_default v))) c0 keys) id =
    if decide (id ∈ keys) then drop_default <$> sc_get c0 id else sc_get c0 id) as Hgen.
  { induction keys as [|k keys IH]; intros c0; [done|]. cbn [foldl]. rewrite IH, sc_get_modify.
    destruct (decide (k = id)) as [->|Hne].
    - rewrite (decide_True (P := id ∈ id :: keys)) by left. destruct (sc_get c0 id) as [[t v]|]; cbn; [|by destruct (decide _)].
      destruct (decide (id ∈ keys)); [|done]. cbn. by rewrite <- (drop_default_idemp (t, v)).
    - destruct (decide (id ∈ keys)); [by rewrite decide_True by by right|].
      rewrite decide_False; [done|]. rewrite elem_of_cons. naive_solver. }
  rewrite Hgen. destruct (decide (id ∈ (sc_iter c).*1)) as [|Hnot]; [done|].
  destruct (sc_get c id) as [s|] eqn:Hs; [|done]. destruct Hnot. apply list_elem_of_fmap. exists (id, s).
  split; [done|]. by apply sc_iter_get.
Qed.

Lemma set_data_changes {T} `{SectionCodecLaws T} c c' (r type : string) (config : T) (unset : bool) :
  set_data (if unset then unset_default_realm c else c) r type config = Ok c' →
  (default_realm config = Some true → unset = true) → changes_realm r c c'.
Proof.
  intros Hset Hunset. unfold set_data in Hset. destruct (to_section config) as [v|] eqn:Hv; [|done].
  injection Hset as <-. pose proof (section_default _ _ Hv) as Hdef.
  assert (∀ id, id ≠ r → sc_get (sc_insert (if unset then unset_default_realm c else c) r (type, v)) id =
    if unset then drop_default <$> sc_get c id else sc_get c id) as Hother.
  { intros id Hid. rewrite sc_get_insert, decide_False by done. by destruct unset; [apply unset_default_get|]. }
  split.
  - intros Hone i j s t Hi Hj Hds Hdt.
    assert (∀ k u, k ≠ r → sc_get (sc_insert (if unset then unset_default_realm c else c) r (type, v)) k = Some u →
      is_default u → unset = false ∧ sc_get c k = Some u) as Hkeep.
    { intros k u Hk Hu Hdu. rewrite (Hother k Hk) in Hu. destruct unset; [|done].
      apply fmap_Some in Hu as (u' & _ & ->). by apply drop_default_not in Hdu. }
    assert (∀ u, sc_get (sc_insert (if unset then unset_default_realm c else c) r (type, v)) r = Some u → is_default u → unset = true) as Hr.
    { intros u Hu Hdu. rewrite sc_get_insert, decide_True in Hu by done. injection Hu as <-. unfold is_default in Hdu. cbn in Hdu.
      rewrite Hdef in Hdu. apply Hunset. destruct (default_realm config) as [[]|]; cbn in Hdu; congruence. }
    destruct (decide (i = r)) as [->|Hir], (decide (j = r)) as [->|Hjr]; [done|..].
    + rewrite (Hr _ Hi Hds) in *. by destruct (Hkeep _ _ Hjr Hj Hdt).
    + rewrite (Hr _ Hj Hdt) in *. by destruct (Hkeep _ _ Hir Hi Hds).
    + destruct (Hkeep _ _ Hir Hi Hds) as [_ Hi'], (Hkeep _ _ Hjr Hj Hdt) as [_ Hj']. by apply (Hone i j s t).
  - intros r' Hr. rewrite (Hother r' Hr). destruct unset; [by right|by left].
Qed.

Lemma remove_changes c r : changes_realm r c (sc_remove c r).
Proof.
  split.
  - intros Hone i j s t. rewrite !sc_get_remove. destruct (decide (r = i)), (decide (r = j)); try done. apply Hone.
  - intros r' Hr. left. by rewrite sc_get_remove, decide_False by done.
Qed.

(** ** The handlers *)

Section handlers.
Context (m0 : gmap string string).
Abbreviation handler r op := (triple (λ m, m = m0) op (λ _, realm_step r m0) (realm_step r m0)).

Lemma ready_insert {T} `{SectionCodecLaws T} r c (type : string) (config : T) :
  triple (ready m0 r c) (insert_realm c r type config) (λ _, realm_step r m0) (realm_step r m0).
Proof.
  unfold insert_realm. eapply triple_bind; [apply ready_lift|]. intros c'. apply triple_pure. intros Hset.
  apply ready_save. eapply set_data_changes; [exact Hset|]. intros Hd. by apply bool_decide_eq_true.
Qed.
Lemma ready_update {T} `{SectionCodecLaws T} r c (type : string) update (config : T) :
  (default_realm config = Some true → update = Some true) →
  triple (ready m0 r c) (update_realm c r type update config) (λ _, realm_step r m0) (realm_step r m0).
Proof.
  intros Hd. unfold update_realm. eapply triple_bind; [apply ready_lift|]. intros c'. apply triple_pure. intros Hset.
  apply ready_save. eapply set_data_changes; [exact Hset|]. intros Hd'. by apply bool_decide_eq_true, Hd.
Qed.
Lemma updated_default_true update : updated_default update = Some true → update = Some true.
Proof. unfold updated_default. case_bool_decide; done. Qed.

Lemma assign_keeps {T A B} (f : T → B) (set : A → T → T) (x : option A) (config : T) : (∀ x t, f (set x t) = f t) → f (assign set x config) = f config.
Proof. intros Hf. by destruct x; cbn. Qed.
Lemma ldap_update_default update config : lr_default (apply_ldap_update update config) = updated_default (lu_default update).
Proof. unfold apply_ldap_update, assign_opt. by rewrite !(assign_keeps lr_default) by done. Qed.
Lemma ad_update_default update config : ar_default (apply_ad_update update config) = updated_default (au_default update).
Proof. unfold apply_ad_update, assign_opt. by rewrite !(assign_keeps ar_default) by done. Qed.
Lemma openid_update_default update config : or_default (apply_openid_update update config) = updated_default (ou_default update).
Proof. unfold apply_openid_update, assign_opt. by rewrite !(assign_keeps or_default) by done. Qed.

Lemma handle_create_ldap config password : handler (lr_realm config) (create_ldap_realm config password).
Proof.
  apply triple_handler. intros c content. destruct (domain_exists c _); [apply ready_stop|].
  eapply triple_bind; [apply ready_lift|]. intros ?. apply triple_pure. intros ?.
  eapply triple_bind; [apply ready_store_if|]. intros ?. apply ready_insert.
Qed.
Lemma handle_create_ad config password : handler (ar_realm config) (create_ad_realm config password).
Proof.
  apply triple_handler. intros c content. destruct (domain_exists c _); [apply ready_stop|].
  eapply (triple_bind _ _ _ (λ x m, ready m0 (ar_realm config) c m ∧ ar_realm x.1 = ar_realm config)).
  { destruct (ar_base_dn config); [by apply triple_ret|].
    eapply triple_bind; [apply ready_lift|]. intros base_dn. apply triple_pure. intros _. by apply triple_ret. }
  intros [config' ldap_config]. apply triple_pure. cbn. intros Hrealm.
  eapply triple_bind; [apply ready_lift|]. intros ?. apply triple_pure. intros _. rewrite Hrealm.
  eapply triple_bind; [apply ready_store_if|]. intros ?. apply ready_insert.
Qed.
Lemma handle_create_openid config : handler (or_realm config) (create_openid_realm config).
Proof. apply triple_handler. intros c content. destruct (domain_exists c _); [apply ready_stop|apply ready_insert]. Qed.
Lemma handle_delete_ldap r expected : handler r (delete_ldap_realm r expected).
Proof.
  apply triple_handler. intros c content. eapply triple_bind; [apply ready_detect|]. intros ?.
  destruct (domain_exists c r); [|apply ready_stop].
  eapply triple_bind; [apply ready_save, remove_changes|]. intros ?.
  eapply (triple_bind _ _ _ (λ _, realm_step r m0)); [|intros ?; by apply triple_ret].
  apply triple_from. intros m1 Hm1. eapply (triple_try _ _ (λ _, realm_step r m0) (realm_step r m0)); [|done|done].
  eapply triple_conseq; [apply (triple_remove_password m1 r)|done| |by intros m ->]. intros ? m (Hs & _). by etrans.
Qed.
Lemma handle_delete_openid r expected : handler r (delete_openid_realm r expected).
Proof.
  apply triple_handler. intros c content. eapply triple_bind; [apply ready_detect|]. intros ?.
  destruct (domain_exists c r); [apply ready_save, remove_changes|apply ready_stop].
Qed.
Lemma ready_delete {T P} (f : T → P → io T) r c config l :
  (∀ config p, triple (ready m0 r c) (f config p) (λ _, ready m0 r c) (realm_step r m0)) →
  triple (ready m0 r c) (delete_properties f config l) (λ _, ready m0 r c) (realm_step r m0).
Proof.
  intros Hf. revert config. induction l as [|p l IH]; intros config; [apply ready_ret|].
  eapply triple_bind; [apply Hf|]. intros config'. apply IH.
Qed.
Lemma handle_update_ldap r update password delete expected : handler r (update_ldap_realm r update password delete expected).
Proof.
  apply triple_handler. intros c content. eapply triple_bind; [apply ready_detect|]. intros ?.
  eapply triple_bind; [apply ready_lift|]. intros config. apply triple_pure. intros ?.
  eapply triple_bind; [apply ready_delete; intros ? []; try apply ready_ret; (eapply triple_bind; [apply ready_remove|intros ?; apply ready_ret])|].
  intros config'. cbv zeta. eapply triple_bind.
  { destruct password; [apply ready_ret|]. unfold ldap_api_type_to_config. eapply triple_bind; [apply ready_get|intros ?; apply ready_ret]. }
  intros ldap_config. eapply triple_bind; [apply ready_lift|]. intros ?. apply triple_pure. intros ?.
  eapply triple_bind; [apply ready_store_if|]. intros ?. apply ready_update. intros Hd.
  apply updated_default_true. by rewrite <- (ldap_update_default update config').
Qed.
Lemma handle_update_ad r update password delete expected : handler r (update_ad_realm r update password delete expected).
Proof.
  apply triple_handler. intros c content. eapply triple_bind; [apply ready_detect|]. intros ?.
  eapply triple_bind; [apply ready_lift|]. intros config. apply triple_pure. intros ?.
  eapply triple_bind; [apply ready_delete; intros ? []; try apply ready_ret; (eapply triple_bind; [apply ready_remove|intros ?; apply ready_ret])|].
  intros config'. cbv zeta. eapply triple_bind.
  { destruct password; [apply ready_ret|]. unfold ad_api_type_to_config. eapply triple_bind; [apply ready_get|intros ?; apply ready_ret]. }
  intros ldap_config.
  eapply (triple_bind _ _ _ (λ x m, ready m0 r c m ∧ ar_default x.1 = updated_default (au_default update))).
  { destruct (ar_base_dn _); [apply triple_ret; intros m Hm; split; [done|apply ad_update_default]|].
    eapply triple_bind; [apply ready_lift|]. intros base_dn. apply triple_pure. intros _.
    apply triple_ret. intros m Hm. split; [done|apply (ad_update_default update config')]. }
  intros [config2 ldap_config2]. apply triple_pure. cbn. intros Hdef.
  eapply triple_bind; [apply ready_lift|]. intros ?. apply triple_pure. intros ?.
  eapply triple_bind; [apply ready_store_if|]. intros ?. apply ready_update. cbn. unfold default_realm, ad_realm. rewrite Hdef.
  apply updated_default_true.
Qed.
Lemma handle_update_openid r update delete expected : handler r (update_openid_realm r update delete expected).
Proof.
  apply triple_handler. intros c content. eapply triple_bind; [apply ready_detect|]. intros ?.
  eapply triple_bind; [apply ready_lift|]. intros config. apply triple_pure. intros _. apply ready_update. intros Hd.
  apply updated_default_true. by rewrite <- (openid_update_default update (foldl delete_openid_property config (default [] delete))).
Qed.
Lemma handle_update_pdm update delete expected : handler "pdm" (update_pdm_realm update delete expected).
Proof.
  apply triple_handler. intros c content. eapply triple_bind; [apply ready_detect|]. intros ?.
  eapply triple_bind; [apply ready_lift|]. intros config. apply triple_pure. intros _. apply ready_update. apply updated_default_true.
Qed.
End handlers.

(** ** Sequences of requests *)

Inductive realm_op : Type :=
| CreateLdap (config : LdapRealmConfig) (password : option string)
| CreateAd (config : AdRealmConfig) (password : option string)
| CreateOpenId (config : OpenIdRealmConfig)
| DeleteLdap (realm : string) (expected : option digest)
| DeleteOpenId (realm : string) (expected : option digest)
| UpdateLdap (realm : string) (update : LdapRealmConfigUpdater) (password : option string)
    (delete : option (list LdapDeletableProperty)) (expected : option digest)
| UpdateAd (realm : string) (update : AdRealmConfigUpdater) (password : option string)
    (delete : option (list LdapDeletableProperty)) (expected : option digest)
| UpdateOpenId (realm : string) (update : OpenIdRealmConfigUpdater) (delete : option (list OpenIdDeletableProperty))
    (expected : option digest)
| UpdatePdm (update : PdmRealmConfigUpdater) (delete : option (list PdmDeletableProperty)) (expected : option digest).
Definition op_realm (op : realm_op) : string :=
  match op with
  | CreateLdap config _ => lr_realm config
  | CreateAd config _ => ar_realm config
  | CreateOpenId config => or_realm config
  | DeleteLdap r _ | DeleteOpenId r _ | UpdateLdap r _ _ _ _ | UpdateAd r _ _ _ _ | UpdateOpenId r _ _ _ => r
  | UpdatePdm _ _ _ => "pdm"
  end.
Definition run_op (op : realm_op) : io unit :=
  match op with
  | CreateLdap config password => create_ldap_realm config password
  | CreateAd config password => create_ad_realm config password
  | CreateOpenId config => create_openid_realm config
  | DeleteLdap r expected => delete_ldap_realm r expected
  | DeleteOpenId r expected => delete_openid_realm r expected
  | UpdateLdap r update password delete expected => update_ldap_realm r update password delete expected
  | UpdateAd r update password delete expected => update_ad_realm r update password delete expected
  | UpdateOpenId r update delete expected => update_openid_realm r update delete expected
  | UpdatePdm update delete expected => update_pdm_realm update delete expected
  end.
Definition run_ops (ops : list realm_op) (w : world) : world := foldl (λ w op, (run_op op w).2) w ops.

Lemma op_step op w : realm_step (op_realm op) (files w) (files (run_op op w).2).
Proof.
  assert (triple (λ m, m = files w) (run_op op) (λ _, realm_step (op_realm op) (files w)) (realm_step (op_realm op) (files w))) as Ht.
  { destruct op; cbn; [apply handle_create_ldap|apply handle_create_ad|apply handle_create_openid|apply handle_delete_ldap
      |apply handle_delete_openid|apply handle_update_ldap|apply handle_update_ad|apply handle_update_openid|apply handle_update_pdm]. }
  specialize (Ht w eq_refl). by destruct (run_op op w) as [[a|e] w'].
Qed.

Definition untouched c c' r : Prop := sc_get c' r = sc_get c r ∨ sc_get c' r = drop_default <$> sc_get c r.
Lemma untouched_trans c1 c2 c3 r : untouched c1 c2 r → untouched c2 c3 r → untouched c1 c3 r.
Proof.
  intros [E1|E1] [E2|E2]; unfold untouched; rewrite E2, E1; [by left|by right|by right|].
  right. destruct (sc_get c1 r) as [s|]; [|done]. cbn. by rewrite drop_default_idemp.
Qed.

(** C17: Whatever requests are made to create, update and delete realms of all types, and
    whatever system calls fail meanwhile: the configuration of the realms stays readable;
    at most one realm is the default for logins; a realm that no request was about keeps
    its configuration, except that it may not be the default any more, and its bind password;
    and no other files are changed. *)
Theorem realms_invariant ops w c :
  disk_domains (files w) = Some c → one_default c →
  let m' := files (run_ops ops w) in
  ∃ c', disk_domains m' = Some c' ∧ one_default c' ∧
    (∀ r, r ∉ op_realm <$> ops → untouched c c' r ∧ password_of m' r = password_of (files w) r) ∧
    ∀ f, f ≠ DOMAINS_CFG_FILENAME → f ≠ LDAP_PASSWORDS_FILENAME → m' !! f = files w !! f.
Proof.
  revert w c. induction ops as [|op ops IH]; intros w c Hc Hone.
  - exists c. split_and!; [done|done| |done]. intros r _. split; [by left|done].
  - destruct (op_step op w) as (Hf & Hp & Hd). destruct (Hd c Hc) as (c1 & Hc1 & Hone1 & Hother).
    destruct (IH (run_op op w).2 c1 Hc1 (Hone1 Hone)) as (c2 & Hc2 & Hone2 & Hr2 & Hf2).
    exists c2. split_and!; [done|done| |].
    + intros r [Hr Hrs]%not_elem_of_cons. destruct (Hr2 r Hrs) as [Hu Hpw]. split; [|etrans; [exact Hpw|by apply Hp]].
      eapply untouched_trans; [|exact Hu]. by apply Hother.
    + intros f Hf' Hf''. etrans; [by apply Hf2|by apply Hf].
Qed.

(** ** The update of an LDAP realm *)

Definition without_ldap_property (config : LdapRealmConfig) (p : LdapDeletableProperty) : LdapRealmConfig :=
  match p with
  | DelServer2 => set_lr_server2 None config | DelComment => set_lr_comment None config
  | DelDefault => set_lr_default None config | DelPort => set_lr_port None config
  | DelVerify => set_lr_verify None config | DelMode => set_lr_mode None config
  | DelBindDn => set_lr_bind_dn None config | DelPassword => config
  | DelFilter => set_lr_filter None config | DelSyncDefaultsOptions => set_lr_sync_defaults_options None config
  | DelSyncAttributes => set_lr_sync_attributes None config | DelUserClasses => set_lr_user_classes None config
  end.

(** The realm after an update, property by property: a property that is given has the
    new value, one that is only deleted has none, and every other one is kept.  The
    flag [default] is an exception: it is set if the update sets it, and cleared
    otherwise. *)
#[local] Instance ldap_property_eq_dec : EqDecision LdapDeletableProperty.
Proof. solve_decision. Defined.
Definition new_value {A} (given : option A) (deleted : bool) (old : option A) : option A :=
  match given with Some x => Some x | None => if deleted then None else old end.
Definition new_comment (given : option string) (deleted : bool) (old : option string) : option string :=
  match given with
  | Some comment => if bool_decide (trim comment = "") then None else Some (trim comment)
  | None => if deleted then None else old
  end.
Definition updated_ldap (update : LdapRealmConfigUpdater) (delete : option (list LdapDeletableProperty)) (old : LdapRealmConfig) : LdapRealmConfig :=
  let deleted p := bool_decide (p ∈ default [] delete) in {|
    lr_realm := lr_realm old;
    lr_server1 := default (lr_server1 old) (lu_server1 update);
    lr_server2 := new_value (lu_server2 update) (deleted DelServer2) (lr_server2 old);
    lr_port := new_value (lu_port update) (deleted DelPort) (lr_port old);
    lr_base_dn := default (lr_base_dn old) (lu_base_dn update);
    lr_user_attr := default (lr_user_attr old) (lu_user_attr update);
    lr_comment := new_comment (lu_comment update) (deleted DelComment) (lr_comment old);
    lr_default := if bool_decide (lu_default update = Some true) then Some true else None;
    lr_mode := new_value (lu_mode update) (deleted DelMode) (lr_mode old);
    lr_verify := new_value (lu_verify update) (deleted DelVerify) (lr_verify old);
    lr_capath := lr_capath old;
    lr_bind_dn := new_value (lu_bind_dn update) (deleted DelBindDn) (lr_bind_dn old);
    lr_filter := new_value (lu_filter update) (deleted DelFilter) (lr_filter old);
    lr_sync_defaults_options := new_value (lu_sync_defaults_options update) (deleted DelSyncDefaultsOptions) (lr_sync_defaults_options old);
    lr_sync_attributes := new_value (lu_sync_attributes update) (deleted DelSyncAttributes) (lr_sync_attributes old);
    lr_user_classes := new_value (lu_user_classes update) (deleted DelUserClasses) (lr_user_classes old);
  |}.

(** Deleting a list of properties, one property. *)
Lemma deletes_keep {B} (f : LdapRealmConfig → B) l : ∀ config,
  (∀ (t : LdapRealmConfig) p, f (without_ldap_property t p) = f t) → f (foldl without_ldap_property config l) = f config.
Proof. induction l as [|p l IH]; intros config Hf; [done|]. cbn. by rewrite IH, Hf. Qed.
Lemma deletes_value {A} (f : LdapRealmConfig → option A) (del : LdapDeletableProperty) l : ∀ config,
  (∀ (t : LdapRealmConfig) p, f (without_ldap_property t p) = if bool_decide (del = p) then None else f t) →
  f (foldl without_ldap_property config l) = if bool_decide (del ∈ l) then None else f config.
Proof.
  induction l as [|p l IH]; intros config Hf; [done|]. cbn [foldl]. rewrite (IH _ Hf), Hf.
  rewrite (bool_decide_ext (del ∈ p :: l) (del = p ∨ del ∈ l)) by apply elem_of_cons. rewrite bool_decide_or.
  destruct (bool_decide (del = p)), (bool_decide (del ∈ l)); done.
Qed.

Lemma updated_comment_spec comment t : lr_comment (set_lr_comment (updated_comment comment) t) =
  if bool_decide (trim comment = "") then None else Some (trim comment).
Proof. cbn. unfold updated_comment. destruct (String.eqb_spec (trim comment) ""); [by rewrite bool_decide_true|by rewrite bool_decide_false]. Qed.

(** What [apply_ldap_update] makes of one property [f]. *)
Local Ltac other_assigns f :=
  repeat first [rewrite (assign_keeps f); [|by intros ??] | progress cbn [f set_lr_default]].
Local Ltac given_property f x del :=
  unfold apply_ldap_update, assign_opt; other_assigns f; destruct x; cbn [assign default from_option id new_value new_comment];
  [first [reflexivity|apply updated_comment_spec]|other_assigns f; apply (deletes_value f del); by intros ? []].
Local Ltac kept_property f :=
  unfold apply_ldap_update, assign_opt; other_assigns f; apply (deletes_keep f); by intros ? [].
Local Ltac required_property f x :=
  unfold apply_ldap_update, assign_opt; other_assigns f; destruct x; cbn [assign default from_option id];
  [reflexivity|other_assigns f; apply (deletes_keep f); by intros ? []].

Lemma apply_ldap_update_spec update delete old :
  apply_ldap_update update (foldl without_ldap_property old (default [] delete)) = updated_ldap update delete old.
Proof.
  set (new := apply_ldap_update _ _).
  assert (new = mkLdap (lr_realm new) (lr_server1 new) (lr_server2 new) (lr_port new) (lr_base_dn new) (lr_user_attr new) (lr_comment new)
    (lr_default new) (lr_mode new) (lr_verify new) (lr_capath new) (lr_bind_dn new) (lr_filter new) (lr_sync_defaults_options new)
    (lr_sync_attributes new) (lr_user_classes new)) as -> by (by destruct new).
  unfold updated_ldap. f_equal; subst new.
  - kept_property lr_realm.
  - required_property lr_server1 (lu_server1 update).
  - given_property lr_server2 (lu_server2 update) DelServer2.
  - given_property lr_port (lu_port update) DelPort.
  - required_property lr_base_dn (lu_base_dn update).
  - required_property lr_user_attr (lu_user_attr update).
  - given_property lr_comment (lu_comment update) DelComment.
  - apply ldap_update_default.
  - given_property lr_mode (lu_mode update) DelMode.
  - given_property lr_verify (lu_verify update) DelVerify.
  - kept_property lr_capath.
  - given_property lr_bind_dn (lu_bind_dn update) DelBindDn.
  - given_property lr_filter (lu_filter update) DelFilter.
  - given_property lr_sync_defaults_options (lu_sync_defaults_options update) DelSyncDefaultsOptions.
  - given_property lr_sync_attributes (lu_sync_attributes update) DelSyncAttributes.
  - given_property lr_user_classes (lu_user_classes update) DelUserClasses.
Qed.

Lemma triple_save_exact m0 c' :
  triple (λ m, m = m0) (domains_save_config c')
    (λ _ m, (∃ c2, disk_domains m = Some c2 ∧ ∀ id, sc_get c2 id = sc_get c' id) ∧ ∀ r, password_of m r = password_of m0 r) (λ m, m = m0).
Proof.
  eapply (triple_bind _ _ _ (λ raw m, m = m0 ∧ write_section_config c' = Ok raw)).
  { apply triple_lift. intros m ->. by destruct (write_section_config c'). }
  intros raw. apply triple_pure. intros Hraw. eapply triple_conseq; [apply (triple_replace m0)|done| |done].
  intros _ m ->. destruct (parse_written _ _ Hraw) as (c2 & Hc2 & Hget). split.
  - exists c2. unfold disk_domains. rewrite lookup_insert_eq. cbn. by rewrite Hc2.
  - intros r. apply password_of_file. by rewrite lookup_insert_ne by done.
Qed.

Section update.
Context (m0 : gmap string string) (r : string) (c : C) (password : option string) (delete : option (list LdapDeletableProperty)).
(** What is left when the update is refused. *)
Definition refused m : Prop :=
  disk_domains m = disk_domains m0 ∧
  (password_of m r = password_of m0 r ∨ DelPassword ∈ default [] delete ∨ password ≠ None).

Lemma refused_lift {A} (x : result error A) : triple refused (io_lift x) (λ a m, refused m ∧ x = Ok a) refused.
Proof. apply triple_lift. intros m Hm. by destruct x. Qed.
Lemma refused_deletes config l :
  l ⊆ default [] delete →
  triple refused (delete_properties (delete_ldap_property r) config l)
    (λ config' m, refused m ∧ config' = foldl without_ldap_property config l) refused.
Proof.
  revert config. induction l as [|p l IH]; intros config Hl; [by apply triple_ret|].
  assert (p ∈ default [] delete) as Hp by (apply Hl; left).
  assert (l ⊆ default [] delete) as Hl' by (intros x Hx; apply Hl; by right).
  eapply (triple_bind _ _ _ (λ config' m, refused m ∧ config' = without_ldap_property config p)).
  - destruct p; try by apply triple_ret. eapply (triple_bind _ _ _ (λ _ m, refused m)).
    + apply triple_from. intros m1 [Hd _]. eapply triple_conseq; [apply (triple_remove_password m1 r)|done| |].
      * intros ? m (_ & Hd' & _). split; [by rewrite Hd'|by right; left].
      * intros m ->. split; [done|by right; left].
    + intros ?. by apply triple_ret.
  - intros config'. apply triple_pure. intros ->. by apply IH.
Qed.
Lemma refused_config new :
  triple refused
    (match password with
     | Some _ => mret (ldap_api_type_to_config_with_password new password)
     | None => ldap_api_type_to_config new
     end)
    (λ lc m, refused m ∧ ∃ bind, lc = ldap_api_type_to_config_with_password new bind ∧
               match password with Some p => bind = Some p | None => password_of m (lr_realm new) = Some bind end) refused.
Proof.
  destruct password as [p|] eqn:Hp.
  - apply triple_ret. intros m Hm. split; [done|]. by exists (Some p).
  - apply triple_from. intros m1 Hm1. unfold ldap_api_type_to_config, get_ldap_bind_password.
    eapply triple_bind.
    { eapply triple_bind; [eapply triple_conseq; [apply (triple_read_passwords m1)|done|done|by intros m ->]|].
      intros data. apply triple_pure. intros Hd. apply (triple_ret _ _ (λ bind m, m = m1 ∧ password_of m1 (lr_realm new) = Some bind)).
      intros m ->. split; [done|]. by rewrite password_of_disk, Hd. }
    intros bind. apply triple_pure. intros Hb. apply triple_ret. intros m ->. split; [done|]. by exists bind.
Qed.
End update.

End laws.

(** ** Concrete runs *)

Module RealmsDemo.
(** Sections and JSON objects with values as in [CephText]. *)
Definition domains : Type := gmap string section.
#[export] Instance domains_sections : SectionConfigData domains section := gmap_config.
#[export] Instance domains_laws : SectionConfigLaws domains section := gmap_config_laws.
#[export] Instance domains_text : SectionText domains := {|
  parse_section_config s :=
    if String.eqb s "" then Ok ∅ else m ← ok_or (decode (A := gmap string (string * flat)) (of_bits s)) EInvalid; Ok (unflatten m);
  write_section_config := text_write;
|}.
#[export] Instance domains_text_laws : SectionTextLaws domains section.
Proof.
  split. intros d raw. cbn. unfold text_write. case_bool_decide as Hd; [apply unflatten_all in Hd|done]. intros [= <-].
  destruct (String.eqb_spec (bits (encode (omap section_to_flat d : gmap string (string * flat)))) "") as [Hnil%flat_bits_nil|_].
  - exists ∅. split; [done|]. intros id. rewrite <- Hd, Hnil. unfold unflatten. by rewrite fmap_empty.
  - rewrite of_bits_bits, decode_encode. cbn. exists d. by rewrite Hd.
Qed.
#[export] Instance json_text : JsonText := {|
  value_from_text s := ok_or (of_flat <$> decode (A := flat) (of_bits s)) EInvalid;
  value_to_text v := l ← ok_or (to_flat v) EInvalid; Ok (bits (encode l));
|}.
#[export] Instance json_text_laws : JsonTextLaws.
Proof.
  intros v text. cbn. destruct (to_flat v) as [l|] eqn:Hl; [|done]. intros [= <-].
  rewrite of_bits_bits, decode_encode. cbn. by rewrite (of_to_flat v l Hl).
Qed.
#[export] Instance content_digest : ConfigDigests string := {| digest := string; digest_dec := _; config_digest c := c |}.

(** The field [default], and the other fields in one. *)
Section codec.
Context {T A : Type} `{Countable A} (f : T → A) (g : A → option bool → T).
Definition demo_to `{!RealmConfig T} (c : T) : result error Value :=
  Ok (VObject (match default_realm c with Some b => [("default", VBool b)] | None => [] end ++ [("data", VString (bits (encode (f c))))])).
Definition demo_from (v : Value) : result error T :=
  let default := match get v "default" with Some (VBool b) => Some b | _ => None end in
  match get v "data" with
  | Some (VString s) => x ← ok_or (decode (A := A) (of_bits s)) EInvalid; Ok (g x default)
  | _ => Err EInvalid
  end.
Lemma realm_codec_laws `{!RealmConfig T} : (∀ c, g (f c) (default_realm c) = c) → ∀ c v, demo_to c = Ok v → demo_from v = Ok c ∧ get v "default" = VBool <$> default_realm c.
Proof.
  intros Hg c v [= <-]. unfold demo_from. destruct (default_realm c) as [b|] eqn:Hd;
    cbn -[of_bits bits encode decode]; change (String.eqb "data" "data") with true;
    change (String.eqb "default" "data") with false; change (String.eqb "data" "default") with false; cbv iota beta; rewrite of_bits_bits, decode_encode; (split; [|done]); rewrite <- (Hg c) at 2; rewrite Hd; done.
Qed.
End codec.

#[export] Instance mode_eq_dec : EqDecision LdapMode.
Proof. solve_decision. Defined.
#[export] Instance mode_countable : Countable LdapMode.
Proof.
  refine (inj_countable' (λ m, match m with ModeLdap => (true, true) | ModeStartTls => (true, false) | ModeLdaps => (false, true) end)
    (λ b, match b with (true, true) => ModeLdap | (true, false) => ModeStartTls | _ => ModeLdaps end) _). by intros [].
Defined.
(** A field of a list of encoded fields. *)
Definition field {X} `{Countable X, Inhabited X} (p : positive) : X := default inhabitant (decode p).
Lemma field_encode {X} `{Countable X, Inhabited X} (x : X) : field (encode x) = x.
Proof. unfold field. by rewrite decode_encode. Qed.
Definition ldap_to (c : LdapRealmConfig) : list positive :=
  [encode (lr_realm c); encode (lr_server1 c); encode (lr_server2 c); encode (lr_port c); encode (lr_base_dn c); encode (lr_user_attr c); encode (lr_comment c); encode (lr_mode c); encode (lr_verify c); encode (lr_capath c); encode (lr_bind_dn c); encode (lr_filter c); encode (lr_sync_defaults_options c); encode (lr_sync_attributes c); encode (lr_user_classes c)].
Definition to_ldap (l : list positive) (d : option bool) : LdapRealmConfig :=
  match l with
  | [x0; x1; x2; x3; x4; x5; x6; x7; x8; x9; x10; x11; x12; x13; x14] =>
      mkLdap (field x0) (field x1) (field x2) (field x3) (field x4) (field x5) (field x6) d (field x7) (field x8) (field x9) (field x10) (field x11) (field x12) (field x13) (field x14)
  | _ => mkLdap "" "" None None "" "" None None None None None None None None None None
  end.
Definition ad_to (c : AdRealmConfig) : list positive :=
  [encode (ar_realm c); encode (ar_server1 c); encode (ar_server2 c); encode (ar_port c); encode (ar_base_dn c); encode (ar_comment c); encode (ar_mode c); encode (ar_verify c); encode (ar_capath c); encode (ar_bind_dn c); encode (ar_filter c); encode (ar_sync_defaults_options c); encode (ar_sync_attributes c); encode (ar_user_classes c)].
Definition to_ad (l : list positive) (d : option bool) : AdRealmConfig :=
  match l with
  | [x0; x1; x2; x3; x4; x5; x6; x7; x8; x9; x10; x11; x12; x13] =>
      mkAd (field x0) (field x1) (field x2) (field x3) (field x4) (field x5) d (field x6) (field x7) (field x8) (field x9) (field x10) (field x11) (field x12) (field x13)
  | _ => mkAd "" "" None None None None None None None None None None None None None
  end.
Definition openid_to (c : OpenIdRealmConfig) : list positive :=
  [encode (or_realm c); encode (or_issuer_url c); encode (or_client_id c); encode (or_scopes c); encode (or_acr_values c); encode (or_audiences c); encode (or_prompt c); encode (or_client_key c); encode (or_comment c); encode (or_autocreate c); encode (or_username_claim c)].
Definition to_openid (l : list positive) (d : option bool) : OpenIdRealmConfig :=
  match l with
  | [x0; x1; x2; x3; x4; x5; x6; x7; x8; x9; x10] =>
      mkOpenId (field x0) (field x1) (field x2) (field x3) (field x4) (field x5) (field x6) (field x7) (field x8) d (field x9) (field x10)
  | _ => mkOpenId "" "" "" None None None None None None None None None
  end.
Definition pdm_to (c : PdmRealmConfig) := (pr_realm c, match pr_ty c with RealmPdm => 0%Z | RealmOpenId => 1%Z | RealmAd => 2%Z | RealmLdap => 3%Z end, pr_comment c).
Definition to_pdm x (d : option bool) : PdmRealmConfig :=
  let '(a, t, c) := x in mkPdm a (if (t =? 0)%Z then RealmPdm else if (t =? 1)%Z then RealmOpenId else if (t =? 2)%Z then RealmAd else RealmLdap) c d.

#[export] Instance ldap_codec : SectionCodec LdapRealmConfig := {| to_section := demo_to ldap_to; from_section := demo_from to_ldap |}.
#[export] Instance ad_codec : SectionCodec AdRealmConfig := {| to_section := demo_to ad_to; from_section := demo_from to_ad |}.
#[export] Instance openid_codec : SectionCodec OpenIdRealmConfig := {| to_section := demo_to openid_to; from_section := demo_from to_openid |}.
#[export] Instance pdm_codec : SectionCodec PdmRealmConfig := {| to_section := demo_to pdm_to; from_section := demo_from to_pdm |}.
#[export] Instance ldap_laws : SectionCodecLaws LdapRealmConfig.
Proof. split; intros c v Hv; by destruct (realm_codec_laws ldap_to to_ldap ltac:(intros []; cbn -[field encode]; by rewrite !field_encode) c v Hv). Qed.
#[export] Instance ad_laws : SectionCodecLaws AdRealmConfig.
Proof. split; intros c v Hv; by destruct (realm_codec_laws ad_to to_ad ltac:(intros []; cbn -[field encode]; by rewrite !field_encode) c v Hv). Qed.
#[export] Instance openid_laws : SectionCodecLaws OpenIdRealmConfig.
Proof. split; intros c v Hv; by destruct (realm_codec_laws openid_to to_openid ltac:(intros []; cbn -[field encode]; by rewrite !field_encode) c v Hv). Qed.
#[export] Instance pdm_laws : SectionCodecLaws PdmRealmConfig.
Proof. split; intros c v Hv; by destruct (realm_codec_laws pdm_to to_pdm ltac:(by intros [? [] ? ?]) c v Hv). Qed.

(** A server that only accepts one password. *)
#[export] Instance server : LdapServer := {|
  LdapMode_default := ModeLdap;
  path_is_dir _ := false;
  check_connection c := if bool_decide (co_bind_password c = Some "secret") then Ok tt else Err (EMsg "invalid credentials");
  retrieve_root_dse_attr _ _ := Ok ["dc=example"];
  ldap_realm_sync _ _ _ _ _ := mret tt;
  ad_realm_sync _ _ _ _ _ := mret tt;
|}.

Definition corp (default : option bool) : LdapRealmConfig :=
  mkLdap "corp" "ldap.example" None None "dc=example" "uid" None default None None None (Some "cn=pdm") None None None None.
Definition sso : OpenIdRealmConfig := mkOpenId "sso" "https://sso.example" "pdm" None None None None None None (Some true) None None.
Definition no_update : LdapRealmConfigUpdater := mkLdapUpdater None None None None None None None None None None None None None None.
Definition run (ops : list (realm_op (ConfigDigests0 := content_digest))) (w : world) : world := run_ops (C := domains) ops w.
Definition default_realms (w : world) : option (list string) :=
  d ← disk_domains (C := domains) (files w); Some ((filter (λ x, match get x.2.2 "default" with Some (VBool true) => true | _ => false end = true) (map_to_list d)).*1).
Definition start : world := (add_default_realms (C := domains) (World ∅ [])).2.

Example defaults_change :
  default_realms (run [CreateLdap (corp (Some true)) (Some "secret")] start) = Some ["corp"] ∧
  default_realms (run [CreateLdap (corp (Some true)) (Some "secret"); CreateOpenId sso] start) = Some ["sso"].
Proof. vm_compute. done. Qed.

(** An update that does not mention [default] makes the realm cease to be the default. *)
Example update_drops_default :
  default_realms (run [CreateLdap (corp (Some true)) (Some "secret"); UpdateLdap "corp" no_update None None None] start) = Some [].
Proof. vm_compute. done. Qed.

(** The bind password is removed although the update is refused, because the server does not
    accept a connection without it. *)
Example refused_update_removes_password :
  let w := run [CreateLdap (corp None) (Some "secret")] start in
  let '(res, w') := update_ldap_realm (C := domains) "corp" no_update None (Some [DelPassword]) None w in
  result_ok res = None ∧ password_of (files w) "corp" = Some (Some "secret") ∧ password_of (files w') "corp" = Some None.
Proof. vm_compute. done. Qed.

(** Any realm can be deleted by way of the LDAP realms, the built-in one too. *)
Example delete_removes_builtin_realm :
  (λ d : domains, domain_exists d "pdm") <$> disk_domains (files start) = Some true ∧
  (λ d : domains, domain_exists d "pdm") <$> disk_domains (files (run [DeleteLdap "pdm" None] start)) = Some false.
Proof. vm_compute. done. Qed.

(** When removing the bind password fails after a realm was deleted, a realm that is later created
    under the same name uses it. *)
Example deleted_password_revives :
  let w := run [CreateLdap (corp None) (Some "secret")] start in
  let w := (delete_ldap_realm (C := domains) "corp" None (World (files w) [false; false; false; true])).2 in
  (λ d : domains, domain_exists d "corp") <$> disk_domains (files w) = Some false ∧ password_of (files w) "corp" = Some (Some "secret").
Proof. vm_compute. done. Qed.

Lemma realms_invariant_witness :
  ∃ c' : domains, disk_domains (files (run [CreateLdap (corp (Some true)) (Some "secret"); CreateOpenId sso] start)) = Some c' ∧ one_default c'.
Proof.
  destruct (disk_domains (C := domains) (files start)) as [c|] eqn:Hc; [|exfalso; revert Hc; vm_compute; discriminate].
  destruct (realms_invariant (C := domains) [CreateLdap (corp (Some true)) (Some "secret"); CreateOpenId sso] start c) as (c' & Hc' & Hone & _).
  - exact Hc.
  - assert (∀ i s, sc_get c i = Some s → i = "pdm") as Hpdm.
    { assert (disk_domains (C := domains) (files start) = Some {["pdm" := ("pdm", VObject [("data", VString (bits (encode (pdm_to PdmRealmConfig_default))))])]}) as Hs
        by (vm_compute; reflexivity).
      rewrite Hs in Hc. injection Hc as <-. intros i s Hi. change (({["pdm" := ("pdm", VObject [("data", VString (bits (encode (pdm_to PdmRealmConfig_default))))])]} : domains) !! i = Some s) in Hi.
      by apply lookup_singleton_Some in Hi as [<- _]. }
    intros i j s t Hi Hj _ _. by rewrite (Hpdm _ _ Hi), (Hpdm _ _ Hj).
  - exists c'. exact (conj Hc' Hone).
Defined.

Definition started : world := run [CreateLdap (corp None) (Some "secret")] start.
End RealmsDemo.
