(* ===== verification/AccessUsers.v ===== *)
(** * Users

    Model of the handlers of [server/src/api/access/users.rs] and of the choice of an
    authenticator in [server/src/auth/mod.rs].

    The files of users, tokens, access control lists, second factors and passwords are those
    of [proxmox_access_control], [proxmox_tfa] and [proxmox_auth_api], which are not
    under [src/]: class [AccessControl], with the laws [AccessLaws] that say what the
    operations on one of them leave alone. *)

From S2P Require Import Prelude FileSystem SectionConfig RemotesConfig JsonValue ResourceList ApiRouter Realms.
#[local] Open Scope string_scope.
#[local] Open Scope list_scope.

(** ** Users and tokens *)

Record Userid : Type := mkUserid { ui_name : string; ui_realm : string }.
#[export] Instance userid_eq_dec : EqDecision Userid.
Proof. solve_decision. Defined.
Record Authid : Type := mkAuthid { au_user : Userid; au_tokenname : option string }.
#[export] Instance authid_eq_dec : EqDecision Authid.
Proof. solve_decision. Defined.
Definition userid_to_string (u : Userid) : string := ui_name u +:+ "@" +:+ ui_realm u.
Definition authid_to_string (a : Authid) : string :=
  userid_to_string (au_user a) +:+ match au_tokenname a with Some name => "!" +:+ name | None => "" end.

Record User : Type := mkAccessUser {
  us_userid : Userid;
  us_comment : option string;
  us_enable : option bool;
  us_expire : option Z;
  us_firstname : option string;
  us_lastname : option string;
  us_email : option string;
}.
Record UserUpdater : Type := mkUserUpdater {
  uu_comment : option string;
  uu_enable : option bool;
  uu_expire : option Z;
  uu_firstname : option string;
  uu_lastname : option string;
  uu_email : option string;
}.
(** The id of a token, and its other fields in one. *)
Record ApiToken : Type := mkApiToken { tk_tokenid : Authid; tk_data : string }.
Inductive access_section : Type := UserSection (u : User) | TokenSection (t : ApiToken).

(** *** Fields of a user *)
Definition set_us_comment (x : option string) (u : User) : User :=
  mkAccessUser (us_userid u) x (us_enable u) (us_expire u) (us_firstname u) (us_lastname u) (us_email u).
Definition set_us_enable (x : option bool) (u : User) : User :=
  mkAccessUser (us_userid u) (us_comment u) x (us_expire u) (us_firstname u) (us_lastname u) (us_email u).
Definition set_us_expire (x : option Z) (u : User) : User :=
  mkAccessUser (us_userid u) (us_comment u) (us_enable u) x (us_firstname u) (us_lastname u) (us_email u).
Definition set_us_firstname (x : option string) (u : User) : User :=
  mkAccessUser (us_userid u) (us_comment u) (us_enable u) (us_expire u) x (us_lastname u) (us_email u).
Definition set_us_lastname (x : option string) (u : User) : User :=
  mkAccessUser (us_userid u) (us_comment u) (us_enable u) (us_expire u) (us_firstname u) x (us_email u).
Definition set_us_email (x : option string) (u : User) : User :=
  mkAccessUser (us_userid u) (us_comment u) (us_enable u) (us_expire u) (us_firstname u) (us_lastname u) x.

(** The user configuration [C] and the access control lists [A]. *)
Class AccessControl (C A T : Type) := {
  user_lock_config : io unit;
  user_config : io (C * string);
  user_save_config : C → io unit;
  acl_lock_config : io unit;
  acl_config : io A;
  acl_save_config : A → io unit;
  delete_authid : A → Authid → A;
  delete_secret : Authid → io unit;
  tfa_write_lock : io unit;
  tfa_read : io T;
  tfa_remove_user : T → string → result error T;
  tfa_write : T → io unit;
  password_store : string → string → io unit;
  password_remove : string → io unit;
}.

Section users.
Context {C A T : Type} `{SectionConfigData C access_section} `{AccessControl C A T} `{!ConfigDigests string}.
Context {D : Type} `{SectionConfigData D section} `{SectionText D}.
Context `{!SectionCodec LdapRealmConfig} `{!SectionCodec AdRealmConfig} `{!SectionCodec OpenIdRealmConfig}.

(** ** Authenticators *)

Inductive authenticator : Type :=
| PasswordAuthenticator
| LdapAuthenticator (config : LdapRealmConfig)
| AdAuthenticator (config : AdRealmConfig)
| OpenIdAuthenticator.

Definition lookup_authenticator (realm : string) : io authenticator :=
  if String.eqb realm "pdm" then mret PasswordAuthenticator
  else
    '(domains, _) ← domains_config (C := D);
    match lookup_section (T := LdapRealmConfig) domains "ldap" realm with
    | Ok config => mret (LdapAuthenticator config)
    | Err _ =>
        match lookup_section (T := AdRealmConfig) domains "ad" realm with
        | Ok config => mret (AdAuthenticator config)
        | Err _ =>
            match lookup_section (T := OpenIdRealmConfig) domains "openid" realm with
            | Ok _ => mret OpenIdAuthenticator
            | Err _ => io_fail (EMsg ("unknown realm " +:+ realm))
            end
        end
    end.
Definition store_password (a : authenticator) (name password : string) : io unit :=
  match a with
  | PasswordAuthenticator => password_store name password
  | LdapAuthenticator _ => io_fail (EMsg "storing passwords is not implemented for LDAP realms")
  | AdAuthenticator _ => io_fail (EMsg "storing passwords is not implemented for Active Directory realms")
  | OpenIdAuthenticator => io_fail (EMsg "storing passwords is not implemented for OpenID realms")
  end.
Definition remove_password (a : authenticator) (name : string) : io unit :=
  match a with
  | PasswordAuthenticator => password_remove name
  | LdapAuthenticator _ => io_fail (EMsg "removing passwords is not implemented for LDAP realms")
  | AdAuthenticator _ => io_fail (EMsg "removing passwords is not implemented for Active Directory realms")
  | OpenIdAuthenticator => io_fail (EMsg "storing passwords is not implemented for OpenID realms")
  end.

(** ** Handlers *)

(** Who calls: the id, the privileges, and [is_superuser]. *)
Record caller : Type := mkCaller { ca_auth_id : Authid; ca_info : user; ca_superuser : bool }.
Definition has_priv (c : caller) (priv : Z) : bool :=
  negb (Z.land (lookup_privs (ca_info c) ["access"; "users"]) priv =? 0)%Z.

Record UserWithTokens : Type := mkUserWithTokens {
  ut_user : User;
  ut_tokens : list ApiToken;
  ut_totp_locked : bool;
  ut_tfa_locked_until : option Z;
}.
Definition new_user_with_tokens (u : User) : UserWithTokens := mkUserWithTokens u [] false None.

Definition all_users (c : C) : list User := omap (λ '(_, s), match s with UserSection u => Some u | _ => None end) (sc_iter c).
Definition all_tokens (c : C) : list ApiToken := omap (λ '(_, s), match s with TokenSection t => Some t | _ => None end) (sc_iter c).
(** The tokens of a user, of those that are tokens. *)
Definition tokens_of (tokens : list ApiToken) (u : Userid) : list ApiToken :=
  filter (λ t, is_Some (au_tokenname (tk_tokenid t)) ∧ au_user (tk_tokenid t) = u) tokens.

(** The first user of a list takes the tokens: ids are unique. *)
Fixpoint with_tokens (tokens : list ApiToken) (users : list User) : list UserWithTokens :=
  match users with
  | [] => []
  | u :: users =>
      mkUserWithTokens u (tokens_of tokens (us_userid u)) false None ::
      with_tokens (filter (λ t, au_user (tk_tokenid t) ≠ us_userid u) tokens) users
  end.

Definition list_users (include_tokens : bool) (c : caller) : io (list UserWithTokens) :=
  '(config, _) ← user_config;
  let top_level_allowed := has_priv c PRIV_SYS_AUDIT in
  let list := filter (λ u, top_level_allowed = true ∨ us_userid u = au_user (ca_auth_id c)) (all_users config) in
  mret (if (include_tokens : bool) then with_tokens (all_tokens config) list else new_user_with_tokens <$> list).

Definition create_user (password : option string) (config : User) : io unit :=
  _ ← user_lock_config;
  '(section_config, _) ← user_config;
  let id := userid_to_string (us_userid config) in
  match sc_get section_config id with
  | Some _ => io_fail (EMsg ("user '" +:+ id +:+ "' already exists."))
  | None =>
      authenticator ← lookup_authenticator (ui_realm (us_userid config));
      _ ← user_save_config (sc_insert section_config id (UserSection config));
      match password with
      | Some password => store_password authenticator (ui_name (us_userid config)) password
      | None => mret tt
      end
  end.

(** [SectionConfigData::lookup] with the type [user]. *)
Definition lookup_user (config : C) (userid : Userid) : result error User :=
  match sc_get config (userid_to_string userid) with
  | Some (UserSection u) => Ok u
  | _ => Err (EMsg ("no such user '" +:+ userid_to_string userid +:+ "'"))
  end.
Definition read_user (userid : Userid) : io User :=
  '(config, _) ← user_config;
  io_lift (lookup_user config userid).

Inductive DeletableUserProperty : Type :=
| DelUserComment | DelUserEnable | DelUserExpire | DelUserFirstname | DelUserLastname | DelUserEmail.
#[export] Instance deletable_user_eq_dec : EqDecision DeletableUserProperty.
Proof. solve_decision. Defined.
Definition expire_refused : error := EMsg "modifying expiration date not allowed".
Definition delete_user_property (modify : bool) (data : User) (p : DeletableUserProperty) : result error User :=
  match p with
  | DelUserComment => Ok (set_us_comment None data)
  | DelUserFirstname => Ok (set_us_firstname None data)
  | DelUserLastname => Ok (set_us_lastname None data)
  | DelUserEmail => Ok (set_us_email None data)
  | DelUserEnable => Ok (set_us_enable None data)
  | DelUserExpire => if modify then Ok (set_us_expire None data) else Err expire_refused
  end.
Fixpoint delete_user_properties (modify : bool) (data : User) (l : list DeletableUserProperty) : result error User :=
  match l with
  | [] => Ok data
  | p :: l => data ← delete_user_property modify data p; delete_user_properties modify data l
  end.
Definition non_empty (s : string) : option string := if String.eqb s "" then None else Some s.

(** The assignments up to the password, and those behind it. *)
Definition update_user_first (modify : bool) (update : UserUpdater) (data : User) : result error User :=
  let data := assign (λ c, set_us_comment (updated_comment c)) (uu_comment update) data in
  let data := assign (λ e : bool, set_us_enable (if e then None else Some false)) (uu_enable update) data in
  match uu_expire update with
  | Some expire => if modify then Ok (set_us_expire (if (0 <? expire)%Z then Some expire else None) data) else Err expire_refused
  | None => Ok data
  end.
Definition update_user_rest (update : UserUpdater) (data : User) : User :=
  let data := assign (λ s, set_us_firstname (non_empty s)) (uu_firstname update) data in
  let data := assign (λ s, set_us_lastname (non_empty s)) (uu_lastname update) data in
  assign (λ s, set_us_email (non_empty s)) (uu_email update) data.

Definition update_user (userid : Userid) (update : UserUpdater) (password : option string)
    (delete : option (list DeletableUserProperty)) (expected : option digest) (c : caller) : io unit :=
  _ ← user_lock_config;
  '(config, content) ← user_config;
  _ ← detect content expected;
  data ← io_lift (lookup_user config userid);
  let modify := has_priv c PRIV_ACCESS_MODIFY in
  data ← io_lift (delete_user_properties modify data (default [] delete));
  data ← io_lift (update_user_first modify update data);
  _ ← (match password with
       | Some password =>
           let self_service := bool_decide (au_user (ca_auth_id c) = userid) in
           if negb self_service && String.eqb (ui_realm userid) "pam" && negb (ca_superuser c)
           then io_fail (EMsg "only superuser can edit pam credentials!")
           else authenticator ← lookup_authenticator (ui_realm userid); store_password authenticator (ui_name userid) password
       | None => mret tt
       end);
  user_save_config (sc_insert config (userid_to_string userid) (UserSection (update_user_rest update data))).

(** The loop over the tokens of the user. *)
Fixpoint delete_tokens (userid : Userid) (tokens : list ApiToken) (config : C) (acl : A) : io (C * A) :=
  match tokens with
  | [] => mret (config, acl)
  | token :: tokens =>
      match au_tokenname (tk_tokenid token) with
      | Some token_name =>
          let tokenid := mkAuthid userid (Some token_name) in
          match sc_get config (authid_to_string tokenid) with
          | None => io_fail (EMsg ("token '" +:+ token_name +:+ "' of user does not exist."))
          | Some _ =>
              _ ← delete_secret tokenid;
              delete_tokens userid tokens (sc_remove config (authid_to_string tokenid)) (delete_authid acl tokenid)
          end
      | None => delete_tokens userid tokens config acl
      end
  end.
Definition tfa_update (userid : Userid) : io unit :=
  cfg ← tfa_read;
  cfg ← io_lift (tfa_remove_user cfg (userid_to_string userid));
  tfa_write cfg.

Definition delete_user (userid : Userid) (expected : option digest) : io unit :=
  _ ← user_lock_config;
  _ ← acl_lock_config;
  _ ← tfa_write_lock;
  '(config, content) ← user_config;
  _ ← detect content expected;
  match sc_get config (userid_to_string userid) with
  | None => io_fail (EMsg ("user '" +:+ userid_to_string userid +:+ "' does not exist."))
  | Some _ =>
      let config := sc_remove config (userid_to_string userid) in
      authenticator ← lookup_authenticator (ui_realm userid);
      _ ← io_try (remove_password authenticator (ui_name userid));
      _ ← io_try (tfa_update userid);
      let user_tokens := filter (λ t, au_user (tk_tokenid t) = userid) (all_tokens config) in
      acl ← acl_config;
      let acl := delete_authid acl (mkAuthid userid None) in
      '(config, acl) ← delete_tokens userid user_tokens config acl;
      _ ← user_save_config config;
      acl_save_config acl
  end.
End users.
