(* ===== verification/AccessProperties.v ===== *)
(** * Users: theorems

    What deleting and updating a user does under arbitrary I/O faults, and who is
    listed ([AccessUsers]). *)

From S2P Require Import Prelude FileSystem SectionConfig RemotesConfig JsonValue ResourceList ApiRouter CephText Realms RealmProperties AccessUsers.
#[local] Open Scope string_scope.
#[local] Open Scope list_scope.

(** The users and the access control lists that are on disk, and the entries of these; the
    operations on the other files leave them alone. *)
Class AccessLaws {C A T : Type} `{SectionConfigData C access_section} `{AccessControl C A T}
    (users_of : gmap string string → option C) (acl_of : gmap string string → option A) (has_entry : A → Authid → Prop) : Prop := {
  law_user_lock m0 : triple (λ m, m = m0) user_lock_config (λ _ m, m = m0) (λ m, m = m0);
  law_acl_lock m0 : triple (λ m, m = m0) acl_lock_config (λ _ m, m = m0) (λ m, m = m0);
  law_tfa_lock m0 : triple (λ m, m = m0) tfa_write_lock (λ _ m, m = m0) (λ m, m = m0);
  law_user_config m0 : triple (λ m, m = m0) user_config (λ x m, m = m0 ∧ users_of m0 = Some x.1) (λ m, m = m0);
  law_user_save m0 c :
    triple (λ m, m = m0) (user_save_config c)
      (λ _ m, (∃ c', users_of m = Some c' ∧ ∀ id, sc_get c' id = sc_get c id) ∧ acl_of m = acl_of m0) (λ m, m = m0);
  law_acl_config m0 : triple (λ m, m = m0) acl_config (λ a m, m = m0 ∧ acl_of m0 = Some a) (λ m, m = m0);
  law_acl_save m0 a :
    triple (λ m, m = m0) (acl_save_config a) (λ _ m, acl_of m = Some a ∧ users_of m = users_of m0) (λ m, m = m0);
  law_delete_authid a x y : has_entry (delete_authid a x) y ↔ has_entry a y ∧ y ≠ x;
  law_secret m0 x :
    triple (λ m, m = m0) (delete_secret x) (λ _ m, users_of m = users_of m0 ∧ acl_of m = acl_of m0) (λ m, users_of m = users_of m0 ∧ acl_of m = acl_of m0);
  law_tfa_read m0 : triple (λ m, m = m0) tfa_read (λ _ m, m = m0) (λ m, m = m0);
  law_tfa_write m0 t :
    triple (λ m, m = m0) (tfa_write t) (λ _ m, users_of m = users_of m0 ∧ acl_of m = acl_of m0) (λ m, users_of m = users_of m0 ∧ acl_of m = acl_of m0);
  law_password_store m0 name password :
    triple (λ m, m = m0) (password_store name password) (λ _ m, users_of m = users_of m0 ∧ acl_of m = acl_of m0) (λ m, users_of m = users_of m0 ∧ acl_of m = acl_of m0);
  law_password_remove m0 name :
    triple (λ m, m = m0) (password_remove name) (λ _ m, users_of m = users_of m0 ∧ acl_of m = acl_of m0) (λ m, users_of m = users_of m0 ∧ acl_of m = acl_of m0);
}.

Section theorems.
Context {C A T : Type} `{SectionConfigData C access_section} `{AccessControl C A T} `{!ConfigDigests string}.
Context {D : Type} `{SectionConfigData D section} `{SectionText D}.
Context `{!SectionCodec LdapRealmConfig} `{!SectionCodec AdRealmConfig} `{!SectionCodec OpenIdRealmConfig}.
Context {users_of : gmap string string → option C} {acl_of : gmap string string → option A} {has_entry : A → Authid → Prop}.
Context `{HL : !AccessLaws users_of acl_of has_entry} `{HC : !SectionConfigLaws C access_section}.

(** ** Steps that leave users and access control lists alone *)

Section same.
Context (c : C) (a : option A).
Definition same (m : gmap string string) : Prop := users_of m = Some c ∧ acl_of m = a.
Definition keeps {X} (op : io X) : Prop := triple same op (λ _, same) same.

Lemma keeps_eq {X} (op : io X) : (∀ m0, triple (λ m, m = m0) op (λ _ m, m = m0) (λ m, m = m0)) → keeps op.
Proof. intros Hop. apply triple_from. intros m1 Hm1. eapply triple_conseq; [apply (Hop m1)|done|by intros ? m ->|by intros m ->]. Qed.
Lemma keeps_views {X} (op : io X) :
  (∀ m0, triple (λ m, m = m0) op (λ _ m, users_of m = users_of m0 ∧ acl_of m = acl_of m0) (λ m, users_of m = users_of m0 ∧ acl_of m = acl_of m0)) →
  keeps op.
Proof.
  intros Hop. apply triple_from. intros m1 [Hu Ha]. unfold same. rewrite <- Hu, <- Ha.
  eapply triple_conseq; [apply (Hop m1)|done|done|done].
Qed.
Lemma keeps_ret {X} (x : X) : keeps (mret x).
Proof. by apply triple_ret. Qed.
Lemma keeps_fail {X} e : keeps (@io_fail X e).
Proof. by intros w Hw. Qed.
Lemma keeps_bind {X Y} (op : io X) (k : X → io Y) : keeps op → (∀ x, keeps (k x)) → keeps (op ≫= k).
Proof. intros Hop Hk. eapply triple_bind; [exact Hop|]. intros x. apply Hk. Qed.
Lemma keeps_lift {X} (x : result error X) : keeps (io_lift x).
Proof. apply triple_lift. intros m Hm. by destruct x. Qed.
Lemma keeps_try {X} (op : io X) : keeps op → keeps (io_try op).
Proof. intros Hop. by eapply triple_try; [exact Hop|..]. Qed.
Lemma keeps_lift_eq {X} (x : result error X) : triple same (io_lift x) (λ y m, same m ∧ x = Ok y) same.
Proof. apply triple_lift. intros m Hm. by destruct x. Qed.

Lemma keeps_domains : keeps (domains_config (C := D)).
Proof.
  apply keeps_eq. intros m0. eapply triple_bind; [apply triple_open|]. intros o. apply triple_pure. intros _.
  eapply (triple_bind _ _ _ (λ _ m, m = m0)); [apply triple_lift; intros m ->; by destruct (parse_section_config _)|].
  intros ?. by apply triple_ret.
Qed.
Lemma keeps_authenticator realm : keeps (lookup_authenticator (D := D) realm).
Proof.
  unfold lookup_authenticator. destruct (String.eqb realm "pdm"); [apply keeps_ret|].
  apply keeps_bind; [apply keeps_domains|]. intros [d content].
  destruct (lookup_section d "ldap" realm); [apply keeps_ret|]. destruct (lookup_section d "ad" realm); [apply keeps_ret|].
  destruct (lookup_section d "openid" realm); [apply keeps_ret|apply keeps_fail].
Qed.
Lemma keeps_store_password auth name password : keeps (store_password auth name password).
Proof using HL. destruct auth; try apply keeps_fail. apply keeps_views. intros m0. apply law_password_store. Qed.
Lemma keeps_remove_password auth name : keeps (remove_password auth name).
Proof using HL. destruct auth; try apply keeps_fail. apply keeps_views. intros m0. apply law_password_remove. Qed.
Lemma keeps_tfa userid : keeps (tfa_update userid).
Proof using HL.
  apply keeps_bind; [apply keeps_eq; intros m0; apply law_tfa_read|]. intros t.
  apply keeps_bind; [apply keeps_lift|]. intros t'. apply keeps_views. intros m0. apply law_tfa_write.
Qed.
Lemma keeps_detect content expected : keeps (detect content expected).
Proof. unfold detect. destruct (detect_modification _ _); [apply keeps_ret|apply keeps_fail]. Qed.
Lemma keeps_user_config : triple same user_config (λ x m, same m ∧ x.1 = c) same.
Proof using HL.
  apply triple_from. intros m1 [Hu Ha]. eapply triple_conseq; [apply (law_user_config m1)|done| |by intros m ->].
  intros x m [-> Hx]. split; [done|]. congruence.
Qed.
Lemma save_user c' :
  triple same (user_save_config c') (λ _ m, (∃ c2, users_of m = Some c2 ∧ ∀ id, sc_get c2 id = sc_get c' id) ∧ acl_of m = a) same.
Proof using HL.
  apply triple_from. intros m1 [Hu Ha]. eapply triple_conseq; [apply (law_user_save m1)|done| |by intros m ->].
  intros ? m [Hc Hacl]. by rewrite Hacl.
Qed.
End same.

(** ** Deleting a user *)

Lemma delete_tokens_spec c a userid tokens config acl :
  (∀ t, t ∈ tokens → au_user (tk_tokenid t) = userid) →
  triple (same c a) (delete_tokens userid tokens config acl)
    (λ x m, same c a m ∧
       (∀ id, sc_get x.1 id = if decide (Exists (λ t, is_Some (au_tokenname (tk_tokenid t)) ∧ id = authid_to_string (tk_tokenid t)) tokens)
                              then None else sc_get config id) ∧
       ∀ y, has_entry x.2 y ↔ has_entry acl y ∧ ¬ Exists (λ t, is_Some (au_tokenname (tk_tokenid t)) ∧ y = tk_tokenid t) tokens) (same c a).
Proof using HL HC.
  revert config acl. induction tokens as [|t tokens IH]; intros config acl Htok.
  { apply triple_ret. intros m Hm. split; [done|]. split.
    - intros id. rewrite decide_False; [done|by intros ?%Exists_nil].
    - intros y. split; [intros Hy; split; [done|by intros ?%Exists_nil]|by intros [? _]]. }
  assert (∀ t, t ∈ tokens → au_user (tk_tokenid t) = userid) as Htok' by (intros ? ?; apply Htok; by right).
  assert (au_user (tk_tokenid t) = userid) as Ht by (apply Htok; left). cbn [delete_tokens].
  destruct (au_tokenname (tk_tokenid t)) as [name|] eqn:Hname.
  - assert (mkAuthid userid (Some name) = tk_tokenid t) as Hid by (destruct (tk_tokenid t); cbn in *; congruence). rewrite Hid.
    destruct (sc_get config (authid_to_string (tk_tokenid t))) as [s|]; [|by intros w Hw].
    eapply triple_bind; [exact (keeps_views c a _ (λ m0, law_secret m0 (tk_tokenid t)))|]. intros ?.
    eapply triple_conseq; [by apply IH|done| |done]. intros [config' acl'] m (Hm & Hget & Hacl). cbn in *. split; [done|]. split.
    + intros id. rewrite Hget, sc_get_remove.
      destruct (decide (Exists _ tokens)) as [Hex|Hno]; [by rewrite decide_True by by apply Exists_cons_tl|].
      destruct (decide (authid_to_string (tk_tokenid t) = id)) as [<-|Hne].
      * rewrite decide_True; [done|]. apply Exists_cons_hd. rewrite Hname. eauto.
      * rewrite decide_False; [done|]. rewrite Exists_cons. naive_solver.
    + intros y. rewrite Hacl, law_delete_authid, Exists_cons. rewrite Hname. naive_solver.
  - eapply triple_conseq; [by apply IH|done| |done]. intros [config' acl'] m (Hm & Hget & Hacl). cbn in *. split; [done|]. split.
    + intros id. rewrite Hget. apply decide_ext. rewrite Exists_cons, Hname. split; [by right|]. intros [[[? [=]] _]|]; done.
    + intros y. rewrite Hacl, Exists_cons, Hname. split; [|naive_solver]. intros [Hy Hno]. split; [done|]. intros [[[? [=]] _]|]; done.
Qed.

(** Tokens are stored under their ids, and have a name. *)
Definition tokens_ok (c : C) : Prop :=
  ∀ id t, sc_get c id = Some (TokenSection t) → id = authid_to_string (tk_tokenid t) ∧ is_Some (au_tokenname (tk_tokenid t)).
Definition token_of (c : C) (userid : Userid) (id : string) : Prop :=
  ∃ t, sc_get c id = Some (TokenSection t) ∧ au_user (tk_tokenid t) = userid.
(** The configuration without a user and the tokens of the user. *)
Definition without_user (c : C) (userid : Userid) (c' : C) : Prop :=
  ∀ id, (id = userid_to_string userid ∨ token_of c userid id → sc_get c' id = None) ∧
        (id ≠ userid_to_string userid → ¬ token_of c userid id → sc_get c' id = sc_get c id).

Lemma elem_of_all_tokens c t : t ∈ all_tokens c ↔ ∃ id, sc_get c id = Some (TokenSection t).
Proof using HC.
  unfold all_tokens. rewrite list_elem_of_omap. split.
  - intros ([id [u|t']] & Hin & Ht); [done|]. injection Ht as ->. exists id. by apply sc_iter_get.
  - intros [id Hid]. exists (id, TokenSection t). split; [by apply sc_iter_get|done].
Qed.

(** C18: What deleting a user does, whatever system calls fail.  If it succeeds, the user and all
    tokens of the user are removed from the configuration, and the user and these tokens
    have no entry in the access control lists any more; all other users, tokens and
    entries stay.  If it fails, the access control lists are as they were, and so are users
    and tokens unless they were already written without the user. *)
Theorem delete_user_complete userid expected w c a :
  users_of (files w) = Some c → acl_of (files w) = Some a → tokens_ok c →
  let '(res, w') := delete_user (D := D) userid expected w in
  match res with
  | Ok _ => ∃ c' a', users_of (files w') = Some c' ∧ acl_of (files w') = Some a' ∧ without_user c userid c' ∧
      ∀ x, has_entry a' x ↔ has_entry a x ∧ x ≠ mkAuthid userid None ∧
        ¬ ∃ t id, sc_get c id = Some (TokenSection t) ∧ id ≠ userid_to_string userid ∧ au_user (tk_tokenid t) = userid ∧ x = tk_tokenid t
  | Err _ => acl_of (files w') = Some a ∧ ∃ c', users_of (files w') = Some c' ∧ (c' = c ∨ without_user c userid c')
  end.
Proof using HL HC.
  intros Hu Ha Htok.
  pose (Q := λ (_ : unit) m, ∃ c' a', users_of m = Some c' ∧ acl_of m = Some a' ∧ without_user c userid c' ∧
    ∀ x, has_entry a' x ↔ has_entry a x ∧ x ≠ mkAuthid userid None ∧
      ¬ ∃ t id, sc_get c id = Some (TokenSection t) ∧ id ≠ userid_to_string userid ∧ au_user (tk_tokenid t) = userid ∧ x = tk_tokenid t).
  pose (E := λ m, acl_of m = Some a ∧ ∃ c', users_of m = Some c' ∧ (c' = c ∨ without_user c userid c')).
  assert (triple (same c (Some a)) (delete_user (D := D) userid expected) Q E) as Ht.
  2:{ specialize (Ht w (conj Hu Ha)). by destruct (delete_user userid expected w) as [[[]|e] w']. }
  assert (∀ m, same c (Some a) m → E m) as HE by (intros m [Hum Ham]; split; [done|]; exists c; auto).
  assert (∀ X (op : io X) k, keeps c (Some a) op → (∀ x, triple (same c (Some a)) (k x) Q E) → triple (same c (Some a)) (op ≫= k) Q E) as Hstep.
  { intros X op k Hop Hk. eapply triple_bind; [|exact Hk]. eapply triple_conseq; [exact Hop|done|done|exact HE]. }
  unfold delete_user. apply Hstep; [apply keeps_eq; intros m0; apply law_user_lock|]. intros _.
  apply Hstep; [apply keeps_eq; intros m0; apply law_acl_lock|]. intros _.
  apply Hstep; [apply keeps_eq; intros m0; apply law_tfa_lock|]. intros _.
  eapply triple_bind; [eapply triple_conseq; [apply (keeps_user_config c (Some a))|done|done|exact HE]|].
  intros [c1 content]. apply triple_pure. cbn. intros ->. apply Hstep; [apply keeps_detect|]. intros _.
  destruct (sc_get c (userid_to_string userid)) as [s|]; [|by intros w0 Hw0; apply HE].
  apply Hstep; [apply keeps_authenticator|]. intros auth. apply Hstep; [apply keeps_try, keeps_remove_password|]. intros _.
  apply Hstep; [apply keeps_try, keeps_tfa|]. intros _. cbv zeta.
  eapply (triple_bind _ _ _ (λ a1 m, same c (Some a) m ∧ a1 = a)).
  { apply triple_from. intros m1 Hm1. eapply triple_conseq; [apply (law_acl_config m1)|done| |intros m ->; by apply HE].
    intros a1 m [-> Ha1]. split; [done|]. destruct Hm1 as [_ Hm1]. congruence. }
  intros a1. apply triple_pure. intros ->.
  eapply triple_bind; [eapply triple_conseq; [apply (delete_tokens_spec c (Some a) userid)|done|done|exact HE]|].
  { intros t Hin. by apply list_elem_of_filter in Hin as [? _]. }
  intros [c2 a2]. cbn. apply triple_from. intros m1 (Hm1 & Hget & Hacl).
  set (tokens := filter (λ t, au_user (tk_tokenid t) = userid) (all_tokens (sc_remove c (userid_to_string userid)))) in *.
  assert (∀ t, t ∈ tokens ↔ ∃ id, sc_get c id = Some (TokenSection t) ∧ id ≠ userid_to_string userid ∧ au_user (tk_tokenid t) = userid) as Hin.
  { intros t. unfold tokens. rewrite list_elem_of_filter, elem_of_all_tokens. setoid_rewrite sc_get_remove. split.
    - intros [Hus [id Hid]]. exists id. destruct (decide (userid_to_string userid = id)); [done|]. naive_solver.
    - intros (id & Hid & Hne & Hus). split; [done|]. exists id. by rewrite decide_False by done. }
  assert (without_user c userid c2) as Hwithout.
  { intros id. rewrite Hget. split.
    - intros Hor. destruct (decide (Exists _ tokens)) as [|Hno]; [done|]. rewrite sc_get_remove.
      destruct (decide (userid_to_string userid = id)) as [|Hne]; [done|]. destruct Hor as [?|(t & Hid & Hus)]; [congruence|].
      destruct Hno. apply Exists_exists. exists t. destruct (Htok _ _ Hid) as [Hkey Hname]. split; [apply Hin; eauto|done].
    - intros Hne Hnot. rewrite decide_False; [by rewrite sc_get_remove, decide_False by done|].
      intros (t & (id' & Hid' & Hne' & Hus)%Hin & Hname & Hkey)%Exists_exists. destruct Hnot. exists t. split; [|done].
      destruct (Htok _ _ Hid') as [Hk _]. by rewrite Hkey, <- Hk. }
  eapply (triple_bind _ _ _ (λ _ m, (∃ c3, users_of m = Some c3 ∧ ∀ id, sc_get c3 id = sc_get c2 id) ∧ acl_of m = Some a)).
  { eapply triple_conseq; [apply (save_user c (Some a) c2)|by intros m ->|done|exact HE]. }
  intros ?. apply triple_from. intros m2 [(c3 & Hc3 & Heq) Ha2].
  assert (without_user c userid c3) as Hwithout' by (intros id; rewrite Heq; apply Hwithout).
  eapply triple_conseq; [apply (law_acl_save m2)|done| |].
  - intros ? m [Hacl' Hus']. exists c3, a2. rewrite Hus'. split_and!; [done..|]. intros x. rewrite Hacl, law_delete_authid.
    rewrite Exists_exists. setoid_rewrite Hin. split.
    + intros [[Hx Hne] Hno]. split_and!; [done|done|]. intros (t & id & Hid & Hne' & Hus & ->). destruct Hno. exists t.
      split; [eauto|]. split; [by apply (Htok _ _ Hid)|done].
    + intros (Hx & Hne & Hno). split; [done|]. intros (t & (id & Hid & Hne' & Hus) & _ & ->). destruct Hno. eauto 10.
  - intros m ->. split; [done|]. exists c3. auto.
Qed.
(** ** Updating a user *)

(** A field after its value was deleted, where [deleted], and set, where [set]. *)
Definition merged {X} (set : option (option X)) (deleted : bool) (old : option X) : option X :=
  match set with Some new => new | None => if deleted then None else old end.
Definition deletes (delete : option (list DeletableUserProperty)) (p : DeletableUserProperty) : bool :=
  bool_decide (p ∈ default [] delete).
(** The user that results from an update. *)
Definition updated_user (update : UserUpdater) (delete : option (list DeletableUserProperty)) (old : User) : User := mkAccessUser
  (us_userid old)
  (merged (updated_comment <$> uu_comment update) (deletes delete DelUserComment) (us_comment old))
  (merged ((λ e : bool, if e then None else Some false) <$> uu_enable update) (deletes delete DelUserEnable) (us_enable old))
  (merged ((λ t, if (0 <? t)%Z then Some t else None) <$> uu_expire update) (deletes delete DelUserExpire) (us_expire old))
  (merged (non_empty <$> uu_firstname update) (deletes delete DelUserFirstname) (us_firstname old))
  (merged (non_empty <$> uu_lastname update) (deletes delete DelUserLastname) (us_lastname old))
  (merged (non_empty <$> uu_email update) (deletes delete DelUserEmail) (us_email old)).
Definition may_expire (modify : bool) (update : UserUpdater) (delete : option (list DeletableUserProperty)) : Prop :=
  modify = true ∨ uu_expire update = None ∧ DelUserExpire ∉ default [] delete.

Definition no_user_update : UserUpdater := mkUserUpdater None None None None None None.
Lemma updated_user_cons p l u u' :
  delete_user_property true u p = Ok u' → updated_user no_user_update (Some (p :: l)) u = updated_user no_user_update (Some l) u'.
Proof.
  intros Hp. unfold updated_user, deletes. cbn. rewrite !(bool_decide_ext _ _ (elem_of_cons l _ p)), !bool_decide_or.
  destruct p; injection Hp as <-; cbn; repeat (case_bool_decide; simplify_eq; cbn); done.
Qed.
Lemma delete_properties_updated modify l u u' :
  delete_user_properties modify u l = Ok u' →
  u' = updated_user no_user_update (Some l) u ∧ (modify = true ∨ DelUserExpire ∉ l).
Proof.
  revert u. induction l as [|p l IH]; intros u.
  - intros [= <-]. split; [by destruct u|right; by apply not_elem_of_nil].
  - cbn. destruct (delete_user_property modify u p) as [u1|] eqn:Hp; [|done]. cbn. intros [-> Hl]%IH. split.
    + symmetry. apply updated_user_cons. by destruct p, modify.
    + destruct Hl as [|Hl]; [by left|]. destruct modify; [by left|right]. intros [<-|]%elem_of_cons; done.
Qed.
Lemma update_parts modify update delete u u1 u2 :
  delete_user_properties modify u (default [] delete) = Ok u1 → update_user_first modify update u1 = Ok u2 →
  update_user_rest update u2 = updated_user update delete u ∧ may_expire modify update delete.
Proof.
  intros [-> Hl]%delete_properties_updated Hu.
  assert (∀ p, deletes (Some (default [] delete)) p = deletes delete p) as Hdel by done.
  assert (may_expire modify update delete ∧ u2 = set_us_expire (us_expire (updated_user update delete u))
    (assign (λ e : bool, set_us_enable (if e then None else Some false)) (uu_enable update)
      (assign (λ c, set_us_comment (updated_comment c)) (uu_comment update) (updated_user no_user_update (Some (default [] delete)) u)))) as [Hmay ->].
  { unfold may_expire, update_user_first in *. destruct update as [[] [] [t|] ? ? ?], modify; cbn in *;
      try discriminate Hu; injection Hu as <-; (split; [by destruct Hl; auto|done]). }
  split; [|done]. by destruct update as [[] [] [] [] [] []], u.
Qed.

(** C20: What an update of a user does, whatever system calls fail.  If it succeeds, the user has
    the properties that result from deleting and then setting those that were named, all
    other users and tokens are as they were, and the expiration date was only named if the
    caller may modify users.  If it fails, all users and tokens are as they were.  The access
    control lists never change. *)
Theorem update_user_outcome userid update password delete expected caller w c a :
  users_of (files w) = Some c → acl_of (files w) = Some a →
  let '(res, w') := update_user (D := D) userid update password delete expected caller w in
  acl_of (files w') = Some a ∧
  match res with
  | Ok _ => ∃ old c', lookup_user c userid = Ok old ∧ users_of (files w') = Some c' ∧
      lookup_user c' userid = Ok (updated_user update delete old) ∧
      (∀ id, id ≠ userid_to_string userid → sc_get c' id = sc_get c id) ∧
      may_expire (has_priv caller PRIV_ACCESS_MODIFY) update delete
  | Err _ => users_of (files w') = Some c
  end.
Proof using HL HC.
  intros Hu Ha.
  pose (Q := λ (_ : unit) m, acl_of m = Some a ∧ ∃ old c', lookup_user c userid = Ok old ∧ users_of m = Some c' ∧
    lookup_user c' userid = Ok (updated_user update delete old) ∧
    (∀ id, id ≠ userid_to_string userid → sc_get c' id = sc_get c id) ∧
    may_expire (has_priv caller PRIV_ACCESS_MODIFY) update delete).
  assert (triple (same c (Some a)) (update_user (D := D) userid update password delete expected caller) Q (same c (Some a))) as Ht.
  2:{ specialize (Ht w (conj Hu Ha)). destruct (update_user userid update password delete expected caller w) as [[[]|e] w']; [exact Ht|]. by destruct Ht. }
  assert (∀ X (op : io X) k, keeps c (Some a) op → (∀ x, triple (same c (Some a)) (k x) Q (same c (Some a))) →
    triple (same c (Some a)) (op ≫= k) Q (same c (Some a))) as Hstep by (intros X op k Hop Hk; eapply triple_bind; [exact Hop|exact Hk]).
  unfold update_user. apply Hstep; [apply keeps_eq; intros m0; apply law_user_lock|]. intros _.
  eapply triple_bind; [apply (keeps_user_config c (Some a))|]. intros [c1 content]. apply triple_pure. cbn. intros ->.
  apply Hstep; [apply keeps_detect|]. intros _.
  eapply triple_bind; [apply keeps_lift_eq|]. intros old. apply triple_pure. intros Hold. cbv zeta.
  eapply triple_bind; [apply keeps_lift_eq|]. intros u1. apply triple_pure. intros Hu1.
  eapply triple_bind; [apply keeps_lift_eq|]. intros u2. apply triple_pure. intros Hu2.
  destruct (update_parts _ _ _ _ _ _ Hu1 Hu2) as [-> Hmay]. apply Hstep.
  { destruct password as [p|]; [|apply keeps_ret]. destruct (_ && _); [apply keeps_fail|].
    apply keeps_bind; [apply keeps_authenticator|]. intros auth. apply keeps_store_password. }
  intros _. eapply triple_conseq; [apply save_user|done| |done]. intros ? m [(c' & Hc' & Hget) Hacl].
  split; [done|]. exists old, c'. split_and!; [done|done| | |done].
  - unfold lookup_user. by rewrite Hget, sc_get_insert, decide_True by done.
  - intros id Hid. by rewrite Hget, sc_get_insert, decide_False by done.
Qed.
(** ** Listing users *)

Lemma tokens_of_others tokens u v : u ≠ v → tokens_of (filter (λ t, au_user (tk_tokenid t) ≠ v) tokens) u = tokens_of tokens u.
Proof.
  intros Hne. unfold tokens_of. induction tokens as [|t tokens IH]; [done|]. rewrite (filter_cons _ t).
  destruct (decide (au_user (tk_tokenid t) ≠ v)) as [Ht|Ht].
  - by rewrite !filter_cons, IH.
  - rewrite IH, filter_cons_False; [done|]. intros [_ <-]. by apply Ht.
Qed.
(** The map of the tokens, from which the users take theirs, gives every user all tokens of the user. *)
Lemma with_tokens_all tokens users :
  NoDup (us_userid <$> users) → with_tokens tokens users = (λ u, mkUserWithTokens u (tokens_of tokens (us_userid u)) false None) <$> users.
Proof.
  revert tokens. induction users as [|u users IH]; intros tokens; [done|]. cbn. intros [Hu Hnd]%NoDup_cons. f_equal.
  rewrite IH by done. apply list_fmap_ext. intros i v Hv. rewrite tokens_of_others; [done|]. intros Heq. apply Hu.
  rewrite <- Heq. apply list_elem_of_fmap_2. by eapply list_elem_of_lookup_2.
Qed.
(** Callers without the privilege to audit users see no other user and no other user's tokens. *)
Lemma list_users_access include_tokens caller w l w' :
  list_users include_tokens caller w = (Ok l, w') →
  has_priv caller PRIV_SYS_AUDIT = false →
  ∀ x, x ∈ l → us_userid (ut_user x) = au_user (ca_auth_id caller) ∧
    ∀ t, t ∈ ut_tokens x → au_user (tk_tokenid t) = au_user (ca_auth_id caller).
Proof.
  unfold list_users. rewrite io_bind_run. destruct (user_config w) as [[[config content]|e] w1]; [|done]. cbv zeta.
  intros [= <- ->] Hp. rewrite Hp. set (users := filter _ _).
  assert (∀ u, u ∈ users → us_userid u = au_user (ca_auth_id caller)) as Husers.
  { intros u. unfold users. rewrite list_elem_of_filter. by intros [[|] _]. }
  assert (∀ tokens us x, x ∈ with_tokens tokens us → ut_user x ∈ us ∧ ∀ t, t ∈ ut_tokens x → au_user (tk_tokenid t) = us_userid (ut_user x)) as Hwith.
  { intros tokens us x. revert tokens. induction us as [|u us IH]; intros tokens; cbn; [by intros ?%not_elem_of_nil|].
    intros [->|Hx]%elem_of_cons.
    - split; [left|]. intros t. cbn. unfold tokens_of. rewrite list_elem_of_filter. by intros [[_ ?] _].
    - destruct (IH _ Hx) as [? ?]. split; [by right|done]. }
  intros x. destruct include_tokens.
  - intros [Hu Ht]%Hwith. specialize (Husers _ Hu). split; [done|]. intros t Hin. by rewrite (Ht t Hin).
  - intros (u & -> & Hu)%list_elem_of_fmap. split; [by apply Husers|]. by intros t ?%not_elem_of_nil.
Qed.
End theorems.
