(* ===== verification/AccessDemo.v ===== *)
(** * Users: concrete runs

    Users, access control lists and passwords in files: an instance of [AccessControl]
    for which the laws [AccessLaws] hold, and runs of the handlers with it. *)

From S2P Require Import Prelude FileSystem SectionConfig RemotesConfig JsonValue ResourceList ApiRouter CephText Realms RealmProperties AccessUsers AccessProperties.
Import RealmsDemo.
#[local] Open Scope string_scope.
#[local] Open Scope list_scope.

Module UsersDemo.

(** The configuration: a map that is stored as text. *)
#[local] Instance userid_countable : Countable Userid.
Proof. refine (inj_countable' (λ u, (ui_name u, ui_realm u)) (λ x, mkUserid x.1 x.2) _). by intros []. Defined.
#[local] Instance authid_countable : Countable Authid.
Proof. refine (inj_countable' (λ a, (au_user a, au_tokenname a)) (λ x, mkAuthid x.1 x.2) _). by intros []. Defined.
Definition section_to (s : access_section) :=
  match s with
  | UserSection u => inl (us_userid u, us_comment u, us_enable u, us_expire u, us_firstname u, us_lastname u, us_email u)
  | TokenSection t => inr (tk_tokenid t, tk_data t)
  end.
Definition to_section x : access_section :=
  match x with
  | inl (a, b, c, d, e, f, g) => UserSection (mkAccessUser a b c d e f g)
  | inr (a, b) => TokenSection (mkApiToken a b)
  end.
#[local] Instance access_section_eq_dec : EqDecision access_section.
Proof. refine (inj_eq_dec section_to). intros [[]|[]] [[]|[]] [=]; congruence. Defined.
#[local] Instance access_section_countable : Countable access_section.
Proof. refine (inj_countable' section_to to_section _). by intros [[]|[]]. Defined.

Definition text_write {X} `{Countable X} (x : X) : string := "#" +:+ bits (encode x).
Definition text_read {X} `{Countable X, Empty X} (s : string) : result error X :=
  match s with
  | "" => Ok ∅
  | String _ s => ok_or (decode (of_bits s)) EInvalid
  end.
Lemma text_read_write {X} `{Countable X, Empty X} (x : X) : text_read (text_write x) = Ok x.
Proof. unfold text_write. cbn. by rewrite of_bits_bits, decode_encode. Qed.
Definition file_read {X} `{Countable X, Empty X} (name : string) : io (X * string) :=
  o ← fs_open name;
  let content := default "" o in
  x ← io_lift (text_read content);
  mret (x, content).
Definition file_write {X} `{Countable X} (name : string) (x : X) : io unit := fs_replace name (text_write x).
Definition file_edit {X} `{Countable X, Empty X} (name : string) (f : X → X) : io unit :=
  '(x, _) ← file_read name;
  file_write name (f x).
Definition file_view {X} `{Countable X, Empty X} (name : string) (m : gmap string string) : option X :=
  result_ok (text_read (default "" (m !! name))).

Definition users : Type := gmap string access_section.
#[local] Instance users_sections : SectionConfigData users access_section := gmap_config.
#[local] Instance users_laws : SectionConfigLaws users access_section := gmap_config_laws.
Definition acls : Type := gset Authid.
#[local] Instance access : AccessControl users acls (gmap string string) := {|
  user_lock_config := fs_sync;
  user_config := file_read "user.cfg";
  user_save_config := file_write "user.cfg";
  acl_lock_config := fs_sync;
  acl_config := '(a, _) ← file_read "acl.cfg"; mret a;
  acl_save_config := file_write "acl.cfg";
  delete_authid a x := a ∖ {[x]};
  delete_secret x := file_edit "token.shadow" (λ s : gset Authid, s ∖ {[x]});
  tfa_write_lock := fs_sync;
  tfa_read := '(t, _) ← file_read "tfa.json"; mret t;
  tfa_remove_user t u := Ok (delete u t);
  tfa_write := file_write "tfa.json";
  password_store name p := file_edit "shadow.json" (λ s : gmap string string, <[name := p]> s);
  password_remove name := file_edit "shadow.json" (λ s : gmap string string, delete name s);
|}.
Definition users_of : gmap string string → option users := file_view "user.cfg".
Definition acl_of : gmap string string → option acls := file_view "acl.cfg".

Section files.
Context {X : Type} `{Countable X, Empty X} (m0 : gmap string string) (name : string).
Lemma triple_file_read : triple (λ m, m = m0) (file_read (X := X) name) (λ x m, m = m0 ∧ file_view name m0 = Some x.1) (λ m, m = m0).
Proof.
  eapply triple_bind; [apply triple_open|]. intros o. apply triple_pure. intros ->. cbv zeta.
  eapply (triple_bind _ _ _ (λ x m, m = m0 ∧ file_view name m0 = Some x)).
  - apply triple_lift. intros m ->. unfold file_view. by destruct (text_read _).
  - intros x. apply triple_pure. intros Hx. by apply triple_ret.
Qed.
Lemma triple_file_write (x : X) :
  triple (λ m, m = m0) (file_write name x) (λ _ m, file_view name m = Some x ∧ ∀ f, f ≠ name → m !! f = m0 !! f) (λ m, m = m0).
Proof.
  eapply triple_conseq; [apply (triple_replace m0 name)|done| |done]. intros ? m ->. split.
  - unfold file_view. rewrite lookup_insert_eq. exact (f_equal result_ok (text_read_write x)).
  - intros f Hf. by rewrite lookup_insert_ne by done.
Qed.
Lemma triple_file_edit (f : X → X) :
  triple (λ m, m = m0) (file_edit name f) (λ _ m, ∀ g, g ≠ name → m !! g = m0 !! g) (λ m, m = m0).
Proof.
  eapply triple_bind; [apply triple_file_read|]. intros [x content]. apply triple_pure. intros _.
  eapply triple_conseq; [apply triple_file_write|done| |done]. by intros ? m [_ ?].
Qed.
End files.
Lemma views_of_others (m m0 : gmap string string) name :
  name ≠ "user.cfg" → name ≠ "acl.cfg" → (∀ f, f ≠ name → m !! f = m0 !! f) → users_of m = users_of m0 ∧ acl_of m = acl_of m0.
Proof. intros Hu Ha Hf. unfold users_of, acl_of, file_view. by rewrite !Hf. Qed.
Lemma edit_keeps_views {X} `{Countable X, Empty X} m0 name (f : X → X) :
  name ≠ "user.cfg" → name ≠ "acl.cfg" →
  triple (λ m, m = m0) (file_edit name f) (λ _ m, users_of m = users_of m0 ∧ acl_of m = acl_of m0)
    (λ m, users_of m = users_of m0 ∧ acl_of m = acl_of m0).
Proof.
  intros Hu Ha. eapply triple_conseq; [apply (triple_file_edit m0)|done| |by intros m ->].
  intros ? m Hf. by eapply views_of_others.
Qed.

#[local] Instance access_laws : AccessLaws users_of acl_of (λ (a : acls) x, x ∈ a).
Proof.
  split; intros m0; try (apply triple_sync).
  - apply triple_file_read.
  - intros c. eapply triple_conseq; [apply (triple_file_write m0)|done| |done]. intros ? m [Hc Hf]. split; [by exists c|].
    unfold acl_of, file_view. by rewrite Hf.
  - eapply triple_bind; [apply triple_file_read|]. intros [a content]. apply triple_pure. intros Ha. by apply triple_ret.
  - intros a. eapply triple_conseq; [apply (triple_file_write m0)|done| |done]. intros ? m [Ha Hf]. split; [done|].
    unfold users_of, file_view. by rewrite Hf.
  - intros x y. cbn. set_solver.
  - intros x. by apply edit_keeps_views.
  - eapply triple_bind; [apply triple_file_read|]. intros [t content]. apply triple_pure. intros _. by apply triple_ret.
  - intros t. eapply triple_conseq; [apply (triple_file_write m0)|done| |by intros m ->]. intros ? m [_ Hf]. by apply (views_of_others m m0 "tfa.json").
  - intros name p. by apply edit_keeps_views.
  - intros name. by apply edit_keeps_views.
Qed.

Definition joe : Userid := mkUserid "joe" "pdm".
Definition ann : Userid := mkUserid "ann" "corp".
Definition plain (u : Userid) : User := mkAccessUser u None None None None None None.
Definition joe_ci : ApiToken := mkApiToken (mkAuthid joe (Some "ci")) "".
Definition two_users : users :=
  {["joe@pdm" := UserSection (plain joe); "joe@pdm!ci" := TokenSection joe_ci; "ann@corp" := UserSection (plain ann)]}.
Definition some_acls : acls := {[mkAuthid joe None; mkAuthid joe (Some "ci"); mkAuthid ann None]}.
Definition with_users (w : world) : world :=
  FileSystem.World (<["user.cfg" := text_write two_users]> (<["acl.cfg" := text_write some_acls]> (files w))) (faults w).
(** The built-in realm, the LDAP realm [corp] and the users. *)
Definition begin : world := with_users started.
Definition sections_of (w : world) : option (list string) := (λ c : users, (map_to_list c).*1) <$> users_of (files w).

(** A password cannot be stored for the user of an LDAP realm: the request fails, but the user was
    created. *)
Example create_user_keeps_refused :
  let '(res, w) := create_user (D := domains) (Some "secret") (plain (mkUserid "eve" "corp")) begin in
  res = Err (EMsg "storing passwords is not implemented for LDAP realms") ∧
  (λ c : users, result_ok (lookup_user c (mkUserid "eve" "corp"))) <$> users_of (files w) = Some (Some (plain (mkUserid "eve" "corp"))).
Proof. vm_compute. done. Qed.

(** The users of a realm that was deleted cannot be deleted any more. *)
Example users_of_deleted_realm :
  let w := with_users (run [DeleteLdap "corp" None] started) in
  (delete_user (D := domains) ann None begin).1 = Ok tt ∧
  (delete_user (D := domains) ann None w).1 = Err (EMsg "unknown realm corp").
Proof. vm_compute. done. Qed.

Lemma users_begin : users_of (files begin) = Some two_users ∧ acl_of (files begin) = Some some_acls.
Proof.
  split.
  - unfold users_of, file_view, begin, with_users. cbn [files]. rewrite lookup_insert_eq. exact (f_equal result_ok (text_read_write two_users)).
  - unfold acl_of, file_view, begin, with_users. cbn [files]. rewrite lookup_insert_ne, lookup_insert_eq by done.
    exact (f_equal result_ok (text_read_write some_acls)).
Qed.
Lemma two_users_tokens : tokens_ok two_users.
Proof.
  intros id t Ht. change (two_users !! id = Some (TokenSection t)) in Ht. unfold two_users in Ht.
  apply lookup_insert_Some in Ht as [[<- [=]]|[_ Ht]].
  apply lookup_insert_Some in Ht as [[<- [= <-]]|[_ Ht]]; [by split; [|eexists]|].
  by apply lookup_singleton_Some in Ht as [<- [=]].
Qed.

Lemma delete_user_complete_witness :
  ∃ c' a', users_of (files (delete_user (D := domains) joe None begin).2) = Some c' ∧
    acl_of (files (delete_user (D := domains) joe None begin).2) = Some a' ∧ without_user two_users joe c' ∧ mkAuthid joe None ∉ a'.
Proof.
  pose proof (delete_user_complete (D := domains) joe None begin two_users some_acls
    (proj1 users_begin) (proj2 users_begin) two_users_tokens) as Hd.
  assert (result_ok (delete_user (D := domains) joe None begin).1 = Some tt) as Hok by (vm_compute; reflexivity).
  destruct (delete_user (D := domains) joe None begin) as [[u|e] w']; [|discriminate Hok].
  destruct Hd as (c' & a' & Hc & Ha & Hw & Hx). exists c', a'. split_and!; [exact Hc|exact Ha|exact Hw|].
  intros Hin. destruct (proj1 (Hx _) Hin) as (_ & Hne & _). by apply Hne.
Defined.

Definition rename : UserUpdater := mkUserUpdater (Some " on leave ") (Some false) None None None None.
Definition nobody : caller := mkCaller (mkAuthid joe None) (mkUser (λ _, 0%Z) (λ _ _, Err (EMsg "permission denied")) (λ _ _, Ok false)) false.
Lemma update_user_outcome_witness :
  let '(res, w') := update_user (D := domains) joe rename (Some "new") None None nobody begin in
  acl_of (files w') = Some some_acls ∧ res = Ok tt.
Proof.
  pose proof (update_user_outcome (D := domains) joe rename (Some "new") None None nobody begin two_users some_acls
    (proj1 users_begin) (proj2 users_begin)) as Ho.
  assert (result_ok (update_user (D := domains) joe rename (Some "new") None None nobody begin).1 = Some tt) as Hok by (vm_compute; reflexivity).
  destruct (update_user (D := domains) joe rename (Some "new") None None nobody begin) as [[[]|e] w']; [|discriminate Hok].
  split; [exact (proj1 Ho)|reflexivity].
Defined.
End UsersDemo.
